(* ===== verification/_CoqProject ===== *)
-Q . S2P
Prelude.v
Flags.v
IntMath.v
AddrRange.v
EventQueue.v
EventQueueSpec.v
EventQueueCorrect.v
EventSched.v
Double.v
EnergySM.v
EnergyMgmt.v
Clock.v
Cpu.v
VirtualDevice.v
Nvp.v
PageTable.v
ProcessMem.v
Packet.v
AbstractMem.v
PacketQueue.v
SimpleMem.v
AtomicMem.v
AddrMap.v
PhysMem.v
PhysMemInit.v
XbarRoute.v
XbarLayer.v
NoncoherentXbar.v
XbarCorrect.v
SystemBus.v
CacheTags.v
CacheLru.v
Cache.v
CacheContent.v
CacheCorrect.v
CacheFlush.v
CacheSystem.v
MemSystems.v
FplibCore.v
Fplib.v
FplibConv.v
FpSpec.v
FpBits.v
FpFields.v
FpRound.v
FpOps.v
FpAdd.v
FpMul.v
FpDiv.v
FpSqrt.v
FpFma.v
FpSteps.v
FpCompare.v
FpConvert.v
FpFixed.v
