(* ===== verification/Prelude.v ===== *)
(** * A verification library for gem5-nvpsim

    gem5-nvpsim extends the gem5 simulator with a model of non-volatile,
    energy-harvesting platforms: an energy manager watches a capacitor and
    announces power failures, a processor and its virtual devices stop and
    resume.  This library models that extension and the parts of gem5 it stands
    on, and proves them correct.  Paths below are relative to [src/gem5/src].

    ** The program and its model

    Everything happens in events.  The event queue ([sim/eventq.*]) keeps them
    ordered by time and priority and calls their handlers.  Simulation objects
    schedule their own events, relative to the clock of their domain
    ([sim/clocked_object.hh], [sim/clock_domain.cc]).  The energy manager
    ([engy/]) is such an object; it is fed by a harvester, asks a state machine
    what each change of the energy means and broadcasts the answer to the
    processor ([cpu/simple/atomic.cc]) and the devices ([vdev/vdev.cc]), which
    delay the processor in turn.  A load or store of the processor is
    translated by the page table of the process ([mem/page_table.cc]), which
    [sim/process.cc] fills with pages from [sim/system.cc], and is sent as a
    packet ([mem/packet.*]), perhaps through a cache ([mem/cache/]) and a
    crossbar ([mem/xbar.*], [mem/noncoherent_xbar.*]), to a memory
    ([mem/abstract_mem.*], [mem/simple_mem.*]) or directly to the physical
    memory of the system ([mem/physical.*]).  Address ranges
    ([base/addr_range*.hh]) route it.  The floating-point instructions of the
    processor are computed on integers by a library of their own
    ([arch/arm/insts/fplib.*]).

    - [Prelude]: machine integers with their wrap-around, the error monad
      [result] (a failed assertion, [panic], [fatal], a bad pointer, a shift that
      C++ leaves undefined, fuel used up), lemmas on lists and options.
    - [Flags], [IntMath]: [base/flags.hh], [base/intmath.hh], [base/bitfield.hh].
    - [AddrRange]: [base/addr_range.hh] and [base/addr_range_map.hh]; a
      [std::map] is a list sorted by the code's [operator<].
    - [EventQueue]: the queue as it is written, events in a heap linked by
      [nextBin] and [nextInBin]; [EventQueueSpec] the abstract queue, a sorted
      sequence of stacks, and the shape predicate that relates the two;
      [EventQueueCorrect] the invariant and the theorems on every public
      operation and on the simulation loop.
    - [EventSched]: the interface [EventSched] and its contract
      [EventSchedLaws], a type class; the queue is an instance, the clients are
      verified against the contract.
    - [Double]: C++ [double]s, bit-exactly, as [spec_float] (53, 1024).
    - [EnergySM]: the machines [SimpleEnergySM], [SM_TwoThres], [SM_Retention],
      [DFS_LRY] and the [DVFS] strategy; [EnergyMgmt]: the manager, the
      harvester and the energy ports.
    - [Clock]: [Clocked], source and derived clock domains, voltage domains and
      [DVFSHandler].
    - [Cpu]: the tick, power and device operations of [AtomicSimpleCPU] and the
      device registry of [BaseCPU]; [VirtualDevice]: [VirtualDevice] with its
      two events; [Nvp]: processor, devices and manager on one queue.
    - [PageTable]: [FuncPageTable] with its cache of three entries, over the ARM
      entries; [ProcessMem]: page allocation, [allocateMem], [fixupStackFault].
    - [Packet]: [Request], [MemCmd], [Packet]; [AbstractMem]: accesses to a
      memory and its locked addresses; [PacketQueue]: the queues behind ports;
      [SimpleMem]: [SimpleMemory]; [AtomicMem]: [readMem] and [writeMem] of the
      processor, [TLB::translateSe] and the monitor of [locked_mem.hh], over
      any memory that keeps the contract [MemPortLaws].
    - [AddrMap], [PhysMem], [PhysMemInit]: the address map of the system, the
      accesses of [PhysicalMemory] and its constructor with the backing stores.
    - [XbarRoute], [XbarLayer]: routing by address and the layers of
      [BaseXBar]; [NoncoherentXbar]: the handlers of [NoncoherentXBar];
      [XbarCorrect]: their invariant, with neighbours that may call the crossbar
      again before they return.
    - [SystemBus]: processor port, crossbar and physical memory put together; an
      instance of [MemPortLaws].
    - [CacheTags]: [CacheBlk], [CacheSet] and the tag stores of [LRU] and
      [RandomRepl]; [CacheLru]: sequences of references on them; [Cache]: atomic
      and functional accesses, fills, writebacks and flushes of [Cache];
      [CacheContent], [CacheCorrect], [CacheFlush]: what its blocks hold and
      what the operations keep; [CacheSystem]: a cache over a memory, again an
      instance of [MemPortLaws]; [MemSystems]: programs of loads and stores over
      any of these memories.
    - [FplibCore], [Fplib], [FplibConv]: [fplib.cc] on its bit patterns, from the
      shifts and the arithmetic on 128 bits to every function of [fplib.hh], with
      the flags of the status register; [FpSpec]: IEEE 754 over the real numbers,
      written independently of the code; [FpBits], [FpFields], [FpRound],
      [FpOps]: what all operations share; [FpAdd], [FpMul], [FpDiv], [FpSqrt],
      [FpFma], [FpSteps], [FpCompare], [FpConvert], [FpFixed]: one group of
      functions each.

    A pure function of the code is a function; an operation of a component
    takes its state (a record with the code's fields) and returns [result] of
    the new state, every assertion, [panic] and null dereference of the code
    being an error value.  Code that calls back into its caller before it
    returns (a peer port, a device that answers at once, an event handler) is a
    function on a whole world, of which the component is given by a pair of
    accessors; so re-entrance is part of the model.

    ** What is proved

    - Event queue: schedule, deschedule and reschedule refine the operations of
      the sorted sequence of stacks on every branch, the error branches
      included; the event served is the least; the loops serve all that is due
      and never fail, and time never goes back.
    - Address decoding: ranges, interleaving and merging mean what their sets of
      addresses say, and [find] is exact on disjoint maps.
    - Energy: the energy stays between its bounds with all rounding counted;
      machines report exactly their changes of state; messages are delivered
      to every slave, in the order they were sent.
    - Platform: from a state of the invariant every sequence of events runs
      without a failed assertion, through any number of power failures, as long as
      time stays far from the end of its range ([run_room]) and the program uses
      its devices in turn ([program_ok]); an interrupted task is resumed with
      exactly the time it had left.  The theorems also state where the code falls
      short of this ([second_outage_loses_task], [reinit_then_outage_aborts],
      [device_before_cpu_aborts]).
    - Clocks: [update] skips whole periods as a loop would; requests for a
      performance level are refused or carried out, never half done.
    - Memory: the page table with its cache answers like one without; pages
      given to processes are fresh, outside the region of the m5 operations
      ([hits_m5ops]); every access of a memory refines an access to an array of
      bytes with a table of reservations, so a store conditional succeeds exactly
      if its reservation stands, which swaps and stores that begin in another
      granule do not end ([clears]); queues and the simple memory never forget to
      send and fail only beyond 100 packets; the physical memory of many ranges
      answers like one array of bytes.
    - Crossbar: an address is routed to the port that announced it; whatever the
      neighbours do, no assertion fails, a response returns to the port of its
      request, and the crossbar and the fast path past it cannot be told apart.
    - Cache: over every memory that keeps the contract, with every geometry of
      less than 4 GiB and either policy, a cache answers requests that are not
      secure like the memory alone, a flush leaves nothing behind, and the tags
      stay well-formed; with [LRU] a reference hits exactly if at no time since
      the last one to its block were there as many others of its set, referenced
      after it and not invalidated, as there are ways ([kept]).  An
      uncacheable write of a whole line is lost ([ca_lost]); a larger cache
      writes past its arrays ([tags_well_formed]).
    - Loads and stores of the processor, split and translated, act on one array
      of bytes, so the processor cannot tell whether it has a cache.
    - Floating point: for every operand and rounding mode, addition, subtraction,
      multiplication, fused multiply-add, division, square root and the
      conversions return the exact real result rounded once, with the exceptions
      of IEEE 754 and the NaNs of ARM; comparisons, minima and maxima follow the
      order of the numbers.  [fp64_muladd] does so except where it shifts words by
      their width, which C++ leaves undefined, and the theorem says exactly when.
      Widening and narrowing again gives back the number (rounding ties away
      from zero, which the code asserts not to meet, aborts instead).

    ** Fuel

    A loop that follows pointers takes fuel, the number of events in the heap,
    which bounds the length of any chain of a well-formed queue; the theorems
    show that it suffices.  [readMem] and [writeMem] take two rounds, since they
    leave the loop when no second part is left; [tick]'s loop runs [width]
    rounds; loops over pages or devices run over the list of them.  The rounds
    of the simulation loop are an argument; the theorems hold for every number
    of rounds, and [serviceEvents_drains] shows how many are enough.  The loops of
    [fplib.cc] run over lists of constants.

    ** What is not modelled

    Tracing, statistics, serialisation and the Python configuration have no
    effect on the state modelled.  The instruction set (decoding and execution)
    is a parameter of the processor; random latencies, memory-mapped registers
    and peers are parameters.  Full-system translation, the out-of-order and
    in-order processors, coherent crossbars, Ruby, DRAM controllers, devices
    other than the virtual ones, the loaders and the system-call tables are
    large components of their own that the platform's configurations do not
    need; they are left out.  Of the caches, the timing mode with its miss
    registers, snoops and prefetchers and the fully associative tag store are
    left out; the processor modelled is atomic, and so are its accesses to the
    cache.  The barrier between event queues on several host
    threads is left out with the threads: the model has one queue.  The host is
    little-endian, as [bytes_le] assumes. *)
From Stdlib Require Export ZArith Lia.
From stdpp Require Export base tactics option list gmap.

#[global] Open Scope Z_scope.

(** ** Machine integers

    A [uintN_t] of the code is a [Z] in [[0, 2^N)]; every operation of the code
    that can leave that interval is followed by [wrap N]. *)

Declare Scope word_scope.
Delimit Scope word_scope with word.

(** Reduction modulo [2^n], the conversion of C++ to an unsigned type of
    [n] bits. *)
Definition wrap (n x : Z) : Z := x mod 2 ^ n.

Definition u64 (x : Z) : Z := wrap 64 x.
Definition u32 (x : Z) : Z := wrap 32 x.
Definition u16 (x : Z) : Z := wrap 16 x.
Definition u8 (x : Z) : Z := wrap 8 x.

(** Conversion to a signed type of [n] bits (two's complement). *)
Definition swrap (n x : Z) : Z := (x + 2 ^ (n - 1)) mod 2 ^ n - 2 ^ (n - 1).

(** [x] is a value of the unsigned type of [n] bits. *)
Definition in_range (n x : Z) : Prop := 0 <= x < 2 ^ n.

Notation "'is_u64' x" := (in_range 64 x) (at level 10, x at level 9) : word_scope.
Notation "'is_u16' x" := (in_range 16 x) (at level 10, x at level 9) : word_scope.
Notation "'is_u8' x" := (in_range 8 x) (at level 10, x at level 9) : word_scope.
#[global] Open Scope word_scope.

(** The shared automation: [word] proves range side conditions, [sim] the
    rewriting lemmas of the error monad. *)
Create HintDb word.
Create Rewrite HintDb sim.

Lemma wrap_range n x : 0 <= n -> in_range n (wrap n x).
Proof. intros Hn. unfold in_range, wrap. apply Z.mod_pos_bound. lia. Qed.

Lemma wrap_small n x : in_range n x -> wrap n x = x.
Proof. unfold in_range, wrap. intros H. now apply Z.mod_small. Qed.

Lemma wrap_wrap n x : 0 <= n -> wrap n (wrap n x) = wrap n x.
Proof. intros Hn. now apply wrap_small, wrap_range. Qed.

Lemma wrap_add_wrap_l n x y : wrap n (wrap n x + y) = wrap n (x + y).
Proof. unfold wrap. now rewrite Zplus_mod_idemp_l. Qed.

Lemma wrap_mul_wrap_l n x y : wrap n (wrap n x * y) = wrap n (x * y).
Proof. unfold wrap. now rewrite Zmult_mod_idemp_l. Qed.

Lemma u64_small x : is_u64 x -> u64 x = x.
Proof. apply wrap_small. Qed.

Lemma u64_range x : is_u64 (u64 x).
Proof. now apply wrap_range. Qed.

#[export] Hint Resolve wrap_range u64_range : word.

(** ** Bits of machine integers *)

Lemma wrap_testbit n x i :
  0 <= n -> Z.testbit (wrap n x) i = ((i <? n) && Z.testbit x i)%bool.
Proof.
  intros Hn. unfold wrap. destruct (Z.ltb_spec i n).
  - destruct (Z_lt_le_dec i 0).
    + now rewrite !Z.testbit_neg_r by lia.
    + now rewrite Z.mod_pow2_bits_low by lia.
  - now rewrite Z.mod_pow2_bits_high by lia.
Qed.

Lemma in_range_testbit n x i :
  0 <= n -> in_range n x -> n <= i -> Z.testbit x i = false.
Proof.
  intros Hn Hx Hi. rewrite <- (wrap_small n x Hx), wrap_testbit by lia.
  now rewrite (proj2 (Z.ltb_ge i n)) by lia.
Qed.

Lemma testbit_in_range n x :
  0 <= n -> 0 <= x -> (forall i, n <= i -> Z.testbit x i = false) -> in_range n x.
Proof.
  intros Hn Hx Hb. split; [done|].
  destruct (Z_lt_le_dec x (2 ^ n)) as [|Hge]; [done|exfalso].
  assert (0 < x) as Hpos by (pose proof (Z.pow_pos_nonneg 2 n); lia).
  assert (n <= Z.log2 x) as Hl.
  { rewrite <- (Z.log2_pow2 n) by lia. now apply Z.log2_le_mono. }
  specialize (Hb _ Hl). rewrite Z.bit_log2 in Hb by lia. done.
Qed.

(** Every bit of [2^n] but bit [n] is zero. *)
Lemma pow2_testbit n i : 0 <= n -> Z.testbit (2 ^ n) i = (i =? n).
Proof.
  intros Hn. destruct (Z.eqb_spec i n) as [->|Hne].
  - now rewrite Z.pow2_bits_true.
  - now rewrite Z.pow2_bits_false.
Qed.

Lemma ones_testbit n i :
  0 <= n -> Z.testbit (Z.ones n) i = ((0 <=? i) && (i <? n))%bool.
Proof.
  intros Hn. destruct (Z.leb_spec 0 i).
  - destruct (Z.ltb_spec i n).
    + now rewrite Z.ones_spec_low by lia.
    + now rewrite Z.ones_spec_high by lia.
  - now rewrite Z.testbit_neg_r by lia.
Qed.

(** Rewrites the bit of every operator of [Z] the code uses. *)
Ltac simpl_bits :=
  repeat first
    [ rewrite Z.land_spec | rewrite Z.lor_spec | rewrite Z.lxor_spec
    | rewrite Z.lnot_spec by lia
    | rewrite Z.shiftr_spec by lia | rewrite Z.shiftl_spec by lia
    | rewrite wrap_testbit by lia
    | rewrite ones_testbit by lia
    | rewrite pow2_testbit by lia ].

(** Splits on every comparison of [Z] in the goal and closes the impossible
    cases. *)
Ltac split_cmp :=
  repeat match goal with
  | |- context [?a <? ?b] => destruct (Z.ltb_spec a b); try lia
  | |- context [?a <=? ?b] => destruct (Z.leb_spec a b); try lia
  | |- context [?a =? ?b] => destruct (Z.eqb_spec a b); try lia
  end.

(** Extensionality of [Z] by its bits. *)
Ltac bits_ext i := apply Z.bits_inj'; intros i ?.

(** ** Failures of the simulator

    The code stops the simulation by [assert], [panic] and [fatal]; a null or
    dangling pointer is undefined.  Every operation that can do so returns a
    [result]. *)
Inductive sim_error :=
  | Assert_failed   (** an [assert] of the code *)
  | Panic           (** [panic(...)] *)
  | Fatal           (** [fatal(...)] *)
  | Bad_pointer     (** a null or dangling pointer is read *)
  | Undefined       (** a shift the language leaves undefined *)
  | Out_of_fuel.    (** the loop bound of the model; never an outcome of the code *)

#[export] Instance sim_error_eq_dec : EqDecision sim_error.
Proof. solve_decision. Defined.

Inductive result (A : Type) :=
  | Ok (a : A)
  | Err (e : sim_error).
Arguments Ok {A} a.
Arguments Err {A} e.

Definition rbind {A B} (m : result A) (f : A -> result B) : result B :=
  match m with Ok a => f a | Err e => Err e end.

Declare Scope sim_scope.
Notation "'let*' x := c 'in' k" := (rbind c (fun x => k))
  (at level 10, x name, c at level 100, k at level 200) : sim_scope.
Notation "'let*' ' p := c 'in' k" := (rbind c (fun x => match x with p => k end))
  (at level 10, p pattern, c at level 100, k at level 200) : sim_scope.
#[global] Open Scope sim_scope.

(** [assert(b)]. *)
Definition assert_ (b : bool) : result () := if b then Ok () else Err Assert_failed.

(** Reading through a pointer. *)
Definition deref {A} (o : option A) : result A :=
  match o with Some a => Ok a | None => Err Bad_pointer end.

Lemma bind_ok {A B} (m : result A) (f : A -> result B) b :
  rbind m f = Ok b <-> exists a, m = Ok a /\ f a = Ok b.
Proof.
  split; [destruct m; [eauto|done]|]. now intros (a & -> & ?).
Qed.

Lemma assert_ok b u : assert_ b = Ok u <-> b = true.
Proof. destruct b, u; split; done. Qed.

Lemma deref_ok {A} (o : option A) a : deref o = Ok a <-> o = Some a.
Proof. destruct o; cbn; split; congruence. Qed.

#[export] Hint Rewrite @bind_ok assert_ok @deref_ok : sim.

(** Decomposes hypotheses [m = Ok _] built from [rbind], [assert_] and [deref]. *)
Ltac inv_ok :=
  repeat match goal with
  | H : rbind _ _ = Ok _ |- _ => apply bind_ok in H as (? & ? & H)
  | H : assert_ _ = Ok _ |- _ => apply assert_ok in H
  | H : deref _ = Ok _ |- _ => apply deref_ok in H
  | H : Ok _ = Ok _ |- _ => injection H as H
  | H : Err _ = Ok _ |- _ => discriminate H
  end.

(** ** Lists *)

(** [upd l i x] is the C++ assignment [l[i] = x] on an array the code
    indexes within bounds; outside it is undefined behaviour. *)
Definition upd {A} (l : list A) (i : nat) (x : A) : result (list A) :=
  if decide (i < length l)%nat then Ok (<[i:=x]> l) else Err Bad_pointer.

Lemma upd_ok {A} (l : list A) i x l' :
  upd l i x = Ok l' <-> (i < length l)%nat /\ l' = <[i:=x]> l.
Proof. unfold upd. case_decide; split; [intros [= <-] | intros [? ->] | |]; naive_solver. Qed.

Lemma elem_of_concat {A} (ll : list (list A)) x : x ∈ concat ll <-> exists l, x ∈ l /\ l ∈ ll.
Proof. rewrite list_elem_of_In, in_concat. setoid_rewrite list_elem_of_In. naive_solver. Qed.
