(* ===== verification/Flags.v ===== *)
(** * Flag words

    The operations of [base/flags.hh] that do not depend on the width of the
    word; [flag_clear_at] takes it, since the complement is taken in it. *)
From S2P Require Import Prelude.

Definition flag_isSet (flags f : Z) : bool := negb (Z.land flags f =? 0).
Definition flag_allSet (flags f : Z) : bool := Z.land flags f =? f.
Definition flag_noneSet (flags f : Z) : bool := Z.land flags f =? 0.
Definition flag_set (flags f : Z) : Z := Z.lor flags f.
Definition flag_clear_at (w flags f : Z) : Z := Z.land flags (wrap w (Z.lnot f)).

Lemma isSet_set fl f g : flag_isSet (flag_set fl f) g = flag_isSet fl g || flag_isSet f g.
Proof.
  unfold flag_isSet, flag_set. rewrite Z.land_lor_distr_l, <- negb_andb. f_equal.
  apply eq_true_iff_eq. by rewrite andb_true_iff, !Z.eqb_eq, Z.lor_eq_0_iff.
Qed.

Lemma noneSet_isSet fl f : flag_noneSet fl f = negb (flag_isSet fl f).
Proof. unfold flag_noneSet, flag_isSet. by rewrite negb_involutive. Qed.

(** Clearing flags leaves the others. *)
Lemma isSet_clear_at w fl f g :
  Z.land (wrap w (Z.lnot f)) g = g -> flag_isSet (flag_clear_at w fl f) g = flag_isSet fl g.
Proof. intros Hg. unfold flag_isSet, flag_clear_at. by rewrite <- Z.land_assoc, Hg. Qed.
