(* ===== verification/IntMath.v ===== *)
(** * Integer and bit-field arithmetic

    The helpers of [base/intmath.hh] and [base/bitfield.hh] at the type the
    simulator uses them at, [uint64_t].  A shift, a complement or a sum of the
    code is followed by the wrap-around of the type. *)
From S2P Require Import Prelude.

(** ** Definitions: base/bitfield.hh *)

(** The [nbits] low bits set; [nbits] is an [int] in [[0, 64]]. *)
Definition mask (nbits : Z) : Z :=
  if nbits =? 64 then u64 (-1) else u64 (u64 (Z.shiftl 1 nbits) - 1).

Definition bits (val first last : Z) : Z :=
  let nbits := first - last + 1 in
  Z.land (Z.shiftr val last) (mask nbits).

Definition mbits (val first last : Z) : Z :=
  Z.land val (Z.land (mask (first + 1)) (u64 (Z.lnot (mask last)))).

Definition sext (N val : Z) : Z :=
  let sign_bit := bits val (N - 1) (N - 1) in
  if negb (sign_bit =? 0) then Z.lor val (u64 (Z.lnot (mask N))) else val.

Definition insertBits (val first last bit_val : Z) : Z :=
  let t_bit_val := u64 bit_val in
  let bmask := u64 (Z.shiftl (mask (first - last + 1)) last) in
  Z.lor (Z.land (u64 (Z.shiftl t_bit_val last)) bmask)
        (Z.land val (u64 (Z.lnot bmask))).

(** One line [if (bits(val, hi, lo)) { acc += k; val >>= k; }] of the two
    binary searches below, on the pair (accumulator, value). *)
Definition msb_step (hi lo k : Z) (s : Z * Z) : Z * Z :=
  let '(msb, val) := s in
  if negb (bits val hi lo =? 0) then (msb + k, Z.shiftr val k) else s.

Definition findMsbSet (val : Z) : Z :=
  if val =? 0 then 0 else
  let s := msb_step 63 32 32 (0, val) in
  let s := msb_step 31 16 16 s in
  let s := msb_step 15 8 8 s in
  let s := msb_step 7 4 4 s in
  let s := msb_step 3 2 2 s in
  let '(msb, val) := s in
  if negb (bits val 1 1 =? 0) then msb + 1 else msb.

Definition lsb_step (hi k : Z) (s : Z * Z) : Z * Z :=
  let '(lsb, val) := s in
  if bits val hi 0 =? 0 then (lsb + k, Z.shiftr val k) else s.

Definition findLsbSet (val : Z) : Z :=
  if val =? 0 then 64 else
  let s := lsb_step 31 32 (0, val) in
  let s := lsb_step 15 16 s in
  let s := lsb_step 7 8 s in
  let s := lsb_step 3 4 s in
  let s := lsb_step 1 2 s in
  let '(lsb, val) := s in
  if bits val 0 0 =? 0 then lsb + 1 else lsb.

Definition isPow2 (v : Z) : bool := Z.land v (u64 (v - 1)) =? 0.

(** ** Definitions: base/intmath.hh *)

Definition leastSigBit (n : Z) : Z := Z.land n (u64 (Z.lnot (u64 (n - 1)))).

Definition isPowerOf2 (n : Z) : bool := negb (n =? 0) && (leastSigBit n =? n).

(** The trial division loop [for (i = 5; i*i <= n; i += 6)].  At most [n]
    iterations are needed, since [i] starts at 5 and grows. *)
Fixpoint isPrime_loop (fuel : nat) (n i : Z) : bool :=
  match fuel with
  | O => true
  | S fuel =>
      if i * i <=? n then
        if ((n mod i =? 0) || (n mod (i + 2) =? 0))%bool then false
        else isPrime_loop fuel n (i + 6)
      else true
  end.

Definition isPrime (n : Z) : bool :=
  if ((n =? 2) || (n =? 3))%bool then true else isPrime_loop (Z.to_nat n) n 5.

(** The loop of [power]: [x] runs from 1 while [x < e]. *)
Fixpoint power_loop (k : nat) (n result : Z) : Z :=
  match k with
  | O => result
  | S k => power_loop k n (u64 (result * n))
  end.

Definition power (n e : Z) : Z :=
  if e =? 0 then 1 else power_loop (Z.to_nat (e - 1)) n n.

(** One line [if (x & m) { y += k; x >>= k; }] of [floorLog2]. *)
Definition log2_step (m k : Z) (s : Z * Z) : Z * Z :=
  let '(y, x) := s in
  if negb (Z.land x m =? 0) then (y + k, Z.shiftr x k) else s.

(** [floorLog2(unsigned long long)]. *)
Definition floorLog2 (x : Z) : result Z :=
  let* _ := assert_ (0 <? x) in
  let s := log2_step 0xffffffff00000000 32 (0, x) in
  let s := log2_step 0x00000000ffff0000 16 s in
  let s := log2_step 0x000000000000ff00 8 s in
  let s := log2_step 0x00000000000000f0 4 s in
  let s := log2_step 0x000000000000000c 2 s in
  let '(y, x) := s in
  Ok (if negb (Z.land x 2 =? 0) then y + 1 else y).

Definition ceilLog2 (n : Z) : result Z :=
  if n =? 1 then Ok 0 else
  let* y := floorLog2 (u64 (n - 1)) in
  Ok (y + 1).

Definition floorPow2 (n : Z) : result Z :=
  let* y := floorLog2 n in
  Ok (u64 (Z.shiftl 1 y)).

Definition ceilPow2 (n : Z) : result Z :=
  let* y := ceilLog2 n in
  Ok (u64 (Z.shiftl 1 y)).

Definition divCeil (a b : Z) : Z := u64 (u64 (a + b) - 1) / b.

Definition roundUp (val align : Z) : Z :=
  let mask := u64 (align - 1) in
  Z.land (u64 (val + mask)) (u64 (Z.lnot mask)).

Definition roundDown (val align : Z) : Z :=
  let mask := u64 (align - 1) in
  Z.land val (u64 (Z.lnot mask)).

(** ** Masks and fields, bit by bit *)

Lemma mask_ones n : 0 <= n <= 64 -> mask n = Z.ones n.
Proof.
  intros Hn. unfold mask. destruct (Z.eqb_spec n 64) as [->|Hne]; [done|].
  assert (2 ^ n <= 2 ^ 63) by (apply Z.pow_le_mono_r; lia).
  assert (0 < 2 ^ n) by lia.
  rewrite Z.shiftl_1_l, Z.ones_equiv.
  rewrite (u64_small (2 ^ n)) by (split; lia). rewrite u64_small by (split; lia). lia.
Qed.

(** Bit [i] of the extracted field is bit [last + i] of the value. *)
Lemma bits_testbit val first last i :
  0 <= last <= first -> first < 64 -> 0 <= i ->
  Z.testbit (bits val first last) i =
  ((i <=? first - last) && Z.testbit val (last + i))%bool.
Proof.
  intros Hl Hf Hi. unfold bits. rewrite mask_ones by lia. simpl_bits.
  replace (i + last) with (last + i) by lia.
  split_cmp; now rewrite ?andb_true_r, ?andb_false_r.
Qed.

(** The field as a quotient and a remainder. *)
Lemma bits_div_mod val first last :
  0 <= last <= first -> first < 64 ->
  bits val first last = (val / 2 ^ last) mod 2 ^ (first - last + 1).
Proof.
  intros Hl Hf. unfold bits. rewrite mask_ones, Z.land_ones by lia.
  now rewrite Z.shiftr_div_pow2 by lia.
Qed.

Lemma bits_range val first last :
  0 <= last <= first -> first < 64 -> in_range (first - last + 1) (bits val first last).
Proof. intros. rewrite bits_div_mod by lia. apply Z.mod_pos_bound. lia. Qed.

(** Bit [i] of a value with a field inserted. *)
Lemma insertBits_testbit val first last bv i :
  0 <= last <= first -> first < 64 -> is_u64 val -> 0 <= i ->
  Z.testbit (insertBits val first last bv) i =
  if ((last <=? i) && (i <=? first))%bool then Z.testbit bv (i - last) else Z.testbit val i.
Proof.
  intros Hl Hf Hv Hi. unfold insertBits, u64. rewrite mask_ones by lia. simpl_bits.
  destruct (Z.ltb_spec i 64) as [Hlt|Hge].
  - destruct (Z_lt_le_dec (i - last) 0).
    + rewrite !(Z.testbit_neg_r _ (i - last)) by lia. split_cmp. cbn.
      now rewrite andb_true_r.
    + simpl_bits. split_cmp; cbn; rewrite ?andb_true_r, ?andb_false_r, ?orb_false_r; done.
  - rewrite (in_range_testbit 64 val i) by (auto; lia). split_cmp; done.
Qed.

(** ** The binary searches *)

(** A step that halves the window of a most-significant-bit search keeps the
    sum of the offset found so far and the position left to find. *)
Lemma msb_window k x (c : bool) :
  0 < k -> 0 < x < 2 ^ (2 * k) -> (c = true <-> 2 ^ k <= x) ->
  let x' := if c then Z.shiftr x k else x in
  0 < x' < 2 ^ k /\ Z.log2 x = (if c then k else 0) + Z.log2 x'.
Proof.
  intros Hk Hx Hc. assert (2 ^ (2 * k) = 2 ^ k * 2 ^ k) as Hpow.
  { rewrite <- Z.pow_add_r by lia. f_equal. lia. }
  assert (0 < 2 ^ k) by lia. destruct c; cbn.
  - assert (2 ^ k <= x) as Hge by now apply Hc.
    rewrite Z.shiftr_div_pow2 by lia. split.
    + split; [apply Z.div_str_pos; lia | apply Z.div_lt_upper_bound; lia].
    + rewrite <- Z.shiftr_div_pow2, Z.log2_shiftr by lia.
      assert (k <= Z.log2 x) by (rewrite <- (Z.log2_pow2 k) by lia; now apply Z.log2_le_mono).
      lia.
  - assert (~ 2 ^ k <= x) by (intros ?%Hc; done). lia.
Qed.

(** The test [x & m] against the upper half of the window. *)
Lemma land_high k x :
  0 < k -> 0 < x < 2 ^ (2 * k) ->
  negb (Z.land x (Z.shiftl (Z.ones k) k) =? 0) = true <-> 2 ^ k <= x.
Proof.
  intros Hk Hx. assert (Z.land x (Z.shiftl (Z.ones k) k) = Z.shiftl (Z.shiftr x k) k) as ->.
  { bits_ext i. rewrite Z.land_spec, !Z.shiftl_spec by lia. destruct (Z_lt_le_dec (i - k) 0).
    - rewrite !(Z.testbit_neg_r _ (i - k)) by lia. now rewrite andb_false_r.
    - simpl_bits. replace (i - k + k) with i by lia. split_cmp; [now rewrite andb_true_r|].
      rewrite (in_range_testbit (2 * k) x i) by (unfold in_range; lia). done. }
  rewrite negb_true_iff, Z.eqb_neq, Z.shiftl_mul_pow2, Z.shiftr_div_pow2 by lia.
  assert (0 < 2 ^ k) by lia. split; intros Hh.
  - destruct (Z_lt_le_dec x (2 ^ k)); [|lia]. rewrite Z.div_small in Hh by lia. lia.
  - pose proof (Z.div_str_pos x (2 ^ k)). nia.
Qed.

Lemma log2_step_spec m k y x :
  m = Z.shiftl (Z.ones k) k -> 0 < k -> 0 < x < 2 ^ (2 * k) ->
  let '(y', x') := log2_step m k (y, x) in
  0 < x' < 2 ^ k /\ y + Z.log2 x = y' + Z.log2 x'.
Proof.
  intros -> Hk Hx. unfold log2_step.
  pose proof (msb_window k x _ Hk Hx (land_high k x Hk Hx)) as Hw. cbn in Hw.
  destruct (negb _); cbn in *; lia.
Qed.

Lemma bits_high k x :
  0 < k <= 32 -> 0 < x < 2 ^ (2 * k) ->
  negb (bits x (2 * k - 1) k =? 0) = true <-> 2 ^ k <= x.
Proof.
  intros Hk Hx. rewrite bits_div_mod by lia. replace (2 * k - 1 - k + 1) with k by lia.
  assert (2 ^ (2 * k) = 2 ^ k * 2 ^ k) by (rewrite <- Z.pow_add_r by lia; f_equal; lia).
  assert (0 < 2 ^ k) by lia.
  rewrite Z.mod_small by (split; [apply Z.div_pos|apply Z.div_lt_upper_bound]; lia).
  rewrite negb_true_iff, Z.eqb_neq. split; intros Hh.
  - destruct (Z_lt_le_dec x (2 ^ k)); [|lia]. rewrite Z.div_small in Hh by lia. lia.
  - pose proof (Z.div_str_pos x (2 ^ k)). lia.
Qed.

Lemma msb_step_spec hi k y x :
  hi = 2 * k - 1 -> 0 < k <= 32 -> 0 < x < 2 ^ (2 * k) ->
  let '(y', x') := msb_step hi k k (y, x) in
  0 < x' < 2 ^ k /\ y + Z.log2 x = y' + Z.log2 x'.
Proof.
  intros -> Hk Hx. unfold msb_step.
  pose proof (msb_window k x _ ltac:(lia) Hx (bits_high k x Hk Hx)) as Hw. cbn in Hw.
  destruct (negb _); cbn in *; lia.
Qed.

(** The last step of both searches, on a two-bit value. *)
Lemma two_bit_log2 x : 0 < x < 2 ^ 2 -> Z.log2 x = if negb (Z.land x 2 =? 0) then 1 else 0.
Proof. intros Hx. assert (x = 1 \/ x = 2 \/ x = 3) as [->|[->| ->]] by lia; done. Qed.

(** Runs every step of a search: names its result and the fact about it. *)
Ltac run_search :=
  repeat match goal with
  | Hx : 0 < ?x < _ |- context [log2_step ?m ?k (?y, ?x)] =>
      let H := fresh "H" in
      pose proof (log2_step_spec m k y x eq_refl ltac:(lia) Hx) as H;
      destruct (log2_step m k (y, x)) as [? ?]; destruct H as [? ?]
  | Hx : 0 < ?x < _ |- context [msb_step ?hi ?k ?k (?y, ?x)] =>
      let H := fresh "H" in
      pose proof (msb_step_spec hi k y x eq_refl ltac:(lia) Hx) as H;
      destruct (msb_step hi k k (y, x)) as [? ?]; destruct H as [? ?]
  end.

Lemma floorLog2_ok x : 0 < x < 2 ^ 64 -> floorLog2 x = Ok (Z.log2 x).
Proof.
  intros Hx. unfold floorLog2. rewrite (proj2 (Z.ltb_lt 0 x)) by lia.
  cbn [assert_ rbind]. run_search. f_equal.
  match goal with |- context [Z.land ?x5 2] => pose proof (two_bit_log2 x5) end.
  destruct (negb _); lia.
Qed.

Lemma floorLog2_zero : floorLog2 0 = Err Assert_failed.
Proof. reflexivity. Qed.

Lemma two_bit_bits x : 0 < x < 2 ^ 2 -> Z.log2 x = if negb (bits x 1 1 =? 0) then 1 else 0.
Proof. intros Hx. assert (x = 1 \/ x = 2 \/ x = 3) as [->|[->| ->]] by lia; done. Qed.

Lemma findMsbSet_log2 x : 0 < x < 2 ^ 64 -> findMsbSet x = Z.log2 x.
Proof.
  intros Hx. unfold findMsbSet. rewrite (proj2 (Z.eqb_neq x 0)) by lia. run_search.
  match goal with |- context [bits ?x5 1 1] => pose proof (two_bit_bits x5) end.
  destruct (negb _); lia.
Qed.

(** ** The least significant bit *)

(** [lsb_of x p]: bit [p] is the lowest bit set in [x]. *)
Definition lsb_of (x p : Z) : Prop :=
  0 <= p /\ Z.testbit x p = true /\ forall i, i < p -> Z.testbit x i = false.

Lemma lsb_of_unique x p q : lsb_of x p -> lsb_of x q -> p = q.
Proof.
  intros (_ & Hp & Hpl) (_ & Hq & Hql).
  destruct (Z.lt_trichotomy p q) as [Hlt|[->|Hlt]]; [|done|].
  - rewrite (Hql p Hlt) in Hp. done.
  - rewrite (Hpl q Hlt) in Hq. done.
Qed.

Lemma lsb_of_shiftr x k p : 0 <= k -> Z.land x (Z.ones k) = 0 ->
  lsb_of (Z.shiftr x k) p -> lsb_of x (p + k).
Proof.
  intros Hk H0 (Hp & Hb & Hl). split; [lia|]. split.
  - now rewrite Z.shiftr_spec in Hb by lia.
  - intros i Hi. destruct (Z_lt_le_dec i 0); [now apply Z.testbit_neg_r|].
    destruct (Z_lt_le_dec i k).
    + assert (Z.testbit (Z.land x (Z.ones k)) i = false) as Hz by (now rewrite H0, Z.bits_0).
      rewrite Z.land_spec, ones_testbit in Hz by lia.
      rewrite (proj2 (Z.leb_le 0 i)), (proj2 (Z.ltb_lt i k)), andb_true_r in Hz by lia. done.
    + specialize (Hl (i - k) ltac:(lia)). rewrite Z.shiftr_spec in Hl by lia.
      now replace (i - k + k) with i in Hl by lia.
Qed.

(** A step of the search keeps a non-zero value whose lowest bit, shifted by
    the offset, is the lowest bit of the original, and narrows the window. *)
Lemma lsb_step_spec hi k y x :
  hi = k - 1 -> 0 < k <= 32 -> 0 <= x -> (exists j, 0 <= j < 2 * k /\ Z.testbit x j = true) ->
  let '(y', x') := lsb_step hi k (y, x) in
  0 <= x' /\ (exists j, 0 <= j < k /\ Z.testbit x' j = true) /\
  forall p, lsb_of x' p -> lsb_of x (p + (y' - y)).
Proof.
  intros -> Hk Hx (j & Hj & Hb). unfold lsb_step, bits.
  replace (k - 1 - 0 + 1) with k by lia. rewrite Z.shiftr_0_r, mask_ones by lia.
  destruct (Z.eqb_spec (Z.land x (Z.ones k)) 0) as [H0|Hne].
  - split; [now apply Z.shiftr_nonneg|]. split.
    + exists (j - k). destruct (Z_lt_le_dec j k) as [Hlt|Hge].
      * assert (Z.testbit (Z.land x (Z.ones k)) j = false) as Hz by (now rewrite H0, Z.bits_0).
        rewrite Z.land_spec, ones_testbit, Hb in Hz by lia. revert Hz. split_cmp.
      * split; [lia|]. rewrite Z.shiftr_spec by lia. now replace (j - k + k) with j by lia.
    + intros p Hp. replace (y + k - y) with k by lia. now apply lsb_of_shiftr; [lia|..].
  - split; [done|]. split.
    + assert (0 < Z.land x (Z.ones k)) as Hpos.
      { assert (0 <= Z.land x (Z.ones k)) by (apply Z.land_nonneg; auto). lia. }
      pose proof (Z.bit_log2 _ Hpos) as Hlog. rewrite Z.land_spec, ones_testbit in Hlog by lia.
      apply andb_prop in Hlog as [Hx1 Hx2%andb_prop].
      eexists. split; [|exact Hx1]. lia.
    + intros p Hp. now replace (p + (y - y)) with p by lia.
Qed.

Lemma findLsbSet_lsb x : 0 < x < 2 ^ 64 -> lsb_of x (findLsbSet x).
Proof.
  intros Hx. unfold findLsbSet. rewrite (proj2 (Z.eqb_neq x 0)) by lia.
  assert (exists j, 0 <= j < 64 /\ Z.testbit x j = true) as Hj.
  { exists (Z.log2 x). split; [|now apply Z.bit_log2]. split; [apply Z.log2_nonneg|].
    apply Z.log2_lt_pow2; lia. }
  pose proof (lsb_step_spec 31 32 0 x eq_refl ltac:(lia) ltac:(lia) Hj) as H.
  destruct (lsb_step 31 32 _) as [y1 x1], H as (Hx1 & Hj1 & Hl1).
  pose proof (lsb_step_spec 15 16 y1 x1 eq_refl ltac:(lia) ltac:(lia) Hj1) as H.
  destruct (lsb_step 15 16 _) as [y2 x2], H as (Hx2 & Hj2 & Hl2).
  pose proof (lsb_step_spec 7 8 y2 x2 eq_refl ltac:(lia) ltac:(lia) Hj2) as H.
  destruct (lsb_step 7 8 _) as [y3 x3], H as (Hx3 & Hj3 & Hl3).
  pose proof (lsb_step_spec 3 4 y3 x3 eq_refl ltac:(lia) ltac:(lia) Hj3) as H.
  destruct (lsb_step 3 4 _) as [y4 x4], H as (Hx4 & Hj4 & Hl4).
  pose proof (lsb_step_spec 1 2 y4 x4 eq_refl ltac:(lia) ltac:(lia) Hj4) as H.
  destruct (lsb_step 1 2 _) as [y5 x5], H as (Hx5 & Hj5 & Hl5).
  pose proof (lsb_step_spec 0 1 y5 x5 eq_refl ltac:(lia) ltac:(lia) Hj5) as H.
  unfold lsb_step in H. destruct (bits x5 0 0 =? 0), H as (Hx6 & (j & Hj6 & Hb) & Hl6).
  all: assert (j = 0) as -> by lia.
  - assert (lsb_of (Z.shiftr x5 1) 0) as H6.
    { split; [lia|]. split; [done|]. intros; now apply Z.testbit_neg_r. }
    apply Hl6, Hl5, Hl4, Hl3, Hl2, Hl1 in H6. now replace (y5 + 1) with
      (0 + (y5 + 1 - y5) + (y5 - y4) + (y4 - y3) + (y3 - y2) + (y2 - y1) + (y1 - 0)) by lia.
  - assert (lsb_of x5 0) as H6.
    { split; [lia|]. split; [done|]. intros; now apply Z.testbit_neg_r. }
    apply Hl5, Hl4, Hl3, Hl2, Hl1 in H6. now replace y5 with
      (0 + (y5 - y4) + (y4 - y3) + (y3 - y2) + (y2 - y1) + (y1 - 0)) by lia.
Qed.

(** ** Powers of two, rounding and division *)

Lemma u64_lnot_testbit x i :
  0 <= i -> Z.testbit (u64 (Z.lnot x)) i = ((i <? 64) && negb (Z.testbit x i))%bool.
Proof. intros Hi. unfold u64. rewrite wrap_testbit, Z.lnot_spec by lia. done. Qed.

(** With a power-of-two alignment [2^k], rounding down clears the low bits. *)
Lemma roundDown_pow2 v k :
  0 <= k < 64 -> is_u64 v -> roundDown v (2 ^ k) = v - v mod 2 ^ k.
Proof.
  intros Hk Hv. unfold roundDown.
  assert (0 < 2 ^ k < 2 ^ 64) by (split; [lia|apply Z.pow_lt_mono_r; lia]).
  rewrite (u64_small (2 ^ k - 1)) by (split; lia).
  replace (2 ^ k - 1) with (Z.ones k) by (rewrite Z.ones_equiv; lia).
  assert (v - v mod 2 ^ k = Z.shiftl (Z.shiftr v k) k) as ->.
  { rewrite Z.shiftl_mul_pow2, Z.shiftr_div_pow2 by lia.
    pose proof (Z.div_mod v (2 ^ k)). lia. }
  bits_ext i. rewrite Z.land_spec, u64_lnot_testbit, ones_testbit by lia.
  rewrite Z.shiftl_spec by lia. destruct (Z_lt_le_dec (i - k) 0).
  - rewrite (Z.testbit_neg_r _ (i - k)) by lia. split_cmp; cbn; now rewrite ?andb_false_r.
  - rewrite Z.shiftr_spec by lia. replace (i - k + k) with i by lia.
    destruct (Z_lt_le_dec i 64).
    + split_cmp; cbn; now rewrite ?andb_true_r.
    + rewrite (in_range_testbit 64 v i) by (auto; lia). done.
Qed.

Lemma roundUp_pow2 v k :
  0 <= k < 64 -> is_u64 v -> v + 2 ^ k - 1 < 2 ^ 64 ->
  roundUp v (2 ^ k) = (v + 2 ^ k - 1) - (v + 2 ^ k - 1) mod 2 ^ k.
Proof.
  intros Hk Hv Hs. assert (0 < 2 ^ k < 2 ^ 64) by (split; [lia|apply Z.pow_lt_mono_r; lia]).
  destruct Hv. assert (is_u64 (v + 2 ^ k - 1)) by (split; lia).
  rewrite <- roundDown_pow2 by done.
  unfold roundUp, roundDown. rewrite (u64_small (2 ^ k - 1)) by (split; lia).
  now replace (v + (2 ^ k - 1)) with (v + 2 ^ k - 1) by lia; rewrite u64_small.
Qed.

(** Within range, [divCeil] is the quotient rounded up: the least [q] with
    [a <= q * b]. *)
Lemma divCeil_spec a b :
  0 <= a -> 0 < b -> a + b < 2 ^ 64 ->
  a <= divCeil a b * b < a + b /\ 0 <= divCeil a b.
Proof.
  intros Ha Hb Hs. unfold divCeil. rewrite (u64_small (a + b)) by (split; lia).
  rewrite u64_small by (split; lia).
  pose proof (Z.div_mod (a + b - 1) b). pose proof (Z.mod_pos_bound (a + b - 1) b).
  pose proof (Z.div_pos (a + b - 1) b). nia.
Qed.
