(* ===== verification/AddrRange.v ===== *)
(** * Address ranges and the address decoder

    [base/addr_range.hh] (plain, interleaved and XOR-hashed ranges) and
    [base/addr_range_map.hh] (the map every bus uses to route an address).  The
    [std::map] of the code is a list sorted by [operator<]; an iterator is an
    index into it, [tree.end()] is [None]. *)
From S2P Require Import Prelude IntMath.

(** ** Definitions: base/addr_range.hh *)

(** Addresses are [uint64_t], the four interleaving fields [uint8_t]. *)
Record AddrRange := mkAddrRange {
  ar_start : Z;
  ar_end : Z;
  intlvHighBit : Z;
  xorHighBit : Z;
  intlvBits : Z;
  intlvMatch : Z;
}.

#[export] Instance AddrRange_eq_dec : EqDecision AddrRange.
Proof. solve_decision. Defined.

(** [AddrRange(start, end)]. *)
Definition AddrRange_plain (s e : Z) : AddrRange := mkAddrRange s e 0 0 0 0.

(** [AddrRange(start, end, high, xor, bits, match)] with its checks. *)
Definition AddrRange_intlv (s e high xhigh nbits m : Z) : result AddrRange :=
  if negb (nbits =? 0) && (u64 (Z.shiftl 1 nbits) <=? m) then Err Fatal
  else if negb (nbits =? 0) && negb (xhigh =? 0) then
    if xhigh =? high then Err Fatal
    else if high <? xhigh then
      if xhigh - high <? nbits then Err Fatal else Ok (mkAddrRange s e high xhigh nbits m)
    else
      if high - xhigh <? nbits then Err Fatal else Ok (mkAddrRange s e high xhigh nbits m)
  else Ok (mkAddrRange s e high xhigh nbits m).

Definition interleaved (r : AddrRange) : bool := negb (intlvBits r =? 0).

Definition hashed (r : AddrRange) : bool := interleaved r && negb (xorHighBit r =? 0).

Definition granularity (r : AddrRange) : Z :=
  u64 (Z.shiftl 1 (intlvHighBit r - intlvBits r + 1)).

Definition stripes (r : AddrRange) : Z := u32 (u64 (Z.shiftl 1 (intlvBits r))).

Definition ar_size (r : AddrRange) : Z :=
  Z.shiftr (u64 (u64 (ar_end r - ar_start r) + 1)) (intlvBits r).

Definition ar_valid (r : AddrRange) : bool := ar_start r <=? ar_end r.

(** [this->mergesWith(r)]. *)
Definition mergesWith (this r : AddrRange) : bool :=
  (ar_start r =? ar_start this) && (ar_end r =? ar_end this) &&
  (intlvHighBit r =? intlvHighBit this) &&
  (xorHighBit r =? xorHighBit this) &&
  (intlvBits r =? intlvBits this).

Definition contains (this : AddrRange) (a : Z) : bool :=
  let in_range := (ar_start this <=? a) && (a <=? ar_end this) in
  if negb (interleaved this) then in_range
  else if in_range then
    if negb (hashed this) then
      bits a (intlvHighBit this) (intlvHighBit this - intlvBits this + 1) =? intlvMatch this
    else
      Z.lxor (bits a (intlvHighBit this) (intlvHighBit this - intlvBits this + 1))
             (bits a (xorHighBit this) (xorHighBit this - intlvBits this + 1))
        =? intlvMatch this
  else false.

Definition intersects (this r : AddrRange) : result bool :=
  if (ar_end r <? ar_start this) || (ar_end this <? ar_start r) then Ok false
  else if negb (interleaved this) && negb (interleaved r) then Ok true
  else if ar_size r =? 1 then Ok (contains this (ar_start r))
  else if mergesWith this r then Ok (intlvMatch this =? intlvMatch r)
  else Err Panic.

Definition isSubset (this r : AddrRange) : result bool :=
  if interleaved this then Err Panic
  else Ok ((ar_start r <=? ar_start this) && (ar_end this <=? ar_end r)).

(** [operator<], the order of the map. *)
Definition ar_lt (this r : AddrRange) : bool :=
  if negb (ar_start this =? ar_start r) then ar_start this <? ar_start r
  else intlvMatch this <? intlvMatch r.

(** [operator==]. *)
Definition ar_eqb (this r : AddrRange) : bool :=
  if negb (ar_start this =? ar_start r) then false
  else if negb (ar_end this =? ar_end r) then false
  else if negb (intlvBits this =? intlvBits r) then false
  else if negb (intlvBits this =? 0) then
    (intlvHighBit this =? intlvHighBit r) && (intlvMatch this =? intlvMatch r)
  else true.

Definition RangeSize (s size : Z) : AddrRange := AddrRange_plain s (u64 (u64 (s + size) - 1)).
Definition RangeEx (s e : Z) : AddrRange := AddrRange_plain s (u64 (e - 1)).
Definition RangeIn (s e : Z) : AddrRange := AddrRange_plain s e.

(** The loop of the merging constructor: every range has the fields of the
    first and the match values count up from [match]. *)
Fixpoint merge_check (this : AddrRange) (m : Z) (ranges : list AddrRange) : result () :=
  match ranges with
  | [] => Ok ()
  | r :: ranges =>
      if negb (mergesWith this r) then Err Fatal
      else if negb (intlvMatch r =? m) then Err Fatal
      else merge_check this (u8 (m + 1)) ranges
  end.

(** [AddrRange(const std::vector<AddrRange>& ranges)]. *)
Definition AddrRange_merge (ranges : list AddrRange) : result AddrRange :=
  match ranges with
  | [] => Ok (mkAddrRange 1 0 0 0 0 0)
  | r0 :: _ =>
      let this := mkAddrRange (ar_start r0) (ar_end r0) (intlvHighBit r0)
                    (xorHighBit r0) (intlvBits r0) 0 in
      if negb (Z.of_nat (length ranges) =? u64 (Z.shiftl 1 (intlvBits this))) then Err Fatal
      else
        let* _ := merge_check this 0 ranges in
        Ok (mkAddrRange (ar_start r0) (ar_end r0) 0 0 0 0)
  end.

(** ** Definitions: base/addr_range_map.hh *)

Section AddrRangeMap.
Context {V : Type}.

(** [tree.upper_bound(r)]: the first entry [x] with [r < x]. *)
Fixpoint upper_bound (tree : list (AddrRange * V)) (r : AddrRange) : nat :=
  match tree with
  | [] => 0
  | (x, _) :: tree => if ar_lt r x then 0 else S (upper_bound tree r)
  end.

(** [i->first]. *)
Definition key_at (tree : list (AddrRange * V)) (i : nat) : result AddrRange :=
  match tree !! i with Some (x, _) => Ok x | None => Err Bad_pointer end.

(** The backward walk over the ranges of the same contiguous chunk, from
    index [i]; it ends because [i] decreases. *)
Fixpoint find_back (tree : list (AddrRange * V)) (r orig : AddrRange) (i : nat)
    : result (option nat) :=
  match i with
  | O =>
      let* x := key_at tree O in
      let* b := intersects x r in
      Ok (if b then Some O else None)
  | S j =>
      let* x := key_at tree i in
      if mergesWith x orig then
        let* y := key_at tree j in
        let* b := intersects y r in
        if b then Ok (Some j) else find_back tree r orig j
      else
        let* b := intersects x r in
        Ok (if b then Some i else None)
  end.

Definition arm_find (tree : list (AddrRange * V)) (r : AddrRange) : result (option nat) :=
  match tree with
  | [] => Ok None
  | _ =>
      match upper_bound tree r with
      | O =>
          let* x := key_at tree O in
          let* b := intersects x r in
          Ok (if b then Some O else None)
      | S i =>
          let* x := key_at tree i in
          let* b := intersects x r in
          if b then Ok (Some i)
          else if interleaved x then find_back tree r x i
          else Ok None
      end
  end.

(** [find(const Addr &r)]. *)
Definition arm_find_addr (tree : list (AddrRange * V)) (a : Z) : result (option nat) :=
  arm_find tree (RangeSize a 1).

Definition arm_intersect (tree : list (AddrRange * V)) (r : AddrRange) : result bool :=
  let* o := arm_find tree r in
  Ok (match o with Some _ => true | None => false end).

(** [std::map::insert]: an entry with an equivalent key is left alone. *)
Fixpoint map_insert (tree : list (AddrRange * V)) (r : AddrRange) (d : V) : list (AddrRange * V) :=
  match tree with
  | [] => [(r, d)]
  | (x, v) :: tree' =>
      if ar_lt r x then (r, d) :: tree
      else if ar_lt x r then (x, v) :: map_insert tree' r d
      else tree
  end.

(** [insert(r, d)]: the map, and whether the iterator it returns is not
    [end()]. *)
Definition arm_insert (tree : list (AddrRange * V)) (r : AddrRange) (d : V)
    : result (list (AddrRange * V) * bool) :=
  let* b := arm_intersect tree r in
  Ok (if b : bool then (tree, false) else (map_insert tree r d, true)).

Definition arm_erase (tree : list (AddrRange * V)) (p : nat) : list (AddrRange * V) :=
  delete p tree.

End AddrRangeMap.

(** ** Interleaving *)

(** A well-formed range: what the constructors accept, with the fields in
    their types and the slices inside the 64 bits of an address. *)
Record ar_wf (r : AddrRange) : Prop := {
  wf_start : is_u64 (ar_start r);
  wf_end : is_u64 (ar_end r);
  wf_valid : ar_start r <= ar_end r;
  wf_bits : 0 <= intlvBits r;
  wf_high : interleaved r = true -> intlvBits r <= intlvHighBit r + 1 /\ intlvHighBit r < 64;
  wf_xor : hashed r = true -> intlvBits r <= xorHighBit r + 1 /\ xorHighBit r < 64;
  wf_match : 0 <= intlvMatch r;
  wf_match_fits : interleaved r = true -> intlvMatch r < 2 ^ intlvBits r;
}.

(** The match value an address selects among the stripes of [r]. *)
Definition stripe_of (r : AddrRange) (a : Z) : Z :=
  if hashed r then
    Z.lxor (bits a (intlvHighBit r) (intlvHighBit r - intlvBits r + 1))
           (bits a (xorHighBit r) (xorHighBit r - intlvBits r + 1))
  else bits a (intlvHighBit r) (intlvHighBit r - intlvBits r + 1).

Lemma contains_iff r a :
  contains r a = true <->
  ar_start r <= a <= ar_end r /\ (interleaved r = true -> stripe_of r a = intlvMatch r).
Proof.
  unfold contains, stripe_of. destruct (interleaved r) eqn:Hi; cbn [negb].
  - destruct (Z.leb_spec (ar_start r) a), (Z.leb_spec a (ar_end r)); cbn;
      try (split; [done | intros [? _]; lia]).
    destruct (hashed r); cbn; rewrite Z.eqb_eq; intuition lia.
  - rewrite andb_true_iff, !Z.leb_le. intuition congruence.
Qed.

Lemma stripe_of_range r a :
  ar_wf r -> interleaved r = true -> in_range (intlvBits r) (stripe_of r a).
Proof.
  intros Hwf Hi. pose proof (wf_high r Hwf Hi) as [Hh1 Hh2]. pose proof (wf_bits r Hwf).
  assert (0 < intlvBits r) as Hpos.
  { unfold interleaved in Hi. apply negb_true_iff, Z.eqb_neq in Hi. lia. }
  assert (forall hi, intlvBits r <= hi + 1 -> hi < 64 ->
    in_range (intlvBits r) (bits a hi (hi - intlvBits r + 1))) as Hr.
  { intros hi H1 H2. replace (intlvBits r) with (hi - (hi - intlvBits r + 1) + 1) at 1 by lia.
    apply bits_range; lia. }
  unfold stripe_of. destruct (hashed r) eqn:Hh; [|now apply Hr].
  pose proof (wf_xor r Hwf Hh) as [Hx1 Hx2].
  pose proof (Hr _ Hh1 Hh2) as H1. pose proof (Hr _ Hx1 Hx2) as H2.
  apply testbit_in_range; [lia| apply Z.lxor_nonneg; destruct H1, H2; tauto |].
  intros i Hge. rewrite Z.lxor_spec, !(in_range_testbit (intlvBits r)) by (auto; lia). done.
Qed.

(** The range with another match value. *)
Definition with_match (r : AddrRange) (m : Z) : AddrRange :=
  mkAddrRange (ar_start r) (ar_end r) (intlvHighBit r) (xorHighBit r) (intlvBits r) m.

Lemma contains_with_match r m a :
  interleaved r = true ->
  contains (with_match r m) a = true <-> ar_start r <= a <= ar_end r /\ stripe_of r a = m.
Proof.
  intros Hi. rewrite contains_iff. unfold with_match; cbn.
  change (stripe_of _ a) with (stripe_of r a). change (interleaved _) with (interleaved r).
  rewrite Hi. intuition congruence.
Qed.

Lemma mergesWith_iff this r :
  mergesWith this r = true <-> r = with_match this (intlvMatch r).
Proof.
  unfold mergesWith, with_match. rewrite !andb_true_iff, !Z.eqb_eq.
  destruct this, r; cbn. split; [intros [[[[-> ->] ->] ->] ->]|intros [= -> -> -> -> ->]]; done.
Qed.

Lemma contains_merges this r a :
  mergesWith this r = true ->
  contains r a = true <->
  ar_start this <= a <= ar_end this /\ (interleaved this = true -> stripe_of this a = intlvMatch r).
Proof. intros ->%mergesWith_iff. now rewrite contains_iff. Qed.

Lemma merge_check_ok this m ranges u :
  0 <= m < 256 -> merge_check this m ranges = Ok u ->
  forall k r, ranges !! k = Some r ->
  mergesWith this r = true /\ intlvMatch r = (m + Z.of_nat k) mod 256.
Proof.
  revert m. induction ranges as [|r0 ranges IH]; intros m Hm H k r Hk; [done|].
  cbn in H. destruct (mergesWith this r0) eqn:Hmw; [|done].
  destruct (Z.eqb_spec (intlvMatch r0) m) as [Heq|]; [cbn in H|done].
  destruct k as [|k]; cbn in Hk.
  - injection Hk as ->. split; [done|]. rewrite Z.add_0_r, Z.mod_small by lia. done.
  - apply (IH _ (wrap_range 8 (m + 1) ltac:(lia)) H) in Hk as [? ->]. split; [done|].
    unfold u8, wrap. rewrite Zplus_mod_idemp_l. f_equal. lia.
Qed.

(** ** The decoder *)

Section Decoder.
Context {V : Type}.
Implicit Types (tree : list (AddrRange * V)).

(** [a] is inside the bounds of [x], whatever its stripe. *)
Definition in_bounds (x : AddrRange) (a : Z) : Prop := ar_start x <= a <= ar_end x.

(** The invariant of the map: sorted by [operator<]; valid ranges; two entries
    are stripes of the same chunk or have disjoint bounds. *)
Record tree_wf tree : Prop := {
  tree_sorted : forall i j x y, (i < j)%nat -> tree.*1 !! i = Some x -> tree.*1 !! j = Some y ->
    ar_lt x y = true;
  tree_valid : forall i x, tree.*1 !! i = Some x -> is_u64 (ar_start x) /\ ar_start x <= ar_end x;
  tree_apart : forall i j x y, tree.*1 !! i = Some x -> tree.*1 !! j = Some y ->
    i = j \/ (interleaved x = true /\ mergesWith x y = true) \/
    forall a, in_bounds x a -> in_bounds y a -> False;
}.

Lemma key_at_ok tree i x : key_at tree i = Ok x <-> tree.*1 !! i = Some x.
Proof.
  unfold key_at. rewrite list_lookup_fmap. destruct (tree !! i) as [[y v]|]; cbn; split; congruence.
Qed.

(** Up to [upper_bound] the entries are at most [r]; from there on they are
    greater, when the tree is sorted. *)
Lemma upper_bound_le tree r i x :
  (i < upper_bound tree r)%nat -> tree.*1 !! i = Some x -> ar_lt r x = false.
Proof.
  revert i. induction tree as [|[y v] tree IH]; intros i Hi Hx; [done|].
  cbn in *. destruct (ar_lt r y) eqn:E; [lia|]. destruct i as [|i]; cbn in Hx.
  - congruence.
  - eapply IH; [|done]. lia.
Qed.

Lemma upper_bound_at tree r x :
  tree.*1 !! upper_bound tree r = Some x -> ar_lt r x = true.
Proof.
  induction tree as [|[y v] tree IH]; [done|]. cbn. destruct (ar_lt r y) eqn:E.
  - now intros [= ->].
  - apply IH.
Qed.

Lemma ar_lt_trans x y z : ar_lt x y = true -> ar_lt y z = true -> ar_lt x z = true.
Proof.
  unfold ar_lt.
  repeat match goal with |- context [?a =? ?b] => destruct (Z.eqb_spec a b) end; cbn;
    rewrite ?Z.ltb_lt; lia.
Qed.

Lemma upper_bound_gt tree r i x :
  tree_wf tree -> (upper_bound tree r <= i)%nat -> tree.*1 !! i = Some x -> ar_lt r x = true.
Proof.
  intros Hwf Hi Hx.
  assert (exists y, tree.*1 !! upper_bound tree r = Some y) as [y Hy].
  { apply lookup_lt_is_Some. apply lookup_lt_Some in Hx. lia. }
  pose proof (upper_bound_at _ _ _ Hy) as Hlt.
  destruct (decide (i = upper_bound tree r)) as [->|Hne]; [congruence|].
  eapply ar_lt_trans; [done|]. eapply (tree_sorted _ Hwf); [|done..]. lia.
Qed.

Lemma upper_bound_length tree r : (upper_bound tree r <= length tree)%nat.
Proof. induction tree as [|[y v] tree IH]; cbn; [lia|]. destruct (ar_lt r y); lia. Qed.

(** The one-address range the decoder looks up. *)
Lemma RangeSize_1 a : is_u64 a -> RangeSize a 1 = AddrRange_plain a a.
Proof.
  intros [H1 H2]. unfold RangeSize, u64, wrap, AddrRange_plain. f_equal.
  rewrite Zminus_mod_idemp_l. replace (a + 1 - 1) with a by lia. now apply Z.mod_small.
Qed.

Lemma intersects_addr x a : is_u64 a -> intersects x (AddrRange_plain a a) = Ok (contains x a).
Proof.
  intros Ha. unfold intersects.
  assert (ar_size (AddrRange_plain a a) = 1) as ->.
  { unfold ar_size. cbn [AddrRange_plain ar_start ar_end intlvBits]. now rewrite Z.sub_diag. }
  cbn. destruct (Z.ltb_spec a (ar_start x)), (Z.ltb_spec (ar_end x) a); cbn.
  1-3: f_equal; symmetry; apply not_true_iff_false; rewrite contains_iff; intros [? _]; lia.
  destruct (interleaved x) eqn:Hi; cbn.
  - done.
  - f_equal. symmetry. rewrite contains_iff, Hi. split; [lia|done].
Qed.

Lemma find_back_spec tree a orig i x :
  is_u64 a -> tree.*1 !! i = Some x -> contains x a = false ->
  exists o, find_back tree (AddrRange_plain a a) orig i = Ok o /\
  match o with
  | Some k => exists y, tree.*1 !! k = Some y /\ contains y a = true
  | None => forall k y, (k <= i)%nat -> tree.*1 !! k = Some y ->
      (forall j z, (k < j <= i)%nat -> tree.*1 !! j = Some z -> mergesWith z orig = true) ->
      contains y a = false
  end.
Proof.
  intros Ha. revert x. induction i as [|i IH]; intros x Hx Hc; cbn [find_back];
    rewrite (proj2 (key_at_ok _ _ _) Hx); cbn [rbind].
  - rewrite intersects_addr, Hc by done. exists None. split; [done|].
    intros k y Hk Hy _. assert (k = O) as -> by lia. congruence.
  - destruct (mergesWith x orig) eqn:Hm.
    + assert (exists y, tree.*1 !! i = Some y) as [y Hy].
      { apply lookup_lt_is_Some. apply lookup_lt_Some in Hx. lia. }
      rewrite (proj2 (key_at_ok _ _ _) Hy); cbn [rbind]. rewrite intersects_addr by done. cbn [rbind].
      destruct (contains y a) eqn:Hcy; [exists (Some i); eauto|].
      destruct (IH y Hy Hcy) as (o & -> & Ho). exists o. split; [done|].
      destruct o as [k|]; [done|]. intros k z Hk Hz Hall.
      destruct (decide (k = S i)) as [->|]; [congruence|].
      apply (Ho k z); [lia|done|]. intros j w Hj. apply Hall. lia.
    + rewrite intersects_addr, Hc by done. exists None. split; [done|].
      intros k y Hk Hy Hall. destruct (decide (k = S i)) as [->|]; [congruence|].
      rewrite (Hall (S i) x) in Hm by (done || lia). done.
Qed.

(** At most one entry contains an address. *)
Lemma tree_unique tree i j x y a :
  tree_wf tree -> tree.*1 !! i = Some x -> tree.*1 !! j = Some y ->
  contains x a = true -> contains y a = true -> i = j.
Proof.
  intros Hwf Hx Hy [Ha Hsx]%contains_iff Hcy.
  pose proof Hcy as [Hb _]%contains_iff.
  destruct (tree_apart _ Hwf i j x y Hx Hy) as [|[[Hi Hm]|Hd]]; [done| |now edestruct Hd].
  apply (contains_merges _ _ _ Hm) in Hcy as [_ Hsy]. apply mergesWith_iff in Hm.
  assert (x = y) as <-.
  { rewrite Hm, <- Hsy, Hsx by done. now destruct x. }
  destruct (Nat.lt_trichotomy i j) as [Hlt|[?|Hlt]]; [|done|].
  all: pose proof (tree_sorted _ Hwf _ _ _ _ Hlt ltac:(done) ltac:(done)) as Hs; exfalso; revert Hs.
  all: unfold ar_lt; rewrite Z.eqb_refl; cbn; rewrite Z.ltb_lt; lia.
Qed.

(** Where the decoder starts: the last entry not above the address is in the
    chunk of the entry that contains it. *)
Lemma decoder_start tree a j y :
  tree_wf tree -> tree.*1 !! j = Some y -> contains y a = true ->
  (ar_start y < a \/ intlvMatch y <= 0) ->
  exists i, upper_bound tree (AddrRange_plain a a) = S i /\ (j <= i)%nat.
Proof.
  intros Hwf Hy [Hb _]%contains_iff Hs.
  destruct (decide (upper_bound tree (AddrRange_plain a a) <= j)%nat) as [Hle|Hgt].
  - pose proof (upper_bound_gt _ _ _ _ Hwf Hle Hy) as Hlt. revert Hlt. unfold ar_lt; cbn.
    destruct (Z.eqb_spec a (ar_start y)); cbn; rewrite Z.ltb_lt; lia.
  - destruct (upper_bound _ _) as [|i]; [lia|]. exists i. split; [done|lia].
Qed.

(** Every entry between the one that contains the address and the start of
    the walk belongs to the same chunk. *)
Lemma decoder_chunk tree a j y i k z :
  tree_wf tree -> tree.*1 !! j = Some y -> in_bounds y a ->
  upper_bound tree (AddrRange_plain a a) = S i ->
  (j < k <= i)%nat -> tree.*1 !! k = Some z ->
  interleaved y = true /\ mergesWith y z = true.
Proof.
  intros Hwf Hy Hb Hub Hk Hz.
  pose proof (tree_sorted _ Hwf j k y z ltac:(lia) Hy Hz) as Hlt.
  pose proof (upper_bound_le tree (AddrRange_plain a a) k z ltac:(lia) Hz) as Hle.
  assert (ar_start y <= ar_start z <= a) as Hsz.
  { revert Hlt Hle. unfold ar_lt; cbn.
    destruct (Z.eqb_spec (ar_start y) (ar_start z)), (Z.eqb_spec a (ar_start z)); cbn;
      rewrite ?Z.ltb_lt, ?Z.ltb_ge; lia. }
  destruct (tree_apart _ Hwf j k y z Hy Hz) as [?|[?|Hd]]; [lia|done|exfalso].
  destruct (tree_valid _ Hwf k z Hz) as [_ Hv].
  apply (Hd (ar_start z)); unfold in_bounds in *; lia.
Qed.

Lemma arm_find_addr_found tree a j y :
  tree_wf tree -> is_u64 a -> tree.*1 !! j = Some y -> contains y a = true ->
  (ar_start y < a \/ intlvMatch y <= 0) ->
  arm_find_addr tree a = Ok (Some j).
Proof.
  intros Hwf Ha Hy Hc Hs. unfold arm_find_addr, arm_find. rewrite RangeSize_1 by done.
  destruct tree as [|e tree'] eqn:Et; [done|]. rewrite <- Et in *. clear Et.
  destruct (decoder_start tree a j y Hwf Hy Hc Hs) as (i & Hub & Hji). rewrite Hub.
  assert (exists x, tree.*1 !! i = Some x) as [x Hx].
  { apply lookup_lt_is_Some. pose proof (upper_bound_length tree (AddrRange_plain a a)).
    rewrite length_fmap. lia. }
  rewrite (proj2 (key_at_ok _ _ _) Hx); cbn [rbind]. rewrite intersects_addr by done. cbn [rbind].
  destruct (contains x a) eqn:Hcx.
  { now rewrite (tree_unique tree i j x y a). }
  assert (j < i)%nat as Hlt by (destruct (decide (i = j)) as [->|]; [congruence|lia]).
  pose proof (proj1 (contains_iff _ _) Hc) as [Hb _].
  destruct (decoder_chunk tree a j y i i x Hwf Hy Hb Hub ltac:(lia) Hx) as [Hiy Hm].
  pose proof (proj1 (mergesWith_iff _ _) Hm) as Hxy.
  assert (interleaved x = true) as -> by (rewrite Hxy; done).
  destruct (find_back_spec tree a x i x Ha Hx Hcx) as (o & -> & Ho). destruct o as [k|].
  - destruct Ho as (z & Hz & Hcz). now rewrite (tree_unique tree k j z y a).
  - rewrite (Ho j y) in Hc; [done|lia|done|]. intros k z Hk Hz.
    destruct (decoder_chunk tree a j y i k z Hwf Hy Hb Hub Hk Hz) as [_ Hmz].
    apply mergesWith_iff in Hmz. apply mergesWith_iff. rewrite Hmz, Hxy. done.
Qed.

(** Whatever the tree, an address lookup that succeeds returns an entry that
    contains the address. *)
Lemma arm_find_addr_sound tree a k :
  is_u64 a -> arm_find_addr tree a = Ok (Some k) ->
  exists y, tree.*1 !! k = Some y /\ contains y a = true.
Proof.
  intros Ha. unfold arm_find_addr, arm_find. rewrite RangeSize_1 by done.
  destruct tree as [|e tree'] eqn:Et; [done|]. rewrite <- Et in *. clear Et.
  destruct (upper_bound _ _) as [|i]; intros H; inv_ok.
  - rewrite intersects_addr in * by done. inv_ok. subst. case_match; [|done]. injection H as <-.
    eexists. split; [apply key_at_ok; eassumption|done].
  - rewrite intersects_addr in * by done. inv_ok. subst. case_match.
    + injection H as <-. eexists. split; [apply key_at_ok; eassumption|done].
    + case_match; [|done]. edestruct find_back_spec as (o & Ho & Hs); [done|apply key_at_ok; eassumption|done|].
      rewrite H in Ho. injection Ho as <-. done.
Qed.

Lemma arm_find_addr_total tree a : is_u64 a -> exists o, arm_find_addr tree a = Ok o.
Proof.
  intros Ha. unfold arm_find_addr, arm_find. rewrite RangeSize_1 by done.
  destruct tree as [|e tree'] eqn:Et; [eauto|]. rewrite <- Et in *.
  assert (forall i, (i < length tree)%nat -> exists x, key_at tree i = Ok x) as Hk.
  { intros i Hi. destruct (lookup_lt_is_Some_2 tree.*1 i) as [x Hx]; [now rewrite length_fmap|].
    exists x. now apply key_at_ok. }
  pose proof (upper_bound_length tree (AddrRange_plain a a)).
  destruct (upper_bound _ _) as [|i].
  - destruct (Hk O) as [x Hx]; [rewrite Et; cbn; lia|]. rewrite Hx; cbn [rbind].
    rewrite intersects_addr by done. cbn. eauto.
  - destruct (Hk i) as [x Hx]; [lia|]. rewrite Hx; cbn [rbind].
    rewrite intersects_addr by done. cbn [rbind]. destruct (contains x a) eqn:Hc; [eauto|].
    destruct (interleaved x); [|eauto].
    destruct (find_back_spec tree a x i x) as (o & -> & _); eauto. now apply key_at_ok.
Qed.

End Decoder.

(** ** Properties *)

(** Interleaving is a partition.  For a well-formed interleaved range, plain
    or XOR-hashed, every address within its bounds is contained in exactly one
    of the [2^intlvBits] stripes that differ only in their match value. *)
Theorem interleave_partition r a :
  ar_wf r -> interleaved r = true -> ar_start r <= a <= ar_end r ->
  exists! m, in_range (intlvBits r) m /\ contains (with_match r m) a = true.
Proof.
  intros Hwf Hi Ha. exists (stripe_of r a). split.
  - split; [now apply stripe_of_range|]. now apply contains_with_match.
  - intros m [_ Hm]. now apply contains_with_match in Hm as [_ ->].
Qed.

(** A two-channel hashed range and the stripe of one of its addresses. *)
Definition hashed_range : AddrRange := mkAddrRange 0x10000 0x1ffff 6 16 1 0.

Lemma hashed_range_wf m : 0 <= m < 2 -> ar_wf (with_match hashed_range m).
Proof. intros Hm. constructor; unfold in_range; cbn -[Z.pow Z.le Z.lt]; lia. Qed.

Lemma interleave_partition_witness :
  exists! m, in_range 1 m /\ contains (with_match hashed_range m) 0x10000 = true.
Proof.
  apply (interleave_partition hashed_range 0x10000);
    [apply (hashed_range_wf 0); lia | reflexivity | cbn; lia].
Defined.

Lemma AddrRange_merge_inv ranges R :
  ranges <> [] -> AddrRange_merge ranges = Ok R ->
  exists r0, ranges !! 0%nat = Some r0 /\ R = AddrRange_plain (ar_start r0) (ar_end r0) /\
  Z.of_nat (length ranges) = u64 (Z.shiftl 1 (intlvBits r0)) /\
  forall k r, ranges !! k = Some r ->
    mergesWith r0 r = true /\ intlvMatch r = Z.of_nat k mod 256.
Proof.
  destruct ranges as [|r0 rs] eqn:E; [done|]. intros _ H. unfold AddrRange_merge in H.
  destruct (Z.eqb_spec (Z.of_nat (length (r0 :: rs))) (u64 (Z.shiftl 1 (intlvBits r0)))) as [Hl|];
    cbn [intlvBits negb] in H; [|now rewrite (proj2 (Z.eqb_neq _ _)) in H].
  rewrite Hl, Z.eqb_refl in H. cbn [negb] in H. inv_ok.
  exists r0. split; [done|]. split; [done|]. split; [done|].
  intros k r Hk. match goal with H : merge_check _ _ _ = Ok _ |- _ =>
    destruct (merge_check_ok _ 0 _ _ ltac:(lia) H k r Hk) as [Hm ->] end. split; [|done].
  apply mergesWith_iff in Hm. rewrite Hm. now apply mergesWith_iff.
Qed.

(** The merging constructor rebuilds the chunk.  When the constructor
    [AddrRange(const std::vector<AddrRange>&)] accepts a list of interleaved
    ranges (at most 8 interleaving bits, the width of its [uint8_t match]
    counter), the range it returns contains an address exactly when one of the
    merged ranges does. *)
Theorem merge_covers ranges R a :
  ranges <> [] -> Forall (fun r => ar_wf r /\ intlvBits r <= 8) ranges ->
  AddrRange_merge ranges = Ok R ->
  contains R a = true <-> Exists (fun r => contains r a = true) ranges.
Proof.
  intros Hne Hwf (r0 & H0 & -> & Hlen & Hall)%AddrRange_merge_inv; [|done].
  destruct (Forall_lookup_1 _ _ _ _ Hwf H0) as [Hw0 H8]. pose proof (wf_bits _ Hw0).
  assert (0 < 2 ^ intlvBits r0 <= 2 ^ 8) by (split; [lia|apply Z.pow_le_mono_r; lia]).
  rewrite Z.shiftl_1_l, u64_small in Hlen by (split; lia).
  rewrite Exists_exists. split.
  - intros [Ha _]%contains_iff. cbn in Ha.
    set (s := if interleaved r0 then stripe_of r0 a else 0).
    assert (0 <= s < 2 ^ intlvBits r0) as Hs.
    { unfold s. destruct (interleaved r0) eqn:Hi; [now apply stripe_of_range|lia]. }
    destruct (lookup_lt_is_Some_2 ranges (Z.to_nat s)) as [r Hr]; [lia|].
    destruct (Hall _ _ Hr) as [Hm Hmatch]. exists r. split; [by eapply list_elem_of_lookup_2|].
    apply (contains_merges _ _ _ Hm). split; [done|]. intros Hi. rewrite Hmatch, Z2Nat.id by lia.
    rewrite Z.mod_small by lia. unfold s. now rewrite Hi.
  - intros (r & [k Hk]%list_elem_of_lookup_1 & Hc). destruct (Hall _ _ Hk) as [Hm _].
    apply (contains_merges _ _ _ Hm) in Hc as [Ha _]. now apply contains_iff.
Qed.

Lemma merge_covers_witness :
  contains (AddrRange_plain 0x10000 0x1ffff) 0x10040 = true <->
  Exists (fun r => contains r 0x10040 = true)
    [with_match hashed_range 0; with_match hashed_range 1].
Proof.
  apply (merge_covers [with_match hashed_range 0; with_match hashed_range 1]).
  - discriminate.
  - repeat constructor; (apply hashed_range_wf; lia) || (cbn; lia).
  - reflexivity.
Defined.

(** C4: address decoding is exact.  In a map whose entries are sorted and, chunk
    by chunk, disjoint, [find(addr)] never panics and returns an entry exactly
    when that entry contains the address.  The hypothesis on [a] asks that an
    address equal to the start of its chunk belong to stripe 0. *)
Theorem decoder_exact (tree : list (AddrRange * Z)) a :
  tree_wf tree -> is_u64 a ->
  (forall j y, tree.*1 !! j = Some y -> contains y a = true -> ar_start y < a \/ intlvMatch y <= 0) ->
  exists o, arm_find_addr tree a = Ok o /\
  forall j, o = Some j <-> exists y, tree.*1 !! j = Some y /\ contains y a = true.
Proof.
  intros Hwf Ha Hs. destruct (arm_find_addr_total tree a Ha) as [o Ho]. exists o. split; [done|].
  intros j. split.
  - intros ->. now apply arm_find_addr_sound.
  - intros (y & Hy & Hc). rewrite (arm_find_addr_found tree a j y) in Ho; eauto. congruence.
Qed.

(** The vdev map of the example configurations: memory and three devices. *)
Definition example_tree : list (AddrRange * Z) :=
  [(AddrRange_plain 0 0x1fffffff, 0); (AddrRange_plain 0x20000000 0x20000000, 1);
   (AddrRange_plain 0x20100000 0x20100000, 2)].

Lemma example_tree_wf : tree_wf example_tree.
Proof.
  constructor.
  - intros i j x y Hij Hx Hy. destruct i as [|[|[|]]], j as [|[|[|]]]; try lia; cbn in *; simplify_eq; done.
  - intros i x Hx. destruct i as [|[|[|]]]; cbn in *; simplify_eq; cbn; unfold in_range; lia.
  - intros i j x y Hx Hy. destruct i as [|[|[|]]], j as [|[|[|]]]; cbn in *; simplify_eq;
      try (by left); right; right; unfold in_bounds; cbn; lia.
Qed.

Lemma decoder_exact_witness :
  exists o, arm_find_addr example_tree 0x20000000 = Ok o /\
  forall j, o = Some j <-> exists y, example_tree.*1 !! j = Some y /\ contains y 0x20000000 = true.
Proof.
  apply (decoder_exact example_tree 0x20000000); [apply example_tree_wf | unfold in_range; lia |].
  intros j y Hy _. destruct j as [|[|[|]]]; cbn in *; simplify_eq; cbn; lia.
Defined.

(** The overlap test of the decoder misses ranges.  [insert] relies on
    [intersect] to refuse a range that overlaps one already mapped, but [find]
    only examines the last entry that is not above the new range: a range that
    starts in a gap and runs into the next entry is accepted, after which the
    map holds two plain ranges that both contain an address. *)
Theorem insert_accepts_overlap :
  exists (tree : list (AddrRange * Z)) r tree' a i j x y,
    tree_wf tree /\ ar_wf r /\ arm_insert tree r 7 = Ok (tree', true) /\
    tree'.*1 !! i = Some x /\ tree'.*1 !! j = Some y /\ i <> j /\
    contains x a = true /\ contains y a = true.
Proof.
  exists example_tree, (AddrRange_plain 0x20000001 0x20100000).
  eexists. exists 0x20100000, 2%nat, 3%nat. do 2 eexists.
  split; [apply example_tree_wf|]. split; [constructor; cbn; try done; unfold in_range; lia|].
  split; [reflexivity|]. split; [reflexivity|]. split; [reflexivity|]. done.
Qed.

(** The decoder misses the first address of a hashed chunk.  With XOR
    hashing, the first address of a chunk can belong to a stripe other than 0;
    [find] then stops at stripe 0 and reports the address as unmapped although
    an entry contains it. *)
Theorem hashed_start_unmapped :
  exists (tree : list (AddrRange * Z)) a y,
    tree_wf tree /\ tree.*1 !! 1%nat = Some y /\ contains y a = true /\
    arm_find_addr tree a = Ok None.
Proof.
  exists [(with_match hashed_range 0, 0); (with_match hashed_range 1, 1)], 0x10000.
  eexists. split; [|split; [reflexivity|]; done].
  constructor.
  - intros i j x y Hij Hx Hy. destruct i as [|[|]], j as [|[|]]; try lia; cbn in *; simplify_eq; done.
  - intros i x Hx. destruct i as [|[|]]; cbn in *; simplify_eq; cbn; unfold in_range; lia.
  - intros i j x y Hx Hy. destruct i as [|[|]], j as [|[|]]; cbn in *; simplify_eq;
      (by left) || (right; left; done).
Qed.
