(* ===== verification/EventQueue.v ===== *)
(** * The event queue

    [sim/eventq.hh], [sim/eventq_impl.hh] and [sim/eventq.cc] as they are
    written: events live in a heap and are linked by their [nextBin] and
    [nextInBin] pointers.  An event queue is a list of bins (events with the
    same time and priority), each bin a stack; only the top of a bin has a
    meaningful [nextBin].  Loops that follow pointers take fuel, the number of
    events in the heap. *)
From S2P Require Import Prelude Flags.

(** ** Definitions: flags (base/flags.hh at [unsigned short]) *)

Definition flag_clear (flags f : Z) : Z := Z.land flags (u16 (Z.lnot f)).
Definition flag_set_to (flags f : Z) (val : bool) : Z :=
  Z.lor (Z.land flags (u16 (Z.lnot f))) (if val then f else 0).
Definition flag_update (flags f mask : Z) : Z :=
  Z.lor (Z.land flags (u16 (Z.lnot mask))) (Z.land f mask).

Definition Squashed : Z := 0x0001.
Definition Scheduled : Z := 0x0002.
Definition AutoDelete : Z := 0x0004.
Definition AutoSerialize : Z := 0x0008.
Definition IsExitEvent : Z := 0x0010.
Definition IsMainQueue : Z := 0x0020.
Definition Initialized : Z := 0x7a40.
Definition InitMask : Z := 0xffc0.
Definition PublicRead : Z := 0x003f.
Definition PublicWrite : Z := 0x001d.

(** Event priorities ([int8_t]), from the first to the last within a tick. *)
Definition Minimum_Pri : Z := -128.
Definition Debug_Enable_Pri : Z := -101.
Definition Debug_Break_Pri : Z := -100.
Definition CPU_Switch_Pri : Z := -31.
Definition Delayed_Writeback_Pri : Z := -1.
Definition Default_Pri : Z := 0.
Definition DVFS_Update_Pri : Z := 31.
Definition Serialize_Pri : Z := 32.
Definition CPU_Tick_Pri : Z := 50.
Definition VirtualDevice_Tick_Pri : Z := 52.
Definition Virtual_Interrupt : Z := 55.
Definition Energy_Pri : Z := 60.
Definition Stat_Event_Pri : Z := 90.
Definition Progress_Event_Pri : Z := 95.
Definition Sim_Exit_Pri : Z := 100.
Definition Maximum_Pri : Z := 127.

(** ** Definitions: events *)

(** Addresses of events; the null pointer is [None]. *)
Abbreviation ptr := positive.

(** [_when] is a [Tick] ([uint64_t]), [_priority] an [int8_t], [flags] an
    [unsigned short]; [queue] is the queue the event was last scheduled on. *)
Record Event := mkEvent {
  nextBin : option ptr;
  nextInBin : option ptr;
  ev_when : Z;
  ev_priority : Z;
  ev_flags : Z;
  ev_queue : option nat;
}.

Definition set_nextBin (e : Event) (n : option ptr) : Event :=
  mkEvent n (nextInBin e) (ev_when e) (ev_priority e) (ev_flags e) (ev_queue e).
Definition set_nextInBin (e : Event) (n : option ptr) : Event :=
  mkEvent (nextBin e) n (ev_when e) (ev_priority e) (ev_flags e) (ev_queue e).
Definition set_flags (e : Event) (f : Z) : Event :=
  mkEvent (nextBin e) (nextInBin e) (ev_when e) (ev_priority e) f (ev_queue e).

(** [setWhen(when, q)]. *)
Definition setWhen (e : Event) (when : Z) (q : nat) : Event :=
  mkEvent (nextBin e) (nextInBin e) when (ev_priority e) (ev_flags e) (Some q).

(** The constructor [Event(p, f)]. *)
Definition new_Event (p f : Z) : result Event :=
  let* _ := assert_ (flag_noneSet f (u16 (Z.lnot PublicWrite))) in
  Ok (mkEvent None None 0 p (Z.lor Initialized f) None).

Definition initialized (e : Event) : bool := Z.land (ev_flags e) InitMask =? Initialized.
Definition scheduled (e : Event) : bool := flag_isSet (ev_flags e) Scheduled.
Definition squashed (e : Event) : bool := flag_isSet (ev_flags e) Squashed.
Definition isExitEvent (e : Event) : bool := flag_isSet (ev_flags e) IsExitEvent.
Definition squash (e : Event) : Event := set_flags e (flag_set (ev_flags e) Squashed).

(** The accessors of the flags that subclasses use. *)
Definition getFlags (e : Event) : Z := Z.land (ev_flags e) PublicRead.
Definition isFlagSet (e : Event) (f : Z) : result bool :=
  let* _ := assert_ (flag_noneSet f (u16 (Z.lnot PublicRead))) in
  Ok (flag_isSet (ev_flags e) f).
Definition setFlags (e : Event) (f : Z) : result Event :=
  let* _ := assert_ (flag_noneSet f (u16 (Z.lnot PublicWrite))) in
  Ok (set_flags e (flag_set (ev_flags e) f)).
Definition clearFlags (e : Event) (f : Z) : result Event :=
  let* _ := assert_ (flag_noneSet f (u16 (Z.lnot PublicWrite))) in
  Ok (set_flags e (flag_clear (ev_flags e) f)).
Definition clearFlags_all (e : Event) : Event :=
  set_flags e (flag_clear (ev_flags e) PublicWrite).

(** The comparison operators on events. *)
Definition ev_lt (l r : Event) : bool :=
  (ev_when l <? ev_when r) || ((ev_when l =? ev_when r) && (ev_priority l <? ev_priority r)).
Definition ev_le (l r : Event) : bool :=
  (ev_when l <? ev_when r) || ((ev_when l =? ev_when r) && (ev_priority l <=? ev_priority r)).
Definition ev_gt (l r : Event) : bool :=
  (ev_when r <? ev_when l) || ((ev_when l =? ev_when r) && (ev_priority r <? ev_priority l)).
Definition ev_ge (l r : Event) : bool :=
  (ev_when r <? ev_when l) || ((ev_when l =? ev_when r) && (ev_priority r <=? ev_priority l)).
Definition ev_eqb (l r : Event) : bool :=
  (ev_when l =? ev_when r) && (ev_priority l =? ev_priority r).
Definition ev_neb (l r : Event) : bool :=
  negb (ev_when l =? ev_when r) || negb (ev_priority l =? ev_priority r).

(** ** Definitions: the queue *)

Abbreviation heap := (gmap ptr Event).

(** One event queue with the heap its events live in and the two globals the
    code consults, [inParallelMode] and the queue of the running thread. *)
Record EventQueue := mkEventQueue {
  eq_heap : heap;
  eq_head : option ptr;
  eq_curTick : Z;
  async_queue : list ptr;
  eq_id : nat;
  inParallelMode : bool;
  curEventQueue : nat;
}.

Definition with_heap (q : EventQueue) (h : heap) (hd : option ptr) : EventQueue :=
  mkEventQueue h hd (eq_curTick q) (async_queue q) (eq_id q) (inParallelMode q) (curEventQueue q).
Definition setCurTick (q : EventQueue) (t : Z) : EventQueue :=
  mkEventQueue (eq_heap q) (eq_head q) t (async_queue q) (eq_id q) (inParallelMode q) (curEventQueue q).
Definition with_async (q : EventQueue) (l : list ptr) : EventQueue :=
  mkEventQueue (eq_heap q) (eq_head q) (eq_curTick q) l (eq_id q) (inParallelMode q) (curEventQueue q).

Definition eq_empty (q : EventQueue) : bool :=
  match eq_head q with None => true | Some _ => false end.

(** [Event::insertBefore(event, curr)]: the new heap; the code returns
    [event]. *)
Definition insertBefore (h : heap) (event : ptr) (curr : option ptr) : result heap :=
  let* e := deref (h !! event) in
  match curr with
  | None => Ok (<[event := set_nextInBin (set_nextBin e None) None]> h)
  | Some c =>
      let* ec := deref (h !! c) in
      if ev_lt e ec then
        Ok (<[event := set_nextInBin (set_nextBin e curr) None]> h)
      else
        Ok (<[event := set_nextInBin (set_nextBin e (nextBin ec)) curr]> h)
  end.

(** The loop [while (curr && *curr < *event) { prev = curr; curr = curr->nextBin; }]
    shared by [insert] and [remove]; returns [prev] and [curr]. *)
Fixpoint seek_bin (fuel : nat) (h : heap) (event : Event) (prev : ptr) (curr : option ptr)
    : result (ptr * option ptr) :=
  match fuel with
  | O => Err Out_of_fuel
  | S fuel =>
      match curr with
      | None => Ok (prev, curr)
      | Some c =>
          let* ec := deref (h !! c) in
          if ev_lt ec event then seek_bin fuel h event c (nextBin ec)
          else Ok (prev, curr)
      end
  end.

(** [EventQueue::insert(event)]: the new heap and head. *)
Definition eq_insert (h : heap) (hd : option ptr) (event : ptr) : result (heap * option ptr) :=
  let* e := deref (h !! event) in
  match hd with
  | None => let* h := insertBefore h event hd in Ok (h, Some event)
  | Some hp =>
      let* eh := deref (h !! hp) in
      if ev_le e eh then
        let* h := insertBefore h event hd in Ok (h, Some event)
      else
        let* '(prev, curr) := seek_bin (S (size h)) h e hp (nextBin eh) in
        let* h := insertBefore h event curr in
        let* ep := deref (h !! prev) in
        Ok (<[prev := set_nextBin ep (Some event)]> h, hd)
  end.

(** The loop of [removeItem] along the stack of a bin: the predecessor of
    [event] and [event] itself. *)
Fixpoint seek_item (fuel : nat) (h : heap) (event curr : ptr) (next : option ptr)
    : result (ptr * Event) :=
  match fuel with
  | O => Err Out_of_fuel
  | S fuel =>
      match next with
      | None => Err Panic
      | Some n =>
          let* en := deref (h !! n) in
          if decide (event = n) then Ok (curr, en)
          else seek_item fuel h event n (nextInBin en)
      end
  end.

(** [Event::removeItem(event, top)]: the new heap and the new top. *)
Definition removeItem (h : heap) (event top : ptr) : result (heap * option ptr) :=
  let* et := deref (h !! top) in
  if decide (event = top) then
    match nextInBin et with
    | None => Ok (h, nextBin et)
    | Some n =>
        let* en := deref (h !! n) in
        Ok (<[n := set_nextBin en (nextBin et)]> h, Some n)
    end
  else
    let* '(curr, en) := seek_item (S (size h)) h event top (nextInBin et) in
    let* ec := deref (h !! curr) in
    Ok (<[curr := set_nextInBin ec (nextInBin en)]> h, Some top).

(** [EventQueue::remove(event)]. *)
Definition eq_remove (q : EventQueue) (event : ptr) : result (heap * option ptr) :=
  let h := eq_heap q in
  match eq_head q with
  | None => Err Panic
  | Some hp =>
      let* e := deref (h !! event) in
      let* _ := assert_ (bool_decide (ev_queue e = Some (eq_id q))) in
      let* eh := deref (h !! hp) in
      if ev_eqb eh e then removeItem h event hp
      else
        let* '(prev, curr) := seek_bin (S (size h)) h e hp (nextBin eh) in
        match curr with
        | None => Err Panic
        | Some c =>
            let* ec := deref (h !! c) in
            if negb (ev_eqb ec e) then Err Panic
            else
              let* '(h, top) := removeItem h event c in
              let* ep := deref (h !! prev) in
              Ok (<[prev := set_nextBin ep top]> h, Some hp)
        end
  end.

Definition asyncInsert (q : EventQueue) (event : ptr) : EventQueue :=
  with_async q (async_queue q ++ [event]).

(** [EventQueue::schedule(event, when, global)]. *)
Definition eq_schedule (q : EventQueue) (event : ptr) (when : Z) (global : bool)
    : result EventQueue :=
  let* e := deref (eq_heap q !! event) in
  let* _ := assert_ (eq_curTick q <=? when) in
  let* _ := assert_ (negb (scheduled e)) in
  let* _ := assert_ (initialized e) in
  let q := with_heap q (<[event := setWhen e when (eq_id q)]> (eq_heap q)) (eq_head q) in
  let* q :=
    if inParallelMode q && (negb (bool_decide (eq_id q = curEventQueue q)) || global) then
      Ok (asyncInsert q event)
    else
      let* '(h, hd) := eq_insert (eq_heap q) (eq_head q) event in
      Ok (with_heap q h hd) in
  let* e := deref (eq_heap q !! event) in
  Ok (with_heap q (<[event := set_flags e (flag_set (ev_flags e) Scheduled)]> (eq_heap q)) (eq_head q)).

(** [delete event], with the assertion of the destructor. *)
Definition delete_event (q : EventQueue) (event : ptr) : result EventQueue :=
  let* e := deref (eq_heap q !! event) in
  let* _ := assert_ (negb (scheduled e)) in
  Ok (with_heap q (delete event (eq_heap q)) (eq_head q)).

(** [EventQueue::deschedule(event)]. *)
Definition eq_deschedule (q : EventQueue) (event : ptr) : result EventQueue :=
  let* e := deref (eq_heap q !! event) in
  let* _ := assert_ (scheduled e) in
  let* _ := assert_ (initialized e) in
  let* _ := assert_ (negb (inParallelMode q) || bool_decide (eq_id q = curEventQueue q)) in
  let* '(h, hd) := eq_remove q event in
  let* e := deref (h !! event) in
  let f := flag_clear (flag_clear (ev_flags e) Squashed) Scheduled in
  let q := with_heap q (<[event := set_flags e f]> h) hd in
  if flag_isSet f AutoDelete then delete_event q event else Ok q.

(** [EventQueue::reschedule(event, when, always)]. *)
Definition eq_reschedule (q : EventQueue) (event : ptr) (when : Z) (always : bool)
    : result EventQueue :=
  let* e := deref (eq_heap q !! event) in
  let* _ := assert_ (eq_curTick q <=? when) in
  let* _ := assert_ (always || scheduled e) in
  let* _ := assert_ (initialized e) in
  let* _ := assert_ (negb (inParallelMode q) || bool_decide (eq_id q = curEventQueue q)) in
  let* q :=
    if scheduled e then let* '(h, hd) := eq_remove q event in Ok (with_heap q h hd)
    else Ok q in
  let* e := deref (eq_heap q !! event) in
  let q := with_heap q (<[event := setWhen e when (eq_id q)]> (eq_heap q)) (eq_head q) in
  let* '(h, hd) := eq_insert (eq_heap q) (eq_head q) event in
  let* e := deref (h !! event) in
  let f := flag_set (flag_clear (ev_flags e) Squashed) Scheduled in
  Ok (with_heap q (<[event := set_flags e f]> h) hd).

(** The loop of [EventQueue::handleAsyncInsertions]. *)
Fixpoint async_loop (h : heap) (hd : option ptr) (l : list ptr) : result (heap * option ptr) :=
  match l with
  | [] => Ok (h, hd)
  | event :: l =>
      let* '(h, hd) := eq_insert h hd event in
      async_loop h hd l
  end.

Definition handleAsyncInsertions (q : EventQueue) : result EventQueue :=
  let* _ := assert_ (bool_decide (eq_id q = curEventQueue q)) in
  let* '(h, hd) := async_loop (eq_heap q) (eq_head q) (async_queue q) in
  Ok (with_async (with_heap q h hd) []).

Definition replaceHead (q : EventQueue) (s : option ptr) : option ptr * EventQueue :=
  (eq_head q, with_heap q (eq_heap q) s).

(** The first half of [EventQueue::serviceOne]: unlink the head. *)
Definition eq_pop (q : EventQueue) : result (ptr * EventQueue) :=
  let* hp := deref (eq_head q) in
  let h := eq_heap q in
  let* e := deref (h !! hp) in
  let h := <[hp := set_flags e (flag_clear (ev_flags e) Scheduled)]> h in
  match nextInBin e with
  | Some n =>
      let* en := deref (h !! n) in
      Ok (hp, with_heap q (<[n := set_nextBin en (nextBin e)]> h) (Some n))
  | None => Ok (hp, with_heap q h (nextBin e))
  end.

(** Event handlers act on the whole simulation [W], of which the queue is a
    part. *)
(** [curEventQueue(eventq)]: the thread makes the queue its own. *)
Definition take_over (q : EventQueue) : EventQueue :=
  mkEventQueue (eq_heap q) (eq_head q) (eq_curTick q) (async_queue q) (eq_id q) (inParallelMode q) (eq_id q).

Section Service.
Context {W : Type} (eventq : W -> EventQueue) (set_eventq : W -> EventQueue -> W).
Context (process : ptr -> W -> result W).

(** [EventQueue::serviceOne()]: returns the exit event, if it was one. *)
Definition serviceOne (w : W) : result (option ptr * W) :=
  let* '(event, q) := eq_pop (eventq w) in
  let* e := deref (eq_heap q !! event) in
  let* '(exit, w) :=
    if negb (squashed e) then
      let* w := process event (set_eventq w (setCurTick q (ev_when e))) in
      let* e := deref (eq_heap (eventq w) !! event) in
      if isExitEvent e then
        let* _ := assert_ (negb (flag_isSet (ev_flags e) AutoDelete) ||
                           negb (flag_isSet (ev_flags e) IsMainQueue)) in
        Ok (true, w)
      else Ok (false, w)
    else
      let e := set_flags e (flag_clear (ev_flags e) Squashed) in
      Ok (false, set_eventq w (with_heap q (<[event := e]> (eq_heap q)) (eq_head q))) in
  if exit : bool then Ok (Some event, w)
  else
    let q := eventq w in
    let* e := deref (eq_heap q !! event) in
    if flag_isSet (ev_flags e) AutoDelete && negb (scheduled e) then
      let* q := delete_event q event in
      Ok (None, set_eventq w q)
    else Ok (None, w).

(** [EventQueue::nextTick()]. *)
Definition nextTick (q : EventQueue) : result Z :=
  let* hp := deref (eq_head q) in
  let* e := deref (eq_heap q !! hp) in
  Ok (ev_when e).

(** [EventQueue::serviceEvents(when)], with a bound on the number of events
    served. *)
Fixpoint serviceEvents (fuel : nat) (when : Z) (w : W) : result W :=
  match fuel with
  | O => Err Out_of_fuel
  | S fuel =>
      let q := eventq w in
      if eq_empty q then Ok (set_eventq w (setCurTick q when))
      else
        let* t := nextTick q in
        if when <? t then Ok (set_eventq w (setCurTick q when))
        else
          let* '(_, w) := serviceOne w in
          serviceEvents fuel when w
  end.

(** What the loop does for signals of the host ([async_event]: statistics
    dumps, I/O, interrupts); [true] when the loop is to return. *)
Context (poll : W -> result (bool * W)).

(** One round of the loop of [doSimLoop] (sim/simulate.cc): assert that there
    is an event and that it is not in the past, look at the signals, serve it.
    The result is what the loop returns, if it does. *)
Definition simLoop_step (w : W) : result (option (option ptr) * W) :=
  let q := eventq w in
  let* _ := assert_ (negb (eq_empty q)) in
  let* t := nextTick q in
  let* _ := assert_ (eq_curTick q <=? t) in
  let* '(stop, w) := poll w in
  if stop : bool then Ok (Some None, w)
  else
    let* '(exit_event, w) := serviceOne w in
    Ok (match exit_event with Some e => Some (Some e) | None => None end, w).

Fixpoint simLoop (fuel : nat) (w : W) : result (option ptr * W) :=
  match fuel with
  | O => Err Out_of_fuel
  | S fuel =>
      let* '(exit, w) := simLoop_step w in
      match exit with
      | Some e => Ok (e, w)
      | None => simLoop fuel w
      end
  end.

(** [doSimLoop(eventq)]: the thread takes the queue over, merges what other
    threads scheduled, and loops. *)
Definition doSimLoop (fuel : nat) (w : W) : result (option ptr * W) :=
  let* q := handleAsyncInsertions (take_over (eventq w)) in
  simLoop fuel (set_eventq w q).
End Service.

(** [EventQueue::debugVerify()]: walk every bin and every stack, checking that
    time and priority do not go backwards and no node is seen twice. *)
Fixpoint verify_bin (fuel : nat) (h : heap) (seen : gset ptr) (time priority : Z)
    (cur : option ptr) : result (option (gset ptr * Z * Z)) :=
  match fuel with
  | O => Err Out_of_fuel
  | S fuel =>
      match cur with
      | None => Ok (Some (seen, time, priority))
      | Some p =>
          let* e := deref (h !! p) in
          if ev_when e <? time then Ok None
          else if (ev_when e =? time) && (ev_priority e <? priority) then Ok None
          else if bool_decide (p ∈ seen) then Ok None
          else verify_bin fuel h ({[p]} ∪ seen) (ev_when e) (ev_priority e) (nextInBin e)
      end
  end.

Fixpoint verify_bins (fuel : nat) (h : heap) (seen : gset ptr) (time priority : Z)
    (cur : option ptr) : result bool :=
  match fuel with
  | O => Err Out_of_fuel
  | S fuel =>
      match cur with
      | None => Ok true
      | Some p =>
          let* o := verify_bin (S (size h)) h seen time priority cur in
          match o with
          | None => Ok false
          | Some (seen, time, priority) =>
              let* e := deref (h !! p) in
              verify_bins fuel h seen time priority (nextBin e)
          end
      end
  end.

Definition debugVerify (q : EventQueue) : result bool :=
  verify_bins (S (size (eq_heap q))) (eq_heap q) ∅ 0 0 (eq_head q).
