(* ===== verification/EventQueueSpec.v ===== *)
(** * The event queue implements a sorted sequence of stacks

    The abstract queue is a list of bins in strictly increasing order of
    (time, priority), each bin a non-empty stack of events.  This file defines
    the shape predicate that relates the pointer structure of [EventQueue] to an
    abstract queue and proves that every operation implements its abstract
    counterpart. *)
From stdpp Require Import sorting.
From S2P Require Import Prelude EventQueue.

(** ** The abstract queue *)

(** The key of an event: its time and priority, ordered lexicographically. *)
Abbreviation key := (Z * Z)%type.
Definition ekey (e : Event) : key := (ev_when e, ev_priority e).
Definition key_lt (a b : key) : Prop := a.1 < b.1 \/ (a.1 = b.1 /\ a.2 < b.2).
Definition key_le (a b : key) : Prop := a.1 < b.1 \/ (a.1 = b.1 /\ a.2 <= b.2).

#[export] Instance key_lt_dec : RelDecision key_lt.
Proof. intros a b. unfold key_lt. apply _. Defined.

#[export] Instance key_lt_trans : Transitive key_lt.
Proof. intros a b c. unfold key_lt. lia. Qed.

Lemma key_lt_irrefl a : ~ key_lt a a.
Proof. unfold key_lt. lia. Qed.

Lemma key_le_lt_eq a b : key_le a b <-> key_lt a b \/ a = b.
Proof.
  destruct a as [t p], b as [t' p']. unfold key_le, key_lt. cbn. split.
  - intros [|[-> ?]]; [lia|]. destruct (Z.eq_dec p p') as [->|]; [auto|lia].
  - intros [?|[= -> ->]]; lia.
Qed.

Lemma key_lt_total a b : key_lt a b \/ a = b \/ key_lt b a.
Proof.
  destruct a as [t p], b as [t' p']. unfold key_lt. cbn.
  destruct (Z.lt_trichotomy t t') as [|[->|]], (Z.lt_trichotomy p p') as [|[->|]]; naive_solver.
Qed.

#[export] Hint Resolve key_lt_irrefl : core.

Lemma ev_lt_key l r : ev_lt l r = true <-> key_lt (ekey l) (ekey r).
Proof. unfold ev_lt, key_lt, ekey. cbn. rewrite orb_true_iff, andb_true_iff, !Z.ltb_lt, Z.eqb_eq. done. Qed.

Lemma ev_le_key l r : ev_le l r = true <-> key_le (ekey l) (ekey r).
Proof. unfold ev_le, key_le, ekey. cbn. rewrite orb_true_iff, andb_true_iff, Z.ltb_lt, Z.leb_le, Z.eqb_eq. done. Qed.

Lemma ev_lt_key_false l r : ev_lt l r = false <-> ~ key_lt (ekey l) (ekey r).
Proof. rewrite <- ev_lt_key. destruct (ev_lt l r); naive_solver. Qed.

Lemma ev_le_key_false l r : ev_le l r = false <-> key_lt (ekey r) (ekey l).
Proof.
  rewrite <- not_true_iff_false, ev_le_key. unfold key_le, key_lt. lia.
Qed.

Lemma ev_eqb_key l r : ev_eqb l r = true <-> ekey l = ekey r.
Proof. unfold ev_eqb, ekey. rewrite andb_true_iff, !Z.eqb_eq. split; [intros [-> ->]|intros [= -> ->]]; done. Qed.

(** A bin is a key with its stack, top first. *)
Abbreviation bin := (key * list ptr)%type.

(** Push on the bin of key [k], or open that bin at its place. *)
Fixpoint abs_insert (p : ptr) (k : key) (bins : list bin) : list bin :=
  match bins with
  | [] => [(k, [p])]
  | (k', b) :: bs =>
      if decide (key_lt k k') then (k, [p]) :: bins
      else if decide (k = k') then (k', p :: b) :: bs
      else (k', b) :: abs_insert p k bs
  end.

(** A bin that may have become empty, followed by the rest. *)
Definition cons_bin (k : key) (b : list ptr) (bs : list bin) : list bin :=
  match b with [] => bs | _ => (k, b) :: bs end.

(** Take [p] out of the stack of key [k]. *)
Fixpoint abs_remove (p : ptr) (k : key) (bins : list bin) : list bin :=
  match bins with
  | [] => []
  | (k', b) :: bs =>
      if decide (k = k') then cons_bin k' (filter (fun q => q <> p) b) bs
      else (k', b) :: abs_remove p k bs
  end.

(** The events of a queue, in the order they are served. *)
Definition events (bins : list bin) : list ptr := concat bins.*2.
Arguments events : simpl never.

(** ** The shape predicate *)

(** The stack of a bin: from [o], along [nextInBin]. *)
Fixpoint chain (h : heap) (o : option ptr) (l : list ptr) : Prop :=
  match l with
  | [] => o = None
  | p :: l => o = Some p /\ exists e, h !! p = Some e /\ chain h (nextInBin e) l
  end.

(** Every event of the stack has the key of the bin. *)
Definition keyed (h : heap) (k : key) (b : list ptr) : Prop :=
  Forall (fun q => exists e, h !! q = Some e /\ ekey e = k) b.

(** The bins from [hd], along the [nextBin] of their tops, up to [tl]. *)
Fixpoint seg (h : heap) (hd : option ptr) (bins : list bin) (tl : option ptr) : Prop :=
  match bins with
  | [] => hd = tl
  | (k, b) :: bs =>
      exists p e, head b = Some p /\ h !! p = Some e /\ chain h hd b /\ keyed h k b /\
      seg h (nextBin e) bs tl
  end.

(** A queue in memory that stands for [bins]. *)
Record queue_rep (h : heap) (hd : option ptr) (bins : list bin) : Prop := {
  rep_seg : seg h hd bins None;
  rep_sorted : StronglySorted key_lt bins.*1;
  rep_nodup : NoDup (events bins);
}.

Lemma chain_cons h p e l :
  h !! p = Some e -> chain h (nextInBin e) l -> chain h (Some p) (p :: l).
Proof. cbn. eauto. Qed.

Lemma seg_cons h p e k b bs tl :
  h !! p = Some e -> chain h (nextInBin e) b -> keyed h k (p :: b) -> seg h (nextBin e) bs tl ->
  seg h (Some p) ((k, p :: b) :: bs) tl.
Proof. intros. exists p, e. split_and!; eauto using chain_cons. Qed.

(** ** Frame lemmas *)

Lemma chain_frame h h' o l :
  (forall p, p ∈ l -> h' !! p = h !! p) -> chain h o l -> chain h' o l.
Proof.
  revert o. induction l as [|p l IH]; cbn; intros o Hf; [done|].
  intros (-> & e & He & Hc). split; [done|]. exists e. rewrite Hf by set_solver.
  split; [done|]. apply IH; [set_solver|done].
Qed.

Lemma keyed_frame h h' k b :
  (forall p, p ∈ b -> h' !! p = h !! p) -> keyed h k b -> keyed h' k b.
Proof.
  unfold keyed. rewrite !Forall_forall. intros Hf Hk q Hq. rewrite Hf by done. auto.
Qed.

Lemma elem_of_events p bins : p ∈ events bins <-> exists k b, (k, b) ∈ bins /\ p ∈ b.
Proof.
  unfold events. induction bins as [|[k b] bs IH]; cbn.
  - split; [by intros ?%elem_of_nil | intros (? & ? & ?%elem_of_nil & _); done].
  - rewrite elem_of_app, IH. setoid_rewrite elem_of_cons. naive_solver.
Qed.

Lemma seg_frame h h' hd bins tl :
  (forall p, p ∈ events bins -> h' !! p = h !! p) -> seg h hd bins tl -> seg h' hd bins tl.
Proof.
  revert hd. induction bins as [|[k b] bs IH]; cbn; intros hd Hf; [done|].
  unfold events in Hf. cbn in Hf. setoid_rewrite elem_of_app in Hf.
  intros (p & e & Hp & He & Hc & Hk & Hs). exists p, e. split; [done|].
  assert (p ∈ b) by (destruct b; cbn in Hp; [done|]; injection Hp as ->; set_solver).
  rewrite Hf by auto. split; [done|].
  split; [eapply chain_frame; [|done]; auto|].
  split; [eapply keyed_frame; [|done]; auto|]. eauto.
Qed.

Lemma seg_insert_frame h hd bins tl p e :
  p ∉ events bins -> seg h hd bins tl -> seg (<[p:=e]> h) hd bins tl.
Proof. intros Hp. apply seg_frame. intros q Hq. rewrite lookup_insert_ne; [done|]. intros ->. done. Qed.

Lemma seg_app h hd bs1 bs2 tl :
  seg h hd (bs1 ++ bs2) tl <-> exists m, seg h hd bs1 m /\ seg h m bs2 tl.
Proof.
  revert hd. induction bs1 as [|[k b] bs1 IH]; cbn; intros hd; [naive_solver|].
  setoid_rewrite IH. naive_solver.
Qed.

Lemma events_app bs1 bs2 : events (bs1 ++ bs2) = events bs1 ++ events bs2.
Proof. unfold events. now rewrite fmap_app, concat_app. Qed.

Lemma events_cons k b bs : events ((k, b) :: bs) = b ++ events bs.
Proof. done. Qed.

(** The head of a non-empty segment is the top of its first bin. *)
Lemma seg_head h hd k b bs tl :
  seg h hd ((k, b) :: bs) tl -> exists p b', b = p :: b' /\ hd = Some p.
Proof. cbn. intros (p & e & Hp & _ & Hc & _). destruct b as [|p' b']; [done|]. destruct Hc as [-> _]. eauto. Qed.

(** The first bin of a segment, opened. *)
Lemma seg_uncons h hd k b bs tl :
  seg h hd ((k, b) :: bs) tl ->
  exists p b' e, b = p :: b' /\ hd = Some p /\ h !! p = Some e /\ ekey e = k /\
  chain h (nextInBin e) b' /\ keyed h k b /\ seg h (nextBin e) bs tl.
Proof.
  intros Hs. destruct (seg_head _ _ _ _ _ _ Hs) as (p & b' & -> & ->).
  destruct Hs as (q & e & Hq & He & (_ & e' & He' & Hc) & Hk & Hs). cbn in Hq. injection Hq as <-.
  assert (e' = e) as -> by congruence. exists p, b', e. split_and!; try done.
  apply Forall_cons in Hk as [(e' & ? & <-) _]. congruence.
Qed.

Lemma chain_in h o l p : chain h o l -> p ∈ l -> exists e, h !! p = Some e.
Proof.
  revert o. induction l as [|q l IH]; cbn; intros o; [by intros _ ?%elem_of_nil|].
  intros (_ & e & He & Hc) [->|Hp]%elem_of_cons; eauto.
Qed.

Lemma seg_in h hd bins tl p : seg h hd bins tl -> p ∈ events bins -> exists e, h !! p = Some e.
Proof.
  revert hd. induction bins as [|[k b] bs IH]; cbn; intros hd; [by intros _ ?%elem_of_nil|].
  intros (q & e & _ & _ & Hc & _ & Hs). rewrite events_cons. intros [Hb|Hp]%elem_of_app; eauto using chain_in.
Qed.

(** No more events are queued than the heap holds: the fuel is enough. *)
Lemma seg_size h hd bins tl : seg h hd bins tl -> NoDup (events bins) -> (length (events bins) <= size h)%nat.
Proof.
  intros Hs Hnd.
  assert (list_to_set (events bins) ⊆ (dom h : gset ptr)) as Hsub.
  { intros p Hp%elem_of_list_to_set. apply elem_of_dom. destruct (seg_in _ _ _ _ _ Hs Hp) as [e ->]. done. }
  apply subseteq_size in Hsub. rewrite size_dom in Hsub.
  assert (forall l : list ptr, NoDup l -> size (list_to_set l : gset ptr) = length l) as Hsz.
  { clear. induction 1 as [|x l Hx Hl IH]; cbn; [done|].
    rewrite size_union by set_solver. rewrite size_singleton, IH. done. }
  now rewrite Hsz in Hsub.
Qed.

Lemma seg_bins_le h hd bins tl : seg h hd bins tl -> (length bins <= length (events bins))%nat.
Proof.
  revert hd. induction bins as [|[k b] bs IH]; intros hd Hs; cbn; [lia|].
  destruct (seg_head _ _ _ _ _ _ Hs) as (p & b' & -> & _).
  destruct Hs as (q & e & _ & _ & _ & _ & Hs). apply IH in Hs. rewrite events_cons, length_app. cbn. lia.
Qed.

Lemma seg_fuel h hd bins tl : seg h hd bins tl -> NoDup (events bins) -> (length bins <= size h)%nat.
Proof. intros Hs Hnd. pose proof (seg_size _ _ _ _ Hs Hnd). pose proof (seg_bins_le _ _ _ _ Hs). lia. Qed.

(** ** Updates that keep the links *)

Lemma chain_upd h o l p e e' :
  h !! p = Some e -> nextInBin e' = nextInBin e -> chain h o l -> chain (<[p:=e']> h) o l.
Proof.
  intros Hp Hn. revert o. induction l as [|q l IH]; cbn; intros o; [done|].
  intros (-> & eq & Heq & Hc). split; [done|].
  destruct (decide (p = q)) as [<-|Hne].
  - exists e'. rewrite lookup_insert_eq. split; [done|]. rewrite Hn. apply IH. congruence.
  - exists eq. rewrite lookup_insert_ne by done. auto.
Qed.

Lemma keyed_upd h k b p e e' :
  h !! p = Some e -> ekey e' = ekey e -> keyed h k b -> keyed (<[p:=e']> h) k b.
Proof.
  intros Hp Hk. unfold keyed. rewrite !Forall_forall. intros Hb q Hq.
  destruct (Hb q Hq) as (eq & Heq & Hkq). destruct (decide (p = q)) as [<-|Hne].
  - exists e'. rewrite lookup_insert_eq. split; [done|]. congruence.
  - exists eq. now rewrite lookup_insert_ne.
Qed.

(** Changing anything but the links and the key of an event keeps the
    structure. *)
Lemma seg_upd h hd bins tl p e e' :
  h !! p = Some e -> nextInBin e' = nextInBin e -> nextBin e' = nextBin e -> ekey e' = ekey e ->
  seg h hd bins tl -> seg (<[p:=e']> h) hd bins tl.
Proof.
  intros Hp Hn Hnb Hk. revert hd. induction bins as [|[k b] bs IH]; cbn; intros hd; [done|].
  intros (q & eq & Hq & Heq & Hc & Hkb & Hs).
  exists q, (if decide (p = q) then e' else eq). split; [done|].
  split; [case_decide; [subst; apply lookup_insert_eq|now rewrite lookup_insert_ne]|].
  split; [eapply chain_upd; eauto|]. split; [eapply keyed_upd; eauto|].
  case_decide; [subst|eauto]. rewrite Hnb. simplify_eq. eauto.
Qed.

(** Relinking the top of the last bin moves the end of a segment. *)
Lemma seg_relink h hd bs k p b tl e n :
  seg h hd (bs ++ [(k, p :: b)]) tl -> NoDup (events (bs ++ [(k, p :: b)])) ->
  h !! p = Some e -> seg (<[p := set_nextBin e n]> h) hd (bs ++ [(k, p :: b)]) n.
Proof.
  rewrite events_app, events_cons, app_nil_r, NoDup_app. intros (m & Hs1 & Hs2)%seg_app Hnd Hp.
  apply seg_app. exists m. split.
  - apply seg_insert_frame; [|done]. intros Hin. apply (proj1 (proj2 Hnd) p Hin). set_solver.
  - destruct Hs2 as (q & eq & Hq & Heq & Hc & Hk & _). cbn in Hq. injection Hq as <-.
    exists p, (set_nextBin e n). cbn [head]. rewrite lookup_insert_eq.
    split_and!; [done|done|eapply chain_upd; done|eapply keyed_upd; done|done].
Qed.

(** ** What an event is besides its links *)

Definition erase (e : Event) : Event := set_nextInBin (set_nextBin e None) None.

(** Two heaps with the same events up to their links. *)
Definition same_data (h h' : heap) : Prop := erase <$> h = erase <$> h'.

#[export] Instance same_data_equiv : Equivalence same_data.
Proof. unfold same_data. split; [by intros ?|by intros ???|]. intros ??? ->. done. Qed.

Lemma same_data_upd h p e e' :
  h !! p = Some e -> erase e' = erase e -> same_data h (<[p:=e']> h).
Proof.
  intros Hp He. unfold same_data. rewrite fmap_insert, He.
  symmetry. apply insert_id. rewrite lookup_fmap, Hp. done.
Qed.

Lemma same_data_lookup h h' p e :
  same_data h h' -> h !! p = Some e -> exists e', h' !! p = Some e' /\ erase e' = erase e.
Proof.
  intros Hd Hp. assert ((erase <$> h') !! p = Some (erase e)) as H.
  { rewrite <- Hd, lookup_fmap, Hp. done. }
  rewrite lookup_fmap in H. destruct (h' !! p) as [e'|]; [|done].
  exists e'. split; [done|]. change (Some (erase e') = Some (erase e)) in H. congruence.
Qed.

Lemma same_data_size h h' : same_data h h' -> size h = size h'.
Proof. intros Hd. rewrite <- (map_size_fmap erase h), <- (map_size_fmap erase h'). now rewrite Hd. Qed.

Lemma erase_data e e' :
  erase e' = erase e ->
  ekey e' = ekey e /\ ev_flags e' = ev_flags e /\ ev_queue e' = ev_queue e.
Proof. destruct e, e'. unfold erase, ekey. cbn. intros [= -> -> -> ->]. done. Qed.

(** ** Abstract insertion *)

Lemma abs_insert_events p k bins : events (abs_insert p k bins) ≡ₚ p :: events bins.
Proof.
  induction bins as [|[k' b] bs IH]; cbn [abs_insert]; [done|].
  case_decide; [done|]. case_decide; [done|]. rewrite !events_cons, IH.
  symmetry. apply Permutation_middle.
Qed.

Lemma abs_insert_keys p k bins a : a ∈ (abs_insert p k bins).*1 -> a = k \/ a ∈ bins.*1.
Proof.
  induction bins as [|[k' b] bs IH]; cbn [abs_insert]; [cbn; set_solver|].
  case_decide; [cbn; set_solver|]. case_decide; [cbn; set_solver|]. cbn. set_solver.
Qed.

Lemma abs_insert_sorted p k bins :
  StronglySorted key_lt bins.*1 -> StronglySorted key_lt (abs_insert p k bins).*1.
Proof.
  induction bins as [|[k' b] bs IH]; cbn [abs_insert]; [repeat constructor|].
  cbn. intros [Hs Hf]%StronglySorted_inv. case_decide as Hlt.
  - cbn. constructor; [by constructor|]. constructor; [done|].
    eapply Forall_impl; [done|]. intros a. by etrans.
  - case_decide; [cbn; by constructor|]. cbn. constructor; [auto|].
    apply Forall_forall. intros a [->|Ha]%abs_insert_keys.
    + destruct (key_lt_total k k') as [?|[?|?]]; done.
    + rewrite Forall_forall in Hf. auto.
Qed.

Lemma abs_insert_app p k bs1 bs2 :
  Forall (fun a => key_lt a k) bs1.*1 -> abs_insert p k (bs1 ++ bs2) = bs1 ++ abs_insert p k bs2.
Proof.
  induction bs1 as [|[k' b] bs1 IH]; cbn; [done|]. intros [Hlt Hf]%Forall_cons.
  rewrite decide_False by (intros ?; apply (key_lt_irrefl k); etrans; eauto).
  rewrite decide_False by (intros ->; by apply (key_lt_irrefl k')). now rewrite IH.
Qed.

(** ** Insertion *)

(** [bs] does not start below key [k]. *)
Definition starts_at (k : key) (bs : list bin) : Prop :=
  match bs with [] => True | (k', _) :: _ => ~ key_lt k' k end.

Lemma insertBefore_seg h event e curr bs :
  h !! event = Some e -> seg h curr bs None -> event ∉ events bs -> starts_at (ekey e) bs ->
  exists nb nib, insertBefore h event curr = Ok (<[event := set_nextInBin (set_nextBin e nb) nib]> h) /\
  seg (<[event := set_nextInBin (set_nextBin e nb) nib]> h) (Some event)
      (abs_insert event (ekey e) bs) None.
Proof.
  intros He Hs Hnin Hst. unfold insertBefore. rewrite He. cbn [deref rbind].
  assert (forall nb nib, keyed (<[event := set_nextInBin (set_nextBin e nb) nib]> h) (ekey e) [event]) as Hkey.
  { intros nb nib. repeat constructor. eexists. rewrite lookup_insert_eq. done. }
  destruct bs as [|[k b] bs].
  - cbn in Hs. subst curr. exists None, None. split; [done|]. cbn.
    eexists _, _. rewrite lookup_insert_eq. split_and!; eauto.
  - pose proof Hs as Hseg.
    apply seg_uncons in Hs as (p & b' & ep & -> & -> & Hep & Hkp & Hc & Hk & Hs).
    rewrite Hep. cbn [deref rbind]. destruct (ev_lt e ep) eqn:Hlt.
    + apply ev_lt_key in Hlt. rewrite Hkp in Hlt. exists (Some p), None. split; [done|].
      cbn [abs_insert]. rewrite decide_True by done.
      eapply seg_cons; [apply lookup_insert_eq|done|apply Hkey|]. now apply seg_insert_frame.
    + assert (~ key_lt (ekey e) k) as Hnlt by (rewrite <- Hkp, <- ev_lt_key, Hlt; done).
      assert (ekey e = k) as Hek.
      { cbn in Hst. destruct (key_lt_total (ekey e) k) as [?|[?|?]]; done. }
      exists (nextBin ep), (Some p). split; [done|].
      cbn [abs_insert]. rewrite decide_False by done. rewrite decide_True by done.
      rewrite events_cons in Hnin.
      assert (forall q, q ∈ p :: b' -> event <> q) as Hne by (intros q Hq ->; set_solver).
      eapply seg_cons; [apply lookup_insert_eq| | |].
      * eapply chain_frame; [|exact (chain_cons _ _ _ _ Hep Hc)]. intros q Hq. rewrite lookup_insert_ne; auto.
      * apply Forall_cons. split; [eexists; rewrite lookup_insert_eq; done|].
        eapply keyed_frame; [|exact Hk]. intros q Hq. rewrite lookup_insert_ne; auto.
      * apply seg_insert_frame; [set_solver|done].
Qed.

Lemma seek_bin_spec fuel h e prev curr bs :
  seg h curr bs None -> (length bs < fuel)%nat ->
  exists bs1 bs2 prev' curr', bs = bs1 ++ bs2 /\
    seek_bin fuel h e prev curr = Ok (prev', curr') /\
    seg h curr bs1 curr' /\ seg h curr' bs2 None /\
    Forall (fun a => key_lt a (ekey e)) bs1.*1 /\ starts_at (ekey e) bs2 /\
    match last bs1 with None => prev' = prev | Some (_, b) => head b = Some prev' end.
Proof.
  revert prev curr bs. induction fuel as [|fuel IH]; intros prev curr bs Hs Hf; [lia|].
  cbn [seek_bin]. destruct bs as [|[k b] bs].
  - cbn in Hs. subst curr. exists [], [], prev, None. done.
  - pose proof (seg_uncons _ _ _ _ _ _ Hs) as (p & b' & ep & -> & -> & Hep & Hkp & Hc & Hk & Hs').
    rewrite Hep. cbn [deref rbind]. destruct (ev_lt ep e) eqn:Hlt.
    + apply ev_lt_key in Hlt. rewrite Hkp in Hlt. cbn in Hf.
      destruct (IH p (nextBin ep) bs Hs' ltac:(lia)) as
        (bs1 & bs2 & prev' & curr' & -> & -> & Hs1 & Hs2 & Hall & Hst & Hl).
      exists ((k, p :: b') :: bs1), bs2, prev', curr'. split_and!; try done.
      * by eapply seg_cons.
      * cbn. by constructor.
      * rewrite last_cons. destruct (last bs1) as [[]|]; [done|]. cbn. congruence.
    + exists [], ((k, p :: b') :: bs), prev, (Some p). split_and!; try done.
      cbn. rewrite <- Hkp, <- ev_lt_key, Hlt. done.
Qed.

(** The last bin of a non-empty list of bins, by its top. *)
Lemma last_top (b0 : bin) bs1 p :
  match last bs1 with None => head b0.2 = Some p | Some (_, b) => head b = Some p end ->
  exists bs k b, b0 :: bs1 = bs ++ [(k, p :: b)].
Proof.
  destruct bs1 as [|[k b] bs1 _] using rev_ind.
  - destruct b0 as [k [|q b]]; cbn; [done|]. intros [= ->]. exists [], k, b. done.
  - rewrite last_snoc. destruct b as [|q b]; cbn; [done|]. intros [= ->].
    exists (b0 :: bs1), k, b. done.
Qed.

Lemma top_in_events p bs k b : p ∈ events (bs ++ [(k, p :: b)]).
Proof. rewrite events_app, events_cons. set_solver. Qed.

(** Two adjacent segments become one when the top of the last bin of the
    first is linked to the second. *)
Lemma seg_join h hd bs k p b m bs2 n e :
  seg h hd (bs ++ [(k, p :: b)]) m -> h !! p = Some e ->
  NoDup (events (bs ++ [(k, p :: b)])) -> p ∉ events bs2 -> seg h n bs2 None ->
  seg (<[p := set_nextBin e n]> h) hd ((bs ++ [(k, p :: b)]) ++ bs2) None.
Proof.
  intros Hs1 Hp Hnd Hnin Hs2. apply seg_app. exists n. split.
  - eapply seg_relink; eauto.
  - now apply seg_insert_frame.
Qed.

(** The bins before the place of an operation, linked to what the operation
    left behind it. *)
Lemma relink_prefix h h' hd b0 bs1 prev curr n bs2 :
  seg h hd (b0 :: bs1) curr -> NoDup (events (b0 :: bs1)) ->
  (forall q, q ∈ events (b0 :: bs1) -> h' !! q = h !! q /\ q ∉ events bs2) ->
  match last bs1 with None => head b0.2 = Some prev | Some (_, b) => head b = Some prev end ->
  seg h' n bs2 None ->
  exists e, h' !! prev = Some e /\
  seg (<[prev := set_nextBin e n]> h') hd ((b0 :: bs1) ++ bs2) None.
Proof.
  intros Hs Hnd Hfr Hl Hs2. destruct (last_top _ _ _ Hl) as (bs & k & b & Heq).
  rewrite Heq in *.
  pose proof (top_in_events prev bs k b) as Hpin.
  assert (seg h' hd (bs ++ [(k, prev :: b)]) curr) as Hs' by (eapply seg_frame; [apply Hfr|done]).
  destruct (seg_in _ _ _ _ prev Hs' Hpin) as [e He]. exists e. split; [done|].
  eapply seg_join; eauto. now apply Hfr.
Qed.

(** [insert] links the new event into the heap as [abs_insert] puts it into
    the sequence, and changes nothing but links. *)
Lemma eq_insert_rep h hd bins event e :
  queue_rep h hd bins -> h !! event = Some e -> event ∉ events bins ->
  exists h' hd', eq_insert h hd event = Ok (h', hd') /\
  queue_rep h' hd' (abs_insert event (ekey e) bins) /\ same_data h h'.
Proof.
  intros [Hs Hsort Hnd] He Hnin.
  assert (forall h' hd', seg h' hd' (abs_insert event (ekey e) bins) None ->
    queue_rep h' hd' (abs_insert event (ekey e) bins)) as Hrep.
  { intros h' hd' Hs'. split; [done|by apply abs_insert_sorted|].
    rewrite abs_insert_events. by constructor. }
  unfold eq_insert. rewrite He. cbn [deref rbind].
  assert (forall nb nib, same_data h (<[event := set_nextInBin (set_nextBin e nb) nib]> h)) as Hsame.
  { intros. eapply same_data_upd; done. }
  destruct bins as [|[k b] bs].
  { cbn in Hs. subst hd. destruct (insertBefore_seg h event e None [] He eq_refl Hnin I)
      as (nb & nib & -> & Hs'). cbn [rbind]. eauto 10. }
  pose proof (seg_uncons _ _ _ _ _ _ Hs) as (p & b' & ep & -> & -> & Hep & Hkp & Hc & Hk & Hs').
  rewrite Hep. cbn [deref rbind]. destruct (ev_le e ep) eqn:Hle.
  { apply ev_le_key, key_le_lt_eq in Hle. rewrite Hkp in Hle.
    destruct (insertBefore_seg h event e (Some p) _ He Hs Hnin) as (nb & nib & -> & Hs'').
    { intros Hlt. destruct Hle as [?|Heq]; [apply (key_lt_irrefl k); by etrans|].
      rewrite Heq in Hlt. by apply (key_lt_irrefl k). }
    cbn [rbind]. eauto 10. }
  apply ev_le_key_false in Hle. rewrite Hkp in Hle.
  rewrite events_cons in Hnin, Hnd.
  pose proof (seg_fuel _ _ _ _ Hs Hnd) as Hbl.
  destruct (seek_bin_spec (S (size h)) h e p (nextBin ep) bs Hs' ltac:(cbn in *; lia)) as
    (bs1 & bs2 & prev & curr & -> & -> & Hs1 & Hs2 & Hall & Hst & Hl). cbn [rbind].
  rewrite events_app in Hnin, Hnd.
  destruct (insertBefore_seg h event e curr bs2 He Hs2 ltac:(set_solver) Hst) as (nb & nib & -> & Hs'').
  cbn [rbind]. rewrite app_assoc in Hnd. apply NoDup_app in Hnd as (Hnd1 & Hdis & Hnd2).
  edestruct (relink_prefix h) as (eprev & Heprev & Hs3);
    [eapply (seg_cons _ _ _ _ _ _ _ Hep Hc Hk Hs1)|exact Hnd1| | |exact Hs''|].
  { rewrite events_cons. intros q Hq. split; [apply lookup_insert_ne; set_solver|].
    rewrite abs_insert_events. intros [->|Hin]%elem_of_cons; [set_solver|]. by apply (Hdis q). }
  { destruct (last bs1) as [[]|]; [exact Hl|]. cbn. rewrite Hl. done. }
  rewrite Heprev. cbn [deref rbind]. do 2 eexists. split; [done|]. split.
  - apply Hrep. change ((k, p :: b') :: bs1 ++ bs2) with (((k, p :: b') :: bs1) ++ bs2).
    rewrite abs_insert_app; [exact Hs3|]. cbn; by constructor.
  - etrans; [apply Hsame|]. by eapply same_data_upd.
Qed.

(** ** Abstract removal *)

Lemma filter_out (p : ptr) l1 l2 :
  NoDup (l1 ++ p :: l2) -> filter (fun q => q <> p) (l1 ++ p :: l2) = l1 ++ l2.
Proof.
  intros Hnd. assert (forall l : list ptr, p ∉ l -> filter (fun q => q <> p) l = l) as Hid.
  { induction l as [|q l IH]; intros Hp; [done|]. rewrite filter_cons_True by set_solver.
    f_equal. apply IH. set_solver. }
  apply NoDup_app in Hnd as (_ & Hdis & Hnd). apply NoDup_cons in Hnd as [Hp _].
  rewrite filter_app, filter_cons_False by naive_solver. rewrite !Hid; [done|done|].
  intros Hin. apply (Hdis p Hin). set_solver.
Qed.

Lemma abs_remove_app p k b bs1 bs2 :
  Forall (fun a => key_lt a k) bs1.*1 ->
  abs_remove p k (bs1 ++ (k, b) :: bs2) = bs1 ++ cons_bin k (filter (fun q => q <> p) b) bs2.
Proof.
  induction bs1 as [|[k' b'] bs1 IH]; cbn [abs_remove app fmap list_fmap].
  - intros _. now rewrite decide_True.
  - cbn. intros [Hlt Hf]%Forall_cons. rewrite decide_False; [now rewrite IH|].
    intros ->. by apply (key_lt_irrefl k').
Qed.

Lemma events_cons_bin k b bs : events (cons_bin k b bs) = b ++ events bs.
Proof. now destruct b. Qed.

(** Where a queued event is: in the bin of its key, behind the smaller keys. *)
Lemma event_bin h hd bins p e :
  queue_rep h hd bins -> p ∈ events bins -> h !! p = Some e ->
  exists bs1 l1 l2 bs2, bins = bs1 ++ (ekey e, l1 ++ p :: l2) :: bs2 /\
  Forall (fun a => key_lt a (ekey e)) bs1.*1.
Proof.
  intros [Hs Hsort _] Hp He. revert hd Hs Hsort Hp.
  induction bins as [|[k b] bs IH]; intros hd Hs Hsort Hp; [by apply elem_of_nil in Hp|].
  cbn in Hsort. apply StronglySorted_inv in Hsort as [Hsort Hf].
  destruct Hs as (q & eq & _ & _ & _ & Hk & Hs).
  rewrite events_cons in Hp. apply elem_of_app in Hp as [Hp|Hp].
  - apply list_elem_of_split in Hp as Hsp. destruct Hsp as (l1 & l2 & ->).
    unfold keyed in Hk. rewrite Forall_forall in Hk. destruct (Hk p Hp) as (e' & He' & <-).
    exists [], l1, l2, bs. split; [|constructor]. cbn. congruence.
  - destruct (IH _ Hs Hsort Hp) as (bs1 & l1 & l2 & bs2 & -> & Hall).
    exists ((k, b) :: bs1), l1, l2, bs2. split; [done|]. cbn. constructor; [|done].
    rewrite Forall_forall in Hf. apply Hf. rewrite fmap_app. cbn. set_solver.
Qed.

(** The split at a key is unique. *)
Lemma split_unique k b (bs1 bs1' bs2 bs2' : list bin) :
  bs1 ++ (k, b) :: bs2 = bs1' ++ bs2' ->
  Forall (fun a => key_lt a k) bs1.*1 -> Forall (fun a => key_lt a k) bs1'.*1 ->
  starts_at k bs2' -> bs1' = bs1 /\ bs2' = (k, b) :: bs2.
Proof.
  revert bs1'. induction bs1 as [|[k1 b1] bs1 IH]; intros [|[k' b'] bs1']; cbn.
  - intros <-. done.
  - intros [= <- <- ->] _ [Hlt _]%Forall_cons. by apply key_lt_irrefl in Hlt.
  - intros <- [Hlt _]%Forall_cons _ Hst. done.
  - intros [= <- <- Heq] [_ Hf]%Forall_cons [_ Hf']%Forall_cons Hst.
    destruct (IH _ Heq Hf Hf' Hst) as [-> ->]. done.
Qed.

Lemma split_perm (p : ptr) l0 l1 l2 l3 :
  l0 ++ (l1 ++ p :: l2) ++ l3 ≡ₚ p :: l0 ++ (l1 ++ l2) ++ l3.
Proof. solve_Permutation. Qed.

Lemma abs_remove_rep h h' hd hd' bs1 k l1 p l2 bs2 :
  queue_rep h hd (bs1 ++ (k, l1 ++ p :: l2) :: bs2) -> Forall (fun a => key_lt a k) bs1.*1 ->
  seg h' hd' (bs1 ++ cons_bin k (l1 ++ l2) bs2) None ->
  queue_rep h' hd' (abs_remove p k (bs1 ++ (k, l1 ++ p :: l2) :: bs2)).
Proof.
  intros [_ Hsort Hnd] Hf Hs. rewrite abs_remove_app by done.
  rewrite events_app, events_cons in Hnd.
  assert (NoDup (l1 ++ p :: l2)) as Hb by (apply NoDup_app in Hnd as (_ & _ & [Hb _]%NoDup_app); done).
  rewrite filter_out by done.
  split; [done| |].
  - rewrite fmap_app in *. cbn in Hsort. unfold cons_bin. destruct (l1 ++ l2); [|done].
    apply StronglySorted_app in Hsort as (Hd & H1 & [H2 _]%StronglySorted_inv).
    apply StronglySorted_app. split_and!; [|done|done]. intros x y Hx Hy. apply Hd; set_solver.
  - rewrite events_app, events_cons_bin. rewrite split_perm in Hnd. now apply NoDup_cons in Hnd as [_ ?].
Qed.

(** ** Removal *)

Lemma chain_nodup_frame h o l p e : p ∉ l -> chain h o l -> chain (<[p:=e]> h) o l.
Proof. intros Hp. apply chain_frame. intros q Hq. rewrite lookup_insert_ne; [done|]. intros ->. done. Qed.

(** Unlinking the successor of [c] in a stack. *)
Lemma chain_splice h o l1 c p l2 ec ep :
  chain h o (l1 ++ c :: p :: l2) -> NoDup (l1 ++ c :: p :: l2) ->
  h !! c = Some ec -> h !! p = Some ep ->
  chain (<[c := set_nextInBin ec (nextInBin ep)]> h) o (l1 ++ c :: l2).
Proof.
  intros Hch Hnd Hc Hp. revert o Hch Hnd. induction l1 as [|q l1 IH]; cbn [app]; intros o.
  - intros (-> & e & He & _ & e' & He' & Hch) [Hcn [_ _]%NoDup_cons]%NoDup_cons.
    apply (chain_cons _ _ (set_nextInBin ec (nextInBin ep))); [apply lookup_insert_eq|].
    apply chain_nodup_frame; [set_solver|]. cbn. congruence.
  - intros (-> & e & He & Hch) [Hq Hnd]%NoDup_cons.
    apply (chain_cons _ _ e); [|by apply IH]. rewrite lookup_insert_ne; [done|]. intros ->. set_solver.
Qed.

Lemma seek_item_spec fuel h event curr next l1 l2 :
  chain h next (l1 ++ event :: l2) -> event ∉ l1 -> (length l1 < fuel)%nat ->
  exists l c e, curr :: l1 = l ++ [c] /\ seek_item fuel h event curr next = Ok (c, e) /\
  h !! event = Some e.
Proof.
  revert curr next l1. induction fuel as [|fuel IH]; intros curr next l1 Hch Hnin Hf; [lia|].
  destruct l1 as [|q l1]; cbn [app] in Hch; destruct Hch as (-> & e & He & Hch);
    cbn [seek_item]; rewrite He; cbn [deref rbind].
  - rewrite decide_True by done. exists [], curr, e. done.
  - rewrite decide_False by set_solver. cbn in Hf.
    destruct (IH q (nextInBin e) l1 Hch ltac:(set_solver) ltac:(lia)) as (l & c & e' & Hl & -> & He').
    exists (curr :: l), c, e'. rewrite Hl. done.
Qed.

Lemma keyed_sub h k b b' : (forall q, q ∈ b' -> q ∈ b) -> keyed h k b -> keyed h k b'.
Proof. unfold keyed. rewrite !Forall_forall. auto. Qed.

(** [removeItem] takes an event out of the first bin of a segment: at its top,
    or below it. *)
Definition removes (h : heap) (top p : ptr) (l1 l2 : list ptr) (k : key) (bs : list bin)
    (tl : option ptr) : Prop :=
  exists h' top', removeItem h p top = Ok (h', top') /\
  seg h' top' (cons_bin k (l1 ++ l2) bs) tl /\ same_data h h' /\
  (forall q, q ∉ l1 ++ p :: l2 -> h' !! q = h !! q).

Lemma removeItem_top h p k l2 bs tl :
  seg h (Some p) ((k, p :: l2) :: bs) tl -> NoDup ((p :: l2) ++ events bs) ->
  removes h p p [] l2 k bs tl.
Proof.
  intros Hs Hnd. apply seg_uncons in Hs as (p0 & b' & e & [= <- <-] & _ & He & Hke & Hc & Hk & Hs).
  unfold removes, removeItem. rewrite He. cbn [deref rbind app]. apply NoDup_app in Hnd as (Hnd & Hdis & _).
  rewrite decide_True by done. destruct l2 as [|n b'].
  { cbn in Hc. rewrite Hc. do 2 eexists. split_and!; eauto; done. }
  destruct Hc as (-> & en & Hen & Hc). rewrite Hen. cbn [deref rbind].
  do 2 eexists. split; [done|].
  split; [|split; [by eapply same_data_upd|intros; rewrite lookup_insert_ne; [done|set_solver]]].
  cbn [cons_bin]. eapply seg_cons; [apply lookup_insert_eq|eapply chain_upd; eauto| |].
  - eapply keyed_upd; [done|done|]. eapply keyed_sub; [|exact Hk]. set_solver.
  - cbn. apply seg_insert_frame; [|done]. apply Hdis. set_solver.
Qed.

Lemma removeItem_below h top k l1 p l2 bs tl :
  seg h (Some top) ((k, top :: l1 ++ p :: l2) :: bs) tl ->
  NoDup ((top :: l1 ++ p :: l2) ++ events bs) -> (length (top :: l1 ++ p :: l2) <= size h)%nat ->
  removes h top p (top :: l1) l2 k bs tl.
Proof.
  intros Hs Hnd Hsz. apply seg_uncons in Hs as (p0 & b' & e & [= <- <-] & _ & He & Hke & Hc & Hk & Hs).
  unfold removes, removeItem. rewrite He. cbn [deref rbind]. apply NoDup_app in Hnd as (Hnd & Hdis & _).
  apply NoDup_cons in Hnd as Hnd'. destruct Hnd' as [Htop Hnd']. rewrite decide_False by set_solver.
  destruct (seek_item_spec (S (size h)) h p top (nextInBin e) l1 l2 Hc) as (l & c & ep & Hl & -> & Hep).
  { apply NoDup_app in Hnd' as (_ & Hd & _). intros Hin. apply (Hd p Hin). set_solver. }
  { cbn in Hsz. rewrite length_app in Hsz. cbn in Hsz. lia. }
  pose proof (chain_cons _ _ _ _ He Hc) as Hch. cbn [rbind].
  change (top :: l1 ++ p :: l2) with ((top :: l1) ++ p :: l2) in *.
  assert (cons_bin k ((top :: l1) ++ l2) bs = (k, (top :: l1) ++ l2) :: bs) as -> by done.
  rewrite Hl in *. rewrite <- app_assoc in *. cbn [app] in *.
  destruct (chain_in _ _ _ c Hch) as [ec Hec]; [set_solver|].
  rewrite Hec. cbn [deref rbind]. do 2 eexists. split; [done|].
  split; [|split; [by eapply same_data_upd|intros; rewrite lookup_insert_ne; [done|set_solver]]].
  pose proof (chain_splice _ _ _ _ _ _ _ _ Hch Hnd Hec Hep) as Hch'.
  destruct (l ++ c :: l2) as [|t r] eqn:Hr; [by destruct l|].
  pose proof Hch' as ([= <-] & e2 & He2 & _). exists top, e2. split_and!; [done|done|done| |].
  - eapply keyed_upd; [done|done|]. eapply keyed_sub; [|exact Hk]. rewrite <- Hr. set_solver.
  - replace (nextBin e2) with (nextBin e); [apply seg_insert_frame; [apply Hdis; set_solver|done]|].
    destruct (decide (c = top)) as [->|Hne].
    + rewrite lookup_insert_eq in He2. injection He2 as <-. cbn. congruence.
    + rewrite lookup_insert_ne in He2 by done. congruence.
Qed.

Lemma removeItem_seg h top k l1 p l2 bs tl :
  seg h (Some top) ((k, l1 ++ p :: l2) :: bs) tl ->
  NoDup ((l1 ++ p :: l2) ++ events bs) -> (length (l1 ++ p :: l2) <= size h)%nat ->
  removes h top p l1 l2 k bs tl.
Proof.
  intros Hs. destruct (seg_head _ _ _ _ _ _ Hs) as (t & b & Hb & [= <-]).
  destruct l1 as [|q l1]; cbn [app] in *; injection Hb as -> _; intros.
  - by apply removeItem_top.
  - by apply removeItem_below.
Qed.

(** [remove] unlinks a queued event as [abs_remove] takes it out of the
    sequence. *)
Lemma eq_remove_rep q bins p e :
  queue_rep (eq_heap q) (eq_head q) bins -> p ∈ events bins ->
  eq_heap q !! p = Some e -> ev_queue e = Some (eq_id q) ->
  exists h' hd', eq_remove q p = Ok (h', hd') /\
  queue_rep h' hd' (abs_remove p (ekey e) bins) /\ same_data (eq_heap q) h'.
Proof.
  set (h := eq_heap q). intros Hrep Hp He Hq. unfold eq_remove. fold h.
  destruct (event_bin _ _ _ _ _ Hrep Hp He) as (bs1 & l1 & l2 & bs2 & -> & Hall).
  pose proof (rep_seg _ _ _ Hrep) as Hs. pose proof (rep_nodup _ _ _ Hrep) as Hnd.
  pose proof (seg_size _ _ _ _ Hs Hnd) as Hsz. pose proof (seg_fuel _ _ _ _ Hs Hnd) as Hbl.
  rewrite events_app, events_cons in Hsz, Hnd. rewrite !length_app in Hsz.
  apply NoDup_app in Hnd as Hndb. destruct Hndb as (Hnd1 & Hdis & Hnd2).
  destruct bs1 as [|[k0 b0] bs1]; cbn [app] in Hs.
  - pose proof (seg_uncons _ _ _ _ _ _ Hs) as (top & b' & et & Hb & Hhd & Het & Hket & _).
    rewrite Hhd, He. cbn [deref rbind]. rewrite bool_decide_true by done. cbn [assert_ rbind].
    rewrite Het. cbn [deref rbind]. rewrite (proj2 (ev_eqb_key et e)) by done. rewrite Hhd in Hs.
    destruct (removeItem_seg _ _ _ _ _ _ _ _ Hs Hnd2) as (h' & top' & -> & Hs' & Hsame & _);
      [rewrite length_app; lia|]. do 2 eexists. split; [done|].
    split; [by apply (abs_remove_rep h h' _ top' [] _ _ _ _ _ Hrep)|done].
  - pose proof (seg_uncons _ _ _ _ _ _ Hs) as (hp & b' & eh & -> & Hhd & Heh & Hkeh & Hch & Hkh & Hs').
    rewrite Hhd, He. cbn [deref rbind]. rewrite bool_decide_true by done. cbn [assert_ rbind].
    rewrite Heh. cbn [deref rbind]. cbn in Hall. apply Forall_cons in Hall as [Hlt Hall].
    replace (ev_eqb eh e) with false; [|symmetry; apply not_true_iff_false; rewrite ev_eqb_key, Hkeh;
      intros ->; by apply key_lt_irrefl in Hlt].
    destruct (seek_bin_spec (S (size h)) h e hp (nextBin eh) _ Hs') as
      (bs1' & bs2' & prev & curr & Heq & -> & Hs1 & Hs2 & Hall' & Hst & Hl).
    { cbn in Hbl. lia. }
    destruct (split_unique _ _ _ _ _ _ Heq Hall Hall' Hst) as [-> ->]. cbn [rbind].
    pose proof (seg_uncons _ _ _ _ _ _ Hs2) as (c & bc & ec & Hbc & -> & Hec & Hkc & _).
    rewrite Hec. cbn [deref rbind]. rewrite (proj2 (ev_eqb_key ec e)) by done. cbn [negb].
    destruct (removeItem_seg _ _ _ _ _ _ _ _ Hs2 Hnd2) as (h' & top' & -> & Hs'' & Hsame & Hfr);
      [rewrite length_app; lia|]. cbn [rbind].
    edestruct (relink_prefix h h') as (eprev & Heprev & Hs3);
      [eapply (seg_cons _ _ _ _ _ _ _ Heh Hch Hkh Hs1)|exact Hnd1| | |exact Hs''|].
    { intros x Hx. rewrite events_cons_bin. specialize (Hdis x Hx). split; [apply Hfr|]; set_solver. }
    { destruct (last bs1) as [[]|]; [exact Hl|]. cbn. rewrite Hl. done. }
    rewrite Heprev. cbn [deref rbind]. do 2 eexists. split; [done|]. split.
    + eapply abs_remove_rep; [exact Hrep|cbn; by constructor|exact Hs3].
    + etrans; [exact Hsame|]. by eapply same_data_upd.
Qed.
