(* ===== verification/EventQueueCorrect.v ===== *)
(** * Correctness of the event queue

    The invariant of a queue ([eq_wf]) and what each public operation of
    [EventQueue] does to the abstract queue, on every branch; the service loop
    keeps time monotone; [debugVerify] accepts what the operations build. *)
From stdpp Require Import sorting.
From S2P Require Import Prelude Flags EventQueue EventQueueSpec.

(** ** The invariant *)

(** What is stored at [p], up to links. *)
Definition data_at (h : heap) (p : ptr) : option Event := erase <$> h !! p.

(** Every event that waits, in the bins or in the asynchronous list. *)
Definition pending (q : EventQueue) (bins : list bin) : list ptr := events bins ++ async_queue q.

(** An event waits on [q] by what its own fields say. *)
Definition waits_on (q : EventQueue) (e : Event) : Prop :=
  scheduled e = true /\ ev_queue e = Some (eq_id q).

Record eq_wf (q : EventQueue) (bins : list bin) : Prop := {
  wf_rep : queue_rep (eq_heap q) (eq_head q) bins;
  wf_nodup : NoDup (pending q bins);
  wf_alloc p : p ∈ pending q bins -> is_Some (eq_heap q !! p);
  wf_sched p e : data_at (eq_heap q) p = Some e -> waits_on q e <-> p ∈ pending q bins;
  wf_time p e : data_at (eq_heap q) p = Some e -> p ∈ pending q bins -> eq_curTick q <= ev_when e;
  wf_init p e : data_at (eq_heap q) p = Some e -> initialized e = true;
}.

(** The serial mode of the simulator, one thread and one queue. *)
Definition serial (q : EventQueue) : Prop := inParallelMode q = false.

(** [q'] is [q] but for the event [p], whose data became [e]. *)
Record only_changes (q q' : EventQueue) (p : ptr) (e : Event) : Prop := {
  oc_other r : r <> p -> data_at (eq_heap q') r = data_at (eq_heap q) r;
  oc_this : data_at (eq_heap q') p = Some (erase e);
  oc_cur : eq_curTick q' = eq_curTick q;
  oc_id : eq_id q' = eq_id q;
  oc_par : inParallelMode q' = inParallelMode q;
  oc_thread : curEventQueue q' = curEventQueue q;
}.

(** [q'] is [q] but for the event [p], which is gone. *)
Record only_frees (q q' : EventQueue) (p : ptr) : Prop := {
  of_other r : r <> p -> data_at (eq_heap q') r = data_at (eq_heap q) r;
  of_this : eq_heap q' !! p = None;
  of_cur : eq_curTick q' = eq_curTick q;
  of_id : eq_id q' = eq_id q;
  of_par : inParallelMode q' = inParallelMode q;
  of_thread : curEventQueue q' = curEventQueue q;
}.

(** ** Flags *)

Lemma scheduled_set e : scheduled (set_flags e (flag_set (ev_flags e) Scheduled)) = true.
Proof.
  unfold scheduled, flag_isSet, flag_set. cbn [ev_flags set_flags].
  apply negb_true_iff, Z.eqb_neq. intros H. apply (f_equal (fun z => Z.testbit z 1)) in H.
  rewrite Z.land_spec, Z.lor_spec in H. change (Z.testbit Scheduled 1) with true in H.
  rewrite orb_true_r in H. done.
Qed.

Lemma scheduled_clear f e : scheduled (set_flags e (flag_clear f Scheduled)) = false.
Proof.
  unfold scheduled, flag_isSet, flag_clear. cbn [ev_flags set_flags].
  rewrite <- Z.land_assoc. change (Z.land (u16 (Z.lnot Scheduled)) Scheduled) with 0.
  now rewrite Z.land_0_r.
Qed.

Lemma initialized_set e f :
  Z.land f InitMask = 0 -> initialized (set_flags e (flag_set (ev_flags e) f)) = initialized e.
Proof.
  intros Hf. unfold initialized, flag_set. cbn [ev_flags set_flags].
  now rewrite Z.land_lor_distr_l, Hf, Z.lor_0_r.
Qed.

Lemma initialized_clear e e' f :
  Z.land (u16 (Z.lnot f)) InitMask = InitMask ->
  initialized (set_flags e' (flag_clear (ev_flags e) f)) = initialized e.
Proof.
  intros Hf. unfold initialized, flag_clear. cbn [ev_flags set_flags].
  now rewrite <- Z.land_assoc, Hf.
Qed.

Lemma erase_proj e :
  scheduled (erase e) = scheduled e /\ initialized (erase e) = initialized e /\
  ev_when (erase e) = ev_when e /\ ev_queue (erase e) = ev_queue e /\ ekey (erase e) = ekey e.
Proof. done. Qed.

(** ** Data *)

Lemma data_at_same h h' p : same_data h h' -> data_at h' p = data_at h p.
Proof. intros Hd. unfold data_at. now rewrite <- !lookup_fmap, Hd. Qed.

Lemma data_at_insert_ne h p r e : r <> p -> data_at (<[p:=e]> h) r = data_at h r.
Proof. intros. unfold data_at. now rewrite lookup_insert_ne. Qed.

Lemma data_at_insert h p e : data_at (<[p:=e]> h) p = Some (erase e).
Proof. unfold data_at. now rewrite lookup_insert_eq. Qed.

Lemma data_at_lookup h p e : h !! p = Some e -> data_at h p = Some (erase e).
Proof. unfold data_at. intros ->. done. Qed.

Lemma data_at_inv h p e : data_at h p = Some e -> exists e', h !! p = Some e' /\ e = erase e'.
Proof.
  unfold data_at. destruct (h !! p) as [e'|]; [|done]. intros H.
  change (Some (erase e') = Some e) in H. exists e'. split; congruence.
Qed.

Lemma data_at_some h p : is_Some (data_at h p) <-> is_Some (h !! p).
Proof. unfold data_at. now rewrite fmap_is_Some. Qed.

(** ** The structure under updates of one event *)

Lemma rep_upd h hd bins p e e' :
  h !! p = Some e -> nextInBin e' = nextInBin e -> nextBin e' = nextBin e -> ekey e' = ekey e ->
  queue_rep h hd bins -> queue_rep (<[p:=e']> h) hd bins.
Proof. intros ? ? ? ? [Hs ? ?]. split; [|done|done]. by eapply seg_upd. Qed.

Lemma rep_frame h hd bins p e :
  p ∉ events bins -> queue_rep h hd bins -> queue_rep (<[p:=e]> h) hd bins.
Proof. intros ? [Hs ? ?]. split; [|done|done]. by apply seg_insert_frame. Qed.

Lemma rep_flags h hd bins p e f :
  h !! p = Some e -> queue_rep h hd bins -> queue_rep (<[p := set_flags e f]> h) hd bins.
Proof. intros He. by apply (rep_upd _ _ _ _ e). Qed.

Lemma waits_erase q e : waits_on q (erase e) <-> waits_on q e.
Proof. done. Qed.

(** An operation on one event keeps the invariant. *)
Lemma wf_update q bins q' bins' p e :
  eq_wf q bins -> only_changes q q' p e ->
  queue_rep (eq_heap q') (eq_head q') bins' -> NoDup (pending q' bins') ->
  (forall r, r <> p -> r ∈ pending q' bins' <-> r ∈ pending q bins) ->
  (waits_on q e <-> p ∈ pending q' bins') -> (p ∈ pending q' bins' -> eq_curTick q <= ev_when e) ->
  initialized e = true -> eq_wf q' bins'.
Proof.
  intros [_ _ Hal Hsc Hti Hin] [Ho Ht Hc Hid _ _] Hrep Hnd Hp Hw Htm Hi. split; [done|done| | | |].
  - intros r Hr. apply data_at_some. destruct (decide (r = p)) as [->|Hne]; [by rewrite Ht|].
    rewrite Ho by done. apply data_at_some, Hal. by apply Hp.
  - intros r e'. unfold waits_on in *. rewrite Hid. destruct (decide (r = p)) as [->|Hne].
    + rewrite Ht. intros [= <-]. done.
    + rewrite Ho, Hp by done. apply Hsc.
  - intros r e'. rewrite Hc. destruct (decide (r = p)) as [->|Hne].
    + rewrite Ht. intros [= <-]. done.
    + rewrite Ho, Hp by done. apply Hti.
  - intros r e'. destruct (decide (r = p)) as [->|Hne]; [rewrite Ht; intros [= <-]; done|].
    rewrite Ho by done. apply Hin.
Qed.

(** An event that does not wait is not in the structure. *)
Lemma not_pending q bins p e :
  eq_wf q bins -> eq_heap q !! p = Some e -> scheduled e = false -> p ∉ pending q bins.
Proof.
  intros Hwf He Hs Hp. apply (wf_sched _ _ Hwf _ _ (data_at_lookup _ _ _ He)) in Hp as [Hp _].
  rewrite (proj1 (erase_proj e)) in Hp. congruence.
Qed.

Lemma pending_app q bins p : p ∈ pending q bins <-> p ∈ events bins \/ p ∈ async_queue q.
Proof. apply elem_of_app. Qed.

(** ** Scheduling *)

(** The event [schedule(event, when)] leaves. *)
Definition scheduled_event (q : EventQueue) (e : Event) (when : Z) : Event :=
  let e := setWhen e when (eq_id q) in set_flags e (flag_set (ev_flags e) Scheduled).

(** [insert] of an event whose fields were just set. *)
Lemma insert_fresh h hd bins p e :
  queue_rep h hd bins -> p ∉ events bins ->
  exists h' hd' e', eq_insert (<[p:=e]> h) hd p = Ok (h', hd') /\
  queue_rep h' hd' (abs_insert p (ekey e) bins) /\ same_data (<[p:=e]> h) h' /\
  h' !! p = Some e' /\ erase e' = erase e.
Proof.
  intros Hrep Hp. apply (rep_frame _ _ _ p e) in Hrep as Hrep'; [|done].
  destruct (eq_insert_rep _ _ _ p e Hrep' (lookup_insert_eq _ _ _) Hp) as (h' & hd' & -> & Hr & Hs).
  destruct (same_data_lookup _ _ _ _ Hs (lookup_insert_eq _ _ _)) as (e' & He' & Hee).
  eauto 10.
Qed.

Lemma only_changes_with q h h' hd p e e' e'' :
  same_data (<[p:=e]> (eq_heap q)) h' -> erase e'' = erase e' -> h = <[p:=e'']> h' ->
  only_changes q (with_heap q h hd) p e'.
Proof.
  intros Hs He ->. split; cbn; try done.
  - intros r Hr. rewrite data_at_insert_ne by done. rewrite (data_at_same _ _ _ Hs).
    now apply data_at_insert_ne.
  - rewrite data_at_insert. congruence.
Qed.

(** An event that starts to wait. *)
Lemma wf_add q bins q' bins' p e when :
  eq_wf q bins -> only_changes q q' p (scheduled_event q e when) ->
  p ∉ pending q bins -> initialized e = true -> eq_curTick q <= when ->
  queue_rep (eq_heap q') (eq_head q') bins' -> pending q' bins' ≡ₚ p :: pending q bins ->
  eq_wf q' bins'.
Proof.
  intros Hwf Hoc Hnp Hini Ht Hrep Hpm. eapply wf_update; [done|done|done| | | |done|].
  - rewrite Hpm. constructor; [done|apply Hwf].
  - intros r Hr. rewrite Hpm. set_solver.
  - rewrite Hpm. split; [set_solver|]. intros _. split; [apply scheduled_set|done].
  - unfold scheduled_event. now rewrite initialized_set.
Qed.

Lemma erase_flags e e' f : erase e' = erase e -> erase (set_flags e' f) = erase (set_flags e f).
Proof. destruct e, e'. unfold erase. cbn. intros [= -> -> _ ->]. done. Qed.

Lemma erase_setWhen e e' w q : erase e' = erase e -> erase (setWhen e' w q) = erase (setWhen e w q).
Proof. destruct e, e'. unfold erase. cbn. intros [= _ -> -> _]. done. Qed.

Lemma wf_initialized q bins p e : eq_wf q bins -> eq_heap q !! p = Some e -> initialized e = true.
Proof. intros Hwf He. exact (wf_init _ _ Hwf _ _ (data_at_lookup _ _ _ He)). Qed.

Lemma schedule_now q bins p e when global :
  eq_wf q bins -> eq_heap q !! p = Some e -> eq_curTick q <= when -> scheduled e = false ->
  inParallelMode q && (negb (bool_decide (eq_id q = curEventQueue q)) || global) = false ->
  exists q', eq_schedule q p when global = Ok q' /\
  eq_wf q' (abs_insert p (when, ev_priority e) bins) /\
  async_queue q' = async_queue q /\ only_changes q q' p (scheduled_event q e when).
Proof.
  intros Hwf He Ht Hs Hmode. unfold eq_schedule.
  pose proof (not_pending _ _ _ _ Hwf He Hs) as Hnp. pose proof (wf_initialized _ _ _ _ Hwf He) as Hini.
  rewrite He. cbn [deref rbind]. rewrite (proj2 (Z.leb_le _ _) Ht), Hs, Hini. cbn [assert_ negb rbind].
  cbn [with_heap inParallelMode eq_id curEventQueue eq_heap eq_head]. rewrite Hmode.
  destruct (insert_fresh (eq_heap q) (eq_head q) bins p (setWhen e when (eq_id q)) (wf_rep _ _ Hwf))
    as (h & hd & e' & -> & Hr & Hsd & He' & Hee); [rewrite pending_app in Hnp; tauto|].
  cbn [rbind with_heap eq_heap eq_head]. rewrite He'. cbn [deref rbind]. eexists. split; [done|].
  assert (only_changes q (with_heap q (<[p := set_flags e' (flag_set (ev_flags e') Scheduled)]> h) hd) p
    (scheduled_event q e when)) as Hoc.
  { eapply only_changes_with; [exact Hsd| |done]. unfold scheduled_event.
    replace (ev_flags e') with (ev_flags e) by (apply erase_data in Hee; naive_solver).
    now apply erase_flags. }
  split; [|done]. eapply wf_add; [done|exact Hoc|done|done|done|by apply rep_flags|].
  unfold pending. cbn [async_queue with_heap]. rewrite abs_insert_events. done.
Qed.

(** From another thread, or for a global event, the event goes to the
    asynchronous list and the structure is left alone. *)
Lemma schedule_async q bins p e when global :
  eq_wf q bins -> eq_heap q !! p = Some e -> eq_curTick q <= when -> scheduled e = false ->
  inParallelMode q && (negb (bool_decide (eq_id q = curEventQueue q)) || global) = true ->
  exists q', eq_schedule q p when global = Ok q' /\ eq_wf q' bins /\
  async_queue q' = async_queue q ++ [p] /\ only_changes q q' p (scheduled_event q e when).
Proof.
  intros Hwf He Ht Hs Hmode. unfold eq_schedule.
  pose proof (not_pending _ _ _ _ Hwf He Hs) as Hnp. pose proof (wf_initialized _ _ _ _ Hwf He) as Hini.
  rewrite He. cbn [deref rbind]. rewrite (proj2 (Z.leb_le _ _) Ht), Hs, Hini. cbn [assert_ negb rbind].
  cbn [with_heap inParallelMode eq_id curEventQueue eq_heap eq_head]. rewrite Hmode.
  cbn [rbind asyncInsert with_async with_heap eq_heap eq_head]. rewrite lookup_insert_eq. cbn [deref rbind].
  rewrite insert_insert_eq. eexists. split; [done|].
  match goal with |- eq_wf ?q' _ /\ _ => assert (only_changes q q' p (scheduled_event q e when)) as Hoc end.
  { split; cbn; try done; [intros; now apply data_at_insert_ne|now rewrite data_at_insert]. }
  split; [|done]. eapply wf_add; [done|exact Hoc|done|done|done| |].
  - cbn. apply rep_frame; [rewrite pending_app in Hnp; tauto|apply Hwf].
  - unfold pending. cbn. rewrite app_assoc. solve_Permutation.
Qed.

(** The three assertions of [schedule]. *)
Lemma schedule_rejects q p e when global :
  eq_heap q !! p = Some e ->
  when < eq_curTick q \/ scheduled e = true \/ initialized e = false ->
  eq_schedule q p when global = Err Assert_failed.
Proof.
  intros He H. unfold eq_schedule. rewrite He. cbn [deref rbind].
  destruct (Z.leb_spec (eq_curTick q) when); [|done]. cbn [assert_ rbind].
  destruct (scheduled e); [done|]. cbn [assert_ rbind negb].
  destruct (initialized e); [|done]. naive_solver lia.
Qed.

(** ** Descheduling *)

Lemma abs_remove_events h hd bins p e :
  queue_rep h hd bins -> p ∈ events bins -> h !! p = Some e ->
  events bins ≡ₚ p :: events (abs_remove p (ekey e) bins).
Proof.
  intros Hrep Hp He. pose proof (rep_nodup _ _ _ Hrep) as Hnd.
  destruct (event_bin _ _ _ _ _ Hrep Hp He) as (bs1 & l1 & l2 & bs2 & -> & Hall).
  rewrite abs_remove_app by done. rewrite events_app, events_cons in Hnd.
  apply NoDup_app in Hnd as (_ & _ & [Hb _]%NoDup_app).
  rewrite filter_out by done. rewrite !events_app, events_cons_bin, events_cons. apply split_perm.
Qed.

(** An event that stops waiting. *)
Lemma wf_drop q bins q' bins' p e :
  eq_wf q bins -> only_changes q q' p e -> scheduled e = false -> initialized e = true ->
  queue_rep (eq_heap q') (eq_head q') bins' -> pending q bins ≡ₚ p :: pending q' bins' ->
  eq_wf q' bins'.
Proof.
  intros Hwf Hoc Hs Hini Hrep Hpm. pose proof (wf_nodup _ _ Hwf) as Hnd. rewrite Hpm in Hnd.
  apply NoDup_cons in Hnd as [Hnp Hnd]. eapply wf_update; [done|done|done|done| | | |done].
  - intros r Hr. rewrite Hpm. set_solver.
  - split; [|done]. intros [? _]. congruence.
  - done.
Qed.

Lemma only_changes_data q h' hd p e e' :
  same_data (eq_heap q) h' -> erase e' = erase e ->
  only_changes q (with_heap q (<[p:=e']> h') hd) p e.
Proof.
  intros Hs He. split; cbn; try done.
  - intros r Hr. rewrite data_at_insert_ne by done. now apply data_at_same.
  - rewrite data_at_insert. congruence.
Qed.

Lemma wf_delete q bins p :
  eq_wf q bins -> p ∉ pending q bins -> eq_wf (with_heap q (delete p (eq_heap q)) (eq_head q)) bins.
Proof.
  intros [[Hs Hso Hnd] Hnp Hal Hsc Hti Hin] Hp.
  assert (forall r, r <> p -> delete p (eq_heap q) !! r = eq_heap q !! r) as Hfr.
  { intros r Hr. by rewrite lookup_delete_ne. }
  assert (forall r e, data_at (delete p (eq_heap q)) r = Some e -> data_at (eq_heap q) r = Some e) as Hd.
  { intros r e. unfold data_at. destruct (decide (r = p)) as [->|Hr]; [by rewrite lookup_delete_eq|].
    now rewrite Hfr. }
  split; cbn; eauto.
  - split; [|done|done]. eapply seg_frame; [|exact Hs]. intros r Hr. apply Hfr. intros ->.
    apply Hp, pending_app. auto.
  - intros r Hr. rewrite Hfr; [auto|]. intros ->. done.
Qed.

(** The event [deschedule(event)] leaves. *)
Definition descheduled_event (e : Event) : Event :=
  set_flags e (flag_clear (flag_clear (ev_flags e) Squashed) Scheduled).

Lemma initialized_descheduled e : initialized (descheduled_event e) = initialized e.
Proof.
  unfold descheduled_event. unfold initialized, flag_clear. cbn [ev_flags set_flags].
  rewrite <- !Z.land_assoc. done.
Qed.

(** The common part of [deschedule]: the event is out and its flags are
    cleared. *)
Lemma deschedule_remove q bins p e :
  eq_wf q bins -> eq_heap q !! p = Some e -> p ∈ events bins ->
  exists h hd e', eq_remove q p = Ok (h, hd) /\ h !! p = Some e' /\ erase e' = erase e /\
  same_data (eq_heap q) h /\ queue_rep h hd (abs_remove p (ekey e) bins) /\
  pending q bins ≡ₚ p :: pending q (abs_remove p (ekey e) bins).
Proof.
  intros Hwf He Hp. assert (p ∈ pending q bins) as Hpp by (apply pending_app; auto).
  apply (wf_sched _ _ Hwf _ _ (data_at_lookup _ _ _ He)) in Hpp as [_ Hq].
  destruct (eq_remove_rep q bins p e (wf_rep _ _ Hwf) Hp He Hq) as (h & hd & -> & Hr & Hs).
  destruct (same_data_lookup _ _ _ _ Hs He) as (e' & He' & Hee).
  exists h, hd, e'. split_and!; try done. unfold pending.
  now rewrite (abs_remove_events _ _ _ _ _ (wf_rep _ _ Hwf) Hp He).
Qed.

Definition own_thread (q : EventQueue) : Prop :=
  inParallelMode q = false \/ eq_id q = curEventQueue q.

Lemma own_thread_true q :
  own_thread q -> negb (inParallelMode q) || bool_decide (eq_id q = curEventQueue q) = true.
Proof. intros [->|H]; [done|]. rewrite bool_decide_true by done. apply orb_true_r. Qed.

(** [deschedule] of an event on the queue: it is gone from its bin; an event
    marked [AutoDelete] is freed. *)
Lemma deschedule_ok q bins p e :
  eq_wf q bins -> own_thread q -> eq_heap q !! p = Some e -> p ∈ events bins ->
  exists q', eq_deschedule q p = Ok q' /\ eq_wf q' (abs_remove p (ekey e) bins) /\
  async_queue q' = async_queue q /\
  if flag_isSet (ev_flags (descheduled_event e)) AutoDelete
  then only_frees q q' p
  else only_changes q q' p (descheduled_event e).
Proof.
  intros Hwf Hown He Hp.
  assert (p ∈ pending q bins) as Hpp by (apply pending_app; auto).
  apply (wf_sched _ _ Hwf _ _ (data_at_lookup _ _ _ He)) in Hpp as [Hsc _].
  destruct (deschedule_remove _ _ _ _ Hwf He Hp) as (h & hd & e' & Hrm & He' & Hee & Hsd & Hrep & Hpm).
  unfold eq_deschedule. rewrite He. cbn [deref rbind]. rewrite (proj1 (erase_proj e)) in Hsc.
  rewrite Hsc, (wf_initialized _ _ _ _ Hwf He), (own_thread_true _ Hown), Hrm.
  cbn [assert_ rbind]. rewrite He'. cbn [deref rbind].
  assert (ev_flags e' = ev_flags e) as Hfl by (apply erase_data in Hee; naive_solver).
  rewrite Hfl. fold (descheduled_event e).
  change (flag_clear (flag_clear (ev_flags e) Squashed) Scheduled) with (ev_flags (descheduled_event e)).
  set (q1 := with_heap q _ _).
  assert (only_changes q q1 p (descheduled_event e)) as Hoc
    by (apply only_changes_data; [done|now apply erase_flags]).
  assert (eq_wf q1 (abs_remove p (ekey e) bins)) as Hwf1.
  { eapply wf_drop; [exact Hwf|exact Hoc|apply scheduled_clear| |by apply rep_flags|exact Hpm].
    rewrite initialized_descheduled. by eapply wf_initialized. }
  destruct (flag_isSet _ AutoDelete); [|eauto 10].
  unfold delete_event, q1. cbn [eq_heap with_heap]. rewrite lookup_insert_eq. cbn [deref rbind].
  unfold descheduled_event at 1. cbn [ev_flags set_flags]. rewrite scheduled_clear.
  cbn [negb assert_ rbind]. eexists. split; [done|]. split; [|split; [done|]].
  2: { destruct Hoc as [H1 H2 H3 H4 H5 H6]. split; try done; [|by apply lookup_delete_eq].
       intros r Hr. rewrite <- (H1 r Hr). unfold data_at. cbn. by rewrite lookup_delete_ne. }
  apply (wf_delete q1); [done|]. pose proof (wf_nodup _ _ Hwf) as Hnd. rewrite Hpm in Hnd.
  by apply NoDup_cons in Hnd as [? _].
Qed.

(** ** Rescheduling *)

(** The event [reschedule(event, when)] leaves. *)
Definition rescheduled_event (q : EventQueue) (e : Event) (when : Z) : Event :=
  let e := setWhen e when (eq_id q) in
  set_flags e (flag_set (flag_clear (ev_flags e) Squashed) Scheduled).

Lemma rescheduled_flags q e when :
  scheduled (rescheduled_event q e when) = true /\
  initialized (rescheduled_event q e when) = initialized e.
Proof.
  split.
  - exact (scheduled_set (set_flags (setWhen e when (eq_id q)) (flag_clear (ev_flags e) Squashed))).
  - unfold initialized, rescheduled_event, flag_set, flag_clear. cbn [ev_flags set_flags setWhen].
    rewrite Z.land_lor_distr_l, <- Z.land_assoc. cbn [Z.land Pos.land Scheduled InitMask].
    now rewrite Z.lor_0_r.
Qed.

(** The queue without the event that is moved. *)
Definition without (p : ptr) (e : Event) (bins : list bin) : list bin :=
  if scheduled e then abs_remove p (ekey e) bins else bins.

(** The last half of [reschedule]: set the time, insert, set the flags. *)
Lemma reschedule_insert q q1 bins p e when :
  eq_wf q bins -> eq_curTick q <= when ->
  queue_rep (eq_heap q1) (eq_head q1) (without p e bins) -> same_data (eq_heap q) (eq_heap q1) ->
  eq_heap q !! p = Some e -> p ∉ pending q (without p e bins) ->
  (forall r, r <> p -> r ∈ pending q (without p e bins) <-> r ∈ pending q bins) ->
  NoDup (pending q (without p e bins)) ->
  q1 = with_heap q (eq_heap q1) (eq_head q1) ->
  exists q',
  (let* e := deref (eq_heap q1 !! p) in
   let q := with_heap q1 (<[p := setWhen e when (eq_id q1)]> (eq_heap q1)) (eq_head q1) in
   let* '(h, hd) := eq_insert (eq_heap q) (eq_head q) p in
   let* e := deref (h !! p) in
   let f := flag_set (flag_clear (ev_flags e) Squashed) Scheduled in
   Ok (with_heap q (<[p := set_flags e f]> h) hd)) = Ok q' /\
  eq_wf q' (abs_insert p (when, ev_priority e) (without p e bins)) /\
  async_queue q' = async_queue q /\ only_changes q q' p (rescheduled_event q e when).
Proof.
  intros Hwf Ht Hrep Hsd He Hnp Hother Hnd Hq1.
  destruct (same_data_lookup _ _ _ _ Hsd He) as (e1 & He1 & Hee1). rewrite He1. cbn [deref rbind].
  pose proof (erase_data _ _ Hee1) as (Hk1 & Hf1 & Hqu1).
  cbn [with_heap eq_heap eq_head].
  destruct (insert_fresh (eq_heap q1) (eq_head q1) _ p (setWhen e1 when (eq_id q1)) Hrep)
    as (h & hd & e' & -> & Hr & Hsd' & He' & Hee); [rewrite pending_app in Hnp; tauto|].
  cbn [rbind]. rewrite He'. cbn [deref rbind]. eexists. split; [done|].
  assert (eq_id q1 = eq_id q) as Hid by now rewrite Hq1.
  assert (ekey (setWhen e1 when (eq_id q1)) = (when, ev_priority e)) as Hkey.
  { unfold ekey in *. cbn. congruence. }
  rewrite Hkey in Hr. assert (ev_flags e' = ev_flags e) as Hfl.
  { apply erase_data in Hee as (_ & -> & _). done. }
  match goal with |- eq_wf ?q' _ /\ _ => assert (only_changes q q' p (rescheduled_event q e when)) as Hoc end.
  { rewrite Hq1. split; cbn; try done.
    - intros r Hr'. rewrite data_at_insert_ne by done. rewrite (data_at_same _ _ _ Hsd').
      rewrite data_at_insert_ne by done. now apply data_at_same.
    - rewrite data_at_insert. f_equal. unfold rescheduled_event. rewrite Hfl. cbn.
      rewrite (erase_flags _ _ _ Hee), Hid. apply erase_flags, erase_setWhen, Hee1. }
  assert (async_queue q1 = async_queue q) as Has by now rewrite Hq1.
  split; [|done].
  match goal with |- eq_wf ?x _ => set (q' := x) in * end.
  assert (pending q' (abs_insert p (when, ev_priority e) (without p e bins))
    ≡ₚ p :: pending q (without p e bins)) as Hpm.
  { unfold pending. change (async_queue q') with (async_queue q1). now rewrite Has, abs_insert_events. }
  destruct (rescheduled_flags q e when) as [Hs Hi].
  eapply wf_update; [exact Hwf|exact Hoc|by apply rep_flags| | | |done|].
  - rewrite Hpm. by constructor.
  - intros r Hr'. rewrite Hpm, <- Hother by done. set_solver.
  - rewrite Hpm. split; [set_solver|]. done.
  - rewrite Hi. by eapply wf_initialized.
Qed.

(** [reschedule] moves a waiting event, or schedules one that does not wait
    when [always] is set. *)
Lemma reschedule_ok q bins p e when always :
  eq_wf q bins -> own_thread q -> eq_heap q !! p = Some e -> eq_curTick q <= when ->
  (if scheduled e then p ∈ events bins else always = true) ->
  exists q', eq_reschedule q p when always = Ok q' /\
  eq_wf q' (abs_insert p (when, ev_priority e) (without p e bins)) /\
  async_queue q' = async_queue q /\ only_changes q q' p (rescheduled_event q e when).
Proof.
  intros Hwf Hown He Ht Hal. unfold eq_reschedule. rewrite He. cbn [deref rbind].
  rewrite (proj2 (Z.leb_le _ _) Ht), (wf_initialized _ _ _ _ Hwf He), (own_thread_true _ Hown).
  pose proof (wf_nodup _ _ Hwf) as Hnd.
  destruct (scheduled e) eqn:Hs.
  - rewrite orb_true_r. cbn [assert_ rbind].
    destruct (deschedule_remove _ _ _ _ Hwf He Hal) as (h & hd & e' & -> & He' & Hee & Hsd & Hrep & Hpm).
    cbn [rbind]. apply (reschedule_insert q (with_heap q h hd)); unfold without; rewrite ?Hs; try done;
      rewrite Hpm in Hnd; apply NoDup_cons in Hnd as [Hnp Hnd]; [done| |done].
    intros r Hr. rewrite Hpm. set_solver.
  - rewrite Hal. cbn [assert_ rbind orb].
    apply (reschedule_insert q q); unfold without; rewrite ?Hs; try done.
    + apply Hwf.
    + by eapply not_pending.
    + by destruct q.
Qed.

(** ** Taking the next event *)

(** The event the service loop hands to its handler. *)
Definition popped_event (e : Event) : Event := set_flags e (flag_clear (ev_flags e) Scheduled).

Lemma initialized_popped e : initialized (popped_event e) = initialized e.
Proof. by apply initialized_clear. Qed.

Lemma pop_removeItem q p e :
  eq_head q = Some p -> eq_heap q !! p = Some e ->
  eq_pop q = let* '(h, hd) := removeItem (<[p := popped_event e]> (eq_heap q)) p p in
             Ok (p, with_heap q h hd).
Proof.
  intros Hhd He. unfold eq_pop, removeItem. rewrite Hhd. cbn [deref rbind]. rewrite He. cbn [deref rbind].
  rewrite lookup_insert_eq. cbn [deref rbind]. rewrite decide_True by done.
  cbn [popped_event nextInBin nextBin set_flags]. destruct (nextInBin e); [|done].
  now destruct (<[_:=_]> _ !! _).
Qed.

Lemma abs_remove_top p k b bs :
  NoDup (p :: b) -> abs_remove p k ((k, p :: b) :: bs) = cons_bin k b bs.
Proof.
  intros Hnd. cbn [abs_remove]. rewrite decide_True by done. f_equal. by apply (filter_out p [] b).
Qed.

(** [serviceOne] takes the top of the first bin. *)
Lemma pop_ok q k p b bs :
  eq_wf q ((k, p :: b) :: bs) ->
  exists q' e, eq_heap q !! p = Some e /\ ekey e = k /\ eq_pop q = Ok (p, q') /\
  eq_wf q' (cons_bin k b bs) /\ async_queue q' = async_queue q /\
  only_changes q q' p (popped_event e).
Proof.
  intros Hwf. pose proof (wf_rep _ _ Hwf) as Hrep. pose proof (rep_nodup _ _ _ Hrep) as Hnd.
  rewrite events_cons in Hnd. apply NoDup_app in Hnd as Hndb. destruct Hndb as [Hndb _].
  pose proof (seg_uncons _ _ _ _ _ _ (rep_seg _ _ _ Hrep)) as
    (p0 & b0 & e & [= <- <-] & Hhd & He & Hk & _).
  rewrite Hhd in Hrep. apply (rep_flags _ _ _ p e (flag_clear (ev_flags e) Scheduled)) in Hrep; [|done].
  fold (popped_event e) in Hrep.
  destruct (removeItem_top _ _ _ _ _ _ (rep_seg _ _ _ Hrep) Hnd) as (h & hd & Hrm & Hseg & Hsd & _).
  rewrite (pop_removeItem q p e Hhd He), Hrm. cbn [rbind]. eexists _, e.
  split; [done|]. split; [done|]. split; [done|].
  assert (only_changes q (with_heap q h hd) p (popped_event e)) as Hoc.
  { split; cbn; try done; [|by rewrite (data_at_same _ _ _ Hsd), data_at_insert].
    intros r Hr. rewrite (data_at_same _ _ _ Hsd). by apply data_at_insert_ne. }
  split; [|done]. eapply wf_drop; [exact Hwf|exact Hoc|apply scheduled_clear| | |].
  - rewrite initialized_popped. by eapply wf_initialized.
  - cbn. pose proof (abs_remove_rep _ _ _ _ [] _ [] p _ _ Hrep (Forall_nil_2 _) Hseg) as Hrep'.
    cbn [app] in Hrep'. by rewrite abs_remove_top in Hrep'.
  - unfold pending. cbn [async_queue with_heap]. by rewrite events_cons_bin, events_cons.
Qed.

(** Advancing the clock to the time of the event that is served. *)
Lemma advance_ok q bins t :
  eq_wf q bins -> (forall p e, p ∈ pending q bins -> data_at (eq_heap q) p = Some e -> t <= ev_when e) ->
  eq_wf (setCurTick q t) bins.
Proof. intros [? ? ? ? ? ?] Ht. split; cbn; eauto. Qed.

(** No event in the bins is before the first bin. *)
Lemma first_is_least q k b bs p e :
  eq_wf q ((k, b) :: bs) -> p ∈ events ((k, b) :: bs) -> eq_heap q !! p = Some e -> key_le k (ekey e).
Proof.
  intros Hwf Hp He. pose proof (wf_rep _ _ Hwf) as Hrep.
  destruct (event_bin _ _ _ _ _ Hrep Hp He) as ([|[k' b'] bs1] & l1 & l2 & bs2 & Heq & Hall).
  - injection Heq as -> _ _. apply key_le_lt_eq. auto.
  - injection Heq as -> -> ->. apply Forall_cons in Hall as [? _]. apply key_le_lt_eq. auto.
Qed.

(** ** Asynchronous insertions *)

(** The asynchronous list is inserted in order. *)
Fixpoint abs_insert_all (h : heap) (l : list ptr) (bins : list bin) : list bin :=
  match l with
  | [] => bins
  | p :: l => abs_insert_all h l (match h !! p with Some e => abs_insert p (ekey e) bins | None => bins end)
  end.

Lemma abs_insert_all_data h h' l bins :
  same_data h h' -> abs_insert_all h l bins = abs_insert_all h' l bins.
Proof.
  intros Hsd. revert bins. induction l as [|p l IH]; intros bins; cbn; [done|]. rewrite IH. f_equal.
  pose proof (data_at_same _ _ p Hsd) as Hd. unfold data_at in Hd.
  destruct (h !! p), (h' !! p); try done.
  match type of Hd with _ = ?b => change (Some (erase e0) = Some (erase e)) in Hd end.
  replace (ekey e0) with (ekey e); [done|]. assert (erase e0 = erase e) as He by congruence.
  apply erase_data in He. naive_solver.
Qed.

Lemma async_loop_ok l h hd bins :
  queue_rep h hd bins -> NoDup (events bins ++ l) -> (forall p, p ∈ l -> is_Some (h !! p)) ->
  exists h' hd', async_loop h hd l = Ok (h', hd') /\ queue_rep h' hd' (abs_insert_all h l bins) /\
  same_data h h' /\ events (abs_insert_all h l bins) ≡ₚ events bins ++ l.
Proof.
  revert h hd bins. induction l as [|p l IH]; intros h hd bins Hrep Hnd Hal; cbn [async_loop abs_insert_all].
  { exists h, hd. rewrite app_nil_r. done. }
  destruct (Hal p) as [e He]; [set_solver|]. rewrite He.
  apply NoDup_app in Hnd as Hnd'. destruct Hnd' as (_ & Hdis & _).
  destruct (eq_insert_rep _ _ _ _ _ Hrep He) as (h1 & hd1 & -> & Hrep1 & Hsd1).
  { intros Hin. apply (Hdis p Hin). set_solver. }
  cbn [rbind]. destruct (IH h1 hd1 _ Hrep1) as (h2 & hd2 & -> & Hrep2 & Hsd2 & Hpm).
  { rewrite abs_insert_events. cbn. by rewrite Permutation_middle. }
  { intros r Hr. destruct (Hal r) as [er Her]; [set_solver|].
    destruct (same_data_lookup _ _ _ _ Hsd1 Her) as (? & ? & _). eauto. }
  rewrite (abs_insert_all_data _ _ _ _ Hsd1). exists h2, hd2. split; [done|]. split; [done|].
  split; [by etrans|]. rewrite Hpm, abs_insert_events. cbn. by rewrite Permutation_middle.
Qed.

Lemma handleAsync_ok q bins :
  eq_wf q bins -> eq_id q = curEventQueue q ->
  exists q', handleAsyncInsertions q = Ok q' /\
  eq_wf q' (abs_insert_all (eq_heap q) (async_queue q) bins) /\ async_queue q' = [] /\
  same_data (eq_heap q) (eq_heap q') /\ eq_curTick q' = eq_curTick q.
Proof.
  intros Hwf Hth. unfold handleAsyncInsertions. rewrite bool_decide_true by done. cbn [assert_ rbind].
  destruct Hwf as [Hrep Hnd Hal Hsc Hti Hin].
  destruct (async_loop_ok (async_queue q) _ _ _ Hrep Hnd) as (h & hd & -> & Hrep' & Hsd & Hpm).
  { intros p Hp. apply Hal, pending_app. auto. }
  cbn [rbind]. eexists. split; [done|]. split; [|done].
  assert (forall p, p ∈ pending (with_async (with_heap q h hd) []) (abs_insert_all (eq_heap q) (async_queue q) bins)
    <-> p ∈ pending q bins) as Hpp.
  { intros p. unfold pending at 1. cbn. rewrite app_nil_r, Hpm. done. }
  split; cbn; [done| | | | |].
  - unfold pending. cbn. by rewrite app_nil_r, Hpm.
  - intros p Hp. apply Hpp in Hp. apply data_at_some. rewrite (data_at_same _ _ _ Hsd).
    apply data_at_some. auto.
  - intros p e. rewrite (data_at_same _ _ _ Hsd), Hpp. apply Hsc.
  - intros p e. rewrite (data_at_same _ _ _ Hsd), Hpp. apply Hti.
  - intros p e. rewrite (data_at_same _ _ _ Hsd). apply Hin.
Qed.

(** ** The service loop *)

(** The event at the front, out of the queue, with the clock at its time. *)
Lemma serve_first q0 k p b bs :
  async_queue q0 = [] -> eq_wf q0 ((k, p :: b) :: bs) ->
  exists q e, eq_pop q0 = Ok (p, q) /\ eq_heap q !! p = Some e /\ ekey e = k /\
  eq_wf q (cons_bin k b bs) /\ async_queue q = [] /\ eq_curTick q = eq_curTick q0 /\
  eq_curTick q <= k.1 /\ eq_wf (setCurTick q k.1) (cons_bin k b bs) /\
  exists e0, eq_heap q0 !! p = Some e0 /\ only_changes q0 q p (popped_event e0).
Proof.
  intros Has Hwf. destruct (pop_ok _ _ _ _ _ Hwf) as (q & e & He & Hk & Hpop & Hwf' & Has' & Hoc).
  destruct (data_at_inv _ _ _ (oc_this _ _ _ _ Hoc)) as (e' & He' & Hee). symmetry in Hee.
  assert (ekey e' = k) as Hk'. { apply erase_data in Hee as (-> & _). exact Hk. }
  exists q, e'. rewrite Has' in *. pose proof (oc_cur _ _ _ _ Hoc) as Hcur. split_and!; try done; [| |by exists e].
  - rewrite Hcur, <- Hk. eapply (wf_time _ _ Hwf p (erase e)); [by apply data_at_lookup|].
    apply pending_app. rewrite events_cons. set_solver.
  - apply advance_ok; [done|]. intros r er Hr Her. assert (r ∈ events ((k, p :: b) :: bs)) as Hin.
    { apply pending_app in Hr. rewrite Has', Has, events_cons_bin in Hr. rewrite events_cons. set_solver. }
    destruct (wf_alloc _ _ Hwf r) as [er' Her']; [apply pending_app; auto|].
    pose proof (first_is_least _ _ _ _ _ _ Hwf Hin Her') as Hle.
    destruct (decide (r = p)) as [->|Hne].
    + rewrite (oc_this _ _ _ _ Hoc) in Her. injection Her as <-. cbn. rewrite <- Hk. done.
    + rewrite (oc_other _ _ _ _ Hoc) in Her by done. rewrite (data_at_lookup _ _ _ Her') in Her.
      injection Her as <-. unfold key_le, ekey in Hle. cbn in *. lia.
Qed.

(** Flags of an event that [serviceOne] can serve: an exit event of the main
    queue is not deleted automatically. *)
Definition exit_flags_ok (f : Z) : bool :=
  negb (flag_isSet f IsExitEvent) || (negb (flag_isSet f AutoDelete) || negb (flag_isSet f IsMainQueue)).

Lemma flag_clear_other f g h :
  Z.land (u16 (Z.lnot g)) h = h -> flag_isSet (flag_clear f g) h = flag_isSet f h.
Proof. intros Hg. unfold flag_isSet, flag_clear. by rewrite <- Z.land_assoc, Hg. Qed.

Lemma exit_flags_clear f g :
  g = Scheduled \/ g = Squashed -> exit_flags_ok (flag_clear f g) = exit_flags_ok f.
Proof. intros [-> | ->]; unfold exit_flags_ok; by rewrite !flag_clear_other. Qed.

(** Clearing [Squashed] changes nothing else. *)
Lemma wf_unsquash q bins p e :
  eq_wf q bins -> eq_heap q !! p = Some e ->
  eq_wf (with_heap q (<[p := set_flags e (flag_clear (ev_flags e) Squashed)]> (eq_heap q)) (eq_head q)) bins.
Proof.
  intros Hwf He. eapply wf_update with (p := p) (e := set_flags e (flag_clear (ev_flags e) Squashed)); [exact Hwf| | | | | | |].
  - by apply only_changes_data.
  - apply rep_flags; [done|apply Hwf].
  - apply Hwf.
  - done.
  - rewrite <- (wf_sched _ _ Hwf p (erase e)) by (by apply data_at_lookup).
    unfold waits_on, scheduled, flag_isSet, flag_clear. cbn [ev_flags set_flags ev_queue erase set_nextInBin set_nextBin].
    by rewrite <- Z.land_assoc.
  - intros Hp. eapply (wf_time _ _ Hwf p (erase e)); [by apply data_at_lookup|done].
  - rewrite initialized_clear by done. by eapply wf_initialized.
Qed.

Definition heap_good (h : heap) : Prop := map_Forall (fun _ e => exit_flags_ok (ev_flags e) = true) h.

Lemma heap_good_changes q q' p e :
  heap_good (eq_heap q) -> only_changes q q' p e -> exit_flags_ok (ev_flags e) = true -> heap_good (eq_heap q').
Proof.
  intros Hg Hoc He r er Her. apply data_at_lookup in Her. destruct (decide (r = p)) as [->|Hne].
  - rewrite (oc_this _ _ _ _ Hoc) in Her. assert (erase er = erase e) as Hee by congruence.
    apply erase_data in Hee as (_ & -> & _). done.
  - rewrite (oc_other _ _ _ _ Hoc) in Her by done. apply data_at_inv in Her as (e' & He' & Hee).
    apply erase_data in Hee as (_ & -> & _). by apply (Hg r).
Qed.

Section ServiceCorrect.
Context {W : Type} (eventq : W -> EventQueue) (set_eventq : W -> EventQueue -> W).
Context (process : ptr -> W -> result W).
Context (get_set : forall w q, eventq (set_eventq w q) = q).

(** Between two events of the serial simulator. *)
Record loop_good (w : W) : Prop := {
  lg_async : async_queue (eventq w) = [];
  lg_wf : exists bins, eq_wf (eventq w) bins;
  lg_flags : heap_good (eq_heap (eventq w));
}.

(** What the loop relies on: a handler succeeds, leaves a well-formed queue,
    does not move the clock and does not free its own event; [R] is what it may
    do to the queue. *)
Definition handlers_ok (R : list bin -> list bin -> Prop) : Prop :=
  forall p w bins, loop_good w -> eq_wf (eventq w) bins -> is_Some (eq_heap (eventq w) !! p) ->
  exists w' bins', process p w = Ok w' /\ loop_good w' /\ eq_wf (eventq w') bins' /\ R bins bins' /\
  eq_curTick (eventq w') = eq_curTick (eventq w) /\ is_Some (eq_heap (eventq w') !! p).

(** The end of [serviceOne]: the event is freed if it asked for it. *)
Lemma serve_finish w p bins :
  loop_good w -> eq_wf (eventq w) bins -> is_Some (eq_heap (eventq w) !! p) ->
  exists w',
  (let* e := deref (eq_heap (eventq w) !! p) in
   if flag_isSet (ev_flags e) AutoDelete && negb (scheduled e) then
     let* q := delete_event (eventq w) p in Ok (@None ptr, set_eventq w q)
   else Ok (None, w)) = Ok (None, w') /\
  loop_good w' /\ eq_wf (eventq w') bins /\ eq_curTick (eventq w') = eq_curTick (eventq w).
Proof.
  intros [Has Hwf' Hg] Hwf [e He]. rewrite He. cbn [deref rbind].
  destruct (flag_isSet _ _ && negb _) eqn:Hc; [|by exists w].
  apply andb_true_iff in Hc as [_ Hs%negb_true_iff].
  unfold delete_event. rewrite He. cbn [deref rbind]. rewrite Hs. cbn.
  eexists. split; [done|]. rewrite get_set. cbn.
  assert (eq_wf (with_heap (eventq w) (delete p (eq_heap (eventq w))) (eq_head (eventq w))) bins) as Hd.
  { apply wf_delete; [done|]. by eapply not_pending. }
  split; [|done]. split; rewrite get_set; [done|eauto|]. cbn. by apply map_Forall_delete.
Qed.

(** Serving an event succeeds, leaves a good queue, and does not go back in
    time. *)
Lemma serviceOne_total (R : list bin -> list bin -> Prop) w k p b bs :
  handlers_ok R -> (forall l, R l l) -> loop_good w -> eq_wf (eventq w) ((k, p :: b) :: bs) ->
  exists r w' bins', serviceOne eventq set_eventq process w = Ok (r, w') /\ loop_good w' /\
  eq_wf (eventq w') bins' /\ R (cons_bin k b bs) bins' /\ eq_curTick (eventq w) <= eq_curTick (eventq w').
Proof.
  intros HR Hrefl [Has _ Hg] Hwf. unfold serviceOne.
  destruct (serve_first _ _ _ _ _ Has Hwf) as (q & e & -> & He & Hk & Hwfq & Hasq & Hcur & Hle & Hwft & e0 & He0 & Hoc).
  assert (heap_good (eq_heap q)) as Hgq.
  { eapply heap_good_changes; [exact Hg|exact Hoc|]. cbn. rewrite exit_flags_clear by auto. by apply (Hg p). }
  cbn [rbind]. rewrite He. cbn [deref rbind]. destruct (squashed e); cbn [negb rbind].
  - set (e1 := set_flags e (flag_clear (ev_flags e) Squashed)).
    set (q1 := with_heap q (<[p:=e1]> (eq_heap q)) (eq_head q)).
    assert (eq_wf q1 (cons_bin k b bs)) as Hwf1 by (by apply wf_unsquash).
    assert (loop_good (set_eventq w q1)) as Hlg.
    { split; rewrite get_set; [done|eauto|]. cbn. apply map_Forall_insert_2; [|done].
      cbn. rewrite exit_flags_clear by auto. by apply (Hgq p). }
    destruct (serve_finish (set_eventq w q1) p (cons_bin k b bs)) as (w' & -> & Hl & Hw & Hc); rewrite ?get_set; try done.
    { cbn. rewrite lookup_insert_eq. eauto. }
    rewrite get_set in Hc. exists None, w', (cons_bin k b bs). split_and!; try done. rewrite Hc. cbn. lia.
  - set (w1 := set_eventq w (setCurTick q (ev_when e))).
    assert (eq_wf (eventq w1) (cons_bin k b bs) /\ loop_good w1) as [Hwf1 Hl1].
    { assert (ev_when e = k.1) as Hwk by (by rewrite <- Hk). rewrite <- Hwk in Hwft.
      split; [by unfold w1; rewrite get_set|]. split; unfold w1; rewrite get_set; [done|eauto|done]. }
    destruct (HR p w1 _ Hl1 Hwf1) as (w2 & bins & -> & Hl2 & Hwf2 & HRb & Hc2 & [e2 He2]).
    { unfold w1. rewrite get_set. cbn. eauto. }
    cbn [rbind]. rewrite He2. cbn [deref rbind].
    assert (eq_curTick (eventq w1) = k.1) as Hc1 by (unfold w1; by rewrite get_set, <- Hk).
    pose proof (lg_flags _ Hl2 p e2 He2) as Hf. unfold exit_flags_ok in Hf. unfold isExitEvent.
    destruct (flag_isSet (ev_flags e2) IsExitEvent); cbn [negb orb] in Hf.
    + rewrite Hf. cbn [assert_ rbind]. exists (Some p), w2, bins. split_and!; try done. lia.
    + cbn [rbind]. destruct (serve_finish w2 p bins Hl2 Hwf2 ltac:(eauto)) as (w' & -> & Hl' & Hwf' & Hc').
      exists None, w', bins. split_and!; try done. lia.
Qed.

Lemma nextTick_first w k b bs :
  eq_wf (eventq w) ((k, b) :: bs) ->
  eq_empty (eventq w) = false /\ nextTick (eventq w) = Ok k.1.
Proof.
  intros Hwf. pose proof (seg_uncons _ _ _ _ _ _ (rep_seg _ _ _ (wf_rep _ _ Hwf))) as
    (p & b' & e & -> & Hhd & He & Hk & _).
  unfold eq_empty, nextTick. rewrite Hhd. cbn [deref rbind]. rewrite He, <- Hk. done.
Qed.

Lemma nil_empty w : eq_wf (eventq w) [] -> eq_empty (eventq w) = true.
Proof. intros Hwf. pose proof (rep_seg _ _ _ (wf_rep _ _ Hwf)) as Hs. cbn in Hs. unfold eq_empty. by rewrite Hs. Qed.

Lemma first_not_past q k p b bs :
  eq_wf q ((k, p :: b) :: bs) -> eq_curTick q <= k.1.
Proof.
  intros Hwf. pose proof (seg_uncons _ _ _ _ _ _ (rep_seg _ _ _ (wf_rep _ _ Hwf))) as
    (p' & b' & e & [= <- <-] & Hhd & He & <- & _).
  eapply (wf_time _ _ Hwf p (erase e)); [by apply data_at_lookup|].
  apply pending_app. rewrite events_cons. set_solver.
Qed.

(** Looking at the signals is as harmless as a handler. *)
Context (poll : W -> result (bool * W)).
Definition poll_ok : Prop := forall w, loop_good w ->
  exists stop w', poll w = Ok (stop, w') /\ loop_good w' /\ eq_curTick (eventq w') = eq_curTick (eventq w) /\
  eq_empty (eventq w') = eq_empty (eventq w).

(** A round of the simulation loop fails no assertion while there is work. *)
Lemma simLoop_step_ok w :
  handlers_ok (fun _ _ => True) -> poll_ok -> loop_good w -> eq_empty (eventq w) = false ->
  exists r w', simLoop_step eventq set_eventq process poll w = Ok (r, w') /\ loop_good w' /\
  eq_curTick (eventq w) <= eq_curTick (eventq w').
Proof.
  intros HR HP Hw He. pose proof Hw as [Has [bins Hwf] _]. destruct bins as [|[k b] bs].
  { apply nil_empty in Hwf. congruence. }
  destruct (nextTick_first _ _ _ _ Hwf) as [_ Hn].
  destruct (seg_head _ _ _ _ _ _ (rep_seg _ _ _ (wf_rep _ _ Hwf))) as (p & b' & -> & _).
  pose proof (first_not_past _ _ _ _ _ Hwf) as Hle.
  unfold simLoop_step. rewrite He, Hn. cbn [negb assert_ rbind]. rewrite (proj2 (Z.leb_le _ _) Hle). cbn [assert_ rbind].
  destruct (HP w Hw) as (stop & w1 & -> & Hw1 & Hc1 & He1). cbn [rbind]. destruct stop.
  { exists (Some None), w1. split_and!; try done. lia. }
  pose proof Hw1 as [_ [bins1 Hwf1] _]. destruct bins1 as [|[k1 b1] bs1].
  { apply nil_empty in Hwf1. congruence. }
  destruct (seg_head _ _ _ _ _ _ (rep_seg _ _ _ (wf_rep _ _ Hwf1))) as (p1 & b1' & -> & _).
  destruct (serviceOne_total _ w1 _ _ _ _ HR ltac:(done) Hw1 Hwf1) as (r & w2 & bins2 & -> & Hw2 & _ & _ & Hle2).
  cbn [rbind]. destruct r; eexists _, w2; (split_and!; [done|done|lia]).
Qed.

(** The states between the rounds of the simulation loop. *)
Inductive sim_steps : W -> W -> Prop :=
  | sim_refl w : sim_steps w w
  | sim_round w w1 w2 :
      simLoop_step eventq set_eventq process poll w = Ok (None, w1) -> sim_steps w1 w2 -> sim_steps w w2.

Lemma simLoop_step_nonempty w r w' :
  simLoop_step eventq set_eventq process poll w = Ok (r, w') -> eq_empty (eventq w) = false.
Proof. unfold simLoop_step. by destruct (eq_empty (eventq w)). Qed.

Lemma sim_steps_good w w' :
  handlers_ok (fun _ _ => True) -> poll_ok -> sim_steps w w' -> loop_good w ->
  loop_good w' /\ eq_curTick (eventq w) <= eq_curTick (eventq w').
Proof.
  intros HR HP. induction 1 as [w|w w1 w2 Hs _ IH]; intros Hw; [split; [done|lia]|].
  destruct (simLoop_step_ok w HR HP Hw) as (r & w1' & Hs' & Hw1 & Hle); [by eapply simLoop_step_nonempty|].
  rewrite Hs in Hs'. injection Hs' as <- <-. destruct (IH Hw1). split; [done|lia].
Qed.

(** [simLoop] runs these rounds. *)
Lemma simLoop_rounds fuel w e w' :
  simLoop eventq set_eventq process poll fuel w = Ok (e, w') ->
  exists w1, sim_steps w w1 /\ simLoop_step eventq set_eventq process poll w1 = Ok (Some e, w').
Proof.
  revert w. induction fuel as [|fuel IH]; intros w Hs; [done|]. cbn [simLoop] in Hs.
  destruct (simLoop_step _ _ _ _ w) as [[[x|] w1]|] eqn:H1; cbn [rbind] in Hs; [| |done].
  - injection Hs as <- <-. exists w. split; [constructor|done].
  - destruct (IH _ Hs) as (w2 & ? & ?). exists w2. split; [by econstructor|done].
Qed.

(** [doSimLoop] merges what other threads scheduled and then runs the rounds. *)
Lemma doSimLoop_enters w bins :
  eq_wf (eventq w) bins -> heap_good (eq_heap (eventq w)) ->
  exists q0, handleAsyncInsertions (take_over (eventq w)) = Ok q0 /\
  loop_good (set_eventq w q0) /\ eq_curTick q0 = eq_curTick (eventq w).
Proof.
  intros Hwf Hg. assert (eq_wf (take_over (eventq w)) bins) as Hwf0 by (destruct Hwf; by split).
  destruct (handleAsync_ok (take_over (eventq w)) bins Hwf0 eq_refl) as (q1 & Hq & Hwf1 & Has1 & Hsd & Hcur).
  exists q1. split; [done|]. split; [|by rewrite Hcur].
  split; rewrite get_set; [done|eauto|]. intros p e He. apply data_at_lookup in He.
  unfold data_at in He. rewrite <- lookup_fmap, <- Hsd, lookup_fmap in He.
  apply data_at_inv in He as (e' & He' & Hee). apply erase_data in Hee as (_ & -> & _). by apply (Hg p).
Qed.

(** Events due by tick [when]. *)
Definition due (when : Z) (bins : list bin) : nat :=
  length (events (filter (fun kb => kb.1.1 <= when) bins)).

Lemma due_first when k p b bs : k.1 <= when -> due when ((k, p :: b) :: bs) = S (due when (cons_bin k b bs)).
Proof.
  intros Hk. unfold due. rewrite filter_cons_True by done. rewrite events_cons. cbn [app length]. f_equal.
  destruct b; cbn [cons_bin]; [done|]. rewrite filter_cons_True by done. by rewrite events_cons.
Qed.

(** [serviceEvents(when)] returns, after which nothing due by [when] is left
    and the clock shows [when]. *)
Lemma serviceEvents_total fuel when w bins :
  handlers_ok (fun b b' => (due when b' <= due when b)%nat) -> loop_good w -> eq_wf (eventq w) bins ->
  (due when bins < fuel)%nat ->
  exists w' bins', serviceEvents eventq set_eventq process fuel when w = Ok w' /\
  eq_curTick (eventq w') = when /\ eq_wf (eventq w') bins' /\
  forall p e, p ∈ events bins' -> eq_heap (eventq w') !! p = Some e -> when < ev_when e.
Proof.
  intros HR. revert w bins. induction fuel as [|fuel IH]; intros w bins Hw Hwf Hf; [lia|].
  cbn [serviceEvents]. pose proof (lg_async _ Hw) as Has. destruct bins as [|[k b] bs].
  - rewrite (nil_empty _ Hwf). eexists _, []. split; [done|]. rewrite get_set. cbn. split; [done|].
    split; [|by intros ? ? ?%elem_of_nil].
    apply (advance_ok _ _ _ Hwf). intros p e. unfold pending. rewrite Has. by intros ?%elem_of_nil.
  - destruct (nextTick_first _ _ _ _ Hwf) as [He Hn]. rewrite He, Hn. cbn [rbind].
    destruct (Z.ltb_spec when k.1) as [Hlt|Hge].
    + eexists _, ((k, b) :: bs). split; [done|]. rewrite get_set. cbn. split; [done|].
      assert (forall p e, p ∈ events ((k, b) :: bs) -> eq_heap (eventq w) !! p = Some e -> when < ev_when e) as Hall.
      { intros p e Hp Hpe. pose proof (first_is_least _ _ _ _ _ _ Hwf Hp Hpe) as Hle.
        unfold key_le, ekey in Hle. cbn in Hle. lia. }
      split; [|done]. apply (advance_ok _ _ _ Hwf). intros p e Hp Hd.
      apply data_at_inv in Hd as (e' & He' & ->). cbn.
      unfold pending in Hp. rewrite Has, app_nil_r in Hp. specialize (Hall _ _ Hp He'). lia.
    + destruct (seg_head _ _ _ _ _ _ (rep_seg _ _ _ (wf_rep _ _ Hwf))) as (p & b' & -> & _).
      destruct (serviceOne_total _ w k p b' bs HR (fun l => le_n _) Hw Hwf) as (r & w1 & bins1 & -> & Hw1 & Hwf1 & Hdue & _).
      cbn [rbind]. rewrite due_first in Hf by done. apply (IH w1 bins1 Hw1 Hwf1). lia.
Qed.
End ServiceCorrect.

(** ** [debugVerify] *)

Lemma verify_bin_ok fuel h seen k t pr cur b :
  chain h cur b -> keyed h k b -> NoDup b -> (forall p, p ∈ b -> p ∉ seen) ->
  key_le (t, pr) k -> (length b < fuel)%nat ->
  exists seen' t' pr', verify_bin fuel h seen t pr cur = Ok (Some (seen', t', pr')) /\
  (forall p, p ∈ seen' <-> p ∈ b \/ p ∈ seen) /\ (t', pr') = match b with [] => (t, pr) | _ => k end.
Proof.
  revert seen t pr cur b. induction fuel as [|fuel IH]; intros seen t pr cur b Hc Hk Hnd Hsn Hle Hf; [lia|].
  destruct b as [|p b]; cbn [verify_bin].
  { cbn in Hc. subst cur. do 3 eexists. split; [done|]. split; [set_solver|done]. }
  destruct Hc as (-> & e & He & Hc). rewrite He. cbn [deref rbind].
  apply Forall_cons in Hk as [(e' & He' & Hk') Hk]. assert (e' = e) as -> by congruence.
  apply NoDup_cons in Hnd as [Hp Hnd].
  destruct (IH ({[p]} ∪ seen) (ev_when e) (ev_priority e) (nextInBin e) b Hc Hk Hnd)
    as (seen' & t' & pr' & Hv & Hseen & Heq).
  { set_solver. }
  { apply key_le_lt_eq. right. exact Hk'. }
  { cbn in Hf. lia. }
  destruct k as [kt kp]. unfold key_le, ekey in *. cbn in Hle. injection Hk' as <- <-.
  destruct (Z.ltb_spec (ev_when e) t); [lia|].
  assert ((ev_when e =? t) && (ev_priority e <? pr) = false) as -> by lia.
  rewrite bool_decide_false by (apply Hsn; set_solver). rewrite Hv.
  do 3 eexists. split; [done|]. split; [set_solver|]. rewrite Heq. by destruct b.
Qed.

Lemma verify_bins_ok fuel h seen t pr cur bins :
  seg h cur bins None -> StronglySorted key_lt bins.*1 -> NoDup (events bins) ->
  (forall p, p ∈ events bins -> p ∉ seen) -> Forall (fun k => key_le (t, pr) k) bins.*1 ->
  (length bins < fuel)%nat -> (length (events bins) <= size h)%nat ->
  verify_bins fuel h seen t pr cur = Ok true.
Proof.
  revert seen t pr cur bins. induction fuel as [|fuel IH];
    intros seen t pr cur bins Hs Hso Hnd Hsn Hle Hf Hsz; [lia|].
  destruct bins as [|[k b] bins]; cbn [verify_bins]; [cbn in Hs; by subst cur|].
  apply seg_uncons in Hs as (p & b' & e & -> & -> & He & _ & Hc & Hk & Hs).
  rewrite events_cons, length_app in Hsz. rewrite events_cons in Hnd, Hsn.
  apply NoDup_app in Hnd as (Hnd & Hdis & Hnd'). cbn in Hso, Hle, Hf.
  apply StronglySorted_inv in Hso as [Hso Hall]. apply Forall_cons in Hle as [Hle _].
  destruct (verify_bin_ok (S (size h)) h seen k t pr (Some p) (p :: b') (chain_cons _ _ _ _ He Hc) Hk Hnd)
    as (seen' & t' & pr' & -> & Hseen & Heq); [set_solver|done|lia|].
  cbn [rbind]. rewrite He. cbn [deref rbind]. apply (IH _ _ _ _ bins); [done|done|done| | |lia|lia].
  - intros r Hr Hin. apply Hseen in Hin as [Hin|Hin]; [by apply (Hdis r)|]. apply (Hsn r); [set_solver|done].
  - rewrite Heq. eapply Forall_impl; [exact Hall|]. intros k' Hlt. apply key_le_lt_eq. auto.
Qed.

(** A first event at time 0 with a negative priority is refused at once. *)
Lemma verify_bins_bad fuel h seen cur k b bins :
  seg h cur ((k, b) :: bins) None -> ~ key_le (0, 0) k ->
  verify_bins (S fuel) h seen 0 0 cur = Ok false.
Proof.
  intros Hs Hle. apply seg_uncons in Hs as (p & b' & e & -> & -> & He & Hk & _).
  cbn [verify_bins verify_bin]. rewrite He. cbn [deref rbind].
  subst k. unfold key_le, ekey in Hle. cbn in Hle.
  destruct (Z.ltb_spec (ev_when e) 0); [done|].
  by assert ((ev_when e =? 0) && (ev_priority e <? 0) = true) as -> by lia.
Qed.

#[export] Instance key_le_dec : RelDecision key_le.
Proof. intros a b. unfold key_le. apply _. Defined.

(** ** Insertion followed by removal *)

Lemma abs_remove_insert p k bins :
  StronglySorted key_lt bins.*1 -> Forall (fun b : bin => b.2 <> []) bins -> p ∉ events bins ->
  abs_remove p k (abs_insert p k bins) = bins.
Proof.
  assert (forall b, p ∉ b -> filter (fun q => q <> p) (p :: b) = b) as Hfil.
  { intros b Hb. rewrite filter_cons_False by naive_solver.
    induction b as [|q b IH]; [done|]. rewrite filter_cons_True by set_solver. f_equal. apply IH. set_solver. }
  induction bins as [|[k' b] bs IH]; intros Hso Hne Hp; cbn [abs_insert].
  { cbn. rewrite decide_True, decide_False; naive_solver. }
  rewrite events_cons in Hp. cbn in Hso. apply StronglySorted_inv in Hso as [Hso _].
  apply Forall_cons in Hne as [Hne Hne']. case_decide as Hlt; [|case_decide as Heq].
  - cbn [abs_remove]. rewrite decide_True by done. rewrite Hfil by set_solver. done.
  - subst k'. cbn [abs_remove]. rewrite decide_True by done. rewrite Hfil by set_solver.
    unfold cons_bin. cbn in Hne. by destruct b.
  - cbn [abs_remove]. rewrite decide_False by done. rewrite IH; [done|done|done|set_solver].
Qed.

Lemma seg_nonempty h hd bins tl : seg h hd bins tl -> Forall (fun b : bin => b.2 <> []) bins.
Proof.
  revert hd. induction bins as [|[k b] bs IH]; intros hd Hs; [constructor|].
  apply seg_uncons in Hs as (p & b' & e & -> & _ & _ & _ & _ & _ & Hs). constructor; [done|eauto].
Qed.

Lemma abs_insert_elem p k bins : p ∈ events (abs_insert p k bins).
Proof. rewrite abs_insert_events. set_solver. Qed.

(** ** Empty queues, and a queue to run the operations on *)

Definition idle_event (e : Event) : bool := negb (scheduled e) && initialized e.

Lemma wf_empty q :
  eq_head q = None -> async_queue q = [] -> map_Forall (fun _ e => idle_event e = true) (eq_heap q) ->
  eq_wf q [].
Proof.
  intros Hh Ha Hall. split; unfold pending; rewrite ?Ha; cbn [app].
  - split; [by rewrite Hh|constructor|constructor].
  - constructor.
  - by intros p ?%elem_of_nil.
  - intros p e Hd. split; [|by intros ?%elem_of_nil]. intros [Hs _].
    apply data_at_inv in Hd as (e' & He' & ->). specialize (Hall _ _ He'). unfold idle_event in Hall.
    rewrite (proj1 (erase_proj e')) in Hs. by rewrite Hs in Hall.
  - by intros p e _ ?%elem_of_nil.
  - intros p e Hd. apply data_at_inv in Hd as (e' & He' & ->). specialize (Hall _ _ He').
    apply andb_true_iff in Hall. naive_solver.
Qed.

Definition idle (pri : Z) : Event := mkEvent None None 0 pri Initialized None.

(** Three events: a processor tick, a device interrupt, an energy update. *)
Definition demo_heap : heap := {[ 1%positive := idle CPU_Tick_Pri; 2%positive := idle Virtual_Interrupt;
  3%positive := idle Energy_Pri ]}.
Definition demo0 : EventQueue := mkEventQueue demo_heap None 0 [] 0 false 0.

(** The queue after an operation that is known to succeed. *)
Definition after (r : result EventQueue) : EventQueue :=
  match r with Ok q => q | Err _ => demo0 end.

Definition demo1 : EventQueue := after (eq_schedule demo0 3%positive 20 false).
Definition demo2 : EventQueue := after (eq_schedule demo1 1%positive 10 false).

Lemma demo0_wf : eq_wf demo0 [].
Proof. apply wf_empty; [done|done|]. apply (bool_decide_unpack _). vm_compute. exact I. Qed.

Lemma after_schedule q bins p e when :
  eq_wf q bins -> eq_heap q !! p = Some e -> eq_curTick q <= when -> scheduled e = false ->
  serial q -> eq_wf (after (eq_schedule q p when false)) (abs_insert p (when, ev_priority e) bins) /\
  eq_schedule q p when false = Ok (after (eq_schedule q p when false)).
Proof.
  intros Hwf He Ht Hs Hser. destruct (schedule_now q bins p e when false Hwf He Ht Hs) as (q' & -> & Hwf' & _);
    [by rewrite Hser|done].
Qed.

Lemma demo1_wf : eq_wf demo1 [((20, Energy_Pri), [3%positive])].
Proof. apply (after_schedule demo0 [] 3 (idle Energy_Pri)); [exact demo0_wf|done|done|done|done]. Qed.

Lemma demo2_wf : eq_wf demo2 [((10, CPU_Tick_Pri), [1%positive]); ((20, Energy_Pri), [3%positive])].
Proof.
  apply (after_schedule demo1 [((20, Energy_Pri), [3%positive])] 1 (idle CPU_Tick_Pri));
    [exact demo1_wf|vm_compute; done|vm_compute; done|done|done].
Qed.

(** ** Properties *)

(** [schedule] goes to the asynchronous list. *)
Definition goes_async (q : EventQueue) (global : bool) : bool :=
  inParallelMode q && (negb (bool_decide (eq_id q = curEventQueue q)) || global).

(** C3: [schedule] refines insertion into the sorted sequence of stacks, on
    every branch.  It refuses exactly a time in the past or an event that is
    already scheduled; otherwise it succeeds, changes no other event, keeps the
    invariant, and either pushes the event on the bin of its time and priority
    or, from a foreign thread, appends it to the asynchronous list. *)
Theorem schedule_refines q bins p e when global :
  eq_wf q bins -> eq_heap q !! p = Some e ->
  (when < eq_curTick q \/ scheduled e = true ->
    eq_schedule q p when global = Err Assert_failed) /\
  (eq_curTick q <= when -> scheduled e = false ->
    exists q', eq_schedule q p when global = Ok q' /\
    only_changes q q' p (scheduled_event q e when) /\
    if goes_async q global
    then eq_wf q' bins /\ async_queue q' = async_queue q ++ [p]
    else eq_wf q' (abs_insert p (when, ev_priority e) bins) /\ async_queue q' = async_queue q).
Proof.
  intros Hwf He. split; [intros; eapply schedule_rejects; [done|tauto]|].
  intros Ht Hs. destruct (goes_async q global) eqn:Hm.
  - destruct (schedule_async _ _ _ _ _ _ Hwf He Ht Hs Hm) as (q' & ? & ? & ? & ?). eauto 10.
  - destruct (schedule_now _ _ _ _ _ _ Hwf He Ht Hs Hm) as (q' & ? & ? & ? & ?). eauto 10.
Qed.

Lemma schedule_refines_witness :
  exists q', eq_schedule demo1 1%positive 10 false = Ok q' /\
  eq_wf q' [((10, CPU_Tick_Pri), [1%positive]); ((20, Energy_Pri), [3%positive])].
Proof.
  destruct (schedule_refines demo1 [((20, Energy_Pri), [3%positive])] 1%positive (idle CPU_Tick_Pri) 10 false
    demo1_wf ltac:(vm_compute; reflexivity)) as [_ H].
  destruct (H ltac:(vm_compute; discriminate) eq_refl) as (q' & Hq & _ & Hwf & _).
  exists q'. split; [exact Hq|exact Hwf].
Defined.

(** C36: [deschedule] refines removal.  An event that waits in the bins is
    unlinked, whatever its position in the stack of its bin; an [AutoDelete]
    event is freed and any other is left unscheduled; either way no other event
    changes, but for its links, and neither do the time and the list of
    asynchronous insertions. *)
Theorem deschedule_refines q bins p e :
  eq_wf q bins -> own_thread q -> eq_heap q !! p = Some e -> p ∈ events bins ->
  exists q', eq_deschedule q p = Ok q' /\ eq_wf q' (abs_remove p (ekey e) bins) /\
  async_queue q' = async_queue q /\
  if flag_isSet (ev_flags (descheduled_event e)) AutoDelete
  then only_frees q q' p
  else only_changes q q' p (descheduled_event e).
Proof. apply deschedule_ok. Qed.

Lemma deschedule_refines_witness :
  exists q', eq_deschedule demo2 3%positive = Ok q' /\
  eq_wf q' [((10, CPU_Tick_Pri), [1%positive])].
Proof.
  destruct (eq_heap demo2 !! 3%positive) as [e|] eqn:He; [|vm_compute in He; discriminate].
  destruct (deschedule_refines demo2 _ 3%positive e demo2_wf (or_introl eq_refl) He ltac:(set_solver))
    as (q' & Hq & Hwf & _).
  exists q'. split; [exact Hq|]. vm_compute in He. injection He as <-. exact Hwf.
Defined.

(** Scheduling an event and descheduling it again gives back the queue:
    the same bins in the same order, the same data in every other event, and the
    event itself unscheduled. *)
Theorem schedule_deschedule_roundtrip q bins p e when :
  eq_wf q bins -> serial q -> eq_heap q !! p = Some e -> eq_curTick q <= when ->
  scheduled e = false -> flag_isSet (ev_flags (descheduled_event (scheduled_event q e when))) AutoDelete = false ->
  exists q1 q2, eq_schedule q p when false = Ok q1 /\ eq_deschedule q1 p = Ok q2 /\
  eq_wf q2 bins /\ (forall r, r <> p -> data_at (eq_heap q2) r = data_at (eq_heap q) r) /\
  data_at (eq_heap q2) p = Some (erase (descheduled_event (scheduled_event q e when))).
Proof.
  intros Hwf Hser He Ht Hs Had.
  destruct (schedule_now q bins p e when false Hwf He Ht Hs) as (q1 & Hq1 & Hwf1 & _ & Hoc1);
    [by rewrite Hser|].
  destruct (data_at_inv _ _ _ (oc_this _ _ _ _ Hoc1)) as (e1 & He1 & Hee1). symmetry in Hee1.
  pose proof (erase_data _ _ Hee1) as (Hk1 & Hf1 & _).
  destruct (deschedule_ok q1 _ p e1 Hwf1) as (q2 & Hq2 & Hwf2 & _ & H2);
    [left; by rewrite (oc_par _ _ _ _ Hoc1)|done|apply abs_insert_elem|].
  assert (descheduled_event e1 = set_flags e1 (ev_flags (descheduled_event (scheduled_event q e when)))) as Hd
    by (unfold descheduled_event; by rewrite Hf1).
  rewrite Hd in H2. cbn [ev_flags set_flags] in H2. rewrite Had in H2.
  exists q1, q2. split; [done|]. split; [done|]. split; [|split].
  - rewrite Hk1 in Hwf2. change (ekey (scheduled_event q e when)) with (when, ev_priority e) in Hwf2.
    rewrite abs_remove_insert in Hwf2; [done|apply Hwf|eapply seg_nonempty, Hwf|].
    intros Hin. eapply not_pending; [exact Hwf|exact He|exact Hs|]. apply pending_app. auto.
  - intros r Hr. by rewrite (oc_other _ _ _ _ H2), (oc_other _ _ _ _ Hoc1).
  - rewrite (oc_this _ _ _ _ H2). f_equal. by apply erase_flags.
Qed.

Lemma schedule_deschedule_roundtrip_witness :
  exists q1 q2, eq_schedule demo1 1%positive 10 false = Ok q1 /\ eq_deschedule q1 1%positive = Ok q2 /\
  eq_wf q2 [((20, Energy_Pri), [3%positive])].
Proof.
  destruct (schedule_deschedule_roundtrip demo1 _ 1%positive (idle CPU_Tick_Pri) 10 demo1_wf eq_refl
    ltac:(vm_compute; reflexivity) ltac:(vm_compute; discriminate) eq_refl eq_refl) as (q1 & q2 & H1 & H2 & Hwf & _).
  exists q1, q2. split; [exact H1|]. split; [exact H2|exact Hwf].
Defined.

(** [reschedule] moves a waiting event to the bin of its new time (or
    schedules an event that does not wait, when [always] is set) and clears
    [Squashed]; it refuses a time in the past and, without [always], an event
    that does not wait. *)
Theorem reschedule_refines q bins p e when always :
  eq_wf q bins -> own_thread q -> eq_heap q !! p = Some e -> p ∉ async_queue q ->
  (when < eq_curTick q \/ always || scheduled e = false ->
    eq_reschedule q p when always = Err Assert_failed) /\
  (eq_curTick q <= when -> always || scheduled e = true -> ev_queue e = Some (eq_id q) \/ scheduled e = false ->
    exists q', eq_reschedule q p when always = Ok q' /\
    eq_wf q' (abs_insert p (when, ev_priority e) (without p e bins)) /\
    async_queue q' = async_queue q /\ only_changes q q' p (rescheduled_event q e when)).
Proof.
  intros Hwf Hown He Has. split.
  - intros H. unfold eq_reschedule. rewrite He. cbn [deref rbind].
    destruct (Z.leb_spec (eq_curTick q) when); [|done]. cbn [assert_ rbind].
    destruct H as [?|H]; [lia|]. by rewrite H.
  - intros Ht Hal Hq. apply reschedule_ok; try done. destruct (scheduled e) eqn:Hs.
    + assert (p ∈ pending q bins) as Hp.
      { apply (wf_sched _ _ Hwf _ _ (data_at_lookup _ _ _ He)). destruct Hq as [Hq|Hq]; [|done]. by split. }
      apply pending_app in Hp as [?|?]; done.
    + by rewrite orb_false_r in Hal.
Qed.

Lemma reschedule_refines_witness :
  exists q', eq_reschedule demo2 1%positive 30 false = Ok q' /\
  eq_wf q' [((20, Energy_Pri), [3%positive]); ((30, CPU_Tick_Pri), [1%positive])].
Proof.
  destruct (eq_heap demo2 !! 1%positive) as [e|] eqn:He; [|vm_compute in He; discriminate].
  destruct (reschedule_refines demo2 _ 1%positive e 30 false demo2_wf (or_introl eq_refl) He
    ltac:(vm_compute; set_solver)) as [_ H].
  vm_compute in He. injection He as <-.
  destruct (H ltac:(vm_compute; discriminate) eq_refl (or_introl eq_refl)) as (q' & Hq & Hwf & _).
  exists q'. split; [exact Hq|exact Hwf].
Defined.

(** [serviceOne] unlinks the event that is due first: no queued event has
    a smaller time, or the same time and a smaller priority, and among equals it
    is the one scheduled last.  The clock may be set to its time without leaving
    any event in the past. *)
Theorem pop_least q k p b bs :
  async_queue q = [] -> eq_wf q ((k, p :: b) :: bs) ->
  exists q' e, eq_pop q = Ok (p, q') /\ eq_heap q !! p = Some e /\ ekey e = k /\
  (forall r er, r ∈ events ((k, p :: b) :: bs) -> eq_heap q !! r = Some er -> key_le (ekey e) (ekey er)) /\
  only_changes q q' p (popped_event e) /\ eq_curTick q <= ev_when e /\
  eq_wf (setCurTick q' (ev_when e)) (cons_bin k b bs).
Proof.
  intros Has Hwf. destruct (pop_ok _ _ _ _ _ Hwf) as (q' & e & He & Hk & Hpop & _ & _ & Hoc).
  destruct (serve_first q k p b bs Has Hwf)
    as (q'' & e' & Hpop' & _ & _ & _ & _ & Hc & Hle & Hwf' & _).
  rewrite Hpop' in Hpop. injection Hpop as <-. exists q'', e. rewrite <- Hk in Hle, Hwf' |- *.
  split_and!; try done.
  - intros r er Hr Her. rewrite Hk in Hr |- *. eapply first_is_least; eauto.
  - change (ev_when e) with (ekey e).1. lia.
Qed.

Lemma pop_least_witness :
  exists q' e, eq_pop demo2 = Ok (1%positive, q') /\
  eq_wf (setCurTick q' (ev_when e)) [((20, Energy_Pri), [3%positive])].
Proof.
  destruct (pop_least demo2 (10, CPU_Tick_Pri) 1%positive [] [((20, Energy_Pri), [3%positive])] eq_refl demo2_wf)
    as (q' & e & Hp & _ & _ & _ & _ & _ & Hwf).
  exists q', e. split; [exact Hp|exact Hwf].
Defined.

(** C5: The simulation loop is safe.  Whatever the handlers schedule, as long as
    they succeed, leave a well-formed queue and do not touch the clock,
    [doSimLoop] merges the asynchronous events and starts its rounds; every state
    it reaches has a well-formed queue and no smaller time, and if an event is
    left the next round succeeds: its assertions hold, it follows no bad
    pointer, and it does not go back in time.  Running out of events is the only
    way to get stuck. *)
Theorem simLoop_safe {W} (eventq : W -> EventQueue) set_eventq process poll w bins :
  (forall w q, eventq (set_eventq w q) = q) ->
  handlers_ok eventq process (fun _ _ => True) -> poll_ok eventq poll ->
  eq_wf (eventq w) bins -> heap_good (eq_heap (eventq w)) ->
  exists q0, handleAsyncInsertions (take_over (eventq w)) = Ok q0 /\
  (forall fuel, doSimLoop eventq set_eventq process poll fuel w
                = simLoop eventq set_eventq process poll fuel (set_eventq w q0)) /\
  forall w1, sim_steps eventq set_eventq process poll (set_eventq w q0) w1 ->
  loop_good eventq w1 /\ eq_curTick (eventq w) <= eq_curTick (eventq w1) /\
  (eq_empty (eventq w1) = false ->
   exists r w2, simLoop_step eventq set_eventq process poll w1 = Ok (r, w2) /\ loop_good eventq w2 /\
   eq_curTick (eventq w1) <= eq_curTick (eventq w2)).
Proof.
  intros Hgs HR HP Hwf Hg. destruct (doSimLoop_enters _ _ Hgs w bins Hwf Hg) as (q0 & Hq & Hw & Hc).
  exists q0. split; [done|]. split; [intros fuel; unfold doSimLoop; by rewrite Hq|].
  intros w1 Hs. destruct (sim_steps_good _ _ _ Hgs _ _ _ HR HP Hs Hw) as [Hw1 Hle]. rewrite Hgs in Hle.
  split; [done|]. split; [lia|]. by apply simLoop_step_ok.
Qed.

(** A queue whose second event ends the simulation. *)
Definition exit_event : Event := mkEvent None None 0 Sim_Exit_Pri (Z.lor Initialized IsExitEvent) None.
Definition exit_heap : heap := {[ 1%positive := idle CPU_Tick_Pri; 2%positive := exit_event ]}.
Definition exit0 : EventQueue := mkEventQueue exit_heap None 0 [] 0 false 0.
Definition exit1 : EventQueue := after (eq_schedule exit0 1%positive 5 false).
Definition exit2 : EventQueue := after (eq_schedule exit1 2%positive 9 false).

Lemma exit2_wf : eq_wf exit2 [((5, CPU_Tick_Pri), [1%positive]); ((9, Sim_Exit_Pri), [2%positive])].
Proof.
  assert (eq_wf exit1 [((5, CPU_Tick_Pri), [1%positive])]) as H1.
  { apply (after_schedule exit0 [] 1 (idle CPU_Tick_Pri)); [|done|done|done|done].
    apply wf_empty; [done|done|]. apply (bool_decide_unpack _). vm_compute. exact I. }
  apply (after_schedule exit1 _ 2 exit_event 9 H1); [vm_compute; reflexivity|vm_compute; done|done|done].
Qed.

Lemma exit2_good : loop_good (fun q => q) exit2.
Proof.
  split; [reflexivity|eexists; exact exit2_wf|]. apply (bool_decide_unpack _). vm_compute. exact I.
Qed.

(** Handlers that do nothing. *)
Lemma idle_handlers R : (forall l, R l l) -> handlers_ok (fun q => q) (fun _ q => Ok q) R.
Proof. intros HR p w bins Hw Hwf Hp. exists w, bins. done. Qed.

Definition demo_round (q : EventQueue) : result (option (option ptr) * EventQueue) :=
  simLoop_step (fun q => q) (fun _ q => q) (fun _ q => Ok q) (fun q => Ok (false, q)) q.

Lemma simLoop_safe_witness :
  exists w1 w2, demo_round exit2 = Ok (None, w1) /\ demo_round w1 = Ok (Some (Some 2%positive), w2) /\
  eq_curTick w1 = 5 /\ eq_curTick w1 <= eq_curTick w2.
Proof.
  destruct (simLoop_safe (fun q => q) (fun _ q => q) (fun _ q => Ok q) (fun q => Ok (false, q)) exit2
    [((5, CPU_Tick_Pri), [1%positive]); ((9, Sim_Exit_Pri), [2%positive])]) as (q0 & Hq & _ & Hsafe).
  - reflexivity.
  - apply idle_handlers. exact (fun _ => I).
  - intros w Hw. exists false, w. exact (conj eq_refl (conj Hw (conj eq_refl eq_refl))).
  - exact exit2_wf.
  - apply exit2_good.
  - vm_compute in Hq. injection Hq as <-.
    destruct (demo_round exit2) as [[[?|] w1]|] eqn:H1; [vm_compute in H1; discriminate| |vm_compute in H1; discriminate].
    destruct (Hsafe w1) as (_ & _ & Hnext); [econstructor; [exact H1|constructor]|].
    vm_compute in H1. injection H1 as <-. destruct Hnext as (r & w2 & H2 & _ & Hle); [reflexivity|].
    vm_compute in H2. injection H2 as <- <-. do 2 eexists. split; [reflexivity|]. split; [vm_compute; reflexivity|].
    split; [reflexivity|exact Hle].
Defined.

(** C37: [serviceEvents(when)] returns having served everything that is due.
    When the handlers add no event due by [when], as many rounds as there are
    such events are enough; then the clock shows [when] and every event still
    queued is later. *)
Theorem serviceEvents_drains {W} (eventq : W -> EventQueue) set_eventq process fuel when w bins :
  (forall w q, eventq (set_eventq w q) = q) ->
  handlers_ok eventq process (fun b b' => (due when b' <= due when b)%nat) ->
  loop_good eventq w -> eq_wf (eventq w) bins -> (due when bins < fuel)%nat ->
  exists w' bins', serviceEvents eventq set_eventq process fuel when w = Ok w' /\
  eq_curTick (eventq w') = when /\ eq_wf (eventq w') bins' /\
  forall p e, p ∈ events bins' -> eq_heap (eventq w') !! p = Some e -> when < ev_when e.
Proof. intros Hgs HR Hw Hwf Hf. by eapply serviceEvents_total. Qed.

Lemma serviceEvents_drains_witness :
  exists w', serviceEvents (fun q => q) (fun _ q => q) (fun _ q => Ok q) 3 7 exit2 = Ok w' /\ eq_curTick w' = 7.
Proof.
  destruct (serviceEvents_drains (fun q => q) (fun _ q => q) (fun _ q => Ok q) 3 7 exit2
    [((5, CPU_Tick_Pri), [1%positive]); ((9, Sim_Exit_Pri), [2%positive])] (fun _ _ => eq_refl))
    as (w' & bins' & Hs & Hc & _).
  - apply idle_handlers. exact (fun _ => le_n _).
  - exact exit2_good.
  - exact exit2_wf.
  - vm_compute. lia.
  - exists w'. split; [exact Hs|exact Hc].
Defined.

(** The asynchronous list is merged in arrival order and emptied; nothing
    but links changes. *)
Theorem handleAsync_refines q bins :
  eq_wf q bins -> eq_id q = curEventQueue q ->
  exists q', handleAsyncInsertions q = Ok q' /\
  eq_wf q' (abs_insert_all (eq_heap q) (async_queue q) bins) /\ async_queue q' = [] /\
  same_data (eq_heap q) (eq_heap q') /\ eq_curTick q' = eq_curTick q.
Proof. apply handleAsync_ok. Qed.

(** A queue of thread 0 that thread 1 has scheduled an event on. *)
Definition par0 : EventQueue := mkEventQueue demo_heap None 0 [] 0 true 1.
Definition par1 : EventQueue := after (eq_schedule par0 2%positive 7 false).
Definition par2 : EventQueue :=
  mkEventQueue (eq_heap par1) (eq_head par1) (eq_curTick par1) (async_queue par1) 0 true 0.

Lemma par2_wf : eq_wf par2 [].
Proof.
  assert (eq_wf par0 []) as H0.
  { apply wf_empty; [done|done|]. apply (bool_decide_unpack _). vm_compute. exact I. }
  destruct (schedule_async par0 [] 2 (idle Virtual_Interrupt) 7 false H0) as (q' & Hq & [Hr Hn Ha Hs Ht Hi] & _);
    [done|done|done|done|].
  assert (par1 = q') as <- by (unfold par1; by rewrite Hq). split; assumption.
Qed.

Lemma handleAsync_refines_witness :
  exists q', handleAsyncInsertions par2 = Ok q' /\ eq_wf q' [((7, Virtual_Interrupt), [2%positive])].
Proof.
  destruct (handleAsync_refines par2 [] par2_wf eq_refl) as (q' & Hq & Hwf & _).
  exists q'. split; [exact Hq|exact Hwf].
Defined.

(** [debugVerify] accepts a well-formed queue, with one exception: since
    it starts from time 0 and priority 0, a queue whose first event is at time 0
    with a negative priority is reported as inverted. *)
Theorem debugVerify_exact q bins :
  eq_wf q bins ->
  debugVerify q = Ok (match bins with [] => true | (k, _) :: _ => bool_decide (key_le (0, 0) k) end).
Proof.
  intros Hwf. destruct (wf_rep _ _ Hwf) as [Hs Hso Hnd]. unfold debugVerify.
  pose proof (seg_size _ _ _ _ Hs Hnd) as Hsz. pose proof (seg_fuel _ _ _ _ Hs Hnd) as Hf.
  destruct bins as [|[k b] bins]; [cbn in Hs; by rewrite Hs|].
  case_bool_decide as Hk; [|by eapply verify_bins_bad].
  eapply verify_bins_ok; [exact Hs|exact Hso|exact Hnd|set_solver| |lia|done].
  cbn in Hso |- *. apply StronglySorted_inv in Hso as [_ Hall]. constructor; [done|].
  eapply Forall_impl; [exact Hall|]. intros k' Hlt. unfold key_le, key_lt in *. cbn in *. lia.
Qed.

(** The first tick of a run, at a priority below the default. *)
Definition early0 : EventQueue := mkEventQueue {[ 1%positive := idle Debug_Enable_Pri ]} None 0 [] 0 false 0.
Definition early1 : EventQueue := after (eq_schedule early0 1%positive 0 false).

Lemma early1_wf : eq_wf early1 [((0, Debug_Enable_Pri), [1%positive])].
Proof.
  apply (after_schedule early0 [] 1 (idle Debug_Enable_Pri)); [|done|done|done|done].
  apply wf_empty; [done|done|]. apply (bool_decide_unpack _). vm_compute. exact I.
Qed.

Lemma debugVerify_exact_witness :
  debugVerify demo2 = Ok true /\ debugVerify early1 = Ok false.
Proof.
  split; [rewrite (debugVerify_exact demo2 _ demo2_wf)|rewrite (debugVerify_exact early1 _ early1_wf)];
    vm_compute; reflexivity.
Defined.
