(* ===== verification/EventSched.v ===== *)
(** * What the event queue promises to its clients

    Simulation objects schedule, deschedule and reschedule their own events and
    ask whether they are scheduled and when ([EventManager] of
    [sim/eventq.hh]); the simulation loop takes out the event that is due and
    moves the clock to it.  [EventSched] is that interface, [EventSchedLaws] its
    contract; the components of the energy framework are verified against the
    contract, and the pointer-level queue implements it. *)
From S2P Require Import Prelude Flags EventQueue EventQueueSpec EventQueueCorrect.

(** ** The interface *)

Class EventSched (Q : Type) := {
  q_now : Q -> Z;
  q_scheduled : Q -> ptr -> bool;
  q_when : Q -> ptr -> Z;
  q_schedule : Q -> ptr -> Z -> result Q;
  q_deschedule : Q -> ptr -> result Q;
  q_reschedule : Q -> ptr -> Z -> bool -> result Q;
  q_pop : Q -> result (ptr * Q);
}.

(** The effect of an operation on event [p]: scheduled at [t], or not at all
    (it then keeps its time); nothing else changes. *)
Record q_step {Q} `{EventSched Q} (own : Q -> ptr -> Prop) (q q' : Q) (p : ptr) (o : option Z) : Prop := {
  step_now : q_now q' = q_now q;
  step_sched : q_scheduled q' p = match o with Some _ => true | None => false end;
  step_when t : o = Some t -> q_when q' p = t;
  step_keep : o = None -> q_when q' p = q_when q p;
  step_own r : own q r -> own q' r;
  step_other r : r <> p -> q_scheduled q' r = q_scheduled q r /\ q_when q' r = q_when q r;
}.

(** Taking out event [p], which is due. *)
Record q_taken {Q} `{EventSched Q} (own : Q -> ptr -> Prop) (q q' : Q) (p : ptr) : Prop := {
  taken_was : q_scheduled q p = true;
  taken_now : q_now q' = q_when q p;
  taken_le : q_now q <= q_when q p;
  taken_this : q_scheduled q' p = false;
  taken_own r : own q r -> own q' r;
  taken_other r : r <> p -> q_scheduled q' r = q_scheduled q r /\ q_when q' r = q_when q r;
}.

Class EventSchedLaws (Q : Type) `{EventSched Q} := {
  q_inv : Q -> Prop;
  q_own : Q -> ptr -> Prop;
  q_schedule_ok q p t :
    q_inv q -> q_own q p -> q_scheduled q p = false -> q_now q <= t ->
    exists q', q_schedule q p t = Ok q' /\ q_inv q' /\ q_step q_own q q' p (Some t);
  q_schedule_err q p t :
    q_inv q -> q_own q p -> q_scheduled q p = true \/ t < q_now q ->
    q_schedule q p t = Err Assert_failed;
  q_deschedule_ok q p :
    q_inv q -> q_own q p -> q_scheduled q p = true ->
    exists q', q_deschedule q p = Ok q' /\ q_inv q' /\ q_step q_own q q' p None;
  q_deschedule_err q p :
    q_inv q -> q_own q p -> q_scheduled q p = false -> q_deschedule q p = Err Assert_failed;
  q_reschedule_ok q p t always :
    q_inv q -> q_own q p -> always || q_scheduled q p = true -> q_now q <= t ->
    exists q', q_reschedule q p t always = Ok q' /\ q_inv q' /\ q_step q_own q q' p (Some t);
  q_reschedule_err q p t always :
    q_inv q -> q_own q p -> always || q_scheduled q p = false \/ t < q_now q ->
    q_reschedule q p t always = Err Assert_failed;
  q_pending_future q p : q_inv q -> q_own q p -> q_scheduled q p = true -> q_now q <= q_when q p;
  q_pop_ok q r :
    q_inv q -> q_own q r -> q_scheduled q r = true ->
    exists p q', q_pop q = Ok (p, q') /\ q_inv q' /\ q_taken q_own q q' p;
}.

(** ** The pointer-level queue as an instance *)

Definition em_scheduled (q : EventQueue) (p : ptr) : bool :=
  match eq_heap q !! p with Some e => scheduled e | None => false end.
Definition em_when (q : EventQueue) (p : ptr) : Z :=
  match eq_heap q !! p with Some e => ev_when e | None => 0 end.
Definition em_schedule (q : EventQueue) (p : ptr) (t : Z) : result EventQueue := eq_schedule q p t false.

(** The start of [serviceOne()] for an event that is not squashed. *)
Definition em_pop (q : EventQueue) : result (ptr * EventQueue) :=
  let* '(p, q) := eq_pop q in
  let* e := deref (eq_heap q !! p) in
  Ok (p, setCurTick q (ev_when e)).

#[export] Instance EventQueue_sched : EventSched EventQueue := {
  q_now := eq_curTick;
  q_scheduled := em_scheduled;
  q_when := em_when;
  q_schedule := em_schedule;
  q_deschedule := eq_deschedule;
  q_reschedule := eq_reschedule;
  q_pop := em_pop;
}.

Definition em_inv (q : EventQueue) : Prop :=
  serial q /\ async_queue q = [] /\ exists bins, eq_wf q bins.

Definition own_event (id : nat) (e : Event) : Prop :=
  flag_isSet (ev_flags e) AutoDelete = false /\ (scheduled e = true -> ev_queue e = Some id).

Definition em_own (q : EventQueue) (p : ptr) : Prop :=
  exists e, data_at (eq_heap q) p = Some e /\ own_event (eq_id q) e.

Lemma em_scheduled_data q p e : data_at (eq_heap q) p = Some e -> em_scheduled q p = scheduled e.
Proof. intros (e' & He & ->)%data_at_inv. unfold em_scheduled. now rewrite He. Qed.

Lemma em_when_data q p e : data_at (eq_heap q) p = Some e -> em_when q p = ev_when e.
Proof. intros (e' & He & ->)%data_at_inv. unfold em_when. now rewrite He. Qed.

Lemma em_same_data q q' p :
  data_at (eq_heap q') p = data_at (eq_heap q) p ->
  em_scheduled q' p = em_scheduled q p /\ em_when q' p = em_when q p.
Proof.
  unfold em_scheduled, em_when, data_at. destruct (eq_heap q' !! p) as [e'|], (eq_heap q !! p) as [e|]; try done.
  intros H. change (Some (erase e') = Some (erase e)) in H. assert (erase e' = erase e) as He by congruence.
  apply erase_data in He as (Hk & Hf & _). unfold scheduled, ekey in *. rewrite Hf. split; congruence.
Qed.

(** An operation that changes one event is a step of the interface. *)
Lemma em_step q q' p e o :
  only_changes q q' p e -> scheduled e = match o with Some _ => true | None => false end ->
  (forall t, o = Some t -> ev_when e = t) -> (o = None -> ev_when e = em_when q p) -> own_event (eq_id q) e ->
  q_step em_own q q' p o.
Proof.
  intros [Ho Ht Hc Hid _ _] Hs Hw Hk Hown. split; cbn.
  - done.
  - by rewrite (em_scheduled_data _ _ _ Ht).
  - intros t Het. rewrite (em_when_data _ _ _ Ht). by apply Hw.
  - intros Hn. rewrite (em_when_data _ _ _ Ht). by apply Hk.
  - intros r (e' & He' & Hown'). unfold em_own. rewrite Hid. destruct (decide (r = p)) as [->|Hne].
    + exists (erase e). done.
    + exists e'. by rewrite Ho.
  - intros r Hne. apply em_same_data. by apply Ho.
Qed.

Lemma autodelete_set f : flag_isSet (flag_set f Scheduled) AutoDelete = flag_isSet f AutoDelete.
Proof. unfold flag_isSet, flag_set. rewrite Z.land_lor_distr_l. cbn [Z.land Pos.land Scheduled AutoDelete]. now rewrite Z.lor_0_r. Qed.

Lemma autodelete_clear f g :
  Z.land (u16 (Z.lnot g)) AutoDelete = AutoDelete ->
  flag_isSet (flag_clear f g) AutoDelete = flag_isSet f AutoDelete.
Proof. intros Hg. unfold flag_isSet, flag_clear. now rewrite <- Z.land_assoc, Hg. Qed.

Lemma em_inv_step q q' p e bins :
  em_inv q -> only_changes q q' p e -> async_queue q' = async_queue q -> eq_wf q' bins -> em_inv q'.
Proof.
  intros (Hs & Ha & _) Hoc Has Hwf. split; [unfold serial; by rewrite (oc_par _ _ _ _ Hoc)|].
  split; [congruence|eauto].
Qed.

Lemma em_own_lookup q p : em_own q p -> exists e, eq_heap q !! p = Some e /\ own_event (eq_id q) e.
Proof. intros (e & (e' & He & ->)%data_at_inv & Hown). eauto. Qed.

(** An own event that is scheduled waits in the bins. *)
Lemma em_waits q bins p e :
  eq_wf q bins -> async_queue q = [] -> eq_heap q !! p = Some e -> own_event (eq_id q) e ->
  scheduled e = true -> p ∈ events bins.
Proof.
  intros Hwf Ha He [_ Hq] Hs.
  assert (p ∈ pending q bins) as Hp.
  { apply (wf_sched _ _ Hwf _ _ (data_at_lookup _ _ _ He)). split; [done|by apply Hq]. }
  apply pending_app in Hp as [?|Hp]; [done|]. rewrite Ha in Hp. by apply elem_of_nil in Hp.
Qed.

Lemma em_schedule_ok q p t :
  em_inv q -> em_own q p -> em_scheduled q p = false -> eq_curTick q <= t ->
  exists q', em_schedule q p t = Ok q' /\ em_inv q' /\ q_step em_own q q' p (Some t).
Proof.
  intros Hinv Hown Hs Ht. pose proof Hinv as (Hser & Ha & bins & Hwf).
  destruct (em_own_lookup _ _ Hown) as (e & He & Had & _).
  unfold em_scheduled in Hs. rewrite He in Hs.
  destruct (schedule_now q bins p e t false Hwf He Ht Hs) as (q' & Hq & Hwf' & Has & Hoc); [by rewrite Hser|].
  exists q'. split; [done|]. split; [by eapply em_inv_step|].
  eapply em_step; [exact Hoc|apply scheduled_set|intros ? [= <-]; done|done|].
  split; [|done]. cbn. by rewrite autodelete_set.
Qed.

Lemma em_deschedule_ok q p :
  em_inv q -> em_own q p -> em_scheduled q p = true ->
  exists q', eq_deschedule q p = Ok q' /\ em_inv q' /\ q_step em_own q q' p None.
Proof.
  intros Hinv Hown Hs. pose proof Hinv as (Hser & Ha & bins & Hwf).
  destruct (em_own_lookup _ _ Hown) as (e & He & Had).
  unfold em_scheduled in Hs. rewrite He in Hs.
  pose proof (em_waits _ _ _ _ Hwf Ha He Had Hs) as Hp. destruct Had as [Had _].
  destruct (deschedule_ok q bins p e Hwf (or_introl Hser) He Hp) as (q' & Hq & Hwf' & Has & Hoc).
  assert (flag_isSet (ev_flags (descheduled_event e)) AutoDelete = false) as Had'.
  { unfold descheduled_event. cbn [ev_flags set_flags]. by rewrite !autodelete_clear. }
  rewrite Had' in Hoc. exists q'. split; [done|]. split; [by eapply em_inv_step|].
  eapply em_step; [exact Hoc|apply scheduled_clear|done|intros _; unfold em_when; by rewrite He|].
  split; [done|]. intros H. unfold descheduled_event in H. by rewrite scheduled_clear in H.
Qed.

Lemma em_reschedule_ok q p t always :
  em_inv q -> em_own q p -> always || em_scheduled q p = true -> eq_curTick q <= t ->
  exists q', eq_reschedule q p t always = Ok q' /\ em_inv q' /\ q_step em_own q q' p (Some t).
Proof.
  intros Hinv Hown Hs Ht. pose proof Hinv as (Hser & Ha & bins & Hwf).
  destruct (em_own_lookup _ _ Hown) as (e & He & Had).
  unfold em_scheduled in Hs. rewrite He in Hs.
  destruct (reschedule_ok q bins p e t always Hwf (or_introl Hser) He Ht) as (q' & Hq & Hwf' & Has & Hoc).
  { destruct (scheduled e) eqn:Hse; [by eapply em_waits|by rewrite orb_false_r in Hs]. }
  exists q'. split; [done|]. split; [by eapply em_inv_step|].
  eapply em_step; [exact Hoc|apply rescheduled_flags|intros ? [= <-]; done|done|].
  destruct Had as [Had _]. split; [|done]. unfold rescheduled_event. cbn [ev_flags set_flags setWhen].
  rewrite autodelete_set. by rewrite autodelete_clear.
Qed.

Lemma em_pop_ok q r :
  em_inv q -> em_own q r -> em_scheduled q r = true ->
  exists p q', em_pop q = Ok (p, q') /\ em_inv q' /\ q_taken em_own q q' p.
Proof.
  intros (Hser & Ha & bins & Hwf) (e & He & Hown)%em_own_lookup Hs. unfold em_scheduled in Hs. rewrite He in Hs.
  pose proof (em_waits _ _ _ _ Hwf Ha He Hown Hs) as Hr.
  destruct bins as [|[k b] bs]; [by apply elem_of_nil in Hr|].
  destruct (seg_head _ _ _ _ _ _ (rep_seg _ _ _ (wf_rep _ _ Hwf))) as (p & b' & -> & _).
  destruct (serve_first q k p b' bs Ha Hwf) as (q1 & e1 & Hpop & He1 & Hk & _ & Ha1 & Hc & Hle & Hwf1 & e0 & He0 & Hoc).
  assert (ev_when e1 = k.1) as Hw1 by (by rewrite <- Hk).
  assert (p ∈ events ((k, p :: b') :: bs)) as Hin by (rewrite events_cons; set_solver).
  assert (scheduled e0 = true /\ ekey e0 = k) as [Hs0 Hk0].
  { split; [|].
    2: { pose proof (data_at_lookup _ _ _ He1) as Hd1. rewrite (oc_this _ _ _ _ Hoc) in Hd1.
         assert (erase e1 = erase (popped_event e0)) as (Hke & _)%erase_data by congruence. by rewrite <- Hk, Hke. }
    apply (wf_sched _ _ Hwf p _ (data_at_lookup _ _ _ He0)). apply pending_app. by left. }
  exists p, (setCurTick q1 (ev_when e1)). unfold em_pop. rewrite Hpop. cbn [rbind]. rewrite He1. cbn [deref rbind].
  split; [done|]. rewrite Hw1. split.
  { split; [unfold serial; cbn; by rewrite (oc_par _ _ _ _ Hoc)|]. split; [done|eauto]. }
  assert (em_when q p = k.1) as Hwp by (unfold em_when; rewrite He0, <- Hk0; done).
  split; cbn [q_now q_scheduled q_when EventQueue_sched].
  - unfold em_scheduled. by rewrite He0.
  - by rewrite Hwp.
  - rewrite Hwp. lia.
  - change (em_scheduled q1 p = false). rewrite (em_scheduled_data _ _ _ (oc_this _ _ _ _ Hoc)). apply scheduled_clear.
  - intros x (ex & Hx & Hox). unfold em_own. cbn [eq_heap eq_id setCurTick]. rewrite (oc_id _ _ _ _ Hoc).
    destruct (decide (x = p)) as [->|Hne]; [|exists ex; by rewrite (oc_other _ _ _ _ Hoc)].
    eexists. split; [apply (oc_this _ _ _ _ Hoc)|]. rewrite (data_at_lookup _ _ _ He0) in Hx. injection Hx as <-.
    split; [|intros Hsp; change (scheduled (popped_event e0) = true) in Hsp; unfold popped_event in Hsp;
             by rewrite scheduled_clear in Hsp]. destruct Hox as [Had _]. cbn in Had |- *. by rewrite autodelete_clear.
  - intros x Hne. apply (em_same_data q q1 x). by apply (oc_other _ _ _ _ Hoc).
Qed.

#[export, refine] Instance EventQueue_sched_laws : EventSchedLaws EventQueue := {
  q_inv := em_inv;
  q_own := em_own;
  q_schedule_ok := em_schedule_ok;
  q_deschedule_ok := em_deschedule_ok;
  q_reschedule_ok := em_reschedule_ok;
  q_pop_ok := em_pop_ok;
}.
Proof.
  - intros q p t Hinv (e & He & _)%em_own_lookup H. cbn in H. unfold em_scheduled in H. rewrite He in H.
    eapply schedule_rejects; [done|tauto].
  - intros q p Hinv (e & He & _)%em_own_lookup H. cbn in *. unfold em_scheduled in H. rewrite He in H.
    unfold eq_deschedule. rewrite He. cbn [deref rbind]. by rewrite H.
  - intros q p t always Hinv (e & He & _)%em_own_lookup H. cbn in *. unfold em_scheduled in H. rewrite He in H.
    unfold eq_reschedule. rewrite He. cbn [deref rbind].
    destruct (Z.leb_spec (eq_curTick q) t); [|done]. cbn [assert_ rbind].
    destruct H as [H|H]; [by rewrite H|lia].
  - intros q p (_ & Ha & bins & Hwf) (e & He & Hown)%em_own_lookup H. cbn in *.
    unfold em_scheduled, em_when in *. rewrite He in *.
    apply (wf_time _ _ Hwf p (erase e)); [by apply data_at_lookup|].
    apply pending_app. left. by eapply em_waits.
Defined.
