(* ===== verification/Double.v ===== *)
(** * IEEE double precision

    The energy model computes in C++ [double]s.  They are modelled bit-exactly
    by the Standard Library's [spec_float] at precision 53 and maximal exponent
    1024, with rounding to nearest even.  This file proves the facts about the
    order and about rounding that the energy components rely on: comparisons of
    numbers are total, sums and differences of numbers are numbers, and
    subtracting a positive amount never increases a value, rounding included. *)
From Stdlib Require Import SpecFloat.
From S2P Require Import Prelude.

(** ** Definitions *)

Abbreviation double := spec_float.
Definition dadd : double -> double -> double := SFadd 53 1024.
Definition dsub : double -> double -> double := SFsub 53 1024.
Definition dmul : double -> double -> double := SFmul 53 1024.
Definition dopp : double -> double := SFopp.
Definition dlt : double -> double -> bool := SFltb.
Definition dle : double -> double -> bool := SFleb.
Definition dgt (x y : double) : bool := SFltb y x.
Definition dge (x y : double) : bool := SFleb y x.
Definition dvalid (x : double) : bool := valid_binary 53 1024 x.

(** The conversion from an integer type. *)
Definition of_Z (z : Z) : double := binary_normalize 53 1024 z 0 false.
Definition dzero : double := S754_zero false.

Definition is_nan (x : double) : bool := match x with S754_nan => true | _ => false end.
Definition is_fin (x : double) : bool :=
  match x with S754_zero _ | S754_finite _ _ _ => true | _ => false end.

(** ** The order *)

(** The position of a number: its class (negative infinity, negative, zero,
    positive, infinity), then exponent and mantissa. *)
Definition dkey (x : double) : Z * Z * Z :=
  match x with
  | S754_nan => (0, 0, 0)
  | S754_zero _ => (0, 0, 0)
  | S754_infinity s => (if s then -2 else 2, 0, 0)
  | S754_finite false m e => (1, e, Zpos m)
  | S754_finite true m e => (-1, - e, - Zpos m)
  end.

Definition klt (a b : Z * Z * Z) : Prop :=
  a.1.1 < b.1.1 \/ (a.1.1 = b.1.1 /\ (a.1.2 < b.1.2 \/ (a.1.2 = b.1.2 /\ a.2 < b.2))).
Definition kle (a b : Z * Z * Z) : Prop :=
  a.1.1 < b.1.1 \/ (a.1.1 = b.1.1 /\ (a.1.2 < b.1.2 \/ (a.1.2 = b.1.2 /\ a.2 <= b.2))).

Lemma dcompare_key x y :
  is_nan x = false -> is_nan y = false ->
  match SFcompare x y with
  | Some Lt => klt (dkey x) (dkey y)
  | Some Eq => dkey x = dkey y
  | Some Gt => klt (dkey y) (dkey x)
  | None => False
  end.
Proof.
  destruct x as [sx|sx| |sx mx ex], y as [sy|sy| |sy my ey]; try done; intros _ _;
    unfold klt; cbn; try destruct sx; try destruct sy; cbn; try lia; try done.
  all: destruct (Z.compare_spec ex ey); subst; cbn; try lia.
  all: change (Pos.compare_cont Eq mx my) with (Pos.compare mx my);
    destruct (Pos.compare_spec mx my); subst; cbn; try lia; done.
Qed.

Lemma dlt_key x y : is_nan x = false -> is_nan y = false -> dlt x y = true <-> klt (dkey x) (dkey y).
Proof.
  intros Hx Hy. pose proof (dcompare_key x y Hx Hy) as H. unfold dlt, SFltb.
  destruct (SFcompare x y) as [[]|]; [rewrite H|..]; unfold klt in *; split; try done; lia.
Qed.

Lemma dle_key x y : is_nan x = false -> is_nan y = false -> dle x y = true <-> kle (dkey x) (dkey y).
Proof.
  intros Hx Hy. pose proof (dcompare_key x y Hx Hy) as H. unfold dle, SFleb.
  destruct (SFcompare x y) as [[]|]; [rewrite H|..]; unfold klt, kle in *; split; try done; lia.
Qed.

Lemma dlt_nan x y : dlt x y = true -> is_nan x = false /\ is_nan y = false.
Proof. destruct x as [[]|[]| |[] ? ?], y as [[]|[]| |[] ? ?]; done. Qed.
Lemma dle_nan x y : dle x y = true -> is_nan x = false /\ is_nan y = false.
Proof. destruct x as [[]|[]| |[] ? ?], y as [[]|[]| |[] ? ?]; done. Qed.

(** Turn comparisons of doubles into arithmetic on their keys. *)
Ltac dkeys :=
  repeat match goal with
  | H : dlt ?x ?y = true |- _ =>
      let Hn := fresh in pose proof (dlt_nan x y H) as Hn; destruct Hn;
      rewrite dlt_key in H by assumption
  | H : dle ?x ?y = true |- _ =>
      let Hn := fresh in pose proof (dle_nan x y H) as Hn; destruct Hn;
      rewrite dle_key in H by assumption
  | H : dlt ?x ?y = false |- _ =>
      rewrite <- not_true_iff_false, dlt_key in H by assumption
  | H : dle ?x ?y = false |- _ =>
      rewrite <- not_true_iff_false, dle_key in H by assumption
  | |- dlt ?x ?y = true => rewrite dlt_key by assumption
  | |- dle ?x ?y = true => rewrite dle_key by assumption
  | |- dlt ?x ?y = false => rewrite <- not_true_iff_false, dlt_key by assumption
  | |- dle ?x ?y = false => rewrite <- not_true_iff_false, dle_key by assumption
  end.

Ltac dorder := dkeys; unfold klt, kle in *; lia.

Lemma dle_refl x : is_nan x = false -> dle x x = true.
Proof. intros. dorder. Qed.

Lemma dle_trans x y z : dle x y = true -> dle y z = true -> dle x z = true.
Proof. intros. dorder. Qed.

Lemma dlt_le x y : dlt x y = true -> dle x y = true.
Proof. intros. dorder. Qed.

Lemma dlt_false x y : is_nan x = false -> is_nan y = false -> dlt x y = false -> dle y x = true.
Proof. intros. dorder. Qed.

Lemma fin_not_nan x : is_fin x = true -> is_nan x = false.
Proof. by destruct x. Qed.

Create HintDb double.
#[export] Hint Resolve fin_not_nan dle_refl dlt_le : double.

(** ** Rounding *)

Abbreviation fexp := (SpecFloat.fexp 53 1024).

Lemma fexp_eq k : fexp k = Z.max (k - 53) (-1074).
Proof. done. Qed.

Lemma digits2_log2 p : Zpos (digits2_pos p) = Z.log2 (Zpos p) + 1.
Proof.
  induction p as [p IH|p IH|]; cbn [digits2_pos]; [| |done]; rewrite Pos2Z.inj_succ, IH.
  - change (Zpos p~1) with (2 * Zpos p + 1). rewrite Z.log2_succ_double by lia. lia.
  - change (Zpos p~0) with (2 * Zpos p). rewrite Z.log2_double by lia. lia.
Qed.

Lemma iter_pos_nat {A} (f : A -> A) p x : @SpecFloat.iter_pos A f p x = Nat.iter (Pos.to_nat p) f x.
Proof.
  revert x. induction p as [p IH|p IH|]; intros x; cbn [SpecFloat.iter_pos].
  - rewrite !IH, Pos2Nat.inj_xI. rewrite <- Nat.iter_add, Nat.iter_succ_r. f_equal. lia.
  - rewrite !IH, Pos2Nat.inj_xO. rewrite <- Nat.iter_add. f_equal. lia.
  - done.
Qed.

(** Shifting right keeps the quotient and remembers whether the remainder is
    zero. *)
Definition shr_inv (m : Z) (k : nat) (mrs : shr_record) : Prop :=
  shr_m mrs = m / 2 ^ Z.of_nat k /\
  (shr_r mrs || shr_s mrs = true <-> m mod 2 ^ Z.of_nat k <> 0).

Lemma shr_1_spec mrs :
  0 <= shr_m mrs ->
  shr_m (shr_1 mrs) = shr_m mrs / 2 /\
  (shr_r (shr_1 mrs) || shr_s (shr_1 mrs) = true <->
   shr_r mrs || shr_s mrs = true \/ shr_m mrs mod 2 <> 0).
Proof.
  destruct mrs as [m r s]. cbn [shr_m shr_r shr_s]. intros Hm. destruct m as [|[p|p|]|p]; [| | | |lia].
  - cbn. rewrite orb_comm. split; [done|]. destruct r, s; naive_solver.
  - cbn [shr_1 shr_m shr_r shr_s]. change (Zpos p~1) with (2 * Zpos p + 1).
    split; [apply (Z.div_unique _ _ _ 1); lia|].
    rewrite (Z.add_comm _ 1), Z.mul_comm, Z.mod_add by lia. cbn. naive_solver.
  - cbn [shr_1 shr_m shr_r shr_s]. replace (Zpos p~0) with (Zpos p * 2) by lia.
    split; [apply (Z.div_unique _ _ _ 0); lia|]. rewrite Z.mod_mul by lia. cbn.
    destruct r, s; naive_solver.
  - cbn. naive_solver.
Qed.

Lemma shr_iter m k :
  0 <= m -> shr_inv m k (Nat.iter k shr_1 (Build_shr_record m false false)).
Proof.
  intros Hm. induction k as [|k [IHm IHrs]].
  { split; cbn; [now rewrite Z.div_1_r|]. rewrite Z.mod_1_r. naive_solver. }
  rewrite Nat.iter_succ. set (mrs := Nat.iter k shr_1 _) in *.
  destruct (shr_1_spec mrs) as [H1 H2]; [rewrite IHm; apply Z.div_pos; lia|].
  unfold shr_inv. rewrite Nat2Z.inj_succ, Z.pow_succ_r by lia. split.
  - rewrite H1, IHm, Z.div_div by lia. f_equal. lia.
  - rewrite H2, IHrs, IHm. rewrite (Z.mul_comm 2), Z.rem_mul_r by lia.
    pose proof (Z.mod_pos_bound m (2 ^ Z.of_nat k) ltac:(lia)).
    pose proof (Z.mod_pos_bound (m / 2 ^ Z.of_nat k) 2 ltac:(lia)). nia.
Qed.

(** The quotient rounded to an integer. *)
Lemma round_between mrs m k :
  shr_inv m k mrs ->
  m / 2 ^ Z.of_nat k <= round_nearest_even (shr_m mrs) (loc_of_shr_record mrs) <=
  - (- m / 2 ^ Z.of_nat k).
Proof.
  intros [Hm Hrs]. assert (0 < 2 ^ Z.of_nat k) as Hp by lia.
  pose proof (Z.div_mod m (2 ^ Z.of_nat k) ltac:(lia)) as Hdm.
  pose proof (Z.mod_pos_bound m (2 ^ Z.of_nat k) Hp) as Hb.
  assert (m mod 2 ^ Z.of_nat k = 0 -> - (- m / 2 ^ Z.of_nat k) = m / 2 ^ Z.of_nat k) as Hex.
  { intros H0. rewrite Z.div_opp_l_z by lia. lia. }
  assert (m mod 2 ^ Z.of_nat k <> 0 -> - (- m / 2 ^ Z.of_nat k) = m / 2 ^ Z.of_nat k + 1) as Hin.
  { intros H0. rewrite Z.div_opp_l_nz by lia. lia. }
  destruct mrs as [q r s]. cbn [shr_m shr_r shr_s] in *. subst q.
  destruct r, s; cbn [loc_of_shr_record round_nearest_even orb] in *;
    try destruct (Z.even _); (destruct (Z.eq_dec (m mod 2 ^ Z.of_nat k) 0) as [H0|H0];
      [rewrite (Hex H0) | rewrite (Hin H0)]); intuition (try lia; try discriminate).
Qed.

(** The double of sign [sx] and value [R * 2 ^ e1], where [0 <= R <= 2 ^ 53]. *)
Definition finish (sx : bool) (R e1 : Z) : double :=
  if R =? 0 then S754_zero sx
  else if R =? 2 ^ 53 then
    if e1 + 1 <=? 971 then S754_finite sx (2 ^ 52)%positive (e1 + 1) else S754_infinity sx
  else if e1 <=? 971 then S754_finite sx (Z.to_pos R) e1 else S754_infinity sx.

(** Quotient by a power of two, rounded down and up. *)
Definition qfloor (m k : Z) : Z := m / 2 ^ k.
Definition qceil (m k : Z) : Z := - (- m / 2 ^ k).

Lemma Zdigits2_log2 m : 0 < m -> Zdigits2 m = Z.log2 m + 1.
Proof. destruct m; [lia| |lia]. intros _. apply digits2_log2. Qed.

Lemma shr_fexp_spec m e :
  0 <= m -> let k := Z.max 0 (fexp (Zdigits2 m + e) - e) in
  exists mrs, shr_fexp 53 1024 m e loc_Exact = (mrs, e + k) /\
  shr_inv m (Z.to_nat k) mrs.
Proof.
  intros Hm k. unfold shr_fexp, shr. cbn [shr_record_of_loc].
  pose proof (shr_iter m (Z.to_nat k) Hm) as Hi. unfold k in *.
  destruct (fexp (Zdigits2 m + e) - e) as [|p|p] eqn:Hn.
  - eexists. rewrite Z.add_0_r. split; [done|]. exact Hi.
  - rewrite Z.max_r by lia. eexists. split; [done|]. rewrite iter_pos_nat.
    rewrite Z.max_r in Hi by lia. exact Hi.
  - rewrite Z.max_l by lia. eexists. rewrite Z.add_0_r. split; [done|]. rewrite Z.max_l in Hi by lia. exact Hi.
Qed.

Lemma shr_inv_0 m mrs : shr_inv m 0 mrs -> shr_m mrs = m.
Proof. intros [-> _]. apply Z.div_1_r. Qed.

(** The second normalisation: the rounded mantissa fits, or is [2 ^ 53]. *)
Lemma finish_spec sx R e1 :
  0 <= R <= 2 ^ 53 -> -1074 <= e1 ->
  (let '(mrs, e2) := shr_fexp 53 1024 R e1 loc_Exact in
   match shr_m mrs with
   | Z0 => S754_zero sx
   | Zpos m => if e2 <=? 1024 - 53 then S754_finite sx m e2 else S754_infinity sx
   | Zneg _ => S754_nan
   end) = finish sx R e1.
Proof.
  intros HR He. destruct (shr_fexp_spec R e1 ltac:(lia)) as (mrs & -> & Hinv). unfold finish.
  destruct (Z.eqb_spec R 0) as [->|HR0].
  { rewrite fexp_eq, Z.max_l in Hinv by (cbn; lia). by rewrite (shr_inv_0 _ _ Hinv). }
  rewrite Zdigits2_log2, fexp_eq in * by lia. destruct (Z.eqb_spec R (2 ^ 53)) as [->|HRp].
  - rewrite Z.log2_pow2 in * by lia. rewrite Z.max_r in * by lia.
    replace (Z.max (53 + 1 + e1 - 53) (-1074) - e1) with 1 in * by lia.
    destruct Hinv as [Hm _]. rewrite Hm. done.
  - assert (Z.log2 R < 53) as Hl by (apply Z.log2_lt_pow2; lia).
    rewrite Z.max_l in * by lia. rewrite (shr_inv_0 _ _ Hinv), Z.add_0_r.
    destruct R; [lia| |lia]. done.
Qed.

Lemma qfloor_lt m k n : 0 < m -> 0 <= k -> 0 <= n -> Z.log2 m + 1 <= n + k -> qfloor m k < 2 ^ n.
Proof.
  intros Hm Hk Hn Hl. unfold qfloor. apply Z.div_lt_upper_bound; [lia|].
  rewrite <- Z.pow_add_r by lia. apply (Z.lt_le_trans _ (2 ^ (Z.log2 m + 1))).
  - rewrite Z.add_1_r. apply Z.log2_spec. lia.
  - apply Z.pow_le_mono_r; lia.
Qed.

Lemma qceil_le m k : 0 <= k -> qfloor m k <= qceil m k <= qfloor m k + 1.
Proof.
  intros Hk. unfold qfloor, qceil. assert (0 < 2 ^ k) by lia.
  destruct (Z.eq_dec (m mod 2 ^ k) 0) as [H0|H0].
  - rewrite Z.div_opp_l_z by lia. lia.
  - rewrite Z.div_opp_l_nz by lia. lia.
Qed.

Lemma round_aux_spec sx m e :
  0 < m -> let e1 := fexp (Z.log2 m + 1 + e) in e <= e1 ->
  exists R, binary_round_aux 53 1024 sx m e loc_Exact = finish sx R e1 /\
  qfloor m (e1 - e) <= R <= qceil m (e1 - e) /\ 0 <= R <= 2 ^ 53.
Proof.
  intros Hm e1 He. unfold binary_round_aux.
  destruct (shr_fexp_spec m e ltac:(lia)) as (mrs & -> & Hinv).
  rewrite Zdigits2_log2 in * by lia. fold e1 in Hinv |- *.
  rewrite Z.max_r in * by lia. replace (e + (e1 - e)) with e1 by lia.
  pose proof (round_between _ _ _ Hinv) as Hb. rewrite Z2Nat.id in Hb by lia.
  fold (qfloor m (e1 - e)) (qceil m (e1 - e)) in Hb.
  set (R := round_nearest_even _ _) in *.
  assert (0 <= R <= 2 ^ 53) as HR.
  { pose proof (qceil_le m (e1 - e) ltac:(lia)).
    pose proof (qfloor_lt m (e1 - e) 53 Hm ltac:(lia) ltac:(lia)) as Hlt.
    assert (0 <= qfloor m (e1 - e)) by (apply Z.div_pos; lia).
    specialize (Hlt ltac:(unfold e1; rewrite fexp_eq; lia)). lia. }
  exists R. split; [|done]. apply finish_spec; [done|]. unfold e1. rewrite fexp_eq. lia.
Qed.

Lemma iter_xO m d : Zpos (Pos.iter xO m d) = Zpos m * 2 ^ Zpos d.
Proof.
  induction d as [|d IH] using Pos.peano_ind; [cbn; lia|].
  rewrite Pos.iter_succ, Pos2Z.inj_succ, Z.pow_succ_r by lia.
  change (Zpos (Pos.iter xO m d)~0) with (2 * Zpos (Pos.iter xO m d)). rewrite IH. lia.
Qed.

Lemma shl_align_spec m e e' :
  exists mz, shl_align m e e' = (mz, Z.min e e') /\ Zpos mz = Zpos m * 2 ^ (e - Z.min e e').
Proof.
  unfold shl_align. destruct (e' - e) as [|p|p] eqn:H.
  - exists m. rewrite Z.min_l, Z.sub_diag by lia. split; [done|]. cbn. lia.
  - exists m. rewrite Z.min_l, Z.sub_diag by lia. split; [done|]. cbn. lia.
  - exists (Pos.iter xO m p). rewrite Z.min_r by lia. split; [done|]. rewrite iter_xO. do 2 f_equal. lia.
Qed.

Lemma log2_shift m k : 0 < m -> 0 <= k -> Z.log2 (m * 2 ^ k) = Z.log2 m + k.
Proof. intros. rewrite Z.log2_mul_pow2 by lia. lia. Qed.

(** [binary_round]: the result is the double of a mantissa between the exact
    quotient rounded down and rounded up, at the exponent the magnitude asks
    for. *)
Lemma binary_round_spec sx m e :
  let e1 := fexp (Z.log2 (Zpos m) + 1 + e) in let ez := Z.min e e1 in
  exists R, binary_round 53 1024 sx m e = finish sx R e1 /\
  qfloor (Zpos m * 2 ^ (e - ez)) (e1 - ez) <= R <= qceil (Zpos m * 2 ^ (e - ez)) (e1 - ez) /\
  0 <= R <= 2 ^ 53.
Proof.
  intros e1 ez. unfold binary_round. rewrite digits2_log2. fold e1.
  destruct (shl_align_spec m e e1) as (mz & -> & Hmz). fold ez in Hmz |- *. rewrite <- Hmz.
  assert (Z.log2 (Zpos mz) + 1 + ez = Z.log2 (Zpos m) + 1 + e) as Hl.
  { rewrite Hmz, log2_shift by (unfold ez; lia). lia. }
  destruct (round_aux_spec sx (Zpos mz) ez ltac:(lia)) as (R & HR & Hb).
  { rewrite Hl. unfold ez. fold e1. lia. }
  rewrite Hl in *. fold e1 in HR, Hb. eauto.
Qed.

(** Rounding at the right exponent gives a valid double. *)
Lemma finish_valid sx R m e :
  let e1 := fexp (Z.log2 (Zpos m) + 1 + e) in let ez := Z.min e e1 in
  qfloor (Zpos m * 2 ^ (e - ez)) (e1 - ez) <= R -> 0 <= R <= 2 ^ 53 ->
  dvalid (finish sx R e1) = true.
Proof.
  intros e1 ez Hf HR. unfold finish. destruct (Z.eqb_spec R 0) as [->|HR0]; [done|].
  assert (-1074 <= e1) as He by (unfold e1; rewrite fexp_eq; lia).
  destruct (Z.eqb_spec R (2 ^ 53)) as [->|HRp].
  - destruct (Z.leb_spec (e1 + 1) 971); [|done].
    unfold dvalid, valid_binary, bounded, canonical_mantissa. rewrite digits2_log2.
    change (Z.log2 (Z.pos (2 ^ 52))) with 52. rewrite fexp_eq.
    rewrite (proj2 (Z.eqb_eq _ _)) by lia. cbn. lia.
  - destruct (Z.leb_spec e1 971); [|done].
    unfold dvalid, valid_binary, bounded, canonical_mantissa. rewrite digits2_log2, Z2Pos.id by lia.
    assert (Z.log2 R < 53) as Hl by (apply Z.log2_lt_pow2; lia).
    rewrite fexp_eq. rewrite (proj2 (Z.leb_le _ _)) by lia. rewrite andb_true_r. apply Z.eqb_eq.
    destruct (Z.eq_dec e1 (-1074)) as [->|Hne]; [lia|].
    assert (52 <= Z.log2 R); [|lia]. apply Z.log2_le_pow2; [lia|]. etrans; [|exact Hf].
    unfold qfloor. apply Z.div_le_lower_bound; [lia|].
    assert (e1 = Z.log2 (Zpos m) + 1 + e - 53) as He1 by (unfold e1 in *; rewrite fexp_eq in *; lia).
    rewrite <- Z.pow_add_r by (unfold ez; lia).
    pose proof (Z.log2_spec (Zpos m) ltac:(lia)) as [Hlo _].
    apply (Z.le_trans _ (2 ^ Z.log2 (Zpos m) * 2 ^ (e - ez))); [|apply Z.mul_le_mono_nonneg_r; lia].
    pose proof (Z.log2_nonneg (Zpos m)). rewrite <- Z.pow_add_r by (unfold ez; lia).
    apply Z.pow_le_mono_r; [lia|]. lia.
Qed.

Lemma binary_round_valid sx m e : dvalid (binary_round 53 1024 sx m e) = true.
Proof. destruct (binary_round_spec sx m e) as (R & -> & [Hf _] & HR). by apply finish_valid. Qed.

Definition has_sign (sx : bool) (x : double) : Prop :=
  match x with
  | S754_finite s _ _ | S754_infinity s => s = sx
  | S754_zero _ => True
  | S754_nan => False
  end.

Lemma binary_round_sign sx m e : has_sign sx (binary_round 53 1024 sx m e).
Proof.
  destruct (binary_round_spec sx m e) as (R & -> & _). unfold finish.
  repeat case_match; done.
Qed.

Lemma binary_round_not_nan sx m e : is_nan (binary_round 53 1024 sx m e) = false.
Proof. pose proof (binary_round_sign sx m e). by destruct (binary_round _ _ _ _ _). Qed.

Lemma normalize_valid m e s : dvalid (binary_normalize 53 1024 m e s) = true.
Proof. destruct m; [done|apply binary_round_valid..]. Qed.
Lemma normalize_not_nan m e s : is_nan (binary_normalize 53 1024 m e s) = false.
Proof. destruct m; [done|apply binary_round_not_nan..]. Qed.

Lemma dadd_valid x y : dvalid x = true -> dvalid y = true -> dvalid (dadd x y) = true.
Proof.
  intros Hx Hy. destruct x as [[]|[]| |sx mx ex], y as [[]|[]| |sy my ey]; try done.
  apply normalize_valid.
Qed.
Lemma dsub_valid x y : dvalid x = true -> dvalid y = true -> dvalid (dsub x y) = true.
Proof.
  intros Hx Hy. destruct x as [[]|[]| |sx mx ex], y as [[]|[]| |sy my ey]; try done.
  apply normalize_valid.
Qed.
Lemma dadd_not_nan x y : is_nan x = false -> is_fin y = true -> is_nan (dadd x y) = false.
Proof.
  intros Hx Hy. destruct x as [[]|[]| |sx mx ex], y as [[]|[]| |sy my ey]; try done.
  apply normalize_not_nan.
Qed.
Lemma dsub_not_nan x y : is_nan x = false -> is_fin y = true -> is_nan (dsub x y) = false.
Proof.
  intros Hx Hy. destruct x as [[]|[]| |sx mx ex], y as [[]|[]| |sy my ey]; try done.
  apply normalize_not_nan.
Qed.

Lemma valid_canonical s m e :
  dvalid (S754_finite s m e) = true -> fexp (Z.log2 (Zpos m) + 1 + e) = e /\ e <= 971.
Proof.
  unfold dvalid, valid_binary, bounded, canonical_mantissa. rewrite digits2_log2.
  intros [?%Z.eqb_eq ?%Z.leb_le]%andb_true_iff. split; [done|lia].
Qed.

Lemma qceil_mono_exact m M k : 0 <= k -> m <= M * 2 ^ k -> qceil m k <= M.
Proof.
  intros Hk Hm. unfold qceil. enough (- M <= - m / 2 ^ k) by lia.
  apply Z.div_le_lower_bound; [lia|]. lia.
Qed.

(** A positive value that does not exceed a valid double still does not exceed
    it after rounding. *)
Lemma round_below D ez mx ex :
  dvalid (S754_finite false mx ex) = true -> ez <= ex -> Zpos D <= Zpos mx * 2 ^ (ex - ez) ->
  dle (binary_round 53 1024 false D ez) (S754_finite false mx ex) = true /\
  is_fin (binary_round 53 1024 false D ez) = true.
Proof.
  intros [Hcan Hmax]%valid_canonical Hez HD.
  destruct (binary_round_spec false D ez) as (R & -> & [_ Hc] & HR).
  set (e1 := fexp (Z.log2 (Zpos D) + 1 + ez)) in *.
  assert (e1 <= ex) as He1.
  { apply Z.log2_le_mono in HD. rewrite log2_shift in HD by lia.
    unfold e1. rewrite <- Hcan, !fexp_eq. lia. }
  assert (R <= Zpos mx * 2 ^ (ex - e1)) as HRx.
  { etrans; [exact Hc|]. apply qceil_mono_exact; [lia|].
    rewrite <- Z.mul_assoc, <- Z.pow_add_r by lia.
    replace (ex - e1 + (e1 - Z.min ez e1)) with ((ex - ez) + (ez - Z.min ez e1)) by lia.
    rewrite Z.pow_add_r, Z.mul_assoc by lia. apply Z.mul_le_mono_nonneg_r; lia. }
  assert (Zpos mx < 2 ^ 53) as Hmx.
  { pose proof (Z.log2_spec (Zpos mx) ltac:(lia)) as [_ Hlt]. eapply Z.lt_le_trans; [exact Hlt|].
    apply Z.pow_le_mono_r; [lia|]. rewrite fexp_eq in Hcan. lia. }
  unfold finish. destruct (Z.eqb_spec R 0) as [->|HR0]; [done|].
  destruct (Z.eqb_spec R (2 ^ 53)) as [->|HRp].
  - assert (e1 < ex) as Hlt.
    { destruct (Z.eq_dec e1 ex) as [->|]; [|lia]. rewrite Z.sub_diag in HRx. lia. }
    rewrite (proj2 (Z.leb_le _ _)) by lia. split; [|done]. apply dle_key; [done|done|]. unfold kle. cbn.
    destruct (Z.eq_dec (e1 + 1) ex) as [<-|]; [|lia]. replace (e1 + 1 - e1) with 1 in HRx by lia. lia.
  - rewrite (proj2 (Z.leb_le _ _)) by lia. split; [|done]. apply dle_key; [done|done|]. unfold kle. cbn.
    destruct (Z.eq_dec e1 ex) as [->|]; [|lia]. rewrite Z.sub_diag in HRx. lia.
Qed.

Lemma nonneg_cases x :
  is_fin x = true -> dle dzero x = true ->
  (exists s, x = S754_zero s) \/ exists m e, x = S754_finite false m e.
Proof. destruct x as [s|s| |[] m e]; try done; eauto. Qed.

Lemma pos_cases x : is_fin x = true -> dlt dzero x = true -> exists m e, x = S754_finite false m e.
Proof. destruct x as [s|s| |[] m e]; try done; eauto. Qed.

Lemma has_sign_nonpos x : has_sign true x -> dle x dzero = true.
Proof. destruct x as [s|s| |s m e]; cbn; intros; subst; done. Qed.

(** A difference is either not positive, or at most the minuend. *)
Lemma dsub_le x y :
  is_fin x = true -> dvalid x = true -> dle dzero x = true ->
  is_fin y = true -> dlt dzero y = true -> dle (dsub x y) x = true.
Proof.
  intros Hx Hv Hp Hy Hyp. destruct (pos_cases y Hy Hyp) as (my & ey & ->).
  destruct (nonneg_cases x Hx Hp) as [[s ->]|(mx & ex & ->)]; [done|].
  unfold dsub, SFsub. cbn [cond_Zopp]. set (ez := Z.min ex ey).
  destruct (shl_align_spec mx ex ez) as (mX & -> & HmX). destruct (shl_align_spec my ey ez) as (mY & -> & HmY).
  cbn [fst]. replace (Z.min ex ez) with ez in HmX by lia.
  destruct (Zpos mX - Zpos mY) as [|D|D] eqn:HD; [done| |].
  - apply round_below; [done|lia|]. rewrite <- HmX. lia.
  - unfold binary_normalize. eapply dle_trans; [apply has_sign_nonpos, binary_round_sign|done].
Qed.

Lemma qfloor_mono_exact m M k : 0 <= k -> M * 2 ^ k <= m -> M <= qfloor m k.
Proof. intros Hk Hm. unfold qfloor. apply Z.div_le_lower_bound; lia. Qed.

(** A value that is at least a valid positive double is at least that double
    after rounding. *)
Lemma round_above D ez mx ex :
  dvalid (S754_finite false mx ex) = true -> ez <= ex -> Zpos mx * 2 ^ (ex - ez) <= Zpos D ->
  dle (S754_finite false mx ex) (binary_round 53 1024 false D ez) = true.
Proof.
  intros [Hcan Hmax]%valid_canonical Hez HD.
  destruct (binary_round_spec false D ez) as (R & -> & [Hf _] & HR).
  set (e1 := fexp (Z.log2 (Zpos D) + 1 + ez)) in *.
  assert (ex <= e1) as He1.
  { apply Z.log2_le_mono in HD. rewrite log2_shift in HD by lia.
    unfold e1. rewrite <- Hcan at 1. rewrite !fexp_eq. lia. }
  assert (e1 = ex -> Zpos mx <= R) as HRx.
  { intros Heq. etrans; [|exact Hf]. apply qfloor_mono_exact; [lia|].
    rewrite Heq in *. replace (Z.min ez ex) with ez by lia. rewrite Z.sub_diag. lia. }
  assert (0 < R) as HR0.
  { destruct (Z.eq_dec e1 ex) as [->|Hne]; [specialize (HRx eq_refl); lia|].
    assert (1 <= qfloor (Zpos D * 2 ^ (ez - Z.min ez e1)) (e1 - Z.min ez e1)); [|lia].
    apply qfloor_mono_exact; [lia|]. replace (Z.min ez e1) with ez by lia. rewrite Z.sub_diag.
    pose proof (Z.log2_spec (Zpos D) ltac:(lia)) as [Hlo _].
    pose proof (Z.pow_le_mono_r 2 (e1 - ez) (Z.log2 (Zpos D)) ltac:(lia)) as Hpw.
    enough (e1 - ez <= Z.log2 (Zpos D)) by lia. unfold e1 in *. rewrite fexp_eq in *.
    pose proof (Z.log2_nonneg (Zpos D)). lia. }
  unfold finish. rewrite (proj2 (Z.eqb_neq R 0)) by lia.
  destruct (Z.eqb_spec R (2 ^ 53)) as [->|HRp].
  - destruct (Z.leb_spec (e1 + 1) 971); [|done]. apply dle_key; [done|done|]. unfold kle. cbn. lia.
  - destruct (Z.leb_spec e1 971); [|done]. apply dle_key; [done|done|]. unfold kle. cbn.
    destruct (Z.eq_dec e1 ex) as [Heq|]; [|lia]. specialize (HRx Heq). lia.
Qed.

(** Adding a positive amount never decreases a value. *)
Lemma dadd_ge x y :
  is_fin x = true -> dvalid x = true -> dle dzero x = true ->
  is_fin y = true -> dlt dzero y = true -> dle x (dadd x y) = true.
Proof.
  intros Hx Hv Hp Hy Hyp. destruct (pos_cases y Hy Hyp) as (my & ey & ->).
  destruct (nonneg_cases x Hx Hp) as [[s ->]|(mx & ex & ->)]; [by destruct s|].
  unfold dadd, SFadd. cbn [cond_Zopp]. set (ez := Z.min ex ey).
  destruct (shl_align_spec mx ex ez) as (mX & -> & HmX). destruct (shl_align_spec my ey ez) as (mY & -> & HmY).
  cbn [fst]. replace (Z.min ex ez) with ez in HmX by lia.
  cbn [Z.add binary_normalize]. apply round_above; [done|lia|]. rewrite <- HmX. lia.
Qed.

#[export] Hint Resolve dadd_valid dsub_valid dadd_not_nan dsub_not_nan : double.

(** The product of two valid mantissas never has to be shifted left. *)
Lemma mul_aligned sx mx ex sy my ey :
  dvalid (S754_finite sx mx ex) = true -> dvalid (S754_finite sy my ey) = true ->
  ex + ey <= fexp (Z.log2 (Zpos mx * Zpos my) + 1 + (ex + ey)).
Proof.
  intros [Hx Hx']%valid_canonical [Hy Hy']%valid_canonical. rewrite fexp_eq in *.
  pose proof (Z.log2_mul_below (Zpos mx) (Zpos my) ltac:(lia) ltac:(lia)).
  pose proof (Z.log2_nonneg (Zpos mx)). pose proof (Z.log2_nonneg (Zpos my)). lia.
Qed.

Lemma dmul_valid x y : dvalid x = true -> dvalid y = true -> dvalid (dmul x y) = true.
Proof.
  intros Hx Hy. destruct x as [[]|[]| |sx mx ex], y as [[]|[]| |sy my ey]; try done.
  unfold dmul, SFmul. pose proof (mul_aligned _ _ _ _ _ _ Hx Hy) as Hal.
  change (Zpos mx * Zpos my) with (Zpos (mx * my)) in Hal.
  destruct (round_aux_spec (xorb sx sy) (Zpos (mx * my)) (ex + ey) ltac:(lia) Hal) as (R & -> & [Hf _] & HR).
  apply finish_valid; [|done]. rewrite Z.min_l, Z.sub_diag by done. change (2 ^ 0) with 1. by rewrite Z.mul_1_r.
Qed.

Lemma dopp_valid x : dvalid (dopp x) = dvalid x.
Proof. by destruct x. Qed.
Lemma dopp_fin x : is_fin (dopp x) = is_fin x.
Proof. by destruct x. Qed.
Lemma dopp_pos x : dlt x dzero = dlt dzero (dopp x).
Proof. destruct x as [[]|[]| |[] ? ?]; done. Qed.

(** ** Integers as doubles *)

(** The conversion of a non-negative double to an integer type truncates. *)
Definition to_Z (x : double) : Z :=
  match x with
  | S754_finite false m e => if 0 <=? e then Zpos m * 2 ^ e else Zpos m / 2 ^ (- e)
  | S754_finite true m e => - (if 0 <=? e then Zpos m * 2 ^ e else Zpos m / 2 ^ (- e))
  | _ => 0
  end.
Definition ddiv : double -> double -> double := SFdiv 53 1024.

(** Rounding an integer below [2 ^ 53], at whatever scale it is given, is
    exact. *)
Lemma round_exact D z k :
  0 < z < 2 ^ 53 -> 0 <= k -> Zpos D = z * 2 ^ k ->
  let e1 := Z.log2 z - 52 in
  binary_round 53 1024 false D (- k) = finish false (z * 2 ^ (- e1)) e1 /\ e1 <= 0.
Proof.
  intros Hz Hk HD e1. assert (0 <= Z.log2 z <= 52) as Hl.
  { split; [apply Z.log2_nonneg|]. assert (Z.log2 z < 53) by (apply Z.log2_lt_pow2; lia). lia. }
  split; [|unfold e1; lia].
  destruct (binary_round_spec false D (- k)) as (R & -> & Hb & HR).
  assert (fexp (Z.log2 (Zpos D) + 1 + - k) = e1) as He.
  { rewrite HD, log2_shift by lia. unfold e1. rewrite fexp_eq. lia. }
  rewrite He in *. f_equal. set (ez := Z.min (- k) e1) in *.
  assert (Zpos D * 2 ^ (- k - ez) = (z * 2 ^ (- e1)) * 2 ^ (e1 - ez)) as Hex.
  { rewrite HD, <- !Z.mul_assoc, <- !Z.pow_add_r by lia. do 2 f_equal. lia. }
  rewrite Hex in Hb. unfold qfloor, qceil in Hb.
  rewrite <- Z.mul_opp_l in Hb. rewrite !Z.div_mul in Hb by lia. lia.
Qed.

Lemma of_Z_round z : 0 < z -> of_Z z = binary_round 53 1024 false (Z.to_pos z) 0.
Proof. destruct z; [lia| |lia]. done. Qed.

Lemma of_Z_exact z :
  0 < z < 2 ^ 53 -> exists m e, of_Z z = S754_finite false m e /\ e <= 0 /\ Zpos m = z * 2 ^ (- e).
Proof.
  intros Hz. rewrite of_Z_round by lia.
  destruct (round_exact (Z.to_pos z) z 0 Hz ltac:(lia)) as [Hr He].
  { rewrite Z2Pos.id by lia. lia. }
  change (- 0) with 0 in Hr. rewrite Hr. set (e1 := Z.log2 z - 52) in *.
  assert (0 <= Z.log2 z) by apply Z.log2_nonneg.
  assert (0 < z * 2 ^ (- e1) < 2 ^ 53) as HR.
  { split; [lia|]. pose proof (Z.log2_spec z ltac:(lia)) as [_ Hlt].
    replace 53 with (Z.succ (Z.log2 z) + - e1) by (unfold e1; lia). rewrite Z.pow_add_r by lia. nia. }
  unfold finish. rewrite (proj2 (Z.eqb_neq _ 0)), (proj2 (Z.eqb_neq _ (2 ^ 53))), (proj2 (Z.leb_le e1 971)) by lia.
  exists (Z.to_pos (z * 2 ^ (- e1))), e1. split; [done|]. split; [done|]. apply Z2Pos.id. lia.
Qed.

Lemma to_Z_of_Z z : 0 <= z < 2 ^ 53 -> to_Z (of_Z z) = z.
Proof.
  intros Hz. destruct (Z.eq_dec z 0) as [->|Hz0]; [done|].
  destruct (of_Z_exact z ltac:(lia)) as (m & e & -> & He & Hm). cbn [to_Z].
  destruct (Z.leb_spec 0 e).
  - replace e with 0 in * by lia. cbn in Hm. rewrite Hm. change (2 ^ 0) with 1. lia.
  - rewrite Hm. apply Z.div_mul. lia.
Qed.

Lemma dadd_of_Z x y : 0 <= x -> 0 <= y -> x + y < 2 ^ 53 -> dadd (of_Z x) (of_Z y) = of_Z (x + y).
Proof.
  intros Hx Hy Hs. destruct (Z.eq_dec x 0) as [->|Hx0].
  { change (of_Z 0) with (S754_zero false). rewrite Z.add_0_l. destruct (Z.eq_dec y 0) as [->|Hy0]; [done|].
    destruct (of_Z_exact y ltac:(lia)) as (m & e & -> & _). done. }
  destruct (Z.eq_dec y 0) as [->|Hy0].
  { change (of_Z 0) with (S754_zero false). rewrite Z.add_0_r.
    destruct (of_Z_exact x ltac:(lia)) as (m & e & -> & _). done. }
  destruct (of_Z_exact x ltac:(lia)) as (mx & ex & -> & Hex & Hmx).
  destruct (of_Z_exact y ltac:(lia)) as (my & ey & -> & Hey & Hmy).
  unfold dadd, SFadd. cbn [cond_Zopp]. set (ez := Z.min ex ey).
  destruct (shl_align_spec mx ex ez) as (mX & -> & HmX). destruct (shl_align_spec my ey ez) as (mY & -> & HmY).
  cbn [fst Z.add binary_normalize]. replace (Z.min ex ez) with ez in HmX by lia.
  replace (Z.min ey ez) with ez in HmY by lia.
  assert (Zpos (mX + mY) = (x + y) * 2 ^ (- ez)) as HD.
  { rewrite Pos2Z.inj_add, HmX, HmY, Hmx, Hmy, <- !Z.mul_assoc, <- !Z.pow_add_r by lia.
    replace (- ex + (ex - ez)) with (- ez) by lia. replace (- ey + (ey - ez)) with (- ez) by lia. lia. }
  destruct (round_exact (mX + mY) (x + y) (- ez) ltac:(lia) ltac:(lia) HD) as [H1 _].
  rewrite Z.opp_involutive in H1.
  change (binary_normalize 53 1024 (Zpos mX + Zpos mY) ez false)
    with (binary_round 53 1024 false (mX + mY) ez).
  rewrite H1, of_Z_round by lia.
  destruct (round_exact (Z.to_pos (x + y)) (x + y) 0 ltac:(lia) ltac:(lia)) as [H2 _]; [|by rewrite <- H2].
  rewrite Z2Pos.id by lia. lia.
Qed.
