(* ===== verification/EnergySM.v ===== *)
(** * Energy state machines

    The power management strategies of [engy/]: each machine is told the energy
    that remains after every change ([update]) and broadcasts a message when it
    changes state.  A machine is its state and thresholds; [update] returns the
    new machine and the messages it hands to [broadcastMsg].  The outage count
    that two machines also write to the file [m5out/power_failure] is part of
    the state; the file itself is not modelled. *)
From Stdlib Require Import SpecFloat String.
From S2P Require Import Prelude Double.
Open Scope Z_scope.

(** ** Definitions: messages *)

(** [struct EnergyMsg]; the machines leave [sender] unset. *)
Record EnergyMsg := mkMsg {
  msg_type : Z;
  msg_sender : option string;
  msg_val : double;
}.

(** A message of a state machine: [msg.val = 0; msg.type = t]. *)
Definition sm_msg (t : Z) : EnergyMsg := mkMsg t None dzero.

(** ** Definitions: [SimpleEnergySM] (state_machine.cc) *)
Module SimpleEnergySM.
Definition CONSUME_ENERGY : Z := 0.
Definition POWER_OFF : Z := 1.
Definition POWER_ON : Z := 2.
Inductive Simple_State := STATE_POWER_OFF | STATE_POWER_ON.

Record Simple := mkSimple {
  si_state : Simple_State;
  si_thres_1_to_off : double;
  si_thres_off_to_1 : double;
  si_outage_times : Z;
}.

Definition new_Simple (thres_1_to_off thres_off_to_1 : double) : Simple :=
  mkSimple STATE_POWER_OFF thres_1_to_off thres_off_to_1 0.

Definition Simple_init (s : Simple) : Simple * list EnergyMsg :=
  (mkSimple STATE_POWER_OFF (si_thres_1_to_off s) (si_thres_off_to_1 s) (si_outage_times s),
   [sm_msg POWER_OFF]).

Definition Simple_update (s : Simple) (energy : double) : Simple * list EnergyMsg :=
  match si_state s with
  | STATE_POWER_ON =>
      if dle energy (si_thres_1_to_off s) then
        (mkSimple STATE_POWER_OFF (si_thres_1_to_off s) (si_thres_off_to_1 s)
           (swrap 32 (si_outage_times s + 1)), [sm_msg POWER_OFF])
      else (s, [])
  | STATE_POWER_OFF =>
      if dge energy (si_thres_off_to_1 s) then
        (mkSimple STATE_POWER_ON (si_thres_1_to_off s) (si_thres_off_to_1 s) (si_outage_times s),
         [sm_msg POWER_ON])
      else (s, [])
  end.
End SimpleEnergySM.

(** ** Definitions: [TwoThresSM] (two_thres.cc) *)
Module TwoThresSM.
Definition POWEROFF : Z := 1.
Definition POWERON : Z := 2.
Inductive Two_State := STATE_INIT | STATE_POWEROFF | STATE_POWERON.

Record Two := mkTwo { tw_state : Two_State; tw_thres_high : double; tw_thres_low : double }.

Definition new_Two (thres_high thres_low : double) : Two := mkTwo STATE_INIT thres_high thres_low.
Definition Two_goto (s : Two) (st : Two_State) : Two := mkTwo st (tw_thres_high s) (tw_thres_low s).

Definition Two_init (s : Two) : Two * list EnergyMsg := (Two_goto s STATE_POWEROFF, [sm_msg POWEROFF]).

Definition Two_update (s : Two) (energy : double) : Two * list EnergyMsg :=
  match tw_state s with
  | STATE_INIT => (Two_goto s STATE_POWERON, [])
  | STATE_POWERON =>
      if dlt energy (tw_thres_low s) then (Two_goto s STATE_POWEROFF, [sm_msg POWEROFF]) else (s, [])
  | STATE_POWEROFF =>
      if dgt energy (tw_thres_high s) then (Two_goto s STATE_POWERON, [sm_msg POWERON]) else (s, [])
  end.
End TwoThresSM.

(** ** Definitions: [SM_TwoThres] (SM_TwoThres.cc, not part of the build) *)
Module SM_TwoThres.
Definition MSG_POWEROFF : Z := 1.
Definition MSG_POWERON : Z := 2.
Inductive SMT_State := STATE_POWEROFF | STATE_POWERON.

Record SMT := mkSMT { smt_state : SMT_State; smt_thres_1_to_off : double; smt_thres_off_to_1 : double }.

Definition SMT_goto (s : SMT) (st : SMT_State) : SMT :=
  mkSMT st (smt_thres_1_to_off s) (smt_thres_off_to_1 s).

Definition SMT_init (s : SMT) : SMT * list EnergyMsg := (SMT_goto s STATE_POWEROFF, [sm_msg MSG_POWEROFF]).

Definition SMT_update (s : SMT) (energy : double) : SMT * list EnergyMsg :=
  match smt_state s with
  | STATE_POWEROFF =>
      if dge energy (smt_thres_off_to_1 s) then (SMT_goto s STATE_POWERON, [sm_msg MSG_POWERON]) else (s, [])
  | STATE_POWERON =>
      if dle energy (smt_thres_1_to_off s) then (SMT_goto s STATE_POWERON, [sm_msg MSG_POWERON]) else (s, [])
  end.
End SM_TwoThres.

(** ** Definitions: [SM_Retention] (SM_Retention.cc) *)
Module SM_Retention.
Definition POWER_OFF : Z := 1.
Definition POWER_RET : Z := 2.
Definition POWER_ON : Z := 3.
Inductive Ret_State := STATE_POWER_OFF | STATE_POWER_RETENTION | STATE_POWER_ON.

Record Ret := mkRet {
  re_state : Ret_State;
  re_thres_ret_to_off : double;
  re_thres_1_to_ret : double;
  re_thres_ret_to_1 : double;
  re_outage_times : Z;
}.

Definition new_Ret (ret_to_off one_to_ret ret_to_1 : double) : Ret :=
  mkRet STATE_POWER_OFF ret_to_off one_to_ret ret_to_1 0.
Definition Ret_goto (s : Ret) (st : Ret_State) (n : Z) : Ret :=
  mkRet st (re_thres_ret_to_off s) (re_thres_1_to_ret s) (re_thres_ret_to_1 s) n.

Definition Ret_init (s : Ret) : Ret * list EnergyMsg :=
  (Ret_goto s STATE_POWER_OFF (re_outage_times s), [sm_msg POWER_OFF]).

Definition is_ON (st : Ret_State) : bool := match st with STATE_POWER_ON => true | _ => false end.
Definition is_RET (st : Ret_State) : bool := match st with STATE_POWER_RETENTION => true | _ => false end.
Definition is_OFF (st : Ret_State) : bool := match st with STATE_POWER_OFF => true | _ => false end.

Definition Ret_update (s : Ret) (energy : double) : Ret * list EnergyMsg :=
  let st := re_state s in
  if (is_ON st || is_RET st) && dle energy (re_thres_ret_to_off s) then
    (Ret_goto s STATE_POWER_OFF (swrap 32 (re_outage_times s + 1)), [sm_msg POWER_OFF])
  else if is_ON st && dle energy (re_thres_1_to_ret s) then
    (Ret_goto s STATE_POWER_RETENTION (re_outage_times s), [sm_msg POWER_RET])
  else if (is_OFF st || is_RET st) && dge energy (re_thres_ret_to_1 s) then
    (Ret_goto s STATE_POWER_ON (re_outage_times s), [sm_msg POWER_ON])
  else (s, []).
End SM_Retention.

(** ** Definitions: [DVFSSM] (DVFS.cc) *)
Module DVFSSM.
Definition POWEROFF : Z := 1.
Definition DVFS_LOW : Z := 2.
Definition DVFS_MIDDLE : Z := 3.
Definition DVFS_HIGH : Z := 4.
Inductive DVFS_State := STATE_INIT | STATE_OFF | STATE_LVL_LOW | STATE_LVL_MIDDLE | STATE_LVL_HIGH.

#[export] Instance DVFS_State_eq_dec : EqDecision DVFS_State.
Proof. solve_decision. Defined.

Record DVFS := mkDVFS {
  dv_state : DVFS_State;
  dv_thres_off_low : double;
  dv_thres_low_mid : double;
  dv_thres_mid_high : double;
}.

Definition new_DVFS (off_low low_mid mid_high : double) : DVFS := mkDVFS STATE_INIT off_low low_mid mid_high.
Definition DVFS_goto (s : DVFS) (st : DVFS_State) : DVFS :=
  mkDVFS st (dv_thres_off_low s) (dv_thres_low_mid s) (dv_thres_mid_high s).

Definition DVFS_init (s : DVFS) : DVFS * list EnergyMsg := (DVFS_goto s STATE_OFF, [sm_msg POWEROFF]).

Definition DVFS_update (s : DVFS) (energy : double) : DVFS * list EnergyMsg :=
  let st := dv_state s in
  if bool_decide (st = STATE_INIT) then (DVFS_goto s STATE_OFF, [])
  else if bool_decide (st <> STATE_OFF) && dlt energy (dv_thres_off_low s) then
    (DVFS_goto s STATE_OFF, [sm_msg POWEROFF])
  else if bool_decide (st <> STATE_LVL_LOW) && dgt energy (dv_thres_off_low s) && dlt energy (dv_thres_low_mid s) then
    (DVFS_goto s STATE_LVL_LOW, [sm_msg DVFS_LOW])
  else if bool_decide (st <> STATE_LVL_MIDDLE) && dgt energy (dv_thres_low_mid s) && dlt energy (dv_thres_mid_high s) then
    (DVFS_goto s STATE_LVL_MIDDLE, [sm_msg DVFS_MIDDLE])
  else if bool_decide (st <> STATE_LVL_HIGH) && dgt energy (dv_thres_mid_high s) then
    (DVFS_goto s STATE_LVL_HIGH, [sm_msg DVFS_HIGH])
  else (s, []).
End DVFSSM.

(** ** Definitions: [DFS_LRY] (DFS_LRY.cc)

    The global [DFS_LRY_poweron_dirty_patch], which the energy manager reads, is
    passed in and out. *)
Module DFS_LRY.
Definition POWEROFF : Z := 1.
Definition POWERON : Z := 2.
Definition FREQ1to2 : Z := 3.
Definition FREQ2to3 : Z := 4.
Definition FREQ3to4 : Z := 5.
Definition FREQ4to5 : Z := 6.
Definition FREQ5to4 : Z := 7.
Definition FREQ4to3 : Z := 8.
Definition FREQ3to2 : Z := 9.
Definition FREQ2to1 : Z := 10.
Definition RETENTION_BEG : Z := 11.
Definition RETENTION_END : Z := 12.
Inductive LRY_State := STATE_INIT | STATE_POWEROFF | STATE_RETENTION
  | STATE_FREQ1 | STATE_FREQ2 | STATE_FREQ3 | STATE_FREQ4 | STATE_FREQ5.

#[export] Instance LRY_State_eq_dec : EqDecision LRY_State.
Proof. solve_decision. Defined.

Record LRY_Thres := mkThres {
  thres_5_to_4 : double; thres_4_to_3 : double; thres_3_to_2 : double; thres_2_to_1 : double;
  thres_1_to_retention : double; thres_retention_to_off : double;
  thres_off_to_1 : double; thres_retention_to_1 : double;
  thres_1_to_2 : double; thres_2_to_3 : double; thres_3_to_4 : double; thres_4_to_5 : double;
}.

Record LRY := mkLRY { lr_state : LRY_State; lr_thres : LRY_Thres }.

Definition new_LRY (t : LRY_Thres) : LRY := mkLRY STATE_INIT t.

(** [energy_consume_lower_bound = thres_1_to_retention - 1]. *)
Definition LRY_lower_bound (s : LRY) : double := dsub (thres_1_to_retention (lr_thres s)) (of_Z 1).

Definition LRY_init (s : LRY) : LRY * list EnergyMsg :=
  (mkLRY STATE_POWEROFF (lr_thres s), [sm_msg POWEROFF]).

Definition LRY_update (s : LRY) (patch : bool) (energy : double) : LRY * bool * list EnergyMsg :=
  let t := lr_thres s in
  let at_ st := bool_decide (lr_state s = st) in
  let goto st m := (mkLRY st t, patch, [sm_msg m]) in
  if at_ STATE_INIT then (mkLRY STATE_POWEROFF t, patch, [])
  else if at_ STATE_FREQ5 && dle energy (thres_5_to_4 t) then goto STATE_FREQ4 FREQ5to4
  else if at_ STATE_FREQ4 && dle energy (thres_4_to_3 t) then goto STATE_FREQ3 FREQ4to3
  else if at_ STATE_FREQ3 && dle energy (thres_3_to_2 t) then goto STATE_FREQ2 FREQ3to2
  else if at_ STATE_FREQ2 && dle energy (thres_2_to_1 t) then goto STATE_FREQ1 FREQ2to1
  else if at_ STATE_FREQ4 && dgt energy (thres_4_to_5 t) then goto STATE_FREQ5 FREQ4to5
  else if at_ STATE_FREQ3 && dgt energy (thres_3_to_4 t) then goto STATE_FREQ4 FREQ3to4
  else if at_ STATE_FREQ2 && dgt energy (thres_2_to_3 t) then goto STATE_FREQ3 FREQ2to3
  else if at_ STATE_FREQ1 && dgt energy (thres_1_to_2 t) then goto STATE_FREQ2 FREQ1to2
  else if at_ STATE_FREQ1 && dle energy (thres_1_to_retention t) then goto STATE_RETENTION RETENTION_BEG
  else if at_ STATE_RETENTION && dgt energy (thres_retention_to_1 t) then goto STATE_FREQ1 RETENTION_END
  else if at_ STATE_POWEROFF && dgt energy (thres_off_to_1 t) then
    (mkLRY STATE_FREQ1 t, true, [sm_msg POWERON])
  else if at_ STATE_RETENTION && dle energy (thres_retention_to_off t) then
    (mkLRY STATE_POWEROFF t, false, [sm_msg POWEROFF])
  else (s, patch, []).
End DFS_LRY.

Import SimpleEnergySM TwoThresSM SM_Retention DVFSSM DFS_LRY.

(** ** Definitions: any machine

    [BaseEnergySM] and the subclasses of the build, with the virtual methods
    [init] and [update] and the field [energy_consume_lower_bound]. *)
Inductive BaseEnergySM :=
  | SM_base
  | SM_simple (s : Simple)
  | SM_two (s : Two)
  | SM_ret (s : Ret)
  | SM_dvfs (s : DVFS)
  | SM_lry (s : LRY).

Definition energy_consume_lower_bound (sm : BaseEnergySM) : double :=
  match sm with
  | SM_simple s => si_thres_1_to_off s
  | SM_ret s => re_thres_ret_to_off s
  | SM_lry s => LRY_lower_bound s
  | SM_base | SM_two _ | SM_dvfs _ => dzero
  end.

Definition sm_init (sm : BaseEnergySM) : BaseEnergySM * list EnergyMsg :=
  match sm with
  | SM_base => (sm, [])
  | SM_simple s => let '(s, l) := Simple_init s in (SM_simple s, l)
  | SM_two s => let '(s, l) := Two_init s in (SM_two s, l)
  | SM_ret s => let '(s, l) := Ret_init s in (SM_ret s, l)
  | SM_dvfs s => let '(s, l) := DVFS_init s in (SM_dvfs s, l)
  | SM_lry s => let '(s, l) := LRY_init s in (SM_lry s, l)
  end.

Definition sm_update (sm : BaseEnergySM) (patch : bool) (energy : double)
    : BaseEnergySM * bool * list EnergyMsg :=
  match sm with
  | SM_base => (sm, patch, [])
  | SM_simple s => let '(s, l) := Simple_update s energy in (SM_simple s, patch, l)
  | SM_two s => let '(s, l) := Two_update s energy in (SM_two s, patch, l)
  | SM_ret s => let '(s, l) := Ret_update s energy in (SM_ret s, patch, l)
  | SM_dvfs s => let '(s, l) := DVFS_update s energy in (SM_dvfs s, patch, l)
  | SM_lry s => let '(s, patch, l) := LRY_update s patch energy in (SM_lry s, patch, l)
  end.

(** A machine follows a sequence of energy values; the messages, in order. *)
Fixpoint sm_run (sm : BaseEnergySM) (patch : bool) (es : list double)
    : BaseEnergySM * bool * list EnergyMsg :=
  match es with
  | [] => (sm, patch, [])
  | e :: es =>
      let '(sm, patch, l) := sm_update sm patch e in
      let '(sm, patch, l') := sm_run sm patch es in
      (sm, patch, l ++ l')
  end.

(** ** What a machine tells its listeners *)

(** The number of the state, as in the enumerations of the headers. *)
Definition sm_state_code (sm : BaseEnergySM) : Z :=
  match sm with
  | SM_base => 0
  | SM_simple s => match si_state s with SimpleEnergySM.STATE_POWER_OFF => 0 | SimpleEnergySM.STATE_POWER_ON => 1 end
  | SM_two s => match tw_state s with
      | TwoThresSM.STATE_INIT => 0 | TwoThresSM.STATE_POWEROFF => 1 | TwoThresSM.STATE_POWERON => 2 end
  | SM_ret s => match re_state s with
      | SM_Retention.STATE_POWER_OFF => 0 | STATE_POWER_RETENTION => 1 | SM_Retention.STATE_POWER_ON => 2 end
  | SM_dvfs s => match dv_state s with
      | DVFSSM.STATE_INIT => 0 | STATE_OFF => 1 | STATE_LVL_LOW => 2 | STATE_LVL_MIDDLE => 3 | STATE_LVL_HIGH => 4 end
  | SM_lry s => match lr_state s with
      | DFS_LRY.STATE_INIT => 0 | DFS_LRY.STATE_POWEROFF => 1 | STATE_RETENTION => 2
      | STATE_FREQ1 => 3 | STATE_FREQ2 => 4 | STATE_FREQ3 => 5 | STATE_FREQ4 => 6 | STATE_FREQ5 => 7 end
  end.

Definition sm_initialised (sm : BaseEnergySM) : bool :=
  match sm with
  | SM_two _ | SM_dvfs _ | SM_lry _ => negb (sm_state_code sm =? 0)
  | _ => true
  end.

(** The state a message of the machine announces. *)
Definition announces (sm : BaseEnergySM) (t : Z) : Z :=
  match sm with
  | SM_simple _ | SM_ret _ => t - 1
  | SM_lry _ =>
      if t =? DFS_LRY.POWEROFF then 1 else if t =? DFS_LRY.POWERON then 3
      else if t =? FREQ1to2 then 4 else if t =? FREQ2to3 then 5 else if t =? FREQ3to4 then 6
      else if t =? FREQ4to5 then 7 else if t =? FREQ5to4 then 6 else if t =? FREQ4to3 then 5
      else if t =? FREQ3to2 then 4 else if t =? FREQ2to1 then 3
      else if t =? RETENTION_BEG then 2 else 3
  | _ => t
  end.

Definition reported (sm sm' : BaseEnergySM) (patch patch' : bool) (l : list EnergyMsg) : Prop :=
  (l = [] /\ sm' = sm /\ patch' = patch) \/
  (exists t, l = [sm_msg t] /\ t <> CONSUME_ENERGY /\
   sm_state_code sm' <> sm_state_code sm /\ announces sm t = sm_state_code sm').

(** Every branch of an update is silent or sends one message. *)
Ltac sm_branches :=
  repeat (case_match; simplify_eq/=);
  solve [by left | right; eexists; repeat split; done].

Lemma Simple_reported s patch e :
  let '(s', l) := Simple_update s e in reported (SM_simple s) (SM_simple s') patch patch l.
Proof. unfold Simple_update, reported. destruct s as [[] ? ? ?]; sm_branches. Qed.

Lemma Two_reported s patch e :
  sm_initialised (SM_two s) = true ->
  let '(s', l) := Two_update s e in reported (SM_two s) (SM_two s') patch patch l.
Proof. unfold Two_update, reported. intros Hi. destruct s as [[] ? ?]; [done|sm_branches..]. Qed.

Lemma Ret_reported s patch e :
  let '(s', l) := Ret_update s e in reported (SM_ret s) (SM_ret s') patch patch l.
Proof. unfold Ret_update, reported. destruct s as [[] ? ? ? ?]; cbn; sm_branches. Qed.

Lemma DVFS_reported s patch e :
  sm_initialised (SM_dvfs s) = true ->
  let '(s', l) := DVFS_update s e in reported (SM_dvfs s) (SM_dvfs s') patch patch l.
Proof. unfold DVFS_update, reported. intros Hi. destruct s as [[] ? ? ?]; [done|cbn; sm_branches..]. Qed.

Lemma LRY_reported s patch e :
  sm_initialised (SM_lry s) = true ->
  let '(s', patch', l) := LRY_update s patch e in reported (SM_lry s) (SM_lry s') patch patch' l.
Proof. unfold LRY_update, reported. intros Hi. destruct s as [[] ?]; [done|cbn; sm_branches..]. Qed.

Lemma sm_update_reported sm patch e :
  sm_initialised sm = true ->
  let '(sm', patch', l) := sm_update sm patch e in reported sm sm' patch patch' l.
Proof.
  intros Hi. destruct sm as [|s|s|s|s|s]; cbn [sm_update].
  - by left.
  - pose proof (Simple_reported s patch e). by destruct (Simple_update s e).
  - pose proof (Two_reported s patch e Hi). by destruct (Two_update s e).
  - pose proof (Ret_reported s patch e). by destruct (Ret_update s e).
  - pose proof (DVFS_reported s patch e Hi). by destruct (DVFS_update s e).
  - pose proof (LRY_reported s patch e Hi). by destruct (LRY_update s patch e) as [[? ?] ?].
Qed.

Lemma sm_update_initialised sm patch e sm' patch' l :
  sm_update sm patch e = (sm', patch', l) -> sm_initialised sm = true -> sm_initialised sm' = true.
Proof.
  intros H. destruct sm as [|s|s|s|s|s]; cbn in H.
  - by simplify_eq.
  - by destruct (Simple_update s e); simplify_eq.
  - destruct s as [[] ? ?]; unfold Two_update in H; repeat (case_match; simplify_eq/=); done.
  - by destruct (Ret_update s e); simplify_eq.
  - destruct s as [[] ? ? ?]; unfold DVFS_update in H; cbn in H; repeat (case_match; simplify_eq/=); done.
  - destruct s as [[] ?]; unfold LRY_update in H; cbn in H; repeat (case_match; simplify_eq/=); done.
Qed.

(** ** The simple machine *)

(** Messages alternate, starting with a power-on if the machine is off. *)
Fixpoint alternating (on : bool) (l : list EnergyMsg) : Prop :=
  match l with
  | [] => True
  | m :: l => msg_type m = (if on then SimpleEnergySM.POWER_OFF else SimpleEnergySM.POWER_ON) /\
              alternating (negb on) l
  end.

Definition si_on (s : Simple) : bool :=
  match si_state s with SimpleEnergySM.STATE_POWER_ON => true | _ => false end.

(** How many messages announce an outage. *)
Definition outages (l : list EnergyMsg) : Z :=
  Z.of_nat (length (filter (fun m => msg_type m = SimpleEnergySM.POWER_OFF) l)).

Lemma swrap_add n x y : swrap n (swrap n x + y) = swrap n (x + y).
Proof.
  unfold swrap. f_equal.
  replace (_ - 2 ^ (n - 1) + y + 2 ^ (n - 1)) with ((x + 2 ^ (n - 1)) mod 2 ^ n + y) by lia.
  rewrite Zplus_mod_idemp_l. f_equal. lia.
Qed.

Lemma simple_run_alternates es s patch :
  exists s' l, sm_run (SM_simple s) patch es = (SM_simple s', patch, l) /\
  alternating (si_on s) l /\
  si_thres_1_to_off s' = si_thres_1_to_off s /\ si_thres_off_to_1 s' = si_thres_off_to_1 s /\
  swrap 32 (si_outage_times s') = swrap 32 (si_outage_times s + outages l).
Proof.
  revert s. induction es as [|e es IH]; intros s; cbn [sm_run].
  { exists s, []. split_and!; try done. cbn. by rewrite Z.add_0_r. }
  cbn [sm_update]. unfold Simple_update. destruct s as [[] t1 t2 n]; cbn [si_state si_thres_1_to_off si_thres_off_to_1 si_outage_times].
  - destruct (dge e t2).
    + destruct (IH (mkSimple SimpleEnergySM.STATE_POWER_ON t1 t2 n)) as (s' & l & -> & Ha & H1 & H2 & Hn).
      exists s', (sm_msg SimpleEnergySM.POWER_ON :: l). split_and!; try done.
    + destruct (IH (mkSimple SimpleEnergySM.STATE_POWER_OFF t1 t2 n)) as (s' & l & -> & ?). exists s', l. done.
  - destruct (dle e t1).
    + destruct (IH (mkSimple SimpleEnergySM.STATE_POWER_OFF t1 t2 (swrap 32 (n + 1)))) as (s' & l & -> & Ha & H1 & H2 & Hn).
      exists s', (sm_msg SimpleEnergySM.POWER_OFF :: l). split_and!; try done.
      cbn in Hn |- *. rewrite Hn, swrap_add. f_equal. unfold outages.
      rewrite filter_cons_True by done. cbn [length]. lia.
    + destruct (IH (mkSimple SimpleEnergySM.STATE_POWER_ON t1 t2 n)) as (s' & l & -> & ?). exists s', l. done.
Qed.

(** ** The frequency machine settles *)

(** The outcome of the twelve comparisons of [DFS_LRY::update]. *)
Record lry_conds := mkConds {
  c54 : bool; c43 : bool; c32 : bool; c21 : bool; c1r : bool; cro : bool;
  co1 : bool; cr1 : bool; c12 : bool; c23 : bool; c34 : bool; c45 : bool;
}.

Definition conds (t : LRY_Thres) (e : double) : lry_conds :=
  mkConds (dle e (thres_5_to_4 t)) (dle e (thres_4_to_3 t)) (dle e (thres_3_to_2 t)) (dle e (thres_2_to_1 t))
    (dle e (thres_1_to_retention t)) (dle e (thres_retention_to_off t)) (dgt e (thres_off_to_1 t))
    (dgt e (thres_retention_to_1 t)) (dgt e (thres_1_to_2 t)) (dgt e (thres_2_to_3 t))
    (dgt e (thres_3_to_4 t)) (dgt e (thres_4_to_5 t)).

Definition lry_next (c : lry_conds) (st : LRY_State) : LRY_State :=
  match st with
  | DFS_LRY.STATE_INIT => DFS_LRY.STATE_POWEROFF
  | STATE_FREQ5 => if c54 c then STATE_FREQ4 else st
  | STATE_FREQ4 => if c43 c then STATE_FREQ3 else if c45 c then STATE_FREQ5 else st
  | STATE_FREQ3 => if c32 c then STATE_FREQ2 else if c34 c then STATE_FREQ4 else st
  | STATE_FREQ2 => if c21 c then STATE_FREQ1 else if c23 c then STATE_FREQ3 else st
  | STATE_FREQ1 => if c12 c then STATE_FREQ2 else if c1r c then STATE_RETENTION else st
  | STATE_RETENTION => if cr1 c then STATE_FREQ1 else if cro c then DFS_LRY.STATE_POWEROFF else st
  | DFS_LRY.STATE_POWEROFF => if co1 c then STATE_FREQ1 else st
  end.

Lemma LRY_update_next s patch e :
  lr_state (LRY_update s patch e).1.1 = lry_next (conds (lr_thres s) e) (lr_state s) /\
  lr_thres (LRY_update s patch e).1.1 = lr_thres s.
Proof. destruct s as [[] t]; unfold LRY_update, conds, lry_next; cbn; repeat case_match; done. Qed.

(** No level is left upwards and entered again downwards by the same energy. *)
Definition no_reversal (c : lry_conds) : bool :=
  negb (c54 c && c45 c) && negb (c43 c && c34 c) && negb (c32 c && c23 c) &&
  negb (c21 c && c12 c) && negb (c1r c && cr1 c) && negb (cro c && co1 c).

Definition lry_states : list LRY_State :=
  [DFS_LRY.STATE_INIT; DFS_LRY.STATE_POWEROFF; STATE_RETENTION;
   STATE_FREQ1; STATE_FREQ2; STATE_FREQ3; STATE_FREQ4; STATE_FREQ5].

Definition settles (c : lry_conds) : bool :=
  forallb (fun st => let st := Nat.iter 6 (lry_next c) st in bool_decide (lry_next c st = st)) lry_states.

Definition both (P : bool -> bool) : bool := P true && P false.

Lemma both_spec P : both P = true -> forall b, P b = true.
Proof. intros [? ?]%andb_true_iff []; done. Qed.

Lemma all_settle c : no_reversal c = true -> settles c = true.
Proof.
  assert (both (fun b1 => both (fun b2 => both (fun b3 => both (fun b4 => both (fun b5 => both (fun b6 =>
          both (fun b7 => both (fun b8 => both (fun b9 => both (fun b10 => both (fun b11 => both (fun b12 =>
          let c := mkConds b1 b2 b3 b4 b5 b6 b7 b8 b9 b10 b11 b12 in
          implb (no_reversal c) (settles c))))))))))))) = true) as H by (vm_compute; reflexivity).
  destruct c as [b1 b2 b3 b4 b5 b6 b7 b8 b9 b10 b11 b12].
  do 12 (eapply both_spec in H). cbn zeta in H. intros Hn.
  match type of H with implb ?a ?b = true => destruct a eqn:Ha; [exact H|] end.
  rewrite Hn in Ha. discriminate.
Qed.

(** Going up needs more energy than going down. *)
Definition lry_ordered (t : LRY_Thres) : bool :=
  dle (thres_5_to_4 t) (thres_4_to_5 t) && dle (thres_4_to_3 t) (thres_3_to_4 t) &&
  dle (thres_3_to_2 t) (thres_2_to_3 t) && dle (thres_2_to_1 t) (thres_1_to_2 t) &&
  dle (thres_1_to_retention t) (thres_retention_to_1 t) &&
  dle (thres_retention_to_off t) (thres_off_to_1 t).

Lemma no_both e a b : dle a b = true -> dle e a && dgt e b = false.
Proof.
  intros Hab. apply not_true_iff_false. intros [H1 H2]%andb_true_iff.
  change (dlt b e = true) in H2. dorder.
Qed.

Lemma ordered_no_reversal t e : lry_ordered t = true -> no_reversal (conds t e) = true.
Proof.
  unfold lry_ordered, no_reversal, conds. rewrite !andb_true_iff. intros [[[[[H1 H2] H3] H4] H5] H6].
  cbn [c54 c43 c32 c21 c1r cro co1 cr1 c12 c23 c34 c45]. by rewrite !no_both.
Qed.

Fixpoint lry_repeat (n : nat) (s : LRY) (patch : bool) (e : double) : LRY * bool :=
  match n with
  | O => (s, patch)
  | S n => let '(s, patch, _) := LRY_update s patch e in lry_repeat n s patch e
  end.

Lemma lry_repeat_next n s patch e :
  lr_state (lry_repeat n s patch e).1 = Nat.iter n (lry_next (conds (lr_thres s) e)) (lr_state s) /\
  lr_thres (lry_repeat n s patch e).1 = lr_thres s.
Proof.
  revert s patch. induction n as [|n IH]; intros s patch; [done|]. cbn [lry_repeat].
  destruct (LRY_update_next s patch e) as [H1 H2].
  destruct (LRY_update s patch e) as [[s' patch'] l]. cbn [fst] in H1, H2.
  destruct (IH s' patch') as [IH1 IH2]. rewrite Nat.iter_succ_r, <- H1, <- H2. split; [exact IH1|congruence].
Qed.

Lemma lry_states_all st : In st lry_states.
Proof. destruct st; cbn; tauto. Qed.

Lemma LRY_same_silent s patch e :
  lry_next (conds (lr_thres s) e) (lr_state s) = lr_state s -> LRY_update s patch e = (s, patch, []).
Proof.
  destruct s as [[] t]; unfold LRY_update, conds; cbn; intros H; repeat (case_match; simplify_eq/=); done.
Qed.

(** The leakage flag is set exactly while the machine is not off. *)
Definition lry_powered (s : LRY) : bool :=
  match lr_state s with DFS_LRY.STATE_INIT | DFS_LRY.STATE_POWEROFF => false | _ => true end.

Lemma LRY_update_patch s patch e s' patch' l :
  patch = lry_powered s -> LRY_update s patch e = (s', patch', l) -> patch' = lry_powered s'.
Proof.
  intros -> H. destruct s as [[] t]; unfold LRY_update in H; cbn in H; repeat (case_match; simplify_eq/=); done.
Qed.

Lemma lry_run_patch es s patch :
  patch = lry_powered s ->
  exists s' patch' l, sm_run (SM_lry s) patch es = (SM_lry s', patch', l) /\ patch' = lry_powered s'.
Proof.
  revert s patch. induction es as [|e es IH]; intros s patch Hp; cbn [sm_run]; [eauto 10|].
  cbn [sm_update]. destruct (LRY_update s patch e) as [[s1 patch1] l1] eqn:H1.
  destruct (IH s1 patch1) as (s' & patch' & l & -> & Hp'); [by eapply LRY_update_patch|]. eauto 10.
Qed.

(** ** Properties *)

(** Every energy state machine of the build tells its listeners exactly
    its state changes: an update either is silent and changes nothing, or sends
    one message, the state has changed, and the type of the message determines
    the new state. *)
Theorem sm_reports_changes sm patch e :
  sm_initialised sm = true ->
  let '(sm', patch', l) := sm_update sm patch e in
  sm_initialised sm' = true /\ reported sm sm' patch patch' l.
Proof.
  intros Hi. pose proof (sm_update_reported sm patch e Hi) as Hr.
  destruct (sm_update sm patch e) as [[sm' patch'] l] eqn:H. split; [|exact Hr].
  by eapply sm_update_initialised.
Qed.

Lemma sm_reports_changes_witness :
  reported (SM_simple (mkSimple SimpleEnergySM.STATE_POWER_ON (of_Z 5) (of_Z 20) 0))
    (SM_simple (mkSimple SimpleEnergySM.STATE_POWER_OFF (of_Z 5) (of_Z 20) 1)) false false
    [sm_msg SimpleEnergySM.POWER_OFF].
Proof.
  exact (proj2 (sm_reports_changes (SM_simple (mkSimple SimpleEnergySM.STATE_POWER_ON (of_Z 5) (of_Z 20) 0))
    false (of_Z 3) eq_refl)).
Defined.

(** The simple machine is a hysteresis comparator.  When its thresholds
    are ordered, after an update with energy [e] it is on only if [e] exceeds the
    switch-off threshold and off only if [e] is below the switch-on threshold,
    and a second update with the same energy is silent: it does not chatter. *)
Theorem simple_hysteresis s e :
  dlt (si_thres_1_to_off s) (si_thres_off_to_1 s) = true ->
  let '(s', l) := Simple_update s e in
  (si_on s' = true -> dle e (si_thres_1_to_off s) = false) /\
  (si_on s' = false -> dge e (si_thres_off_to_1 s) = false) /\
  Simple_update s' e = (s', []).
Proof.
  intros Ht. assert (dge e (si_thres_off_to_1 s) && dle e (si_thres_1_to_off s) = false) as Hx.
  { apply not_true_iff_false. intros [H1 H2]%andb_true_iff. change (dle (si_thres_off_to_1 s) e = true) in H1. dorder. }
  unfold Simple_update, si_on. destruct s as [[] t1 t2 n]; cbn in *.
  - destruct (dge e t2) eqn:He; cbn in *; rewrite ?Hx, ?He; done.
  - destruct (dle e t1) eqn:He; cbn in *; rewrite andb_comm in Hx; cbn in Hx; rewrite ?Hx, ?He; done.
Qed.

Lemma simple_hysteresis_witness :
  let '(s', l) := Simple_update (new_Simple (of_Z 5) (of_Z 20)) (of_Z 20) in
  si_on s' = true /\ dle (of_Z 20) (of_Z 5) = false /\ Simple_update s' (of_Z 20) = (s', []).
Proof.
  pose proof (simple_hysteresis (new_Simple (of_Z 5) (of_Z 20)) (of_Z 20) eq_refl) as (H1 & _ & H3).
  split; [reflexivity|]. split; [exact (H1 eq_refl)|exact H3].
Defined.

(** From power-up on, the messages of the simple machine alternate between
    power-on and power-off, whatever the energy does, and [outage_times] counts
    the power-offs (modulo the width of [int]). *)
Theorem simple_alternates es t_off t_on patch :
  exists s' l, sm_run (SM_simple (new_Simple t_off t_on)) patch es = (SM_simple s', patch, l) /\
  alternating false l /\ swrap 32 (si_outage_times s') = swrap 32 (outages l).
Proof.
  destruct (simple_run_alternates es (new_Simple t_off t_on) patch) as (s' & l & -> & Ha & _ & _ & Hn).
  eauto 10.
Qed.

(** C39: When each level is left downwards at no more energy than it is entered
    upwards, the frequency machine settles under constant energy: after at most
    six updates, from any state, further updates are silent. *)
Theorem lry_settles s patch e :
  lry_ordered (lr_thres s) = true ->
  let '(s', patch') := lry_repeat 6 s patch e in LRY_update s' patch' e = (s', patch', []).
Proof.
  intros Ho. destruct (lry_repeat_next 6 s patch e) as [H1 H2].
  destruct (lry_repeat 6 s patch e) as [s' patch']. cbn [fst] in H1, H2. apply LRY_same_silent.
  rewrite H1, H2. pose proof (all_settle _ (ordered_no_reversal _ e Ho)) as Hs.
  unfold settles in Hs. rewrite forallb_forall in Hs. specialize (Hs _ (lry_states_all (lr_state s))).
  cbn zeta in Hs. by apply bool_decide_eq_true in Hs.
Qed.

(** Thresholds of the kind the example configurations use. *)
Definition demo_thres : LRY_Thres :=
  mkThres (of_Z 90) (of_Z 70) (of_Z 50) (of_Z 30) (of_Z 15) (of_Z 8)
    (of_Z 25) (of_Z 25) (of_Z 40) (of_Z 60) (of_Z 80) (of_Z 100).

Lemma lry_settles_witness :
  let '(s', patch') := lry_repeat 6 (mkLRY DFS_LRY.STATE_POWEROFF demo_thres) false (of_Z 120) in
  LRY_update s' patch' (of_Z 120) = (s', patch', []) /\ lr_state s' = STATE_FREQ5.
Proof.
  split; [exact (lry_settles (mkLRY DFS_LRY.STATE_POWEROFF demo_thres) false (of_Z 120) eq_refl)|reflexivity].
Defined.

(** The global flag that makes the energy manager charge leakage is set
    exactly while the frequency machine is powered, throughout every run. *)
Theorem lry_patch_tracks_power es t :
  exists s' patch' l, sm_run (SM_lry (new_LRY t)) false es = (SM_lry s', patch', l) /\
  patch' = lry_powered s'.
Proof. by apply lry_run_patch. Qed.

Definition re_on (s : Ret) : bool := SM_Retention.is_ON (re_state s).
Definition re_off (s : Ret) : bool := SM_Retention.is_OFF (re_state s).

(** The retention machine keeps its three bands apart.  With thresholds in
    order, after an update with energy [e] it is off if [e] is at or below the
    off threshold, on if [e] reaches the on threshold, and not on if [e] is at or
    below the retention threshold. *)
Theorem retention_bands s e :
  dlt (re_thres_1_to_ret s) (re_thres_ret_to_1 s) = true ->
  dle (re_thres_ret_to_off s) (re_thres_1_to_ret s) = true ->
  let '(s', l) := Ret_update s e in
  (dle e (re_thres_ret_to_off s) = true -> re_off s' = true) /\
  (dge e (re_thres_ret_to_1 s) = true -> re_on s' = true) /\
  (dle e (re_thres_1_to_ret s) = true -> re_on s' = false).
Proof.
  intros H1 H2.
  assert (forall a b, dlt a b = true -> dge e b && dle e a = false) as Hx.
  { intros a b Hab. apply not_true_iff_false. intros [H3 H4]%andb_true_iff. change (dle b e = true) in H3. dorder. }
  assert (dlt (re_thres_ret_to_off s) (re_thres_ret_to_1 s) = true) as H3 by dorder.
  pose proof (Hx _ _ H1) as Hx1. pose proof (Hx _ _ H3) as Hx3.
  assert (dle e (re_thres_ret_to_off s) = true -> dle e (re_thres_1_to_ret s) = true) as Hx2.
  { intros. eapply dle_trans; eassumption. }
  unfold Ret_update, re_on, re_off. destruct s as [[] t1 t2 t3 n]; cbn in *;
    destruct (dle e t1), (dge e t3), (dle e t2); cbn in *; repeat split; intros; try done; naive_solver.
Qed.

Lemma retention_bands_witness :
  re_off (Ret_update (mkRet STATE_POWER_RETENTION (of_Z 5) (of_Z 10) (of_Z 20) 0) (of_Z 4)).1 = true.
Proof.
  exact (proj1 (retention_bands (mkRet STATE_POWER_RETENTION (of_Z 5) (of_Z 10) (of_Z 20) 0) (of_Z 4)
    eq_refl eq_refl) eq_refl).
Defined.

(** One update brings the voltage machine to the level of the energy: to
    off below the first threshold and to the band the energy lies strictly
    inside of otherwise.  Exactly at a threshold no branch applies and the
    machine keeps its level. *)
Theorem dvfs_tracks_band s e :
  dv_state s <> DVFSSM.STATE_INIT ->
  dlt (dv_thres_off_low s) (dv_thres_low_mid s) = true ->
  dlt (dv_thres_low_mid s) (dv_thres_mid_high s) = true ->
  let st := dv_state (DVFS_update s e).1 in
  (dlt e (dv_thres_off_low s) = true -> st = STATE_OFF) /\
  (dlt (dv_thres_off_low s) e = true -> dlt e (dv_thres_low_mid s) = true -> st = STATE_LVL_LOW) /\
  (dlt (dv_thres_low_mid s) e = true -> dlt e (dv_thres_mid_high s) = true -> st = STATE_LVL_MIDDLE) /\
  (dlt (dv_thres_mid_high s) e = true -> st = STATE_LVL_HIGH) /\
  (e = dv_thres_off_low s \/ e = dv_thres_low_mid s \/ e = dv_thres_mid_high s -> st = dv_state s).
Proof.
  destruct s as [st t1 t2 t3]. cbn [dv_state dv_thres_off_low dv_thres_low_mid dv_thres_mid_high].
  intros Hi H1 H2. unfold DVFS_update, dgt.
  cbn [dv_state dv_thres_off_low dv_thres_low_mid dv_thres_mid_high].
  change (SFltb t1 e) with (dlt t1 e). change (SFltb t2 e) with (dlt t2 e). change (SFltb t3 e) with (dlt t3 e).
  split_and!; intros He.
  - assert (dlt t1 e = false) as -> by dorder. assert (dlt t2 e = false) as -> by dorder.
    assert (dlt t3 e = false) as -> by dorder. rewrite He. by destruct st.
  - intros He'. assert (dlt e t1 = false) as -> by dorder. assert (dlt t2 e = false) as -> by dorder.
    assert (dlt t3 e = false) as -> by dorder. rewrite He, He'. by destruct st.
  - intros He'. assert (dlt e t1 = false) as -> by dorder. assert (dlt e t2 = false) as -> by dorder.
    assert (dlt t3 e = false) as -> by dorder. rewrite He, He', !andb_false_r. by destruct st.
  - assert (dlt e t1 = false) as -> by dorder. assert (dlt e t2 = false) as -> by dorder.
    assert (dlt e t3 = false) as -> by dorder. rewrite He, !andb_false_r. by destruct st.
  - destruct He as [->|[->| ->]].
    + assert (dlt t1 t1 = false) as -> by dorder. assert (dlt t2 t1 = false) as -> by dorder.
      assert (dlt t3 t1 = false) as -> by dorder. rewrite !andb_false_r. by destruct st.
    + assert (dlt t2 t1 = false) as -> by dorder. assert (dlt t2 t2 = false) as -> by dorder.
      assert (dlt t3 t2 = false) as -> by dorder. rewrite !andb_false_r. by destruct st.
    + assert (dlt t3 t1 = false) as -> by dorder. assert (dlt t3 t2 = false) as -> by dorder.
      assert (dlt t3 t3 = false) as -> by dorder. rewrite !andb_false_r. by destruct st.
Qed.

Lemma dvfs_tracks_band_witness :
  dv_state (DVFS_update (mkDVFS STATE_OFF (of_Z 10) (of_Z 20) (of_Z 30)) (of_Z 25)).1 = STATE_LVL_MIDDLE.
Proof.
  destruct (dvfs_tracks_band (mkDVFS STATE_OFF (of_Z 10) (of_Z 20) (of_Z 30)) (of_Z 25)
    ltac:(discriminate) eq_refl eq_refl) as (_ & _ & H & _).
  exact (H eq_refl eq_refl).
Defined.

(** [SM_TwoThres] never reports a power failure: once on, it stays on and
    answers low energy with another power-on message. *)
Theorem smt_never_off s e :
  SM_TwoThres.smt_state s = SM_TwoThres.STATE_POWERON ->
  let '(s', l) := SM_TwoThres.SMT_update s e in
  SM_TwoThres.smt_state s' = SM_TwoThres.STATE_POWERON /\
  l = if dle e (SM_TwoThres.smt_thres_1_to_off s) then [sm_msg SM_TwoThres.MSG_POWERON] else [].
Proof. unfold SM_TwoThres.SMT_update. intros Hs. rewrite Hs. by destruct (dle e _). Qed.

Lemma smt_never_off_witness :
  (SM_TwoThres.SMT_update (SM_TwoThres.mkSMT SM_TwoThres.STATE_POWERON (of_Z 5) (of_Z 20)) (of_Z 0)).2
  = [sm_msg SM_TwoThres.MSG_POWERON].
Proof.
  exact (proj2 (smt_never_off (SM_TwoThres.mkSMT SM_TwoThres.STATE_POWERON (of_Z 5) (of_Z 20)) (of_Z 0) eq_refl)).
Defined.
