(* ===== verification/EnergyMgmt.v ===== *)
(** * The energy manager

    [engy/energy_mgmt.cc], [engy/energy_harvester.cc] and the ports of
    [engy/energy_port.cc] and [engy/energy_object.cc].  The manager keeps the
    energy of the capacitor, feeds the state machine, and broadcasts the
    machine's messages to the devices through an event of its own; handlers of
    those messages may call back into it.  The event queue is used through the
    interface [EventSched]. *)
From Stdlib Require Import SpecFloat String.
From S2P Require Import Prelude Double EventQueue EventQueueCorrect EventSched EnergySM.
Import DFS_LRY.
Open Scope Z_scope.

(** ** Definitions: harvesters (energy_harvester.cc) *)

Inductive Harvester := BaseHarvester | SimpleHarvester.

Definition energy_harvest (h : Harvester) (energy_harvested energy_remained : double) : double :=
  match h with
  | BaseHarvester => dzero
  | SimpleHarvester => dadd energy_remained energy_harvested
  end.

(** ** Definitions: the manager *)

(** The fields of [EnergyMgmt], its two events given by their addresses.  The
    harvest data is a vector used from its back; here its last element is the
    last of the list. *)
Record EnergyMgmt := mkMgmt {
  system_leakage : double;
  energy_profile_mult : double;
  time_unit : Z;
  energy_remained : double;
  msg_togo : list EnergyMsg;
  event_msg : ptr;
  energy_harvest_data : list double;
  event_energy_harvest : ptr;
  state_machine : BaseEnergySM;
  harvest_module : Harvester;
  capacity : double;
}.

Definition set_energy (m : EnergyMgmt) (e : double) : EnergyMgmt :=
  mkMgmt (system_leakage m) (energy_profile_mult m) (time_unit m) e (msg_togo m) (event_msg m)
    (energy_harvest_data m) (event_energy_harvest m) (state_machine m) (harvest_module m) (capacity m).
Definition set_togo (m : EnergyMgmt) (l : list EnergyMsg) : EnergyMgmt :=
  mkMgmt (system_leakage m) (energy_profile_mult m) (time_unit m) (energy_remained m) l (event_msg m)
    (energy_harvest_data m) (event_energy_harvest m) (state_machine m) (harvest_module m) (capacity m).
Definition set_data (m : EnergyMgmt) (l : list double) : EnergyMgmt :=
  mkMgmt (system_leakage m) (energy_profile_mult m) (time_unit m) (energy_remained m) (msg_togo m) (event_msg m)
    l (event_energy_harvest m) (state_machine m) (harvest_module m) (capacity m).
Definition set_sm (m : EnergyMgmt) (sm : BaseEnergySM) : EnergyMgmt :=
  mkMgmt (system_leakage m) (energy_profile_mult m) (time_unit m) (energy_remained m) (msg_togo m) (event_msg m)
    (energy_harvest_data m) (event_energy_harvest m) sm (harvest_module m) (capacity m).

(** [pow(x, n)] for the small integral arguments of the code, where it is
    exact. *)
Fixpoint dpow (x : double) (n : nat) : double :=
  match n with O => of_Z 1 | S O => x | S n => dmul (dpow x n) x end.

Definition half : double := S754_finite false (2 ^ 52)%positive (-53).

(** [0.5 * capacity * pow(cap_volt_upper_bound, 2) * pow(10, 3)] *)
Definition energy_upper_bound (capacity : double) : double :=
  dmul (dmul (dmul half capacity) (dpow (of_Z 5) 2)) (dpow (of_Z 10) 3).

(** The energy after [consumeEnergy(val)]: consumption for [val > 0], harvest
    for [val < 0]. *)
Definition new_energy (m : EnergyMgmt) (patch : bool) (val : double) : double :=
  let lower_bound := energy_consume_lower_bound (state_machine m) in
  let upper_bound := energy_upper_bound (capacity m) in
  let e := energy_remained m in
  if dgt val dzero then
    let e := dsub e val in
    if dlt e lower_bound then lower_bound else e
  else if dlt val dzero then
    let e := if patch then dsub e (system_leakage m) else e in
    let val := dmul val (energy_profile_mult m) in
    let e := energy_harvest (harvest_module m) (dopp val) e in
    if dgt e upper_bound then upper_bound
    else if dlt e lower_bound then lower_bound else e
  else e.

Section Mgmt.
Context {Q : Type} `{EventSched Q}.

(** The manager with the global leakage flag and the queue. *)
Record MgmtSt := mkSt { mg : EnergyMgmt; mg_patch : bool; mg_q : Q }.

(** [broadcastMsgAsEvent(msg)]. *)
Definition broadcastMsgAsEvent (s : MgmtSt) (msg : EnergyMsg) : result MgmtSt :=
  let m := set_togo (mg s) (msg_togo (mg s) ++ [msg]) in
  if (length (msg_togo m) =? 1)%nat then
    let* q := q_schedule (mg_q s) (event_msg m) (q_now (mg_q s)) in
    Ok (mkSt m (mg_patch s) q)
  else Ok (mkSt m (mg_patch s) (mg_q s)).

Fixpoint broadcast_all (s : MgmtSt) (l : list EnergyMsg) : result MgmtSt :=
  match l with
  | [] => Ok s
  | msg :: l => let* s := broadcastMsgAsEvent s msg in broadcast_all s l
  end.

(** [consumeEnergy(sender, val)]; the sender only appears in trace output. *)
Definition consumeEnergy (s : MgmtSt) (val : double) : result (Z * MgmtSt) :=
  let m := set_energy (mg s) (new_energy (mg s) (mg_patch s) val) in
  let '(sm, patch, msgs) := sm_update (state_machine m) (mg_patch s) (energy_remained m) in
  let* s := broadcast_all (mkSt (set_sm m sm) patch (mg_q s)) msgs in
  Ok (1, s).

(** [handleMsg(msg)]: only consumption is acted upon. *)
Definition mgmt_handleMsg (s : MgmtSt) (msg : EnergyMsg) : result (Z * MgmtSt) :=
  if negb (msg_type msg =? 0) then Ok (0, s)
  else consumeEnergy s (msg_val msg).

(** [energyHarvest()]. *)
Definition energyHarvest (s : MgmtSt) : result MgmtSt :=
  match last (energy_harvest_data (mg s)) with
  | None => Ok s
  | Some energy_val =>
      let* '(_, s) := consumeEnergy s (dopp energy_val) in
      let m := set_data (mg s) (removelast (energy_harvest_data (mg s))) in
      let* q := q_schedule (mg_q s) (event_energy_harvest m) (u64 (q_now (mg_q s) + time_unit m)) in
      Ok (mkSt m (mg_patch s) q)
  end.

(** [readEnergyProfile()]: the samples of the file, reversed. *)
Definition readEnergyProfile (samples : list double) : list double := rev samples.

(** [init()], then the machine's own [init()]. *)
Definition mgmt_init (s : MgmtSt) (samples : list double) : result MgmtSt :=
  let m := set_energy (set_data (mg s) (readEnergyProfile samples)) dzero in
  energyHarvest (mkSt m (mg_patch s) (mg_q s)).
Definition sm_init_broadcast (s : MgmtSt) : result MgmtSt :=
  let '(sm, msgs) := sm_init (state_machine (mg s)) in
  broadcast_all (mkSt (set_sm (mg s) sm) (mg_patch s) (mg_q s)) msgs.

(** ** Definitions: ports (energy_port.cc, energy_object.cc)

    A slave is the handler of its owner; handlers act on a world [W] that
    contains the manager. *)
Section Ports.
Context {W : Type} (get : W -> MgmtSt) (put : W -> MgmtSt -> W).
Context (slaves : list (EnergyMsg -> W -> result (Z * W))).

(** The loop of [MasterEnergyPort::broadcastMsg]. *)
Fixpoint port_loop (l : list (EnergyMsg -> W -> result (Z * W))) (msg : EnergyMsg) (rlt : Z) (w : W)
    : result (Z * W) :=
  match l with
  | [] => Ok (rlt, w)
  | handleMsg :: l =>
      let* '(r, w) := handleMsg msg w in
      port_loop l msg (if r =? 0 then 0 else rlt) w
  end.

Definition port_broadcastMsg (msg : EnergyMsg) (w : W) : result (Z * W) :=
  port_loop slaves msg (if (length slaves =? 0)%nat then 0 else 1) w.

(** [EnergyMgmt::broadcastMsg()], the handler of [event_msg]. *)
Definition broadcastMsg (w : W) : result W :=
  let* msg := deref (msg_togo (mg (get w)) !! 0%nat) in
  let* '(_, w) := port_broadcastMsg msg w in
  let s := get w in
  let m := set_togo (mg s) (tail (msg_togo (mg s))) in
  if (length (msg_togo m) =? 0)%nat then Ok (put w (mkSt m (mg_patch s) (mg_q s)))
  else
    let* q := q_schedule (mg_q s) (event_msg m) (q_now (mg_q s)) in
    Ok (put w (mkSt m (mg_patch s) q)).

(** [SlaveEnergyPort::signalMsg(msg)] of a slave with or without a master. *)
Definition signalMsg (master : bool) (msg : EnergyMsg) (w : W) : result (Z * W) :=
  if master then
    let* '(r, s) := mgmt_handleMsg (get w) msg in Ok (r, put w s)
  else Ok (0, w).

(** [EnergyObject::consumeEnergy(sender, energy)]. *)
Definition obj_consumeEnergy (master : bool) (sender : string) (energy : double) (w : W)
    : result (Z * W) :=
  let* '(_, w) := signalMsg master (mkMsg 0 (Some sender) energy) w in
  Ok (1, w).
End Ports.
End Mgmt.
Arguments MgmtSt Q : clear implicits.

(** ** The energy stays within its bounds *)

Abbreviation lower m := (energy_consume_lower_bound (state_machine m)).
Abbreviation upper m := (energy_upper_bound (capacity m)).

(** A double that is a number of the format. *)
Definition dnum (x : double) : bool := is_fin x && dvalid x.

Lemma dnum_spec x : dnum x = true <-> is_fin x = true /\ dvalid x = true.
Proof. apply andb_true_iff. Qed.

(** A configuration: the bounds are numbers in order, so are the leakage and
    the multiplier. *)
Definition config_ok (m : EnergyMgmt) : bool :=
  dnum (lower m) && dnum (upper m) && dnum (system_leakage m) && dnum (energy_profile_mult m) &&
  dle dzero (lower m) && dle (lower m) (upper m).

(** The energy is a number between zero and the capacity. *)
Definition energy_ok (m : EnergyMgmt) : bool :=
  dnum (energy_remained m) && dle dzero (energy_remained m) && dle (energy_remained m) (upper m).

(** An amount the manager can be asked for: a number, also after scaling. *)
Definition amount_ok (m : EnergyMgmt) (val : double) : bool :=
  dnum val && is_fin (dmul val (energy_profile_mult m)).

Definition in_bounds (m : EnergyMgmt) (e : double) : Prop :=
  dnum e = true /\ dle (lower m) e = true /\ dle e (upper m) = true.

Lemma clamp_low m e :
  config_ok m = true -> dvalid e = true -> is_nan e = false -> dle e (upper m) = true ->
  in_bounds m (if dlt e (lower m) then lower m else e).
Proof.
  unfold config_ok, in_bounds. rewrite !andb_true_iff, !dnum_spec.
  intros [[[[[[HlF HlV] [HuF HuV]] _] _] Hl0] Hlu] Hv Hn Hu.
  assert (is_nan (lower m) = false) as Hln by auto with double.
  destruct (dlt e (lower m)) eqn:Hlt; [by auto with double|].
  apply dlt_false in Hlt; [|done..]. split; [|done]. split; [|done].
  destruct e as [|[]| |]; try done; destruct (lower m) as [|[]| |[] ? ?], (upper m) as [|[]| |[] ? ?]; done.
Qed.

Lemma consume_bounds m val :
  config_ok m = true -> energy_ok m = true -> dnum val = true -> dgt val dzero = true ->
  in_bounds m (if dlt (dsub (energy_remained m) val) (lower m) then lower m else dsub (energy_remained m) val) /\
  dle (dsub (energy_remained m) val) (energy_remained m) = true.
Proof.
  unfold energy_ok. rewrite !andb_true_iff, !dnum_spec. intros Hc [[[HeF HeV] He0] Heu] [HvF HvV] Hv.
  change (dlt dzero val = true) in Hv.
  assert (dle (dsub (energy_remained m) val) (energy_remained m) = true) as Hle by (by apply dsub_le).
  split; [|done]. apply clamp_low; auto with double. by eapply dle_trans.
Qed.

Lemma harvest_bounds m (patch : bool) val :
  config_ok m = true -> energy_ok m = true -> amount_ok m val = true ->
  let e := if patch then dsub (energy_remained m) (system_leakage m) else energy_remained m in
  let e := energy_harvest (harvest_module m) (dopp (dmul val (energy_profile_mult m))) e in
  in_bounds m (if dgt e (upper m) then upper m else if dlt e (lower m) then lower m else e).
Proof.
  intros Hc. pose proof Hc as Hc'. revert Hc'.
  unfold config_ok, energy_ok, amount_ok. rewrite !andb_true_iff, !dnum_spec.
  intros [[[[[[HlF HlV] [HuF HuV]] [HkF HkV]] [HmF HmV]] Hl0] Hlu] [[[HeF HeV] He0] Heu] [[HvF HvV] Hp].
  set (e := if patch then _ else _).
  assert (dvalid e = true /\ is_nan e = false) as [HvE HnE] by (unfold e; destruct patch; auto with double).
  cbn zeta. set (e' := energy_harvest _ _ _).
  assert (dvalid e' = true /\ is_nan e' = false) as [HvE' HnE'].
  { unfold e', energy_harvest. destruct (harvest_module m); [done|].
    split; [apply dadd_valid; [done|]; rewrite dopp_valid; by apply dmul_valid|].
    apply dadd_not_nan; [done|]. by rewrite dopp_fin. }
  unfold dgt. change (SFltb (upper m) e') with (dlt (upper m) e').
  destruct (dlt (upper m) e') eqn:Hgt.
  - split; [by apply dnum_spec|]. auto with double.
  - apply clamp_low; [done|done|done|]. apply dlt_false; [auto with double|done|done].
Qed.

(** [consumeEnergy] of a nonzero amount leaves the energy between the bound of
    the machine and the capacity. *)
Lemma new_energy_bounds m patch val :
  config_ok m = true -> energy_ok m = true -> amount_ok m val = true ->
  dlt val dzero || dgt val dzero = true -> in_bounds m (new_energy m patch val).
Proof.
  intros Hc He Ha Hv. unfold new_energy. pose proof Ha as Ha'.
  unfold amount_ok in Ha'. apply andb_true_iff in Ha' as [Hn _].
  destruct (dgt val dzero) eqn:Hg; [by apply consume_bounds|].
  rewrite orb_false_r in Hv. rewrite Hv. by apply harvest_bounds.
Qed.

Lemma new_energy_zero m patch val :
  dlt val dzero || dgt val dzero = false -> new_energy m patch val = energy_remained m.
Proof. intros [Hl Hg]%orb_false_iff. unfold new_energy. by rewrite Hg, Hl. Qed.

(** ** Thresholds do not change *)

Lemma sm_update_lower sm patch e sm' patch' l :
  sm_update sm patch e = (sm', patch', l) ->
  energy_consume_lower_bound sm' = energy_consume_lower_bound sm.
Proof.
  intros H. destruct sm as [|s|s|s|s|s]; cbn in H.
  - by simplify_eq.
  - unfold SimpleEnergySM.Simple_update in H. repeat (case_match; simplify_eq/=); done.
  - destruct (TwoThresSM.Two_update s e); by simplify_eq.
  - unfold SM_Retention.Ret_update in H. repeat (case_match; simplify_eq/=); done.
  - destruct (DVFSSM.DVFS_update s e); by simplify_eq.
  - destruct (LRY_update_next s patch e) as [_ Ht].
    destruct (LRY_update s patch e) as [[s1 p1] l1]. simplify_eq/=. unfold LRY_lower_bound. by rewrite Ht.
Qed.

(** What [consumeEnergy] leaves alone. *)
Record same_config (m m' : EnergyMgmt) : Prop := {
  sc_leak : system_leakage m' = system_leakage m;
  sc_mult : energy_profile_mult m' = energy_profile_mult m;
  sc_unit : time_unit m' = time_unit m;
  sc_ev : event_msg m' = event_msg m;
  sc_evh : event_energy_harvest m' = event_energy_harvest m;
  sc_hm : harvest_module m' = harvest_module m;
  sc_cap : capacity m' = capacity m;
  sc_low : lower m' = lower m;
}.

#[export] Instance same_config_preorder : PreOrder same_config.
Proof. split; [by intros ?|]. intros ??? [] []. split; congruence. Qed.

Lemma config_ok_same m m' : same_config m m' -> config_ok m' = config_ok m.
Proof. intros [H1 H2 H3 H4 H5 H6 H7 H8]. unfold config_ok. by rewrite H1, H2, H7, H8. Qed.

(** ** Power phases

    With the simple machine, the waiting messages switch the power off and on in
    turn, starting from the present state [on] of the listeners, and end in the
    state of the machine. *)

Fixpoint phase_after (on : bool) (l : list EnergyMsg) : bool :=
  match l with [] => on | _ :: l => phase_after (negb on) l end.

Definition phases (on : bool) (m : EnergyMgmt) : Prop :=
  exists sm, state_machine m = SM_simple sm /\ alternating on (msg_togo m) /\
  si_on sm = phase_after on (msg_togo m).

Lemma phase_after_app on l l' : phase_after on (l ++ l') = phase_after (phase_after on l) l'.
Proof. revert on. induction l as [|m l IH]; intros on; cbn; auto. Qed.

Lemma alternating_app on l l' :
  alternating on (l ++ l') <-> alternating on l /\ alternating (phase_after on l) l'.
Proof. revert on. induction l as [|m l IH]; intros on; cbn; [tauto|]. rewrite IH. tauto. Qed.

Lemma phases_update on m m' patch e patch' extra :
  phases on m -> sm_update (state_machine m) patch e = (state_machine m', patch', extra) ->
  msg_togo m' = msg_togo m ++ extra -> phases on m'.
Proof.
  intros (sm & Hsm & Ha & Hon) Hup Ht. rewrite Hsm in Hup. cbn [sm_update] in Hup.
  destruct (SimpleEnergySM.Simple_update sm e) as [sm' l] eqn:Hs. injection Hup as Hsm' _ <-. exists sm'.
  rewrite Ht, alternating_app, phase_after_app, <- Hon. split; [done|].
  unfold SimpleEnergySM.Simple_update in Hs. destruct sm as [[] t1 t2 n]; cbn in Hs; case_match; by simplify_eq.
Qed.

(** Once the front message has been delivered. *)
Lemma phases_pop on m msg rest :
  phases on m -> msg_togo m = msg :: rest -> phases (negb on) (set_togo m rest).
Proof. intros (sm & Hsm & Ha & Hon) Ht. rewrite Ht in *. exists sm. split; [done|]. split; [apply Ha|done]. Qed.

(** ** The message queue and its event *)

Section MgmtCorrect.
Context {Q : Type} `{EventSchedLaws Q}.

(** A queue in which only event [p] may differ. *)
Record q_frame (p : ptr) (q q' : Q) : Prop := {
  fr_now : q_now q' = q_now q;
  fr_own r : q_own q r -> q_own q' r;
  fr_other r : r <> p -> q_scheduled q' r = q_scheduled q r /\ q_when q' r = q_when q r;
}.

#[export] Instance q_frame_preorder p : PreOrder (q_frame p).
Proof.
  split; [by intros ?|]. intros q1 q2 q3 [N1 O1 F1] [N2 O2 F2]. split; [congruence|auto|].
  intros r Hr. destruct (F1 r Hr), (F2 r Hr). split; congruence.
Qed.

Lemma step_frame q q' p o : q_step q_own q q' p o -> q_frame p q q'.
Proof. intros []. by split. Qed.

(** Between events, [event_msg] is scheduled exactly while messages wait; while
    a message is being broadcast it is still at the front and the event is not
    scheduled. *)
Record togo_inv (busy : bool) (s : MgmtSt Q) : Prop := {
  ti_inv : q_inv (mg_q s);
  ti_own : q_own (mg_q s) (event_msg (mg s));
  ti_ownh : q_own (mg_q s) (event_energy_harvest (mg s));
  ti_ne : event_energy_harvest (mg s) <> event_msg (mg s);
  ti_sched : q_scheduled (mg_q s) (event_msg (mg s)) = negb busy && negb (length (msg_togo (mg s)) =? 0)%nat;
  ti_busy : busy = true -> msg_togo (mg s) <> [];
}.

(** What an operation of the manager does to its messages. *)
Record mgmt_step (s s' : MgmtSt Q) (extra : list EnergyMsg) : Prop := {
  ms_togo : msg_togo (mg s') = msg_togo (mg s) ++ extra;
  ms_conf : same_config (mg s) (mg s');
  ms_data : energy_harvest_data (mg s') = energy_harvest_data (mg s);
  ms_frame : q_frame (event_msg (mg s)) (mg_q s) (mg_q s');
}.

Lemma mgmt_step_refl s : mgmt_step s s [].
Proof. split; [by rewrite app_nil_r|done|done|done]. Qed.

Lemma mgmt_step_trans s1 s2 s3 l1 l2 :
  mgmt_step s1 s2 l1 -> mgmt_step s2 s3 l2 -> mgmt_step s1 s3 (l1 ++ l2).
Proof.
  intros [T1 C1 D1 F1] [T2 C2 D2 F2]. split; [by rewrite T2, T1, app_assoc|by etrans|congruence|].
  rewrite (sc_ev _ _ C1) in F2. by etrans.
Qed.

Lemma broadcastMsgAsEvent_ok busy s msg :
  togo_inv busy s ->
  exists s', broadcastMsgAsEvent s msg = Ok s' /\ togo_inv busy s' /\ mgmt_step s s' [msg] /\
  energy_remained (mg s') = energy_remained (mg s) /\ state_machine (mg s') = state_machine (mg s) /\
  mg_patch s' = mg_patch s.
Proof.
  intros [Hi Ho Hh Hne Hs Hb]. unfold broadcastMsgAsEvent. cbn [set_togo msg_togo event_msg].
  rewrite length_app. cbn [length].
  destruct (Nat.eqb_spec (length (msg_togo (mg s)) + 1) 1) as [Hl|Hl].
  - assert (msg_togo (mg s) = []) as Ht by (destruct (msg_togo (mg s)); [done|cbn in Hl; lia]).
    rewrite Ht in *. destruct busy; [by exfalso; apply Hb|]. cbn in Hs.
    destruct (q_schedule_ok _ _ (q_now (mg_q s)) Hi Ho Hs (Z.le_refl _)) as (q' & -> & Hi' & Hstep).
    cbn [rbind]. eexists. split; [done|]. split; [|split; [|done]].
    + split; cbn; rewrite ?Ht; try done; [by apply (step_own _ _ _ _ _ Hstep)..|].
      by rewrite (step_sched _ _ _ _ _ Hstep).
    + split; cbn; [by rewrite Ht|done|done|by eapply step_frame].
  - eexists. split; [done|]. split; [|split; [|done]].
    + split; cbn; try done.
      * rewrite Hs, length_app. by destruct (msg_togo (mg s)).
      * intros _. by destruct (msg_togo (mg s)).
    + by split.
Qed.

Lemma broadcast_all_ok busy l s :
  togo_inv busy s ->
  exists s', broadcast_all s l = Ok s' /\ togo_inv busy s' /\ mgmt_step s s' l /\
  energy_remained (mg s') = energy_remained (mg s) /\ state_machine (mg s') = state_machine (mg s) /\
  mg_patch s' = mg_patch s.
Proof.
  revert s. induction l as [|msg l IH]; intros s Hinv; cbn [broadcast_all].
  { exists s. split; [done|]. split; [done|]. split; [apply mgmt_step_refl|done]. }
  destruct (broadcastMsgAsEvent_ok busy s msg Hinv) as (s1 & -> & Hinv1 & Hst1 & He1 & Hm1 & Hp1).
  cbn [rbind]. destruct (IH s1 Hinv1) as (s2 & -> & Hinv2 & Hst2 & He2 & Hm2 & Hp2).
  exists s2. split; [done|]. split; [done|]. split; [exact (mgmt_step_trans _ _ _ _ _ Hst1 Hst2)|].
  split_and!; congruence.
Qed.

(** [consumeEnergy] always succeeds: the energy is the clamped one, the machine
    is updated with it, and its messages are appended to the queue. *)
Lemma consumeEnergy_ok busy s val :
  togo_inv busy s ->
  exists s' extra, consumeEnergy s val = Ok (1, s') /\ togo_inv busy s' /\ mgmt_step s s' extra /\
  energy_remained (mg s') = new_energy (mg s) (mg_patch s) val /\
  sm_update (state_machine (mg s)) (mg_patch s) (energy_remained (mg s')) =
    (state_machine (mg s'), mg_patch s', extra).
Proof.
  intros [Hi Ho Hh Hne Hs Hb]. unfold consumeEnergy. cbn [set_energy state_machine energy_remained].
  destruct (sm_update (state_machine (mg s)) (mg_patch s) _) as [[sm patch] l] eqn:Hsm.
  set (s1 := mkSt (set_sm _ sm) patch (mg_q s)).
  assert (togo_inv busy s1) as Hinv1 by (by split).
  destruct (broadcast_all_ok busy l s1 Hinv1) as (s' & -> & Hinv' & Hst & He & Hm & Hp).
  cbn [rbind]. exists s', l. split; [done|]. split; [done|].
  assert (mgmt_step s s1 []) as Hst0.
  { split; cbn; [by rewrite app_nil_r| |done|done]. split; cbn; try done. by eapply sm_update_lower. }
  split; [exact (mgmt_step_trans _ _ _ _ _ Hst0 Hst)|].
  rewrite He, Hm, Hp. cbn. split; [done|]. exact Hsm.
Qed.

Lemma mgmt_handleMsg_ok busy s msg :
  togo_inv busy s ->
  exists r s' extra, mgmt_handleMsg s msg = Ok (r, s') /\ togo_inv busy s' /\ mgmt_step s s' extra /\
  (forall on, phases on (mg s) -> phases on (mg s')).
Proof.
  intros Hinv. unfold mgmt_handleMsg. destruct (msg_type msg =? 0); cbn [negb].
  - destruct (consumeEnergy_ok busy s (msg_val msg) Hinv) as (s' & l & -> & ? & Hst & _ & Hup).
    exists 1, s', l. split_and!; try done. intros on Hph. eapply phases_update; [done|exact Hup|apply Hst].
  - exists 0, s, []. split; [done|]. split; [done|]. split; [apply mgmt_step_refl|done].
Qed.

(** [energyHarvest()] charges the next sample and schedules itself again. *)
Lemma energyHarvest_ok s x xs :
  togo_inv false s -> energy_harvest_data (mg s) = xs ++ [x] ->
  q_scheduled (mg_q s) (event_energy_harvest (mg s)) = false ->
  0 <= q_now (mg_q s) -> 0 <= time_unit (mg s) -> q_now (mg_q s) + time_unit (mg s) < 2 ^ 64 ->
  exists s' extra, energyHarvest s = Ok s' /\ togo_inv false s' /\ same_config (mg s) (mg s') /\
  energy_harvest_data (mg s') = xs /\ msg_togo (mg s') = msg_togo (mg s) ++ extra /\
  energy_remained (mg s') = new_energy (mg s) (mg_patch s) (dopp x) /\
  q_scheduled (mg_q s') (event_energy_harvest (mg s)) = true /\
  q_when (mg_q s') (event_energy_harvest (mg s)) = q_now (mg_q s) + time_unit (mg s) /\
  q_now (mg_q s') = q_now (mg_q s) /\ (forall r, q_own (mg_q s) r -> q_own (mg_q s') r) /\
  (forall r, r <> event_msg (mg s) -> r <> event_energy_harvest (mg s) ->
    q_scheduled (mg_q s') r = q_scheduled (mg_q s) r /\ q_when (mg_q s') r = q_when (mg_q s) r) /\
  (forall on, phases on (mg s) -> phases on (mg s')).
Proof.
  intros Hinv Hd Hs Hn Hu Hov. unfold energyHarvest. rewrite Hd, last_snoc.
  destruct (consumeEnergy_ok false s (dopp x) Hinv)
    as (s1 & l & -> & [Hi Ho Hh Hne Hsc Hb] & [Hto Hcf Hda [Fn Fo Fr]] & He & Hup).
  cbn [rbind set_data event_energy_harvest time_unit]. rewrite Hda, Hd, removelast_last.
  pose proof (sc_evh _ _ Hcf) as Hevh. pose proof (sc_ev _ _ Hcf) as Hev. rewrite Hev, Hevh in Hne.
  destruct (Fr _ Hne) as [Fs _]. rewrite Hs in Fs. rewrite (sc_unit _ _ Hcf), Fn, Hevh.
  rewrite u64_small by (unfold in_range; lia). rewrite Hevh in Hh.
  destruct (q_schedule_ok _ _ (q_now (mg_q s) + time_unit (mg s)) Hi Hh Fs) as (q' & -> & Hi' & Hstep); [lia|].
  cbn [rbind]. eexists _, l. split; [done|]. cbn. split; [|split_and!; try done].
  - split; cbn; rewrite ?Hevh, ?Hev; try done; [by apply (step_own _ _ _ _ _ Hstep); rewrite ?Hev in Ho..|].
    rewrite (proj1 (step_other _ _ _ _ _ Hstep _ (not_eq_sym Hne))). by rewrite <- Hev.
  - destruct Hcf. by split.
  - by rewrite (step_sched _ _ _ _ _ Hstep).
  - by apply (step_when _ _ _ _ _ Hstep).
  - by rewrite (step_now _ _ _ _ _ Hstep).
  - intros r Hr. by apply (step_own _ _ _ _ _ Hstep), Fo.
  - intros r H1 H2. destruct (step_other _ _ _ _ _ Hstep r H2) as [-> ->]. by apply Fr.
  - intros on Hph. by eapply phases_update; [done|exact Hup|].
Qed.

(** ** Broadcasting *)

Context {W : Type} (get : W -> MgmtSt Q) (put : W -> MgmtSt Q -> W).
Context (get_put : forall w s, get (put w s) = s).

(** A handler that uses the manager only through its port. *)
Definition slave_ok (f : EnergyMsg -> W -> result (Z * W)) : Prop :=
  forall msg w, togo_inv true (get w) ->
  exists r w' extra, f msg w = Ok (r, w') /\ togo_inv true (get w') /\ mgmt_step (get w) (get w') extra.

(** [msg] has been handled by each of the slaves, in their order. *)
Inductive delivered (msg : EnergyMsg) : list (EnergyMsg -> W -> result (Z * W)) -> W -> W -> Prop :=
  | delivered_nil w : delivered msg [] w w
  | delivered_cons f l w r w1 w2 : f msg w = Ok (r, w1) -> delivered msg l w1 w2 -> delivered msg (f :: l) w w2.

Lemma port_loop_ok l msg rlt w :
  Forall slave_ok l -> togo_inv true (get w) ->
  exists r w' extra, port_loop l msg rlt w = Ok (r, w') /\ delivered msg l w w' /\ togo_inv true (get w') /\
  mgmt_step (get w) (get w') extra.
Proof.
  revert rlt w. induction l as [|f l IH]; intros rlt w Hl Hinv; cbn [port_loop].
  { exists rlt, w, []. split; [done|]. split; [constructor|]. split; [done|]. apply mgmt_step_refl. }
  apply Forall_cons in Hl as [Hf Hl].
  destruct (Hf msg w Hinv) as (r & w1 & l1 & Hr & Hinv1 & Hst1). rewrite Hr. cbn [rbind].
  destruct (IH (if r =? 0 then 0 else rlt) w1 Hl Hinv1) as (r' & w2 & l2 & -> & Hd & Hinv2 & Hst2).
  exists r', w2, (l1 ++ l2). split; [done|]. split; [by econstructor|]. split; [done|]. by eapply mgmt_step_trans.
Qed.

(** The end of [broadcastMsg()], once the slaves have handled the message. *)
Lemma broadcast_finish slaves w msg rest l r w1 :
  msg_togo (mg (get w)) = msg :: rest -> port_broadcastMsg slaves msg w = Ok (r, w1) ->
  togo_inv true (get w1) -> msg_togo (mg (get w1)) = msg :: rest ++ l ->
  exists q', broadcastMsg get put slaves w =
    Ok (put w1 (mkSt (set_togo (mg (get w1)) (rest ++ l)) (mg_patch (get w1)) q')) /\
  togo_inv false (mkSt (set_togo (mg (get w1)) (rest ++ l)) (mg_patch (get w1)) q') /\
  q_frame (event_msg (mg (get w1))) (mg_q (get w1)) q'.
Proof.
  intros Ht Hp [Hi Ho Hh Hne Hs Hb] Ht1. unfold broadcastMsg. rewrite Ht. cbn [lookup list_lookup deref rbind].
  rewrite Hp. cbn [rbind]. rewrite Ht1. cbn [tail app set_togo msg_togo].
  cbn in Hs. destruct (Nat.eqb_spec (length (rest ++ l)) 0) as [Hl|Hl].
  - exists (mg_q (get w1)). split; [done|]. split; [|done].
    apply nil_length_inv in Hl. split; cbn; rewrite ?Hl; try done.
  - destruct (q_schedule_ok _ _ (q_now (mg_q (get w1))) Hi Ho Hs (Z.le_refl _)) as (q' & Hq & Hi' & Hstep).
    cbn [event_msg set_togo]. rewrite Hq. cbn [rbind]. exists q'. split; [done|]. split; [|by eapply step_frame].
    split; cbn; try done; [by apply (step_own _ _ _ _ _ Hstep)..|].
    rewrite (step_sched _ _ _ _ _ Hstep). destruct (length (rest ++ l)); [done|]. done.
Qed.

Lemma broadcastMsg_ok slaves w :
  Forall slave_ok slaves -> togo_inv true (get w) ->
  exists msg rest w1 extra q', msg_togo (mg (get w)) = msg :: rest /\ delivered msg slaves w w1 /\
  msg_togo (mg (get w1)) = msg :: rest ++ extra /\
  let s' := mkSt (set_togo (mg (get w1)) (rest ++ extra)) (mg_patch (get w1)) q' in
  broadcastMsg get put slaves w = Ok (put w1 s') /\ togo_inv false s' /\ q_frame (event_msg (mg (get w1))) (mg_q (get w1)) q'.
Proof.
  intros Hsl Hinv.
  destruct (msg_togo (mg (get w))) as [|msg rest] eqn:Ht; [by exfalso; apply (ti_busy _ _ Hinv)|].
  destruct (port_loop_ok slaves msg (if (length slaves =? 0)%nat then 0 else 1) w Hsl Hinv)
    as (r & w1 & l & Hp & Hd & Hinv1 & Hst).
  pose proof (ms_togo _ _ _ Hst) as Ht1. rewrite Ht in Ht1.
  destruct (broadcast_finish slaves w msg rest l r w1 Ht Hp Hinv1 Ht1) as (q' & He & Hi & Hf).
  by exists msg, rest, w1, l, q'.
Qed.
End MgmtCorrect.

(** ** A manager to run the operations on *)

Definition mgmt_heap : heap := {[ 1%positive := idle Energy_Pri; 2%positive := idle Energy_Pri ]}.
Definition mgmt_queue : EventQueue := mkEventQueue mgmt_heap None 0 [] 0 false 0.
Definition demo_mgmt (sm : BaseEnergySM) (e : double) : EnergyMgmt :=
  mkMgmt (of_Z 1) (of_Z 1) 10 e [] 1 [] 2 sm SimpleHarvester (of_Z 1).
Definition demo_simple : BaseEnergySM := SM_simple (SimpleEnergySM.new_Simple (of_Z 5) (of_Z 20)).
Definition demo_st (sm : BaseEnergySM) (e : double) : MgmtSt EventQueue := mkSt (demo_mgmt sm e) false mgmt_queue.

Lemma mgmt_queue_inv : em_inv mgmt_queue.
Proof.
  split; [done|]. split; [done|]. exists []. apply wf_empty; [done|done|].
  apply (bool_decide_unpack _). vm_compute. exact I.
Qed.

Lemma demo_st_inv sm e : togo_inv false (demo_st sm e).
Proof.
  split; cbn; [exact mgmt_queue_inv| | |done|done|done]; eexists; (split; [reflexivity|split; done]).
Qed.

(** ** Properties *)

Lemma energy_ok_bounds m m' :
  same_config m m' -> in_bounds m (energy_remained m') -> config_ok m = true -> energy_ok m' = true.
Proof.
  intros Hsc (Hn & Hl & Hu) Hc. unfold energy_ok, config_ok in *. rewrite Hn, (sc_cap _ _ Hsc), Hu.
  rewrite !andb_true_iff in Hc. destruct Hc as [[_ H0] _]. by rewrite (dle_trans _ _ _ H0 Hl).
Qed.

(** C6: The stored energy never leaves its bounds.  Whatever number is consumed
    or harvested, [consumeEnergy] succeeds, the energy stays a number between
    zero and the capacity, and after any nonzero amount it is at or above the
    bound of the state machine; rounding included. *)
Theorem energy_bounded {Q} `{EventSchedLaws Q} busy (s : MgmtSt Q) val :
  togo_inv busy s -> config_ok (mg s) = true -> energy_ok (mg s) = true -> amount_ok (mg s) val = true ->
  exists s', consumeEnergy s val = Ok (1, s') /\ togo_inv busy s' /\
  config_ok (mg s') = true /\ energy_ok (mg s') = true /\
  (dlt val dzero || dgt val dzero = true -> in_bounds (mg s') (energy_remained (mg s'))).
Proof.
  intros Hinv Hc He Ha. destruct (consumeEnergy_ok busy s val Hinv) as (s' & l & -> & Hinv' & Hst & Hen & _).
  pose proof (ms_conf _ _ _ Hst) as Hsc. exists s'. split; [done|]. split; [done|].
  split; [by rewrite (config_ok_same _ _ Hsc)|].
  destruct (dlt val dzero || dgt val dzero) eqn:Hv.
  - pose proof (new_energy_bounds _ (mg_patch s) _ Hc He Ha Hv) as Hb. rewrite <- Hen in Hb.
    split; [by eapply energy_ok_bounds|]. intros _. unfold in_bounds in *.
    by rewrite (sc_low _ _ Hsc), (sc_cap _ _ Hsc).
  - split; [|done]. rewrite new_energy_zero in Hen by done.
    unfold energy_ok in *. by rewrite Hen, (sc_cap _ _ Hsc).
Qed.

Lemma energy_bounded_witness :
  exists s', consumeEnergy (demo_st demo_simple (of_Z 12)) (of_Z 9) = Ok (1, s') /\
  in_bounds (mg s') (energy_remained (mg s')).
Proof.
  destruct (energy_bounded false (demo_st demo_simple (of_Z 12)) (of_Z 9) (demo_st_inv _ _)
    ltac:(vm_compute; reflexivity) ltac:(vm_compute; reflexivity) ltac:(vm_compute; reflexivity))
    as (s' & H & _ & _ & _ & Hb).
  exists s'. split; [exact H|]. apply Hb. vm_compute. reflexivity.
Defined.

(** Consumption never raises the energy and harvesting never lowers it: for
    a machine at or above its bound, a positive amount leaves at most what was
    there, and a harvested amount, without leakage, at least that. *)
Theorem energy_monotone m val :
  config_ok m = true -> energy_ok m = true -> amount_ok m val = true ->
  dle (lower m) (energy_remained m) = true -> harvest_module m = SimpleHarvester ->
  (dgt val dzero = true -> dle (new_energy m false val) (energy_remained m) = true) /\
  (dlt val dzero = true -> dlt dzero (dopp (dmul val (energy_profile_mult m))) = true ->
   dle (energy_remained m) (new_energy m false val) = true).
Proof.
  intros Hc He Ha Hl Hh. pose proof Ha as Ha'. unfold amount_ok in Ha'. apply andb_true_iff in Ha' as [Hv Hf].
  pose proof He as He'. unfold energy_ok in He'. rewrite !andb_true_iff, dnum_spec in He'.
  destruct He' as [[[HeF HeV] He0] Heu]. unfold new_energy. split.
  - intros Hg. rewrite Hg. destruct (consume_bounds m val Hc He Hv Hg) as [_ Hle].
    by destruct (dlt _ (lower m)).
  - intros Hlt Hp. assert (dgt val dzero = false) as ->.
    { change (dlt dzero val = false). pose proof (dlt_nan _ _ Hlt) as []. dorder. }
    rewrite Hlt, Hh. cbn [energy_harvest].
    assert (dle (energy_remained m) (dadd (energy_remained m) (dopp (dmul val (energy_profile_mult m)))) = true)
      as Hge by (apply dadd_ge; [done|done|done|by rewrite dopp_fin|done]).
    destruct (dgt _ _) eqn:Hgt; [done|]. destruct (dlt _ (lower m)) eqn:Hd; [dorder|done].
Qed.

Lemma energy_monotone_witness :
  dle (new_energy (demo_mgmt demo_simple (of_Z 12)) false (of_Z 3)) (of_Z 12) = true /\
  dle (of_Z 12) (new_energy (demo_mgmt demo_simple (of_Z 12)) false (dopp (of_Z 3))) = true.
Proof.
  split.
  - apply (energy_monotone (demo_mgmt demo_simple (of_Z 12)) (of_Z 3)); vm_compute; reflexivity.
  - apply (energy_monotone (demo_mgmt demo_simple (of_Z 12)) (dopp (of_Z 3))); vm_compute; reflexivity.
Defined.

(** The first harvest creates energy: starting from the empty capacitor of
    [init()], any amount that does not reach the bound of the machine leaves the
    energy at that bound instead of at the amount harvested. *)
Theorem first_harvest_lifts m patch val :
  harvest_module m = SimpleHarvester -> patch = false -> energy_remained m = dzero ->
  dlt val dzero = true ->
  dgt (dadd dzero (dopp (dmul val (energy_profile_mult m)))) (upper m) = false ->
  dlt (dadd dzero (dopp (dmul val (energy_profile_mult m)))) (lower m) = true ->
  new_energy m patch val = lower m.
Proof.
  intros Hh -> He Hv Hu Hl. unfold new_energy. assert (dgt val dzero = false) as ->.
  { change (dlt dzero val = false). pose proof (dlt_nan _ _ Hv) as []. dorder. }
  rewrite Hv, Hh, He. cbn [energy_harvest]. by rewrite Hu, Hl.
Qed.

Lemma first_harvest_lifts_witness :
  new_energy (demo_mgmt demo_simple dzero) false (dopp (of_Z 1)) = of_Z 5.
Proof.
  apply (first_harvest_lifts (demo_mgmt demo_simple dzero) false (dopp (of_Z 1))); vm_compute; reflexivity.
Defined.

(** C38: Messages leave in the order they were sent, one per firing of
    [event_msg], and none is lost.  When the event fires with messages waiting,
    the broadcast completes, for handlers that succeed and use the manager only
    through its port, even though they call back into it:
    every slave, in the order of binding, has handled the front message, and no
    other; the front message is then gone, the others follow in order before
    whatever the handlers added, and [event_msg] is scheduled exactly if some
    remain; of what the handlers left, nothing else of the world and of the
    manager and no other event changes. *)
Theorem broadcast_fifo {Q} `{EventSchedLaws Q} {W} (get : W -> MgmtSt Q) put slaves w :
  Forall (slave_ok get) slaves -> togo_inv true (get w) ->
  exists msg rest w1 extra q', msg_togo (mg (get w)) = msg :: rest /\ delivered msg slaves w w1 /\
  msg_togo (mg (get w1)) = msg :: rest ++ extra /\
  let s' := mkSt (set_togo (mg (get w1)) (rest ++ extra)) (mg_patch (get w1)) q' in
  broadcastMsg get put slaves w = Ok (put w1 s') /\ togo_inv false s' /\
  (q_scheduled q' (event_msg (mg s')) = true <-> rest ++ extra <> []) /\
  q_frame (event_msg (mg (get w1))) (mg_q (get w1)) q'.
Proof.
  intros Hsl Hinv. destruct (broadcastMsg_ok get put slaves w Hsl Hinv) as (msg & rest & w1 & l & q' & H1 & H2 & H3 & H4 & Hi & H5).
  exists msg, rest, w1, l, q'. split_and!; try done; pose proof (ti_sched _ _ Hi) as Hs; cbn in *; rewrite Hs; by destruct (rest ++ l).
Qed.

(** A slave that notes the message and answers by consuming energy. *)
Definition demo_slave (msg : EnergyMsg) (w : MgmtSt EventQueue * list EnergyMsg) : result (Z * (MgmtSt EventQueue * list EnergyMsg)) :=
  obj_consumeEnergy fst (fun w s => (s, w.2)) true "dev" (of_Z 100) (w.1, w.2 ++ [msg]).

Lemma demo_slave_ok : slave_ok fst demo_slave.
Proof.
  intros msg w Hinv. unfold demo_slave, obj_consumeEnergy, signalMsg, mgmt_handleMsg. cbn [msg_type Z.eqb negb msg_val fst].
  destruct (consumeEnergy_ok true w.1 (of_Z 100) Hinv) as (s' & l & -> & Hi & Hs & _). cbn [rbind]. eauto 10.
Qed.

Definition demo_on : BaseEnergySM :=
  SM_simple (SimpleEnergySM.mkSimple SimpleEnergySM.STATE_POWER_ON (of_Z 5) (of_Z 20) 0).
Definition demo_fired : MgmtSt EventQueue :=
  mkSt (set_togo (demo_mgmt demo_on (of_Z 50)) [sm_msg SimpleEnergySM.POWER_ON]) false mgmt_queue.

Lemma broadcast_fifo_witness :
  exists s', broadcastMsg fst (fun w s => (s, w.2)) [demo_slave; demo_slave] (demo_fired, []) =
    Ok (s', [sm_msg SimpleEnergySM.POWER_ON; sm_msg SimpleEnergySM.POWER_ON]) /\
  togo_inv false s' /\ msg_togo (mg s') = [sm_msg SimpleEnergySM.POWER_OFF].
Proof.
  destruct (broadcast_fifo fst (fun w s => (s, w.2)) [demo_slave; demo_slave] (demo_fired, []))
    as (msg & rest & w1 & l & q' & H0 & _ & _ & H & Hi & _).
  - repeat constructor; exact demo_slave_ok.
  - destruct (demo_st_inv demo_on (of_Z 50)) as [H1 H2 H3 H4 H5 H6]. split; [exact H1|exact H2|exact H3|exact H4|exact H5|discriminate].
  - cbv zeta in *. destruct w1 as [s1 log]. set (s' := mkSt _ _ q') in *. clearbody s'. cbn [snd] in H. exists s'. rewrite H. vm_compute in H. injection H as <- <-.
    split; [reflexivity|]. split; [exact Hi|reflexivity].
Defined.

(** The profile is replayed in the order of the file: the harvest event
    with samples [x :: xs] left charges [x], leaves [xs], and schedules itself
    one time unit later, without touching the pending messages' event. *)
Theorem harvest_in_order {Q} `{EventSchedLaws Q} (s : MgmtSt Q) x xs :
  togo_inv false s -> energy_harvest_data (mg s) = readEnergyProfile (x :: xs) ->
  q_scheduled (mg_q s) (event_energy_harvest (mg s)) = false ->
  0 <= q_now (mg_q s) -> 0 <= time_unit (mg s) -> q_now (mg_q s) + time_unit (mg s) < 2 ^ 64 ->
  exists s', energyHarvest s = Ok s' /\ togo_inv false s' /\
  energy_harvest_data (mg s') = readEnergyProfile xs /\
  energy_remained (mg s') = new_energy (mg s) (mg_patch s) (dopp x) /\
  q_scheduled (mg_q s') (event_energy_harvest (mg s')) = true /\
  q_when (mg_q s') (event_energy_harvest (mg s')) = q_now (mg_q s) + time_unit (mg s).
Proof.
  intros Hinv Hd Hs Hn Hu Hov. unfold readEnergyProfile in *. cbn [rev] in Hd.
  destruct (energyHarvest_ok s x (rev xs) Hinv Hd Hs Hn Hu Hov) as (s' & l & Hh & Hi & Hc & Hd' & _ & He & H1 & H2 & _).
  exists s'. rewrite (sc_evh _ _ Hc). done.
Qed.

Definition demo_profile : MgmtSt EventQueue :=
  mkSt (set_data (demo_mgmt demo_simple (of_Z 12)) (readEnergyProfile [of_Z 3; of_Z 4])) false mgmt_queue.

Lemma harvest_in_order_witness :
  exists s', energyHarvest demo_profile = Ok s' /\
  energy_harvest_data (mg s') = readEnergyProfile [of_Z 4] /\ energy_remained (mg s') = of_Z 15.
Proof.
  destruct (harvest_in_order demo_profile (of_Z 3) [of_Z 4]) as (s' & H & _ & Hd & He & _).
  - destruct (demo_st_inv demo_simple (of_Z 12)) as [H1 H2 H3 H4 H5 H6]. split; [exact H1|exact H2|exact H3|exact H4|exact H5|exact H6].
  - reflexivity.
  - reflexivity.
  - vm_compute. discriminate.
  - vm_compute. discriminate.
  - vm_compute. reflexivity.
  - exists s'. split; [exact H|]. split; [exact Hd|]. rewrite He. vm_compute. reflexivity.
Defined.

(** A frequency machine whose switch-off threshold lies below its
    consumption bound (one nanojoule under the retention threshold) never
    switches off: with the energy at or above that bound, as every nonzero
    amount leaves it, no update announces a power failure. *)
Theorem lry_cannot_poweroff m patch t st val :
  state_machine m = SM_lry (mkLRY st t) ->
  dlt (thres_retention_to_off t) (lower m) = true ->
  config_ok m = true -> energy_ok m = true -> amount_ok m val = true ->
  dlt val dzero || dgt val dzero = true ->
  let '(sm', _, l) := sm_update (state_machine m) patch (new_energy m patch val) in
  l <> [sm_msg DFS_LRY.POWEROFF] /\
  (sm_state_code (state_machine m) <> 1 -> st <> DFS_LRY.STATE_INIT -> sm_state_code sm' <> 1).
Proof.
  intros Hsm Hlt Hc He Ha Hv. pose proof (new_energy_bounds m patch val Hc He Ha Hv) as (_ & Hl & _).
  assert (dle (new_energy m patch val) (thres_retention_to_off t) = false) as Hno.
  { apply not_true_iff_false. intros Hx. dorder. }
  rewrite Hsm. cbn [sm_update]. set (e := new_energy m patch val) in *. clearbody e.
  unfold LRY_update. cbn [lr_state lr_thres]. rewrite Hno.
  destruct st; cbn; repeat (case_match; simplify_eq/=); done.
Qed.

Definition low_off_thres : LRY_Thres :=
  mkThres (of_Z 90) (of_Z 70) (of_Z 50) (of_Z 30) (of_Z 15) (of_Z 8)
    (of_Z 25) (of_Z 25) (of_Z 40) (of_Z 60) (of_Z 80) (of_Z 100).

Lemma lry_cannot_poweroff_witness :
  let m := demo_mgmt (SM_lry (mkLRY STATE_RETENTION low_off_thres)) (of_Z 16) in
  let '(sm', _, l) := sm_update (state_machine m) true (new_energy m true (of_Z 1000)) in
  l <> [sm_msg DFS_LRY.POWEROFF].
Proof.
  exact (proj1 (lry_cannot_poweroff (demo_mgmt (SM_lry (mkLRY STATE_RETENTION low_off_thres)) (of_Z 16)) true
    low_off_thres STATE_RETENTION (of_Z 1000) eq_refl eq_refl eq_refl eq_refl eq_refl eq_refl)).
Defined.
