(* ===== verification/Clock.v ===== *)
(** * Clocks

    [sim/clocked_object.hh] (an object's view of its clock), [sim/clock_domain.cc]
    (source and derived clock domains), [sim/voltage_domain.cc] and
    [sim/dvfs_handler.cc] (delayed changes of the performance level).  Ticks,
    cycles and periods are [uint64_t]. *)
From Stdlib Require Import SpecFloat.
From S2P Require Import Prelude IntMath Double EventQueue EventQueueCorrect EventSched.
Open Scope Z_scope.

(** ** Definitions: clocked objects *)

(** [tick] is the next clock edge at the time of the last [update()], [cycle]
    the cycle that starts there. *)
Record Clocked := mkClocked { cl_tick : Z; cl_cycle : Z }.

Definition new_Clocked : Clocked := mkClocked 0 0.

Definition cl_update (now period : Z) (c : Clocked) : Clocked :=
  if now <=? cl_tick c then c
  else
    let c := mkClocked (u64 (cl_tick c + period)) (u64 (cl_cycle c + 1)) in
    if now <=? cl_tick c then c
    else
      let elapsedCycles := divCeil (u64 (now - cl_tick c)) period in
      mkClocked (u64 (cl_tick c + u64 (elapsedCycles * period))) (u64 (cl_cycle c + elapsedCycles)).

Definition resetClock (now period : Z) : Clocked :=
  let elapsedCycles := divCeil now period in
  mkClocked (u64 (elapsedCycles * period)) elapsedCycles.

Definition clockEdge (now period : Z) (c : Clocked) (cycles : Z) : Z * Clocked :=
  let c := cl_update now period c in
  (u64 (cl_tick c + u64 (period * cycles)), c).

Definition curCycle (now period : Z) (c : Clocked) : Z * Clocked :=
  let c := cl_update now period c in (cl_cycle c, c).

Definition nextCycle (now period : Z) (c : Clocked) : Z * Clocked := clockEdge now period c 1.

Definition ticksToCycles (period t : Z) : Z := divCeil t period.

(** ** Definitions: clock domains *)

(** A derived domain with its members and its own derived domains; every
    domain knows its current period. *)
Inductive DerivedClockDomain := mkDerived {
  dd_clockPeriod : Z;
  dd_clockDivider : Z;
  dd_members : list Clocked;
  dd_children : list DerivedClockDomain;
}.

(** [DerivedClockDomain::updateClockPeriod()]: the members are aligned with the
    old period, then the period is recomputed and the change handed down. *)
Fixpoint updateClockPeriod (now parent_period : Z) (d : DerivedClockDomain) : DerivedClockDomain :=
  match d with
  | mkDerived period divider members children =>
      let members := map (cl_update now period) members in
      let period := u64 (parent_period * divider) in
      mkDerived period divider members (map (updateClockPeriod now period) children)
  end.

Record SrcClockDomain := mkSrc {
  sd_clockPeriod : Z;
  sd_freqOpPoints : list Z;
  sd_domainID : Z;
  sd_perfLevel : Z;
  sd_members : list Clocked;
  sd_children : list DerivedClockDomain;
}.

(** [SrcClockDomain::clockPeriod(clock_period)]. *)
Definition set_clockPeriod (now clock_period : Z) (d : SrcClockDomain) : result SrcClockDomain :=
  if clock_period =? 0 then Err Fatal
  else
    let members := map (cl_update now (sd_clockPeriod d)) (sd_members d) in
    Ok (mkSrc clock_period (sd_freqOpPoints d) (sd_domainID d) (sd_perfLevel d) members
          (map (updateClockPeriod now clock_period) (sd_children d))).

Definition numPerfLevels (d : SrcClockDomain) : Z := Z.of_nat (length (sd_freqOpPoints d)).
Definition validPerfLevel (d : SrcClockDomain) (l : Z) : bool := l <? numPerfLevels d.
Definition clkPeriodAtPerfLevel (d : SrcClockDomain) (l : Z) : result Z :=
  let* _ := assert_ (validPerfLevel d l) in
  deref (sd_freqOpPoints d !! Z.to_nat l).

(** Ticks in ascending order ([std::is_sorted]). *)
Fixpoint is_sorted (l : list Z) : bool :=
  match l with
  | x :: ((y :: _) as l') => (x <=? y) && is_sorted l'
  | _ => true
  end.

(** ** Definitions: voltage domains *)

(** The clock domains a voltage domain feeds are given by their positions in
    the list of all source domains. *)
Record VoltageDomain := mkVolt {
  vd_voltageOpPoints : list double;
  vd_perfLevel : Z;
  vd_srcClockChildren : list nat;
}.

Definition numVoltages (v : VoltageDomain) : Z := Z.of_nat (length (vd_voltageOpPoints v)).

(** No voltage is followed by a greater one ([std::is_sorted] with
    [std::greater]). *)
Fixpoint is_descending (l : list double) : bool :=
  match l with
  | x :: ((y :: _) as l') => negb (dgt y x) && is_descending l'
  | _ => true
  end.

(** The constructor [VoltageDomain(p)]. *)
Definition new_VoltageDomain (voltage : list double) : result VoltageDomain :=
  if (length voltage =? 0)%nat then Err Fatal
  else if negb (is_descending voltage) then Err Fatal
  else Ok (mkVolt voltage 0 []).

(** [VoltageDomain::perfLevel(perf_level)]. *)
Definition vd_setPerfLevel (v : VoltageDomain) (l : Z) : result VoltageDomain :=
  let* _ := assert_ (l <? numVoltages v) in
  if l =? vd_perfLevel v then Ok v
  else Ok (mkVolt (vd_voltageOpPoints v) l (vd_srcClockChildren v)).

(** The loop of [sanitiseVoltages]: the smallest level of the children. *)
Fixpoint perf_max_loop (domains : list SrcClockDomain) (children : list nat) (perf_max : Z) : result Z :=
  match children with
  | [] => Ok perf_max
  | i :: children =>
      let* d := deref (domains !! i) in
      let perf := sd_perfLevel d in
      perf_max_loop domains children (if perf <? perf_max then perf else perf_max)
  end.

Definition sanitiseVoltages (domains : list SrcClockDomain) (v : VoltageDomain)
    : result (bool * VoltageDomain) :=
  if numVoltages v =? 1 then Ok (false, v)
  else
    let* perf_max := perf_max_loop domains (vd_srcClockChildren v) (u32 (-1)) in
    if negb (perf_max =? vd_perfLevel v) then
      let* v := vd_setPerfLevel v perf_max in Ok (true, v)
    else Ok (false, v).

(** All source domains and the voltage domain that feeds them. *)
Record Domains := mkDomains { src_domains : list SrcClockDomain; volt : VoltageDomain }.

Definition set_level (d : SrcClockDomain) (l : Z) : SrcClockDomain :=
  mkSrc (sd_clockPeriod d) (sd_freqOpPoints d) (sd_domainID d) l (sd_members d) (sd_children d).

(** [SrcClockDomain::perfLevel(perf_level)] of domain [i]. *)
Definition perfLevel (now : Z) (w : Domains) (i : nat) (l : Z) : result Domains :=
  let* d := deref (src_domains w !! i) in
  let* _ := assert_ (validPerfLevel d l) in
  if l =? sd_perfLevel d then Ok w
  else
    let d := set_level d l in
    let* ds := upd (src_domains w) i d in
    let* '(_, v) := sanitiseVoltages ds (volt w) in
    let* p := deref (sd_freqOpPoints d !! Z.to_nat l) in
    let* d := set_clockPeriod now p d in
    let* ds := upd ds i d in
    Ok (mkDomains ds v).

(** [SrcClockDomain::startup()]. *)
Definition src_startup (now : Z) (w : Domains) (i : nat) : result Domains :=
  let* d := deref (src_domains w !! i) in
  perfLevel now w i (sd_perfLevel d).

(** [SrcClockDomain::unserialize]: the level is restored from the checkpoint. *)
Definition src_unserialize (w : Domains) (i : nat) (l : Z) : result Domains :=
  let* d := deref (src_domains w !! i) in
  let* ds := upd (src_domains w) i (set_level d l) in
  Ok (mkDomains ds (volt w)).

(** The constructor [SrcClockDomain(p)], before any member is registered. *)
Definition new_SrcClockDomain (now : Z) (clock : list Z) (domain_id init_perf_level : Z)
    (vdom : VoltageDomain) : result SrcClockDomain :=
  if (length clock =? 0)%nat then Err Fatal
  else if (1 <? numVoltages vdom) && negb (numVoltages vdom =? Z.of_nat (length clock)) then Err Fatal
  else if negb (is_sorted clock) then Err Fatal
  else if Z.of_nat (length clock) <=? init_perf_level then Err Fatal
  else
    let* p := deref (clock !! Z.to_nat init_perf_level) in
    set_clockPeriod now p (mkSrc 0 clock domain_id init_perf_level [] []).

(** ** Definitions: the DVFS handler *)

(** An update event and what it will do. *)
Record UpdateEvent := mkUpd { ue_event : ptr; ue_domain : nat; ue_perfLevelToSet : Z }.

(** Domain IDs to their update events ([domains] and [updatePerfLevelEvents]
    have the same keys). *)
Record DVFSHandler := mkHandler {
  dh_events : gmap Z UpdateEvent;
  dh_enable : bool;
  dh_transLatency : Z;
}.

Section Handler.
Context {Q : Type} `{EventSched Q}.

Record DvfsSt := mkDvfs { dv_handler : DVFSHandler; dv_domains : Domains; dv_q : Q }.

Definition set_event (h : DVFSHandler) (id : Z) (u : UpdateEvent) : DVFSHandler :=
  mkHandler (<[id := u]> (dh_events h)) (dh_enable h) (dh_transLatency h).

(** [DVFSHandler::perfLevel(domain_id, perf_level)]: ask for a change. *)
Definition requestPerfLevel (s : DvfsSt) (domain_id perf_level : Z) : result (bool * DvfsSt) :=
  let h := dv_handler s in
  let* _ := assert_ (dh_enable h) in
  match dh_events h !! domain_id with
  | None => Err Panic
  | Some u =>
      let* d := deref (src_domains (dv_domains s) !! ue_domain u) in
      if negb (validPerfLevel d perf_level) then Ok (false, s)
      else
        let* q :=
          if q_scheduled (dv_q s) (ue_event u) then q_deschedule (dv_q s) (ue_event u) else Ok (dv_q s) in
        let h := set_event h domain_id (mkUpd (ue_event u) (ue_domain u) perf_level) in
        if sd_perfLevel d =? perf_level then Ok (false, mkDvfs h (dv_domains s) q)
        else
          let* q := q_schedule q (ue_event u) (u64 (q_now q + dh_transLatency h)) in
          Ok (true, mkDvfs h (dv_domains s) q)
  end.

(** [UpdateEvent::updatePerfLevel()]: the event of [domain_id] fires. *)
Definition updatePerfLevel (s : DvfsSt) (domain_id : Z) : result DvfsSt :=
  match dh_events (dv_handler s) !! domain_id with
  | None => Err Panic
  | Some u =>
      let* d := deref (src_domains (dv_domains s) !! ue_domain u) in
      let* _ := assert_ (negb (sd_perfLevel d =? ue_perfLevelToSet u)) in
      let* w := perfLevel (q_now (dv_q s)) (dv_domains s) (ue_domain u) (ue_perfLevelToSet u) in
      Ok (mkDvfs (dv_handler s) w (dv_q s))
  end.
End Handler.
Arguments DvfsSt Q : clear implicits.

(** ** Alignment *)

(** No counter of the object overflows when time advances to [now]. *)
Definition cl_bounded (now period : Z) (c : Clocked) : Prop :=
  0 < period /\ 0 <= now /\ 0 <= cl_tick c /\ 0 <= cl_cycle c /\
  now + period < 2 ^ 64 /\ cl_tick c + period < 2 ^ 64 /\ cl_cycle c + now + 2 < 2 ^ 64.

(** The number of periods until the first edge at or after [now]. *)
Definition edges (now period tick : Z) : Z := if now <=? tick then 0 else (now - tick + period - 1) / period.

Lemma edges_spec now period tick :
  0 < period -> 0 <= edges now period tick /\ now <= tick + edges now period tick * period /\
  (tick < now -> tick + edges now period tick * period < now + period).
Proof.
  intros Hp. unfold edges. destruct (Z.leb_spec now tick); [lia|].
  pose proof (Z.div_mod (now - tick + period - 1) period ltac:(lia)).
  pose proof (Z.mod_pos_bound (now - tick + period - 1) period Hp).
  assert (0 <= (now - tick + period - 1) / period) by (apply Z.div_pos; lia). nia.
Qed.

Lemma edges_unique now period tick k :
  0 < period -> tick < now -> now <= tick + k * period < now + period -> k = edges now period tick.
Proof. intros Hp Ht Hk. destruct (edges_spec now period tick Hp) as (_ & H1 & H2). specialize (H2 Ht). nia. Qed.

Lemma edges_le now period tick : 0 < period -> 0 <= tick -> 0 <= now -> edges now period tick <= now.
Proof. intros Hp Ht Hn. destruct (edges_spec now period tick Hp) as (H0 & H1 & H2). destruct (Z.leb_spec now tick) as [Hle|Hlt].
  - unfold edges. rewrite (proj2 (Z.leb_le _ _)) by done. done.
  - specialize (H2 Hlt). nia.
Qed.

(** The optimised [update()] is the direct computation: it advances by whole
    periods to the first edge that is not before the current tick. *)
Lemma update_edges now period c :
  cl_bounded now period c ->
  let k := edges now period (cl_tick c) in
  cl_update now period c = mkClocked (cl_tick c + k * period) (cl_cycle c + k).
Proof.
  intros (Hp & Hn & Ht & Hc & B1 & B2 & B3) k. unfold cl_update.
  pose proof (edges_spec now period (cl_tick c) Hp) as (K0 & K1 & K2). fold k in K0, K1, K2.
  pose proof (edges_le now period (cl_tick c) Hp Ht Hn) as Kn. fold k in Kn.
  destruct (Z.leb_spec now (cl_tick c)) as [Hle|Hlt].
  { assert (k = 0) as -> by (unfold k, edges; by rewrite (proj2 (Z.leb_le _ _))). destruct c; cbn. f_equal; lia. }
  specialize (K2 Hlt). cbn [cl_tick cl_cycle].
  rewrite (u64_small (cl_tick c + period)), (u64_small (cl_cycle c + 1)) by (unfold in_range; lia).
  destruct (Z.leb_spec now (cl_tick c + period)) as [Hle1|Hlt1].
  { assert (1 = k) as <- by (apply edges_unique; lia). f_equal; lia. }
  rewrite (u64_small (now - (cl_tick c + period))) by (unfold in_range; lia).
  destruct (divCeil_spec (now - (cl_tick c + period)) period ltac:(lia) ltac:(lia) ltac:(lia)) as [Hd Hd0].
  set (e := divCeil _ _) in *. assert (e + 1 = k) as He by (apply edges_unique; lia).
  rewrite (u64_small (e * period)) by (unfold in_range; nia).
  rewrite !u64_small by (unfold in_range; nia). f_equal; nia.
Qed.

(** An object whose stored edge is at most one period ahead. *)
Definition cl_fresh (now period : Z) (c : Clocked) : Prop := cl_tick c < now + period.

Lemma update_fresh now period c :
  cl_bounded now period c -> cl_fresh now period c ->
  now <= cl_tick (cl_update now period c) < now + period.
Proof.
  intros Hb Hf. rewrite update_edges by done. cbn.
  destruct (edges_spec now period (cl_tick c)) as (K0 & K1 & K2); [apply Hb|].
  split; [done|]. destruct (Z.le_gt_cases now (cl_tick c)) as [Hle|Hlt]; [|apply K2; lia].
  unfold edges. rewrite (proj2 (Z.leb_le _ _)) by done. unfold cl_fresh in Hf. lia.
Qed.

(** ** Propagation through the tree of domains *)

(** Every derived domain below a domain of the given period runs at that period
    times its divider. *)
Fixpoint dd_consistent (parent : Z) (d : DerivedClockDomain) : Prop :=
  match d with
  | mkDerived period divider _ children =>
      period = u64 (parent * divider) /\
      (fix all (l : list DerivedClockDomain) : Prop :=
         match l with [] => True | c :: l => dd_consistent period c /\ all l end) children
  end.

(** The members of the domain and of the domains below it. *)
Fixpoint dd_all_members (d : DerivedClockDomain) : list (Z * Clocked) :=
  match d with
  | mkDerived period _ members children =>
      map (fun c => (period, c)) members ++
      (fix all (l : list DerivedClockDomain) : list (Z * Clocked) :=
         match l with [] => [] | c :: l => dd_all_members c ++ all l end) children
  end.

Lemma updateClockPeriod_consistent now parent d : dd_consistent parent (updateClockPeriod now parent d).
Proof.
  revert parent. revert d. fix IH 1. intros [period divider members children] parent.
  cbn [updateClockPeriod dd_consistent]. split; [done|].
  generalize (u64 (parent * divider)). intros p. revert children. fix IHl 1.
  intros [|c l]; cbn [map]; [exact I|]. split; [apply IH|apply IHl].
Qed.

(** The members are aligned with the period they had before the change. *)
Lemma updateClockPeriod_members now parent d :
  map snd (dd_all_members (updateClockPeriod now parent d)) =
  map (fun pc => cl_update now pc.1 pc.2) (dd_all_members d).
Proof.
  revert parent. revert d. fix IH 1. intros [period divider members children] parent.
  cbn [updateClockPeriod dd_all_members]. rewrite !map_app, !map_map. f_equal.
  generalize (u64 (parent * divider)). intros p. revert children. fix IHl 1.
  intros [|c l]; cbn [map]; [reflexivity|]. rewrite !map_app. f_equal; [apply IH|apply IHl].
Qed.

(** ** DVFS requests *)

Section HandlerCorrect.
Context {Q : Type} `{EventSchedLaws Q}.

(** A pending update always changes something: the level it will set is valid
    and differs from the level of its domain.  Domains have their own events. *)
Record dvfs_inv (s : DvfsSt Q) : Prop := {
  di_q : q_inv (dv_q s);
  di_own id u : dh_events (dv_handler s) !! id = Some u -> q_own (dv_q s) (ue_event u);
  di_dom id u : dh_events (dv_handler s) !! id = Some u ->
    exists d, src_domains (dv_domains s) !! ue_domain u = Some d;
  di_inj id id' u u' : dh_events (dv_handler s) !! id = Some u -> dh_events (dv_handler s) !! id' = Some u' ->
    id <> id' -> ue_event u <> ue_event u' /\ ue_domain u <> ue_domain u';
  di_pending id u d : dh_events (dv_handler s) !! id = Some u ->
    src_domains (dv_domains s) !! ue_domain u = Some d ->
    q_scheduled (dv_q s) (ue_event u) = true ->
    0 <= ue_perfLevelToSet u /\ validPerfLevel d (ue_perfLevelToSet u) = true /\
    sd_perfLevel d <> ue_perfLevelToSet u;
}.

(** Dropping the pending request, if there is one. *)
Lemma drop_pending q p :
  q_inv q -> q_own q p ->
  exists q', (if q_scheduled q p then q_deschedule q p else Ok q) = Ok q' /\ q_inv q' /\
  q_scheduled q' p = false /\ q_now q' = q_now q /\ (forall r, q_own q r -> q_own q' r) /\
  (forall r, r <> p -> q_scheduled q' r = q_scheduled q r).
Proof.
  intros Hi Ho. destruct (q_scheduled q p) eqn:Hs.
  - destruct (q_deschedule_ok q p Hi Ho Hs) as (q' & -> & Hi' & [N S _ _ O R]).
    exists q'. split_and!; try done. intros r Hr. by destruct (R r Hr).
  - exists q. done.
Qed.

Lemma request_ok s id u level :
  dvfs_inv s -> dh_events (dv_handler s) !! id = Some u -> dh_enable (dv_handler s) = true -> 0 <= level ->
  0 <= q_now (dv_q s) -> 0 <= dh_transLatency (dv_handler s) ->
  q_now (dv_q s) + dh_transLatency (dv_handler s) < 2 ^ 64 ->
  exists b s', requestPerfLevel s id level = Ok (b, s') /\ dvfs_inv s' /\
  dv_domains s' = dv_domains s.
Proof.
  intros Hinv0 Hu Hen Hlv0 Hn Hl Hov. pose proof Hinv0 as [Hq Ho Hd Hin Hp]. unfold requestPerfLevel. rewrite Hen, Hu. cbn [assert_ rbind].
  destruct (Hd _ _ Hu) as [d Hdu]. rewrite Hdu. cbn [deref rbind].
  destruct (validPerfLevel d level) eqn:Hv; cbn [negb]; [|by exists false, s].
  destruct (drop_pending (dv_q s) (ue_event u) Hq (Ho _ _ Hu)) as (q1 & -> & Hq1 & Hs1 & Hn1 & Ho1 & Hr1).
  cbn [rbind].
  assert (forall q2, q_inv q2 -> (forall r, q_own q1 r -> q_own q2 r) ->
    (forall r, r <> ue_event u -> q_scheduled q2 r = q_scheduled q1 r) ->
    (q_scheduled q2 (ue_event u) = true -> sd_perfLevel d <> level) ->
    dvfs_inv (mkDvfs (set_event (dv_handler s) id (mkUpd (ue_event u) (ue_domain u) level)) (dv_domains s) q2)) as Hinv.
  { intros q2 Hq2 Ho2 Hr2 Hlv. split; cbn; [done| | | |].
    - intros id' u' [[<- <-]|[Hne Hu']]%lookup_insert_Some; cbn; eauto.
    - intros id' u' [[<- <-]|[Hne Hu']]%lookup_insert_Some; cbn; eauto.
    - intros i j ui uj [[<- <-]|[Hi Hui]]%lookup_insert_Some [[<- <-]|[Hj Huj]]%lookup_insert_Some Hne; cbn; eauto.
    - intros i ui di [[<- <-]|[Hi Hui]]%lookup_insert_Some Hdi Hsc; cbn in *.
      + assert (di = d) as -> by congruence. auto.
      + destruct (Hin i id ui u Hui Hu ltac:(congruence)) as [Hev _].
        rewrite Hr2, Hr1 in Hsc by done. eauto. }
  destruct (Z.eqb_spec (sd_perfLevel d) level) as [He|He].
  - do 2 eexists. split; [done|]. split; [|done]. apply Hinv; [done|done|done|by rewrite Hs1].
  - cbn [set_event dh_transLatency]. rewrite Hn1, u64_small by (unfold in_range; lia).
    destruct (q_schedule_ok q1 (ue_event u) (q_now (dv_q s) + dh_transLatency (dv_handler s)) Hq1 (Ho1 _ (Ho _ _ Hu)) Hs1)
      as (q2 & -> & Hq2 & [N2 S2 _ _ O2 R2]); [lia|].
    cbn [rbind]. do 2 eexists. split; [done|]. split; [|done].
    apply Hinv; [done|done| |done]. intros r Hr. by destruct (R2 r Hr).
Qed.

(** ** Setting a level *)

(** A configuration in which every level of every domain can be set. *)
Record domains_ok (w : Domains) : Prop := {
  do_freq i d l p : src_domains w !! i = Some d -> sd_freqOpPoints d !! l = Some p -> p <> 0;
  do_level i d : src_domains w !! i = Some d -> 0 <= sd_perfLevel d < numPerfLevels d;
  do_volt : numVoltages (volt w) = 1 \/
    (vd_srcClockChildren (volt w) <> [] /\ numVoltages (volt w) < 2 ^ 32 /\
     forall i, i ∈ vd_srcClockChildren (volt w) ->
     exists d, src_domains w !! i = Some d /\ numPerfLevels d = numVoltages (volt w));
}.

(** The voltage domain follows the fastest of its clock domains. *)
Lemma perf_max_spec ds children pm :
  (forall i, i ∈ children -> is_Some (ds !! i)) ->
  exists r, perf_max_loop ds children pm = Ok r /\ r <= pm /\
  (forall i d, i ∈ children -> ds !! i = Some d -> r <= sd_perfLevel d) /\
  (r = pm \/ exists i d, i ∈ children /\ ds !! i = Some d /\ r = sd_perfLevel d).
Proof.
  revert pm. induction children as [|i l IH]; intros pm Hl; cbn [perf_max_loop].
  { exists pm. split; [done|]. split; [lia|]. split; [by intros ? ? ?%elem_of_nil|by left]. }
  destruct (Hl i) as [d Hd]; [set_solver|]. rewrite Hd. cbn [deref rbind].
  destruct (IH (if sd_perfLevel d <? pm then sd_perfLevel d else pm)) as (r & -> & Hr & Hall & Hex);
    [intros; apply Hl; set_solver|].
  exists r. split; [done|]. destruct (Z.ltb_spec (sd_perfLevel d) pm) as [Hlt|Hge].
  - split; [lia|]. split.
    + intros j dj [->|Hj]%elem_of_cons Hdj; [simplify_eq; lia|eauto].
    + right. destruct Hex as [->|(j & dj & Hj & ?)]; [exists i, d|exists j, dj]; split; try done; set_solver.
  - split; [lia|]. split.
    + intros j dj [->|Hj]%elem_of_cons Hdj; [simplify_eq; lia|eauto].
    + destruct Hex as [->|(j & dj & Hj & ?)]; [by left|right]. exists j, dj. split; [set_solver|done].
Qed.

Lemma sanitise_ok w ds :
  numVoltages (volt w) = 1 \/
    (vd_srcClockChildren (volt w) <> [] /\
     forall i, i ∈ vd_srcClockChildren (volt w) -> exists d, ds !! i = Some d /\
     sd_perfLevel d < numVoltages (volt w)) ->
  exists b v, sanitiseVoltages ds (volt w) = Ok (b, v) /\
  vd_voltageOpPoints v = vd_voltageOpPoints (volt w) /\ vd_srcClockChildren v = vd_srcClockChildren (volt w) /\
  (numVoltages (volt w) <> 1 -> forall i d, i ∈ vd_srcClockChildren v -> ds !! i = Some d ->
   vd_perfLevel v <= sd_perfLevel d).
Proof.
  intros Hne. unfold sanitiseVoltages.
  destruct (Z.eqb_spec (numVoltages (volt w)) 1) as [H1|H1]; [by exists false, (volt w)|].
  destruct Hne as [?|[Hne Hch]]; [done|].
  destruct (perf_max_spec ds (vd_srcClockChildren (volt w)) (u32 (-1))) as (r & -> & Hr & Hall & Hex).
  { intros i Hi. destruct (Hch i Hi) as (d & ? & _). eauto. }
  cbn [rbind]. destruct (Z.eqb_spec r (vd_perfLevel (volt w))) as [->|Hr0]; cbn [negb].
  { exists false, (volt w). done. }
  assert (r < numVoltages (volt w)) as Hlt.
  { destruct (vd_srcClockChildren (volt w)) as [|i l]; [done|].
    destruct (Hch i) as (d & Hd & ?); [set_solver|]. specialize (Hall i d ltac:(set_solver) Hd). lia. }
  unfold vd_setPerfLevel. rewrite (proj2 (Z.ltb_lt _ _) Hlt). cbn [assert_ rbind].
  rewrite (proj2 (Z.eqb_neq _ _) Hr0). cbn [rbind]. eexists true, _. split; [done|]. cbn. eauto.
Qed.

(** [SrcClockDomain::perfLevel] on a good configuration: the level and the
    period of the domain are the requested ones, every derived domain follows,
    and no other domain changes. *)
Lemma perfLevel_ok now w i d l :
  domains_ok w -> src_domains w !! i = Some d -> 0 <= l -> validPerfLevel d l = true ->
  exists w' d', perfLevel now w i l = Ok w' /\ src_domains w' !! i = Some d' /\
  sd_perfLevel d' = l /\ sd_freqOpPoints d' = sd_freqOpPoints d /\
  (l <> sd_perfLevel d -> sd_freqOpPoints d !! Z.to_nat l = Some (sd_clockPeriod d') /\
    Forall (dd_consistent (sd_clockPeriod d')) (sd_children d')) /\
  (forall j, j <> i -> src_domains w' !! j = src_domains w !! j).
Proof.
  intros Hok Hd Hl Hv. unfold perfLevel. rewrite Hd. cbn [deref rbind]. rewrite Hv. cbn [assert_ rbind].
  destruct (Z.eqb_spec l (sd_perfLevel d)) as [->|Hne]; [by exists w, d|].
  assert (i < length (src_domains w))%nat as Hi by (by apply lookup_lt_Some in Hd).
  set (d1 := set_level d l). set (ds := <[i:=d1]> (src_domains w)).
  assert (upd (src_domains w) i d1 = Ok ds) as -> by (by apply upd_ok). cbn [rbind].
  assert (length ds = length (src_domains w)) as Hlen by apply length_insert.
  destruct (sanitise_ok w ds) as (b & v & -> & _).
  { destruct (do_volt _ Hok) as [?|(Hne' & _ & Hch)]; [by left|right]. split; [done|].
    intros j Hj. destruct (Hch j Hj) as (dj & Hdj & Hnj). destruct (decide (j = i)) as [->|Hji].
    - exists d1. unfold ds. rewrite list_lookup_insert_eq by done. split; [done|]. cbn.
      assert (dj = d) as -> by congruence. unfold validPerfLevel in Hv. lia.
    - exists dj. unfold ds. rewrite list_lookup_insert_ne by done. split; [done|].
      pose proof (do_level _ Hok j dj Hdj). lia. }
  cbn [rbind d1 set_level sd_freqOpPoints].
  destruct (lookup_lt_is_Some_2 (sd_freqOpPoints d) (Z.to_nat l)) as [pr Hpr].
  { unfold validPerfLevel, numPerfLevels in Hv. lia. }
  rewrite Hpr. cbn [deref rbind]. unfold set_clockPeriod.
  rewrite (proj2 (Z.eqb_neq _ _) (do_freq _ Hok _ _ _ _ Hd Hpr)). cbn [rbind].
  match goal with |- context [upd ds i ?x] => set (d2 := x); assert (upd ds i d2 = Ok (<[i:=d2]> ds)) as -> end.
  { apply upd_ok. split; [lia|done]. }
  cbn [rbind]. exists (mkDomains (<[i:=d2]> ds) v), d2. split; [done|]. cbn [src_domains].
  rewrite list_lookup_insert_eq by lia. split_and!; try done.
  - intros _. split; [done|]. unfold d2. cbn [sd_children sd_clockPeriod d1 set_level].
    apply Forall_forall. intros c (c' & -> & _)%list_elem_of_fmap. apply updateClockPeriod_consistent.
  - intros j Hj. unfold ds. by rewrite !list_lookup_insert_ne.
Qed.

(** The queue once the event of [u] has been taken out to be processed. *)
Record taken (q q' : Q) (p : ptr) : Prop := {
  tk_inv : q_inv q';
  tk_this : q_scheduled q' p = false;
  tk_own r : q_own q r -> q_own q' r;
  tk_other r : r <> p -> q_scheduled q' r = q_scheduled q r;
}.

Lemma update_ok s id u d q' :
  dvfs_inv s -> domains_ok (dv_domains s) -> dh_events (dv_handler s) !! id = Some u ->
  src_domains (dv_domains s) !! ue_domain u = Some d ->
  q_scheduled (dv_q s) (ue_event u) = true -> taken (dv_q s) q' (ue_event u) ->
  exists s' d', updatePerfLevel (mkDvfs (dv_handler s) (dv_domains s) q') id = Ok s' /\ dvfs_inv s' /\
  src_domains (dv_domains s') !! ue_domain u = Some d' /\ sd_perfLevel d' = ue_perfLevelToSet u /\
  sd_freqOpPoints d !! Z.to_nat (ue_perfLevelToSet u) = Some (sd_clockPeriod d').
Proof.
  intros [Hq Ho Hd Hin Hp] Hok Hu Hdu Hs [Tq Ts To Tr]. destruct (Hp _ _ _ Hu Hdu Hs) as (Hl & Hv & Hne).
  unfold updatePerfLevel. cbn [dv_handler dv_domains dv_q]. rewrite Hu, Hdu. cbn [deref rbind].
  rewrite (proj2 (Z.eqb_neq _ _) Hne). cbn [negb assert_ rbind].
  destruct (perfLevel_ok (q_now q') _ _ _ _ Hok Hdu Hl Hv) as (w' & d' & -> & Hd' & Hlv & _ & Hper & Hoth).
  cbn [rbind]. exists (mkDvfs (dv_handler s) w' q'), d'. split; [done|]. cbn [dv_domains].
  split; [|split_and!; try done; by apply Hper, not_eq_sym].
  split; cbn; [done|eauto| |done|].
  - intros id1 u1 Hu1. destruct (decide (ue_domain u1 = ue_domain u)) as [->|Hne1]; [eauto|].
    rewrite Hoth by done. eauto.
  - intros id1 u1 d1 Hu1 Hd1 Hs1. destruct (decide (id1 = id)) as [->|Hid].
    { assert (u1 = u) as -> by congruence. congruence. }
    destruct (Hin _ _ _ _ Hu1 Hu Hid) as [Hev Hdo]. rewrite Hoth in Hd1 by done. rewrite Tr in Hs1 by done. eauto.
Qed.
End HandlerCorrect.

(** ** Properties *)

(** The optimised [update()] of a clocked object, with its fast path for
    one period, is the direct computation: the object advances by the least
    number of whole periods that brings its edge to the current tick or later,
    and counts exactly that many cycles. *)
Theorem update_reference now period c :
  cl_bounded now period c ->
  exists k, cl_update now period c = mkClocked (cl_tick c + k * period) (cl_cycle c + k) /\
  0 <= k /\ now <= cl_tick c + k * period /\
  (forall j, 0 <= j -> now <= cl_tick c + j * period -> k <= j).
Proof.
  intros Hb. exists (edges now period (cl_tick c)). split; [by apply update_edges|].
  destruct (edges_spec now period (cl_tick c)) as (K0 & K1 & K2); [apply Hb|]. split_and!; try done.
  intros j Hj Hn. destruct (Z.le_gt_cases now (cl_tick c)) as [Hle|Hlt].
  - unfold edges. by rewrite (proj2 (Z.leb_le _ _)).
  - specialize (K2 ltac:(lia)). nia.
Qed.

Lemma update_reference_witness :
  exists k, cl_update 950 100 (mkClocked 200 2) = mkClocked (200 + k * 100) (2 + k) /\ 950 <= 200 + k * 100.
Proof.
  destruct (update_reference 950 100 (mkClocked 200 2)) as (k & H & _ & Hn & _);
    [unfold cl_bounded; cbn; lia|]. exists k. split; [exact H|exact Hn].
Defined.

(** [clockEdge(n)] and [nextCycle()] give the edges their documentation
    promises, as long as the stored edge is less than a period ahead: the first
    lies in [curTick + [0, period) + n * period], the second in
    [curTick + [period, 2 * period)]. *)
Theorem clockEdge_range now period c n :
  cl_bounded now period c -> cl_fresh now period c ->
  0 <= n -> now + period + period * n < 2 ^ 64 ->
  now + period * n <= (clockEdge now period c n).1 < now + period + period * n /\
  cl_fresh now period (clockEdge now period c n).2.
Proof.
  intros Hb Hf Hn Hov. pose proof (update_fresh now period c Hb Hf) as Hu. unfold clockEdge. cbn [fst snd].
  destruct Hb as (Hp & H0 & _). rewrite (u64_small (period * n)) by (unfold in_range; nia).
  rewrite u64_small by (unfold in_range; nia). unfold cl_fresh. lia.
Qed.

Lemma clockEdge_range_witness :
  250 + 100 * 1 <= (nextCycle 250 100 (mkClocked 200 2)).1 < 250 + 100 + 100 * 1.
Proof.
  apply (clockEdge_range 250 100 (mkClocked 200 2) 1); [unfold cl_bounded; cbn; lia|unfold cl_fresh; cbn; lia|lia|lia].
Defined.

(** After the clock is sped up the documented range of [clockEdge] does not
    hold: an object aligned to an edge of the slow clock keeps waiting for that
    edge, [curTick] plus more than the new period away. *)
Theorem speedup_edge_late now slow fast :
  0 < fast -> 0 < now -> now + fast <= slow -> slow < 2 ^ 62 ->
  (clockEdge now fast (cl_update now slow new_Clocked) 0).1 = slow.
Proof.
  intros Hf Hn Hs Hov. rewrite (update_edges now slow new_Clocked) by (unfold cl_bounded; cbn; lia).
  cbn [cl_tick cl_cycle new_Clocked].
  assert (1 = edges now slow 0) as <- by (apply edges_unique; lia).
  unfold clockEdge, cl_update. cbn [cl_tick cl_cycle].
  rewrite (proj2 (Z.leb_le _ _)) by lia. cbn [fst cl_tick]. rewrite Z.mul_0_r.
  change (u64 0) with 0. rewrite u64_small by (unfold in_range; lia). lia.
Qed.

Lemma speedup_edge_late_witness : (clockEdge 1 10 (cl_update 1 100 new_Clocked) 0).1 = 100.
Proof. apply (speedup_edge_late 1 100 10); lia. Defined.

(** Setting the period of a source domain reaches the whole tree: every
    derived domain runs at its parent's new period times its divider, and every
    object of the tree was aligned to the current tick with its old period. *)
Theorem period_propagates now p d d' :
  set_clockPeriod now p d = Ok d' ->
  p <> 0 /\ sd_clockPeriod d' = p /\ Forall (dd_consistent p) (sd_children d') /\
  sd_members d' = map (cl_update now (sd_clockPeriod d)) (sd_members d) /\
  map snd (concat (map dd_all_members (sd_children d'))) =
  map (fun pc => cl_update now pc.1 pc.2) (concat (map dd_all_members (sd_children d))).
Proof.
  unfold set_clockPeriod. destruct (Z.eqb_spec p 0) as [|Hp]; [done|]. intros [= <-]. cbn.
  split_and!; try done.
  - apply Forall_forall. intros c (c' & -> & _)%list_elem_of_fmap. apply updateClockPeriod_consistent.
  - induction (sd_children d) as [|c l IH]; cbn; [done|].
    rewrite !map_app, IH. f_equal. apply updateClockPeriod_members.
Qed.

Definition demo_src : SrcClockDomain :=
  mkSrc 100 [50; 100] 1 1 [mkClocked 0 0] [mkDerived 200 2 [mkClocked 0 0] [mkDerived 600 3 [] []]].

Lemma period_propagates_witness :
  exists d', set_clockPeriod 130 50 demo_src = Ok d' /\ Forall (dd_consistent 50) (sd_children d').
Proof.
  destruct (set_clockPeriod 130 50 demo_src) as [d'|] eqn:H; [|vm_compute in H; discriminate].
  exists d'. split; [reflexivity|]. exact (proj1 (proj2 (proj2 (period_propagates 130 50 demo_src d' H)))).
Defined.

(** A performance level restored from a checkpoint is never applied:
    [startup()] asks for the level the domain already claims to have, which is
    ignored, so the clock period stays the one of the level the simulator was
    configured with. *)
Theorem startup_keeps_stale_period now w i d l :
  src_domains w !! i = Some d -> validPerfLevel d l = true ->
  exists w1 w2 d2, src_unserialize w i l = Ok w1 /\ src_startup now w1 i = Ok w2 /\
  src_domains w2 !! i = Some d2 /\ sd_perfLevel d2 = l /\ sd_clockPeriod d2 = sd_clockPeriod d.
Proof.
  intros Hd Hv. assert (i < length (src_domains w))%nat as Hi by (by apply lookup_lt_Some in Hd).
  set (d1 := set_level d l). set (ds := <[i:=d1]> (src_domains w)).
  assert (ds !! i = Some d1) as Hds by (by apply list_lookup_insert_eq).
  exists (mkDomains ds (volt w)), (mkDomains ds (volt w)), d1. split; [|split; [|done]].
  - unfold src_unserialize. rewrite Hd. cbn [deref rbind].
    assert (upd (src_domains w) i (set_level d l) = Ok ds) as -> by (by apply upd_ok). done.
  - unfold src_startup, perfLevel. cbn [src_domains]. rewrite Hds. cbn [deref rbind].
    change (validPerfLevel d1 (sd_perfLevel d1)) with (validPerfLevel d l). rewrite Hv. cbn [assert_ rbind].
    by rewrite Z.eqb_refl.
Qed.

Definition demo_domains : Domains := mkDomains [demo_src] (mkVolt [of_Z 2; of_Z 1] 1 [0%nat]).

Lemma startup_keeps_stale_period_witness :
  exists w1 w2 d2, src_unserialize demo_domains 0 0 = Ok w1 /\ src_startup 0 w1 0 = Ok w2 /\
  src_domains w2 !! 0%nat = Some d2 /\ sd_perfLevel d2 = 0 /\ sd_clockPeriod d2 = 100.
Proof.
  exact (startup_keeps_stale_period 0 demo_domains 0 demo_src 0 eq_refl eq_refl).
Defined.

(** A DVFS change request never makes its update event fail.  A request for
    a known domain always succeeds and keeps the invariant that a scheduled
    update changes the level of its domain; hence when the event fires its
    assertion holds, and level, period and derived clocks become the requested
    ones. *)
Theorem dvfs_requests_safe {Q} `{EventSchedLaws Q} (s : DvfsSt Q) id u level :
  dvfs_inv s -> domains_ok (dv_domains s) -> dh_events (dv_handler s) !! id = Some u ->
  dh_enable (dv_handler s) = true -> 0 <= level ->
  0 <= q_now (dv_q s) -> 0 <= dh_transLatency (dv_handler s) ->
  q_now (dv_q s) + dh_transLatency (dv_handler s) < 2 ^ 64 ->
  (exists b s', requestPerfLevel s id level = Ok (b, s') /\ dvfs_inv s' /\ dv_domains s' = dv_domains s) /\
  (forall q', q_scheduled (dv_q s) (ue_event u) = true -> taken (dv_q s) q' (ue_event u) ->
   exists s' d', updatePerfLevel (mkDvfs (dv_handler s) (dv_domains s) q') id = Ok s' /\ dvfs_inv s' /\
   src_domains (dv_domains s') !! ue_domain u = Some d' /\ sd_perfLevel d' = ue_perfLevelToSet u).
Proof.
  intros Hinv Hok Hu Hen Hl Hn Ht Hov. split; [by eapply request_ok|].
  intros q' Hs Htk. destruct (di_dom _ Hinv _ _ Hu) as [d Hd].
  destruct (update_ok s id u d q' Hinv Hok Hu Hd Hs Htk) as (s' & d' & ? & ? & ? & ? & _). eauto 10.
Qed.

Definition dvfs_heap : heap := {[ 7%positive := idle DVFS_Update_Pri ]}.
Definition dvfs_queue : EventQueue := mkEventQueue dvfs_heap None 0 [] 0 false 0.
Definition demo_dvfs : DvfsSt EventQueue :=
  mkDvfs (mkHandler {[ 1 := mkUpd 7 0 0 ]} true 100) demo_domains dvfs_queue.

Lemma demo_dvfs_inv : dvfs_inv demo_dvfs.
Proof.
  assert (forall id u, dh_events (dv_handler demo_dvfs) !! id = Some u -> id = 1 /\ u = mkUpd 7 0 0) as Hev.
  { cbn [demo_dvfs dv_handler dh_events]. intros id u Hu. apply lookup_singleton_Some in Hu as [<- <-]. done. }
  split.
  - split; [done|]. split; [done|]. exists []. apply wf_empty; [done|done|].
    apply (bool_decide_unpack _). vm_compute. exact I.
  - intros id u [-> ->]%Hev. eexists. split; [reflexivity|split; done].
  - intros id u [-> ->]%Hev. by exists demo_src.
  - intros id id' u u' [-> ->]%Hev [-> ->]%Hev. done.
  - intros id u d [-> ->]%Hev _ Hs. done.
Qed.

Lemma dvfs_requests_safe_witness :
  exists b s', requestPerfLevel demo_dvfs 1 0 = Ok (b, s') /\ dvfs_inv s'.
Proof.
  destruct (dvfs_requests_safe demo_dvfs 1 (mkUpd 7 0 0) 0) as [(b & s' & H & Hi & _) _].
  - exact demo_dvfs_inv.
  - split.
    + intros [|i] d l p Hd Hp; cbn in Hd; [|discriminate]. injection Hd as <-.
      destruct l as [|[|l]]; cbn in Hp; try discriminate; injection Hp as <-; discriminate.
    + intros [|i] d Hd; cbn in Hd; [|discriminate]. injection Hd as <-. split; vm_compute; [discriminate|reflexivity].
    + right. split; [discriminate|]. split; [vm_compute; reflexivity|]. intros i Hi. exists demo_src.
      apply list_elem_of_singleton in Hi as ->. done.
  - reflexivity.
  - reflexivity.
  - lia.
  - vm_compute. discriminate.
  - vm_compute. discriminate.
  - vm_compute. reflexivity.
  - exists b, s'. split; [exact H|exact Hi].
Defined.
