(* ===== verification/Cpu.v ===== *)
(** * The processor of the non-volatile platform

    [AtomicSimpleCPU] of [cpu/simple/atomic.cc] with the device registry of
    [cpu/base.cc]: its tick event, the delays that virtual devices impose on
    it, and its reaction to the messages of the energy manager.  What an
    instruction does (fetch, decode, execute: code of the instruction set) is
    an argument of [tick]. *)
From Stdlib Require Import SpecFloat String.
From S2P Require Import Prelude IntMath Double EventQueue EventQueueCorrect EventSched EnergySM EnergyMgmt Clock.
Open Scope Z_scope.

(** ** Definitions: the state *)

Inductive Status :=
  | Idle | Running | Faulting | ITBWaitResponse | IcacheRetry | IcacheWaitResponse
  | IcacheWaitSwitch | DTBWaitResponse | DcacheRetry | DcacheWaitResponse | DcacheWaitSwitch.

#[export] Instance Status_eq_dec : EqDecision Status.
Proof. solve_decision. Defined.

(** What the constructor fixes, the tick event given by its address;
    [cp_period] is the period of the clock domain, [cp_master] whether the
    energy port is bound. *)
Record CpuParams := mkCpuParams {
  cp_tickEvent : ptr;
  cp_period : Z;
  cp_clkmult : double;
  cp_power_cpu : list double;
  cp_cycle_backup : Z;
  cp_cycle_restore : Z;
  cp_width : Z;
  cp_simulate_data_stalls : bool;
  cp_simulate_inst_stalls : bool;
  cp_master : bool;
}.

Record Cpu := mkCpu {
  cpu_p : CpuParams;
  cpu_status : Status;
  cpu_recover_time : double;
  cpu_tick_recover : Z;
  cpu_lat_vdev : list Z;
  cpu_status_vdev : list bool;
  cpu_clock : Clocked;
  cpu_locked : bool;
  cpu_microPC : Z;
  cpu_stayAtPC : bool;
  cpu_switchedOut : bool;
  cpu_draining : bool;
}.

Definition set_status (c : Cpu) (s : Status) : Cpu :=
  mkCpu (cpu_p c) s (cpu_recover_time c) (cpu_tick_recover c) (cpu_lat_vdev c) (cpu_status_vdev c)
    (cpu_clock c) (cpu_locked c) (cpu_microPC c) (cpu_stayAtPC c) (cpu_switchedOut c) (cpu_draining c).
Definition set_recover (c : Cpu) (r : double) (t : Z) : Cpu :=
  mkCpu (cpu_p c) (cpu_status c) r t (cpu_lat_vdev c) (cpu_status_vdev c)
    (cpu_clock c) (cpu_locked c) (cpu_microPC c) (cpu_stayAtPC c) (cpu_switchedOut c) (cpu_draining c).
Definition set_vdevs (c : Cpu) (lat : list Z) (st : list bool) : Cpu :=
  mkCpu (cpu_p c) (cpu_status c) (cpu_recover_time c) (cpu_tick_recover c) lat st
    (cpu_clock c) (cpu_locked c) (cpu_microPC c) (cpu_stayAtPC c) (cpu_switchedOut c) (cpu_draining c).
Definition set_clock (c : Cpu) (k : Clocked) : Cpu :=
  mkCpu (cpu_p c) (cpu_status c) (cpu_recover_time c) (cpu_tick_recover c) (cpu_lat_vdev c) (cpu_status_vdev c)
    k (cpu_locked c) (cpu_microPC c) (cpu_stayAtPC c) (cpu_switchedOut c) (cpu_draining c).
Definition set_draining (c : Cpu) (b : bool) : Cpu :=
  mkCpu (cpu_p c) (cpu_status c) (cpu_recover_time c) (cpu_tick_recover c) (cpu_lat_vdev c) (cpu_status_vdev c)
    (cpu_clock c) (cpu_locked c) (cpu_microPC c) (cpu_stayAtPC c) (cpu_switchedOut c) b.

(** [AtomicSimpleCPU::AtomicSimpleCPU]. *)
Definition new_Cpu (p : CpuParams) (switched_out : bool) : Cpu :=
  mkCpu p Idle dzero 0 [] [] new_Clocked false 0 false switched_out false.

(** [clockPeriod()] and [ticksToCycles(t)], which scale by [clkmult]. *)
Definition cpu_clockPeriod (c : Cpu) : Z :=
  to_Z (dmul (of_Z (cp_period (cpu_p c))) (cp_clkmult (cpu_p c))).
Definition cpu_ticksToCycles (c : Cpu) (t : Z) : Z :=
  ticksToCycles (cp_period (cpu_p c)) (to_Z (ddiv (of_Z t) (cp_clkmult (cpu_p c)))).

(** ** Definitions: the device registry (cpu/base.cc) *)

(** [registerVDev(tick, id)]: returns the number given to the device. *)
Definition registerVDev (c : Cpu) (tick : Z) : Z * Cpu :=
  (u32 (Z.of_nat (length (cpu_lat_vdev c))),
   set_vdevs c (cpu_lat_vdev c ++ [tick]) (cpu_status_vdev c ++ [false])).

Fixpoint total_lat (lat : list Z) (st : list bool) (total : Z) : Z :=
  match lat, st with
  | l :: lat, b :: st => total_lat lat st (if b : bool then u64 (total + l) else total)
  | _, _ => total
  end.
Definition getTotalLat (c : Cpu) : Z := total_lat (cpu_lat_vdev c) (cpu_status_vdev c) 0.

Definition virtualDeviceStart (c : Cpu) (id : Z) : result Cpu :=
  let* st := upd (cpu_status_vdev c) (Z.to_nat id) true in Ok (set_vdevs c (cpu_lat_vdev c) st).
Definition virtualDeviceEnd (c : Cpu) (id : Z) : result Cpu :=
  let* st := upd (cpu_status_vdev c) (Z.to_nat id) false in Ok (set_vdevs c (cpu_lat_vdev c) st).

(** ** Definitions: draining *)

Definition isDrained (c : Cpu) : bool :=
  (cpu_microPC c =? 0) && negb (cpu_locked c) && negb (cpu_stayAtPC c).

(** [tryCompleteDrain()]; the manager is told that draining is done. *)
Definition tryCompleteDrain (c : Cpu) : bool * Cpu :=
  if negb (cpu_draining c) then (false, c)
  else if negb (isDrained c) then (false, c)
  else (true, set_draining c false).

Section CpuOps.
Context {Q : Type} `{EventSched Q}.

(** The processor with the manager and the queue. *)
Record CpuSt := mkCpuSt { cs_st : MgmtSt Q; cs_cpu : Cpu }.

Definition cs_q (s : CpuSt) : Q := mg_q (cs_st s).
Definition with_q (s : CpuSt) (q : Q) : CpuSt :=
  mkCpuSt (mkSt (mg (cs_st s)) (mg_patch (cs_st s)) q) (cs_cpu s).
Definition with_cpu (s : CpuSt) (c : Cpu) : CpuSt := mkCpuSt (cs_st s) c.

Definition cpu_scheduled (s : CpuSt) : bool := q_scheduled (cs_q s) (cp_tickEvent (cpu_p (cs_cpu s))).

(** The [EventManager] operations on the tick event. *)
Definition cpu_schedule (s : CpuSt) (t : Z) : result CpuSt :=
  let* q := q_schedule (cs_q s) (cp_tickEvent (cpu_p (cs_cpu s))) t in Ok (with_q s q).
Definition cpu_deschedule (s : CpuSt) : result CpuSt :=
  let* q := q_deschedule (cs_q s) (cp_tickEvent (cpu_p (cs_cpu s))) in Ok (with_q s q).
Definition cpu_reschedule (s : CpuSt) (t : Z) : result CpuSt :=
  let* q := q_reschedule (cs_q s) (cp_tickEvent (cpu_p (cs_cpu s))) t false in Ok (with_q s q).

(** [consumeEnergy(dev_name, energy)] through the energy port. *)
Definition cpu_consumeEnergy (s : CpuSt) (energy : double) : result CpuSt :=
  let* '(_, st) := obj_consumeEnergy (fun st => st) (fun _ st => st) (cp_master (cpu_p (cs_cpu s)))
                     "AtomicCPU" energy (cs_st s) in
  Ok (mkCpuSt st (cs_cpu s)).

(** [power_cpu[2]]. *)
Definition power_active (c : Cpu) : result double := deref (cp_power_cpu (cpu_p c) !! 2%nat).

(** [drain(dm)]: 1 when the manager has to wait. *)
Definition cpu_drain (s : CpuSt) : result (Z * CpuSt) :=
  let* _ := assert_ (negb (cpu_draining (cs_cpu s))) in
  if cpu_switchedOut (cs_cpu s) then Ok (0, s)
  else if negb (isDrained (cs_cpu s)) then Ok (1, with_cpu s (set_draining (cs_cpu s) true))
  else if cpu_scheduled s then let* s := cpu_deschedule s in Ok (0, s)
  else Ok (0, s).

(** [drainResume()] of a processor with [threads] contexts, its own one
    [active] or not, in a system in atomic mode or not. *)
Definition drainResume (s : CpuSt) (atomic_mode : bool) (threads : Z) (active : bool) : result CpuSt :=
  let* _ := assert_ (negb (cpu_scheduled s)) in
  let* _ := assert_ (negb (cpu_draining (cs_cpu s))) in
  if cpu_switchedOut (cs_cpu s) then Ok s
  else
    let* _ := if negb atomic_mode then Err Fatal else Ok tt in
    let* _ := assert_ (negb (threads =? 0)) in
    let* _ := if 1 <? threads then Err Fatal else Ok tt in
    if active then
      let '(t, k) := nextCycle (q_now (cs_q s)) (cp_period (cpu_p (cs_cpu s))) (cpu_clock (cs_cpu s)) in
      let* s := cpu_schedule (with_cpu s (set_clock (cs_cpu s) k)) t in
      Ok (with_cpu s (set_status (cs_cpu s) Running))
    else Ok (with_cpu s (set_status (cs_cpu s) Idle)).

(** [switchOut()], after the base class has marked the processor. *)
Definition switchOut (s : CpuSt) : result CpuSt :=
  let* _ := assert_ (negb (cpu_scheduled s)) in
  let* _ := assert_ (bool_decide (cpu_status (cs_cpu s) = Running) || bool_decide (cpu_status (cs_cpu s) = Idle)) in
  let* _ := assert_ (isDrained (cs_cpu s)) in
  Ok s.

(** [activateContext(thread_num)] and [suspendContext(thread_num)]. *)
Definition activateContext (s : CpuSt) (thread_num : Z) : result CpuSt :=
  let* _ := assert_ (thread_num =? 0) in
  let* _ := assert_ (bool_decide (cpu_status (cs_cpu s) = Idle)) in
  let* _ := assert_ (negb (cpu_scheduled s)) in
  let '(t, k) := clockEdge (q_now (cs_q s)) (cp_period (cpu_p (cs_cpu s))) (cpu_clock (cs_cpu s)) 0 in
  let* s := cpu_schedule (with_cpu s (set_clock (cs_cpu s) k)) t in
  Ok (with_cpu s (set_status (cs_cpu s) Running)).

Definition suspendContext (s : CpuSt) (thread_num : Z) : result CpuSt :=
  let* _ := assert_ (thread_num =? 0) in
  if bool_decide (cpu_status (cs_cpu s) = Idle) then Ok s
  else
    let* _ := assert_ (bool_decide (cpu_status (cs_cpu s) = Running)) in
    let* s := if cpu_scheduled s then cpu_deschedule s else Ok s in
    Ok (with_cpu s (set_status (cs_cpu s) Idle)).

(** ** Definitions: virtual devices *)

(** [delay_isa] rounded up to the clock. *)
Definition round_to_clock (period delay : Z) : Z :=
  if negb (delay mod period =? 0) then u64 (delay + u64 (period - delay mod period)) else delay.

(** [virtualDeviceInterrupt(vdev_name, delay_isa)]. *)
Definition virtualDeviceInterrupt (s : CpuSt) (delay_isa : Z) : result CpuSt :=
  let time := q_when (cs_q s) (cp_tickEvent (cpu_p (cs_cpu s))) in
  cpu_reschedule s (u64 (time + round_to_clock (cpu_clockPeriod (cs_cpu s)) delay_isa)).

(** [virtualDeviceRecover(vdev_name, delay_vdev_init)]: [recover_time] is a
    double, so the tick passes through one twice. *)
Definition virtualDeviceRecover (s : CpuSt) (delay_vdev_init : Z) : result CpuSt :=
  let recover_time := cpu_recover_time (cs_cpu s) in
  let time := to_Z (dsub (of_Z (q_when (cs_q s) (cp_tickEvent (cpu_p (cs_cpu s))))) recover_time) in
  let wait := if dge recover_time (of_Z delay_vdev_init) then recover_time else of_Z delay_vdev_init in
  cpu_reschedule s (to_Z (dadd (of_Z time) wait)).

(** ** Definitions: energy messages *)

Definition cpu_handleMsg (msg : EnergyMsg) (s : CpuSt) : result (Z * CpuSt) :=
  let c := cs_cpu s in
  let s := with_cpu s (set_recover c (cpu_recover_time c) 0) in
  if msg_type msg =? SimpleEnergySM.POWER_OFF then
    let tick_recover := u64 (cp_cycle_backup (cpu_p c) * cpu_clockPeriod c) in
    let* power := power_active c in
    let* s := cpu_consumeEnergy s (dmul power (of_Z (cp_cycle_backup (cpu_p c)))) in
    let tick_remain := u64 (q_when (cs_q s) (cp_tickEvent (cpu_p c)) - q_now (cs_q s)) in
    let tick_recover :=
      u64 (tick_recover + u64 (tick_remain + u64 (cpu_clockPeriod c - tick_remain mod cpu_clockPeriod c))) in
    let s := with_cpu s (set_recover (cs_cpu s) dzero tick_recover) in
    let* _ := assert_ (cpu_scheduled s) in
    let* s := cpu_deschedule s in
    Ok (1, s)
  else if msg_type msg =? SimpleEnergySM.POWER_ON then
    let tick_recover := u64 (cp_cycle_restore (cpu_p c) * cpu_clockPeriod c) in
    let s := with_cpu s (set_recover (cs_cpu s) (cpu_recover_time (cs_cpu s)) tick_recover) in
    let* power := power_active c in
    let* s := cpu_consumeEnergy s (dmul power (of_Z (cp_cycle_restore (cpu_p c)))) in
    let* s := cpu_schedule s (u64 (q_now (cs_q s) + tick_recover)) in
    Ok (1, s)
  else Ok (0, s).

(** ** Definitions: a tick *)

(** What executing one instruction reports to [tick]. *)
Record exec_out := mkOut {
  ex_fetch_fault : bool;
  ex_icache_access : bool;
  ex_icache_latency : Z;
  ex_dcache_access : bool;
  ex_dcache_latency : Z;
}.

Definition stall_ticks (c : Cpu) (o : exec_out) : Z :=
  let t := if cp_simulate_inst_stalls (cpu_p c) && ex_icache_access o then ex_icache_latency o else 0 in
  if cp_simulate_data_stalls (cpu_p c) && ex_dcache_access o then u64 (t + ex_dcache_latency o) else t.

(** [latency] after an instruction. *)
Definition add_stall (c : Cpu) (o : exec_out) (latency : Z) : Z :=
  if ex_fetch_fault o then latency
  else if negb (stall_ticks c o =? 0) then
    u64 (latency + u64 (divCeil (stall_ticks c o) (cpu_clockPeriod c) * cpu_clockPeriod c))
  else latency.

Section Tick.
Context {W : Type} (get : W -> CpuSt) (put : W -> CpuSt -> W).
(** [checkForInterrupts] with [checkPcEventQueue], and fetch to [advancePC]. *)
Context (check : W -> result W) (exec : W -> result (exec_out * W)).

(** The loop of [tick]; [None] when the processor has been suspended. *)
Fixpoint tick_loop (fuel : nat) (i latency : Z) (w : W) : result (option Z * W) :=
  if (i <? cp_width (cpu_p (cs_cpu (get w)))) || cpu_locked (cs_cpu (get w)) then
    match fuel with
    | O => Err Out_of_fuel
    | S fuel =>
        let* w := check w in
        let s := get w in
        if bool_decide (cpu_status (cs_cpu s) = Idle) then
          Ok (None, put w (with_cpu s (snd (tryCompleteDrain (cs_cpu s)))))
        else
          let* '(o, w) := exec w in
          tick_loop fuel (i + 1) (add_stall (cs_cpu (get w)) o latency) w
    end
  else Ok (Some latency, w).

(** The end of [tick]: at least one cycle, its energy, and the next tick. *)
Definition tick_finish (s : CpuSt) (latency : Z) : result CpuSt :=
  let '(drained, c) := tryCompleteDrain (cs_cpu s) in
  let s := with_cpu s c in
  if drained : bool then Ok s
  else
    let latency := if latency <? cpu_clockPeriod c then cpu_clockPeriod c else latency in
    let* power := power_active c in
    let* s := cpu_consumeEnergy s (dmul power (of_Z (cpu_ticksToCycles c latency))) in
    if negb (bool_decide (cpu_status (cs_cpu s) = Idle))
    then cpu_schedule s (u64 (q_now (cs_q s) + latency)) else Ok s.

Definition tick (fuel : nat) (w : W) : result W :=
  let* '(r, w) := tick_loop fuel 0 0 w in
  match r with
  | None => Ok w
  | Some latency => let* s := tick_finish (get w) latency in Ok (put w s)
  end.
End Tick.
End CpuOps.
Arguments CpuSt Q : clear implicits.

(** The tick the processor is to run next. *)
Abbreviation tick_at s := (q_when (cs_q s) (cp_tickEvent (cpu_p (cs_cpu s)))).

(** ** Queues that differ in a few events *)

Section CpuCorrect.
Context {Q : Type} `{EventSchedLaws Q}.

Record q_frames (l : list ptr) (q q' : Q) : Prop := {
  frs_now : q_now q' = q_now q;
  frs_own r : q_own q r -> q_own q' r;
  frs_other r : r ∉ l -> q_scheduled q' r = q_scheduled q r /\ q_when q' r = q_when q r;
}.

#[export] Instance q_frames_preorder l : PreOrder (q_frames l).
Proof.
  split; [by intros ?|]. intros q1 q2 q3 [N1 O1 F1] [N2 O2 F2]. split; [congruence|auto|].
  intros r Hr. destruct (F1 r Hr), (F2 r Hr). split; congruence.
Qed.

Lemma q_frames_mono l l' q q' : l ⊆ l' -> q_frames l q q' -> q_frames l' q q'.
Proof. intros Hl [N O F]. split; [done|done|]. intros r Hr. apply F. set_solver. Qed.

Lemma q_frame_frames p q q' : q_frame p q q' -> q_frames [p] q q'.
Proof. intros [N O F]. split; [done|done|]. intros r Hr. apply F. set_solver. Qed.

Lemma step_frames q q' p o : q_step q_own q q' p o -> q_frames [p] q q'.
Proof. intros Hs. by apply q_frame_frames, (step_frame _ _ _ o). Qed.

(** ** The invariant of the processor and its manager

    The tick event is the processor's own; [on] says whether it is scheduled. *)
Record cpu_inv (busy on : bool) (s : CpuSt Q) : Prop := {
  ci_togo : togo_inv busy (cs_st s);
  ci_own : q_own (cs_q s) (cp_tickEvent (cpu_p (cs_cpu s)));
  ci_msg : cp_tickEvent (cpu_p (cs_cpu s)) <> event_msg (mg (cs_st s));
  ci_harvest : cp_tickEvent (cpu_p (cs_cpu s)) <> event_energy_harvest (mg (cs_st s));
  ci_sched : cpu_scheduled s = on;
  ci_recover : cpu_recover_time (cs_cpu s) = dzero;
  ci_power : exists e, power_active (cs_cpu s) = Ok e;
  ci_now : 0 <= q_now (cs_q s);
}.

(** Whether the processor runs, holds a lock or drains. *)
Definition cpu_mode (c : Cpu) : Status * bool * bool := (cpu_status c, cpu_locked c, cpu_draining c).

(** How operations of the processor change its state: the manager takes steps,
    nothing but its events and the processor's changes in the queue. *)
Record cpu_step (s s' : CpuSt Q) (extra : list EnergyMsg) : Prop := {
  cst_togo : msg_togo (mg (cs_st s')) = msg_togo (mg (cs_st s)) ++ extra;
  cst_conf : same_config (mg (cs_st s)) (mg (cs_st s'));
  cst_data : energy_harvest_data (mg (cs_st s')) = energy_harvest_data (mg (cs_st s));
  cst_frame : q_frames [event_msg (mg (cs_st s)); cp_tickEvent (cpu_p (cs_cpu s))] (cs_q s) (cs_q s');
  cst_p : cpu_p (cs_cpu s') = cpu_p (cs_cpu s);
  cst_devs : length (cpu_status_vdev (cs_cpu s')) = length (cpu_status_vdev (cs_cpu s));
  cst_phase on : phases on (mg (cs_st s)) -> phases on (mg (cs_st s'));
  cst_mode : cpu_mode (cs_cpu s') = cpu_mode (cs_cpu s);
}.

Lemma cpu_step_refl s : cpu_step s s [].
Proof. split; try done. by rewrite app_nil_r. Qed.

Lemma cpu_step_trans s1 s2 s3 l1 l2 :
  cpu_step s1 s2 l1 -> cpu_step s2 s3 l2 -> cpu_step s1 s3 (l1 ++ l2).
Proof.
  intros [T1 C1 D1 F1 P1 L1 A1 M1] [T2 C2 D2 F2 P2 L2 A2 M2].
  split; [by rewrite T2, T1, app_assoc|by etrans|congruence| |congruence|congruence|auto|congruence].
  rewrite (sc_ev _ _ C1), P1 in F2. by etrans.
Qed.

Lemma cpu_step_trans0 s1 s2 s3 l : cpu_step s1 s2 l -> cpu_step s2 s3 [] -> cpu_step s1 s3 l.
Proof. intros A B. rewrite <- (app_nil_r l). by eapply cpu_step_trans. Qed.

(** A change of the tick event alone. *)
Lemma with_q_inv busy on s q' o :
  cpu_inv busy on s -> q_inv q' -> q_step q_own (cs_q s) q' (cp_tickEvent (cpu_p (cs_cpu s))) o ->
  cpu_inv busy (match o with Some _ => true | None => false end) (with_q s q') /\ cpu_step s (with_q s q') [].
Proof.
  intros [[Ti To Th Tn Ts Tb] Ho Hm Hh _ Hr Hp Hn] Hq Hst.
  destruct (step_other _ _ _ _ _ Hst (event_msg (mg (cs_st s)))) as [Hse _]; [done|].
  split.
  - split; try done; [|by apply (step_own _ _ _ _ _ Hst)|by apply (step_sched _ _ _ _ _ Hst)|
      cbn; by rewrite (step_now _ _ _ _ _ Hst)].
    split; cbn; try done; [by apply (step_own _ _ _ _ _ Hst)..|]. by rewrite Hse.
  - split; try done; cbn; [by rewrite app_nil_r|].
    eapply q_frames_mono; [|by eapply step_frames]. set_solver.
Qed.

Lemma cpu_schedule_ok busy s t :
  cpu_inv busy false s -> q_now (cs_q s) <= t ->
  exists s', cpu_schedule s t = Ok s' /\ cpu_inv busy true s' /\ cpu_step s s' [] /\
  q_when (cs_q s') (cp_tickEvent (cpu_p (cs_cpu s))) = t /\ cs_cpu s' = cs_cpu s.
Proof.
  intros Hi Ht.
  destruct (q_schedule_ok (cs_q s) _ t (ti_inv _ _ (ci_togo _ _ _ Hi)) (ci_own _ _ _ Hi) (ci_sched _ _ _ Hi) Ht) as (q' & Hq & Hqi & Hst).
  unfold cpu_schedule. rewrite Hq. cbn [rbind]. exists (with_q s q'). split; [done|].
  destruct (with_q_inv _ _ _ _ _ Hi Hqi Hst) as [Hi' Hs']. split_and!; try done. by apply (step_when _ _ _ _ _ Hst).
Qed.

Lemma cpu_reschedule_ok busy s t :
  cpu_inv busy true s -> q_now (cs_q s) <= t ->
  exists s', cpu_reschedule s t = Ok s' /\ cpu_inv busy true s' /\ cpu_step s s' [] /\
  q_when (cs_q s') (cp_tickEvent (cpu_p (cs_cpu s))) = t /\ cs_cpu s' = cs_cpu s.
Proof.
  intros Hi Ht.
  destruct (q_reschedule_ok (cs_q s) _ t false (ti_inv _ _ (ci_togo _ _ _ Hi)) (ci_own _ _ _ Hi) (ci_sched _ _ _ Hi) Ht)
    as (q' & Hq & Hqi & Hst).
  unfold cpu_reschedule. rewrite Hq. cbn [rbind]. exists (with_q s q'). split; [done|].
  destruct (with_q_inv _ _ _ _ _ Hi Hqi Hst) as [Hi' Hs']. split_and!; try done. by apply (step_when _ _ _ _ _ Hst).
Qed.

Lemma cpu_deschedule_ok busy s :
  cpu_inv busy true s ->
  exists s', cpu_deschedule s = Ok s' /\ cpu_inv busy false s' /\ cpu_step s s' [] /\ cs_cpu s' = cs_cpu s.
Proof.
  intros Hi.
  destruct (q_deschedule_ok (cs_q s) _ (ti_inv _ _ (ci_togo _ _ _ Hi)) (ci_own _ _ _ Hi) (ci_sched _ _ _ Hi)) as (q' & Hq & Hqi & Hst).
  unfold cpu_deschedule. rewrite Hq. cbn [rbind]. exists (with_q s q'). split; [done|].
  by destruct (with_q_inv _ _ _ _ _ Hi Hqi Hst).
Qed.
(** A change of the processor's own fields. *)
Lemma with_cpu_inv busy on s c :
  cpu_inv busy on s -> cpu_p c = cpu_p (cs_cpu s) -> cpu_recover_time c = dzero ->
  length (cpu_status_vdev c) = length (cpu_status_vdev (cs_cpu s)) -> cpu_mode c = cpu_mode (cs_cpu s) ->
  cpu_inv busy on (with_cpu s c) /\ cpu_step s (with_cpu s c) [].
Proof.
  intros [] Hp Hr Hl Hm. unfold cpu_scheduled, power_active in *. split.
  - split; unfold cpu_scheduled, power_active; cbn; rewrite ?Hp; done.
  - split; cbn; try done. by rewrite app_nil_r.
Qed.

(** Consuming energy through a port, bound or not, concerns the manager only. *)
Lemma port_consume_ok busy on s master sender e :
  cpu_inv busy on s ->
  exists r st extra,
  obj_consumeEnergy (fun st => st) (fun _ st => st) master sender e (cs_st s) = Ok (r, st) /\
  cpu_inv busy on (mkCpuSt st (cs_cpu s)) /\ cpu_step s (mkCpuSt st (cs_cpu s)) extra /\
  q_frame (event_msg (mg (cs_st s))) (cs_q s) (mg_q st).
Proof.
  intros Hi. pose proof Hi as [Ht Ho Hm Hh Hs Hr Hp Hn]. unfold obj_consumeEnergy, signalMsg. destruct master.
  - destruct (mgmt_handleMsg_ok busy (cs_st s) (mkMsg 0 (Some sender) e) Ht) as (r & st & l & -> & Ht' & [T C D F] & Hph).
    cbn [rbind]. exists 1, st, l. split; [done|]. destruct (fr_other _ _ _ F _ Hm) as [Hsc Hw]. split; [|split; [|done]].
    + split; unfold cpu_scheduled, cs_q in *; cbn; try done; [by apply (fr_own _ _ _ F)| | | |].
      * by rewrite (sc_ev _ _ C).
      * by rewrite (sc_evh _ _ C).
      * congruence.
      * by rewrite (fr_now _ _ _ F).
    + split; cbn; try done. eapply q_frames_mono; [|by apply q_frame_frames]. set_solver.
  - cbn [rbind]. exists 1, (cs_st s), []. destruct s. split; [done|]. split; [done|]. split; [apply cpu_step_refl|done].
Qed.

Lemma cpu_consume_ok busy on s e :
  cpu_inv busy on s ->
  exists s' extra, cpu_consumeEnergy s e = Ok s' /\ cpu_inv busy on s' /\ cpu_step s s' extra /\
  cs_cpu s' = cs_cpu s /\
  q_when (cs_q s') (cp_tickEvent (cpu_p (cs_cpu s))) = q_when (cs_q s) (cp_tickEvent (cpu_p (cs_cpu s))).
Proof.
  intros Hi. unfold cpu_consumeEnergy.
  destruct (port_consume_ok busy on s (cp_master (cpu_p (cs_cpu s))) "AtomicCPU" e Hi) as (r & st & l & -> & Hi' & Hst & F).
  cbn [rbind]. eexists _, l. split; [done|]. split_and!; try done. by apply (fr_other _ _ _ F), (ci_msg _ _ _ Hi).
Qed.

(** ** Devices delay the processor *)

Lemma round_to_clock_spec P d :
  0 < P -> 0 <= d -> d + P < 2 ^ 64 ->
  d <= round_to_clock P d < d + P /\ round_to_clock P d mod P = 0.
Proof.
  intros HP Hd Hb. unfold round_to_clock. pose proof (Z.mod_pos_bound d P HP).
  destruct (Z.eqb_spec (d mod P) 0) as [He|He]; cbn [negb]; [lia|].
  rewrite (u64_small (P - d mod P)) by (unfold in_range; lia). rewrite u64_small by (unfold in_range; lia).
  split; [lia|]. rewrite (Z.div_mod d P) at 1 by lia.
  replace (P * (d / P) + d mod P + (P - d mod P)) with ((d / P + 1) * P) by lia. apply Z_mod_mult.
Qed.

Lemma tick_future busy s : cpu_inv busy true s -> 0 <= q_now (cs_q s) <= tick_at s.
Proof.
  intros Hi. split; [apply (ci_now _ _ _ Hi)|].
  apply q_pending_future; [apply (ti_inv _ _ (ci_togo _ _ _ Hi))|apply (ci_own _ _ _ Hi)|apply (ci_sched _ _ _ Hi)].
Qed.

Lemma interrupt_ok busy s d :
  cpu_inv busy true s -> 0 < cpu_clockPeriod (cs_cpu s) -> 0 <= d ->
  tick_at s + d + cpu_clockPeriod (cs_cpu s) < 2 ^ 64 ->
  exists s', virtualDeviceInterrupt s d = Ok s' /\ cpu_inv busy true s' /\ cpu_step s s' [] /\
  cs_cpu s' = cs_cpu s /\ tick_at s' = tick_at s + round_to_clock (cpu_clockPeriod (cs_cpu s)) d.
Proof.
  intros Hi HP Hd Hb. pose proof (tick_future _ _ Hi).
  destruct (round_to_clock_spec _ d HP Hd ltac:(lia)) as [Hr _]. unfold virtualDeviceInterrupt.
  rewrite u64_small by (unfold in_range; lia).
  assert (q_now (cs_q s) <= tick_at s + round_to_clock (cpu_clockPeriod (cs_cpu s)) d) as Hle by lia.
  destruct (cpu_reschedule_ok busy s _ Hi Hle)
    as (s' & -> & Hi' & Hst & Hw & Hc). exists s'. split_and!; try done. by rewrite Hc.
Qed.

Lemma recover_time_exact t d :
  0 <= t -> 0 <= d -> t + d < 2 ^ 53 ->
  to_Z (dadd (of_Z (to_Z (dsub (of_Z t) dzero))) (if dge dzero (of_Z d) then dzero else of_Z d)) = t + d.
Proof.
  intros Ht Hd Hb. assert (dsub (of_Z t) dzero = of_Z t) as ->.
  { destruct (Z.eq_dec t 0) as [->|]; [done|]. destruct (of_Z_exact t ltac:(lia)) as (m & e & -> & _). done. }
  rewrite (to_Z_of_Z t) by lia.
  assert ((if dge dzero (of_Z d) then dzero else of_Z d) = of_Z d) as ->.
  { destruct (Z.eq_dec d 0) as [->|]; [done|]. destruct (of_Z_exact d ltac:(lia)) as (m & e & -> & _). done. }
  rewrite dadd_of_Z by lia. apply to_Z_of_Z. lia.
Qed.

Lemma recover_ok busy s d :
  cpu_inv busy true s -> 0 <= d -> tick_at s + d < 2 ^ 53 ->
  exists s', virtualDeviceRecover s d = Ok s' /\ cpu_inv busy true s' /\ cpu_step s s' [] /\
  cs_cpu s' = cs_cpu s /\ tick_at s' = tick_at s + d.
Proof.
  intros Hi Hd Hb. pose proof (tick_future _ _ Hi). unfold virtualDeviceRecover.
  rewrite (ci_recover _ _ _ Hi), recover_time_exact by lia.
  assert (q_now (cs_q s) <= tick_at s + d) as Hle by lia.
  destruct (cpu_reschedule_ok busy s _ Hi Hle) as (s' & -> & Hi' & Hst & Hw & Hc).
  exists s'. split_and!; try done. by rewrite Hc.
Qed.
(** ** Power failures *)

(** What the processor computes at a power failure: the backup and the rest of
    the interrupted cycle. *)
Definition recover_ticks (c : Cpu) (remain : Z) : Z :=
  u64 (u64 (cp_cycle_backup (cpu_p c) * cpu_clockPeriod c) +
       u64 (remain + u64 (cpu_clockPeriod c - remain mod cpu_clockPeriod c))).

Lemma cpu_poweroff_ok busy s msg :
  cpu_inv busy true s -> msg_type msg = SimpleEnergySM.POWER_OFF ->
  exists s' extra, cpu_handleMsg msg s = Ok (1, s') /\ cpu_inv busy false s' /\ cpu_step s s' extra /\
  cs_cpu s' = set_recover (cs_cpu s) dzero (recover_ticks (cs_cpu s) (u64 (tick_at s - q_now (cs_q s)))).
Proof.
  intros Hi Hm. unfold cpu_handleMsg. rewrite Hm. cbn [Z.eqb Pos.eqb SimpleEnergySM.POWER_OFF].
  destruct (ci_power _ _ _ Hi) as [e He]. rewrite He. cbn [rbind].
  set (c0 := set_recover (cs_cpu s) (cpu_recover_time (cs_cpu s)) 0).
  destruct (with_cpu_inv _ _ _ c0 Hi) as [Hi0 St0]; [done|apply (ci_recover _ _ _ Hi)|done|done|].
  destruct (cpu_consume_ok _ _ _ (dmul e (of_Z (cp_cycle_backup (cpu_p (cs_cpu s))))) Hi0)
    as (s1 & l & -> & Hi1 & St1 & Hc1 & Hw1). cbn [rbind].
  set (c2 := set_recover (cs_cpu s1) dzero _).
  destruct (with_cpu_inv _ _ _ c2 Hi1) as [Hi2 St2]; [done|done|done|done|].
  rewrite (ci_sched _ _ _ Hi2). cbn [assert_ rbind].
  destruct (cpu_deschedule_ok _ _ Hi2) as (s3 & -> & Hi3 & St3 & Hc3). cbn [rbind].
  exists s3, l. split; [done|]. split; [done|]. split.
  - eapply cpu_step_trans0; [|exact St3]. eapply cpu_step_trans0; [|exact St2].
    change l with ([] ++ l). by eapply cpu_step_trans.
  - rewrite Hc3. unfold c2. cbn [cs_cpu with_cpu]. rewrite Hc1, (frs_now _ _ _ (cst_frame _ _ _ St1)).
    change (cpu_p (cs_cpu (with_cpu s c0))) with (cpu_p (cs_cpu s)) in Hw1. by rewrite Hw1.
Qed.

Definition restore_ticks (c : Cpu) : Z := cp_cycle_restore (cpu_p c) * cpu_clockPeriod c.

Lemma cpu_poweron_ok busy s msg :
  cpu_inv busy false s -> msg_type msg = SimpleEnergySM.POWER_ON ->
  0 <= restore_ticks (cs_cpu s) -> q_now (cs_q s) + restore_ticks (cs_cpu s) < 2 ^ 64 ->
  exists s' extra, cpu_handleMsg msg s = Ok (1, s') /\ cpu_inv busy true s' /\ cpu_step s s' extra /\
  tick_at s' = q_now (cs_q s) + restore_ticks (cs_cpu s) /\
  cs_cpu s' = set_recover (cs_cpu s) dzero (restore_ticks (cs_cpu s)).
Proof.
  intros Hi Hm Hr Hb. pose proof (ci_now _ _ _ Hi) as Hn. unfold cpu_handleMsg. rewrite Hm.
  cbn [Z.eqb Pos.eqb SimpleEnergySM.POWER_OFF SimpleEnergySM.POWER_ON].
  destruct (ci_power _ _ _ Hi) as [e He]. rewrite He. cbn [rbind].
  change (cp_cycle_restore (cpu_p (cs_cpu s)) * cpu_clockPeriod (cs_cpu s)) with (restore_ticks (cs_cpu s)).
  rewrite (u64_small (restore_ticks _)) by (unfold in_range; lia).
  cbn [cs_cpu with_cpu cpu_recover_time set_recover]. rewrite (ci_recover _ _ _ Hi).
  set (s0 := with_cpu (with_cpu s _) _).
  destruct (with_cpu_inv _ _ _ (cs_cpu s0) Hi) as [Hi0 St0]; [done|done|done|done|].
  change (with_cpu s (cs_cpu s0)) with s0 in *.
  destruct (cpu_consume_ok _ _ _ (dmul e (of_Z (cp_cycle_restore (cpu_p (cs_cpu s))))) Hi0)
    as (s1 & l & -> & Hi1 & St1 & Hc1 & Hw1). cbn [rbind].
  pose proof (frs_now _ _ _ (cst_frame _ _ _ St1)) as Hn1. change (q_now (cs_q s0)) with (q_now (cs_q s)) in Hn1.
  rewrite Hn1, u64_small by (unfold in_range; lia).
  assert (q_now (cs_q s1) <= q_now (cs_q s) + restore_ticks (cs_cpu s)) as Hle by lia.
  destruct (cpu_schedule_ok _ _ _ Hi1 Hle) as (s2 & -> & Hi2 & St2 & Hw2 & Hc2). cbn [rbind].
  exists s2, l. split; [done|]. split; [done|]. split; [|split].
  - eapply cpu_step_trans0; [|exact St2]. change l with ([] ++ l). by eapply cpu_step_trans.
  - rewrite Hc2. exact Hw2.
  - rewrite Hc2, Hc1. done.
Qed.

(** The handler never fails for other messages, and ignores them. *)
Lemma cpu_other_msg busy on s msg :
  cpu_inv busy on s -> msg_type msg <> SimpleEnergySM.POWER_OFF -> msg_type msg <> SimpleEnergySM.POWER_ON ->
  exists s', cpu_handleMsg msg s = Ok (0, s') /\ cpu_inv busy on s' /\ cpu_step s s' [] /\
  cs_cpu s' = set_recover (cs_cpu s) dzero 0.
Proof.
  intros Hi H1 H2. unfold cpu_handleMsg. rewrite (proj2 (Z.eqb_neq _ _) H1), (proj2 (Z.eqb_neq _ _) H2).
  rewrite (ci_recover _ _ _ Hi). eexists. split; [done|].
  destruct (with_cpu_inv _ _ _ (set_recover (cs_cpu s) dzero 0) Hi) as [Hi0 St0]; done.
Qed.

(** ** Ticks *)

Lemma tick_finish_ok busy s L :
  cpu_inv busy false s -> cpu_status (cs_cpu s) = Running -> cpu_draining (cs_cpu s) = false ->
  0 <= L -> 0 < cpu_clockPeriod (cs_cpu s) -> q_now (cs_q s) + Z.max L (cpu_clockPeriod (cs_cpu s)) < 2 ^ 64 ->
  exists s' extra, tick_finish s L = Ok s' /\ cpu_inv busy true s' /\ cpu_step s s' extra /\
  cs_cpu s' = cs_cpu s /\ tick_at s' = q_now (cs_q s) + Z.max L (cpu_clockPeriod (cs_cpu s)).
Proof.
  intros Hi Hst Hd HL HP Hb. pose proof (ci_now _ _ _ Hi) as Hn. unfold tick_finish, tryCompleteDrain. rewrite Hd. cbn [negb].
  replace (with_cpu s (cs_cpu s)) with s by (by destruct s).
  destruct (ci_power _ _ _ Hi) as [e He]. rewrite He. cbn [rbind].
  set (L' := if _ : bool then _ else _). assert (L' = Z.max L (cpu_clockPeriod (cs_cpu s))) as HL'.
  { unfold L'. destruct (Z.ltb_spec L (cpu_clockPeriod (cs_cpu s))); lia. }
  destruct (cpu_consume_ok _ _ _ (dmul e (of_Z (cpu_ticksToCycles (cs_cpu s) L'))) Hi)
    as (s1 & l & -> & Hi1 & St1 & Hc1 & Hw1). cbn [rbind]. rewrite Hc1, Hst. cbn [bool_decide decide_rel negb].
  pose proof (frs_now _ _ _ (cst_frame _ _ _ St1)) as Hn1. rewrite Hn1, u64_small by (unfold in_range; lia).
  assert (q_now (cs_q s1) <= q_now (cs_q s) + L') as Hle by lia.
  destruct (cpu_schedule_ok _ _ _ Hi1 Hle) as (s2 & Hs2 & Hi2 & St2 & Hw2 & Hc2).
  exists s2, l. split; [exact Hs2|]. split; [done|]. split; [by eapply cpu_step_trans0|].
  split; [congruence|]. rewrite Hc2. congruence.
Qed.
Lemma add_stall_spec c o L S :
  0 < cpu_clockPeriod c -> 0 <= L -> L mod cpu_clockPeriod c = 0 -> 0 <= stall_ticks c o <= S ->
  L + S + cpu_clockPeriod c < 2 ^ 64 ->
  L <= add_stall c o L <= L + S + cpu_clockPeriod c /\ add_stall c o L mod cpu_clockPeriod c = 0 /\
  (ex_fetch_fault o = false -> L + stall_ticks c o <= add_stall c o L).
Proof.
  intros HP HL Hm HS Hb. unfold add_stall. destruct (ex_fetch_fault o); [split_and!; [lia|lia|done|done]|].
  destruct (Z.eqb_spec (stall_ticks c o) 0) as [->|Hne]; cbn [negb]; [split_and!; lia|].
  destruct (divCeil_spec (stall_ticks c o) (cpu_clockPeriod c)) as [Hd Hd0]; [lia..|].
  rewrite (u64_small (_ * _)), u64_small by (unfold in_range; lia). split_and!; [lia|lia| |lia].
  rewrite Z.add_mod, Hm, Z_mod_mult by lia. done.
Qed.

Section TickLoop.
Context {W : Type} (get : W -> CpuSt Q) (put : W -> CpuSt Q -> W).
Context (check : W -> result W) (exec : W -> result (exec_out * W)) (p : CpuParams) (now R S : Z).

(** Between the instructions of a tick: the processor runs, holds no lock, and
    its tick event is not scheduled. *)
Record tick_ok (w : W) : Prop := {
  tk_cpu : cpu_inv false false (get w);
  tk_p : cpu_p (cs_cpu (get w)) = p;
  tk_running : cpu_status (cs_cpu (get w)) = Running;
  tk_unlocked : cpu_locked (cs_cpu (get w)) = false;
  tk_nodrain : cpu_draining (cs_cpu (get w)) = false;
  tk_now : q_now (cs_q (get w)) = now;
}.

(** Instructions that succeed within a tick, keep [I] and stall for [R] to [S]
    ticks. *)
Definition instr_ok (I : W -> Prop) : Prop :=
  forall w, tick_ok w -> I w ->
  exists w1 o w2, check w = Ok w1 /\ tick_ok w1 /\ I w1 /\ exec w1 = Ok (o, w2) /\ tick_ok w2 /\ I w2 /\
  ex_fetch_fault o = false /\ 0 <= R <= stall_ticks (cs_cpu (get w2)) o /\ stall_ticks (cs_cpu (get w2)) o <= S.

Definition period : Z := to_Z (dmul (of_Z (cp_period p)) (cp_clkmult p)).

Lemma tick_ok_period w : tick_ok w -> cpu_clockPeriod (cs_cpu (get w)) = period.
Proof. intros Hw. unfold cpu_clockPeriod. by rewrite (tk_p _ Hw). Qed.

Lemma tick_loop_ok I n i L w :
  instr_ok I -> tick_ok w -> I w -> 0 < period -> 0 <= L -> L mod period = 0 -> 0 <= S ->
  Z.of_nat n = cp_width p - i -> L + Z.of_nat n * (S + period) < 2 ^ 64 ->
  exists L' w', tick_loop get put check exec n i L w = Ok (Some L', w') /\ tick_ok w' /\ I w' /\
  L + Z.of_nat n * R <= L' <= L + Z.of_nat n * (S + period) /\ L' mod period = 0.
Proof.
  intros HI. revert i L w. induction n as [|n IH]; intros i L w Hw HIw HP HL Hm HS Hn Hb.
  - cbn [tick_loop]. rewrite (tk_p _ Hw), (tk_unlocked _ Hw).
    rewrite (proj2 (Z.ltb_ge _ _)) by lia. cbn [orb]. exists L, w. split_and!; try done; lia.
  - cbn [tick_loop]. rewrite (tk_p _ Hw), (proj2 (Z.ltb_lt _ _)) by lia. cbn [orb].
    destruct (HI w Hw HIw) as (w1 & o & w2 & -> & H1 & HI1 & He & H2 & HI2 & Hf & Hr & Hs). cbn [rbind].
    rewrite (tk_running _ H1). cbn [bool_decide decide_rel]. rewrite He. cbn [rbind].
    pose proof (tick_ok_period _ H2) as HPe.
    destruct (add_stall_spec (cs_cpu (get w2)) o L S) as (Ha & Hma & Hlow); rewrite ?HPe; try done; try nia.
    rewrite HPe in *. specialize (Hlow Hf).
    destruct (IH (i + 1) (add_stall (cs_cpu (get w2)) o L) w2) as (L' & w' & -> & Hw' & HIw' & HL' & Hm'); try done; try nia.
    exists L', w'. split_and!; try done; nia.
Qed.

(** A whole tick: [I] holds of the world before the manager is charged and the
    next tick is scheduled. *)
Lemma tick_total I w :
  (forall w s, get (put w s) = s) -> instr_ok I -> tick_ok w -> I w ->
  0 < period -> 0 <= S -> 0 < cp_width p -> now + cp_width p * (S + period) < 2 ^ 64 ->
  exists w1 s' extra k, tick get put check exec (Z.to_nat (cp_width p)) w = Ok (put w1 s') /\
  tick_ok w1 /\ I w1 /\ cpu_inv false true s' /\ cpu_step (get w1) s' extra /\ cs_cpu s' = cs_cpu (get w1) /\
  tick_at s' = now + k * period /\ 1 <= k /\ cp_width p * R <= k * period <= cp_width p * (S + period).
Proof.
  intros Hgp HI Hw HIw HP HS Hwd Hb. pose proof (ci_now _ _ _ (tk_cpu _ Hw)) as Hn. rewrite (tk_now _ Hw) in Hn.
  unfold tick. destruct (tick_loop_ok I (Z.to_nat (cp_width p)) 0 0 w HI Hw HIw)
    as (L & w1 & -> & H1 & HI1 & HL & Hm); try done; try lia. cbn [rbind].
  pose proof (tick_ok_period _ H1) as HPe.
  assert (0 <= R) as HR by (destruct (HI w Hw HIw) as (? & ? & ? & ? & ? & ? & ? & ? & ? & ? & ? & ?); lia).
  assert (0 <= L) as HL0 by nia.
  destruct (tick_finish_ok false (get w1) L) as (s' & l & -> & Hi & Hst & Hc & Ht); rewrite ?HPe;
    try apply H1; try lia; [rewrite (tk_now _ H1); nia|].
  cbn [rbind]. rewrite HPe, (tk_now _ H1) in Ht. exists w1, s', l, (Z.max L period / period).
  split_and!; try done.
  all: assert (Z.max L period / period * period = Z.max L period) as Hd
    by (destruct (Z.max_spec L period) as [[_ ->]|[_ ->]]; [by rewrite Z_div_same by lia; lia|];
        rewrite Z.mul_comm; symmetry; apply Z_div_exact_full_2; lia).
  all: rewrite ?Hd; try done; try nia.
Qed.
End TickLoop.
End CpuCorrect.

(** ** A processor to run the operations on *)

Definition cpu_heap : heap :=
  {[ 1%positive := idle Energy_Pri; 2%positive := idle Energy_Pri; 3%positive := idle CPU_Tick_Pri ]}.
Definition demo_params : CpuParams :=
  mkCpuParams 3 10 (of_Z 1) [dzero; dzero; of_Z 1] 4 3 2 true true true.
Definition demo_cpu : Cpu := set_status (new_Cpu demo_params false) Running.
(** Without power, and with the next tick at 25. *)
Definition cpu_off : CpuSt EventQueue :=
  mkCpuSt (mkSt (demo_mgmt demo_on (of_Z 50)) false (mkEventQueue cpu_heap None 0 [] 0 false 0)) demo_cpu.
Definition cpu_on : CpuSt EventQueue :=
  match cpu_schedule cpu_off 25 with Ok s => s | Err _ => cpu_off end.

Lemma cpu_off_inv : cpu_inv false false cpu_off.
Proof.
  assert (em_inv (cs_q cpu_off)) as Hq.
  { split; [done|]. split; [done|]. exists []. apply wf_empty; [done|done|].
    apply (bool_decide_unpack _). vm_compute. exact I. }
  split; try done; [|eexists; by split|by eexists].
  split; try done; eexists; by split.
Qed.

Lemma cpu_on_inv : cpu_inv false true cpu_on /\ tick_at cpu_on = 25.
Proof.
  destruct (cpu_schedule_ok false cpu_off 25 cpu_off_inv) as (s' & Hs & Hi & _ & Hw & Hc); [by vm_compute|].
  unfold cpu_on. rewrite Hs. split; [done|]. by rewrite Hc.
Qed.

(** ** Properties *)

(** An interrupt of a device postpones the next tick of the processor by
    the least whole number of cycles that is no shorter than the delay of its
    handler, and by nothing when the delay is zero. *)
Theorem interrupt_delays {Q} `{EventSchedLaws Q} busy (s : CpuSt Q) d :
  cpu_inv busy true s -> 0 < cpu_clockPeriod (cs_cpu s) -> 0 <= d ->
  tick_at s + d + cpu_clockPeriod (cs_cpu s) < 2 ^ 64 ->
  exists s', virtualDeviceInterrupt s d = Ok s' /\ cpu_inv busy true s' /\ cs_cpu s' = cs_cpu s /\
  (tick_at s' - tick_at s) mod cpu_clockPeriod (cs_cpu s) = 0 /\
  d <= tick_at s' - tick_at s < d + cpu_clockPeriod (cs_cpu s).
Proof.
  intros Hi HP Hd Hb. destruct (interrupt_ok busy s d Hi HP Hd Hb) as (s' & Hs & Hi' & _ & Hc & Hw).
  exists s'. split_and!; try done; rewrite Hw.
  1: replace (_ + _ - _) with (round_to_clock (cpu_clockPeriod (cs_cpu s)) d) by lia.
  all: pose proof (tick_future _ _ Hi); pose proof (round_to_clock_spec _ d HP Hd ltac:(lia)); lia.
Qed.

Lemma interrupt_delays_witness :
  exists s', virtualDeviceInterrupt cpu_on 12 = Ok s' /\ tick_at s' = 45.
Proof.
  destruct (interrupt_delays false cpu_on 12) as (s' & Hs & _ & _ & Hm & Hd).
  - apply cpu_on_inv.
  - vm_compute. reflexivity.
  - lia.
  - vm_compute. reflexivity.
  - exists s'. split; [exact Hs|]. vm_compute in Hs. injection Hs as <-. vm_compute. reflexivity.
Defined.

(** Devices that recover together are waited for one after the other: two
    calls of [virtualDeviceRecover] postpone the next tick by the sum of their
    delays, because nothing ever sets the recorded [recover_time] to other
    than zero. *)
Theorem recoveries_add_up {Q} `{EventSchedLaws Q} busy (s : CpuSt Q) d1 d2 :
  cpu_inv busy true s -> 0 <= d1 -> 0 <= d2 -> tick_at s + d1 + d2 < 2 ^ 53 ->
  exists s', (let* s := virtualDeviceRecover s d1 in virtualDeviceRecover s d2) = Ok s' /\
  cpu_inv busy true s' /\ cs_cpu s' = cs_cpu s /\ tick_at s' = tick_at s + d1 + d2.
Proof.
  intros Hi H1 H2 Hb. destruct (recover_ok busy s d1 Hi H1) as (s1 & -> & Hi1 & _ & Hc1 & Hw1); [lia|].
  cbn [rbind]. destruct (recover_ok busy s1 d2 Hi1 H2) as (s2 & Hs2 & Hi2 & _ & Hc2 & Hw2); [lia|].
  exists s2. split_and!; try done; [congruence|]. rewrite Hw2, Hw1. done.
Qed.

Lemma recoveries_add_up_witness :
  exists s', (let* s := virtualDeviceRecover cpu_on 30 in virtualDeviceRecover s 20) = Ok s' /\ tick_at s' = 75.
Proof.
  destruct (recoveries_add_up false cpu_on 30 20) as (s' & Hs & _ & _ & Hw).
  - apply cpu_on_inv.
  - lia.
  - lia.
  - vm_compute. reflexivity.
  - exists s'. split; [exact Hs|]. rewrite Hw. vm_compute. reflexivity.
Defined.

(** A power failure cancels the next tick and records the backup time and
    the rest of the interrupted cycle; but when power returns the processor
    resumes after the restore time alone, whatever was recorded. *)
Theorem cpu_power_cycle {Q} `{EventSchedLaws Q} busy (s : CpuSt Q) off :
  cpu_inv busy true s -> msg_type off = SimpleEnergySM.POWER_OFF ->
  exists s1, cpu_handleMsg off s = Ok (1, s1) /\ cpu_inv busy false s1 /\
  cpu_tick_recover (cs_cpu s1) = recover_ticks (cs_cpu s) (u64 (tick_at s - q_now (cs_q s))) /\
  forall s2 on, cs_cpu s2 = cs_cpu s1 -> cpu_inv busy false s2 -> msg_type on = SimpleEnergySM.POWER_ON ->
  0 <= restore_ticks (cs_cpu s) -> q_now (cs_q s2) + restore_ticks (cs_cpu s) < 2 ^ 64 ->
  exists s3, cpu_handleMsg on s2 = Ok (1, s3) /\ cpu_inv busy true s3 /\
  tick_at s3 = q_now (cs_q s2) + restore_ticks (cs_cpu s).
Proof.
  intros Hi Hm. destruct (cpu_poweroff_ok busy s off Hi Hm) as (s1 & l & Hs1 & Hi1 & _ & Hc1).
  exists s1. split; [done|]. split; [done|]. split; [by rewrite Hc1|].
  intros s2 on Hc2 Hi2 Hon Hr Hb.
  assert (restore_ticks (cs_cpu s2) = restore_ticks (cs_cpu s)) as He by (by rewrite Hc2, Hc1).
  rewrite <- He in *. destruct (cpu_poweron_ok busy s2 on Hi2 Hon Hr Hb) as (s3 & l3 & Hs3 & Hi3 & _ & Hw3 & _).
  exists s3. done.
Qed.

Lemma cpu_power_cycle_witness :
  exists s1 s3, cpu_handleMsg (sm_msg 1) cpu_on = Ok (1, s1) /\ cpu_tick_recover (cs_cpu s1) = 70 /\
  cpu_handleMsg (sm_msg 2) s1 = Ok (1, s3) /\ tick_at s3 = 30.
Proof.
  destruct (cpu_power_cycle false cpu_on (sm_msg 1)) as (s1 & Hs1 & Hi1 & Hr & Hon).
  - apply cpu_on_inv.
  - reflexivity.
  - destruct (Hon s1 (sm_msg 2) eq_refl Hi1 eq_refl) as (s3 & Hs3 & _ & Hw).
    + vm_compute. discriminate.
    + vm_compute in Hs1. injection Hs1 as <-. vm_compute. reflexivity.
    + exists s1, s3. split; [exact Hs1|]. split; [rewrite Hr; vm_compute; reflexivity|]. split; [exact Hs3|].
      rewrite Hw. vm_compute in Hs1. injection Hs1 as <-. vm_compute. reflexivity.
Defined.

(** A tick of the running processor ends with its next tick scheduled a
    positive whole number of cycles later, long enough for the stalls of its
    instructions, for any instructions that succeed and stall boundedly; the
    loop needs no more than [width] rounds. *)
Theorem tick_on_clock {Q W} `{EventSchedLaws Q} (get : W -> CpuSt Q) put check exec p now R S w :
  (forall w s, get (put w s) = s) -> instr_ok get check exec p now R S (fun _ => True) -> tick_ok get p now w ->
  0 < period p -> 0 <= S -> 0 < cp_width p -> now + cp_width p * (S + period p) < 2 ^ 64 ->
  exists w' k, tick get put check exec (Z.to_nat (cp_width p)) w = Ok w' /\ cpu_inv false true (get w') /\
  tick_at (get w') = now + k * period p /\ 1 <= k /\
  cp_width p * R <= k * period p <= cp_width p * (S + period p).
Proof.
  intros Hgp HI Hw HP HS Hwd Hb.
  destruct (tick_total get put check exec p now R S (fun _ => True) w Hgp HI Hw I HP HS Hwd Hb)
    as (w1 & s' & l & k & Ht & _ & _ & Hi & _ & _ & Hk). eexists _, k. rewrite Hgp. done.
Qed.

Definition demo_check (s : CpuSt EventQueue) : result (CpuSt EventQueue) := Ok s.
Definition demo_exec (s : CpuSt EventQueue) : result (exec_out * CpuSt EventQueue) :=
  Ok (mkOut false true 7 true 5, s).

Lemma tick_on_clock_witness :
  exists s', tick (fun s => s) (fun _ s => s) demo_check demo_exec 2 cpu_off = Ok s' /\ tick_at s' = 40.
Proof.
  destruct (tick_on_clock (fun s => s) (fun _ s => s) demo_check demo_exec demo_params 0 12 12 cpu_off)
    as (s' & k & Hs & _ & _).
  - reflexivity.
  - intros w Hw _. exists w, (mkOut false true 7 true 5), w. split; [reflexivity|]. split; [exact Hw|]. split; [exact I|].
    split; [reflexivity|]. split; [exact Hw|]. split; [exact I|]. split; [reflexivity|].
    unfold stall_ticks. rewrite (tk_p _ _ _ _ Hw). vm_compute. split; [split; discriminate|discriminate].
  - split; [exact cpu_off_inv|reflexivity..].
  - vm_compute. reflexivity.
  - lia.
  - vm_compute. reflexivity.
  - vm_compute. reflexivity.
  - exists s'. split; [exact Hs|]. vm_compute in Hs. injection Hs as <-. vm_compute. reflexivity.
Defined.
