(* ===== verification/VirtualDevice.v ===== *)
(** * Virtual devices

    [vdev/vdev.cc]: a peripheral with a command byte in memory, two events that
    complete an initialisation or a task, and a reaction to power failures.
    Its operations call the processor, and through it the queue. *)
From Stdlib Require Import SpecFloat String.
From S2P Require Import Prelude IntMath AddrRange Double EventQueue EventQueueCorrect EventSched EnergySM EnergyMgmt Clock Cpu.
Open Scope Z_scope.

(** ** Definitions: the state *)

Definition VDEV_INIT : Z := 0x80.
Definition VDEV_ACTIVATE : Z := 0x40.
Definition VDEV_CHAOS : Z := 0x08.
Definition VDEV_READY : Z := 0x04.
Definition VDEV_BUSY : Z := 0x02.
Definition VDEV_IDLE : Z := 0x01.

Inductive VdevEngyState := VD_POWER_OFF | VD_SLEEP | VD_NORMAL | VD_ACTIVE.

Definition state_index (st : VdevEngyState) : nat :=
  match st with VD_POWER_OFF => 0 | VD_SLEEP => 1 | VD_NORMAL => 2 | VD_ACTIVE => 3 end.

(** What the constructor fixes; the three events are given by their addresses. *)
Record VdParams := mkVdParams {
  vp_tickEvent : ptr;
  vp_event_interrupt : ptr;
  vp_event_init : ptr;
  vp_period : Z;
  vp_range : AddrRange;
  vp_delay_set : Z;
  vp_delay_self : Z;
  vp_delay_recover : Z;
  vp_delay_cpu_interrupt : Z;
  vp_is_interruptable : bool;
  vp_need_log : bool;
  vp_energy : list double;
  vp_master : bool;
}.

Record VDev := mkVDev {
  vd_p : VdParams;
  vd_id : Z;
  vd_need_recover : bool;
  vd_delay_remained : Z;
  vd_state : VdevEngyState;
  vd_pmem : list Z;
  vd_access_time : Z;
  vd_clock : Clocked;
}.

Definition set_vid (d : VDev) (id : Z) : VDev :=
  mkVDev (vd_p d) id (vd_need_recover d) (vd_delay_remained d) (vd_state d) (vd_pmem d) (vd_access_time d) (vd_clock d).
Definition set_recovery (d : VDev) (need : bool) (remained : Z) : VDev :=
  mkVDev (vd_p d) (vd_id d) need remained (vd_state d) (vd_pmem d) (vd_access_time d) (vd_clock d).
Definition set_vstate (d : VDev) (st : VdevEngyState) : VDev :=
  mkVDev (vd_p d) (vd_id d) (vd_need_recover d) (vd_delay_remained d) st (vd_pmem d) (vd_access_time d) (vd_clock d).
Definition set_pmem (d : VDev) (m : list Z) : VDev :=
  mkVDev (vd_p d) (vd_id d) (vd_need_recover d) (vd_delay_remained d) (vd_state d) m (vd_access_time d) (vd_clock d).
Definition count_access (d : VDev) : VDev :=
  mkVDev (vd_p d) (vd_id d) (vd_need_recover d) (vd_delay_remained d) (vd_state d) (vd_pmem d)
    (vd_access_time d + 1) (vd_clock d).
Definition set_vclock (d : VDev) (k : Clocked) : VDev :=
  mkVDev (vd_p d) (vd_id d) (vd_need_recover d) (vd_delay_remained d) (vd_state d) (vd_pmem d) (vd_access_time d) k.

(** [VirtualDevice::VirtualDevice]. *)
Definition new_VDev (p : VdParams) (id : Z) : VDev :=
  mkVDev p id false 0 VD_POWER_OFF (replicate (Z.to_nat (ar_size (vp_range p))) 0) 0 new_Clocked.

(** The command byte [*pmem], and the flags of a byte. *)
Definition reg (d : VDev) : result Z := deref (vd_pmem d !! 0%nat).
Definition set_reg (d : VDev) (b : Z) : result VDev :=
  let* m := upd (vd_pmem d) 0 b in Ok (set_pmem d m).
Definition has (b f : Z) : bool := negb (Z.land b f =? 0).
Definition on_bits (b f : Z) : Z := Z.lor b f.
Definition off_bits (b f : Z) : Z := u8 (Z.land b (Z.lnot f)).

(** A request packet; its size is that of its data. *)
Record VdPacket := mkVdPacket { pkt_isRead : bool; pkt_isWrite : bool; pkt_addr : Z; pkt_data : list Z }.

(** [memcpy] from and to the device memory; beyond its end is no memory. *)
Definition mem_read (m : list Z) (offset size : Z) : result (list Z) :=
  if offset + size <=? Z.of_nat (length m)
  then Ok (take (Z.to_nat size) (drop (Z.to_nat offset) m)) else Err Bad_pointer.
Definition mem_write (m : list Z) (offset : Z) (data : list Z) : result (list Z) :=
  if offset + Z.of_nat (length data) <=? Z.of_nat (length m)
  then Ok (take (Z.to_nat offset) m ++ data ++ drop (Z.to_nat offset + length data) m) else Err Bad_pointer.

Section VdevOps.
Context {Q : Type} `{EventSched Q}.

(** A device with its processor, the manager and the queue. *)
Record VdSt := mkVdSt { vs_cpu : CpuSt Q; vs_dev : VDev }.

Definition vs_q (s : VdSt) : Q := cs_q (vs_cpu s).

(** [schedule] and [deschedule] of an event of the device. *)
Definition ev_schedule (c : CpuSt Q) (p : ptr) (t : Z) : result (CpuSt Q) :=
  let* q := q_schedule (cs_q c) p t in Ok (with_q c q).
Definition ev_deschedule (c : CpuSt Q) (p : ptr) : result (CpuSt Q) :=
  let* q := q_deschedule (cs_q c) p in Ok (with_q c q).

Definition dev_start (c : CpuSt Q) (id : Z) : result (CpuSt Q) :=
  let* cpu := virtualDeviceStart (cs_cpu c) id in Ok (with_cpu c cpu).
Definition dev_end (c : CpuSt Q) (id : Z) : result (CpuSt Q) :=
  let* cpu := virtualDeviceEnd (cs_cpu c) id in Ok (with_cpu c cpu).

(** [init()]. *)
Definition vdev_init (s : VdSt) : result VdSt :=
  let '(id, cpu) := registerVDev (cs_cpu (vs_cpu s)) (vp_delay_recover (vd_p (vs_dev s))) in
  let d := set_vstate (set_vid (vs_dev s) id) VD_POWER_OFF in
  let c := with_cpu (vs_cpu s) cpu in
  if negb (q_scheduled (cs_q c) (vp_tickEvent (vd_p d))) then
    let '(t, k) := clockEdge (q_now (cs_q c)) (vp_period (vd_p d)) (vd_clock d) 0 in
    let* c := ev_schedule c (vp_tickEvent (vd_p d)) t in
    Ok (mkVdSt c (set_vclock d k))
  else Ok (mkVdSt c d).

(** The part of [triggerInterrupt()] that restarts an interrupted task. *)
Definition vdev_restart (s : VdSt) (b : Z) : result VdSt :=
  let c := vs_cpu s in
  let d := vs_dev s in
  let* c := ev_schedule c (vp_event_interrupt (vd_p d)) (u64 (q_now (cs_q c) + vd_delay_remained d)) in
  let* c := virtualDeviceRecover c (vd_delay_remained d) in
  let* d := set_reg d (on_bits b VDEV_BUSY) in
  let d := set_vstate d VD_ACTIVE in
  let* c := dev_start c (vd_id d) in
  Ok (mkVdSt c d).

(** [triggerInterrupt()], the handler of both [event_init] and
    [event_interrupt]. *)
Definition triggerInterrupt (s : VdSt) : result VdSt :=
  let c := vs_cpu s in
  let d := vs_dev s in
  let* b := reg d in
  let* _ := assert_ (has b VDEV_BUSY) in
  let b := off_bits (on_bits b VDEV_IDLE) VDEV_BUSY in
  let d := set_vstate d VD_NORMAL in
  if has b VDEV_CHAOS then
    let b := off_bits (on_bits b VDEV_READY) VDEV_CHAOS in
    let* d := set_reg d b in
    let* c := virtualDeviceInterrupt c 0 in
    let* c := dev_end c (vd_id d) in
    if 0 <? vd_delay_remained d then vdev_restart (mkVdSt c d) b else Ok (mkVdSt c d)
  else
    let* d := set_reg d b in
    let d := set_recovery d (vd_need_recover d) 0 in
    let* c := virtualDeviceInterrupt c (vp_delay_cpu_interrupt (vd_p d)) in
    let* c := dev_end c (vd_id d) in
    Ok (mkVdSt c d).

(** The command written to the first byte. *)
Definition command (s : VdSt) (cmd : Z) : result VdSt :=
  let c := vs_cpu s in
  let d := vs_dev s in
  let* b := reg d in
  if has cmd VDEV_INIT then
    if has b VDEV_BUSY then Ok s
    else
      let d := set_vstate d VD_NORMAL in
      let* d := set_reg d (off_bits (on_bits b VDEV_BUSY) VDEV_IDLE) in
      let* c := ev_schedule c (vp_event_init (vd_p d)) (u64 (q_now (cs_q c) + vp_delay_set (vd_p d))) in
      Ok (mkVdSt c d)
  else if has cmd VDEV_ACTIVATE then
    if has b VDEV_CHAOS then Ok s
    else if has b VDEV_BUSY then Ok s
    else
      let d := set_vstate d VD_ACTIVE in
      let d := if vp_need_log (vd_p d) then count_access d else d in
      let* d := set_reg d (off_bits (on_bits b VDEV_BUSY) VDEV_IDLE) in
      let* c := ev_schedule c (vp_event_interrupt (vd_p d)) (u64 (q_now (cs_q c) + vp_delay_self (vd_p d))) in
      let* c := dev_start c (vd_id d) in
      Ok (mkVdSt c d)
  else Ok s.

(** [access(pkt)], and the functions of the memory port. *)
Definition vdev_access (s : VdSt) (pkt : VdPacket) : result (VdSt * VdPacket) :=
  let d := vs_dev s in
  let offset := u64 (pkt_addr pkt - ar_start (vp_range (vd_p d))) in
  if pkt_isRead pkt then
    let* data := mem_read (vd_pmem d) offset (Z.of_nat (length (pkt_data pkt))) in
    Ok (s, mkVdPacket (pkt_isRead pkt) (pkt_isWrite pkt) (pkt_addr pkt) data)
  else if pkt_isWrite pkt then
    if offset =? 0 then
      let* cmd := deref (pkt_data pkt !! 0%nat) in
      let* s := command s cmd in
      Ok (s, pkt)
    else
      let* m := mem_write (vd_pmem d) offset (pkt_data pkt) in
      Ok (mkVdSt (vs_cpu s) (set_pmem d m), pkt)
  else Ok (s, pkt).

Definition recvAtomic (s : VdSt) (pkt : VdPacket) : result (Z * (VdSt * VdPacket)) :=
  let* r := vdev_access s pkt in Ok (0, r).
Definition recvFunctional (s : VdSt) (pkt : VdPacket) : result VdSt := Err Fatal.
Definition recvTimingReq (s : VdSt) (pkt : VdPacket) : result (bool * VdSt) := Err Fatal.
Definition recvRespRetry (s : VdSt) : result VdSt := Err Fatal.

(** [tick()]: the energy of one period in the present state. *)
Definition vdev_tick (s : VdSt) : result VdSt :=
  let d := vs_dev s in
  let latency := vp_period (vd_p d) in
  let* e := deref (vp_energy (vd_p d) !! state_index (vd_state d)) in
  let* '(_, st) := obj_consumeEnergy (fun st => st) (fun _ st => st) (vp_master (vd_p d)) "VDEV"
                     (dmul e (of_Z (ticksToCycles (vp_period (vd_p d)) latency))) (cs_st (vs_cpu s)) in
  let c := mkCpuSt st (cs_cpu (vs_cpu s)) in
  let* c := ev_schedule c (vp_tickEvent (vd_p d)) (u64 (q_now (cs_q c) + latency)) in
  Ok (mkVdSt c d).

(** The branches of [handleMsg] on a power failure: what to deschedule and
    what to remember. *)
Definition vdev_fail (s : VdSt) (b : Z) : result VdSt :=
  let c := vs_cpu s in
  let d := vs_dev s in
  if has b VDEV_READY && negb (has b VDEV_BUSY) then Ok (mkVdSt c (set_recovery d true 0))
  else if negb (has b VDEV_READY) && has b VDEV_BUSY then
    let* _ := assert_ (q_scheduled (cs_q c) (vp_event_init (vd_p d))) in
    let* c := ev_deschedule c (vp_event_init (vd_p d)) in
    Ok (mkVdSt c (set_recovery d true 0))
  else if has b VDEV_READY && has b VDEV_BUSY then
    let* _ := assert_ (q_scheduled (cs_q c) (vp_event_interrupt (vd_p d))) in
    let* c := ev_deschedule c (vp_event_interrupt (vd_p d)) in
    let remained :=
      if negb (vp_is_interruptable (vd_p d)) then vp_delay_self (vd_p d)
      else u64 (q_when (cs_q c) (vp_event_interrupt (vd_p d)) - q_now (cs_q c)) in
    Ok (mkVdSt c (set_recovery d true remained))
  else Ok s.

(** [handleMsg(msg)]. *)
Definition vdev_handleMsg (msg : EnergyMsg) (s : VdSt) : result (Z * VdSt) :=
  if msg_type msg =? SimpleEnergySM.POWER_OFF then
    let* b := reg (vs_dev s) in
    let* s := vdev_fail (mkVdSt (vs_cpu s) (set_vstate (vs_dev s) VD_POWER_OFF)) b in
    let* d := set_reg (vs_dev s)
      (off_bits (off_bits (off_bits (on_bits b VDEV_CHAOS) VDEV_READY) VDEV_BUSY) VDEV_IDLE) in
    Ok (1, mkVdSt (vs_cpu s) d)
  else if msg_type msg =? SimpleEnergySM.POWER_ON then
    let d := vs_dev s in
    let* b := reg d in
    if vd_need_recover d then
      let* c := ev_schedule (vs_cpu s) (vp_event_init (vd_p d)) (u64 (q_now (vs_q s) + vp_delay_set (vd_p d))) in
      let d := set_vstate d VD_NORMAL in
      let* d := set_reg d (on_bits b VDEV_BUSY) in
      let* c := virtualDeviceRecover c (vp_delay_set (vd_p d)) in
      let* c := dev_start c (vd_id d) in
      Ok (1, mkVdSt c d)
    else
      let* d := set_reg d (off_bits b VDEV_BUSY) in
      Ok (1, mkVdSt (vs_cpu s) d)
  else Ok (0, s).
End VdevOps.
Arguments VdSt Q : clear implicits.

(** ** Flags *)

Definition is_flag (f : Z) : bool := bool_decide (f ∈ [1; 2; 4; 8; 64; 128]).

Lemma u8_land x g : 0 <= g < 256 -> Z.land (u8 x) g = Z.land x g.
Proof.
  intros Hg. unfold u8, wrap. change (2 ^ 8) with (2 ^ 8). rewrite <- Z.land_ones by lia.
  rewrite <- Z.land_assoc. f_equal. rewrite Z.land_comm, Z.land_ones by lia. apply Z.mod_small. lia.
Qed.

Lemma is_flag_cases f : is_flag f = true -> f = 1 \/ f = 2 \/ f = 4 \/ f = 8 \/ f = 64 \/ f = 128.
Proof. unfold is_flag. rewrite bool_decide_eq_true, !elem_of_cons, elem_of_nil. tauto. Qed.

Lemma has_on b f g : is_flag f = true -> is_flag g = true -> has (on_bits b f) g = (f =? g) || has b g.
Proof.
  intros Hf Hg. unfold has, on_bits. rewrite Z.land_lor_distr_l.
  assert (Z.land f g = if f =? g then g else 0) as ->.
  { apply is_flag_cases in Hf, Hg. destruct Hf as [->|[->|[->|[->|[->| ->]]]]], Hg as [->|[->|[->|[->|[->| ->]]]]]; done. }
  destruct (Z.eqb_spec f g); cbn [orb]; [|by rewrite Z.lor_0_r].
  apply negb_true_iff, Z.eqb_neq. rewrite Z.lor_eq_0_iff. apply is_flag_cases in Hg. lia.
Qed.

Lemma has_off b f g : is_flag f = true -> is_flag g = true -> has (off_bits b f) g = negb (f =? g) && has b g.
Proof.
  intros Hf Hg. unfold has, off_bits. apply is_flag_cases in Hg as Hg'. rewrite u8_land by lia.
  rewrite <- Z.land_assoc. assert (Z.land (Z.lnot f) g = if f =? g then 0 else g) as ->.
  { apply is_flag_cases in Hf. destruct Hf as [->|[->|[->|[->|[->| ->]]]]], Hg' as [->|[->|[->|[->|[->| ->]]]]]; done. }
  destruct (f =? g); cbn [negb andb]; [by rewrite Z.land_0_r|done].
Qed.

(** Evaluates the flags of a byte built by [on_bits] and [off_bits]. *)
Ltac flags :=
  rewrite ?has_on, ?has_off, ?has_on, ?has_off, ?has_on, ?has_off by done;
  cbn [Z.eqb Pos.eqb orb andb negb VDEV_IDLE VDEV_BUSY VDEV_READY VDEV_CHAOS].

Lemma set_reg_ok d b0 b :
  reg d = Ok b0 -> exists m, set_reg d b = Ok (set_pmem d m) /\ reg (set_pmem d m) = Ok b.
Proof.
  unfold reg, set_reg, upd. destruct (vd_pmem d) as [|x l]; [done|]. intros _. cbn. by eexists.
Qed.

(** ** The invariant of a device *)

(** The events that the manager and the processor change. *)
Abbreviation shared c := [event_msg (mg (cs_st c)); cp_tickEvent (cpu_p (cs_cpu c))].

(** The completion events of a device. *)
Abbreviation ev_int s := (vp_event_interrupt (vd_p (vs_dev s))).
Abbreviation ev_ini s := (vp_event_init (vd_p (vs_dev s))).

Section VdevCorrect.
Context {Q : Type} `{EventSchedLaws Q}.

(** How an operation changes the processor, manager and queue: messages
    [extra] are added, and only the events of [l] may change. *)
Record w_step (l : list ptr) (c c' : CpuSt Q) (extra : list EnergyMsg) : Prop := {
  w_togo : msg_togo (mg (cs_st c')) = msg_togo (mg (cs_st c)) ++ extra;
  w_conf : same_config (mg (cs_st c)) (mg (cs_st c'));
  w_data : energy_harvest_data (mg (cs_st c')) = energy_harvest_data (mg (cs_st c));
  w_frame : q_frames l (cs_q c) (cs_q c');
  w_p : cpu_p (cs_cpu c') = cpu_p (cs_cpu c);
  w_devs : length (cpu_status_vdev (cs_cpu c')) = length (cpu_status_vdev (cs_cpu c));
  w_phase on : phases on (mg (cs_st c)) -> phases on (mg (cs_st c'));
  w_mode : cpu_mode (cs_cpu c') = cpu_mode (cs_cpu c);
}.

Lemma w_step_refl l c : w_step l c c [].
Proof. split; try done. by rewrite app_nil_r. Qed.

Lemma w_step_trans l c1 c2 c3 e1 e2 : w_step l c1 c2 e1 -> w_step l c2 c3 e2 -> w_step l c1 c3 (e1 ++ e2).
Proof.
  intros [T1 C1 D1 F1 P1 L1 A1 M1] [T2 C2 D2 F2 P2 L2 A2 M2].
  split; [by rewrite T2, T1, app_assoc|by etrans|congruence|by etrans|congruence|congruence|auto|congruence].
Qed.

Lemma w_step_trans0 l c1 c2 c3 e : w_step l c1 c2 e -> w_step l c2 c3 [] -> w_step l c1 c3 e.
Proof. intros A B. rewrite <- (app_nil_r e). by eapply w_step_trans. Qed.

Lemma w_step_mono l l' c c' e : l ⊆ l' -> w_step l c c' e -> w_step l' c c' e.
Proof. intros Hl []. split; try done. by eapply q_frames_mono. Qed.

Lemma cpu_w_step c c' e : cpu_step c c' e -> w_step (shared c) c c' e.
Proof. by intros []. Qed.

Lemma w_shared l c c' e : w_step l c c' e -> shared c' = shared c.
Proof. intros []. rewrite (sc_ev _ _ w_conf0), w_p0. done. Qed.

(** An event outside the shared ones is changed. *)
Lemma with_q_other busy con c q' p o :
  cpu_inv busy con c -> p ∉ shared c -> q_inv q' -> q_step q_own (cs_q c) q' p o ->
  cpu_inv busy con (with_q c q') /\ w_step [p] c (with_q c q') [] /\ tick_at (with_q c q') = tick_at c.
Proof.
  intros [[Ti To Th Tn Ts Tb] Ho Hm Hh Hsc Hr Hp Hn] Hne Hq Hst.
  assert (event_msg (mg (cs_st c)) <> p /\ cp_tickEvent (cpu_p (cs_cpu c)) <> p) as [N1 N2] by set_solver.
  destruct (step_other _ _ _ _ _ Hst _ N1) as [Hs1 _]. destruct (step_other _ _ _ _ _ Hst _ N2) as [Hs2 Hw2].
  split; [|split; [|exact Hw2]].
  - split; try done; [|by apply (step_own _ _ _ _ _ Hst)|by rewrite <- Hsc|cbn; by rewrite (step_now _ _ _ _ _ Hst)].
    split; cbn; try done; [by apply (step_own _ _ _ _ _ Hst)..|]. by rewrite Hs1.
  - split; try done; cbn; [by rewrite app_nil_r|]. by eapply step_frames.
Qed.

Lemma ev_schedule_ok busy con c p t :
  cpu_inv busy con c -> p ∉ shared c -> q_own (cs_q c) p -> q_scheduled (cs_q c) p = false -> q_now (cs_q c) <= t ->
  exists c', ev_schedule c p t = Ok c' /\ cpu_inv busy con c' /\ w_step [p] c c' [] /\ tick_at c' = tick_at c /\
  cs_cpu c' = cs_cpu c /\ q_scheduled (cs_q c') p = true /\ q_when (cs_q c') p = t.
Proof.
  intros Hi Hp Ho Hs Ht. destruct (q_schedule_ok (cs_q c) p t (ti_inv _ _ (ci_togo _ _ _ Hi)) Ho Hs Ht) as (q' & Hq & Hqi & Hst).
  unfold ev_schedule. rewrite Hq. cbn [rbind]. exists (with_q c q').
  destruct (with_q_other _ _ _ _ _ _ Hi Hp Hqi Hst) as (Hi' & Hw & Ht'). split_and!; try done.
  - by apply (step_sched _ _ _ _ _ Hst).
  - by apply (step_when _ _ _ _ _ Hst).
Qed.

Lemma ev_deschedule_ok busy con c p :
  cpu_inv busy con c -> p ∉ shared c -> q_own (cs_q c) p -> q_scheduled (cs_q c) p = true ->
  exists c', ev_deschedule c p = Ok c' /\ cpu_inv busy con c' /\ w_step [p] c c' [] /\ tick_at c' = tick_at c /\
  cs_cpu c' = cs_cpu c /\ q_scheduled (cs_q c') p = false /\ q_when (cs_q c') p = q_when (cs_q c) p.
Proof.
  intros Hi Hp Ho Hs. destruct (q_deschedule_ok (cs_q c) p (ti_inv _ _ (ci_togo _ _ _ Hi)) Ho Hs) as (q' & Hq & Hqi & Hst).
  unfold ev_deschedule. rewrite Hq. cbn [rbind]. exists (with_q c q').
  destruct (with_q_other _ _ _ _ _ _ Hi Hp Hqi Hst) as (Hi' & Hw & Ht'). split_and!; try done.
  - by apply (step_sched _ _ _ _ _ Hst).
  - by apply (step_keep _ _ _ _ _ Hst).
Qed.

(** Marking a device busy or done in the registry. *)
Lemma dev_mark_ok busy con c id (b : bool) :
  cpu_inv busy con c -> (Z.to_nat id < length (cpu_status_vdev (cs_cpu c)))%nat ->
  exists c', (if b then dev_start c id else dev_end c id) = Ok c' /\ cpu_inv busy con c' /\ w_step [] c c' [] /\
  tick_at c' = tick_at c /\ cs_q c' = cs_q c /\
  cs_cpu c' = set_vdevs (cs_cpu c) (cpu_lat_vdev (cs_cpu c)) (<[Z.to_nat id := b]> (cpu_status_vdev (cs_cpu c))).
Proof.
  intros Hi Hid.
  assert (forall x, upd (cpu_status_vdev (cs_cpu c)) (Z.to_nat id) x = Ok (<[Z.to_nat id := x]> (cpu_status_vdev (cs_cpu c)))) as Hu.
  { intros x. by apply upd_ok. }
  set (cpu := set_vdevs (cs_cpu c) (cpu_lat_vdev (cs_cpu c)) (<[Z.to_nat id := b]> (cpu_status_vdev (cs_cpu c)))).
  destruct (with_cpu_inv _ _ _ cpu Hi) as [Hi' St]; [done|apply (ci_recover _ _ _ Hi)|apply length_insert|done|].
  exists (with_cpu c cpu). split; [|split_and!; try done].
  - unfold dev_start, dev_end, virtualDeviceStart, virtualDeviceEnd. by destruct b; rewrite Hu.
  - destruct St. split; done.
Qed.
Definition vd_events (d : VDev) : list ptr :=
  [vp_tickEvent (vd_p d); vp_event_interrupt (vd_p d); vp_event_init (vd_p d)].

(** What holds of a device at any time: its events are its own, it has a
    command byte, a number and delays. *)
Record vd_core (busy con : bool) (s : VdSt Q) : Prop := {
  vc_cpu : cpu_inv busy con (vs_cpu s);
  vc_own p : p ∈ vd_events (vs_dev s) -> q_own (vs_q s) p;
  vc_nodup : NoDup (vd_events (vs_dev s));
  vc_apart p : p ∈ vd_events (vs_dev s) -> p ∉ shared (vs_cpu s);
  vc_reg : exists b, reg (vs_dev s) = Ok b;
  vc_id : (Z.to_nat (vd_id (vs_dev s)) < length (cpu_status_vdev (cs_cpu (vs_cpu s))))%nat;
  vc_set : 0 <= vp_delay_set (vd_p (vs_dev s));
  vc_self : 0 <= vp_delay_self (vd_p (vs_dev s));
  vc_irq : 0 <= vp_delay_cpu_interrupt (vd_p (vs_dev s));
  vc_remained : 0 <= vd_delay_remained (vs_dev s);
}.

(** The command byte is [b] and agrees with the queue: busy and ready is a
    task, with [event_interrupt] to come; busy and not ready is an
    initialisation, with [event_init] to come. *)
Record vd_sync (s : VdSt Q) (b : Z) : Prop := {
  sy_reg : reg (vs_dev s) = Ok b;
  sy_int : q_scheduled (vs_q s) (ev_int s) = has b VDEV_BUSY && has b VDEV_READY;
  sy_init : q_scheduled (vs_q s) (ev_ini s) = has b VDEV_BUSY && negb (has b VDEV_READY);
}.

(** What matters to a device of a change elsewhere. *)
Record w_same (l : list ptr) (c c' : CpuSt Q) : Prop := {
  sm_shared : shared c' = shared c;
  sm_own r : q_own (cs_q c) r -> q_own (cs_q c') r;
  sm_other r : r ∉ l -> q_scheduled (cs_q c') r = q_scheduled (cs_q c) r /\ q_when (cs_q c') r = q_when (cs_q c) r;
  sm_devs : length (cpu_status_vdev (cs_cpu c')) = length (cpu_status_vdev (cs_cpu c));
}.

Lemma w_step_same l c c' e : w_step l c c' e -> w_same l c c'.
Proof. intros Hw. split; [by eapply w_shared|apply (w_frame _ _ _ _ Hw)..|apply (w_devs _ _ _ _ Hw)]. Qed.

Lemma vd_core_same busy busy' con con' s l c' d' :
  vd_core busy con s -> w_same l (vs_cpu s) c' -> cpu_inv busy' con' c' ->
  vd_p d' = vd_p (vs_dev s) -> vd_id d' = vd_id (vs_dev s) -> (exists b, reg d' = Ok b) ->
  0 <= vd_delay_remained d' -> vd_core busy' con' (mkVdSt c' d').
Proof.
  intros [Hc Ho Hn Ha Hr Hi H1 H2 H3 H4] Hw Hc' Hp Hid Hr' Hd'. pose proof (sm_shared _ _ _ Hw) as Hsh.
  unfold vd_events in *. split; cbn [vs_cpu vs_dev]; unfold vd_events, vs_q; cbn [vs_cpu];
    rewrite ?Hp, ?Hid, ?Hsh, ?(sm_devs _ _ _ Hw); try done.
  intros p Hpin. apply (sm_own _ _ _ Hw). by apply Ho.
Qed.

Lemma vd_core_step busy busy' con con' s l c' e d' :
  vd_core busy con s -> w_step l (vs_cpu s) c' e -> cpu_inv busy' con' c' ->
  vd_p d' = vd_p (vs_dev s) -> vd_id d' = vd_id (vs_dev s) -> (exists b, reg d' = Ok b) ->
  0 <= vd_delay_remained d' -> vd_core busy' con' (mkVdSt c' d').
Proof. intros Hc Hw. eapply vd_core_same; [exact Hc|by eapply w_step_same]. Qed.

Lemma vd_distinct busy con s :
  vd_core busy con s ->
  ev_int s <> ev_ini s /\ vp_tickEvent (vd_p (vs_dev s)) <> ev_int s /\ vp_tickEvent (vd_p (vs_dev s)) <> ev_ini s.
Proof.
  intros Hc. pose proof (vc_nodup _ _ _ Hc) as Hn. unfold vd_events in Hn.
  rewrite !NoDup_cons, !elem_of_cons, elem_of_nil in Hn. destruct Hn as (N1 & N2 & _). split_and!; intros E; rewrite E in *; tauto.
Qed.

Lemma int_event busy con s :
  vd_core busy con s -> (ev_int s ∉ shared (vs_cpu s)) /\ q_own (vs_q s) (ev_int s).
Proof. intros Hc. split; [apply (vc_apart _ _ _ Hc)|apply (vc_own _ _ _ Hc)]; unfold vd_events; set_solver. Qed.

Lemma init_event busy con s :
  vd_core busy con s -> (ev_ini s ∉ shared (vs_cpu s)) /\ q_own (vs_q s) (ev_ini s).
Proof. intros Hc. split; [apply (vc_apart _ _ _ Hc)|apply (vc_own _ _ _ Hc)]; unfold vd_events; set_solver. Qed.

(** An event untouched by a step. *)
Lemma w_untouched l c c' e p :
  w_step l c c' e -> p ∉ l -> q_scheduled (cs_q c') p = q_scheduled (cs_q c) p /\ q_when (cs_q c') p = q_when (cs_q c) p.
Proof. intros Hw Hp. by apply (frs_other _ _ _ (w_frame _ _ _ _ Hw)). Qed.

Lemma w_now l c c' e : w_step l c c' e -> q_now (cs_q c') = q_now (cs_q c).
Proof. intros Hw. apply (frs_now _ _ _ (w_frame _ _ _ _ Hw)). Qed.

(** ** Power failure *)

Definition off_byte (b : Z) : Z :=
  off_bits (off_bits (off_bits (on_bits b VDEV_CHAOS) VDEV_READY) VDEV_BUSY) VDEV_IDLE.

(** What is left of a task that a power failure interrupts at tick [now] and
    that was to end at [t]. *)
Definition task_left (d : VDev) (t now : Z) : Z :=
  if negb (vp_is_interruptable (vd_p d)) then vp_delay_self (vd_p d) else t - now.

Definition left_after_fail (s : VdSt Q) (b : Z) : Z :=
  if has b VDEV_BUSY && has b VDEV_READY then task_left (vs_dev s) (q_when (vs_q s) (ev_int s)) (q_now (vs_q s))
  else if has b VDEV_BUSY || has b VDEV_READY then 0 else vd_delay_remained (vs_dev s).

Lemma vdev_fail_ok busy con s b :
  vd_core busy con s -> vd_sync s b ->
  (q_scheduled (vs_q s) (ev_int s) = true -> q_when (vs_q s) (ev_int s) < 2 ^ 64) ->
  exists c', vdev_fail s b =
    Ok (mkVdSt c' (set_recovery (vs_dev s) (vd_need_recover (vs_dev s) || has b VDEV_BUSY || has b VDEV_READY)
                     (left_after_fail s b))) /\
  cpu_inv busy con c' /\ w_step [ev_int s; ev_ini s] (vs_cpu s) c' [] /\ tick_at c' = tick_at (vs_cpu s) /\
  cs_cpu c' = cs_cpu (vs_cpu s) /\ 0 <= left_after_fail s b /\
  q_scheduled (cs_q c') (ev_int s) = false /\ q_scheduled (cs_q c') (ev_ini s) = false.
Proof.
  intros Hc [Hr Hsi Hsn] Hb. pose proof (vc_cpu _ _ _ Hc) as Hcpu. destruct (vd_distinct _ _ _ Hc) as [Hne _].
  destruct (int_event _ _ _ Hc) as [Hia Hio], (init_event _ _ _ Hc) as [Hna Hno].
  unfold vdev_fail, left_after_fail. destruct (has b VDEV_BUSY) eqn:HB, (has b VDEV_READY) eqn:HR; cbn [negb andb orb] in *;
    rewrite ?orb_true_r, ?orb_false_r.
  - specialize (Hb Hsi). change (cs_q (vs_cpu s)) with (vs_q s). rewrite Hsi. cbn [assert_ rbind].
    destruct (ev_deschedule_ok _ _ _ _ Hcpu Hia Hio Hsi) as (c' & -> & Hi' & Hw & Ht & Hce & Hs & Hwh).
    pose proof (q_pending_future _ _ (ti_inv _ _ (ci_togo _ _ _ Hcpu)) Hio Hsi) as Hfut.
    pose proof (ci_now _ _ _ Hcpu) as Hn0. change (cs_q (vs_cpu s)) with (vs_q s) in *.
    cbn [rbind]. rewrite Hwh, (w_now _ _ _ _ Hw). change (cs_q (vs_cpu s)) with (vs_q s) in *.
    exists c'. split; [|split_and!; try done].
    + unfold task_left. destruct (vp_is_interruptable (vd_p (vs_dev s))); cbn [negb]; [|done].
      by rewrite u64_small by (unfold in_range; change (mg_q (cs_st (vs_cpu s))) with (vs_q s) in Hfut; lia).
    + eapply w_step_mono; [|done]. set_solver.
    + unfold task_left. change (mg_q (cs_st (vs_cpu s))) with (vs_q s) in Hfut. pose proof (vc_self _ _ _ Hc).
      destruct (negb _); lia.
    + destruct (w_untouched _ _ _ _ (ev_ini s) Hw) as [-> _]; [set_solver|done].
  - change (cs_q (vs_cpu s)) with (vs_q s). rewrite Hsn. cbn [assert_ rbind].
    destruct (ev_deschedule_ok _ _ _ _ Hcpu Hna Hno Hsn) as (c' & -> & Hi' & Hw & Ht & Hce & Hs & Hwh).
    cbn [rbind]. exists c'. split_and!; try done.
    + eapply w_step_mono; [|done]. set_solver.
    + destruct (w_untouched _ _ _ _ (ev_int s) Hw) as [-> _]; [set_solver|done].
  - exists (vs_cpu s). split_and!; try done. apply w_step_refl.
  - exists (vs_cpu s). split; [by destruct s as [? []]|]. split_and!; try done; [apply w_step_refl|apply (vc_remained _ _ _ Hc)].
Qed.
Lemma vd_core_dev busy con s d' :
  vd_core busy con s -> vd_p d' = vd_p (vs_dev s) -> vd_id d' = vd_id (vs_dev s) ->
  (exists b, reg d' = Ok b) -> 0 <= vd_delay_remained d' -> vd_core busy con (mkVdSt (vs_cpu s) d').
Proof.
  intros Hc. intros. eapply vd_core_step; try done; [apply (w_step_refl [])|apply (vc_cpu _ _ _ Hc)].
Qed.

(** A power failure never hits an assertion: the pending completion is
    cancelled, and the device is unready, with what is left of its task. *)
Lemma vdev_poweroff_ok busy con s msg b :
  vd_core busy con s -> vd_sync s b ->
  (q_scheduled (vs_q s) (ev_int s) = true -> q_when (vs_q s) (ev_int s) < 2 ^ 64) ->
  msg_type msg = SimpleEnergySM.POWER_OFF ->
  exists s', vdev_handleMsg msg s = Ok (1, s') /\ vd_core busy con s' /\ vd_sync s' (off_byte b) /\
  w_step [ev_int s; ev_ini s] (vs_cpu s) (vs_cpu s') [] /\ tick_at (vs_cpu s') = tick_at (vs_cpu s) /\
  cs_cpu (vs_cpu s') = cs_cpu (vs_cpu s) /\ vd_p (vs_dev s') = vd_p (vs_dev s) /\
  vd_need_recover (vs_dev s') = vd_need_recover (vs_dev s) || has b VDEV_BUSY || has b VDEV_READY /\
  vd_delay_remained (vs_dev s') = left_after_fail s b.
Proof.
  intros Hc Hsy Hb Hm. unfold vdev_handleMsg. rewrite Hm. cbn [Z.eqb Pos.eqb SimpleEnergySM.POWER_OFF].
  rewrite (sy_reg _ _ Hsy). cbn [rbind]. set (s0 := mkVdSt _ _).
  assert (vd_core busy con s0) as Hc0 by (apply vd_core_dev; try done; [by exists b; apply Hsy|apply Hc]).
  assert (vd_sync s0 b) as Hsy0 by (by destruct Hsy).
  destruct (vdev_fail_ok _ _ _ _ Hc0 Hsy0 Hb) as (c' & -> & Hi & Hw & Ht & Hce & Hle & H1 & H2).
  cbn [rbind vs_dev vs_cpu].
  set (d1 := set_recovery _ _ _). fold (off_byte b).
  destruct (set_reg_ok d1 b (off_byte b) (sy_reg _ _ Hsy)) as (m & -> & Hreg). cbn [rbind].
  eexists. split; [done|]. split; [|split; [|split_and!; try done]].
  - eapply vd_core_step; try done. by eexists.
  - split; unfold vs_q; cbn [vs_cpu vs_dev]; [done|..]; unfold off_byte; flags; done.
Qed.

(** ** Talking to the processor *)

(** Making the processor wait for a device that starts. *)
Lemma wait_for_device busy c id t :
  cpu_inv busy true c -> (Z.to_nat id < length (cpu_status_vdev (cs_cpu c)))%nat -> 0 <= t -> tick_at c + t < 2 ^ 53 ->
  exists c1 c2, virtualDeviceRecover c t = Ok c1 /\ dev_start c1 id = Ok c2 /\ cpu_inv busy true c2 /\
  w_step (shared c) c c2 [] /\ tick_at c2 = tick_at c + t.
Proof.
  intros Hi Hid Ht Hb. destruct (recover_ok busy c t Hi Ht Hb) as (c1 & -> & Hi1 & Hst & _ & Ht1).
  apply cpu_w_step in Hst. destruct (dev_mark_ok _ _ _ id true Hi1) as (c2 & Hc2 & Hi2 & Hw2 & Ht2 & _).
  { by rewrite (w_devs _ _ _ _ Hst). }
  exists c1, c2. split_and!; try done; [|congruence].
  eapply w_step_trans0; [done|]. eapply w_step_mono; [|done]. set_solver.
Qed.

(** Interrupting the processor when a device is done. *)
Lemma signal_done busy c id t :
  cpu_inv busy true c -> (Z.to_nat id < length (cpu_status_vdev (cs_cpu c)))%nat -> 0 <= t ->
  0 < cpu_clockPeriod (cs_cpu c) -> tick_at c + t + cpu_clockPeriod (cs_cpu c) < 2 ^ 64 ->
  exists c1 c2, virtualDeviceInterrupt c t = Ok c1 /\ dev_end c1 id = Ok c2 /\ cpu_inv busy true c2 /\
  w_step (shared c) c c2 [] /\ tick_at c2 = tick_at c + round_to_clock (cpu_clockPeriod (cs_cpu c)) t.
Proof.
  intros Hi Hid Ht HP Hb. destruct (interrupt_ok busy c t Hi HP Ht Hb) as (c1 & -> & Hi1 & Hst & _ & Ht1).
  apply cpu_w_step in Hst. destruct (dev_mark_ok _ _ _ id false Hi1) as (c2 & Hc2 & Hi2 & Hw2 & Ht2 & _).
  { by rewrite (w_devs _ _ _ _ Hst). }
  exists c1, c2. split_and!; try done; [|congruence].
  eapply w_step_trans0; [done|]. eapply w_step_mono; [|done]. set_solver.
Qed.

(** ** Power returns *)

Lemma vdev_poweron_ok busy s msg b :
  vd_core busy true s -> vd_sync s b -> has b VDEV_BUSY = false -> has b VDEV_READY = false ->
  vd_need_recover (vs_dev s) = true -> tick_at (vs_cpu s) + vp_delay_set (vd_p (vs_dev s)) < 2 ^ 53 ->
  msg_type msg = SimpleEnergySM.POWER_ON ->
  exists s', vdev_handleMsg msg s = Ok (1, s') /\ vd_core busy true s' /\ vd_sync s' (on_bits b VDEV_BUSY) /\
  w_step (shared (vs_cpu s) ++ [ev_ini s]) (vs_cpu s) (vs_cpu s') [] /\
  tick_at (vs_cpu s') = tick_at (vs_cpu s) + vp_delay_set (vd_p (vs_dev s)) /\
  q_when (vs_q s') (ev_ini s) = q_now (vs_q s) + vp_delay_set (vd_p (vs_dev s)) /\
  vd_p (vs_dev s') = vd_p (vs_dev s) /\ vd_need_recover (vs_dev s') = true /\
  vd_delay_remained (vs_dev s') = vd_delay_remained (vs_dev s).
Proof.
  intros Hc [Hr Hsi Hsn] HB HR Hnr Hroom Hm. pose proof (vc_cpu _ _ _ Hc) as Hcpu. pose proof (vc_set _ _ _ Hc) as Hset.
  destruct (tick_future _ _ Hcpu) as [Hn0 Hfut]. destruct (vd_distinct _ _ _ Hc) as [Hne _].
  destruct (init_event _ _ _ Hc) as [Hna Hno]. unfold vdev_handleMsg. rewrite Hm.
  cbn [Z.eqb Pos.eqb SimpleEnergySM.POWER_OFF SimpleEnergySM.POWER_ON]. rewrite Hr. cbn [rbind]. rewrite Hnr.
  change (cs_q (vs_cpu s)) with (vs_q s) in *.
  rewrite u64_small by (unfold in_range; lia). rewrite HB in Hsn, Hsi. cbn [andb] in Hsn, Hsi.
  assert (q_now (vs_q s) <= q_now (vs_q s) + vp_delay_set (vd_p (vs_dev s))) as Hle by lia.
  destruct (ev_schedule_ok _ _ _ _ _ Hcpu Hna Hno Hsn Hle) as (c1 & -> & Hi1 & Hw1 & Ht1 & Hce1 & Hs1 & Hwh1).
  cbn [rbind]. set (d1 := set_vstate _ _).
  destruct (set_reg_ok d1 b (on_bits b VDEV_BUSY) Hr) as (m & -> & Hreg). cbn [rbind].
  destruct (wait_for_device busy c1 (vd_id (vs_dev s)) (vp_delay_set (vd_p (vs_dev s))) Hi1)
    as (c2 & c3 & Hc2 & Hc3 & Hi3 & Hw3 & Ht3); [rewrite Hce1; apply (vc_id _ _ _ Hc)|done|by rewrite Ht1|].
  cbn [vd_p vd_id set_pmem d1 set_vstate]. rewrite Hc2. cbn [rbind]. rewrite Hc3. cbn [rbind].
  rewrite (w_shared _ _ _ _ Hw1) in Hw3. destruct (w_untouched _ _ _ _ (ev_ini s) Hw3 Hna) as [Hs3 Hwh3].
  assert (w_step (shared (vs_cpu s) ++ [ev_ini s]) (vs_cpu s) c3 []) as Hw.
  { eapply w_step_trans0; (eapply w_step_mono; [|done]; set_solver). }
  destruct (w_untouched _ _ _ _ (ev_int s) Hw) as [Hsi3 _]; [pose proof (proj1 (int_event _ _ _ Hc)); set_solver|].
  eexists. split; [done|]. split; [|split; [|split_and!; try done]].
  - eapply vd_core_step; try done; [by eexists|apply (vc_remained _ _ _ Hc)].
  - split; unfold vs_q; cbn [vs_cpu vs_dev]; [done|..]; flags; rewrite HR; cbn [negb].
    + change (vp_event_interrupt (vd_p (set_pmem d1 m))) with (ev_int s). by rewrite Hsi3.
    + change (vp_event_init (vd_p (set_pmem d1 m))) with (ev_ini s). by rewrite Hs3.
  - cbn [vs_cpu]. by rewrite Ht3, Ht1.
  - unfold vs_q. cbn [vs_cpu]. by rewrite Hwh3.
Qed.

(** A device that has never been used only stays as it is. *)
Lemma vdev_poweron_fresh busy con s msg b :
  vd_core busy con s -> vd_sync s b -> has b VDEV_BUSY = false -> vd_need_recover (vs_dev s) = false ->
  msg_type msg = SimpleEnergySM.POWER_ON ->
  exists s', vdev_handleMsg msg s = Ok (1, s') /\ vd_core busy con s' /\ vd_sync s' (off_bits b VDEV_BUSY) /\
  vs_cpu s' = vs_cpu s /\ vd_p (vs_dev s') = vd_p (vs_dev s) /\ vd_need_recover (vs_dev s') = false.
Proof.
  intros Hc [Hr Hsi Hsn] HB Hnr Hm. unfold vdev_handleMsg. rewrite Hm.
  cbn [Z.eqb Pos.eqb SimpleEnergySM.POWER_OFF SimpleEnergySM.POWER_ON]. rewrite Hr. cbn [rbind]. rewrite Hnr.
  destruct (set_reg_ok (vs_dev s) b (off_bits b VDEV_BUSY) Hr) as (m & -> & Hreg). cbn [rbind].
  eexists. split; [done|]. split; [|split; [|split_and!; try done]].
  - apply vd_core_dev; try done; [by eexists|apply (vc_remained _ _ _ Hc)].
  - rewrite HB in *. split; unfold vs_q; cbn [vs_cpu vs_dev]; [done|..]; flags; done.
Qed.

(** ** Completion *)

(** The byte after an initialisation completes. *)
Definition ready_byte (b : Z) : Z :=
  off_bits (on_bits (off_bits (on_bits b VDEV_IDLE) VDEV_BUSY) VDEV_READY) VDEV_CHAOS.

Lemma vdev_restart_ok busy s b :
  vd_core busy true s -> reg (vs_dev s) = Ok b -> has b VDEV_READY = true ->
  q_scheduled (vs_q s) (ev_int s) = false -> q_scheduled (vs_q s) (ev_ini s) = false ->
  tick_at (vs_cpu s) + vd_delay_remained (vs_dev s) < 2 ^ 53 ->
  exists s', vdev_restart s b = Ok s' /\ vd_core busy true s' /\ vd_sync s' (on_bits b VDEV_BUSY) /\
  w_step (shared (vs_cpu s) ++ [ev_int s]) (vs_cpu s) (vs_cpu s') [] /\
  tick_at (vs_cpu s') = tick_at (vs_cpu s) + vd_delay_remained (vs_dev s) /\
  q_when (vs_q s') (ev_int s) = q_now (vs_q s) + vd_delay_remained (vs_dev s) /\
  vd_p (vs_dev s') = vd_p (vs_dev s) /\ vd_need_recover (vs_dev s') = vd_need_recover (vs_dev s) /\
  vd_delay_remained (vs_dev s') = vd_delay_remained (vs_dev s).
Proof.
  intros Hc Hr HR Hsi Hsn Hroom. pose proof (vc_cpu _ _ _ Hc) as Hcpu. pose proof (vc_remained _ _ _ Hc) as Hrem.
  destruct (tick_future _ _ Hcpu) as [Hn0 Hfut]. destruct (int_event _ _ _ Hc) as [Hia Hio], (init_event _ _ _ Hc) as [Hna _].
  destruct (vd_distinct _ _ _ Hc) as [Hne _]. unfold vdev_restart. change (cs_q (vs_cpu s)) with (vs_q s) in *.
  rewrite u64_small by (unfold in_range; lia).
  assert (q_now (vs_q s) <= q_now (vs_q s) + vd_delay_remained (vs_dev s)) as Hle by lia.
  destruct (ev_schedule_ok _ _ _ _ _ Hcpu Hia Hio Hsi Hle) as (c1 & -> & Hi1 & Hw1 & Ht1 & Hce1 & Hs1 & Hwh1). cbn [rbind].
  destruct (wait_for_device busy c1 (vd_id (vs_dev s)) (vd_delay_remained (vs_dev s)) Hi1)
    as (c2 & c3 & -> & Hc3 & Hi3 & Hw3 & Ht3); [rewrite Hce1; apply (vc_id _ _ _ Hc)|done|by rewrite Ht1|]. cbn [rbind].
  destruct (set_reg_ok (vs_dev s) _ (on_bits b VDEV_BUSY) Hr) as (m & -> & Hreg). cbn [rbind vd_id set_vstate set_pmem].
  rewrite Hc3. cbn [rbind]. rewrite (w_shared _ _ _ _ Hw1) in Hw3. destruct (w_untouched _ _ _ _ _ Hw3 Hia) as [Hs3 Hwh3].
  assert (w_step (shared (vs_cpu s) ++ [ev_int s]) (vs_cpu s) c3 []) as Hw.
  { eapply w_step_trans0; (eapply w_step_mono; [|done]; set_solver). }
  destruct (w_untouched _ _ _ _ (ev_ini s) Hw) as [Hsn3 _]; [set_solver|].
  eexists. split; [done|]. split; [|split; [|split_and!; try done]].
  - eapply vd_core_step; try done; by eexists.
  - split; unfold vs_q; cbn [vs_cpu vs_dev]; [done|..]; flags; rewrite HR; cbn [negb vd_p set_vstate set_pmem].
    + by rewrite Hs3.
    + by rewrite Hsn3.
  - cbn [vs_cpu]. by rewrite Ht3, Ht1.
  - unfold vs_q. cbn [vs_cpu]. by rewrite Hwh3.
Qed.

(** The completion of an initialisation: the device is ready; a task that a
    power failure interrupted is started again with the time that is left. *)
Lemma trigger_init_ok busy s b :
  vd_core busy true s -> reg (vs_dev s) = Ok b -> has b VDEV_BUSY = true -> has b VDEV_CHAOS = true ->
  q_scheduled (vs_q s) (ev_int s) = false -> q_scheduled (vs_q s) (ev_ini s) = false ->
  0 < cpu_clockPeriod (cs_cpu (vs_cpu s)) ->
  tick_at (vs_cpu s) + vd_delay_remained (vs_dev s) + cpu_clockPeriod (cs_cpu (vs_cpu s)) < 2 ^ 53 ->
  let restart := 0 <? vd_delay_remained (vs_dev s) in
  exists s', triggerInterrupt s = Ok s' /\ vd_core busy true s' /\
  vd_sync s' (if restart then on_bits (ready_byte b) VDEV_BUSY else ready_byte b) /\
  w_step (shared (vs_cpu s) ++ [ev_int s]) (vs_cpu s) (vs_cpu s') [] /\
  tick_at (vs_cpu s') = tick_at (vs_cpu s) + vd_delay_remained (vs_dev s) /\
  (restart = true -> q_when (vs_q s') (ev_int s) = q_now (vs_q s) + vd_delay_remained (vs_dev s)) /\
  vd_p (vs_dev s') = vd_p (vs_dev s) /\ vd_need_recover (vs_dev s') = vd_need_recover (vs_dev s) /\
  vd_delay_remained (vs_dev s') = vd_delay_remained (vs_dev s).
Proof.
  intros Hc Hr HB HC Hsi Hsn HP Hroom. pose proof (vc_cpu _ _ _ Hc) as Hcpu. pose proof (vc_remained _ _ _ Hc) as Hrem.
  destruct (int_event _ _ _ Hc) as [Hia _], (init_event _ _ _ Hc) as [Hna _].
  unfold triggerInterrupt. rewrite Hr. cbn [rbind]. rewrite HB. cbn [assert_ rbind].
  flags. rewrite HC. fold (ready_byte b). set (d1 := set_vstate _ _).
  destruct (set_reg_ok d1 b (ready_byte b) Hr) as (m & -> & Hreg). cbn [rbind].
  destruct (signal_done busy (vs_cpu s) (vd_id (vs_dev s)) 0 Hcpu (vc_id _ _ _ Hc)) as (c1 & c2 & -> & Hc2 & Hi2 & Hw2 & Ht2);
    [lia|done|lia|]. cbn [rbind].
  change (round_to_clock (cpu_clockPeriod (cs_cpu (vs_cpu s))) 0) with 0 in Ht2. rewrite Z.add_0_r in Ht2.
  cbn [vd_id set_pmem d1 set_vstate vd_delay_remained]. rewrite Hc2. cbn [rbind].
  destruct (w_untouched _ _ _ _ _ Hw2 Hia) as [Hsi2 _]. destruct (w_untouched _ _ _ _ _ Hw2 Hna) as [Hsn2 _].
  set (s2 := mkVdSt c2 (set_pmem d1 m)). assert (vd_core busy true s2) as Hc2'.
  { eapply vd_core_step; try done; by eexists. }
  destruct (Z.ltb_spec 0 (vd_delay_remained (vs_dev s))) as [Hlt|Hge]; cbn zeta.
  - destruct (vdev_restart_ok busy s2 (ready_byte b) Hc2' Hreg) as (s' & Hs' & Hcs & Hsy & Hw & Ht & Hwh & Hp & Hnr & Hd);
      [unfold ready_byte; by flags|exact (eq_trans Hsi2 Hsi)|exact (eq_trans Hsn2 Hsn)|cbn; lia|].
    exists s'. split; [exact Hs'|]. split_and!; try done.
    + cbn [vs_cpu s2] in Hw. rewrite (w_shared _ _ _ _ Hw2) in Hw.
      eapply w_step_trans0; [eapply w_step_mono; [|exact Hw2]; set_solver|exact Hw].
    + rewrite Ht. cbn. lia.
    + intros _. etrans; [exact Hwh|]. unfold vs_q. cbn. by rewrite (w_now _ _ _ _ Hw2).
  - exists s2. split; [done|]. split; [done|]. split; [|split_and!; try done].
    + split; [done|..]; unfold ready_byte; flags; unfold vs_q; cbn [s2 vs_cpu vs_dev vd_p set_pmem d1 set_vstate];
        [by rewrite Hsi2|by rewrite Hsn2].
    + eapply w_step_mono; [|exact Hw2]. set_solver.
    + cbn. lia.
Qed.

Definition done_byte (b : Z) : Z := off_bits (on_bits b VDEV_IDLE) VDEV_BUSY.

(** The completion of a task. *)
Lemma trigger_task_ok busy s b :
  vd_core busy true s -> reg (vs_dev s) = Ok b -> has b VDEV_BUSY = true -> has b VDEV_CHAOS = false ->
  q_scheduled (vs_q s) (ev_int s) = false -> q_scheduled (vs_q s) (ev_ini s) = false ->
  0 < cpu_clockPeriod (cs_cpu (vs_cpu s)) ->
  tick_at (vs_cpu s) + vp_delay_cpu_interrupt (vd_p (vs_dev s)) + cpu_clockPeriod (cs_cpu (vs_cpu s)) < 2 ^ 64 ->
  exists s', triggerInterrupt s = Ok s' /\ vd_core busy true s' /\ vd_sync s' (done_byte b) /\
  w_step (shared (vs_cpu s)) (vs_cpu s) (vs_cpu s') [] /\ vd_p (vs_dev s') = vd_p (vs_dev s) /\
  vd_need_recover (vs_dev s') = vd_need_recover (vs_dev s) /\ vd_delay_remained (vs_dev s') = 0 /\
  tick_at (vs_cpu s') = tick_at (vs_cpu s) +
    round_to_clock (cpu_clockPeriod (cs_cpu (vs_cpu s))) (vp_delay_cpu_interrupt (vd_p (vs_dev s))).
Proof.
  intros Hc Hr HB HC Hsi Hsn HP Hroom. pose proof (vc_cpu _ _ _ Hc) as Hcpu.
  destruct (int_event _ _ _ Hc) as [Hia _], (init_event _ _ _ Hc) as [Hna _].
  unfold triggerInterrupt. rewrite Hr. cbn [rbind]. rewrite HB. cbn [assert_ rbind].
  fold (done_byte b). assert (has (done_byte b) VDEV_CHAOS = false) as -> by (unfold done_byte; by flags).
  set (d1 := set_vstate _ _).
  destruct (set_reg_ok d1 b (done_byte b) Hr) as (m & -> & Hreg). cbn [rbind].
  cbn [vd_id vd_p set_pmem d1 set_vstate set_recovery].
  destruct (signal_done busy (vs_cpu s) (vd_id (vs_dev s)) _ Hcpu (vc_id _ _ _ Hc) (vc_irq _ _ _ Hc) HP Hroom)
    as (c1 & c2 & -> & Hc2 & Hi2 & Hw2 & Ht2). cbn [rbind]. rewrite Hc2. cbn [rbind].
  destruct (w_untouched _ _ _ _ _ Hw2 Hia) as [Hsi2 _]. destruct (w_untouched _ _ _ _ _ Hw2 Hna) as [Hsn2 _].
  eexists. split; [done|]. split; [|split; [|split_and!; try done]].
  - eapply vd_core_step; try done; by eexists.
  - split; [done|..]; unfold done_byte; flags; [exact (eq_trans Hsi2 Hsi)|exact (eq_trans Hsn2 Hsn)].
Qed.

(** ** Commands *)

Definition busy_byte (b : Z) : Z := off_bits (on_bits b VDEV_BUSY) VDEV_IDLE.

(** An idle device that is not ready starts to initialise, one that is ready
    and not chaotic starts its task. *)
Lemma command_init_ok busy con s b cmd :
  vd_core busy con s -> vd_sync s b -> has cmd VDEV_INIT = true -> has b VDEV_BUSY = false ->
  q_now (vs_q s) + vp_delay_set (vd_p (vs_dev s)) < 2 ^ 64 ->
  exists s', command s cmd = Ok s' /\ vd_core busy con s' /\ reg (vs_dev s') = Ok (busy_byte b) /\
  q_scheduled (vs_q s') (ev_int s) = false /\ q_scheduled (vs_q s') (ev_ini s) = true /\
  w_step [ev_ini s] (vs_cpu s) (vs_cpu s') [] /\ tick_at (vs_cpu s') = tick_at (vs_cpu s) /\
  vd_p (vs_dev s') = vd_p (vs_dev s) /\ vd_delay_remained (vs_dev s') = vd_delay_remained (vs_dev s) /\
  q_when (vs_q s') (ev_ini s) = q_now (vs_q s) + vp_delay_set (vd_p (vs_dev s)).
Proof.
  intros Hc [Hr Hsi Hsn] Hcmd HB Hov. pose proof (vc_cpu _ _ _ Hc) as Hcpu. pose proof (vc_set _ _ _ Hc).
  pose proof (ci_now _ _ _ Hcpu) as Hn0. destruct (init_event _ _ _ Hc) as [Hna Hno]. destruct (vd_distinct _ _ _ Hc) as [Hne _].
  unfold command. rewrite Hr. cbn [rbind]. rewrite Hcmd, HB. rewrite HB in Hsi, Hsn. cbn [andb] in Hsi, Hsn.
  set (d1 := set_vstate _ _). fold (busy_byte b).
  destruct (set_reg_ok d1 b (busy_byte b) Hr) as (m & -> & Hreg). cbn [rbind vd_p set_pmem d1 set_vstate].
  change (cs_q (vs_cpu s)) with (vs_q s) in *. rewrite u64_small by (unfold in_range; lia).
  assert (q_now (vs_q s) <= q_now (vs_q s) + vp_delay_set (vd_p (vs_dev s))) as Hle by lia.
  destruct (ev_schedule_ok _ _ _ _ _ Hcpu Hna Hno Hsn Hle) as (c1 & -> & Hi1 & Hw1 & Ht1 & Hce1 & Hs1 & Hwh1).
  cbn [rbind]. destruct (w_untouched _ _ _ _ (ev_int s) Hw1) as [Hsi1 _]; [set_solver|].
  eexists. split; [done|]. split; [|split_and!; try done].
  - eapply vd_core_step; try done; [by eexists|apply (vc_remained _ _ _ Hc)].
  - exact (eq_trans Hsi1 Hsi).
Qed.

Lemma command_activate_ok busy con s b cmd :
  vd_core busy con s -> vd_sync s b -> has cmd VDEV_INIT = false -> has cmd VDEV_ACTIVATE = true ->
  has b VDEV_CHAOS = false -> has b VDEV_READY = true -> has b VDEV_BUSY = false ->
  q_now (vs_q s) + vp_delay_self (vd_p (vs_dev s)) < 2 ^ 64 ->
  exists s', command s cmd = Ok s' /\ vd_core busy con s' /\ vd_sync s' (busy_byte b) /\
  w_step [ev_int s] (vs_cpu s) (vs_cpu s') [] /\ tick_at (vs_cpu s') = tick_at (vs_cpu s) /\
  vd_p (vs_dev s') = vd_p (vs_dev s) /\ vd_delay_remained (vs_dev s') = vd_delay_remained (vs_dev s) /\
  q_when (vs_q s') (ev_int s) = q_now (vs_q s) + vp_delay_self (vd_p (vs_dev s)).
Proof.
  intros Hc [Hr Hsi Hsn] Hcmd Hact HC HR HB Hov. pose proof (vc_cpu _ _ _ Hc) as Hcpu. pose proof (vc_self _ _ _ Hc).
  pose proof (ci_now _ _ _ Hcpu) as Hn0. destruct (int_event _ _ _ Hc) as [Hna Hno]. destruct (vd_distinct _ _ _ Hc) as [Hne _].
  unfold command. rewrite Hr. cbn [rbind]. rewrite Hcmd, Hact, HC, HB. rewrite HB in Hsi, Hsn. cbn [andb] in Hsi, Hsn.
  set (d1 := if vp_need_log _ then _ else _).
  assert (reg d1 = Ok b /\ vd_p d1 = vd_p (vs_dev s) /\ vd_id d1 = vd_id (vs_dev s) /\
          vd_delay_remained d1 = vd_delay_remained (vs_dev s)) as (Hr1 & Hp1 & Hid1 & Hd1).
  { unfold d1. by destruct (vp_need_log _). }
  fold (busy_byte b). destruct (set_reg_ok d1 b (busy_byte b) Hr1) as (m & -> & Hreg). cbn [rbind vd_p vd_id set_pmem].
  rewrite Hp1, Hid1. change (cs_q (vs_cpu s)) with (vs_q s) in *. rewrite u64_small by (unfold in_range; lia).
  assert (q_now (vs_q s) <= q_now (vs_q s) + vp_delay_self (vd_p (vs_dev s))) as Hle by lia.
  destruct (ev_schedule_ok _ _ _ _ _ Hcpu Hna Hno Hsi Hle) as (c1 & -> & Hi1 & Hw1 & Ht1 & Hce1 & Hs1 & Hwh1). cbn [rbind].
  destruct (dev_mark_ok _ _ _ (vd_id (vs_dev s)) true Hi1) as (c2 & Hc2 & Hi2 & Hw2 & Ht2 & Hq2 & _);
    [rewrite Hce1; apply (vc_id _ _ _ Hc)|]. cbn in Hc2. rewrite Hc2. cbn [rbind].
  destruct (w_untouched _ _ _ _ (ev_ini s) Hw1) as [Hsn1 _]; [set_solver|].
  assert (w_step [ev_int s] (vs_cpu s) c2 []) as Hw.
  { eapply w_step_trans0; [done|]. eapply w_step_mono; [|done]. set_solver. }
  eexists. split; [done|]. split; [|split; [|split_and!; try done]].
  - eapply vd_core_step; try done; [by eexists|]. cbn. rewrite Hd1. apply (vc_remained _ _ _ Hc).
  - split; unfold vs_q; cbn [vs_cpu vs_dev vd_p set_pmem]; [done|..]; unfold busy_byte; flags; rewrite HR, Hp1, Hq2; cbn [negb];
      [done|exact (eq_trans Hsn1 Hsn)].
  - exact (eq_trans Ht2 Ht1).
  - unfold vs_q. cbn [vs_cpu]. by rewrite Hq2.
Qed.

(** ** Ticks *)

Lemma vdev_tick_ok busy con s :
  vd_core busy con s -> q_scheduled (vs_q s) (vp_tickEvent (vd_p (vs_dev s))) = false ->
  is_Some (vp_energy (vd_p (vs_dev s)) !! state_index (vd_state (vs_dev s))) ->
  0 <= vp_period (vd_p (vs_dev s)) -> q_now (vs_q s) + vp_period (vd_p (vs_dev s)) < 2 ^ 64 ->
  exists s' extra, vdev_tick s = Ok s' /\ vd_core busy con s' /\ vs_dev s' = vs_dev s /\
  w_step [event_msg (mg (cs_st (vs_cpu s))); vp_tickEvent (vd_p (vs_dev s))] (vs_cpu s) (vs_cpu s') extra /\
  q_scheduled (vs_q s') (vp_tickEvent (vd_p (vs_dev s))) = true /\
  q_when (vs_q s') (vp_tickEvent (vd_p (vs_dev s))) = q_now (vs_q s) + vp_period (vd_p (vs_dev s)).
Proof.
  intros Hc Hs [e He] HP Hov. pose proof (vc_cpu _ _ _ Hc) as Hcpu. pose proof (ci_now _ _ _ Hcpu) as Hn0.
  assert (vp_tickEvent (vd_p (vs_dev s)) ∈ vd_events (vs_dev s)) as Hin by (unfold vd_events; set_solver).
  pose proof (vc_apart _ _ _ Hc _ Hin) as Hna. unfold vdev_tick. rewrite He. cbn [deref rbind].
  match goal with |- context [obj_consumeEnergy _ _ ?m ?sn ?v _] =>
    destruct (port_consume_ok busy con (vs_cpu s) m sn v Hcpu) as (r & st & l & -> & Hi & Hst & F) end.
  cbn [rbind]. set (c1 := mkCpuSt st (cs_cpu (vs_cpu s))) in *.
  assert (w_step [event_msg (mg (cs_st (vs_cpu s)))] (vs_cpu s) c1 l) as Hw1.
  { destruct Hst. split; try done. by apply q_frame_frames. }
  destruct (w_untouched _ _ _ _ (vp_tickEvent (vd_p (vs_dev s))) Hw1) as [Hs1 _]; [set_solver|].
  pose proof (w_now _ _ _ _ Hw1) as Hn1. change (cs_q (vs_cpu s)) with (vs_q s) in *. rewrite Hn1, u64_small by (unfold in_range; lia).
  destruct (ev_schedule_ok busy con c1 (vp_tickEvent (vd_p (vs_dev s))) (q_now (vs_q s) + vp_period (vd_p (vs_dev s))) Hi)
    as (c2 & -> & Hi2 & Hw2 & _ & _ & Hs2 & Hwh2).
  { by rewrite (w_shared _ _ _ _ Hw1). } { by apply (frs_own _ _ _ (w_frame _ _ _ _ Hw1)), (vc_own _ _ _ Hc). }
  { by rewrite Hs1. } { lia. }
  cbn [rbind]. eexists _, l. split; [done|].
  assert (w_step [event_msg (mg (cs_st (vs_cpu s))); vp_tickEvent (vd_p (vs_dev s))] (vs_cpu s) c2 l) as Hw.
  { eapply w_step_trans0; (eapply w_step_mono; [|done]; set_solver). }
  split_and!; try done. eapply vd_core_step; try done; [apply (vc_reg _ _ _ Hc)|apply (vc_remained _ _ _ Hc)].
Qed.

(** The rest of the commands have no effect. *)
Lemma command_ignored s b cmd :
  reg (vs_dev s) = Ok b ->
  has b VDEV_BUSY || (negb (has cmd VDEV_INIT) && (negb (has cmd VDEV_ACTIVATE) || has b VDEV_CHAOS)) = true ->
  command (Q := Q) s cmd = Ok s.
Proof.
  intros Hr. unfold command. rewrite Hr. cbn [rbind].
  destruct (has cmd VDEV_INIT), (has cmd VDEV_ACTIVATE), (has b VDEV_BUSY), (has b VDEV_CHAOS); done.
Qed.
End VdevCorrect.

(** ** A device to run the operations on *)

Definition vdev_heap : heap :=
  {[ 1%positive := idle Energy_Pri; 2%positive := idle Energy_Pri; 3%positive := idle CPU_Tick_Pri;
     4%positive := idle VirtualDevice_Tick_Pri; 5%positive := idle Virtual_Interrupt; 6%positive := idle Virtual_Interrupt ]}.
Definition demo_vparams : VdParams :=
  mkVdParams 4 5 6 10 (AddrRange_plain 0x1000 0x1003) 50 200 0 12 true false [dzero; dzero; of_Z 1; of_Z 2] true.
(** A device that is ready and has nothing to do, next to a processor whose
    next tick is at 25. *)
Definition vdev_cpu0 : CpuSt EventQueue :=
  mkCpuSt (mkSt (demo_mgmt demo_on (of_Z 50)) false (mkEventQueue vdev_heap None 0 [] 0 false 0))
    (snd (registerVDev demo_cpu 0)).
Definition vdev_cpu1 : CpuSt EventQueue := match cpu_schedule vdev_cpu0 25 with Ok c => c | Err _ => vdev_cpu0 end.
Definition demo_dev (b : Z) : VDev := set_pmem (new_VDev demo_vparams 0) [b; 0; 0; 0].
Definition vdev_on (b : Z) : VdSt EventQueue := mkVdSt vdev_cpu1 (demo_dev b).

Lemma vdev_cpu0_inv : cpu_inv false false vdev_cpu0.
Proof.
  assert (em_inv (cs_q vdev_cpu0)) as Hq.
  { split; [done|]. split; [done|]. exists []. apply wf_empty; [done|done|].
    apply (bool_decide_unpack _). vm_compute. exact I. }
  split; try done; [|eexists; by split|by eexists].
  split; try done; eexists; by split.
Qed.

Lemma vdev_cpu1_inv : cpu_inv false true vdev_cpu1 /\ cpu_schedule vdev_cpu0 25 = Ok vdev_cpu1.
Proof.
  destruct (cpu_schedule_ok false vdev_cpu0 25 vdev_cpu0_inv) as (s' & Hs & Hi & _); [by vm_compute|].
  unfold vdev_cpu1. rewrite Hs. done.
Qed.

Lemma vdev_on_core b : vd_core false true (vdev_on b).
Proof.
  split; try (apply vdev_cpu1_inv || (vm_compute; discriminate) || (vm_compute; reflexivity)).
  - intros p Hp. assert (em_own (cs_q vdev_cpu0) p) as Ho.
    { unfold vd_events in Hp. rewrite !elem_of_cons, elem_of_nil in Hp.
      destruct Hp as [->|[->|[->|[]]]]; eexists; (split; [vm_compute; reflexivity|split; done]). }
    destruct (cpu_schedule_ok false vdev_cpu0 25 vdev_cpu0_inv) as (s' & Hs & _ & Hst & _); [by vm_compute|].
    rewrite (proj2 vdev_cpu1_inv) in Hs. injection Hs as <-.
    exact (frs_own _ _ _ (cst_frame _ _ _ Hst) p Ho).
  - apply (bool_decide_unpack _). vm_compute. exact I.
  - intros p Hp. apply (bool_decide_unpack _). unfold vd_events in Hp. rewrite !elem_of_cons, elem_of_nil in Hp.
    destruct Hp as [->|[->|[->|[]]]]; vm_compute; exact I.
  - by exists b.
Qed.

Lemma vdev_on_sync b : has b VDEV_BUSY = false -> vd_sync (vdev_on b) b.
Proof. intros Hb. split; [done|..]; rewrite Hb; vm_compute; reflexivity. Qed.

(** The same device once it works on a task, until tick 200. *)
Definition vdev_working : VdSt EventQueue :=
  match command (vdev_on 4) 0x40 with Ok s => s | Err _ => vdev_on 4 end.

Lemma vdev_working_ok : vd_core false true vdev_working /\ vd_sync vdev_working 6.
Proof.
  destruct (command_activate_ok false true (vdev_on 4) 4 0x40 (vdev_on_core 4)) as (s' & Hs & Hc & Hsy & _);
    [by apply vdev_on_sync|vm_compute; reflexivity..|]. unfold vdev_working. rewrite Hs. exact (conj Hc Hsy).
Qed.

(** And after a power failure at tick 0. *)
Definition vdev_failed : VdSt EventQueue :=
  match vdev_handleMsg (sm_msg 1) vdev_working with Ok (_, s) => s | Err _ => vdev_working end.

Lemma vdev_failed_ok : vd_core false true vdev_failed /\ vd_sync vdev_failed 8.
Proof.
  destruct vdev_working_ok as [Hc Hsy].
  destruct (vdev_poweroff_ok _ _ _ (sm_msg 1) _ Hc Hsy) as (s' & Hs & Hc' & Hsy' & _); [vm_compute; reflexivity..|].
  unfold vdev_failed. rewrite Hs. exact (conj Hc' Hsy').
Qed.

(** Then when power is back, and when its re-initialisation is due. *)
Definition vdev_back : VdSt EventQueue :=
  match vdev_handleMsg (sm_msg 2) vdev_failed with Ok (_, s) => s | Err _ => vdev_failed end.
Definition take_init (s : VdSt EventQueue) : VdSt EventQueue :=
  match ev_deschedule (vs_cpu s) (ev_ini s) with Ok c => mkVdSt c (vs_dev s) | Err _ => s end.
Definition vdev_due : VdSt EventQueue := take_init vdev_back.

Lemma vdev_back_ok : vd_core false true vdev_back /\ vd_sync vdev_back 10.
Proof.
  destruct vdev_failed_ok as [Hc Hsy].
  destruct (vdev_poweron_ok _ _ (sm_msg 2) _ Hc Hsy) as (s' & Hs & Hc' & Hsy' & _); [vm_compute; reflexivity..|].
  unfold vdev_back. rewrite Hs. exact (conj Hc' Hsy').
Qed.

(** Taking out the event of an initialisation that is due. *)
Lemma take_init_ok busy con (s : VdSt EventQueue) b :
  vd_core busy con s -> vd_sync s b -> has b VDEV_BUSY = true -> has b VDEV_READY = false ->
  vd_core busy con (take_init s) /\ vs_dev (take_init s) = vs_dev s /\
  q_scheduled (vs_q (take_init s)) (ev_int (take_init s)) = false /\
  q_scheduled (vs_q (take_init s)) (ev_ini (take_init s)) = false.
Proof.
  intros Hc [Hr Hsi Hsn] HB HR. rewrite HB, HR in *. destruct (init_event _ _ _ Hc) as [Hna Hno].
  destruct (vd_distinct _ _ _ Hc) as [Hne _]. unfold take_init.
  destruct (ev_deschedule_ok _ _ _ _ (vc_cpu _ _ _ Hc) Hna Hno Hsn) as (c & -> & Hi & Hw & _ & _ & Hs & _).
  split_and!; try done; [|by destruct (w_untouched _ _ _ _ (ev_int s) Hw) as [E _]; [set_solver|exact (eq_trans E Hsi)]].
  eapply vd_core_step; try done; [apply (vc_reg _ _ _ Hc)|apply (vc_remained _ _ _ Hc)].
Qed.

Lemma vdev_due_ok :
  vd_core false true vdev_due /\ vs_dev vdev_due = vs_dev vdev_back /\
  q_scheduled (vs_q vdev_due) (ev_int vdev_due) = false /\ q_scheduled (vs_q vdev_due) (ev_ini vdev_due) = false.
Proof. destruct vdev_back_ok as [Hc Hsy]. exact (take_init_ok _ _ _ _ Hc Hsy eq_refl eq_refl). Qed.

(** ** Properties *)

(** C2: A task that a power failure interrupts is taken up again.  The failure
    cancels its completion and remembers what is left of it (all of it, if it
    cannot be interrupted); the return of power starts a re-initialisation of
    [delay_set] ticks; when that completes, the task is started again for
    exactly what was left, and the processor waits for it. *)
Theorem task_survives_outage {Q} `{EventSchedLaws Q} b1 b2 b3 con (s0 : VdSt Q) b off :
  vd_core b1 con s0 -> vd_sync s0 b -> has b VDEV_BUSY = true -> has b VDEV_READY = true ->
  q_when (vs_q s0) (ev_int s0) < 2 ^ 64 -> msg_type off = SimpleEnergySM.POWER_OFF ->
  let left := task_left (vs_dev s0) (q_when (vs_q s0) (ev_int s0)) (q_now (vs_q s0)) in
  exists s1, vdev_handleMsg off s0 = Ok (1, s1) /\ vd_core b1 con s1 /\ vd_sync s1 (off_byte b) /\
  forall s2 on, vs_dev s2 = vs_dev s1 -> vd_core b2 true s2 -> vd_sync s2 (off_byte b) ->
  msg_type on = SimpleEnergySM.POWER_ON -> tick_at (vs_cpu s2) + vp_delay_set (vd_p (vs_dev s0)) < 2 ^ 53 ->
  exists s3, vdev_handleMsg on s2 = Ok (1, s3) /\ vd_core b2 true s3 /\
  q_scheduled (vs_q s3) (ev_ini s0) = true /\
  q_when (vs_q s3) (ev_ini s0) = q_now (vs_q s2) + vp_delay_set (vd_p (vs_dev s0)) /\
  forall s4, vs_dev s4 = vs_dev s3 -> vd_core b3 true s4 -> 0 < left ->
  q_scheduled (vs_q s4) (ev_int s4) = false -> q_scheduled (vs_q s4) (ev_ini s4) = false ->
  0 < cpu_clockPeriod (cs_cpu (vs_cpu s4)) ->
  tick_at (vs_cpu s4) + left + cpu_clockPeriod (cs_cpu (vs_cpu s4)) < 2 ^ 53 ->
  exists s5, triggerInterrupt s4 = Ok s5 /\ vd_core b3 true s5 /\
  q_scheduled (vs_q s5) (ev_int s0) = true /\ q_when (vs_q s5) (ev_int s0) = q_now (vs_q s4) + left /\
  tick_at (vs_cpu s5) = tick_at (vs_cpu s4) + left.
Proof.
  intros Hc Hsy HB HR Hw Hm left.
  destruct (vdev_poweroff_ok _ _ _ _ _ Hc Hsy (fun _ => Hw) Hm) as (s1 & Hs1 & Hc1 & Hsy1 & _ & _ & _ & Hp1 & Hn1 & Hd1).
  exists s1. split_and!; try done. unfold left_after_fail in Hd1. rewrite HB, HR in Hd1. cbn [andb] in Hd1. fold left in Hd1.
  rewrite HB, HR, orb_true_r in Hn1. intros s2 on Hdev2 Hc2 Hsy2 Hon Hroom2. rewrite <- Hp1, <- Hdev2 in Hroom2.
  destruct (vdev_poweron_ok _ s2 on _ Hc2 Hsy2) as (s3 & Hs3 & Hc3 & Hsy3 & _ & Ht3 & Hwh3 & Hp3 & Hn3 & Hd3);
    try done; try (unfold off_byte; by flags); [by rewrite Hdev2|].
  rewrite Hdev2, Hp1 in *. exists s3. split_and!; try done.
  { pose proof (sy_init _ _ Hsy3) as Hi. rewrite Hp3 in Hi. rewrite Hi. unfold off_byte. by flags. }
  intros s4 Hdev4 Hc4 Hl Hsi Hsn HP Hroom4.
  destruct (trigger_init_ok _ s4 (on_bits (off_byte b) VDEV_BUSY) Hc4)
    as (s5 & Hs5 & Hc5 & Hsy5 & _ & Ht5 & Hwh5 & Hp5 & _ & _); try done.
  { rewrite Hdev4. apply (sy_reg _ _ Hsy3). } { unfold off_byte. by flags. } { unfold off_byte. by flags. }
  { by rewrite Hdev4, Hd3, Hd1. }
  rewrite Hdev4, Hd3, Hd1, Hp3 in *.
  rewrite (proj2 (Z.ltb_lt 0 left) Hl) in *. exists s5. split_and!; try done; [|by apply Hwh5].
  pose proof (sy_int _ _ Hsy5) as Hi. rewrite Hp5 in Hi. rewrite Hi. unfold ready_byte. by flags.
Qed.

Lemma task_survives_outage_witness :
  exists s5, triggerInterrupt vdev_due = Ok s5 /\ q_when (vs_q s5) 5%positive = 200 /\ tick_at (vs_cpu s5) = 275.
Proof.
  destruct vdev_working_ok as [Hc Hsy], vdev_failed_ok as [Hcf Hsf], vdev_due_ok as (Hcd & Hdev & Hi & Hn).
  destruct (task_survives_outage false false false true vdev_working 6 (sm_msg 1) Hc Hsy) as (s1 & Hs1 & _ & _ & Hon);
    [vm_compute; reflexivity..|].
  assert (vdev_failed = s1) as <- by (unfold vdev_failed; rewrite Hs1; reflexivity).
  destruct (Hon vdev_failed (sm_msg 2) eq_refl Hcf Hsf eq_refl) as (s3 & Hs3 & _ & _ & _ & Hdone);
    [vm_compute; reflexivity|].
  assert (vdev_back = s3) as <- by (unfold vdev_back; rewrite Hs3; reflexivity).
  destruct (Hdone vdev_due Hdev Hcd) as (s5 & Hs5 & _ & _ & Hw & Ht);
    [vm_compute; reflexivity|exact Hi|exact Hn|vm_compute; reflexivity|vm_compute; reflexivity|].
  exists s5. split; [exact Hs5|]. split; [etransitivity; [exact Hw|vm_compute; reflexivity]|].
  rewrite Ht. vm_compute. reflexivity.
Defined.

(** But the memory of the task does not survive a second failure during
    that re-initialisation: the second failure overwrites what was left of the
    task with zero, so no later completion restarts it. *)
Theorem second_outage_loses_task {Q} `{EventSchedLaws Q} b1 b2 con (s : VdSt Q) b on off :
  vd_core b1 true s -> vd_sync s b -> has b VDEV_BUSY = false -> has b VDEV_READY = false ->
  vd_need_recover (vs_dev s) = true -> 0 < vd_delay_remained (vs_dev s) ->
  tick_at (vs_cpu s) + vp_delay_set (vd_p (vs_dev s)) < 2 ^ 53 ->
  msg_type on = SimpleEnergySM.POWER_ON -> msg_type off = SimpleEnergySM.POWER_OFF ->
  exists s1, vdev_handleMsg on s = Ok (1, s1) /\ vd_core b1 true s1 /\
  vd_delay_remained (vs_dev s1) = vd_delay_remained (vs_dev s) /\
  forall s2, vs_dev s2 = vs_dev s1 -> vd_core b2 con s2 -> vd_sync s2 (on_bits b VDEV_BUSY) ->
  q_when (vs_q s2) (ev_int s2) < 2 ^ 64 ->
  exists s3, vdev_handleMsg off s2 = Ok (1, s3) /\ vd_core b2 con s3 /\ vd_delay_remained (vs_dev s3) = 0.
Proof.
  intros Hc Hsy HB HR Hnr Hd Hroom Hon Hoff.
  destruct (vdev_poweron_ok _ _ _ _ Hc Hsy HB HR Hnr Hroom Hon) as (s1 & Hs1 & Hc1 & Hsy1 & _ & _ & _ & _ & _ & Hd1).
  exists s1. split_and!; try done. intros s2 Hdev Hc2 Hsy2 Hw.
  destruct (vdev_poweroff_ok _ _ _ _ _ Hc2 Hsy2 (fun _ => Hw) Hoff) as (s3 & Hs3 & Hc3 & _ & _ & _ & _ & _ & _ & Hd3).
  exists s3. split_and!; try done. rewrite Hd3. unfold left_after_fail. flags. by rewrite HR.
Qed.

Lemma second_outage_loses_task_witness :
  exists s3, vd_delay_remained (vs_dev vdev_failed) = 200 /\
  vdev_handleMsg (sm_msg 1) vdev_back = Ok (1, s3) /\ vd_delay_remained (vs_dev s3) = 0.
Proof.
  destruct vdev_failed_ok as [Hc Hsy], vdev_back_ok as [Hcb Hsb].
  destruct (second_outage_loses_task false false true vdev_failed 8 (sm_msg 2) (sm_msg 1) Hc Hsy)
    as (s1 & Hs1 & _ & _ & Hoff); [vm_compute; reflexivity..|].
  assert (vdev_back = s1) as <- by (unfold vdev_back; rewrite Hs1; reflexivity).
  destruct (Hoff vdev_back eq_refl Hcb Hsb) as (s3 & Hs3 & _ & Hd); [vm_compute; reflexivity|].
  exists s3. split; [vm_compute; reflexivity|]. split; [exact Hs3|exact Hd].
Defined.

(** C40: Initialising a device that is already ready is accepted, and a power
    failure before it completes aborts the simulation: the handler takes the
    device for working on a task and asserts that [event_interrupt] is
    scheduled. *)
Theorem reinit_then_outage_aborts {Q} `{EventSchedLaws Q} busy con (s : VdSt Q) b cmd off :
  vd_core busy con s -> vd_sync s b -> has b VDEV_READY = true -> has b VDEV_BUSY = false ->
  has cmd VDEV_INIT = true -> q_now (vs_q s) + vp_delay_set (vd_p (vs_dev s)) < 2 ^ 64 ->
  msg_type off = SimpleEnergySM.POWER_OFF ->
  exists s1, command s cmd = Ok s1 /\ vd_core busy con s1 /\ vdev_handleMsg off s1 = Err Assert_failed.
Proof.
  intros Hc Hsy HR HB Hcmd Hov Hoff.
  destruct (command_init_ok _ _ _ _ _ Hc Hsy Hcmd HB Hov) as (s1 & Hs1 & Hc1 & Hr1 & Hi1 & _ & _ & _ & Hp1 & _ & _).
  exists s1. split_and!; try done. unfold vdev_handleMsg. rewrite Hoff. cbn [Z.eqb Pos.eqb SimpleEnergySM.POWER_OFF].
  rewrite Hr1. cbn [rbind]. unfold vdev_fail. cbn [vs_dev vs_cpu]. unfold busy_byte. flags. rewrite HR. cbn [andb].
  change (vp_event_interrupt (vd_p (set_vstate (vs_dev s1) VD_POWER_OFF))) with (vp_event_interrupt (vd_p (vs_dev s1))).
  rewrite Hp1. change (cs_q (vs_cpu s1)) with (vs_q s1). by rewrite Hi1.
Qed.

Lemma reinit_then_outage_aborts_witness :
  exists s1, command (vdev_on 4) 0x80 = Ok s1 /\ vdev_handleMsg (sm_msg 1) s1 = Err Assert_failed.
Proof.
  destruct (reinit_then_outage_aborts false true (vdev_on 4) 4 0x80 (sm_msg 1)) as (s1 & Hs1 & _ & Herr);
    [exact (vdev_on_core 4)|exact (vdev_on_sync 4 eq_refl)|vm_compute; reflexivity..|].
  exists s1. split; [exact Hs1|exact Herr].
Defined.
