(* ===== verification/Nvp.v ===== *)
(** * The non-volatile platform

    A processor, its virtual devices and the energy manager on one event queue:
    what the simulation loop does with each of their events, and the theorem
    that the platform survives power failures without failing an assertion. *)
From Stdlib Require Import SpecFloat String.
From S2P Require Import Prelude IntMath AddrRange Double EventQueue EventQueueCorrect EventSched EnergySM EnergyMgmt Clock Cpu VirtualDevice.
Open Scope Z_scope.

(** ** Definitions *)

Definition vp_events (p : VdParams) : list ptr := [vp_tickEvent p; vp_event_interrupt p; vp_event_init p].

Section NvpOps.
Context {Q : Type} `{EventSched Q}.

Record Nvp := mkNvp { nv_cpu : CpuSt Q; nv_devs : list VDev }.

Definition nv_q (w : Nvp) : Q := cs_q (nv_cpu w).
Definition nv_mgmt (w : Nvp) : MgmtSt Q := cs_st (nv_cpu w).
Definition nv_with_cpu (w : Nvp) (c : CpuSt Q) : Nvp := mkNvp c (nv_devs w).
Definition nv_with_mgmt (w : Nvp) (st : MgmtSt Q) : Nvp := mkNvp (mkCpuSt st (cs_cpu (nv_cpu w))) (nv_devs w).

(** An operation of device [i]. *)
Definition on_dev {A} (i : nat) (f : VdSt Q -> result (A * VdSt Q)) (w : Nvp) : result (A * Nvp) :=
  let* d := deref (nv_devs w !! i) in
  let* '(a, s) := f (mkVdSt (nv_cpu w) d) in
  let* ds := upd (nv_devs w) i (vs_dev s) in
  Ok (a, mkNvp (vs_cpu s) ds).

(** The slaves of the manager, in the order of [bindSlave]: the processor, then
    the devices.  The configurations bind them so, and they have to: a device
    that hears of the return of power first reschedules a tick of the processor
    that is not scheduled ([device_before_cpu_aborts]). *)
Definition slave_cpu (msg : EnergyMsg) (w : Nvp) : result (Z * Nvp) :=
  let* '(r, c) := cpu_handleMsg msg (nv_cpu w) in Ok (r, nv_with_cpu w c).
Definition slave_dev (i : nat) (msg : EnergyMsg) (w : Nvp) : result (Z * Nvp) :=
  on_dev i (vdev_handleMsg msg) w.
Definition nvp_slaves (n : nat) : list (EnergyMsg -> Nvp -> result (Z * Nvp)) :=
  slave_cpu :: map slave_dev (seq 0 n).

(** [process()] of each event of the platform; what the instructions of a tick
    do is given by [check] and [exec]. *)
Section Round.
Context (check : Nvp -> result Nvp) (exec : Nvp -> result (exec_out * Nvp)).

Definition dispatch (p : ptr) (w : Nvp) : result Nvp :=
  let m := mg (nv_mgmt w) in
  if bool_decide (p = event_msg m) then
    broadcastMsg nv_mgmt nv_with_mgmt (nvp_slaves (length (nv_devs w))) w
  else if bool_decide (p = event_energy_harvest m) then
    let* st := energyHarvest (nv_mgmt w) in Ok (nv_with_mgmt w st)
  else if bool_decide (p = cp_tickEvent (cpu_p (cs_cpu (nv_cpu w)))) then
    tick nv_cpu nv_with_cpu check exec (Z.to_nat (cp_width (cpu_p (cs_cpu (nv_cpu w))))) w
  else
    match list_find (fun d => p ∈ vp_events (vd_p d)) (nv_devs w) with
    | Some (i, d) =>
        let handler s :=
          let* s := if bool_decide (p = vp_tickEvent (vd_p d)) then vdev_tick s else triggerInterrupt s in
          Ok (tt, s) in
        let* '(_, w) := on_dev i handler w in Ok w
    | None => Err Bad_pointer
    end.

(** A round of the simulation loop. *)
Definition nvp_round (w : Nvp) : result Nvp :=
  let* '(p, q) := q_pop (nv_q w) in
  dispatch p (nv_with_cpu w (with_q (nv_cpu w) q)).
End Round.
End NvpOps.
Arguments Nvp Q : clear implicits.

(** ** The invariant *)

Lemma in_tick p : vp_tickEvent p ∈ vp_events p.
Proof. unfold vp_events. set_solver. Qed.
Lemma in_int p : vp_event_interrupt p ∈ vp_events p.
Proof. unfold vp_events. set_solver. Qed.
Lemma in_init p : vp_event_init p ∈ vp_events p.
Proof. unfold vp_events. set_solver. Qed.
#[local] Hint Resolve in_tick in_int in_init : core.

Lemma nodup_concat_disjoint {A} (ll : list (list A)) i j l l' x :
  NoDup (concat ll) -> ll !! i = Some l -> ll !! j = Some l' -> i <> j -> x ∈ l -> x ∉ l'.
Proof.
  revert i j. induction ll as [|l0 ll IH]; intros i j Hnd Hi Hj Hne Hx Hx'; [done|].
  cbn in Hnd. apply NoDup_app in Hnd as (_ & Hdis & Hnd).
  assert (forall k m y, ll !! k = Some m -> y ∈ m -> y ∈ concat ll) as Hin.
  { intros k m y Hk Hy. apply elem_of_concat. exists m. split; [done|]. by eapply list_elem_of_lookup_2. }
  destruct i as [|i], j as [|j]; cbn in Hi, Hj; simplify_eq.
  - by apply (Hdis x Hx), (Hin j l').
  - by apply (Hdis x Hx'), (Hin i l).
  - exact (IH i j Hnd Hi Hj ltac:(congruence) Hx Hx').
Qed.

Section NvpCorrect.
Context {Q : Type} `{EventSchedLaws Q}.

(** All the events of the platform. *)
Definition dev_names (w : Nvp Q) : list ptr := concat ((fun d => vp_events (vd_p d)) <$> nv_devs w).
Definition nv_names (w : Nvp Q) : list ptr :=
  event_msg (mg (nv_mgmt w)) :: event_energy_harvest (mg (nv_mgmt w)) ::
  cp_tickEvent (cpu_p (cs_cpu (nv_cpu w))) :: dev_names w.

(** A device whose command byte is [b]. *)
Record dev_at (busy con : bool) (c : CpuSt Q) (d : VDev) (b : Z) : Prop := {
  da_core : vd_core busy con (mkVdSt c d);
  da_sync : vd_sync (mkVdSt c d) b;
  da_chaos : has b VDEV_BUSY = true -> has b VDEV_CHAOS = negb (has b VDEV_READY);
  da_when : q_scheduled (cs_q c) (vp_event_interrupt (vd_p d)) = true ->
            q_when (cs_q c) (vp_event_interrupt (vd_p d)) < 2 ^ 64;
  da_energy st : is_Some (vp_energy (vd_p d) !! state_index st);
  da_period : 0 <= vp_period (vd_p d);
}.

Definition is_off (b : Z) : Prop :=
  has b VDEV_BUSY = false /\ has b VDEV_READY = false /\ has b VDEV_CHAOS = true.

(** The platform: [con] says whether the processor has a tick scheduled, [busy]
    whether a message is being delivered, [pow] what the waiting messages start
    from; the command byte of device [i] satisfies [P i].  Nothing is said of
    device [x], if given: it is in the middle of an operation. *)
Record plat_but (x : option nat) (busy con pow : bool) (P : nat -> Z -> Prop) (w : Nvp Q) : Prop := {
  pl_cpu : cpu_inv busy con (nv_cpu w);
  pl_mode : cpu_mode (cs_cpu (nv_cpu w)) = (Running, false, false);
  pl_phase : phases pow (mg (nv_mgmt w));
  pb_dev i d : nv_devs w !! i = Some d -> x <> Some i -> exists b, dev_at busy con (nv_cpu w) d b /\ P i b;
  pl_names : NoDup (nv_names w);
  pl_known p : q_scheduled (nv_q w) p = true -> p ∈ nv_names w;
}.

Definition plat : bool -> bool -> bool -> (nat -> Z -> Prop) -> Nvp Q -> Prop := plat_but None.

Lemma pl_dev busy con pow P w i d :
  plat busy con pow P w -> nv_devs w !! i = Some d -> exists b, dev_at busy con (nv_cpu w) d b /\ P i b.
Proof. intros Hp Hi. by apply (pb_dev _ _ _ _ _ _ Hp). Qed.

Lemma plat_weaken x busy con pow P w : plat busy con pow P w -> plat_but x busy con pow P w.
Proof. intros []. split; try done. intros i d Hi _. by apply pb_dev0. Qed.

(** Every device has its next tick scheduled. *)
Definition ticking (w : Nvp Q) : Prop :=
  forall i d, nv_devs w !! i = Some d -> q_scheduled (nv_q w) (vp_tickEvent (vd_p d)) = true.

(** Between events: the processor has a tick scheduled exactly when there is
    power, without power no device is ready or busy, and every device ticks. *)
Definition settled (pow : bool) : Nvp Q -> Prop := plat_but None false pow pow (fun _ b => pow = false -> is_off b).
Record nvp_inv (pow : bool) (w : Nvp Q) : Prop := {
  ni_plat :> plat_but None false pow pow (fun _ b => pow = false -> is_off b) w;
  ni_ticks : ticking w;
}.

(** ** How operations change the platform *)

Definition keeps_ticks (w w' : Nvp Q) : Prop :=
  forall i d, nv_devs w !! i = Some d -> q_scheduled (nv_q w) (vp_tickEvent (vd_p d)) = true ->
  q_scheduled (nv_q w') (vp_tickEvent (vd_p d)) = true.

Record nv_step (w w' : Nvp Q) (extra : list EnergyMsg) : Prop := {
  ns_step : w_step (nv_names w) (nv_cpu w) (nv_cpu w') extra;
  ns_devs : vd_p <$> nv_devs w' = vd_p <$> nv_devs w;
  ns_ticks : keeps_ticks w w';
}.

(** The parameters of the processor and of the devices. *)
Definition nv_p (w : Nvp Q) : CpuParams * list VdParams := (cpu_p (cs_cpu (nv_cpu w)), vd_p <$> nv_devs w).

(** Time, the parameters and the ticks of the devices stay. *)
Definition stays (w w' : Nvp Q) : Prop :=
  q_now (nv_q w') = q_now (nv_q w) /\ nv_p w' = nv_p w /\ keeps_ticks w w'.

(** A device after an operation is the one before with its parameters. *)
Lemma params_back (w w' : Nvp Q) i d' :
  vd_p <$> nv_devs w' = vd_p <$> nv_devs w -> nv_devs w' !! i = Some d' ->
  exists d, nv_devs w !! i = Some d /\ vd_p d' = vd_p d.
Proof.
  intros HD Hi. assert ((vd_p <$> nv_devs w') !! i = Some (vd_p d')) as Hp by (by rewrite list_lookup_fmap, Hi).
  rewrite HD, list_lookup_fmap in Hp. destruct (nv_devs w !! i) as [d|]; [|done]. injection Hp as Hp. by exists d.
Qed.

Lemma ticking_kept w w' :
  vd_p <$> nv_devs w' = vd_p <$> nv_devs w -> keeps_ticks w w' -> ticking w -> ticking w'.
Proof.
  intros HD Hk Ht i d' Hi. destruct (params_back _ _ _ _ HD Hi) as (d & Hd & ->). apply (Hk i d Hd), (Ht i d Hd).
Qed.

Lemma keeps_ticks_trans w1 w2 w3 :
  vd_p <$> nv_devs w2 = vd_p <$> nv_devs w1 -> keeps_ticks w1 w2 -> keeps_ticks w2 w3 -> keeps_ticks w1 w3.
Proof.
  intros HD K1 K2 i d Hi Hs. destruct (params_back w2 w1 i d (eq_sym HD) Hi) as (d2 & Hd2 & E). rewrite E.
  apply (K2 i d2 Hd2). rewrite <- E. by apply (K1 i d Hi).
Qed.

Lemma nv_step_stays w w' e : nv_step w w' e -> stays w w'.
Proof. intros [S D K]. split; [exact (w_now _ _ _ _ S)|]. split; [|done]. unfold nv_p. by rewrite (w_p _ _ _ _ S), D. Qed.

Lemma dev_names_params w : dev_names w = concat (vp_events <$> (vd_p <$> nv_devs w)).
Proof. unfold dev_names. by rewrite <- list_fmap_compose. Qed.

Lemma nv_step_names w w' e : nv_step w w' e -> nv_names w' = nv_names w.
Proof.
  intros [[_ C _ _ P _ _ _] D _]. unfold nv_names. rewrite !dev_names_params, D.
  unfold nv_mgmt. by rewrite (sc_ev _ _ C), (sc_evh _ _ C), P.
Qed.

Lemma nv_step_trans w1 w2 w3 e1 e2 : nv_step w1 w2 e1 -> nv_step w2 w3 e2 -> nv_step w1 w3 (e1 ++ e2).
Proof.
  intros S1 S2. pose proof (nv_step_names _ _ _ S1) as Hn. destruct S1 as [A1 B1 K1], S2 as [A2 B2 K2]. rewrite Hn in A2.
  split; [by eapply w_step_trans|congruence|by eapply keeps_ticks_trans].
Qed.

Lemma nv_step_refl w : nv_step w w [].
Proof. split; [apply w_step_refl|done|]. by intros i d _. Qed.

Lemma nv_step_known w w' e :
  nv_step w w' e -> (forall p, q_scheduled (nv_q w) p = true -> p ∈ nv_names w) ->
  forall p, q_scheduled (nv_q w') p = true -> p ∈ nv_names w'.
Proof.
  intros S Hk p Hp. rewrite (nv_step_names _ _ _ S). destruct (decide (p ∈ nv_names w)) as [?|Hn]; [done|].
  apply Hk. destruct S as [A _ _]. rewrite <- Hp. symmetry. by apply (w_untouched _ _ _ _ _ A).
Qed.

(** Events of the devices are among the names and apart from each other. *)
Lemma dev_event_name w i d p : nv_devs w !! i = Some d -> p ∈ vp_events (vd_p d) -> p ∈ nv_names w.
Proof.
  intros Hi Hp. unfold nv_names. do 3 apply elem_of_cons, or_intror. apply elem_of_concat. eexists. split; [done|]. apply list_elem_of_fmap. exists d. split; [done|]. by eapply list_elem_of_lookup_2.
Qed.

Lemma dev_events_apart w i j d d' p :
  NoDup (nv_names w) -> nv_devs w !! i = Some d -> nv_devs w !! j = Some d' -> i <> j ->
  p ∈ vp_events (vd_p d) -> p ∉ vp_events (vd_p d').
Proof.
  intros Hn Hi Hj Hne. unfold nv_names in Hn. rewrite !NoDup_cons in Hn. destruct Hn as (_ & _ & _ & Hn).
  eapply nodup_concat_disjoint; [exact Hn| | |done]; rewrite list_lookup_fmap, ?Hi, ?Hj; done.
Qed.

Lemma dev_event_not_common w i d p :
  NoDup (nv_names w) -> nv_devs w !! i = Some d -> p ∈ vp_events (vd_p d) ->
  p <> event_msg (mg (nv_mgmt w)) /\ p <> event_energy_harvest (mg (nv_mgmt w)) /\
  p <> cp_tickEvent (cpu_p (cs_cpu (nv_cpu w))).
Proof.
  intros Hn Hi Hp. assert (p ∈ dev_names w) as Hin.
  { apply elem_of_concat. eexists. split; [done|]. apply list_elem_of_fmap. exists d. split; [done|]. by eapply list_elem_of_lookup_2. }
  unfold nv_names in Hn. rewrite !NoDup_cons, !elem_of_cons in Hn. destruct Hn as (N1 & N2 & N3 & _).
  split_and!; intros ->; tauto.
Qed.

(** A device whose completion events an operation leaves alone. *)
Lemma dev_at_same2 busy con busy' con' l c c' d b :
  dev_at busy con c d b -> w_same l c c' -> cpu_inv busy' con' c' ->
  vp_event_interrupt (vd_p d) ∉ l -> vp_event_init (vd_p d) ∉ l -> dev_at busy' con' c' d b.
Proof.
  intros [Hc [Hr Hi Hn] Hch Hw He Hp] Hst Hcpu A1 A2.
  destruct (sm_other _ _ _ Hst _ A1) as [S1 W1]. destruct (sm_other _ _ _ Hst _ A2) as [S2 _].
  split; try done; [| |by rewrite S1, W1].
  - exact (vd_core_same _ _ _ _ _ _ _ d Hc Hst Hcpu eq_refl eq_refl (vc_reg _ _ _ Hc) (vc_remained _ _ _ Hc)).
  - split; [done|exact (eq_trans S1 Hi)|exact (eq_trans S2 Hn)].
Qed.

Lemma dev_at_same busy con busy' con' l c c' d b :
  dev_at busy con c d b -> w_same l c c' -> cpu_inv busy' con' c' ->
  (forall p, p ∈ vp_events (vd_p d) -> p ∉ l) -> dev_at busy' con' c' d b.
Proof.
  intros Hd Hs Hi Hap. eapply dev_at_same2; [exact Hd|exact Hs|exact Hi|apply Hap..]; unfold vp_events; set_solver.
Qed.

Lemma dev_at_step busy con busy' con' l c c' e d b :
  dev_at busy con c d b -> w_step l c c' e -> cpu_inv busy' con' c' ->
  (forall p, p ∈ vp_events (vd_p d) -> p ∉ l) -> dev_at busy' con' c' d b.
Proof. intros Hd Hw. eapply dev_at_same; [exact Hd|by eapply w_step_same]. Qed.

Lemma taken_same c q' p : q_taken q_own (cs_q c) q' p -> w_same [p] c (with_q c q').
Proof.
  intros Ht. split; [done|apply (taken_own _ _ _ _ Ht)| |done].
  intros r Hr. apply (taken_other _ _ _ _ Ht). set_solver.
Qed.

Lemma nv_step_plat x busy con pow P w w' e :
  plat_but x busy con pow P w -> nv_step w w' e -> 
  cpu_mode (cs_cpu (nv_cpu w')) = (Running, false, false) /\ phases pow (mg (nv_mgmt w')) /\
  NoDup (nv_names w') /\ forall p, q_scheduled (nv_q w') p = true -> p ∈ nv_names w'.
Proof.
  intros Hp S. pose proof (nv_step_names _ _ _ S) as Hn. rewrite Hn. split_and!.
  - rewrite (w_mode _ _ _ _ (ns_step _ _ _ S)). apply Hp.
  - apply (w_phase _ _ _ _ (ns_step _ _ _ S)), Hp.
  - apply Hp.
  - rewrite <- Hn. eapply nv_step_known; [done|]. apply Hp.
Qed.

(** What does not touch the tick of the device. *)
Lemma tick_untouched busy con c d l (P : Prop) :
  vd_core busy con (mkVdSt c d) -> l ⊆ shared c ++ [vp_event_interrupt (vd_p d); vp_event_init (vd_p d)] ->
  vp_tickEvent (vd_p d) ∈ l -> P.
Proof.
  intros Hc Hl Hin. destruct (vd_distinct _ _ _ Hc) as (_ & N1 & N2). cbn [vs_dev] in *.
  assert (vp_tickEvent (vd_p d) ∈ vd_events d) as Ha by (unfold vd_events; set_solver).
  pose proof (vc_apart _ _ _ Hc _ Ha) as Hs. cbn [vs_cpu] in Hs. pose proof (Hl _ Hin) as Hx. set_solver.
Qed.

(** Ticks survive an operation that touches the events of one device. *)
Lemma touched_ticks w i d l c' e ds :
  NoDup (nv_names w) -> nv_devs w !! i = Some d -> w_step l (nv_cpu w) c' e ->
  l ⊆ shared (nv_cpu w) ++ vp_events (vd_p d) ->
  (vp_tickEvent (vd_p d) ∈ l -> q_scheduled (cs_q c') (vp_tickEvent (vd_p d)) = true) ->
  keeps_ticks w (mkNvp c' ds).
Proof.
  intros Hnd Hi Hst Hl Htk j dj Hj Hs. destruct (decide (vp_tickEvent (vd_p dj) ∈ l)) as [Hin|Hin].
  - destruct (dev_event_not_common _ _ _ _ Hnd Hj (in_tick (vd_p dj))) as (N1 & _ & N3). unfold nv_mgmt in N1.
    pose proof (Hl _ Hin) as [Hsh|Hd]%elem_of_app; [set_solver|].
    destruct (decide (i = j)) as [<-|Hne]; [rewrite Hi in Hj; injection Hj as <-; by apply Htk|].
    by destruct (dev_events_apart w i j d dj _ Hnd Hi Hj Hne Hd).
  - destruct (w_untouched _ _ _ _ _ Hst Hin) as [E _]. exact (eq_trans E Hs).
Qed.

(** An operation of device [i] that touches only its events and the shared
    ones. *)
Lemma nvp_dev_op {A} busy con pow P P' w i d (f : VdSt Q -> result (A * VdSt Q)) a s' l e b' :
  plat_but (Some i) busy con pow P w -> nv_devs w !! i = Some d -> f (mkVdSt (nv_cpu w) d) = Ok (a, s') ->
  vd_p (vs_dev s') = vd_p d -> w_step l (nv_cpu w) (vs_cpu s') e ->
  l ⊆ shared (nv_cpu w) ++ vp_events (vd_p d) ->
  (vp_tickEvent (vd_p d) ∈ l -> q_scheduled (cs_q (vs_cpu s')) (vp_tickEvent (vd_p d)) = true) ->
  dev_at busy con (vs_cpu s') (vs_dev s') b' ->
  P' i b' -> (forall j b, j <> i -> P j b -> P' j b) ->
  let w' := mkNvp (vs_cpu s') (<[i := vs_dev s']> (nv_devs w)) in
  on_dev i f w = Ok (a, w') /\ nv_step w w' e /\ plat busy con pow P' w'.
Proof.
  intros Hp Hi Hf Hvp Hst Hl Htk Hat HP HPj w'. pose proof (lookup_lt_Some _ _ _ Hi) as Hlt.
  assert (nv_step w w' e) as S.
  { split; cbn.
    - eapply w_step_mono; [|exact Hst]. intros p [Hs|Hd]%Hl%elem_of_app; [|by eapply dev_event_name].
      unfold nv_names, nv_mgmt. set_solver.
    - rewrite list_fmap_insert, Hvp. apply list_insert_id. by rewrite list_lookup_fmap, Hi.
    - exact (touched_ticks _ i d l (vs_cpu s') e _ (pl_names _ _ _ _ _ _ Hp) Hi Hst Hl Htk). }
  split; [|split; [done|]].
  - unfold on_dev. rewrite Hi. cbn [deref rbind]. rewrite Hf. cbn [rbind].
    assert (upd (nv_devs w) i (vs_dev s') = Ok (<[i := vs_dev s']> (nv_devs w))) as -> by (by apply upd_ok). done.
  - destruct (nv_step_plat _ _ _ _ _ _ _ _ Hp S) as (Hm & Hph & Hnn & Hk). split; try done; [apply (vc_cpu _ _ _ (da_core _ _ _ _ _ Hat))|].
    intros j dj Hj _. cbn in Hj. destruct (decide (j = i)) as [->|Hne].
    + rewrite list_lookup_insert_eq in Hj by done. injection Hj as <-. eauto.
    + rewrite list_lookup_insert_ne in Hj by done. destruct (pb_dev _ _ _ _ _ _ Hp _ _ Hj) as (b & Hb & HPb); [congruence|].
      exists b. split; [|by apply HPj]. eapply dev_at_step; [exact Hb|exact Hst|apply (vc_cpu _ _ _ (da_core _ _ _ _ _ Hat))|].
      intros p Hpj [Hs|Hd]%Hl%elem_of_app.
      * destruct (dev_event_not_common _ _ _ _ (pl_names _ _ _ _ _ _ Hp) Hj Hpj) as (N1 & _ & N3).
        unfold nv_mgmt in *. set_solver.
      * by apply (dev_events_apart _ _ _ _ _ _ (pl_names _ _ _ _ _ _ Hp) Hj Hi Hne Hpj).
Qed.

(** An operation of the processor. *)
Lemma nvp_cpu_op busy con busy' con' pow P w c' e :
  plat busy con pow P w -> cpu_step (nv_cpu w) c' e -> cpu_inv busy' con' c' ->
  nv_step w (nv_with_cpu w c') e /\ plat busy' con' pow P (nv_with_cpu w c').
Proof.
  intros Hp Hst Hi. apply cpu_w_step in Hst. assert (nv_step w (nv_with_cpu w c') e) as S.
  { split; [|done|].
    - eapply w_step_mono; [|exact Hst]. unfold nv_names, nv_mgmt. set_solver.
    - intros j d Hj Hs. destruct (dev_event_not_common _ _ _ _ (pl_names _ _ _ _ _ _ Hp) Hj (in_tick (vd_p d))) as (N1 & _ & N3).
      destruct (w_untouched _ _ _ _ (vp_tickEvent (vd_p d)) Hst) as [E _]; [unfold nv_mgmt in *; set_solver|exact (eq_trans E Hs)]. }
  split; [done|]. destruct (nv_step_plat _ _ _ _ _ _ _ _ Hp S) as (Hm & Hph & Hnn & Hk). split; try done.
  intros j d Hj _. destruct (pl_dev _ _ _ _ _ _ _ Hp Hj) as (b & Hb & HPb). exists b. split; [|done].
  eapply dev_at_step; [exact Hb|exact Hst|done|]. intros p Hpj.
  destruct (dev_event_not_common _ _ _ _ (pl_names _ _ _ _ _ _ Hp) Hj Hpj) as (N1 & _ & N3). unfold nv_mgmt in *. set_solver.
Qed.

(** ** A power failure *)

Lemma off_byte_off b : is_off (off_byte b).
Proof. unfold is_off, off_byte. flags. done. Qed.

Lemma off_loop busy con pow msg n k rlt w :
  plat busy con pow (fun j b => (j < k)%nat -> is_off b) w -> msg_type msg = SimpleEnergySM.POWER_OFF ->
  (k + n = length (nv_devs w))%nat ->
  exists w', port_loop (map slave_dev (seq k n)) msg rlt w = Ok (rlt, w') /\ nv_step w w' [] /\
  plat busy con pow (fun j b => (j < k + n)%nat -> is_off b) w'.
Proof.
  revert k w. induction n as [|n IH]; intros k w Hp Hm Hlen; cbn [seq map port_loop].
  { exists w. split; [done|]. split; [by apply nv_step_refl|]. by rewrite Nat.add_0_r. }
  destruct (nv_devs w !! k) as [d|] eqn:Hk; [|apply lookup_ge_None in Hk; lia].
  destruct (pl_dev _ _ _ _ _ _ _ Hp Hk) as (b & [Hc Hsy Hch Hw He Hpe] & _).
  destruct (vdev_poweroff_ok busy con (mkVdSt (nv_cpu w) d) msg b Hc Hsy Hw Hm)
    as (s' & Hs & Hc' & Hsy' & Hst & _ & _ & Hvp & _ & _).
  destruct (nvp_dev_op busy con pow _ (fun j b => (j < S k)%nat -> is_off b) w k d (vdev_handleMsg msg) 1 s' _ [] (off_byte b)
    (plat_weaken _ _ _ _ _ _ Hp) Hk Hs Hvp Hst) as (Hon & S1 & Hp1).
  - unfold vp_events. cbn. set_solver.
  - apply (tick_untouched _ _ _ _ _ _ Hc). cbn. set_solver.
  - pose proof (off_byte_off b) as (O1 & O2 & _). split; rewrite ?Hvp; try done.
    + by destruct s'.
    + by destruct s'.
    + by rewrite O1.
    + intros Hx. pose proof (sy_int _ _ Hsy') as Hi. rewrite O1, Hvp in Hi. discriminate (eq_trans (eq_sym Hx) Hi).
  - intros _. apply off_byte_off.
  - intros j b0 Hj HPj Hlt. apply HPj. lia.
  - unfold slave_dev at 1. rewrite Hon. cbn [rbind Z.eqb].
    destruct (IH (S k) _ Hp1 Hm) as (w' & -> & S2 & Hp2); [cbn; rewrite length_insert; lia|].
    exists w'. split; [done|]. split; [exact (nv_step_trans _ _ _ _ _ S1 S2)|].
    by rewrite <- Nat.add_succ_comm.
Qed.

(** ** The return of power *)

Definition set_total (ds : list VDev) : Z := foldr (fun d acc => vp_delay_set (vd_p d) + acc) 0 ds.

Lemma set_total_nonneg busy con pow P w k : plat busy con pow P w -> 0 <= set_total (drop k (nv_devs w)).
Proof.
  intros Hp. assert (forall i d, drop k (nv_devs w) !! i = Some d -> 0 <= vp_delay_set (vd_p d)) as Hall.
  { intros i d Hi. rewrite lookup_drop in Hi. destruct (pl_dev _ _ _ _ _ _ _ Hp Hi) as (b & Hb & _).
    apply (vc_set _ _ _ (da_core _ _ _ _ _ Hb)). }
  induction (drop k (nv_devs w)) as [|d ds IH]; [done|]. cbn. pose proof (Hall 0%nat d eq_refl).
  assert (0 <= set_total ds) by (apply IH; intros i; apply (Hall (S i))). unfold set_total in *. lia.
Qed.

Lemma plat_mono x busy con pow (P P' : nat -> Z -> Prop) w :
  (forall i b, P i b -> P' i b) -> plat_but x busy con pow P w -> plat_but x busy con pow P' w.
Proof. intros HP []. split; try done. intros i d Hi Hx. destruct (pb_dev0 i d Hi Hx) as (b & ? & ?). eauto. Qed.

(** One device when power returns. *)
Lemma on_step busy pow msg k w d :
  plat busy true pow (fun j b => (k <= j)%nat -> is_off b) w -> msg_type msg = SimpleEnergySM.POWER_ON ->
  nv_devs w !! k = Some d -> tick_at (nv_cpu w) + vp_delay_set (vd_p d) < 2 ^ 53 ->
  exists w', slave_dev k msg w = Ok (1, w') /\ nv_step w w' [] /\
  plat busy true pow (fun j b => (S k <= j)%nat -> is_off b) w' /\ (exists d', nv_devs w' = <[k := d']> (nv_devs w)) /\
  tick_at (nv_cpu w) <= tick_at (nv_cpu w') <= tick_at (nv_cpu w) + vp_delay_set (vd_p d).
Proof.
  intros Hp Hm Hk Hroom. destruct (pl_dev _ _ _ _ _ _ _ Hp Hk) as (b & [Hc Hsy Hch Hw He Hpe] & Hoff).
  destruct (Hoff (le_n k)) as (O1 & O2 & O3). pose proof (vc_set _ _ _ Hc) as Hset. cbn [vs_dev] in Hset. unfold slave_dev.
  assert (forall j b, j <> k -> ((k <= j)%nat -> is_off b) -> (S k <= j)%nat -> is_off b) as Hrest.
  { intros j b0 Hj HPj Hle. apply HPj. lia. }
  destruct (vd_need_recover d) eqn:Hnr.
  - destruct (vdev_poweron_ok busy (mkVdSt (nv_cpu w) d) msg b Hc Hsy O1 O2 Hnr Hroom Hm)
      as (s' & Hs & Hc' & Hsy' & Hst & Ht & Hwh & Hvp & _ & _).
    destruct (nvp_dev_op busy true pow _ (fun j b => (S k <= j)%nat -> is_off b) w k d (vdev_handleMsg msg) 1 s' _ []
      (on_bits b VDEV_BUSY) (plat_weaken _ _ _ _ _ _ Hp) Hk Hs Hvp Hst) as (Hon & S1 & Hp1); try done; [| | |lia|].
    + unfold vp_events. set_solver.
    + apply (tick_untouched _ _ _ _ _ _ Hc). cbn. set_solver.
    + split; rewrite ?Hvp; try done; [by destruct s'|by destruct s'|flags; by rewrite O2, O3|].
      intros Hx. pose proof (sy_int _ _ Hsy') as Hi. rewrite Hvp in Hi. revert Hi. flags. rewrite O2. intros Hi.
      discriminate (eq_trans (eq_sym Hx) Hi).
    + eexists. split; [exact Hon|]. cbn [nv_cpu nv_devs vs_cpu vs_dev] in *. split_and!; try done; [by eexists|lia|lia].
  - destruct (vdev_poweron_fresh busy true (mkVdSt (nv_cpu w) d) msg b Hc Hsy O1 Hnr Hm)
      as (s' & Hs & Hc' & Hsy' & Hcpu & Hvp & _).
    destruct (nvp_dev_op busy true pow _ (fun j b => (S k <= j)%nat -> is_off b) w k d (vdev_handleMsg msg) 1 s' [] []
      (off_bits b VDEV_BUSY) (plat_weaken _ _ _ _ _ _ Hp) Hk Hs Hvp) as (Hon & S1 & Hp1); try done; [rewrite Hcpu; apply w_step_refl|set_solver|set_solver| |lia|].
    + split; rewrite ?Hvp; try done; [by destruct s'|by destruct s'|by flags|].
      intros Hx. pose proof (sy_int _ _ Hsy') as Hi. rewrite Hvp in Hi. revert Hi. flags. intros Hi.
      discriminate (eq_trans (eq_sym Hx) Hi).
    + eexists. split; [exact Hon|]. cbn [nv_cpu nv_devs] in *. split_and!; try done; [by eexists|rewrite Hcpu; cbn [vs_cpu]; lia..].
Qed.

Lemma on_loop busy pow msg n k rlt w :
  plat busy true pow (fun j b => (k <= j)%nat -> is_off b) w -> msg_type msg = SimpleEnergySM.POWER_ON ->
  (k + n = length (nv_devs w))%nat -> tick_at (nv_cpu w) + set_total (drop k (nv_devs w)) < 2 ^ 53 ->
  exists w', port_loop (map slave_dev (seq k n)) msg rlt w = Ok (rlt, w') /\ nv_step w w' [] /\
  plat busy true pow (fun _ _ => True) w' /\
  tick_at (nv_cpu w) <= tick_at (nv_cpu w') <= tick_at (nv_cpu w) + set_total (drop k (nv_devs w)).
Proof.
  revert k w. induction n as [|n IH]; intros k w Hp Hm Hlen Hroom; cbn [seq map port_loop].
  { exists w. split; [done|]. split; [by apply nv_step_refl|].
    split; [by eapply plat_mono, Hp|]. pose proof (set_total_nonneg _ _ _ _ _ k Hp). lia. }
  destruct (nv_devs w !! k) as [d|] eqn:Hk; [|apply lookup_ge_None in Hk; lia].
  rewrite (drop_S _ d k Hk) in *. cbn [set_total foldr] in *. fold (set_total (drop (S k) (nv_devs w))) in *.
  pose proof (set_total_nonneg _ _ _ _ _ (S k) Hp) as Hnn.
  destruct (on_step busy pow msg k w d Hp Hm Hk ltac:(lia)) as (w1 & -> & S1 & Hp1 & [d' Hd'] & Ht1).
  cbn [rbind Z.eqb]. assert (drop (S k) (nv_devs w1) = drop (S k) (nv_devs w)) as Hdrop.
  { rewrite Hd'. apply drop_insert_lt. lia. }
  destruct (IH (S k) w1 Hp1 Hm) as (w' & -> & S2 & Hp2 & Ht2); [rewrite Hd', length_insert; lia|rewrite Hdrop; lia|].
  rewrite Hdrop in Ht2. exists w'. split; [done|]. split; [exact (nv_step_trans _ _ _ _ _ S1 S2)|]. split; [done|lia].
Qed.

(** ** Delivering a message *)

Definition restart_room (w : Nvp Q) : Prop :=
  0 <= restore_ticks (cs_cpu (nv_cpu w)) /\
  q_now (nv_q w) + restore_ticks (cs_cpu (nv_cpu w)) + set_total (nv_devs w) < 2 ^ 53.

(** The front message switches the power of the processor and every device. *)
Lemma deliver_ok pow w msg rest :
  plat true pow pow (fun _ b => pow = false -> is_off b) w -> msg_togo (mg (nv_mgmt w)) = msg :: rest ->
  (pow = false -> restart_room w) ->
  exists w1 l, port_broadcastMsg (nvp_slaves (length (nv_devs w))) msg w = Ok (1, w1) /\ nv_step w w1 l /\
  plat true (negb pow) pow (fun _ b => negb pow = false -> is_off b) w1.
Proof.
  intros Hp Ht Hroom. destruct (pl_phase _ _ _ _ _ _ Hp) as (sm & _ & Halt & _). rewrite Ht in Halt. destruct Halt as [Hm _].
  unfold port_broadcastMsg, nvp_slaves. cbn [length Nat.eqb port_loop]. unfold slave_cpu at 1. destruct pow; cbn [negb] in *.
  - destruct (cpu_poweroff_ok true (nv_cpu w) msg (pl_cpu _ _ _ _ _ _ Hp) Hm) as (c' & l & -> & Hi & Hst & _).
    cbn [rbind Z.eqb]. destruct (nvp_cpu_op _ _ true false _ _ _ _ _ Hp Hst Hi) as [S1 Hp1].
    destruct (off_loop true false true msg (length (nv_devs w)) 0 1 (nv_with_cpu w c')) as (w1 & -> & S2 & Hp2); try done.
    { eapply plat_mono, Hp1. intros i b _ Hlt. lia. }
    exists w1, (l ++ []). split; [done|]. split; [exact (nv_step_trans _ _ _ _ _ S1 S2)|].
    split; try apply Hp2. intros i d Hi' _. destruct (pl_dev _ _ _ _ _ _ _ Hp2 Hi') as (b & Hb & Hoff).
    exists b. split; [done|]. intros _. apply Hoff. apply lookup_lt_Some in Hi'.
    pose proof (f_equal length (ns_devs _ _ _ S2)) as Hl. rewrite !length_fmap in Hl. cbn in Hl. lia.
  - destruct (Hroom eq_refl) as [Hr Hb].
    pose proof (set_total_nonneg _ _ _ _ _ 0 Hp) as Hnn. rewrite drop_0 in Hnn. unfold nv_q in Hb.
    destruct (cpu_poweron_ok true (nv_cpu w) msg (pl_cpu _ _ _ _ _ _ Hp) Hm Hr) as (c' & l & -> & Hi & Hst & Htk & _); [lia|].
    cbn [rbind Z.eqb]. destruct (nvp_cpu_op _ _ true true _ _ _ _ _ Hp Hst Hi) as [S1 Hp1].
    destruct (on_loop true false msg (length (nv_devs w)) 0 1 (nv_with_cpu w c')) as (w1 & -> & S2 & Hp2 & _); try done.
    { eapply plat_mono, Hp1. auto. }
    { rewrite drop_0. cbn [nv_cpu nv_with_cpu nv_devs]. lia. }
    exists w1, (l ++ []). split; [done|]. split; [exact (nv_step_trans _ _ _ _ _ S1 S2)|].
    eapply plat_mono, Hp2. done.
Qed.

(** The manager takes the message out and waits for the next. *)
Lemma nvp_broadcast_ok pow w :
  plat true pow pow (fun _ b => pow = false -> is_off b) w -> (pow = false -> restart_room w) ->
  exists w', broadcastMsg nv_mgmt nv_with_mgmt (nvp_slaves (length (nv_devs w))) w = Ok w' /\
  settled (negb pow) w' /\ stays w w'.
Proof.
  intros Hp Hroom. pose proof (ti_busy _ _ (ci_togo _ _ _ (pl_cpu _ _ _ _ _ _ Hp)) eq_refl) as Hne.
  destruct (msg_togo (mg (nv_mgmt w))) as [|msg rest] eqn:Ht; [done|].
  destruct (deliver_ok pow w msg rest Hp Ht Hroom) as (w1 & l & Hb & S1 & Hp1).
  pose proof (w_togo _ _ _ _ (ns_step _ _ _ S1)) as Ht1. unfold nv_mgmt in Ht. rewrite Ht in Ht1.
  pose proof (pl_cpu _ _ _ _ _ _ Hp1) as [Hto Ho Hm Hh Hs Hr Hpw Hn].
  destruct (broadcast_finish nv_mgmt nv_with_mgmt (nvp_slaves (length (nv_devs w))) w msg rest l 1 w1 Ht Hb Hto Ht1)
    as (q' & -> & Hto' & F). eexists. split; [done|]. set (st' := mkSt _ _ q') in *.
  assert (w_same [event_msg (mg (nv_mgmt w1))] (nv_cpu w1) (mkCpuSt st' (cs_cpu (nv_cpu w1)))) as Hsame.
  { split; try done; [apply (fr_own _ _ _ F)|]. intros r Hr0. apply (fr_other _ _ _ F). set_solver. }
  destruct (fr_other _ _ _ F _ Hm) as [Hsc _].
  assert (cpu_inv false (negb pow) (mkCpuSt st' (cs_cpu (nv_cpu w1)))) as Hcpu.
  { split; try done; [by apply (fr_own _ _ _ F)|exact (eq_trans Hsc Hs)|]. unfold cs_q. cbn. rewrite (fr_now _ _ _ F). done. }
  assert (keeps_ticks w (mkNvp (mkCpuSt st' (cs_cpu (nv_cpu w1))) (nv_devs w1))) as Hk.
  { eapply keeps_ticks_trans; [apply (ns_devs _ _ _ S1)|apply (ns_ticks _ _ _ S1)|]. intros i d Hi Hsd.
    destruct (dev_event_not_common _ _ _ _ (pl_names _ _ _ _ _ _ Hp1) Hi (in_tick (vd_p d))) as (N1 & _).
    exact (eq_trans (proj1 (fr_other _ _ _ F _ N1)) Hsd). }
  split; [|destruct (nv_step_stays _ _ _ S1) as (? & ? & _); split_and!; try done; unfold nv_q, cs_q; cbn; by rewrite (fr_now _ _ _ F)].
  split; try done; try apply Hp1.
  - eapply phases_pop; [apply Hp1|exact Ht1].
  - intros i d Hi _. destruct (pl_dev _ _ _ _ _ _ _ Hp1 Hi) as (b & Hb' & HP). exists b. split; [|done].
    eapply dev_at_same; [exact Hb'|exact Hsame|exact Hcpu|]. intros p Hpj.
    destruct (dev_event_not_common _ _ _ _ (pl_names _ _ _ _ _ _ Hp1) Hi Hpj) as (N1 & _). set_solver.
  - intros p Hsp. destruct (decide (p = event_msg (mg (nv_mgmt w1)))) as [->|Hpe]; [unfold nv_names; cbn; set_solver|].
    apply (pl_known _ _ _ _ _ _ Hp1). rewrite <- Hsp. symmetry. by apply (fr_other _ _ _ F).
Qed.

(** ** Taking out an event *)

Lemma taken_cpu pow c q' p :
  cpu_inv false pow c -> q_inv q' -> q_taken q_own (cs_q c) q' p ->
  cpu_inv (bool_decide (p = event_msg (mg (cs_st c))))
          (negb (bool_decide (p = cp_tickEvent (cpu_p (cs_cpu c)))) && pow) (with_q c q').
Proof.
  intros [[Ti To Th Tn Ts Tb] Ho Hm Hh Hs Hr Hp Hn] Hq Ht. pose proof (taken_le _ _ _ _ Ht) as Hle.
  split; try done; [|by apply (taken_own _ _ _ _ Ht)| |cbn; rewrite (taken_now _ _ _ _ Ht); lia].
  - split; cbn; try done; [by apply (taken_own _ _ _ _ Ht)..| |].
    + case_bool_decide as E; cbn; [rewrite <- E; apply (taken_this _ _ _ _ Ht)|].
      rewrite (proj1 (taken_other _ _ _ _ Ht _ (not_eq_sym E))). exact Ts.
    + case_bool_decide as E; [|done]. intros _ Hnil. pose proof (taken_was _ _ _ _ Ht) as Hw.
      rewrite E in Hw. unfold cs_q in Hw. rewrite Ts, Hnil in Hw. done.
  - unfold cpu_scheduled in *. cbn. case_bool_decide as E; cbn; [rewrite <- E; apply (taken_this _ _ _ _ Ht)|].
    by rewrite (proj1 (taken_other _ _ _ _ Ht _ (not_eq_sym E))).
Qed.

Lemma taken_known w q' p :
  (forall r, q_scheduled (nv_q w) r = true -> r ∈ nv_names w) -> q_taken q_own (nv_q w) q' p ->
  forall r, q_scheduled q' r = true -> r ∈ nv_names w.
Proof.
  intros Hk Ht r Hr. destruct (decide (r = p)) as [->|Hne]; [apply Hk, Ht|].
  apply Hk. by rewrite <- (proj1 (taken_other _ _ _ _ Ht _ Hne)).
Qed.

(** The platform once an event of its own is out, except for the device whose
    completion it is. *)
Lemma taken_plat x pow w q' p :
  nvp_inv pow w -> q_inv q' -> q_taken q_own (nv_q w) q' p ->
  (forall i d, nv_devs w !! i = Some d -> x <> Some i -> p <> vp_event_interrupt (vd_p d) /\ p <> vp_event_init (vd_p d)) ->
  plat_but x (bool_decide (p = event_msg (mg (nv_mgmt w))))
    (negb (bool_decide (p = cp_tickEvent (cpu_p (cs_cpu (nv_cpu w))))) && pow) pow
    (fun _ b => pow = false -> is_off b) (nv_with_cpu w (with_q (nv_cpu w) q')).
Proof.
  intros Hp Hq Ht Hx. pose proof (taken_cpu _ _ _ _ (pl_cpu _ _ _ _ _ _ Hp) Hq Ht) as Hcpu.
  split; try done; try apply Hp.
  - intros i d Hi Hne. destruct (pl_dev _ _ _ _ _ _ _ Hp Hi) as (b & Hb & HP). exists b. split; [|done].
    destruct (Hx i d Hi Hne). eapply dev_at_same2; [exact Hb|by apply taken_same|exact Hcpu|set_solver..].
  - intros r Hr. exact (taken_known w q' p (pl_known _ _ _ _ _ _ Hp) Ht r Hr).
Qed.

(** ** Events of the devices *)

Lemma dev_tick_event pow w i d :
  plat false pow pow (fun _ b => pow = false -> is_off b) w -> nv_devs w !! i = Some d ->
  q_scheduled (nv_q w) (vp_tickEvent (vd_p d)) = false -> q_now (nv_q w) + vp_period (vd_p d) < 2 ^ 64 ->
  exists w', on_dev i (fun s => let* s := vdev_tick s in Ok (tt, s)) w = Ok (tt, w') /\ settled pow w' /\
  stays w w' /\ q_scheduled (nv_q w') (vp_tickEvent (vd_p d)) = true.
Proof.
  intros Hp Hi Hs Hov. destruct (pl_dev _ _ _ _ _ _ _ Hp Hi) as (b & Hat & HP). pose proof Hat as [Hc Hsy Hch Hw He Hpe].
  destruct (vdev_tick_ok false pow (mkVdSt (nv_cpu w) d) Hc Hs (He _) Hpe Hov) as (s' & e & Hs' & Hc' & Hd' & Hst & Htk & _).
  assert (vp_event_interrupt (vd_p d) ∈ vp_events (vd_p d) /\ vp_event_init (vd_p d) ∈ vp_events (vd_p d)) as [I1 I2].
  { unfold vp_events. set_solver. }
  destruct (dev_event_not_common _ _ _ _ (pl_names _ _ _ _ _ _ Hp) Hi I1) as (A1 & _).
  destruct (dev_event_not_common _ _ _ _ (pl_names _ _ _ _ _ _ Hp) Hi I2) as (A2 & _).
  destruct (vd_distinct _ _ _ Hc) as (_ & N1 & N2). cbn [vs_dev] in *. unfold nv_mgmt in *.
  destruct (nvp_dev_op false pow pow _ (fun _ b => pow = false -> is_off b) w i d
    (fun s => let* s := vdev_tick s in Ok (tt, s)) tt s' [event_msg (mg (cs_st (nv_cpu w))); vp_tickEvent (vd_p d)] e b
    (plat_weaken _ _ _ _ _ _ Hp) Hi) as (Hon & S & Hp').
  - by rewrite Hs'.
  - by rewrite Hd'.
  - exact Hst.
  - unfold vp_events. set_solver.
  - intros _. exact Htk.
  - rewrite Hd'. eapply dev_at_same2; [exact Hat|by eapply w_step_same|apply (vc_cpu _ _ _ Hc')|set_solver..].
  - done.
  - done.
  - eexists. split; [exact Hon|]. split; [exact Hp'|]. split; [exact (nv_step_stays _ _ _ S)|exact Htk].
Qed.

(** A device whose completion has just been taken out is busy, with power. *)
Lemma taken_done pow w i d q' p b :
  nvp_inv pow w -> nv_devs w !! i = Some d -> dev_at false pow (nv_cpu w) d b -> (pow = false -> is_off b) ->
  q_inv q' -> q_taken q_own (nv_q w) q' p -> p = vp_event_interrupt (vd_p d) \/ p = vp_event_init (vd_p d) ->
  pow = true /\ has b VDEV_BUSY = true /\ has b VDEV_CHAOS = bool_decide (p = vp_event_init (vd_p d)) /\
  vd_core false true (mkVdSt (with_q (nv_cpu w) q') d) /\
  q_scheduled q' (vp_event_interrupt (vd_p d)) = false /\ q_scheduled q' (vp_event_init (vd_p d)) = false.
Proof.
  intros Hp Hi [Hc [Hr Hsi Hsn] Hch Hw He Hpe] HP Hq Ht Hev. destruct (vd_distinct _ _ _ Hc) as (Hne & _). cbn [vs_dev] in *.
  pose proof (taken_was _ _ _ _ Ht) as Hwas. change (vs_q (mkVdSt (nv_cpu w) d)) with (nv_q w) in *.
  assert (has b VDEV_BUSY = true /\ has b VDEV_READY = negb (bool_decide (p = vp_event_init (vd_p d)))) as [HB HR].
  { destruct Hev as [->| ->].
    - rewrite Hwas in Hsi. symmetry in Hsi. apply andb_true_iff in Hsi as [-> ->]. by rewrite bool_decide_false.
    - rewrite Hwas in Hsn. symmetry in Hsn. apply andb_true_iff in Hsn as [-> Hn%negb_true_iff]. by rewrite bool_decide_true, Hn. }
  assert (pow = true) as -> by (destruct pow; [done|]; destruct (HP eq_refl) as [? _]; congruence).
  split; [done|]. split; [done|]. split; [rewrite (Hch HB), HR; apply negb_involutive|].
  assert (p ∈ vp_events (vd_p d)) as Hin by (unfold vp_events; set_solver).
  destruct (dev_event_not_common _ _ _ _ (pl_names _ _ _ _ _ _ Hp) Hi Hin) as (N1 & _ & N3).
  pose proof (taken_cpu _ _ _ _ (pl_cpu _ _ _ _ _ _ Hp) Hq Ht) as Hcpu. unfold nv_mgmt in N1.
  rewrite (bool_decide_false _ N1), (bool_decide_false _ N3) in Hcpu. cbn [negb andb] in Hcpu.
  split; [|destruct Hev as [->| ->]; split; try apply (taken_this _ _ _ _ Ht)].
  - exact (vd_core_same _ _ _ _ (mkVdSt (nv_cpu w) d) _ _ d Hc (taken_same _ _ _ Ht) Hcpu eq_refl eq_refl (vc_reg _ _ _ Hc) (vc_remained _ _ _ Hc)).
  - rewrite (proj1 (taken_other _ _ _ _ Ht _ (not_eq_sym Hne))), Hsn, HB, HR. by rewrite bool_decide_false.
  - rewrite (proj1 (taken_other _ _ _ _ Ht _ Hne)), Hsi, HB, HR. by rewrite bool_decide_true.
Qed.

(** Its handler. *)
Lemma trigger_dev c d b :
  vd_core false true (mkVdSt c d) -> reg d = Ok b -> has b VDEV_BUSY = true ->
  q_scheduled (cs_q c) (vp_event_interrupt (vd_p d)) = false -> q_scheduled (cs_q c) (vp_event_init (vd_p d)) = false ->
  (forall st, is_Some (vp_energy (vd_p d) !! state_index st)) -> 0 <= vp_period (vd_p d) ->
  0 < cpu_clockPeriod (cs_cpu c) ->
  tick_at c + vd_delay_remained d + cpu_clockPeriod (cs_cpu c) < 2 ^ 53 ->
  tick_at c + vp_delay_cpu_interrupt (vd_p d) + cpu_clockPeriod (cs_cpu c) < 2 ^ 64 ->
  exists s' b', triggerInterrupt (mkVdSt c d) = Ok s' /\ vd_p (vs_dev s') = vd_p d /\
  w_step (shared c ++ [vp_event_interrupt (vd_p d)]) c (vs_cpu s') [] /\ dev_at false true (vs_cpu s') (vs_dev s') b'.
Proof.
  intros Hc Hr HB Hsi Hsn He Hpe HP R1 R2. destruct (has b VDEV_CHAOS) eqn:HC.
  - destruct (trigger_init_ok false (mkVdSt c d) b Hc Hr HB HC Hsi Hsn HP R1)
      as (s' & Hs' & Hc' & Hsy' & Hst & _ & Hwh & Hvp & _ & _).
    eexists s', _. split; [exact Hs'|]. split; [exact Hvp|]. split; [exact Hst|].
    split; try (rewrite Hvp; done); [by destruct s'|by destruct s'| |].
    + destruct (0 <? vd_delay_remained (vs_dev (mkVdSt c d))); unfold ready_byte; flags; done.
    + intros Hx. rewrite Hvp in *. cbn [vs_dev vs_cpu] in *. pose proof (vc_remained _ _ _ Hc).
      destruct (0 <? vd_delay_remained d); [specialize (Hwh eq_refl)|].
      * destruct (tick_future _ _ (vc_cpu _ _ _ Hc)) as [_ F]. unfold vs_q in Hwh. cbn [vs_cpu] in Hwh, F. lia.
      * pose proof (sy_int _ _ Hsy') as Hi'. rewrite Hvp in Hi'. revert Hi'. unfold ready_byte. flags. intros Hi'.
        discriminate (eq_trans (eq_sym Hx) Hi').
  - destruct (trigger_task_ok false (mkVdSt c d) b Hc Hr HB HC Hsi Hsn HP R2) as (s' & Hs' & Hc' & Hsy' & Hst & Hvp & _).
    eexists s', _. split; [exact Hs'|]. split; [exact Hvp|].
    split; [eapply w_step_mono; [|exact Hst]; cbn [vs_cpu]; intros r Hr'; by apply elem_of_app, or_introl|].
    split; try (rewrite Hvp; done); [by destruct s'|by destruct s'|unfold done_byte; by flags|].
    intros Hx. pose proof (sy_int _ _ Hsy') as Hi'. revert Hi'. unfold done_byte. flags. intros Hi'.
    discriminate (eq_trans (eq_sym Hx) Hi').
Qed.

Lemma dev_done_event pow w i d q' p :
  nvp_inv pow w -> nv_devs w !! i = Some d -> q_inv q' -> q_taken q_own (nv_q w) q' p ->
  p = vp_event_interrupt (vd_p d) \/ p = vp_event_init (vd_p d) ->
  0 < cpu_clockPeriod (cs_cpu (nv_cpu w)) ->
  (pow = true -> tick_at (nv_cpu w) + vd_delay_remained d + cpu_clockPeriod (cs_cpu (nv_cpu w)) < 2 ^ 53 /\
     tick_at (nv_cpu w) + vp_delay_cpu_interrupt (vd_p d) + cpu_clockPeriod (cs_cpu (nv_cpu w)) < 2 ^ 64) ->
  exists w', on_dev i (fun s => let* s := triggerInterrupt s in Ok (tt, s)) (nv_with_cpu w (with_q (nv_cpu w) q')) = Ok (tt, w') /\
  settled pow w' /\ stays (nv_with_cpu w (with_q (nv_cpu w) q')) w'.
Proof.
  intros Hp Hi Hq Ht Hev HP Hroom. destruct (pl_dev _ _ _ _ _ _ _ Hp Hi) as (b & Hat & HPb).
  destruct (taken_done _ _ _ _ _ _ _ Hp Hi Hat HPb Hq Ht Hev) as (-> & HB & HC & Hc & Hsi & Hsn).
  destruct (Hroom eq_refl) as [R1 R2]. set (w0 := nv_with_cpu w (with_q (nv_cpu w) q')).
  assert (p ∈ vp_events (vd_p d)) as Hin by (destruct Hev as [->| ->]; auto).
  destruct (dev_event_not_common _ _ _ _ (pl_names _ _ _ _ _ _ Hp) Hi Hin) as (N1 & _ & N3).
  assert (tick_at (nv_cpu w0) = tick_at (nv_cpu w)) as Htk by (apply (taken_other _ _ _ _ Ht), not_eq_sym, N3).
  assert (plat_but (Some i) false true true (fun _ _ => True) w0) as Hp0.
  { pose proof (taken_plat (Some i) true w q' p Hp Hq Ht) as Hp0.
    rewrite (bool_decide_false _ N1), (bool_decide_false _ N3) in Hp0. eapply plat_mono; [|apply Hp0]; [done|].
    intros j dj Hj Hne. assert (i <> j) as Hij by congruence.
    pose proof (dev_events_apart w i j d dj p (pl_names _ _ _ _ _ _ Hp) Hi Hj Hij Hin) as Hap.
    split; intros ->; apply Hap; auto. }
  destruct Hat as [_ [Hr _ _] _ _ He Hpe]. rewrite <- Htk in R1, R2.
  destruct (trigger_dev (nv_cpu w0) d b Hc Hr HB Hsi Hsn He Hpe HP R1 R2) as (s' & b' & Hs' & Hvp & Hst & Hat').
  destruct (nvp_dev_op false true true _ (fun _ b => true = false -> is_off b) w0 i d
    (fun s => let* s := triggerInterrupt s in Ok (tt, s)) tt s' (shared (nv_cpu w0) ++ [vp_event_interrupt (vd_p d)]) [] b' Hp0 Hi)
    as (Hon & S & Hp'); try done.
  - by rewrite Hs'.
  - intros r [Hr'|Hr']%elem_of_app; apply elem_of_app; [by left|right]. apply list_elem_of_singleton in Hr' as ->. auto.
  - apply (tick_untouched _ _ _ _ _ _ Hc). intros r Hr'. cbn in Hr' |- *. rewrite !elem_of_cons in *. tauto.
  - eexists. split; [exact Hon|]. split; [exact Hp'|]. exact (nv_step_stays _ _ _ S).
Qed.

(** ** Events of the manager and the processor *)

Lemma harvest_event pow w :
  plat false pow pow (fun _ b => pow = false -> is_off b) w ->
  q_scheduled (nv_q w) (event_energy_harvest (mg (nv_mgmt w))) = false ->
  0 <= time_unit (mg (nv_mgmt w)) -> q_now (nv_q w) + time_unit (mg (nv_mgmt w)) < 2 ^ 64 ->
  exists w', (let* st := energyHarvest (nv_mgmt w) in Ok (nv_with_mgmt w st)) = Ok w' /\ settled pow w' /\
  stays w w'.
Proof.
  intros Hp Hs Hu Hov. pose proof (pl_cpu _ _ _ _ _ _ Hp) as [Hto Ho Hm Hh Hsc Hr Hpw Hn].
  destruct (energy_harvest_data (mg (nv_mgmt w))) as [|x xs _] eqn:Hd using rev_ind.
  { unfold energyHarvest. rewrite Hd. cbn [last rbind]. exists w. destruct w as [[? ?] ?]. split; [done|]. split; [done|]. split; [done|]. split; [done|]. by intros i d _. }
  destruct (energyHarvest_ok (nv_mgmt w) x xs Hto Hd Hs Hn Hu Hov)
    as (st & l & -> & Hto' & C & _ & _ & _ & Hsh & _ & Hnow & Hown & Hoth & Hph).
  cbn [rbind]. eexists. split; [done|].
  assert (w_same [event_msg (mg (nv_mgmt w)); event_energy_harvest (mg (nv_mgmt w))]
            (nv_cpu w) (mkCpuSt st (cs_cpu (nv_cpu w)))) as Hsame.
  { split; try done; [cbn; by rewrite (sc_ev _ _ C)|]. intros r Hr0. apply Hoth; set_solver. }
  assert (cpu_inv false pow (mkCpuSt st (cs_cpu (nv_cpu w)))) as Hcpu.
  { destruct (Hoth _ Hm Hh) as [E _]. split; try done; cbn; [by apply Hown|by rewrite (sc_ev _ _ C)|by rewrite (sc_evh _ _ C)| |].
    - exact (eq_trans E Hsc).
    - unfold cs_q. cbn. by rewrite Hnow. }
  assert (nv_names (nv_with_mgmt w st) = nv_names w) as Hnames.
  { unfold nv_names, nv_mgmt. cbn. by rewrite (sc_ev _ _ C), (sc_evh _ _ C). }
  split; [|split_and!; try done; intros i d Hi Hsd;
    destruct (dev_event_not_common _ _ _ _ (pl_names _ _ _ _ _ _ Hp) Hi (in_tick (vd_p d))) as (N1 & N2 & _);
    exact (eq_trans (proj1 (Hoth _ N1 N2)) Hsd)].
  split; try done; [apply Hp|by apply Hph, Hp| |by rewrite Hnames; apply Hp|].
  - intros i d Hi _. destruct (pl_dev _ _ _ _ _ _ _ Hp Hi) as (b & Hb & HP). exists b. split; [|done].
    eapply dev_at_same; [exact Hb|exact Hsame|exact Hcpu|]. intros p Hpj.
    destruct (dev_event_not_common _ _ _ _ (pl_names _ _ _ _ _ _ Hp) Hi Hpj) as (N1 & N2 & _). set_solver.
  - intros p Hsp. rewrite Hnames. destruct (decide (p = event_energy_harvest (mg (nv_mgmt w)))) as [->|N2]; [unfold nv_names; set_solver|].
    destruct (decide (p = event_msg (mg (nv_mgmt w)))) as [->|N1]; [unfold nv_names; set_solver|].
    apply (pl_known _ _ _ _ _ _ Hp). rewrite <- Hsp. symmetry. by apply Hoth.
Qed.

(** Within a tick of the processor. *)
Definition nvp_mid (D : list VdParams) (w : Nvp Q) : Prop :=
  plat false false true (fun _ b => true = false -> is_off b) w /\ vd_p <$> nv_devs w = D /\ ticking w.

Lemma cpu_tick_event check exec R S w D :
  nvp_mid D w -> instr_ok nv_cpu check exec (cpu_p (cs_cpu (nv_cpu w))) (q_now (nv_q w)) R S (nvp_mid D) -> 0 <= S ->
  0 < cpu_clockPeriod (cs_cpu (nv_cpu w)) -> 0 < cp_width (cpu_p (cs_cpu (nv_cpu w))) ->
  q_now (nv_q w) + cp_width (cpu_p (cs_cpu (nv_cpu w))) * (S + cpu_clockPeriod (cs_cpu (nv_cpu w))) < 2 ^ 64 ->
  exists w', tick nv_cpu nv_with_cpu check exec (Z.to_nat (cp_width (cpu_p (cs_cpu (nv_cpu w))))) w = Ok w' /\
  settled true w' /\ stays w w'.
Proof.
  intros (Hp & HD & Htk) HI HS HP Hwd Hov. pose proof (pl_mode _ _ _ _ _ _ Hp) as Hm. injection Hm as M1 M2 M3.
  assert (tick_ok nv_cpu (cpu_p (cs_cpu (nv_cpu w))) (q_now (nv_q w)) w) as Hok by (split; try done; apply Hp).
  destruct (tick_total nv_cpu nv_with_cpu check exec _ _ R S (nvp_mid D) w ltac:(done) HI Hok (conj Hp (conj HD Htk)) HP HS Hwd Hov)
    as (w1 & s' & l & k & -> & H1 & (Hp1 & HD1 & Htk1) & Hi & Hst & _).
  destruct (nvp_cpu_op _ _ false true _ _ _ _ _ Hp1 Hst Hi) as [S1 Hp2].
  eexists. split; [done|]. split; [exact Hp2|].
  destruct (nv_step_stays _ _ _ S1) as (A & B & C). split_and!; [exact (eq_trans A (tk_now _ _ _ _ H1))| |].
  - rewrite B. unfold nv_p. by rewrite (tk_p _ _ _ _ H1), HD, HD1.
  - apply (keeps_ticks_trans w w1); [exact (eq_trans HD1 (eq_sym HD))| |exact C]. intros i d Hi' _.
    destruct (params_back w1 w i d (eq_trans HD (eq_sym HD1)) Hi') as (d1 & Hd1 & ->). exact (Htk1 i d1 Hd1).
Qed.

(** ** A round *)

(** No event is so late that a delay added to its tick reaches [2 ^ 53], from
    where ticks are no longer exact as doubles, or overflows; [S] bounds the
    stalls of an instruction. *)
Record room (S : Z) (w : Nvp Q) : Prop := {
  rm_stall : 0 <= S;
  rm_period : 0 < cpu_clockPeriod (cs_cpu (nv_cpu w));
  rm_width : 0 < cp_width (cpu_p (cs_cpu (nv_cpu w)));
  rm_unit : 0 <= time_unit (mg (nv_mgmt w));
  rm_restore : 0 <= restore_ticks (cs_cpu (nv_cpu w));
  rm_on p : q_scheduled (nv_q w) p = true ->
    q_when (nv_q w) p + restore_ticks (cs_cpu (nv_cpu w)) + set_total (nv_devs w) < 2 ^ 53;
  rm_tick p : q_scheduled (nv_q w) p = true ->
    q_when (nv_q w) p + cp_width (cpu_p (cs_cpu (nv_cpu w))) * (S + cpu_clockPeriod (cs_cpu (nv_cpu w))) < 2 ^ 64;
  rm_harvest p : q_scheduled (nv_q w) p = true -> q_when (nv_q w) p + time_unit (mg (nv_mgmt w)) < 2 ^ 64;
  rm_dev p d : q_scheduled (nv_q w) p = true -> d ∈ nv_devs w ->
    q_when (nv_q w) p + vp_period (vd_p d) < 2 ^ 64 /\
    q_when (nv_q w) p + vd_delay_remained d + cpu_clockPeriod (cs_cpu (nv_cpu w)) < 2 ^ 53 /\
    q_when (nv_q w) p + vp_delay_cpu_interrupt (vd_p d) + cpu_clockPeriod (cs_cpu (nv_cpu w)) < 2 ^ 64;
}.

(** The same as a monitor that can be run along a simulation. *)
Definition room_event (S : Z) (w : Nvp Q) (p : ptr) : bool :=
  let t := q_when (nv_q w) p in
  let c := cs_cpu (nv_cpu w) in
  negb (q_scheduled (nv_q w) p) ||
  ((t + restore_ticks c + set_total (nv_devs w) <? 2 ^ 53) &&
   (t + cp_width (cpu_p c) * (S + cpu_clockPeriod c) <? 2 ^ 64) &&
   (t + time_unit (mg (nv_mgmt w)) <? 2 ^ 64) &&
   forallb (fun d => (t + vp_period (vd_p d) <? 2 ^ 64) &&
                     (t + vd_delay_remained d + cpu_clockPeriod c <? 2 ^ 53) &&
                     (t + vp_delay_cpu_interrupt (vd_p d) + cpu_clockPeriod c <? 2 ^ 64)) (nv_devs w)).

Definition has_room (S : Z) (w : Nvp Q) : bool :=
  let c := cs_cpu (nv_cpu w) in
  (0 <=? S) && (0 <? cpu_clockPeriod c) && (0 <? cp_width (cpu_p c)) && (0 <=? time_unit (mg (nv_mgmt w))) &&
  (0 <=? restore_ticks c) && forallb (room_event S w) (nv_names w).

Lemma has_room_spec S w :
  (forall p, q_scheduled (nv_q w) p = true -> p ∈ nv_names w) -> has_room S w = true -> room S w.
Proof.
  intros Hk Hr. unfold has_room in Hr. rewrite !andb_true_iff, forallb_forall in Hr.
  destruct Hr as (((((H1 & H2) & H3) & H4) & H5) & Hev).
  assert (forall p, q_scheduled (nv_q w) p = true -> room_event S w p = true) as Hall.
  { intros p Hp. by apply Hev, list_elem_of_In, Hk. }
  split; try lia; intros p; [| | |intros d];
    intros Hp; specialize (Hall p Hp); unfold room_event in Hall; rewrite Hp in Hall; cbn [negb orb] in Hall;
    rewrite !andb_true_iff, forallb_forall in Hall; destruct Hall as (((A & B) & C) & D); try lia.
  intros Hd%list_elem_of_In. specialize (D d Hd). lia.
Qed.

(** The instructions of the processor keep the platform as a tick expects it. *)
Definition program_ok (check : Nvp Q -> result (Nvp Q)) exec (R S : Z) (P : CpuParams * list VdParams) : Prop :=
  forall now, 0 <= now < 2 ^ 53 -> instr_ok nv_cpu check exec P.1 now R S (nvp_mid P.2).

(** The event of a device. *)
Lemma dev_event pow w i d q' p S :
  nvp_inv pow w -> room S w -> q_inv q' -> q_taken q_own (nv_q w) q' p ->
  nv_devs w !! i = Some d -> p ∈ vp_events (vd_p d) ->
  let handler s :=
    let* s := if bool_decide (p = vp_tickEvent (vd_p d)) then vdev_tick s else triggerInterrupt s in Ok (tt, s) in
  exists w', on_dev i handler (nv_with_cpu w (with_q (nv_cpu w) q')) = Ok (tt, w') /\ settled pow w' /\
  stays (nv_with_cpu w (with_q (nv_cpu w) q')) w' /\
  (p = vp_tickEvent (vd_p d) -> q_scheduled (nv_q w') p = true).
Proof.
  intros Hp Hroom Hq Ht Hi Hin handler. pose proof (taken_was _ _ _ _ Ht) as Hwas.
  pose proof (list_elem_of_lookup_2 _ _ _ Hi) as Hd.
  destruct (rm_dev _ _ Hroom p d Hwas Hd) as (R1 & R2 & R3).
  destruct (pl_dev _ _ _ _ _ _ _ Hp Hi) as (b & Hat & _). destruct (vd_distinct _ _ _ (da_core _ _ _ _ _ Hat)) as (_ & D1 & D2).
  cbn [vs_dev] in D1, D2. destruct (dev_event_not_common _ _ _ _ (pl_names _ _ _ _ _ _ Hp) Hi Hin) as (N1 & _ & N3).
  unfold handler. case_bool_decide as E.
  - pose proof (taken_plat None pow w q' p Hp Hq Ht) as Hp0.
    rewrite (bool_decide_false _ N1), (bool_decide_false _ N3) in Hp0.
    destruct (dev_tick_event pow (nv_with_cpu w (with_q (nv_cpu w) q')) i d) as (w' & Hon & Hs & Hst & Htk);
      [apply Hp0|done| | |exists w'; split_and!; try done; intros _; by rewrite E].
    + intros j dj Hj _. destruct (decide (i = j)) as [<-|Hij]; [rewrite Hi in Hj; injection Hj as <-; by rewrite E|].
      pose proof (dev_events_apart w i j d dj p (pl_names _ _ _ _ _ _ Hp) Hi Hj Hij Hin) as Hap.
      split; intros Eq; apply Hap; rewrite Eq; auto.
    + rewrite <- E. apply (taken_this _ _ _ _ Ht).
    + change (nv_q (nv_with_cpu w (with_q (nv_cpu w) q'))) with q'. by rewrite (taken_now _ _ _ _ Ht).
  - assert (p = vp_event_interrupt (vd_p d) \/ p = vp_event_init (vd_p d)) as Hev.
    { unfold vp_events in Hin. rewrite !elem_of_cons, elem_of_nil in Hin. tauto. }
    destruct (dev_done_event pow w i d q' p Hp Hi Hq Ht Hev (rm_period _ _ Hroom)) as (w' & Hon & Hs & Hst); [|by exists w'].
    intros ->.
    destruct (rm_dev _ _ Hroom _ d (ci_sched _ _ _ (pl_cpu _ _ _ _ _ _ Hp)) Hd) as (_ & T2 & T3). done.
Qed.
Lemma name_own pow w r : nvp_inv pow w -> r ∈ nv_names w -> q_own (nv_q w) r.
Proof.
  intros Hp Hr. pose proof (pl_cpu _ _ _ _ _ _ Hp) as Hc. unfold nv_names in Hr. rewrite !elem_of_cons in Hr.
  destruct Hr as [->|[->|[->|Hr]]]; [apply (ti_own _ _ (ci_togo _ _ _ Hc))|apply (ti_ownh _ _ (ci_togo _ _ _ Hc))|apply (ci_own _ _ _ Hc)|].
  unfold dev_names in Hr. apply list_elem_of_In, in_concat in Hr as (l & Hl%list_elem_of_In & Hr%list_elem_of_In).
  apply list_elem_of_fmap in Hl as (d & -> & (i & Hi)%list_elem_of_lookup).
  destruct (pl_dev _ _ _ _ _ _ _ Hp Hi) as (b & Hb & _). by apply (vc_own _ _ _ (da_core _ _ _ _ _ Hb)).
Qed.

Lemma dev_found w (p : ptr) :
  p ∈ dev_names w -> exists i d, list_find (fun d => p ∈ vp_events (vd_p d)) (nv_devs w) = Some (i, d) /\
  nv_devs w !! i = Some d /\ p ∈ vp_events (vd_p d).
Proof.
  intros Hp. unfold dev_names in Hp. apply list_elem_of_In, in_concat in Hp as (l & Hl%list_elem_of_In & Hp%list_elem_of_In).
  apply list_elem_of_fmap in Hl as (d0 & -> & Hd0).
  destruct (list_find (fun d => p ∈ vp_events (vd_p d)) (nv_devs w)) as [[i d]|] eqn:Hf.
  - exists i, d. apply list_find_Some in Hf as (A & B & _). done.
  - apply list_find_None in Hf. rewrite Forall_forall in Hf. by destruct (Hf d0 Hd0).
Qed.

(** Taking an event out and handling it leaves every device ticking. *)
Lemma ticks_after w q' p w' :
  ticking w -> q_taken q_own (nv_q w) q' p -> stays (nv_with_cpu w (with_q (nv_cpu w) q')) w' ->
  (forall d, d ∈ nv_devs w -> p = vp_tickEvent (vd_p d) -> q_scheduled (nv_q w') p = true) -> ticking w'.
Proof.
  intros Htk Ht (_ & HP & Hk) Hp i d' Hi. injection HP as _ HD.
  destruct (params_back (nv_with_cpu w (with_q (nv_cpu w) q')) w' i d' HD Hi) as (d & Hd & ->). cbn in Hd.
  destruct (decide (vp_tickEvent (vd_p d) = p)) as [E|Hne].
  - rewrite E. exact (Hp d (list_elem_of_lookup_2 _ _ _ Hd) (eq_sym E)).
  - apply (Hk i d Hd). exact (eq_trans (proj1 (taken_other _ _ _ _ Ht _ Hne)) (Htk i d Hd)).
Qed.

(** An event of the platform's own is not a tick of a device. *)
Lemma common_no_tick w p d (P : Prop) :
  NoDup (nv_names w) -> p = event_msg (mg (nv_mgmt w)) \/ p = event_energy_harvest (mg (nv_mgmt w)) \/
    p = cp_tickEvent (cpu_p (cs_cpu (nv_cpu w))) -> d ∈ nv_devs w -> p = vp_tickEvent (vd_p d) -> P.
Proof.
  intros Hnd Hc (i & Hi)%list_elem_of_lookup E.
  destruct (dev_event_not_common _ _ _ _ Hnd Hi (in_tick (vd_p d))) as (N1 & N2 & N3). rewrite <- E in *. tauto.
Qed.

(** The event the queue hands over is handled. *)
Lemma dispatch_ok check exec R S pow w p q' :
  nvp_inv pow w -> room S w -> program_ok check exec R S (nv_p w) -> q_inv q' -> q_taken q_own (nv_q w) q' p ->
  exists w', dispatch check exec p (nv_with_cpu w (with_q (nv_cpu w) q')) = Ok w' /\
  nvp_inv (if bool_decide (p = event_msg (mg (nv_mgmt w))) then negb pow else pow) w' /\
  stays (nv_with_cpu w (with_q (nv_cpu w) q')) w'.
Proof.
  intros Hp Hroom Hprog Hq Ht. pose proof (taken_was _ _ _ _ Ht) as Hwas. pose proof (taken_now _ _ _ _ Ht) as Hnow.
  pose proof (pl_known _ _ _ _ _ _ Hp p Hwas) as Hin. unfold nv_names in Hin. rewrite !elem_of_cons in Hin.
  pose proof (pl_names _ _ _ _ _ _ Hp) as Hnd. set (w0 := nv_with_cpu w (with_q (nv_cpu w) q')).
  destruct (decide (p ∈ dev_names w)) as [Hdev|Hdev].
  { destruct (dev_found w p Hdev) as (i & d & Hf & Hi & Hpd).
    destruct (dev_event_not_common _ _ _ _ Hnd Hi Hpd) as (N1 & N2 & N3).
    destruct (dev_event _ _ _ _ _ _ _ Hp Hroom Hq Ht Hi Hpd) as (w' & Hon & Hinv & Hst & Htk). exists w'.
    assert (ticking w') as Htk'.
    { apply (ticks_after w q' p w' (ni_ticks _ _ Hp) Ht Hst). intros d0 (j & Hj)%list_elem_of_lookup E. apply Htk.
      destruct (decide (i = j)) as [<-|Hij]; [rewrite Hi in Hj; by injection Hj as <-|].
      destruct (dev_events_apart w i j d d0 p Hnd Hi Hj Hij Hpd). rewrite E. auto. }
    unfold dispatch. subst w0. cbn [nv_mgmt cs_st nv_cpu nv_with_cpu with_q cs_cpu nv_devs mg].
    rewrite !bool_decide_false by done. rewrite Hf. cbn beta iota in Hon |- *. rewrite Hon. by split_and!. }
  assert (p = event_msg (mg (nv_mgmt w)) \/ p = event_energy_harvest (mg (nv_mgmt w)) \/
          p = cp_tickEvent (cpu_p (cs_cpu (nv_cpu w)))) as Hc by tauto. clear Hin.
  pose proof (taken_plat None pow w q' p Hp Hq Ht) as Hp0.
  assert (forall i d, nv_devs w !! i = Some d -> None <> Some i -> p <> vp_event_interrupt (vd_p d) /\ p <> vp_event_init (vd_p d)) as Hno.
  { intros i d Hi _. split; intros E; pose proof (dev_event_not_common w i d p Hnd Hi) as Hx; rewrite E in Hx;
      destruct (Hx ltac:(auto)) as (? & ? & ?); rewrite E in Hc; tauto. }
  specialize (Hp0 Hno). fold w0 in Hp0.
  assert (forall d, d ∈ nv_devs w -> forall P : Prop, p = vp_tickEvent (vd_p d) -> P) as Hnt.
  { intros d Hd P. exact (common_no_tick w p d P Hnd Hc Hd). }
  enough (exists w', dispatch check exec p w0 = Ok w' /\
    settled (if bool_decide (p = event_msg (mg (nv_mgmt w))) then negb pow else pow) w' /\ stays w0 w') as (w' & A & B & C).
  { exists w'. split_and!; try done. split; [exact B|].
    apply (ticks_after w q' p w' (ni_ticks _ _ Hp) Ht C). intros d Hd. by apply Hnt. }
  pose proof (pl_cpu _ _ _ _ _ _ Hp) as [Hto _ Hm Hh Hsc _ _ Hn0].
  pose proof (ti_ne _ _ Hto) as Hne. change (cs_st (nv_cpu w)) with (nv_mgmt w) in *. unfold dispatch. change (mg (nv_mgmt w0)) with (mg (nv_mgmt w)).
  change (cs_cpu (nv_cpu w0)) with (cs_cpu (nv_cpu w)). destruct Hc as [->|[->|E]].
  - rewrite bool_decide_true in * by done. rewrite bool_decide_false in Hp0 by (by apply not_eq_sym).
    apply nvp_broadcast_ok; [exact Hp0|]. intros ->. split; [apply (rm_restore _ _ Hroom)|].
    pose proof (rm_on _ _ Hroom _ Hwas). change (nv_q w0) with q'. change (cs_cpu (nv_cpu w0)) with (cs_cpu (nv_cpu w)).
    change (nv_devs w0) with (nv_devs w). rewrite Hnow. lia.
  - rewrite (bool_decide_false _ Hne) in Hp0 |- *. rewrite bool_decide_true by done. rewrite bool_decide_false in Hp0 by (by apply not_eq_sym).
    apply harvest_event; [exact Hp0|apply (taken_this _ _ _ _ Ht)|apply (rm_unit _ _ Hroom)|].
    change (nv_q w0) with q'. rewrite Hnow. by apply (rm_harvest _ _ Hroom).
  - rewrite bool_decide_false in * by (rewrite E; done). rewrite bool_decide_false by (rewrite E; done).
    rewrite bool_decide_true in * by done. assert (pow = true) as -> by (rewrite <- Hsc, <- Hwas, E; done).
    apply (cpu_tick_event check exec R S w0 (vd_p <$> nv_devs w)).
    + split_and!; [exact Hp0|done|]. intros i d Hi. cbn in Hi.
      rewrite <- (ni_ticks _ _ Hp i d Hi). apply (taken_other _ _ _ _ Ht). intros E'.
      apply (Hnt d (list_elem_of_lookup_2 _ _ _ Hi)). by rewrite E'.
    + apply Hprog. change (nv_q w0) with q'. rewrite Hnow. pose proof (rm_on _ _ Hroom _ Hwas).
      pose proof (rm_restore _ _ Hroom). pose proof (set_total_nonneg _ _ _ _ _ 0 Hp) as Hnn. rewrite drop_0 in Hnn.
      pose proof (taken_le _ _ _ _ Ht). unfold nv_q in *. lia.
    + apply (rm_stall _ _ Hroom).
    + apply (rm_period _ _ Hroom).
    + apply (rm_width _ _ Hroom).
    + change (nv_q w0) with q'. rewrite Hnow. by apply (rm_tick _ _ Hroom).
Qed.
(** ** Runs *)

Section Runs.
Context (check : Nvp Q -> result (Nvp Q)) (exec : Nvp Q -> result (exec_out * Nvp Q)).

Fixpoint nvp_run (n : nat) (w : Nvp Q) : result (Nvp Q) :=
  match n with O => Ok w | S n => let* w := nvp_round check exec w in nvp_run n w end.

(** Every state of the run has room. *)
Fixpoint run_room (S : Z) (n : nat) (w : Nvp Q) : bool :=
  match n with
  | O => true
  | Datatypes.S n =>
      has_room S w && match nvp_round check exec w with Ok w' => run_room S n w' | Err _ => true end
  end.

(** A device always has a tick to come, so a platform with a device never runs
    out of events. *)
Lemma next_event pow w :
  nvp_inv pow w -> nv_devs w <> [] -> exists r, r ∈ nv_names w /\ q_scheduled (nv_q w) r = true.
Proof.
  intros Hp Hne. destruct (nv_devs w) as [|d ds] eqn:Hd; [done|].
  assert (nv_devs w !! 0%nat = Some d) as Hd0 by (by rewrite Hd). exists (vp_tickEvent (vd_p d)).
  split; [by eapply dev_event_name|exact (ni_ticks _ _ Hp _ _ Hd0)].
Qed.

Lemma nvp_round_ok R S pow w r :
  nvp_inv pow w -> has_room S w = true -> program_ok check exec R S (nv_p w) ->
  r ∈ nv_names w -> q_scheduled (nv_q w) r = true ->
  exists p q' w', q_pop (nv_q w) = Ok (p, q') /\ nvp_round check exec w = Ok w' /\
  nvp_inv (if bool_decide (p = event_msg (mg (nv_mgmt w))) then negb pow else pow) w' /\
  q_now (nv_q w) <= q_now (nv_q w') /\ q_now (nv_q w') = q_when (nv_q w) p /\ nv_p w' = nv_p w.
Proof.
  intros Hp Hr Hprog Hin Hs. pose proof (has_room_spec _ _ (pl_known _ _ _ _ _ _ Hp) Hr) as Hroom.
  destruct (q_pop_ok _ r (ti_inv _ _ (ci_togo _ _ _ (pl_cpu _ _ _ _ _ _ Hp))) (name_own _ _ _ Hp Hin) Hs) as (p & q' & Hpop & Hq & Ht).
  destruct (dispatch_ok check exec R S pow w p q' Hp Hroom Hprog Hq Ht) as (w' & Hd & Hinv & Hnow & HP & _).
  exists p, q', w'. unfold nvp_round. change (mg_q (cs_st (nv_cpu w))) with (nv_q w) in Hpop. rewrite Hpop. cbn [rbind].
  change (nv_q (nv_with_cpu w (with_q (nv_cpu w) q'))) with q' in Hnow. rewrite (taken_now _ _ _ _ Ht) in Hnow.
  split_and!; try done. rewrite Hnow. apply (taken_le _ _ _ _ Ht).
Qed.

Lemma nvp_run_ok R S n pow w :
  nvp_inv pow w -> nv_devs w <> [] -> run_room S n w = true -> program_ok check exec R S (nv_p w) ->
  exists w' pow', nvp_run n w = Ok w' /\ nvp_inv pow' w' /\ q_now (nv_q w) <= q_now (nv_q w').
Proof.
  revert pow w. induction n as [|n IH]; intros pow w Hp Hne Hr Hprog; [exists w, pow; split_and!; done|].
  cbn [run_room nvp_run] in *. apply andb_true_iff in Hr as [Hr Hrest].
  destruct (next_event pow w Hp Hne) as (r & Hin & Hs).
  destruct (nvp_round_ok R S pow w r Hp Hr Hprog Hin Hs) as (p & q' & w1 & _ & H1 & Hinv & Hle & _ & HP).
  rewrite H1 in *. cbn [rbind]. rewrite <- HP in Hprog.
  assert (nv_devs w1 <> []) as Hne1.
  { intros E. injection HP as _ HD. rewrite E in HD. by destruct (nv_devs w). }
  destruct (IH _ _ Hinv Hne1 Hrest Hprog) as (w' & pow' & Hw' & Hp' & Hle').
  exists w', pow'. split_and!; try done. lia.
Qed.
End Runs.

(** ** Programs that command a device *)

(** Not sent to a device that has lost its state, or to one that was never
    initialised. *)
Definition sensible (b cmd : Z) : bool :=
  if has cmd VDEV_INIT then has b VDEV_BUSY || (has b VDEV_CHAOS && negb (has b VDEV_READY))
  else negb (has cmd VDEV_ACTIVATE) || has b VDEV_BUSY || has b VDEV_CHAOS || has b VDEV_READY.

Lemma dev_command c d b cmd :
  dev_at false false c d b -> sensible b cmd = true -> q_now (cs_q c) < 2 ^ 53 ->
  vp_delay_set (vd_p d) < 2 ^ 63 -> vp_delay_self (vd_p d) < 2 ^ 63 ->
  exists s' b', command (mkVdSt c d) cmd = Ok s' /\ vd_p (vs_dev s') = vd_p d /\
  w_step [vp_event_interrupt (vd_p d); vp_event_init (vd_p d)] c (vs_cpu s') [] /\
  dev_at false false (vs_cpu s') (vs_dev s') b'.
Proof.
  intros [Hc Hsy Hch Hwh He Hpe] Hsen Hn Hd1 Hd2. pose proof (sy_reg _ _ Hsy) as Hr.
  assert (has b VDEV_BUSY || (negb (has cmd VDEV_INIT) && (negb (has cmd VDEV_ACTIVATE) || has b VDEV_CHAOS)) = true \/
    (has cmd VDEV_INIT = true /\ has b VDEV_BUSY = false /\ has b VDEV_CHAOS = true /\ has b VDEV_READY = false) \/
    (has cmd VDEV_INIT = false /\ has cmd VDEV_ACTIVATE = true /\ has b VDEV_BUSY = false /\
     has b VDEV_CHAOS = false /\ has b VDEV_READY = true)) as [Hign|[(A1 & A2 & A3 & A4)|(A1 & A2 & A3 & A4 & A5)]].
  { unfold sensible in Hsen. destruct (has cmd VDEV_INIT), (has cmd VDEV_ACTIVATE), (has b VDEV_BUSY), (has b VDEV_CHAOS), (has b VDEV_READY); cbn in *; tauto. }
  - exists (mkVdSt c d), b. rewrite (command_ignored _ _ _ Hr Hign). split_and!; try done. apply w_step_refl.
  - destruct (command_init_ok _ _ _ _ cmd Hc Hsy A1 A2) as (s' & Hs' & Hc' & Hr' & Hi' & Hn' & Hw & _ & Hvp & _ & _).
    { unfold vs_q. cbn [vs_cpu vs_dev]. lia. }
    exists s', (busy_byte b). cbn [vs_dev vs_cpu] in *. split_and!; try done; [eapply w_step_mono; [|exact Hw]; set_solver|].
    destruct s' as [c' d']. cbn [vs_dev vs_cpu] in *. split; rewrite ?Hvp; try done.
    + split; cbn [vs_dev vs_cpu]; [done|..]; rewrite Hvp; unfold busy_byte; flags; rewrite A4; [exact Hi'|exact Hn'].
    + unfold busy_byte; flags. by rewrite A3, A4.
    + intros Hx. discriminate (eq_trans (eq_sym Hx) Hi').
  - destruct (command_activate_ok _ _ _ _ cmd Hc Hsy A1 A2 A4 A5 A3) as (s' & Hs' & Hc' & Hsy' & Hw & _ & Hvp & _ & Hwh').
    { unfold vs_q. cbn [vs_cpu vs_dev]. lia. }
    exists s', (busy_byte b). cbn [vs_dev vs_cpu] in *. split_and!; try done; [eapply w_step_mono; [|exact Hw]; set_solver|].
    destruct s' as [c' d']. cbn [vs_dev vs_cpu] in *. split; rewrite ?Hvp; try done.
    + unfold busy_byte; flags. by rewrite A4, A5.
    + intros _. unfold vs_q in Hwh'. cbn [vs_cpu] in Hwh'. rewrite Hwh'. lia.
Qed.
(** A store of [cmd] to the command byte of device [i]. *)
Definition store_cmd (i : nat) (cmd : Z) (w : Nvp Q) : result (unit * Nvp Q) :=
  on_dev i (fun s =>
    let* '(_, (s, _)) := recvAtomic s (mkVdPacket false true (ar_start (vp_range (vd_p (vs_dev s)))) [cmd]) in Ok (tt, s)) w.

Lemma store_cmd_ok D w i d b cmd :
  nvp_mid D w -> nv_devs w !! i = Some d -> reg d = Ok b -> sensible b cmd = true -> q_now (nv_q w) < 2 ^ 53 ->
  vp_delay_set (vd_p d) < 2 ^ 63 -> vp_delay_self (vd_p d) < 2 ^ 63 ->
  exists w', store_cmd i cmd w = Ok (tt, w') /\ nvp_mid D w' /\ stays w w'.
Proof.
  intros (Hp & HD & Htk) Hi Hr Hsen Hn Hd1 Hd2. destruct (pl_dev _ _ _ _ _ _ _ Hp Hi) as (b0 & Hat & _).
  pose proof (sy_reg _ _ (da_sync _ _ _ _ _ Hat)) as Hr0. cbn [vs_dev] in Hr0. rewrite Hr in Hr0. injection Hr0 as <-.
  destruct (dev_command _ _ _ cmd Hat Hsen Hn Hd1 Hd2) as (s' & b' & Hs' & Hvp & Hw & Hat').
  destruct (nvp_dev_op false false true _ (fun _ b => true = false -> is_off b) w i d
    (fun s => let* '(_, (s, _)) := recvAtomic s (mkVdPacket false true (ar_start (vp_range (vd_p (vs_dev s)))) [cmd]) in Ok (tt, s))
    tt s' [vp_event_interrupt (vd_p d); vp_event_init (vd_p d)] [] b' (plat_weaken _ _ _ _ _ _ Hp) Hi) as (Hon & S & Hp'); try done.
  - unfold recvAtomic, vdev_access. cbn [pkt_isRead pkt_isWrite pkt_addr pkt_data vs_dev]. rewrite Z.sub_diag.
    cbn [Z.eqb lookup list_lookup deref rbind u64 wrap]. unfold u64, wrap. cbn [Z.modulo Z.div_eucl Z.eqb]. rewrite Hs'. done.
  - intros r Hr'. apply elem_of_app. right. unfold vp_events. set_solver.
  - apply (tick_untouched _ _ _ _ _ _ (da_core _ _ _ _ _ Hat)). intros r Hr'. by apply elem_of_app, or_intror.
  - eexists. split; [exact Hon|]. pose proof (nv_step_stays _ _ _ S) as Hst. split; [|exact Hst].
    split_and!; [exact Hp'|rewrite <- HD; exact (ns_devs _ _ _ S)|].
    exact (ticking_kept _ _ (ns_devs _ _ _ S) (ns_ticks _ _ _ S) Htk).
Qed.

Lemma mid_tick D w p now : nvp_mid D w -> cpu_p (cs_cpu (nv_cpu w)) = p -> q_now (nv_q w) = now -> tick_ok nv_cpu p now w.
Proof. intros (Hp & _) HP Hn. pose proof (pl_mode _ _ _ _ _ _ Hp) as Hm. injection Hm as M1 M2 M3. split; try done. apply Hp. Qed.

(** A driver that initialises device [i] whenever it has lost its state and
    gives it a task whenever it is ready. *)
Definition no_stall : exec_out := mkOut false false 0 false 0.
Definition driver_cmd (b : Z) : Z :=
  if has b VDEV_CHAOS && negb (has b VDEV_READY) then VDEV_INIT else if has b VDEV_READY then VDEV_ACTIVATE else 0.
Definition driver (i : nat) (w : Nvp Q) : result (exec_out * Nvp Q) :=
  let* d := deref (nv_devs w !! i) in
  let* b := reg d in
  let* '(_, w) := store_cmd i (driver_cmd b) w in Ok (no_stall, w).

Lemma driver_sensible b : sensible b (driver_cmd b) = true.
Proof.
  unfold driver_cmd, sensible. destruct (has b VDEV_CHAOS) eqn:HC, (has b VDEV_READY) eqn:HR; cbn [andb negb];
    vm_compute has; rewrite ?orb_true_r; done.
Qed.

Lemma driver_ok i P :
  (exists dp, P.2 !! i = Some dp) -> Forall (fun dp => vp_delay_set dp < 2 ^ 63 /\ vp_delay_self dp < 2 ^ 63) P.2 ->
  program_ok (fun w => Ok w) (driver i) 0 0 P.
Proof.
  intros [dp Hdp] Hall now Hnow w Hw Hmid. pose proof Hmid as (Hp & HD & _).
  rewrite <- HD, list_lookup_fmap in Hdp. destruct (nv_devs w !! i) as [d|] eqn:Hi; [injection Hdp as <-|discriminate].
  destruct (pl_dev _ _ _ _ _ _ _ Hp Hi) as (b & Hat & _). pose proof (sy_reg _ _ (da_sync _ _ _ _ _ Hat)) as Hr. cbn [vs_dev] in Hr.
  destruct (Forall_lookup_1 _ _ i (vd_p d) Hall) as [Hd1 Hd2]; [by rewrite <- HD, list_lookup_fmap, Hi|].
  pose proof (tk_now _ _ _ _ Hw) as Hn.
  destruct (store_cmd_ok _ w i d b (driver_cmd b) Hmid Hi Hr (driver_sensible b)) as (w' & Hs & Hmid' & Hst1 & Hst2 & _); try done.
  { unfold nv_q. rewrite Hn. lia. }
  exists w, no_stall, w'. unfold driver. rewrite Hi. cbn [deref rbind]. rewrite Hr. cbn [rbind]. rewrite Hs.
  split_and!; try done.
  - eapply mid_tick; [done| |exact (eq_trans Hst1 Hn)]. injection Hst2 as E _. exact (eq_trans E (tk_p _ _ _ _ Hw)).
  - unfold stall_ticks, no_stall. cbn. by rewrite !andb_false_r.
  - unfold stall_ticks, no_stall. cbn. by rewrite !andb_false_r.
Qed.
End NvpCorrect.

(** ** A platform to run *)

(** One processor and one device, without power, and a supply that fails and
    comes back. *)
Definition nvp_samples : list double := map of_Z ([30] ++ repeat 1 18 ++ [40; 1; 1]).
Definition nvp_cpu0 : CpuSt EventQueue :=
  mkCpuSt (mkSt (set_data (demo_mgmt demo_simple dzero) (readEnergyProfile nvp_samples)) false
             (mkEventQueue vdev_heap None 0 [] 0 false 0))
    (snd (registerVDev demo_cpu 0)).
Definition nvp_off : Nvp EventQueue := mkNvp nvp_cpu0 [demo_dev 8].
(** The first sample is in, and the device has started to tick. *)
Definition nvp_fed : Nvp EventQueue :=
  match energyHarvest (nv_mgmt nvp_off) with Ok st => nv_with_mgmt nvp_off st | Err _ => nvp_off end.
Definition nvp_boot : Nvp EventQueue :=
  match on_dev 0 (fun s => let* s := vdev_tick s in Ok (tt, s)) nvp_fed with Ok (_, w) => w | Err _ => nvp_fed end.

Lemma nvp_cpu0_inv : cpu_inv false false nvp_cpu0.
Proof.
  assert (em_inv (cs_q nvp_cpu0)) as Hq.
  { split; [done|]. split; [done|]. exists []. apply wf_empty; [done|done|].
    apply (bool_decide_unpack _). vm_compute. exact I. }
  split; try done; [|eexists; by split|by eexists]. split; try done; eexists; by split.
Qed.

Lemma nvp_dev0_at : dev_at false false nvp_cpu0 (demo_dev 8) 8.
Proof.
  split; [| |vm_compute; discriminate|vm_compute; discriminate| |vm_compute; discriminate].
  - split; [apply nvp_cpu0_inv| | | | |vm_compute; apply le_n|vm_compute; discriminate..].
    + intros p Hp. unfold vd_events in Hp. rewrite !elem_of_cons, elem_of_nil in Hp.
      destruct Hp as [->|[->|[->|[]]]]; eexists; (split; [vm_compute; reflexivity|split; done]).
    + apply (bool_decide_unpack _). vm_compute. exact I.
    + intros p Hp. apply (bool_decide_unpack _). unfold vd_events in Hp. rewrite !elem_of_cons, elem_of_nil in Hp.
      destruct Hp as [->|[->|[->|[]]]]; vm_compute; exact I.
    + by exists 8.
  - split; vm_compute; reflexivity.
  - intros []; by eexists.
Qed.

Lemma nvp_off_settled : settled false nvp_off.
Proof.
  split; [apply nvp_cpu0_inv|done|eexists; split_and!; done| | |].
  - intros [|i] d Hi _; [|done]. injection Hi as <-. exists 8. split; [apply nvp_dev0_at|]. intros _. by vm_compute.
  - apply (bool_decide_unpack _). vm_compute. exact I.
  - intros p. unfold nv_q. cbn. unfold em_scheduled. cbn [eq_heap nv_cpu nvp_off nvp_cpu0 cs_q cs_st mg_q].
    destruct (vdev_heap !! p) as [e|] eqn:He; [|done]. intros Hs.
    assert (map_Forall (fun _ e => scheduled e = false) vdev_heap) as Hall by (apply (bool_decide_unpack _); vm_compute; exact I).
    rewrite (Hall p e He) in Hs. done.
Qed.

Lemma nvp_boot_inv : nvp_inv false nvp_boot.
Proof.
  destruct (harvest_event false nvp_off nvp_off_settled) as (w1 & H1 & Hi1 & _); [vm_compute; reflexivity|vm_compute; discriminate|vm_compute; reflexivity|].
  assert (nvp_fed = w1) as <-.
  { unfold nvp_fed. destruct (energyHarvest (nv_mgmt nvp_off)); [cbn [rbind] in H1; congruence|discriminate]. }
  destruct (dev_tick_event false nvp_fed 0 (demo_dev 8) Hi1) as (w2 & H2 & Hi2 & (_ & HP & _) & Htk); [vm_compute; reflexivity..|].
  unfold nvp_boot. rewrite H2. split; [exact Hi2|]. intros i d Hi. destruct (params_back _ _ _ _ (f_equal snd HP) Hi)
    as (d0 & Hd0 & ->). destruct i as [|i]; [|vm_compute in Hd0; discriminate].
  vm_compute in Hd0. injection Hd0 as <-. exact Htk.
Qed.

Lemma nvp_driver_ok : program_ok (fun w => Ok w) (driver 0) 0 0 (nv_p nvp_boot).
Proof.
  apply driver_ok; [eexists; vm_compute; reflexivity|]. apply (bool_decide_unpack _). vm_compute. exact I.
Qed.

(** A device bound before the processor: the return of power reaches it while
    the tick of the processor is not scheduled, and moving that tick fails an
    assertion. *)
Definition nvp_waiting : Nvp EventQueue := mkNvp nvp_cpu0 [set_recovery (demo_dev 8) true 0].
Lemma device_before_cpu_aborts :
  port_broadcastMsg [slave_dev 0; slave_cpu] (mkMsg SimpleEnergySM.POWER_ON None dzero) nvp_waiting = Err Assert_failed /\
  exists w', port_broadcastMsg [slave_cpu; slave_dev 0] (mkMsg SimpleEnergySM.POWER_ON None dzero) nvp_waiting = Ok (1, w').
Proof. split; [vm_compute; reflexivity|]. eexists. vm_compute. reflexivity. Qed.

(** ** Properties *)

(** C1: The platform runs through power failures without failing an assertion.
    From a state of the invariant, with at least one device, every one of [n]
    rounds of the simulation loop finds an event and handles it, whatever the
    energy supply does; afterwards the invariant holds again: the processor has a
    tick scheduled exactly when there is power, every device agrees with its
    events and has its next tick scheduled, and time has not gone back.  Two
    conditions are assumed.  No tick along the run comes so near [2 ^ 53] or
    [2 ^ 64] that a delay added to it would lose its value ([run_room]).  And
    the program keeps the protocol of the devices ([program_ok]): each of its
    instructions, executed in a state of the invariant, returns, stalls for a
    bounded time and leaves the devices in agreement with their events; a program
    that initialises a device which is ready does not, and such a program
    does abort ([reinit_then_outage_aborts]). *)
Theorem nvp_survives_outages {Q} `{EventSchedLaws Q} check exec R S n pow (w : Nvp Q) :
  nvp_inv pow w -> nv_devs w <> [] -> run_room check exec S n w = true -> program_ok check exec R S (nv_p w) ->
  exists w' pow', nvp_run check exec n w = Ok w' /\ nvp_inv pow' w' /\ q_now (nv_q w) <= q_now (nv_q w').
Proof. apply nvp_run_ok. Qed.

(** Ninety rounds, with a power failure in the middle of a task. *)
Lemma nvp_survives_outages_witness :
  exists w' pow', nvp_run (fun w => Ok w) (driver 0) 90 nvp_boot = Ok w' /\ nvp_inv pow' w' /\
  q_now (nv_q nvp_boot) <= q_now (nv_q w').
Proof.
  apply (nvp_survives_outages _ _ 0 0 90 false nvp_boot);
    [exact nvp_boot_inv|vm_compute; discriminate|vm_compute; reflexivity|exact nvp_driver_ok].
Defined.


