(* ===== verification/PageTable.v ===== *)
(** * Page tables of emulated processes

    [FuncPageTable] (mem/page_table.cc) with its cache of three translations,
    over the entries of the ARM build (arch/arm/pagetable.hh).  The table is
    compared with a table without a cache: they answer every sequence of
    operations alike, provided [remap] is not used to overwrite a page. *)
From S2P Require Import Prelude IntMath.
Open Scope Z_scope.

(** ** Definitions: entries (arch/arm/pagetable.hh) *)

Definition PageShift : Z := 12.
Definition PageBytes : Z := Z.shiftl 1 PageShift.

(** The fields an entry takes from the arguments of its constructor; the others
    are constants in system-call emulation. *)
Record TlbEntry := mkTlbEntry {
  te_pfn : Z;
  te_size : Z;
  te_vpn : Z;
  te_asid : Z;
  te_ap : Z;
  te_nonCacheable : bool;
}.

Definition new_TlbEntry (asn vaddr paddr : Z) (uncacheable read_only : bool) : TlbEntry :=
  mkTlbEntry (Z.shiftr paddr PageShift) (PageBytes - 1) (Z.shiftr vaddr PageShift) (u16 asn)
    (if read_only then 3 else 0) uncacheable.
Definition empty_TlbEntry : TlbEntry := mkTlbEntry 0 0 0 0 0 false.
Definition updateVaddr (e : TlbEntry) (new_vaddr : Z) : TlbEntry :=
  mkTlbEntry (te_pfn e) (te_size e) (Z.shiftr new_vaddr PageShift) (te_asid e) (te_ap e) (te_nonCacheable e).
Definition pageStart (e : TlbEntry) : Z := u64 (Z.shiftl (te_pfn e) PageShift).

(** ** Definitions: the table (mem/page_table.hh, mem/page_table.cc) *)

Record cacheElement := mkCacheElement { ce_valid : bool; ce_vaddr : Z; ce_entry : TlbEntry }.
Definition ce_invalid (c : cacheElement) : cacheElement := mkCacheElement false (ce_vaddr c) (ce_entry c).

Record PageTable := mkPageTable {
  pageSize : Z;
  offsetMask : Z;
  pt_pid : Z;
  pTable : gmap Z TlbEntry;
  cache0 : cacheElement;
  cache1 : cacheElement;
  cache2 : cacheElement;
}.

(** [MappingFlags]. *)
Definition Clobber : Z := 1.
Definition NotPresent : Z := 2.
Definition Uncacheable : Z := 4.
Definition ReadOnly : Z := 8.
Definition flag (flags f : Z) : bool := negb (Z.land flags f =? 0).

Definition new_PageTable (pid page_size : Z) : result PageTable :=
  let* k := floorLog2 page_size in
  let* _ := assert_ (isPowerOf2 page_size) in
  let c := mkCacheElement false 0 empty_TlbEntry in
  Ok (mkPageTable page_size (mask k) pid ∅ c c c).

Definition with_pTable (t : PageTable) (m : gmap Z TlbEntry) : PageTable :=
  mkPageTable (pageSize t) (offsetMask t) (pt_pid t) m (cache0 t) (cache1 t) (cache2 t).
Definition with_cache (t : PageTable) (c0 c1 c2 : cacheElement) : PageTable :=
  mkPageTable (pageSize t) (offsetMask t) (pt_pid t) (pTable t) c0 c1 c2.

Definition pageAlign (t : PageTable) (a : Z) : Z := Z.land a (u64 (Z.lnot (offsetMask t))).
Definition pageOffset (t : PageTable) (a : Z) : Z := Z.land a (offsetMask t).

Definition updateCache (t : PageTable) (vaddr : Z) (entry : TlbEntry) : PageTable :=
  with_cache t (mkCacheElement true vaddr entry) (cache0 t) (cache1 t).

Definition ce_hit (c : cacheElement) (vaddr : Z) : bool := ce_valid c && (ce_vaddr c =? vaddr).
Definition eraseCacheEntry (t : PageTable) (vaddr : Z) : PageTable :=
  if ce_hit (cache0 t) vaddr then with_cache t (ce_invalid (cache0 t)) (cache1 t) (cache2 t)
  else if ce_hit (cache1 t) vaddr then with_cache t (cache0 t) (ce_invalid (cache1 t)) (cache2 t)
  else if ce_hit (cache2 t) vaddr then with_cache t (cache0 t) (cache1 t) (ce_invalid (cache2 t))
  else t.

(** The number of rounds of the loops over the pages of a region, which step
    [size] down by a page while it is positive. *)
Definition pages (t : PageTable) (size : Z) : nat := Z.to_nat (size / pageSize t + 1).

(** The body of the loop of [map]. *)
Definition map_page (flags : Z) (t : PageTable) (vaddr paddr : Z) : result PageTable :=
  let* _ := (if negb (flag flags Clobber) && bool_decide (is_Some (pTable t !! vaddr)) then Err Fatal else Ok tt) in
  let e := new_TlbEntry (pt_pid t) vaddr paddr (flag flags Uncacheable) (flag flags ReadOnly) in
  let t := with_pTable t (<[vaddr := e]> (pTable t)) in
  Ok (updateCache (eraseCacheEntry t vaddr) vaddr e).

Fixpoint map_loop (fuel : nat) (flags : Z) (t : PageTable) (vaddr paddr size : Z) : result PageTable :=
  if 0 <? size then
    match fuel with
    | O => Err Out_of_fuel
    | S fuel =>
        let* t := map_page flags t vaddr paddr in
        map_loop fuel flags t (u64 (vaddr + pageSize t)) (u64 (paddr + pageSize t)) (swrap 64 (size - pageSize t))
    end
  else Ok t.

Definition pt_map (t : PageTable) (vaddr paddr size flags : Z) : result PageTable :=
  let* _ := assert_ (pageOffset t vaddr =? 0) in
  map_loop (pages t size) flags t vaddr paddr size.

(** The body of the loop of [remap], for a page whose entry is [e];
    [pTable[new_vaddr]] makes a fresh entry if there is none. *)
Definition remap_page (t : PageTable) (vaddr new_vaddr : Z) (e : TlbEntry) : PageTable :=
  let t := with_pTable t (delete vaddr (<[new_vaddr := e]> (pTable t))) in
  let t := eraseCacheEntry t vaddr in
  let e := updateVaddr (default empty_TlbEntry (pTable t !! new_vaddr)) new_vaddr in
  let t := with_pTable t (<[new_vaddr := e]> (pTable t)) in
  updateCache t new_vaddr e.

Fixpoint remap_loop (fuel : nat) (t : PageTable) (vaddr size new_vaddr : Z) : result PageTable :=
  if 0 <? size then
    match fuel with
    | O => Err Out_of_fuel
    | S fuel =>
        match pTable t !! vaddr with
        | None => Err Assert_failed
        | Some e =>
            let t := remap_page t vaddr new_vaddr e in
            remap_loop fuel t (u64 (vaddr + pageSize t)) (swrap 64 (size - pageSize t)) (u64 (new_vaddr + pageSize t))
        end
    end
  else Ok t.

Definition pt_remap (t : PageTable) (vaddr size new_vaddr : Z) : result PageTable :=
  let* _ := assert_ (pageOffset t vaddr =? 0) in
  let* _ := assert_ (pageOffset t new_vaddr =? 0) in
  remap_loop (pages t size) t vaddr size new_vaddr.

Fixpoint unmap_loop (fuel : nat) (t : PageTable) (vaddr size : Z) : result PageTable :=
  if 0 <? size then
    match fuel with
    | O => Err Out_of_fuel
    | S fuel =>
        match pTable t !! vaddr with
        | None => Err Assert_failed
        | Some _ =>
            let t := eraseCacheEntry (with_pTable t (delete vaddr (pTable t))) vaddr in
            unmap_loop fuel t (u64 (vaddr + pageSize t)) (swrap 64 (size - pageSize t))
        end
    end
  else Ok t.

Definition pt_unmap (t : PageTable) (vaddr size : Z) : result PageTable :=
  let* _ := assert_ (pageOffset t vaddr =? 0) in
  unmap_loop (pages t size) t vaddr size.

Fixpoint unmapped_loop (fuel : nat) (t : PageTable) (vaddr size : Z) : result bool :=
  if 0 <? size then
    match fuel with
    | O => Err Out_of_fuel
    | S fuel =>
        if bool_decide (is_Some (pTable t !! vaddr)) then Ok false
        else unmapped_loop fuel t (u64 (vaddr + pageSize t)) (swrap 64 (size - pageSize t))
    end
  else Ok true.

Definition isUnmapped (t : PageTable) (vaddr size : Z) : result bool :=
  let* _ := assert_ (pageOffset t vaddr =? 0) in
  unmapped_loop (pages t size) t vaddr size.

Definition pt_lookup (t : PageTable) (vaddr : Z) : option TlbEntry * PageTable :=
  let page_addr := pageAlign t vaddr in
  if ce_hit (cache0 t) page_addr then (Some (ce_entry (cache0 t)), t)
  else if ce_hit (cache1 t) page_addr then (Some (ce_entry (cache1 t)), t)
  else if ce_hit (cache2 t) page_addr then (Some (ce_entry (cache2 t)), t)
  else match pTable t !! page_addr with
       | None => (None, t)
       | Some e => (Some e, updateCache t page_addr e)
       end.

(** [translate(vaddr, paddr)]: the physical address, if there is one. *)
Definition translate (t : PageTable) (vaddr : Z) : option Z * PageTable :=
  let '(o, t) := pt_lookup t vaddr in
  match o with
  | None => (None, t)
  | Some entry => (Some (u64 (pageOffset t vaddr + pageStart entry)), t)
  end.

(** [translate(req)] for a request of [size] bytes: [None] is the page fault. *)
Definition translate_req (t : PageTable) (vaddr size : Z) : result (option Z * PageTable) :=
  let* _ := assert_ (pageAlign t (u64 (u64 (vaddr + size) - 1)) =? pageAlign t vaddr) in
  let '(o, t) := translate t vaddr in
  match o with
  | None => Ok (None, t)
  | Some paddr =>
      if pageSize t <? u64 (Z.land paddr (u64 (pageSize t - 1)) + size) then Err Panic
      else Ok (Some paddr, t)
  end.

(** ** The cache *)

(** Valid elements agree with the table and are for different pages. *)
Definition ce_agrees (m : gmap Z TlbEntry) (c : cacheElement) : Prop :=
  ce_valid c = true -> m !! ce_vaddr c = Some (ce_entry c).
Definition ce_apart (c c' : cacheElement) : Prop :=
  ce_valid c = true -> ce_valid c' = true -> ce_vaddr c <> ce_vaddr c'.

Record cache_ok (m : gmap Z TlbEntry) (t : PageTable) : Prop := {
  ca_0 : ce_agrees m (cache0 t);
  ca_1 : ce_agrees m (cache1 t);
  ca_2 : ce_agrees m (cache2 t);
  ca_01 : ce_apart (cache0 t) (cache1 t);
  ca_02 : ce_apart (cache0 t) (cache2 t);
  ca_12 : ce_apart (cache1 t) (cache2 t);
}.

(** No element is for page [v]. *)
Definition uncached (v : Z) (t : PageTable) : Prop :=
  ce_hit (cache0 t) v = false /\ ce_hit (cache1 t) v = false /\ ce_hit (cache2 t) v = false.

Lemma ce_agrees_hit m c v : ce_agrees m c -> ce_hit c v = true -> m !! v = Some (ce_entry c).
Proof. unfold ce_hit. intros Hc [Hv <-%Z.eqb_eq]%andb_true_iff. by apply Hc. Qed.

Lemma ce_agrees_other m m' c v :
  (forall u, u <> v -> m' !! u = m !! u) -> ce_agrees m c -> ce_hit c v = false -> ce_agrees m' c.
Proof.
  unfold ce_hit. intros Hm Hc Hv Hval. rewrite Hval in Hv. apply Z.eqb_neq in Hv. rewrite Hm by done. by apply Hc.
Qed.

Lemma ce_apart_hit c c' v : ce_apart c c' -> ce_hit c v = true -> ce_hit c' v = false.
Proof.
  unfold ce_hit. intros Hap [Hv <-%Z.eqb_eq]%andb_true_iff. destruct (ce_valid c') eqn:Hv'; [|done].
  apply Z.eqb_neq. intros Hx. by apply (Hap Hv Hv').
Qed.

Lemma ce_apart_sym c c' : ce_apart c c' -> ce_apart c' c.
Proof. intros Hap H1 H2 Heq. by apply (Hap H2 H1). Qed.

Lemma ce_invalid_agrees m c : ce_agrees m (ce_invalid c).
Proof. discriminate. Qed.
Lemma ce_invalid_apart_l c c' : ce_apart (ce_invalid c) c'.
Proof. discriminate. Qed.
Lemma ce_invalid_apart_r c c' : ce_apart c (ce_invalid c').
Proof. by intros ? ?. Qed.
Lemma ce_invalid_hit c v : ce_hit (ce_invalid c) v = false.
Proof. done. Qed.
Create HintDb cache.
#[export] Hint Resolve ce_invalid_agrees ce_invalid_apart_l ce_invalid_apart_r ce_invalid_hit ce_apart_sym : cache.

(** Erasing a page leaves a cache that agrees with every table that differs at
    that page only. *)
Lemma eraseCacheEntry_ok m m' t v :
  cache_ok m t -> (forall u, u <> v -> m' !! u = m !! u) ->
  cache_ok m' (eraseCacheEntry t v) /\ uncached v (eraseCacheEntry t v).
Proof.
  intros [A0 A1 A2 P01 P02 P12] Hm. unfold eraseCacheEntry.
  destruct (ce_hit (cache0 t) v) eqn:H0.
  { pose proof (ce_apart_hit _ _ _ P01 H0) as H1. pose proof (ce_apart_hit _ _ _ P02 H0) as H2.
    split; [|by split_and!]. split; cbn; eauto using ce_agrees_other with cache. }
  destruct (ce_hit (cache1 t) v) eqn:H1.
  { pose proof (ce_apart_hit _ _ _ P12 H1) as H2.
    split; [|by split_and!]. split; cbn; eauto using ce_agrees_other with cache. }
  destruct (ce_hit (cache2 t) v) eqn:H2.
  { split; [|by split_and!]. split; cbn; eauto using ce_agrees_other with cache. }
  split; [|by split_and!]. split; eauto using ce_agrees_other.
Qed.

Lemma updateCache_ok m t v e :
  cache_ok m t -> uncached v t -> m !! v = Some e -> cache_ok m (updateCache t v e).
Proof.
  intros [A0 A1 A2 P01 P02 P12] (H0 & H1 & H2) Hv.
  assert (forall c, ce_hit c v = false -> ce_apart (mkCacheElement true v e) c) as Hap.
  { intros c Hc _ Hval Heq. unfold ce_hit in Hc. rewrite Hval in Hc. cbn in Heq. subst. by rewrite Z.eqb_refl in Hc. }
  split; cbn; auto. by intros _.
Qed.

Lemma erase_pTable t v : pTable (eraseCacheEntry t v) = pTable t.
Proof. unfold eraseCacheEntry. by repeat case_match. Qed.
Lemma erase_pageSize t v : pageSize (eraseCacheEntry t v) = pageSize t.
Proof. unfold eraseCacheEntry. by repeat case_match. Qed.
Lemma erase_offsetMask t v : offsetMask (eraseCacheEntry t v) = offsetMask t.
Proof. unfold eraseCacheEntry. by repeat case_match. Qed.
Lemma erase_pid t v : pt_pid (eraseCacheEntry t v) = pt_pid t.
Proof. unfold eraseCacheEntry. by repeat case_match. Qed.
#[export] Hint Rewrite erase_pTable erase_pageSize erase_offsetMask erase_pid : sim.

Lemma cache_ok_with_pTable m t m' : cache_ok m t -> cache_ok m (with_pTable t m').
Proof. intros []. by split. Qed.

Lemma cache_ok_change m m' t v :
  cache_ok m t -> uncached v t -> (forall u, u <> v -> m' !! u = m !! u) -> cache_ok m' t.
Proof. intros [] (? & ? & ?) Hm. split; eauto using ce_agrees_other. Qed.

Lemma unmapped_uncached m t v : cache_ok m t -> m !! v = None -> uncached v t.
Proof.
  intros [A0 A1 A2 _ _ _] Hv.
  assert (forall c, ce_agrees m c -> ce_hit c v = false) as H; [|by split_and!; apply H].
  intros c Hc. destruct (ce_hit c v) eqn:Hh; [|done]. pose proof (ce_agrees_hit _ _ _ Hc Hh). congruence.
Qed.

(** The cache never shows: a lookup finds what the table holds. *)
Lemma pt_lookup_ok t v :
  cache_ok (pTable t) t ->
  fst (pt_lookup t v) = pTable t !! pageAlign t v /\ cache_ok (pTable t) (snd (pt_lookup t v)) /\
  (exists c0 c1 c2, snd (pt_lookup t v) = with_cache t c0 c1 c2).
Proof.
  intros Hc. pose proof Hc as [A0 A1 A2 _ _ _]. unfold pt_lookup.
  assert (exists c0 c1 c2, t = with_cache t c0 c1 c2) as Hsame by (exists (cache0 t), (cache1 t), (cache2 t); by destruct t).
  destruct (ce_hit (cache0 t) _) eqn:H0; [cbn; by rewrite (ce_agrees_hit _ _ _ A0 H0)|].
  destruct (ce_hit (cache1 t) _) eqn:H1; [cbn; by rewrite (ce_agrees_hit _ _ _ A1 H1)|].
  destruct (ce_hit (cache2 t) _) eqn:H2; [cbn; by rewrite (ce_agrees_hit _ _ _ A2 H2)|].
  destruct (pTable t !! pageAlign t v) as [e|] eqn:He; [|done].
  split; [done|]. split; [|by eexists _, _, _]. by apply updateCache_ok.
Qed.

(** ** The table without a cache *)

Definition no_cache : cacheElement := mkCacheElement false 0 empty_TlbEntry.
Definition forget (t : PageTable) : PageTable := with_cache t no_cache no_cache no_cache.

(** [t] is a table with a consistent cache for the bare table [t']. *)
Record caches (t t' : PageTable) : Prop := {
  cs_ok : cache_ok (pTable t) t;
  cs_same : forget t = forget t';
}.

Definition result_rel {A B} (R : A -> B -> Prop) (x : result A) (y : result B) : Prop :=
  match x, y with
  | Ok a, Ok b => R a b
  | Err e, Err e' => e = e'
  | _, _ => False
  end.

Lemma forget_cache_ok t : cache_ok (pTable (forget t)) (forget t).
Proof. split; done. Qed.

Lemma caches_fields t t' :
  caches t t' -> pTable t = pTable t' /\ pageSize t = pageSize t' /\ offsetMask t = offsetMask t' /\ pt_pid t = pt_pid t'.
Proof. intros [_ H]. destruct t, t'. cbn in H. injection H. auto. Qed.

Lemma caches_intro t t' :
  cache_ok (pTable t) t -> pTable t = pTable t' -> pageSize t = pageSize t' -> offsetMask t = offsetMask t' ->
  pt_pid t = pt_pid t' -> caches t t'.
Proof. intros H1 H2 H3 H4 H5. split; [done|]. destruct t, t'; cbn in *. by subst. Qed.

(** Replacing the entry of a page, in the order of [map]. *)
Lemma replace_ok t v e m :
  cache_ok (pTable t) t -> (forall u, u <> v -> m !! u = pTable t !! u) -> m !! v = Some e ->
  cache_ok m (updateCache (eraseCacheEntry (with_pTable t m) v) v e).
Proof.
  intros Hc Hm Hv. destruct (eraseCacheEntry_ok (pTable t) m (with_pTable t m) v) as [H1 H2]; [by apply cache_ok_with_pTable|done|].
  by apply updateCache_ok.
Qed.

Lemma map_page_caches flags t t' v p :
  caches t t' -> result_rel caches (map_page flags t v p) (map_page flags t' v p).
Proof.
  intros Hc. destruct (caches_fields _ _ Hc) as (E1 & E2 & E3 & E4). unfold map_page. rewrite <- E1, <- E4.
  destruct (negb _ && _); cbn [rbind]; [done|].
  apply caches_intro; cbn; autorewrite with sim; cbn; try done.
  apply replace_ok; [apply Hc|intros u Hu; by rewrite lookup_insert_ne|by rewrite lookup_insert_eq].
Qed.

Lemma map_loop_caches fuel flags t t' v p size :
  caches t t' -> result_rel caches (map_loop fuel flags t v p size) (map_loop fuel flags t' v p size).
Proof.
  revert t t' v p size. induction fuel as [|fuel IH]; intros t t' v p size Hc; cbn [map_loop];
    (destruct (0 <? size); [|exact Hc]); [done|]. pose proof (map_page_caches flags t t' v p Hc) as Hp.
  destruct (map_page flags t v p) as [t1|], (map_page flags t' v p) as [t1'|]; try done. cbn [rbind result_rel] in *.
  destruct (caches_fields _ _ Hp) as (_ & <- & _). by apply IH.
Qed.

Lemma unmap_loop_caches fuel t t' v size :
  caches t t' -> result_rel caches (unmap_loop fuel t v size) (unmap_loop fuel t' v size).
Proof.
  revert t t' v size. induction fuel as [|fuel IH]; intros t t' v size Hc; cbn [unmap_loop];
    (destruct (0 <? size); [|exact Hc]); [done|].
  destruct (caches_fields _ _ Hc) as (E1 & E2 & E3 & E4). rewrite <- E1.
  destruct (pTable t !! v); [|done]. autorewrite with sim. cbn [pageSize with_pTable]. rewrite <- E2.
  apply IH, caches_intro; autorewrite with sim; cbn; try done.
  apply (eraseCacheEntry_ok (pTable t)); [apply cache_ok_with_pTable, Hc|]. intros u Hu. by rewrite lookup_delete_ne.
Qed.

(** The [n] pages from [v] on are not mapped. *)
Definition region_free (t : PageTable) (v : Z) (n : Z) : Prop :=
  forall j, 0 <= j < n -> pTable t !! u64 (v + j * pageSize t) = None.

Lemma swrap_small n x : 0 < n -> - 2 ^ (n - 1) <= x < 2 ^ (n - 1) -> swrap n x = x.
Proof.
  intros Hn Hx. unfold swrap. assert (2 ^ n = 2 * 2 ^ (n - 1)) by (rewrite <- Z.pow_succ_r by lia; f_equal; lia).
  rewrite Z.mod_small; lia.
Qed.

(** Pages of a region are distinct: the loops step by less than the address
    space. *)
Lemma page_distinct v s j : 0 < s -> 0 < j -> j * s < 2 ^ 64 -> u64 (v + j * s) <> u64 v.
Proof.
  intros Hs Hj Hlt Heq. assert ((v + j * s - v) mod 2 ^ 64 = 0) as Hm.
  { unfold u64, wrap in Heq. rewrite Zminus_mod, Heq, Z.sub_diag. done. }
  replace (v + j * s - v) with (j * s) in Hm by lia. rewrite Z.mod_small in Hm; nia.
Qed.

Lemma u64_step v s j : u64 (u64 (v + s) + j * s) = u64 (v + (j + 1) * s).
Proof. unfold u64. rewrite wrap_add_wrap_l. f_equal. lia. Qed.

Definition page_count (t : PageTable) (size : Z) : Z := (size + pageSize t - 1) / pageSize t.

Lemma page_count_step s size : 0 < s -> (size - s + s - 1) / s = (size + s - 1) / s - 1.
Proof. intros Hs. replace (size - s + s - 1) with (size + s - 1 + (-1) * s) by lia. rewrite Z.div_add by lia. lia. Qed.

Lemma page_count_pos s size : 0 < s -> 0 < size -> 0 < (size + s - 1) / s.
Proof. intros Hs Hz. apply Z.div_str_pos. lia. Qed.

Lemma remap_page_table t v v' e u :
  v <> v' -> pTable (remap_page t v v' e) !! u =
  if decide (u = v') then Some (updateVaddr e v') else if decide (u = v) then None else pTable t !! u.
Proof.
  intros Hne. unfold remap_page. cbn. autorewrite with sim. cbn.
  rewrite (lookup_delete_ne _ v v'), lookup_insert_eq by done. cbn [default].
  repeat case_decide; subst; simplify_map_eq; done.
Qed.

Lemma remap_page_caches t t' v v' e :
  caches t t' -> pTable t !! v = Some e -> pTable t !! v' = None -> caches (remap_page t v v' e) (remap_page t' v v' e).
Proof.
  intros Hc Hv Hv'. assert (v <> v') as Hne by congruence. destruct (caches_fields _ _ Hc) as (E1 & E2 & E3 & E4).
  assert (pTable (remap_page t v v' e) = pTable (remap_page t' v v' e)) as Em.
  { apply map_eq. intros u. by rewrite !remap_page_table, E1. }
  apply caches_intro; try done; try (unfold remap_page; cbn; autorewrite with sim; done).
  set (m1 := delete v (<[v' := e]> (pTable t))).
  destruct (eraseCacheEntry_ok (pTable t) (delete v (pTable t)) (with_pTable t m1) v) as [H1 H2];
    [apply cache_ok_with_pTable, Hc|intros u Hu; by rewrite lookup_delete_ne|].
  pose proof (unmapped_uncached _ _ v' H1 ltac:(by rewrite lookup_delete_ne)) as Hu.
  unfold remap_page. fold m1. apply updateCache_ok; [|exact Hu|cbn; by rewrite lookup_insert_eq].
  apply cache_ok_with_pTable. eapply cache_ok_change; [exact H1|exact Hu|]. intros u Hne'. cbn. autorewrite with sim. cbn.
  unfold m1. rewrite lookup_insert_ne, delete_insert_ne, lookup_insert_ne by done. done.
Qed.

Lemma remap_loop_caches fuel t t' v size v' :
  caches t t' -> 0 < pageSize t < 2 ^ 63 -> - 2 ^ 63 <= size < 2 ^ 63 -> is_u64 v' ->
  region_free t v' (page_count t size) ->
  result_rel caches (remap_loop fuel t v size v') (remap_loop fuel t' v size v').
Proof.
  revert t t' v size v'. induction fuel as [|fuel IH]; intros t t' v size v' Hc Hs Hz Hv' Hfree; cbn [remap_loop];
    (destruct (Z.ltb_spec 0 size) as [Hpos|]; [|exact Hc]); [done|].
  destruct (caches_fields _ _ Hc) as (E1 & E2 & E3 & E4). rewrite <- E1.
  destruct (pTable t !! v) as [e|] eqn:Hv; [|done].
  pose proof (page_count_pos _ _ (proj1 Hs) Hpos) as Hn. fold (page_count t size) in Hn.
  assert (pTable t !! v' = None) as Hnone.
  { rewrite <- (u64_small v' Hv'), <- (Z.add_0_r v'). apply (Hfree 0). lia. }
  pose proof (remap_page_caches t t' v v' e Hc Hv Hnone) as Hc'.
  assert (forall t, pageSize (remap_page t v v' e) = pageSize t) as Hps by (intros; unfold remap_page; cbn; by autorewrite with sim).
  cbn zeta. rewrite !Hps, <- E2, swrap_small by (cbn; lia).
  apply IH; rewrite ?Hps; try done; [lia|apply u64_range|].
  intros j Hj. unfold page_count in Hj. rewrite Hps in *. rewrite page_count_step in Hj by lia. fold (page_count t size) in Hj.
  rewrite u64_step, remap_page_table by congruence.
  assert (page_count t size * pageSize t < 2 ^ 64).
  { pose proof (Z.mul_div_le (size + pageSize t - 1) (pageSize t)). unfold page_count. lia. }
  rewrite decide_False by (rewrite <- (u64_small v' Hv') at 2; apply page_distinct; nia).
  case_decide; [done|]. apply Hfree. lia.
Qed.

(** ** Sequences of operations *)

Inductive pt_op :=
  | PMap (vaddr paddr size flags : Z)
  | PRemap (vaddr size new_vaddr : Z)
  | PUnmap (vaddr size : Z)
  | PTranslate (vaddr : Z).

Definition pt_step (op : pt_op) (t : PageTable) : result (option Z * PageTable) :=
  match op with
  | PMap v p size flags => let* t := pt_map t v p size flags in Ok (None, t)
  | PRemap v size v' => let* t := pt_remap t v size v' in Ok (None, t)
  | PUnmap v size => let* t := pt_unmap t v size in Ok (None, t)
  | PTranslate v => Ok (translate t v)
  end.

(** The answers to a sequence of operations; [before] is applied to the table
    before each of them. *)
Fixpoint pt_run (before : PageTable -> PageTable) (ops : list pt_op) (t : PageTable) : result (list (option Z) * PageTable) :=
  match ops with
  | [] => Ok ([], t)
  | op :: ops =>
      let* '(a, t) := pt_step op (before t) in
      let* '(l, t) := pt_run before ops t in
      Ok (a :: l, t)
  end.

(** Addresses and sizes are of their types, and pages are moved only to where
    nothing is mapped. *)
Definition op_ok (t : PageTable) (op : pt_op) : bool :=
  match op with
  | PRemap _ size v' =>
      (0 <=? v') && (v' <? 2 ^ 64) && (- 2 ^ 63 <=? size) && (size <? 2 ^ 63) &&
      match isUnmapped t v' size with Ok b => b | Err _ => true end
  | _ => true
  end.
Fixpoint ops_ok (ops : list pt_op) (t : PageTable) : bool :=
  match ops with
  | [] => true
  | op :: ops =>
      op_ok t op && match pt_step op (forget t) with Ok (_, t) => ops_ok ops t | Err _ => true end
  end.

Definition pt_wf (t : PageTable) : Prop :=
  exists k, 0 <= k < 63 /\ pageSize t = 2 ^ k /\ offsetMask t = Z.ones k.

Lemma unmapped_loop_ok fuel t v size :
  0 < pageSize t < 2 ^ 63 -> - 2 ^ 63 <= size < 2 ^ 63 -> size <= Z.of_nat fuel * pageSize t -> is_u64 v ->
  exists b, unmapped_loop fuel t v size = Ok b /\ (b = true -> region_free t v (page_count t size)).
Proof.
  revert v size. induction fuel as [|fuel IH]; intros v size Hs Hz Hf Hv; cbn [unmapped_loop].
  all: destruct (Z.ltb_spec 0 size) as [Hpos|Hneg]; [|exists true; split; [done|]; intros _ j Hj; exfalso;
    unfold page_count in Hj; pose proof (Z.div_lt_upper_bound (size + pageSize t - 1) (pageSize t) 1); lia].
  { lia. }
  case_bool_decide as Hm; [exists false; done|]. rewrite swrap_small by (cbn; lia).
  destruct (IH (u64 (v + pageSize t)) (size - pageSize t)) as (b & -> & Hb); try lia; [apply u64_range|].
  exists b. split; [done|]. intros ->. specialize (Hb eq_refl). intros j Hj. destruct (decide (j = 0)) as [->|].
  - rewrite Z.add_0_r, u64_small by done. by apply eq_None_not_Some.
  - assert (pTable t !! u64 (u64 (v + pageSize t) + (j - 1) * pageSize t) = None) as Hx.
    { apply Hb. unfold page_count. rewrite page_count_step by lia. unfold page_count in Hj. lia. }
    rewrite u64_step in Hx. by replace (j - 1 + 1) with j in Hx by lia.
Qed.

Lemma pt_wf_size t : pt_wf t -> 0 < pageSize t < 2 ^ 63.
Proof. intros (k & Hk & -> & _). split; [lia|]. apply Z.pow_lt_mono_r; lia. Qed.

Lemma pages_enough t size : 0 < pageSize t -> size <= Z.of_nat (pages t size) * pageSize t.
Proof.
  intros Hs. unfold pages. pose proof (Z.mul_succ_div_gt size (pageSize t) Hs).
  destruct (Z_le_gt_dec 0 (size / pageSize t + 1)); [rewrite Z2Nat.id by lia; lia|].
  rewrite Z2Nat.nonpos by lia. pose proof (Z.div_lt_upper_bound size (pageSize t) 0). nia.
Qed.

Lemma isUnmapped_free t v size :
  pt_wf t -> is_u64 v -> - 2 ^ 63 <= size < 2 ^ 63 -> isUnmapped t v size = Ok true -> region_free t v (page_count t size).
Proof.
  intros Hwf%pt_wf_size Hv Hz. unfold isUnmapped. destruct (pageOffset t v =? 0); [|done]. cbn [assert_ rbind].
  destruct (unmapped_loop_ok (pages t size) t v size) as (b & -> & Hb); try done; [apply pages_enough; lia|].
  intros [= ->]. by apply Hb.
Qed.

Lemma assert_caches b (x y : result PageTable) :
  (b = true -> result_rel caches x y) -> result_rel caches (let* _ := assert_ b in x) (let* _ := assert_ b in y).
Proof. destruct b; cbn; auto. Qed.

Lemma bind_caches (x y : result PageTable) :
  result_rel caches x y ->
  result_rel (fun a b => a.1 = b.1 /\ caches a.2 b.2) (let* t := x in Ok (None (A := Z), t)) (let* t := y in Ok (None, t)).
Proof. destruct x, y; cbn; auto. Qed.

Lemma translate_ok t v :
  cache_ok (pTable t) t ->
  translate t v = ((fun e => u64 (pageOffset t v + pageStart e)) <$> pTable t !! pageAlign t v, snd (pt_lookup t v)).
Proof.
  intros Hc. destruct (pt_lookup_ok t v Hc) as (H1 & _ & c0 & c1 & c2 & H2). unfold translate.
  destruct (pt_lookup t v) as [o t1]. cbn in H1, H2. subst. by destruct (pTable t !! _).
Qed.

Lemma pt_step_caches op t t' :
  caches t t' -> cache_ok (pTable t') t' -> pt_wf t -> op_ok t op = true ->
  result_rel (fun a b => a.1 = b.1 /\ caches a.2 b.2) (pt_step op t) (pt_step op t').
Proof.
  intros Hc Hok' Hwf Hop. destruct (caches_fields _ _ Hc) as (E1 & E2 & E3 & E4).
  assert (forall size, pages t size = pages t' size) as Ep by (intros; unfold pages; by rewrite E2).
  assert (forall v, pageOffset t v = pageOffset t' v) as Eo by (intros; unfold pageOffset; by rewrite E3).
  destruct op as [v p size flags|v size v'|v size|v]; cbn [pt_step].
  - apply bind_caches. unfold pt_map. rewrite <- Ep, <- Eo. apply assert_caches. intros _. by apply map_loop_caches.
  - apply bind_caches. unfold pt_remap. rewrite <- Ep, <- !Eo. apply assert_caches. intros _. apply assert_caches. intros Ha.
    unfold op_ok in Hop. rewrite !andb_true_iff in Hop. destruct Hop as ((((H1 & H2) & H3) & H4) & H5).
    assert (is_u64 v') as Hv' by (unfold in_range; lia).
    apply remap_loop_caches; try done; [by apply pt_wf_size|lia|]. apply isUnmapped_free; try done; [lia|].
    unfold isUnmapped in *. rewrite Ha in *. cbn [assert_ rbind] in *.
    destruct (unmapped_loop_ok (pages t size) t v' size) as (b & Hb & _); [by apply pt_wf_size|lia|apply pages_enough; apply pt_wf_size in Hwf; lia|done|].
    rewrite Hb in *. by subst.
  - apply bind_caches. unfold pt_unmap. rewrite <- Ep, <- Eo. apply assert_caches. intros _. by apply unmap_loop_caches.
  - rewrite !translate_ok by (done || apply Hc). cbn. unfold pageAlign, pageOffset. rewrite E1, E3. split; [done|].
    destruct (pt_lookup_ok t v (cs_ok _ _ Hc)) as (_ & Hk & c0 & c1 & c2 & Heq).
    destruct (pt_lookup_ok t' v Hok') as (_ & _ & c0' & c1' & c2' & Heq'). rewrite Heq, Heq' in *. by apply caches_intro.
Qed.

(** The page size, its mask and the process do not change. *)
Definition shape (t : PageTable) : Z * Z * Z := (pageSize t, offsetMask t, pt_pid t).

Lemma erase_shape t v : shape (eraseCacheEntry t v) = shape t.
Proof. unfold shape. by autorewrite with sim. Qed.

Lemma map_page_shape flags t v p t1 : map_page flags t v p = Ok t1 -> shape t1 = shape t.
Proof. unfold map_page. destruct (negb _ && _); cbn [rbind]; [done|]. intros [= <-]. apply (erase_shape (with_pTable t _)). Qed.
Lemma map_loop_shape fuel flags t v p size t1 : map_loop fuel flags t v p size = Ok t1 -> shape t1 = shape t.
Proof.
  revert t v p size. induction fuel as [|fuel IH]; intros t v p size; cbn [map_loop]; (destruct (0 <? size); [|congruence]); [done|].
  destruct (map_page flags t v p) as [t2|] eqn:Hp; cbn [rbind]; [|done]. intros ->%IH. by eapply map_page_shape.
Qed.
Lemma unmap_loop_shape fuel t v size t1 : unmap_loop fuel t v size = Ok t1 -> shape t1 = shape t.
Proof.
  revert t v size. induction fuel as [|fuel IH]; intros t v size; cbn [unmap_loop]; (destruct (0 <? size); [|congruence]); [done|].
  destruct (pTable t !! v); [|done]. intros ->%IH. apply (erase_shape (with_pTable t _)).
Qed.
Lemma remap_loop_shape fuel t v size v' t1 : remap_loop fuel t v size v' = Ok t1 -> shape t1 = shape t.
Proof.
  revert t v size v'. induction fuel as [|fuel IH]; intros t v size v'; cbn [remap_loop]; (destruct (0 <? size); [|congruence]); [done|].
  destruct (pTable t !! v); [|done]. intros ->%IH. apply (erase_shape (with_pTable t _)).
Qed.

Lemma pt_step_shape op t a t1 : pt_step op t = Ok (a, t1) -> shape t1 = shape t.
Proof.
  destruct op; cbn [pt_step]; unfold pt_map, pt_remap, pt_unmap, translate, pt_lookup; intros Hs.
  1-3: repeat match type of Hs with context [assert_ ?b] => destruct b; cbn [assert_ rbind] in Hs; [|discriminate] end.
  - destruct (map_loop _ _ _ _ _ _) eqn:Hl; [|done]. injection Hs as <- <-. by eapply map_loop_shape.
  - destruct (remap_loop _ _ _ _ _) eqn:Hl; [|done]. injection Hs as <- <-. by eapply remap_loop_shape.
  - destruct (unmap_loop _ _ _ _) eqn:Hl; [|done]. injection Hs as <- <-. by eapply unmap_loop_shape.
  - by repeat case_match; simplify_eq.
Qed.

Lemma shape_wf t t1 : shape t1 = shape t -> pt_wf t -> pt_wf t1.
Proof. intros [= E1 E2 _] (k & Hk & H1 & H2). exists k. by rewrite E1, E2. Qed.

Lemma unmapped_loop_same fuel t t' v size :
  pTable t = pTable t' -> pageSize t = pageSize t' -> unmapped_loop fuel t v size = unmapped_loop fuel t' v size.
Proof.
  intros E1 E2. revert v size. induction fuel as [|fuel IH]; intros v size; cbn [unmapped_loop]; [done|].
  by rewrite E1, E2, IH.
Qed.

Lemma op_ok_same t t' op : caches t t' -> op_ok t op = op_ok t' op.
Proof.
  intros Hc. destruct (caches_fields _ _ Hc) as (E1 & E2 & E3 & E4). destruct op; try done. unfold op_ok, isUnmapped, pageOffset, pages.
  rewrite E2, E3. by rewrite (unmapped_loop_same _ t t').
Qed.

Lemma pt_run_caches ops t t' :
  caches t t' -> pt_wf t -> ops_ok ops t' = true ->
  result_rel (fun a b => a.1 = b.1 /\ caches a.2 b.2) (pt_run id ops t) (pt_run forget ops t').
Proof.
  revert t t'. induction ops as [|op ops IH]; intros t t' Hc Hwf Hok; cbn [pt_run ops_ok] in *; [done|].
  apply andb_true_iff in Hok as [Hop Hok]. rewrite <- (op_ok_same _ _ _ Hc) in Hop.
  assert (caches t (forget t')) as Hf.
  { destruct (caches_fields _ _ Hc) as (E1 & E2 & E3 & E4). apply caches_intro; try done. apply Hc. }
  pose proof (pt_step_caches op t (forget t') Hf (forget_cache_ok t') Hwf Hop) as Hstep. cbn [id].
  destruct (pt_step op t) as [[a t1]|] eqn:H1, (pt_step op (forget t')) as [[a' t1']|] eqn:H2; cbn in Hstep; try done;
    cbn [rbind].
  destruct Hstep as [-> Hc1]. specialize (IH t1 t1' Hc1 (shape_wf _ _ (pt_step_shape _ _ _ _ H1) Hwf) Hok).
  destruct (pt_run id ops t1) as [[l t2]|], (pt_run forget ops t1') as [[l' t2']|]; cbn in *; try done.
  destruct IH as [-> ?]. done.
Qed.

(** ** What [map] does *)

(** [u] is one of the [n] pages from [v] on. *)
Definition in_region (t : PageTable) (v n u : Z) : bool :=
  (v <=? u) && (u <? v + n * pageSize t) && ((u - v) mod pageSize t =? 0).

Definition entry_for (t : PageTable) (flags v p u : Z) : TlbEntry :=
  new_TlbEntry (pt_pid t) u (p + (u - v)) (flag flags Uncacheable) (flag flags ReadOnly).

Lemma in_region_first t v n : 0 < pageSize t -> 0 < n -> in_region t v n v = true.
Proof. intros Hs Hn. unfold in_region. rewrite Z.sub_diag, Z.mod_0_l by lia. rewrite !andb_true_iff. nia. Qed.

Lemma in_region_step t v n u :
  0 < pageSize t -> 0 < n -> in_region t v n u = (u =? v) || in_region t (v + pageSize t) (n - 1) u.
Proof.
  intros Hs Hn. unfold in_region.
  replace (u - (v + pageSize t)) with (u - v + (-1) * pageSize t) by lia. rewrite Z.mod_add by lia.
  destruct (Z.eqb_spec u v) as [->|Hne].
  { rewrite Z.sub_diag, Z.mod_0_l by lia. cbn [orb]. rewrite !andb_true_iff. nia. }
  cbn [orb]. destruct (Z.eqb_spec ((u - v) mod pageSize t) 0) as [Hm|]; [|by rewrite !andb_false_r].
  rewrite !andb_true_r. replace (v + pageSize t + (n - 1) * pageSize t) with (v + n * pageSize t) by lia. f_equal.
  pose proof (Z.div_mod (u - v) (pageSize t)). apply eq_iff_eq_true. rewrite !Z.leb_le.
  assert (v <= u -> v + pageSize t <= u); [|lia]. intros Hle. assert (0 < (u - v) / pageSize t) by nia. nia.
Qed.

Lemma map_page_spec flags t v p :
  (flag flags Clobber = true \/ pTable t !! v = None) ->
  exists t1, map_page flags t v p = Ok t1 /\ pTable t1 = <[v := entry_for t flags v p v]> (pTable t).
Proof.
  intros Hfree. unfold map_page.
  replace (negb (flag flags Clobber) && bool_decide (is_Some (pTable t !! v))) with false
    by (destruct Hfree as [->| ->]; [done|by rewrite andb_false_r]).
  cbn [rbind]. eexists. split; [done|]. cbn. autorewrite with sim. unfold entry_for. by rewrite Z.sub_diag, Z.add_0_r.
Qed.

(** The loop maps the pages of the region, in one go. *)
Lemma map_loop_spec fuel flags t v p size :
  0 < pageSize t < 2 ^ 63 -> size < 2 ^ 63 -> size <= Z.of_nat fuel * pageSize t ->
  0 <= v -> 0 <= p -> v + page_count t size * pageSize t <= 2 ^ 64 -> p + page_count t size * pageSize t <= 2 ^ 64 -> 0 < size ->
  (flag flags Clobber = true \/ forall u, in_region t v (page_count t size) u = true -> pTable t !! u = None) ->
  exists t1, map_loop fuel flags t v p size = Ok t1 /\
  forall u, pTable t1 !! u = if in_region t v (page_count t size) u then Some (entry_for t flags v p u) else pTable t !! u.
Proof.
  revert t v p size. induction fuel as [|fuel IH]; intros t v p size Hs Hz Hf Hv Hp Hvn Hpn Hpos Hfree; [lia|]. cbn [map_loop].
  rewrite (proj2 (Z.ltb_lt 0 size)) by lia. pose proof (page_count_pos _ _ (proj1 Hs) Hpos) as Hn. fold (page_count t size) in Hn.
  destruct (map_page_spec flags t v p) as (t1 & Hpg & Em).
  { destruct Hfree as [?|Hfree]; [by left|right]. apply Hfree, in_region_first; lia. }
  rewrite Hpg. cbn [rbind]. pose proof (map_page_shape _ _ _ _ _ Hpg) as Hsh. injection Hsh as E1 E2 E3. rewrite E1, swrap_small by (cbn; lia).
  pose proof (page_count_step (pageSize t) size (proj1 Hs)) as Hn'.
  assert (forall u, in_region t1 = in_region t /\ entry_for t1 flags (v + pageSize t) (p + pageSize t) u = entry_for t flags v p u) as Hent.
  { intros u. unfold in_region, entry_for. rewrite E1, E3. split; [done|]. f_equal. lia. }
  destruct (Z_le_gt_dec (size - pageSize t) 0) as [Hle|Hgt].
  - exists t1. split; [destruct fuel; cbn [map_loop]; by rewrite (proj2 (Z.ltb_ge 0 _)) by lia|]. intros u. rewrite Em, in_region_step by lia.
    assert (page_count t size - 1 <= 0) as Hn1.
    { unfold page_count. rewrite <- Hn'. apply Z.lt_succ_r, Z.div_lt_upper_bound; lia. }
    replace (in_region t (v + pageSize t) (page_count t size - 1) u) with false by (unfold in_region; nia). rewrite orb_false_r.
    destruct (Z.eqb_spec u v) as [->|Hne]; [by rewrite lookup_insert_eq|by rewrite lookup_insert_ne].
  - pose proof (page_count_pos (pageSize t) (size - pageSize t) (proj1 Hs) ltac:(lia)) as Hn1. rewrite Hn' in Hn1. fold (page_count t size) in Hn1, Hn'.
    rewrite !u64_small by (unfold in_range; nia).
    destruct (IH t1 (v + pageSize t) (p + pageSize t) (size - pageSize t)) as (t2 & Ht2 & Hmap); rewrite ?E1; try lia;
      try (unfold page_count; rewrite E1, Hn'; nia).
    { destruct Hfree as [?|Hfree]; [by left|right]. intros u Hu. destruct (Hent u) as [Eu _]. rewrite Eu in Hu.
      unfold page_count in Hu. rewrite E1, Hn' in Hu. assert (u <> v) by (unfold in_region in Hu; lia).
      rewrite Em, lookup_insert_ne by done. apply Hfree. rewrite in_region_step by lia. by rewrite Hu, orb_true_r. }
    exists t2. split; [done|]. intros u. rewrite Hmap, Em. destruct (Hent u) as [-> ->]. unfold page_count at 1. rewrite E1, Hn'.
    rewrite (in_region_step t v) by lia. destruct (in_region t (v + pageSize t) _ u) eqn:Hr; [by rewrite orb_true_r|]. rewrite orb_false_r.
    destruct (Z.eqb_spec u v) as [->|Hne]; [by rewrite lookup_insert_eq|by rewrite lookup_insert_ne].
Qed.

(** A page of the region that is mapped stops the loop. *)
Lemma map_loop_taken fuel flags t v p size u :
  0 < pageSize t < 2 ^ 63 -> size < 2 ^ 63 -> size <= Z.of_nat fuel * pageSize t -> 0 <= v ->
  v + page_count t size * pageSize t <= 2 ^ 64 -> 0 < size -> flag flags Clobber = false ->
  in_region t v (page_count t size) u = true -> is_Some (pTable t !! u) -> map_loop fuel flags t v p size = Err Fatal.
Proof.
  revert t v p size. induction fuel as [|fuel IH]; intros t v p size Hs Hz Hf Hv Hvn Hpos Hcl Hu Hsome; [lia|]. cbn [map_loop].
  rewrite (proj2 (Z.ltb_lt 0 size)) by lia. pose proof (page_count_pos _ _ (proj1 Hs) Hpos) as Hn. fold (page_count t size) in Hn.
  destruct (pTable t !! v) as [e|] eqn:Hv0.
  { unfold map_page. rewrite Hcl, Hv0. done. }
  destruct (map_page_spec flags t v p (or_intror Hv0)) as (t1 & Hpg & Em). rewrite Hpg. cbn [rbind].
  pose proof (map_page_shape _ _ _ _ _ Hpg) as Hsh. injection Hsh as E1 E2 E3. rewrite E1, swrap_small by (cbn; lia).
  pose proof (page_count_step (pageSize t) size (proj1 Hs)) as Hn'. fold (page_count t size) in Hn'.
  rewrite in_region_step in Hu by lia. apply orb_true_iff in Hu as [->%Z.eqb_eq|Hu]; [rewrite Hv0 in Hsome; by destruct Hsome|].
  assert (0 < page_count t size - 1) as Hn1 by (unfold in_region in Hu; nia).
  assert (0 < size - pageSize t) as Hgt.
  { destruct (Z_le_gt_dec (size - pageSize t) 0) as [Hle|]; [|lia].
    assert (page_count t size - 1 <= 0); [|lia]. rewrite <- Hn'. apply Z.lt_succ_r, Z.div_lt_upper_bound; lia. }
  rewrite (u64_small (v + pageSize t)) by (unfold in_range; nia). apply IH; rewrite ?E1; try lia; try done.
  - unfold page_count. rewrite E1, Hn'. nia.
  - unfold page_count, in_region in *. rewrite E1, Hn'. exact Hu.
  - rewrite Em, lookup_insert_ne; [done|]. unfold in_region in Hu. lia.
Qed.

(** ** Addresses *)

Lemma pageAlign_spec t k a :
  0 <= k < 63 -> offsetMask t = Z.ones k -> is_u64 a -> pageAlign t a = a - a mod 2 ^ k.
Proof.
  intros Hk Hm Ha. rewrite <- roundDown_pow2 by (try lia; done). unfold pageAlign, roundDown. rewrite Hm, Z.ones_equiv.
  assert (2 ^ k < 2 ^ 63) by (apply Z.pow_lt_mono_r; lia). by rewrite (u64_small (2 ^ k - 1)) by (unfold in_range; lia).
Qed.

Lemma pageOffset_spec t k a : 0 <= k -> offsetMask t = Z.ones k -> pageOffset t a = a mod 2 ^ k.
Proof. intros Hk Hm. unfold pageOffset. by rewrite Hm, Z.land_ones. Qed.

Lemma pageStart_spec asn v p u r : is_u64 p -> pageStart (new_TlbEntry asn v p u r) = p - p mod 2 ^ PageShift.
Proof.
  intros Hp. unfold pageStart, new_TlbEntry, PageShift. cbn [te_pfn]. rewrite Z.shiftl_mul_pow2, Z.shiftr_div_pow2 by lia.
  pose proof (Z.div_mod p (2 ^ 12)). pose proof (Z.mod_pos_bound p (2 ^ 12)). rewrite u64_small by (unfold in_range in *; lia). lia.
Qed.

(** A byte of the region: its page is one of the pages, at the right place. *)
Lemma in_region_byte t k v n a :
  0 <= k -> pageSize t = 2 ^ k -> v mod 2 ^ k = 0 ->
  in_region t v n (a - a mod 2 ^ k) = (v <=? a) && (a <? v + n * 2 ^ k).
Proof.
  intros Hk Hs Hv. unfold in_region. rewrite Hs.
  pose proof (Z.div_mod a (2 ^ k)). pose proof (Z.div_mod v (2 ^ k)). pose proof (Z.mod_pos_bound a (2 ^ k)).
  replace (a - a mod 2 ^ k - v) with ((a / 2 ^ k - v / 2 ^ k) * 2 ^ k) by lia.
  rewrite Z.mod_mul by lia. rewrite Z.eqb_refl, andb_true_r. apply eq_iff_eq_true.
  rewrite !andb_true_iff, !Z.leb_le, !Z.ltb_lt. assert (0 < 2 ^ k) by lia.
  set (qa := a / 2 ^ k) in *. set (qv := v / 2 ^ k) in *. set (c := 2 ^ k) in *. clearbody qa qv c.
  assert (v <= a <-> qv <= qa) by nia. assert (a < v + n * c <-> qa < qv + n) by nia.
  assert (v <= a - a mod c <-> qv <= qa) by nia. assert (a - a mod c < v + n * c <-> qa < qv + n) by nia. tauto.
Qed.

Lemma region_end t k v n u :
  0 <= k < 63 -> pageSize t = 2 ^ k -> in_region t v n u = true -> u + 2 ^ k <= v + n * 2 ^ k.
Proof.
  intros Hk Hs. unfold in_region. rewrite Hs, !andb_true_iff. intros [[H1 H2] H3].
  pose proof (Z.div_mod (u - v) (2 ^ k)). assert ((u - v) / 2 ^ k < n) by nia. nia.
Qed.

Lemma pt_map_ok t k v p size flags :
  0 <= k < 63 -> pageSize t = 2 ^ k -> offsetMask t = Z.ones k -> 0 < size < 2 ^ 63 -> 0 <= v -> 0 <= p -> v mod 2 ^ k = 0 ->
  v + page_count t size * 2 ^ k <= 2 ^ 64 -> p + page_count t size * 2 ^ k <= 2 ^ 64 ->
  (flag flags Clobber = true \/ forall u, in_region t v (page_count t size) u = true -> pTable t !! u = None) ->
  exists t1, pt_map t v p size flags = Ok t1 /\ shape t1 = shape t /\
  forall u, pTable t1 !! u = if in_region t v (page_count t size) u then Some (entry_for t flags v p u) else pTable t !! u.
Proof.
  intros Hk Hs Hm Hz Hv Hp Hal Hvn Hpn Hfree. unfold pt_map. rewrite (pageOffset_spec t k), Hal by (lia || done). cbn [assert_ rbind Z.eqb].
  assert (0 < pageSize t < 2 ^ 63) as Hps by (apply pt_wf_size; by exists k).
  destruct (map_loop_spec (pages t size) flags t v p size) as (t1 & H1 & Hmap); rewrite ?Hs; try lia; try done.
  { rewrite <- Hs. apply pages_enough. lia. }
  exists t1. split; [done|]. split; [by eapply map_loop_shape|done].
Qed.

(** [map] refuses an address inside a page, and a region of which a page is
    mapped. *)
Lemma pt_map_unaligned t k v p size flags :
  0 <= k -> offsetMask t = Z.ones k -> v mod 2 ^ k <> 0 -> pt_map t v p size flags = Err Assert_failed.
Proof.
  intros Hk Hm Hv. unfold pt_map. rewrite (pageOffset_spec t k) by done. by rewrite (proj2 (Z.eqb_neq _ _) Hv).
Qed.

Lemma pt_map_taken t k v p size flags u :
  0 <= k < 63 -> pageSize t = 2 ^ k -> offsetMask t = Z.ones k -> 0 < size < 2 ^ 63 -> 0 <= v -> v mod 2 ^ k = 0 ->
  v + page_count t size * 2 ^ k <= 2 ^ 64 -> flag flags Clobber = false ->
  in_region t v (page_count t size) u = true -> is_Some (pTable t !! u) -> pt_map t v p size flags = Err Fatal.
Proof.
  intros Hk Hs Hm Hz Hv Hal Hvn Hcl Hu Hsome. unfold pt_map. rewrite (pageOffset_spec t k), Hal by (lia || done). cbn [assert_ rbind Z.eqb].
  assert (0 < pageSize t < 2 ^ 63) as Hps by (apply pt_wf_size; by exists k).
  apply map_loop_taken with u; rewrite ?Hs; try lia; try done. rewrite <- Hs. apply pages_enough. lia.
Qed.

(** What an address translates to. *)
Definition pt_image (t : PageTable) (a : Z) : option Z := fst (translate t a).

Lemma pt_image_ok t a :
  cache_ok (pTable t) t -> pt_image t a = (fun e => u64 (pageOffset t a + pageStart e)) <$> pTable t !! pageAlign t a.
Proof. intros Hc. unfold pt_image. by rewrite translate_ok. Qed.

Lemma pt_map_image t k v p size flags t1 a :
  0 <= k < 63 -> PageShift <= k -> pageSize t = 2 ^ k -> offsetMask t = Z.ones k -> 0 < size < 2 ^ 63 -> 0 <= v -> 0 <= p ->
  v mod 2 ^ k = 0 -> p mod 2 ^ k = 0 -> p + page_count t size * 2 ^ k <= 2 ^ 64 -> shape t1 = shape t ->
  cache_ok (pTable t) t -> cache_ok (pTable t1) t1 ->
  (forall u, pTable t1 !! u = if in_region t v (page_count t size) u then Some (entry_for t flags v p u) else pTable t !! u) ->
  is_u64 a ->
  pt_image t1 a = if (v <=? a) && (a <? v + page_count t size * 2 ^ k) then Some (p + (a - v)) else pt_image t a.
Proof.
  intros Hk Hk12 Hs Hm Hz Hv Hp Hav Hap Hpn [= E1 E2 E3] Hc Hc1 Hmap Ha.
  rewrite !pt_image_ok by done. rewrite (pageAlign_spec t1 k), (pageAlign_spec t k) by (rewrite ?E2; done).
  rewrite Hmap, in_region_byte by (lia || done). unfold pageOffset. rewrite E2.
  destruct ((v <=? a) && (a <? v + page_count t size * 2 ^ k)) eqn:Hr; [|done]. cbn.
  pose proof (Z.mod_pos_bound a (2 ^ k)). pose proof (Z.div_mod a (2 ^ k)). pose proof (Z.div_mod v (2 ^ k)).
  rewrite <- (in_region_byte t) in Hr by (lia || done). pose proof (region_end t k v _ _ Hk Hs Hr).
  assert (v <= a - a mod 2 ^ k) by (unfold in_region in Hr; lia).
  rewrite Hm, Z.land_ones by lia. unfold entry_for. rewrite pageStart_spec by (unfold in_range; lia).
  assert ((p + (a - a mod 2 ^ k - v)) mod 2 ^ PageShift = 0) as ->.
  { pose proof (Z.div_mod p (2 ^ k)). apply Z.mod_divide; [done|].
    transitivity (2 ^ k); [exists (2 ^ (k - PageShift)); rewrite <- Z.pow_add_r by (unfold PageShift in *; lia); f_equal; lia|].
    exists (p / 2 ^ k + a / 2 ^ k - v / 2 ^ k). lia. }
  f_equal. rewrite u64_small; [lia|]. unfold in_range. lia.
Qed.

(** ** Properties *)

(** C8: The cache of translations never shows.  From a table with a consistent
    cache, such as a new one, every sequence of [map], [unmap], [remap] and
    [translate] gives the same answers and the same table, or stops with the
    same error, as when the cache is emptied before each operation, provided
    [remap] moves pages only to where nothing is mapped. *)
Theorem page_table_transparent t ops :
  pt_wf t -> cache_ok (pTable t) t -> ops_ok ops t = true ->
  result_rel (fun a b => a.1 = b.1 /\ pTable a.2 = pTable b.2 /\ cache_ok (pTable a.2) a.2)
    (pt_run id ops t) (pt_run forget ops t).
Proof.
  intros Hwf Hc Hok. assert (caches t t) as Hcc by by split.
  pose proof (pt_run_caches ops t t Hcc Hwf Hok) as H. destruct (pt_run id ops t) as [[l t1]|], (pt_run forget ops t) as [[l' t1']|]; try done.
  destruct H as [H1 H2]. split; [done|]. split; [apply (caches_fields _ _ H2)|apply H2].
Qed.

Definition demo_table : PageTable := mkPageTable 4096 4095 1 ∅ no_cache no_cache no_cache.
Definition demo_ops : list pt_op :=
  [PMap 0x10000 0x4000 0x2000 0; PTranslate 0x10010; PRemap 0x10000 0x1000 0x30000; PTranslate 0x10010; PTranslate 0x30010;
   PUnmap 0x30000 0x1000; PTranslate 0x30010; PTranslate 0x11abc].

Lemma page_table_transparent_witness :
  pt_wf demo_table /\
  result_rel (fun a b => a.1 = b.1 /\ pTable a.2 = pTable b.2 /\ cache_ok (pTable a.2) a.2)
    (pt_run id demo_ops demo_table) (pt_run forget demo_ops demo_table).
Proof.
  assert (pt_wf demo_table) as Hwf by (exists 12; split; [lia|by split]). split; [exact Hwf|].
  apply (page_table_transparent demo_table demo_ops); [exact Hwf|split; done|vm_compute; reflexivity].
Defined.

(** [map] maps exactly its region.  Mapping [size] bytes at an aligned
    virtual address to an aligned physical address succeeds if no page of the
    region is mapped, or if clobbering is allowed; afterwards every byte of the
    pages of the region translates to the byte at the same distance from the
    physical address, and every other address to what it did before. *)
Theorem map_translates t k v p size flags :
  0 <= k < 63 -> PageShift <= k -> pageSize t = 2 ^ k -> offsetMask t = Z.ones k -> cache_ok (pTable t) t ->
  0 < size < 2 ^ 63 -> 0 <= v -> 0 <= p -> v mod 2 ^ k = 0 -> p mod 2 ^ k = 0 ->
  v + page_count t size * 2 ^ k <= 2 ^ 64 -> p + page_count t size * 2 ^ k <= 2 ^ 64 ->
  (flag flags Clobber = true \/ forall u, in_region t v (page_count t size) u = true -> pTable t !! u = None) ->
  exists t1, pt_map t v p size flags = Ok t1 /\ cache_ok (pTable t1) t1 /\
  forall a, is_u64 a ->
    pt_image t1 a = if (v <=? a) && (a <? v + page_count t size * 2 ^ k) then Some (p + (a - v)) else pt_image t a.
Proof.
  intros Hk Hk12 Hs Hm Hc Hz Hv Hp Hav Hap Hvn Hpn Hfree.
  destruct (pt_map_ok t k v p size flags) as (t1 & H1 & Hsh & Hmap); try done. exists t1. split; [done|].
  assert (cache_ok (pTable t1) t1) as Hc1.
  { pose proof (pt_step_caches (PMap v p size flags) t t) as Hx. cbn [pt_step] in Hx. rewrite H1 in Hx. cbn in Hx.
    apply Hx; try done. by exists k. }
  split; [done|]. intros a Ha. by apply pt_map_image with (flags := flags).
Qed.

Lemma map_translates_witness :
  exists t1, pt_map demo_table 0x10000 0x4000 0x1800 0 = Ok t1 /\ pt_image t1 0x11abc = Some 0x5abc /\ pt_image t1 0x12000 = None.
Proof.
  destruct (map_translates demo_table 12 0x10000 0x4000 0x1800 0) as (t1 & H1 & _ & H2);
    [lia|unfold PageShift; lia|reflexivity|reflexivity|split; done|lia|lia|lia|reflexivity|reflexivity| | | |].
  - vm_compute. congruence.
  - vm_compute. congruence.
  - right. intros u _. reflexivity.
  - exists t1. split; [exact H1|]. rewrite !H2 by (unfold in_range; lia). split; vm_compute; reflexivity.
Defined.

(** Moving a page onto one that is mapped leaves two elements of the cache for
    it; unmapping it then invalidates only the first, and it still translates,
    to a frame that was given up twice. *)
Theorem remap_onto_mapped_stale :
  exists t1, pt_run id [PMap 0x10000 0x4000 0x1000 0; PMap 0x20000 0x8000 0x1000 0; PRemap 0x20000 0x1000 0x10000;
                        PUnmap 0x10000 0x1000; PTranslate 0x10000] demo_table = Ok ([None; None; None; None; Some 0x4000], t1) /\
  pTable t1 = ∅.
Proof. eexists. split; [vm_compute; reflexivity|]. vm_compute. reflexivity. Qed.
