(* ===== verification/ProcessMem.v ===== *)
(** * Memory of emulated processes

    Page allocation of the system (sim/system.cc), including the pages of
    virtual devices, and the memory operations of a process (sim/process.cc):
    [allocateMem] and the growth of the stack.  Ordinary pages never share a
    frame, and a fault in the stack region is repaired. *)
From S2P Require Import Prelude IntMath AddrRange PageTable.
Open Scope Z_scope.

(** ** Definitions: the system *)

Record System := mkSystem {
  pagePtr : Z;
  physmem_totalSize : Z;
  vdev_ranges : list AddrRange;
  has_vdev : bool;
  vaddr_vdev_ranges : list AddrRange;
}.
Definition set_pagePtr (s : System) (p : Z) : System :=
  mkSystem p (physmem_totalSize s) (vdev_ranges s) (has_vdev s) (vaddr_vdev_ranges s).

Definition m5opRange : AddrRange := AddrRange_plain 0xffff0000 0xffffffff.

Definition allocPhysPages (s : System) (npages : Z) : result (Z * System) :=
  let return_addr := u64 (Z.shiftl (pagePtr s) PageShift) in
  let pagePtr' := u64 (pagePtr s + npages) in
  let next_return_addr := u64 (Z.shiftl pagePtr' PageShift) in
  let '(return_addr, pagePtr') :=
    if contains m5opRange next_return_addr then (0xffffffff, Z.shiftr 0xffffffff PageShift)
    else (return_addr, pagePtr') in
  if physmem_totalSize s <? u64 (Z.shiftl pagePtr' PageShift) then Err Fatal
  else Ok (return_addr, set_pagePtr s pagePtr').

Definition isVAddrOfVdev (s : System) (addr : Z) : bool :=
  existsb (fun r => contains r addr) (vaddr_vdev_ranges s).

(** The loop of [allocVdevPages]: its condition is a comma expression, so only
    the end of the physical ranges stops it. *)
Fixpoint vdev_loop (vs ps : list AddrRange) (vaddr : Z) : result (Z * Z) :=
  match ps with
  | [] => Err Fatal
  | p :: ps =>
      match vs with
      | [] => Err Bad_pointer
      | v :: vs => if contains v vaddr then Ok (ar_start p, swrap 64 (ar_size p)) else vdev_loop vs ps vaddr
      end
  end.

(** [allocVdevPages(vaddr, size)]: the physical address and the new [size]. *)
Definition allocVdevPages (s : System) (vaddr : Z) : result (Z * Z) :=
  vdev_loop (vaddr_vdev_ranges s) (vdev_ranges s) vaddr.

(** ** Definitions: the process *)

Record Process := mkProcess {
  pr_system : System;
  pr_pTable : PageTable;
  stack_base : Z;
  stack_min : Z;
  max_stack_size : Z;
}.
Definition with_mem (p : Process) (s : System) (t : PageTable) : Process :=
  mkProcess s t (stack_base p) (stack_min p) (max_stack_size p).
Definition with_stack_min (p : Process) (m : Z) : Process :=
  mkProcess (pr_system p) (pr_pTable p) (stack_base p) m (max_stack_size p).

(** [divCeil(size, (int64_t)PageBytes)], converted to [int]. *)
Definition npages (size : Z) : Z := swrap 32 (Z.quot (swrap 64 (swrap 64 (size + PageBytes) - 1)) PageBytes).

Definition allocateMem (p : Process) (vaddr size : Z) (clobber : bool) : result Process :=
  let s := pr_system p in
  let* '(paddr, size, s) :=
    (if has_vdev s then
       if isVAddrOfVdev s vaddr then
         let* '(paddr, size) := allocVdevPages s vaddr in Ok (paddr, size, s)
       else
         let* '(paddr, s) := allocPhysPages s (npages size) in Ok (paddr, size, s)
     else
       let* '(paddr, s) := allocPhysPages s (npages size) in Ok (paddr, size, s)) in
  let* t := pt_map (pr_pTable p) vaddr paddr size (if clobber then Clobber else 0) in
  Ok (with_mem p s t).

(** The loop that extends the stack downwards to [vaddr]. *)
Fixpoint grow_stack (fuel : nat) (p : Process) (vaddr : Z) : result Process :=
  if vaddr <? stack_min p then
    match fuel with
    | O => Err Out_of_fuel
    | S fuel =>
        let p := with_stack_min p (u64 (stack_min p - PageBytes)) in
        if max_stack_size p <? u64 (stack_base p - stack_min p) then Err Fatal
        else
          let* p := allocateMem p (stack_min p) PageBytes false in
          grow_stack fuel p vaddr
    end
  else Ok p.

Definition fixupStackFault (p : Process) (vaddr : Z) : result (bool * Process) :=
  if (stack_min p <=? vaddr) && (vaddr <? stack_base p) then
    let* p := allocateMem p (roundDown vaddr PageBytes) PageBytes false in
    Ok (true, p)
  else if (vaddr <? stack_min p) && (u64 (stack_base p - max_stack_size p) <=? vaddr) then
    let* p := grow_stack (Z.to_nat ((stack_min p - vaddr) / PageBytes + 1)) p vaddr in
    Ok (true, p)
  else Ok (false, p).

(** ** The invariant *)

(** Frames below [pagePtr] have been handed out; those of devices lie above the
    memory. *)
Record mem_inv (p : Process) : Prop := {
  mi_shape : shape (pr_pTable p) = (2 ^ 12, Z.ones 12, pt_pid (pr_pTable p));
  mi_cache : cache_ok (pTable (pr_pTable p)) (pr_pTable p);
  mi_ptr : 0 <= pagePtr (pr_system p) /\ pagePtr (pr_system p) * PageBytes <= physmem_totalSize (pr_system p);
  mi_size : physmem_totalSize (pr_system p) < 2 ^ 63;
  mi_page u e : pTable (pr_pTable p) !! u = Some e -> 0 <= u < 2 ^ 64 /\ 0 <= te_pfn e < 2 ^ 52 /\
    (te_pfn e < pagePtr (pr_system p) \/ physmem_totalSize (pr_system p) <= te_pfn e * PageBytes);
  mi_inj u u' e e' : pTable (pr_pTable p) !! u = Some e -> pTable (pr_pTable p) !! u' = Some e' ->
    te_pfn e = te_pfn e' -> te_pfn e < pagePtr (pr_system p) -> u = u';
}.

Lemma mem_wf p : mem_inv p -> pt_wf (pr_pTable p) /\ pageSize (pr_pTable p) = 2 ^ 12 /\ offsetMask (pr_pTable p) = Z.ones 12.
Proof. intros [[= E1 E2] _ _ _ _ _]. split; [|done]. exists 12. split; [lia|]. done. Qed.

Lemma mem_image p a :
  mem_inv p -> is_u64 a ->
  pt_image (pr_pTable p) a = (fun e => a mod PageBytes + te_pfn e * PageBytes) <$> pTable (pr_pTable p) !! (a - a mod PageBytes).
Proof.
  intros Hp Ha. destruct (mem_wf _ Hp) as (_ & E1 & E2). rewrite pt_image_ok by apply Hp.
  rewrite (pageAlign_spec _ 12), (pageOffset_spec _ 12) by (done || lia). change PageBytes with (2 ^ 12).
  destruct (pTable (pr_pTable p) !! _) as [e|] eqn:He; [|done]. cbn. f_equal.
  destruct (mi_page _ Hp _ _ He) as (_ & H1 & _). pose proof (Z.mod_pos_bound a (2 ^ 12)).
  unfold pageStart, PageShift. rewrite Z.shiftl_mul_pow2 by lia. rewrite (u64_small (te_pfn e * 2 ^ 12)) by (unfold in_range; lia).
  apply u64_small. unfold in_range. lia.
Qed.

(** No two addresses of ordinary memory share a byte. *)
Lemma mem_no_alias p a b x :
  mem_inv p -> is_u64 a -> is_u64 b -> pt_image (pr_pTable p) a = Some x -> pt_image (pr_pTable p) b = Some x ->
  x < physmem_totalSize (pr_system p) -> a = b.
Proof.
  intros Hp Ha Hb. rewrite !mem_image by done. change PageBytes with (2 ^ 12).
  destruct (pTable (pr_pTable p) !! (a - _)) as [e|] eqn:He; [|done].
  destruct (pTable (pr_pTable p) !! (b - _)) as [e'|] eqn:He'; [|done]. cbn. intros [= <-] [= Heq] Hlt.
  pose proof (Z.mod_pos_bound a (2 ^ 12)). pose proof (Z.mod_pos_bound b (2 ^ 12)).
  assert (te_pfn e = te_pfn e') as Hpf by lia. destruct (mi_page _ Hp _ _ He) as (_ & _ & Hfr). change PageBytes with (2 ^ 12) in Hfr.
  pose proof (mi_inj _ Hp _ _ _ _ He He' Hpf ltac:(lia)). lia.
Qed.

(** ** Allocation *)

Lemma npages_spec size : 0 < size < 2 ^ 42 -> npages size = (size + 2 ^ 12 - 1) / 2 ^ 12.
Proof.
  intros Hs. unfold npages. change PageBytes with (2 ^ 12). rewrite (swrap_small 64 (size + 2 ^ 12)) by (cbn; lia).
  rewrite (swrap_small 64) by (cbn; lia). rewrite Z.quot_div_nonneg by lia.
  apply swrap_small; [lia|]. change (2 ^ (32 - 1)) with (2 ^ 31).
  assert ((size + 2 ^ 12 - 1) / 2 ^ 12 < 2 ^ 31) by (apply Z.div_lt_upper_bound; lia).
  assert (0 <= (size + 2 ^ 12 - 1) / 2 ^ 12) by (apply Z.div_pos; lia). lia.
Qed.

(** Where the frames after [n] more start. *)
Definition next_frame (s : System) (n : Z) : Z := (pagePtr s + n) * PageBytes.

(** [n] more frames fit below the end of the memory and do not end in the
    region of the m5 operations. *)
Definition frames_last (s : System) (n : Z) : bool :=
  negb (contains m5opRange (next_frame s n)) && (next_frame s n <=? physmem_totalSize s).

(** Frames that end in that region, in a memory which goes on to its last page:
    the code then gives out an address of the region itself. *)
Definition hits_m5ops (s : System) (n : Z) : bool :=
  contains m5opRange (next_frame s n) && (0xfffff000 <=? physmem_totalSize s).

Lemma frames_small s n : physmem_totalSize s < 0xffff0000 -> frames_last s n = (next_frame s n <=? physmem_totalSize s).
Proof.
  intros Hs. unfold frames_last. destruct (Z.leb_spec (next_frame s n) (physmem_totalSize s)); [|by rewrite andb_false_r].
  rewrite andb_true_r. destruct (contains m5opRange (next_frame s n)) eqn:Hc; [|done]. cbn in Hc. lia.
Qed.

Lemma frames_room s n : frames_last s n = true -> hits_m5ops s n = false /\ next_frame s n <= physmem_totalSize s.
Proof. unfold frames_last, hits_m5ops. destruct (contains _ _); cbn [negb andb]; [done|]. by intros H%Z.leb_le. Qed.

Lemma allocPhysPages_spec s n :
  0 <= pagePtr s -> 0 <= n < 2 ^ 31 -> pagePtr s * PageBytes <= physmem_totalSize s < 2 ^ 63 -> hits_m5ops s n = false ->
  allocPhysPages s n =
    if frames_last s n then Ok (pagePtr s * PageBytes, set_pagePtr s (pagePtr s + n)) else Err Fatal.
Proof.
  unfold hits_m5ops, frames_last, next_frame. intros Hp Hn Hb Hm. change PageBytes with (2 ^ 12) in *. unfold allocPhysPages, PageShift.
  rewrite (u64_small (pagePtr s + n)) by (unfold in_range; lia). rewrite !Z.shiftl_mul_pow2 by lia.
  rewrite (u64_small (pagePtr s * 2 ^ 12)), (u64_small ((pagePtr s + n) * 2 ^ 12)) by (unfold in_range; lia).
  destruct (contains m5opRange ((pagePtr s + n) * 2 ^ 12)) eqn:Hc; cbn [andb negb] in *.
  - rewrite u64_small by (vm_compute; intuition congruence). rewrite (proj2 (Z.ltb_lt _ _)); [done|].
    change (Z.shiftl (Z.shiftr 4294967295 12) 12) with 0xfffff000. lia.
  - rewrite Z.shiftl_mul_pow2 by lia. rewrite u64_small by (unfold in_range; lia). destruct (Z.leb_spec ((pagePtr s + n) * 2 ^ 12) (physmem_totalSize s)).
    + by rewrite (proj2 (Z.ltb_ge _ _)) by lia.
    + by rewrite (proj2 (Z.ltb_lt _ _)) by lia.
Qed.

(** Mapping a region to frames that are not in use keeps the invariant. *)
Lemma map_mem_ok p s v paddr size (clobber : bool) :
  mem_inv p -> 0 < size < 2 ^ 63 -> 0 <= v -> v mod PageBytes = 0 -> 0 <= paddr -> paddr mod PageBytes = 0 ->
  let n := page_count (pr_pTable p) size in
  v + n * PageBytes <= 2 ^ 64 -> paddr + n * PageBytes <= 2 ^ 64 ->
  (clobber = true \/ forall u, in_region (pr_pTable p) v n u = true -> pTable (pr_pTable p) !! u = None) ->
  physmem_totalSize s = physmem_totalSize (pr_system p) -> pagePtr (pr_system p) <= pagePtr s ->
  pagePtr s * PageBytes <= physmem_totalSize s ->
  (pagePtr (pr_system p) * PageBytes <= paddr /\ paddr + n * PageBytes <= pagePtr s * PageBytes \/
   physmem_totalSize s <= paddr) ->
  exists t, pt_map (pr_pTable p) v paddr size (if clobber then Clobber else 0) = Ok t /\ mem_inv (with_mem p s t) /\
  forall a, is_u64 a -> pt_image t a =
    if (v <=? a) && (a <? v + n * PageBytes) then Some (paddr + (a - v)) else pt_image (pr_pTable p) a.
Proof.
  intros Hp Hz Hv Hva Hpa0 Hpa n Hvn Hpn Hfree Hts Hle Hmax Hfr. destruct (mem_wf _ Hp) as (Hwf & E1 & E2).
  change PageBytes with (2 ^ 12) in *. set (flags := if clobber then Clobber else 0).
  assert (flag flags Clobber = clobber) as Hcl by (unfold flags; by destruct clobber).
  destruct (pt_map_ok (pr_pTable p) 12 v paddr size flags) as (t & Ht & Hsh & Hmap); try done; try lia; [by rewrite Hcl|].
  exists t. split; [done|].
  assert (cache_ok (pTable t) t) as Hct.
  { pose proof (pt_step_caches (PMap v paddr size flags) (pr_pTable p) (pr_pTable p)) as Hx. cbn [pt_step] in Hx. rewrite Ht in Hx.
    cbn in Hx. apply Hx; try done; [split; [|done]|]; apply Hp. }
  split; [|intros a Ha; apply pt_map_image with (flags := flags); try done; try lia; apply Hp].
  assert (forall u e, in_region (pr_pTable p) v n u = true -> Some (entry_for (pr_pTable p) flags v paddr u) = Some e ->
    te_pfn e * 2 ^ 12 = paddr + (u - v) /\ v <= u /\ u + 2 ^ 12 <= v + n * 2 ^ 12) as Hent.
  { intros u e Hr [= <-]. pose proof (region_end _ 12 _ _ _ ltac:(lia) E1 Hr). unfold in_region in Hr. rewrite E1 in Hr.
    cbn [te_pfn entry_for new_TlbEntry]. unfold PageShift. rewrite Z.shiftr_div_pow2 by lia.
    pose proof (Z.div_mod (paddr + (u - v)) (2 ^ 12)). assert ((paddr + (u - v)) mod 2 ^ 12 = 0).
    { rewrite Zplus_mod, Hpa. replace ((u - v) mod 2 ^ 12) with 0 by lia. done. } lia. }
  destruct Hp as [Hsp Hcp [Hp0 Hp1] Hsz Hpg Hinj]. change PageBytes with (2 ^ 12) in *. split; cbn [pr_pTable pr_system with_mem];
    change PageBytes with (2 ^ 12) in *; try done; try lia.
  - rewrite Hsh, Hsp. by injection Hsh as _ _ ->.
  - intros u e. rewrite Hmap. fold n. destruct (in_region _ _ _ _) eqn:Hr; [intros (H1 & H2 & H3)%Hent; [lia|done]|].
    intros He. destruct (Hpg _ _ He) as (H1 & H2 & H3). change PageBytes with (2 ^ 12) in *. lia.
  - intros u u' e e'. rewrite !Hmap. fold n. change PageBytes with (2 ^ 12) in *.
    destruct (in_region _ _ _ u) eqn:Hr, (in_region _ _ _ u') eqn:Hr'; intros He He' Hpf Hlt.
    + apply Hent in He as (H1 & _); [|done]. apply Hent in He' as (H1' & _); [|done]. lia.
    + apply Hent in He as (H1 & H2 & H3); [|done]. destruct (Hpg _ _ He') as (_ & _ & Hd). exfalso. lia.
    + apply Hent in He' as (H1 & H2 & H3); [|done]. destruct (Hpg _ _ He) as (_ & _ & Hd). exfalso. lia.
    + destruct (Hpg _ _ He) as (_ & _ & Hd). apply (Hinj u u' e e' He He' Hpf). lia.
Qed.

(** No device is mapped at [v]. *)
Definition plain_addr (p : Process) (v : Z) : bool := negb (has_vdev (pr_system p) && isVAddrOfVdev (pr_system p) v).

Lemma allocateMem_plain p v size clobber :
  plain_addr p v = true ->
  allocateMem p v size clobber =
    let* '(paddr, s) := allocPhysPages (pr_system p) (npages size) in
    let* t := pt_map (pr_pTable p) v paddr size (if clobber then Clobber else 0) in Ok (with_mem p s t).
Proof.
  unfold plain_addr, allocateMem. destruct (has_vdev _), (isVAddrOfVdev _ _); cbn; try done; intros _;
    by destruct (allocPhysPages _ _) as [[]|].
Qed.

(** The number of pages of [size] bytes. *)
Definition page_num (size : Z) : Z := (size + PageBytes - 1) / PageBytes.

Lemma page_num_range size : 0 < size < 2 ^ 42 -> 0 < page_num size < 2 ^ 31.
Proof. intros Hz. unfold page_num. change PageBytes with (2 ^ 12). split; [apply Z.div_str_pos; lia|apply Z.div_lt_upper_bound; lia]. Qed.

(** [allocateMem] of ordinary memory: the frames from [pagePtr] on. *)
Lemma allocateMem_ok p v size (clobber : bool) :
  mem_inv p -> plain_addr p v = true -> 0 < size < 2 ^ 42 -> 0 <= v -> v mod PageBytes = 0 ->
  v + page_num size * PageBytes <= 2 ^ 64 ->
  (clobber = true \/ forall u, v <= u < v + page_num size * PageBytes -> pt_image (pr_pTable p) u = None) ->
  frames_last (pr_system p) (page_num size) = true ->
  exists t, let s := set_pagePtr (pr_system p) (pagePtr (pr_system p) + page_num size) in
  allocateMem p v size clobber = Ok (with_mem p s t) /\ mem_inv (with_mem p s t) /\
  forall a, is_u64 a -> pt_image t a =
    if (v <=? a) && (a <? v + page_num size * PageBytes) then Some (pagePtr (pr_system p) * PageBytes + (a - v))
    else pt_image (pr_pTable p) a.
Proof.
  intros Hp Hpl Hz Hv Hva Hvn Hfree Hlast. destruct (mi_ptr _ Hp) as [Hp0 Hp1]. pose proof (mi_size _ Hp) as Hts.
  destruct (frames_room _ _ Hlast) as [Hm Hroom]. unfold next_frame in Hroom.
  destruct (mem_wf _ Hp) as (_ & E1 & _).
  assert (page_count (pr_pTable p) size = page_num size) as Hn by (unfold page_count; by rewrite E1).
  pose proof (page_num_range size Hz) as Hb.
  rewrite allocateMem_plain by done. rewrite npages_spec by done. change ((size + 2 ^ 12 - 1) / 2 ^ 12) with (page_num size).
  rewrite allocPhysPages_spec by (lia || done). rewrite Hlast. cbn [rbind].
  destruct (map_mem_ok p (set_pagePtr (pr_system p) (pagePtr (pr_system p) + page_num size)) v (pagePtr (pr_system p) * PageBytes) size clobber)
    as (t & Ht & Hinv & Himg); rewrite ?Hn; cbn [pagePtr physmem_totalSize set_pagePtr]; try done; try lia; change PageBytes with (2 ^ 12) in *; try lia.
  - by rewrite Z.mod_mul.
  - destruct Hfree as [?|Hfree]; [by left|right]. intros u Hu. pose proof (region_end _ 12 _ _ _ ltac:(lia) E1 Hu).
    unfold in_region in Hu. rewrite E1 in Hu.
    assert (u mod 2 ^ 12 = 0) as Hua.
    { replace u with ((u - v) + v) by lia. rewrite Zplus_mod, Hva. replace ((u - v) mod 2 ^ 12) with 0 by lia. done. }
    specialize (Hfree u ltac:(lia)). rewrite mem_image in Hfree by (done || (unfold in_range; lia)).
    change PageBytes with (2 ^ 12) in Hfree. rewrite Hua, Z.sub_0_r in Hfree. by apply fmap_None in Hfree.
  - rewrite Ht. exists t. split; [done|]. split; [done|]. by rewrite Hn in Himg.
Qed.

Lemma allocateMem_full p v size clobber :
  mem_inv p -> plain_addr p v = true -> 0 < size < 2 ^ 42 -> hits_m5ops (pr_system p) (page_num size) = false ->
  frames_last (pr_system p) (page_num size) = false -> allocateMem p v size clobber = Err Fatal.
Proof.
  intros Hp Hpl Hz Hm Hfull. destruct (mi_ptr _ Hp) as [Hp0 Hp1]. pose proof (mi_size _ Hp) as Hts.
  pose proof (page_num_range size Hz) as Hb.
  rewrite allocateMem_plain by done. rewrite npages_spec by done. change ((size + 2 ^ 12 - 1) / 2 ^ 12) with (page_num size).
  rewrite allocPhysPages_spec by (lia || done). by rewrite Hfull.
Qed.

(** What [map] refuses once the frames have been taken. *)
Lemma allocateMem_refused p v size (clobber : bool) er :
  mem_inv p -> plain_addr p v = true -> 0 < size < 2 ^ 42 -> frames_last (pr_system p) (page_num size) = true ->
  (forall paddr, pt_map (pr_pTable p) v paddr size (if clobber then Clobber else 0) = Err er) ->
  allocateMem p v size clobber = Err er.
Proof.
  intros Hp Hpl Hz Hlast Her. destruct (mi_ptr _ Hp) as [Hp0 Hp1]. pose proof (mi_size _ Hp) as Hts.
  pose proof (page_num_range size Hz) as Hb. destruct (frames_room _ _ Hlast) as [Hm _].
  rewrite allocateMem_plain by done. rewrite npages_spec by done. change ((size + 2 ^ 12 - 1) / 2 ^ 12) with (page_num size).
  rewrite allocPhysPages_spec by (lia || done). rewrite Hlast. cbn [rbind]. by rewrite Her.
Qed.

Lemma map_refuses_taken p v paddr size u :
  mem_inv p -> 0 < size < 2 ^ 42 -> 0 <= v -> v mod PageBytes = 0 -> v + page_num size * PageBytes <= 2 ^ 64 ->
  v <= u < v + page_num size * PageBytes -> is_Some (pt_image (pr_pTable p) u) ->
  pt_map (pr_pTable p) v paddr size 0 = Err Fatal.
Proof.
  intros Hp Hz Hv Hva Hvn Hu Hsome. destruct (mem_wf _ Hp) as (_ & E1 & E2). change PageBytes with (2 ^ 12) in *.
  assert (page_count (pr_pTable p) size = page_num size) as Hn by (unfold page_count; by rewrite E1).
  rewrite mem_image, fmap_is_Some in Hsome by (done || (unfold in_range; lia)).
  apply (pt_map_taken _ 12 _ _ _ _ (u - u mod 2 ^ 12)); rewrite ?Hn; try done; try lia.
  rewrite (in_region_byte _ 12) by (done || lia). rewrite andb_true_iff. lia.
Qed.

(** ** The stack *)

Definition unused (p : Process) (lo hi : Z) : Prop :=
  forall u, lo <= u < hi -> plain_addr p u = true /\ pt_image (pr_pTable p) u = None.

(** The addresses of [lo, hi) are mapped, the others are what they were. *)
Definition maps_only (p p' : Process) (lo hi : Z) : Prop :=
  forall a, is_u64 a -> if (lo <=? a) && (a <? hi) then is_Some (pt_image (pr_pTable p') a)
                        else pt_image (pr_pTable p') a = pt_image (pr_pTable p) a.

Lemma grow_stack_ok k fuel p v :
  mem_inv p -> (k <= fuel)%nat -> 0 <= v -> stack_min p = v - v mod PageBytes + Z.of_nat k * PageBytes ->
  stack_min p <= stack_base p < 2 ^ 64 -> stack_base p - (v - v mod PageBytes) <= max_stack_size p ->
  unused p (v - v mod PageBytes) (stack_min p) ->
  (pagePtr (pr_system p) + Z.of_nat k) * PageBytes <= physmem_totalSize (pr_system p) < 0xffff0000 ->
  exists p', grow_stack fuel p v = Ok p' /\ mem_inv p' /\ stack_min p' = v - v mod PageBytes /\
  maps_only p p' (v - v mod PageBytes) (stack_min p).
Proof.
  change PageBytes with (2 ^ 12). revert fuel p. induction k as [|k IH]; intros fuel p Hp Hf Hv Hmin Hbase Hmax Hun Hroom.
  { exists p. pose proof (Z.mod_pos_bound v (2 ^ 12)). split; [destruct fuel; cbn [grow_stack]; by rewrite (proj2 (Z.ltb_ge _ _)) by lia|].
    split; [done|]. split; [lia|]. intros a Ha. by replace ((_ <=? a) && (a <? _)) with false by lia. }
  destruct fuel as [|fuel]; [lia|]. cbn [grow_stack]. pose proof (Z.mod_pos_bound v (2 ^ 12)). pose proof (Z.mod_le v (2 ^ 12)).
  rewrite (proj2 (Z.ltb_lt _ _)) by lia. change PageBytes with (2 ^ 12). cbn [max_stack_size stack_base stack_min with_stack_min].
  set (m := stack_min p - 2 ^ 12) in *. rewrite (u64_small m), (u64_small (stack_base p - m)) by (unfold in_range; lia).
  rewrite (proj2 (Z.ltb_ge _ _)) by lia. set (p1 := with_stack_min p m).
  assert (mem_inv p1) as Hp1 by (destruct Hp; by split).
  assert (m mod 2 ^ 12 = 0) as Hma.
  { pose proof (Z.div_mod v (2 ^ 12)). replace m with ((v / 2 ^ 12 + Z.of_nat k) * 2 ^ 12) by lia. by rewrite Z.mod_mul. }
  destruct (allocateMem_ok p1 m (2 ^ 12) false Hp1) as (t & Ha & Hinv & Himg); change (page_num (2 ^ 12)) with 1; change PageBytes with (2 ^ 12);
    cbn [p1 pr_pTable pr_system with_stack_min]; try lia;
    [apply (Hun m); lia|right; intros u Hu; apply (Hun u); lia|rewrite frames_small by lia; unfold next_frame; change PageBytes with (2 ^ 12); lia|].
  rewrite Ha. cbn [rbind]. set (p2 := with_mem p1 _ t) in *.
  destruct (IH fuel p2) as (p' & Hg & Hp' & Hm' & Hmap); cbn [p2 p1 stack_min stack_base max_stack_size with_mem with_stack_min pr_system pagePtr physmem_totalSize set_pagePtr];
    change (page_num (2 ^ 12)) with 1; try lia; try done.
  { intros u Hu. split; [apply (Hun u); lia|]. cbn [pr_pTable p2 with_mem]. rewrite Himg by (unfold in_range; lia).
    change (page_num (2 ^ 12)) with 1. change PageBytes with (2 ^ 12). rewrite (proj2 (Z.leb_gt m u)) by lia. apply (Hun u). lia. }
  exists p'. split; [done|]. split; [done|]. split; [done|]. intros a Haa. specialize (Hmap a Haa). cbn [stack_min p2 with_mem p1 with_stack_min pr_pTable] in Hmap.
  rewrite Himg in Hmap by done. change (page_num (2 ^ 12)) with 1 in Hmap. change PageBytes with (2 ^ 12) in Hmap. cbn [pr_pTable p1 with_stack_min] in Hmap.
  destruct (Z.leb_spec (v - v mod 2 ^ 12) a), (Z.ltb_spec a (stack_min p)); cbn [andb].
  - destruct (Z.ltb_spec a m); cbn [andb] in Hmap; [done|]. rewrite Hmap.
    rewrite (proj2 (Z.leb_le m a)), (proj2 (Z.ltb_lt a _)) by lia. by eexists.
  - rewrite (proj2 (Z.ltb_ge a m)) in Hmap by lia. cbn [andb] in Hmap. by rewrite (proj2 (Z.ltb_ge a _)), andb_false_r in Hmap by lia.
  - cbn [andb] in Hmap. by rewrite (proj2 (Z.leb_gt m a)) in Hmap by lia.
  - lia.
Qed.

(** ** Devices *)

Lemma vdev_loop_found vs ps v i rv rp :
  vs !! i = Some rv -> ps !! i = Some rp -> contains rv v = true ->
  (forall j r, (j < i)%nat -> vs !! j = Some r -> contains r v = false) ->
  vdev_loop vs ps v = Ok (ar_start rp, swrap 64 (ar_size rp)).
Proof.
  revert vs ps. induction i as [|i IH]; intros [|r vs] [|q ps] Hv Hp Hc Hfirst; try done; cbn [vdev_loop].
  - injection Hv as ->. injection Hp as ->. by rewrite Hc.
  - rewrite (Hfirst 0%nat r) by (done || lia). apply IH; try done. intros j r' Hj. apply (Hfirst (S j)). lia.
Qed.

Lemma isVAddrOfVdev_in s i rv v : vaddr_vdev_ranges s !! i = Some rv -> contains rv v = true -> isVAddrOfVdev s v = true.
Proof. intros Hv Hc. apply existsb_exists. exists rv. split; [|done]. by apply list_elem_of_In, list_elem_of_lookup_2 with i. Qed.

(** ** Properties *)

(** C9: Memory given to a process is fresh.  For [allocateMem] of [size] bytes
    (less than [2 ^ 42]) at an address without a device, the region lying in the
    address space:
    - if the frames do not last, the simulation ends with a fatal error;
    - otherwise, if the address is not at a page boundary, an assertion fails;
    - otherwise, if a byte of the region is mapped already and the caller did not
      ask to clobber it, the simulation ends with a fatal error;
    - otherwise the region is mapped to the frames after those handed out
      before, no other address changes, and still no two addresses of the
      process share a byte of memory.
    The one case left out is a memory that covers the last page below 4 GiB
    when the frames end in the last 64 KiB below it ([hits_m5ops]): the code then
    hands out the address [0xffffffff], as the findings note. *)
Theorem allocation_fresh p v size (clobber : bool) :
  mem_inv p -> plain_addr p v = true -> 0 < size < 2 ^ 42 -> 0 <= v -> v + page_num size * PageBytes <= 2 ^ 64 ->
  hits_m5ops (pr_system p) (page_num size) = false ->
  let inside u := v <= u < v + page_num size * PageBytes in
  if negb (frames_last (pr_system p) (page_num size)) then allocateMem p v size clobber = Err Fatal
  else if negb (v mod PageBytes =? 0) then allocateMem p v size clobber = Err Assert_failed
  else
    ((exists u, inside u /\ is_Some (pt_image (pr_pTable p) u)) -> clobber = false ->
       allocateMem p v size clobber = Err Fatal) /\
    (clobber = true \/ (forall u, inside u -> pt_image (pr_pTable p) u = None) ->
       exists p', allocateMem p v size clobber = Ok p' /\ mem_inv p' /\
       (forall a, is_u64 a -> pt_image (pr_pTable p') a =
          if (v <=? a) && (a <? v + page_num size * PageBytes) then Some (pagePtr (pr_system p) * PageBytes + (a - v))
          else pt_image (pr_pTable p) a) /\
       (forall a b x, is_u64 a -> is_u64 b -> pt_image (pr_pTable p') a = Some x -> pt_image (pr_pTable p') b = Some x ->
          x < physmem_totalSize (pr_system p) -> a = b)).
Proof.
  intros Hp Hpl Hz Hv Hvn Hm inside. destruct (frames_last _ _) eqn:Hlast; cbn [negb]; [|by apply allocateMem_full].
  destruct (Z.eqb_spec (v mod PageBytes) 0) as [Hva|Hva]; cbn [negb].
  - split.
    + intros (u & Hu & Hsome) ->. apply allocateMem_refused; try done. intros paddr. by apply map_refuses_taken with u.
    + intros Hfree. destruct (allocateMem_ok p v size clobber) as (t & Ha & Hinv & Himg); try done.
      eexists. split; [exact Ha|]. split; [done|]. split; [done|]. intros a b x H1 H2 H3 H4 H5.
      exact (mem_no_alias _ a b x Hinv H1 H2 H3 H4 H5).
  - apply allocateMem_refused; try done. intros paddr. destruct (mem_wf _ Hp) as (_ & _ & E2).
    by apply (pt_map_unaligned _ 12).
Qed.

(** A process with 16 pages of memory and a device of two pages. *)
Definition demo_system : System :=
  mkSystem 0 0x10000 [AddrRange_plain 0x40000000 0x40001fff] true [AddrRange_plain 0x80000000 0x80001fff].
Definition demo_process : Process := mkProcess demo_system demo_table 0xbf000000 0xbefff000 0x800000.

Lemma demo_process_inv : mem_inv demo_process.
Proof. split; [done|split; done|done|done| |]; intros; cbn in *; discriminate. Qed.

Lemma allocation_fresh_witness :
  exists p', allocateMem demo_process 0x10000 0x1800 false = Ok p' /\ pt_image (pr_pTable p') 0x11004 = Some 0x1004.
Proof.
  assert (forall u, 0x10000 <= u < 0x10000 + page_num 0x1800 * PageBytes -> pt_image (pr_pTable demo_process) u = None) as Hfree.
  { intros u _. rewrite pt_image_ok by (split; done). done. }
  destruct (allocation_fresh demo_process 0x10000 0x1800 false demo_process_inv eq_refl ltac:(lia) ltac:(lia)
    ltac:(vm_compute; congruence) eq_refl) as [_ H].
  destruct (H (or_intror Hfree)) as (p' & H1 & _ & H2 & _). exists p'. split; [exact H1|].
  rewrite H2 by (unfold in_range; lia). vm_compute. reflexivity.
Defined.

(** A fault in the stack region is repaired.  If the faulting address lies
    below the stack but within its maximal size, the pages below are free and
    the frames last, then [fixupStackFault] reports success, the loop having
    stopped with the stack reaching down to the page of the address, all of
    which is now mapped, and nothing else has changed. *)
Theorem stack_fault_repaired p v :
  mem_inv p -> 0 <= v < stack_min p -> stack_min p mod PageBytes = 0 -> stack_min p <= stack_base p < 2 ^ 64 ->
  0 <= max_stack_size p <= stack_base p -> stack_base p - (v - v mod PageBytes) <= max_stack_size p ->
  unused p (v - v mod PageBytes) (stack_min p) ->
  pagePtr (pr_system p) * PageBytes + (stack_min p - (v - v mod PageBytes)) <= physmem_totalSize (pr_system p) < 0xffff0000 ->
  exists p', fixupStackFault p v = Ok (true, p') /\ mem_inv p' /\ stack_min p' = v - v mod PageBytes /\
  maps_only p p' (v - v mod PageBytes) (stack_min p).
Proof.
  intros Hp Hv Hal Hbase Hmax Hlim Hun Hroom. change PageBytes with (2 ^ 12) in *. unfold fixupStackFault.
  rewrite (proj2 (Z.leb_gt (stack_min p) v)), (proj2 (Z.ltb_lt v (stack_min p))) by lia. cbn [andb]. pose proof (Z.mod_pos_bound v (2 ^ 12)).
  rewrite u64_small by (unfold in_range; lia). rewrite (proj2 (Z.leb_le _ v)) by lia. change PageBytes with (2 ^ 12).
  pose proof (Z.div_mod v (2 ^ 12)). pose proof (Z.div_mod (stack_min p) (2 ^ 12)). set (k := Z.to_nat (stack_min p / 2 ^ 12 - v / 2 ^ 12)).
  assert (v / 2 ^ 12 <= stack_min p / 2 ^ 12) by (apply Z.div_le_mono; lia).
  destruct (grow_stack_ok k (Z.to_nat ((stack_min p - v) / 2 ^ 12 + 1)) p v) as (p' & -> & Hp' & Hm & Hmap);
    change PageBytes with (2 ^ 12); try done; try lia; [|exists p'; cbn [rbind]; split_and!; done].
  unfold k. apply Z2Nat.inj_le; [lia|pose proof (Z.div_pos (stack_min p - v) (2 ^ 12)); lia|].
  assert (stack_min p / 2 ^ 12 - v / 2 ^ 12 - 1 <= (stack_min p - v) / 2 ^ 12) by (apply Z.div_le_lower_bound; lia). lia.
Qed.

Lemma stack_fault_repaired_witness :
  exists p', fixupStackFault demo_process 0xbeffc010 = Ok (true, p') /\ stack_min p' = 0xbeffc000.
Proof.
  destruct (stack_fault_repaired demo_process 0xbeffc010) as (p' & H1 & _ & H2 & _);
    [exact demo_process_inv|cbn; lia|reflexivity|cbn; lia|cbn; lia|vm_compute; congruence| |split; vm_compute; congruence|].
  - intros u Hu. change (0xbeffc000 <= u < 0xbefff000) in Hu. split; [|rewrite pt_image_ok by (split; done); done].
    unfold plain_addr, isVAddrOfVdev. cbn. rewrite (proj2 (Z.leb_gt u _)) by lia. by rewrite !andb_false_r.
  - exists p'. split; [exact H1|]. rewrite H2. vm_compute. reflexivity.
Defined.

(** A device is reached through its virtual range.  When a process allocates
    at the start of the virtual range of device [i], not shared with an earlier
    device, and the registers of the device start a page above the memory, then
    the pages of the device are mapped to it one to one; memory stays free of
    aliases. *)
Theorem device_mapped p i rv rp v size (clobber : bool) :
  mem_inv p -> has_vdev (pr_system p) = true ->
  vaddr_vdev_ranges (pr_system p) !! i = Some rv -> vdev_ranges (pr_system p) !! i = Some rp -> contains rv v = true ->
  (forall j r, (j < i)%nat -> vaddr_vdev_ranges (pr_system p) !! j = Some r -> contains r v = false) ->
  0 < ar_size rp < 2 ^ 63 -> 0 <= v -> v mod PageBytes = 0 -> ar_start rp mod PageBytes = 0 ->
  physmem_totalSize (pr_system p) <= ar_start rp ->
  v + page_num (ar_size rp) * PageBytes <= 2 ^ 64 -> ar_start rp + page_num (ar_size rp) * PageBytes <= 2 ^ 64 ->
  (clobber = true \/ forall u, in_region (pr_pTable p) v (page_num (ar_size rp)) u = true -> pTable (pr_pTable p) !! u = None) ->
  exists p', allocateMem p v size clobber = Ok p' /\ mem_inv p' /\
  forall a, is_u64 a -> pt_image (pr_pTable p') a =
    if (v <=? a) && (a <? v + page_num (ar_size rp) * PageBytes) then Some (ar_start rp + (a - v)) else pt_image (pr_pTable p) a.
Proof.
  intros Hp Hhas Hrv Hrp Hc Hfirst Hsz Hv Hva Hpa Habove Hvn Hpn Hfree. destruct (mi_ptr _ Hp) as [H0 H1].
  destruct (mem_wf _ Hp) as (_ & E1 & _). assert (page_count (pr_pTable p) (ar_size rp) = page_num (ar_size rp)) as Hn
    by (unfold page_count; by rewrite E1).
  unfold allocateMem. rewrite Hhas, (isVAddrOfVdev_in _ i rv) by done. unfold allocVdevPages.
  rewrite (vdev_loop_found _ _ v i rv rp) by done. cbn [rbind]. rewrite swrap_small by (cbn; lia).
  assert (0 <= pagePtr (pr_system p) * PageBytes) by (change PageBytes with (2 ^ 12); lia).
  destruct (map_mem_ok p (pr_system p) v (ar_start rp) (ar_size rp) clobber) as (t & -> & Hinv & Himg);
    rewrite ?Hn; try done; try lia. eexists. split; [done|]. split; [done|]. by rewrite Hn in Himg.
Qed.

Lemma device_mapped_witness :
  exists p', allocateMem demo_process 0x80000000 4 false = Ok p' /\ pt_image (pr_pTable p') 0x80001004 = Some 0x40001004.
Proof.
  destruct (device_mapped demo_process 0 (AddrRange_plain 0x80000000 0x80001fff) (AddrRange_plain 0x40000000 0x40001fff) 0x80000000 4 false)
    as (p' & H1 & _ & H2); [exact demo_process_inv|reflexivity..| | | | | | | | | |].
  - intros j r Hj. lia.
  - vm_compute. split; reflexivity.
  - lia.
  - reflexivity.
  - reflexivity.
  - vm_compute. congruence.
  - vm_compute. congruence.
  - vm_compute. congruence.
  - right. intros u _. reflexivity.
  - exists p'. split; [exact H1|]. rewrite H2 by (unfold in_range; lia). vm_compute. reflexivity.
Defined.

(** What a process gets at the second page of a device, and at a device that
    does not start at a page. *)
Definition second_page : Process :=
  match allocateMem demo_process 0x80001000 4 false with Ok p => p | Err _ => demo_process end.
Definition unaligned_process : Process :=
  mkProcess (mkSystem 0 0x10000 [AddrRange_plain 0x40000010 0x40000013] true [AddrRange_plain 0x80000000 0x80000003])
    demo_table 0xbf000000 0xbefff000 0x800000.
Definition unaligned_page : Process :=
  match allocateMem unaligned_process 0x80000000 4 false with Ok p => p | Err _ => unaligned_process end.

(** The second page of a device is mapped to its first: [allocVdevPages] returns
    the start of the device for every address of its virtual range. *)
Theorem device_second_page :
  allocateMem demo_process 0x80001000 4 false = Ok second_page /\ pt_image (pr_pTable second_page) 0x80001004 = Some 0x40000004.
Proof. split; vm_compute; reflexivity. Qed.

(** The frame of a device that does not start at a page loses the offset. *)
Theorem device_unaligned :
  allocateMem unaligned_process 0x80000000 4 false = Ok unaligned_page /\ pt_image (pr_pTable unaligned_page) 0x80000000 = Some 0x40000000.
Proof. split; vm_compute; reflexivity. Qed.
