(* ===== verification/Packet.v ===== *)
(** * Memory requests and packets

    [mem/request.hh]: requests with their flags; [mem/packet.hh] and
    [mem/packet.cc]: the table of memory commands, packets, and
    [checkFunctional], by which a functional access looks for its bytes in the
    packets on their way.  Bytes are [Z] in [[0, 256)]; the buffer a packet
    points to is a list of bytes carried by the packet, [None] for a null
    pointer.  A request is modelled inside the packet that carries it. *)
From S2P Require Import Prelude Flags IntMath.

(** ** Byte buffers *)

(** [memcpy(dst + doff, src + soff, n)]; [n] is a [size_t], so a negative
    length is a huge one and leaves the buffers. *)
Definition memcpy (dst : list Z) (doff : Z) (src : list Z) (soff n : Z) : result (list Z) :=
  if (0 <=? n) && (0 <=? doff) && (doff + n <=? Z.of_nat (length dst)) &&
     (0 <=? soff) && (soff + n <=? Z.of_nat (length src))
  then Ok (take (Z.to_nat doff) dst ++ take (Z.to_nat n) (drop (Z.to_nat soff) src) ++
           drop (Z.to_nat (doff + n)) dst)
  else Err Bad_pointer.

(** ** Definitions: mem/request.hh *)

Definition INST_FETCH : Z := 0x00000100.
Definition PHYSICAL : Z := 0x00000200.
Definition UNCACHEABLE : Z := 0x00000400.
Definition STRICT_ORDER : Z := 0x00000800.
Definition MMAPPED_IPR : Z := 0x00002000.
Definition CLEAR_LL : Z := 0x00004000.
Definition PRIVILEGED : Z := 0x00008000.
Definition NO_ACCESS : Z := 0x00080000.
Definition LOCKED_RMW : Z := 0x00100000.
Definition LLSC : Z := 0x00200000.
Definition MEM_SWAP : Z := 0x00400000.
Definition MEM_SWAP_COND : Z := 0x00800000.
Definition PREFETCH : Z := 0x01000000.
Definition SECURE : Z := 0x10000000.
Definition PT_WALK : Z := 0x20000000.
Definition STICKY_FLAGS : Z := INST_FETCH.

Definition RQ_VALID_SIZE : Z := 0x01.
Definition RQ_VALID_PADDR : Z := 0x02.
Definition RQ_VALID_VADDR : Z := 0x04.
Definition RQ_VALID_PC : Z := 0x10.
Definition RQ_VALID_CONTEXT_ID : Z := 0x20.
Definition RQ_VALID_THREAD_ID : Z := 0x40.
Definition RQ_VALID_EXTRA_DATA : Z := 0x80.
Definition STICKY_PRIVATE_FLAGS : Z := Z.lor RQ_VALID_CONTEXT_ID RQ_VALID_THREAD_ID.

(** [Request]; its latency statistics ([depth], [accessDelta],
    [translateDelta]) and [_taskId] are left out. *)
Record Request := mkRequest {
  _paddr : Z;
  _size : Z;          (** [unsigned] *)
  _masterId : Z;
  _flags : Z;         (** 32 bits *)
  privateFlags : Z;   (** 8 bits *)
  _time : Z;
  _asid : Z;
  _vaddr : Z;
  _extraData : Z;
  _contextId : Z;     (** [int] *)
  _threadId : Z;
  _pc : Z;
}.

Definition invldMasterId : Z := 0xffff.

Definition Request_0 : Request := mkRequest 0 0 invldMasterId 0 0 0 0 0 0 0 0 0.

(** [setPhys(paddr, size, flags, mid, time)]. *)
Definition setPhys (r : Request) (paddr size flags mid time : Z) : Request :=
  mkRequest paddr size mid
    (flag_set (flag_clear_at 32 (_flags r) (u32 (Z.lnot STICKY_FLAGS))) flags)
    (flag_set (flag_clear_at 8 (privateFlags r) (u8 (Z.lnot STICKY_PRIVATE_FLAGS)))
              (Z.lor RQ_VALID_PADDR RQ_VALID_SIZE))
    time (_asid r) (_vaddr r) (_extraData r) (_contextId r) (_threadId r) (_pc r).

(** [Request(paddr, size, flags, mid, time)]. *)
Definition Request_phys (paddr size flags mid time : Z) : Request :=
  setPhys Request_0 paddr size flags mid time.

(** [setThreadContext(context_id, tid)]. *)
Definition setThreadContext (r : Request) (cid tid : Z) : Request :=
  mkRequest (_paddr r) (_size r) (_masterId r) (_flags r)
    (flag_set (privateFlags r) (Z.lor RQ_VALID_CONTEXT_ID RQ_VALID_THREAD_ID))
    (_time r) (_asid r) (_vaddr r) (_extraData r) cid tid (_pc r).

(** [setVirt(asid, vaddr, size, flags, mid, pc)] at time [now]. *)
Definition setVirt (r : Request) (asid vaddr size flags mid pc now : Z) : Request :=
  mkRequest (_paddr r) size mid
    (flag_set (flag_clear_at 32 (_flags r) (u32 (Z.lnot STICKY_FLAGS))) flags)
    (flag_set (flag_clear_at 8 (privateFlags r) (u8 (Z.lnot STICKY_PRIVATE_FLAGS)))
              (Z.lor (Z.lor RQ_VALID_VADDR RQ_VALID_SIZE) RQ_VALID_PC))
    now asid vaddr (_extraData r) (_contextId r) (_threadId r) pc.

(** [setPaddr(paddr)]. *)
Definition setPaddr (r : Request) (paddr : Z) : Request :=
  mkRequest paddr (_size r) (_masterId r) (_flags r)
    (flag_set (privateFlags r) RQ_VALID_PADDR)
    (_time r) (_asid r) (_vaddr r) (_extraData r) (_contextId r) (_threadId r) (_pc r).

(** [setFlags(flags)]. *)
Definition rq_setFlags (r : Request) (flags : Z) : result Request :=
  let* _ := assert_ (flag_isSet (privateFlags r) (Z.lor RQ_VALID_PADDR RQ_VALID_VADDR)) in
  Ok (mkRequest (_paddr r) (_size r) (_masterId r) (flag_set (_flags r) flags) (privateFlags r)
        (_time r) (_asid r) (_vaddr r) (_extraData r) (_contextId r) (_threadId r) (_pc r)).

(** [setExtraData(extraData)]. *)
Definition setExtraData (r : Request) (extraData : Z) : Request :=
  mkRequest (_paddr r) (_size r) (_masterId r) (_flags r)
    (flag_set (privateFlags r) RQ_VALID_EXTRA_DATA)
    (_time r) (_asid r) (_vaddr r) extraData (_contextId r) (_threadId r) (_pc r).

Definition with_piece (r : Request) (vaddr size : Z) : Request :=
  mkRequest (_paddr r) size (_masterId r) (_flags r) (privateFlags r)
    (_time r) (_asid r) vaddr (_extraData r) (_contextId r) (_threadId r) (_pc r).

(** [splitOnVaddr(split_addr, req1, req2)]. *)
Definition splitOnVaddr (r : Request) (split_addr : Z) : result (Request * Request) :=
  let* _ := assert_ (flag_isSet (privateFlags r) RQ_VALID_VADDR) in
  let* _ := assert_ (flag_noneSet (privateFlags r) RQ_VALID_PADDR) in
  let* _ := assert_ ((_vaddr r <? split_addr) && (split_addr <? u64 (_vaddr r + _size r))) in
  let size1 := u32 (split_addr - _vaddr r) in
  Ok (with_piece r (_vaddr r) size1, with_piece r split_addr (u32 (_size r - size1))).

Definition hasPaddr (r : Request) : bool := flag_isSet (privateFlags r) RQ_VALID_PADDR.
Definition getPaddr (r : Request) : result Z :=
  let* _ := assert_ (flag_isSet (privateFlags r) RQ_VALID_PADDR) in Ok (_paddr r).
Definition hasSize (r : Request) : bool := flag_isSet (privateFlags r) RQ_VALID_SIZE.
Definition rq_getSize (r : Request) : result Z :=
  let* _ := assert_ (flag_isSet (privateFlags r) RQ_VALID_SIZE) in Ok (_size r).
Definition hasVaddr (r : Request) : bool := flag_isSet (privateFlags r) RQ_VALID_VADDR.
Definition getVaddr (r : Request) : result Z :=
  let* _ := assert_ (flag_isSet (privateFlags r) RQ_VALID_VADDR) in Ok (_vaddr r).
Definition extraDataValid (r : Request) : bool := flag_isSet (privateFlags r) RQ_VALID_EXTRA_DATA.
Definition getExtraData (r : Request) : result Z :=
  let* _ := assert_ (flag_isSet (privateFlags r) RQ_VALID_EXTRA_DATA) in Ok (_extraData r).
Definition contextId (r : Request) : result Z :=
  let* _ := assert_ (flag_isSet (privateFlags r) RQ_VALID_CONTEXT_ID) in Ok (_contextId r).

Definition isUncacheable (r : Request) : bool := flag_isSet (_flags r) UNCACHEABLE.
Definition isInstFetch (r : Request) : bool := flag_isSet (_flags r) INST_FETCH.
Definition rq_isPrefetch (r : Request) : bool := flag_isSet (_flags r) PREFETCH.
Definition rq_isLLSC (r : Request) : bool := flag_isSet (_flags r) LLSC.
Definition isLockedRMW (r : Request) : bool := flag_isSet (_flags r) LOCKED_RMW.
Definition isSwap (r : Request) : bool := flag_isSet (_flags r) (Z.lor MEM_SWAP MEM_SWAP_COND).
Definition isCondSwap (r : Request) : bool := flag_isSet (_flags r) MEM_SWAP_COND.
Definition isMmappedIpr (r : Request) : bool := flag_isSet (_flags r) MMAPPED_IPR.
Definition rq_isSecure (r : Request) : bool := flag_isSet (_flags r) SECURE.

(** ** Definitions: the memory commands *)

(** [MemCmd::Command]. *)
Inductive MemCmd :=
  | InvalidCmd | ReadReq | ReadResp | ReadRespWithInvalidate | WriteReq | WriteResp
  | Writeback | SoftPFReq | HardPFReq | SoftPFResp | HardPFResp
  | WriteInvalidateReq | WriteInvalidateResp | UpgradeReq | SCUpgradeReq | UpgradeResp
  | SCUpgradeFailReq | UpgradeFailResp | ReadExReq | ReadExResp | LoadLockedReq
  | StoreCondReq | StoreCondFailReq | StoreCondResp | SwapReq | SwapResp
  | MessageReq | MessageResp | InvalidDestError | BadAddressError
  | FunctionalReadError | FunctionalWriteError | PrintReq | FlushReq | InvalidationReq.

#[export] Instance MemCmd_eq_dec : EqDecision MemCmd.
Proof. solve_decision. Defined.

(** [MemCmd::Attribute]. *)
Inductive Attribute :=
  | IsRead | IsWrite | IsUpgrade | IsInvalidate | NeedsExclusive | IsRequest | IsResponse
  | NeedsResponse | IsSWPrefetch | IsHWPrefetch | IsLlsc | HasData | IsError | IsPrint
  | IsFlush.

#[export] Instance Attribute_eq_dec : EqDecision Attribute.
Proof. solve_decision. Defined.

(** [commandInfo[cmd]]: the attributes and the response of a command. *)
Definition commandInfo (c : MemCmd) : list Attribute * MemCmd :=
  match c with
  | InvalidCmd => ([], InvalidCmd)
  | ReadReq => ([IsRead; IsRequest; NeedsResponse], ReadResp)
  | ReadResp => ([IsRead; IsResponse; HasData], InvalidCmd)
  | ReadRespWithInvalidate => ([IsRead; IsResponse; HasData; IsInvalidate], InvalidCmd)
  | WriteReq => ([IsWrite; NeedsExclusive; IsRequest; NeedsResponse; HasData], WriteResp)
  | WriteResp => ([IsWrite; NeedsExclusive; IsResponse], InvalidCmd)
  | Writeback => ([IsWrite; NeedsExclusive; IsRequest; HasData], InvalidCmd)
  | SoftPFReq => ([IsRead; IsRequest; IsSWPrefetch; NeedsResponse], SoftPFResp)
  | HardPFReq => ([IsRead; IsRequest; IsHWPrefetch; NeedsResponse], HardPFResp)
  | SoftPFResp => ([IsRead; IsResponse; IsSWPrefetch; HasData], InvalidCmd)
  | HardPFResp => ([IsRead; IsResponse; IsHWPrefetch; HasData], InvalidCmd)
  | WriteInvalidateReq =>
      ([IsWrite; NeedsExclusive; IsInvalidate; IsRequest; HasData; NeedsResponse],
       WriteInvalidateResp)
  | WriteInvalidateResp => ([IsWrite; NeedsExclusive; IsResponse], InvalidCmd)
  | UpgradeReq =>
      ([IsInvalidate; NeedsExclusive; IsUpgrade; IsRequest; NeedsResponse], UpgradeResp)
  | SCUpgradeReq =>
      ([IsInvalidate; NeedsExclusive; IsUpgrade; IsLlsc; IsRequest; NeedsResponse], UpgradeResp)
  | UpgradeResp => ([NeedsExclusive; IsUpgrade; IsResponse], InvalidCmd)
  | SCUpgradeFailReq =>
      ([IsRead; NeedsExclusive; IsInvalidate; IsLlsc; IsRequest; NeedsResponse], UpgradeFailResp)
  | UpgradeFailResp => ([IsRead; NeedsExclusive; IsResponse; HasData], InvalidCmd)
  | ReadExReq => ([IsRead; NeedsExclusive; IsInvalidate; IsRequest; NeedsResponse], ReadExResp)
  | ReadExResp => ([IsRead; NeedsExclusive; IsResponse; HasData], InvalidCmd)
  | LoadLockedReq => ([IsRead; IsLlsc; IsRequest; NeedsResponse], ReadResp)
  | StoreCondReq =>
      ([IsWrite; NeedsExclusive; IsLlsc; IsRequest; NeedsResponse; HasData], StoreCondResp)
  | StoreCondFailReq =>
      ([IsWrite; NeedsExclusive; IsLlsc; IsRequest; NeedsResponse; HasData], StoreCondResp)
  | StoreCondResp => ([IsWrite; NeedsExclusive; IsLlsc; IsResponse], InvalidCmd)
  | SwapReq => ([IsRead; IsWrite; NeedsExclusive; IsRequest; HasData; NeedsResponse], SwapResp)
  | SwapResp => ([IsRead; IsWrite; NeedsExclusive; IsResponse; HasData], InvalidCmd)
  | MessageReq => ([IsWrite; IsRequest; NeedsResponse; HasData], MessageResp)
  | MessageResp => ([IsWrite; IsResponse], InvalidCmd)
  | InvalidDestError => ([IsResponse; IsError], InvalidCmd)
  | BadAddressError => ([IsResponse; IsError], InvalidCmd)
  | FunctionalReadError => ([IsRead; IsResponse; IsError], InvalidCmd)
  | FunctionalWriteError => ([IsWrite; IsResponse; IsError], InvalidCmd)
  | PrintReq => ([IsRequest; IsPrint], InvalidCmd)
  | FlushReq => ([IsRequest; IsFlush; NeedsExclusive], InvalidCmd)
  | InvalidationReq => ([NeedsExclusive; IsInvalidate; IsRequest], InvalidCmd)
  end.

Definition testCmdAttrib (c : MemCmd) (a : Attribute) : bool :=
  bool_decide (a ∈ (commandInfo c).1).

Definition isRead (c : MemCmd) : bool := testCmdAttrib c IsRead.
Definition isWrite (c : MemCmd) : bool := testCmdAttrib c IsWrite.
Definition isUpgrade (c : MemCmd) : bool := testCmdAttrib c IsUpgrade.
Definition isRequest (c : MemCmd) : bool := testCmdAttrib c IsRequest.
Definition isResponse (c : MemCmd) : bool := testCmdAttrib c IsResponse.
Definition needsExclusive (c : MemCmd) : bool := testCmdAttrib c NeedsExclusive.
Definition needsResponse (c : MemCmd) : bool := testCmdAttrib c NeedsResponse.
Definition isInvalidate (c : MemCmd) : bool := testCmdAttrib c IsInvalidate.
Definition isWriteInvalidate (c : MemCmd) : bool :=
  testCmdAttrib c IsWrite && testCmdAttrib c IsInvalidate.
Definition hasData (c : MemCmd) : bool := testCmdAttrib c HasData.
Definition isLLSC (c : MemCmd) : bool := testCmdAttrib c IsLlsc.
Definition isPrefetch (c : MemCmd) : bool :=
  testCmdAttrib c IsSWPrefetch || testCmdAttrib c IsHWPrefetch.
Definition isError (c : MemCmd) : bool := testCmdAttrib c IsError.
Definition isPrint (c : MemCmd) : bool := testCmdAttrib c IsPrint.
Definition isFlush (c : MemCmd) : bool := testCmdAttrib c IsFlush.
Definition responseCommand (c : MemCmd) : MemCmd := (commandInfo c).2.

(** ** Definitions: packets *)

Definition COPY_FLAGS : Z := 0x0000000f.
Definition SHARED : Z := 0x00000001.
Definition EXPRESS_SNOOP : Z := 0x00000002.
Definition SUPPLY_EXCLUSIVE : Z := 0x00000004.
Definition MEM_INHIBIT : Z := 0x00000008.
Definition VALID_ADDR : Z := 0x00000100.
Definition VALID_SIZE : Z := 0x00000200.
Definition STATIC_DATA : Z := 0x00001000.
Definition DYNAMIC_DATA : Z := 0x00002000.

(** [Packet]; its delays and sender state belong to the crossbars. *)
Record Packet := mkPacket {
  flags : Z;
  cmd : MemCmd;
  req : Request;
  data : option (list Z);
  addr : Z;
  _isSecure : bool;
  pk_size : Z;           (** [unsigned] *)
  origCmd : MemCmd;
  bytesValid : list bool;
}.

Definition with_flags (p : Packet) (f : Z) : Packet :=
  mkPacket f (cmd p) (req p) (data p) (addr p) (_isSecure p) (pk_size p) (origCmd p) (bytesValid p).
Definition with_cmd (p : Packet) (c : MemCmd) : Packet :=
  mkPacket (flags p) c (req p) (data p) (addr p) (_isSecure p) (pk_size p) (origCmd p) (bytesValid p).
Definition with_req (p : Packet) (r : Request) : Packet :=
  mkPacket (flags p) (cmd p) r (data p) (addr p) (_isSecure p) (pk_size p) (origCmd p) (bytesValid p).
Definition with_data (p : Packet) (d : option (list Z)) : Packet :=
  mkPacket (flags p) (cmd p) (req p) d (addr p) (_isSecure p) (pk_size p) (origCmd p) (bytesValid p).
Definition with_bytesValid (p : Packet) (b : list bool) : Packet :=
  mkPacket (flags p) (cmd p) (req p) (data p) (addr p) (_isSecure p) (pk_size p) (origCmd p) b.

(** [Packet(req, cmd)]. *)
Definition new_Packet (r : Request) (c : MemCmd) : Packet :=
  mkPacket
    (Z.lor (if hasPaddr r then VALID_ADDR else 0) (if hasSize r then VALID_SIZE else 0))
    c r None (if hasPaddr r then _paddr r else 0) (hasPaddr r && rq_isSecure r)
    (if hasSize r then _size r else 0) InvalidCmd [].

(** [Packet(req, cmd, blkSize)]: the whole block of the request's address. *)
Definition new_Packet_blk (r : Request) (c : MemCmd) (blkSize : Z) : Packet :=
  mkPacket
    (Z.lor (if hasPaddr r then VALID_ADDR else 0) VALID_SIZE)
    c r None (if hasPaddr r then Z.land (_paddr r) (u64 (Z.lnot (blkSize - 1))) else 0)
    (hasPaddr r && rq_isSecure r) (u32 blkSize) InvalidCmd [].

Definition makeReadCmd (r : Request) : MemCmd :=
  if rq_isLLSC r then LoadLockedReq else if rq_isPrefetch r then SoftPFReq else ReadReq.
Definition makeWriteCmd (r : Request) : MemCmd :=
  if rq_isLLSC r then StoreCondReq else if isSwap r then SwapReq else WriteReq.
Definition createRead (r : Request) : Packet := new_Packet r (makeReadCmd r).
Definition createWrite (r : Request) : Packet := new_Packet r (makeWriteCmd r).

Definition memInhibitAsserted (p : Packet) : bool := flag_isSet (flags p) MEM_INHIBIT.
Definition assertMemInhibit (p : Packet) : result Packet :=
  let* _ := assert_ (isRequest (cmd p)) in
  let* _ := assert_ (negb (flag_isSet (flags p) MEM_INHIBIT)) in
  Ok (with_flags p (flag_set (flags p) MEM_INHIBIT)).

Definition getAddr (p : Packet) : result Z :=
  let* _ := assert_ (flag_isSet (flags p) VALID_ADDR) in Ok (addr p).
Definition getSize (p : Packet) : result Z :=
  let* _ := assert_ (flag_isSet (flags p) VALID_SIZE) in Ok (pk_size p).
Definition isExpressSnoop (p : Packet) : bool := flag_isSet (flags p) EXPRESS_SNOOP.
Definition isSecure (p : Packet) : result bool :=
  let* _ := assert_ (flag_isSet (flags p) VALID_ADDR) in Ok (_isSecure p).
(** [getPtr()] and [getConstPtr()]: the buffer. *)
Definition getPtr (p : Packet) : result (list Z) :=
  let* _ := assert_ (flag_isSet (flags p) (Z.lor STATIC_DATA DYNAMIC_DATA)) in deref (data p).

Definition dataStatic (p : Packet) (d : list Z) : result Packet :=
  let* _ := assert_ (flag_noneSet (flags p) (Z.lor STATIC_DATA DYNAMIC_DATA)) in
  Ok (with_flags (with_data p (Some d)) (flag_set (flags p) STATIC_DATA)).
Definition dataDynamic (p : Packet) (d : list Z) : result Packet :=
  let* _ := assert_ (flag_noneSet (flags p) (Z.lor STATIC_DATA DYNAMIC_DATA)) in
  Ok (with_flags (with_data p (Some d)) (flag_set (flags p) DYNAMIC_DATA)).

Definition convertScToWrite (p : Packet) : result Packet :=
  let* _ := assert_ (isLLSC (cmd p)) in
  let* _ := assert_ (isWrite (cmd p)) in
  Ok (with_cmd p WriteReq).
Definition convertLlToRead (p : Packet) : result Packet :=
  let* _ := assert_ (isLLSC (cmd p)) in
  let* _ := assert_ (isRead (cmd p)) in
  Ok (with_cmd p ReadReq).

(** [makeResponse()]. *)
Definition makeResponse (p : Packet) : result Packet :=
  let* _ := assert_ (needsResponse (cmd p)) in
  let* _ := assert_ (isRequest (cmd p)) in
  Ok (mkPacket (flag_clear_at 32 (flags p) EXPRESS_SNOOP) (responseCommand (cmd p)) (req p)
        (data p) (addr p) (_isSecure p) (pk_size p) (cmd p) (bytesValid p)).

Definition setFunctionalResponseStatus (p : Packet) (success : bool) : Packet :=
  if negb success then
    with_cmd p (if isWrite (cmd p) then FunctionalWriteError else FunctionalReadError)
  else p.

(** [setData(p)] and [writeData(p)], from and to another buffer. *)
Definition setData (p : Packet) (src : list Z) (off : Z) : result Packet :=
  let* d := getPtr p in
  let* n := getSize p in
  let* d := memcpy d 0 src off n in
  Ok (with_data p (Some d)).
Definition writeData (p : Packet) (dst : list Z) (off : Z) : result (list Z) :=
  let* d := getPtr p in
  let* n := getSize p in
  memcpy dst off d 0 n.
Definition getOffset (p : Packet) (blkSize : Z) : result Z :=
  let* a := getAddr p in Ok (Z.land a (u64 (blkSize - 1))).
Definition setDataFromBlock (p : Packet) (blk : list Z) (blkSize : Z) : result Packet :=
  let* o := getOffset p blkSize in setData p blk o.
Definition writeDataToBlock (p : Packet) (blk : list Z) (blkSize : Z) : result (list Z) :=
  let* o := getOffset p blkSize in writeData p blk o.

(** The loops of [checkFunctional] over [n] of the valid bytes from [i]:
    [all_bytes_valid && ...; ++i] and the marking of the bytes copied. *)
Fixpoint check_bytes (n : nat) (bv : list bool) (i : nat) (all : bool) : result bool :=
  match n with
  | O => Ok all
  | S n => if all then let* b := deref (bv !! i) in check_bytes n bv (S i) (all && b) else Ok all
  end.

Fixpoint mark_bytes (n : nat) (bv : list bool) (i : nat) : result (list bool) :=
  match n with
  | O => Ok bv
  | S n => let* bv := upd bv i true in mark_bytes n bv (S i)
  end.

(** Offsets and size of a partial overlap: [(func_offset, val_offset,
    overlap_size)], each an [int]. *)
Definition overlap (func_start func_end val_start val_end size : Z) : result (Z * Z * Z) :=
  if (val_start <? func_start) && (val_end <=? func_end) then
    Ok (0, swrap 32 (func_start - val_start), swrap 32 (val_end - func_start))
  else if (func_start <=? val_start) && (func_end <? val_end) then
    Ok (swrap 32 (val_start - func_start), 0, swrap 32 (func_end - val_start))
  else if (func_start <=? val_start) && (val_end <=? func_end) then
    Ok (swrap 32 (val_start - func_start), 0, size)
  else if (val_start <? func_start) && (func_end <? val_end) then
    Ok (0, swrap 32 (func_start - val_start), swrap 32 (func_end - func_start))
  else Err Panic.

(** The read of a part of the packet's bytes. *)
Definition read_partial (p : Packet) (d buf : list Z) (sz : Z) (o : Z * Z * Z)
    : result (bool * Packet) :=
  let '(func_offset, val_offset, overlap_size) := o in
  let* d := memcpy d func_offset buf val_offset overlap_size in
  let bv := match bytesValid p with [] => replicate (Z.to_nat sz) false | bv => bv end in
  let* all := check_bytes (Z.to_nat func_offset) bv 0 true in
  let* bv := mark_bytes (Z.to_nat overlap_size) bv (Z.to_nat func_offset) in
  let i := (Z.to_nat func_offset + Z.to_nat overlap_size)%nat in
  let* all := check_bytes (Z.to_nat sz - i) bv i all in
  Ok (all, with_bytesValid (with_data p (Some d)) bv).

(** [checkFunctional(obj, addr, is_secure, size, _data)]: the answer, the
    packet and the buffer afterwards; a print request prints [obj]. *)
Definition checkFunctional (p : Packet) (val_start : Z) (is_secure : bool) (size : Z)
    (_data : option (list Z)) : result (bool * Packet * option (list Z)) :=
  let* func_start := getAddr p in
  let* sz := getSize p in
  let func_end := u64 (u64 (func_start + sz) - 1) in
  let val_end := u64 (u64 (val_start + size) - 1) in
  if negb (eqb is_secure (_isSecure p)) || (val_end <? func_start) || (func_end <? val_start)
  then Ok (false, p, _data)
  else if isPrint (cmd p) then
    let* _ := assert_ (match _data with None => true | Some _ => false end) in
    Ok (false, p, _data)
  else match _data with
  | None => Ok (false, p, _data)
  | Some buf =>
      let offset := swrap 32 (func_start - val_start) in
      if isRead (cmd p) then
        let* d := getPtr p in
        if (val_start <=? func_start) && (func_end <=? val_end) then
          let* d := memcpy d 0 buf offset sz in
          let bv := match bytesValid p with [] => replicate (Z.to_nat sz) true | bv => bv end in
          Ok (true, with_bytesValid (with_data p (Some d)) bv, _data)
        else
          let* o := overlap func_start func_end val_start val_end size in
          let* '(all, p) := read_partial p d buf sz o in
          Ok (all, p, _data)
      else if isWrite (cmd p) then
        let* d := getPtr p in
        let* buf :=
          if 0 <=? offset then
            memcpy buf offset d 0 (u64 (u64 (Z.min func_end val_end - func_start) + 1))
          else
            memcpy buf 0 d (- offset) (u64 (u64 (Z.min func_end val_end - val_start) + 1)) in
        Ok (false, p, Some buf)
      else Err Panic
  end.

(** [checkFunctional(other)]: against another packet. *)
Definition checkFunctional_pkt (p other : Packet) : result (bool * Packet * Packet) :=
  let* a := getAddr other in
  let* s := isSecure other in
  let* n := getSize other in
  let* d := if hasData (cmd other) then let* d := getPtr other in Ok (Some d) else Ok None in
  let* '(b, p, d) := checkFunctional p a s n d in
  Ok (b, p, if hasData (cmd other) then with_data other d else other).

(** ** Copying bytes *)

Lemma memcpy_total dst doff src soff n :
  0 <= n -> 0 <= doff -> doff + n <= Z.of_nat (length dst) ->
  0 <= soff -> soff + n <= Z.of_nat (length src) -> exists r, memcpy dst doff src soff n = Ok r.
Proof.
  intros. unfold memcpy. rewrite !(proj2 (Z.leb_le _ _)) by lia. cbn. eauto.
Qed.

Lemma memcpy_inv dst doff src soff n r :
  memcpy dst doff src soff n = Ok r ->
  (0 <= n /\ 0 <= doff /\ doff + n <= Z.of_nat (length dst) /\
   0 <= soff /\ soff + n <= Z.of_nat (length src)) /\
  length r = length dst /\
  forall i, r !! i = if decide (doff <= Z.of_nat i < doff + n)
                     then src !! Z.to_nat (soff + (Z.of_nat i - doff)) else dst !! i.
Proof.
  unfold memcpy. destruct (_ && _) eqn:Hb; [|done]. intros [= <-].
  rewrite !andb_true_iff, !Z.leb_le in Hb. destruct Hb as [[[[Hn Hd] Hdl] Hs] Hsl].
  split; [done|]. split.
  { rewrite !length_app, !length_take, !length_drop. lia. }
  intros i. case_decide as Hi.
  - rewrite lookup_app_r by (rewrite length_take; lia).
    rewrite lookup_app_l by (rewrite !length_take, length_drop; lia).
    rewrite length_take, lookup_take_lt, lookup_drop by lia. f_equal. lia.
  - destruct (decide (Z.of_nat i < doff)).
    + rewrite lookup_app_l by (rewrite length_take; lia). now rewrite lookup_take_lt by lia.
    + rewrite !lookup_app_r by (rewrite ?length_app, ?length_take, ?length_drop; lia).
      rewrite lookup_drop. f_equal. rewrite !length_take, length_drop. lia.
Qed.

(** A whole-buffer copy. *)
Lemma memcpy_all dst src soff n r :
  memcpy dst 0 src soff n = Ok r -> n = Z.of_nat (length dst) ->
  r = take (Z.to_nat n) (drop (Z.to_nat soff) src).
Proof.
  unfold memcpy. destruct (_ && _); [|done]. intros [= <-] ->.
  rewrite Z.add_0_l, Nat2Z.id, drop_all, app_nil_r. done.
Qed.

(** ** Valid bytes *)

Lemma check_bytes_spec n bv i all :
  (i + n <= length bv)%nat ->
  exists b, check_bytes n bv i all = Ok b /\
    (b = true -> all = true /\ forall j, (i <= j < i + n)%nat -> bv !! j = Some true).
Proof.
  revert i all. induction n as [|n IH]; intros i all Hl; cbn.
  - exists all. split; [done|]. intros ->. split; [done|lia].
  - destruct all; [|exists false; done].
    destruct (lookup_lt_is_Some_2 bv i) as [b Hb]; [lia|]. rewrite Hb. cbn.
    destruct (IH (S i) b) as (b' & -> & Hb'); [lia|]. exists b'. split; [done|].
    intros Ht. destruct (Hb' Ht) as [-> Hall]. split; [done|].
    intros j Hj. destruct (decide (j = i)) as [->|]; [done|]. apply Hall. lia.
Qed.

Lemma mark_bytes_spec n bv i :
  (i + n <= length bv)%nat ->
  exists bv', mark_bytes n bv i = Ok bv' /\ length bv' = length bv /\
    forall j, bv' !! j = if decide (i <= j < i + n)%nat then Some true else bv !! j.
Proof.
  revert bv i. induction n as [|n IH]; intros bv i Hl; cbn.
  - exists bv. split; [done|]. split; [done|]. intros j. case_decide; [lia|done].
  - unfold upd. rewrite decide_True by lia. cbn.
    destruct (IH (<[i:=true]> bv) (S i)) as (bv' & -> & Hlen & Hl'); [rewrite length_insert; lia|].
    exists bv'. split; [done|]. split; [by rewrite Hlen, length_insert|].
    intros j. rewrite Hl'. destruct (decide (j = i)) as [->|Hne].
    + rewrite list_lookup_insert_eq by lia. repeat case_decide; (done || lia).
    + rewrite list_lookup_insert_ne by done. repeat case_decide; (done || lia).
Qed.

Lemma swrap_id x : - 2 ^ 31 <= x < 2 ^ 31 -> swrap 32 x = x.
Proof. intros. unfold swrap. cbn [Z.sub]. rewrite Z.mod_small; lia. Qed.

(** ** Functional accesses *)

(** [base + [0, size)] is a region of addresses the code's [int]s can measure. *)
Definition region (base size : Z) : Prop := 0 < size < 2 ^ 31 /\ 0 <= base /\ base + size <= 2 ^ 64.

(** [bs] are the bytes of memory [mem] at [base]. *)
Definition holds (mem : Z -> Z) (base : Z) (bs : list Z) : Prop :=
  forall i b, bs !! i = Some b -> b = mem (base + Z.of_nat i).

(** A packet with its address, size and a buffer [d] of that size. *)
Record pkt_ok (p : Packet) (d : list Z) : Prop := {
  po_addr : flag_isSet (flags p) VALID_ADDR = true;
  po_size : flag_isSet (flags p) VALID_SIZE = true;
  po_ptr : flag_isSet (flags p) (Z.lor STATIC_DATA DYNAMIC_DATA) = true;
  po_data : data p = Some d;
  po_length : Z.of_nat (length d) = pk_size p;
  po_region : region (addr p) (pk_size p);
  po_valid : bytesValid p = [] \/ Z.of_nat (length (bytesValid p)) = pk_size p;
}.

(** The bytes a read has found so far are those of [mem]. *)
Definition found_ok (mem : Z -> Z) (p : Packet) (d : list Z) : Prop :=
  forall i, bytesValid p !! i = Some true -> d !! i = Some (mem (addr p + Z.of_nat i)).

Lemma extent_end base size : region base size -> u64 (u64 (base + size) - 1) = base + size - 1.
Proof.
  unfold region. intros (? & ? & ?). destruct (decide (base + size = 2 ^ 64)) as [->|].
  - unfold u64, wrap. rewrite Z_mod_same_full. reflexivity.
  - rewrite (u64_small (base + size)) by (unfold in_range; lia).
    apply u64_small. unfold in_range. lia.
Qed.

(** The offsets of a partial overlap designate the same addresses in both
    buffers and stay within them. *)
Lemma overlap_spec fs n vs m :
  region fs n -> region vs m -> fs <= vs + m - 1 -> vs <= fs + n - 1 ->
  ~ (vs <= fs /\ fs + n <= vs + m) ->
  exists fo vo k, overlap fs (fs + n - 1) vs (vs + m - 1) m = Ok (fo, vo, k) /\
    0 <= fo /\ 0 <= vo /\ 0 <= k /\ fo + k <= n /\ vo + k <= m /\ fs + fo = vs + vo.
Proof.
  unfold region. intros (? & ? & ?) (? & ? & ?) ? ? Hnc. unfold overlap.
  destruct (Z.ltb_spec vs fs), (Z.leb_spec (vs + m - 1) (fs + n - 1)); cbn [andb].
  - rewrite !swrap_id by lia. do 3 eexists. split; [done|]. lia.
  - lia.
  - rewrite (proj2 (Z.leb_le fs vs)) by lia. cbn [andb].
    rewrite (proj2 (Z.ltb_ge _ _)) by lia. cbn [andb].
    rewrite swrap_id by lia. do 3 eexists. split; [done|]. lia.
  - rewrite (proj2 (Z.leb_le fs vs)), (proj2 (Z.ltb_lt _ _)) by lia. cbn [andb].
    rewrite !swrap_id by lia. do 3 eexists. split; [done|]. lia.
Qed.

Lemma read_partial_spec mem p d buf fo vo k vs :
  pkt_ok p d -> found_ok mem p d -> holds mem vs buf ->
  0 <= fo -> 0 <= vo -> 0 <= k -> fo + k <= pk_size p -> vo + k <= Z.of_nat (length buf) ->
  addr p + fo = vs + vo ->
  exists b d' bv,
    read_partial p d buf (pk_size p) (fo, vo, k) =
      Ok (b, with_bytesValid (with_data p (Some d')) bv) /\
    length d' = length d /\ Z.of_nat (length bv) = pk_size p /\
    found_ok mem (with_bytesValid (with_data p (Some d')) bv) d' /\
    (b = true -> forall i, (i < length bv)%nat -> bv !! i = Some true).
Proof.
  intros Hp Hf Hh ? ? ? ? ? Ha. destruct Hp as [_ _ _ _ Hlen Hreg Hbv]. unfold read_partial.
  destruct (memcpy_total d fo buf vo k) as [d' Hd']; [lia..|]. rewrite Hd'. cbn [rbind].
  apply memcpy_inv in Hd' as (_ & Hl' & Hd').
  set (bv := match bytesValid p with [] => _ | _ => _ end).
  assert (Z.of_nat (length bv) = pk_size p) as Hbl.
  { subst bv. destruct (bytesValid p); [rewrite length_replicate; unfold region in Hreg; lia|].
    destruct Hbv; [done|lia]. }
  assert (forall i, bv !! i = Some true -> d !! i = Some (mem (addr p + Z.of_nat i))) as Hf0.
  { intros i Hi. apply Hf. subst bv. destruct (bytesValid p); [|done].
    now apply lookup_replicate in Hi as [? _]. }
  destruct (check_bytes_spec (Z.to_nat fo) bv 0 true) as (b1 & -> & Hc1); [lia|]. cbn [rbind].
  destruct (mark_bytes_spec (Z.to_nat k) bv (Z.to_nat fo)) as (bv' & -> & Hl & Hm); [lia|]. cbn [rbind].
  destruct (check_bytes_spec (Z.to_nat (pk_size p) - (Z.to_nat fo + Z.to_nat k)) bv'
              (Z.to_nat fo + Z.to_nat k) b1) as (b2 & -> & Hc2); [lia|]. cbn [rbind].
  exists b2, d', bv'. split; [done|]. split; [done|]. split; [lia|]. split.
  - intros i. cbn [bytesValid with_bytesValid with_data addr]. rewrite Hm, Hd'. intros Hi.
    case_decide as Hc; [rewrite decide_True by lia | rewrite decide_False by lia; by apply Hf0].
    destruct (lookup_lt_is_Some_2 buf (Z.to_nat (vo + (Z.of_nat i - fo)))) as [x Hx]; [lia|].
    rewrite Hx. f_equal. rewrite (Hh _ _ Hx). f_equal. lia.
  - intros ->. destruct (Hc2 eq_refl) as [-> Hhi]. destruct (Hc1 eq_refl) as [_ Hlo].
    intros i Hi. rewrite Hm. case_decide; [done|].
    destruct (decide (i < Z.to_nat fo)%nat); [apply Hlo; lia|].
    specialize (Hhi i). rewrite Hm in Hhi. rewrite decide_False in Hhi by done. apply Hhi. lia.
Qed.

(** The part of a packet a search leaves alone. *)
Definition same_request (p p' : Packet) : Prop :=
  flags p' = flags p /\ cmd p' = cmd p /\ req p' = req p /\ addr p' = addr p /\
  _isSecure p' = _isSecure p /\ pk_size p' = pk_size p.

(** The tests with which [checkFunctional] starts. *)
Lemma checkFunctional_start p d vs sec m buf :
  pkt_ok p d -> region vs m -> isPrint (cmd p) = false ->
  checkFunctional p vs sec m (Some buf) =
    if negb (eqb sec (_isSecure p)) || (vs + m - 1 <? addr p) || (addr p + pk_size p - 1 <? vs)
    then Ok (false, p, Some buf)
    else
      let offset := swrap 32 (addr p - vs) in
      if isRead (cmd p) then
        if (vs <=? addr p) && (addr p + pk_size p - 1 <=? vs + m - 1) then
          let* d := memcpy d 0 buf offset (pk_size p) in
          let bv := match bytesValid p with
                    [] => replicate (Z.to_nat (pk_size p)) true | bv => bv end in
          Ok (true, with_bytesValid (with_data p (Some d)) bv, Some buf)
        else
          let* o := overlap (addr p) (addr p + pk_size p - 1) vs (vs + m - 1) m in
          let* '(all, p) := read_partial p d buf (pk_size p) o in
          Ok (all, p, Some buf)
      else if isWrite (cmd p) then
        let* buf :=
          if 0 <=? offset then
            memcpy buf offset d 0
              (u64 (u64 (Z.min (addr p + pk_size p - 1) (vs + m - 1) - addr p) + 1))
          else
            memcpy buf 0 d (- offset)
              (u64 (u64 (Z.min (addr p + pk_size p - 1) (vs + m - 1) - vs) + 1)) in
        Ok (false, p, Some buf)
      else Err Panic.
Proof.
  intros [Ha Hs Hp Hd _ Hr _] Hv Hpr. unfold checkFunctional, getAddr, getSize, getPtr.
  rewrite Ha, Hs, Hp, Hd, Hpr. cbn [assert_ rbind deref]. by rewrite !extent_end by done.
Qed.

(** One step of a functional read, against a buffer that holds bytes of [mem]. *)
Lemma checkFunctional_read mem p d vs sec m buf :
  pkt_ok p d -> found_ok mem p d -> isRead (cmd p) = true -> isPrint (cmd p) = false ->
  region vs m -> Z.of_nat (length buf) = m -> holds mem vs buf ->
  exists b p' d', checkFunctional p vs sec m (Some buf) = Ok (b, p', Some buf) /\
    pkt_ok p' d' /\ found_ok mem p' d' /\ same_request p p' /\
    (b = true -> holds mem (addr p) d').
Proof.
  intros Hp Hf Hrd Hpr Hv Hm Hh. rewrite (checkFunctional_start p d) by done.
  destruct (_ || _ || _) eqn:Hno; [exists false, p, d; split_and!; (done || by repeat split)|].
  rewrite !orb_false_iff, !Z.ltb_ge in Hno. destruct Hno as [[_ H1] H2].
  rewrite Hrd. pose proof Hp as [Pa Ps Pp Pd Pl Pr Pv]. cbv zeta.
  destruct (_ && _) eqn:Hc.
  - rewrite andb_true_iff, !Z.leb_le in Hc. unfold region in *. rewrite swrap_id by lia.
    destruct (memcpy_total d 0 buf (addr p - vs) (pk_size p)) as [d' Hd']; [lia..|].
    rewrite Hd'. cbn [rbind]. apply memcpy_inv in Hd' as (_ & Hl & Hd').
    assert (forall i, (i < length d')%nat -> d' !! i = Some (mem (addr p + Z.of_nat i))) as Hall.
    { intros i Hi. rewrite Hd', decide_True by lia.
      destruct (lookup_lt_is_Some_2 buf (Z.to_nat (addr p - vs + (Z.of_nat i - 0)))) as [x Hx]; [lia|].
      rewrite Hx. f_equal. rewrite (Hh _ _ Hx). f_equal. lia. }
    eexists true, _, d'. split; [done|]. split_and!; cbn; [| | by repeat split |].
    + split; cbn; try done; [lia|]. right. destruct (bytesValid p) eqn:E; [rewrite length_replicate; lia|].
      destruct Pv; [done|lia].
    + intros i Hi. apply Hall. apply lookup_lt_Some in Hi. cbn in Hi.
      destruct (bytesValid p) eqn:E; [rewrite length_replicate in Hi; lia|]. destruct Pv; [done|lia].
    + intros _ i b Hb. pose proof (lookup_lt_Some _ _ _ Hb) as Hi. rewrite Hall in Hb by done. by injection Hb.
  - assert (~ (vs <= addr p /\ addr p + pk_size p <= vs + m)) as Hnc.
    { apply andb_false_iff in Hc. rewrite !Z.leb_gt in Hc. lia. }
    destruct (overlap_spec (addr p) (pk_size p) vs m) as (fo & vo & k & -> & Hb); [done..|lia|lia|done|].
    cbn [rbind].
    destruct (read_partial_spec mem p d buf fo vo k vs) as (b & d' & bv & -> & Hl & Hbl & Hf' & Hall); [done..|lia|lia|lia|lia|lia|lia|].
    cbn [rbind]. eexists b, _, d'. split; [done|]. split_and!; [| done | by repeat split |].
    + split; cbn; try done; [lia|]. by right.
    + intros Hbt i x Hx. specialize (Hf' i). cbn in Hf'. rewrite Hf' in Hx; [by injection Hx|].
      apply Hall; [done|]. apply lookup_lt_Some in Hx. lia.
Qed.

(** One step of a functional write: the bytes of the buffer at addresses of
    the packet become the packet's, the others stay. *)
Lemma checkFunctional_write p d vs m buf :
  pkt_ok p d -> isRead (cmd p) = false -> isWrite (cmd p) = true -> isPrint (cmd p) = false ->
  region vs m -> Z.of_nat (length buf) = m ->
  exists buf', checkFunctional p vs (_isSecure p) m (Some buf) = Ok (false, p, Some buf') /\
    length buf' = length buf /\
    forall i, (i < length buf)%nat ->
      buf' !! i = if decide (addr p <= vs + Z.of_nat i < addr p + pk_size p)
                  then d !! Z.to_nat (vs + Z.of_nat i - addr p) else buf !! i.
Proof.
  intros Hp Hrd Hwr Hpr Hv Hm. rewrite (checkFunctional_start p d) by done.
  rewrite eqb_reflx. cbn [negb orb]. destruct (_ || _) eqn:Hno.
  { exists buf. split; [done|]. split; [done|]. intros i Hi. rewrite decide_False; [done|].
    rewrite orb_true_iff, !Z.ltb_lt in Hno. lia. }
  rewrite orb_false_iff, !Z.ltb_ge in Hno. destruct Hno as [H1 H2].
  rewrite Hrd, Hwr. cbv zeta. destruct Hp as [_ _ _ _ Pl Pr _]. unfold region in *. rewrite swrap_id by lia.
  remember (Z.min (addr p + pk_size p - 1) (vs + m - 1)) as hi eqn:Hhi.
  assert (forall lo, lo <= hi -> hi - lo < 2 ^ 31 -> u64 (u64 (hi - lo) + 1) = hi - lo + 1) as Hu.
  { intros lo ? ?. rewrite (u64_small (hi - lo)) by (unfold in_range; lia).
    apply u64_small. unfold in_range. lia. }
  destruct (Z.leb_spec 0 (addr p - vs)); rewrite Hu by lia.
  - destruct (memcpy_total buf (addr p - vs) d 0 (hi - addr p + 1)) as [b' Hb']; [lia..|].
    rewrite Hb'. cbn [rbind]. apply memcpy_inv in Hb' as (_ & Hl & Hb'). exists b'.
    split; [done|]. split; [done|]. intros i Hi. rewrite Hb'.
    repeat case_decide; try lia; [|done]. f_equal. lia.
  - destruct (memcpy_total buf 0 d (- (addr p - vs)) (hi - vs + 1)) as [b' Hb']; [lia..|].
    rewrite Hb'. cbn [rbind]. apply memcpy_inv in Hb' as (_ & Hl & Hb'). exists b'.
    split; [done|]. split; [done|]. intros i Hi. rewrite Hb'.
    repeat case_decide; try lia; [|done]. f_equal. lia.
Qed.

(** Memory with the bytes [bs] stored at [base]. *)
Definition mem_store (mem : Z -> Z) (base : Z) (bs : list Z) : Z -> Z :=
  fun a => if decide (base <= a) then default (mem a) (bs !! Z.to_nat (a - base)) else mem a.

Lemma mem_store_in mem base bs a :
  base <= a < base + Z.of_nat (length bs) -> bs !! Z.to_nat (a - base) = Some (mem_store mem base bs a).
Proof.
  intros Ha. unfold mem_store. rewrite decide_True by lia.
  destruct (lookup_lt_is_Some_2 bs (Z.to_nat (a - base))) as [x ->]; [lia|done].
Qed.

Lemma mem_store_out mem base bs a :
  ~ base <= a < base + Z.of_nat (length bs) -> mem_store mem base bs a = mem a.
Proof.
  intros Ha. unfold mem_store. case_decide; [|done].
  by rewrite lookup_ge_None_2 by lia.
Qed.

Lemma holds_store mem p d vs m buf buf' :
  pkt_ok p d -> Z.of_nat (length buf) = m -> length buf' = length buf ->
  (forall i, (i < length buf)%nat ->
      buf' !! i = if decide (addr p <= vs + Z.of_nat i < addr p + pk_size p)
                  then d !! Z.to_nat (vs + Z.of_nat i - addr p) else buf !! i) ->
  holds mem vs buf -> holds (mem_store mem (addr p) d) vs buf'.
Proof.
  intros [_ _ _ _ Pl _ _] Hm Hl Hb Hh i b Hi. pose proof (lookup_lt_Some _ _ _ Hi) as Hlt.
  rewrite Hb in Hi by lia. case_decide as Hc.
  - rewrite (mem_store_in mem (addr p) d) in Hi by lia. by injection Hi.
  - rewrite mem_store_out by lia. by apply Hh.
Qed.

(** A command and its response: only requests need one, it is a response of
    the same kind, and the data goes with the request of a write and with the
    response of a read. *)
Theorem response_matches c :
  needsResponse c = true ->
  let r := responseCommand c in
  isRequest c = true /\ isResponse r = true /\ isRequest r = false /\ needsResponse r = false /\
  isError r = false /\ isRead r = isRead c /\ isWrite r = isWrite c /\
  hasData c = isWrite c /\ hasData r = isRead c.
Proof. by destruct c. Qed.

(** No command is both a request and a response, and only the invalid command
    is neither. *)
Theorem request_xor_response c : c <> InvalidCmd -> isRequest c = negb (isResponse c).
Proof. by destruct c. Qed.

(** ** A byte missed in partial overlaps

    The sizes of one-sided overlaps are one too small: a read of four bytes at
    0x102 that finds 0x100-0x103 and 0x104-0x107 on their way takes one byte
    of each and is not satisfied, though together they hold all its bytes. *)
Definition read_102 : Packet :=
  mkPacket (Z.lor (Z.lor VALID_ADDR VALID_SIZE) STATIC_DATA) ReadReq Request_0
    (Some [0; 0; 0; 0]) 0x102 false 4 InvalidCmd [].

Definition read_102_after : result (bool * Packet) :=
  let* '(_, p, _) := checkFunctional read_102 0x100 false 4 (Some [10; 11; 12; 13]) in
  let* '(b, p, _) := checkFunctional p 0x104 false 4 (Some [14; 15; 16; 17]) in Ok (b, p).

Theorem functional_read_misses_byte :
  read_102_after =
    Ok (false, with_bytesValid (with_data read_102 (Some [12; 0; 14; 0])) [true; false; true; false]).
Proof. vm_compute. reflexivity. Qed.
