(* ===== verification/AbstractMem.v ===== *)
(** * Memories and locked accesses

    [mem/abstract_mem.hh] and [mem/abstract_mem.cc]: the backing store of a
    memory and the list of addresses locked by load-locked accesses, of which a
    store conditional needs one.  The backing store is a list of bytes, [None]
    for a null memory.  The processors woken when a lock is cleared are recorded
    in the order of the [wakeup()] calls; the statistics are left out. *)
From S2P Require Import Prelude Flags IntMath AddrRange Packet.

(** ** Definitions: mem/abstract_mem.hh *)

Record LockedAddr := mkLockedAddr { la_addr : Z; la_context : Z }.

#[export] Instance LockedAddr_eq_dec : EqDecision LockedAddr.
Proof. solve_decision. Defined.

Definition Addr_Mask : Z := 0xf.
(** [LockedAddr::mask(paddr)]. *)
Definition la_mask (paddr : Z) : Z := Z.land paddr (u64 (Z.lnot Addr_Mask)).

Definition matchesContext (l : LockedAddr) (r : Request) : result bool :=
  let* c := contextId r in Ok (la_context l =? c).

(** [LockedAddr(req)]. *)
Definition new_LockedAddr (r : Request) : result LockedAddr :=
  let* a := getPaddr r in
  let* c := contextId r in
  Ok (mkLockedAddr (la_mask a) c).

Record AbstractMemory := mkAbstractMemory {
  am_range : AddrRange;
  pmemAddr : option (list Z);
  lockedAddrList : list LockedAddr;
  am_woken : list Z;
}.

Definition with_pmem (m : AbstractMemory) (bs : option (list Z)) : AbstractMemory :=
  mkAbstractMemory (am_range m) bs (lockedAddrList m) (am_woken m).
Definition with_locks (m : AbstractMemory) (l : list LockedAddr) (woken : list Z) : AbstractMemory :=
  mkAbstractMemory (am_range m) (pmemAddr m) l woken.

(** ** Definitions: mem/abstract_mem.cc *)

(** The loop of [trackLoadLocked]: the list with the record of the request's
    context moved to [paddr], [None] without such a record. *)
Fixpoint track_loop (l : list LockedAddr) (r : Request) (paddr : Z)
    : result (option (list LockedAddr)) :=
  match l with
  | [] => Ok None
  | x :: l =>
      let* b := matchesContext x r in
      if b then Ok (Some (mkLockedAddr paddr (la_context x) :: l))
      else let* o := track_loop l r paddr in Ok (cons x <$> o)
  end.

Definition trackLoadLocked (m : AbstractMemory) (p : Packet) : result AbstractMemory :=
  let* a := getPaddr (req p) in
  let paddr := la_mask a in
  let* o := track_loop (lockedAddrList m) (req p) paddr in
  match o with
  | Some l => Ok (with_locks m l (am_woken m))
  | None =>
      let* x := new_LockedAddr (req p) in
      Ok (with_locks m (x :: lockedAddrList m) (am_woken m))
  end.

(** The search of a store conditional for its context's record. *)
Fixpoint find_lock (l : list LockedAddr) (r : Request) (paddr : Z) : result bool :=
  match l with
  | [] => Ok false
  | x :: l =>
      let* b := if la_addr x =? paddr then matchesContext x r else Ok false in
      if b then Ok true else find_lock l r paddr
  end.

(** The loop that erases the records of [paddr], waking their contexts. *)
Fixpoint erase_locks (l : list LockedAddr) (paddr : Z) (woken : list Z) : list LockedAddr * list Z :=
  match l with
  | [] => ([], woken)
  | x :: l =>
      if la_addr x =? paddr then erase_locks l paddr (woken ++ [la_context x])
      else let '(l, woken) := erase_locks l paddr woken in (x :: l, woken)
  end.

Definition set_extra (p : Packet) (v : Z) : Packet := with_req p (setExtraData (req p) v).

Definition checkLockedAddrList (m : AbstractMemory) (p : Packet)
    : result (bool * AbstractMemory * Packet) :=
  let* a := getPaddr (req p) in
  let paddr := la_mask a in
  let* '(allowStore, p) :=
    if isLLSC (cmd p) then
      let* b := find_lock (lockedAddrList m) (req p) paddr in
      Ok (b, set_extra p (if b then 1 else 0))
    else Ok (true, p) in
  let '(l, woken) :=
    if allowStore then erase_locks (lockedAddrList m) paddr (am_woken m)
    else (lockedAddrList m, am_woken m) in
  Ok (allowStore, with_locks m l woken, p).

Definition writeOK (m : AbstractMemory) (p : Packet) : result (bool * AbstractMemory * Packet) :=
  match lockedAddrList m with
  | [] => Ok (negb (isLLSC (cmd p)), m, if isLLSC (cmd p) then set_extra p 0 else p)
  | _ => checkLockedAddrList m p
  end.

(** The [n] bytes of an integer, as the little-endian host stores them. *)
Fixpoint bytes_le (n : nat) (v : Z) : list Z :=
  match n with O => [] | S n => v mod 256 :: bytes_le n (v / 256) end.

(** [!memcmp(&v, hostAddr, n)] for an integer of [n] bytes. *)
Definition memcmp_eq (bs : list Z) (off : Z) (n : nat) (v : Z) : bool :=
  bool_decide (take n (drop (Z.to_nat off) bs) = bytes_le n v).

(** [access(pkt)]. *)
Definition access (m : AbstractMemory) (p : Packet) : result (AbstractMemory * Packet) :=
  let* a := getAddr p in
  let* n := getSize p in
  let* sub := isSubset (AddrRange_plain a (u64 (u64 (a + n) - 1))) (am_range m) in
  let* _ := assert_ sub in
  if memInhibitAsserted p then Ok (m, p)
  else
    let off := u64 (a - ar_start (am_range m)) in
    let* '(m, p) :=
      if decide (cmd p = SwapReq) then
        match pmemAddr m with
        | None => Err Panic
        | Some bs =>
            let* d := getPtr p in
            let* overwrite_val := memcpy (replicate (Z.to_nat n) 0) 0 d 0 n in
            let* d := memcpy d 0 bs off n in
            let p := with_data p (Some d) in
            let* overwrite_mem :=
              if isCondSwap (req p) then
                if n =? 8 then let* v := getExtraData (req p) in Ok (memcmp_eq bs off 8 v)
                else if n =? 4 then let* v := getExtraData (req p) in Ok (memcmp_eq bs off 4 (u32 v))
                else Err Panic
              else Ok true in
            let* bs := if overwrite_mem then memcpy bs off overwrite_val 0 n else Ok bs in
            let* _ := assert_ (negb (isInstFetch (req p))) in
            Ok (with_pmem m (Some bs), p)
        end
      else if isRead (cmd p) then
        let* _ := assert_ (negb (isWrite (cmd p))) in
        let* m := if isLLSC (cmd p) then trackLoadLocked m p else Ok m in
        match pmemAddr m with
        | None => Ok (m, p)
        | Some bs =>
            let* d := getPtr p in
            let* d := memcpy d 0 bs off n in
            Ok (m, with_data p (Some d))
        end
      else if isInvalidate (cmd p) then Ok (m, p)
      else if isWrite (cmd p) then
        let* '(ok, m, p) := writeOK m p in
        if ok then
          let* m :=
            match pmemAddr m with
            | None => Ok m
            | Some bs =>
                let* d := getPtr p in
                let* bs := memcpy bs off d 0 n in
                Ok (with_pmem m (Some bs))
            end in
          let* _ := assert_ (negb (isInstFetch (req p))) in
          Ok (m, p)
        else Ok (m, p)
      else Err Panic in
    if needsResponse (cmd p) then let* p := makeResponse p in Ok (m, p) else Ok (m, p).

(** [functionalAccess(pkt)]; a print request prints the byte at its address. *)
Definition functionalAccess (m : AbstractMemory) (p : Packet) : result (AbstractMemory * Packet) :=
  let* a := getAddr p in
  let* n := getSize p in
  let* sub := isSubset (AddrRange_plain a (u64 (u64 (a + n) - 1))) (am_range m) in
  let* _ := assert_ sub in
  let off := u64 (a - ar_start (am_range m)) in
  if isRead (cmd p) then
    let* p :=
      match pmemAddr m with
      | None => Ok p
      | Some bs =>
          let* d := getPtr p in let* d := memcpy d 0 bs off n in Ok (with_data p (Some d))
      end in
    let* p := makeResponse p in Ok (m, p)
  else if isWrite (cmd p) then
    let* m :=
      match pmemAddr m with
      | None => Ok m
      | Some bs =>
          let* d := getPtr p in let* bs := memcpy bs off d 0 n in Ok (with_pmem m (Some bs))
      end in
    let* p := makeResponse p in Ok (m, p)
  else if isPrint (cmd p) then
    let* bs := deref (pmemAddr m) in
    let* _ := deref (bs !! Z.to_nat off) in
    Ok (m, p)
  else Err Panic.

(** ** The abstract memory

    Bytes by address, and for each context the granule of 16 bytes it has
    reserved. *)
Record MemSpec := mkMemSpec { sp_byte : Z -> Z; sp_reserved : gmap Z Z }.

Definition sp_read (s : MemSpec) (a : Z) (n : nat) : list Z := (fun i => sp_byte s (a + Z.of_nat i)) <$> seq 0 n.
Definition sp_write (s : MemSpec) (a : Z) (bs : list Z) : MemSpec :=
  mkMemSpec (mem_store (sp_byte s) a bs) (sp_reserved s).
(** A store to granule [g] ends every reservation of it. *)
Definition sp_clear (s : MemSpec) (g : Z) : MemSpec :=
  mkMemSpec (sp_byte s) (filter (fun x => x.2 <> g) (sp_reserved s)).
Definition sp_reserve (s : MemSpec) (c g : Z) : MemSpec :=
  mkMemSpec (sp_byte s) (<[c := g]> (sp_reserved s)).

(** What a packet asks for: the memory afterwards, the bytes of the packet
    and the answer of a store conditional. *)
Definition sp_access (s : MemSpec) (p : Packet) (d : list Z) : MemSpec * list Z * option bool :=
  let old := sp_read s (addr p) (length d) in
  let g := la_mask (addr p) in
  let c := _contextId (req p) in
  if decide (cmd p = SwapReq) then
    let go := if isCondSwap (req p) then bool_decide (old = bytes_le (length d) (_extraData (req p))) else true in
    (if go then sp_write s (addr p) d else s, old, None)
  else if isRead (cmd p) then
    (if isLLSC (cmd p) then sp_reserve s c g else s, old, None)
  else if isInvalidate (cmd p) then (s, d, None)
  else if isLLSC (cmd p) then
    if decide (sp_reserved s !! c = Some g)
    then (sp_write (sp_clear s g) (addr p) d, d, Some true)
    else (s, d, Some false)
  else (sp_write (sp_clear s g) (addr p) d, d, None).

(** [m] has a backing store for the bounds of its range (the memories of an
    interleaved range share it) that holds the bytes of [s], and one lock record
    for each reservation. *)
Record represents (m : AbstractMemory) (bs : list Z) (s : MemSpec) : Prop := {
  rp_range : is_u64 (ar_start (am_range m)) /\ is_u64 (ar_end (am_range m));
  rp_pmem : pmemAddr m = Some bs;
  rp_length : Z.of_nat (length bs) = ar_end (am_range m) - ar_start (am_range m) + 1;
  rp_bytes : holds (sp_byte s) (ar_start (am_range m)) bs;
  rp_nodup : NoDup (la_context <$> lockedAddrList m);
  rp_locks : forall c g, sp_reserved s !! c = Some g <-> mkLockedAddr g c ∈ lockedAddrList m;
}.

Coercion am_range : AbstractMemory >-> AddrRange.

(** A request packet a processor or a cache sends to a memory: it lies in its range
    and no cache has claimed it; the request of a write has the packet's address,
    that of a locked access a context too, and a conditional swap is of 4 or 8
    bytes and carries the value compared. *)
Record asks (rng : AddrRange) (p : Packet) (d : list Z) : Prop := {
  as_pkt : pkt_ok p d;
  as_inside : ar_start rng <= addr p /\ addr p + pk_size p - 1 <= ar_end rng;
  as_free : memInhibitAsserted p = false;
  as_kind : (isRead (cmd p) || isInvalidate (cmd p) || isWrite (cmd p)) && isRequest (cmd p) = true;
  as_paddr : isLLSC (cmd p) || isWrite (cmd p) = true -> getPaddr (req p) = Ok (addr p);
  as_context : isLLSC (cmd p) = true -> contextId (req p) = Ok (_contextId (req p));
  as_data : isWrite (cmd p) = true -> isInstFetch (req p) = false;
  as_swap : cmd p = SwapReq -> isCondSwap (req p) = true ->
            (pk_size p = 8 \/ pk_size p = 4) /\
            getExtraData (req p) = Ok (_extraData (req p)) /\ in_range (8 * pk_size p) (_extraData (req p));
}.

(** ** Locks *)

Lemma matchesContext_ok x r c : contextId r = Ok c -> matchesContext x r = Ok (la_context x =? c).
Proof. intros H. unfold matchesContext. by rewrite H. Qed.

Lemma track_loop_spec l r c paddr :
  contextId r = Ok c -> NoDup (la_context <$> l) ->
  exists o, track_loop l r paddr = Ok o /\
    match o with
    | None => forall g, mkLockedAddr g c ∉ l
    | Some l' => la_context <$> l' = la_context <$> l /\
        (exists g, mkLockedAddr g c ∈ l) /\
        forall x, x ∈ l' <-> x = mkLockedAddr paddr c \/ (x ∈ l /\ la_context x <> c)
    end.
Proof.
  intros Hc. induction l as [|x l IH]; intros Hnd; cbn [track_loop].
  { exists None. split; [done|]. intros g. apply not_elem_of_nil. }
  rewrite fmap_cons in Hnd. apply NoDup_cons in Hnd as [Hx Hnd].
  rewrite (matchesContext_ok x r c Hc). cbn [rbind].
  destruct (Z.eqb_spec (la_context x) c) as [He|Hne].
  - eexists. split; [done|]. split; [done|]. split.
    + exists (la_addr x). rewrite <- He. apply elem_of_cons. left. by destruct x.
    + intros y. rewrite !elem_of_cons, He. split.
      * intros [->|Hy]; [by left|]. right. split; [by right|]. intros Hyc.
        apply Hx. apply list_elem_of_fmap. exists y. split; congruence.
      * intros [->|[[->|Hy] Hyc]]; [by left|done|by right].
  - destruct (IH Hnd) as (o & -> & Ho). cbn [rbind]. destruct o as [l'|].
    + destruct Ho as (Hf & (g & Hg) & Ho). eexists. split; [done|]. split; [by rewrite !fmap_cons, Hf|].
      split; [exists g; apply elem_of_cons; by right|]. intros y. rewrite !elem_of_cons, Ho. naive_solver.
    + eexists. split; [done|]. intros g Hg. apply elem_of_cons in Hg as [<-|Hg]; [done|]. by apply (Ho g).
Qed.

Lemma find_lock_spec l r c paddr :
  contextId r = Ok c ->
  find_lock l r paddr = Ok (bool_decide (mkLockedAddr paddr c ∈ l)).
Proof.
  intros Hc. induction l as [|x l IH]; cbn; [by rewrite bool_decide_eq_false_2 by apply not_elem_of_nil|].
  rewrite (matchesContext_ok x r c Hc), IH.
  destruct x as [a c']; cbn. destruct (Z.eqb_spec a paddr) as [->|Ha]; cbn; [destruct (Z.eqb_spec c' c) as [->|Hne]|]; cbn.
  - f_equal. symmetry. apply bool_decide_eq_true_2. by left.
  - f_equal. apply bool_decide_ext. rewrite elem_of_cons. naive_solver.
  - f_equal. apply bool_decide_ext. rewrite elem_of_cons. naive_solver.
Qed.

Lemma erase_locks_spec l paddr w :
  erase_locks l paddr w =
    (filter (fun x => la_addr x <> paddr) l,
     w ++ (la_context <$> filter (fun x => la_addr x = paddr) l)).
Proof.
  revert w. induction l as [|x l IH]; intros w; cbn [erase_locks]; [by rewrite app_nil_r|].
  destruct (Z.eqb_spec (la_addr x) paddr) as [He|Hne].
  - rewrite IH, !filter_cons, decide_False, decide_True by naive_solver.
    by rewrite fmap_cons, <- app_assoc.
  - by rewrite IH, !filter_cons, decide_True, decide_False by naive_solver.
Qed.

Lemma represents_locks m bs s l w s' :
  represents m bs s -> sp_byte s' = sp_byte s -> NoDup (la_context <$> l) ->
  (forall c g, sp_reserved s' !! c = Some g <-> mkLockedAddr g c ∈ l) ->
  represents (with_locks m l w) bs s'.
Proof. intros [H1 H2 H3 H4 _ _] Hs Hnd Hl. split; cbn; try done. by rewrite Hs. Qed.

Lemma trackLoadLocked_ok m bs s p a c :
  represents m bs s -> getPaddr (req p) = Ok a -> contextId (req p) = Ok c ->
  exists m', trackLoadLocked m p = Ok m' /\ am_range m' = am_range m /\ pmemAddr m' = pmemAddr m /\
    represents m' bs (sp_reserve s c (la_mask a)).
Proof.
  intros Hr Ha Hc. unfold trackLoadLocked, new_LockedAddr. rewrite Ha, Hc. cbn [rbind].
  pose proof (rp_nodup _ _ _ Hr) as Hnd. pose proof (rp_locks _ _ _ Hr) as Hl.
  destruct (track_loop_spec _ _ _ (la_mask a) Hc Hnd) as ([l'|] & -> & Ho); cbn [rbind].
  - destruct Ho as (Hf & _ & Ho). eexists. split; [done|]. split; [done|]. split; [done|].
    eapply represents_locks; [exact Hr|done|by rewrite Hf|]. intros c' g. cbn. rewrite Ho.
    destruct (decide (c' = c)) as [->|Hne].
    + rewrite lookup_insert_eq. naive_solver.
    + rewrite lookup_insert_ne, Hl by done. naive_solver.
  - eexists. split; [done|]. split; [done|]. split; [done|].
    eapply represents_locks; [exact Hr|done| |].
    + rewrite fmap_cons. apply NoDup_cons. split; [|done]. cbn. intros Hin.
      apply list_elem_of_fmap in Hin as ([g c'] & Hcc & Hin). cbn in Hcc. subst c'. by apply (Ho g).
    + intros c' g. cbn. rewrite elem_of_cons. destruct (decide (c' = c)) as [->|Hne].
      * rewrite lookup_insert_eq. naive_solver.
      * rewrite lookup_insert_ne, Hl by done. naive_solver.
Qed.

(** The test for an empty list only saves the search. *)
Lemma writeOK_check m p a :
  getPaddr (req p) = Ok a -> writeOK m p = checkLockedAddrList m p.
Proof.
  intros Ha. unfold writeOK, checkLockedAddrList. rewrite Ha. destruct m as [r b l w]; cbn.
  destruct l; [|done]. by destruct (isLLSC (cmd p)).
Qed.

(** Whether the store goes ahead. *)
Definition store_ok (s : MemSpec) (p : Packet) (g c : Z) : bool :=
  negb (isLLSC (cmd p)) || bool_decide (sp_reserved s !! c = Some g).

Lemma writeOK_ok m bs s p a c :
  represents m bs s -> getPaddr (req p) = Ok a -> (isLLSC (cmd p) = true -> contextId (req p) = Ok c) ->
  let g := la_mask a in
  let b := store_ok s p g c in
  exists m', writeOK m p =
      Ok (b, m', if isLLSC (cmd p) then set_extra p (if b then 1 else 0) else p) /\
    am_range m' = am_range m /\ pmemAddr m' = pmemAddr m /\
    represents m' bs (if b then sp_clear s g else s).
Proof.
  intros Hr Ha Hc g b. rewrite (writeOK_check m p a Ha).
  pose proof (rp_nodup _ _ _ Hr) as Hnd. pose proof (rp_locks _ _ _ Hr) as Hl.
  assert (isLLSC (cmd p) = true -> find_lock (lockedAddrList m) (req p) g = Ok (bool_decide (sp_reserved s !! c = Some g))) as Hf.
  { intros Hll. rewrite (find_lock_spec _ _ c) by auto. f_equal. apply bool_decide_ext. by rewrite Hl. }
  assert (checkLockedAddrList m p =
    Ok (b, (if b then with_locks m (filter (fun x => la_addr x <> g) (lockedAddrList m))
                   (am_woken m ++ (la_context <$> filter (fun x => la_addr x = g) (lockedAddrList m)))
           else with_locks m (lockedAddrList m) (am_woken m)),
        if isLLSC (cmd p) then set_extra p (if b then 1 else 0) else p)) as ->.
  { unfold checkLockedAddrList. rewrite Ha. cbn [rbind]. fold g. subst b. unfold store_ok.
    destruct (isLLSC (cmd p)); cbn [rbind negb orb].
    - rewrite Hf by done. cbn [rbind]. destruct (bool_decide _); cbn [rbind]; [rewrite erase_locks_spec|]; done.
    - rewrite erase_locks_spec. done. }
  destruct b; eexists; (split; [done|]; split; [done|]; split; [done|]).
  - eapply represents_locks; [exact Hr|done| |].
    + eapply sublist_NoDup; [exact Hnd|]. apply fmap_sublist, sublist_filter.
    + intros c' g'. cbn. rewrite map_lookup_filter_Some, list_elem_of_filter, Hl. cbn. naive_solver.
  - by eapply represents_locks.
Qed.

(** ** Bytes *)

Lemma sp_read_lookup s a n i :
  sp_read s a n !! i = if decide (i < n)%nat then Some (sp_byte s (a + Z.of_nat i)) else None.
Proof.
  unfold sp_read. rewrite list_lookup_fmap. case_decide.
  - by rewrite lookup_seq_lt by lia.
  - by rewrite lookup_seq_ge by lia.
Qed.

Lemma read_bytes s base bs d off d' :
  holds (sp_byte s) base bs -> memcpy d 0 bs off (Z.of_nat (length d)) = Ok d' ->
  d' = sp_read s (base + off) (length d).
Proof.
  intros Hh Hm. apply memcpy_inv in Hm as (Hb & Hl & Hd'). apply list_eq. intros i.
  rewrite Hd', sp_read_lookup. destruct (decide (i < length d)%nat).
  - rewrite decide_True by lia.
    destruct (lookup_lt_is_Some_2 bs (Z.to_nat (off + (Z.of_nat i - 0)))) as [x Hx]; [lia|].
    rewrite Hx. f_equal. rewrite (Hh _ _ Hx). f_equal. lia.
  - rewrite decide_False by lia. apply lookup_ge_None_2. lia.
Qed.

Lemma write_bytes mem base bs d off bs' :
  holds mem base bs -> memcpy bs off d 0 (Z.of_nat (length d)) = Ok bs' ->
  holds (mem_store mem (base + off) d) base bs'.
Proof.
  intros Hh Hm. apply memcpy_inv in Hm as (Hb & Hl & Hbs'). intros i b. rewrite Hbs'. case_decide as Hc.
  - intros Hi. assert (d !! Z.to_nat (base + Z.of_nat i - (base + off)) = Some b) as Hi'.
    { rewrite <- Hi. f_equal. lia. }
    rewrite (mem_store_in mem (base + off) d) in Hi' by lia. by injection Hi'.
  - intros Hi. rewrite mem_store_out by lia. by apply Hh.
Qed.

Lemma represents_write m bs s a bs' d off :
  represents m bs s -> memcpy bs off d 0 (Z.of_nat (length d)) = Ok bs' ->
  a = ar_start (am_range m) + off ->
  represents (with_pmem m (Some bs')) bs' (sp_write s a d).
Proof.
  intros [H2 H3 H4 H5 H6 H7] Hm ->. pose proof (write_bytes _ _ _ _ _ _ H5 Hm) as Hh.
  apply memcpy_inv in Hm as (_ & Hl & _). split; cbn; try done. lia.
Qed.

(** ** Accesses *)

(** The packet an access leaves: a response where one is needed. *)
Definition answered (p p' : Packet) : Prop :=
  cmd p' = (if needsResponse (cmd p) then responseCommand (cmd p) else cmd p) /\
  addr p' = addr p /\ pk_size p' = pk_size p /\ _isSecure p' = _isSecure p /\ bytesValid p' = bytesValid p /\
  forall f, Z.land (wrap 32 (Z.lnot EXPRESS_SNOOP)) f = f -> flag_isSet (flags p') f = flag_isSet (flags p) f.

Lemma finish_ok (m : AbstractMemory) p :
  isRequest (cmd p) = true ->
  exists p', (if needsResponse (cmd p) then let* p := makeResponse p in Ok (m, p) else Ok (m, p)) = Ok (m, p') /\
    answered p p' /\ data p' = data p /\ req p' = req p.
Proof.
  intros Hq. destruct (needsResponse (cmd p)) eqn:Hn.
  - unfold makeResponse. rewrite Hn, Hq. cbn. eexists. split; [done|]. unfold answered. rewrite Hn. split_and!; try done.
    intros f Hf. cbn. by rewrite isSet_clear_at.
  - exists p. unfold answered. by rewrite Hn.
Qed.

Lemma access_start m bs s p d :
  represents m bs s -> asks m p d ->
  getAddr p = Ok (addr p) /\ getSize p = Ok (pk_size p) /\ getPtr p = Ok d /\
  isSubset (AddrRange_plain (addr p) (u64 (u64 (addr p + pk_size p) - 1))) (am_range m) = Ok true /\
  u64 (addr p - ar_start (am_range m)) = addr p - ar_start (am_range m) /\
  pk_size p = Z.of_nat (length d).
Proof.
  intros Hr [[Pa Ps Pp Pd Pl Pr _] Hi _ _ _ _ _ _]. unfold getAddr, getSize, getPtr. rewrite Pa, Ps, Pp, Pd.
  destruct (rp_range _ _ _ Hr) as [H1 H2]. unfold region, in_range in *. split_and!; try done.
  - rewrite extent_end by (unfold region; lia). cbn. f_equal.
    rewrite andb_true_iff, !Z.leb_le. lia.
  - apply u64_small. unfold in_range. lia.
Qed.

(** The copies of an access stay within the backing store. *)
Lemma access_copies m bs s p d :
  represents m bs s -> asks m p d ->
  let off := addr p - ar_start (am_range m) in
  memcpy d 0 bs off (pk_size p) = Ok (sp_read s (addr p) (length d)) /\
  exists bs', memcpy bs off d 0 (pk_size p) = Ok bs'.
Proof.
  intros Hr Ha off. destruct (access_start _ _ _ _ _ Hr Ha) as (_ & _ & _ & _ & _ & Hn).
  pose proof (rp_length _ _ _ Hr) as Hl. pose proof (as_inside _ _ _ Ha) as Hi. split.
  - destruct (memcpy_total d 0 bs off (pk_size p)) as [d' Hd']; [subst off; lia..|].
    rewrite Hd'. f_equal. rewrite Hn in Hd'.
    rewrite (read_bytes _ _ _ _ _ _ (rp_bytes _ _ _ Hr) Hd'). f_equal. subst off. lia.
  - apply memcpy_total; subst off; lia.
Qed.

Lemma memcmp_sp s base bs off n v :
  holds (sp_byte s) base bs -> 0 <= off -> off + Z.of_nat n <= Z.of_nat (length bs) ->
  memcmp_eq bs off n v = bool_decide (sp_read s (base + off) n = bytes_le n v).
Proof.
  intros Hh Ho Hn. unfold memcmp_eq.
  assert (take n (drop (Z.to_nat off) bs) = sp_read s (base + off) n) as ->; [|done].
  apply list_eq. intros i. rewrite sp_read_lookup. case_decide as Hi.
  - rewrite lookup_take_lt, lookup_drop by lia.
    destruct (lookup_lt_is_Some_2 bs (Z.to_nat off + i)) as [x Hx]; [lia|].
    rewrite Hx. f_equal. rewrite (Hh _ _ Hx). f_equal. lia.
  - apply lookup_ge_None_2. rewrite length_take, length_drop. lia.
Qed.

Lemma swap_condition m bs s p d :
  represents m bs s -> asks m p d -> cmd p = SwapReq ->
  (if isCondSwap (req p) then
     if pk_size p =? 8 then let* v := getExtraData (req p) in
       Ok (memcmp_eq bs (addr p - ar_start (am_range m)) 8 v)
     else if pk_size p =? 4 then let* v := getExtraData (req p) in
       Ok (memcmp_eq bs (addr p - ar_start (am_range m)) 4 (u32 v))
     else Err Panic
   else Ok true) =
  Ok (if isCondSwap (req p) then
        bool_decide (sp_read s (addr p) (length d) = bytes_le (length d) (_extraData (req p)))
      else true).
Proof.
  intros Hr Ha Hs. destruct (isCondSwap (req p)) eqn:Hc; [|done].
  destruct (as_swap _ _ _ Ha Hs Hc) as (Hsz & Hx & Hb). rewrite Hx. cbn [rbind].
  destruct (access_start _ _ _ _ _ Hr Ha) as (_ & _ & _ & _ & _ & Hn).
  pose proof (rp_length _ _ _ Hr) as Hl. pose proof (as_inside _ _ _ Ha) as Hi.
  assert (forall n, length d = n -> memcmp_eq bs (addr p - ar_start (am_range m)) n (_extraData (req p)) =
     bool_decide (sp_read s (addr p) n = bytes_le n (_extraData (req p)))) as Hm.
  { intros n Hdn. rewrite (memcmp_sp s (ar_start (am_range m))) by (done || lia || apply (rp_bytes _ _ _ Hr)).
    by replace (ar_start (am_range m) + (addr p - ar_start (am_range m))) with (addr p) by lia. }
  destruct Hsz as [Hsz|Hsz]; rewrite Hsz in *; cbn [Z.eqb Pos.eqb].
  - assert (length d = 8%nat) as Hd by lia. by rewrite Hm, Hd by done.
  - assert (length d = 4%nat) as Hd by lia. unfold u32. rewrite wrap_small by done. by rewrite Hm, Hd by done.
Qed.

(** What an access is to give, by the abstract memory. *)
Definition access_gives (m : AbstractMemory) (p : Packet) (s' : MemSpec) (d' : list Z) (ok : option bool) : Prop :=
  exists m' bs' p', access m p = Ok (m', p') /\ represents m' bs' s' /\ am_range m' = am_range m /\
    data p' = Some d' /\ answered p p' /\
    match ok with
    | Some b => getExtraData (req p') = Ok (if b then 1 else 0)
    | None => req p' = req p
    end.

Ltac start_access Hr Ha :=
  unfold access;
  let H1 := fresh in let H2 := fresh in let H3 := fresh in let H4 := fresh in let H5 := fresh in
  destruct (access_start _ _ _ _ _ Hr Ha) as (H1 & H2 & H3 & H4 & H5 & _);
  rewrite H1, H2; cbn [rbind]; rewrite H4; cbn [rbind assert_]; rewrite (as_free _ _ _ Ha), H5.

Lemma access_swap m bs s p d :
  represents m bs s -> asks m p d -> cmd p = SwapReq ->
  access_gives m p
    (if (if isCondSwap (req p) then
           bool_decide (sp_read s (addr p) (length d) = bytes_le (length d) (_extraData (req p)))
         else true) then sp_write s (addr p) d else s) (sp_read s (addr p) (length d)) None.
Proof.
  intros Hr Ha Hs. destruct (access_copies _ _ _ _ _ Hr Ha) as (Hrd & bs' & Hwr).
  destruct (access_start _ _ _ _ _ Hr Ha) as (_ & _ & Hp & _ & _ & Hn).
  pose proof (swap_condition _ _ _ _ _ Hr Ha Hs) as Hcond.
  unfold access_gives. start_access Hr Ha. rewrite decide_True by done. rewrite (rp_pmem _ _ _ Hr), Hp. cbn [rbind].
  destruct (memcpy_total (replicate (Z.to_nat (pk_size p)) 0) 0 d 0 (pk_size p)) as [ov Hov];
    [rewrite ?length_replicate; lia..|].
  rewrite Hov. cbn [rbind]. apply memcpy_all in Hov; [|rewrite length_replicate; lia].
  rewrite drop_0, take_ge in Hov by lia. subst ov. rewrite Hrd. cbn [rbind req with_data].
  rewrite Hcond. cbn [rbind]. rewrite (as_data _ _ _ Ha) by (by rewrite Hs).
  set (go := if isCondSwap (req p) then _ else _).
  assert (exists bs2, (if go then memcpy bs (addr p - ar_start (am_range m)) d 0 (pk_size p) else Ok bs) = Ok bs2 /\
     represents (with_pmem m (Some bs2)) bs2 (if go then sp_write s (addr p) d else s)) as (bs2 & -> & Hr2).
  { destruct go; [exists bs' | exists bs]; (split; [done|]).
    - rewrite Hn in Hwr. eapply represents_write; [done|exact Hwr|]. lia.
    - destruct Hr; by split. }
  cbn [rbind assert_ negb].
  destruct (finish_ok (with_pmem m (Some bs2)) (with_data p (Some (sp_read s (addr p) (length d))))) as (p' & -> & Hans & Hd & Hq).
  { cbn. by rewrite Hs. }
  by exists (with_pmem m (Some bs2)), bs2, p'.
Qed.

Lemma access_read m bs s p d :
  represents m bs s -> asks m p d -> cmd p <> SwapReq -> isRead (cmd p) = true ->
  access_gives m p
    (if isLLSC (cmd p) then sp_reserve s (_contextId (req p)) (la_mask (addr p)) else s)
    (sp_read s (addr p) (length d)) None.
Proof.
  intros Hr Ha Hs Hrd. destruct (access_copies _ _ _ _ _ Hr Ha) as (Hcp & _).
  destruct (access_start _ _ _ _ _ Hr Ha) as (_ & _ & Hp & _ & _ & Hn).
  pose proof (as_kind _ _ _ Ha) as Hk. rewrite andb_true_iff in Hk. destruct Hk as [_ Hq].
  unfold access_gives. start_access Hr Ha. rewrite decide_False, Hrd by done.
  assert (isWrite (cmd p) = false) as -> by (destruct (cmd p); done). cbn [negb assert_ rbind].
  assert (exists m', (if isLLSC (cmd p) then trackLoadLocked m p else Ok m) = Ok m' /\
     am_range m' = am_range m /\
     represents m' bs (if isLLSC (cmd p) then sp_reserve s (_contextId (req p)) (la_mask (addr p)) else s))
    as (m' & -> & Hrng & Hr').
  { destruct (isLLSC (cmd p)) eqn:Hll; [|by exists m].
    destruct (trackLoadLocked_ok _ _ _ _ _ _ Hr (as_paddr _ _ _ Ha ltac:(by rewrite Hll)) (as_context _ _ _ Ha Hll)) as (m' & -> & ? & _ & ?).
    by exists m'. }
  cbn [rbind]. rewrite (rp_pmem _ _ _ Hr'), Hp. cbn [rbind]. rewrite Hcp. cbn [rbind].
  destruct (finish_ok m' (with_data p (Some (sp_read s (addr p) (length d))))) as (p' & -> & Hans & Hd & Hrq).
  { done. }
  by exists m', bs, p'.
Qed.

Lemma access_write m bs s p d :
  represents m bs s -> asks m p d -> isRead (cmd p) = false -> isInvalidate (cmd p) = false ->
  let g := la_mask (addr p) in
  let b := store_ok s p g (_contextId (req p)) in
  access_gives m p (if b then sp_write (sp_clear s g) (addr p) d else s) d
    (if isLLSC (cmd p) then Some b else None).
Proof.
  intros Hr Ha Hrd Hinv g b. destruct (access_copies _ _ _ _ _ Hr Ha) as (_ & bs' & Hwr).
  destruct (access_start _ _ _ _ _ Hr Ha) as (_ & _ & Hp & _ & _ & Hn).
  pose proof (as_kind _ _ _ Ha) as Hk. rewrite Hrd, Hinv, andb_true_iff in Hk. destruct Hk as [Hw Hq]. cbn in Hw.
  destruct (writeOK_ok _ _ _ _ _ _ Hr (as_paddr _ _ _ Ha ltac:(by rewrite Hw, orb_true_r)) (as_context _ _ _ Ha)) as (m' & Hok & Hrng & Hpm & Hr').
  fold g in Hok, Hr'. fold b in Hok, Hr'.
  set (p1 := if isLLSC (cmd p) then _ else p) in Hok.
  assert (flags p1 = flags p /\ cmd p1 = cmd p /\ data p1 = data p /\ addr p1 = addr p /\ pk_size p1 = pk_size p /\
          _isSecure p1 = _isSecure p /\ bytesValid p1 = bytesValid p /\ isInstFetch (req p1) = isInstFetch (req p)) as (Hf & Hc & Hd & Had & Hsz & Hse & Hbv & Hif)
    by (subst p1; by destruct (isLLSC (cmd p))).
  assert (getPtr p1 = Ok d) as Hp1. { unfold getPtr in *. by rewrite Hf, Hd. }
  unfold access_gives. start_access Hr Ha. rewrite decide_False by (intros E; by rewrite E in Hrd).
  rewrite Hrd, Hinv, Hw, Hok. cbn [rbind].
  assert (exists m2 bs2, (if b then
      let* m := match pmemAddr m' with None => Ok m' | Some bs =>
         let* d := getPtr p1 in let* bs := memcpy bs (addr p - ar_start (am_range m)) d 0 (pk_size p) in
         Ok (with_pmem m' (Some bs)) end in
      let* _ := assert_ (negb (isInstFetch (req p1))) in Ok (m, p1) else Ok (m', p1)) = Ok (m2, p1) /\
      am_range m2 = am_range m /\ represents m2 bs2 (if b then sp_write (sp_clear s g) (addr p) d else s))
    as (m2 & bs2 & -> & Hrng2 & Hr2).
  { destruct b; [|by exists m', bs]. rewrite Hpm, (rp_pmem _ _ _ Hr), Hp1. cbn [rbind]. rewrite Hwr, Hif, (as_data _ _ _ Ha) by done.
    exists (with_pmem m' (Some bs')), bs'. split; [done|]. split; [done|].
    rewrite Hn in Hwr. eapply represents_write; [done|exact Hwr|]. rewrite Hrng. lia. }
  cbn [rbind]. destruct (finish_ok m2 p1) as (p' & -> & Hans & Hd' & Hrq); [by rewrite Hc|].
  exists m2, bs2, p'. split_and!; try done.
  - rewrite Hd', Hd. apply (po_data _ _ (as_pkt _ _ _ Ha)).
  - unfold answered in *. by rewrite Hc, Had, Hsz, Hse, Hbv, Hf in Hans.
  - rewrite Hrq. subst p1. destruct (isLLSC (cmd p)); [|done]. cbn. unfold getExtraData. cbn.
    by rewrite isSet_set, orb_true_r.
Qed.

Lemma access_invalidate m bs s p d :
  represents m bs s -> asks m p d -> isRead (cmd p) = false -> isInvalidate (cmd p) = true ->
  access_gives m p s d None.
Proof.
  intros Hr Ha Hrd Hinv. pose proof (as_kind _ _ _ Ha) as Hk. rewrite andb_true_iff in Hk. destruct Hk as [_ Hq].
  unfold access_gives. start_access Hr Ha. rewrite decide_False by (intros E; by rewrite E in Hrd).
  rewrite Hrd, Hinv. cbn [rbind]. destruct (finish_ok m p Hq) as (p' & -> & Hans & Hd & Hrq).
  exists m, bs, p'. split_and!; try done. rewrite Hd. apply (po_data _ _ (as_pkt _ _ _ Ha)).
Qed.

Lemma access_spec m bs s p d :
  represents m bs s -> asks m p d ->
  access_gives m p (sp_access s p d).1.1 (sp_access s p d).1.2 (sp_access s p d).2.
Proof.
  intros Hr Ha. unfold sp_access. case_decide as Hs; [by apply (access_swap _ bs)|].
  destruct (isRead (cmd p)) eqn:Hrd; [by apply (access_read _ bs)|].
  destruct (isInvalidate (cmd p)) eqn:Hinv; [by apply (access_invalidate _ bs)|].
  pose proof (access_write _ _ _ _ _ Hr Ha Hrd Hinv) as Hw. unfold store_ok in Hw.
  destruct (isLLSC (cmd p)); [|done]. cbn [negb orb] in Hw.
  case_decide as Hc; [rewrite bool_decide_eq_true_2 in Hw by done | rewrite bool_decide_eq_false_2 in Hw by done];
    exact Hw.
Qed.

(** ** Histories of locked accesses *)

(** The accesses in order, with the packets they leave. *)
Fixpoint mem_run (m : AbstractMemory) (ps : list Packet) : result (AbstractMemory * list Packet) :=
  match ps with
  | [] => Ok (m, [])
  | p :: ps =>
      let* '(m, p') := access m p in
      let* '(m, out) := mem_run m ps in
      Ok (m, p' :: out)
  end.

Inductive lock_event :=
  | LoadLocked (c g : Z)   (** context [c] loads from granule [g] and locks it *)
  | Stored (a n : Z)       (** a store to [n] bytes at [a] goes ahead *)
  | Swapped (a n : Z)      (** [n] bytes at [a] are swapped, perhaps *)
  | OtherAccess.

#[export] Instance lock_event_eq_dec : EqDecision lock_event.
Proof. solve_decision. Defined.

(** What an access was, from its packet before and after. *)
Definition event_of (p p' : Packet) : lock_event :=
  if decide (cmd p = SwapReq) then Swapped (addr p) (pk_size p)
  else if isRead (cmd p) then
    if isLLSC (cmd p) then LoadLocked (_contextId (req p)) (la_mask (addr p)) else OtherAccess
  else if isInvalidate (cmd p) then OtherAccess
  else if isLLSC (cmd p) && (_extraData (req p') =? 0) then OtherAccess
  else Stored (addr p) (pk_size p).

Definition events (ps out : list Packet) : list lock_event := zip_with event_of ps out.

(** The locks of granule [g] are cleared by the stores that begin in it: not by
    swaps, and not by stores that begin in front of it and reach into it. *)
Definition clears (g : Z) (e : lock_event) : bool :=
  match e with Stored a _ => la_mask a =? g | _ => false end.

(** Context [c] holds granule [g] after a history: its last load-locked was to
    [g], and no store that clears its locks went ahead since. *)
Definition reserved_in (h : list lock_event) (c g : Z) : Prop :=
  exists before since, h = before ++ LoadLocked c g :: since /\
    (forall g', LoadLocked c g' ∉ since) /\ (forall e, e ∈ since -> clears g e = false).

(** An event may have changed a byte of granule [g]. *)
Definition touches (g : Z) (e : lock_event) : Prop :=
  match e with Stored a n | Swapped a n => a < g + 16 /\ g < a + n | _ => False end.

(** The last load-locked of context [c] was to granule [g], of which no byte
    has been written since. *)
Definition untouched_in (h : list lock_event) (c g : Z) : Prop :=
  exists before since, h = before ++ LoadLocked c g :: since /\
    (forall g', LoadLocked c g' ∉ since) /\ (forall e, e ∈ since -> ~ touches g e).

(** A packet that is not a swap and stays within one granule. *)
Definition within_granule (p : Packet) : Prop := cmd p <> SwapReq /\ addr p mod 16 + pk_size p <= 16.

Lemma la_mask_base a : is_u64 a -> la_mask a = 16 * (a / 16).
Proof.
  intros Ha. change (la_mask a) with (roundDown a (2 ^ 4)). rewrite roundDown_pow2 by (lia || done). change (2 ^ 4) with 16. pose proof (Z.div_mod a 16 ltac:(lia)). lia.
Qed.

Lemma reserved_snoc h e c g :
  reserved_in (h ++ [e]) c g <->
  match e with
  | LoadLocked c' g' => (c = c' /\ g = g') \/ (c <> c' /\ reserved_in h c g)
  | Stored a _ => g <> la_mask a /\ reserved_in h c g
  | Swapped _ _ | OtherAccess => reserved_in h c g
  end.
Proof.
  assert (reserved_in (h ++ [e]) c g <->
    e = LoadLocked c g \/ ((forall g', e <> LoadLocked c g') /\ clears g e = false /\ reserved_in h c g)) as ->.
  { split.
    - intros (b & a & Heq & Hl & Hs). destruct a as [|x a _] using rev_ind.
      + apply app_inj_tail in Heq as [_ ->]. by left.
      + rewrite app_comm_cons, app_assoc in Heq. apply app_inj_tail in Heq as [-> ->]. right.
        split_and!; [intros g' ->; apply (Hl g'); set_solver | apply Hs; set_solver |].
        exists b, a. split; [done|]. split; [intros g' ?; apply (Hl g'); set_solver | intros e' ?; apply Hs; set_solver].
    - intros [->|(H1 & H2 & b & a & -> & Hl & Hs)].
      + exists h, []. split; [done|]. split; [intros ?; apply not_elem_of_nil|]. by intros e' ?%not_elem_of_nil.
      + exists b, (a ++ [e]). rewrite <- app_assoc. split; [done|].
        split; [intros g'; specialize (H1 g'); specialize (Hl g')|intros e'; specialize (Hs e')]; rewrite elem_of_app, list_elem_of_singleton; naive_solver. }
  destruct e; cbn [clears]; rewrite ?Z.eqb_neq; naive_solver.
Qed.

(** On accesses that are not swaps and stay within a granule, the locks are
    those of the granules of which no byte has been written. *)
Lemma reserved_untouched ps out c g m :
  Forall (fun q => exists d, asks m q d) ps -> Forall within_granule ps -> g mod 16 = 0 ->
  reserved_in (events ps out) c g <-> untouched_in (events ps out) c g.
Proof.
  intros Ha Hw Hg. rewrite Forall_forall in Ha, Hw. assert (forall e, e ∈ events ps out -> clears g e = false <-> ~ touches g e) as He.
  { intros e (q & q' & -> & Hin & _)%elem_of_zip_with. destruct (Ha q Hin) as [d A]. destruct (Hw q Hin) as [Hs Hq].
    pose proof (po_region _ _ (as_pkt _ _ _ A)) as (Hn & Hlo & Hhi). unfold event_of. rewrite decide_False by done.
    destruct (isRead (cmd q)); [by destruct (isLLSC (cmd q)); split; auto|]. destruct (isInvalidate (cmd q)); [by split; auto|].
    destruct (isLLSC (cmd q) && _); [by split; auto|]. cbn [clears touches]. rewrite la_mask_base by (unfold in_range; lia).
    rewrite Z.eqb_neq. pose proof (Z.div_mod g 16 ltac:(lia)). pose proof (Z.div_mod (addr q) 16 ltac:(lia)).
    pose proof (Z.mod_pos_bound (addr q) 16 ltac:(lia)). lia. }
  split; intros (b & a & Heq & H1 & H2); exists b, a; split_and!; try done; intros e Hin; apply He; try (by apply H2); rewrite Heq; set_solver.
Qed.

Definition locks_match (s : MemSpec) (h : list lock_event) : Prop :=
  forall c g, sp_reserved s !! c = Some g <-> reserved_in h c g.

Lemma sp_access_event s p d h p' :
  locks_match s h ->
  match (sp_access s p d).2 with
  | Some b => getExtraData (req p') = Ok (if b then 1 else 0)
  | None => req p' = req p
  end ->
  locks_match (sp_access s p d).1.1 (h ++ [event_of p p']).
Proof.
  intros Hm Hx c g. unfold locks_match in Hm. rewrite reserved_snoc. unfold sp_access, event_of in *.
  case_decide; [cbn; destruct (if isCondSwap (req p) then _ else _); apply Hm|].
  destruct (isRead (cmd p)).
  { destruct (isLLSC (cmd p)); [|apply Hm]. cbn. destruct (decide (c = _contextId (req p))) as [->|Hne].
    - rewrite lookup_insert_eq. naive_solver.
    - rewrite lookup_insert_ne by done. rewrite Hm. naive_solver. }
  destruct (isInvalidate (cmd p)); [apply Hm|].
  destruct (isLLSC (cmd p)); [case_decide|].
  - cbn in Hx. unfold getExtraData in Hx. inv_ok. rewrite Hx. cbn.
    rewrite map_lookup_filter_Some, Hm. cbn. naive_solver.
  - cbn in Hx. unfold getExtraData in Hx. inv_ok. rewrite Hx. cbn. by rewrite Hm.
  - cbn. rewrite map_lookup_filter_Some, Hm. cbn. naive_solver.
Qed.

Lemma asks_range m m' p d : am_range m' = am_range m -> asks m p d -> asks m' p d.
Proof. by intros ->. Qed.

Lemma mem_run_ok ps : forall m bs s h,
  represents m bs s -> locks_match s h -> Forall (fun p => exists d, asks m p d) ps ->
  exists m' bs' s' out, mem_run m ps = Ok (m', out) /\ represents m' bs' s' /\
    am_range m' = am_range m /\ locks_match s' (h ++ events ps out).
Proof.
  induction ps as [|p ps IH]; intros m bs s h Hr Hm Hps; cbn [mem_run].
  { exists m, bs, s, []. split_and!; try done. cbn. by rewrite app_nil_r. }
  apply Forall_cons in Hps as [[d Ha] Hps].
  destruct (access_spec _ _ _ _ _ Hr Ha) as (m1 & bs1 & p' & -> & Hr1 & Hrng & _ & _ & Hx). cbn [rbind].
  destruct (IH m1 bs1 _ (h ++ [event_of p p']) Hr1 (sp_access_event _ _ _ _ _ Hm Hx)) as (m' & bs' & s' & out & -> & Hr' & Hrng' & Hm').
  { eapply Forall_impl; [exact Hps|]. intros q [dq Hq]. exists dq. by eapply asks_range. }
  cbn [rbind]. exists m', bs', s', (p' :: out). split_and!; try done; [congruence|].
  cbn. by rewrite <- app_assoc in Hm'.
Qed.

(** ** Packets of a processor *)

(** [Packet pkt(req, cmd); pkt.dataStatic(d)]. *)
Definition cpu_packet (r : Request) (c : MemCmd) (d : list Z) : Packet :=
  with_flags (with_data (new_Packet r c) (Some d)) (flag_set (flags (new_Packet r c)) STATIC_DATA).

Lemma dataStatic_new r c d : dataStatic (new_Packet r c) d = Ok (cpu_packet r c d).
Proof. unfold dataStatic, cpu_packet, new_Packet. cbn. by destruct (hasPaddr r), (hasSize r). Qed.

Lemma cpu_packet_asks (rng : AddrRange) r c d :
  hasPaddr r = true -> hasSize r = true -> contextId r = Ok (_contextId r) -> isInstFetch r = false ->
  _size r = Z.of_nat (length d) -> region (_paddr r) (_size r) ->
  ar_start rng <= _paddr r -> _paddr r + _size r - 1 <= ar_end rng ->
  (isRead c || isInvalidate c || isWrite c) && isRequest c = true -> (c = SwapReq -> isCondSwap r = false) ->
  asks rng (cpu_packet r c d) d.
Proof.
  intros Hp Hs Hc Hf Hl Hr H1 H2 Hk Hsw. split; unfold cpu_packet, new_Packet, memInhibitAsserted; cbn; rewrite ?Hp, ?Hs; try done.
  - split; cbn; rewrite ?Hp, ?Hs; try done. by left.
  - unfold getPaddr. unfold hasPaddr in Hp. by rewrite Hp.
  - intros Hc' Hcs. rewrite Hsw in Hcs; done.
Qed.

(** ** Properties *)

(** The memory refines its abstract description: on a packet a processor
    sends, [access] succeeds; the backing store and the list of locks
    afterwards hold the bytes and the reservations of the abstract memory, the
    packet carries the bytes read, a store conditional reports whether it went
    ahead, and the packet has become the response to its command. *)
Theorem access_refines m bs s p d :
  represents m bs s -> asks m p d ->
  let '(s', d', ok) := sp_access s p d in
  exists m' bs' p', access m p = Ok (m', p') /\ represents m' bs' s' /\ am_range m' = am_range m /\
    data p' = Some d' /\
    cmd p' = (if needsResponse (cmd p) then responseCommand (cmd p) else cmd p) /\
    match ok with
    | Some b => getExtraData (req p') = Ok (if b then 1 else 0)
    | None => req p' = req p
    end.
Proof.
  intros Hr Ha. destruct (access_spec _ _ _ _ _ Hr Ha) as (m' & bs' & p' & H1 & H2 & H3 & H4 & (H5 & _) & H6).
  destruct (sp_access s p d) as [[s' d'] ok]. by exists m', bs', p'.
Qed.

Definition demo_memory : AbstractMemory :=
  mkAbstractMemory (AddrRange_plain 0x1000 0x103f) (Some (replicate 64 0)) [] [].

Definition demo_spec : MemSpec := mkMemSpec (fun _ => 0) ∅.

Lemma demo_represents : represents demo_memory (replicate 64 0) demo_spec.
Proof.
  split; try done.
  - intros i b Hb. apply lookup_replicate in Hb as [-> _]. done.
  - constructor.
  - intros c g. cbn. rewrite lookup_empty. split; [done|]. intros H. by apply not_elem_of_nil in H.
Qed.

(** A request of context [c] for the bytes at [a]. *)
Definition demo_packet (k : MemCmd) (a c : Z) (d : list Z) : Packet :=
  cpu_packet (setThreadContext (Request_phys a (Z.of_nat (length d)) 0 0 0) c 0) k d.

Lemma demo_asks k a c d :
  (length d < 64)%nat -> d <> [] -> 0x1000 <= a -> a + Z.of_nat (length d) <= 0x1040 ->
  (isRead k || isInvalidate k || isWrite k) && isRequest k = true ->
  asks demo_memory (demo_packet k a c d) d.
Proof.
  intros Hl Hne H1 H2 Hk. assert (length d <> 0)%nat by (by destruct d).
  apply cpu_packet_asks; try done; cbn; try lia. unfold region. lia.
Qed.

Lemma access_refines_witness :
  exists m' bs' p',
    access demo_memory (demo_packet WriteReq 0x1004 0 [1; 2; 3; 4]) = Ok (m', p') /\
    represents m' bs' (sp_write (sp_clear demo_spec 0x1000) 0x1004 [1; 2; 3; 4]) /\ cmd p' = WriteResp.
Proof.
  destruct (access_refines demo_memory (replicate 64 0) demo_spec (demo_packet WriteReq 0x1004 0 [1; 2; 3; 4]) [1; 2; 3; 4])
    as (m' & bs' & p' & H1 & H2 & _ & _ & H3 & _).
  - exact demo_represents.
  - apply demo_asks; cbn; (lia || done).
  - exists m', bs', p'. split; [exact H1|]. split; [exact H2 | exact H3].
Defined.

(** C26: Locked accesses: after any sequence of accesses to a memory without
    locks, a store conditional of context [c] to an address succeeds exactly
    when the last load-locked of [c] was to the same 16-byte granule and no
    store (plain or conditional) that begins in that granule has gone ahead since.
    Swaps, and stores that begin in front of the granule and reach into it, leave
    the reservation.  If there are none, because no access is a swap and each
    stays within a granule, it succeeds exactly when no byte of the granule has
    been written since that load-locked. *)
Theorem store_conditional_exact m bs s ps p d :
  represents m bs s -> sp_reserved s = ∅ ->
  Forall (fun q => exists dq, asks m q dq) ps ->
  asks m p d -> cmd p = StoreCondReq ->
  exists m' out m'' p', mem_run m ps = Ok (m', out) /\ access m' p = Ok (m'', p') /\
    exists v, getExtraData (req p') = Ok v /\
      (v = 1 <-> reserved_in (events ps out) (_contextId (req p)) (la_mask (addr p))) /\
      (v = 0 <-> ~ reserved_in (events ps out) (_contextId (req p)) (la_mask (addr p))) /\
      (Forall within_granule ps -> v = 1 <-> untouched_in (events ps out) (_contextId (req p)) (la_mask (addr p))).
Proof.
  intros Hr Hs Hps Ha Hc. pose proof (po_region _ _ (as_pkt _ _ _ Ha)) as (Hn & Hlo & Hhi).
  destruct (mem_run_ok ps m bs s [] Hr) as (m' & bs' & s' & out & Hrun & Hr' & Hrng & Hm); [|done|].
  { intros c g. rewrite Hs, lookup_empty. split; [done|]. intros (b & a & Heq & _). by destruct b. }
  apply (asks_range _ m') in Ha; [|done].
  destruct (access_spec _ _ _ _ _ Hr' Ha) as (m'' & bs'' & p' & Hacc & _ & _ & _ & _ & Hx).
  unfold sp_access in Hx. rewrite Hc in Hx. cbn in Hx.
  exists m', out, m'', p'. split; [done|]. split; [done|]. specialize (Hm (_contextId (req p)) (la_mask (addr p))).
  cbn [app] in Hm. rewrite (decide_False (P := StoreCondReq = SwapReq)) in Hx by done.
  assert (Forall within_granule ps -> reserved_in (events ps out) (_contextId (req p)) (la_mask (addr p)) <-> untouched_in (events ps out) (_contextId (req p)) (la_mask (addr p))) as Hu.
  { intros Hw. eapply reserved_untouched; [done..|]. rewrite la_mask_base by (unfold in_range; lia). rewrite Z.mul_comm. apply Z.mod_mul. lia. }
  case_decide as Hd; cbn in Hx; [exists 1 | exists 0]; (split; [exact Hx|]); rewrite <- Hm in *; naive_solver.
Qed.

(** Two contexts lock the same granule; the first store conditional succeeds
    and ends both reservations. *)
Lemma store_conditional_exact_witness :
  exists m' out m'' p',
    mem_run demo_memory
      [demo_packet LoadLockedReq 0x1004 0 [0; 0; 0; 0]; demo_packet LoadLockedReq 0x1008 1 [0; 0; 0; 0];
       demo_packet StoreCondReq 0x1004 0 [1; 2; 3; 4]] = Ok (m', out) /\
    access m' (demo_packet StoreCondReq 0x1008 1 [5; 6; 7; 8]) = Ok (m'', p') /\
    getExtraData (req p') = Ok 0.
Proof.
  destruct (store_conditional_exact demo_memory (replicate 64 0) demo_spec
     [demo_packet LoadLockedReq 0x1004 0 [0; 0; 0; 0]; demo_packet LoadLockedReq 0x1008 1 [0; 0; 0; 0];
       demo_packet StoreCondReq 0x1004 0 [1; 2; 3; 4]] (demo_packet StoreCondReq 0x1008 1 [5; 6; 7; 8]) [5; 6; 7; 8])
    as (m' & out & m'' & p' & Hrun & Hacc & v & Hv & H1 & H0 & _).
  - exact demo_represents.
  - reflexivity.
  - repeat constructor; eexists; apply demo_asks; cbn; (lia || done).
  - apply demo_asks; cbn; (lia || done).
  - reflexivity.
  - exists m', out, m'', p'. split; [exact Hrun|]. split; [exact Hacc|].
    vm_compute in Hrun. injection Hrun as <- <-. vm_compute in Hacc. injection Hacc as <- <-. reflexivity.
Defined.

(** ** Stores that leave reservations

    A store of 64 bytes begins in granule 0x1000 and clears only its locks: the
    store conditional to 0x1014 succeeds although the word has changed. *)
Definition span_history : result Z :=
  let* '(m, _) := mem_run demo_memory
      [demo_packet LoadLockedReq 0x1014 0 [0; 0; 0; 0]; demo_packet WriteReq 0x1000 1 (replicate 64 9)] in
  let* '(_, p) := access m (demo_packet StoreCondReq 0x1014 0 [1; 2; 3; 4]) in
  getExtraData (req p).

Theorem spanning_store_keeps_reservation : span_history = Ok 1.
Proof. vm_compute. reflexivity. Qed.

(** The comment on [writeOK] asks for a call on all stores, but a swap stores
    without it: context 0 locks a granule, context 1 swaps a word of it, and the
    store conditional of context 0 succeeds although the word has changed. *)
Definition swap_history : result (option (list Z) * Z) :=
  let* '(m, _) := mem_run demo_memory
      [demo_packet LoadLockedReq 0x1004 0 [0; 0; 0; 0]; demo_packet SwapReq 0x1004 1 [9; 9; 9; 9]] in
  let* '(_, p) := access m (demo_packet StoreCondReq 0x1004 0 [1; 2; 3; 4]) in
  let* v := getExtraData (req p) in
  Ok (pmemAddr m, v).

Theorem swap_keeps_reservation :
  swap_history = Ok (Some (replicate 4 0 ++ replicate 4 9 ++ replicate 56 0), 1).
Proof. vm_compute. reflexivity. Qed.
