(* ===== verification/PacketQueue.v ===== *)
(** * Packet queues

    [mem/packet_queue.hh] and [mem/packet_queue.cc]: the queue behind a port
    that holds packets until they are due, sends them through its own event and
    waits for a retry when the peer refuses one.  [sendTiming] is the peer's
    code: it may send a new packet through the same queue before it returns, so
    it acts on the whole state [W], of which [get] and [put] give the queue. *)
From stdpp Require Import sorting.
From S2P Require Import Prelude Flags EventQueue EventSched Packet.

(** ** Definitions *)

(** [base/types.hh]. *)
Definition MaxTick : Z := 0xffffffffffffffff.

Record PacketQueue := mkPacketQueue {
  transmitList : list (Z * Packet);   (** [DeferredPacket]s: tick and packet *)
  waitingOnRetry : bool;
  drainManager : bool;                (** a drain manager is waiting *)
  sendEvent : ptr;
  pq_drainDone : nat;                 (** calls of [signalDrainDone()] *)
}.

Definition with_list (s : PacketQueue) (l : list (Z * Packet)) : PacketQueue :=
  mkPacketQueue l (waitingOnRetry s) (drainManager s) (sendEvent s) (pq_drainDone s).
Definition with_waiting (s : PacketQueue) (b : bool) : PacketQueue :=
  mkPacketQueue (transmitList s) b (drainManager s) (sendEvent s) (pq_drainDone s).

(** [hasAddr(addr)]. *)
Fixpoint hasAddr_loop (l : list (Z * Packet)) (a : Z) : result bool :=
  match l with
  | [] => Ok false
  | (_, p) :: l => let* b := getAddr p in if b =? a then Ok true else hasAddr_loop l a
  end.
Definition hasAddr (s : PacketQueue) (a : Z) : result bool := hasAddr_loop (transmitList s) a.

(** [checkFunctional(pkt)]: stops at the packet that completes the request. *)
Fixpoint functional_loop (l : list (Z * Packet)) (p : Packet)
    : result (bool * Packet * list (Z * Packet)) :=
  match l with
  | [] => Ok (false, p, [])
  | (t, o) :: l =>
      let* '(found, p, o) := checkFunctional_pkt p o in
      if found then Ok (true, p, (t, o) :: l)
      else let* '(found, p, l) := functional_loop l p in Ok (found, p, (t, o) :: l)
  end.
Definition pq_checkFunctional (s : PacketQueue) (p : Packet) : result (bool * Packet * PacketQueue) :=
  let* '(found, p, l) := functional_loop (transmitList s) p in Ok (found, p, with_list s l).

(** The insertion sort: before the first packet due later. *)
Fixpoint insert_sorted (l : list (Z * Packet)) (x : Z * Packet) : list (Z * Packet) :=
  match l with
  | [] => [x]
  | y :: l => if y.1 <=? x.1 then y :: insert_sorted l x else x :: y :: l
  end.

Section PqOps.
Context {Q : Type} `{EventSched Q}.

Record PqSt := mkPqSt { ps_q : Q; ps_pq : PacketQueue }.

Definition deferredPacketReady (s : PqSt) : bool :=
  match transmitList (ps_pq s) with [] => false | x :: _ => x.1 <=? q_now (ps_q s) end.

Definition deferredPacketReadyTime (s : PqSt) : Z :=
  match transmitList (ps_pq s) with [] => MaxTick | x :: _ => x.1 end.

(** [schedSendEvent(when)]. *)
Definition schedSendEvent (s : PqSt) (when : Z) : result PqSt :=
  let pq := ps_pq s in
  let q := ps_q s in
  if waitingOnRetry pq then
    let* _ := assert_ (negb (q_scheduled q (sendEvent pq))) in Ok s
  else if negb (when =? MaxTick) then
    let when := Z.max when (u64 (q_now q + 1)) in
    if negb (q_scheduled q (sendEvent pq)) then
      let* q := q_schedule q (sendEvent pq) when in Ok (mkPqSt q pq)
    else if when <? q_when q (sendEvent pq) then
      let* q := q_reschedule q (sendEvent pq) when false in Ok (mkPqSt q pq)
    else Ok s
  else if drainManager pq && match transmitList pq with [] => true | _ => false end && negb (q_scheduled q (sendEvent pq)) then
    Ok (mkPqSt q (mkPacketQueue (transmitList pq) (waitingOnRetry pq) false (sendEvent pq) (S (pq_drainDone pq))))
  else Ok s.

(** [schedSendTiming(pkt, when, force_order)]. *)
Definition schedSendTiming (s : PqSt) (p : Packet) (when : Z) (force_order : bool) : result PqSt :=
  let* _ := assert_ (q_now (ps_q s) <=? when) in
  let* _ := assert_ (negb (isExpressSnoop p)) in
  let l := transmitList (ps_pq s) in
  if (100 <? Z.of_nat (length l)) then Err Panic
  else
    let when := match last l with
                | Some back => if force_order && (when <? back.1) then back.1 else when
                | None => when
                end in
    match l, last l with
    | front :: rest, Some back =>
        if when <? front.1 then
          let* _ := assert_ (negb force_order) in
          schedSendEvent (mkPqSt (ps_q s) (with_list (ps_pq s) ((when, p) :: l))) when
        else if back.1 <=? when then Ok (mkPqSt (ps_q s) (with_list (ps_pq s) (l ++ [(when, p)])))
        else
          let* _ := assert_ (negb force_order) in
          Ok (mkPqSt (ps_q s) (with_list (ps_pq s) (front :: insert_sorted rest (when, p))))
    | _, _ => schedSendEvent (mkPqSt (ps_q s) (with_list (ps_pq s) ((when, p) :: l))) when
    end.

(** [drain(dm)]: the number of objects still to drain. *)
Definition pq_drain (s : PqSt) : Z * PqSt :=
  let pq := ps_pq s in
  match transmitList pq with
  | [] => (0, s)
  | l => (1, mkPqSt (ps_q s) (mkPacketQueue l (waitingOnRetry pq) true (sendEvent pq) (pq_drainDone pq)))
  end.

Section Send.
Context {W : Type} (get : W -> PqSt) (put : W -> PqSt -> W) (sendTiming : W -> Packet -> result (bool * W)).

Definition set_pq (w : W) (pq : PacketQueue) : W := put w (mkPqSt (ps_q (get w)) pq).

(** [sendDeferredPacket()]. *)
Definition sendDeferredPacket (w : W) : result W :=
  let* _ := assert_ (negb (waitingOnRetry (ps_pq (get w)))) in
  let* _ := assert_ (deferredPacketReady (get w)) in
  match transmitList (ps_pq (get w)) with
  | [] => Err Bad_pointer
  | dp :: l =>
      let w := set_pq w (with_list (ps_pq (get w)) l) in
      let* '(sent, w) := sendTiming w dp.2 in
      let w := set_pq w (with_waiting (ps_pq (get w)) (negb sent)) in
      if sent then
        let* s := schedSendEvent (get w) (deferredPacketReadyTime (get w)) in Ok (put w s)
      else Ok (set_pq w (with_list (ps_pq (get w)) (dp :: transmitList (ps_pq (get w)))))
  end.

(** [processSendEvent()]. *)
Definition processSendEvent (w : W) : result W :=
  let* _ := assert_ (negb (waitingOnRetry (ps_pq (get w)))) in sendDeferredPacket w.

(** [retry()]. *)
Definition pq_retry (w : W) : result W :=
  let* _ := assert_ (waitingOnRetry (ps_pq (get w))) in
  sendDeferredPacket (set_pq w (with_waiting (ps_pq (get w)) false)).
End Send.
End PqOps.
Arguments PqSt : clear implicits.

(** ** Order *)

Definition due_sorted (l : list (Z * Packet)) : Prop := StronglySorted (fun x y => x.1 <= y.1) l.

(** [x] inserted behind every packet due no later. *)
Definition inserted (l : list (Z * Packet)) (x : Z * Packet) (l' : list (Z * Packet)) : Prop :=
  exists l1 l2, l = l1 ++ l2 /\ l' = l1 ++ x :: l2 /\
    Forall (fun y => y.1 <= x.1) l1 /\ Forall (fun y => x.1 < y.1) l2.

Lemma inserted_sorted l x l' : due_sorted l -> inserted l x l' -> due_sorted l'.
Proof.
  intros Hs (l1 & l2 & -> & -> & H1 & H2). unfold due_sorted in *. revert Hs H1.
  induction l1 as [|y l1 IH]; cbn; intros Hs H1.
  - constructor; [done|]. eapply Forall_impl; [exact H2|]. cbn. lia.
  - apply StronglySorted_inv in Hs as [Hs Hy]. apply Forall_cons in H1 as [Hyx H1].
    constructor; [by apply IH|]. rewrite Forall_app, Forall_cons in *. naive_solver.
Qed.

Lemma insert_sorted_inserted l x : due_sorted l -> inserted l x (insert_sorted l x).
Proof.
  induction l as [|y l IH]; intros Hs; cbn [insert_sorted].
  - exists [], []. split_and!; try done; constructor.
  - apply StronglySorted_inv in Hs as [Hs Hy]. destruct (Z.leb_spec y.1 x.1) as [Hle|Hlt].
    + destruct (IH Hs) as (l1 & l2 & -> & -> & H1 & H2). exists (y :: l1), l2.
      split_and!; try done. by constructor.
    + exists [], (y :: l). split_and!; try done. constructor; [done|].
      eapply Forall_impl; [exact Hy|]. cbn. lia.
Qed.

Lemma sorted_last l x y : due_sorted l -> last l = Some y -> x ∈ l -> x.1 <= y.1.
Proof.
  intros Hs Hl Hx. destruct l as [|z l _] using rev_ind; [done|].
  rewrite last_snoc in Hl. injection Hl as ->. apply elem_of_app in Hx as [Hx|Hx%list_elem_of_singleton]; [|by subst].
  unfold due_sorted in Hs. apply (StronglySorted_app_1_elem_of _ _ _ x y Hs); [done|]. by apply list_elem_of_singleton.
Qed.

(** The tick at which a packet is queued. *)
Definition queued_at (l : list (Z * Packet)) (when : Z) (force_order : bool) : Z :=
  match last l with
  | Some back => if force_order && (when <? back.1) then back.1 else when
  | None => when
  end.

Lemma queued_at_ge l when f : when <= queued_at l when f.
Proof.
  unfold queued_at. destruct (last l) as [back|]; [|done].
  destruct f; cbn; [|done]. destruct (Z.ltb_spec when back.1); lia.
Qed.

Section PqCorrect.
Context {Q : Type} `{EventSchedLaws Q}.
Implicit Types s : PqSt Q.

(** What a packet sent through the queue does to the list. *)
Lemma schedSendTiming_list s p when f s' :
  due_sorted (transmitList (ps_pq s)) -> schedSendTiming s p when f = Ok s' ->
  let l := transmitList (ps_pq s) in
  let x := (queued_at l when f, p) in
  inserted l x (transmitList (ps_pq s')) /\ (f = true -> transmitList (ps_pq s') = l ++ [x]).
Proof.
  intros Hs Hok l x. unfold schedSendTiming in Hok. inv_ok. fold l in Hok, Hs.
  destruct (100 <? _); [done|].
  change (match last l with Some back => if f && (when <? back.1) then back.1 else when | None => when end)
    with (queued_at l when f) in Hok.
  assert (forall s1 s2 t, schedSendEvent s1 t = Ok s2 -> transmitList (ps_pq s2) = transmitList (ps_pq s1)) as Hsend.
  { clear. intros s1 s2 t. unfold schedSendEvent. destruct (waitingOnRetry _); [intros; inv_ok; by subst|].
    destruct (negb (t =? MaxTick)).
    - destruct (negb _); [intros; inv_ok; by subst|]. destruct (_ <? _); intros; inv_ok; by subst.
    - destruct (_ && _); intros; inv_ok; by subst. }
  destruct l as [|front rest] eqn:El.
  { apply Hsend in Hok. rewrite Hok. subst x. cbn. split; [|done]. exists [], []. split_and!; try done; constructor. }
  destruct (last (front :: rest)) as [back|] eqn:Hback; [|by apply last_None in Hback].
  destruct (Z.ltb_spec (queued_at (front :: rest) when f) front.1) as [Hlt|Hge].
  { inv_ok. apply Hsend in Hok. rewrite Hok. cbn. split; [|intros ->; done].
    exists [], (front :: rest). split_and!; try done. apply StronglySorted_inv in Hs as [_ Hf].
    constructor; [done|]. eapply Forall_impl; [exact Hf|]. cbn in *. lia. }
  destruct (Z.leb_spec back.1 (queued_at (front :: rest) when f)) as [Hle|Hgt].
  { injection Hok as <-. cbn. split; [|done]. exists (front :: rest), []. rewrite app_nil_r.
    split_and!; try done. apply Forall_forall. intros y Hy.
    pose proof (sorted_last _ _ _ Hs Hback Hy). cbn in *. lia. }
  inv_ok. subst s'. cbn. split; [|intros ->; done]. apply StronglySorted_inv in Hs as [Hs _].
  destruct (insert_sorted_inserted rest x Hs) as (l1 & l2 & -> & Hi & Hl1 & Hl2). exists (front :: l1), l2.
  subst x. rewrite Hi. split_and!; try done. constructor; [done|]. exact Hl1.
Qed.

(** ** The invariant *)

Record pq_ok s : Prop := {
  pk_inv : q_inv (ps_q s);
  pk_own : q_own (ps_q s) (sendEvent (ps_pq s));
  pk_sorted : due_sorted (transmitList (ps_pq s));
  pk_ticks : Forall (fun x => x.1 < MaxTick) (transmitList (ps_pq s));
  pk_now : 0 <= q_now (ps_q s) < MaxTick - 1;
}.

Definition send_scheduled s : bool := q_scheduled (ps_q s) (sendEvent (ps_pq s)).
Definition send_when s : Z := q_when (ps_q s) (sendEvent (ps_pq s)).

(** The send event, when scheduled, comes when the front packet is due, or in
    the next tick for one that is overdue. *)
Definition send_in_time s : Prop :=
  send_scheduled s = true ->
  exists x l, transmitList (ps_pq s) = x :: l /\
    x.1 <= send_when s <= Z.max x.1 (q_now (ps_q s) + 1).

(** The state while a packet is being sent. *)
Definition pq_sending s : Prop := pq_ok s /\ waitingOnRetry (ps_pq s) = false /\ send_in_time s.

(** Between events: a queue waits for a retry with its front packet due and no
    event, or its event is scheduled as long as there are packets. *)
Definition pq_inv s : Prop :=
  pq_ok s /\
  if waitingOnRetry (ps_pq s) then send_scheduled s = false /\ deferredPacketReady s = true
  else send_in_time s /\ (transmitList (ps_pq s) <> [] -> send_scheduled s = true).

Lemma schedSendEvent_ok s t :
  pq_ok s -> waitingOnRetry (ps_pq s) = false -> t < MaxTick ->
  exists q', schedSendEvent s t = Ok (mkPqSt q' (ps_pq s)) /\
    q_inv q' /\ q_own q' (sendEvent (ps_pq s)) /\ q_now q' = q_now (ps_q s) /\
    q_scheduled q' (sendEvent (ps_pq s)) = true /\
    (forall r, r <> sendEvent (ps_pq s) -> q_scheduled q' r = q_scheduled (ps_q s) r) /\
    let w := Z.max t (q_now (ps_q s) + 1) in
    q_when q' (sendEvent (ps_pq s)) = if send_scheduled s then Z.min w (send_when s) else w.
Proof.
  intros [Hi Ho _ _ Hn] Hw Ht. unfold schedSendEvent, send_scheduled, send_when, MaxTick in *. rewrite Hw.
  rewrite (proj2 (Z.eqb_neq _ _)) by lia. cbn [negb]. rewrite u64_small by (unfold in_range; lia).
  destruct (q_scheduled (ps_q s) (sendEvent (ps_pq s))) eqn:Hs; cbn [negb].
  - destruct (Z.ltb_spec (Z.max t (q_now (ps_q s) + 1)) (q_when (ps_q s) (sendEvent (ps_pq s)))) as [Hlt|Hge].
    + destruct (q_reschedule_ok _ _ (Z.max t (q_now (ps_q s) + 1)) false Hi Ho) as (q' & -> & Hi' & Hst); [done|lia|].
      cbn [rbind]. exists q'. destruct Hst as [S1 S2 S3 _ S5 S6].
      split_and!; try done; [by apply S5|by intros r Hr; apply S6|]. rewrite (S3 _ eq_refl). lia.
    + exists (ps_q s). destruct s; cbn in *. split_and!; try done. lia.
  - destruct (q_schedule_ok _ _ (Z.max t (q_now (ps_q s) + 1)) Hi Ho Hs) as (q' & -> & Hi' & Hst); [lia|].
    cbn [rbind]. exists q'. destruct Hst as [S1 S2 S3 _ S5 S6].
    split_and!; try done; [by apply S5|by intros r Hr; apply S6|]. by rewrite (S3 _ eq_refl).
Qed.

(** A packet may be queued: not in the past, the queue not over-full. *)
Definition may_queue s (p : Packet) (when : Z) : Prop :=
  q_now (ps_q s) <= when < MaxTick /\ isExpressSnoop p = false /\
  (length (transmitList (ps_pq s)) <= 100)%nat.

(** Beyond 100 packets nothing can be queued. *)
Lemma too_long s p when f :
  q_now (ps_q s) <= when < MaxTick -> isExpressSnoop p = false -> (100 < length (transmitList (ps_pq s)))%nat ->
  schedSendTiming s p when f = Err Panic.
Proof.
  intros Hw Hx Hl. unfold schedSendTiming. rewrite (proj2 (Z.leb_le _ _)), Hx by lia. cbn [assert_ rbind negb].
  by rewrite (proj2 (Z.ltb_lt _ _)) by lia.
Qed.

Lemma queued_at_lt l when f : Forall (fun x => x.1 < MaxTick) l -> when < MaxTick -> queued_at l when f < MaxTick.
Proof.
  intros Hl Hw. unfold queued_at. destruct (last l) as [back|] eqn:Hb; [|done].
  destruct (f && _); [|done]. apply (Forall_forall _ l) with (x := back) in Hl; [done|].
  by apply last_Some_elem_of.
Qed.

(** The two ways a packet enters the queue: at the front, with the send event
    brought forward, or behind the front packet. *)
Lemma schedSendTiming_cases s p when f :
  pq_ok s -> may_queue s p when ->
  let l := transmitList (ps_pq s) in
  let x := (queued_at l when f, p) in
  match l with
  | [] => schedSendTiming s p when f =
            schedSendEvent (mkPqSt (ps_q s) (with_list (ps_pq s) [x])) x.1
  | front :: _ =>
      if x.1 <? front.1 then
        schedSendTiming s p when f =
          schedSendEvent (mkPqSt (ps_q s) (with_list (ps_pq s) (x :: l))) x.1
      else exists l', schedSendTiming s p when f =
             Ok (mkPqSt (ps_q s) (with_list (ps_pq s) (front :: l')))
  end.
Proof.
  intros [_ _ Hs _ _] ([Hn _] & Hx & Hl) l x. unfold schedSendTiming. fold l in Hs, Hl |- *.
  rewrite (proj2 (Z.leb_le _ _)), Hx by lia. cbn [assert_ rbind negb].
  rewrite (proj2 (Z.ltb_ge _ _)) by lia.
  change (match last l with Some back => if f && (when <? back.1) then back.1 else when | None => when end)
    with (queued_at l when f).
  destruct l as [|front rest] eqn:El; [done|].
  destruct (last (front :: rest)) as [back|] eqn:Hback; [|by apply last_None in Hback].
  cbn [x fst]. assert (front.1 <= back.1) as Hfb by (eapply sorted_last; [exact Hs|done|by left]).
  assert (f = true -> back.1 <= queued_at (front :: rest) when f) as Hf.
  { intros ->. unfold queued_at. rewrite Hback. cbn. destruct (Z.ltb_spec when back.1); lia. }
  destruct (Z.ltb_spec (queued_at (front :: rest) when f) front.1).
  - destruct f; [specialize (Hf eq_refl); lia|]. done.
  - destruct (Z.leb_spec back.1 (queued_at (front :: rest) when f)).
    + by exists (rest ++ [x]).
    + destruct f; [specialize (Hf eq_refl); lia|]. by eexists.
Qed.

Lemma inserted_ticks l x l' :
  Forall (fun y => y.1 < MaxTick) l -> x.1 < MaxTick -> inserted l x l' -> Forall (fun y => y.1 < MaxTick) l'.
Proof. intros Hl Hx (l1 & l2 & -> & -> & _). rewrite Forall_app, Forall_cons in *. naive_solver. Qed.

(** The list keeps its order whenever a packet is queued. *)
Lemma schedSendTiming_pq_ok s p when f s' :
  pq_ok s -> when < MaxTick -> schedSendTiming s p when f = Ok s' ->
  q_inv (ps_q s') -> q_own (ps_q s') (sendEvent (ps_pq s')) -> q_now (ps_q s') = q_now (ps_q s) ->
  pq_ok s' /\
  inserted (transmitList (ps_pq s)) (queued_at (transmitList (ps_pq s)) when f, p) (transmitList (ps_pq s')).
Proof.
  intros [_ _ Hs Ht Hnow] Hw He Hi Ho Hn. destruct (schedSendTiming_list _ _ _ _ _ Hs He) as [Hins _].
  split; [|done]. split; try done; [by eapply inserted_sorted| |by rewrite Hn].
  eapply inserted_ticks; [exact Ht| |exact Hins]. by apply queued_at_lt.
Qed.

(** A packet due before all others brings the send event forward. *)
Lemma schedule_front s x l :
  pq_ok s -> waitingOnRetry (ps_pq s) = false -> send_in_time s -> x.1 < MaxTick ->
  transmitList (ps_pq s) = l -> match l with [] => True | y :: _ => x.1 < y.1 end ->
  exists s', schedSendEvent (mkPqSt (ps_q s) (with_list (ps_pq s) (x :: l))) x.1 = Ok s' /\
    q_inv (ps_q s') /\ q_own (ps_q s') (sendEvent (ps_pq s')) /\ q_now (ps_q s') = q_now (ps_q s) /\
    ps_pq s' = with_list (ps_pq s) (x :: l) /\ send_in_time s' /\ send_scheduled s' = true.
Proof.
  intros Hok Hw Hin Hx Hl Hxl.
  destruct (schedSendEvent_ok (mkPqSt (ps_q s) (with_list (ps_pq s) (x :: l))) x.1) as (q' & Heq & Hi & Ho & Hn & Hsc & _ & Hwhen); [|done..|].
  { destruct Hok as [? ? Hs Ht ?]. split; try done; cbn; rewrite Hl in Hs, Ht; [|by constructor].
    destruct l; constructor; try done. apply StronglySorted_inv in Hs as [_ Hy].
    constructor; [lia|]. eapply Forall_impl; [exact Hy|]. cbn in *. lia. }
  rewrite Heq. eexists. split; [done|]. split_and!; try done. intros _. exists x, l. split; [done|].
  unfold send_in_time, send_when, send_scheduled in *. cbn in *. rewrite Hwhen, Hn.
  destruct (q_scheduled (ps_q s) _); [|lia]. destruct (Hin eq_refl) as (y & l' & Hyl & Hy).
  rewrite Hl in Hyl. rewrite Hyl in Hxl. lia.
Qed.

(** What queueing a packet keeps. *)
Definition pq_kept s p when f s' : Prop :=
  pq_ok s' /\ q_now (ps_q s') = q_now (ps_q s) /\
  waitingOnRetry (ps_pq s') = waitingOnRetry (ps_pq s) /\ sendEvent (ps_pq s') = sendEvent (ps_pq s) /\
  inserted (transmitList (ps_pq s)) (queued_at (transmitList (ps_pq s)) when f, p) (transmitList (ps_pq s')).

(** Queueing a packet while another is being sent, or between events. *)
Lemma schedSendTiming_sending s p when f :
  pq_sending s -> may_queue s p when ->
  exists s', schedSendTiming s p when f = Ok s' /\ pq_kept s p when f s' /\ pq_sending s' /\
    ((transmitList (ps_pq s) <> [] -> send_scheduled s = true) -> send_scheduled s' = true).
Proof.
  intros (Hok & Hw & Hin) Hm. pose proof (schedSendTiming_cases s p when f Hok Hm) as Hc. cbv zeta in Hc.
  pose proof (proj2 (proj1 Hm)) as Hmax. pose proof (queued_at_lt _ _ f (pk_ticks _ Hok) Hmax) as Hlt.
  set (x := (queued_at (transmitList (ps_pq s)) when f, p)) in *.
  assert (forall l, schedSendTiming s p when f = schedSendEvent (mkPqSt (ps_q s) (with_list (ps_pq s) (x :: l))) x.1 ->
    transmitList (ps_pq s) = l -> match l with [] => True | y :: _ => x.1 < y.1 end ->
    exists s', schedSendTiming s p when f = Ok s' /\ pq_kept s p when f s' /\ pq_sending s' /\ send_scheduled s' = true) as Hfront.
  { intros l He Hl Hxl. destruct (schedule_front s x l Hok Hw Hin Hlt Hl Hxl) as (s' & Heq & Hi & Ho & Hn & Hpq & Hin' & Hsc).
    rewrite Heq in He. destruct (schedSendTiming_pq_ok _ _ _ _ _ Hok Hmax He Hi Ho Hn) as [Hok' Hins].
    exists s'. unfold pq_kept, pq_sending. rewrite Hpq in *. split_and!; done. }
  destruct (transmitList (ps_pq s)) as [|front rest] eqn:El; [|destruct (Z.ltb_spec x.1 front.1) as [Hxf|Hxf]].
  - destruct (Hfront [] Hc eq_refl I) as (s' & ? & ? & ? & ?). by exists s'.
  - destruct (Hfront (front :: rest) Hc eq_refl Hxf) as (s' & ? & ? & ? & ?). by exists s'.
  - destruct Hc as [l' Hc]. destruct (schedSendTiming_pq_ok _ _ _ _ _ Hok Hmax Hc) as [Hok' Hins]; [apply Hok|apply Hok|done|].
    eexists. split; [done|]. unfold pq_kept, pq_sending. split_and!; try done; [|intros Hss; by apply Hss].
    intros Hs'. destruct (Hin Hs') as (y & l & Hyl & Hy). rewrite El in Hyl. injection Hyl as <- <-. by exists front, l'.
Qed.

Lemma schedSendTiming_inv s p when f :
  pq_inv s -> may_queue s p when ->
  exists s', schedSendTiming s p when f = Ok s' /\ pq_kept s p when f s' /\ pq_inv s'.
Proof.
  intros [Hok Hinv] Hm. destruct (waitingOnRetry (ps_pq s)) eqn:Hw.
  - pose proof (schedSendTiming_cases s p when f Hok Hm) as Hc. cbv zeta in Hc.
    pose proof (queued_at_ge (transmitList (ps_pq s)) when f) as Hge.
    destruct Hinv as [Hns Hr]. unfold deferredPacketReady in Hr.
    destruct (transmitList (ps_pq s)) as [|front rest] eqn:El; [done|]. apply Z.leb_le in Hr.
    destruct Hm as ([Hm Hmax] & _). rewrite (proj2 (Z.ltb_ge _ _)) in Hc by (cbn; lia). destruct Hc as [l' Hc].
    destruct (schedSendTiming_pq_ok _ _ _ _ _ Hok Hmax Hc) as [Hok' Hins]; [apply Hok|apply Hok|done|].
    eexists. split; [done|]. unfold pq_kept, pq_inv. rewrite El in *. cbn. rewrite Hw. split_and!; try done.
    unfold deferredPacketReady. cbn. by apply Z.leb_le.
  - destruct Hinv as [Hin Hsc].
    destruct (schedSendTiming_sending s p when f) as (s' & He & Hk & Hs & Hsc'); [done..|].
    exists s'. split; [done|]. split; [done|]. destruct Hs as (Hok' & Hw' & Hin'). split; [done|]. rewrite Hw'. split; [done|].
    intros _. by apply Hsc'.
Qed.

(** ** Sending *)

(** A series of packets queued by the peer while it receives one. *)
Inductive queues : PqSt Q -> list (Packet * Z * bool) -> PqSt Q -> Prop :=
  | queues_nil s : queues s [] s
  | queues_cons s p when f s1 adds s' :
      may_queue s p when -> schedSendTiming s p when f = Ok s1 -> queues s1 adds s' ->
      queues s ((p, when, f) :: adds) s'.

Lemma queues_nil_inv s s' : queues s [] s' -> s' = s.
Proof. by inversion 1. Qed.

Lemma inserted_sublist l x l' : inserted l x l' -> l `sublist_of` l'.
Proof. intros (l1 & l2 & -> & -> & _). apply sublist_app; [done|]. by apply sublist_cons. Qed.

Lemma queues_sending s adds s' :
  pq_sending s -> queues s adds s' ->
  pq_sending s' /\ q_now (ps_q s') = q_now (ps_q s) /\
  sendEvent (ps_pq s') = sendEvent (ps_pq s) /\ transmitList (ps_pq s) `sublist_of` transmitList (ps_pq s').
Proof.
  intros Hs Hq. induction Hq as [|s p when f s1 adds s' Hm He _ IH]; [done|].
  destruct (schedSendTiming_sending s p when f Hs Hm) as (s1' & He' & (_ & Hn & _ & Hev & Hins) & Hs1 & _).
  rewrite He in He'. injection He' as <-. destruct (IH Hs1) as (? & Hn' & Hev' & Hsub).
  split_and!; [done|congruence|congruence|]. etrans; [by eapply inserted_sublist|done].
Qed.

(** After a packet has gone, the event for the next one. *)
Lemma send_next s :
  pq_sending s ->
  exists s', schedSendEvent s (deferredPacketReadyTime s) = Ok s' /\ pq_inv s' /\
    q_now (ps_q s') = q_now (ps_q s) /\ sendEvent (ps_pq s') = sendEvent (ps_pq s) /\
    waitingOnRetry (ps_pq s') = false /\ transmitList (ps_pq s') = transmitList (ps_pq s) /\
    forall r, r <> sendEvent (ps_pq s) -> q_scheduled (ps_q s') r = q_scheduled (ps_q s) r.
Proof.
  intros (Hok & Hw & Hin). destruct (transmitList (ps_pq s)) as [|y l] eqn:Hl.
  - assert (send_scheduled s = false) as Hsc.
    { destruct (send_scheduled s) eqn:E; [|done]. destruct (Hin E) as (? & ? & E' & _). by rewrite Hl in E'. }
    exists (if drainManager (ps_pq s) then
       mkPqSt (ps_q s) (mkPacketQueue [] false false (sendEvent (ps_pq s)) (S (pq_drainDone (ps_pq s)))) else s).
    split. { unfold schedSendEvent, deferredPacketReadyTime, send_scheduled in *. rewrite Hw, Hl, Hsc. cbn.
             rewrite !andb_true_r. by destruct (drainManager _). }
    destruct (drainManager (ps_pq s)); cbn.
    + split_and!; try done. destruct Hok as [? ? _ _ ?]. split; [by split; try done; constructor|]. cbn.
      unfold send_in_time, send_scheduled in *. cbn. rewrite Hsc. split; [done|]. by intros [].
    + split_and!; try done. split; [done|]. rewrite Hw, Hl. split; [done|]. by intros [].
  - assert (deferredPacketReadyTime s = y.1) as Ht by (unfold deferredPacketReadyTime; by rewrite Hl).
    pose proof (pk_ticks _ Hok) as Hts. rewrite Hl in Hts. apply Forall_cons in Hts as [Hyt _]. rewrite Ht.
    destruct (schedSendEvent_ok s y.1 Hok Hw Hyt) as (q3 & -> & Hi3 & Ho3 & Hn3 & Hsc3 & Hfr3 & Hwh3).
    eexists. split; [done|]. cbn. split_and!; try done. destruct Hok as [Hi Ho Hso Hts Hn].
    split; [split; cbn; try done; by rewrite Hn3|]. cbn. rewrite Hw. split; [|done].
    intros _. exists y, l. split; [done|]. unfold send_when in *. cbv zeta in Hwh3. cbn [ps_q ps_pq]. rewrite Hwh3, Hn3.
    destruct (send_scheduled s) eqn:E; [|lia]. destruct (Hin E) as (y' & l' & E' & Hy). rewrite Hl in E'.
    injection E' as <- <-. unfold send_when in Hy. lia.
Qed.

Section Sending.
Context {W : Type} (get : W -> PqSt Q) (put : W -> PqSt Q -> W) (sendTiming : W -> Packet -> result (bool * W)).
Context (get_put : forall w s, get (put w s) = s).

(** The contract of the peer: it answers, it changes the queue only by queueing
    packets, and it queues none when it refuses. *)
Definition peer_ok : Prop :=
  forall w p, pq_sending (get w) ->
  exists sent w' adds, sendTiming w p = Ok (sent, w') /\ queues (get w) adds (get w') /\
    (sent = false -> adds = []).

Context (Hpeer : peer_ok).

Lemma pq_ok_list s l b :
  pq_ok s -> due_sorted l -> Forall (fun x => x.1 < MaxTick) l ->
  pq_ok (mkPqSt (ps_q s) (with_waiting (with_list (ps_pq s) l) b)).
Proof. intros [? ? _ _ ?] ? ?. by split. Qed.

Lemma sendDeferredPacket_ok w x l :
  pq_ok (get w) -> waitingOnRetry (ps_pq (get w)) = false -> send_scheduled (get w) = false ->
  transmitList (ps_pq (get w)) = x :: l -> x.1 <= q_now (ps_q (get w)) ->
  exists w', sendDeferredPacket get put sendTiming w = Ok w' /\ pq_inv (get w') /\
    q_now (ps_q (get w')) = q_now (ps_q (get w)) /\ sendEvent (ps_pq (get w')) = sendEvent (ps_pq (get w)) /\
    if waitingOnRetry (ps_pq (get w')) then transmitList (ps_pq (get w')) = x :: l
    else l `sublist_of` transmitList (ps_pq (get w')).
Proof.
  intros Hok Hw Hns Hl Hx. pose proof Hok as [Ki Ko Ks Kt Kn]. rewrite Hl in Ks, Kt.
  apply StronglySorted_inv in Ks as [Ks Kx]. apply Forall_cons in Kt as [Kxt Kt].
  unfold sendDeferredPacket, set_pq. rewrite Hw. cbn [negb assert_ rbind].
  assert (deferredPacketReady (get w) = true) as ->.
  { unfold deferredPacketReady. rewrite Hl. by apply Z.leb_le. }
  cbn [assert_ rbind]. rewrite Hl.
  set (w1 := put w (mkPqSt (ps_q (get w)) (with_list (ps_pq (get w)) l))).
  assert (get w1 = mkPqSt (ps_q (get w)) (with_list (ps_pq (get w)) l)) as Hw1 by apply get_put.
  assert (pq_sending (get w1)) as Hs1.
  { rewrite Hw1. split; [by split|]. split; [done|]. intros Hs. unfold send_scheduled in *. cbn in Hs. congruence. }
  destruct (Hpeer w1 x.2 Hs1) as (sent & w2 & adds & -> & Hq & Hrefuse). cbn [rbind].
  destruct (queues_sending _ _ _ Hs1 Hq) as ((Hok2 & Hw2 & Hin2) & Hn2 & Hev2 & Hsub2).
  rewrite Hw1 in Hn2, Hev2, Hsub2. cbn in Hn2, Hev2, Hsub2. rewrite !get_put.
  destruct sent; cbn [negb].
  - set (s2 := mkPqSt (ps_q (get w2)) (with_waiting (ps_pq (get w2)) false)).
    assert (s2 = get w2) as Hs2.
    { subst s2. destruct (get w2) as [q2 [tl wt dm se dd]]. cbn in *. by subst wt. }
    rewrite Hs2. destruct (send_next (get w2)) as (s3 & -> & Hinv3 & Hn3 & Hev3 & Hw3 & Hl3 & _); [done|]. cbn [rbind].
    eexists. split; [done|]. rewrite get_put, Hw3, Hl3. split_and!; [done|congruence|congruence|done].
  - rewrite (Hrefuse eq_refl) in Hq. apply queues_nil_inv in Hq. rewrite Hq, Hw1. cbn.
    eexists. split; [done|]. rewrite get_put. cbn. split_and!; try done. split.
    + split; cbn; try done; [by constructor|by constructor].
    + cbn. split; [done|]. unfold deferredPacketReady. cbn. by apply Z.leb_le.
Qed.

(** Other events pass: the clock moves on, but not past the send event. *)
Record passes (ev : ptr) (q q' : Q) : Prop := {
  ps_inv : q_inv q';
  ps_own : q_own q' ev;
  ps_time : q_now q <= q_now q' < MaxTick - 1;
  ps_same : q_scheduled q' ev = q_scheduled q ev /\ q_when q' ev = q_when q ev;
}.

(** What can happen to a queue between two events. *)
Inductive pq_step : W -> W -> Prop :=
  | step_queue w p when f s :
      may_queue (get w) p when -> schedSendTiming (get w) p when f = Ok s -> pq_step w (put w s)
  | step_retry w w' :
      waitingOnRetry (ps_pq (get w)) = true -> pq_retry get put sendTiming w = Ok w' -> pq_step w w'
  | step_send w q' w' :
      send_scheduled (get w) = true ->
      q_pop (ps_q (get w)) = Ok (sendEvent (ps_pq (get w)), q') -> q_now q' < MaxTick - 1 ->
      processSendEvent get put sendTiming (put w (mkPqSt q' (ps_pq (get w)))) = Ok w' -> pq_step w w'
  | step_pass w q' :
      passes (sendEvent (ps_pq (get w))) (ps_q (get w)) q' ->
      pq_step w (put w (mkPqSt q' (ps_pq (get w)))).

Lemma retry_ok w :
  pq_inv (get w) -> waitingOnRetry (ps_pq (get w)) = true ->
  exists w', pq_retry get put sendTiming w = Ok w' /\ pq_inv (get w').
Proof.
  intros [Hok Hinv] Hw. rewrite Hw in Hinv. destruct Hinv as [Hns Hr]. unfold pq_retry, set_pq. rewrite Hw. cbn [assert_ rbind].
  unfold deferredPacketReady in Hr. destruct (transmitList (ps_pq (get w))) as [|x l] eqn:Hl; [done|]. apply Z.leb_le in Hr.
  destruct (sendDeferredPacket_ok (put w (mkPqSt (ps_q (get w)) (with_waiting (ps_pq (get w)) false))) x l)
    as (w' & -> & Hinv & _); rewrite ?get_put; try done; [|by exists w'].
  destruct Hok. by split.
Qed.

Lemma send_event_ok w q' :
  pq_inv (get w) -> send_scheduled (get w) = true ->
  q_pop (ps_q (get w)) = Ok (sendEvent (ps_pq (get w)), q') -> q_now q' < MaxTick - 1 ->
  exists w' x l, transmitList (ps_pq (get w)) = x :: l /\ x.1 <= q_now q' <= Z.max x.1 (q_now (ps_q (get w)) + 1) /\
    processSendEvent get put sendTiming (put w (mkPqSt q' (ps_pq (get w)))) = Ok w' /\ pq_inv (get w').
Proof.
  intros [Hok Hinv] Hs Hp Hn. destruct (waitingOnRetry (ps_pq (get w))) eqn:Hw; [by destruct Hinv; congruence|].
  destruct Hinv as [Hin _]. destruct (Hin Hs) as (x & l & Hl & Hx).
  destruct (q_pop_ok _ _ (pk_inv _ Hok) (pk_own _ Hok) Hs) as (p & q & Hp' & Hi' & Ht). rewrite Hp in Hp'.
  injection Hp' as <- <-. destruct Ht as [_ Tn Tl Tt To _]. unfold send_when in Hx. rewrite <- Tn in Hx.
  destruct (sendDeferredPacket_ok (put w (mkPqSt q' (ps_pq (get w)))) x l) as (w' & Heq & Hinv & _);
    rewrite ?get_put; try done; [|cbn; lia|].
  { destruct Hok as [? ? ? ? ?]. split; try done; cbn; [by apply To|lia]. }
  exists w', x, l. split_and!; try done; [lia|lia|]. unfold processSendEvent. rewrite get_put. cbn [ps_pq]. rewrite Hw. exact Heq.
Qed.

Lemma pq_step_inv w w' : pq_inv (get w) -> pq_step w w' -> pq_inv (get w').
Proof.
  intros Hinv Hstep. destruct Hstep as [w p when f s Hm He|w w' Hw He|w q' w' Hs Hp Hn He|w q' Hps].
  - destruct (schedSendTiming_inv _ _ _ f Hinv Hm) as (s' & He' & _ & Hinv'). rewrite He in He'. injection He' as <-. by rewrite get_put.
  - destruct (retry_ok w Hinv Hw) as (w1 & He' & Hinv'). rewrite He in He'. by injection He' as <-.
  - destruct (send_event_ok w q' Hinv Hs Hp Hn) as (w1 & x & l & _ & _ & He' & Hinv'). rewrite He in He'. by injection He' as <-.
  - rewrite get_put. destruct Hinv as [[Hi Ho Hso Ht Hnow] Hinv], Hps as [Pi Po Pt [Ps Pw]]. split.
    + split; cbn; try done. lia.
    + cbn. unfold send_in_time, send_scheduled, send_when, deferredPacketReady in *. cbn. rewrite Ps, Pw.
      destruct (waitingOnRetry (ps_pq (get w))).
      * destruct Hinv as [? Hr]. split; [done|]. destruct (transmitList _); [done|]. apply Z.leb_le in Hr. apply Z.leb_le. lia.
      * destruct Hinv as [Hin Hss]. split; [|done]. intros Hs. destruct (Hin Hs) as (x & l & Hl & Hx). exists x, l. split; [done|]. lia.
Qed.
End Sending.
End PqCorrect.

(** ** Functional accesses through a queue *)

(** A packet on its way: it has an address and a size, and where it carries
    data these are bytes of memory; [mem] gives the secure and the non-secure
    address space. *)
Definition in_flight (mem : bool -> Z -> Z) (o : Packet) : Prop :=
  flag_isSet (flags o) VALID_ADDR = true /\ flag_isSet (flags o) VALID_SIZE = true /\
  region (addr o) (pk_size o) /\
  (hasData (cmd o) = true -> exists d, pkt_ok o d /\ holds (mem (_isSecure o)) (addr o) d).

Lemma checkFunctional_pkt_start p o :
  flag_isSet (flags o) VALID_ADDR = true -> flag_isSet (flags o) VALID_SIZE = true ->
  (hasData (cmd o) = true -> exists d, pkt_ok o d) ->
  checkFunctional_pkt p o =
    (let* '(b, p, d) := checkFunctional p (addr o) (_isSecure o) (pk_size o) (if hasData (cmd o) then data o else None) in
     Ok (b, p, if hasData (cmd o) then with_data o d else o)).
Proof.
  intros Ha Hs Hd. unfold checkFunctional_pkt, getAddr, getSize, isSecure, getPtr. rewrite Ha, Hs. cbn [assert_ rbind].
  destruct (hasData (cmd o)); [|done]. destruct (Hd eq_refl) as [d [_ _ Hp Hdd _ _ _]]. by rewrite Hp, Hdd.
Qed.

Lemma with_data_same o : with_data o (data o) = o.
Proof. by destruct o. Qed.

(** A buffer of the other address space, or no buffer, changes nothing. *)
Lemma checkFunctional_apart p d vs sec m buf :
  pkt_ok p d -> isPrint (cmd p) = false -> (sec <> _isSecure p \/ buf = None) ->
  checkFunctional p vs sec m buf = Ok (false, p, buf).
Proof.
  intros [Ha Hs _ _ _ _ _] Hpr Hor. unfold checkFunctional, getAddr, getSize. rewrite Ha, Hs, Hpr. cbn [assert_ rbind].
  destruct (eqb sec (_isSecure p)) eqn:E; cbn [negb orb]; [|done].
  apply eqb_prop in E. destruct Hor as [?| ->]; [done|]. by destruct (_ || _).
Qed.

Lemma functional_loop_read mem l : forall p d,
  Forall (fun x => in_flight mem x.2) l -> pkt_ok p d -> found_ok (mem (_isSecure p)) p d ->
  isRead (cmd p) = true -> isPrint (cmd p) = false ->
  exists found p' d', functional_loop l p = Ok (found, p', l) /\ pkt_ok p' d' /\ same_request p p' /\
    (found = true -> holds (mem (_isSecure p)) (addr p) d').
Proof.
  induction l as [|[t o] l IH]; intros p d Hl Hp Hf Hrd Hpr; cbn [functional_loop].
  { by exists false, p, d. }
  apply Forall_cons in Hl as [(Oa & Os & Or & Od) Hl]. cbn in Oa, Os, Or, Od.
  rewrite checkFunctional_pkt_start by naive_solver.
  assert (exists b p1 d1, checkFunctional p (addr o) (_isSecure o) (pk_size o) (if hasData (cmd o) then data o else None) =
     Ok (b, p1, if hasData (cmd o) then data o else None) /\ pkt_ok p1 d1 /\ found_ok (mem (_isSecure p)) p1 d1 /\
     same_request p p1 /\ (b = true -> holds (mem (_isSecure p)) (addr p) d1)) as (b & p1 & d1 & Heq & Hp1 & Hf1 & Hsr & Hb).
  { destruct (hasData (cmd o)) eqn:Eh; [destruct (decide (_isSecure o = _isSecure p)) as [Esec|Esec]|].
    - destruct (Od eq_refl) as (od & Hod & Hh). rewrite (po_data _ _ Hod), Esec in *.
      apply (checkFunctional_read (mem (_isSecure p)) p d); try done. apply Hod.
    - exists false, p, d. split; [apply (checkFunctional_apart p d); tauto|]. done.
    - exists false, p, d. split; [apply (checkFunctional_apart p d); tauto|]. done. }
  rewrite Heq. cbn [rbind].
  assert ((if hasData (cmd o) then with_data o (if hasData (cmd o) then data o else None) else o) = o) as ->.
  { destruct (hasData (cmd o)); [apply with_data_same|done]. }
  destruct b; [by exists true, p1, d1|].
  destruct Hsr as (S1 & S2 & S3 & S4 & S5 & S6).
  destruct (IH p1 d1 Hl Hp1) as (found & p' & d' & -> & Hp' & Hsr' & Hfd); [by rewrite S5|by rewrite S2|by rewrite S2|].
  cbn [rbind]. exists found, p', d'. rewrite S4, S5 in Hfd. split_and!; try done.
  unfold same_request in *. destruct Hsr' as (?&?&?&?&?&?). split_and!; congruence.
Qed.

(** Memory after a functional write of packet [p]. *)
Definition flight_store (mem : bool -> Z -> Z) (p : Packet) (d : list Z) : bool -> Z -> Z :=
  fun sec => if eqb sec (_isSecure p) then mem_store (mem sec) (addr p) d else mem sec.

Lemma functional_loop_write mem p d l :
  Forall (fun x => in_flight mem x.2) l -> pkt_ok p d ->
  isRead (cmd p) = false -> isWrite (cmd p) = true -> isPrint (cmd p) = false ->
  exists l', functional_loop l p = Ok (false, p, l') /\
    Forall2 (fun x y => y.1 = x.1 /\ cmd y.2 = cmd x.2 /\ addr y.2 = addr x.2 /\ pk_size y.2 = pk_size x.2) l l' /\
    Forall (fun x => in_flight (flight_store mem p d) x.2) l'.
Proof.
  intros Hl Hp Hrd Hwr Hpr. induction l as [|[t o] l IH]; cbn [functional_loop]; [by exists []|].
  apply Forall_cons in Hl as [(Oa & Os & Or & Od) Hl]. cbn in Oa, Os, Or, Od.
  rewrite checkFunctional_pkt_start by naive_solver.
  assert (exists buf, checkFunctional p (addr o) (_isSecure o) (pk_size o) (if hasData (cmd o) then data o else None) = Ok (false, p, buf) /\
     in_flight (flight_store mem p d) (if hasData (cmd o) then with_data o buf else o)) as (buf & -> & Hfl).
  { destruct (hasData (cmd o)) eqn:Eh; [destruct (decide (_isSecure o = _isSecure p)) as [Esec|Esec]|].
    - destruct (Od eq_refl) as (od & Hod & Hh). rewrite (po_data _ _ Hod), Esec in *.
      destruct (checkFunctional_write p d (addr o) (pk_size o) od) as (buf' & -> & Hlen & Hb); try done; [apply Hod|].
      exists (Some buf'). split; [done|]. split_and!; try done. intros _. exists buf'. split.
      + destruct Hod. split; try done. cbn. lia.
      + cbn. unfold flight_store. rewrite Esec, eqb_reflx. by eapply holds_store; try done; apply Hod.
    - exists (data o). split; [apply (checkFunctional_apart p d); tauto|]. rewrite with_data_same. split_and!; try done.
      intros _. destruct (Od eq_refl) as (od & Hod & Hh). exists od. split; [done|]. unfold flight_store.
      destruct (eqb _ _) eqn:E; [|done]. by apply eqb_prop in E.
    - exists None. split; [apply (checkFunctional_apart p d); tauto|]. split_and!; try done. by rewrite Eh. }
  cbn [rbind]. destruct (IH Hl) as (l' & -> & H2 & Hl'). cbn [rbind]. eexists. split; [done|].
  split; constructor; try done. cbn. by destruct (hasData (cmd o)).
Qed.

(** ** Draining *)

(** A peer that takes every packet; the packets it has taken are kept with
    the time. *)
Definition log_put {Q} (w : PqSt Q * list (Z * Packet)) (s : PqSt Q) : PqSt Q * list (Z * Packet) := (s, w.2).
Definition accept {Q} `{EventSched Q} (w : PqSt Q * list (Z * Packet)) (p : Packet)
    : result (bool * (PqSt Q * list (Z * Packet))) := Ok (true, (w.1, w.2 ++ [(q_now (ps_q w.1), p)])).

(** The next event is taken [n] times; it is to be the send event. *)
Fixpoint send_run {Q} `{EventSched Q} (n : nat) (w : PqSt Q * list (Z * Packet))
    : result (PqSt Q * list (Z * Packet)) :=
  match n with
  | O => Ok w
  | S n =>
      let* '(p, q) := q_pop (ps_q w.1) in
      let* _ := assert_ (bool_decide (p = sendEvent (ps_pq w.1))) in
      let* w := processSendEvent fst log_put accept (mkPqSt q (ps_pq w.1), w.2) in
      send_run n w
  end.

Section Drain.
Context {Q : Type} `{EventSchedLaws Q}.
Implicit Types s : PqSt Q.

Lemma accept_send s log x l :
  pq_ok s -> waitingOnRetry (ps_pq s) = false -> send_scheduled s = false ->
  transmitList (ps_pq s) = x :: l -> x.1 <= q_now (ps_q s) ->
  exists s', processSendEvent fst log_put accept (s, log) = Ok (s', log ++ [(q_now (ps_q s), x.2)]) /\
    pq_inv s' /\ q_now (ps_q s') = q_now (ps_q s) /\ waitingOnRetry (ps_pq s') = false /\
    transmitList (ps_pq s') = l /\ sendEvent (ps_pq s') = sendEvent (ps_pq s) /\
    forall r, r <> sendEvent (ps_pq s) -> q_scheduled (ps_q s') r = q_scheduled (ps_q s) r.
Proof.
  intros Hok Hw Hns Hl Hx. unfold processSendEvent, sendDeferredPacket, set_pq, log_put, accept. cbn [fst snd].
  rewrite Hw. cbn [negb assert_ rbind].
  assert (deferredPacketReady s = true) as -> by (unfold deferredPacketReady; rewrite Hl; by apply Z.leb_le).
  cbn [assert_ rbind]. rewrite Hl. cbn [rbind fst snd ps_q ps_pq negb].
  destruct (send_next (mkPqSt (ps_q s) (with_waiting (with_list (ps_pq s) l) false))) as (s' & -> & Hinv & Hn & Hev & Hw' & Hl' & Hfr).
  { pose proof Hok as [Ki Ko Ks Kt Kn]. rewrite Hl in Ks, Kt. apply StronglySorted_inv in Ks as [Ks _].
    apply Forall_cons in Kt as [_ Kt]. split; [by split|]. split; [done|]. unfold send_in_time, send_scheduled in *. cbn. congruence. }
  cbn [rbind]. by exists s'.
Qed.

Lemma send_run_ok l : forall s log,
  pq_inv s -> waitingOnRetry (ps_pq s) = false -> transmitList (ps_pq s) = l ->
  (forall r, r <> sendEvent (ps_pq s) -> q_scheduled (ps_q s) r = false) ->
  q_now (ps_q s) + Z.of_nat (length l) < MaxTick - 1 ->
  Forall (fun x => x.1 + Z.of_nat (length l) < MaxTick) l ->
  exists s' sent, send_run (length l) (s, log) = Ok (s', log ++ sent) /\ transmitList (ps_pq s') = [] /\
    Forall2 (fun y x => y.2 = x.2 /\ x.1 <= y.1) sent l.
Proof.
  induction l as [|x l IH]; intros s log Hinv Hw Hl Honly Hnow Ht; cbn [send_run length].
  { exists s, []. by rewrite app_nil_r. }
  destruct Hinv as [Hok Hinv]. rewrite Hw in Hinv. destruct Hinv as [Hin Hsc]. rewrite Hl in Hsc. specialize (Hsc ltac:(done)).
  destruct (Hin Hsc) as (x' & l' & Hl' & Hx). rewrite Hl in Hl'. injection Hl' as <- <-.
  destruct (q_pop_ok _ _ (pk_inv _ Hok) (pk_own _ Hok) Hsc) as (p & q & Hp & Hi & [Tw Tn Tl Tt To Tr]). cbn [fst snd]. rewrite Hp. cbn [rbind].
  assert (p = sendEvent (ps_pq s)) as ->.
  { destruct (decide (p = sendEvent (ps_pq s))) as [|Hne]; [done|]. by rewrite Honly in Tw. }
  rewrite bool_decide_eq_true_2 by done. cbn [assert_ rbind snd fst]. unfold send_when in Hx. rewrite <- Tn in Hx.
  apply Forall_cons in Ht as [Htx Ht]. cbn [length] in *.
  destruct (accept_send (mkPqSt q (ps_pq s)) log x l) as (s1 & -> & Hinv1 & Hn1 & Hw1 & Hl1 & Hev1 & Hfr1); try done; [|cbn; lia|].
  { destruct Hok as [? ? ? ? ?]. split; try done; cbn; [by apply To|lia]. }
  cbn [rbind ps_q]. destruct (IH s1 (log ++ [(q_now q, x.2)]) Hinv1 Hw1 Hl1) as (s' & sent & -> & He & Hf).
  - rewrite Hev1. cbn. intros r Hr. rewrite (Hfr1 r Hr). cbn. destruct (Tr r Hr) as [-> _]. by apply Honly.
  - rewrite Hn1. cbn. lia.
  - eapply Forall_impl; [exact Ht|]. cbn. lia.
  - exists s', ((q_now q, x.2) :: sent). rewrite <- app_assoc. split; [done|]. split; [done|]. constructor; [|done]. cbn. split; [done|lia].
Qed.
End Drain.

(** ** Properties *)

(** C34: A packet queue fails only when it is too long, and never forgets to send.
    With a peer that answers, queues nothing when it refuses and queues packets
    only while at most 100 wait, every state reached by queueing packets while at
    most 100 wait, retries, send events and the passing of other events keeps the
    invariant.  In each, a packet that is due neither in the past nor at the end
    of time and is no express snoop can be queued exactly if at most 100 wait
    (beyond that, [schedSendTiming] panics); an awaited retry succeeds; and with
    packets to send and no retry awaited the send event is scheduled, comes when
    the front packet is due (in the next tick if it is overdue), and then
    succeeds.  Time stays two ticks or more short of [MaxTick]. *)
Theorem packet_queue_safe {Q W} `{EventSchedLaws Q} (get : W -> PqSt Q) put sendTiming w w' :
  (forall w s, get (put w s) = s) -> peer_ok get sendTiming ->
  pq_inv (get w) -> rtc (pq_step get put sendTiming) w w' ->
  pq_inv (get w') /\
  (forall p when f, q_now (ps_q (get w')) <= when < MaxTick -> isExpressSnoop p = false ->
     if (length (transmitList (ps_pq (get w'))) <=? 100)%nat then exists s, schedSendTiming (get w') p when f = Ok s
     else schedSendTiming (get w') p when f = Err Panic) /\
  (waitingOnRetry (ps_pq (get w')) = true -> exists w'', pq_retry get put sendTiming w' = Ok w'') /\
  (waitingOnRetry (ps_pq (get w')) = false -> transmitList (ps_pq (get w')) <> [] -> send_scheduled (get w') = true) /\
  (forall q', send_scheduled (get w') = true ->
     q_pop (ps_q (get w')) = Ok (sendEvent (ps_pq (get w')), q') -> q_now q' < MaxTick - 1 ->
     exists w'' x l, transmitList (ps_pq (get w')) = x :: l /\
       x.1 <= q_now q' <= Z.max x.1 (q_now (ps_q (get w')) + 1) /\
       processSendEvent get put sendTiming (put w' (mkPqSt q' (ps_pq (get w')))) = Ok w'').
Proof.
  intros Hgp Hpeer Hinv Hr. assert (pq_inv (get w')) as Hinv'.
  { induction Hr as [|w1 w2 w3 Hs _ IH]; [done|]. apply IH. by eapply pq_step_inv. }
  split; [done|]. split_and!.
  - intros p when f Hw Hx. destruct (Nat.leb_spec (length (transmitList (ps_pq (get w')))) 100) as [Hl|Hl]; [|by apply too_long].
    destruct (schedSendTiming_inv _ p when f Hinv' (conj Hw (conj Hx Hl))) as (s & -> & _). by exists s.
  - intros Hw. destruct (retry_ok get put sendTiming Hgp Hpeer w' Hinv' Hw) as (w'' & -> & _). by exists w''.
  - intros Hw Hne. destruct Hinv' as [_ Hi]. rewrite Hw in Hi. by apply Hi.
  - intros q' Hs Hp Hn. destruct (send_event_ok get put sendTiming Hgp Hpeer w' q' Hinv' Hs Hp Hn) as (w'' & x & l & ? & ? & ? & _).
    by exists w'', x, l.
Qed.

(** Two packets of a processor, one event. *)
Definition pq_demo_packet (a : Z) : Packet :=
  mkPacket (Z.lor (Z.lor VALID_ADDR VALID_SIZE) STATIC_DATA) WriteReq Request_0
    (Some [1; 2; 3; 4]) a false 4 InvalidCmd [].
Definition pq_demo_queue : EventQueue :=
  mkEventQueue {[ 1%positive := mkEvent None None 0 0 Initialized None ]} None 0 [] 0 false 0.
Definition pq_demo0 : PqSt EventQueue := mkPqSt pq_demo_queue (mkPacketQueue [] false false 1 0).
Definition pq_demo (n : nat) : PqSt EventQueue :=
  match schedSendTiming pq_demo0 (pq_demo_packet 0x100) 20 false with
  | Ok s => if Nat.eqb n 1 then s else
      match schedSendTiming s (pq_demo_packet 0x200) 10 false with Ok s => s | Err _ => pq_demo0 end
  | Err _ => pq_demo0
  end.

Lemma pq_demo0_inv : pq_inv pq_demo0.
Proof.
  split; [split|]; try done.
  - split; [done|]. split; [done|]. exists []. apply EventQueueCorrect.wf_empty; [done|done|].
    apply (bool_decide_unpack _). vm_compute. exact I.
  - eexists. split; [reflexivity|]. split; done.
  - constructor.
Qed.

Lemma pq_demo_may (s : PqSt EventQueue) (a t : Z) :
  eq_curTick (ps_q s) = 0 -> (length (transmitList (ps_pq s)) <= 2)%nat -> 0 <= t < 100 ->
  may_queue s (pq_demo_packet a) t.
Proof. intros Hn Hl Ht. unfold may_queue, MaxTick. cbn. rewrite Hn. split; [lia|]. split; [done|lia]. Qed.

Lemma pq_demo_inv : pq_inv (pq_demo 1) /\ pq_inv (pq_demo 2).
Proof.
  destruct (schedSendTiming_inv _ _ _ false pq_demo0_inv (pq_demo_may pq_demo0 0x100 20 eq_refl ltac:(cbn; lia) ltac:(lia)))
    as (s1 & H1 & _ & Hi1).
  assert (pq_demo 1 = s1) as E1 by (unfold pq_demo; by rewrite H1).
  split; [by rewrite E1|].
  destruct (schedSendTiming_inv _ _ _ false Hi1 (pq_demo_may s1 0x200 10
    ltac:(rewrite <- E1; vm_compute; reflexivity) ltac:(rewrite <- E1; vm_compute; lia) ltac:(lia))) as (s2 & H2 & _ & Hi2).
  unfold pq_demo. rewrite H1. cbn [Nat.eqb]. by rewrite H2.
Qed.

Lemma accept_ok {Q} `{EventSchedLaws Q} : peer_ok fst (accept (Q := Q)).
Proof. intros w p _. eexists true, _, []. split; [done|]. split; [constructor|done]. Qed.

Lemma packet_queue_safe_witness :
  send_scheduled (pq_demo 2) = true /\
  exists w'' x l, transmitList (ps_pq (pq_demo 2)) = x :: l /\ x.1 = 10 /\
    exists q', q_pop (ps_q (pq_demo 2)) = Ok (1%positive, q') /\
    processSendEvent fst log_put accept (mkPqSt q' (ps_pq (pq_demo 2)), []) = Ok w''.
Proof.
  destruct (packet_queue_safe fst log_put accept (pq_demo 2, []) (pq_demo 2, [])) as (_ & _ & _ & Hs & Hf).
  - reflexivity.
  - exact accept_ok.
  - exact (proj2 pq_demo_inv).
  - apply rtc_refl.
  - split; [apply Hs; [reflexivity|vm_compute; discriminate]|].
    destruct (q_pop (ps_q (pq_demo 2))) as [[p q']|] eqn:Hp; [|vm_compute in Hp; discriminate].
    assert (p = 1%positive /\ q_now q' < MaxTick - 1) as [-> Hn]
      by (vm_compute in Hp; injection Hp as <- <-; split; reflexivity).
    destruct (Hf q') as (w'' & x & l & Hl & Hx & Hr); [vm_compute; reflexivity|exact Hp|exact Hn|].
    exists w'', x, l. split; [exact Hl|]. split; [vm_compute in Hl; injection Hl as <- <-; reflexivity|].
    exists q'. split; [reflexivity|exact Hr].
Defined.

(** A queue with a peer that takes every packet empties itself: when its
    send event is the only one, taking the next event once per packet sends all
    packets in the order of the list, each at or after its tick. *)
Theorem queue_drains {Q} `{EventSchedLaws Q} (s : PqSt Q) :
  pq_inv s -> waitingOnRetry (ps_pq s) = false ->
  (forall r, r <> sendEvent (ps_pq s) -> q_scheduled (ps_q s) r = false) ->
  let l := transmitList (ps_pq s) in
  q_now (ps_q s) + Z.of_nat (length l) < MaxTick - 1 ->
  Forall (fun x => x.1 + Z.of_nat (length l) < MaxTick) l ->
  exists s' sent, send_run (length l) (s, []) = Ok (s', sent) /\ transmitList (ps_pq s') = [] /\
    Forall2 (fun y x => y.2 = x.2 /\ x.1 <= y.1) sent l.
Proof. intros Hi Hw Ho l Hn Ht. exact (send_run_ok l s [] Hi Hw eq_refl Ho Hn Ht). Qed.

Lemma queue_drains_witness :
  exists s' sent, send_run 2 (pq_demo 2, []) = Ok (s', sent) /\ transmitList (ps_pq s') = [] /\
    sent.*2 = [pq_demo_packet 0x200; pq_demo_packet 0x100].
Proof.
  destruct (queue_drains (pq_demo 2)) as (s' & sent & Hr & He & Hf).
  - exact (proj2 pq_demo_inv).
  - reflexivity.
  - intros r Hr. cbn [q_scheduled EventQueue_sched]. unfold em_scheduled.
    assert (eq_heap (ps_q (pq_demo 2)) !! r = None) as ->; [|reflexivity].
    assert (dom (eq_heap (ps_q (pq_demo 2))) = {[1%positive]}) as Hd by (vm_compute; reflexivity).
    apply not_elem_of_dom. rewrite Hd. intros Hin%elem_of_singleton. exact (Hr Hin).
  - vm_compute. reflexivity.
  - assert (transmitList (ps_pq (pq_demo 2)) = [(10, pq_demo_packet 0x200); (20, pq_demo_packet 0x100)]) as ->
      by (vm_compute; reflexivity).
    repeat constructor.
  - exists s', sent. split; [exact Hr|]. split; [exact He|].
    assert (transmitList (ps_pq (pq_demo 2)) = [(10, pq_demo_packet 0x200); (20, pq_demo_packet 0x100)]) as Hl
      by (vm_compute; reflexivity).
    rewrite Hl in Hf. inversion Hf as [|y1 x1 ? ? [Ha _] Hf1]. inversion Hf1 as [|y2 x2 ? ? [Hb _] Hf2]. inversion Hf2.
    cbn. by rewrite Ha, Hb.
Defined.

(** A packet is queued behind every packet due no later and before every
    packet due later, so packets due at the same tick leave in the order in
    which they were queued; with [force_order] it goes to the end. *)
Theorem queued_in_order {Q} `{EventSchedLaws Q} (s : PqSt Q) p when f :
  pq_inv s -> may_queue s p when ->
  exists s' t, schedSendTiming s p when f = Ok s' /\ when <= t /\ (f = false -> t = when) /\
    inserted (transmitList (ps_pq s)) (t, p) (transmitList (ps_pq s')) /\
    (f = true -> transmitList (ps_pq s') = transmitList (ps_pq s) ++ [(t, p)]).
Proof.
  intros Hi Hm. destruct (schedSendTiming_inv _ _ _ f Hi Hm) as (s' & He & _ & _).
  destruct (schedSendTiming_list _ _ _ _ _ (pk_sorted _ (proj1 Hi)) He) as [Hins Hf].
  exists s', (queued_at (transmitList (ps_pq s)) when f). split_and!; try done; [apply queued_at_ge|].
  intros ->. unfold queued_at. by destruct (last _).
Qed.

Lemma queued_in_order_witness :
  exists s' t, schedSendTiming (pq_demo 2) (pq_demo_packet 0x300) 10 false = Ok s' /\ t = 10 /\
    inserted (transmitList (ps_pq (pq_demo 2))) (t, pq_demo_packet 0x300) (transmitList (ps_pq s')).
Proof.
  destruct (queued_in_order (pq_demo 2) (pq_demo_packet 0x300) 10 false (proj2 pq_demo_inv)) as (s' & t & He & _ & Ht & Hins & _).
  - apply pq_demo_may; [vm_compute; reflexivity|vm_compute; lia|lia].
  - exists s', t. split; [exact He|]. split; [apply Ht; reflexivity|exact Hins].
Defined.

(** Functional accesses see the packets of a queue as part of memory: when
    the data of every queued packet are bytes of memory, a functional read that
    the queue satisfies carries bytes of memory and leaves the queue as it was,
    and a functional write leaves queued packets with the data of the memory
    written. *)
Theorem functional_coherent mem (s : PacketQueue) p d :
  Forall (fun x => in_flight mem x.2) (transmitList s) -> pkt_ok p d -> isPrint (cmd p) = false ->
  (isRead (cmd p) = true -> bytesValid p = [] ->
   exists found p' d', pq_checkFunctional s p = Ok (found, p', s) /\ data p' = Some d' /\
     (found = true -> holds (mem (_isSecure p)) (addr p) d')) /\
  (isRead (cmd p) = false -> isWrite (cmd p) = true ->
   exists s', pq_checkFunctional s p = Ok (false, p, s') /\
     Forall (fun x => in_flight (flight_store mem p d) x.2) (transmitList s') /\
     (transmitList s').*1 = (transmitList s).*1).
Proof.
  intros Hl Hp Hpr. unfold pq_checkFunctional. split.
  - intros Hrd Hbv. destruct (functional_loop_read mem (transmitList s) p d Hl Hp) as (found & p' & d' & -> & Hp' & _ & Hf); try done.
    { intros i Hi. by rewrite Hbv in Hi. }
    cbn [rbind]. exists found, p', d'. split; [by destruct s|]. split; [apply Hp'|done].
  - intros Hrd Hwr. destruct (functional_loop_write mem p d (transmitList s) Hl Hp Hrd Hwr Hpr) as (l' & -> & H2 & Hl').
    cbn [rbind]. eexists. split; [done|]. split; [done|]. cbn.
    induction H2 as [|x y l l' [Hxy _] _ IH]; [done|]. cbn. apply Forall_cons in Hl as [_ Hl], Hl' as [_ Hl'].
    rewrite Hxy. f_equal. by apply IH.
Qed.

Lemma functional_coherent_witness :
  let s := mkPacketQueue [(10, pq_demo_packet 0x100)] false false 1 0 in
  let r := mkPacket (Z.lor (Z.lor VALID_ADDR VALID_SIZE) STATIC_DATA) ReadReq Request_0
             (Some [0; 0]) 0x101 false 2 InvalidCmd [] in
  exists found p' d', pq_checkFunctional s r = Ok (found, p', s) /\ found = true /\ data p' = Some d' /\ d' = [2; 3].
Proof.
  intros s r.
  destruct (functional_coherent (fun _ a => a - 0xff) s r [0; 0]) as [Hrd _].
  - constructor; [|constructor]. split; [reflexivity|]. split; [reflexivity|]. split; [unfold region; cbn; lia|].
    intros _. exists [1; 2; 3; 4]. split.
    + split; try reflexivity; [unfold region; cbn; lia|by left].
    + intros i b Hb. cbn. do 4 (destruct i as [|i]; [injection Hb as <-; lia|cbn in Hb]). done.
  - split; try reflexivity; [unfold region; cbn; lia|by left].
  - reflexivity.
  - destruct Hrd as (found & p' & d' & He & Hd & _); [reflexivity|reflexivity|].
    exists found, p', d'. split; [exact He|]. vm_compute in He. injection He as <- <-. split; [reflexivity|].
    split; [exact Hd|]. injection Hd as <-. reflexivity.
Defined.

(** ** A peer that queues a packet and refuses

    The send event is then scheduled while a retry is awaited; if it comes
    first, its assertion fails. *)
Definition refuse (w : PqSt EventQueue) (p : Packet) : result (bool * PqSt EventQueue) :=
  let* s := schedSendTiming w (pq_demo_packet 0x300) (q_now (ps_q w) + 5) false in Ok (false, s).

(** Takes the next event and runs the send event's handler. *)
Definition send_refused (s : PqSt EventQueue) : result (PqSt EventQueue) :=
  let* '(_, q) := q_pop (ps_q s) in
  processSendEvent (fun w => w) (fun _ s => s) refuse (mkPqSt q (ps_pq s)).

Definition refused : PqSt EventQueue :=
  match send_refused (pq_demo 1) with Ok s => s | Err _ => pq_demo0 end.

Theorem refusal_with_new_packet :
  send_refused (pq_demo 1) = Ok refused /\
  waitingOnRetry (ps_pq refused) = true /\ send_scheduled refused = true /\
  send_refused refused = Err Assert_failed.
Proof. split_and!; vm_compute; reflexivity. Qed.
