(* ===== verification/SimpleMem.v ===== *)
(** * The simple memory

    [mem/simple_mem.hh] and [mem/simple_mem.cc]: a memory with a latency and a
    bandwidth.  In timing mode it is busy for a time after each request, keeps
    the responses in a queue and sends them through [dequeueEvent], and waits
    for a retry when the requester refuses one.  The requester's side,
    [sendTimingResp] and [sendRetryReq], may send the next request before it
    returns; it acts on the whole state [W], of which [get] and [put] give the
    memory and the event queue.  The random part of the latency is a parameter. *)
From stdpp Require Import sorting.
From S2P Require Import Prelude Flags IntMath AddrRange EventQueue EventSched Double Packet AbstractMem.

(** ** Definitions *)

Record SimpleMemory := mkSimpleMemory {
  sm_abstract : AbstractMemory;
  sm_latency : Z;
  sm_latency_var : Z;
  sm_bandwidth : double;
  packetQueue : list (Z * Packet);    (** [DeferredPacket]s: tick and packet *)
  isBusy : bool;
  retryReq : bool;
  retryResp : bool;
  releaseEvent : ptr;
  dequeueEvent : ptr;
  sm_drainManager : bool;
  sm_drainDone : nat;
}.

Definition with_abstract (m : SimpleMemory) (a : AbstractMemory) : SimpleMemory :=
  mkSimpleMemory a (sm_latency m) (sm_latency_var m) (sm_bandwidth m) (packetQueue m) (isBusy m) (retryReq m)
    (retryResp m) (releaseEvent m) (dequeueEvent m) (sm_drainManager m) (sm_drainDone m).
Definition with_queue (m : SimpleMemory) (l : list (Z * Packet)) : SimpleMemory :=
  mkSimpleMemory (sm_abstract m) (sm_latency m) (sm_latency_var m) (sm_bandwidth m) l (isBusy m) (retryReq m)
    (retryResp m) (releaseEvent m) (dequeueEvent m) (sm_drainManager m) (sm_drainDone m).
Definition with_busy (m : SimpleMemory) (b : bool) : SimpleMemory :=
  mkSimpleMemory (sm_abstract m) (sm_latency m) (sm_latency_var m) (sm_bandwidth m) (packetQueue m) b (retryReq m)
    (retryResp m) (releaseEvent m) (dequeueEvent m) (sm_drainManager m) (sm_drainDone m).
Definition with_retryReq (m : SimpleMemory) (b : bool) : SimpleMemory :=
  mkSimpleMemory (sm_abstract m) (sm_latency m) (sm_latency_var m) (sm_bandwidth m) (packetQueue m) (isBusy m) b
    (retryResp m) (releaseEvent m) (dequeueEvent m) (sm_drainManager m) (sm_drainDone m).
Definition with_retryResp (m : SimpleMemory) (b : bool) : SimpleMemory :=
  mkSimpleMemory (sm_abstract m) (sm_latency m) (sm_latency_var m) (sm_bandwidth m) (packetQueue m) (isBusy m)
    (retryReq m) b (releaseEvent m) (dequeueEvent m) (sm_drainManager m) (sm_drainDone m).
Definition with_drain (m : SimpleMemory) (b : bool) (n : nat) : SimpleMemory :=
  mkSimpleMemory (sm_abstract m) (sm_latency m) (sm_latency_var m) (sm_bandwidth m) (packetQueue m) (isBusy m)
    (retryReq m) (retryResp m) (releaseEvent m) (dequeueEvent m) b n.

(** [getLatency()]; [rnd] is the number [random_mt] gives, at most [latency_var]. *)
Definition getLatency (m : SimpleMemory) (rnd : Z) : Z :=
  u64 (sm_latency m + (if negb (sm_latency_var m =? 0) then rnd else 0)).

(** [recvAtomic(pkt)]. *)
Definition sm_recvAtomic (m : SimpleMemory) (rnd : Z) (p : Packet) : result (Z * SimpleMemory * Packet) :=
  let* '(a, p) := access (sm_abstract m) p in
  Ok (if memInhibitAsserted p then 0 else getLatency m rnd, with_abstract m a, p).

(** The loop of [recvFunctional] over the queued responses. *)
Fixpoint sm_functional_loop (l : list (Z * Packet)) (p : Packet)
    : result (Packet * list (Z * Packet)) :=
  match l with
  | [] => Ok (p, [])
  | (t, o) :: l =>
      let* '(done, p, o) := checkFunctional_pkt p o in
      if done then Ok (p, (t, o) :: l)
      else let* '(p, l) := sm_functional_loop l p in Ok (p, (t, o) :: l)
  end.

(** [recvFunctional(pkt)]. *)
Definition sm_recvFunctional (m : SimpleMemory) (p : Packet) : result (SimpleMemory * Packet) :=
  let* '(a, p) := functionalAccess (sm_abstract m) p in
  let* '(p, l) := sm_functional_loop (packetQueue m) p in
  Ok (with_queue (with_abstract m a) l, p).

Section SmOps.
Context {Q : Type} `{EventSched Q}.

Record SmSt := mkSmSt { ss_q : Q; ss_m : SimpleMemory }.

(** [recvTimingReq(pkt)]: whether the request is taken. *)
Definition sm_recvTimingReq (s : SmSt) (rnd : Z) (p : Packet) : result (bool * SmSt) :=
  let m := ss_m s in
  if memInhibitAsserted p then Ok (true, s)
  else if retryReq m then Ok (false, s)
  else if isBusy m then Ok (false, mkSmSt (ss_q s) (with_retryReq m true))
  else
    let* '(q, m) :=
      if isRead (cmd p) || isWrite (cmd p) then
        let* n := getSize p in
        let duration := u64 (to_Z (dmul (of_Z n) (sm_bandwidth m))) in
        if negb (duration =? 0) then
          let* q := q_schedule (ss_q s) (releaseEvent m) (u64 (q_now (ss_q s) + duration)) in
          Ok (q, with_busy m true)
        else Ok (ss_q s, m)
      else Ok (ss_q s, m) in
    let nr := needsResponse (cmd p) in
    let* '(_, m, p) := sm_recvAtomic m rnd p in
    if nr then
      let* _ := assert_ (isResponse (cmd p)) in
      let tick := u64 (q_now q + getLatency m rnd) in
      let m := with_queue m (packetQueue m ++ [(tick, p)]) in
      let* q :=
        if negb (retryResp m) && negb (q_scheduled q (dequeueEvent m)) then q_schedule q (dequeueEvent m) tick
        else Ok q in
      Ok (true, mkSmSt q m)
    else Ok (true, mkSmSt q m).

Section Peer.
Context {W : Type} (get : W -> SmSt) (put : W -> SmSt -> W).
Context (sendTimingResp : W -> Packet -> result (bool * W)) (sendRetryReq : W -> result W).

Definition set_m (w : W) (m : SimpleMemory) : W := put w (mkSmSt (ss_q (get w)) m).

(** [release()]. *)
Definition sm_release (w : W) : result W :=
  let m := ss_m (get w) in
  let* _ := assert_ (isBusy m) in
  let w := set_m w (with_busy m false) in
  if retryReq m then sendRetryReq (set_m w (with_retryReq (ss_m (get w)) false)) else Ok w.

(** [dequeue()]. *)
Definition sm_dequeue (w : W) : result W :=
  match packetQueue (ss_m (get w)) with
  | [] => Err Assert_failed
  | x :: _ =>
      let* '(sent, w) := sendTimingResp w x.2 in
      let w := set_m w (with_retryResp (ss_m (get w)) (negb sent)) in
      if sent then
        match packetQueue (ss_m (get w)) with
        | [] => Err Bad_pointer
        | _ :: l =>
            let w := set_m w (with_queue (ss_m (get w)) l) in
            let s := get w in
            match l with
            | y :: _ =>
                let* q := q_reschedule (ss_q s) (dequeueEvent (ss_m s)) (Z.max y.1 (q_now (ss_q s))) true in
                Ok (put w (mkSmSt q (ss_m s)))
            | [] =>
                if sm_drainManager (ss_m s) then Ok (set_m w (with_drain (ss_m s) false (S (sm_drainDone (ss_m s)))))
                else Ok w
            end
        end
      else Ok w
  end.

(** [recvRespRetry()]. *)
Definition sm_recvRespRetry (w : W) : result W :=
  let* _ := assert_ (retryResp (ss_m (get w))) in sm_dequeue w.
End Peer.

(** [drain(dm)]. *)
Definition sm_drain (s : SmSt) : Z * SmSt :=
  match packetQueue (ss_m s) with
  | [] => (0, s)
  | _ => (1, mkSmSt (ss_q s) (with_drain (ss_m s) true (sm_drainDone (ss_m s))))
  end.
End SmOps.
Arguments SmSt : clear implicits.

(** ** The invariant *)

Section SmCorrect.
Context {Q : Type} `{EventSchedLaws Q}.
Implicit Types s : SmSt Q.

Definition release_scheduled s : bool := q_scheduled (ss_q s) (releaseEvent (ss_m s)).
Definition dequeue_scheduled s : bool := q_scheduled (ss_q s) (dequeueEvent (ss_m s)).
Definition dequeue_when s : Z := q_when (ss_q s) (dequeueEvent (ss_m s)).

(** The memory is busy as long as the release event is scheduled, and only a
    busy memory owes a retry. *)
Record sm_ok s : Prop := {
  so_inv : q_inv (ss_q s);
  so_release : q_own (ss_q s) (releaseEvent (ss_m s));
  so_dequeue : q_own (ss_q s) (dequeueEvent (ss_m s));
  so_apart : releaseEvent (ss_m s) <> dequeueEvent (ss_m s);
  so_now : 0 <= q_now (ss_q s);
  so_memory : exists bs sp, represents (sm_abstract (ss_m s)) bs sp;
  so_responses : Forall (fun x => isResponse (cmd x.2) = true) (packetQueue (ss_m s));
  so_busy : isBusy (ss_m s) = release_scheduled s;
  so_retry : retryReq (ss_m s) = true -> isBusy (ss_m s) = true;
}.

(** Between events: a refused response is due and waits without an event;
    otherwise the dequeue event is scheduled exactly as long as there are
    responses, not before the front one is due. *)
Definition sm_inv s : Prop :=
  sm_ok s /\
  if retryResp (ss_m s) then
    dequeue_scheduled s = false /\ exists x l, packetQueue (ss_m s) = x :: l /\ x.1 <= q_now (ss_q s)
  else match packetQueue (ss_m s) with
       | [] => dequeue_scheduled s = false
       | x :: _ => dequeue_scheduled s = true /\ x.1 <= dequeue_when s
       end.

(** While the front response is being sent. *)
Definition sm_sending s (x : Z * Packet) : Prop :=
  sm_ok s /\ exists l, packetQueue (ss_m s) = x :: l /\ (dequeue_scheduled s = true -> l <> []).

Definition duration_of (m : SimpleMemory) (n : Z) : Z := u64 (to_Z (dmul (of_Z n) (sm_bandwidth m))).

(** A request the memory may receive: a packet of a processor for its range,
    early enough for its response. *)
Record sm_request s (rnd : Z) (p : Packet) (d : list Z) : Prop := {
  rq_asks : asks (sm_abstract (ss_m s)) p d;
  rq_busy_time : q_now (ss_q s) + duration_of (ss_m s) (pk_size p) < 2 ^ 64;
  rq_time : q_now (ss_q s) + getLatency (ss_m s) rnd < 2 ^ 64;
}.

(** The response queued for a request. *)
Definition queued_response s (rnd : Z) (p : Packet) (added : list (Z * Packet)) : Prop :=
  if needsResponse (cmd p) then
    exists p', added = [(q_now (ss_q s) + getLatency (ss_m s) rnd, p')] /\
      cmd p' = responseCommand (cmd p) /\ addr p' = addr p /\ isResponse (cmd p') = true
  else added = [].

(** What a request changes outside the memory itself. *)
Record sm_taken s rnd p s' (added : list (Z * Packet)) : Prop := {
  tk_ok : sm_ok s';
  tk_now : q_now (ss_q s') = q_now (ss_q s);
  tk_queue : packetQueue (ss_m s') = packetQueue (ss_m s) ++ added;
  tk_added : queued_response s rnd p added;
  tk_retryResp : retryResp (ss_m s') = retryResp (ss_m s);
  tk_events : releaseEvent (ss_m s') = releaseEvent (ss_m s) /\ dequeueEvent (ss_m s') = dequeueEvent (ss_m s);
  tk_keep : dequeue_scheduled s = true -> dequeue_scheduled s' = true /\ dequeue_when s' = dequeue_when s;
  tk_new : dequeue_scheduled s = false ->
    match added with
    | [] => dequeue_scheduled s' = false
    | x :: _ => if retryResp (ss_m s) then dequeue_scheduled s' = false
                else dequeue_scheduled s' = true /\ dequeue_when s' = x.1
    end;
}.

(** The first part of a request that is taken: the time the memory is busy. *)
Lemma occupy s rnd p d :
  sm_ok s -> sm_request s rnd p d -> isBusy (ss_m s) = false ->
  exists q b,
    (if isRead (cmd p) || isWrite (cmd p) then
       let* n := getSize p in
       let duration := u64 (to_Z (dmul (of_Z n) (sm_bandwidth (ss_m s)))) in
       if negb (duration =? 0) then
         let* q := q_schedule (ss_q s) (releaseEvent (ss_m s)) (u64 (q_now (ss_q s) + duration)) in
         Ok (q, with_busy (ss_m s) true)
       else Ok (ss_q s, ss_m s)
     else Ok (ss_q s, ss_m s)) = Ok (q, with_busy (ss_m s) b) /\
    q_inv q /\ q_now q = q_now (ss_q s) /\ q_scheduled q (releaseEvent (ss_m s)) = b /\
    (forall r, q_own (ss_q s) r -> q_own q r) /\
    q_scheduled q (dequeueEvent (ss_m s)) = dequeue_scheduled s /\ q_when q (dequeueEvent (ss_m s)) = dequeue_when s.
Proof.
  intros [Hi Hr Hd Hap Hn _ _ Hb _] [Ha Hbt _] Hnb. rewrite Hnb in Hb. symmetry in Hb.
  assert (with_busy (ss_m s) false = ss_m s) as Hsame by (destruct (ss_m s); cbn in *; by subst).
  assert (getSize p = Ok (pk_size p)) as ->.
  { unfold getSize. by rewrite (po_size _ _ (as_pkt _ _ _ Ha)). }
  cbn [rbind]. cbv zeta. fold (duration_of (ss_m s) (pk_size p)).
  pose proof (u64_range (to_Z (dmul (of_Z (pk_size p)) (sm_bandwidth (ss_m s))))) as Hdr. fold (duration_of (ss_m s) (pk_size p)) in Hdr.
  destruct (isRead (cmd p) || isWrite (cmd p)); [|by exists (ss_q s), false; rewrite Hsame].
  destruct (Z.eqb_spec (duration_of (ss_m s) (pk_size p)) 0); cbn [negb]; [by exists (ss_q s), false; rewrite Hsame|].
  unfold in_range in Hdr. rewrite (u64_small (q_now (ss_q s) + _)) by (unfold in_range; lia).
  destruct (q_schedule_ok _ _ (q_now (ss_q s) + duration_of (ss_m s) (pk_size p)) Hi Hr Hb) as (q & -> & Hi' & [S1 S2 _ _ S5 S6]); [lia|].
  cbn [rbind]. exists q, true. split; [done|]. destruct (S6 (dequeueEvent (ss_m s))) as [E1 E2]; [congruence|].
  unfold dequeue_scheduled, dequeue_when. by split_and!.
Qed.

Lemma request_taken s rnd p d :
  sm_ok s -> sm_request s rnd p d -> isBusy (ss_m s) = false ->
  exists s' added, sm_recvTimingReq s rnd p = Ok (true, s') /\ sm_taken s rnd p s' added.
Proof.
  intros Hok Hrq Hnb. destruct (occupy _ _ _ _ Hok Hrq Hnb) as (q & b & Hoc & Qi & Qn & Qr & Qo & Qs & Qw).
  pose proof Hok as [_ Hro Hdo Hap Hn (bs & sp & Hrep) Hresp _ Hret]. destruct Hrq as [Ha _ Hlt].
  unfold sm_recvTimingReq. rewrite (as_free _ _ _ Ha).
  assert (retryReq (ss_m s) = false) as Hnr.
  { destruct (retryReq (ss_m s)) eqn:E; [|done]. specialize (Hret eq_refl). congruence. }
  rewrite Hnr, Hnb. cbv zeta in Hoc |- *. rewrite Hoc. cbn [rbind]. unfold sm_recvAtomic.
  destruct (access_spec _ _ _ _ _ Hrep Ha) as (a & bs' & p' & Hacc & Hrep' & Hrng & _ & Hans & _).
  cbn [sm_abstract with_busy]. rewrite Hacc. cbn [rbind]. destruct Hans as (Hc & Had & _).
  pose proof (as_kind _ _ _ Ha) as Hk. rewrite andb_true_iff in Hk. destruct Hk as [_ Hq].
  change (getLatency (with_abstract (with_busy (ss_m s) b) a) rnd) with (getLatency (ss_m s) rnd).
  pose proof (u64_range (sm_latency (ss_m s) + (if negb (sm_latency_var (ss_m s) =? 0) then rnd else 0))) as Hlr.
  fold (getLatency (ss_m s) rnd) in Hlr. unfold in_range in Hlr.
  destruct (needsResponse (cmd p)) eqn:Hnresp; cbn [rbind].
  - assert (isResponse (cmd p') = true) as Hir. { rewrite Hc. by apply response_matches. }
    rewrite Hir, Qn, u64_small by (unfold in_range; lia). cbn [assert_ rbind retryResp with_queue with_abstract with_busy dequeueEvent packetQueue].
    set (t := q_now (ss_q s) + getLatency (ss_m s) rnd).
    assert (exists q2, (if negb (retryResp (ss_m s)) && negb (q_scheduled q (dequeueEvent (ss_m s)))
        then q_schedule q (dequeueEvent (ss_m s)) t else Ok q) = Ok q2 /\ q_inv q2 /\ q_now q2 = q_now q /\
        (forall r, q_own q r -> q_own q2 r) /\ q_scheduled q2 (releaseEvent (ss_m s)) = b /\
        (dequeue_scheduled s = true -> q_scheduled q2 (dequeueEvent (ss_m s)) = true /\ q_when q2 (dequeueEvent (ss_m s)) = dequeue_when s) /\
        (dequeue_scheduled s = false -> if retryResp (ss_m s) then q_scheduled q2 (dequeueEvent (ss_m s)) = false
            else q_scheduled q2 (dequeueEvent (ss_m s)) = true /\ q_when q2 (dequeueEvent (ss_m s)) = t))
      as (q2 & -> & Q2i & Q2n & Q2o & Q2r & Q2k & Q2w).
    { rewrite Qs. destruct (retryResp (ss_m s)) eqn:Err, (dequeue_scheduled s) eqn:Eds; cbn [negb andb]; try (exists q; by split_and!).
      destruct (q_schedule_ok q (dequeueEvent (ss_m s)) t Qi (Qo _ Hdo) Qs) as (q2 & -> & Hi2 & [S1 S2 S3 _ S5 S6]); [lia|].
      exists q2. destruct (S6 (releaseEvent (ss_m s))) as [E1 _]; [done|]. split_and!; try done; [by rewrite E1|]. intros _. split; [done|]. by apply S3. }
    cbn [rbind]. eexists _, [(t, p')]. split; [done|]. split; cbn; try done.
    + split; cbn; try done; [by apply Q2o, Qo|by apply Q2o, Qo|lia|by exists bs', (sp_access sp p d).1.1| |congruence].
      apply Forall_app. split; [done|]. by constructor.
    + congruence.
    + unfold queued_response. rewrite Hnresp. exists p'. by split_and!.
  - eexists _, []. split; [done|]. split; cbn; try done.
    + split; cbn; try done; [by apply Qo|by apply Qo|lia|by exists bs', (sp_access sp p d).1.1|congruence].
    + by rewrite app_nil_r.
    + unfold queued_response. by rewrite Hnresp.
    + intros Hs. unfold dequeue_scheduled, dequeue_when in *. cbn. by rewrite Qs, Qw.
    + intros Hs. unfold dequeue_scheduled in *. cbn. by rewrite Qs.
Qed.

(** A request to a busy memory is refused, and a retry is owed. *)
Lemma request_refused s rnd p d :
  sm_ok s -> sm_request s rnd p d -> isBusy (ss_m s) = true ->
  sm_recvTimingReq s rnd p = Ok (false, mkSmSt (ss_q s) (with_retryReq (ss_m s) true)).
Proof.
  intros Hok [Ha _ _] Hb. unfold sm_recvTimingReq. rewrite (as_free _ _ _ Ha), Hb.
  destruct s as [q m]. cbn. destruct (retryReq m) eqn:E; [|done]. destruct m; cbn in *. by subst.
Qed.

Lemma sm_ok_retry s : sm_ok s -> isBusy (ss_m s) = true -> sm_ok (mkSmSt (ss_q s) (with_retryReq (ss_m s) true)).
Proof. intros [] Hb. by split. Qed.

Lemma request_inv s rnd p d :
  sm_inv s -> sm_request s rnd p d ->
  exists b s', sm_recvTimingReq s rnd p = Ok (b, s') /\ sm_inv s' /\
    (if b then exists added, sm_taken s rnd p s' added
     else retryReq (ss_m s') = true /\ packetQueue (ss_m s') = packetQueue (ss_m s)).
Proof.
  intros [Hok Hinv] Hrq. destruct (isBusy (ss_m s)) eqn:Hb.
  { exists false, (mkSmSt (ss_q s) (with_retryReq (ss_m s) true)). rewrite (request_refused s rnd p d) by done.
    split; [done|]. split; [|done]. split; [by apply sm_ok_retry|]. exact Hinv. }
  destruct (request_taken s rnd p d Hok Hrq Hb) as (s' & added & He & Ht). exists true, s'. split; [done|].
  split; [|by exists added]. destruct Ht as [Tok Tn Tq Ta Tr Te Tk Tw]. split; [done|]. rewrite Tr, Tq, Tn.
  destruct (retryResp (ss_m s)).
  - destruct Hinv as [Hns (x & l & Hl & Hx)]. specialize (Tw Hns). split; [by destruct added|].
    exists x, (l ++ added). by rewrite Hl.
  - destruct (packetQueue (ss_m s)) as [|x l]; cbn [app].
    + specialize (Tw Hinv). destruct added as [|y added]; [done|]. destruct Tw as [-> ->]. split; [done|lia].
    + destruct Hinv as [Hs Hx]. destruct (Tk Hs) as [-> ->]. done.
Qed.

(** A series of requests the requester sends while it receives a response. *)
Inductive requests : SmSt Q -> list Packet -> SmSt Q -> Prop :=
  | requests_nil s : requests s [] s
  | requests_cons s rnd p d b s1 ps s' :
      sm_request s rnd p d -> sm_recvTimingReq s rnd p = Ok (b, s1) -> requests s1 ps s' ->
      requests s (p :: ps) s'.

Lemma requests_nil_inv s s' : requests s [] s' -> s' = s.
Proof. by inversion 1. Qed.

Lemma requests_sending s ps s' x :
  sm_sending s x -> requests s ps s' ->
  sm_sending s' x /\ q_now (ss_q s') = q_now (ss_q s) /\ retryResp (ss_m s') = retryResp (ss_m s) /\
  packetQueue (ss_m s) `prefix_of` packetQueue (ss_m s').
Proof.
  intros Hs Hr. induction Hr as [|s rnd p d b s1 ps s' Hrq He _ IH]; [done|].
  assert (sm_sending s1 x /\ q_now (ss_q s1) = q_now (ss_q s) /\ retryResp (ss_m s1) = retryResp (ss_m s) /\
    packetQueue (ss_m s) `prefix_of` packetQueue (ss_m s1)) as (Hs1 & Hn & Hrr & Hpre).
  { destruct Hs as [Hok (l & Hl & Hsch)]. destruct (isBusy (ss_m s)) eqn:Hb.
    - rewrite (request_refused s rnd p d) in He by done. injection He as <- <-.
      split; [split; [by apply sm_ok_retry|by exists l]|done].
    - destruct (request_taken s rnd p d Hok Hrq Hb) as (s2 & added & He2 & [Tok Tn Tq Ta Tr Te Tk Tw]).
      rewrite He in He2. injection He2 as -> <-. split_and!; [|done|done|rewrite Tq; by apply prefix_app_r].
      split; [done|]. exists (l ++ added). rewrite Tq, Hl. split; [done|]. intros Hs1 Hnil.
      apply app_eq_nil in Hnil as [-> ->]. destruct (dequeue_scheduled s) eqn:E; [by apply Hsch|].
      specialize (Tw eq_refl). congruence. }
  destruct (IH Hs1) as (? & Hn' & Hrr' & Hpre'). split_and!; [done|congruence|congruence|]. by etrans.
Qed.

Lemma requests_inv s ps s' : sm_inv s -> requests s ps s' -> sm_inv s'.
Proof.
  intros Hi Hr. induction Hr as [|s rnd p d b s1 ps s' Hrq He _ IH]; [done|].
  destruct (request_inv _ _ _ _ Hi Hrq) as (b' & s2 & He2 & Hi2 & _). rewrite He in He2. injection He2 as -> <-. by apply IH.
Qed.

Section Peers.
Context {W : Type} (get : W -> SmSt Q) (put : W -> SmSt Q -> W).
Context (sendTimingResp : W -> Packet -> result (bool * W)) (sendRetryReq : W -> result W).
Context (get_put : forall w s, get (put w s) = s).

(** The contract of the requester: it answers, changes the memory only by
    requests, and sends none when it refuses a response. *)
Record requester_ok : Prop := {
  rq_resp w x : sm_sending (get w) x ->
    exists sent w' ps, sendTimingResp w x.2 = Ok (sent, w') /\ requests (get w) ps (get w') /\
      (sent = false -> ps = []);
  rq_retry w : sm_inv (get w) ->
    exists w' ps, sendRetryReq w = Ok w' /\ requests (get w) ps (get w');
}.
Context (Hpeer : requester_ok).

Lemma sm_ok_flags s b l :
  sm_ok s -> Forall (fun x => isResponse (cmd x.2) = true) l ->
  sm_ok (mkSmSt (ss_q s) (with_queue (with_retryResp (ss_m s) b) l)).
Proof. intros [] ?. by split. Qed.

(** After the front response has gone: the event for the next one. *)
Lemma dequeue_next s x l :
  sm_ok s -> packetQueue (ss_m s) = x :: l -> (dequeue_scheduled s = true -> l <> []) ->
  retryResp (ss_m s) = false ->
  match l with
  | y :: _ => exists q, q_reschedule (ss_q s) (dequeueEvent (ss_m s)) (Z.max y.1 (q_now (ss_q s))) true = Ok q /\
      sm_inv (mkSmSt q (with_queue (ss_m s) l)) /\ q_now q = q_now (ss_q s)
  | [] => sm_inv (mkSmSt (ss_q s) (with_queue (ss_m s) l))
  end.
Proof.
  intros Hok Hl Hsch Hrr. pose proof (so_responses _ Hok) as Hresp. rewrite Hl in Hresp. apply Forall_cons in Hresp as [_ Hresp].
  destruct l as [|y l].
  - split; [destruct Hok; by split|]. cbn. rewrite Hrr. destruct (dequeue_scheduled s) eqn:E; [by destruct (Hsch eq_refl)|done].
  - destruct (q_reschedule_ok (ss_q s) (dequeueEvent (ss_m s)) (Z.max y.1 (q_now (ss_q s))) true (so_inv _ Hok) (so_dequeue _ Hok)) as (q & Hq & Hi & [S1 S2 S3 _ S5 S6]); [done|lia|].
    exists q. split; [done|]. split; [|done]. destruct Hok as [Ki Kr Kd Ka Kn Km Kre Kb Kt].
    destruct (S6 (releaseEvent (ss_m s))) as [E1 _]; [done|]. split.
    + split; cbn; try done; [by apply S5|by apply S5|lia|]. unfold release_scheduled in *. cbn. by rewrite E1.
    + cbn. rewrite Hrr. unfold dequeue_scheduled, dequeue_when. cbn. rewrite S2, (S3 _ eq_refl). split; [done|lia].
Qed.

Lemma sm_dequeue_ok w x l :
  sm_ok (get w) -> packetQueue (ss_m (get w)) = x :: l -> dequeue_scheduled (get w) = false ->
  x.1 <= q_now (ss_q (get w)) ->
  exists w', sm_dequeue get put sendTimingResp w = Ok w' /\ sm_inv (get w') /\
    if retryResp (ss_m (get w')) then packetQueue (ss_m (get w')) = x :: l
    else l `prefix_of` packetQueue (ss_m (get w')).
Proof.
  intros Hok Hl Hns Hx. unfold sm_dequeue, set_m. rewrite Hl.
  destruct (rq_resp Hpeer w x) as (sent & w1 & ps & -> & Hreq & Href).
  { split; [done|]. exists l. split; [done|]. congruence. }
  cbn [rbind]. destruct (requests_sending (get w) ps (get w1) x) as ((Hok1 & l1 & Hl1 & Hsch1) & Hn1 & Hrr1 & Hpre); [|done|].
  { split; [done|]. exists l. split; [done|]. congruence. }
  rewrite Hl, Hl1 in Hpre. apply prefix_cons_inv_2 in Hpre. rewrite !get_put. destruct sent; cbn [negb].
  - cbn [ss_m packetQueue with_retryResp]. rewrite Hl1. rewrite !get_put. cbn [ss_q ss_m].
    set (s1 := mkSmSt (ss_q (get w1)) (with_retryResp (ss_m (get w1)) false)).
    pose proof (dequeue_next s1 x l1) as Hd. destruct l1 as [|y l1].
    + assert (sm_inv (mkSmSt (ss_q s1) (with_queue (ss_m s1) []))) as Hinv.
      { apply Hd; try done. destruct Hok1; by split. }
      destruct (sm_drainManager _); eexists; (split; [done|]); rewrite ?get_put; [|done].
      split; [|done]. destruct Hinv as [[] Hinv]. split; [by split|exact Hinv].
    + destruct Hd as (q & Hq & Hinv & _); try done; [destruct Hok1; by split|].
      subst s1. cbn [ss_q ss_m] in Hq. cbn in Hq |- *. rewrite Hq. cbn [rbind]. eexists. split; [done|]. rewrite get_put. done.
  - rewrite (Href eq_refl) in Hreq. apply requests_nil_inv in Hreq. rewrite Hreq. eexists. split; [done|]. rewrite get_put. cbn.
    split; [|done]. split; [destruct Hok; by split|]. cbn. split; [done|]. by exists x, l.
Qed.

(** Other events pass. *)
Record sm_passes (m : SimpleMemory) (q q' : Q) : Prop := {
  mp_inv : q_inv q';
  mp_own : q_own q' (releaseEvent m) /\ q_own q' (dequeueEvent m);
  mp_time : q_now q <= q_now q';
  mp_release : q_scheduled q' (releaseEvent m) = q_scheduled q (releaseEvent m);
  mp_dequeue : q_scheduled q' (dequeueEvent m) = q_scheduled q (dequeueEvent m) /\
               q_when q' (dequeueEvent m) = q_when q (dequeueEvent m);
}.

Definition with_q (w : W) (q : Q) : W := put w (mkSmSt q (ss_m (get w))).

Inductive sm_step : W -> W -> Prop :=
  | sm_step_request w rnd p d b s :
      sm_request (get w) rnd p d -> sm_recvTimingReq (get w) rnd p = Ok (b, s) -> sm_step w (put w s)
  | sm_step_release w q w' :
      release_scheduled (get w) = true -> q_pop (ss_q (get w)) = Ok (releaseEvent (ss_m (get w)), q) ->
      sm_release get put sendRetryReq (with_q w q) = Ok w' -> sm_step w w'
  | sm_step_dequeue w q w' :
      dequeue_scheduled (get w) = true -> q_pop (ss_q (get w)) = Ok (dequeueEvent (ss_m (get w)), q) ->
      sm_dequeue get put sendTimingResp (with_q w q) = Ok w' -> sm_step w w'
  | sm_step_retry w w' :
      retryResp (ss_m (get w)) = true -> sm_recvRespRetry get put sendTimingResp w = Ok w' -> sm_step w w'
  | sm_step_pass w q :
      sm_passes (ss_m (get w)) (ss_q (get w)) q -> sm_step w (with_q w q).

Lemma sm_release_ok w q :
  sm_inv (get w) -> release_scheduled (get w) = true ->
  q_pop (ss_q (get w)) = Ok (releaseEvent (ss_m (get w)), q) ->
  exists w', sm_release get put sendRetryReq (with_q w q) = Ok w' /\ sm_inv (get w').
Proof.
  intros [Hok Hinv] Hs Hp.
  destruct (q_pop_ok _ _ (so_inv _ Hok) (so_release _ Hok) Hs) as (p & q1 & Hp' & Hi & [Tw Tn Tl Tt To Tr]).
  rewrite Hp in Hp'. injection Hp' as <- <-. pose proof (so_busy _ Hok) as Hb. rewrite Hs in Hb.
  destruct (Tr (dequeueEvent (ss_m (get w)))) as [E1 E2]; [by apply not_eq_sym, (so_apart _ Hok)|].
  assert (forall b, sm_inv (mkSmSt q (with_retryReq (with_busy (ss_m (get w)) false) false)) /\
     (retryReq (ss_m (get w)) = false -> b = false -> sm_inv (mkSmSt q (with_busy (ss_m (get w)) false)))) as Hmk.
  { intros b. destruct Hok as [Ki Kr Kd Ka Kn Km Kre Kb Kt]. unfold sm_inv, dequeue_scheduled, dequeue_when in *. cbn. rewrite E1, E2.
    assert (q_now (ss_q (get w)) <= q_now q) by lia.
    assert (if retryResp (ss_m (get w)) then q_scheduled (ss_q (get w)) (dequeueEvent (ss_m (get w))) = false /\
        exists x l, packetQueue (ss_m (get w)) = x :: l /\ x.1 <= q_now q else
        match packetQueue (ss_m (get w)) with [] => q_scheduled (ss_q (get w)) (dequeueEvent (ss_m (get w))) = false
        | x :: _ => q_scheduled (ss_q (get w)) (dequeueEvent (ss_m (get w))) = true /\ x.1 <= q_when (ss_q (get w)) (dequeueEvent (ss_m (get w))) end) as Hq.
    { destruct (retryResp _); [|done]. destruct Hinv as [? (x & l & ? & ?)]. split; [done|]. exists x, l. split; [done|lia]. }
    split; [|intros Hnr _]; (split; [|exact Hq]); split; cbn; try done; try (by apply To); try lia.
    intros E. congruence. }
  unfold sm_release, with_q, set_m. rewrite !get_put. cbn [ss_m]. rewrite Hb. cbn [assert_ rbind].
  destruct (retryReq (ss_m (get w))) eqn:Hrr.
  - destruct (rq_retry Hpeer (put (put (put w (mkSmSt q (ss_m (get w)))) (mkSmSt q (with_busy (ss_m (get w)) false)))
       (mkSmSt q (with_retryReq (with_busy (ss_m (get w)) false) false)))) as (w' & ps & Hr & Hreq).
    { rewrite get_put. apply (Hmk true). }
    exists w'. split; [exact Hr|]. eapply requests_inv; [|exact Hreq]. rewrite get_put. apply (Hmk true).
  - eexists. split; [done|]. rewrite get_put. by apply (Hmk false).
Qed.

Lemma sm_dequeue_event_ok w q :
  sm_inv (get w) -> dequeue_scheduled (get w) = true ->
  q_pop (ss_q (get w)) = Ok (dequeueEvent (ss_m (get w)), q) ->
  exists w' x l, packetQueue (ss_m (get w)) = x :: l /\ x.1 <= q_now q /\
    sm_dequeue get put sendTimingResp (with_q w q) = Ok w' /\ sm_inv (get w') /\
    if retryResp (ss_m (get w')) then packetQueue (ss_m (get w')) = x :: l
    else l `prefix_of` packetQueue (ss_m (get w')).
Proof.
  intros [Hok Hinv] Hs Hp.
  destruct (q_pop_ok _ _ (so_inv _ Hok) (so_dequeue _ Hok) Hs) as (p & q1 & Hp' & Hi & [Tw Tn Tl Tt To Tr]).
  rewrite Hp in Hp'. injection Hp' as <- <-.
  destruct (retryResp (ss_m (get w))); [by destruct Hinv; congruence|].
  destruct (packetQueue (ss_m (get w))) as [|x l] eqn:Hl; [congruence|]. destruct Hinv as [_ Hx]. unfold dequeue_when in Hx.
  destruct (Tr (releaseEvent (ss_m (get w)))) as [E1 _]; [by apply (so_apart _ Hok)|].
  destruct (sm_dequeue_ok (with_q w q) x l) as (w' & He & Hinv' & Hq); unfold with_q in *; rewrite ?get_put; cbn; try done; [|lia|].
  { destruct Hok as [Ki Kr Kd Ka Kn Km Kre Kb Kt]. split; cbn; try done; [by apply To|by apply To|lia|].
    unfold release_scheduled in *. cbn. by rewrite E1. }
  exists w', x, l. split_and!; try done. lia.
Qed.

Lemma sm_retry_ok w :
  sm_inv (get w) -> retryResp (ss_m (get w)) = true ->
  exists w', sm_recvRespRetry get put sendTimingResp w = Ok w' /\ sm_inv (get w').
Proof.
  intros [Hok Hinv] Hr. rewrite Hr in Hinv. destruct Hinv as [Hns (x & l & Hl & Hx)]. unfold sm_recvRespRetry. rewrite Hr. cbn [assert_ rbind].
  destruct (sm_dequeue_ok w x l Hok Hl Hns Hx) as (w' & -> & Hi & _). by exists w'.
Qed.

Lemma sm_step_inv w w' : sm_inv (get w) -> sm_step w w' -> sm_inv (get w').
Proof.
  intros Hinv Hst. destruct Hst as [w rnd p d b s Hrq He|w q w' Hs Hp He|w q w' Hs Hp He|w w' Hr He|w q Hps].
  - rewrite get_put. destruct (request_inv _ _ _ _ Hinv Hrq) as (b' & s' & He' & Hi & _). rewrite He in He'. by injection He' as -> ->.
  - destruct (sm_release_ok w q Hinv Hs Hp) as (w1 & He' & Hi). rewrite He in He'. by injection He' as ->.
  - destruct (sm_dequeue_event_ok w q Hinv Hs Hp) as (w1 & x & l & _ & _ & He' & Hi & _). rewrite He in He'. by injection He' as ->.
  - destruct (sm_retry_ok w Hinv Hr) as (w1 & He' & Hi). rewrite He in He'. by injection He' as ->.
  - unfold with_q. rewrite get_put. destruct Hinv as [[Ki Kr Kd Ka Kn Km Kre Kb Kt] Hinv], Hps as [Pi [Po1 Po2] Pt Pr [Pd Pw]].
    unfold sm_inv, release_scheduled, dequeue_scheduled, dequeue_when in *. cbn. rewrite Pd, Pw. split.
    + split; cbn; try done; [lia|]. unfold release_scheduled. cbn. by rewrite Pr.
    + destruct (retryResp _); [|done]. destruct Hinv as [? (x & l & ? & ?)]. split; [done|]. exists x, l. split; [done|lia].
Qed.
End Peers.
End SmCorrect.

(** ** Properties *)

(** C35: The simple memory in timing mode never fails and never forgets a
    response or a retry: with a requester that answers and sends no request when
    it refuses a response, every state reached by requests, release and dequeue
    events, response retries and the passing of other events keeps the
    invariant; in each, a request is taken (its response queued at the end) or
    refused with a retry owed, a retry owed has its release event scheduled and
    that event succeeds, and the dequeue event, scheduled while responses wait,
    sends the front one no earlier than it is due. *)
Theorem simple_memory_safe {Q W} `{EventSchedLaws Q} (get : W -> SmSt Q) put sendTimingResp sendRetryReq w w' :
  (forall w s, get (put w s) = s) -> requester_ok get sendTimingResp sendRetryReq ->
  sm_inv (get w) -> rtc (sm_step get put sendTimingResp sendRetryReq) w w' ->
  sm_inv (get w') /\
  (forall rnd p d, sm_request (get w') rnd p d ->
     exists b s, sm_recvTimingReq (get w') rnd p = Ok (b, s) /\
       if b then exists added, packetQueue (ss_m s) = packetQueue (ss_m (get w')) ++ added /\
                   queued_response (get w') rnd p added
       else retryReq (ss_m s) = true) /\
  (retryReq (ss_m (get w')) = true -> release_scheduled (get w') = true) /\
  (forall q, release_scheduled (get w') = true -> q_pop (ss_q (get w')) = Ok (releaseEvent (ss_m (get w')), q) ->
     exists w'', sm_release get put sendRetryReq (with_q get put w' q) = Ok w'') /\
  (retryResp (ss_m (get w')) = false -> packetQueue (ss_m (get w')) <> [] -> dequeue_scheduled (get w') = true) /\
  (forall q, dequeue_scheduled (get w') = true -> q_pop (ss_q (get w')) = Ok (dequeueEvent (ss_m (get w')), q) ->
     exists w'' x l, packetQueue (ss_m (get w')) = x :: l /\ x.1 <= q_now q /\
       sm_dequeue get put sendTimingResp (with_q get put w' q) = Ok w'' /\
       if retryResp (ss_m (get w'')) then packetQueue (ss_m (get w'')) = x :: l
       else l `prefix_of` packetQueue (ss_m (get w''))) /\
  (retryResp (ss_m (get w')) = true -> exists w'', sm_recvRespRetry get put sendTimingResp w' = Ok w'').
Proof.
  intros Hgp Hpeer Hinv Hr. assert (sm_inv (get w')) as Hinv'.
  { induction Hr as [|w1 w2 w3 Hs _ IH]; [done|]. apply IH. by eapply sm_step_inv. }
  split; [done|]. split_and!.
  - intros rnd p d Hrq. destruct (request_inv _ _ _ _ Hinv' Hrq) as (b & s & He & _ & Hb). exists b, s. split; [done|].
    destruct b; [|apply Hb]. destruct Hb as (added & [_ _ Hq Ha _ _ _ _]). by exists added.
  - intros Hrt. rewrite <- (so_busy _ (proj1 Hinv')). by apply (so_retry _ (proj1 Hinv')).
  - intros q Hs Hp. destruct (sm_release_ok get put sendTimingResp sendRetryReq Hgp Hpeer w' q Hinv' Hs Hp) as (w'' & ? & _). by exists w''.
  - intros Hrr Hne. destruct Hinv' as [_ Hi]. rewrite Hrr in Hi. by destruct (packetQueue _); [|apply Hi].
  - intros q Hs Hp. destruct (sm_dequeue_event_ok get put sendTimingResp sendRetryReq Hgp Hpeer w' q Hinv' Hs Hp) as (w'' & x & l & ? & ? & ? & _ & ?).
    by exists w'', x, l.
  - intros Hrt. destruct (sm_retry_ok get put sendTimingResp sendRetryReq Hgp Hpeer w' Hinv' Hrt) as (w'' & ? & _). by exists w''.
Qed.

Definition sm_demo_queue : EventQueue :=
  mkEventQueue {[ 1%positive := mkEvent None None 0 0 Initialized None;
                  2%positive := mkEvent None None 0 0 Initialized None ]} None 0 [] 0 false 0.
(** Latency 30, two ticks per byte. *)
Definition sm_demo : SmSt EventQueue :=
  mkSmSt sm_demo_queue (mkSimpleMemory demo_memory 30 0 (of_Z 2) [] false false false 1 2 false 0).

Lemma sm_demo_inv : sm_inv sm_demo.
Proof.
  split; [|done]. split; try done.
  - split; [done|]. split; [done|]. exists []. apply EventQueueCorrect.wf_empty; [done|done|].
    apply (bool_decide_unpack _). vm_compute. exact I.
  - eexists. split; [reflexivity|]. split; done.
  - eexists. split; [reflexivity|]. split; done.
  - exists (replicate 64 0), demo_spec. exact demo_represents.
Qed.

Definition sm_log_put (w : SmSt EventQueue * list Packet) (s : SmSt EventQueue) := (s, w.2).
Definition sm_accept (w : SmSt EventQueue * list Packet) (p : Packet) : result (bool * (SmSt EventQueue * list Packet)) :=
  Ok (true, (w.1, w.2 ++ [p])).
Definition sm_no_retry (w : SmSt EventQueue * list Packet) : result (SmSt EventQueue * list Packet) := Ok w.

Lemma sm_accept_ok : requester_ok fst sm_accept sm_no_retry.
Proof.
  split.
  - intros w x _. eexists true, _, []. split; [done|]. split; [constructor|done].
  - intros w _. exists w, []. split; [done|]. constructor.
Qed.

(** A write of four bytes is taken; its response is queued for tick 30. *)
Lemma simple_memory_safe_witness :
  exists s x, sm_recvTimingReq sm_demo 0 (demo_packet WriteReq 0x1004 0 [1; 2; 3; 4]) = Ok (true, s) /\
    packetQueue (ss_m s) = [x] /\ x.1 = 30 /\ cmd x.2 = WriteResp /\ isBusy (ss_m s) = true.
Proof.
  destruct (simple_memory_safe fst sm_log_put sm_accept sm_no_retry (sm_demo, []) (sm_demo, [])) as (_ & Hreq & _).
  - reflexivity.
  - exact sm_accept_ok.
  - exact sm_demo_inv.
  - apply rtc_refl.
  - destruct (Hreq 0 (demo_packet WriteReq 0x1004 0 [1; 2; 3; 4]) [1; 2; 3; 4]) as (b & s & He & Hb).
    { split; [apply demo_asks; cbn; (lia || done)|vm_compute; reflexivity|vm_compute; reflexivity]. }
    assert (b = true) as -> by (vm_compute in He; injection He as <- <-; reflexivity).
    destruct Hb as (added & Hq & Ha). vm_compute in Ha. destruct Ha as (p' & -> & Hc & _).
    exists s, (30, p'). split; [exact He|]. split; [exact Hq|]. split; [reflexivity|]. split; [exact Hc|].
    vm_compute in He. injection He as <-. reflexivity.
Defined.

(** ** Stale bytes in functional reads

    [recvFunctional] copies the bytes of memory into a functional read and then
    lets the queued responses overwrite them.  A response to a read that is
    still queued when a later write is taken holds the old bytes: the functional
    read returns those instead of the bytes written. *)
Definition sm_fast : SmSt EventQueue :=
  mkSmSt sm_demo_queue (mkSimpleMemory demo_memory 30 0 dzero [] false false false 1 2 false 0).

Definition stale_read : result (option (list Z) * option (list Z)) :=
  let* '(_, s) := sm_recvTimingReq sm_fast 0 (demo_packet ReadReq 0x1004 0 [0; 0; 0; 0]) in
  let* '(_, s) := sm_recvTimingReq s 0 (demo_packet WriteReq 0x1004 0 [1; 2; 3; 4]) in
  let* '(m, p) := sm_recvFunctional (ss_m s) (demo_packet ReadReq 0x1004 0 [7; 7; 7; 7]) in
  Ok ((fun bs => take 4 (drop 4 bs)) <$> pmemAddr (sm_abstract m), data p).

Theorem functional_read_stale : stale_read = Ok (Some [1; 2; 3; 4], Some [0; 0; 0; 0]).
Proof. vm_compute. reflexivity. Qed.
