(* ===== verification/AtomicMem.v ===== *)
(** * Data accesses of the atomic processor

    [AtomicSimpleCPU::readMem] and [writeMem] of [cpu/simple/atomic.cc]: an
    access is split where it crosses a cache line, each part is translated (by
    [TLB::translateSe] of [arch/arm/tlb.cc], through the page table of the
    process) and sent to memory as a packet; with the processor's side of
    load-locked and store-conditional ([arch/arm/locked_mem.hh]).  The memory
    behind the port is an instance of [MemPort]; a simple memory is one.  The
    memory-mapped registers ([handleIprRead], [handleIprWrite]) are a parameter. *)
From S2P Require Import Prelude Flags IntMath AddrRange Double PageTable ProcessMem Packet AbstractMem SimpleMem.

(** ** The memory behind the port *)

(** [payload_of m lat] is the [payloadDelay] that the response to a cacheable
    request carries when it has taken [lat]. *)
Class MemPort (M : Type) := {
  sendAtomic : M -> Packet -> result (Z * M * Packet);
  payload_of : M -> Z -> Z;
  isMemAddr : M -> Z -> result (bool * M);
  phys_access : M -> Packet -> result (M * Packet);
}.

(** Where a memory is; the size of its lines, as a logarithm, which a packet
    does not cross; how many masters it knows; and the request flags that are not
    for ordinary accesses to it. *)
Record Extent := mkExtent { ex_lo : Z; ex_hi : Z; ex_line : Z; ex_masters : Z; ex_forbidden : Z }.

Definition accepts (e : Extent) (r : Request) : Prop :=
  ex_lo e <= _paddr r /\ _paddr r + _size r <= ex_hi e /\
  _paddr r mod 2 ^ ex_line e + _size r <= 2 ^ ex_line e /\
  0 <= _masterId r < ex_masters e /\ Z.land (_flags r) (ex_forbidden e) = 0.

(** What a packet has become when it has been served as the abstract memory
    describes. *)
Definition served (s : MemSpec) (p : Packet) (d : list Z) (p' : Packet) : Prop :=
  data p' = Some (sp_access s p d).1.2 /\ isError (cmd p') = false /\
  flag_isSet (flags p') (Z.lor STATIC_DATA DYNAMIC_DATA) = flag_isSet (flags p) (Z.lor STATIC_DATA DYNAMIC_DATA) /\
  match (sp_access s p d).2 with
  | Some b => getExtraData (req p') = Ok (if b then 1 else 0)
  | None => req p' = req p
  end.

(** What a processor relies on: packets for the memory are served as the
    abstract memory describes, through the port and, where [mp_fast] says so,
    by the fast path too. *)
Class MemPortLaws (M : Type) `{MemPort M} := {
  mp_spec : M -> MemSpec -> Prop;
  mp_asks : M -> Packet -> list Z -> Prop;
  mp_extent : M -> Extent;
  mp_fast : Prop;
  mp_bounds m s : mp_spec m s -> 0 <= ex_lo (mp_extent m) /\ ex_hi (mp_extent m) <= 2 ^ 64;
  mp_cpu m r c d :
    hasPaddr r = true -> hasSize r = true -> contextId r = Ok (_contextId r) -> isInstFetch r = false ->
    _size r = Z.of_nat (length d) -> region (_paddr r) (_size r) -> accepts (mp_extent m) r ->
    c = ReadReq \/ c = WriteReq ->
    mp_asks m (cpu_packet r c d) d;
  mp_send m s p d : mp_spec m s -> mp_asks m p d ->
    exists lat m' p', sendAtomic m p = Ok (lat, m', p') /\ mp_spec m' (sp_access s p d).1.1 /\
      served s p d p' /\ mp_extent m' = mp_extent m;
  mp_query m s p d : mp_fast -> mp_spec m s -> mp_asks m p d ->
    exists b m', isMemAddr m (addr p) = Ok (b, m') /\ mp_spec m' s /\ mp_asks m' p d /\ mp_extent m' = mp_extent m;
  mp_phys m s p d : mp_fast -> mp_spec m s -> mp_asks m p d ->
    exists m' p', phys_access m p = Ok (m', p') /\ mp_spec m' (sp_access s p d).1.1 /\
      served s p d p' /\ mp_extent m' = mp_extent m;
}.

(** A packet a memory has answered has been served. *)
Lemma answered_served s p d p' :
  isRequest (cmd p) = true -> answered p p' -> data p' = Some (sp_access s p d).1.2 ->
  match (sp_access s p d).2 with
  | Some b => getExtraData (req p') = Ok (if b then 1 else 0)
  | None => req p' = req p
  end -> served s p d p'.
Proof.
  intros Hq (Hc & _ & _ & _ & _ & Hf) Hd Hx. split; [done|]. split; [|split; [by apply Hf|done]].
  rewrite Hc. by destruct (cmd p).
Qed.

(** ** Definitions: translation *)

(** [Mode] and [Fault]; a fault carries the address as it was given. *)
Inductive tlb_mode := Read | Write | Execute.

Inductive Fault :=
  | NoFault
  | AlignmentFault (vaddr : Z) (is_write : bool)
  | GenericPageTableFault (vaddr : Z).

#[export] Instance Fault_eq_dec : EqDecision Fault.
Proof. solve_decision. Defined.

(** [TLB::ArmFlags]. *)
Definition AlignmentMask : Z := 0x7.
Definition AllowUnaligned : Z := 0x8.
Definition MustBeOne : Z := 0x40.

Inductive ExceptionLevel := EL0 | EL1 | EL2 | EL3.

(** The registers [updateMiscReg] has copied. *)
Record TLB := mkTLB {
  aarch64 : bool;
  aarch64EL : ExceptionLevel;
  tcr_tbi : bool;
  tcr_tbi0 : bool;
  tcr_tbi1 : bool;
  tlb_haveSecurity : bool;
  sctlr_a : bool;
}.

(** [mask(first, last)] of [base/bitfield.hh]. *)
Definition mask2 (first last : Z) : Z := mbits (u64 (-1)) first last.

(** [purifyTaggedAddr(addr, tc, el, tcr)] of [arch/arm/utility.cc]. *)
Definition purifyTaggedAddr (t : TLB) (addr : Z) : result Z :=
  match aarch64EL t with
  | EL0 | EL1 =>
      if (bits addr 55 48 =? 0xff) && tcr_tbi1 t then Ok (Z.lor addr (mask2 63 55))
      else if (bits addr 55 48 =? 0) && tcr_tbi0 t then Ok (bits addr 55 0)
      else Ok addr
  | EL3 =>
      let* _ := assert_ (tlb_haveSecurity t) in
      if tcr_tbi t then Ok (Z.land addr (mask 56)) else Ok addr
  | EL2 => Err Panic
  end.

(** [translateSe(req, tc, mode, ...)]. *)
Definition translateSe (t : TLB) (pt : PageTable) (r : Request) (mode : tlb_mode)
    : result (Fault * Request * PageTable) :=
  let* vaddr_tainted := getVaddr r in
  let* vaddr := if aarch64 t then purifyTaggedAddr t vaddr_tainted else Ok vaddr_tainted in
  let* _ := assert_ (flag_isSet (privateFlags r) (Z.lor RQ_VALID_PADDR RQ_VALID_VADDR)) in
  let fl := _flags r in
  let is_fetch := match mode with Execute => true | _ => false end in
  let is_write := match mode with Write => true | _ => false end in
  let* misaligned :=
    if negb is_fetch then
      let* _ := assert_ (negb (Z.land fl MustBeOne =? 0)) in
      Ok ((sctlr_a t || (Z.land fl AllowUnaligned =? 0)) &&
          negb (Z.land vaddr (mask (Z.land fl AlignmentMask)) =? 0))
    else Ok false in
  if misaligned then Ok (AlignmentFault vaddr_tainted is_write, r, pt)
  else
    match translate pt vaddr with
    | (None, pt) => Ok (GenericPageTableFault vaddr_tainted, r, pt)
    | (Some paddr, pt) => Ok (NoFault, setPaddr r paddr, pt)
    end.

(** ** Definitions: the processor *)

Definition CACHE_BLOCK_ZERO : Z := 0x00010000.

Section DataOps.
Context {M : Type} `{MemPort M}.
(** [handleIprRead] and [handleIprWrite]. *)
Context (handleIpr : M -> Packet -> result (Z * M * Packet)).

(** The part of the processor a data access uses; [lockAddr] and [lockFlag]
    are the registers [MISCREG_LOCKADDR] and [MISCREG_LOCKFLAG]. *)
Record DataCpu := mkDataCpu {
  dc_read_req : Request;
  dc_write_req : Request;
  dc_locked : bool;
  dcache_latency : Z;
  dcache_access : bool;
  lockAddr : Z;
  lockFlag : bool;
  stCondFailures : Z;
  dc_tlb : TLB;
  dc_pTable : PageTable;
  dc_mem : M;
}.

(** What stays fixed during an access. *)
Record DataParams := mkDataParams {
  cacheLineSize : Z;
  cacheBlockMask : Z;
  fastmem : bool;
  dataMasterId : Z;
  instAddr : Z;
  dp_now : Z;
}.

Definition with_read_req (c : DataCpu) (r : Request) : DataCpu :=
  mkDataCpu r (dc_write_req c) (dc_locked c) (dcache_latency c) (dcache_access c) (lockAddr c) (lockFlag c)
    (stCondFailures c) (dc_tlb c) (dc_pTable c) (dc_mem c).
Definition with_write_req (c : DataCpu) (r : Request) : DataCpu :=
  mkDataCpu (dc_read_req c) r (dc_locked c) (dcache_latency c) (dcache_access c) (lockAddr c) (lockFlag c)
    (stCondFailures c) (dc_tlb c) (dc_pTable c) (dc_mem c).
Definition with_locked (c : DataCpu) (b : bool) : DataCpu :=
  mkDataCpu (dc_read_req c) (dc_write_req c) b (dcache_latency c) (dcache_access c) (lockAddr c) (lockFlag c)
    (stCondFailures c) (dc_tlb c) (dc_pTable c) (dc_mem c).
Definition with_dcache (c : DataCpu) (lat : Z) (acc : bool) (m : M) : DataCpu :=
  mkDataCpu (dc_read_req c) (dc_write_req c) (dc_locked c) lat acc (lockAddr c) (lockFlag c)
    (stCondFailures c) (dc_tlb c) (dc_pTable c) m.
Definition with_lock (c : DataCpu) (a : Z) (b : bool) (n : Z) : DataCpu :=
  mkDataCpu (dc_read_req c) (dc_write_req c) (dc_locked c) (dcache_latency c) (dcache_access c) a b
    n (dc_tlb c) (dc_pTable c) (dc_mem c).
Definition with_table (c : DataCpu) (t : PageTable) : DataCpu :=
  mkDataCpu (dc_read_req c) (dc_write_req c) (dc_locked c) (dcache_latency c) (dcache_access c) (lockAddr c) (lockFlag c)
    (stCondFailures c) (dc_tlb c) t (dc_mem c).

(** [handleLockedRead(xc, req)] and [handleLockedWrite(xc, req, mask)] of
    [arch/arm/locked_mem.hh]; the warning after many failures is output. *)
Definition handleLockedRead (c : DataCpu) (r : Request) : result DataCpu :=
  let* a := getPaddr r in Ok (with_lock c a true (stCondFailures c)).

Definition handleLockedWrite (c : DataCpu) (r : Request) (blockMask : Z) : result (bool * DataCpu * Request) :=
  if isSwap r then Ok (true, c, r)
  else
    let* a := getPaddr r in
    let lock_addr := Z.land (lockAddr c) blockMask in
    if negb (lockFlag c) || negb (Z.land a blockMask =? lock_addr) then
      Ok (false, with_lock c (lockAddr c) false (swrap 32 (stCondFailures c + 1)), setExtraData r 0)
    else Ok (true, c, r).

(** A packet to memory: through the registers, the fast path or the port. *)
Definition issue (P : DataParams) (c : DataCpu) (p : Packet) : result (DataCpu * Packet) :=
  let* '(lat, m, p) :=
    if isMmappedIpr (req p) then handleIpr (dc_mem c) p
    else
      let* a := getAddr p in
      let* '(fast, m) := if fastmem P then isMemAddr (dc_mem c) a else Ok (false, dc_mem c) in
      if fast : bool then
        let* '(m, p) := phys_access m p in Ok (0, m, p)
      else sendAtomic m p in
  let c := with_dcache c (u64 (dcache_latency c + lat)) true m in
  let* _ := assert_ (negb (isError (cmd p))) in
  Ok (c, p).

(** The bytes of [data] a part of the access points to, and their update. *)
Definition piece (data : list Z) (off size : Z) : result (list Z) :=
  memcpy (replicate (Z.to_nat size) 0) 0 data off size.

(** The body of the loop of [readMem] for the part at [addr]. *)
Definition read_part (P : DataParams) (c : DataCpu) (addr size flags : Z) (data : list Z) (off : Z)
    : result (Fault * DataCpu * list Z) :=
  let r := setVirt (dc_read_req c) 0 addr size flags (dataMasterId P) (instAddr P) (dp_now P) in
  let* '(fault, r, pt) := translateSe (dc_tlb c) (dc_pTable c) r Read in
  let c := with_table (with_read_req c r) pt in
  if decide (fault = NoFault) then
    if flag_isSet (_flags r) NO_ACCESS then Ok (fault, c, data)
    else
      let* d := piece data off size in
      let* p := dataStatic (new_Packet r (makeReadCmd r)) d in
      let* '(c, p) := issue P c p in
      let* d := getPtr p in
      let* data := memcpy data off d 0 size in
      let c := with_read_req c (req p) in
      let* c := if rq_isLLSC (req p) then handleLockedRead c (req p) else Ok c in
      Ok (fault, c, data)
  else Ok (fault, c, data).

Definition secondAddr_of (P : DataParams) (addr size : Z) : Z :=
  roundDown (u64 (u64 (addr + size) - 1)) (cacheLineSize P).

(** [readMem(addr, data, size, flags)]: the fault and the bytes. *)
Fixpoint readMem_loop (fuel : nat) (P : DataParams) (c : DataCpu) (addr secondAddr fullSize size flags : Z)
    (data : list Z) (off : Z) : result (Fault * DataCpu * list Z) :=
  match fuel with
  | O => Err Out_of_fuel
  | S fuel =>
      let* '(fault, c, data) := read_part P c addr size flags data off in
      if negb (bool_decide (fault = NoFault)) then
        Ok (if rq_isPrefetch (dc_read_req c) then NoFault else fault, c, data)
      else if secondAddr <=? addr then
        if isLockedRMW (dc_read_req c) then
          let* _ := assert_ (negb (dc_locked c)) in Ok (fault, with_locked c true, data)
        else Ok (fault, c, data)
      else
        readMem_loop fuel P c secondAddr secondAddr fullSize (u32 (u64 (addr + fullSize) - secondAddr)) flags
          data (off + size)
  end.

Definition readMem (P : DataParams) (c : DataCpu) (addr : Z) (data : list Z) (size flags : Z)
    : result (Fault * DataCpu * list Z) :=
  let secondAddr := secondAddr_of P addr size in
  let size1 := if addr <? secondAddr then u32 (secondAddr - addr) else size in
  readMem_loop 2 P (with_dcache c 0 (dcache_access c) (dc_mem c)) addr secondAddr (swrap 32 size) size1 flags data 0.

(** [assert(res)] and [*res]. *)
Definition need_res (res : option Z) : result Z :=
  match res with Some v => Ok v | None => Err Assert_failed end.

(** The body of the loop of [writeMem]; [res] is what its pointer refers to. *)
Definition write_part (P : DataParams) (c : DataCpu) (addr fullSize size flags : Z) (data : list Z) (off : Z)
    (res : option Z) : result (Fault * DataCpu * list Z * option Z) :=
  let r := setVirt (dc_write_req c) 0 addr size flags (dataMasterId P) (instAddr P) (dp_now P) in
  let* '(fault, r, pt) := translateSe (dc_tlb c) (dc_pTable c) r Write in
  let c := with_table (with_write_req c r) pt in
  if decide (fault = NoFault) then
    let* '(k, do_access, c, r) :=
      if rq_isLLSC r then
        let* '(b, c, r) := handleLockedWrite c r (cacheBlockMask P) in Ok (StoreCondReq, b, c, r)
      else if isSwap r then
        if isCondSwap r then let* v := need_res res in Ok (SwapReq, true, c, setExtraData r v)
        else Ok (SwapReq, true, c, r)
      else Ok (WriteReq, true, c, r) in
    let c := with_write_req c r in
    let* '(c, data, res) :=
      if do_access && negb (flag_isSet (_flags r) NO_ACCESS) then
        let* d := piece data off size in
        let* p := dataStatic (new_Packet r k) d in
        let* '(c, p) := issue P c p in
        let* d := getPtr p in
        let* data := memcpy data off d 0 size in
        let c := with_write_req c (req p) in
        if isSwap (req p) then
          let* v := need_res res in
          let* bs := memcpy (bytes_le 8 v) 0 data off fullSize in
          Ok (c, data, Some (foldr (fun b acc => b + 256 * acc) 0 bs))
        else Ok (c, data, res)
      else Ok (c, data, res) in
    let* res :=
      match res with
      | Some _ => if isSwap (dc_write_req c) then Ok res
                  else let* v := getExtraData (dc_write_req c) in Ok (Some v)
      | None => Ok None
      end in
    Ok (fault, c, data, res)
  else Ok (fault, c, data, res).

Fixpoint writeMem_loop (fuel : nat) (P : DataParams) (c : DataCpu) (addr secondAddr fullSize size flags : Z)
    (data : list Z) (off : Z) (res : option Z) : result (Fault * DataCpu * option Z) :=
  match fuel with
  | O => Err Out_of_fuel
  | S fuel =>
      let* '(fault, c, data, res) := write_part P c addr fullSize size flags data off res in
      if negb (bool_decide (fault = NoFault)) || (secondAddr <=? addr) then
        let* c :=
          if isLockedRMW (dc_write_req c) && bool_decide (fault = NoFault) then
            let* _ := assert_ (dc_locked c) in Ok (with_locked c false)
          else Ok c in
        Ok (if negb (bool_decide (fault = NoFault)) && rq_isPrefetch (dc_write_req c) then NoFault else fault, c, res)
      else
        writeMem_loop fuel P c secondAddr secondAddr fullSize (u32 (u64 (addr + fullSize) - secondAddr)) flags
          data (off + size) res
  end.

(** [writeMem(data, size, addr, flags, res)]; no data is a block of zeros. *)
Definition writeMem (P : DataParams) (c : DataCpu) (data : option (list Z)) (size addr flags : Z) (res : option Z)
    : result (Fault * DataCpu * option Z) :=
  let* data :=
    match data with
    | Some d => Ok d
    | None =>
        let* _ := assert_ (size <=? 64) in
        let* _ := assert_ (negb (Z.land flags CACHE_BLOCK_ZERO =? 0)) in
        Ok (replicate 64 0)
    end in
  let secondAddr := secondAddr_of P addr size in
  let size1 := if addr <? secondAddr then u32 (secondAddr - addr) else size in
  writeMem_loop 2 P (with_dcache c 0 (dcache_access c) (dc_mem c)) addr secondAddr (swrap 32 size) size1 flags
    data 0 res.
End DataOps.
Arguments DataCpu : clear implicits.

(** ** Translation *)

Lemma translate_step p v :
  mem_inv p ->
  exists t', translate (pr_pTable p) v = (pt_image (pr_pTable p) v, t') /\
    mem_inv (with_mem p (pr_system p) t') /\ forall a, pt_image t' a = pt_image (pr_pTable p) a.
Proof.
  intros Hp. pose proof (mi_cache _ Hp) as Hc. destruct (pt_lookup_ok (pr_pTable p) v Hc) as (_ & Hc' & c0 & c1 & c2 & Hl).
  exists (snd (pt_lookup (pr_pTable p) v)). split; [unfold pt_image; by rewrite translate_ok|].
  rewrite Hl in *. split; [destruct Hp; by split|]. intros a. by rewrite !pt_image_ok.
Qed.

(** Addresses of one page are mapped next to each other. *)
Lemma image_next p a i :
  mem_inv p -> is_u64 a -> 0 <= i -> a mod 2 ^ 12 + i < 2 ^ 12 -> is_u64 (a + i) ->
  pt_image (pr_pTable p) (a + i) = (fun x => x + i) <$> pt_image (pr_pTable p) a.
Proof.
  intros Hp Ha Hi Hm Hai. rewrite !mem_image by done. change PageBytes with (2 ^ 12).
  assert ((a + i) mod 2 ^ 12 = a mod 2 ^ 12 + i) as E.
  { pose proof (Z.mod_pos_bound a (2 ^ 12)). rewrite Z.add_mod, (Z.mod_small i) by lia. apply Z.mod_small. lia. }
  rewrite E. replace (a + i - (a mod 2 ^ 12 + i)) with (a - a mod 2 ^ 12) by lia.
  destruct (pTable (pr_pTable p) !! _); cbn; [|done]. f_equal. lia.
Qed.

(** ** Requests of the processor *)

(** Flags of an ordinary access: [MustBeOne], and no special access. *)
Definition special_flags : Z :=
  Z.lor LLSC (Z.lor PREFETCH (Z.lor NO_ACCESS (Z.lor MMAPPED_IPR (Z.lor LOCKED_RMW (Z.lor MEM_SWAP (Z.lor MEM_SWAP_COND INST_FETCH)))))).
Definition plain_flags (f : Z) : bool := (Z.land f special_flags =? 0) && negb (Z.land f MustBeOne =? 0).

(** The alignment check passes. *)
Definition align_ok (t : TLB) (f a : Z) : bool :=
  negb ((sctlr_a t || (Z.land f AllowUnaligned =? 0)) && negb (Z.land a (mask (Z.land f AlignmentMask)) =? 0)).

Definition req_ok (r : Request) : Prop := flag_isSet (privateFlags r) RQ_VALID_CONTEXT_ID = true /\ isInstFetch r = false.

Lemma plain_none f g : plain_flags f = true -> Z.land special_flags g = g -> flag_isSet f g = false.
Proof.
  unfold plain_flags, flag_isSet. intros [H1%Z.eqb_eq _]%andb_true_iff Hg. rewrite <- Hg, Z.land_assoc, H1, Z.land_0_l. done.
Qed.

Lemma setVirt_facts r asid a n f mid pc now :
  req_ok r -> plain_flags f = true ->
  let r' := setVirt r asid a n f mid pc now in
  _flags r' = f /\ req_ok r' /\ getVaddr r' = Ok a /\ hasSize r' = true /\
  flag_isSet (privateFlags r') (Z.lor RQ_VALID_PADDR RQ_VALID_VADDR) = true /\ _size r' = n.
Proof.
  intros [Hc Hf] Hp r'. assert (_flags r' = f) as Hfl.
  { cbn. unfold flag_set, flag_clear_at. change (wrap 32 (Z.lnot (u32 (Z.lnot STICKY_FLAGS)))) with INST_FETCH.
    unfold isInstFetch, flag_isSet in Hf. apply negb_false_iff, Z.eqb_eq in Hf. by rewrite Hf. }
  split; [done|]. split_and!; try done.
  - split; [|unfold isInstFetch; rewrite Hfl; by apply (plain_none f)]. cbn. rewrite isSet_set.
    by rewrite isSet_clear_at, Hc.
  - unfold getVaddr. cbn. by rewrite isSet_set, orb_true_r.
  - unfold hasSize. cbn. by rewrite isSet_set, orb_true_r.
  - cbn. by rewrite isSet_set, orb_true_r.
Qed.

Lemma setPaddr_facts r a :
  req_ok r -> req_ok (setPaddr r a) /\ hasPaddr (setPaddr r a) = true /\ contextId (setPaddr r a) = Ok (_contextId r).
Proof.
  intros [Hc Hf]. assert (flag_isSet (privateFlags (setPaddr r a)) RQ_VALID_CONTEXT_ID = true) as Hc'.
  { cbn. by rewrite isSet_set, Hc. }
  split; [done|]. split; [unfold hasPaddr; cbn; by rewrite isSet_set, orb_true_r|].
  unfold contextId. by rewrite Hc'.
Qed.

(** The translation of an aligned ordinary access. *)
Lemma translateSe_ok t p r a f mode :
  mem_inv p -> aarch64 t = false -> getVaddr r = Ok a -> _flags r = f -> plain_flags f = true -> align_ok t f a = true ->
  flag_isSet (privateFlags r) (Z.lor RQ_VALID_PADDR RQ_VALID_VADDR) = true ->
  exists t', translateSe t (pr_pTable p) r mode =
      Ok (match pt_image (pr_pTable p) a with
          | Some x => (NoFault, setPaddr r x, t')
          | None => (GenericPageTableFault a, r, t')
          end) /\
    mem_inv (with_mem p (pr_system p) t') /\ forall a, pt_image t' a = pt_image (pr_pTable p) a.
Proof.
  intros Hp Ha Hv Hf Hpl Hal Hpr. destruct (translate_step p a Hp) as (t' & Ht & Hp' & Himg). exists t'. split; [|done].
  unfold translateSe. rewrite Hv, Ha. cbn [rbind]. rewrite Hpr, Hf. cbn [assert_ rbind].
  assert (negb (Z.land f MustBeOne =? 0) = true) as Hm by (unfold plain_flags in Hpl; by apply andb_true_iff in Hpl as [_ ?]).
  rewrite Hm. cbn [assert_ rbind]. unfold align_ok in Hal. apply negb_true_iff in Hal.
  assert (forall b : bool, (if b then Ok ((sctlr_a t || (Z.land f AllowUnaligned =? 0)) && negb (Z.land a (mask (Z.land f AlignmentMask)) =? 0)) else Ok false) = Ok false) as Hb.
  { intros []; by rewrite ?Hal. }
  rewrite Hb. cbn [rbind]. rewrite Ht. by destruct (pt_image (pr_pTable p) a).
Qed.

(** ** Data accesses *)

Section DataCorrect.
Context {M : Type} `{MemPortLaws M}.
Context (handleIpr : M -> Packet -> result (Z * M * Packet)).
Implicit Types c : DataCpu M.

Record dc_inv c (p : Process) (s : MemSpec) : Prop := {
  di_proc : mem_inv p;
  di_table : dc_pTable c = pr_pTable p;
  di_mem : mp_spec (dc_mem c) s;
  di_read : req_ok (dc_read_req c);
  di_write : req_ok (dc_write_req c);
  di_a64 : aarch64 (dc_tlb c) = false;
}.

(** What an access leaves as it was: the translation, and where memory is. *)
Definition dc_same c p c' p' : Prop :=
  (forall a, pt_image (pr_pTable p') a = pt_image (pr_pTable p) a) /\ pr_system p' = pr_system p /\
  mp_extent (dc_mem c') = mp_extent (dc_mem c) /\ dc_tlb c' = dc_tlb c.

(** The [n] bytes at [a] are mapped to the memory. *)
Definition reachable c p (a n : Z) : Prop :=
  forall i, 0 <= i < n -> exists x, pt_image (pr_pTable p) (a + i) = Some x /\
    ex_lo (mp_extent (dc_mem c)) <= x < ex_hi (mp_extent (dc_mem c)).

Lemma issue_ok (P : DataParams) c p s d :
  isMmappedIpr (req p) = false -> getAddr p = Ok (addr p) -> (fastmem P = true -> mp_fast) ->
  mp_spec (dc_mem c) s -> mp_asks (dc_mem c) p d ->
  exists lat m' p', issue handleIpr P c p = Ok (with_dcache c lat true m', p') /\
    mp_spec m' (sp_access s p d).1.1 /\ served s p d p' /\ mp_extent m' = mp_extent (dc_mem c).
Proof.
  intros Hipr Ha Hfast Hs Hask. unfold issue. rewrite Hipr, Ha. cbn [rbind].
  assert (exists lat m' p',
    (let* '(fast, m) := if fastmem P then isMemAddr (dc_mem c) (addr p) else Ok (false, dc_mem c) in
     if fast : bool then let* '(m, p) := phys_access m p in Ok (0, m, p) else sendAtomic m p) = Ok (lat, m', p') /\
    mp_spec m' (sp_access s p d).1.1 /\ served s p d p' /\ mp_extent m' = mp_extent (dc_mem c))
    as (lat & m' & p' & -> & Hs' & Hd & He).
  { destruct (fastmem P); cbn [rbind]; [|by apply mp_send].
    destruct (mp_query _ _ _ _ (Hfast eq_refl) Hs Hask) as ([] & m & -> & Hs1 & Hask1 & <-); cbn [rbind]; [|by apply mp_send].
    destruct (mp_phys _ _ _ _ (Hfast eq_refl) Hs1 Hask1) as (m' & p' & -> & ?). cbn [rbind]. by exists 0, m', p'. }
  cbn [rbind]. destruct Hd as (Hd & Herr & Hrest). rewrite Herr. cbn. by exists (u64 (dcache_latency c + lat)), m', p'.
Qed.

(** The port takes ordinary accesses with flags [f] within lines of [2 ^ k] bytes. *)
Record port_ok (P : DataParams) c (k f : Z) : Prop := {
  pp_line : 0 <= k <= 12 /\ k <= ex_line (mp_extent (dc_mem c));
  pp_master : 0 <= dataMasterId P < ex_masters (mp_extent (dc_mem c));
  pp_flags : Z.land f (ex_forbidden (mp_extent (dc_mem c))) = 0;
  pp_fast : fastmem P = true -> mp_fast;
}.

(** Lines within larger lines. *)
Lemma line_in_page k j a n : 0 <= k <= j -> 0 <= a -> a mod 2 ^ k + n <= 2 ^ k -> a mod 2 ^ j + n <= 2 ^ j.
Proof.
  intros Hk Ha Hl. replace (2 ^ j) with (2 ^ k * 2 ^ (j - k)) by (rewrite <- Z.pow_add_r by lia; f_equal; lia).
  assert (0 < 2 ^ k) by lia. assert (0 < 2 ^ (j - k)) by lia.
  rewrite Z.rem_mul_r by lia. pose proof (Z.mod_pos_bound (a / 2 ^ k) (2 ^ (j - k))). nia.
Qed.

(** An ordinary request of [n] bytes, translated to [x]. *)
Lemma part_request P c p s (r : Request) (n x f k : Z) cm d :
  dc_inv c p s -> port_ok P c k f -> req_ok r -> _flags r = f -> plain_flags f = true -> hasSize r = true -> _size r = n ->
  _masterId r = dataMasterId P -> x mod 2 ^ k + n <= 2 ^ k ->
  0 < n < 2 ^ 31 -> ex_lo (mp_extent (dc_mem c)) <= x -> x + n <= ex_hi (mp_extent (dc_mem c)) ->
  Z.of_nat (length d) = n -> (cm = ReadReq \/ cm = WriteReq) ->
  let p := cpu_packet (setPaddr r x) cm d in
  mp_asks (dc_mem c) p d /\ isMmappedIpr (req p) = false /\ getAddr p = Ok (addr p) /\ addr p = x.
Proof.
  intros Hi [Hpk Hpm Hps _] Hr Hf Hp Hs Hn Hm Hx Hb Hlo Hhi Hd Hk pk. destruct (setPaddr_facts r x Hr) as (Hr' & Hpa & Hc).
  assert (hasSize (setPaddr r x) = true) as Hs' by (unfold hasSize in *; cbn; by rewrite isSet_set, Hs).
  destruct (mp_bounds _ _ (di_mem _ _ _ Hi)) as [Hb0 Hb1]. split_and!.
  - apply mp_cpu; try done; cbn; try lia; [exact (proj2 Hr')|unfold region; lia|].
    split_and!; cbn; try lia; [by rewrite Hn; apply (line_in_page k); [lia..|]|].
    by rewrite Hf.
  - unfold isMmappedIpr. cbn. rewrite Hf. by apply (plain_none f).
  - unfold getAddr, pk, cpu_packet, new_Packet. cbn. rewrite isSet_set. unfold hasSize in Hs. by rewrite Hpa, isSet_set.
  - unfold pk, cpu_packet, new_Packet. cbn. by rewrite Hpa.
Qed.

Lemma piece_ok data off n :
  0 <= off -> 0 <= n -> off + n <= Z.of_nat (length data) ->
  exists d, piece data off n = Ok d /\ Z.of_nat (length d) = n /\
    forall i, 0 <= i < n -> d !! Z.to_nat i = data !! Z.to_nat (off + i).
Proof.
  intros Ho Hn Hl. unfold piece. destruct (memcpy_total (replicate (Z.to_nat n) 0) 0 data off n) as [d Hd];
    [rewrite ?length_replicate; lia..|].
  exists d. split; [done|]. apply memcpy_inv in Hd as (_ & Hlen & Hd). rewrite length_replicate in Hlen.
  split; [lia|]. intros i Hi. rewrite Hd, decide_True by lia. f_equal. lia.
Qed.

(** The bytes a processor sees at virtual address [a]. *)
Definition vbyte (p : Process) (s : MemSpec) (a : Z) : option Z := sp_byte s <$> pt_image (pr_pTable p) a.

Lemma sp_access_read s p d : cmd p = ReadReq -> sp_access s p d = (s, sp_read s (addr p) (length d), None).
Proof. intros Hc. unfold sp_access. by rewrite Hc. Qed.

Lemma sp_access_write s p d :
  cmd p = WriteReq -> sp_access s p d = (sp_write (sp_clear s (la_mask (addr p))) (addr p) d, d, None).
Proof. intros Hc. unfold sp_access. by rewrite Hc. Qed.

(** A part of an access: [n] bytes at [a] within a line of [2 ^ k] bytes, in the
    buffer at [off]. *)
Record part_ok (P : DataParams) c p (k a n f off len : Z) : Prop := {
  pa_port : port_ok P c k f;
  pa_flags : plain_flags f = true;
  pa_align : align_ok (dc_tlb c) f a = true;
  pa_reach : reachable c p a n;
  pa_size : 0 < n;
  pa_addr : 0 <= a /\ a + n <= 2 ^ 64;
  pa_line : a mod 2 ^ k + n <= 2 ^ k;
  pa_off : 0 <= off /\ off + n <= len;
}.

(** The physical addresses of a part, in a line of their own. *)
Lemma part_image P c p k a n f off len :
  mem_inv p -> part_ok P c p k a n f off len ->
  exists x, (forall i, 0 <= i < n -> pt_image (pr_pTable p) (a + i) = Some (x + i)) /\
    ex_lo (mp_extent (dc_mem c)) <= x /\ x + n <= ex_hi (mp_extent (dc_mem c)) /\ pt_image (pr_pTable p) a = Some x /\
    x mod 2 ^ k + n <= 2 ^ k /\ n <= 2 ^ 12.
Proof.
  intros Hp [[[Hk _] _ _ _] _ _ Hre Hn Ha Hln _]. pose proof (Z.mod_pos_bound a (2 ^ 12) ltac:(lia)) as Hmod.
  assert (a mod 2 ^ 12 + n <= 2 ^ 12) as Hpg by (by apply (line_in_page k); [lia..|]).
  destruct (Hre 0) as (x & Hx & Hxr); [lia|]. rewrite Z.add_0_r in Hx.
  assert (forall i, 0 <= i < n -> pt_image (pr_pTable p) (a + i) = Some (x + i)) as Himg.
  { intros i Hii. rewrite image_next by (done || (unfold in_range; lia) || lia). by rewrite Hx. }
  exists x. split; [done|]. split; [lia|]. split.
  { destruct (Hre (n - 1)) as (y & Hy & Hyr); [lia|]. rewrite Himg in Hy by lia. injection Hy as <-. lia. }
  split; [done|]. split; [|lia]. rewrite mem_image in Hx by (done || (unfold in_range; lia)).
  destruct (pTable (pr_pTable p) !! _) as [e|]; [|done]. injection Hx as <-. change PageBytes with (2 ^ 12).
  replace (2 ^ 12) with (2 ^ (12 - k) * 2 ^ k) at 1 2 by (rewrite <- Z.pow_add_r by lia; f_equal; lia).
  rewrite Z.mul_assoc, Z.mod_add by lia. rewrite Z.mul_comm, Z.rem_mul_r by lia.
  rewrite Z.mul_comm, Z.mod_add, Z.mod_mod by lia. done.
Qed.

(** One part of a read. *)
Lemma read_part_ok P c p s k a n f data off :
  dc_inv c p s -> part_ok P c p k a n f off (Z.of_nat (length data)) ->
  exists c' p' data', read_part handleIpr P c a n f data off = Ok (NoFault, c', data') /\
    dc_inv c' p' s /\ dc_same c p c' p' /\ _flags (dc_read_req c') = f /\ dc_locked c' = dc_locked c /\
    length data' = length data /\
    forall i, data' !! i = if decide (off <= Z.of_nat i < off + n) then vbyte p s (a + (Z.of_nat i - off)) else data !! i.
Proof.
  intros Hi Hpart. pose proof Hi as [Hp Ht Hm Hrr Hwr Ha64].
  destruct (part_image _ _ _ _ _ _ _ _ _ Hp Hpart) as (x & Himg & Hlo & Hhi & Hx & Hxl & Hn12).
  destruct Hpart as [Hport Hf Hal _ Hn Ha _ Hoff].
  unfold read_part. set (r := setVirt (dc_read_req c) 0 a n f _ _ _).
  destruct (setVirt_facts (dc_read_req c) 0 a n f (dataMasterId P) (instAddr P) (dp_now P) Hrr Hf) as (Rf & Rok & Rv & Rs & Rp & Rn).
  fold r in Rf, Rok, Rv, Rs, Rp, Rn. rewrite Ht.
  destruct (translateSe_ok (dc_tlb c) p r a f Read Hp Ha64 Rv Rf Hf Hal Rp) as (t' & -> & Hp' & Hti). rewrite Hx. cbn [rbind].
  rewrite decide_True by done.
  assert (flag_isSet (_flags (setPaddr r x)) NO_ACCESS = false) as -> by (cbn [_flags setPaddr]; rewrite Rf; by apply (plain_none f)).
  destruct (piece_ok data off n) as (d & -> & Hdl & _); [lia..|]. cbn [rbind]. rewrite dataStatic_new. cbn [rbind].
  assert (makeReadCmd (setPaddr r x) = ReadReq) as ->.
  { unfold makeReadCmd, rq_isLLSC, rq_isPrefetch. cbn [_flags setPaddr]. rewrite Rf, !(plain_none f) by done. done. }
  destruct (part_request P c p s r n x f k ReadReq d Hi Hport Rok Rf Hf Rs Rn eq_refl Hxl) as (Hask & Hipr & Hga & Hpa); [lia..|by left|].
  set (c1 := with_table (with_read_req c (setPaddr r x)) t').
  destruct (issue_ok P c1 (cpu_packet (setPaddr r x) ReadReq d) s d) as (lat & m' & pk & -> & Hs' & (Hd' & _ & Hfl & Hrq) & Hext); try done; [by apply Hport|].
  rewrite sp_access_read in Hs', Hd', Hrq by done. cbn [fst snd] in Hs', Hd', Hrq. rewrite Hpa in Hd'. cbn [rbind].
  assert (getPtr pk = Ok (sp_read s x (length d))) as ->.
  { unfold getPtr. rewrite Hfl, Hd'. unfold cpu_packet, new_Packet. cbn. by rewrite !isSet_set, !orb_true_r. }
  cbn [rbind]. assert (length (sp_read s x (length d)) = length d) as Hspl by (unfold sp_read; by rewrite length_fmap, length_seq).
  destruct (memcpy_total data off (sp_read s x (length d)) 0 n) as [data' Hcp]; [lia..|]. rewrite Hcp. cbn [rbind].
  apply memcpy_inv in Hcp as (_ & Hlen & Hcp). rewrite Hrq. change (req (cpu_packet (setPaddr r x) ReadReq d)) with (setPaddr r x).
  assert (rq_isLLSC (setPaddr r x) = false) as -> by (unfold rq_isLLSC; cbn [_flags setPaddr]; rewrite Rf; by apply (plain_none f)).
  cbn [rbind]. destruct (setPaddr_facts r x Rok) as (Rok' & _ & _).
  eexists _, (with_mem p (pr_system p) t'), data'. split; [done|]. split_and!; try done.
  intros i. rewrite Hcp. case_decide; [|done]. rewrite sp_read_lookup, decide_True by lia. unfold vbyte.
  rewrite Himg by lia. cbn. do 2 f_equal. lia.
Qed.

(** One part of an ordinary write. *)
Lemma write_part_ok P c p s k a full n f data off :
  dc_inv c p s -> part_ok P c p k a n f off (Z.of_nat (length data)) ->
  exists c' p' s' x, write_part handleIpr P c a full n f data off None = Ok (NoFault, c', data, None) /\
    dc_inv c' p' s' /\ dc_same c p c' p' /\ _flags (dc_write_req c') = f /\ dc_locked c' = dc_locked c /\
    (forall i, 0 <= i < n -> pt_image (pr_pTable p) (a + i) = Some (x + i)) /\
    forall y, Some (sp_byte s' y) = if decide (x <= y < x + n) then data !! Z.to_nat (off + (y - x)) else Some (sp_byte s y).
Proof.
  intros Hi Hpart. pose proof Hi as [Hp Ht Hm Hrr Hwr Ha64].
  destruct (part_image _ _ _ _ _ _ _ _ _ Hp Hpart) as (x & Himg & Hlo & Hhi & Hx & Hxl & Hn12).
  destruct Hpart as [Hport Hf Hal _ Hn Ha _ Hoff].
  unfold write_part. set (r := setVirt (dc_write_req c) 0 a n f _ _ _).
  destruct (setVirt_facts (dc_write_req c) 0 a n f (dataMasterId P) (instAddr P) (dp_now P) Hwr Hf) as (Rf & Rok & Rv & Rs & Rp & Rn).
  fold r in Rf, Rok, Rv, Rs, Rp, Rn. rewrite Ht.
  destruct (translateSe_ok (dc_tlb c) p r a f Write Hp Ha64 Rv Rf Hf Hal Rp) as (t' & -> & Hp' & Hti). rewrite Hx. cbn [rbind].
  rewrite decide_True by done.
  assert (forall g, Z.land special_flags g = g -> flag_isSet (_flags (setPaddr r x)) g = false) as Hno.
  { intros g Hg. cbn [_flags setPaddr]. rewrite Rf. by apply (plain_none f). }
  unfold rq_isLLSC, isSwap. rewrite !Hno by done. cbn [rbind negb andb].
  destruct (piece_ok data off n) as (d & -> & Hdl & Hdi); [lia..|]. cbn [rbind]. rewrite dataStatic_new. cbn [rbind].
  destruct (part_request P c p s r n x f k WriteReq d Hi Hport Rok Rf Hf Rs Rn eq_refl Hxl) as (Hask & Hipr & Hga & Hpa); [lia..|by right|].
  set (c1 := with_write_req (with_table (with_write_req c (setPaddr r x)) t') (setPaddr r x)).
  destruct (issue_ok P c1 (cpu_packet (setPaddr r x) WriteReq d) s d) as (lat & m' & pk & -> & Hs' & (Hd' & _ & Hfl & Hrq) & Hext); try done; [by apply Hport|].
  rewrite sp_access_write in Hs', Hd', Hrq by done. cbn [fst snd] in Hs', Hd', Hrq. rewrite Hpa in Hs'. cbn [rbind].
  assert (getPtr pk = Ok d) as ->.
  { unfold getPtr. rewrite Hfl, Hd'. unfold cpu_packet, new_Packet. cbn. by rewrite !isSet_set, !orb_true_r. }
  cbn [rbind]. destruct (memcpy_total data off d 0 n) as [data' Hcp]; [lia..|]. rewrite Hcp. cbn [rbind].
  apply memcpy_inv in Hcp as (_ & Hlen & Hcp).
  assert (data' = data) as ->.
  { apply list_eq. intros i. rewrite Hcp. case_decide; [|done]. rewrite Z.add_0_l, Hdi by lia. f_equal. lia. }
  rewrite Hrq. change (req (cpu_packet (setPaddr r x) WriteReq d)) with (setPaddr r x). rewrite !Hno by done. cbn [rbind].
  destruct (setPaddr_facts r x Rok) as (Rok' & _ & _).
  eexists _, (with_mem p (pr_system p) t'), _, x. split; [done|]. split_and!; try done.
  intros y. cbn. case_decide.
  - rewrite <- (mem_store_in (sp_byte s) x d) by lia. rewrite Hdi by lia. f_equal.
  - by rewrite mem_store_out by lia.
Qed.

(** ** Splitting at cache lines *)

(** An ordinary access of at most a cache line. *)
Record access_ok (P : DataParams) c p (k a n f len : Z) : Prop := {
  ao_port : port_ok P c k f;
  ao_line : cacheLineSize P = 2 ^ k;
  ao_size : 0 < n <= 2 ^ k;
  ao_addr : 0 <= a /\ a + n < 2 ^ 64;
  ao_flags : plain_flags f = true;
  ao_align : align_ok (dc_tlb c) f a = true /\
             align_ok (dc_tlb c) f (secondAddr_of P a n) = true;
  ao_reach : reachable c p a n;
  ao_len : n <= len;
}.

Lemma second_spec P c p k a n f len :
  access_ok P c p k a n f len ->
  let b := secondAddr_of P a n in
  b = a + n - 1 - (a + n - 1) mod 2 ^ k /\ b mod 2 ^ k = 0 /\ 0 <= b < a + n /\ a + n - b <= 2 ^ k /\
  (b <= a -> a mod 2 ^ k + n <= 2 ^ k) /\ (a < b -> a mod 2 ^ k + (b - a) <= 2 ^ k).
Proof.
  intros [[[Hk _] _ _ _] Hl Hn Ha _ _ _ _] b. assert (0 < 2 ^ k) as Hp by lia.
  assert (b = a + n - 1 - (a + n - 1) mod 2 ^ k) as Hb.
  { subst b. unfold secondAddr_of. rewrite Hl, (u64_small (a + n)), u64_small by (unfold in_range; lia).
    apply roundDown_pow2; [lia|]. unfold in_range. lia. }
  pose proof (Z.div_mod (a + n - 1) (2 ^ k) ltac:(lia)) as Hd. pose proof (Z.mod_pos_bound (a + n - 1) (2 ^ k) Hp) as Hm.
  pose proof (Z.div_mod a (2 ^ k) ltac:(lia)) as Hda. pose proof (Z.mod_pos_bound a (2 ^ k) Hp) as Hma.
  assert (b = 2 ^ k * ((a + n - 1) / 2 ^ k)) as Hb2 by lia.
  pose proof (Z.div_pos (a + n - 1) (2 ^ k) ltac:(lia) Hp).
  assert (a / 2 ^ k <= (a + n - 1) / 2 ^ k <= a / 2 ^ k + 1) as Hq.
  { split; [apply Z.div_le_mono; lia|]. replace (a / 2 ^ k + 1) with ((a + 1 * 2 ^ k) / 2 ^ k) by (rewrite Z.div_add; lia). apply Z.div_le_mono; lia. }
  split; [done|]. split; [rewrite Hb2, Z.mul_comm; apply Z.mod_mul; lia|]. split; [nia|]. split; [nia|].
  destruct (decide ((a + n - 1) / 2 ^ k = a / 2 ^ k)) as [E|E]; [rewrite E in *; split; nia|].
  assert ((a + n - 1) / 2 ^ k = a / 2 ^ k + 1) as E' by lia. rewrite E' in *. split; nia.
Qed.

Lemma reachable_sub c p a n i m : reachable c p a n -> 0 <= i -> i + m <= n -> reachable c p (a + i) m.
Proof. intros Hr Hi Hm j Hj. rewrite <- Z.add_assoc. apply Hr. lia. Qed.

Lemma reachable_same c p c' p' a n : dc_same c p c' p' -> reachable c p a n -> reachable c' p' a n.
Proof. intros (Hi & _ & He & _) Hr i Hii. rewrite Hi, He. by apply Hr. Qed.

Lemma port_same P c p c' p' k f : dc_same c p c' p' -> port_ok P c k f -> port_ok P c' k f.
Proof. intros (_ & _ & He & _) [H1 H2 H3 H4]. split; try done; by rewrite He. Qed.

(** The parts of an access. *)
Lemma access_parts P c p k a n f len :
  access_ok P c p k a n f len ->
  let b := secondAddr_of P a n in
  (b <= a -> part_ok P c p k a n f 0 len) /\
  (a < b -> part_ok P c p k a (b - a) f 0 len /\
     forall c' p', dc_same c p c' p' -> part_ok P c' p' k b (a + n - b) f (b - a) len).
Proof.
  intros Ha b. destruct (second_spec _ _ _ _ _ _ _ _ Ha) as (_ & Hb0 & Hbr & Hbl & H1 & H2). fold b in Hb0, Hbr, Hbl, H1, H2.
  destruct Ha as [Hpo Hl Hn Ha Hf [Hal1 Hal2] Hr Hlen]. fold b in Hal2. split.
  - intros Hba. specialize (H1 Hba). by split; try done; try lia.
  - intros Hab. split.
    + split; try done; try lia.
      replace a with (a + 0) by lia. eapply reachable_sub; [exact Hr|lia|lia].
    + intros c' p' Hs. pose proof Hs as (_ & _ & _ & Ht). split; try done; try lia; [by eapply port_same|by rewrite Ht|].
      eapply reachable_same; [exact Hs|]. replace b with (a + (b - a)) by lia. eapply reachable_sub; [exact Hr|lia|lia].
Qed.

Lemma dc_same_trans c p c1 p1 c2 p2 : dc_same c p c1 p1 -> dc_same c1 p1 c2 p2 -> dc_same c p c2 p2.
Proof. intros (H1 & H2 & H3 & H4) (G1 & G2 & G3 & G4). split; [intros a; by rewrite G1|]. split_and!; congruence. Qed.

Lemma access_same P c p c' p' k a n f len : dc_same c p c' p' -> access_ok P c p k a n f len -> access_ok P c' p' k a n f len.
Proof.
  intros Hs [B0 B1 B2 B3 B4 B5 B6 B7]. pose proof Hs as (_ & _ & _ & Et). split; try done; [by eapply port_same|by rewrite Et|].
  by eapply reachable_same.
Qed.

Lemma readMem_ok P c p s k a n f data :
  dc_inv c p s -> access_ok P c p k a n f (Z.of_nat (length data)) ->
  exists c' p' data', readMem handleIpr P c a data n f = Ok (NoFault, c', data') /\
    dc_inv c' p' s /\ dc_same c p c' p' /\
    forall i, data' !! i = if decide (Z.of_nat i < n) then vbyte p s (a + Z.of_nat i) else data !! i.
Proof.
  intros Hi Ha'. unfold readMem. set (c0 := with_dcache c 0 (dcache_access c) (dc_mem c)).
  assert (dc_inv c0 p s) as Hi0 by (destruct Hi; by split).
  assert (access_ok P c0 p k a n f (Z.of_nat (length data))) as Ha by (destruct Ha' as [[]]; split; try done; by split).
  destruct (access_parts _ _ _ _ _ _ _ _ Ha) as [H1 H2]. destruct (second_spec _ _ _ _ _ _ _ _ Ha) as (_ & _ & Hbr & Hbl & _ & _).
  set (b := secondAddr_of P a n) in *.
  pose proof (ao_flags _ _ _ _ _ _ _ _ Ha) as Hf. pose proof (ao_addr _ _ _ _ _ _ _ _ Ha) as Haa. pose proof (pp_line _ _ _ _ (ao_port _ _ _ _ _ _ _ _ Ha)) as [Hk _].
  assert (2 ^ k <= 2 ^ 12) by (apply Z.pow_le_mono_r; lia). pose proof (ao_size _ _ _ _ _ _ _ _ Ha) as Hn.
  assert (forall r, _flags r = f -> isLockedRMW r = false) as Hrmw by (intros r Hr; unfold isLockedRMW; rewrite Hr; by apply (plain_none f)).
  destruct (Z.ltb_spec a b) as [Hab|Hba].
  - destruct (H2 Hab) as [Hp1 Hp2]. unfold u32. rewrite wrap_small by (unfold in_range; lia). cbn [readMem_loop].
    destruct (read_part_ok P c0 p s k a (b - a) f data 0 Hi0 Hp1) as (c1 & p1 & data1 & -> & Hi1 & Hs1 & Hf1 & _ & Hl1 & Hd1).
    cbn [rbind]. rewrite bool_decide_eq_true_2 by done. cbn [negb]. rewrite (proj2 (Z.leb_gt b a)) by lia.
    rewrite swrap_id, (u64_small (a + n)) by (unfold in_range; lia). unfold u32. rewrite wrap_small by (unfold in_range; lia).
    destruct (read_part_ok P c1 p1 s k b (a + n - b) f data1 (0 + (b - a)) Hi1) as (c2 & p2 & data2 & -> & Hi2 & Hs2 & Hf2 & _ & Hl2 & Hd2).
    { rewrite Hl1, Z.add_0_l. apply Hp2. exact Hs1. }
    cbn [rbind]. rewrite bool_decide_eq_true_2 by done. cbn [negb]. rewrite Z.leb_refl, Hrmw by done.
    exists c2, p2, data2. split; [done|]. split; [done|]. split; [by eapply dc_same_trans|]. intros i. rewrite Hd2, Hd1.
    unfold vbyte. destruct Hs1 as (Hs1 & _). repeat case_decide; try lia; [rewrite Hs1|..|done]; do 2 f_equal; lia.
  - cbn [readMem_loop]. destruct (read_part_ok P c0 p s k a n f data 0 Hi0 (H1 Hba)) as (c1 & p1 & data1 & -> & Hi1 & Hs1 & Hf1 & _ & Hl1 & Hd1).
    cbn [rbind]. rewrite bool_decide_eq_true_2 by done. cbn [negb]. rewrite (proj2 (Z.leb_le b a)), Hrmw by done.
    exists c1, p1, data1. split; [done|]. split; [done|]. split; [exact Hs1|]. intros i. rewrite Hd1.
    repeat case_decide; try lia; [|done]. f_equal. lia.
Qed.

(** A store to the bytes at [a], as the processor sees it. *)
Definition stored p s s' (a n : Z) (data : list Z) (off : Z) : Prop :=
  forall v y, is_u64 v -> pt_image (pr_pTable p) v = Some y -> y < physmem_totalSize (pr_system p) ->
    vbyte p s' v = if decide (a <= v < a + n) then data !! Z.to_nat (off + (v - a)) else vbyte p s v.

(** Pages are not shared, so a store changes the bytes at its own addresses. *)
Lemma part_stored p s s' a n x data off :
  mem_inv p -> 0 <= a -> a + n <= 2 ^ 64 ->
  (forall i, 0 <= i < n -> pt_image (pr_pTable p) (a + i) = Some (x + i)) ->
  (forall y, Some (sp_byte s' y) = if decide (x <= y < x + n) then data !! Z.to_nat (off + (y - x)) else Some (sp_byte s y)) ->
  stored p s s' a n data off.
Proof.
  intros Hp Ha Han Himg Hs v y Hv Hy Hlt. unfold vbyte. rewrite Hy. cbn. rewrite Hs.
  destruct (decide (a <= v < a + n)) as [Hin|Hout].
  - specialize (Himg (v - a) ltac:(lia)). replace (a + (v - a)) with v in Himg by lia. rewrite Hy in Himg. injection Himg as ->.
    rewrite decide_True by lia. do 2 f_equal. lia.
  - rewrite decide_False; [done|]. intros Hyx. apply Hout.
    specialize (Himg (y - x) ltac:(lia)). replace (x + (y - x)) with y in Himg by lia.
    assert (v = a + (y - x)) as -> by (eapply (mem_no_alias p); eauto; unfold in_range; lia). lia.
Qed.

Lemma vbyte_same p p' s a : (forall a, pt_image (pr_pTable p') a = pt_image (pr_pTable p) a) -> vbyte p' s a = vbyte p s a.
Proof. intros Hi. unfold vbyte. by rewrite Hi. Qed.

Lemma stored_split p p1 s s1 s2 a b n data :
  (forall v, pt_image (pr_pTable p1) v = pt_image (pr_pTable p) v) -> pr_system p1 = pr_system p -> a < b < a + n ->
  stored p s s1 a (b - a) data 0 -> stored p1 s1 s2 b (a + n - b) data (b - a) -> stored p s s2 a n data 0.
Proof.
  intros Hi Hsys Hb H1 H2 v y Hv Hy Hlt.
  pose proof (H2 v y Hv ltac:(by rewrite Hi) ltac:(by rewrite Hsys)) as G2. rewrite !(vbyte_same p p1) in G2 by done.
  rewrite G2, (H1 v y Hv Hy Hlt). repeat case_decide; try lia; try done. f_equal. lia.
Qed.

Lemma writeMem_ok P c p s k a n f data :
  dc_inv c p s -> access_ok P c p k a n f (Z.of_nat (length data)) ->
  exists c' p' s', writeMem handleIpr P c (Some data) n a f None = Ok (NoFault, c', None) /\
    dc_inv c' p' s' /\ dc_same c p c' p' /\ stored p s s' a n data 0.
Proof.
  intros Hi Ha'. unfold writeMem. cbn [rbind]. set (c0 := with_dcache c 0 (dcache_access c) (dc_mem c)).
  assert (dc_inv c0 p s) as Hi0 by (destruct Hi; by split).
  assert (access_ok P c0 p k a n f (Z.of_nat (length data))) as Ha by (destruct Ha' as [[]]; split; try done; by split).
  destruct (access_parts _ _ _ _ _ _ _ _ Ha) as [H1 H2]. destruct (second_spec _ _ _ _ _ _ _ _ Ha) as (_ & _ & Hbr & Hbl & _ & _).
  set (b := secondAddr_of P a n) in *.
  pose proof (ao_flags _ _ _ _ _ _ _ _ Ha) as Hf. pose proof (ao_addr _ _ _ _ _ _ _ _ Ha) as Haa. pose proof (pp_line _ _ _ _ (ao_port _ _ _ _ _ _ _ _ Ha)) as [Hk _].
  assert (2 ^ k <= 2 ^ 12) by (apply Z.pow_le_mono_r; lia). pose proof (ao_size _ _ _ _ _ _ _ _ Ha) as Hn.
  assert (forall r, _flags r = f -> isLockedRMW r = false) as Hrmw by (intros r Hr; unfold isLockedRMW; rewrite Hr; by apply (plain_none f)).
  destruct (Z.ltb_spec a b) as [Hab|Hba].
  - destruct (H2 Hab) as [Hp1 Hp2]. unfold u32. rewrite wrap_small by (unfold in_range; lia). cbn [writeMem_loop].
    destruct (write_part_ok P c0 p s k a (swrap 32 n) (b - a) f data 0 Hi0 Hp1) as (c1 & p1 & s1 & x1 & -> & Hi1 & Hs1 & Hf1 & _ & Hx1 & Hd1).
    cbn [rbind]. rewrite bool_decide_eq_true_2 by done. cbn [negb orb]. rewrite (proj2 (Z.leb_gt b a)) by lia.
    rewrite !swrap_id, (u64_small (a + n)) by (unfold in_range; lia). unfold u32. rewrite wrap_small by (unfold in_range; lia).
    destruct (write_part_ok P c1 p1 s1 k b n (a + n - b) f data (0 + (b - a)) Hi1) as (c2 & p2 & s2 & x2 & -> & Hi2 & Hs2 & Hf2 & _ & Hx2 & Hd2).
    { rewrite Z.add_0_l. apply Hp2. exact Hs1. }
    cbn [rbind]. rewrite bool_decide_eq_true_2 by done. cbn [negb orb]. rewrite Z.leb_refl, Hrmw by done. cbn [andb rbind].
    exists c2, p2, s2. split; [done|]. split; [done|]. split; [by eapply dc_same_trans|].
    destruct Hs1 as (Himg1 & Hsys1 & _). apply (stored_split p p1 s s1 s2 a b n data Himg1 Hsys1); [lia| |].
    + eapply part_stored; eauto; [apply Hi|lia|lia].
    + eapply part_stored; eauto; [apply Hi1|lia|lia].
  - cbn [writeMem_loop].
    destruct (write_part_ok P c0 p s k a (swrap 32 n) n f data 0 Hi0 (H1 Hba)) as (c1 & p1 & s1 & x1 & -> & Hi1 & Hs1 & Hf1 & _ & Hx1 & Hd1).
    cbn [rbind]. rewrite bool_decide_eq_true_2 by done. cbn [negb orb]. rewrite (proj2 (Z.leb_le b a)), Hrmw by done. cbn [andb rbind].
    exists c1, p1, s1. split; [done|]. split; [done|]. split; [exact Hs1|]. eapply part_stored; eauto; [apply Hi|lia|lia].
Qed.
End DataCorrect.

(** ** A simple memory behind the port

    The random part of the latencies is the list of numbers still to come; the
    fast path is the access of the only memory of the system; in atomic mode no
    response is queued. *)
#[export] Instance SimpleMemory_port : MemPort (SimpleMemory * list Z) := {
  sendAtomic m p :=
    let* '(lat, m', p) := sm_recvAtomic m.1 (hd 0 m.2) p in Ok (lat, (m', tail m.2), p);
  payload_of _ _ := 0;
  isMemAddr m a := Ok (contains (am_range (sm_abstract m.1)) a, m);
  phys_access m p :=
    let* _ := assert_ (isRequest (cmd p)) in
    let* '(a, p) := access (sm_abstract m.1) p in Ok ((with_abstract m.1 a, m.2), p);
}.

(** A memory takes whatever lies in its range. *)
Definition whole_extent (rng : AddrRange) : Extent := mkExtent (ar_start rng) (ar_end rng + 1) 64 (2 ^ 16) 0.

#[export, refine] Instance SimpleMemory_port_laws : MemPortLaws (SimpleMemory * list Z) := {
  mp_spec m s := packetQueue m.1 = [] /\ exists bs, represents (sm_abstract m.1) bs s;
  mp_asks m p d := asks (sm_abstract m.1) p d;
  mp_extent m := whole_extent (am_range (sm_abstract m.1));
  mp_fast := True;
}.
Proof.
  - intros m s [Hpq [bs Hr]]. destruct (rp_range _ _ _ Hr). unfold in_range in *. cbn. lia.
  - intros m r c d H1 H2 H3 H4 H5 H6 (H7 & H8 & _) Hc. cbn in H7, H8.
    apply cpu_packet_asks; try (done || lia); by destruct Hc as [-> | ->].
  - intros m s p d [Hpq [bs Hr]] Ha. destruct (access_spec _ _ _ _ _ Hr Ha) as (m' & bs' & p' & He & Hr' & Hrng & Hd & Hans & Hx).
    pose proof (as_kind _ _ _ Ha) as [_ Hq]%andb_true_iff.
    cbn [sendAtomic SimpleMemory_port]. unfold sm_recvAtomic. rewrite He. cbn [rbind]. eexists _, _, p'. split; [done|].
    cbn. rewrite Hrng. split_and!; try done; [by exists bs'|by apply answered_served].
  - intros m s p d _ Hs Ha. by eexists _, m.
  - intros m s p d _ [Hpq [bs Hr]] Ha. destruct (access_spec _ _ _ _ _ Hr Ha) as (m' & bs' & p' & He & Hr' & Hrng & Hd & Hans & Hx).
    pose proof (as_kind _ _ _ Ha) as [_ Hq]%andb_true_iff. cbn [phys_access SimpleMemory_port]. rewrite Hq, He. cbn [rbind assert_].
    eexists _, p'. split; [done|]. cbn. rewrite Hrng. split_and!; try done; [by exists bs'|by apply answered_served].
Defined.

(** ** Properties *)

(** The processor's loads and stores act on one byte array: an ordinary
    store of at most a cache line to mapped memory succeeds, whether or not it
    is split at a line boundary, and an ordinary load afterwards succeeds and
    returns, byte for byte, what was stored at the addresses of the store and
    what was there before at all others, although they go through the page
    table, its cache and the packets of the memory. *)
Theorem store_then_load {M} `{MemPortLaws M} handleIpr P (c : DataCpu M) p s k a n f data b m g buf :
  dc_inv c p s -> ex_hi (mp_extent (dc_mem c)) <= physmem_totalSize (pr_system p) ->
  access_ok P c p k a n f (Z.of_nat (length data)) ->
  access_ok P c p k b m g (Z.of_nat (length buf)) ->
  exists c1 c2 buf', writeMem handleIpr P c (Some data) n a f None = Ok (NoFault, c1, None) /\
    readMem handleIpr P c1 b buf m g = Ok (NoFault, c2, buf') /\
    forall i, 0 <= i < m ->
      buf' !! Z.to_nat i = if decide (a <= b + i < a + n) then data !! Z.to_nat (b + i - a) else vbyte p s (b + i).
Proof.
  intros Hi Hhi Ha Hb.
  destruct (writeMem_ok handleIpr P c p s k a n f data Hi Ha) as (c1 & p1 & s1 & Hw & Hi1 & Hs1 & Hst).
  destruct (readMem_ok handleIpr P c1 p1 s1 k b m g buf Hi1) as (c2 & p2 & buf' & Hr & _ & _ & Hd).
  { by eapply access_same. }
  exists c1, c2, buf'. split; [done|]. split; [done|]. intros i Him. rewrite Hd, decide_True by lia.
  rewrite Z2Nat.id by lia. destruct Hs1 as (Himg & _). rewrite (vbyte_same p p1) by done.
  destruct (ao_reach _ _ _ _ _ _ _ _ Hb i Him) as (y & Hy & Hyr). pose proof (ao_addr _ _ _ _ _ _ _ _ Hb).
  rewrite (Hst (b + i) y); [|unfold in_range; lia|done|lia]. done.
Qed.

(** A process with two pages at 0x8000 and a processor with four pages of
    memory and 64-byte lines. *)
Definition dm_process0 : Process :=
  mkProcess (mkSystem 0 0x4000 [] false []) demo_table 0xbf000000 0xbefff000 0x800000.
Definition dm_process : Process :=
  match allocateMem dm_process0 0x8000 0x2000 false with Ok p => p | Err _ => dm_process0 end.
Definition dm_params : DataParams := mkDataParams 64 (u64 (Z.lnot 63)) false 0 0 0.
Definition dm_bytes : list Z := replicate (Z.to_nat 0x4000) 0.
Definition dm_abstract : AbstractMemory := mkAbstractMemory (AddrRange_plain 0 0x3fff) (Some dm_bytes) [] [].
Definition dm_memory : SimpleMemory * list Z :=
  (mkSimpleMemory dm_abstract 30 0 dzero [] false false false 1 2 false 0, []).
Definition dm_cpu : DataCpu (SimpleMemory * list Z) :=
  mkDataCpu (setThreadContext Request_0 0 0) (setThreadContext Request_0 0 0) false 0 false 0 false 0
    (mkTLB false EL0 false false false false false) (pr_pTable dm_process) dm_memory.
Definition dm_flags : Z := Z.lor MustBeOne AllowUnaligned.

Lemma dm_process_ok :
  mem_inv dm_process /\ physmem_totalSize (pr_system dm_process) = 0x4000 /\
  forall a, 0x8000 <= a < 0xa000 -> pt_image (pr_pTable dm_process) a = Some (a - 0x8000).
Proof.
  assert (mem_inv dm_process0) as H0 by (split; [done|split; done|done|done| |]; intros; cbn in *; discriminate).
  assert (forall u, 0x8000 <= u < 0x8000 + page_num 0x2000 * PageBytes -> pt_image (pr_pTable dm_process0) u = None) as Hfree.
  { intros u _. rewrite pt_image_ok by (split; done). done. }
  destruct (allocateMem_ok dm_process0 0x8000 0x2000 false H0 eq_refl ltac:(lia) ltac:(lia) eq_refl ltac:(vm_compute; congruence)
    (or_intror Hfree) ltac:(vm_compute; congruence)) as (t & He & Hi & Himg).
  assert (dm_process = with_mem dm_process0 (set_pagePtr (pr_system dm_process0) (pagePtr (pr_system dm_process0) + page_num 0x2000)) t) as ->
    by (unfold dm_process; by rewrite He).
  split; [done|]. split; [done|]. intros a Ha. cbn [pr_pTable with_mem]. rewrite Himg by (unfold in_range; lia).
  change (page_num 0x2000) with 2. change PageBytes with 4096. rewrite (proj2 (Z.leb_le _ _)), (proj2 (Z.ltb_lt _ _)) by lia. cbn [andb].
  done.
Qed.

Lemma dm_represents : represents dm_abstract dm_bytes (mkMemSpec (fun _ => 0) ∅).
Proof.
  constructor.
  - split; split; vm_compute; congruence.
  - reflexivity.
  - unfold dm_bytes. rewrite length_replicate, Z2Nat.id by lia. reflexivity.
  - intros i b Hb. apply lookup_replicate in Hb as [-> _]. reflexivity.
  - constructor.
  - intros c g. cbn [sp_reserved lockedAddrList dm_abstract]. rewrite lookup_empty.
    split; [done|]. intros Hin. by apply not_elem_of_nil in Hin.
Qed.

Lemma dm_inv : dc_inv dm_cpu dm_process (mkMemSpec (fun _ => 0) ∅).
Proof.
  constructor.
  - apply dm_process_ok.
  - reflexivity.
  - split; [reflexivity|]. exists dm_bytes. exact dm_represents.
  - split; reflexivity.
  - split; reflexivity.
  - reflexivity.
Qed.

Lemma dm_access a (n : nat) :
  0x8000 <= a -> a + Z.of_nat n <= 0xa000 -> (0 < n <= 64)%nat ->
  access_ok dm_params dm_cpu dm_process 6 a (Z.of_nat n) dm_flags (Z.of_nat n).
Proof.
  intros Ha Han Hn. constructor; [split; cbn; try done; lia|reflexivity|lia|lia|reflexivity|split; reflexivity| |lia].
  intros i Hi. destruct dm_process_ok as (_ & _ & Himg).
  exists (a + i - 0x8000). split; [apply Himg; lia|]. cbn [mp_extent SimpleMemory_port_laws whole_extent ex_lo ex_hi].
  cbn [sm_abstract fst dm_cpu dc_mem dm_memory am_range dm_abstract ar_start ar_end AddrRange_plain]. lia.
Qed.

(** A store across the page and line boundary at 0x9000, then an overlapping
    load. *)
Lemma store_then_load_witness :
  exists c1 c2 buf',
    writeMem (fun _ _ => Err Panic) dm_params dm_cpu (Some [1; 2; 3; 4]) 4 0x8ffe dm_flags None = Ok (NoFault, c1, None) /\
    readMem (fun _ _ => Err Panic) dm_params c1 0x8fff [0; 0; 0; 0] 4 dm_flags = Ok (NoFault, c2, buf') /\
    buf' !! 0%nat = Some 2 /\ buf' !! 1%nat = Some 3 /\ buf' !! 3%nat = Some 0.
Proof.
  destruct (store_then_load (fun _ _ => Err Panic) dm_params dm_cpu dm_process (mkMemSpec (fun _ => 0) ∅)
     6 0x8ffe 4 dm_flags [1; 2; 3; 4] 0x8fff 4 dm_flags [0; 0; 0; 0]) as (c1 & c2 & buf' & Hw & Hr & Hb).
  - exact dm_inv.
  - destruct dm_process_ok as (_ & -> & _). vm_compute. discriminate.
  - apply (dm_access 0x8ffe 4); lia.
  - apply (dm_access 0x8fff 4); lia.
  - exists c1, c2, buf'. split; [exact Hw|]. split; [exact Hr|].
    split; [apply (Hb 0); lia|]. split; [apply (Hb 1); lia|]. pose proof (Hb 3 ltac:(lia)) as H3.
    rewrite decide_False in H3 by lia. unfold vbyte in H3. rewrite (proj2 (proj2 dm_process_ok)) in H3 by lia. exact H3.
Defined.

(** An ordinary load from an address whose page is not mapped returns a
    page-table fault for the address, and the memory, the buffer and the mapping
    stay as they were. *)
Theorem unmapped_load_faults {M} `{MemPortLaws M} handleIpr P (c : DataCpu M) p s k a n f data :
  dc_inv c p s -> cacheLineSize P = 2 ^ k -> 0 <= k <= 12 -> 0 < n <= 2 ^ k -> 0 <= a -> a + n < 2 ^ 64 ->
  plain_flags f = true -> align_ok (dc_tlb c) f a = true -> pt_image (pr_pTable p) a = None ->
  exists c', readMem handleIpr P c a data n f = Ok (GenericPageTableFault a, c', data) /\
    dc_mem c' = dc_mem c /\ (forall v, pt_image (dc_pTable c') v = pt_image (dc_pTable c) v).
Proof.
  intros Hi Hl Hk Hn Ha Han Hf Hal Hx. pose proof Hi as [Hp Ht Hm Hrr Hwr Ha64]. unfold readMem. cbn [readMem_loop].
  set (n1 := if a <? _ then _ else n). unfold read_part. cbn [dc_read_req dc_tlb dc_pTable with_dcache].
  destruct (setVirt_facts (dc_read_req c) 0 a n1 f (dataMasterId P) (instAddr P) (dp_now P) Hrr Hf) as (Rf & Rok & Rv & Rs & Rp & Rn).
  rewrite Ht. destruct (translateSe_ok (dc_tlb c) p _ a f Read Hp Ha64 Rv Rf Hf Hal Rp) as (t' & -> & Hp' & Hti). rewrite Hx. cbn [rbind].
  rewrite decide_False by done. cbn [rbind]. rewrite bool_decide_eq_false_2 by done. cbn [negb dc_read_req with_table with_read_req].
  assert (rq_isPrefetch (setVirt (dc_read_req c) 0 a n1 f (dataMasterId P) (instAddr P) (dp_now P)) = false) as ->
    by (unfold rq_isPrefetch; rewrite Rf; by apply (plain_none f)).
  eexists. split; [done|]. split; [done|]. exact Hti.
Qed.

Lemma unmapped_load_faults_witness :
  exists c', readMem (fun _ _ => Err Panic) dm_params dm_cpu 0x20000 [0; 0] 2 dm_flags =
    Ok (GenericPageTableFault 0x20000, c', [0; 0]) /\ dc_mem c' = dc_mem dm_cpu.
Proof.
  destruct (unmapped_load_faults (fun _ _ => Err Panic) dm_params dm_cpu dm_process (mkMemSpec (fun _ => 0) ∅) 6 0x20000 2 dm_flags [0; 0]
     dm_inv eq_refl ltac:(lia) ltac:(lia) ltac:(lia) ltac:(lia) eq_refl eq_refl) as (c' & He & Hm & _).
  - rewrite mem_image by (apply dm_process_ok || (unfold in_range; lia)). vm_compute. reflexivity.
  - exists c'. split; [exact He|exact Hm].
Defined.
