(* ===== verification/AddrMap.v ===== *)
(** * Building address maps

    The maps of [base/addr_range_map.hh] are filled range by range and read back
    in order, merging the stripes of interleaved chunks ([mem/physical.cc],
    [mem/xbar.cc]).  This file has the lemmas on ranges that may share a map, on
    inserting them, on which entry owns an address, and on how a sorted map
    falls into plain ranges and complete chunks. *)
From stdpp Require Import sorting.
From S2P Require Import Prelude IntMath AddrRange.

(** ** Definitions *)

(** The last range of a list, [intlv_ranges.back()], merges with [r]. *)
Definition back_merges (intlv : list AddrRange) (r : AddrRange) : bool :=
  match last intlv with Some b => mergesWith b r | None => false end.

(** The loop that collects the ranges of a map in order, the stripes of a chunk
    merged; [keep] tells which ranges are wanted. *)
Fixpoint merge_ranges (keep : AddrRange -> result bool) (tree : list AddrRange) (ranges intlv : list AddrRange)
    : result (list AddrRange) :=
  let add ranges r := let* b := keep r in Ok (if b : bool then ranges ++ [r] else ranges) in
  match tree with
  | [] =>
      match intlv with
      | [] => Ok ranges
      | _ => let* r := AddrRange_merge intlv in add ranges r
      end
  | r :: tree =>
      if interleaved r then
        if negb (match intlv with [] => true | _ => false end) && negb (back_merges intlv r) then
          let* x := AddrRange_merge intlv in
          let* ranges := add ranges x in
          merge_ranges keep tree ranges [r]
        else merge_ranges keep tree ranges (intlv ++ [r])
      else
        let* ranges := add ranges r in
        merge_ranges keep tree ranges intlv
  end.

(** ** Sorted lists *)

Lemma fst_lookup {A B} (l : list (A * B)) j x : l.*1 !! j = Some x <-> exists y, l !! j = Some (x, y).
Proof.
  rewrite list_lookup_fmap. destruct (l !! j) as [[x' y]|]; cbn; [|by naive_solver].
  split; [intros [= ->]; by exists y|by intros (? & [= -> _])].
Qed.

Lemma sorted_lookup {A} (R : relation A) l i j x y :
  StronglySorted R l -> (i < j)%nat -> l !! i = Some x -> l !! j = Some y -> R x y.
Proof.
  intros Hs. revert i j. induction Hs as [|z l Hs IH Hall]; intros i j Hij Hx Hy; [done|].
  destruct j as [|j]; [lia|]. destruct i as [|i]; cbn in Hx, Hy.
  - injection Hx as ->. by eapply Forall_lookup_1.
  - apply (IH i j); (lia || done).
Qed.

Lemma sorted_filter {A} (R : relation A) (P : A -> Prop) `{forall x, Decision (P x)} l :
  StronglySorted R l -> StronglySorted R (filter P l).
Proof.
  induction 1 as [|z l Hs IH Hall]; [constructor|]. rewrite filter_cons. case_decide; [|done].
  constructor; [done|]. apply Forall_forall. intros y Hy. apply list_elem_of_filter in Hy as [_ Hy].
  by eapply Forall_forall in Hall.
Qed.

Lemma filter_keeps {A} (P : A -> Prop) `{forall x, Decision (P x)} (l : list A) : (forall x, x ∈ l -> P x) -> filter P l = l.
Proof.
  induction l as [|x l IH]; intros Hp; [done|]. rewrite filter_cons, decide_True by (apply Hp; apply list_elem_of_here).
  f_equal. apply IH. intros y Hy. apply Hp. by apply list_elem_of_further.
Qed.

Lemma filter_drops {A} (P : A -> Prop) `{forall x, Decision (P x)} (l : list A) : (forall x, x ∈ l -> ~ P x) -> filter P l = [].
Proof.
  induction l as [|x l IH]; intros Hp; [done|]. rewrite filter_cons, decide_False by (apply Hp; apply list_elem_of_here).
  apply IH. intros y Hy. apply Hp. by apply list_elem_of_further.
Qed.

(** ** Inserting into the address map *)

Definition apart (x y : AddrRange) : Prop := forall a, in_bounds x a -> in_bounds y a -> False.

(** Two ranges that may be in one map: stripes of one chunk, or disjoint. *)
Definition compatible (x y : AddrRange) : Prop :=
  (interleaved x = true /\ mergesWith x y = true /\ intlvMatch x <> intlvMatch y) \/ apart x y.

(** A range the memories of a system may have: valid, no more than 8 bits of
    interleaving, stripes of more than a byte, not all of the address space;
    the first address belongs to the first stripe. *)
Record range_ok (r : AddrRange) : Prop := {
  ro_wf : ar_wf r;
  ro_bits : intlvBits r <= 8;
  ro_size : ar_end r - ar_start r + 1 < 2 ^ 64;
  ro_wide : interleaved r = true -> ar_size r <> 1;
  ro_first : contains r (ar_start r) = true -> intlvMatch r <= 0;
}.

Lemma compatible_sym x y : compatible x y -> compatible y x.
Proof.
  intros [(Hi & Hm & Hne)|Ha]; [left|right; intros a Hy Hx; by apply (Ha a)].
  apply mergesWith_iff in Hm as E. split_and!; [by rewrite E|apply mergesWith_iff; rewrite E; by destruct x|done].
Qed.

Lemma ar_size_eq r :
  0 <= ar_end r - ar_start r -> ar_end r - ar_start r + 1 < 2 ^ 64 -> 0 <= intlvBits r ->
  ar_size r = (ar_end r - ar_start r + 1) / 2 ^ intlvBits r.
Proof.
  intros H1 H2 H3. unfold ar_size.
  rewrite (u64_small (ar_end r - ar_start r)) by (unfold in_range; lia).
  rewrite u64_small by (unfold in_range; lia). by rewrite Z.shiftr_div_pow2.
Qed.

Lemma plain_size r :
  interleaved r = false -> 0 <= ar_end r - ar_start r -> ar_end r - ar_start r + 1 < 2 ^ 64 ->
  ar_size r = ar_end r - ar_start r + 1.
Proof.
  intros Hi H1 H2. unfold interleaved in Hi. apply negb_false_iff, Z.eqb_eq in Hi.
  rewrite ar_size_eq, Hi by lia. apply Z.div_1_r.
Qed.

(** Ranges that may share a map do not intersect. *)
Lemma intersects_compatible x r : range_ok x -> range_ok r -> compatible x r -> intersects x r = Ok false.
Proof.
  intros Hx Hr [(Hi & Hm & Hne)|Ha]; unfold intersects.
  - assert (interleaved r = true) as Hir by (apply mergesWith_iff in Hm; by rewrite Hm).
    rewrite Hi, Hm. cbn [negb andb]. case_match; [done|].
    rewrite (proj2 (Z.eqb_neq _ _) (ro_wide _ Hr Hir)), (proj2 (Z.eqb_neq _ _) Hne). done.
  - pose proof (wf_valid _ (ro_wf _ Hr)). pose proof (wf_valid _ (ro_wf _ Hx)).
    destruct (Z.ltb_spec (ar_end r) (ar_start x)), (Z.ltb_spec (ar_end x) (ar_start r)); try done. exfalso.
    destruct (decide (ar_start x <= ar_start r)).
    + apply (Ha (ar_start r)); unfold in_bounds; lia.
    + apply (Ha (ar_start x)); unfold in_bounds; lia.
Qed.

Section Insert.
Context {V : Type}.
Implicit Types (tree : list (AddrRange * V)).

Lemma no_overlap tree r :
  range_ok r -> Forall range_ok tree.*1 -> Forall (fun x => compatible x r) tree.*1 ->
  forall j, (j < length tree)%nat -> exists x, key_at tree j = Ok x /\ intersects x r = Ok false.
Proof.
  intros Hr Ho Hc j Hj. destruct (lookup_lt_is_Some_2 tree.*1 j) as [x Hx]; [by rewrite length_fmap|].
  exists x. split; [by apply key_at_ok|]. apply intersects_compatible; [by eapply Forall_lookup_1|done|by eapply (Forall_lookup_1 _ _ _ _ Hc)].
Qed.

Lemma find_back_none tree r orig i :
  range_ok r -> Forall range_ok tree.*1 -> Forall (fun x => compatible x r) tree.*1 -> (i < length tree)%nat ->
  find_back tree r orig i = Ok None.
Proof.
  intros Hr Ho Hc. pose proof (no_overlap tree r Hr Ho Hc) as Hk. induction i as [|i IH]; intros Hi; cbn [find_back].
  - destruct (Hk O Hi) as (x & -> & Hx). cbn [rbind]. by rewrite Hx.
  - destruct (Hk (S i) Hi) as (x & -> & Hx). cbn [rbind]. case_match; [|by rewrite Hx].
    destruct (Hk i) as (y & -> & Hy); [lia|]. cbn [rbind]. rewrite Hy. cbn [rbind]. apply IH. lia.
Qed.

Lemma arm_insert_ok tree r i :
  range_ok r -> Forall range_ok tree.*1 -> Forall (fun x => compatible x r) tree.*1 ->
  arm_insert tree r i = Ok (map_insert tree r i, true).
Proof.
  intros Hr Ho Hc. unfold arm_insert, arm_intersect.
  assert (arm_find tree r = Ok None) as ->; [|done]. unfold arm_find.
  destruct tree as [|e tree'] eqn:Et; [done|]. rewrite <- Et in *. pose proof (no_overlap tree r Hr Ho Hc) as Hk.
  pose proof (upper_bound_length tree r). destruct (upper_bound tree r) as [|j].
  - destruct (Hk O) as (x & -> & Hx); [rewrite Et; cbn; lia|]. cbn [rbind]. by rewrite Hx.
  - destruct (Hk j) as (x & -> & Hx); [lia|]. cbn [rbind]. rewrite Hx. cbn [rbind].
    case_match; [|done]. apply find_back_none; [done..|lia].
Qed.

Lemma map_insert_perm tree r i :
  Forall (fun x => compatible x r) tree.*1 -> Forall range_ok tree.*1 -> range_ok r ->
  map_insert tree r i ≡ₚ (r, i) :: tree.
Proof.
  intros Hc Ho Hr. induction tree as [|[x v] tree IH]; cbn [map_insert]; [done|].
  rewrite fmap_cons in Hc, Ho. apply Forall_cons in Hc as [Hx Hc], Ho as [Hxo Ho].
  case_match eqn:E1; [done|]. case_match eqn:E2; [rewrite IH by done; by constructor|]. exfalso.
  unfold ar_lt in E1, E2. destruct (Z.eqb_spec (ar_start r) (ar_start x)) as [Es|Es]; cbn in E1.
  - rewrite Es, Z.eqb_refl in E2. cbn in E2. apply Z.ltb_ge in E1, E2.
    destruct Hx as [(_ & _ & Hne)|Ha]; [cbn in *; lia|].
    pose proof (wf_valid _ (ro_wf _ Hr)). pose proof (wf_valid _ (ro_wf _ Hxo)).
    apply (Ha (ar_start x)); unfold in_bounds; cbn in *; lia.
  - rewrite (proj2 (Z.eqb_neq _ _)) in E2 by done. cbn in E2. apply Z.ltb_ge in E1, E2. lia.
Qed.

Definition key_lt (x y : AddrRange * V) : Prop := ar_lt x.1 y.1 = true.

Lemma map_insert_sorted tree r i :
  Forall (fun x => compatible x r) tree.*1 -> Forall range_ok tree.*1 -> range_ok r ->
  StronglySorted key_lt tree -> StronglySorted key_lt (map_insert tree r i).
Proof.
  intros Hc Ho Hr Hs. induction tree as [|[x v] tree IH]; cbn [map_insert]; [repeat constructor|].
  rewrite fmap_cons in Hc, Ho. apply Forall_cons in Hc as [Hx Hc], Ho as [Hxo Ho]. apply StronglySorted_inv in Hs as [Hs Hall].
  case_match eqn:E1; [|case_match eqn:E2].
  - constructor; [by constructor|]. constructor; [done|]. eapply Forall_impl; [done|].
    intros y Hy. unfold key_lt in *. by eapply ar_lt_trans.
  - constructor; [by apply IH|]. rewrite map_insert_perm by done. by constructor.
  - by constructor.
Qed.

(** A sorted list of compatible ranges is a well-formed map. *)
Lemma sorted_tree_wf tree :
  StronglySorted key_lt tree -> Forall range_ok tree.*1 ->
  (forall x y, x ∈ tree.*1 -> y ∈ tree.*1 -> x = y \/ compatible x y) -> tree_wf tree.
Proof.
  intros Hs Ho Hc.
  assert (forall i j x y, (i < j)%nat -> tree.*1 !! i = Some x -> tree.*1 !! j = Some y -> ar_lt x y = true) as Hlt.
  { intros i j x y Hij Hx Hy. apply fst_lookup in Hx as [vx Hx], Hy as [vy Hy].
    by apply (sorted_lookup _ _ i j (x, vx) (y, vy) Hs). }
  split.
  - exact Hlt.
  - intros i x Hx. pose proof (Forall_lookup_1 _ _ _ _ Ho Hx) as Hr. split; [apply (wf_start _ (ro_wf _ Hr))|apply (wf_valid _ (ro_wf _ Hr))].
  - intros i j x y Hx Hy. destruct (Hc x y) as [->|[(Hi & Hm & _)|Ha]]; try (by eapply list_elem_of_lookup_2).
    + left. destruct (Nat.lt_trichotomy i j) as [Hlt'|[?|Hlt']]; [|done|]; exfalso.
      all: pose proof (Hlt _ _ _ _ Hlt' ltac:(done) ltac:(done)) as E; revert E;
        unfold ar_lt; rewrite Z.eqb_refl; cbn; rewrite Z.ltb_lt; lia.
    + right. by left.
    + right. by right.
Qed.

(** The value of the entry that owns an address. *)
Fixpoint owner (tree : list (AddrRange * V)) (a : Z) : option V :=
  match tree with
  | [] => None
  | (r, i) :: tree => if contains r a then Some i else owner tree a
  end.

Lemma owner_spec tree a :
  match owner tree a with
  | Some i => exists j r, tree !! j = Some (r, i) /\ contains r a = true
  | None => forall j r i, tree !! j = Some (r, i) -> contains r a = false
  end.
Proof.
  induction tree as [|[r i] tree IH]; cbn; [done|]. destruct (contains r a) eqn:Hc.
  { by exists O, r. }
  destruct (owner tree a) as [i'|].
  - destruct IH as (j & r' & Hj & Hc'). by exists (S j), r'.
  - intros [|j] r' i' Hj; cbn in Hj; [by simplify_eq|by eapply IH].
Qed.

Lemma owner_entry tree j r i a :
  tree_wf tree -> tree !! j = Some (r, i) -> contains r a = true -> owner tree a = Some i.
Proof.
  intros Hwf Hj Hc. pose proof (owner_spec tree a) as Ho. destruct (owner tree a) as [i'|].
  - destruct Ho as (j' & r' & Hj' & Hc'). f_equal.
    assert (j' = j) as -> by (eapply (tree_unique tree); [done|apply fst_lookup; eauto..| |]; done).
    congruence.
  - by rewrite (Ho _ _ _ Hj) in Hc.
Qed.

(** The first address of an interleaved chunk belongs to the first stripe. *)
Definition first_stripes tree : Prop :=
  forall j r i, tree !! j = Some (r, i) -> contains r (ar_start r) = true -> intlvMatch r <= 0.

Lemma find_owner tree j r i a :
  tree_wf tree -> first_stripes tree -> is_u64 a -> tree !! j = Some (r, i) -> contains r a = true ->
  arm_find_addr tree a = Ok (Some j).
Proof.
  intros Hwf Hf Ha Hj Hc. eapply arm_find_addr_found; [done|done|apply fst_lookup; eauto|done|].
  apply contains_iff in Hc as Hb. destruct Hb as [Hb _].
  destruct (decide (ar_start r = a)) as [<-|]; [right; by eapply Hf|left; lia].
Qed.

Lemma find_no_owner tree a :
  is_u64 a -> owner tree a = None -> arm_find_addr tree a = Ok None.
Proof.
  intros Ha Ho. pose proof (owner_spec tree a) as Hs. rewrite Ho in Hs.
  destruct (arm_find_addr_total tree a Ha) as [o Hf]. destruct o as [j|]; [|done].
  destruct (arm_find_addr_sound _ _ _ Ha Hf) as (r & Hr & Hc). apply fst_lookup in Hr as [i Hi].
  by rewrite (Hs _ _ _ Hi) in Hc.
Qed.

(** ** Chunks and groups *)

(** The stripes of a chunk, in order. *)
Definition chunk_ranges (r : AddrRange) : list AddrRange :=
  (fun x => with_match r (Z.of_nat x)) <$> seq 0 (Z.to_nat (2 ^ intlvBits r)).

(** A group of entries of the map: a plain range or a complete chunk. *)
Definition is_chunk (g : list (AddrRange * V)) : Prop :=
  exists r, interleaved r = true /\ 0 <= intlvBits r <= 8 /\ g.*1 = chunk_ranges r.

Definition is_group (g : list (AddrRange * V)) : Prop :=
  (exists r i, g = [(r, i)] /\ interleaved r = false) \/ is_chunk g.

Lemma chunk_nonempty g : is_chunk g -> g <> [].
Proof.
  intros (r & _ & Hb & Hg) ->. unfold chunk_ranges in Hg. assert (0 < 2 ^ intlvBits r) by lia.
  destruct (Z.to_nat (2 ^ intlvBits r)) eqn:E; [lia|done].
Qed.

Lemma merge_check_chunk r n : forall a,
  0 <= intlvBits r -> Z.of_nat a + Z.of_nat n <= 256 ->
  merge_check (with_match r 0) (Z.of_nat a) ((fun x => with_match r (Z.of_nat x)) <$> seq a n) = Ok ().
Proof.
  induction n as [|n IH]; intros a Hb Ha; [done|]. cbn [seq]. rewrite fmap_cons. cbn [merge_check].
  assert (mergesWith (with_match r 0) (with_match r (Z.of_nat a)) = true) as -> by (by apply mergesWith_iff).
  cbn [negb with_match intlvMatch]. rewrite Z.eqb_refl. cbn [negb].
  destruct n as [|n]; [done|]. unfold u8. rewrite wrap_small by (unfold in_range; lia).
  replace (Z.of_nat a + 1) with (Z.of_nat (S a)) by lia. apply IH; [done|lia].
Qed.

Lemma merge_eq r0 rest :
  Z.of_nat (length (r0 :: rest)) = u64 (Z.shiftl 1 (intlvBits r0)) ->
  merge_check (with_match r0 0) 0 (r0 :: rest) = Ok () ->
  AddrRange_merge (r0 :: rest) = Ok (AddrRange_plain (ar_start r0) (ar_end r0)).
Proof.
  intros Hl Hc. unfold AddrRange_merge. unfold with_match in Hc. cbn [intlvBits]. rewrite Hl, Z.eqb_refl. cbn [negb].
  by rewrite Hc.
Qed.

Lemma merge_chunk r :
  0 <= intlvBits r <= 8 -> AddrRange_merge (chunk_ranges r) = Ok (AddrRange_plain (ar_start r) (ar_end r)).
Proof.
  intros Hb. unfold chunk_ranges. assert (0 < 2 ^ intlvBits r <= 2 ^ 8) as Hp by (split; [lia|apply Z.pow_le_mono_r; lia]).
  pose proof (merge_check_chunk r (Z.to_nat (2 ^ intlvBits r)) 0 ltac:(lia) ltac:(lia)) as Hc.
  destruct (Z.to_nat (2 ^ intlvBits r)) as [|n] eqn:En; [lia|].
  cbn [seq] in *. rewrite fmap_cons in *. apply (merge_eq (with_match r (Z.of_nat 0))); [|exact Hc].
  cbn [length with_match intlvBits]. rewrite length_fmap, length_seq, Z.shiftl_1_l, u64_small by (unfold in_range; lia). lia.
Qed.

Lemma elem_chunk r x : x ∈ chunk_ranges r -> mergesWith r x = true /\ interleaved x = interleaved r.
Proof. unfold chunk_ranges. intros (n & -> & _)%list_elem_of_fmap. split; [by apply mergesWith_iff|done]. Qed.

Lemma merges_trans r x y : mergesWith r x = true -> mergesWith r y = true -> mergesWith x y = true.
Proof. intros Hx%mergesWith_iff Hy%mergesWith_iff. apply mergesWith_iff. rewrite Hx, Hy. done. Qed.

(** A chunk that waits does not merge with a range it does not have. *)
Lemma chunk_no_merge pend r :
  is_chunk pend -> intlvMatch r < 2 ^ intlvBits r -> 0 <= intlvMatch r -> r ∉ pend.*1 -> back_merges pend.*1 r = false.
Proof.
  intros (r0 & Hi & Hb & Hg) Hm1 Hm2 Hr. unfold back_merges. destruct (last pend.*1) as [b|] eqn:Hl; [|done].
  apply not_true_iff_false. intros Hm. apply Hr. rewrite Hg in *.
  assert (b ∈ chunk_ranges r0) as Hb'.
  { apply last_Some in Hl as [l' ->]. set_solver. }
  apply elem_chunk in Hb' as [Hb' _]. apply mergesWith_iff in Hb', Hm. unfold chunk_ranges. apply list_elem_of_fmap.
  exists (Z.to_nat (intlvMatch r)). rewrite Z2Nat.id by done. split; [by rewrite Hm, Hb'|].
  apply elem_of_seq. rewrite Hm, Hb' in Hm1. cbn in Hm1. lia.
Qed.

Lemma chunk_match r x : 0 <= intlvBits r -> x ∈ chunk_ranges r -> 0 <= intlvMatch x < 2 ^ intlvBits x.
Proof.
  intros Hb. unfold chunk_ranges. intros (n & -> & Hn)%list_elem_of_fmap. apply elem_of_seq in Hn. cbn. lia.
Qed.

(** ** A sorted map falls into groups *)

Definition full (tree : list (AddrRange * V)) : Prop :=
  forall r, r ∈ tree.*1 -> interleaved r = true -> forall x, 0 <= x < 2 ^ intlvBits r -> with_match r x ∈ tree.*1.

Lemma ar_lt_between r n y :
  ar_lt (with_match r n) y = true -> ar_lt y (with_match r (n + 1)) = true -> False.
Proof.
  unfold ar_lt. cbn. destruct (Z.eqb_spec (ar_start r) (ar_start y)) as [E|E]; cbn.
  - rewrite <- E, Z.eqb_refl. cbn. rewrite !Z.ltb_lt. lia.
  - rewrite (proj2 (Z.eqb_neq (ar_start y) _)) by done. cbn. rewrite !Z.ltb_lt. lia.
Qed.

Lemma ar_lt_match r x y : ar_lt (with_match r x) (with_match r y) = true <-> x < y.
Proof. unfold ar_lt. cbn. rewrite Z.eqb_refl. cbn. by rewrite Z.ltb_lt. Qed.

Lemma sorted_keys tree i j x y :
  StronglySorted key_lt tree -> tree.*1 !! i = Some x -> tree.*1 !! j = Some y -> (i < j)%nat -> ar_lt x y = true.
Proof.
  intros Hs Hx Hy Hij. apply fst_lookup in Hx as [vx Hx], Hy as [vy Hy].
  by apply (sorted_lookup _ _ i j (x, vx) (y, vy) Hs).
Qed.

Lemma chunk_prefix r i tree :
  StronglySorted key_lt ((r, i) :: tree) -> range_ok r -> interleaved r = true -> full ((r, i) :: tree) ->
  forall n, Z.of_nat n < 2 ^ intlvBits r -> ((r, i) :: tree).*1 !! n = Some (with_match r (Z.of_nat n)).
Proof.
  intros Hs Hr Hi Hf. pose proof (wf_match _ (ro_wf _ Hr)) as Hm.
  assert (forall x, 0 <= x < 2 ^ intlvBits r -> exists k, ((r, i) :: tree).*1 !! k = Some (with_match r x)) as Hk.
  { intros x Hx. apply list_elem_of_lookup_1. apply Hf; [apply list_elem_of_here|done|done]. }
  assert (r = with_match r (intlvMatch r)) as Er by (by destruct r).
  induction n as [|n IH]; intros Hn.
  - destruct (Hk 0) as [[|k] Hk0]; [lia|done|].
    pose proof (sorted_keys _ 0 (S k) r _ Hs eq_refl Hk0 ltac:(lia)) as Hlt. rewrite Er in Hlt at 1.
    apply ar_lt_match in Hlt. lia.
  - specialize (IH ltac:(lia)). destruct (Hk (Z.of_nat (S n))) as [k Hkn]; [lia|].
    destruct (Nat.lt_trichotomy k (S n)) as [Hlt|[->|Hlt]]; [exfalso|done|exfalso].
    + destruct (decide (k = n)) as [->|Hne].
      * rewrite Hkn in IH. injection IH as E. lia.
      * pose proof (sorted_keys _ k n _ _ Hs Hkn IH ltac:(lia)) as H. apply ar_lt_match in H. lia.
    + destruct (lookup_lt_is_Some_2 ((r, i) :: tree).*1 (S n)) as [y Hy].
      { apply lookup_lt_Some in Hkn. lia. }
      apply (ar_lt_between r (Z.of_nat n) y).
      * apply (sorted_keys _ n (S n) _ _ Hs IH Hy). lia.
      * replace (Z.of_nat n + 1) with (Z.of_nat (S n)) by lia. by apply (sorted_keys _ (S n) k _ _ Hs Hy Hkn).
Qed.

Lemma sorted_nodup tree : StronglySorted key_lt tree -> NoDup tree.*1.
Proof.
  intros Hs. apply NoDup_alt. intros i j x Hi Hj.
  assert (forall k l, tree.*1 !! k = Some x -> tree.*1 !! l = Some x -> ~ (k < l)%nat) as H.
  { intros k l Hk Hl Hkl. pose proof (sorted_keys _ _ _ _ _ Hs Hk Hl Hkl) as E. revert E.
    unfold ar_lt. rewrite Z.eqb_refl. cbn. rewrite Z.ltb_lt. lia. }
  pose proof (H i j Hi Hj). pose proof (H j i Hj Hi). lia.
Qed.

Lemma split_group r i tree :
  StronglySorted key_lt ((r, i) :: tree) -> Forall range_ok ((r, i) :: tree).*1 -> full ((r, i) :: tree) ->
  exists g rest, (r, i) :: tree = g ++ rest /\ is_group g /\ g <> [] /\ full rest.
Proof.
  intros Hs Ho Hf. pose proof (Forall_inv Ho) as Hr. cbn [fst] in Hr. destruct (interleaved r) eqn:Hi.
  - assert (0 < 2 ^ intlvBits r) as Hpos by (pose proof (wf_bits _ (ro_wf _ Hr)); lia).
    pose proof (chunk_prefix r i tree Hs Hr Hi Hf) as Hp. set (N := Z.to_nat (2 ^ intlvBits r)) in *.
    assert ((take N ((r, i) :: tree)).*1 = chunk_ranges r) as Hg.
    { apply list_eq. intros n. rewrite fmap_take. unfold chunk_ranges. fold N. rewrite list_lookup_fmap.
      destruct (decide (n < N)%nat) as [Hn|Hn].
      - rewrite lookup_take_lt, Hp, lookup_seq_lt by lia. done.
      - rewrite lookup_take_ge by lia. by rewrite lookup_seq_ge by lia. }
    exists (take N ((r, i) :: tree)), (drop N ((r, i) :: tree)). rewrite take_drop. split_and!; [done|..].
    + right. exists r. split_and!; try done; [apply (wf_bits _ (ro_wf _ Hr))|apply (ro_bits _ Hr)].
    + destruct N eqn:E; [lia|done].
    + intros r' Hr' Hi' x Hx.
      assert (((r, i) :: tree).*1 = chunk_ranges r ++ (drop N ((r, i) :: tree)).*1) as Hsp
        by (rewrite <- Hg, <- fmap_app, take_drop; done).
      pose proof (sorted_nodup _ Hs) as Hnd. rewrite Hsp in Hnd. apply NoDup_app in Hnd as (_ & Hnd & _).
      assert (with_match r' x ∈ ((r, i) :: tree).*1) as Hin.
      { apply Hf; [|done|done]. rewrite Hsp. apply elem_of_app. by right. }
      rewrite Hsp in Hin. apply elem_of_app in Hin as [Hin|Hin]; [exfalso|done].
      apply (Hnd r'); [|done]. apply elem_chunk in Hin as [Hm _]. apply mergesWith_iff in Hm.
      assert (range_ok r') as Hro.
      { rewrite Hsp in Ho. apply Forall_app in Ho as [_ Ho]. by eapply Forall_forall in Ho. }
      pose proof (wf_match _ (ro_wf _ Hro)). pose proof (wf_match_fits _ (ro_wf _ Hro) Hi').
      assert (r' = with_match r (intlvMatch r')) as E.
      { destruct r, r'. unfold with_match in *. cbn in *. congruence. }
      unfold chunk_ranges. apply list_elem_of_fmap. exists (Z.to_nat (intlvMatch r')). rewrite Z2Nat.id by done.
      split; [done|]. apply elem_of_seq. rewrite E in *. cbn in *. lia.
  - exists [(r, i)], tree. split_and!; [done|left; by exists r, i|done|].
    intros r' Hr' Hi' x Hx. assert (with_match r' x ∈ ((r, i) :: tree).*1) as Hin by (apply Hf; [by right|done|done]).
    rewrite fmap_cons in Hin. apply elem_of_cons in Hin as [E|Hin]; [|done]. cbn [fst] in E. rewrite <- E in Hi.
    change (interleaved r' = false) in Hi. congruence.
Qed.

Lemma grouped n : forall tree,
  (length tree <= n)%nat -> StronglySorted key_lt tree -> Forall range_ok tree.*1 -> full tree ->
  exists gs, tree = concat gs /\ Forall is_group gs.
Proof.
  induction n as [|n IH]; intros [|[r i] tree] Hl Hs Ho Hf; cbn [length] in Hl; try lia; try (by exists []).
  destruct (split_group r i tree Hs Ho Hf) as (g & rest & E & Hg & Hne & Hfr).
  rewrite E in *. rewrite fmap_app in Ho. apply Forall_app in Ho as [_ Ho].
  destruct (IH rest) as (gs & -> & Hgs); try done.
  - assert (length g <> 0)%nat by (by destruct g). assert (length ((r, i) :: tree) = length (g ++ rest)) as El by (by rewrite E).
    rewrite length_app in El. cbn [length] in El. lia.
  - by eapply StronglySorted_app_1_r.
  - exists (g :: gs). split; [done|by constructor].
Qed.

(** ** Merging the ranges of a map *)

Definition covered (l : list AddrRange) (a : Z) : Prop := Exists (fun r => contains r a = true) l.

(** The range of a group. *)
Definition group_range (g : list (AddrRange * V)) : AddrRange :=
  match g with
  | (r, _) :: _ => if interleaved r then AddrRange_plain (ar_start r) (ar_end r) else r
  | [] => AddrRange_plain 1 0
  end.

Lemma chunk_range g r :
  interleaved r = true -> 0 <= intlvBits r <= 8 -> g.*1 = chunk_ranges r ->
  group_range g = AddrRange_plain (ar_start r) (ar_end r).
Proof.
  intros Hi Hb Hg. assert (g <> []) by (apply chunk_nonempty; by exists r). destruct g as [|[x i] g]; [done|]. cbn.
  assert (x ∈ chunk_ranges r) as [Hm Hx]%elem_chunk by (rewrite <- Hg; apply list_elem_of_here).
  rewrite Hx, Hi. apply mergesWith_iff in Hm. by rewrite Hm.
Qed.

Lemma group_merge g : is_chunk g -> AddrRange_merge g.*1 = Ok (group_range g).
Proof. intros (r & Hi & Hb & Hg). by rewrite (chunk_range g r), Hg, merge_chunk. Qed.

Lemma group_plain g : is_group g -> interleaved (group_range g) = false.
Proof. intros [(r & i & -> & Hi)|(r & Hi & Hb & Hg)]; [cbn; by rewrite Hi|by rewrite (chunk_range g r)]. Qed.

Lemma group_covers g a :
  is_group g -> Forall range_ok g.*1 -> contains (group_range g) a = true <-> covered g.*1 a.
Proof.
  intros [(r & i & -> & Hi)|(r & Hi & Hb & Hg)] Hok.
  - cbn. rewrite Hi. unfold covered. cbn. rewrite Exists_cons, Exists_nil. naive_solver.
  - rewrite (chunk_range g r) by done. unfold covered. rewrite Hg in *.
    assert (0 < 2 ^ intlvBits r) as Hpos by lia.
    assert (ar_wf (with_match r 0)) as Hw.
    { assert (with_match r 0 ∈ chunk_ranges r) as Hin.
      { unfold chunk_ranges. apply list_elem_of_fmap. exists 0%nat. split; [done|]. apply elem_of_seq. lia. }
      apply (ro_wf _ (proj1 (Forall_forall _ _) Hok _ Hin)). }
    rewrite contains_iff, Exists_exists. cbn [AddrRange_plain ar_start ar_end]. split.
    + intros [Ha _]. pose proof (stripe_of_range _ a Hw Hi) as [H1 H2]. change (stripe_of _ a) with (stripe_of r a) in *. cbn in H2.
      exists (with_match r (stripe_of r a)). split; [|by apply contains_with_match].
      unfold chunk_ranges. apply list_elem_of_fmap. exists (Z.to_nat (stripe_of r a)). rewrite Z2Nat.id by done.
      split; [done|]. apply elem_of_seq. lia.
    + intros (x & Hx & Hc). unfold chunk_ranges in Hx. apply list_elem_of_fmap in Hx as (n & -> & _).
      apply contains_with_match in Hc as [Ha _]; [|done]. split; [done|]. intros E. by cbn in E.
Qed.

Section Merge.
Context (keep : AddrRange -> result bool) (keepb : AddrRange -> bool).
Context (Hkeep : forall r, interleaved r = false -> keep r = Ok (keepb r)).

Lemma merge_tail r l : forall rest ranges intlv b,
  Forall (fun x => mergesWith r x = true /\ interleaved x = true) l -> last intlv = Some b -> mergesWith r b = true ->
  merge_ranges keep (l ++ rest) ranges intlv = merge_ranges keep rest ranges (intlv ++ l).
Proof.
  induction l as [|x l IH]; intros rest ranges intlv b Hl Hb Hm; [by rewrite app_nil_r|].
  apply Forall_cons in Hl as [[Hx Hi] Hl]. cbn [app merge_ranges]. rewrite Hi.
  assert (back_merges intlv x = true) as -> by (unfold back_merges; rewrite Hb; by eapply merges_trans).
  rewrite andb_false_r. rewrite (IH rest ranges (intlv ++ [x]) x) by (done || by rewrite last_snoc). by rewrite <- app_assoc.
Qed.

(** The groups that wait. *)
Definition waiting (pend : list (AddrRange * V)) : list (list (AddrRange * V)) :=
  match pend with [] => [] | _ => [pend] end.

Definition kept (gs : list (list (AddrRange * V))) : list AddrRange :=
  filter (fun r => keepb r = true) (group_range <$> gs).

Lemma kept_app gs gs' : kept (gs ++ gs') = kept gs ++ kept gs'.
Proof. unfold kept. by rewrite fmap_app, filter_app. Qed.

Lemma kept_add ranges g :
  is_group g ->
  (let* b := keep (group_range g) in Ok (if b : bool then ranges ++ [group_range g] else ranges)) = Ok (ranges ++ kept [g]).
Proof.
  intros Hg. rewrite (Hkeep _ (group_plain g Hg)). cbn [rbind]. unfold kept. rewrite list_fmap_singleton, filter_cons.
  destruct (keepb (group_range g)); [rewrite decide_True by done|rewrite decide_False, app_nil_r by done]; done.
Qed.

Lemma merge_enter g rest ranges pend :
  is_chunk g -> pend = [] \/ is_chunk pend -> (forall r, r ∈ g.*1 -> r ∉ pend.*1) ->
  merge_ranges keep (g.*1 ++ rest) ranges pend.*1 =
  merge_ranges keep rest (ranges ++ kept (waiting pend)) g.*1.
Proof.
  intros Hg Hp Hn. pose proof (chunk_nonempty g Hg) as Hne. pose proof Hg as (r & Hi & Hb & Hgr).
  assert (Forall (fun x => mergesWith r x = true /\ interleaved x = true) g.*1) as Hall.
  { apply Forall_forall. intros x Hx. rewrite Hgr in Hx. apply elem_chunk in Hx as [? E]. by rewrite E. }
  destruct g as [|[x i] g]; [done|]. rewrite fmap_cons in *. cbn [fst] in *.
  assert (0 <= intlvMatch x < 2 ^ intlvBits x) as Hx by (apply (chunk_match r); [lia|rewrite <- Hgr; apply list_elem_of_here]).
  apply Forall_cons in Hall as [[Hmx Hix] Hall]. cbn [app merge_ranges]. rewrite Hix.
  destruct Hp as [->|Hp].
  - cbn [fmap list_fmap negb andb app waiting]. unfold kept. cbn [fmap list_fmap]. rewrite app_nil_r.
    by rewrite (merge_tail r g.*1 rest ranges [x] x).
  - rewrite (chunk_no_merge pend x Hp) by (lia || (apply Hn; apply list_elem_of_here)).
    pose proof (chunk_nonempty pend Hp) as Hpne. pose proof (group_merge pend Hp) as Hm.
    destruct pend as [|y pend]; [done|]. rewrite fmap_cons in *. cbn [negb andb]. rewrite Hm. cbn [rbind waiting].
    rewrite kept_add by (by right). cbn [rbind]. by rewrite (merge_tail r g.*1 rest _ [x] x).
Qed.

Lemma merge_groups gs : forall ranges pend,
  Forall is_group gs -> pend = [] \/ is_chunk pend -> NoDup (pend ++ concat gs).*1 ->
  exists out, merge_ranges keep (concat gs).*1 ranges pend.*1 = Ok out /\ out ≡ₚ ranges ++ kept (waiting pend ++ gs).
Proof.
  induction gs as [|g gs IH]; intros ranges pend Hgs Hp Hnd; cbn [concat] in *.
  { rewrite !app_nil_r in *. cbn [merge_ranges fmap list_fmap]. destruct Hp as [->|Hp].
    { exists ranges. unfold kept. cbn. by rewrite app_nil_r. }
    pose proof (group_merge pend Hp) as Hm. pose proof (kept_add ranges pend (or_intror Hp)) as Hk.
    pose proof (chunk_nonempty pend Hp). destruct pend as [|y pend]; [done|]. rewrite fmap_cons in *. rewrite Hm. cbn [rbind].
    rewrite Hk. by eexists. }
  apply Forall_cons in Hgs as [Hg Hgs]. rewrite !fmap_app in *. apply NoDup_app in Hnd as (N1 & N2 & N3).
  destruct Hg as [(r & i & -> & Hi)|Hg].
  - cbn [app fmap list_fmap fst] in *. cbn [merge_ranges]. rewrite Hi. apply NoDup_cons in N3 as [N4 N5].
    assert (group_range [(r, i)] = r) as Egr by (cbn; by rewrite Hi).
    pose proof (kept_add ranges [(r, i)] ltac:(left; by exists r, i)) as Hk. rewrite Egr in Hk. rewrite Hk. cbn [rbind].
    destruct (IH (ranges ++ kept [[(r, i)]]) pend Hgs Hp) as (out & -> & Hout).
    { rewrite fmap_app. apply NoDup_app. split_and!; [done| |done]. intros x Hx Hx'. apply (N2 x Hx). set_solver. }
    exists out. split; [done|]. rewrite Hout, <- app_assoc. apply Permutation_app_head.
    change ([(r, i)] :: gs) with ([[(r, i)]] ++ gs). rewrite !kept_app, !app_assoc.
    apply Permutation_app_tail, Permutation_app_comm.
  - rewrite (merge_enter g (concat gs).*1 ranges pend Hg Hp) by set_solver.
    destruct (IH (ranges ++ kept (waiting pend)) g Hgs) as (out & -> & Hout); [by right|by rewrite fmap_app|].
    exists out. split; [done|]. rewrite Hout, <- app_assoc. rewrite (kept_app (waiting pend) (g :: gs)).
    assert (waiting g = [g]) as -> by (pose proof (chunk_nonempty g Hg); by destruct g). done.
Qed.
End Merge.

(** Reading a whole map: the ranges found are those of the groups kept. *)
Lemma merge_tree keep keepb tree start :
  (forall r, interleaved r = false -> keep r = Ok (keepb r)) ->
  StronglySorted key_lt tree -> Forall range_ok tree.*1 -> full tree ->
  exists gs out, tree = concat gs /\ merge_ranges keep tree.*1 start [] = Ok out /\
    (forall g, g ∈ gs -> is_group g /\ forall a, contains (group_range g) a = true <-> covered g.*1 a) /\
    (forall r, r ∈ out <-> r ∈ start \/ exists g, g ∈ gs /\ r = group_range g /\ keepb r = true).
Proof.
  intros Hk Hs Ho Hf. destruct (grouped (length tree) tree (le_n _) Hs Ho Hf) as (gs & E & Hgs).
  destruct (merge_groups keep keepb Hk gs start [] Hgs) as (out & Hm & Hout); [by left|cbn [app]; rewrite <- E; by apply sorted_nodup|].
  exists gs, out. rewrite E. split_and!; try done.
  - intros g Hg. assert (is_group g) as Hgrp by (by eapply Forall_forall in Hgs). split; [done|]. intros a.
    apply group_covers; [done|]. apply Forall_forall. intros r (x & -> & Hx)%list_elem_of_fmap.
    eapply Forall_forall in Ho; [exact Ho|]. apply list_elem_of_fmap. exists x. split; [done|]. rewrite E. apply elem_of_concat. by exists g.
  - intros r. rewrite Hout. cbn [app waiting]. unfold kept. rewrite elem_of_app, list_elem_of_filter, list_elem_of_fmap. naive_solver.
Qed.

Lemma covered_entry l a : covered l.*1 a <-> exists r (i : V), (r, i) ∈ l /\ contains r a = true.
Proof.
  unfold covered. rewrite Exists_exists. split.
  - intros (r & ([r' i] & -> & Hi)%list_elem_of_fmap & Hc). by exists r', i.
  - intros (r & i & Hi & Hc). exists r. split; [|done]. apply list_elem_of_fmap. by exists (r, i).
Qed.

Lemma covered_elem l a : covered l a <-> exists r, r ∈ l /\ contains r a = true.
Proof. unfold covered. by rewrite Exists_exists. Qed.

Lemma covered_concat (gs : list (list (AddrRange * V))) a :
  covered (concat gs).*1 a <-> exists g, g ∈ gs /\ covered g.*1 a.
Proof.
  rewrite covered_entry. setoid_rewrite covered_entry. setoid_rewrite elem_of_concat. naive_solver.
Qed.
End Insert.
