(* ===== verification/PhysMem.v ===== *)
(** * The physical memory of a system

    [mem/physical.hh] and [mem/physical.cc]: the memories of the system behind
    one address map, with a cache of the entry last used, and the host memory
    that backs them.  The memories of an interleaved range share one backing
    store; so the stores are kept beside the memories, and a memory holds the
    index of its store where the code has a pointer.  A pointer to a memory is
    its index in [pm_objs].  Whether the host grants an [mmap] is a parameter;
    the files of a checkpoint are not modelled, its table of locks is. *)
From stdpp Require Import sorting.
From S2P Require Import Prelude Flags IntMath AddrRange AddrMap Packet AbstractMem.

(** ** Definitions *)

(** A memory: its state without the backing store, its parameters and the
    store it points to. *)
Record Memory := mkMemory {
  me_mem : AbstractMemory;
  isNull : bool;
  isConfReported : bool;
  isInAddrMap : bool;
  me_store : option nat;
}.

Record PhysicalMemory := mkPhysicalMemory {
  pm_objs : list Memory;
  addrMap : list (AddrRange * nat);
  rangeCache : option nat;
  memories : list nat;
  pm_size : Z;
  backingStore : list (AddrRange * list Z);
}.

Definition getAddrRange (m : Memory) : AddrRange := am_range (me_mem m).

(** [setBackingStore(pmem)]. *)
Definition setBackingStore (m : Memory) (k : nat) : Memory :=
  mkMemory (me_mem m) (isNull m) (isConfReported m) (isInAddrMap m) (Some k).

Definition set_mem (m : Memory) (a : AbstractMemory) : Memory :=
  mkMemory a (isNull m) (isConfReported m) (isInAddrMap m) (me_store m).

(** [addLockedAddr(addr)]. *)
Definition addLockedAddr (m : Memory) (l : LockedAddr) : Memory :=
  set_mem m (with_locks (me_mem m) (lockedAddrList (me_mem m) ++ [l]) (am_woken (me_mem m))).

Definition with_objs (pm : PhysicalMemory) (objs : list Memory) : PhysicalMemory :=
  mkPhysicalMemory objs (addrMap pm) (rangeCache pm) (memories pm) (pm_size pm) (backingStore pm).
Definition with_rangeCache (pm : PhysicalMemory) (c : option nat) : PhysicalMemory :=
  mkPhysicalMemory (pm_objs pm) (addrMap pm) c (memories pm) (pm_size pm) (backingStore pm).
Definition with_stores (pm : PhysicalMemory) (st : list (AddrRange * list Z)) : PhysicalMemory :=
  mkPhysicalMemory (pm_objs pm) (addrMap pm) (rangeCache pm) (memories pm) (pm_size pm) st.

Section Construction.
Context (mmap_granted : Z -> bool).

(** Point each of the memories to store [k]. *)
Fixpoint point_to (objs : list Memory) (mems : list nat) (k : nat) : result (list Memory) :=
  match mems with
  | [] => Ok objs
  | i :: mems =>
      let* m := deref (objs !! i) in
      point_to (<[i := setBackingStore m k]> objs) mems k
  end.

Definition createBackingStore (pm : PhysicalMemory) (range : AddrRange) (mems : list nat)
    : result PhysicalMemory :=
  if interleaved range then Err Panic
  else if negb (mmap_granted (ar_size range)) then Err Fatal
  else
    let k := length (backingStore pm) in
    let pm := with_stores pm (backingStore pm ++ [(range, replicate (Z.to_nat (ar_size range)) 0)]) in
    let* objs := point_to (pm_objs pm) mems k in
    Ok (with_objs pm objs).

(** The loop of the constructor over the memories of the system. *)
Fixpoint add_memories (pm : PhysicalMemory) (ms : list nat) : result PhysicalMemory :=
  match ms with
  | [] => Ok pm
  | i :: ms =>
      let* m := deref (pm_objs pm !! i) in
      let* pm :=
        if isInAddrMap m then
          let* '(tree, done) := arm_insert (addrMap pm) (getAddrRange m) i in
          if done : bool then
            Ok (mkPhysicalMemory (pm_objs pm) tree (rangeCache pm) (memories pm ++ [i])
                  (u64 (pm_size pm + ar_size (getAddrRange m))) (backingStore pm))
          else Err Fatal
        else if interleaved (getAddrRange m) then Err Fatal
        else createBackingStore pm (getAddrRange m) [i] in
      add_memories pm ms
  end.

(** [AddrRange merged_range(intlv_ranges); createBackingStore(merged_range, curr_memories)]. *)
Definition back_merged (pm : PhysicalMemory) (intlv : list AddrRange) (curr : list nat)
    : result PhysicalMemory :=
  let* merged := AddrRange_merge intlv in
  createBackingStore pm merged curr.

(** The loop over the address map that creates the backing stores. *)
Fixpoint back_memories (pm : PhysicalMemory) (tree : list (AddrRange * nat))
    (intlv : list AddrRange) (curr : list nat) : result PhysicalMemory :=
  match tree with
  | [] => match intlv with [] => Ok pm | _ => back_merged pm intlv curr end
  | (r, i) :: tree =>
      let* m := deref (pm_objs pm !! i) in
      if negb (isNull m) then
        if interleaved r then
          if negb (match intlv with [] => true | _ => false end) && negb (back_merges intlv r) then
            let* pm := back_merged pm intlv curr in
            back_memories pm tree [r] [i]
          else back_memories pm tree (intlv ++ [r]) (curr ++ [i])
        else
          let* pm := createBackingStore pm r [i] in
          back_memories pm tree intlv curr
      else back_memories pm tree intlv curr
  end.

(** [PhysicalMemory(name, memories)]. *)
Definition PhysicalMemory_new (ms : list Memory) : result PhysicalMemory :=
  let* pm := add_memories (mkPhysicalMemory ms [] None [] 0 []) (seq 0 (length ms)) in
  back_memories pm (addrMap pm) [] [].
End Construction.

(** [rangeCache != addrMap.end() && rangeCache->first.contains(addr)]: the
    memory of the cached entry. *)
Definition cached (pm : PhysicalMemory) (a : Z) : option nat :=
  match rangeCache pm with
  | None => None
  | Some j =>
      match addrMap pm !! j with
      | Some (r, i) => if contains r a then Some i else None
      | None => None
      end
  end.

Definition pm_isMemAddr (pm : PhysicalMemory) (a : Z) : result (bool * PhysicalMemory) :=
  match cached pm a with
  | Some _ => Ok (true, pm)
  | None =>
      let* r := arm_find_addr (addrMap pm) a in
      match r with
      | None => Ok (false, pm)
      | Some j => Ok (true, with_rangeCache pm (Some j))
      end
  end.

(** The loop of [getConfAddrRanges] over the address map. *)
Fixpoint conf_ranges (pm : PhysicalMemory) (tree : list (AddrRange * nat))
    (ranges intlv : list AddrRange) : result (list AddrRange) :=
  match tree with
  | [] =>
      match intlv with
      | [] => Ok ranges
      | _ => let* r := AddrRange_merge intlv in Ok (ranges ++ [r])
      end
  | (r, i) :: tree =>
      let* m := deref (pm_objs pm !! i) in
      if isConfReported m then
        if interleaved r then
          if negb (match intlv with [] => true | _ => false end) && negb (back_merges intlv r) then
            let* x := AddrRange_merge intlv in
            conf_ranges pm tree (ranges ++ [x]) [r]
          else conf_ranges pm tree ranges (intlv ++ [r])
        else conf_ranges pm tree (ranges ++ [r]) intlv
      else conf_ranges pm tree ranges intlv
  end.

Definition getConfAddrRanges (pm : PhysicalMemory) : result (list AddrRange) :=
  conf_ranges pm (addrMap pm) [] [].

(** A memory with the store it points to. *)
Definition view (pm : PhysicalMemory) (m : Memory) : AbstractMemory :=
  with_pmem (me_mem m)
    (match me_store m with Some k => snd <$> backingStore pm !! k | None => None end).

(** What an access through a memory left in its store. *)
Definition store_back (pm : PhysicalMemory) (k : option nat) (bs : option (list Z))
    : list (AddrRange * list Z) :=
  match k, bs with
  | Some k, Some bs => alter (fun x => (x.1, bs)) k (backingStore pm)
  | _, _ => backingStore pm
  end.

(** Run an operation of memory [i]. *)
Definition on_memory (pm : PhysicalMemory) (i : nat)
    (op : AbstractMemory -> result (AbstractMemory * Packet)) : result (PhysicalMemory * Packet) :=
  let* m := deref (pm_objs pm !! i) in
  let* '(a, p) := op (view pm m) in
  Ok (with_stores (with_objs pm (<[i := set_mem m a]> (pm_objs pm))) (store_back pm (me_store m) (pmemAddr a)), p).

(** The memory an access goes to: the cached entry or the one found; without
    one the assertion fails. *)
Definition decode (pm : PhysicalMemory) (a : Z) : result nat :=
  match cached pm a with
  | Some i => Ok i
  | None =>
      let* j := arm_find_addr (addrMap pm) a in
      match j with
      | None => Err Assert_failed
      | Some j => let* x := deref (addrMap pm !! j) in Ok x.2
      end
  end.

(** [access(pkt)]. *)
Definition pm_access (pm : PhysicalMemory) (p : Packet) : result (PhysicalMemory * Packet) :=
  let* _ := assert_ (isRequest (cmd p)) in
  let* a := getAddr p in
  let* i := decode pm a in
  on_memory pm i (fun m => access m p).

(** [functionalAccess(pkt)]. *)
Definition pm_functionalAccess (pm : PhysicalMemory) (p : Packet) : result (PhysicalMemory * Packet) :=
  let* _ := assert_ (isRequest (cmd p)) in
  let* a := getAddr p in
  let* i := decode pm a in
  on_memory pm i (fun m => functionalAccess m p).

(** The locked addresses written to a checkpoint, memory by memory. *)
Fixpoint serialize_locks (objs : list Memory) (ms : list nat) : result (list (Z * Z)) :=
  match ms with
  | [] => Ok []
  | i :: ms =>
      let* m := deref (objs !! i) in
      let* rest := serialize_locks objs ms in
      Ok (((fun l => (la_addr l, la_context l)) <$> lockedAddrList (me_mem m)) ++ rest)
  end.

(** Reading them back: each goes to the memory its address decodes to. *)
Fixpoint unserialize_locks (pm : PhysicalMemory) (lal : list (Z * Z)) : result PhysicalMemory :=
  match lal with
  | [] => Ok pm
  | (a, c) :: lal =>
      let* j := arm_find_addr (addrMap pm) a in
      let* j := deref j in
      let* x := deref (addrMap pm !! j) in
      let* m := deref (pm_objs pm !! x.2) in
      unserialize_locks (with_objs pm (<[x.2 := addLockedAddr m (mkLockedAddr a c)]> (pm_objs pm))) lal
  end.

(** ** The flat memory

    Bytes by address, whichever memory holds them; each memory has its own
    table of reservations. *)
Record PhysSpec := mkPhysSpec { ph_byte : Z -> Z; ph_locks : nat -> gmap Z Z }.

Definition mem_spec (s : PhysSpec) (i : nat) : MemSpec := mkMemSpec (ph_byte s) (ph_locks s i).

Definition upd_spec (s : PhysSpec) (i : nat) (ms : MemSpec) : PhysSpec :=
  mkPhysSpec (sp_byte ms) (fun j => if decide (j = i) then sp_reserved ms else ph_locks s j).

Inductive phys_op :=
  | AskAddr (a : Z)           (** [isMemAddr(a)] *)
  | Access (p : Packet)       (** [access(pkt)] *)
  | Functional (p : Packet).  (** [functionalAccess(pkt)] *)

Inductive phys_out :=
  | IsMem (b : bool)
  | Answer (d : list Z) (ok : option bool).

(** The bytes a packet comes back with, and for a store conditional whether
    it went ahead. *)
Definition answer (p p' : Packet) : phys_out :=
  Answer (default [] (data p'))
    (if isLLSC (cmd p) && isWrite (cmd p) then Some (_extraData (req p') =? 1) else None).

Definition phys_step (pm : PhysicalMemory) (o : phys_op) : result (PhysicalMemory * phys_out) :=
  match o with
  | AskAddr a => let* '(b, pm) := pm_isMemAddr pm a in Ok (pm, IsMem b)
  | Access p => let* '(pm, p') := pm_access pm p in Ok (pm, answer p p')
  | Functional p =>
      let* '(pm, p') := pm_functionalAccess pm p in Ok (pm, Answer (default [] (data p')) None)
  end.

Fixpoint phys_run (pm : PhysicalMemory) (os : list phys_op) : result (PhysicalMemory * list phys_out) :=
  match os with
  | [] => Ok (pm, [])
  | o :: os =>
      let* '(pm, x) := phys_step pm o in
      let* '(pm, xs) := phys_run pm os in
      Ok (pm, x :: xs)
  end.

(** A functional access neither takes nor ends reservations. *)
Definition sp_functional (s : MemSpec) (p : Packet) (d : list Z) : MemSpec * list Z :=
  if isRead (cmd p) then (s, sp_read s (addr p) (length d)) else (sp_write s (addr p) d, d).

Definition spec_step (tree : list (AddrRange * nat)) (s : PhysSpec) (o : phys_op) : PhysSpec * phys_out :=
  match o with
  | AskAddr a => (s, IsMem (match owner tree a with Some _ => true | None => false end))
  | Access p =>
      let i := default O (owner tree (addr p)) in
      let x := sp_access (mem_spec s i) p (default [] (data p)) in
      (upd_spec s i x.1.1, Answer x.1.2 x.2)
  | Functional p =>
      let i := default O (owner tree (addr p)) in
      let x := sp_functional (mem_spec s i) p (default [] (data p)) in
      (upd_spec s i x.1, Answer x.2 None)
  end.

Fixpoint spec_run (tree : list (AddrRange * nat)) (s : PhysSpec) (os : list phys_op) : PhysSpec * list phys_out :=
  match os with
  | [] => (s, [])
  | o :: os =>
      let x := spec_step tree s o in
      let y := spec_run tree x.1 os in
      (y.1, x.2 :: y.2)
  end.

(** A memory with data is backed by the store of its bounds, which holds the
    flat bytes. *)
Record backed (pm : PhysicalMemory) (s : PhysSpec) (i : nat) (m : Memory) (k : nat) (bs : list Z) : Prop := {
  bk_store : me_store m = Some k;
  bk_bytes : exists R, backingStore pm !! k = Some (R, bs) /\
    ar_start R = ar_start (getAddrRange m) /\ ar_end R = ar_end (getAddrRange m);
  bk_rep : represents (with_pmem (me_mem m) (Some bs)) bs (mem_spec s i);
}.

(** The invariant: a well-formed map, in which the first address of an
    interleaved chunk belongs to the first stripe; the entries are the memories
    with their ranges; memories with data are backed, and those of one chunk by
    the same store. *)
Record phys_rep (pm : PhysicalMemory) (s : PhysSpec) : Prop := {
  pr_tree : tree_wf (addrMap pm);
  pr_first : first_stripes (addrMap pm);
  pr_mem : forall j r i, addrMap pm !! j = Some (r, i) ->
    exists m, pm_objs pm !! i = Some m /\ getAddrRange m = r /\
      (isNull m = false -> exists k bs, backed pm s i m k bs);
  pr_share : forall j r i m j' r' i' m',
    addrMap pm !! j = Some (r, i) -> pm_objs pm !! i = Some m ->
    addrMap pm !! j' = Some (r', i') -> pm_objs pm !! i' = Some m' ->
    isNull m = false -> isNull m' = false -> mergesWith r r' = true -> me_store m = me_store m';
}.

(** Packet [p] with buffer [d] is for a memory with data. *)
Definition for_memory (pm : PhysicalMemory) (p : Packet) (d : list Z) : Prop :=
  exists j r i m, addrMap pm !! j = Some (r, i) /\ pm_objs pm !! i = Some m /\ isNull m = false /\
    contains r (addr p) = true /\ asks (me_mem m) p d.

Definition op_ok (pm : PhysicalMemory) (o : phys_op) : Prop :=
  match o with
  | AskAddr a => is_u64 a
  | Access p => exists d, for_memory pm p d
  | Functional p => exists d, for_memory pm p d /\ (isRead (cmd p) || isWrite (cmd p)) && needsResponse (cmd p) = true
  end.

(** ** Decoding *)

Section Decoding.
Context (pm : PhysicalMemory) (s : PhysSpec) (HR : phys_rep pm s).

Lemma find_entry j r i a :
  is_u64 a -> addrMap pm !! j = Some (r, i) -> contains r a = true -> arm_find_addr (addrMap pm) a = Ok (Some j).
Proof. apply find_owner; apply HR. Qed.

Lemma cached_entry a i : cached pm a = Some i -> exists j r, addrMap pm !! j = Some (r, i) /\ contains r a = true.
Proof.
  unfold cached. destruct (rangeCache pm) as [j|]; [|done].
  destruct (addrMap pm !! j) as [[r i']|] eqn:Hj; [|done]. destruct (contains r a) eqn:Hc; [|done].
  intros [= ->]. by exists j, r.
Qed.

Lemma decode_entry j r i a :
  is_u64 a -> addrMap pm !! j = Some (r, i) -> contains r a = true -> decode pm a = Ok i.
Proof.
  intros Ha Hj Hc. unfold decode. destruct (cached pm a) as [i'|] eqn:Hd.
  - apply cached_entry in Hd as (j' & r' & Hj' & Hc'). f_equal.
    pose proof (owner_entry _ _ _ _ _ (pr_tree _ _ HR) Hj Hc). pose proof (owner_entry _ _ _ _ _ (pr_tree _ _ HR) Hj' Hc').
    congruence.
  - rewrite (find_entry _ _ _ _ Ha Hj Hc). cbn [rbind]. by rewrite Hj.
Qed.

Lemma isMemAddr_ok a :
  is_u64 a ->
  exists pm', pm_isMemAddr pm a = Ok (match owner (addrMap pm) a with Some _ => true | None => false end, pm') /\
    (pm' = pm \/ exists c, pm' = with_rangeCache pm c).
Proof.
  intros Ha. unfold pm_isMemAddr. pose proof (owner_spec (addrMap pm) a) as Ho.
  destruct (cached pm a) as [i|] eqn:Hd.
  - apply cached_entry in Hd as (j & r & Hj & Hc).
    rewrite (owner_entry _ _ _ _ _ (pr_tree _ _ HR) Hj Hc). exists pm. by split; [|left].
  - destruct (owner (addrMap pm) a) as [i|] eqn:Eo.
    + destruct Ho as (j & r & Hj & Hc). rewrite (find_entry _ _ _ _ Ha Hj Hc). cbn [rbind]. eauto.
    + rewrite (find_no_owner _ _ Ha); [by exists pm; split; [|left]|done].
Qed.
End Decoding.

(** ** Accesses *)

(** What an access does not change. *)
Definition shape (m : Memory) : AddrRange * bool * option nat := (getAddrRange m, isNull m, me_store m).

Definition same_config (pm pm' : PhysicalMemory) : Prop :=
  addrMap pm' = addrMap pm /\ forall i, shape <$> pm_objs pm' !! i = shape <$> pm_objs pm !! i.

Lemma same_obj pm pm' i m :
  same_config pm pm' -> pm_objs pm' !! i = Some m ->
  exists m0, pm_objs pm !! i = Some m0 /\ shape m = shape m0.
Proof.
  intros [_ H] Hi. specialize (H i). rewrite Hi in H. cbn in H.
  destruct (pm_objs pm !! i) as [m0|]; [|done]. apply (inj Some) in H. eauto.
Qed.

Lemma same_sym pm pm' : same_config pm pm' -> same_config pm' pm.
Proof. intros [H1 H2]. by split. Qed.

Lemma same_trans pm pm1 pm2 : same_config pm pm1 -> same_config pm1 pm2 -> same_config pm pm2.
Proof. intros [H1 H2] [H3 H4]. split; [congruence|]. intros i. by rewrite H4. Qed.

Lemma for_memory_same pm pm' p d : same_config pm pm' -> for_memory pm p d -> for_memory pm' p d.
Proof.
  intros HS (j & r & i & m & Hj & Hi & Hn & Hc & Ha).
  destruct (same_obj _ _ _ _ (same_sym _ _ HS) Hi) as (m' & Hi' & E). injection E as E1 E2 E3.
  exists j, r, i, m'. destruct HS as [-> _]. split_and!; try done; [congruence|].
  by eapply asks_range; [|done].
Qed.

Lemma phys_op_same pm pm' o : same_config pm pm' -> op_ok pm o -> op_ok pm' o.
Proof. intros HS. destruct o; cbn; [done|..]; naive_solver eauto using for_memory_same. Qed.

Lemma represents_view a bs ms :
  represents a bs ms -> represents (with_pmem a (Some bs)) bs (mkMemSpec (sp_byte ms) (sp_reserved ms)).
Proof. intros [H1 H2 H3 H4 H5 H6]. by split. Qed.

Lemma backed_view pm s i m k bs : backed pm s i m k bs -> view pm m = with_pmem (me_mem m) (Some bs).
Proof. intros [Hk (R & HR & _) _]. unfold view. by rewrite Hk, HR. Qed.

(** The same store seen by a memory with the same bounds. *)
Lemma represents_shared m a bs ms s s' :
  represents m bs s -> represents a (default [] (pmemAddr a)) ms ->
  ar_start (am_range a) = ar_start (am_range m) -> ar_end (am_range a) = ar_end (am_range m) ->
  sp_byte s' = sp_byte ms -> sp_reserved s' = sp_reserved s ->
  represents (with_pmem m (pmemAddr a)) (default [] (pmemAddr a)) s'.
Proof.
  intros [H1 H2 H3 H4 H5 H6] [K1 K2 K3 K4 K5 K6] Es Ee Eb El. split; cbn; try done.
  - by rewrite <- Es, <- Ee.
  - by rewrite Eb, <- Es.
  - by rewrite El.
Qed.

(** A store elsewhere leaves a memory's bytes. *)
Lemma represents_apart m bs s s' :
  represents m bs s -> sp_reserved s' = sp_reserved s ->
  (forall a, ar_start (am_range m) <= a <= ar_end (am_range m) -> sp_byte s' a = sp_byte s a) ->
  represents m bs s'.
Proof.
  intros [H1 H2 H3 H4 H5 H6] El Eb. split; try done; [|by rewrite El].
  intros i b Hi. rewrite Eb; [by apply H4|]. apply lookup_lt_Some in Hi. lia.
Qed.

Section Step.
Context (pm : PhysicalMemory) (s : PhysSpec) (HR : phys_rep pm s).

(** Memory [i] has done an operation that left it as [a'], with bytes changed
    only within its bounds. *)
Context (j : nat) (r : AddrRange) (i : nat) (m : Memory) (k : nat) (bs : list Z).
Context (Hj : addrMap pm !! j = Some (r, i)) (Hi : pm_objs pm !! i = Some m).
Context (Hn : isNull m = false) (HB : backed pm s i m k bs).
Context (a' : AbstractMemory) (ms : MemSpec) (bs' : list Z).
Context (Ha : represents a' bs' ms) (Hrng : am_range a' = am_range (me_mem m)).
Context (Hout : forall a, ~ in_bounds r a -> sp_byte ms a = ph_byte s a).

Let pm' := with_stores (with_objs pm (<[i := set_mem m a']> (pm_objs pm))) (store_back pm (me_store m) (pmemAddr a')).

Lemma stores_after : backingStore pm' = alter (fun x => (x.1, bs')) k (backingStore pm).
Proof. cbn. by rewrite (bk_store _ _ _ _ _ _ HB), (rp_pmem _ _ _ Ha). Qed.

Lemma step_config : same_config pm pm'.
Proof.
  split; [done|]. intros x. cbn. destruct (decide (x = i)) as [->|Hne].
  - rewrite list_lookup_insert_eq, Hi by (by eapply lookup_lt_Some). cbn. unfold shape, getAddrRange. cbn. by rewrite Hrng.
  - by rewrite list_lookup_insert_ne by done.
Qed.

Lemma range_here : getAddrRange m = r.
Proof. destruct (pr_mem _ _ HR _ _ _ Hj) as (m0 & Hm0 & Hr & _). congruence. Qed.

Lemma backed_here : backed pm' (upd_spec s i ms) i (set_mem m a') k bs'.
Proof.
  pose proof HB as [Hk (R & HRk & Hs & He) _]. split.
  - done.
  - exists R. rewrite stores_after, list_lookup_alter_eq, HRk. cbn. unfold getAddrRange in *. cbn. by rewrite Hrng.
  - cbn. unfold mem_spec, upd_spec. cbn. rewrite decide_True by done. by apply represents_view.
Qed.

Lemma backed_other j1 r1 i1 m1 k1 bs1 :
  i1 <> i -> addrMap pm !! j1 = Some (r1, i1) -> pm_objs pm !! i1 = Some m1 -> isNull m1 = false ->
  backed pm s i1 m1 k1 bs1 -> exists bs2, backed pm' (upd_spec s i ms) i1 m1 k1 bs2.
Proof.
  intros Hne Hj1 Hi1 Hn1 [Hk1 (R1 & HR1 & Hs1 & He1) Hrep1]. pose proof range_here as Hr.
  destruct (pr_mem _ _ HR _ _ _ Hj1) as (m0 & Hm0 & Hr1 & _). rewrite Hi1 in Hm0. injection Hm0 as <-.
  assert (mem_spec (upd_spec s i ms) i1 = mkMemSpec (sp_byte ms) (ph_locks s i1)) as Hspec
    by (unfold mem_spec, upd_spec; cbn; by rewrite decide_False).
  destruct (decide (k1 = k)) as [->|Hk].
  - pose proof HB as [Hk (R & HRk & Hs & He) _]. rewrite HRk in HR1. injection HR1 as <- <-. exists bs'. split; [done|..].
    + exists R. by rewrite stores_after, list_lookup_alter_eq, HRk.
    + rewrite Hspec. unfold getAddrRange in *. pose proof (rp_pmem _ _ _ Ha) as Hp.
      pose proof (represents_shared _ a' _ ms _ (mkMemSpec (sp_byte ms) (ph_locks s i1)) Hrep1) as Hsh.
      rewrite Hp in Hsh. cbn in Hsh. apply Hsh; try done; rewrite Hrng; congruence.
  - exists bs1. split; [done|..].
    + exists R1. by rewrite stores_after, list_lookup_alter_ne by done.
    + rewrite Hspec. eapply represents_apart; [done|done|]. cbn. intros a Hb. apply Hout. intros Hb'.
      destruct (tree_apart _ (pr_tree _ _ HR) j j1 r r1) as [->|[[_ Hm]|Hd]];
        [apply fst_lookup; eauto..| | |].
      * rewrite Hj in Hj1. congruence.
      * pose proof (pr_share _ _ HR _ _ _ _ _ _ _ _ Hj Hi Hj1 Hi1 Hn Hn1 Hm) as E.
        rewrite Hk1, (bk_store _ _ _ _ _ _ HB) in E. congruence.
      * apply (Hd a Hb'). by rewrite <- Hr1.
Qed.

Lemma step_rep : phys_rep pm' (upd_spec s i ms).
Proof.
  destruct step_config as [Hmap Hobj]. split; try (rewrite Hmap; apply HR).
  - intros j1 r1 i1 Hj1. rewrite Hmap in Hj1. destruct (pr_mem _ _ HR _ _ _ Hj1) as (m1 & Hi1 & Hr1 & Hb1).
    destruct (decide (i1 = i)) as [->|Hne].
    + exists (set_mem m a'). cbn. rewrite list_lookup_insert_eq by (by eapply lookup_lt_Some).
      rewrite Hi in Hi1. injection Hi1 as <-.
      unfold getAddrRange in *. cbn. rewrite Hrng. split_and!; try done. intros _. eexists _, _. apply backed_here.
    + exists m1. cbn. rewrite list_lookup_insert_ne by done. split_and!; try done. intros Hn1.
      destruct (Hb1 Hn1) as (k1 & bs1 & HB1). edestruct backed_other as [bs2 ?]; eauto.
  - intros j1 r1 i1 m1 j2 r2 i2 m2. rewrite !Hmap. intros Hj1 Hi1 Hj2 Hi2 Hn1 Hn2 Hm.
    apply (same_obj _ _ _ _ step_config) in Hi1 as (o1 & Ho1 & E1), Hi2 as (o2 & Ho2 & E2).
    injection E1 as _ En1 ->. injection E2 as _ En2 ->. rewrite En1 in Hn1. rewrite En2 in Hn2.
    eapply (pr_share _ _ HR j1 r1 i1 _ j2 r2 i2); eassumption.
Qed.
End Step.

(** Bytes an access does not touch. *)
Lemma sp_access_out s p d a :
  ~ addr p <= a < addr p + Z.of_nat (length d) -> sp_byte (sp_access s p d).1.1 a = sp_byte s a.
Proof.
  intros Ha. unfold sp_access. repeat case_decide || case_match; cbn; try done; by apply mem_store_out.
Qed.

Lemma sp_functional_out s p d a :
  ~ addr p <= a < addr p + Z.of_nat (length d) -> sp_byte (sp_functional s p d).1 a = sp_byte s a.
Proof. intros Ha. unfold sp_functional. case_match; cbn; [done|]. by apply mem_store_out. Qed.

Lemma functional_spec m bs s p d :
  represents m bs s -> asks m p d -> (isRead (cmd p) || isWrite (cmd p)) && needsResponse (cmd p) = true ->
  exists m' bs' p', functionalAccess m p = Ok (m', p') /\ represents m' bs' (sp_functional s p d).1 /\
    am_range m' = am_range m /\ data p' = Some (sp_functional s p d).2.
Proof.
  intros Hr Ha Hk. apply andb_true_iff in Hk as [Hk Hresp].
  pose proof (as_kind _ _ _ Ha) as Hq. apply andb_true_iff in Hq as [_ Hq].
  destruct (access_start _ _ _ _ _ Hr Ha) as (H1 & H2 & H3 & H4 & H5 & H6).
  destruct (access_copies _ _ _ _ _ Hr Ha) as (Hrd & bs' & Hwr).
  unfold functionalAccess, sp_functional. rewrite H1, H2. cbn [rbind]. rewrite H4. cbn [rbind assert_]. rewrite H5, (rp_pmem _ _ _ Hr).
  assert (forall q, cmd q = cmd p -> exists q', makeResponse q = Ok q' /\ data q' = data q) as Hmk.
  { intros q Hc. unfold makeResponse. rewrite Hc, Hresp, Hq. eexists. split; done. }
  destruct (isRead (cmd p)) eqn:Hrd'.
  - rewrite H3. cbn [rbind]. rewrite Hrd. cbn [rbind].
    destruct (Hmk (with_data p (Some (sp_read s (addr p) (length d)))) eq_refl) as (p' & -> & Hd). cbn [rbind].
    exists m, bs, p'. by rewrite Hd.
  - cbn [orb] in Hk. rewrite Hk, H3. cbn [rbind]. rewrite Hwr. cbn [rbind].
    destruct (Hmk p eq_refl) as (p' & -> & Hd). cbn [rbind]. eexists _, bs', p'. split; [done|]. rewrite Hd.
    split_and!; [|done|apply (po_data _ _ (as_pkt _ _ _ Ha))].
    rewrite H6 in Hwr. eapply represents_write; [done|exact Hwr|lia].
Qed.

Lemma answer_ok p p' s d d' :
  data p' = Some d' -> (isRead (cmd p) || isInvalidate (cmd p) || isWrite (cmd p)) && isRequest (cmd p) = true ->
  match (sp_access s p d).2 with
  | Some b => getExtraData (req p') = Ok (if b then 1 else 0)
  | None => req p' = req p
  end ->
  answer p p' = Answer d' (sp_access s p d).2.
Proof.
  intros Hd Hk Hx. unfold answer. rewrite Hd. cbn [default]. f_equal. revert Hx. unfold sp_access.
  case_decide as Hs; [by rewrite Hs|]. destruct (isRead (cmd p)) eqn:Hr; [by destruct (cmd p)|].
  destruct (isInvalidate (cmd p)) eqn:Hi; [by destruct (cmd p)|]. destruct (isLLSC (cmd p)); [|done].
  assert (isWrite (cmd p) = true) as -> by (by destruct (cmd p)). cbn [andb].
  case_decide; cbn; unfold getExtraData; intros Hx; apply bind_ok in Hx as (? & _ & [= ->]); done.
Qed.

Lemma access_inside pm s j r i m p d :
  phys_rep pm s -> addrMap pm !! j = Some (r, i) -> pm_objs pm !! i = Some m -> asks (me_mem m) p d ->
  forall a, ~ in_bounds r a -> ~ addr p <= a < addr p + Z.of_nat (length d).
Proof.
  intros HR Hj Hi Ha a Hb Hc. destruct (pr_mem _ _ HR _ _ _ Hj) as (m0 & Hm0 & Hr & _). simplify_eq.
  pose proof (as_inside _ _ _ Ha). pose proof (po_length _ _ (as_pkt _ _ _ Ha)). apply Hb. unfold in_bounds, getAddrRange. lia.
Qed.

Lemma pkt_addr_u64 p d : pkt_ok p d -> is_u64 (addr p).
Proof. intros Hp. pose proof (po_region _ _ Hp). unfold region, in_range in *. lia. Qed.

(** An access through a memory with data, whichever way the packet came. *)
Lemma memory_step pm s p d j r i m :
  phys_rep pm s -> addrMap pm !! j = Some (r, i) -> pm_objs pm !! i = Some m -> isNull m = false ->
  asks (me_mem m) p d ->
  exists pm' p', on_memory pm i (fun m => access m p) = Ok (pm', p') /\
    phys_rep pm' (upd_spec s i (sp_access (mem_spec s i) p d).1.1) /\ same_config pm pm' /\ getAddr p = Ok (addr p) /\
    data p' = Some (sp_access (mem_spec s i) p d).1.2 /\ answered p p' /\
    match (sp_access (mem_spec s i) p d).2 with
    | Some b => getExtraData (req p') = Ok (if b then 1 else 0)
    | None => req p' = req p
    end.
Proof.
  intros HR Hj Hi Hn Ha.
  destruct (pr_mem _ _ HR _ _ _ Hj) as (m0 & Hm0 & Hr & Hb). rewrite Hi in Hm0. injection Hm0 as <-.
  destruct (Hb Hn) as (k & bs & HB). pose proof (bk_rep _ _ _ _ _ _ HB) as Hrep.
  assert (asks (with_pmem (me_mem m) (Some bs)) p d) as Ha' by (by eapply asks_range; [|done]).
  destruct (access_start _ _ _ _ _ Hrep Ha') as (Hga & _).
  destruct (access_spec _ _ _ _ _ Hrep Ha') as (a' & bs' & p' & Hacc & Hrep' & Hrng & Hd & Hans & Hx).
  eexists _, p'. split.
  { unfold on_memory. rewrite Hi. cbn [deref rbind]. rewrite (backed_view _ _ _ _ _ _ HB), Hacc. cbn [rbind]. reflexivity. }
  split_and!; try done; [|by eapply step_config].
  eapply step_rep; try done. intros a Hout. rewrite sp_access_out; [done|]. by eapply access_inside.
Qed.

Lemma access_step pm s p d :
  phys_rep pm s -> for_memory pm p d ->
  exists pm' p', pm_access pm p = Ok (pm', p') /\
    answer p p' = (spec_step (addrMap pm) s (Access p)).2 /\
    phys_rep pm' (spec_step (addrMap pm) s (Access p)).1 /\ same_config pm pm'.
Proof.
  intros HR (j & r & i & m & Hj & Hi & Hn & Hc & Ha). pose proof (as_pkt _ _ _ Ha) as Hp. pose proof (as_kind _ _ _ Ha) as Hk.
  destruct (memory_step _ _ _ _ _ _ _ _ HR Hj Hi Hn Ha) as (pm' & p' & Hon & HR' & HS & Hga & Hd & _ & Hx).
  cbn [spec_step]. rewrite (owner_entry _ _ _ _ _ (pr_tree _ _ HR) Hj Hc), (po_data _ _ Hp). cbn [default fst snd].
  exists pm', p'. split; [|split; [by apply answer_ok|done]].
  unfold pm_access. pose proof Hk as [_ ->]%andb_true_iff. cbn [assert_ rbind]. rewrite Hga. cbn [rbind].
  by rewrite (decode_entry _ _ HR _ _ _ _ (pkt_addr_u64 _ _ Hp) Hj Hc).
Qed.

Lemma functional_step pm s p d :
  phys_rep pm s -> for_memory pm p d -> (isRead (cmd p) || isWrite (cmd p)) && needsResponse (cmd p) = true ->
  exists pm' p', pm_functionalAccess pm p = Ok (pm', p') /\
    Answer (default [] (data p')) None = (spec_step (addrMap pm) s (Functional p)).2 /\
    phys_rep pm' (spec_step (addrMap pm) s (Functional p)).1 /\ same_config pm pm'.
Proof.
  intros HR (j & r & i & m & Hj & Hi & Hn & Hc & Ha) Hf. pose proof (as_pkt _ _ _ Ha) as Hp.
  destruct (pr_mem _ _ HR _ _ _ Hj) as (m0 & Hm0 & Hr & Hb). rewrite Hi in Hm0. injection Hm0 as <-.
  destruct (Hb Hn) as (k & bs & HB). pose proof (bk_rep _ _ _ _ _ _ HB) as Hrep.
  assert (asks (with_pmem (me_mem m) (Some bs)) p d) as Ha' by (by eapply asks_range; [|done]).
  destruct (access_start _ _ _ _ _ Hrep Ha') as (Hga & _). pose proof (as_kind _ _ _ Ha) as Hk.
  destruct (functional_spec _ _ _ _ _ Hrep Ha' Hf) as (a' & bs' & p' & Hacc & Hrep' & Hrng & Hd).
  cbn [spec_step]. rewrite (owner_entry _ _ _ _ _ (pr_tree _ _ HR) Hj Hc), (po_data _ _ Hp). cbn [default fst snd].
  eexists _, p'. split.
  { unfold pm_functionalAccess. apply andb_true_iff in Hk as [_ ->]. cbn [assert_ rbind]. rewrite Hga. cbn [rbind].
    rewrite (decode_entry _ _ HR _ _ _ _ (pkt_addr_u64 _ _ Hp) Hj Hc).
    cbn [rbind]. unfold on_memory. rewrite Hi. cbn [deref rbind]. rewrite (backed_view _ _ _ _ _ _ HB), Hacc. cbn [rbind]. reflexivity. }
  split; [by rewrite Hd|]. split; [|by eapply step_config].
  eapply step_rep; try done. intros a Hout. rewrite sp_functional_out; [done|]. by eapply access_inside.
Qed.

Lemma cache_rep pm s c : phys_rep pm s -> phys_rep (with_rangeCache pm c) s.
Proof.
  intros [H1 H2 H3 H4]. split; try done. intros j r i Hj. destruct (H3 _ _ _ Hj) as (m & Hm & Hr & Hb).
  exists m. split_and!; try done. intros Hn. destruct (Hb Hn) as (k & bs & [B1 B2 B3]). by exists k, bs.
Qed.

Lemma phys_step_ok pm s o :
  phys_rep pm s -> op_ok pm o ->
  exists pm', phys_step pm o = Ok (pm', (spec_step (addrMap pm) s o).2) /\
    phys_rep pm' (spec_step (addrMap pm) s o).1 /\ same_config pm pm'.
Proof.
  intros HR Ho. destruct o as [a|p|p].
  - destruct (isMemAddr_ok _ _ HR a Ho) as (pm' & Hm & Hpm). cbn [phys_step]. rewrite Hm. cbn [rbind].
    exists pm'. split; [done|]. destruct Hpm as [->|[c ->]]; [done|]. split; [by apply cache_rep|done].
  - destruct Ho as [d Hd]. destruct (access_step _ _ _ _ HR Hd) as (pm' & p' & Ha & Hx & H1 & H2).
    exists pm'. cbn [phys_step]. rewrite Ha. cbn [rbind]. by rewrite Hx.
  - destruct Ho as (d & Hd & Hf). destruct (functional_step _ _ _ _ HR Hd Hf) as (pm' & p' & Ha & Hx & H1 & H2).
    exists pm'. cbn [phys_step]. rewrite Ha. cbn [rbind]. by rewrite Hx.
Qed.

Lemma phys_run_ok os : forall pm s,
  phys_rep pm s -> Forall (op_ok pm) os ->
  exists pm', phys_run pm os = Ok (pm', (spec_run (addrMap pm) s os).2) /\
    phys_rep pm' (spec_run (addrMap pm) s os).1 /\ same_config pm pm'.
Proof.
  induction os as [|o os IH]; intros pm s HR Hos; cbn [phys_run spec_run]; [by exists pm|].
  apply Forall_cons in Hos as [Ho Hos]. destruct (phys_step_ok _ _ _ HR Ho) as (pm1 & -> & HR1 & HS1). cbn [rbind].
  destruct (IH pm1 _ HR1) as (pm2 & -> & HR2 & HS2).
  { eapply Forall_impl; [exact Hos|]. intros x. by apply phys_op_same. }
  cbn [rbind]. pose proof HS1 as [E _]. rewrite E in *. exists pm2. split; [done|]. split; [done|]. by eapply same_trans.
Qed.
