(* ===== verification/PhysMemInit.v ===== *)
(** * Construction of the physical memory

    The constructor of [mem/physical.cc] builds the invariant of [PhysMem]: on
    memories whose ranges are disjoint, or are the stripes of complete
    interleaved chunks, it succeeds and every memory with data is backed by
    zeroed host memory, a chunk by one store.  Hence how the memory of a system
    is divided among memories, interleaved or not, cannot be observed. *)
From stdpp Require Import sorting.
From S2P Require Import Prelude Flags IntMath AddrRange AddrMap Packet AbstractMem PhysMem.

(** ** Backing stores *)

(** Two versions of a memory that differ at most in the store. *)
Definition config (m : Memory) : AbstractMemory * bool * bool * bool :=
  (me_mem m, isNull m, isConfReported m, isInAddrMap m).

Definition same_objs (ms objs : list Memory) : Prop := config <$> objs = config <$> ms.

Lemma same_objs_at ms objs i m :
  same_objs ms objs -> ms !! i = Some m -> exists m', objs !! i = Some m' /\ config m' = config m.
Proof.
  intros H Hi. assert ((config <$> objs) !! i = Some (config m)) as E by (rewrite H, list_lookup_fmap, Hi; done).
  rewrite list_lookup_fmap in E. destruct (objs !! i) as [m'|]; [|done]. apply (inj Some) in E. eauto.
Qed.

Lemma point_to_ok ms k mems : forall objs,
  same_objs ms objs -> Forall (fun i => (i < length ms)%nat) mems ->
  exists objs', point_to objs mems k = Ok objs' /\ same_objs ms objs' /\
    (forall i, i ∉ mems -> objs' !! i = objs !! i) /\
    (forall i m, i ∈ mems -> objs' !! i = Some m -> me_store m = Some k).
Proof.
  induction mems as [|i mems IH]; intros objs Hs Hb; cbn [point_to].
  { exists objs. split_and!; try done. intros i m Hi. by apply not_elem_of_nil in Hi. }
  apply Forall_cons in Hb as [Hi Hb]. destruct (lookup_lt_is_Some_2 ms i Hi) as [m0 Hm0].
  destruct (same_objs_at _ _ _ _ Hs Hm0) as (m & Hm & _). rewrite Hm. cbn [deref rbind].
  destruct (IH (<[i := setBackingStore m k]> objs)) as (objs' & -> & Hs' & Hout & Hin); [|done|].
  { unfold same_objs. rewrite list_fmap_insert. unfold config at 1. cbn. rewrite list_insert_id; [done|].
    by rewrite list_lookup_fmap, Hm. }
  exists objs'. split_and!; try done.
  - intros x Hx. apply not_elem_of_cons in Hx as [Hne Hx]. rewrite Hout by done. by rewrite list_lookup_insert_ne.
  - intros x m' Hx Hm'. destruct (decide (x ∈ mems)) as [|Hn]; [by eapply Hin|].
    apply elem_of_cons in Hx as [->|]; [|done].
    rewrite Hout, list_lookup_insert_eq in Hm' by (done || by eapply lookup_lt_Some). by injection Hm' as <-.
Qed.

(** The entries [l] are backed by one fresh store for the bounds [s..e]. *)
Definition stored (pm : PhysicalMemory) (s e : Z) (l : list (AddrRange * nat)) : Prop :=
  exists k R, backingStore pm !! k = Some (R, replicate (Z.to_nat (e - s + 1)) 0) /\
  ar_start R = s /\ ar_end R = e /\
  forall r i, (r, i) ∈ l -> exists m, pm_objs pm !! i = Some m /\ me_store m = Some k.

(** What the construction keeps of a group of entries already backed. *)
Definition grows (pm pm' : PhysicalMemory) (touched : list nat) : Prop :=
  addrMap pm' = addrMap pm /\ rangeCache pm' = rangeCache pm /\ memories pm' = memories pm /\
  (forall i, i ∉ touched -> pm_objs pm' !! i = pm_objs pm !! i) /\
  (forall k x, backingStore pm !! k = Some x -> backingStore pm' !! k = Some x).

Lemma grows_refl pm l : grows pm pm l.
Proof. by split_and!. Qed.

Lemma grows_trans pm pm1 pm2 l1 l2 : grows pm pm1 l1 -> grows pm1 pm2 l2 -> grows pm pm2 (l1 ++ l2).
Proof.
  intros (A1 & A2 & A3 & A4 & A5) (B1 & B2 & B3 & B4 & B5). split_and!; try congruence; [|by eauto].
  intros i Hi. apply not_elem_of_app in Hi as [H1 H2]. by rewrite B4, A4.
Qed.

Lemma stored_grows pm pm' s e l t :
  stored pm s e l -> grows pm pm' t -> (forall i, i ∈ l.*2 -> i ∉ t) -> stored pm' s e l.
Proof.
  intros (k & R & Hk & H1 & H2 & Hl) (_ & _ & _ & Ho & Hs) Ht. exists k, R. split_and!; [by apply Hs|done..|]. intros r i Hi.
  rewrite Ho; [by eapply Hl|]. apply Ht. apply list_elem_of_fmap. by exists (r, i).
Qed.

Section Stores.
Context (granted : Z -> bool) (ms : list Memory).

(** Bounds the host has memory for. *)
Definition backable (s e : Z) : Prop := 0 <= e - s /\ e - s + 1 < 2 ^ 64 /\ granted (e - s + 1) = true.

Lemma create_ok pm R l :
  same_objs ms (pm_objs pm) -> interleaved R = false -> backable (ar_start R) (ar_end R) ->
  Forall (fun i => (i < length ms)%nat) l.*2 ->
  exists pm', createBackingStore granted pm R l.*2 = Ok pm' /\
    same_objs ms (pm_objs pm') /\ grows pm pm' l.*2 /\ stored pm' (ar_start R) (ar_end R) l.
Proof.
  intros Hs Hpl (H1 & H2 & Hg) Hb. unfold createBackingStore. rewrite Hpl.
  rewrite plain_size, Hg by done. cbn [negb].
  destruct (point_to_ok ms (length (backingStore pm)) l.*2 (pm_objs pm) Hs Hb) as (objs' & Hp & Hs' & Hout & Hin).
  cbn [pm_objs with_stores]. rewrite Hp. cbn [rbind]. eexists. split; [done|]. split; [done|].
  split.
  - split_and!; try done. cbn. intros k x Hk. rewrite lookup_app_l by (by eapply lookup_lt_Some). done.
  - exists (length (backingStore pm)), R. cbn. split_and!; try done.
    + by rewrite lookup_app_r, Nat.sub_diag by done.
    + intros r i Hi. assert (i ∈ l.*2) as Hi' by (apply list_elem_of_fmap; by exists (r, i)).
      pose proof (proj1 (Forall_forall _ _) Hb i Hi') as Hlt. destruct (lookup_lt_is_Some_2 ms i Hlt) as [m0 Hm0].
      destruct (same_objs_at _ _ _ _ Hs' Hm0) as (m & Hm & _). exists m. split; [done|]. by eapply Hin.
Qed.

(** ** Groups of memories *)

(** A group of entries of the map, for which the host has memory. *)
Definition can_back (x : AddrRange * nat) : Prop := backable (ar_start x.1) (ar_end x.1).

Definition group_stored (pm : PhysicalMemory) (g : list (AddrRange * nat)) : Prop :=
  exists s e, stored pm s e g /\ forall r, r ∈ g.*1 -> ar_start r = s /\ ar_end r = e.

(** Entries of memories with data. *)
Definition with_data_entry (x : AddrRange * nat) : Prop :=
  match ms !! x.2 with Some m => isNull m = false | None => False end.

#[export] Instance with_data_entry_dec x : Decision (with_data_entry x).
Proof. unfold with_data_entry. destruct (ms !! x.2); apply _. Defined.

Lemma data_obj pm x :
  same_objs ms (pm_objs pm) -> with_data_entry x -> exists m, pm_objs pm !! x.2 = Some m /\ isNull m = false.
Proof.
  intros Hs Hd. unfold with_data_entry in Hd. destruct (ms !! x.2) as [m0|] eqn:Hm0; [|done].
  destruct (same_objs_at _ _ _ _ Hs Hm0) as (m & Hm & E). exists m. split; [done|].
  injection E as _ E _ _. congruence.
Qed.

Lemma data_bound l : Forall with_data_entry l -> Forall (fun i => (i < length ms)%nat) l.*2.
Proof.
  intros H. apply Forall_fmap. eapply Forall_impl; [exact H|]. intros x Hx. unfold with_data_entry in Hx.
  destruct (ms !! x.2) eqn:E; [|done]. by eapply lookup_lt_Some.
Qed.

Lemma chunk_tail r l : forall pm rest intlv curr b,
  same_objs ms (pm_objs pm) -> Forall with_data_entry l ->
  Forall (fun x => mergesWith r x = true /\ interleaved x = true) l.*1 ->
  last intlv = Some b -> mergesWith r b = true ->
  back_memories granted pm (l ++ rest) intlv curr = back_memories granted pm rest (intlv ++ l.*1) (curr ++ l.*2).
Proof.
  induction l as [|[x i] l IH]; intros pm rest intlv curr b Hs Hd Hm Hb Hrb.
  { by rewrite !app_nil_r. }
  apply Forall_cons in Hd as [Hx Hd]. rewrite !fmap_cons in *. apply Forall_cons in Hm as [[Hm Hi] Hms].
  destruct (data_obj pm (x, i) Hs Hx) as (m & Ho & Hn). cbn [app back_memories]. cbn [snd fst] in *. rewrite Ho. cbn [deref rbind].
  assert (back_merges intlv x = true) as Hback by (unfold back_merges; rewrite Hb; by eapply merges_trans).
  rewrite Hn, Hi, Hback, andb_false_r. cbn [negb].
  rewrite (IH pm rest (intlv ++ [x]) (curr ++ [i]) x) by (done || by rewrite last_snoc). by rewrite <- !app_assoc.
Qed.

(** Merging what waits. *)
Definition flush (pm : PhysicalMemory) (pend : list (AddrRange * nat)) : result PhysicalMemory :=
  match pend with [] => Ok pm | _ => back_merged granted pm pend.*1 pend.*2 end.

(** Reaching a chunk: what waits is merged first. *)
Lemma chunk_enter g pm pm1 rest pend :
  same_objs ms (pm_objs pm) -> flush pm pend = Ok pm1 -> same_objs ms (pm_objs pm1) ->
  Forall with_data_entry g -> is_chunk g ->
  (forall r, r ∈ g.*1 -> pend = [] \/ back_merges pend.*1 r = false) ->
  back_memories granted pm (g ++ rest) pend.*1 pend.*2 = back_memories granted pm1 rest g.*1 g.*2.
Proof.
  intros Hs Hf Hs1 Hd (r & Hi & Hb & Hg) Hm.
  assert (Forall (fun x => mergesWith r x = true /\ interleaved x = true) g.*1) as Hall.
  { apply Forall_forall. intros x Hx. rewrite Hg in Hx. apply elem_chunk in Hx as [? E]. by rewrite E. }
  assert (g <> []) by (apply chunk_nonempty; by exists r). destruct g as [|[x i] g]; [done|].
  apply Forall_cons in Hd as [Hx Hd]. rewrite !fmap_cons in *. pose proof (Hm _ (list_elem_of_here _ _)) as Hx'.
  apply Forall_cons in Hall as [[Hmx Hix] Hall]. cbn [fst snd] in *.
  destruct (data_obj pm (x, i) Hs Hx) as (m & Ho & Hn). cbn [app back_memories]. cbn [snd fst] in *. rewrite Ho. cbn [deref rbind].
  rewrite Hn, Hix. cbn [negb]. destruct pend as [|y pend].
  - injection Hf as <-. cbn [negb andb rbind app fmap list_fmap]. by rewrite (chunk_tail r g pm rest [x] [i] x).
  - destruct Hx' as [?|Hx']; [done|]. rewrite Hx'. unfold flush in Hf. rewrite !fmap_cons in *. cbn [negb andb].
    rewrite Hf. cbn [rbind]. by rewrite (chunk_tail r g pm1 rest [x] [i] x).
Qed.

Lemma flush_ok pm pend :
  same_objs ms (pm_objs pm) -> Forall with_data_entry pend -> Forall can_back pend -> pend = [] \/ is_chunk pend ->
  exists pm1, flush pm pend = Ok pm1 /\ same_objs ms (pm_objs pm1) /\ grows pm pm1 pend.*2 /\
    (pend <> [] -> group_stored pm1 pend).
Proof.
  intros Hs Hd Hcb [->|(r & Hi & Hb & Hg)]; [exists pm; split_and!; done|].
  assert (backable (ar_start r) (ar_end r)) as Hbk.
  { assert (pend <> []) by (apply chunk_nonempty; by exists r). destruct pend as [|x pend]; [done|].
    pose proof (Forall_inv Hcb) as Hx. unfold can_back in Hx.
    assert (x.1 ∈ chunk_ranges r) as [Hm _]%elem_chunk by (rewrite <- Hg; apply list_elem_of_here).
    apply mergesWith_iff in Hm. by rewrite Hm in Hx. }
  destruct (create_ok pm (AddrRange_plain (ar_start r) (ar_end r)) pend) as (pm1 & Hc & Hs1 & Hgr & Hst);
    [done|done|done|by apply data_bound|].
  exists pm1. split_and!; try done.
  - assert (pend <> []) by (apply chunk_nonempty; by exists r). unfold flush. destruct pend as [|y pend]; [done|].
    unfold back_merged. rewrite Hg, merge_chunk by done. exact Hc.
  - intros _. exists (ar_start r), (ar_end r). split; [done|]. intros x Hx. rewrite Hg in Hx.
    apply elem_chunk in Hx as [Hx _]. apply mergesWith_iff in Hx. by rewrite Hx.
Qed.

Lemma group_stored_grows pm pm' g t :
  group_stored pm g -> grows pm pm' t -> (forall i, i ∈ g.*2 -> i ∉ t) -> group_stored pm' g.
Proof. intros (s & e & Hst & He) Hg Ht. exists s, e. split; [by eapply stored_grows|done]. Qed.

Lemma back_groups gs : forall pm pend,
  same_objs ms (pm_objs pm) -> Forall is_group gs -> Forall with_data_entry (pend ++ concat gs) ->
  Forall can_back (pend ++ concat gs) ->
  pend = [] \/ is_chunk pend -> NoDup (pend ++ concat gs).*1 -> NoDup (pend ++ concat gs).*2 ->
  exists pm', back_memories granted pm (concat gs) pend.*1 pend.*2 = Ok pm' /\ same_objs ms (pm_objs pm') /\
    grows pm pm' (pend ++ concat gs).*2 /\ (pend <> [] -> group_stored pm' pend) /\ Forall (group_stored pm') gs.
Proof.
  induction gs as [|g gs IH]; intros pm pend Hs Hgs Hd Hcb Hp Hn1 Hn2; cbn [concat] in *.
  { rewrite app_nil_r in *. destruct (flush_ok pm pend Hs Hd Hcb Hp) as (pm1 & Hf & Hs1 & Hg & Hst).
    exists pm1. split_and!; try done. unfold flush in Hf. by destruct pend. }
  apply Forall_cons in Hgs as [Hg Hgs]. rewrite !Forall_app in Hd, Hcb. destruct Hd as (Hdp & Hdg & Hdgs), Hcb as (Hcp & Hcg & Hcgs).
  rewrite !fmap_app in *. apply NoDup_app in Hn1 as (N1 & N2 & N3), Hn2 as (M1 & M2 & M3).
  destruct Hg as [(r & i & -> & Hi)|Hg].
  - cbn [app] in *. pose proof (Forall_inv Hcg) as Hbk. destruct (create_ok pm r [(r, i)] Hs Hi Hbk) as (pm1 & Hc & Hs1 & Hgr & Hst); [by apply data_bound|].
    cbn in N2, N3, M2, M3. apply NoDup_cons in N3 as (N4 & N5), M3 as (M4 & M5).
    destruct (IH pm1 pend Hs1 Hgs) as (pm' & Hb & Hs' & Hgr' & Hpst & Hgst); [by apply Forall_app|by apply Forall_app|done|..].
    { rewrite fmap_app. apply NoDup_app. set_solver. }
    { rewrite fmap_app. apply NoDup_app. set_solver. }
    exists pm'. split_and!; try done.
    + cbn [back_memories]. 
      destruct (data_obj pm (r, i) Hs (Forall_inv Hdg)) as (m & Ho & Hn). cbn [snd] in Ho. rewrite Ho. cbn [deref rbind]. rewrite Hn, Hi. cbn [negb].
      cbn in Hc. rewrite Hc. exact Hb.
    + destruct (grows_trans _ _ _ _ _ Hgr Hgr') as (G1 & G2 & G3 & G4 & G5). split_and!; try done.
      intros x Hx. apply G4. rewrite fmap_app. set_solver.
    + constructor; [|done]. eapply group_stored_grows; [|exact Hgr'|].
      * exists (ar_start r), (ar_end r). split; [done|]. intros x Hx. by apply list_elem_of_singleton in Hx as ->.
      * intros x Hx. apply list_elem_of_singleton in Hx as ->. rewrite fmap_app. cbn. set_solver.
  - destruct (flush_ok pm pend Hs Hdp Hcp Hp) as (pm1 & Hf & Hs1 & Hgr & Hst).
    destruct (IH pm1 g Hs1 Hgs) as (pm' & Hb & Hs' & Hgr' & Hpst & Hgst); [by apply Forall_app|by apply Forall_app|by right|by rewrite fmap_app..|].
    pose proof (chunk_nonempty g Hg) as Hne.
    exists pm'. split_and!; try done.
    + rewrite (chunk_enter g pm pm1 (concat gs) pend); try done. intros r Hr. destruct Hp as [|Hp]; [by left|right].
      destruct Hg as (r0 & _ & Hb0 & Hg0). rewrite Hg0 in Hr. pose proof (chunk_match r0 r ltac:(lia) Hr).
      apply chunk_no_merge; [done|lia|lia|]. intros Hr'. apply (N2 r Hr'). apply elem_of_app. left. by rewrite Hg0.
    + pose proof (grows_trans _ _ _ _ _ Hgr Hgr') as G. by rewrite fmap_app in G.
    + intros Hpne. eapply group_stored_grows; [by apply Hst|exact Hgr'|]. rewrite fmap_app. done.
    + constructor; [by apply Hpst|done].
Qed.

Lemma point_to_same k mems : forall objs objs',
  point_to objs mems k = Ok objs' -> same_objs ms objs -> same_objs ms objs'.
Proof.
  induction mems as [|i mems IH]; intros objs objs' H Hs; cbn [point_to] in H; [by injection H as <-|].
  destruct (objs !! i) as [m|] eqn:Hm; [|done]. cbn [deref rbind] in H. eapply IH; [exact H|].
  unfold same_objs. rewrite list_fmap_insert. unfold config at 1. cbn. rewrite list_insert_id; [done|].
  by rewrite list_lookup_fmap, Hm.
Qed.

Lemma create_same pm R l pm' :
  createBackingStore granted pm R l = Ok pm' -> same_objs ms (pm_objs pm) -> same_objs ms (pm_objs pm').
Proof.
  unfold createBackingStore. intros H Hs. repeat case_match; try done. apply bind_ok in H as (objs & Hp & [= <-]).
  by eapply point_to_same.
Qed.

(** Null memories are passed over. *)
Lemma back_filter tree : forall pm intlv curr,
  same_objs ms (pm_objs pm) -> Forall (fun i => (i < length ms)%nat) tree.*2 ->
  back_memories granted pm tree intlv curr = back_memories granted pm (filter with_data_entry tree) intlv curr.
Proof.
  induction tree as [|[r i] tree IH]; intros pm intlv curr Hs Hb; [done|].
  rewrite fmap_cons in Hb. apply Forall_cons in Hb as [Hi Hb]. cbn [snd] in Hi. rewrite filter_cons.
  destruct (lookup_lt_is_Some_2 ms i Hi) as [m0 Hm0]. destruct (same_objs_at _ _ _ _ Hs Hm0) as (m & Hm & E).
  injection E as _ E _ _. case_decide as Hd; unfold with_data_entry in Hd; cbn [snd] in Hd; rewrite Hm0 in Hd.
  - cbn [back_memories]. rewrite Hm. cbn [deref rbind]. rewrite E, Hd. cbn [negb].
    assert (forall (op : result PhysicalMemory) intlv curr,
      (forall pm', op = Ok pm' -> same_objs ms (pm_objs pm')) ->
      (let* pm := op in back_memories granted pm tree intlv curr) =
      (let* pm := op in back_memories granted pm (filter with_data_entry tree) intlv curr)) as Hop.
    { intros [pm'|] il cu Hop; [|done]. cbn [rbind]. apply IH; [by apply Hop|done]. }
    case_match; [case_match|]; [apply Hop|by apply IH|apply Hop].
    + intros pm' Hpm. unfold back_merged in Hpm. apply bind_ok in Hpm as (x & _ & Hc). by eapply create_same.
    + intros pm' Hc. by eapply create_same.
  - cbn [back_memories]. rewrite Hm. cbn [deref rbind]. rewrite E. destruct (isNull m0); [|done]. cbn [negb]. by apply IH.
Qed.

End Stores.

(** ** The constructor *)

(** Memory [i] of the system is in the global address map. *)
Definition mapped (ms : list Memory) (i : nat) (m : Memory) : Prop := ms !! i = Some m /\ isInAddrMap m = true.

(** The memories of a system: ranges as above, for which the host has memory;
    those in the address map are compatible, and chunks with data complete; no
    address is locked yet. *)
Record system_ok (granted : Z -> bool) (ms : list Memory) : Prop := {
  so_range : forall i m, mapped ms i m ->
    range_ok (getAddrRange m) /\ backable granted (ar_start (getAddrRange m)) (ar_end (getAddrRange m));
  so_apart : forall i m j m', mapped ms i m -> mapped ms j m' -> i <> j ->
    compatible (getAddrRange m) (getAddrRange m');
  so_full : forall i m, mapped ms i m -> isNull m = false -> interleaved (getAddrRange m) = true ->
    forall x, 0 <= x < 2 ^ intlvBits (getAddrRange m) ->
    exists j m', mapped ms j m' /\ isNull m' = false /\ getAddrRange m' = with_match (getAddrRange m) x;
  so_unmapped : forall i m, ms !! i = Some m -> isInAddrMap m = false ->
    interleaved (getAddrRange m) = false /\
    backable granted (ar_start (getAddrRange m)) (ar_end (getAddrRange m));
  so_unlocked : forall i m, mapped ms i m -> lockedAddrList (me_mem m) = [];
}.

Section New.
Context (granted : Z -> bool) (ms : list Memory) (Hok : system_ok granted ms).

(** After the first [a] memories. *)
Record added (a : nat) (pm : PhysicalMemory) : Prop := {
  ad_objs : same_objs ms (pm_objs pm);
  ad_sorted : StronglySorted key_lt (addrMap pm);
  ad_entries : forall r i, (r, i) ∈ addrMap pm <-> (i < a)%nat /\ exists m, mapped ms i m /\ getAddrRange m = r;
  ad_cache : rangeCache pm = None;
}.

Lemma added_ranges a pm : added a pm -> Forall range_ok (addrMap pm).*1.
Proof.
  intros Ha. apply Forall_forall. intros r ([r' i] & -> & Hi)%list_elem_of_fmap.
  apply (ad_entries _ _ Ha) in Hi as (_ & m & Hm & <-). apply (so_range _ _ Hok _ _ Hm).
Qed.

Lemma config_same m m' : config m' = config m ->
  me_mem m' = me_mem m /\ isNull m' = isNull m /\ isConfReported m' = isConfReported m /\
  isInAddrMap m' = isInAddrMap m /\ getAddrRange m' = getAddrRange m.
Proof. intros [= H1 H2 H3 H4]. unfold getAddrRange. by rewrite H1. Qed.

Lemma add_one a pm m0 :
  added a pm -> ms !! a = Some m0 ->
  exists m pm', pm_objs pm !! a = Some m /\ added (S a) pm' /\
    (if isInAddrMap m then
       let* '(tree, done) := arm_insert (addrMap pm) (getAddrRange m) a in
       if done : bool then
         Ok (mkPhysicalMemory (pm_objs pm) tree (rangeCache pm) (memories pm ++ [a])
               (u64 (pm_size pm + ar_size (getAddrRange m))) (backingStore pm))
       else Err Fatal
     else if interleaved (getAddrRange m) then Err Fatal
     else createBackingStore granted pm (getAddrRange m) [a]) = Ok pm'.
Proof.
  intros Ha Hm0. destruct (same_objs_at _ _ _ _ (ad_objs _ _ Ha) Hm0) as (m & Hm & E).
  exists m. apply config_same in E as (_ & _ & _ & -> & ->). destruct (isInAddrMap m0) eqn:Hin.
  - assert (mapped ms a m0) as Hmap by done. destruct (so_range _ _ Hok _ _ Hmap) as [Hr _].
    assert (Forall (fun x => compatible x (getAddrRange m0)) (addrMap pm).*1) as Hc.
    { apply Forall_forall. intros r ([r' i] & -> & Hi)%list_elem_of_fmap.
      apply (ad_entries _ _ Ha) in Hi as (Hlt & m1 & Hm1 & <-). eapply (so_apart _ _ Hok); [done..|lia]. }
    rewrite (arm_insert_ok _ _ a Hr (added_ranges _ _ Ha) Hc). cbn [rbind]. eexists. split; [done|]. split; [|done].
    split; cbn.
    + apply Ha.
    + apply map_insert_sorted; [done|by eapply added_ranges|done|apply Ha].
    + intros r i. rewrite (map_insert_perm _ _ a Hc (added_ranges _ _ Ha) Hr), elem_of_cons, (ad_entries _ _ Ha). split.
      * intros [[= -> ->]|[Hi Hx]]; [split; [lia|by exists m0]|split; [lia|done]].
      * intros [Hi Hx]. destruct (decide (i = a)) as [->|]; [left|right; split; [lia|done]].
        destruct Hx as (m1 & [Hm1 _] & <-). congruence.
    + apply Ha.
  - destruct (so_unmapped _ _ Hok _ _ Hm0 Hin) as [-> Hb].
    destruct (create_ok granted ms pm (getAddrRange m0) [(getAddrRange m0, a)] (ad_objs _ _ Ha)) as (pm' & Hc & Hs & Hg & _).
    { by destruct (so_unmapped _ _ Hok _ _ Hm0 Hin). }
    { done. }
    { repeat constructor. cbn. by eapply lookup_lt_Some. }
    exists pm'. split; [done|]. split; [|exact Hc]. destruct Hg as (G1 & G2 & _). split; [done|..].
    + rewrite G1. apply Ha.
    + intros r i. rewrite G1, (ad_entries _ _ Ha). split; [intros [? ?]; split; [lia|done]|].
      intros [Hi (m1 & [Hm1 Hin1] & Hr)]. destruct (decide (i = a)) as [->|]; [congruence|]. split; [lia|]. by exists m1.
    + rewrite G2. apply Ha.
Qed.

Lemma add_all n : forall a pm,
  added a pm -> (a + n = length ms)%nat ->
  exists pm', add_memories granted pm (seq a n) = Ok pm' /\ added (length ms) pm'.
Proof.
  induction n as [|n IH]; intros a pm Ha Hn; cbn [seq add_memories].
  { exists pm. split; [done|]. by replace (length ms) with a by lia. }
  destruct (lookup_lt_is_Some_2 ms a) as [m0 Hm0]; [lia|].
  destruct (add_one a pm m0 Ha Hm0) as (m & pm1 & Hm & Ha1 & E). rewrite Hm. cbn [deref rbind]. rewrite E. cbn [rbind].
  apply IH; [done|lia].
Qed.

(** What the constructor has built. *)
Definition zero_spec : PhysSpec := mkPhysSpec (fun _ => 0) (fun _ => ∅).

Record built (pm : PhysicalMemory) : Prop := {
  bt_rep : phys_rep pm zero_spec;
  bt_objs : same_objs ms (pm_objs pm);
  bt_sorted : StronglySorted key_lt (addrMap pm);
  bt_entries : forall r i, (r, i) ∈ addrMap pm <-> exists m, mapped ms i m /\ getAddrRange m = r;
}.

Section Backing.
Context (pm0 pm : PhysicalMemory) (H0 : added (length ms) pm0).
Let data_tree := filter (with_data_entry ms) (addrMap pm0).
Context (gs : list (list (AddrRange * nat))) (Hgs : data_tree = concat gs) (Hg : Forall is_group gs).
Context (Hst : Forall (group_stored pm) gs) (Hobj : same_objs ms (pm_objs pm)) (Hmap : addrMap pm = addrMap pm0).

Lemma entry_mapped r i : (r, i) ∈ addrMap pm0 <-> exists m, mapped ms i m /\ getAddrRange m = r.
Proof.
  rewrite (ad_entries _ _ H0). split; [by intros [_ ?]|]. intros (m & Hm & Hr). split; [|by exists m].
  destruct Hm as [Hm _]. by eapply lookup_lt_Some.
Qed.

(** The group of an entry with data. *)
Lemma entry_group r i m :
  (r, i) ∈ addrMap pm0 -> pm_objs pm !! i = Some m -> isNull m = false ->
  exists g, g ∈ gs /\ (r, i) ∈ g /\ is_group g /\ group_stored pm g.
Proof.
  intros Hi Hm Hn. assert ((r, i) ∈ data_tree) as Hd.
  { apply list_elem_of_filter. split; [|done]. unfold with_data_entry. cbn [snd].
    apply entry_mapped in Hi as (m0 & [Hm0 _] & _). rewrite Hm0.
    destruct (same_objs_at _ _ _ _ Hobj Hm0) as (m1 & Hm1 & E). apply config_same in E as (_ & E & _). congruence. }
  rewrite Hgs in Hd. apply elem_of_concat in Hd as (g & Hx & Hin). exists g. split_and!; [done|done|..].
  - by eapply Forall_forall in Hg.
  - by eapply Forall_forall in Hst.
Qed.

Lemma zeros_represented a m :
  range_ok (am_range a) -> lockedAddrList a = [] -> m = Z.to_nat (ar_end (am_range a) - ar_start (am_range a) + 1) ->
  represents (with_pmem a (Some (replicate m 0))) (replicate m 0) (mkMemSpec (fun _ => 0) ∅).
Proof.
  intros Hr Hl ->. pose proof (ro_wf _ Hr) as Hw. pose proof (wf_valid _ Hw). split; cbn.
  - split; [apply Hw|apply Hw].
  - done.
  - rewrite length_replicate. lia.
  - intros i b Hb. by apply lookup_replicate in Hb as [-> _].
  - rewrite Hl. constructor.
  - intros c g. rewrite Hl, lookup_empty. split; [done|]. intros Hx. by apply not_elem_of_nil in Hx.
Qed.

Lemma entry_backed r i m :
  (r, i) ∈ addrMap pm0 -> pm_objs pm !! i = Some m -> isNull m = false ->
  exists k bs, backed pm zero_spec i m k bs.
Proof.
  intros Hi Hm Hn. destruct (entry_group r i m Hi Hm Hn) as (g & _ & Hx & _ & s & e & (k & R & Hk & HRs & HRe & Hall) & Hb).
  destruct (Hb r) as [Hs He]; [apply list_elem_of_fmap; by exists (r, i)|].
  destruct (Hall r i Hx) as (m' & Hm' & Hmk). rewrite Hm in Hm'. injection Hm' as <-.
  apply entry_mapped in Hi as (m0 & Hmap0 & Hr0). destruct Hmap0 as [Hm0 Hin].
  destruct (same_objs_at _ _ _ _ Hobj Hm0) as (m1 & Hm1 & E). rewrite Hm in Hm1. injection Hm1 as <-.
  apply config_same in E as (E & _ & _ & _ & Er). exists k, (replicate (Z.to_nat (e - s + 1)) 0). split; [done|..].
  - exists R. split; [done|]. rewrite Er, Hr0. by rewrite HRs, HRe.
  - assert (am_range (me_mem m0) = r) as Hra by done.
    rewrite E. apply zeros_represented; rewrite ?Hra, ?Hs, ?He; [|by eapply (so_unlocked _ _ Hok)|done].
    rewrite <- Hr0. by eapply (so_range _ _ Hok).
Qed.

Lemma entries_share r i m r' i' m' :
  (r, i) ∈ addrMap pm0 -> pm_objs pm !! i = Some m -> isNull m = false ->
  (r', i') ∈ addrMap pm0 -> pm_objs pm !! i' = Some m' -> isNull m' = false ->
  mergesWith r r' = true -> me_store m = me_store m'.
Proof.
  intros Hi Hm Hn Hi' Hm' Hn' Hmw. destruct (decide (i = i')) as [->|Hne]; [congruence|].
  pose proof Hi as (m0 & Hmap0 & Hr)%entry_mapped. pose proof Hi' as (m0' & Hmap0' & Hr')%entry_mapped.
  destruct (so_apart _ _ Hok _ _ _ _ Hmap0 Hmap0' Hne) as [(Hint & _)|Ha]; rewrite Hr, ?Hr' in *.
  - destruct (entry_group r i m Hi Hm Hn) as (g & Hgin & Hx & Hgrp & s & e & (k & R & _ & _ & _ & Hall) & _).
    destruct Hgrp as [(r1 & i1 & -> & Hpl)|(r1 & _ & Hb & Hch)].
    { apply list_elem_of_singleton in Hx. injection Hx as -> ->. congruence. }
    destruct (so_range _ _ Hok _ _ Hmap0') as [Hro _]. rewrite Hr' in Hro.
    assert (r ∈ chunk_ranges r1) as Hrc by (rewrite <- Hch; apply list_elem_of_fmap; by exists (r, i)).
    apply elem_chunk in Hrc as [Hr1%mergesWith_iff _]. apply mergesWith_iff in Hmw.
    assert (interleaved r' = true) as Hint' by (by rewrite Hmw).
    assert (r' ∈ g.*1) as Hr'g.
    { rewrite Hch. unfold chunk_ranges. apply list_elem_of_fmap. exists (Z.to_nat (intlvMatch r')).
      pose proof (wf_match _ (ro_wf _ Hro)). pose proof (wf_match_fits _ (ro_wf _ Hro) Hint') as Hfit.
      rewrite Z2Nat.id by done. split; [by rewrite Hmw, Hr1|]. apply elem_of_seq. rewrite Hmw, Hr1 in Hfit. cbn in Hfit. lia. }
    apply list_elem_of_fmap in Hr'g as ([r2 i2] & -> & Hx2). cbn [fst] in *.
    assert (i2 = i') as ->.
    { assert ((r2, i2) ∈ addrMap pm0) as Hi2.
      { assert ((r2, i2) ∈ data_tree) as Hd by (rewrite Hgs; apply elem_of_concat; by exists g).
        by apply list_elem_of_filter in Hd as [_ Hd]. }
      apply list_elem_of_lookup_1 in Hi2 as [n Hn2], Hi' as [n' Hn2'].
      assert (n = n') as -> by (eapply NoDup_lookup; [apply (sorted_nodup _ (ad_sorted _ _ H0))|apply fst_lookup; eauto..]).
      congruence. }
    destruct (Hall _ _ Hx) as (o1 & Ho1 & E1). destruct (Hall _ _ Hx2) as (o2 & Ho2 & E2). congruence.
  - exfalso. apply mergesWith_iff in Hmw. destruct (so_range _ _ Hok _ _ Hmap0) as [Hro _]. rewrite Hr in Hro.
    pose proof (wf_valid _ (ro_wf _ Hro)). apply (Ha (ar_start r)); [unfold in_bounds; lia|].
    rewrite Hmw. unfold in_bounds. cbn. lia.
Qed.
End Backing.

Lemma data_tree_groups pm0 :
  added (length ms) pm0 ->
  exists gs, filter (with_data_entry ms) (addrMap pm0) = concat gs /\ Forall is_group gs.
Proof.
  intros H0. pose proof (entry_mapped pm0 H0) as He.
  assert (forall r i, (r, i) ∈ filter (with_data_entry ms) (addrMap pm0) <->
            exists m, mapped ms i m /\ isNull m = false /\ getAddrRange m = r) as Hin.
  { intros r i. rewrite list_elem_of_filter, He. unfold with_data_entry. cbn [snd]. split.
    - intros [Hd (m & [Hm Hx] & Hr)]. rewrite Hm in Hd. by exists m.
    - intros (m & [Hm Hx] & Hn & Hr). rewrite Hm. split; [done|]. by exists m. }
  assert (forall r, r ∈ (filter (with_data_entry ms) (addrMap pm0)).*1 ->
            exists i m, mapped ms i m /\ isNull m = false /\ getAddrRange m = r) as Hr.
  { intros r ([r' i] & -> & Hi)%list_elem_of_fmap. apply Hin in Hi as (m & Hm). by exists i, m. }
  apply (grouped (length (filter (with_data_entry ms) (addrMap pm0)))); [done|apply sorted_filter, (ad_sorted _ _ H0)|..].
  - apply Forall_forall. intros r (i & m & Hm & _ & <-)%Hr. apply (so_range _ _ Hok _ _ Hm).
  - intros r (i & m & Hm & Hn & <-)%Hr Hi x Hx.
    destruct (so_full _ _ Hok _ _ Hm Hn Hi x Hx) as (j & m' & Hm' & Hn' & <-).
    apply list_elem_of_fmap. exists (getAddrRange m', j). split; [done|]. apply Hin. by exists m'.
Qed.

Lemma mapped_nodup pm0 : added (length ms) pm0 -> NoDup (addrMap pm0).*2.
Proof.
  intros H0. apply NoDup_alt. intros a b i Ha Hb. rewrite list_lookup_fmap in Ha, Hb.
  destruct (addrMap pm0 !! a) as [[r ?]|] eqn:Ea; [|done]. destruct (addrMap pm0 !! b) as [[r' ?]|] eqn:Eb; [|done].
  cbn in Ha, Hb. simplify_eq. assert (r = r') as <-.
  { pose proof (list_elem_of_lookup_2 _ _ _ Ea) as (m & [Hm _] & <-)%(entry_mapped _ H0).
    pose proof (list_elem_of_lookup_2 _ _ _ Eb) as (m' & [Hm' _] & <-)%(entry_mapped _ H0). congruence. }
  eapply NoDup_lookup; [apply (sorted_nodup _ (ad_sorted _ _ H0))|apply fst_lookup; eauto..].
Qed.

Lemma new_ok : exists pm, PhysicalMemory_new granted ms = Ok pm /\ built pm.
Proof.
  destruct (add_all (length ms) 0 (mkPhysicalMemory ms [] None [] 0 [])) as (pm0 & Hadd & H0); [|done|].
  { split; try done; [constructor|]. intros r i. split; [intros Hx; by apply not_elem_of_nil in Hx|intros [? _]; lia]. }
  destruct (data_tree_groups pm0 H0) as (gs & Hgs & Hg).
  assert (NoDup (concat gs).*1 /\ NoDup (concat gs).*2) as [N1 N2].
  { rewrite <- Hgs. split; [apply sorted_nodup, sorted_filter, (ad_sorted _ _ H0)|].
    eapply sublist_NoDup; [by apply (mapped_nodup pm0)|]. apply fmap_sublist, sublist_filter. }
  destruct (back_groups granted ms gs pm0 [] (ad_objs _ _ H0) Hg) as (pm & Hb & Hobj & (Hmap & _) & _ & Hst);
    [|  |by left|done|done|].
  { cbn [app]. rewrite <- Hgs. apply Forall_forall. by intros x [Hx _]%list_elem_of_filter. }
  { cbn [app]. rewrite <- Hgs. apply Forall_forall. intros [r i] [_ (m & Hm & <-)%(entry_mapped _ H0)]%list_elem_of_filter.
    apply (so_range _ _ Hok _ _ Hm). }
  exists pm. unfold PhysicalMemory_new. rewrite Hadd. cbn [rbind]. rewrite (back_filter granted ms), Hgs; [|apply H0|].
  2: { apply Forall_forall. intros i ([r i'] & -> & Hi)%list_elem_of_fmap. by apply (ad_entries _ _ H0) in Hi as [? _]. }
  split; [exact Hb|]. pose proof (entry_mapped pm0 H0) as He. split; [|done|rewrite Hmap; apply H0|by rewrite Hmap].
  assert (forall j r i, addrMap pm !! j = Some (r, i) -> (r, i) ∈ addrMap pm0) as Hin.
  { intros j r i Hj. rewrite <- Hmap. by eapply list_elem_of_lookup_2. }
  assert (forall r i, (r, i) ∈ addrMap pm0 -> range_ok r) as Hro.
  { intros r i (m & Hm & <-)%He. apply (so_range _ _ Hok _ _ Hm). }
  split.
  - rewrite Hmap. apply sorted_tree_wf; [apply H0|by eapply added_ranges|].
    intros x y ([x' i] & -> & Hi)%list_elem_of_fmap ([y' j] & -> & Hj)%list_elem_of_fmap.
    apply He in Hi as (m & Hm & <-), Hj as (m' & Hm' & <-). cbn [fst].
    destruct (decide (i = j)) as [->|Hne]; [left; destruct Hm, Hm'; congruence|right; by eapply (so_apart _ _ Hok)].
  - intros j r i Hj%Hin. apply Hro in Hj. apply (ro_first _ Hj).
  - intros j r i Hj%Hin. pose proof Hj as (m0 & Hm0 & Hr)%He. destruct (same_objs_at _ _ _ _ Hobj (proj1 Hm0)) as (m & Hm & E).
    apply config_same in E as (_ & _ & _ & _ & E). exists m. split; [done|]. split; [congruence|]. intros Hn. by eapply entry_backed.
  - intros j r i m j' r' i' m' Hj%Hin Hm Hj'%Hin Hm' Hn Hn' Hmw. by eapply (entries_share pm0 pm H0 gs Hgs Hg Hst Hobj r i m r' i' m').
Qed.
End New.

(** ** Observations *)

Definition packet_for (ms : list Memory) (p : Packet) (d : list Z) : Prop :=
  exists i m, mapped ms i m /\ isNull m = false /\ contains (getAddrRange m) (addr p) = true /\ asks (me_mem m) p d.

(** Operations on addresses, and packets to memories with data. *)
Definition op_for (ms : list Memory) (o : phys_op) : Prop :=
  match o with
  | AskAddr a => is_u64 a
  | Access p => exists d, packet_for ms p d
  | Functional p => exists d, packet_for ms p d /\ (isRead (cmd p) || isWrite (cmd p)) && needsResponse (cmd p) = true
  end.

Lemma packet_built ms pm p d : built ms pm -> packet_for ms p d -> for_memory pm p d.
Proof.
  intros Hb (i & m & Hm & Hn & Hc & Ha).
  assert ((getAddrRange m, i) ∈ addrMap pm) as Hi by (apply (bt_entries _ _ Hb); by exists m).
  apply list_elem_of_lookup_1 in Hi as [j Hj]. destruct (same_objs_at _ _ _ _ (bt_objs _ _ Hb) (proj1 Hm)) as (m' & Hm' & E).
  apply config_same in E as (E1 & E2 & _). exists j, (getAddrRange m), i, m'. rewrite E1, E2. by split_and!.
Qed.

Lemma op_built ms pm o : built ms pm -> op_for ms o -> op_ok pm o.
Proof. intros Hb. destruct o; cbn; [done|..]; naive_solver eauto using packet_built. Qed.

Definition covers (ms : list Memory) (a : Z) : Prop :=
  exists i m, mapped ms i m /\ contains (getAddrRange m) a = true.

(** Not a load-locked or store-conditional. *)
Definition lock_free (o : phys_op) : Prop :=
  match o with Access p => isLLSC (cmd p) = false | _ => True end.

Definition same_bytes (s s' : MemSpec) : Prop := forall a, sp_byte s a = sp_byte s' a.

Lemma same_read s s' a n : same_bytes s s' -> sp_read s a n = sp_read s' a n.
Proof. intros H. unfold sp_read. apply list_fmap_ext. intros. apply H. Qed.

Lemma same_write s s' a d : same_bytes s s' -> same_bytes (sp_write s a d) (sp_write s' a d).
Proof. intros H x. unfold sp_write, mem_store. cbn. case_decide; by rewrite H. Qed.

Lemma sp_access_same s s' p d :
  same_bytes s s' -> isLLSC (cmd p) = false ->
  same_bytes (sp_access s p d).1.1 (sp_access s' p d).1.1 /\ (sp_access s p d).1.2 = (sp_access s' p d).1.2 /\
  (sp_access s p d).2 = (sp_access s' p d).2.
Proof.
  intros H Hl. unfold sp_access. rewrite Hl, (same_read s s') by done.
  repeat case_match; cbn; split_and!; try done; by apply same_write.
Qed.

Lemma sp_functional_same s s' p d :
  same_bytes s s' ->
  same_bytes (sp_functional s p d).1 (sp_functional s' p d).1 /\ (sp_functional s p d).2 = (sp_functional s' p d).2.
Proof.
  intros H. unfold sp_functional. rewrite (same_read s s') by done. case_match; cbn; split; try done. by apply same_write.
Qed.

Lemma spec_run_same tree tree' os : forall s s',
  (forall a, owner tree a = None <-> owner tree' a = None) -> (forall a, ph_byte s a = ph_byte s' a) ->
  Forall lock_free os -> (spec_run tree s os).2 = (spec_run tree' s' os).2.
Proof.
  induction os as [|o os IH]; intros s s' Ho Hb Hl; [done|]. apply Forall_cons in Hl as [Hlo Hl].
  cbn [spec_run snd]. destruct o as [a|p|p]; cbn [spec_step fst snd].
  - rewrite (IH s s') by done. specialize (Ho a). destruct (owner tree a), (owner tree' a); naive_solver.
  - destruct (sp_access_same (mem_spec s (default 0%nat (owner tree (addr p)))) (mem_spec s' (default 0%nat (owner tree' (addr p))))
      p (default [] (data p)) Hb Hlo) as (H1 & H2 & H3).
    rewrite H2, H3. f_equal. by apply IH.
  - destruct (sp_functional_same (mem_spec s (default 0%nat (owner tree (addr p)))) (mem_spec s' (default 0%nat (owner tree' (addr p))))
      p (default [] (data p)) Hb) as (H1 & H2).
    rewrite H2. f_equal. by apply IH.
Qed.

Lemma owner_covers ms pm a : built ms pm -> owner (addrMap pm) a = None <-> ~ covers ms a.
Proof.
  intros Hb. pose proof (owner_spec (addrMap pm) a) as Ho. split.
  - intros E (i & m & Hm & Hc). rewrite E in Ho.
    assert ((getAddrRange m, i) ∈ addrMap pm) as [j Hj]%list_elem_of_lookup_1 by (apply (bt_entries _ _ Hb); by exists m).
    by rewrite (Ho _ _ _ Hj) in Hc.
  - intros Hc. destruct (owner (addrMap pm) a) as [i|]; [|done]. destruct Ho as (j & r & Hj & Hr). exfalso. apply Hc.
    apply list_elem_of_lookup_2, (bt_entries _ _ Hb) in Hj as (m & Hm & <-). by exists i, m.
Qed.

(** ** Properties *)

(** C27: The physical memory is a flat memory.  From the memories of a system it
    is built without failing, with every byte zero; then every sequence of
    address checks, accesses and functional accesses succeeds and is answered
    as by one array of bytes with a table of reservations for each memory, the
    cached entry and the sharing of backing stores notwithstanding. *)
Theorem physical_memory_flat granted ms os :
  system_ok granted ms -> Forall (op_for ms) os ->
  exists pm pm', PhysicalMemory_new granted ms = Ok pm /\
    phys_run pm os = Ok (pm', (spec_run (addrMap pm) zero_spec os).2) /\
    phys_rep pm' (spec_run (addrMap pm) zero_spec os).1.
Proof.
  intros Hok Hos. destruct (new_ok granted ms Hok) as (pm & Hn & Hb).
  destruct (phys_run_ok os pm zero_spec (bt_rep _ _ Hb)) as (pm' & Hr & HR & _).
  { eapply Forall_impl; [exact Hos|]. intros o. by apply op_built. }
  by exists pm, pm'.
Qed.

(** A plain memory, and the same bytes in two interleaved memories. *)
Definition demo_mem (r : AddrRange) : Memory := mkMemory (mkAbstractMemory r None [] []) false true true None.
Definition one_memory : list Memory := [demo_mem (AddrRange_plain 0x1000 0x103f)].
Definition two_memories : list Memory :=
  [demo_mem (mkAddrRange 0x1000 0x103f 4 0 1 0); demo_mem (mkAddrRange 0x1000 0x103f 4 0 1 1)].

Lemma demo_plain_ok : range_ok (AddrRange_plain 0x1000 0x103f).
Proof. split; [split|..]; unfold in_range; cbn [AddrRange_plain ar_start ar_end intlvBits intlvMatch]; lia || done. Qed.

Lemma demo_stripe_ok x : 0 <= x <= 1 -> range_ok (mkAddrRange 0x1000 0x103f 4 0 1 x).
Proof.
  intros Hx. split; [split|..]; unfold in_range; cbn [ar_start ar_end intlvBits intlvMatch intlvHighBit]; try lia; try done.
  assert (x = 0 \/ x = 1) as [-> | ->] by lia; [lia|done].
Qed.

Lemma one_memory_ok : system_ok (fun _ => true) one_memory.
Proof.
  assert (forall i m, mapped one_memory i m -> i = 0%nat /\ m = demo_mem (AddrRange_plain 0x1000 0x103f)) as H.
  { intros [|i] m [Hi _]; [|done]. by injection Hi as <-. }
  split.
  - intros i m (_ & ->)%H. split; [exact demo_plain_ok|]. by split_and!.
  - intros i m j m' (-> & _)%H (-> & _)%H Hne. done.
  - intros i m (_ & ->)%H. done.
  - intros [|i] m Hi Hin; [by injection Hi as <-|done].
  - by intros i m (_ & ->)%H.
Qed.

Lemma two_memories_ok : system_ok (fun _ => true) two_memories.
Proof.
  assert (forall i m, mapped two_memories i m ->
    (i < 2)%nat /\ m = demo_mem (mkAddrRange 0x1000 0x103f 4 0 1 (Z.of_nat i))) as H.
  { intros [|[|i]] m [Hi _]; [injection Hi as <-; split; [lia|done]..|done]. }
  split.
  - intros i m (Hi & ->)%H. split; [apply demo_stripe_ok; lia|]. by split_and!.
  - intros i m j m' (Hi & ->)%H (Hj & ->)%H Hne. left. split_and!; [done|by apply mergesWith_iff|cbn; lia].
  - intros i m (Hi & ->)%H _ _ x Hx. cbn in Hx. change (Z.pow_pos 2 1) with 2 in Hx.
    exists (Z.to_nat x), (demo_mem (mkAddrRange 0x1000 0x103f 4 0 1 x)).
    assert (x = 0 \/ x = 1) as [-> | ->] by lia; done.
  - intros [|[|i]] m Hi Hin; [by injection Hi as <-..|done].
  - by intros i m (_ & ->)%H.
Qed.

(** A store to each stripe and loads of both. *)
Definition demo_ops : list phys_op :=
  [AskAddr 0x1004; Access (demo_packet WriteReq 0x1004 0 [1; 2; 3; 4]);
   Access (demo_packet WriteReq 0x1014 0 [5; 6; 7; 8]); Functional (demo_packet ReadReq 0x1004 0 [0; 0; 0; 0]);
   Access (demo_packet ReadReq 0x1014 0 [0; 0; 0; 0]); AskAddr 0x2000].

Lemma demo_asks_in r k a d :
  ar_start r = 0x1000 -> ar_end r = 0x103f -> (length d < 64)%nat -> d <> [] -> 0x1000 <= a -> a + Z.of_nat (length d) <= 0x1040 ->
  (isRead k || isInvalidate k || isWrite k) && isRequest k = true ->
  asks (me_mem (demo_mem r)) (demo_packet k a 0 d) d.
Proof.
  intros Hs He Hl Hne H1 H2 Hk. assert (length d <> 0)%nat by (by destruct d).
  apply cpu_packet_asks; try done; cbn; try lia. unfold region. lia.
Qed.

Lemma one_memory_ops : Forall (op_for one_memory) demo_ops.
Proof.
  repeat constructor; cbn; try (unfold in_range; lia).
  all: eexists; try split; try done; exists 0%nat, (demo_mem (AddrRange_plain 0x1000 0x103f)); split_and!; try done;
    apply demo_asks_in; cbn; (done || lia).
Qed.

Lemma two_memories_ops : Forall (op_for two_memories) demo_ops.
Proof.
  repeat constructor; cbn; try (unfold in_range; lia); eexists; try split; try done.
  1, 3: exists 0%nat, (demo_mem (mkAddrRange 0x1000 0x103f 4 0 1 0)); split_and!; try done; apply demo_asks_in; cbn; (done || lia).
  all: exists 1%nat, (demo_mem (mkAddrRange 0x1000 0x103f 4 0 1 1)); split_and!; try done; apply demo_asks_in; cbn; (done || lia).
Qed.

Lemma physical_memory_flat_witness :
  exists pm pm', PhysicalMemory_new (fun _ => true) two_memories = Ok pm /\
    phys_run pm demo_ops = Ok (pm', (spec_run (addrMap pm) zero_spec demo_ops).2).
Proof.
  destruct (physical_memory_flat (fun _ => true) two_memories demo_ops two_memories_ok two_memories_ops) as (pm & pm' & H1 & H2 & _).
  exists pm, pm'. split; [exact H1|exact H2].
Defined.

(** How the memory of a system is divided cannot be observed: two systems
    whose memories cover the same addresses, with whatever ranges and
    interleaving, answer every sequence of address checks, accesses and
    functional accesses alike, locked accesses apart (each memory has its own
    locks). *)
Theorem division_invisible granted ms1 ms2 os :
  system_ok granted ms1 -> system_ok granted ms2 -> (forall a, covers ms1 a <-> covers ms2 a) ->
  Forall (op_for ms1) os -> Forall (op_for ms2) os -> Forall lock_free os ->
  exists pm1 pm2 pm1' pm2' outs,
    PhysicalMemory_new granted ms1 = Ok pm1 /\ PhysicalMemory_new granted ms2 = Ok pm2 /\
    phys_run pm1 os = Ok (pm1', outs) /\ phys_run pm2 os = Ok (pm2', outs).
Proof.
  intros Hok1 Hok2 Hc Hos1 Hos2 Hl. destruct (new_ok granted ms1 Hok1) as (pm1 & Hn1 & Hb1), (new_ok granted ms2 Hok2) as (pm2 & Hn2 & Hb2).
  destruct (phys_run_ok os pm1 zero_spec (bt_rep _ _ Hb1)) as (pm1' & Hr1 & _).
  { eapply Forall_impl; [exact Hos1|]. intros o. by apply op_built. }
  destruct (phys_run_ok os pm2 zero_spec (bt_rep _ _ Hb2)) as (pm2' & Hr2 & _).
  { eapply Forall_impl; [exact Hos2|]. intros o. by apply op_built. }
  eexists pm1, pm2, pm1', pm2', _. split_and!; try done. rewrite Hr2. do 2 f_equal. symmetry. apply spec_run_same; try done.
  intros a. by rewrite (owner_covers _ _ a Hb1), (owner_covers _ _ a Hb2), Hc.
Qed.

Lemma division_invisible_witness :
  exists pm1 pm2 pm1' pm2' outs,
    PhysicalMemory_new (fun _ => true) one_memory = Ok pm1 /\ PhysicalMemory_new (fun _ => true) two_memories = Ok pm2 /\
    phys_run pm1 demo_ops = Ok (pm1', outs) /\ phys_run pm2 demo_ops = Ok (pm2', outs).
Proof.
  apply (division_invisible (fun _ => true) one_memory two_memories demo_ops one_memory_ok two_memories_ok);
    [|exact one_memory_ops|exact two_memories_ops|repeat constructor].
  intros a. split.
  - intros ([|i] & m & [Hi _] & Hc); [|discriminate Hi]. injection Hi as <-. apply contains_iff in Hc as [Hb _]. cbn in Hb.
    assert (ar_wf (mkAddrRange 0x1000 0x103f 4 0 1 0)) as Hw by (apply (ro_wf _ (demo_stripe_ok 0 ltac:(lia)))).
    pose proof (stripe_of_range _ a Hw eq_refl) as [H1 H2]. cbn -[stripe_of] in H1, H2. change (Z.pow_pos 2 1) with 2 in H2.
    exists (Z.to_nat (stripe_of (mkAddrRange 0x1000 0x103f 4 0 1 0) a)), (demo_mem (mkAddrRange 0x1000 0x103f 4 0 1 (stripe_of (mkAddrRange 0x1000 0x103f 4 0 1 0) a))).
    split; [|apply contains_iff; cbn -[stripe_of]; split; [exact Hb|reflexivity]].
    remember (stripe_of _ a) as x eqn:Ex. clear Ex. assert (x = 0 \/ x = 1) as [-> | ->] by lia; split; reflexivity.
  - intros ([|[|i]] & m & [Hi _] & Hc); [| |discriminate Hi]; injection Hi as <-; apply contains_iff in Hc as [Hb _]; cbn in Hb;
      exists 0%nat, (demo_mem (AddrRange_plain 0x1000 0x103f)); (split; [split; reflexivity|]);
      apply contains_iff; split; [exact Hb|discriminate|exact Hb|discriminate].
Defined.

(** ** Reported ranges *)

Definition reported_entry (objs : list Memory) (x : AddrRange * nat) : Prop :=
  match objs !! x.2 with Some m => isConfReported m = true | None => False end.

#[export] Instance reported_entry_dec objs x : Decision (reported_entry objs x).
Proof. unfold reported_entry. destruct (objs !! x.2); apply _. Defined.

Lemma conf_merge pm tree : forall ranges intlv,
  Forall (fun i => is_Some (pm_objs pm !! i)) tree.*2 ->
  conf_ranges pm tree ranges intlv =
  merge_ranges (fun _ => Ok true) (filter (reported_entry (pm_objs pm)) tree).*1 ranges intlv.
Proof.
  induction tree as [|[r i] tree IH]; intros ranges intlv Hb; [done|].
  rewrite fmap_cons in Hb. apply Forall_cons in Hb as [[m Hm] Hb]. cbn [snd] in Hm. rewrite filter_cons.
  cbn [conf_ranges]. rewrite Hm. cbn [deref rbind].
  case_decide as Hd; unfold reported_entry in Hd; cbn [snd] in Hd; rewrite Hm in Hd.
  - rewrite Hd, fmap_cons. cbn [fst merge_ranges]. case_match; [case_match|].
    + destruct (AddrRange_merge intlv) as [x|]; [|done]. cbn [rbind]. by apply IH.
    + by apply IH.
    + cbn [rbind]. by apply IH.
  - destruct (isConfReported m); [done|]. by apply IH.
Qed.

(** The ranges reported for the configuration table are plain and cover exactly
    the addresses of the reported memories, provided chunks are reported as a
    whole. *)
Theorem conf_ranges_cover granted ms :
  system_ok granted ms ->
  (forall i m, mapped ms i m -> isConfReported m = true -> interleaved (getAddrRange m) = true ->
     forall x, 0 <= x < 2 ^ intlvBits (getAddrRange m) ->
     exists j m', mapped ms j m' /\ isConfReported m' = true /\ getAddrRange m' = with_match (getAddrRange m) x) ->
  exists pm rs, PhysicalMemory_new granted ms = Ok pm /\ getConfAddrRanges pm = Ok rs /\
    Forall (fun r => interleaved r = false) rs /\
    forall a, covered rs a <-> exists i m, mapped ms i m /\ isConfReported m = true /\ contains (getAddrRange m) a = true.
Proof.
  intros Hok Hfull. destruct (new_ok granted ms Hok) as (pm & Hn & Hb). set (P := reported_entry (pm_objs pm)).
  assert (forall r i, (r, i) ∈ filter P (addrMap pm) <->
            exists m, mapped ms i m /\ isConfReported m = true /\ getAddrRange m = r) as Hin.
  { intros r i. rewrite list_elem_of_filter, (bt_entries _ _ Hb). unfold P, reported_entry. cbn [snd]. split.
    - intros [Hd (m & Hm & Hr)]. destruct (same_objs_at _ _ _ _ (bt_objs _ _ Hb) (proj1 Hm)) as (m' & Hm' & E).
      rewrite Hm' in Hd. apply config_same in E as (_ & _ & E & _). exists m. by rewrite <- E.
    - intros (m & Hm & Hc & Hr). destruct (same_objs_at _ _ _ _ (bt_objs _ _ Hb) (proj1 Hm)) as (m' & Hm' & E).
      rewrite Hm'. apply config_same in E as (_ & _ & E & _). split; [by rewrite E|by exists m]. }
  assert (forall r, r ∈ (filter P (addrMap pm)).*1 <-> exists i m, mapped ms i m /\ isConfReported m = true /\ getAddrRange m = r) as Hr.
  { intros r. rewrite list_elem_of_fmap. split; [intros ([r' i] & -> & (m & Hm)%Hin); by exists i, m|].
    intros (i & m & Hm). exists (r, i). split; [done|]. apply Hin. by exists m. }
  assert (Forall range_ok (filter P (addrMap pm)).*1) as Ho.
  { apply Forall_forall. intros r (i & m & Hm & _ & <-)%Hr. apply (so_range _ _ Hok _ _ Hm). }
  destruct (merge_tree (fun _ => Ok true) (fun _ => true) (filter P (addrMap pm)) []) as (gs & out & E & Hm & Hgs & Hrs); [done| |done| |].
  { apply sorted_filter, (bt_sorted _ _ Hb). }
  { intros r (i & m & Hm & Hc & <-)%Hr Hi x Hx. apply Hr.
    destruct (Hfull _ _ Hm Hc Hi x Hx) as (j & m' & Hm'). by exists j, m'. }
  exists pm, out. split; [done|]. split.
  { unfold getConfAddrRanges. rewrite conf_merge; [done|]. apply Forall_forall.
    intros i ([r i'] & -> & Hi)%list_elem_of_fmap. apply (bt_entries _ _ Hb) in Hi as (m & Hmm & _).
    destruct (same_objs_at _ _ _ _ (bt_objs _ _ Hb) (proj1 Hmm)) as (m' & Hm' & _). by exists m'. }
  split.
  { apply Forall_forall. intros r [Hr'|(g & Hg & -> & _)]%Hrs; [by apply not_elem_of_nil in Hr'|].
    apply group_plain. by apply Hgs. }
  intros a. assert (covered out a <-> covered (concat gs).*1 a) as ->.
  { rewrite covered_elem, covered_concat. setoid_rewrite Hrs. split.
    - intros (r & [Hr'|(g & Hg & -> & _)] & Hc); [by apply not_elem_of_nil in Hr'|]. exists g. split; [done|]. by apply Hgs.
    - intros (g & Hg & Hc). exists (group_range g). split; [right; by exists g|]. by apply Hgs. }
  rewrite <- E, covered_entry. setoid_rewrite Hin. naive_solver.
Qed.

(** ** Checkpoints of the locks *)

(** A memory as it is before a checkpoint is read: without locks. *)
Definition unlocked (m : Memory) : Memory := set_mem m (with_locks (me_mem m) [] (am_woken (me_mem m))).

Definition with_more_locks (m : Memory) (ls : list LockedAddr) : Memory :=
  set_mem m (with_locks (me_mem m) (lockedAddrList (me_mem m) ++ ls) (am_woken (me_mem m))).

Definition of_pair (x : Z * Z) : LockedAddr := mkLockedAddr x.1 x.2.
Definition to_pair (l : LockedAddr) : Z * Z := (la_addr l, la_context l).

Section Checkpoint.
Context (pm : PhysicalMemory) (s : PhysSpec) (HR : phys_rep pm s).

(** The pairs of [lal] whose address belongs to memory [i]. *)
Definition locks_of (i : nat) (lal : list (Z * Z)) : list (Z * Z) :=
  filter (fun x => owner (addrMap pm) x.1 = Some i) lal.

Definition has_owner (x : Z * Z) : Prop := is_u64 x.1 /\ owner (addrMap pm) x.1 <> None.

Lemma unserialize_ok lal : forall pm1,
  addrMap pm1 = addrMap pm -> length (pm_objs pm1) = length (pm_objs pm) -> Forall has_owner lal ->
  exists pm2, unserialize_locks pm1 lal = Ok pm2 /\ addrMap pm2 = addrMap pm /\ backingStore pm2 = backingStore pm1 /\
    forall i, pm_objs pm2 !! i = (fun m => with_more_locks m (of_pair <$> locks_of i lal)) <$> pm_objs pm1 !! i.
Proof.
  induction lal as [|[a c] lal IH]; intros pm1 Hmap Hlen Hl; cbn [unserialize_locks].
  { exists pm1. split_and!; try done. intros i. destruct (pm_objs pm1 !! i) as [m|]; [|done]. cbn. f_equal.
    unfold with_more_locks, set_mem, with_locks. rewrite app_nil_r. by destruct m as [[] ?]. }
  apply Forall_cons in Hl as [[Ha Ho] Hl]. cbn [fst] in *. pose proof (owner_spec (addrMap pm) a) as Hs.
  destruct (owner (addrMap pm) a) as [i|] eqn:Hi; [|done]. destruct Hs as (j & r & Hj & Hc).
  rewrite Hmap, (find_entry pm s HR j r i a Ha Hj Hc). cbn [rbind deref]. rewrite Hj. cbn [rbind deref snd].
  destruct (pr_mem _ _ HR _ _ _ Hj) as (m0 & Hm0 & _). apply lookup_lt_Some in Hm0.
  destruct (lookup_lt_is_Some_2 (pm_objs pm1) i) as [m Hm]; [lia|]. rewrite Hm. cbn [rbind deref].
  destruct (IH (with_objs pm1 (<[i := addLockedAddr m (mkLockedAddr a c)]> (pm_objs pm1)))) as (pm2 & Hu & Hmap2 & Hst2 & H2);
    [done|by cbn; rewrite length_insert|done|].
  exists pm2. split_and!; try done. intros x. rewrite H2. cbn [pm_objs with_objs]. unfold locks_of. rewrite filter_cons. cbn [fst].
  destruct (decide (x = i)) as [->|Hne].
  - rewrite list_lookup_insert_eq, Hm, decide_True by (done || lia). cbn. f_equal.
    unfold with_more_locks, addLockedAddr, set_mem, with_locks. cbn. by rewrite <- app_assoc.
  - rewrite list_lookup_insert_ne, decide_False by congruence. done.
Qed.

(** Every lock of a memory is for an address of its own. *)
Definition locks_placed : Prop :=
  forall i m l, i ∈ memories pm -> pm_objs pm !! i = Some m -> l ∈ lockedAddrList (me_mem m) ->
    is_u64 (la_addr l) /\ owner (addrMap pm) (la_addr l) = Some i.

Lemma serialize_ok xs :
  (forall i, i ∈ xs -> i ∈ memories pm) -> (forall i, i ∈ xs -> is_Some (pm_objs pm !! i)) -> NoDup xs -> locks_placed ->
  exists lal, serialize_locks (pm_objs pm) xs = Ok lal /\ Forall has_owner lal /\
    forall i, locks_of i lal =
      if decide (i ∈ xs) then to_pair <$> default [] ((fun m => lockedAddrList (me_mem m)) <$> pm_objs pm !! i) else [].
Proof.
  intros Hin Hobj Hnd Hp. induction xs as [|k xs IH]; cbn [serialize_locks].
  { exists []. split_and!; try done. }
  apply NoDup_cons in Hnd as [Hk Hnd]. destruct IH as (lal & -> & Hown & Hof); [set_solver..|done|].
  destruct (Hobj k (list_elem_of_here _ _)) as [m Hm]. rewrite Hm. cbn [deref rbind]. eexists. split; [done|].
  assert (forall l, l ∈ lockedAddrList (me_mem m) -> is_u64 (la_addr l) /\ owner (addrMap pm) (la_addr l) = Some k) as Hl
    by (intros l; apply Hp; [apply Hin; set_solver|done]).
  split.
  - apply Forall_app. split; [|done]. apply Forall_fmap, Forall_forall. intros l Hx. destruct (Hl l Hx) as [H1 H2].
    split; [exact H1|]. change (owner (addrMap pm) (la_addr l) <> None). by rewrite H2.
  - intros i. unfold locks_of. rewrite filter_app. fold (locks_of i lal). rewrite Hof. destruct (decide (i = k)) as [->|Hne].
    + rewrite (decide_True (P := k ∈ k :: xs)), decide_False, app_nil_r, Hm by set_solver. cbn [default fmap option_fmap option_map].
      apply filter_keeps. intros x (l & -> & Hx)%list_elem_of_fmap. by apply Hl.
    + assert (filter (fun x => owner (addrMap pm) x.1 = Some i) ((fun l => (la_addr l, la_context l)) <$> lockedAddrList (me_mem m)) = []) as ->.
      { apply filter_drops. intros x (l & -> & Hx)%list_elem_of_fmap. cbn. rewrite (proj2 (Hl l Hx)). congruence. }
      cbn [app]. destruct (decide (i ∈ xs)); [rewrite (decide_True (P := i ∈ k :: xs)) by set_solver | rewrite (decide_False (P := i ∈ k :: xs)) by set_solver]; done.
Qed.
End Checkpoint.

(** The locks survive a checkpoint: written out from a physical memory and
    read back into the same memories without locks, every memory of the address
    map has the locks it had, in the same order. *)
Theorem locks_roundtrip pm s :
  phys_rep pm s -> NoDup (memories pm) -> (forall i, i ∈ memories pm -> is_Some (pm_objs pm !! i)) -> locks_placed pm ->
  exists lal pm', serialize_locks (pm_objs pm) (memories pm) = Ok lal /\
    unserialize_locks (with_objs pm (unlocked <$> pm_objs pm)) lal = Ok pm' /\
    addrMap pm' = addrMap pm /\ backingStore pm' = backingStore pm /\
    forall i, i ∈ memories pm -> pm_objs pm' !! i = pm_objs pm !! i.
Proof.
  intros HR Hnd Hobj Hp. destruct (serialize_ok pm s HR (memories pm) (fun _ H => H) Hobj Hnd Hp) as (lal & Hs & Hown & Hof).
  destruct (unserialize_ok pm s HR lal (with_objs pm (unlocked <$> pm_objs pm))) as (pm' & Hu & Hm & Hb & Ho);
    [done|apply length_fmap|done|].
  exists lal, pm'. split_and!; try done. intros i Hi. rewrite Ho. cbn [pm_objs with_objs]. rewrite list_lookup_fmap.
  destruct (Hobj i Hi) as [m Hm']. rewrite Hof, decide_True, Hm' by done. cbn. f_equal.
  unfold with_more_locks, unlocked, set_mem, with_locks. cbn. rewrite <- list_fmap_compose.
  assert (of_pair ∘ to_pair <$> lockedAddrList (me_mem m) = lockedAddrList (me_mem m)) as ->.
  { rewrite <- (list_fmap_id (lockedAddrList (me_mem m))) at 2. apply list_fmap_ext. by intros _ [] _. }
  by destruct m as [[] ?].
Qed.

(** Two contexts have locked an address of each stripe. *)
Definition lock_ops : list phys_op :=
  [Access (demo_packet LoadLockedReq 0x1004 0 [0; 0; 0; 0]); Access (demo_packet LoadLockedReq 0x1014 0 [0; 0; 0; 0])].

Definition locked_pm : PhysicalMemory :=
  match (let* pm := PhysicalMemory_new (fun _ => true) two_memories in phys_run pm lock_ops) with
  | Ok x => x.1
  | Err _ => mkPhysicalMemory [] [] None [] 0 []
  end.

Lemma locked_rep : exists s, phys_rep locked_pm s.
Proof.
  destruct (new_ok (fun _ => true) two_memories two_memories_ok) as (pm & Hn & Hb).
  destruct (phys_run_ok lock_ops pm zero_spec (bt_rep _ _ Hb)) as (pm' & Hr & HR & _).
  { repeat constructor; eapply (op_built two_memories); [exact Hb| |exact Hb|]; eexists.
    - exists 0%nat, (demo_mem (mkAddrRange 0x1000 0x103f 4 0 1 0)); split_and!; try done; apply demo_asks_in; cbn; (done || lia).
    - exists 1%nat, (demo_mem (mkAddrRange 0x1000 0x103f 4 0 1 1)); split_and!; try done; apply demo_asks_in; cbn; (done || lia). }
  eexists. unfold locked_pm. rewrite Hn. cbn [rbind]. rewrite Hr. exact HR.
Qed.

Lemma locked_placed : locks_placed locked_pm.
Proof.
  assert (forall i, (lockedAddrList ∘ me_mem) <$> pm_objs locked_pm !! i =
            match i with O => Some [mkLockedAddr 0x1000 0] | S O => Some [mkLockedAddr 0x1010 0] | _ => None end) as H.
  { intros [|[|i]]; reflexivity. }
  intros i m l _ Hm Hl. specialize (H i). rewrite Hm in H. cbn in H. destruct i as [|[|i]]; [| |done]; injection H as H;
    rewrite H in Hl; apply list_elem_of_singleton in Hl as ->; (split; [unfold in_range; cbn; lia|reflexivity]).
Qed.

Lemma locks_roundtrip_witness :
  exists lal pm', serialize_locks (pm_objs locked_pm) (memories locked_pm) = Ok lal /\
    unserialize_locks (with_objs locked_pm (unlocked <$> pm_objs locked_pm)) lal = Ok pm' /\
    lal = [(0x1000, 0); (0x1010, 0)].
Proof.
  destruct locked_rep as [s HR]. assert (memories locked_pm = [0; 1]%nat) as E by reflexivity.
  destruct (locks_roundtrip locked_pm s HR) as (lal & pm' & H1 & H2 & _).
  - rewrite E. repeat constructor; set_solver.
  - rewrite E. intros i Hi. apply elem_of_cons in Hi as [->|Hi]; [eexists; reflexivity|].
    apply list_elem_of_singleton in Hi as ->. eexists. reflexivity.
  - exact locked_placed.
  - exists lal, pm'. split; [exact H1|]. split; [exact H2|]. vm_compute in H1. injection H1 as <-. reflexivity.
Defined.
