(* ===== verification/XbarRoute.v ===== *)
(** * Address routing of the crossbars

    The address map of [BaseXBar] ([mem/xbar.hh], [mem/xbar.cc]): the ranges the
    slaves announce, the port an address goes to, the cache of the last three
    entries used, and the ranges the crossbar announces in turn.  Port numbers
    are [int16_t], -1 for none.  Telling the neighbours that the ranges have
    changed is left out. *)
From stdpp Require Import sorting.
From S2P Require Import Prelude IntMath AddrRange AddrMap.

(** ** Definitions *)

Definition InvalidPortID : Z := -1.

Record PortCache := mkPortCache { pc_valid : bool; pc_id : Z; pc_range : AddrRange }.

Record XbarRoute := mkXbarRoute {
  portMap : list (AddrRange * Z);
  portCache0 : PortCache;
  portCache1 : PortCache;
  portCache2 : PortCache;
  gotAddrRanges : list bool;
  gotAllAddrRanges : bool;
  defaultPortID : Z;
  useDefaultRange : bool;
  defaultRange : AddrRange;
  xbarRanges : list AddrRange;
}.

Definition with_port_cache (x : XbarRoute) (c0 c1 c2 : PortCache) : XbarRoute :=
  mkXbarRoute (portMap x) c0 c1 c2 (gotAddrRanges x) (gotAllAddrRanges x) (defaultPortID x) (useDefaultRange x)
    (defaultRange x) (xbarRanges x).
Definition with_port_map (x : XbarRoute) (m : list (AddrRange * Z)) : XbarRoute :=
  mkXbarRoute m (portCache0 x) (portCache1 x) (portCache2 x) (gotAddrRanges x) (gotAllAddrRanges x) (defaultPortID x)
    (useDefaultRange x) (defaultRange x) (xbarRanges x).
Definition with_got (x : XbarRoute) (got : list bool) (all : bool) : XbarRoute :=
  mkXbarRoute (portMap x) (portCache0 x) (portCache1 x) (portCache2 x) got all (defaultPortID x) (useDefaultRange x)
    (defaultRange x) (xbarRanges x).
Definition with_default (x : XbarRoute) (r : AddrRange) : XbarRoute :=
  mkXbarRoute (portMap x) (portCache0 x) (portCache1 x) (portCache2 x) (gotAddrRanges x) (gotAllAddrRanges x)
    (defaultPortID x) (useDefaultRange x) r (xbarRanges x).
Definition with_xbarRanges (x : XbarRoute) (rs : list AddrRange) : XbarRoute :=
  mkXbarRoute (portMap x) (portCache0 x) (portCache1 x) (portCache2 x) (gotAddrRanges x) (gotAllAddrRanges x)
    (defaultPortID x) (useDefaultRange x) (defaultRange x) rs.

Definition checkPortCache (x : XbarRoute) (a : Z) : Z :=
  if pc_valid (portCache0 x) && contains (pc_range (portCache0 x)) a then pc_id (portCache0 x)
  else if pc_valid (portCache1 x) && contains (pc_range (portCache1 x)) a then pc_id (portCache1 x)
  else if pc_valid (portCache2 x) && contains (pc_range (portCache2 x)) a then pc_id (portCache2 x)
  else InvalidPortID.

Definition updatePortCache (x : XbarRoute) (id : Z) (range : AddrRange) : XbarRoute :=
  with_port_cache x (mkPortCache true id range) (portCache0 x) (portCache1 x).

Definition invalidated (c : PortCache) : PortCache := mkPortCache false (pc_id c) (pc_range c).

Definition clearPortCache (x : XbarRoute) : XbarRoute :=
  with_port_cache x (invalidated (portCache0 x)) (invalidated (portCache1 x)) (invalidated (portCache2 x)).

Definition findPort (x : XbarRoute) (a : Z) : result (Z * XbarRoute) :=
  let* _ := assert_ (gotAllAddrRanges x) in
  let dest_id := checkPortCache x a in
  if negb (dest_id =? InvalidPortID) then Ok (dest_id, x)
  else
    let* i := arm_find_addr (portMap x) a in
    match i with
    | Some i =>
        let* e := deref (portMap x !! i) in
        Ok (e.2, updatePortCache x e.2 e.1)
    | None =>
        if useDefaultRange x then
          if contains (defaultRange x) a then Ok (defaultPortID x, x) else Err Fatal
        else if negb (defaultPortID x =? InvalidPortID) then Ok (defaultPortID x, x)
        else Err Fatal
    end.

(** The loop that inserts the announced ranges of a port. *)
Fixpoint add_ranges (m : list (AddrRange * Z)) (ranges : list AddrRange) (id : Z) : result (list (AddrRange * Z)) :=
  match ranges with
  | [] => Ok m
  | r :: ranges =>
      let* '(m, done) := arm_insert m r id in
      if done : bool then add_ranges m ranges id else Err Fatal
  end.

(** Ranges within the default range are not announced again. *)
Definition keep_range (x : XbarRoute) (r : AddrRange) : result bool :=
  if useDefaultRange x then let* b := isSubset r (defaultRange x) in Ok (negb b) else Ok true.

(** No announced range partially overlaps the default range. *)
Fixpoint check_overlap (x : XbarRoute) (ranges : list AddrRange) : result () :=
  match ranges with
  | [] => Ok ()
  | r :: ranges =>
      let* b := intersects r (defaultRange x) in
      let* bad := if b : bool then let* s := isSubset r (defaultRange x) in Ok (negb s) else Ok false in
      if bad : bool then Err Fatal else check_overlap x ranges
  end.

(** The ranges of the crossbar, once all slaves have announced theirs. *)
Definition aggregate (x : XbarRoute) : result XbarRoute :=
  let* start :=
    if useDefaultRange x then
      let* got := deref (if 0 <=? defaultPortID x then gotAddrRanges x !! Z.to_nat (defaultPortID x) else None) in
      if got : bool then Ok [defaultRange x] else Err Fatal
    else Ok [] in
  let* ranges := merge_ranges (keep_range x) (portMap x).*1 start [] in
  let* _ := if useDefaultRange x then check_overlap x ranges else Ok () in
  Ok (with_xbarRanges x ranges).

(** [recvRangeChange(master_port_id)]; [ranges] is the answer of
    [masterPorts[master_port_id]->getAddrRanges()]. *)
Definition recvRangeChange (x : XbarRoute) (id : Z) (ranges : list AddrRange) : result XbarRoute :=
  let* got := if 0 <=? id then upd (gotAddrRanges x) (Z.to_nat id) true else Err Bad_pointer in
  let x := with_got x got (if gotAllAddrRanges x then true else forallb (fun b => b) got) in
  let* x :=
    if id =? defaultPortID x then
      if useDefaultRange x then
        match ranges with [r] => Ok (with_default x r) | _ => Err Fatal end
      else Ok x
    else
      let* m := add_ranges (filter (fun e => e.2 <> id) (portMap x)) ranges id in
      Ok (with_port_map x m) in
  let* x := if gotAllAddrRanges x then aggregate x else Ok x in
  Ok (clearPortCache x).

Definition xbar_getAddrRanges (x : XbarRoute) : result (list AddrRange) :=
  let* _ := assert_ (gotAllAddrRanges x) in Ok (xbarRanges x).

(** ** What is announced

    [ann id] are the ranges port [id] has announced last; the default port is
    left to its own range. *)
Definition announced : Type := Z -> list AddrRange.

Definition announce (ann : announced) (id : Z) (rs : list AddrRange) : announced :=
  fun i => if decide (i = id) then rs else ann i.

(** Port [id] is where an address goes: it has announced a range with the
    address, or no port has and it is the default port. *)
Definition goes_to (x : XbarRoute) (ann : announced) (a id : Z) : Prop :=
  covered (ann id) a \/
  ((forall i, ~ covered (ann i) a) /\ id = defaultPortID x /\
   if useDefaultRange x then contains (defaultRange x) a = true else defaultPortID x <> InvalidPortID).

(** The map holds what is announced, the cache only entries of the map. *)
Record route_ok (x : XbarRoute) (ann : announced) : Prop := {
  rt_sorted : StronglySorted key_lt (portMap x);
  rt_entries : forall r id, (r, id) ∈ portMap x <-> r ∈ ann id;
  rt_ranges : forall id r, r ∈ ann id -> range_ok r /\ 0 <= id;
  rt_compatible : forall id r id' r', r ∈ ann id -> r' ∈ ann id' -> (r = r' /\ id = id') \/ compatible r r';
  rt_cache : forall c, c ∈ [portCache0 x; portCache1 x; portCache2 x] -> pc_valid c = true ->
    (pc_range c, pc_id c) ∈ portMap x;
  rt_got : gotAllAddrRanges x = true -> Forall (fun b => b = true) (gotAddrRanges x);
}.

Section Lookup.
Context (x : XbarRoute) (ann : announced) (Hok : route_ok x ann).

Lemma map_ranges : Forall range_ok (portMap x).*1.
Proof.
  apply Forall_forall. intros r ([r' id] & -> & Hi)%list_elem_of_fmap. apply (rt_entries _ _ Hok) in Hi.
  apply (rt_ranges _ _ Hok _ _ Hi).
Qed.

Lemma map_wf : tree_wf (portMap x).
Proof.
  apply sorted_tree_wf; [apply Hok|apply map_ranges|].
  intros r r' ([r1 i] & -> & Hi)%list_elem_of_fmap ([r2 j] & -> & Hj)%list_elem_of_fmap. cbn [fst].
  apply (rt_entries _ _ Hok) in Hi, Hj. destruct (rt_compatible _ _ Hok _ _ _ _ Hi Hj) as [[? _]|?]; auto.
Qed.

Lemma map_first : first_stripes (portMap x).
Proof.
  intros j r id Hj. apply list_elem_of_lookup_2, (rt_entries _ _ Hok) in Hj.
  apply (ro_first _ (proj1 (rt_ranges _ _ Hok _ _ Hj))).
Qed.

Lemma map_owner a id : owner (portMap x) a = Some id <-> covered (ann id) a.
Proof.
  pose proof (owner_spec (portMap x) a) as Ho. rewrite covered_elem. split.
  - intros E. rewrite E in Ho. destruct Ho as (j & r & Hj & Hc). exists r. split; [|done].
    apply (rt_entries _ _ Hok). by eapply list_elem_of_lookup_2.
  - intros (r & Hr & Hc). apply (rt_entries _ _ Hok) in Hr. apply list_elem_of_lookup_1 in Hr as [j Hj].
    by eapply owner_entry; [apply map_wf|..].
Qed.

Lemma cache_hit a :
  checkPortCache x a <> InvalidPortID -> covered (ann (checkPortCache x a)) a.
Proof.
  unfold checkPortCache. intros H.
  assert (forall c, c ∈ [portCache0 x; portCache1 x; portCache2 x] -> pc_valid c && contains (pc_range c) a = true ->
    covered (ann (pc_id c)) a) as Hc.
  { intros c Hin [Hv Hc]%andb_true_iff. apply covered_elem. exists (pc_range c). split; [|done].
    apply (rt_entries _ _ Hok). by apply (rt_cache _ _ Hok). }
  destruct (pc_valid (portCache0 x) && _) eqn:E0; [apply Hc; [set_solver|done]|].
  destruct (pc_valid (portCache1 x) && _) eqn:E1; [apply Hc; [set_solver|done]|].
  destruct (pc_valid (portCache2 x) && _) eqn:E2; [apply Hc; [set_solver|done]|done].
Qed.

Lemma goes_unique a id id' : goes_to x ann a id -> goes_to x ann a id' -> id = id'.
Proof.
  intros [H|(H & -> & _)] [H'|(H' & -> & _)]; try done.
  - apply map_owner in H, H'. congruence.
  - by destruct (H' id).
  - by destruct (H id').
Qed.

Lemma findPort_ok a id :
  gotAllAddrRanges x = true -> is_u64 a -> goes_to x ann a id ->
  exists c0 c1 c2, findPort x a = Ok (id, with_port_cache x c0 c1 c2) /\ route_ok (with_port_cache x c0 c1 c2) ann.
Proof.
  intros Hall Ha Hg. unfold findPort. rewrite Hall. cbn [assert_ rbind].
  assert (route_ok (with_port_cache x (portCache0 x) (portCache1 x) (portCache2 x)) ann) as Hsame by (destruct Hok; by split).
  assert (x = with_port_cache x (portCache0 x) (portCache1 x) (portCache2 x)) as Ex by (by destruct x).
  destruct (Z.eqb_spec (checkPortCache x a) InvalidPortID) as [E|E]; cbn [negb].
  - destruct Hg as [Hg|(Hn & -> & Hd)].
    + pose proof (proj2 (map_owner a id) Hg) as Ho. pose proof (owner_spec (portMap x) a) as Hs. rewrite Ho in Hs.
      destruct Hs as (j & r & Hj & Hc). rewrite (find_owner _ j r id a map_wf map_first Ha Hj Hc). cbn [rbind]. rewrite Hj. cbn [deref rbind fst snd].
      eexists _, _, _. split; [reflexivity|]. destruct Hok as [H1 H2 H3 H4 H5 H6]. split; try done. cbn.
      intros c Hin Hv. apply elem_of_cons in Hin as [->|Hin]; [by eapply list_elem_of_lookup_2|]. apply H5; [set_solver|done].
    + assert (owner (portMap x) a = None) as Ho.
      { destruct (owner (portMap x) a) as [i|] eqn:Eo; [|done]. apply map_owner in Eo. by destruct (Hn i). }
      rewrite (find_no_owner _ _ Ha Ho). cbn [rbind]. exists (portCache0 x), (portCache1 x), (portCache2 x). rewrite <- Ex.
      split; [|done]. destruct (useDefaultRange x); [by rewrite Hd|].
      by rewrite (proj2 (Z.eqb_neq _ _) Hd).
  - exists (portCache0 x), (portCache1 x), (portCache2 x). rewrite <- Ex. split; [|done]. do 2 f_equal.
    eapply goes_unique; [|done]. left. by apply cache_hit.
Qed.

Lemma findPort_fatal a :
  gotAllAddrRanges x = true -> is_u64 a -> (forall id, ~ goes_to x ann a id) -> findPort x a = Err Fatal.
Proof.
  intros Hall Ha Hn. unfold findPort. rewrite Hall. cbn [assert_ rbind].
  assert (forall i, ~ covered (ann i) a) as Hnc by (intros i Hi; apply (Hn i); by left).
  destruct (Z.eqb_spec (checkPortCache x a) InvalidPortID) as [E|E]; cbn [negb]; [|by destruct (Hnc _ (cache_hit a E))].
  assert (owner (portMap x) a = None) as Ho.
  { destruct (owner (portMap x) a) as [i|] eqn:Eo; [|done]. apply map_owner in Eo. by destruct (Hnc i). }
  rewrite (find_no_owner _ _ Ha Ho). cbn [rbind].
  assert (~ (if useDefaultRange x then contains (defaultRange x) a = true else defaultPortID x <> InvalidPortID)) as Hd
    by (intros Hd; apply (Hn (defaultPortID x)); by right).
  destruct (useDefaultRange x).
  - destruct (contains (defaultRange x) a); [done|done].
  - destruct (Z.eqb_spec (defaultPortID x) InvalidPortID); [done|]. by destruct Hd.
Qed.
End Lookup.

(** ** Range changes *)

Definition within (r d : AddrRange) : Prop := ar_start d <= ar_start r /\ ar_end r <= ar_end d.

(** When all ports have announced their ranges, chunks must be complete, and
    every range apart from the default range or within it. *)
Definition complete (ann : announced) : Prop :=
  forall id r, r ∈ ann id -> interleaved r = true -> forall n, 0 <= n < 2 ^ intlvBits r -> exists id', with_match r n ∈ ann id'.

Definition default_fits (d : AddrRange) (ann : announced) : Prop :=
  interleaved d = false /\ ar_start d <= ar_end d /\ forall id r, r ∈ ann id -> apart r d \/ within r d.

Lemma add_ranges_ok id rs : forall m,
  StronglySorted key_lt m -> Forall range_ok m.*1 -> Forall range_ok rs -> NoDup rs ->
  (forall r r', r ∈ rs -> r' ∈ rs -> r = r' \/ compatible r r') ->
  (forall r r', r ∈ m.*1 -> r' ∈ rs -> compatible r r') ->
  exists m', add_ranges m rs id = Ok m' /\ StronglySorted key_lt m' /\ m' ≡ₚ m ++ ((fun r => (r, id)) <$> rs).
Proof.
  induction rs as [|r rs IH]; intros m Hs Hm Hr Hnd Hc Hcm; cbn [add_ranges].
  { exists m. rewrite app_nil_r. done. }
  apply Forall_cons in Hr as [Hr Hrs]. apply NoDup_cons in Hnd as [Hn Hnd].
  assert (Forall (fun y => compatible y r) m.*1) as Hcr by (apply Forall_forall; intros y Hy; apply Hcm; [done|apply list_elem_of_here]).
  rewrite (arm_insert_ok m r id Hr Hm Hcr). cbn [rbind].
  pose proof (map_insert_perm m r id Hcr Hm Hr) as Hp.
  destruct (IH (map_insert m r id)) as (m' & -> & Hs' & Hp'); try done.
  - by apply map_insert_sorted.
  - rewrite Hp, fmap_cons. by constructor.
  - intros y y' Hy Hy'. apply Hc; by apply list_elem_of_further.
  - intros y y' Hy Hy'. rewrite Hp, fmap_cons in Hy. apply elem_of_cons in Hy as [->|Hy].
    + destruct (Hc r y') as [->|?]; [apply list_elem_of_here|by apply list_elem_of_further|done|done].
    + apply Hcm; [done|by apply list_elem_of_further].
  - exists m'. split; [done|]. split; [done|]. rewrite Hp', Hp, fmap_cons. cbn. by rewrite Permutation_middle.
Qed.

(** What a port may announce. *)
Record change_ok (x : XbarRoute) (ann : announced) (id : Z) (rs : list AddrRange) : Prop := {
  co_id : 0 <= id < Z.of_nat (length (gotAddrRanges x));
  co_default : id = defaultPortID x -> useDefaultRange x = true -> exists r, rs = [r];
  co_ranges : id <> defaultPortID x -> Forall range_ok rs /\ NoDup rs;
  co_own : id <> defaultPortID x -> forall r r', r ∈ rs -> r' ∈ rs -> r = r' \/ compatible r r';
  co_others : id <> defaultPortID x -> forall id' r r', id' <> id -> r ∈ ann id' -> r' ∈ rs -> compatible r r';
}.

(** The announcements after a change. *)
Definition announced_after (x : XbarRoute) (ann : announced) (id : Z) (rs : list AddrRange) : announced :=
  if decide (id = defaultPortID x) then ann else announce ann id rs.

Definition default_after (x : XbarRoute) (id : Z) (rs : list AddrRange) : AddrRange :=
  if decide (id = defaultPortID x) then
    if useDefaultRange x then match rs with [r] => r | _ => defaultRange x end else defaultRange x
  else defaultRange x.

Lemma covered_ann x ann a : route_ok x ann -> covered (portMap x).*1 a <-> exists id, covered (ann id) a.
Proof.
  intros Hok. rewrite covered_entry. setoid_rewrite covered_elem. setoid_rewrite (rt_entries _ _ Hok). naive_solver.
Qed.

Lemma subset_plain r d : interleaved r = false -> isSubset r d = Ok ((ar_start d <=? ar_start r) && (ar_end r <=? ar_end d)).
Proof. intros Hi. unfold isSubset. by rewrite Hi. Qed.

Lemma intersects_plain r d :
  interleaved r = false -> interleaved d = false ->
  intersects r d = Ok (negb ((ar_end d <? ar_start r) || (ar_end r <? ar_start d))).
Proof. intros Hr Hd. unfold intersects. rewrite Hr, Hd. cbn. by destruct (_ || _). Qed.

Lemma check_overlap_ok x rs :
  interleaved (defaultRange x) = false ->
  Forall (fun r => interleaved r = false /\ ar_start r <= ar_end r /\ (apart r (defaultRange x) \/ within r (defaultRange x))) rs ->
  ar_start (defaultRange x) <= ar_end (defaultRange x) ->
  check_overlap x rs = Ok ().
Proof.
  intros Hd Hrs Hv. induction Hrs as [|r rs (Hi & Hvr & Hr) _ IH]; [done|]. cbn [check_overlap].
  rewrite intersects_plain by done. cbn [rbind]. destruct Hr as [Ha|[H1 H2]].
  - destruct (Z.ltb_spec (ar_end (defaultRange x)) (ar_start r)); cbn; [done|].
    destruct (Z.ltb_spec (ar_end r) (ar_start (defaultRange x))); cbn; [done|]. exfalso.
    destruct (decide (ar_start r <= ar_start (defaultRange x))).
    + apply (Ha (ar_start (defaultRange x))); unfold in_bounds; lia.
    + apply (Ha (ar_start r)); unfold in_bounds; lia.
  - destruct (negb _); cbn [rbind]; [|done]. rewrite subset_plain by done. cbn [rbind].
    rewrite (proj2 (Z.leb_le _ _) H1), (proj2 (Z.leb_le _ _) H2). done.
Qed.

Lemma group_bounds (g : list (AddrRange * Z)) :
  is_group g -> exists r id, (r, id) ∈ g /\ ar_start (group_range g) = ar_start r /\ ar_end (group_range g) = ar_end r.
Proof.
  intros Hg. assert (g <> []) as Hne by (destruct Hg as [(r & i & -> & _)|Hg]; [done|by apply chunk_nonempty]).
  destruct g as [|[r id] g]; [done|]. exists r, id. split; [apply list_elem_of_here|]. cbn. by destruct (interleaved r).
Qed.

(** The ranges announced in turn are plain and cover what the ports and the
    default range cover. *)
Definition announces (x : XbarRoute) (ann : announced) (rs : list AddrRange) : Prop :=
  Forall (fun r => interleaved r = false) rs /\
  forall a, covered rs a <-> (exists id, covered (ann id) a) \/ (useDefaultRange x = true /\ contains (defaultRange x) a = true).

Section Aggregate.
Context (x : XbarRoute) (ann : announced) (Hok : route_ok x ann) (Hfull : complete ann).
Context (Hdef : useDefaultRange x = true ->
  0 <= defaultPortID x /\ gotAddrRanges x !! Z.to_nat (defaultPortID x) = Some true /\ default_fits (defaultRange x) ann).

Let keepb (r : AddrRange) : bool :=
  if useDefaultRange x then negb ((ar_start (defaultRange x) <=? ar_start r) && (ar_end r <=? ar_end (defaultRange x))) else true.
Let first : list AddrRange := if useDefaultRange x then [defaultRange x] else [].

Lemma first_range :
  (if useDefaultRange x then
     let* got := deref (if 0 <=? defaultPortID x then gotAddrRanges x !! Z.to_nat (defaultPortID x) else None) in
     if got : bool then Ok [defaultRange x] else Err Fatal
   else Ok []) = Ok first.
Proof.
  unfold first. destruct (useDefaultRange x) eqn:E; [|done]. destruct (Hdef eq_refl) as (H1 & H2 & _).
  by rewrite (proj2 (Z.leb_le _ _) H1), H2.
Qed.

Lemma map_full : full (portMap x).
Proof.
  intros r ([r' id] & -> & Hi)%list_elem_of_fmap Hint n Hn. apply (rt_entries _ _ Hok) in Hi. cbn [fst] in *.
  destruct (Hfull _ _ Hi Hint n Hn) as [id' Hid]. apply (rt_entries _ _ Hok) in Hid. apply list_elem_of_fmap. by exists (with_match r' n, id').
Qed.

Lemma keep_spec r : interleaved r = false -> keep_range x r = Ok (keepb r).
Proof. intros Hi. unfold keep_range, keepb. destruct (useDefaultRange x); [|done]. by rewrite subset_plain. Qed.

Lemma aggregate_ok : exists rs, aggregate x = Ok (with_xbarRanges x rs) /\ announces x ann rs.
Proof.
  destruct (merge_tree (keep_range x) keepb (portMap x) first keep_spec (rt_sorted _ _ Hok) (map_ranges _ _ Hok) map_full)
    as (gs & rs & E & Hm & Hgs & Hrs).
  assert (forall g, g ∈ gs -> exists r id, r ∈ ann id /\ ar_start (group_range g) = ar_start r /\ ar_end (group_range g) = ar_end r) as Hb.
  { intros g Hg. destruct (group_bounds g) as (r & id & Hr & H1 & H2); [by apply Hgs|]. exists r, id. split; [|done].
    apply (rt_entries _ _ Hok). rewrite E. apply elem_of_concat. by exists g. }
  assert (Forall (fun r => interleaved r = false) rs) as Hpl.
  { apply Forall_forall. intros r [Hr|(g & Hg & -> & _)]%Hrs; [|apply group_plain; by apply Hgs].
    unfold first in Hr. destruct (useDefaultRange x) eqn:Eu; [|by apply not_elem_of_nil in Hr].
    apply list_elem_of_singleton in Hr as ->. apply (Hdef eq_refl). }
  exists rs. split.
  - unfold aggregate. rewrite first_range. cbn [rbind]. rewrite Hm. cbn [rbind].
    destruct (useDefaultRange x) eqn:Eu; [|done]. destruct (Hdef eq_refl) as (_ & _ & Hdi & Hdv & Hfit).
    rewrite check_overlap_ok; [done|done| |done]. apply Forall_forall. intros r Hr.
    split; [by eapply Forall_forall in Hpl|]. apply Hrs in Hr as [Hr|(g & Hg & -> & _)].
    + apply list_elem_of_singleton in Hr as ->. split; [done|]. right. split; lia.
    + destruct (Hb g Hg) as (r & id & Hr & H1 & H2). destruct (rt_ranges _ _ Hok _ _ Hr) as [Hro _].
      pose proof (wf_valid _ (ro_wf _ Hro)). split; [lia|]. unfold apart, within, in_bounds. rewrite H1, H2. by apply (Hfit id r).
  - split; [done|]. intros a. rewrite <- (covered_ann _ _ a Hok), E, covered_concat, covered_elem. split.
    + intros (r & Hr & Hc). apply Hrs in Hr as [Hr|(g & Hg & -> & _)].
      * right. unfold first in Hr. destruct (useDefaultRange x); [|by apply not_elem_of_nil in Hr].
        by apply list_elem_of_singleton in Hr as ->.
      * left. exists g. split; [done|]. by apply Hgs.
    + intros [(g & Hg & Hc)|[Eu Hc]].
      * apply Hgs in Hc as Hc'; [|done]. destruct (keepb (group_range g)) eqn:Ek.
        { exists (group_range g). split; [|done]. apply Hrs. right. by exists g. }
        unfold keepb in Ek. destruct (useDefaultRange x) eqn:Eu; [|done]. apply negb_false_iff, andb_true_iff in Ek as [K1 K2].
        apply Z.leb_le in K1, K2. apply contains_iff in Hc' as [Hb' _]. exists (defaultRange x).
        split; [apply Hrs; left; unfold first; rewrite ?Eu; apply list_elem_of_here|].
        apply contains_iff. destruct (Hdef eq_refl) as (_ & _ & Hdi & _). split; [lia|]. rewrite Hdi. done.
      * exists (defaultRange x). split; [|done]. apply Hrs. left. unfold first. rewrite Eu. apply list_elem_of_here.
Qed.
End Aggregate.

Lemma erase_entries x ann id :
  route_ok x ann -> forall r i, (r, i) ∈ filter (fun e : AddrRange * Z => e.2 <> id) (portMap x) <-> i <> id /\ r ∈ ann i.
Proof. intros Hok r i. rewrite list_elem_of_filter, (rt_entries _ _ Hok). done. Qed.

(** The port map after a change. *)
Lemma change_map x ann id rs :
  route_ok x ann -> change_ok x ann id rs -> id <> defaultPortID x ->
  exists m, add_ranges (filter (fun e : AddrRange * Z => e.2 <> id) (portMap x)) rs id = Ok m /\ StronglySorted key_lt m /\
    forall r i, (r, i) ∈ m <-> r ∈ announce ann id rs i.
Proof.
  intros Hok [_ _ Hr Hown Hoth] Hne. destruct (Hr Hne) as [Hro Hnd]. pose proof (erase_entries x ann id Hok) as He.
  destruct (add_ranges_ok id rs (filter (fun e : AddrRange * Z => e.2 <> id) (portMap x))) as (m & Hm & Hs & Hp); try done.
  - apply sorted_filter, Hok.
  - apply Forall_forall. intros r ([r' i] & -> & Hi)%list_elem_of_fmap. apply He in Hi as [_ Hi]. apply (rt_ranges _ _ Hok _ _ Hi).
  - by apply Hown.
  - intros r r' ([r1 i] & -> & Hi)%list_elem_of_fmap Hr'. apply He in Hi as [Hi1 Hi2]. by eapply Hoth.
  - exists m. split; [done|]. split; [done|]. intros r i. rewrite Hp, elem_of_app, He, list_elem_of_fmap. unfold announce.
    case_decide as Hd; [subst|]; naive_solver.
Qed.

Lemma announce_elem ann id rs i r : r ∈ announce ann id rs i <-> (i = id /\ r ∈ rs) \/ (i <> id /\ r ∈ ann i).
Proof. unfold announce. case_decide; naive_solver. Qed.

Lemma change_rest x ann id rs :
  route_ok x ann -> change_ok x ann id rs -> id <> defaultPortID x ->
  (forall i r, r ∈ announce ann id rs i -> range_ok r /\ 0 <= i) /\
  (forall i r i' r', r ∈ announce ann id rs i -> r' ∈ announce ann id rs i' -> (r = r' /\ i = i') \/ compatible r r').
Proof.
  intros Hok [Hid _ Hr Hown Hoth] Hne. destruct (Hr Hne) as [Hro _]. split.
  - intros i r [[-> Hi]|[_ Hi]]%announce_elem; [|by apply (rt_ranges _ _ Hok)]. split; [by eapply Forall_forall in Hro|lia].
  - intros i r i' r' [[-> Hi]|[Hi1 Hi]]%announce_elem [[-> Hi']|[Hi1' Hi']]%announce_elem.
    + destruct (Hown Hne r r' Hi Hi') as [->|?]; auto.
    + right. apply compatible_sym. by apply (Hoth Hne i').
    + right. by apply (Hoth Hne i).
    + by apply (rt_compatible _ _ Hok).
Qed.

(** ** A range change *)

Definition all_got (x : XbarRoute) (id : Z) : bool :=
  if gotAllAddrRanges x then true else forallb (fun b => b) (<[Z.to_nat id := true]> (gotAddrRanges x)).

(** Once all ports have announced, their ranges must fit together. *)
Definition settles (x : XbarRoute) (ann : announced) (id : Z) (rs : list AddrRange) : Prop :=
  all_got x id = true ->
  complete (announced_after x ann id rs) /\
  (useDefaultRange x = true -> 0 <= defaultPortID x < Z.of_nat (length (gotAddrRanges x)) /\
     default_fits (default_after x id rs) (announced_after x ann id rs)).

Lemma forallb_id l : forallb (fun b : bool => b) l = true <-> Forall (fun b => b = true) l.
Proof. rewrite forallb_forall, Forall_forall. by setoid_rewrite list_elem_of_In. Qed.

Lemma change_got x ann id :
  route_ok x ann -> 0 <= id < Z.of_nat (length (gotAddrRanges x)) ->
  (if 0 <=? id then upd (gotAddrRanges x) (Z.to_nat id) true else Err Bad_pointer) = Ok (<[Z.to_nat id := true]> (gotAddrRanges x)) /\
  (all_got x id = true -> Forall (fun b => b = true) (<[Z.to_nat id := true]> (gotAddrRanges x))).
Proof.
  intros Hok Hid. rewrite (proj2 (Z.leb_le 0 id)) by lia. unfold upd. rewrite decide_True by lia. split; [done|].
  unfold all_got. intros Ha. destruct (gotAllAddrRanges x) eqn:E; [|by apply forallb_id].
  apply Forall_insert; [by apply (rt_got _ _ Hok)|done].
Qed.

(** The announcements, before the ranges are put together. *)
Lemma change_announced x ann id rs got all :
  route_ok x ann -> change_ok x ann id rs -> (all = true -> Forall (fun b => b = true) got) ->
  exists y, (if id =? defaultPortID x then
       if useDefaultRange x then match rs with [r] => Ok (with_default (with_got x got all) r) | _ => Err Fatal end
       else Ok (with_got x got all)
     else let* m := add_ranges (filter (fun e : AddrRange * Z => e.2 <> id) (portMap x)) rs id in
       Ok (with_port_map (with_got x got all) m)) = Ok y /\
    route_ok (clearPortCache y) (announced_after x ann id rs) /\ gotAddrRanges y = got /\ gotAllAddrRanges y = all /\
    defaultPortID y = defaultPortID x /\ useDefaultRange y = useDefaultRange x /\ defaultRange y = default_after x id rs.
Proof.
  intros Hok Hc Hgot. unfold announced_after, default_after. destruct (Z.eqb_spec id (defaultPortID x)) as [E|Hne].
  - rewrite !decide_True by done.
    assert (forall y, portMap y = portMap x -> gotAddrRanges y = got -> gotAllAddrRanges y = all -> route_ok (clearPortCache y) ann) as Hr.
    { intros y E1 E2 E3. destruct Hok as [H1 H2 H3 H4 H5 H6]. split; cbn; rewrite ?E1, ?E2, ?E3; try done.
      intros c Hin Hv. apply elem_of_cons in Hin as [->|Hin]; [done|]. apply elem_of_cons in Hin as [->|Hin]; [done|].
      by apply list_elem_of_singleton in Hin as ->. }
    destruct (useDefaultRange x) eqn:Eu.
    + destruct (co_default _ _ _ _ Hc E Eu) as [r ->]. eexists. split; [done|]. split; [by apply Hr|]. done.
    + eexists. split; [done|]. split; [by apply Hr|]. done.
  - rewrite !decide_False by done. destruct (change_map x ann id rs Hok Hc Hne) as (m & -> & Hs & Hm). cbn [rbind].
    destruct (change_rest x ann id rs Hok Hc Hne) as [Hr1 Hr2]. eexists. split; [done|]. split; [|done]. split; cbn; try done.
    intros c Hin Hv. apply elem_of_cons in Hin as [->|Hin]; [done|]. apply elem_of_cons in Hin as [->|Hin]; [done|].
    by apply list_elem_of_singleton in Hin as ->.
Qed.

Lemma clear_with_ranges x rs : clearPortCache (with_xbarRanges x rs) = with_xbarRanges (clearPortCache x) rs.
Proof. done. Qed.

Lemma recvRangeChange_ok x ann id rs :
  route_ok x ann -> change_ok x ann id rs -> settles x ann id rs ->
  exists x', recvRangeChange x id rs = Ok x' /\ route_ok x' (announced_after x ann id rs) /\
    gotAllAddrRanges x' = all_got x id /\ defaultPortID x' = defaultPortID x /\ useDefaultRange x' = useDefaultRange x /\
    defaultRange x' = default_after x id rs /\
    (all_got x id = true -> announces x' (announced_after x ann id rs) (xbarRanges x')).
Proof.
  intros Hok Hc Hset. destruct (change_got x ann id Hok (co_id _ _ _ _ Hc)) as [Hg Hga]. unfold recvRangeChange. rewrite Hg. cbn [rbind].
  fold (all_got x id). set (got := <[Z.to_nat id := true]> (gotAddrRanges x)) in *.
  destruct (change_announced x ann id rs got (all_got x id) Hok Hc Hga) as (y & Hy & Hr & Yg & Ya & Yd & Yu & Yr).
  cbn [defaultPortID useDefaultRange with_got portMap]. rewrite Hy. cbn [rbind]. rewrite Ya.
  destruct (all_got x id) eqn:Ea.
  - destruct (Hset Ea) as [Hfull Hdef].
    destruct (aggregate_ok (clearPortCache y) (announced_after x ann id rs) Hr Hfull) as (out & Hagg & Hann).
    { cbn. rewrite Yu, Yd, Yr, Yg. intros Eu. destruct (Hdef Eu) as [Hid Hfit]. split; [lia|]. split; [|done].
      destruct (lookup_lt_is_Some_2 got (Z.to_nat (defaultPortID x))) as [b Hb]; [unfold got; rewrite length_insert; lia|].
      rewrite Hb. f_equal. by apply (Forall_lookup_1 _ _ _ _ (Hga eq_refl) Hb). }
    assert (aggregate y = Ok (with_xbarRanges y out)) as ->.
    { revert Hagg. unfold aggregate. cbn. intros H. apply bind_ok in H as (st & H1 & H). apply bind_ok in H as (o & H2 & H).
      apply bind_ok in H as ([] & H3 & H). rewrite H1. cbn [rbind]. change (keep_range (clearPortCache y)) with (keep_range y) in H2.
      rewrite H2. cbn [rbind]. assert (check_overlap (clearPortCache y) o = check_overlap y o) as E3.
      { clear. induction o as [|r o IH]; [done|]. cbn. by rewrite IH. }
      rewrite E3 in H3. rewrite H3. cbn [rbind]. by injection H as ->. }
    cbn [rbind]. eexists. split; [done|]. rewrite clear_with_ranges. split_and!; try done.
    destruct Hr as [H1 H2 H3 H4 H5 H6]. by split.
  - eexists. split; [done|]. by split_and!.
Qed.

(** ** Properties *)

(** A new crossbar with [n] master ports, the default one included. *)
Definition new_route (n : nat) (default_id : Z) (use : bool) : XbarRoute :=
  let c := mkPortCache false 0 (AddrRange_plain 1 0) in
  mkXbarRoute [] c c c (replicate n false) false default_id use (AddrRange_plain 1 0) [].

(** Announcements and lookups, with the announcements so far. *)
Inductive route_step : XbarRoute * announced -> XbarRoute * announced -> Prop :=
  | step_change x ann id rs x' :
      change_ok x ann id rs -> settles x ann id rs -> recvRangeChange x id rs = Ok x' ->
      route_step (x, ann) (x', announced_after x ann id rs)
  | step_lookup x ann a id x' :
      is_u64 a -> findPort x a = Ok (id, x') -> route_step (x, ann) (x', ann).

Definition route_inv (s : XbarRoute * announced) : Prop :=
  route_ok s.1 s.2 /\ (gotAllAddrRanges s.1 = true -> announces s.1 s.2 (xbarRanges s.1)).

Lemma new_route_inv n d u : route_inv (new_route n d u, fun _ => []).
Proof.
  split; [|done]. split; cbn; try done; [constructor|..].
  - intros r id. split; intros Hx; by apply not_elem_of_nil in Hx.
  - intros id r Hx. by apply not_elem_of_nil in Hx.
  - intros id r id' r' Hx. by apply not_elem_of_nil in Hx.
  - intros c Hin Hv. apply elem_of_cons in Hin as [->|Hin]; [done|]. apply elem_of_cons in Hin as [->|Hin]; [done|].
    by apply list_elem_of_singleton in Hin as ->.
Qed.

Lemma findPort_dest x a id x' : findPort x a = Ok (id, x') -> gotAllAddrRanges x = true.
Proof. unfold findPort. intros H. apply bind_ok in H as (u & H & _). by apply assert_ok in H. Qed.

Lemma goes_somewhere x ann a :
  route_ok x ann -> (exists id, goes_to x ann a id) \/ (forall id, ~ goes_to x ann a id).
Proof.
  intros Hok. destruct (owner (portMap x) a) as [i|] eqn:Eo.
  - left. exists i. left. by apply (map_owner _ _ Hok).
  - assert (forall i, ~ covered (ann i) a) as Hn by (intros i Hi; apply (map_owner _ _ Hok) in Hi; congruence).
    assert (Decision (if useDefaultRange x then contains (defaultRange x) a = true else defaultPortID x <> InvalidPortID)) as [Hd|Hd]
      by (destruct (useDefaultRange x); apply _).
    + left. exists (defaultPortID x). by right.
    + right. intros id [Hc|(_ & _ & Hc)]; [by apply (Hn id)|done].
Qed.

Lemma route_step_inv s s' : route_inv s -> route_step s s' -> route_inv s'.
Proof.
  intros [Hok Ha] Hs. destruct Hs as [x ann id rs x' Hc Hset Hr|x ann a id x' Hu Hf]; cbn [fst snd] in *.
  - destruct (recvRangeChange_ok x ann id rs Hok Hc Hset) as (y & Hy & Hoky & Hg & _ & _ & _ & Hann).
    rewrite Hr in Hy. injection Hy as <-. split; [done|]. cbn. rewrite Hg. exact Hann.
  - pose proof (findPort_dest _ _ _ _ Hf) as Hall. destruct (goes_somewhere x ann a Hok) as [[i Hi]|Hn].
    + destruct (findPort_ok x ann Hok a i Hall Hu Hi) as (c0 & c1 & c2 & E & Hok'). rewrite Hf in E. injection E as -> ->.
      split; [done|]. exact Ha.
    + rewrite (findPort_fatal x ann Hok a Hall Hu Hn) in Hf. done.
Qed.

Lemma reached_inv n d u s : rtc route_step (new_route n d u, fun _ => []) s -> route_inv s.
Proof.
  intros Hr. remember (new_route n d u, fun _ => []) as s0 eqn:E0. assert (route_inv s0) as H0 by (rewrite E0; apply new_route_inv).
  clear E0. induction Hr as [|s1 s2 s3 Hs _ IH]; [done|]. apply IH. by eapply route_step_inv.
Qed.

(** C30: Routing follows the announcements.  After any sequence of announcements,
    the ranges fitting together, and lookups, whatever the port cache holds: an
    address goes to the port that has announced it last, else to the default
    port if that takes it, else the crossbar stops; a further announcement that
    fits is accepted; and the ranges the crossbar announces in turn, chunks
    merged, cover exactly the addresses of its ports and of the default range. *)
Theorem routing_exact n default_id use x ann :
  rtc route_step (new_route n default_id use, fun _ => []) (x, ann) ->
  (gotAllAddrRanges x = true -> forall a, is_u64 a ->
     (forall id, goes_to x ann a id -> exists x', findPort x a = Ok (id, x')) /\
     ((forall id, ~ goes_to x ann a id) -> findPort x a = Err Fatal)) /\
  (forall id rs, change_ok x ann id rs -> settles x ann id rs -> exists x', recvRangeChange x id rs = Ok x') /\
  (gotAllAddrRanges x = true -> exists rs, xbar_getAddrRanges x = Ok rs /\ announces x ann rs).
Proof.
  intros Hr. destruct (reached_inv _ _ _ _ Hr) as [Hok Ha].
  cbn [fst snd] in *. split_and!.
  - intros Hall a Hu. split; [|by apply findPort_fatal]. intros id Hg.
    destruct (findPort_ok x ann Hok a id Hall Hu Hg) as (c0 & c1 & c2 & E & _). eauto.
  - intros id rs Hc Hset. destruct (recvRangeChange_ok x ann id rs Hok Hc Hset) as (x' & E & _). eauto.
  - intros Hall. exists (xbarRanges x). unfold xbar_getAddrRanges. rewrite Hall. split; [done|by apply Ha].
Qed.

(** A memory and a device, announced one after the other. *)
Definition route0 : XbarRoute := new_route 2 InvalidPortID false.
Definition demo_ranges (id : Z) : list AddrRange :=
  if id =? 0 then [AddrRange_plain 0x1000 0x1fff] else [AddrRange_plain 0x3000 0x30ff].
Definition route_after (x : XbarRoute) (id : Z) : XbarRoute :=
  match recvRangeChange x id (demo_ranges id) with Ok x => x | Err _ => x end.
Definition route2 : XbarRoute := route_after (route_after route0 0) 1.
Definition ann1 : announced := announced_after route0 (fun _ => []) 0 (demo_ranges 0).
Definition ann2 : announced := announced_after (route_after route0 0) ann1 1 (demo_ranges 1).

Lemma demo_ranges_ok id r : r ∈ demo_ranges id -> range_ok r /\ interleaved r = false.
Proof.
  unfold demo_ranges. intros Hr. destruct (id =? 0); apply list_elem_of_singleton in Hr as ->; (split; [|done]);
    split; [split|..]; unfold in_range; cbn [AddrRange_plain ar_start ar_end intlvBits intlvMatch]; lia || done.
Qed.

Lemma demo_change x ann id :
  (0 <= id < 2) -> length (gotAddrRanges x) = 2%nat -> defaultPortID x = InvalidPortID ->
  (forall id' r, id' <> id -> r ∈ ann id' -> forall r', r' ∈ demo_ranges id -> compatible r r') ->
  change_ok x ann id (demo_ranges id).
Proof.
  intros Hid Hl Hd Hc. assert (id <> defaultPortID x) as Hne by (rewrite Hd; unfold InvalidPortID; lia). split.
  - rewrite Hl. lia.
  - done.
  - intros _. split; [apply Forall_forall; intros r Hr; by apply (demo_ranges_ok id r)|].
    unfold demo_ranges. destruct (id =? 0); repeat constructor; apply not_elem_of_nil.
  - intros _ r r' Hr Hr'. left. unfold demo_ranges in *. destruct (id =? 0); apply list_elem_of_singleton in Hr as ->, Hr' as ->; done.
  - intros _ id' r r' Hi Hr Hr'. by eapply Hc.
Qed.

Lemma ann2_elem i r : r ∈ ann2 i -> (i = 0 \/ i = 1) /\ r ∈ demo_ranges i.
Proof.
  unfold ann2, announced_after. rewrite decide_False by done. intros [[-> Hr]|[_ Hr]]%announce_elem; [auto|].
  unfold ann1, announced_after in Hr. rewrite decide_False in Hr by done. apply announce_elem in Hr as [[-> Hr]|[_ Hr]]; [auto|].
  by apply not_elem_of_nil in Hr.
Qed.

Lemma demo_reached : rtc route_step (route0, fun _ => []) (route2, ann2).
Proof.
  eapply rtc_l; [|eapply rtc_l; [|apply rtc_refl]].
  - apply (step_change route0 (fun _ => []) 0 (demo_ranges 0) (route_after route0 0)); [|done|reflexivity].
    apply demo_change; [lia|done|done|]. intros id' r _ Hr. by apply not_elem_of_nil in Hr.
  - apply (step_change (route_after route0 0) ann1 1 (demo_ranges 1) route2); [| |reflexivity].
    + apply demo_change; [lia|done|done|]. intros id' r Hne Hr r' Hr'.
      unfold ann1, announced_after in Hr. rewrite decide_False in Hr by done. apply announce_elem in Hr as [[-> Hr]|[_ Hr]];
        [|by apply not_elem_of_nil in Hr].
      apply list_elem_of_singleton in Hr as ->, Hr' as ->. right. unfold apart, in_bounds. cbn. lia.
    + intros _. split; [|done]. intros id r Hr Hi. apply ann2_elem in Hr as [_ Hr]. destruct (demo_ranges_ok _ _ Hr). congruence.
Qed.

Lemma routing_exact_witness :
  exists x', findPort route2 0x3010 = Ok (1, x') /\ findPort route2 0x2000 = Err Fatal.
Proof.
  destruct (routing_exact 2 InvalidPortID false route2 ann2 demo_reached) as (Hf & _).
  destruct (Hf ltac:(reflexivity) 0x3010 ltac:(unfold in_range; lia)) as [H1 _].
  destruct (Hf ltac:(reflexivity) 0x2000 ltac:(unfold in_range; lia)) as [_ H2].
  destruct (H1 1) as [x' Hx].
  - left. apply covered_elem. exists (AddrRange_plain 0x3000 0x30ff). split; [|reflexivity].
    unfold ann2, announced_after. rewrite decide_False by done. apply announce_elem. left. split; [reflexivity|apply list_elem_of_here].
  - exists x'. split; [exact Hx|]. apply H2. intros id [Hc|(_ & _ & Hc)]; [|by apply Hc].
    apply covered_elem in Hc as (r & Hr & Hc). apply ann2_elem in Hr as [[-> | ->] Hr]; apply list_elem_of_singleton in Hr as ->; discriminate Hc.
Defined.
