(* ===== verification/XbarLayer.v ===== *)
(** * Layers of the crossbars

    [BaseXBar::Layer] ([mem/xbar.hh], [mem/xbar.cc]): the point where the packets
    for one destination port meet.  A layer is busy for a time after each packet;
    sources that find it busy, or its destination waiting for a retry, queue up
    and are told to retry in turn.  A source told to retry may send through the
    layer before [sendRetry] returns, so [retryWaiting] is split there: the code
    up to the call, which names the port to retry, and [retryReturned] for the
    code after it.  The statistics are left out. *)
From S2P Require Import Prelude Flags IntMath EventQueue EventSched Clock.

(** ** Definitions *)

Inductive LayerState := IDLE | BUSY | RETRY.

#[export] Instance LayerState_eq_dec : EqDecision LayerState.
Proof. solve_decision. Defined.

(** Ports are given by their numbers; no port is [None]. *)
Record Layer := mkLayer {
  ly_state : LayerState;
  waitingForLayer : list Z;
  waitingForPeer : option Z;
  ly_releaseEvent : ptr;
  ly_drainManager : bool;
  ly_drainDone : nat;
}.

Definition set_state (l : Layer) (s : LayerState) : Layer :=
  mkLayer s (waitingForLayer l) (waitingForPeer l) (ly_releaseEvent l) (ly_drainManager l) (ly_drainDone l).
Definition set_waiting (l : Layer) (ws : list Z) : Layer :=
  mkLayer (ly_state l) ws (waitingForPeer l) (ly_releaseEvent l) (ly_drainManager l) (ly_drainDone l).
Definition set_peer (l : Layer) (p : option Z) : Layer :=
  mkLayer (ly_state l) (waitingForLayer l) p (ly_releaseEvent l) (ly_drainManager l) (ly_drainDone l).
Definition set_ly_drain (l : Layer) (b : bool) (n : nat) : Layer :=
  mkLayer (ly_state l) (waitingForLayer l) (waitingForPeer l) (ly_releaseEvent l) b n.

(** [Layer(port, xbar, name)]. *)
Definition new_Layer (release : ptr) : Layer := mkLayer IDLE [] None release false 0.

Section LayerOps.
Context {Q : Type} `{EventSched Q}.

Record LySt := mkLySt { ls_q : Q; ls_clock : Clocked; ls_period : Z; ls_l : Layer }.

Definition with_l (s : LySt) (l : Layer) : LySt := mkLySt (ls_q s) (ls_clock s) (ls_period s) l.

(** [xbar.clockEdge(cycles)]. *)
Definition ly_clockEdge (s : LySt) (cycles : Z) : Z * LySt :=
  let '(t, c) := clockEdge (q_now (ls_q s)) (ls_period s) (ls_clock s) cycles in
  (t, mkLySt (ls_q s) c (ls_period s) (ls_l s)).

Definition occupyLayer (s : LySt) (until : Z) : result LySt :=
  let* _ := assert_ (bool_decide (ly_state (ls_l s) = BUSY)) in
  let* _ := assert_ (negb (until =? 0)) in
  let* q := q_schedule (ls_q s) (ly_releaseEvent (ls_l s)) until in
  Ok (mkLySt q (ls_clock s) (ls_period s) (ls_l s)).

Definition tryTiming (s : LySt) (src_port : Z) : result (bool * LySt) :=
  let l := ls_l s in
  if bool_decide (ly_state l = BUSY) || negb (bool_decide (waitingForPeer l = None)) then
    let* _ := assert_ (negb (bool_decide (src_port ∈ waitingForLayer l))) in
    Ok (false, with_l s (set_waiting l (waitingForLayer l ++ [src_port])))
  else Ok (true, with_l s (set_state l BUSY)).

Definition succeededTiming (s : LySt) (busy_time : Z) : result LySt :=
  let* _ := assert_ (bool_decide (ly_state (ls_l s) = BUSY)) in
  occupyLayer s busy_time.

Definition failedTiming (s : LySt) (src_port busy_time : Z) : result LySt :=
  let* _ := assert_ (bool_decide (waitingForPeer (ls_l s) = None)) in
  let s := with_l s (set_peer (ls_l s) (Some src_port)) in
  let* _ := assert_ (bool_decide (ly_state (ls_l s) = BUSY)) in
  occupyLayer s busy_time.

(** [drain(dm)]. *)
Definition layer_drain (s : LySt) : Z * LySt :=
  if negb (bool_decide (ly_state (ls_l s) = IDLE)) then
    (1, with_l s (set_ly_drain (ls_l s) true (ly_drainDone (ls_l s))))
  else (0, s).

(** [retryWaiting()] up to [sendRetry(retryingPort)]. *)
Definition retryWaiting (s : LySt) : result (Z * LySt) :=
  match waitingForLayer (ls_l s) with
  | [] => Err Assert_failed
  | retryingPort :: rest =>
      let* _ := assert_ (bool_decide (ly_state (ls_l s) = IDLE)) in
      Ok (retryingPort, with_l s (set_waiting (set_state (ls_l s) RETRY) rest))
  end.

(** [retryWaiting()] once [sendRetry] has returned. *)
Definition retryReturned (s : LySt) : result LySt :=
  if bool_decide (ly_state (ls_l s) = RETRY) then
    let '(edge, s) := ly_clockEdge (with_l s (set_state (ls_l s) BUSY)) 0 in
    occupyLayer s edge
  else Ok s.

(** [releaseLayer()]; the result names the port that is told to retry, if any. *)
Definition releaseLayer (s : LySt) : result (option Z * LySt) :=
  let* _ := assert_ (bool_decide (ly_state (ls_l s) = BUSY)) in
  let* _ := assert_ (negb (q_scheduled (ls_q s) (ly_releaseEvent (ls_l s)))) in
  let l := set_state (ls_l s) IDLE in
  match waitingForLayer l with
  | _ :: _ =>
      if bool_decide (waitingForPeer l = None) then
        let* '(p, s) := retryWaiting (with_l s l) in Ok (Some p, s)
      else Ok (None, with_l s l)
  | [] =>
      if bool_decide (waitingForPeer l = None) && ly_drainManager l then
        Ok (None, with_l s (set_ly_drain l false (S (ly_drainDone l))))
      else Ok (None, with_l s l)
  end.

(** [recvRetry()]. *)
Definition recvRetry (s : LySt) : result (option Z * LySt) :=
  match waitingForPeer (ls_l s) with
  | None => Err Assert_failed
  | Some p =>
      let l := set_peer (set_waiting (ls_l s) (p :: waitingForLayer (ls_l s))) None in
      if bool_decide (ly_state l = IDLE) then
        let* '(p, s) := retryWaiting (with_l s l) in Ok (Some p, s)
      else
        let* _ := assert_ (bool_decide (ly_state l = BUSY)) in Ok (None, with_l s l)
  end.
End LayerOps.
Arguments LySt : clear implicits.

(** ** Clocks that do not overflow *)

(** The cycle counter is behind the edge it belongs to, and the edge less than
    a period ahead. *)
Record clk_ok (now period : Z) (c : Clocked) : Prop := {
  co_period : 0 < period;
  co_now : 0 <= now;
  co_bound : now + period < 2 ^ 62;
  co_cycle : 0 <= cl_cycle c <= cl_tick c;
  co_fresh : cl_fresh now period c;
}.

Lemma clk_ok_bounded now period c : clk_ok now period c -> cl_bounded now period c.
Proof. intros [Hp Hn Hb Hc Hf]. unfold cl_bounded, cl_fresh in *. lia. Qed.

Lemma clk_ok_update now period c : clk_ok now period c -> clk_ok now period (cl_update now period c).
Proof.
  intros H. pose proof (update_fresh _ _ _ (clk_ok_bounded _ _ _ H) (co_fresh _ _ _ H)) as Hu.
  pose proof (update_edges _ _ _ (clk_ok_bounded _ _ _ H)) as He. cbv zeta in He. destruct H as [Hp Hn Hb Hc Hf].
  pose proof (edges_spec now period (cl_tick c) Hp) as (K0 & _). split; try done; [|unfold cl_fresh; lia].
  rewrite He. cbn. nia.
Qed.

Lemma clk_ok_later now now' period c :
  clk_ok now period c -> now <= now' -> now' + period < 2 ^ 62 -> clk_ok now' period c.
Proof. intros [Hp Hn Hb Hc Hf] Hle Hb'. split; try done; [lia|unfold cl_fresh in *; lia]. Qed.

(** [clockEdge(n)] is not before the current tick, and less than [n + 1]
    periods away. *)
Lemma clk_edge now period c n :
  clk_ok now period c -> 0 <= n <= 1 ->
  exists t, clockEdge now period c n = (t, cl_update now period c) /\ now + n * period <= t < now + (n + 1) * period.
Proof.
  intros H Hn. pose proof (update_fresh _ _ _ (clk_ok_bounded _ _ _ H) (co_fresh _ _ _ H)) as Hu.
  unfold clockEdge. eexists. split; [done|]. destruct H as [Hp H0 Hb Hc Hf].
  rewrite (u64_small (period * n)) by (unfold in_range; nia). rewrite u64_small by (unfold in_range; nia). nia.
Qed.

(** ** The states of a layer *)

Section LayerCorrect.
Context {Q : Type} `{EventSchedLaws Q}.
Implicit Types s : LySt Q.

Definition pending s : bool := q_scheduled (ls_q s) (ly_releaseEvent (ls_l s)).

(** Between calls: busy with the release event scheduled, or idle with nobody
    waiting, except behind a port that waits for a retry of the destination. *)
Definition rests s : Prop :=
  match ly_state (ls_l s) with
  | BUSY => pending s = true /\ 0 < q_when (ls_q s) (ly_releaseEvent (ls_l s))
  | IDLE => pending s = false /\
      match waitingForPeer (ls_l s) with None => waitingForLayer (ls_l s) = [] | Some _ => 0 < q_now (ls_q s) end
  | RETRY => False
  end.

(** While a packet is being sent to the destination. *)
Definition held s : Prop := ly_state (ls_l s) = BUSY /\ pending s = false /\ waitingForPeer (ls_l s) = None.

(** While a source is being told to retry. *)
Definition retrying s : Prop :=
  ly_state (ls_l s) = RETRY /\ pending s = false /\ waitingForPeer (ls_l s) = None /\ 0 < q_now (ls_q s).

Record ly_base s : Prop := {
  lb_inv : q_inv (ls_q s);
  lb_own : q_own (ls_q s) (ly_releaseEvent (ls_l s));
  lb_clock : clk_ok (q_now (ls_q s)) (ls_period s) (ls_clock s);
}.

(** What an operation of the layer leaves alone. *)
Record ly_frame s s' : Prop := {
  lf_base : ly_base s';
  lf_now : q_now (ls_q s') = q_now (ls_q s);
  lf_own r : q_own (ls_q s) r -> q_own (ls_q s') r;
  lf_other r : r <> ly_releaseEvent (ls_l s) ->
    q_scheduled (ls_q s') r = q_scheduled (ls_q s) r /\ q_when (ls_q s') r = q_when (ls_q s) r;
  lf_period : ls_period s' = ls_period s;
  lf_event : ly_releaseEvent (ls_l s') = ly_releaseEvent (ls_l s);
}.

Lemma frame_same s l :
  ly_base s -> ly_releaseEvent l = ly_releaseEvent (ls_l s) -> ly_frame s (with_l s l).
Proof. intros [] He. split; try done. split; cbn; try done. by rewrite He. Qed.

Lemma frame_trans s1 s2 s3 : ly_frame s1 s2 -> ly_frame s2 s3 -> ly_frame s1 s3.
Proof.
  intros [B1 N1 O1 T1 P1 E1] [B2 N2 O2 T2 P2 E2]. split; try congruence; [auto|].
  intros r Hr. destruct (T2 r) as [-> ->]; [congruence|]. by apply T1.
Qed.

(** A packet is let through when the layer rests idle with nobody waiting for
    the destination or is telling a port to retry; otherwise the source is
    queued. *)
Lemma tryTiming_ok s src :
  ly_base s -> src ∉ waitingForLayer (ls_l s) ->
  exists b s', tryTiming s src = Ok (b, s') /\ ly_frame s s' /\ ls_q s' = ls_q s /\
    if b then ls_l s' = set_state (ls_l s) BUSY /\ ly_state (ls_l s) <> BUSY /\ (rests s \/ retrying s -> held s')
    else ls_l s' = set_waiting (ls_l s) (waitingForLayer (ls_l s) ++ [src]) /\
         (rests s -> rests s') /\ (held s -> held s') /\ ~ retrying s.
Proof.
  intros Hb Hs. unfold tryTiming.
  destruct (bool_decide_reflect (ly_state (ls_l s) = BUSY)) as [E|E]; cbn [orb].
  - rewrite bool_decide_eq_false_2 by done. cbn [negb assert_ rbind].
    eexists false, _. split; [done|]. split; [by apply frame_same|]. split; [done|]. cbn. split; [done|].
    unfold rests, held, retrying, pending. cbn. rewrite E. split_and!; [done|done|]. by intros [? _].
  - destruct (waitingForPeer (ls_l s)) as [p|] eqn:Ep.
    + rewrite !bool_decide_eq_false_2 by done. cbn [negb assert_ rbind].
      eexists false, _. split; [done|]. split; [by apply frame_same|]. split; [done|]. cbn. split; [done|].
      unfold rests, held, retrying, pending. cbn. rewrite Ep. split_and!; [done|by intros (_ & _ & ?)|]. by intros (_ & _ & ? & _).
    + rewrite bool_decide_eq_true_2 by done. cbn [negb].
      eexists true, _. split; [done|]. split; [by apply frame_same|]. split; [done|]. split; [done|]. split; [done|].
      unfold rests, held, retrying, pending. cbn. rewrite Ep. intros [Hr|(_ & ? & _)]; [|done].
      destruct (ly_state (ls_l s)); [by destruct Hr|done|done].
Qed.

Lemma occupyLayer_ok s t :
  ly_base s -> ly_state (ls_l s) = BUSY -> pending s = false -> q_now (ls_q s) <= t -> 0 < t ->
  exists s', occupyLayer s t = Ok s' /\ ly_frame s s' /\ ls_l s' = ls_l s /\ rests s'.
Proof.
  intros [Hi Ho Hc] Hs Hp Ht Hz. unfold occupyLayer. rewrite bool_decide_eq_true_2 by done. cbn [assert_ rbind].
  rewrite (proj2 (Z.eqb_neq t 0)) by lia. cbn [negb assert_ rbind].
  destruct (q_schedule_ok _ _ t Hi Ho Hp Ht) as (q & -> & Hi' & [S1 S2 S3 _ S5 S6]). cbn [rbind].
  eexists. split; [done|]. split; [|split; [done|]].
  - split; try done. split; cbn; [done|by apply S5|by rewrite S1].
  - unfold rests, pending. cbn. rewrite Hs, (S3 t) by done. done.
Qed.

Lemma succeededTiming_ok s t :
  ly_base s -> held s -> q_now (ls_q s) <= t -> 0 < t ->
  exists s', succeededTiming s t = Ok s' /\ ly_frame s s' /\ ls_l s' = ls_l s /\ rests s'.
Proof.
  intros Hb (Hs & Hp & _) Ht Hz. unfold succeededTiming. rewrite bool_decide_eq_true_2 by done. by apply occupyLayer_ok.
Qed.

Lemma failedTiming_ok s src t :
  ly_base s -> held s -> q_now (ls_q s) <= t -> 0 < t ->
  exists s', failedTiming s src t = Ok s' /\ ly_frame s s' /\ ls_l s' = set_peer (ls_l s) (Some src) /\ rests s'.
Proof.
  intros Hb (Hs & Hp & Hn) Ht Hz. unfold failedTiming. rewrite bool_decide_eq_true_2 by done. cbn [assert_ rbind].
  rewrite bool_decide_eq_true_2 by done. cbn [assert_ rbind].
  destruct (occupyLayer_ok (with_l s (set_peer (ls_l s) (Some src))) t) as (s' & -> & Hf & Hl & Hr); try done.
  { by destruct Hb. }
  exists s'. split; [done|]. split; [|done]. eapply frame_trans; [|exact Hf]. by apply frame_same.
Qed.

(** Once the port that was told to retry returns. *)
Lemma retryReturned_ok s :
  ly_base s -> retrying s \/ rests s ->
  exists s', retryReturned s = Ok s' /\ ly_frame s s' /\ rests s' /\
    (ly_state (ls_l s) <> IDLE -> ly_state (ls_l s') = BUSY) /\
    waitingForLayer (ls_l s') = waitingForLayer (ls_l s) /\ waitingForPeer (ls_l s') = waitingForPeer (ls_l s).
Proof.
  intros Hb Hr. unfold retryReturned. destruct (bool_decide_reflect (ly_state (ls_l s) = RETRY)) as [E|E].
  - destruct Hr as [(_ & Hp & Hn & Hz)|Hr]; [|unfold rests in Hr; by rewrite E in Hr].
    unfold ly_clockEdge. cbn [ls_q ls_period ls_clock ls_l with_l].
    destruct (clk_edge _ _ _ 0 (lb_clock _ Hb)) as (t & -> & Ht); [lia|].
    destruct (occupyLayer_ok (mkLySt (ls_q s) (cl_update (q_now (ls_q s)) (ls_period s) (ls_clock s)) (ls_period s)
      (set_state (ls_l s) BUSY)) t) as (s' & -> & Hf & Hl & Hr'); cbn; try done; [|lia|lia|].
    { destruct Hb. split; cbn; try done. by apply clk_ok_update. }
    exists s'. rewrite Hl. split_and!; try done. destruct Hf. split; cbn in *; done.
  - exists s. split; [done|]. split; [|split; [|split; [by destruct (ly_state (ls_l s))|done]]].
    + pose proof (frame_same s (ls_l s) Hb eq_refl) as Hf. by destruct s.
    + destruct Hr as [(? & _)|]; done.
Qed.

Lemma retryWaiting_ok s p ws :
  ly_base s -> ly_state (ls_l s) = IDLE -> waitingForLayer (ls_l s) = p :: ws -> pending s = false ->
  waitingForPeer (ls_l s) = None -> 0 < q_now (ls_q s) ->
  exists s', retryWaiting s = Ok (p, s') /\ ly_frame s s' /\ ls_q s' = ls_q s /\ retrying s' /\ waitingForLayer (ls_l s') = ws.
Proof.
  intros Hb Hs Hw Hp Hn Hz. unfold retryWaiting. rewrite Hw, bool_decide_eq_true_2 by done. cbn [assert_ rbind].
  eexists. split; [done|]. split_and!; try done. by apply frame_same.
Qed.

(** The release of the layer tells the first port in the queue to retry, unless
    the destination still owes a retry. *)
Lemma releaseLayer_ok s :
  ly_base s -> ly_state (ls_l s) = BUSY -> pending s = false -> 0 < q_now (ls_q s) ->
  exists o s', releaseLayer s = Ok (o, s') /\ ly_frame s s' /\ ls_q s' = ls_q s /\ waitingForPeer (ls_l s') = waitingForPeer (ls_l s) /\
    match o with
    | Some p => waitingForLayer (ls_l s) = p :: waitingForLayer (ls_l s') /\ retrying s'
    | None => (waitingForLayer (ls_l s) = [] \/ waitingForPeer (ls_l s) <> None) /\
              waitingForLayer (ls_l s') = waitingForLayer (ls_l s) /\ rests s' /\ ly_state (ls_l s') = IDLE
    end.
Proof.
  intros Hb Hs Hp Hz. unfold releaseLayer. rewrite bool_decide_eq_true_2 by done. cbn [assert_ rbind].
  fold (pending s). rewrite Hp. cbn [negb assert_ rbind]. set (l := set_state (ls_l s) IDLE).
  assert (ly_frame s (with_l s l)) as Hf by by apply frame_same.
  change (waitingForLayer l) with (waitingForLayer (ls_l s)). change (waitingForPeer l) with (waitingForPeer (ls_l s)).
  destruct (waitingForLayer (ls_l s)) as [|p ws] eqn:Hw.
  - assert (forall b n, let l' := set_ly_drain l b n in ly_frame s (with_l s l') /\ rests (with_l s l')) as Hd.
    { intros b n. split; [by apply frame_same|]. unfold rests. cbn. split; [exact Hp|]. by destruct (waitingForPeer (ls_l s)). }
    destruct (bool_decide (waitingForPeer (ls_l s) = None) && ly_drainManager l).
    + eexists None, _. split; [done|]. destruct (Hd false (S (ly_drainDone l))) as [H1 H2]. split_and!; try done. by left.
    + eexists None, _. split; [done|]. destruct (Hd (ly_drainManager l) (ly_drainDone l)) as [H1 H2]. split_and!; try done. by left.
  - destruct (waitingForPeer (ls_l s)) as [x|] eqn:Ew.
    + rewrite bool_decide_eq_false_2 by done. eexists None, _. split; [done|]. split_and!; try done; [by right|].
      unfold rests. cbn. rewrite Ew. done.
    + rewrite bool_decide_eq_true_2 by done.
      destruct (retryWaiting_ok (with_l s l) p ws) as (s' & -> & Hf' & Hq & Hr & Hw'); try done; [by destruct Hf|].
      cbn [rbind]. eexists (Some p), s'. split; [done|]. split; [by eapply frame_trans|]. rewrite Hw'. split; [done|].
      split; [|done]. by destruct Hr as (_ & _ & ? & _).
Qed.

(** A retry of the destination puts the port that waits for it in front, and
    tells it to retry at once if the layer is idle. *)
Lemma recvRetry_ok s x :
  ly_base s -> rests s -> waitingForPeer (ls_l s) = Some x ->
  exists o s', recvRetry s = Ok (o, s') /\ ly_frame s s' /\ ls_q s' = ls_q s /\ waitingForPeer (ls_l s') = None /\
    match o with
    | Some p => p = x /\ waitingForLayer (ls_l s') = waitingForLayer (ls_l s) /\ retrying s' /\ ly_state (ls_l s) = IDLE
    | None => waitingForLayer (ls_l s') = x :: waitingForLayer (ls_l s) /\ rests s' /\ ly_state (ls_l s') = BUSY
    end.
Proof.
  intros Hb Hr Hx. unfold recvRetry. rewrite Hx. set (l := set_peer _ None).
  assert (ly_frame s (with_l s l)) as Hf by by apply frame_same.
  change (ly_state l) with (ly_state (ls_l s)). unfold rests in Hr. rewrite Hx in Hr. destruct (ly_state (ls_l s)) eqn:E; [| |done].
  - destruct Hr as [Hp Hz]. rewrite bool_decide_eq_true_2 by done.
    destruct (retryWaiting_ok (with_l s l) x (waitingForLayer (ls_l s))) as (s' & -> & Hf' & Hq & Hr & Hw'); try done; [by destruct Hf|].
    cbn [rbind]. eexists (Some x), s'. split; [done|]. split; [by eapply frame_trans|]. split_and!; try done.
    by destruct Hr as (_ & _ & ? & _).
  - rewrite bool_decide_eq_false_2 by done. rewrite bool_decide_eq_true_2 by done. cbn [assert_ rbind].
    eexists None, _. split; [done|]. split_and!; try done. unfold rests. cbn. by rewrite E.
Qed.
End LayerCorrect.
