(* ===== verification/NoncoherentXbar.v ===== *)
(** * The non-coherent crossbar

    [mem/noncoherent_xbar.hh], [mem/noncoherent_xbar.cc] and the packet timing of
    [mem/xbar.cc]: requests go to the master port their address is routed to,
    responses back to the slave port the request came from, each destination
    behind a layer.  The neighbours may call the crossbar again before a call of
    theirs returns, so the handlers are split where they call a neighbour: a
    handler ends in a [Call], with the values it still needs in a [Frame] that
    the code after the call takes up.  [Config] is the crossbar with the frames
    of the calls in progress.  Requests are told apart by their address in
    memory, a number.  The statistics are left out. *)
From stdpp Require Import gmap.
From S2P Require Import Prelude Flags IntMath AddrRange EventQueue EventSched Clock Packet AddrMap XbarRoute XbarLayer.

(** ** Definitions *)

(** A packet with the delays the crossbars accumulate and its request. *)
Record TimedPacket := mkTimed {
  tp_pkt : Packet;
  tp_req : Z;
  headerDelay : Z;     (** [uint32_t] *)
  payloadDelay : Z;    (** [uint32_t] *)
}.

Definition with_delays (p : TimedPacket) (h d : Z) : TimedPacket := mkTimed (tp_pkt p) (tp_req p) h d.

(** [SimClock::Int::us] is part of the state. *)
Record NcXbar := mkNcXbar {
  nx_route : XbarRoute;
  frontendLatency : Z;
  forwardLatency : Z;
  responseLatency : Z;
  width : Z;
  nx_us : Z;
  routeTo : gmap Z Z;
  reqLayers : list Layer;
  respLayers : list Layer;
}.

Definition with_route (x : NcXbar) (r : XbarRoute) : NcXbar :=
  mkNcXbar r (frontendLatency x) (forwardLatency x) (responseLatency x) (width x) (nx_us x) (routeTo x)
    (reqLayers x) (respLayers x).
Definition with_routeTo (x : NcXbar) (m : gmap Z Z) : NcXbar :=
  mkNcXbar (nx_route x) (frontendLatency x) (forwardLatency x) (responseLatency x) (width x) (nx_us x) m
    (reqLayers x) (respLayers x).

(** Request layers, one for each master port, and response layers, one for each
    slave port. *)
Inductive Dir := ReqDir | RespDir.

#[export] Instance Dir_eq_dec : EqDecision Dir.
Proof. solve_decision. Defined.

Definition layers (x : NcXbar) (d : Dir) : list Layer := match d with ReqDir => reqLayers x | RespDir => respLayers x end.

Definition with_layer (x : NcXbar) (d : Dir) (i : nat) (l : Layer) : NcXbar :=
  mkNcXbar (nx_route x) (frontendLatency x) (forwardLatency x) (responseLatency x) (width x) (nx_us x) (routeTo x)
    (if decide (d = ReqDir) then <[i := l]> (reqLayers x) else reqLayers x)
    (if decide (d = RespDir) then <[i := l]> (respLayers x) else respLayers x).

(** [NoncoherentXBar(p)] with the release events of its layers; the default
    port, if there is one, comes after the other master ports. *)
Definition new_NcXbar (has_default use_default : bool) (frontend forward response wid us : Z)
    (master_events slave_events : list ptr) : NcXbar :=
  let n := length master_events in
  mkNcXbar (new_route n (if has_default then Z.of_nat n - 1 else InvalidPortID) use_default)
    frontend forward response wid us ∅ (map new_Layer master_events) (map new_Layer slave_events).

(** Indexing a vector by a port number. *)
Definition port_index (id : Z) : result nat := if 0 <=? id then Ok (Z.to_nat id) else Err Bad_pointer.

(** A call in progress: what the handler has in its local variables. *)
Inductive Frame :=
  | ReqFrame (master_port_id : nat) (slave_port_id old_header_delay packetFinishTime : Z) (expect_response : bool)
      (pkt : TimedPacket)
  | RespFrame (slave_port_id : nat) (master_port_id packetFinishTime : Z) (pkt : TimedPacket)
  | RetryFrame (d : Dir) (i : nat) (retryingPort : Z).

(** How a handler ends: it refuses, the port now waiting in the queue of a layer,
    or returns with nothing left to do, or calls a neighbour. *)
Inductive Call := Queued (d : Dir) (i : nat) (port : Z) | Returns | Calls (f : Frame).

Section NxOps.
Context {Q : Type} `{EventSched Q}.

Record NxSt := mkNxSt { nx_q : Q; nx_clock : Clocked; nx_period : Z; nx_x : NcXbar }.

Definition with_x (s : NxSt) (x : NcXbar) : NxSt := mkNxSt (nx_q s) (nx_clock s) (nx_period s) x.

(** A layer, and the state after an operation of it. *)
Definition layer_of (s : NxSt) (d : Dir) (i : nat) : result (LySt Q) :=
  let* l := deref (layers (nx_x s) d !! i) in Ok (mkLySt (nx_q s) (nx_clock s) (nx_period s) l).
Definition put_layer (s : NxSt) (d : Dir) (i : nat) (l : LySt Q) : NxSt :=
  mkNxSt (ls_q l) (ls_clock l) (nx_period s) (with_layer (nx_x s) d i (ls_l l)).

Definition xb_clockEdge (s : NxSt) (cycles : Z) : Z * NxSt :=
  let '(t, c) := clockEdge (q_now (nx_q s)) (nx_period s) (nx_clock s) cycles in
  (t, mkNxSt (nx_q s) c (nx_period s) (nx_x s)).

(** [divCeil] on 32-bit numbers. *)
Definition divCeil32 (a b : Z) : Z := u32 (u32 (a + b) - 1) / b.

Definition calcPacketTiming (s : NxSt) (p : TimedPacket) (header_delay : Z) : result (TimedPacket * NxSt) :=
  let '(edge, s) := xb_clockEdge s 0 in
  let offset := u64 (edge - q_now (nx_q s)) in
  let h := u32 (headerDelay p + u64 (offset + header_delay)) in
  if nx_us (nx_x s) <? h then Err Panic
  else if hasData (cmd (tp_pkt p)) then
    let* n := getSize (tp_pkt p) in
    if width (nx_x s) =? 0 then Err Bad_pointer
    else
      let d := Z.max (payloadDelay p) (u64 (divCeil32 n (width (nx_x s)) * nx_period s)) in
      Ok (with_delays p h (u32 d), s)
  else Ok (with_delays p h (payloadDelay p), s).

(** [recvTimingReq(pkt, slave_port_id)] up to [sendTimingReq(pkt)]. *)
Definition recvTimingReq (s : NxSt) (p : TimedPacket) (slave_port_id : Z) : result (Call * NxSt) :=
  let* i := port_index slave_port_id in
  let* _ := deref (respLayers (nx_x s) !! i) in
  let* _ := assert_ (negb (isExpressSnoop (tp_pkt p))) in
  let* a := getAddr (tp_pkt p) in
  let* '(master_port_id, r) := findPort (nx_route (nx_x s)) a in
  let s := with_x s (with_route (nx_x s) r) in
  let* m := port_index master_port_id in
  let* l := layer_of s ReqDir m in
  let* '(ok, l) := tryTiming l slave_port_id in
  let s := put_layer s ReqDir m l in
  if negb ok then Ok (Queued ReqDir m slave_port_id, s)
  else
    let old_header_delay := headerDelay p in
    let xbar_delay := u64 (u64 (frontendLatency (nx_x s) + forwardLatency (nx_x s)) * nx_period s) in
    let* '(p, s) := calcPacketTiming s p xbar_delay in
    let '(edge, s) := xb_clockEdge s 1 in
    let packetFinishTime := u64 (edge + payloadDelay p) in
    let expect_response := needsResponse (cmd (tp_pkt p)) && negb (memInhibitAsserted (tp_pkt p)) in
    Ok (Calls (ReqFrame m slave_port_id old_header_delay packetFinishTime expect_response p), s).

(** [recvTimingReq] once [sendTimingReq] has returned [success], with the packet
    as it is then; the packet comes with the answer. *)
Definition reqReturned (s : NxSt) (m : nat) (slave_port_id old_header_delay packetFinishTime : Z)
    (expect_response success : bool) (p : TimedPacket) : result (bool * TimedPacket * NxSt) :=
  if negb success then
    let* _ := assert_ (negb (memInhibitAsserted (tp_pkt p))) in
    let p := with_delays p old_header_delay (payloadDelay p) in
    let '(edge, s) := xb_clockEdge s 1 in
    let* l := layer_of s ReqDir m in
    let* l := failedTiming l slave_port_id edge in
    Ok (false, p, put_layer s ReqDir m l)
  else
    let* s :=
      if expect_response then
        let* _ := assert_ (bool_decide (routeTo (nx_x s) !! tp_req p = None)) in
        Ok (with_x s (with_routeTo (nx_x s) (<[tp_req p := slave_port_id]> (routeTo (nx_x s)))))
      else Ok s in
    let* l := layer_of s ReqDir m in
    let* l := succeededTiming l packetFinishTime in
    Ok (true, p, put_layer s ReqDir m l).

(** [recvTimingResp(pkt, master_port_id)] up to [sendTimingResp(pkt)]. *)
Definition recvTimingResp (s : NxSt) (p : TimedPacket) (master_port_id : Z) : result (Call * NxSt) :=
  let* m := port_index master_port_id in
  let* _ := deref (reqLayers (nx_x s) !! m) in
  match routeTo (nx_x s) !! tp_req p with
  | None => Err Assert_failed
  | Some slave_port_id =>
      let* _ := assert_ (negb (slave_port_id =? InvalidPortID)) in
      let* _ := assert_ (u64 slave_port_id <? Z.of_nat (length (respLayers (nx_x s)))) in
      let* i := port_index slave_port_id in
      let* l := layer_of s RespDir i in
      let* '(ok, l) := tryTiming l master_port_id in
      let s := put_layer s RespDir i l in
      if negb ok then Ok (Queued RespDir i master_port_id, s)
      else
        let xbar_delay := u64 (responseLatency (nx_x s) * nx_period s) in
        let* '(p, s) := calcPacketTiming s p xbar_delay in
        let '(edge, s) := xb_clockEdge s 1 in
        let packetFinishTime := u64 (edge + payloadDelay p) in
        Ok (Calls (RespFrame i master_port_id packetFinishTime p), s)
  end.

(** [recvTimingResp] once [sendTimingResp] has returned; [request] is the key of
    the entry found before. *)
Definition respReturned (s : NxSt) (i : nat) (packetFinishTime : Z) (success : bool) (request : Z) : result NxSt :=
  let* _ := assert_ success in
  let s := with_x s (with_routeTo (nx_x s) (delete request (routeTo (nx_x s)))) in
  let* l := layer_of s RespDir i in
  let* l := succeededTiming l packetFinishTime in
  Ok (put_layer s RespDir i l).

(** A layer that may have told a port to retry. *)
Definition retry_call (s : NxSt) (d : Dir) (i : nat) (o : option Z) (l : LySt Q) : Call * NxSt :=
  (match o with Some p => Calls (RetryFrame d i p) | None => Returns end, put_layer s d i l).

(** [recvReqRetry(master_port_id)]. *)
Definition recvReqRetry (s : NxSt) (master_port_id : Z) : result (Call * NxSt) :=
  let* m := port_index master_port_id in
  let* l := layer_of s ReqDir m in
  let* '(o, l) := recvRetry l in
  Ok (retry_call s ReqDir m o l).

(** The release event of a layer. *)
Definition release (s : NxSt) (d : Dir) (i : nat) : result (Call * NxSt) :=
  let* l := layer_of s d i in
  let* '(o, l) := releaseLayer l in
  Ok (retry_call s d i o l).

Definition retry_returned (s : NxSt) (d : Dir) (i : nat) : result NxSt :=
  let* l := layer_of s d i in
  let* l := retryReturned l in
  Ok (put_layer s d i l).

(** [drain(dm)]: the layers that are not drained yet are counted. *)
Definition drain_layers (s : NxSt) (ls : list Layer) : Z * list Layer :=
  let r := map (fun l => let '(n, l') := layer_drain (mkLySt (nx_q s) (nx_clock s) (nx_period s) l) in (n, ls_l l')) ls in
  (fold_left (fun n x => u32 (n + x.1)) r 0, map snd r).

Definition xb_drain (s : NxSt) : Z * NxSt :=
  let '(n, reqs) := drain_layers s (reqLayers (nx_x s)) in
  let '(k, resps) := drain_layers s (respLayers (nx_x s)) in
  let x := nx_x s in
  (u32 (n + k), with_x s (mkNcXbar (nx_route x) (frontendLatency x) (forwardLatency x) (responseLatency x) (width x)
     (nx_us x) (routeTo x) reqs resps)).
End NxOps.
Arguments NxSt : clear implicits.
Arguments mkNxSt {Q}.

(** [recvAtomic(pkt, slave_port_id)] and [recvFunctional(pkt, slave_port_id)];
    [M] is the state of the slaves. *)
Section Atomic.
Context {M : Type} (sendAtomic : M -> nat -> Packet -> result (Z * M * Packet)).
Context (sendFunctional : M -> nat -> Packet -> result (M * Packet)).

Definition stat_size (p : Packet) : result Z := if hasData (cmd p) then getSize p else Ok 0.

Definition xb_recvAtomic (x : NcXbar) (m : M) (p : TimedPacket) : result (Z * NcXbar * M * TimedPacket) :=
  let* _ := stat_size (tp_pkt p) in
  let* a := getAddr (tp_pkt p) in
  let* '(master_port_id, r) := findPort (nx_route x) a in
  let* i := port_index master_port_id in
  let* _ := deref (reqLayers x !! i) in
  let* '(response_latency, m, pkt) := sendAtomic m i (tp_pkt p) in
  let* _ := if isResponse (cmd pkt) then stat_size pkt else Ok 0 in
  Ok (response_latency, with_route x r, m, mkTimed pkt (tp_req p) (headerDelay p) (u32 response_latency)).

Definition xb_recvFunctional (x : NcXbar) (m : M) (p : TimedPacket) : result (NcXbar * M * TimedPacket) :=
  let* a := getAddr (tp_pkt p) in
  let* '(dest_id, r) := findPort (nx_route x) a in
  let* i := port_index dest_id in
  let* _ := deref (reqLayers x !! i) in
  let* '(m, pkt) := sendFunctional m i (tp_pkt p) in
  Ok (with_route x r, m, mkTimed pkt (tp_req p) (headerDelay p) (payloadDelay p)).
End Atomic.

(** ** Runs of the crossbar

    An action is a call of a neighbour, the return from a call to one, the
    release event of a layer, or anything else that moves the event queue. *)
Inductive Action {Q : Type} :=
  | RecvTimingReq (slave_port_id : Z) (p : TimedPacket)
  | ReqReturns (success : bool) (p : TimedPacket)
  | RecvTimingResp (master_port_id : Z) (p : TimedPacket)
  | RespReturns (success : bool)
  | RecvReqRetry (master_port_id : Z)
  | RetryReturns
  | Release (d : Dir) (i : nat)
  | Passes (q : Q).
Arguments Action : clear implicits.

(** What can be seen of a run: requests that are taken and will be answered,
    their answers, ports that are refused, and told to retry. *)
Inductive Obs :=
  | Taken (slave_port_id request : Z)
  | Answered (slave_port_id request : Z)
  | Refused (d : Dir) (i : nat) (port : Z)
  | Retried (d : Dir) (i : nat) (port : Z).

Section Runs.
Context {Q : Type} `{EventSched Q}.

Record Config := mkConfig { cf_s : NxSt Q; cf_stack : list Frame }.

Definition enter (st : list Frame) (r : Call * NxSt Q) : Config * list Obs :=
  match r with
  | (Queued d i p, s) => (mkConfig s st, [Refused d i p])
  | (Returns, s) => (mkConfig s st, [])
  | (Calls f, s) => (mkConfig s (f :: st), match f with RetryFrame d i p => [Retried d i p] | _ => [] end)
  end.

Definition perform (c : Config) (a : Action Q) : result (Config * list Obs) :=
  let s := cf_s c in
  let st := cf_stack c in
  match a, st with
  | RecvTimingReq id p, _ => let* r := recvTimingReq s p id in Ok (enter st r)
  | RecvTimingResp id p, _ => let* r := recvTimingResp s p id in Ok (enter st r)
  | RecvReqRetry id, _ => let* r := recvReqRetry s id in Ok (enter st r)
  | ReqReturns success p, ReqFrame m id old finish expect _ :: st =>
      let* '(b, p, s) := reqReturned s m id old finish expect success p in
      Ok (mkConfig s st, if b then if expect then [Taken id (tp_req p)] else [] else [Refused ReqDir m id])
  | RespReturns success, RespFrame i _ finish p :: st =>
      let* s := respReturned s i finish success (tp_req p) in
      Ok (mkConfig s st, [Answered (Z.of_nat i) (tp_req p)])
  | RetryReturns, RetryFrame d i _ :: st => let* s := retry_returned s d i in Ok (mkConfig s st, [])
  | Release d i, _ =>
      let* '(_, q) := q_pop (nx_q s) in
      let* r := release (mkNxSt q (nx_clock s) (nx_period s) (nx_x s)) d i in
      Ok (enter st r)
  | Passes q, _ => Ok (mkConfig (mkNxSt q (nx_clock s) (nx_period s) (nx_x s)) st, [])
  | _, _ => Err Bad_pointer
  end.
End Runs.
Arguments Config : clear implicits.
Arguments mkConfig {Q}.

(** ** What the neighbours keep to *)

(** The sources of the packets a layer is handing over. *)
Definition frame_src (d : Dir) (i : nat) (f : Frame) : option Z :=
  match f with
  | ReqFrame m id _ _ _ _ => if decide (d = ReqDir /\ m = i) then Some id else None
  | RespFrame k id _ _ => if decide (d = RespDir /\ k = i) then Some id else None
  | RetryFrame _ _ _ => None
  end.
Definition srcs (st : list Frame) (d : Dir) (i : nat) : list Z := omap (frame_src d i) st.

Definition frame_retries (d : Dir) (i : nat) (f : Frame) : bool :=
  match f with RetryFrame d' i' _ => bool_decide (d' = d /\ i' = i) | _ => false end.
Definition retries (st : list Frame) (d : Dir) (i : nat) : bool := existsb (frame_retries d i) st.

(** The requests being forwarded that will be answered, and being answered. *)
Definition asking (st : list Frame) : list Z :=
  omap (fun f => match f with ReqFrame _ _ _ _ true p => Some (tp_req p) | _ => None end) st.
Definition answering (st : list Frame) : list Z :=
  omap (fun f => match f with RespFrame _ _ _ p => Some (tp_req p) | _ => None end) st.

(** The ports a layer has to do with: waiting for it, waiting for its
    destination, being served. *)
Definition occupants (st : list Frame) (d : Dir) (i : nat) (l : Layer) : list Z :=
  waitingForLayer l ++ option_list (waitingForPeer l) ++ srcs st d i.

Definition expects (p : Packet) : bool := needsResponse (cmd p) && negb (memInhibitAsserted p).

Section Protocol.
Context {Q : Type} `{EventSchedLaws Q} (ann : announced).

(** A packet whose header delay stays within the bound of the crossbar. *)
Record timed_ok (s : NxSt Q) (p : TimedPacket) (delay : Z) : Prop := {
  to_size : flag_isSet (flags (tp_pkt p)) VALID_SIZE = true;
  to_header : 0 <= headerDelay p;
  to_payload : 0 <= payloadDelay p < 2 ^ 32;
  to_bound : headerDelay p + nx_period s + delay <= nx_us (nx_x s);
}.

Definition req_delay (s : NxSt Q) : Z := (frontendLatency (nx_x s) + forwardLatency (nx_x s)) * nx_period s.
Definition resp_delay (s : NxSt Q) : Z := responseLatency (nx_x s) * nx_period s.

(** A request a neighbour may send: it goes to a port, its sender does not wait
    for that port already, and it is not on its way already. *)
Record may_ask (c : Config Q) (id : Z) (p : TimedPacket) : Prop := {
  ma_src : 0 <= id < Z.of_nat (length (respLayers (nx_x (cf_s c))));
  ma_plain : isExpressSnoop (tp_pkt p) = false;
  ma_addr : flag_isSet (flags (tp_pkt p)) VALID_ADDR = true /\ is_u64 (addr (tp_pkt p));
  ma_timing : timed_ok (cf_s c) p (req_delay (cf_s c));
  ma_dest : exists m, goes_to (nx_route (nx_x (cf_s c))) ann (addr (tp_pkt p)) (Z.of_nat m) /\
    forall l, reqLayers (nx_x (cf_s c)) !! m = Some l -> id ∉ occupants (cf_stack c) ReqDir m l;
  ma_fresh : expects (tp_pkt p) = true ->
    routeTo (nx_x (cf_s c)) !! tp_req p = None /\ tp_req p ∉ asking (cf_stack c);
}.

(** A response a neighbour may send: to a request it has received. *)
Record may_answer (c : Config Q) (id : Z) (p : TimedPacket) : Prop := {
  mw_src : 0 <= id < Z.of_nat (length (reqLayers (nx_x (cf_s c))));
  mw_timing : timed_ok (cf_s c) p (resp_delay (cf_s c));
  mw_dest : exists k, routeTo (nx_x (cf_s c)) !! tp_req p = Some k /\
    forall l, respLayers (nx_x (cf_s c)) !! Z.to_nat k = Some l -> id ∉ occupants (cf_stack c) RespDir (Z.to_nat k) l;
  mw_once : tp_req p ∉ answering (cf_stack c);
}.

(** Anything else that happens leaves the release events alone; time stands
    still during a call. *)
Record passes (c : Config Q) (q : Q) : Prop := {
  ps_inv : q_inv q;
  ps_now : q_now (nx_q (cf_s c)) <= q_now q;
  ps_still : cf_stack c <> [] -> q_now q = q_now (nx_q (cf_s c));
  ps_bound : q_now q + nx_period (cf_s c) < 2 ^ 62;
  ps_events d i l : layers (nx_x (cf_s c)) d !! i = Some l ->
    q_own q (ly_releaseEvent l) /\
    q_scheduled q (ly_releaseEvent l) = q_scheduled (nx_q (cf_s c)) (ly_releaseEvent l) /\
    q_when q (ly_releaseEvent l) = q_when (nx_q (cf_s c)) (ly_releaseEvent l);
}.

(** What may happen next.  A response is never refused, and an inhibited request
    neither. *)
Definition allowed (c : Config Q) (a : Action Q) : Prop :=
  let s := cf_s c in
  match a with
  | RecvTimingReq id p => may_ask c id p
  | RecvTimingResp id p => may_answer c id p
  | RecvReqRetry id => exists l, 0 <= id /\ reqLayers (nx_x s) !! Z.to_nat id = Some l /\ waitingForPeer l <> None
  | ReqReturns success p =>
      exists m id old finish expect p0 st, cf_stack c = ReqFrame m id old finish expect p0 :: st /\
        tp_req p = tp_req p0 /\ (success = false -> memInhibitAsserted (tp_pkt p) = false)
  | RespReturns success => success = true /\ exists i id finish p st, cf_stack c = RespFrame i id finish p :: st
  | RetryReturns => exists d i p st, cf_stack c = RetryFrame d i p :: st
  | Release d i => cf_stack c = [] /\ exists l q, layers (nx_x s) d !! i = Some l /\
      q_scheduled (nx_q s) (ly_releaseEvent l) = true /\
      q_pop (nx_q s) = Ok (ly_releaseEvent l, q) /\ q_now q + nx_period s < 2 ^ 62
  | Passes q => passes c q
  end.

(** Runs with what is seen of them. *)
Inductive run : Config Q -> list Obs -> Config Q -> Prop :=
  | run_nil c : run c [] c
  | run_step c tr c1 a obs c2 :
      run c tr c1 -> allowed c1 a -> perform c1 a = Ok (c2, obs) -> run c (tr ++ obs) c2.
End Protocol.
