(* ===== verification/XbarCorrect.v ===== *)
(** * Correctness of the non-coherent crossbar

    The invariant of the crossbar with the calls in progress: every layer is at
    rest, handing over one packet, or telling a port to retry, as the frames say;
    and what a run shows of refusals, retries, requests and answers. *)
From stdpp Require Import gmap.
From S2P Require Import Prelude Flags IntMath AddrRange EventQueue EventSched Clock Packet AddrMap XbarRoute XbarLayer NoncoherentXbar.

(** ** Definitions *)

#[export] Instance Obs_eq_dec : EqDecision Obs.
Proof. solve_decision. Defined.

(** The ports waiting at a layer. *)
Definition queue (l : Layer) : list Z := waitingForLayer l ++ option_list (waitingForPeer l).

Definition count (o : Obs) (tr : list Obs) : nat := count_occ Obs_eq_dec tr o.

(** The routing table as the requests and answers seen so far make it. *)
Definition route_obs (m : gmap Z Z) (o : Obs) : gmap Z Z :=
  match o with Taken k r => <[r := k]> m | Answered _ r => delete r m | _ => m end.

Lemma count_none o tr : o ∉ tr -> count o tr = 0%nat.
Proof. intros Hn. apply count_occ_not_In. by rewrite <- list_elem_of_In. Qed.

Lemma count_cons o o' tr : count o (o' :: tr) = ((if decide (o' = o) then 1 else 0) + count o tr)%nat.
Proof. unfold count. cbn [count_occ]. destruct (Obs_eq_dec o' o); [by rewrite decide_True|by rewrite decide_False]. Qed.

Lemma occ_cons p q l : count_occ Z.eq_dec (q :: l) p = ((if decide (q = p) then 1 else 0) + count_occ Z.eq_dec l p)%nat.
Proof. cbn [count_occ]. destruct (Z.eq_dec q p); [by rewrite decide_True|by rewrite decide_False]. Qed.

Lemma nodup_occ (l : list Z) : NoDup l <-> forall p, (count_occ Z.eq_dec l p <= 1)%nat.
Proof. rewrite NoDup_ListNoDup. apply NoDup_count_occ. Qed.

(** Compares the occurrences of a port in the queues and in what is seen. *)
Ltac occurrences :=
  unfold queue; cbn [waitingForLayer waitingForPeer set_waiting set_state set_peer app];
  repeat match goal with |- context [option_list (Some ?x)] => change (option_list (Some x)) with [x] end;
  try change (option_list None) with (@nil Z);
  rewrite ?app_nil_r, ?occ_cons, ?count_occ_app, ?occ_cons, ?count_cons;
  change (count_occ Z.eq_dec [] _) with 0%nat; repeat case_decide; simplify_eq; unfold count; cbn [count_occ]; lia.

Section Correct.
Context {Q : Type} `{EventSchedLaws Q} (ann : announced).
Implicit Types (s : NxSt Q) (st : list Frame) (l : Layer) (d : Dir) (i : nat).

Definition ly s l : LySt Q := mkLySt (nx_q s) (nx_clock s) (nx_period s) l.

(** The part that does not depend on the calls in progress. *)
Record core s : Prop := {
  cr_inv : q_inv (nx_q s);
  cr_clock : clk_ok (q_now (nx_q s)) (nx_period s) (nx_clock s);
  cr_route : route_ok (nx_route (nx_x s)) ann /\ gotAllAddrRanges (nx_route (nx_x s)) = true;
  cr_ports a id : goes_to (nx_route (nx_x s)) ann a id -> 0 <= id < Z.of_nat (length (reqLayers (nx_x s)));
  cr_const : 0 <= frontendLatency (nx_x s) /\ 0 <= forwardLatency (nx_x s) /\ 0 <= responseLatency (nx_x s) /\
    0 < width (nx_x s) /\ nx_us (nx_x s) < 2 ^ 32;
  cr_events d i l d' i' l' : layers (nx_x s) d !! i = Some l -> layers (nx_x s) d' !! i' = Some l' ->
    ly_releaseEvent l = ly_releaseEvent l' -> d = d' /\ i = i';
  cr_own d i l : layers (nx_x s) d !! i = Some l -> q_own (nx_q s) (ly_releaseEvent l);
  cr_dest r k : routeTo (nx_x s) !! r = Some k -> 0 <= k < Z.of_nat (length (respLayers (nx_x s)));
  cr_size : Z.of_nat (length (respLayers (nx_x s))) < 2 ^ 64;
}.

(** The state of a layer, by the calls in progress. *)
Definition status s st d i l : Prop :=
  match srcs st d i with
  | [] => if retries st d i then retrying (ly s l) \/ (rests (ly s l) /\ ly_state l = BUSY) else rests (ly s l)
  | [_] => held (ly s l)
  | _ => False
  end.

Definition frame_ok s (f : Frame) : Prop :=
  match f with
  | ReqFrame m id _ finish _ _ =>
      (m < length (reqLayers (nx_x s)))%nat /\ 0 <= id < Z.of_nat (length (respLayers (nx_x s))) /\
      q_now (nx_q s) <= finish /\ 0 < finish
  | RespFrame i _ finish p =>
      (i < length (respLayers (nx_x s)))%nat /\ q_now (nx_q s) <= finish /\ 0 < finish /\
      routeTo (nx_x s) !! tp_req p = Some (Z.of_nat i)
  | RetryFrame d i _ => (i < length (layers (nx_x s) d))%nat
  end.

Record calls_ok s st : Prop := {
  ck_frames : Forall (frame_ok s) st;
  ck_asking : NoDup (asking st);
  ck_fresh r : r ∈ asking st -> routeTo (nx_x s) !! r = None;
  ck_answering : NoDup (answering st);
}.

Record inv (c : Config Q) : Prop := {
  iv_core : core (cf_s c);
  iv_layers d i l : layers (nx_x (cf_s c)) d !! i = Some l ->
    status (cf_s c) (cf_stack c) d i l /\ NoDup (occupants (cf_stack c) d i l);
  iv_calls : calls_ok (cf_s c) (cf_stack c);
}.

(** What an action does to the queues and the routing table, against what is
    seen of it. *)
Record effect (x x' : NcXbar) (obs : list Obs) : Prop := {
  ef_route : routeTo x' = fold_left route_obs obs (routeTo x);
  ef_queue d i l' : layers x' d !! i = Some l' -> exists l, layers x d !! i = Some l /\ forall p,
    (count_occ Z.eq_dec (queue l') p + count (Retried d i p) obs =
     count_occ Z.eq_dec (queue l) p + count (Refused d i p) obs)%nat;
}.

(** ** One layer changes *)

Lemma layers_with x d i l d' j :
  layers (with_layer x d i l) d' !! j = if decide (d' = d) then <[i := l]> (layers x d') !! j else layers x d' !! j.
Proof. unfold layers, with_layer. cbn. by destruct d, d'. Qed.

Lemma layers_with_inv x d i l0 l d' j l' :
  layers x d !! i = Some l0 -> layers (with_layer x d i l) d' !! j = Some l' ->
  (d' = d /\ j = i /\ l' = l) \/ ((d', j) <> (d, i) /\ layers x d' !! j = Some l').
Proof.
  intros Hl. rewrite layers_with. destruct (decide (d' = d)) as [->|Hne].
  - destruct (decide (j = i)) as [->|Hne].
    + rewrite list_lookup_insert_eq by (by apply lookup_lt_Some in Hl). intros [= <-]. by left.
    + rewrite list_lookup_insert_ne by done. right. split; congruence.
  - right. split; congruence.
Qed.

Lemma layers_with_length x d i l d' : length (layers (with_layer x d i l) d') = length (layers x d').
Proof. unfold layers, with_layer. destruct d, d'; solve [reflexivity|apply length_insert]. Qed.

Lemma layer_of_ok s d i l : layers (nx_x s) d !! i = Some l -> layer_of s d i = Ok (ly s l).
Proof. intros Hl. unfold layer_of. by rewrite Hl. Qed.

Lemma base_of s d i l : core s -> layers (nx_x s) d !! i = Some l -> ly_base (ly s l).
Proof. intros Hc Hl. split; cbn; [apply Hc|by eapply cr_own|apply Hc]. Qed.

Section Put.
Context (s : NxSt Q) (Hc : core s) (d : Dir) (i : nat) (l0 : Layer) (Hl : layers (nx_x s) d !! i = Some l0).
Context (l1 : LySt Q) (Hf : ly_frame (ly s l0) l1).

Lemma put_core : core (put_layer s d i l1).
Proof.
  destruct Hc as [C1 C2 C3 C4 C5 C6 C7 C8 C9], Hf as [[F1 F2 F3] F4 F5 F6 F7 F8]. cbn in *.
  pose proof (layers_with_length (nx_x s) d i (ls_l l1) ReqDir) as L1. pose proof (layers_with_length (nx_x s) d i (ls_l l1) RespDir) as L2.
  cbn [layers] in L1, L2.
  split; cbn [put_layer nx_q nx_clock nx_period nx_x]; rewrite ?L1, ?L2; try done.
  - by rewrite <- F7.
  - intros d1 i1 m1 d2 i2 m2 H1 H2.
    apply (layers_with_inv _ _ _ _ _ _ _ _ Hl) in H1 as [(-> & -> & ->)|[N1 H1]], H2 as [(-> & -> & ->)|[N2 H2]]; [done|..].
    + rewrite F8. intros E. destruct (C6 _ _ _ _ _ _ Hl H2 E); congruence.
    + rewrite F8. intros E. destruct (C6 _ _ _ _ _ _ H1 Hl E); congruence.
    + by eapply C6.
  - intros d1 i1 m1 H1. apply (layers_with_inv _ _ _ _ _ _ _ _ Hl) in H1 as [(-> & -> & ->)|[N1 H1]]; [done|]. apply F5. by eapply C7.
Qed.

(** The other layers do not notice. *)
Lemma put_other d' i' l :
  (d', i') <> (d, i) -> layers (nx_x s) d' !! i' = Some l ->
  (rests (ly s l) -> rests (ly (put_layer s d i l1) l)) /\ (held (ly s l) -> held (ly (put_layer s d i l1) l)) /\
  (retrying (ly s l) -> retrying (ly (put_layer s d i l1) l)).
Proof.
  intros Hne Hl'. destruct (lf_other _ _ Hf (ly_releaseEvent l)) as [E1 E2].
  { cbn. intros E. destruct (cr_events _ Hc _ _ _ _ _ _ Hl' Hl E); congruence. }
  pose proof (lf_now _ _ Hf) as E3. unfold rests, held, retrying, pending. cbn in *. by rewrite E1, E2, E3.
Qed.

Lemma put_frame f : frame_ok s f -> frame_ok (put_layer s d i l1) f.
Proof.
  pose proof (lf_now _ _ Hf) as E3. cbn in E3.
  pose proof (layers_with_length (nx_x s) d i (ls_l l1) ReqDir) as L1. pose proof (layers_with_length (nx_x s) d i (ls_l l1) RespDir) as L2.
  cbn [layers] in L1, L2.
  destruct f; cbn [frame_ok put_layer nx_q nx_x]; rewrite ?E3, ?L1, ?L2, ?layers_with_length; done.
Qed.

(** The invariant after the layer's part and the calls in progress have changed
    together. *)
Lemma inv_put_others st st' :
  (forall d' i' l, (d', i') <> (d, i) -> layers (nx_x s) d' !! i' = Some l ->
     status s st d' i' l /\ NoDup (occupants st d' i' l)) ->
  (forall d' i', (d', i') <> (d, i) -> srcs st' d' i' = srcs st d' i' /\ retries st' d' i' = retries st d' i') ->
  status (put_layer s d i l1) st' d i (ls_l l1) -> NoDup (occupants st' d i (ls_l l1)) ->
  calls_ok s st' -> inv (mkConfig (put_layer s d i l1) st').
Proof.
  intros Hls Hsr Hst Hnd [Hfr Ha Hfa Hn]. split; [apply put_core| |]; cbn [cf_s cf_stack].
  - intros d' i' l Hl'. apply (layers_with_inv _ _ _ _ _ _ _ _ Hl) in Hl' as [(-> & -> & ->)|[Hne Hl']]; [done|].
    destruct (Hls _ _ _ Hne Hl') as [Hs Ho]. destruct (Hsr _ _ Hne) as [Es Er]. unfold status, occupants in *. rewrite Es, Er.
    split; [|done]. destruct (put_other d' i' l Hne Hl') as (P1 & P2 & P3).
    destruct (srcs st d' i') as [|x [|]]; [|auto|done]. destruct (retries st d' i'); [|auto]. destruct Hs as [Hs|[Hs ?]]; auto.
  - split; try done. eapply Forall_impl; [exact Hfr|]. apply put_frame.
Qed.

Lemma inv_put st st' :
  (forall d' i' l, layers (nx_x s) d' !! i' = Some l -> status s st d' i' l /\ NoDup (occupants st d' i' l)) ->
  (forall d' i', (d', i') <> (d, i) -> srcs st' d' i' = srcs st d' i' /\ retries st' d' i' = retries st d' i') ->
  status (put_layer s d i l1) st' d i (ls_l l1) -> NoDup (occupants st' d i (ls_l l1)) ->
  calls_ok s st' -> inv (mkConfig (put_layer s d i l1) st').
Proof. intros Hls. apply inv_put_others. auto. Qed.

Lemma effect_put obs :
  Forall (fun o => match o with Refused d' i' _ | Retried d' i' _ => d' = d /\ i' = i | _ => False end) obs ->
  (forall p, (count_occ Z.eq_dec (queue (ls_l l1)) p + count (Retried d i p) obs =
              count_occ Z.eq_dec (queue l0) p + count (Refused d i p) obs)%nat) ->
  effect (nx_x s) (nx_x (put_layer s d i l1)) obs.
Proof.
  intros Ho Hq. split.
  - cbn. clear Hq. induction Ho as [|o obs Ho _ IH]; [done|]. cbn. by destruct o.
  - intros d' i' l' Hl'. apply (layers_with_inv _ _ _ _ _ _ _ _ Hl) in Hl' as [(-> & -> & ->)|[Hne Hl']].
    + by exists l0.
    + exists l'. split; [done|]. intros p. rewrite Forall_forall in Ho.
      rewrite !count_none; [done|..]; intros Hin; apply Ho in Hin as [-> ->]; congruence.
Qed.
End Put.

(** ** Timing *)

Definition with_clock s (c : Clocked) : NxSt Q := mkNxSt (nx_q s) c (nx_period s) (nx_x s).

Lemma core_clock s c : core s -> clk_ok (q_now (nx_q s)) (nx_period s) c -> core (with_clock s c).
Proof. intros [] Hk. by split. Qed.

Lemma edge_ok s n :
  core s -> 0 <= n <= 1 ->
  exists t c, xb_clockEdge s n = (t, with_clock s c) /\ core (with_clock s c) /\
    q_now (nx_q s) + n * nx_period s <= t < q_now (nx_q s) + (n + 1) * nx_period s.
Proof.
  intros Hc Hn. destruct (clk_edge _ _ _ n (cr_clock _ Hc) Hn) as (t & E & Ht). unfold xb_clockEdge. rewrite E.
  eexists t, _. split; [done|]. split; [|done]. apply core_clock; [done|]. apply clk_ok_update, Hc.
Qed.

(** The delays of a packet and the time its layer is busy. *)
Lemma timing_ok s p delay :
  core s -> timed_ok s p delay -> 0 <= delay ->
  exists p' c1 edge c2, calcPacketTiming s p delay = Ok (p', with_clock s c1) /\
    xb_clockEdge (with_clock s c1) 1 = (edge, with_clock s c2) /\ core (with_clock s c2) /\
    tp_pkt p' = tp_pkt p /\ tp_req p' = tp_req p /\
    q_now (nx_q s) <= u64 (edge + payloadDelay p') /\ 0 < u64 (edge + payloadDelay p').
Proof.
  intros Hc [Ts Th Tp Tb] Hd. destruct (edge_ok s 0 Hc) as (t & c1 & E1 & Hc1 & Ht); [lia|].
  destruct (edge_ok (with_clock s c1) 1 Hc1) as (edge & c2 & E2 & Hc2 & He); [lia|]. cbn [nx_q nx_period with_clock] in He.
  destruct (cr_const _ Hc) as (_ & _ & _ & Hw & Hus). destruct (cr_clock _ Hc) as [K1 K2 K3 _ _].
  assert (forall p', 0 <= payloadDelay p' < 2 ^ 32 ->
    q_now (nx_q s) <= u64 (edge + payloadDelay p') /\ 0 < u64 (edge + payloadDelay p')) as Hfin.
  { intros p' Hp'. rewrite u64_small by (unfold in_range; lia). lia. }
  unfold calcPacketTiming. rewrite E1. cbn [nx_q nx_x with_clock].
  rewrite (u64_small (t - _)) by (unfold in_range; lia).
  rewrite (u64_small (t - _ + delay)) by (unfold in_range; lia).
  unfold u32 at 1. rewrite (wrap_small 32 (headerDelay p + _)) by (unfold in_range; lia).
  rewrite (proj2 (Z.ltb_ge _ _)) by lia. destruct (hasData (cmd (tp_pkt p))).
  - unfold getSize. rewrite Ts. cbn [assert_ rbind]. rewrite (proj2 (Z.eqb_neq _ _)) by lia.
    eexists _, c1, edge, c2. split; [reflexivity|]. split; [exact E2|]. split_and!; try done; apply Hfin; cbn;
      pose proof (wrap_range 32 (Z.max (payloadDelay p) (u64 (divCeil32 (pk_size (tp_pkt p)) (width (nx_x s)) * nx_period s))) ltac:(lia)) as Hr;
      unfold in_range in Hr; unfold u32; lia.
  - eexists _, c1, edge, c2. split; [reflexivity|]. split; [exact E2|]. split_and!; try done; by apply Hfin.
Qed.

(** ** Frames come and go *)

Lemma srcs_cons f st d i :
  srcs (f :: st) d i = match frame_src d i f with Some x => x :: srcs st d i | None => srcs st d i end.
Proof. done. Qed.

Lemma frame_src_here d i d' i' m id old fin ex p :
  d = ReqDir -> m = i -> (d', i') <> (d, i) -> frame_src d' i' (ReqFrame m id old fin ex p) = None.
Proof. intros -> -> Hne. cbn. rewrite decide_False; [done|]. intros [-> ->]. congruence. Qed.

Lemma frame_src_resp d i d' i' m id fin p :
  d = RespDir -> m = i -> (d', i') <> (d, i) -> frame_src d' i' (RespFrame m id fin p) = None.
Proof. intros -> -> Hne. cbn. rewrite decide_False; [done|]. intros [-> ->]. congruence. Qed.

Lemma held_busy s st d i l : status s st d i l -> ly_state l <> BUSY -> srcs st d i = [].
Proof. unfold status. destruct (srcs st d i) as [|x [|]]; [done| |done]. by intros (? & _). Qed.

Lemma free_status s st d i l :
  status s st d i l -> srcs st d i = [] -> rests (ly s l) \/ retrying (ly s l).
Proof. unfold status. intros Hs E. rewrite E in Hs. destruct (retries st d i); [|by left]. destruct Hs as [?|[? _]]; auto. Qed.

(** A port tries to send: the layer is its own, or it waits at the end of the
    queue. *)
Lemma try_ok c d i l port :
  inv c -> layers (nx_x (cf_s c)) d !! i = Some l -> port ∉ occupants (cf_stack c) d i l ->
  exists b (l1 : LySt Q), tryTiming (ly (cf_s c) l) port = Ok (b, l1) /\ ly_frame (ly (cf_s c) l) l1 /\
    if b then srcs (cf_stack c) d i = [] /\ held l1 /\ ls_l l1 = set_state l BUSY
    else inv (mkConfig (put_layer (cf_s c) d i l1) (cf_stack c)) /\
         effect (nx_x (cf_s c)) (nx_x (put_layer (cf_s c) d i l1)) [Refused d i port].
Proof.
  intros [Hc Hls Hk] Hl Hp. destruct (Hls _ _ _ Hl) as [Hs Ho].
  destruct (tryTiming_ok (ly (cf_s c) l) port) as (b & l1 & E & Hf & Hq & Hb); [by eapply base_of| |].
  { intros Hin. apply Hp, elem_of_app. by left. }
  exists b, l1. split; [done|]. split; [done|]. cbn [ls_l ly] in Hb. destruct b.
  { destruct Hb as (El & Hnb & Hh). pose proof (held_busy _ _ _ _ _ Hs Hnb) as Hsr. split; [done|]. split; [|done].
    apply Hh. by eapply free_status. }
  destruct Hb as (El & Hr & Hh & Hnr). split.
  - eapply inv_put; try done.
    + unfold status in *. destruct (srcs (cf_stack c) d i) as [|x [|]]; [|by apply Hh|done].
      destruct (retries (cf_stack c) d i); [|by apply Hr]. destruct Hs as [Hs|[Hs Hb]]; [by destruct Hnr|].
      right. split; [by apply Hr|]. by rewrite El.
    + unfold occupants in *. rewrite El. cbn. rewrite <- app_assoc. cbn [app].
      apply NoDup_app in Ho as (N1 & N2 & N3). apply NoDup_app. split; [done|]. split; [|constructor; [|done]].
      * intros y Hy [->|Hy']%elem_of_cons; [|by eapply N2]. apply Hp, elem_of_app. by left.
      * intros Hy. apply Hp, elem_of_app. by right.
  - eapply effect_put; [done|by repeat constructor|]. intros q. rewrite El. occurrences.
Qed.

Lemma inv_clock s st c : inv (mkConfig s st) -> core (with_clock s c) -> inv (mkConfig (with_clock s c) st).
Proof. intros [Hc Hl [K1 K2 K3 K4]] Hc'. split; [done|exact Hl|]. by split. Qed.

(** The packet of a port that was let through is on its way. *)
Lemma push_ok c d i l port (l1 : LySt Q) f :
  inv c -> layers (nx_x (cf_s c)) d !! i = Some l -> port ∉ occupants (cf_stack c) d i l ->
  ly_frame (ly (cf_s c) l) l1 -> srcs (cf_stack c) d i = [] -> held l1 -> ls_l l1 = set_state l BUSY ->
  (forall d' i', frame_src d' i' f = if decide ((d', i') = (d, i)) then Some port else None) ->
  (forall d' i', frame_retries d' i' f = false) -> calls_ok (cf_s c) (f :: cf_stack c) ->
  inv (mkConfig (put_layer (cf_s c) d i l1) (f :: cf_stack c)) /\
  effect (nx_x (cf_s c)) (nx_x (put_layer (cf_s c) d i l1)) [].
Proof.
  intros [Hc Hls Hk] Hl Hp Hf Hsr Hh El Fs Fr Hk'. destruct (Hls _ _ _ Hl) as [Hs Ho].
  assert (srcs (f :: cf_stack c) d i = [port]) as Esr by (rewrite srcs_cons, Fs, decide_True, Hsr; done). split.
  - eapply inv_put; try done.
    + intros d' i' Hne. rewrite srcs_cons, Fs, decide_False by done. split; [done|]. unfold retries. cbn [existsb]. by rewrite Fr.
    + unfold status. by rewrite Esr.
    + unfold occupants in *. rewrite Esr, El. rewrite Hsr, app_nil_r in *. rewrite app_assoc. apply NoDup_app.
      split; [done|]. split; [|apply NoDup_singleton]. intros y Hy ->%list_elem_of_singleton. by apply Hp.
  - eapply effect_put; [done|by repeat constructor|]. intros q. rewrite El. occurrences.
Qed.

Lemma inv_route s st r :
  inv (mkConfig s st) -> route_ok r ann -> gotAllAddrRanges r = true ->
  (forall a id, goes_to r ann a id <-> goes_to (nx_route (nx_x s)) ann a id) ->
  inv (mkConfig (with_x s (with_route (nx_x s) r)) st).
Proof.
  intros [[] Hl []] Hr Hg Hgo. split; [|exact Hl|by split]. split; try done. cbn. intros a id Hx. apply (cr_ports0 a). by apply Hgo.
Qed.

Lemma effect_route x r x' obs : effect (with_route x r) x' obs -> effect x x' obs.
Proof. intros []. by split. Qed.

(** ** The handlers *)

(** The common part of the two handlers of packets: [mk] makes the frame, [delay]
    the header delay. *)
Lemma send_ok c d i l port p (delay : NxSt Q -> Z) (mk : Z -> TimedPacket -> Frame) :
  inv c -> layers (nx_x (cf_s c)) d !! i = Some l -> port ∉ occupants (cf_stack c) d i l ->
  timed_ok (cf_s c) p (delay (cf_s c)) -> 0 <= delay (cf_s c) ->
  (forall l1 : LySt Q, delay (put_layer (cf_s c) d i l1) = delay (cf_s c)) ->
  (forall fin p' d' i', frame_src d' i' (mk fin p') = (if decide ((d', i') = (d, i)) then Some port else None) /\
     frame_retries d' i' (mk fin p') = false) ->
  (forall fin p', q_now (nx_q (cf_s c)) <= fin -> 0 < fin -> tp_pkt p' = tp_pkt p -> tp_req p' = tp_req p ->
     calls_ok (cf_s c) (mk fin p' :: cf_stack c)) ->
  exists r c' obs,
    (let* '(ok, l) := tryTiming (ly (cf_s c) l) port in
     let s := put_layer (cf_s c) d i l in
     if negb ok then Ok (Queued d i port, s)
     else
       let* '(p, s) := calcPacketTiming s p (delay s) in
       let '(edge, s) := xb_clockEdge s 1 in
       Ok (Calls (mk (u64 (edge + payloadDelay p)) p), s)) = Ok r /\
    enter (cf_stack c) r = (c', obs) /\ inv c' /\ effect (nx_x (cf_s c)) (nx_x (cf_s c')) obs.
Proof.
  intros Hi Hl Mo [T1 T2 T3 T4] Hd Hdl Hmk Hck. pose proof (iv_core _ Hi) as Hc.
  destruct (try_ok c d i l port Hi Hl Mo) as (b & l1 & -> & Hf & Hb). cbn [rbind].
  destruct b; cbn [negb]; [|by eexists _, _, _].
  destruct Hb as (Hsr & Hh & El). rewrite Hdl.
  destruct (timing_ok (put_layer (cf_s c) d i l1) p (delay (cf_s c))) as (p' & k1 & edge & k2 & -> & E2 & Hk & Ep & Er & G1 & G2).
  { by eapply put_core. }
  { by split. }
  { done. }
  cbn [rbind]. rewrite E2. cbn [rbind].
  rewrite (lf_now _ _ Hf : q_now (nx_q (put_layer (cf_s c) d i l1)) = q_now (nx_q (cf_s c))) in G1.
  set (fin := u64 (edge + payloadDelay p')) in *.
  destruct (push_ok c d i l port l1 (mk fin p')) as [Hinv Hef]; try done.
  { intros d' i'. apply Hmk. }
  { intros d' i'. apply (Hmk fin p'). }
  { by apply Hck. }
  eexists _, _, []. split; [reflexivity|]. split; [|split; [by apply inv_clock|exact Hef]].
  unfold enter. destruct (mk fin p') as [| |d' i' ?] eqn:Emk; [done|done|]. destruct (Hmk fin p' d' i') as [_ Hr].
  rewrite Emk in Hr. cbn in Hr. by rewrite bool_decide_eq_true_2 in Hr.
Qed.

Lemma recvTimingReq_ok c id p :
  inv c -> may_ask ann c id p ->
  exists c' obs, perform c (RecvTimingReq id p) = Ok (c', obs) /\ inv c' /\ effect (nx_x (cf_s c)) (nx_x (cf_s c')) obs.
Proof.
  destruct c as [s st]. intros Hi [Ms Mp [Ma Mu] Mt (m & Mg & Mo) Mf]. cbn [cf_s cf_stack] in *. pose proof (iv_core _ Hi) as Hc. cbn in Hc.
  cbn [perform cf_s cf_stack]. unfold recvTimingReq, port_index. rewrite (proj2 (Z.leb_le _ _)) by lia. cbn [rbind].
  destruct (lookup_lt_is_Some_2 (respLayers (nx_x s)) (Z.to_nat id)) as [lr ->]; [lia|]. cbn [deref rbind].
  rewrite Mp. unfold getAddr. rewrite Ma. cbn [negb assert_ rbind].
  destruct (cr_route _ Hc) as [Hro Hall]. destruct (findPort_ok _ _ Hro _ _ Hall Mu Mg) as (c0 & c1 & c2 & -> & Hro'). cbn [rbind].
  set (r := with_port_cache _ c0 c1 c2) in *. set (s0 := with_x s (with_route (nx_x s) r)).
  assert (inv (mkConfig s0 st)) as Hi0 by (apply inv_route; try done).
  pose proof (cr_ports _ Hc _ _ Mg) as Hm. rewrite (proj2 (Z.leb_le _ _)), Nat2Z.id by lia. cbn [rbind].
  destruct (lookup_lt_is_Some_2 (reqLayers (nx_x s)) m) as [l Hl]; [lia|]. specialize (Mo _ Hl).
  rewrite (layer_of_ok s0 ReqDir m l Hl). cbn [rbind].
  destruct (cr_const _ Hc) as (F1 & F2 & _ & _ & Hus). pose proof (co_period _ _ _ (cr_clock _ Hc)) as Hp0.
  set (delay := fun s : NxSt Q => u64 (u64 (frontendLatency (nx_x s) + forwardLatency (nx_x s)) * nx_period s)).
  assert (delay s0 = req_delay s) as Ed.
  { destruct Mt as [T1 T2 T3 T4]. unfold delay, req_delay in *. cbn. rewrite (u64_small (_ + _)) by (unfold in_range; nia).
    apply u64_small. unfold in_range. nia. }
  destruct (send_ok (mkConfig s0 st) ReqDir m l id p delay (fun fin p' =>
      ReqFrame m id (headerDelay p) fin (expects (tp_pkt p')) p')) as (res & c' & obs & E & En & Hinv & Hef); cbn [cf_s cf_stack]; try done.
  - rewrite Ed. by destruct Mt.
  - rewrite Ed. unfold req_delay. nia.
  - intros fin p' d' i'. split; [|done]. cbn. destruct d'; repeat case_decide; naive_solver.
  - intros fin p' H1 H2 Ep Er. destruct Hi as [_ _ [K1 K2 K3 K4]]. split.
    + constructor; [|exact K1]. cbn. split_and!; try done; lia.
    + unfold asking. cbn. rewrite Ep. destruct (expects (tp_pkt p)); [|done]. constructor; [|done]. rewrite Er. by apply Mf.
    + intros r'. unfold asking. cbn. rewrite Ep. destruct (expects (tp_pkt p)); [|apply K3].
      rewrite Er. intros [->|Hin]%elem_of_cons; [by apply Mf|by apply K3].
    + exact K4.
  - cbn [cf_s cf_stack] in *. unfold delay, expects in E. rewrite E. cbn [rbind]. rewrite En.
    eexists _, _. split; [reflexivity|]. split; [done|]. exact (effect_route _ _ _ _ Hef).
Qed.

Lemma recvTimingResp_ok c id p :
  inv c -> may_answer c id p ->
  exists c' obs, perform c (RecvTimingResp id p) = Ok (c', obs) /\ inv c' /\ effect (nx_x (cf_s c)) (nx_x (cf_s c')) obs.
Proof.
  destruct c as [s st]. intros Hi [Ms Mt (k & Mk & Mo) Mf]. cbn [cf_s cf_stack] in *. pose proof (iv_core _ Hi) as Hc. cbn in Hc.
  cbn [perform cf_s cf_stack]. unfold recvTimingResp, port_index. rewrite (proj2 (Z.leb_le _ _)) by lia. cbn [rbind].
  destruct (lookup_lt_is_Some_2 (reqLayers (nx_x s)) (Z.to_nat id)) as [lr ->]; [lia|]. cbn [deref rbind]. rewrite Mk.
  pose proof (cr_dest _ Hc _ _ Mk) as Hk. pose proof (cr_size _ Hc) as Hsz.
  rewrite (proj2 (Z.eqb_neq _ _)) by (unfold InvalidPortID; lia). cbn [negb assert_ rbind].
  rewrite u64_small by (unfold in_range; lia). rewrite (proj2 (Z.ltb_lt _ _)) by lia. cbn [assert_ rbind].
  rewrite (proj2 (Z.leb_le _ _)) by lia. cbn [rbind].
  destruct (lookup_lt_is_Some_2 (respLayers (nx_x s)) (Z.to_nat k)) as [l Hl]; [lia|]. specialize (Mo _ Hl).
  rewrite (layer_of_ok s RespDir (Z.to_nat k) l Hl). cbn [rbind].
  destruct (cr_const _ Hc) as (_ & _ & F3 & _ & Hus). pose proof (co_period _ _ _ (cr_clock _ Hc)) as Hp0.
  set (delay := fun s : NxSt Q => u64 (responseLatency (nx_x s) * nx_period s)).
  assert (delay s = resp_delay s) as Ed.
  { destruct Mt as [T1 T2 T3 T4]. unfold delay, resp_delay in *. apply u64_small. unfold in_range. nia. }
  destruct (send_ok (mkConfig s st) RespDir (Z.to_nat k) l id p delay (fun fin p' => RespFrame (Z.to_nat k) id fin p'))
    as (res & c' & obs & E & En & Hinv & Hef); cbn [cf_s cf_stack]; try done.
  - by rewrite Ed.
  - rewrite Ed. unfold resp_delay. nia.
  - intros fin p' d' i'. split; [|done]. cbn. destruct d'; repeat case_decide; naive_solver.
  - intros fin p' H1 H2 Ep Er. destruct Hi as [_ _ [K1 K2 K3 K4]]. split; try done.
    + constructor; [|exact K1]. cbn. rewrite Er, Mk, Z2Nat.id by lia. split_and!; try done; lia.
    + unfold answering. cbn. constructor; [|done]. by rewrite Er.
  - cbn [cf_s cf_stack] in *. unfold delay in E. rewrite E. cbn [rbind]. rewrite En. by eexists _, _.
Qed.

(** ** Returning calls *)

Lemma status_q s s' st d i l : nx_q s' = nx_q s -> status s st d i l -> status s' st d i l.
Proof. intros E. unfold status, rests, held, retrying, pending. cbn. by rewrite E. Qed.

(** The layer of a call that has returned is at rest. *)
Lemma return_ok s s' f st d i l port (l1 : LySt Q) :
  inv (mkConfig s (f :: st)) -> core s' -> nx_q s' = nx_q s -> (forall d, layers (nx_x s') d = layers (nx_x s) d) ->
  layers (nx_x s) d !! i = Some l ->
  (forall d' i', frame_src d' i' f = if decide ((d', i') = (d, i)) then Some port else None) ->
  (forall d' i', frame_retries d' i' f = false) ->
  ly_frame (ly s' l) l1 -> rests l1 -> ly_state (ls_l l1) = BUSY -> waitingForLayer (ls_l l1) = waitingForLayer l ->
  option_list (waitingForPeer (ls_l l1)) `sublist_of` [port] -> calls_ok s' st ->
  inv (mkConfig (put_layer s' d i l1) st).
Proof.
  intros [_ Hls _] Hc' Hq Hlay Hl Fs Fr Hf Hr Hb Hw Hpe Hk. cbn [cf_s cf_stack] in *.
  assert (srcs (f :: st) d i = port :: srcs st d i) as Esr by (rewrite srcs_cons, Fs, decide_True; done).
  destruct (Hls _ _ _ Hl) as [Hs Ho]. unfold status in Hs. rewrite Esr in Hs.
  destruct (srcs st d i) as [|] eqn:Es; [|done]. destruct Hs as (_ & _ & Hpn).
  eapply (inv_put s' Hc' d i l ltac:(by rewrite Hlay) l1 Hf (f :: st)); try done.
  - intros d' i' l' Hl'. rewrite Hlay in Hl'. destruct (Hls _ _ _ Hl') as [H1 H2]. split; [|done]. by eapply status_q.
  - intros d' i' Hne. rewrite srcs_cons, Fs, decide_False by done. split; [done|]. unfold retries. cbn [existsb]. by rewrite Fr.
  - unfold status. rewrite Es. destruct (retries st d i); [|exact Hr]. right. split; [exact Hr|done].
  - unfold occupants in *. rewrite Esr in Ho. rewrite Es, Hw, app_nil_r. cbn [ls_l ly] in Hpn. rewrite Hpn in Ho. cbn [option_list app] in Ho.
    eapply sublist_NoDup; [exact Ho|]. by apply sublist_app.
Qed.

Lemma core_routeTo s m :
  core s -> (forall r k, m !! r = Some k -> 0 <= k < Z.of_nat (length (respLayers (nx_x s)))) ->
  core (with_x s (with_routeTo (nx_x s) m)).
Proof. intros [] Hm. by split. Qed.

(** The routing table changes, then a layer. *)
Lemma effect_routeTo x m x' o :
  effect (with_routeTo x m) x' [] -> m = route_obs (routeTo x) o ->
  match o with Taken _ _ | Answered _ _ => True | _ => False end -> effect x x' [o].
Proof.
  intros [E1 E2] -> Ho. split; [exact E1|]. intros d i l' Hl'. destruct (E2 _ _ _ Hl') as (l & Hl & Hq). exists l. split; [exact Hl|].
  intros p. specialize (Hq p). rewrite !count_cons. by rewrite !decide_False by (by intros ->).
Qed.

Lemma frame_layer s f st d i port :
  inv (mkConfig s (f :: st)) -> frame_src d i f = Some port ->
  exists l, layers (nx_x s) d !! i = Some l /\ held (ly s l).
Proof.
  intros [_ Hls [K1 _ _ _]] Hs. cbn [cf_s cf_stack] in *. apply Forall_cons in K1 as [Hf _].
  assert (i < length (layers (nx_x s) d))%nat as Hlt.
  { destruct f; cbn in Hs, Hf; [| |done]; case_decide as Hd; try done; destruct Hd as [-> ->]; apply Hf. }
  destruct (lookup_lt_is_Some_2 _ _ Hlt) as [l Hl]. exists l. split; [done|]. destruct (Hls _ _ _ Hl) as [Hst _].
  unfold status in Hst. rewrite srcs_cons, Hs in Hst. by destruct (srcs st d i).
Qed.

(** The calls in progress without the last one. *)
Lemma calls_pop s f st : calls_ok s (f :: st) -> calls_ok s st.
Proof.
  intros [K1 K2 K3 K4]. apply Forall_cons in K1 as [_ K1]. unfold asking, answering in *. cbn in *. split; [done|..].
  - by destruct f as [? ? ? ? []| |]; try apply NoDup_cons in K2 as [_ K2].
  - intros r Hr. apply K3. destruct f as [? ? ? ? []| |]; try done. by apply elem_of_cons; right.
  - by destruct f; try apply NoDup_cons in K4 as [_ K4].
Qed.

Lemma reqReturns_ok s st m id old fin expect p0 success p :
  inv (mkConfig s (ReqFrame m id old fin expect p0 :: st)) -> tp_req p = tp_req p0 ->
  (success = false -> memInhibitAsserted (tp_pkt p) = false) ->
  exists c' obs, perform (mkConfig s (ReqFrame m id old fin expect p0 :: st)) (ReqReturns success p) = Ok (c', obs) /\
    inv c' /\ effect (nx_x s) (nx_x (cf_s c')) obs.
Proof.
  intros Hi Er Hm. pose proof (iv_core _ Hi) as Hc. pose proof (iv_calls _ Hi) as Hk. cbn [cf_s cf_stack] in Hc, Hk.
  pose proof (calls_pop _ _ _ Hk) as Hk'. destruct Hk as [K1 K2 K3 K4]. apply Forall_cons in K1 as [(Lm & Hid & Hfin & Hfin0) K1].
  assert (forall d' i', frame_src d' i' (ReqFrame m id old fin expect p0) = if decide ((d', i') = (ReqDir, m)) then Some id else None) as Fs.
  { intros d' i'. cbn. destruct d'; repeat case_decide; naive_solver. }
  destruct (frame_layer _ _ _ ReqDir m id Hi) as (l & Hl & Hh); [by rewrite Fs, decide_True|].
  cbn [perform cf_s cf_stack]. unfold reqReturned. destruct success; cbn [negb].
  - set (mp := if expect then <[tp_req p0 := id]> (routeTo (nx_x s)) else routeTo (nx_x s)).
    set (s1 := with_x s (with_routeTo (nx_x s) mp)).
    assert (core s1) as Hc1.
    { apply core_routeTo; [done|]. subst mp. destruct expect; [|apply Hc]. intros r k. destruct (decide (r = tp_req p0)) as [->|Hne].
      - rewrite lookup_insert_eq. by intros [= <-].
      - rewrite lookup_insert_ne by done. apply Hc. }
    assert (calls_ok s1 st) as Hk1.
    { destruct Hk' as [J1 J2 J3 J4]. subst s1 mp. destruct expect; [|by split]. apply NoDup_cons in K2 as [Hn _]. split; try done.
      - eapply Forall_impl; [exact J1|]. intros f. destruct f; cbn; try done. intros (? & ? & ? & Hr). split_and!; try done.
        rewrite lookup_insert_ne; [done|]. intros E. rewrite <- E, K3 in Hr by (cbn; apply elem_of_cons; by left). done.
      - intros r Hr. cbn. rewrite lookup_insert_ne by (intros E; apply Hn; rewrite E; exact Hr). by apply J3. }
    destruct (succeededTiming_ok (ly s1 l) fin) as (l1 & E1 & Hf & El & Hr); [exact (base_of s1 ReqDir m l Hc1 Hl)|done|done|done|].
    assert ((if expect then let* _ := assert_ (bool_decide (routeTo (nx_x s) !! tp_req p = None)) in
        Ok (with_x s (with_routeTo (nx_x s) (<[tp_req p := id]> (routeTo (nx_x s))))) else Ok s) = Ok s1) as ->.
    { subst s1 mp. rewrite Er. destruct expect; [|by destruct s as [? ? ? []]].
      rewrite bool_decide_eq_true_2; [done|]. apply K3. apply elem_of_cons. by left. }
    cbn [rbind]. rewrite (layer_of_ok s1 ReqDir m l Hl). cbn [rbind]. rewrite E1. cbn [rbind]. eexists _, _. split; [reflexivity|]. split.
    + eapply (return_ok s s1); try done; rewrite El; cbn; [apply Hh|done|]. destruct Hh as (_ & _ & Hpn). cbn in Hpn. rewrite Hpn. apply sublist_nil_l.
    + assert (effect (nx_x s1) (nx_x (put_layer s1 ReqDir m l1)) []) as Hef.
      { eapply effect_put; [exact Hl|done|]. intros q. by rewrite El. }
      subst s1 mp. rewrite Er. destruct expect; [exact (effect_routeTo _ _ _ (Taken _ _) Hef eq_refl I)|]. destruct Hef as [X1 X2]. by split.
  - rewrite Hm by done. cbn [negb assert_ rbind]. destruct (edge_ok s 1 Hc) as (t & c & -> & Hcc & Ht); [lia|]. cbn [rbind].
    pose proof (co_period _ _ _ (cr_clock _ Hc)) as Hp0. pose proof (co_now _ _ _ (cr_clock _ Hc)) as Hn0.
    rewrite (layer_of_ok (with_clock s c) ReqDir m l Hl). cbn [rbind].
    destruct (failedTiming_ok (ly (with_clock s c) l) id t) as (l1 & -> & Hf & El & Hr); [exact (base_of _ ReqDir m l Hcc Hl)|done|cbn; lia|lia|].
    cbn [rbind]. eexists _, _. split; [reflexivity|]. cbn [cf_s]. split.
    + eapply (return_ok s (with_clock s c)); try done; rewrite ?El; [apply Hh|done|done|by destruct Hk'].
    + eapply (effect_put (with_clock s c)); [exact Hl|by repeat constructor|]. intros q. rewrite El.
      destruct Hh as (_ & _ & Hpn). cbn in Hpn. unfold queue. rewrite Hpn. cbn [ls_l ly set_peer waitingForLayer waitingForPeer]. occurrences.
Qed.

Lemma respReturns_ok s st i id fin p :
  inv (mkConfig s (RespFrame i id fin p :: st)) ->
  exists c' obs, perform (mkConfig s (RespFrame i id fin p :: st)) (RespReturns true) = Ok (c', obs) /\
    inv c' /\ effect (nx_x s) (nx_x (cf_s c')) obs.
Proof.
  intros Hi. pose proof (iv_core _ Hi) as Hc. pose proof (iv_calls _ Hi) as Hk. cbn [cf_s cf_stack] in Hc, Hk.
  pose proof (calls_pop _ _ _ Hk) as [J1 J2 J3 J4]. destruct Hk as [K1 K2 K3 K4]. apply Forall_cons in K1 as [(Lm & Hfin & Hfin0 & Hrt) K1].
  assert (forall d' i', frame_src d' i' (RespFrame i id fin p) = if decide ((d', i') = (RespDir, i)) then Some id else None) as Fs.
  { intros d' i'. cbn. destruct d'; repeat case_decide; naive_solver. }
  destruct (frame_layer _ _ _ RespDir i id Hi) as (l & Hl & Hh); [by rewrite Fs, decide_True|].
  cbn [perform cf_s cf_stack]. unfold respReturned. cbn [assert_ rbind].
  set (s1 := with_x s (with_routeTo (nx_x s) (delete (tp_req p) (routeTo (nx_x s))))).
  assert (core s1) as Hc1.
  { apply core_routeTo; [done|]. intros r k [_ Hr]%lookup_delete_Some. by eapply cr_dest. }
  assert (calls_ok s1 st) as Hk1.
  { apply NoDup_cons in K4 as [Hn _]. split; try done.
    - rewrite Forall_forall in J1 |- *. intros f Hf. specialize (J1 f Hf). destruct f as [|k ? ? p'|]; cbn in *; try done.
      destruct J1 as (? & ? & ? & Hr). split_and!; try done. rewrite lookup_delete_ne; [done|]. intros E. apply Hn.
      apply list_elem_of_omap. eexists. split; [exact Hf|]. by rewrite E.
    - intros r Hr. cbn. apply lookup_delete_None. right. by apply J3. }
  destruct (succeededTiming_ok (ly s1 l) fin) as (l1 & E1 & Hf & El & Hr); [exact (base_of s1 RespDir i l Hc1 Hl)|done|done|done|].
  rewrite (layer_of_ok s1 RespDir i l Hl). cbn [rbind]. rewrite E1. cbn [rbind]. eexists _, _. split; [reflexivity|]. split.
  - eapply (return_ok s s1); try done; rewrite El; cbn; [apply Hh|done|]. destruct Hh as (_ & _ & Hpn). cbn in Hpn. rewrite Hpn. apply sublist_nil_l.
  - assert (effect (nx_x s1) (nx_x (put_layer s1 RespDir i l1)) []) as Hef.
    { eapply effect_put; [exact Hl|done|]. intros q. by rewrite El. }
    exact (effect_routeTo _ _ _ (Answered _ _) Hef eq_refl I).
Qed.

Lemma retryReturns_ok s st d i port :
  inv (mkConfig s (RetryFrame d i port :: st)) ->
  exists c' obs, perform (mkConfig s (RetryFrame d i port :: st)) RetryReturns = Ok (c', obs) /\
    inv c' /\ effect (nx_x s) (nx_x (cf_s c')) obs.
Proof.
  intros Hi. pose proof (iv_core _ Hi) as Hc. pose proof (iv_calls _ Hi) as Hk. cbn [cf_s cf_stack] in Hc, Hk.
  pose proof (calls_pop _ _ _ Hk) as Hk'. destruct Hk as [K1 _ _ _]. apply Forall_cons in K1 as [Hlt _].
  destruct (lookup_lt_is_Some_2 _ _ Hlt) as [l Hl]. pose proof (iv_layers _ Hi) as Hls. cbn [cf_s cf_stack] in Hls.
  destruct (Hls _ _ _ Hl) as [Hs Ho]. pose proof (base_of _ _ _ _ Hc Hl) as Hb.
  assert (exists l1 : LySt Q, retryReturned (ly s l) = Ok l1 /\ ly_frame (ly s l) l1 /\ status (put_layer s d i l1) st d i (ls_l l1) /\
    waitingForLayer (ls_l l1) = waitingForLayer l /\ waitingForPeer (ls_l l1) = waitingForPeer l) as (l1 & E & Hf & Hst & Ew & Ep).
  { unfold status in *. rewrite srcs_cons in Hs. cbn [frame_src] in Hs. destruct (srcs st d i) as [|x [|]]; [| |done].
    - assert (retries (RetryFrame d i port :: st) d i = true) as Er by (unfold retries; cbn; by rewrite bool_decide_eq_true_2).
      rewrite Er in Hs. destruct (retryReturned_ok (ly s l) Hb) as (l1 & ? & ? & Hr & Hbz & ? & ?); [destruct Hs as [|[? _]]; auto|].
      exists l1. split_and!; try done. assert (ly_state (ls_l l1) = BUSY) as Hbusy.
      { apply Hbz. cbn. destruct Hs as [(Hs & _)|[_ ->]]; [|done]. cbn in Hs. by rewrite Hs. }
      destruct (retries st d i); [right; split; [exact Hr|done]|exact Hr].
    - exists (ly s l). unfold retryReturned. rewrite bool_decide_eq_false_2 by (destruct Hs as (-> & _); done).
      split_and!; try done. }
  cbn [perform cf_s cf_stack]. unfold retry_returned. rewrite (layer_of_ok _ _ _ _ Hl). cbn [rbind]. rewrite E. cbn [rbind].
  eexists _, _. split; [reflexivity|]. split.
  - eapply inv_put; try done.
    + intros d' i' Hne. split; [done|]. unfold retries. cbn [existsb frame_retries]. rewrite bool_decide_eq_false_2; [done|].
      intros [-> ->]. congruence.
    + unfold occupants in *. by rewrite Ew, Ep.
  - eapply effect_put; [done|done|]. intros q. unfold queue. by rewrite Ew, Ep.
Qed.

(** A layer has told a port to retry, or nobody. *)
Lemma retry_call_ok s st d i l (l1 : LySt Q) o :
  core s -> (forall d' i' l, (d', i') <> (d, i) -> layers (nx_x s) d' !! i' = Some l ->
     status s st d' i' l /\ NoDup (occupants st d' i' l)) ->
  layers (nx_x s) d !! i = Some l -> ly_frame (ly s l) l1 -> calls_ok s st -> srcs st d i = [] -> NoDup (queue (ls_l l1)) ->
  match o with Some _ => retrying l1 | None => rests l1 /\ (retries st d i = true -> ly_state (ls_l l1) = BUSY) end ->
  inv (enter st (retry_call s d i o l1)).1.
Proof.
  intros Hc Hls Hl Hf Hk Hsr Hq Ho. unfold retry_call, enter. destruct o as [p|]; cbn [fst].
  - eapply (inv_put_others s Hc d i l Hl l1 Hf st); try done.
    + intros d' i' Hne. split; [done|]. unfold retries. cbn [existsb frame_retries]. rewrite bool_decide_eq_false_2; [done|].
      intros [-> ->]. congruence.
    + unfold status. rewrite srcs_cons. cbn [frame_src]. rewrite Hsr. unfold retries. cbn [existsb frame_retries].
      rewrite bool_decide_eq_true_2 by done. by left.
    + unfold occupants. rewrite srcs_cons. cbn [frame_src]. by rewrite Hsr, app_nil_r.
    + destruct Hk. split; try done. constructor; [|done]. cbn. by eapply lookup_lt_Some.
  - destruct Ho as [Hr Hbz]. eapply (inv_put_others s Hc d i l Hl l1 Hf st); try done.
    + unfold status. rewrite Hsr. destruct (retries st d i); [right; split; [exact Hr|by apply Hbz]|exact Hr].
    + unfold occupants. by rewrite Hsr, app_nil_r.
Qed.

Lemma enter_x st (r : Call * NxSt Q) : nx_x (cf_s (enter st r).1) = nx_x r.2.
Proof. by destruct r as [[] s]. Qed.

Lemma retry_call_effect s st d i l (l1 : LySt Q) o :
  core s -> layers (nx_x s) d !! i = Some l -> ly_frame (ly s l) l1 ->
  (forall p, count_occ Z.eq_dec (queue l) p =
     (count_occ Z.eq_dec (queue (ls_l l1)) p + count_occ Z.eq_dec (option_list o) p)%nat) ->
  let r := enter st (retry_call s d i o l1) in effect (nx_x s) (nx_x (cf_s r.1)) r.2.
Proof.
  intros Hc Hl Hf Hq. cbv zeta. rewrite enter_x. unfold retry_call. cbn [snd].
  destruct o as [p|]; cbn [enter snd]; (eapply effect_put; [done|by repeat constructor|]); intros q; rewrite Hq; occurrences.
Qed.

Lemma occupants_queue st d i l : NoDup (occupants st d i l) -> NoDup (queue l).
Proof. unfold occupants, queue. rewrite app_assoc. by intros (? & _)%NoDup_app. Qed.

Lemma recvReqRetry_ok c id l :
  inv c -> 0 <= id -> reqLayers (nx_x (cf_s c)) !! Z.to_nat id = Some l -> waitingForPeer l <> None ->
  exists c' obs, perform c (RecvReqRetry id) = Ok (c', obs) /\ inv c' /\ effect (nx_x (cf_s c)) (nx_x (cf_s c')) obs.
Proof.
  destruct c as [s st]. intros [Hc Hls Hk] Hid Hl Hpe. cbn [cf_s cf_stack] in *. destruct (waitingForPeer l) as [x|] eqn:Ex; [|done].
  destruct (Hls ReqDir _ _ Hl) as [Hs Ho]. set (i := Z.to_nat id) in *.
  assert (srcs st ReqDir i = [] /\ rests (ly s l) /\ (retries st ReqDir i = true -> ly_state l = BUSY)) as (Hsr & Hr & Hbz).
  { unfold status in Hs. destruct (srcs st ReqDir i) as [|y [|]]; [|destruct Hs as (_ & _ & Hs); cbn in Hs; congruence|done].
    split; [done|]. destruct (retries st ReqDir i); [|done]. destruct Hs as [(_ & _ & Hs & _)|?]; [cbn in Hs; congruence|naive_solver]. }
  destruct (recvRetry_ok (ly s l) x) as (o & l1 & E & Hf & Hq & Hp & Hres); [by apply (base_of s ReqDir i)|done|done|].
  cbn [perform cf_s cf_stack]. unfold recvReqRetry, port_index. rewrite (proj2 (Z.leb_le _ _)) by lia. cbn [rbind]. fold i.
  rewrite (layer_of_ok s ReqDir i l Hl). cbn [rbind]. rewrite E. cbn [rbind].
  destruct (enter st (retry_call s ReqDir i o l1)) as [c' obs] eqn:En. exists c', obs. split; [done|].
  assert (forall p, count_occ Z.eq_dec (queue l) p =
     (count_occ Z.eq_dec (queue (ls_l l1)) p + count_occ Z.eq_dec (option_list o) p)%nat) as Hcnt.
  { intros p. unfold queue. rewrite Hp, Ex. destruct o; [destruct Hres as (-> & -> & _)|destruct Hres as (-> & _)]; cbn [ls_l ly]; occurrences. }
  split.
  - change c' with (c', obs).1. rewrite <- En. eapply retry_call_ok; try done; [by eauto| |].
    + apply occupants_queue in Ho. apply nodup_occ. intros p. rewrite nodup_occ in Ho.
      specialize (Ho p). rewrite Hcnt in Ho. lia.
    + destruct o; [apply Hres|]. destruct Hres as (_ & ? & ?). done.
  - pose proof (retry_call_effect s st ReqDir i l l1 o Hc Hl Hf Hcnt) as He. by rewrite En in He.
Qed.

Lemma release_ok s d i l q :
  inv (mkConfig s []) -> layers (nx_x s) d !! i = Some l -> q_scheduled (nx_q s) (ly_releaseEvent l) = true ->
  q_pop (nx_q s) = Ok (ly_releaseEvent l, q) -> q_now q + nx_period s < 2 ^ 62 ->
  exists c' obs, perform (mkConfig s []) (Release d i) = Ok (c', obs) /\ inv c' /\ effect (nx_x s) (nx_x (cf_s c')) obs.
Proof.
  intros [Hc Hls Hk] Hl Hsch Hpop Hb. cbn [cf_s cf_stack] in *.
  destruct (q_pop_ok _ _ (cr_inv _ Hc) (cr_own _ Hc _ _ _ Hl) Hsch) as (e & q1 & Hp' & Hqi & [Tw Tn Tl Tt To Tr]).
  rewrite Hpop in Hp'. injection Hp' as <- <-. destruct (Hls _ _ _ Hl) as [Hs Ho]. cbn in Hs.
  assert (ly_state l = BUSY /\ 0 < q_when (nx_q s) (ly_releaseEvent l)) as [Hbz Hw].
  { unfold status, rests, pending in Hs. cbn in Hs. rewrite Hsch in Hs. destruct (ly_state l); naive_solver. }
  set (s1 := mkNxSt q (nx_clock s) (nx_period s) (nx_x s)).
  assert (core s1) as Hc1.
  { destruct Hc as [C1 C2 C3 C4 C5 C6 C7 C8 C9]. split; try done; cbn.
    - eapply clk_ok_later; [done|lia|done].
    - intros d' i' l' Hl'. apply To. by eapply C7. }
  assert (forall d' i' l', (d', i') <> (d, i) -> layers (nx_x s1) d' !! i' = Some l' ->
     status s1 [] d' i' l' /\ NoDup (occupants [] d' i' l')) as Hls1.
  { intros d' i' l' Hne Hl'. destruct (Hls _ _ _ Hl') as [Hs' Ho']. split; [|done]. unfold status, rests, pending in *. cbn in *.
    destruct (Tr (ly_releaseEvent l')) as [-> ->].
    { intros E. destruct (cr_events _ Hc _ _ _ _ _ _ Hl' Hl E); congruence. }
    destruct (ly_state l'); [|done|done]. destruct Hs' as [? Hs']. split; [done|]. destruct (waitingForPeer l'); [lia|done]. }
  destruct (releaseLayer_ok (ly s1 l)) as (o & l1 & E & Hf & Hq & Hpe & Hres); [by apply (base_of s1 d i)|done|done|cbn; lia|].
  cbn [perform cf_s cf_stack]. rewrite Hpop. cbn [rbind]. fold s1. unfold release. rewrite (layer_of_ok s1 d i l Hl). cbn [rbind].
  rewrite E. cbn [rbind]. destruct (enter [] (retry_call s1 d i o l1)) as [c' obs] eqn:En. exists c', obs. split; [done|].
  assert (forall p, count_occ Z.eq_dec (queue l) p =
     (count_occ Z.eq_dec (queue (ls_l l1)) p + count_occ Z.eq_dec (option_list o) p)%nat) as Hcnt.
  { intros p. unfold queue. rewrite Hpe. cbn [ls_l ly]. destruct o as [x|].
    - destruct Hres as (Ew & _). cbn in Ew. rewrite Ew. occurrences.
    - destruct Hres as (_ & -> & _). cbn [ls_l ly]. occurrences. }
  split.
  - change c' with (c', obs).1. rewrite <- En. eapply retry_call_ok; try done.
    + destruct Hk as [_ K2 K3 K4]. by split.
    + apply occupants_queue in Ho. apply nodup_occ. intros p. rewrite nodup_occ in Ho. specialize (Ho p). rewrite Hcnt in Ho. lia.
    + destruct o; [apply Hres|]. split; [apply Hres|done].
  - pose proof (retry_call_effect s1 [] d i l l1 o Hc1 Hl Hf Hcnt) as He. by rewrite En in He.
Qed.

Lemma passes_ok c q :
  inv c -> passes c q ->
  exists c' obs, perform c (Passes q) = Ok (c', obs) /\ inv c' /\ effect (nx_x (cf_s c)) (nx_x (cf_s c')) obs.
Proof.
  destruct c as [s st]. intros [Hc Hls [K1 K2 K3 K4]] [P1 P2 P3 P4 P5]. cbn [cf_s cf_stack] in *. eexists _, _. split; [reflexivity|]. split.
  - split; cbn [cf_s cf_stack].
    + destruct Hc as [C1 C2 C3 C4 C5 C6 C7 C8 C9]. split; try done; cbn.
      * eapply clk_ok_later; [done|lia|done].
      * intros d i l Hl. by destruct (P5 _ _ _ Hl).
    + intros d i l Hl. destruct (Hls _ _ _ Hl) as [Hs Ho]. split; [|done]. destruct (P5 _ _ _ Hl) as (_ & E1 & E2).
      unfold status, rests, held, retrying, pending in *. cbn in *. rewrite E1, E2.
      destruct (srcs st d i) as [|x [|]]; [|done|done]. destruct (retries st d i) eqn:Er.
      * rewrite P3 by (by intros ->). done.
      * destruct (ly_state l); [|done|done]. destruct Hs as [? Hs]. split; [done|]. destruct (waitingForPeer l); [lia|done].
    + split; try done. cbn. rewrite Forall_forall in K1 |- *. intros f Hf. specialize (K1 f Hf).
      assert (st <> []) as Hne by (intros ->; by apply not_elem_of_nil in Hf). specialize (P3 Hne).
      destruct f; cbn in *; rewrite ?P3; done.
  - split; [done|]. intros d i l Hl. exists l. split; [exact Hl|]. done.
Qed.

(** Everything that may happen succeeds. *)
Lemma allowed_ok c a :
  inv c -> allowed ann c a ->
  exists c' obs, perform c a = Ok (c', obs) /\ inv c' /\ effect (nx_x (cf_s c)) (nx_x (cf_s c')) obs.
Proof.
  intros Hi Ha. destruct a as [id p|ok p|id p|ok|id| |d i|q]; cbn in Ha.
  - by apply recvTimingReq_ok.
  - destruct c as [s st]. destruct Ha as (m & id & old & fin & ex & p0 & st' & E & Er & Hm). cbn in E. subst st.
    by apply reqReturns_ok.
  - by apply recvTimingResp_ok.
  - destruct c as [s st]. destruct Ha as (-> & i & id & fin & p & st' & E). cbn in E. subst st. by apply respReturns_ok.
  - destruct Ha as (l & H1 & H2 & H3). by eapply recvReqRetry_ok.
  - destruct c as [s st]. destruct Ha as (d & i & p & st' & E). cbn in E. subst st. by apply retryReturns_ok.
  - destruct c as [s st]. destruct Ha as (E & l & q & H1 & H2 & H3 & H4). cbn in *. subst st. by eapply release_ok.
  - by apply passes_ok.
Qed.

(** A crossbar at the start: the slaves have announced their ranges. *)
Record started (c : Config Q) : Prop := {
  sd_core : core (cf_s c);
  sd_calls : cf_stack c = [];
  sd_table : routeTo (nx_x (cf_s c)) = ∅;
  sd_layers d i l : layers (nx_x (cf_s c)) d !! i = Some l ->
    exists e, l = new_Layer e /\ q_scheduled (nx_q (cf_s c)) e = false;
}.

Lemma started_inv c : started c -> inv c.
Proof.
  intros [Hc Hs Ht Hl]. split; [done| |]; rewrite Hs.
  - intros d i l Hl'. destruct (Hl _ _ _ Hl') as (e & -> & He). split; [done|apply NoDup_nil_2].
  - split; [done|apply NoDup_nil_2| |apply NoDup_nil_2]. intros r Hr. by apply not_elem_of_nil in Hr.
Qed.

Lemma run_inv c0 tr c :
  started c0 -> run ann c0 tr c ->
  inv c /\ routeTo (nx_x (cf_s c)) = fold_left route_obs tr ∅ /\
  forall d i l, layers (nx_x (cf_s c)) d !! i = Some l -> forall p,
    (count_occ Z.eq_dec (queue l) p + count (Retried d i p) tr = count (Refused d i p) tr)%nat.
Proof.
  intros H0' Hr. induction Hr as [c|c tr c1 a obs c2 Hr IH Ha Hp].
  - split; [by apply started_inv|]. split; [by apply H0'|]. intros d i l Hl p. by destruct (sd_layers _ H0' _ _ _ Hl) as (e & -> & _).
  - destruct IH as (Hi & Ht & Hq); [done|]. destruct (allowed_ok _ _ Hi Ha) as (c' & obs' & Hp' & Hi' & [E1 E2]).
    rewrite Hp in Hp'. injection Hp' as <- <-. split; [done|]. rewrite fold_left_app, <- Ht. split; [done|].
    intros d i l' Hl' p. destruct (E2 _ _ _ Hl') as (l & Hl & Hc). specialize (Hc p). specialize (Hq _ _ _ Hl p).
    unfold count in *. rewrite !count_occ_app. lia.
Qed.

(** ** Requests and answers *)

Definition about (r : Z) (o : Obs) : bool :=
  match o with Taken _ r' | Answered _ r' => r' =? r | _ => false end.

(** Request [r] was taken from port [k] and nothing has been seen of it since. *)
Definition unanswered (tr : list Obs) (k r : Z) : Prop :=
  exists tr1 tr2, tr = tr1 ++ Taken k r :: tr2 /\ Forall (fun o => about r o = false) tr2.

Lemma unanswered_snoc tr o k r : about r o = false -> unanswered (tr ++ [o]) k r <-> unanswered tr k r.
Proof.
  intros Ho. split; intros (t1 & t2 & E & Hf).
  - destruct t2 as [|x t2 _] using rev_ind.
    + apply app_inj_tail in E as [_ ->]. cbn in Ho. by rewrite Z.eqb_refl in Ho.
    + rewrite app_comm_cons, app_assoc in E. apply app_inj_tail in E as [-> ->]. apply Forall_app in Hf as [Hf _]. by exists t1, t2.
  - subst tr. exists t1, (t2 ++ [o]). rewrite <- app_assoc. split; [done|]. apply Forall_app. split; [done|]. by constructor.
Qed.

Lemma unanswered_last tr o k r : about r o = true -> unanswered (tr ++ [o]) k r <-> o = Taken k r.
Proof.
  intros Ho. split.
  - intros (t1 & t2 & E & Hf). destruct t2 as [|x t2 _] using rev_ind; [by apply app_inj_tail in E as [_ ->]|].
    rewrite app_comm_cons, app_assoc in E. apply app_inj_tail in E as [_ ->]. apply Forall_app in Hf as [_ Hf].
    rewrite Forall_singleton, Ho in Hf. done.
  - intros ->. exists tr, []. by split.
Qed.

Lemma table_unanswered tr k r : fold_left route_obs tr ∅ !! r = Some k <-> unanswered tr k r.
Proof.
  induction tr as [|o tr IH] using rev_ind.
  - split; [done|]. intros (t1 & t2 & E & _). by destruct t1.
  - rewrite fold_left_app. cbn. destruct (about r o) eqn:Ho.
    + rewrite unanswered_last by done. destruct o as [k' r'|k' r'| |]; try done; cbn in Ho; apply Z.eqb_eq in Ho as ->; cbn.
      * rewrite lookup_insert_eq. naive_solver.
      * rewrite lookup_delete_eq. naive_solver.
    + rewrite unanswered_snoc, <- IH by done. destruct o as [k' r'|k' r'| |]; try done; cbn in Ho; apply Z.eqb_neq in Ho; cbn.
      * by rewrite lookup_insert_ne.
      * by rewrite lookup_delete_ne.
Qed.

Lemma enter_answers st (r : Call * NxSt Q) k q : Answered k q ∉ (enter st r).2.
Proof. destruct r as [[d i p| |[]] s]; cbn; set_solver. Qed.

(** An answer is seen alone, and its request is in the table. *)
Lemma answers_obs c a c' obs k r :
  inv c -> perform c a = Ok (c', obs) -> Answered k r ∈ obs ->
  obs = [Answered k r] /\ routeTo (nx_x (cf_s c)) !! r = Some k.
Proof.
  intros Hi Hp Hin. destruct c as [s st]. pose proof (ck_frames _ _ (iv_calls _ Hi)) as Hf. cbn [cf_s cf_stack] in *.
  assert (forall e, (let* r := e in Ok (enter st r)) = Ok (c', obs) -> False) as Hen.
  { intros e He. apply bind_ok in He as (x & _ & He). injection He as He. apply (enter_answers st x k r). by rewrite He. }
  destruct a as [id p|ok p|id p|ok|id| |d i|q]; cbn [perform cf_s cf_stack] in Hp; try (by destruct (Hen _ Hp)).
  - destruct st as [|[m id old fin ex p0| |] st]; try done. apply bind_ok in Hp as ([[b p'] s'] & _ & Hp). injection Hp as _ <-.
    destruct b; [destruct ex|]; set_solver.
  - destruct st as [|[|i id fin p|] st]; try done. apply bind_ok in Hp as (s' & _ & Hp). injection Hp as _ <-.
    apply list_elem_of_singleton in Hin. injection Hin as -> ->. apply Forall_cons in Hf as [(_ & _ & _ & Hf) _]. done.
  - destruct st as [|[| |d i p] st]; try done. apply bind_ok in Hp as (s' & _ & Hp). injection Hp as _ <-. by apply not_elem_of_nil in Hin.
  - apply bind_ok in Hp as ([e q] & _ & Hp). by destruct (Hen _ Hp).
  - injection Hp as _ <-. by apply not_elem_of_nil in Hin.
Qed.

Lemma run_answers c0 tr c tr1 k r tr2 :
  started c0 -> run ann c0 tr c -> tr = tr1 ++ Answered k r :: tr2 -> unanswered tr1 k r.
Proof.
  intros Hs Hr. revert tr1 tr2. induction Hr as [c|c tr c1 a obs c2 Hr IH Ha Hp]; intros tr1 tr2 E; [by destruct tr1|].
  destruct (run_inv _ _ _ Hs Hr) as (Hi & Ht & _). apply app_eq_inv in E as [(t & -> & E)|(t & -> & E)].
  - destruct t as [|o t].
    + cbn in E. subst obs. destruct (answers_obs _ _ _ _ k r Hi Hp) as [_ Hk]; [set_solver|]. rewrite app_nil_r in *.
      apply table_unanswered. by rewrite <- Ht.
    + injection E as <- ->. by eapply IH.
  - destruct (answers_obs _ _ _ _ k r Hi Hp) as [Eo Hk]; [rewrite E; set_solver|]. rewrite Eo in E.
    destruct t as [|o t]; [|by destruct t]. rewrite app_nil_r. apply table_unanswered. by rewrite <- Ht.
Qed.
End Correct.

(** ** Properties *)

(** C28: The crossbar never fails, however calls nest: after any run of a crossbar
    whose neighbours keep to the protocol, with calls of the crossbar inside
    calls of its neighbours, everything the neighbours may do next is handled
    without a failing assertion; no port waits twice at a layer; and between
    calls every port that waits has the release of its layer scheduled, or the
    destination owes a retry. *)
Theorem crossbar_safe {Q} `{EventSchedLaws Q} ann (c0 : Config Q) tr c :
  started ann c0 -> run ann c0 tr c ->
  (forall a, allowed ann c a -> exists c' obs, perform c a = Ok (c', obs)) /\
  (forall d i l, layers (nx_x (cf_s c)) d !! i = Some l -> NoDup (queue l) /\
     (cf_stack c = [] -> queue l <> [] ->
      q_scheduled (nx_q (cf_s c)) (ly_releaseEvent l) = true \/ waitingForPeer l <> None)).
Proof.
  intros Hs Hr. destruct (run_inv _ _ _ _ Hs Hr) as (Hi & _). split.
  - intros a Ha. destruct (allowed_ok _ _ _ Hi Ha) as (c' & obs & Hp & _). by exists c', obs.
  - intros d i l Hl. destruct (iv_layers _ _ Hi _ _ _ Hl) as [Hst Ho]. split; [by eapply occupants_queue|].
    intros Hc Hq. rewrite Hc in Hst. cbn in Hst. unfold status, rests, pending in Hst. cbn in Hst. destruct (ly_state l); [|left; apply Hst|done].
    destruct Hst as [_ Hst]. destruct (waitingForPeer l) eqn:E; [by right|]. unfold queue in Hq. by rewrite Hst, E in Hq.
Qed.

(** C29: Responses return to where the request came from: whenever the crossbar
    hands a response to a slave port, the request had been taken from that port,
    and nothing had been seen of it in between; and a request that has been
    taken and not answered is in the routing table with its port, so its
    response will find the way. *)
Theorem responses_return {Q} `{EventSchedLaws Q} ann (c0 : Config Q) tr c :
  started ann c0 -> run ann c0 tr c ->
  (forall tr1 k r tr2, tr = tr1 ++ Answered k r :: tr2 -> unanswered tr1 k r) /\
  (forall k r, unanswered tr k r <-> routeTo (nx_x (cf_s c)) !! r = Some k).
Proof.
  intros Hs Hr. destruct (run_inv _ _ _ _ Hs Hr) as (_ & Ht & _). split.
  - intros tr1 k r tr2. by eapply run_answers.
  - intros k r. rewrite Ht. symmetry. apply table_unanswered.
Qed.

(** Refusals and retries balance: at every layer, a port has been told to retry
    exactly as often as it has been refused, but for one refusal whose retry is
    still to come, and then it is in the queue of the layer. *)
Theorem retries_balance {Q} `{EventSchedLaws Q} ann (c0 : Config Q) tr c d i l p :
  started ann c0 -> run ann c0 tr c -> layers (nx_x (cf_s c)) d !! i = Some l ->
  count (Refused d i p) tr = (count (Retried d i p) tr + if decide (p ∈ queue l) then 1 else 0)%nat.
Proof.
  intros Hs Hr Hl. destruct (run_inv _ _ _ _ Hs Hr) as (Hi & _ & Hq). rewrite <- (Hq _ _ _ Hl p).
  pose proof (occupants_queue _ _ _ _ (proj2 (iv_layers _ _ Hi _ _ _ Hl))) as Hn. rewrite nodup_occ in Hn. specialize (Hn p).
  case_decide as Hin; rewrite list_elem_of_In, (count_occ_In Z.eq_dec) in Hin; lia.
Qed.

(** Two processors and, behind the crossbar, a memory and a device. *)
Definition xb_demo_queue : EventQueue :=
  let e := mkEvent None None 0 0 Initialized None in
  mkEventQueue {[ 1%positive := e; 2%positive := e; 3%positive := e; 4%positive := e ]} None 0 [] 0 false 0.
Definition xb_demo : NcXbar :=
  with_route (new_NcXbar false false 1 1 1 8 1000 [1%positive; 2%positive] [3%positive; 4%positive]) route2.
Definition xb_demo0 : Config EventQueue := mkConfig (mkNxSt xb_demo_queue new_Clocked 10 xb_demo) [].

Lemma demo_layers d i l :
  layers xb_demo d !! i = Some l ->
  exists e, l = new_Layer e /\ (i < 2)%nat /\ e = match d with ReqDir => Pos.of_succ_nat i | RespDir => Pos.of_succ_nat (2 + i) end /\
    q_scheduled xb_demo_queue e = false /\ q_own xb_demo_queue e.
Proof.
  assert (forall e, e ∈ [1%positive; 2%positive; 3%positive; 4%positive] -> q_scheduled xb_demo_queue e = false /\ q_own xb_demo_queue e) as He.
  { intros e Hin. repeat (apply elem_of_cons in Hin as [->|Hin]; [split; [reflexivity|eexists; split; [reflexivity|done]]|]).
    by apply not_elem_of_nil in Hin. }
  intros Hl. destruct d, i as [|[|i]]; try done; injection Hl as <-; eexists; (split; [reflexivity|]); (split; [lia|]);
    (split; [reflexivity|]); apply He; set_solver.
Qed.

Lemma xb_demo_started : started ann2 xb_demo0.
Proof.
  split; try done.
  - destruct (reached_inv _ _ _ _ demo_reached) as [Hok _]. split; try done.
    + split; [done|]. split; [done|]. exists []. apply EventQueueCorrect.wf_empty; [done|done|].
      apply (bool_decide_unpack _). vm_compute. exact I.
    + intros a id [Hc|(_ & _ & Hd)]; [|done]. apply covered_elem in Hc as (r & Hr & _). apply ann2_elem in Hr as [[->| ->] _]; done.
    + intros d i l d' i' l' (e & -> & Hi & -> & _)%demo_layers (e' & -> & Hi' & -> & _)%demo_layers. cbn [ly_releaseEvent new_Layer].
      destruct d, d'; intros E%(f_equal Pos.to_nat); rewrite !SuccNat2Pos.id_succ in E; (split; [done || lia|lia]).
    + intros d i l (e & -> & _ & _ & _ & ?)%demo_layers. done.
  - intros d i l (e & -> & _ & _ & ? & _)%demo_layers. by exists e.
Qed.

(** A read by processor 0; while the memory takes it, processor 1 sends another
    and is refused; the read is answered. *)
Definition xb_read (a request : Z) : TimedPacket :=
  mkTimed (mkPacket (Z.lor VALID_ADDR VALID_SIZE) ReadReq Request_0 None a false 8 InvalidCmd []) request 0 0.
Definition after (c : Config EventQueue) (a : Action EventQueue) : Config EventQueue :=
  match perform c a with Ok (c, _) => c | Err _ => c end.
Definition xb_c1 : Config EventQueue := Eval vm_compute in after xb_demo0 (RecvTimingReq 0 (xb_read 0x1000 77)).
Definition xb_c2 : Config EventQueue := Eval vm_compute in after xb_c1 (RecvTimingReq 1 (xb_read 0x1008 78)).
Definition xb_c3 : Config EventQueue := Eval vm_compute in after xb_c2 (ReqReturns true (xb_read 0x1000 77)).
Definition xb_c4 : Config EventQueue := Eval vm_compute in after xb_c3 (RecvTimingResp 0 (xb_read 0x1000 77)).
Definition xb_c5 : Config EventQueue := Eval vm_compute in after xb_c4 (RespReturns true).

Lemma demo_goes x a : 0x1000 <= a <= 0x1fff -> goes_to x ann2 a 0.
Proof.
  intros Ha. left. apply covered_elem. exists (AddrRange_plain 0x1000 0x1fff). split.
  - apply (bool_decide_unpack _). vm_compute. exact I.
  - unfold contains. cbn. lia.
Qed.

Ltac decided := apply (bool_decide_unpack _); vm_compute; exact I.

Ltac demo_ask :=
  split; [cbn; lia|reflexivity|split; [reflexivity|cbn; unfold in_range; lia]
         |split; vm_compute; (reflexivity || (split; (reflexivity || discriminate)) || discriminate)
         |exists 0%nat; split; [apply demo_goes; cbn; lia|intros ? [= <-]; decided]
         |intros _; split; [reflexivity|decided]].

Lemma demo_ask0 : may_ask ann2 xb_demo0 0 (xb_read 0x1000 77).
Proof. demo_ask. Qed.

Lemma demo_ask1 : may_ask ann2 xb_c1 1 (xb_read 0x1008 78).
Proof. demo_ask. Qed.

Lemma demo_answer : may_answer xb_c3 0 (xb_read 0x1000 77).
Proof.
  split; [cbn; lia|split; vm_compute; (reflexivity || (split; (reflexivity || discriminate)) || discriminate)| |decided].
  exists 0. split; [reflexivity|]. intros ? [= <-]. decided.
Qed.

(** Both reads and the answer keep to the protocol. *)
Lemma demo_run4 : run ann2 xb_demo0 [Refused ReqDir 0 1; Taken 0 77] xb_c3.
Proof.
  eapply (run_step ann2 _ [Refused ReqDir 0 1] xb_c2 (ReqReturns true (xb_read 0x1000 77)) [Taken 0 77]); [| |reflexivity].
  - eapply (run_step ann2 _ [] xb_c1 (RecvTimingReq 1 (xb_read 0x1008 78)) [Refused ReqDir 0 1]); [|exact demo_ask1|reflexivity].
    eapply (run_step ann2 _ [] xb_demo0 (RecvTimingReq 0 (xb_read 0x1000 77)) []); [constructor|exact demo_ask0|reflexivity].
  - eexists _, _, _, _, _, _, _. by split.
Qed.

Lemma demo_run : run ann2 xb_demo0 [Refused ReqDir 0 1; Taken 0 77; Answered 0 77] xb_c5.
Proof.
  eapply (run_step ann2 _ [Refused ReqDir 0 1; Taken 0 77] xb_c4 (RespReturns true) [Answered 0 77]); [| |reflexivity].
  - eapply (run_step ann2 _ [Refused ReqDir 0 1; Taken 0 77] xb_c3 (RecvTimingResp 0 (xb_read 0x1000 77)) []);
      [exact demo_run4|exact demo_answer|reflexivity].
  - split; [done|]. by eexists _, _, _, _, _.
Qed.

(** The response of the memory is handled. *)
Lemma crossbar_safe_witness :
  exists c' obs, perform xb_c3 (RecvTimingResp 0 (xb_read 0x1000 77)) = Ok (c', obs).
Proof. apply (crossbar_safe ann2 xb_demo0 _ xb_c3 xb_demo_started demo_run4). exact demo_answer. Defined.

Lemma responses_return_witness :
  unanswered [Refused ReqDir 0 1; Taken 0 77] 0 77 /\ routeTo (nx_x (cf_s xb_c3)) !! 77 = Some 0.
Proof.
  destruct (responses_return ann2 xb_demo0 _ xb_c5 xb_demo_started demo_run) as [H1 _].
  destruct (responses_return ann2 xb_demo0 _ xb_c3 xb_demo_started demo_run4) as [_ H2].
  split; [by eapply (H1 _ 0 77 [])|]. apply H2. exists [Refused ReqDir 0 1], []. split; [reflexivity|constructor].
Defined.

(** Processor 1 has been refused once and waits for its retry. *)
Lemma retries_balance_witness :
  count (Refused ReqDir 0 1) [Refused ReqDir 0 1; Taken 0 77; Answered 0 77] = (0 + 1)%nat.
Proof. exact (retries_balance ann2 xb_demo0 _ xb_c5 ReqDir 0 _ 1 xb_demo_started demo_run eq_refl). Defined.
