(* ===== verification/SystemBus.v ===== *)
(** * A processor, a crossbar and its memories

    The parts of a system put together: the data port of the processor
    ([AtomicMem]) is connected to a slave port of a crossbar
    ([NoncoherentXbar]), the memories ([SimpleMem]) to its master ports, and all
    of them are parts of the physical memory of the system ([PhysMem]), which
    the processor's fast path goes to directly. *)
From stdpp Require Import gmap.
From S2P Require Import Prelude Flags IntMath AddrRange Double EventQueue Packet AbstractMem SimpleMem PageTable ProcessMem AtomicMem AddrMap PhysMem PhysMemInit XbarRoute XbarLayer NoncoherentXbar.

(** ** Definitions *)

(** Master port [i] is connected to the [i]-th slave: a memory of the physical
    memory, by its number, with the parameters of its [SimpleMemory].
    [bu_main] is the port of the memory the processor works in. *)
Record Bus := mkBus {
  bu_xbar : NcXbar;
  bu_phys : PhysicalMemory;
  bu_slaves : list (nat * SimpleMemory);
  bu_main : nat;
  bu_random : list Z;
}.

(** [recvAtomic] of the slave at port [i]. *)
Definition slave_atomic (slaves : list (nat * SimpleMemory)) (m : PhysicalMemory * list Z) (i : nat) (p : Packet)
    : result (Z * (PhysicalMemory * list Z) * Packet) :=
  let* '(k, sm) := deref (slaves !! i) in
  let rnd := hd 0 m.2 in
  let* '(pm, p) := on_memory m.1 k (fun a =>
    let* '(_, sm, p) := sm_recvAtomic (with_abstract sm a) rnd p in Ok (sm_abstract sm, p)) in
  Ok (if memInhibitAsserted p then 0 else getLatency sm rnd, (pm, tail m.2), p).

(** The packet goes through the crossbar; the request is told apart by nothing
    here, since atomic accesses leave no entry in the routing table. *)
Definition bus_sendAtomic (b : Bus) (p : Packet) : result (Z * Bus * Packet) :=
  let* '(lat, x, m, p) := xb_recvAtomic (slave_atomic (bu_slaves b)) (bu_xbar b) (bu_phys b, bu_random b) (mkTimed p 0 0 0) in
  Ok (lat, mkBus x m.1 (bu_slaves b) (bu_main b) m.2, tp_pkt p).

Definition with_phys (b : Bus) (pm : PhysicalMemory) : Bus :=
  mkBus (bu_xbar b) pm (bu_slaves b) (bu_main b) (bu_random b).

#[export] Instance Bus_port : MemPort Bus := {
  sendAtomic := bus_sendAtomic;
  payload_of _ lat := u32 lat;
  isMemAddr b a := let* '(r, pm) := pm_isMemAddr (bu_phys b) a in Ok (r, with_phys b pm);
  phys_access b p := let* '(pm, p) := pm_access (bu_phys b) p in Ok (with_phys b pm, p);
}.

(** ** The bus serves the memory the processor works in *)

Definition no_memory : AbstractMemory := mkAbstractMemory (AddrRange_plain 1 0) None [] [].

(** The memory behind the main port. *)
Definition main_memory (b : Bus) : AbstractMemory :=
  match bu_slaves b !! bu_main b with
  | Some (k, _) => from_option me_mem no_memory (pm_objs (bu_phys b) !! k)
  | None => no_memory
  end.

(** The main memory, [m], has announced its range, without stripes, to the
    crossbar, is in the map of the physical memory, and holds the bytes and
    reservations of [s]. *)
Record bus_at (b : Bus) (s : MemSpec) (ann : announced) (ps : PhysSpec) (k j : nat) (sm : SimpleMemory) (m : Memory) : Prop := {
  ba_route : route_ok (nx_route (bu_xbar b)) ann /\ gotAllAddrRanges (nx_route (bu_xbar b)) = true;
  ba_announced : getAddrRange m ∈ ann (Z.of_nat (bu_main b));
  ba_plain : interleaved (getAddrRange m) = false;
  ba_port : (bu_main b < length (reqLayers (bu_xbar b)))%nat;
  ba_slave : bu_slaves b !! bu_main b = Some (k, sm);
  ba_mapped : addrMap (bu_phys b) !! j = Some (getAddrRange m, k);
  ba_object : pm_objs (bu_phys b) !! k = Some m;
  ba_data : isNull m = false;
  ba_rep : phys_rep (bu_phys b) ps;
  ba_spec : mem_spec ps k = s;
}.

Definition bus_ok (b : Bus) (s : MemSpec) : Prop := exists ann ps k j sm m, bus_at b s ann ps k j sm m.

(** What a packet sees of the bus. *)
Definition same_main (b b' : Bus) : Prop := am_range (main_memory b') = am_range (main_memory b).

Section BusAt.
Context (b : Bus) (s : MemSpec) (ann : announced) (ps : PhysSpec) (k j : nat) (sm : SimpleMemory) (m : Memory).
Context (Hb : bus_at b s ann ps k j sm m).

Lemma main_here : main_memory b = me_mem m.
Proof. unfold main_memory. by rewrite (ba_slave _ _ _ _ _ _ _ _ Hb), (ba_object _ _ _ _ _ _ _ _ Hb). Qed.

Lemma main_range : range_ok (getAddrRange m).
Proof. destruct Hb as [[Hr _] Hi _ _ _ _ _ _ _ _]. apply (rt_ranges _ _ Hr _ _ Hi). Qed.

(** The bus after an operation of the physical memory that keeps its layout,
    and lookups in the crossbar. *)
Lemma bus_moves pm' ps' x' rnd :
  phys_rep pm' ps' -> same_config (bu_phys b) pm' ->
  route_ok (nx_route x') ann -> gotAllAddrRanges (nx_route x') = true -> reqLayers x' = reqLayers (bu_xbar b) ->
  let b' := mkBus x' pm' (bu_slaves b) (bu_main b) rnd in
  bus_ok b' (mem_spec ps' k) /\ same_main b b'.
Proof.
  intros HR HS Hr Hg Hl b'. pose proof HS as [E _].
  destruct (same_obj _ _ k m (same_sym _ _ HS) (ba_object _ _ _ _ _ _ _ _ Hb)) as (m' & Hm' & Esh).
  injection Esh as E1 E2 E3. assert (bus_at b' (mem_spec ps' k) ann ps' k j sm m') as Hb'.
  { destruct Hb. split; cbn; try done; by rewrite ?E, ?Hl, <- ?E1, <- ?E2. }
  split; [by exists ann, ps', k, j, sm, m'|]. unfold same_main. rewrite main_here. unfold main_memory. cbn.
  by rewrite (ba_slave _ _ _ _ _ _ _ _ Hb), Hm'.
Qed.

Context (p : Packet) (d : list Z) (Ha : asks (main_memory b) p d).

Lemma bus_asks : asks (me_mem m) p d.
Proof. by rewrite <- main_here. Qed.

Lemma bus_contains : contains (getAddrRange m) (addr p) = true.
Proof.
  apply contains_iff. rewrite (ba_plain _ _ _ _ _ _ _ _ Hb). split; [|done].
  pose proof (as_inside _ _ _ bus_asks). pose proof (po_region _ _ (as_pkt _ _ _ bus_asks)). unfold region, getAddrRange in *. lia.
Qed.

(** The access of the main memory. *)
Lemma bus_access :
  exists pm' p', on_memory (bu_phys b) k (fun m => access m p) = Ok (pm', p') /\
    (forall x' rnd, route_ok (nx_route x') ann -> gotAllAddrRanges (nx_route x') = true -> reqLayers x' = reqLayers (bu_xbar b) ->
      let b' := mkBus x' pm' (bu_slaves b) (bu_main b) rnd in bus_ok b' (sp_access s p d).1.1 /\ same_main b b') /\
    getAddr p = Ok (addr p) /\ data p' = Some (sp_access s p d).1.2 /\ answered p p' /\
    match (sp_access s p d).2 with
    | Some b => getExtraData (req p') = Ok (if b then 1 else 0)
    | None => req p' = req p
    end.
Proof.
  destruct (memory_step _ _ _ _ _ _ _ _ (ba_rep _ _ _ _ _ _ _ _ Hb) (ba_mapped _ _ _ _ _ _ _ _ Hb) (ba_object _ _ _ _ _ _ _ _ Hb)
    (ba_data _ _ _ _ _ _ _ _ Hb) bus_asks) as (pm' & p' & Hon & HR & HS & Hga & Hd & Hans & Hx).
  rewrite (ba_spec _ _ _ _ _ _ _ _ Hb) in *. exists pm', p'. split; [done|]. split; [|done].
  intros x' rnd H1 H2 H3. pose proof (bus_moves _ _ x' rnd HR HS H1 H2 H3) as Hm.
  assert (mem_spec (upd_spec ps k (sp_access s p d).1.1) k = (sp_access s p d).1.1) as E.
  { unfold mem_spec, upd_spec. cbn. rewrite decide_True by done. by destruct (sp_access s p d) as [[[] ?] ?]. }
  by rewrite E in Hm.
Qed.
End BusAt.

(** The two ways to the memory agree. *)
Lemma slave_atomic_ok sl i k sm pm rnd p pm' p' :
  sl !! i = Some (k, sm) -> on_memory pm k (fun m => access m p) = Ok (pm', p') ->
  exists lat, slave_atomic sl (pm, rnd) i p = Ok (lat, (pm', tail rnd), p').
Proof.
  intros Hs Hon. unfold slave_atomic. rewrite Hs. cbn [deref rbind fst snd].
  assert (on_memory pm k (fun a => let* '(_, sm0, p0) := sm_recvAtomic (with_abstract sm a) (hd 0 rnd) p in Ok (sm_abstract sm0, p0)) =
    on_memory pm k (fun m => access m p)) as ->.
  { unfold on_memory. destruct (pm_objs pm !! k) as [m|]; [|done]. cbn [deref rbind]. unfold sm_recvAtomic. cbn [sm_abstract with_abstract].
    by destruct (access (view pm m) p) as [[a q]|]. }
  rewrite Hon. cbn [rbind]. by eexists.
Qed.

Lemma bus_send_ok b s p d :
  bus_ok b s -> asks (main_memory b) p d ->
  exists lat b' p', bus_sendAtomic b p = Ok (lat, b', p') /\ bus_ok b' (sp_access s p d).1.1 /\ same_main b b' /\
    data p' = Some (sp_access s p d).1.2 /\ answered p p' /\
    match (sp_access s p d).2 with
    | Some b => getExtraData (req p') = Ok (if b then 1 else 0)
    | None => req p' = req p
    end.
Proof.
  intros (ann & ps & k & j & sm & m & Hb) Ha. pose proof (bus_contains _ _ _ _ _ _ _ _ Hb _ _ Ha) as Hc.
  destruct (bus_access _ _ _ _ _ _ _ _ Hb _ _ Ha) as (pm' & p' & Hon & Hbus & Hga & Hd & Hans & Hx).
  pose proof (as_pkt _ _ _ Ha) as Hp. destruct (ba_route _ _ _ _ _ _ _ _ Hb) as [Hr Hg].
  destruct (findPort_ok _ _ Hr (addr p) (Z.of_nat (bu_main b)) Hg (pkt_addr_u64 _ _ Hp)) as (c0 & c1 & c2 & Hf & Hr').
  { left. apply covered_elem. exists (getAddrRange m). split; [exact (ba_announced _ _ _ _ _ _ _ _ Hb)|done]. }
  destruct (slave_atomic_ok (bu_slaves b) (bu_main b) k sm (bu_phys b) (bu_random b) p pm' p') as (lat & Hsl); [exact (ba_slave _ _ _ _ _ _ _ _ Hb)|done|].
  destruct (lookup_lt_is_Some_2 _ _ (ba_port _ _ _ _ _ _ _ _ Hb)) as [l Hl].
  set (x' := with_route (bu_xbar b) (with_port_cache (nx_route (bu_xbar b)) c0 c1 c2)).
  exists lat, (mkBus x' pm' (bu_slaves b) (bu_main b) (tail (bu_random b))), p'. split.
  - unfold bus_sendAtomic, xb_recvAtomic, stat_size, getSize. cbn [tp_pkt]. rewrite (po_size _ _ Hp), Hga.
    destruct Hans as (_ & _ & _ & _ & _ & Hfl). pose proof (Hfl VALID_SIZE eq_refl) as Hsz. rewrite (po_size _ _ Hp) in Hsz.
    destruct (hasData (cmd p)); cbn [assert_ rbind]; rewrite Hf; cbn [rbind]; unfold port_index; rewrite (proj2 (Z.leb_le _ _)), Nat2Z.id by lia;
      cbn [rbind]; rewrite Hl; cbn [deref rbind]; rewrite Hsl; cbn [rbind]; rewrite Hsz;
      destruct (isResponse (cmd p')), (hasData (cmd p')); reflexivity.
  - destruct (Hbus x' (tail (bu_random b))) as [H1 H2]; done.
Qed.

Lemma bus_phys_ok b s p d :
  bus_ok b s -> asks (main_memory b) p d ->
  exists pm' p', pm_access (bu_phys b) p = Ok (pm', p') /\ bus_ok (with_phys b pm') (sp_access s p d).1.1 /\
    same_main b (with_phys b pm') /\ data p' = Some (sp_access s p d).1.2 /\ answered p p' /\
    match (sp_access s p d).2 with
    | Some b => getExtraData (req p') = Ok (if b then 1 else 0)
    | None => req p' = req p
    end.
Proof.
  intros (ann & ps & k & j & sm & m & Hb) Ha. pose proof (bus_contains _ _ _ _ _ _ _ _ Hb _ _ Ha) as Hc.
  destruct (bus_access _ _ _ _ _ _ _ _ Hb _ _ Ha) as (pm' & p' & Hon & Hbus & Hga & Hd & Hans & Hx).
  exists pm', p'. split.
  - unfold pm_access. pose proof (as_kind _ _ _ Ha) as [_ ->]%andb_true_iff. cbn [assert_ rbind]. rewrite Hga. cbn [rbind].
    rewrite (decode_entry _ _ (ba_rep _ _ _ _ _ _ _ _ Hb) j (getAddrRange m) k); [done|by eapply pkt_addr_u64, (as_pkt _ _ _ Ha)|exact (ba_mapped _ _ _ _ _ _ _ _ Hb)|done].
  - destruct (Hbus (bu_xbar b) (bu_random b)) as [H1 H2]; [apply (ba_route _ _ _ _ _ _ _ _ Hb)|apply (ba_route _ _ _ _ _ _ _ _ Hb)|done|done].
Qed.

Lemma bus_query_ok b s p d :
  bus_ok b s -> asks (main_memory b) p d ->
  exists r pm', pm_isMemAddr (bu_phys b) (addr p) = Ok (r, pm') /\ r = true /\ bus_ok (with_phys b pm') s /\ same_main b (with_phys b pm').
Proof.
  intros (ann & ps & k & j & sm & m & Hb) Ha. pose proof (bus_contains _ _ _ _ _ _ _ _ Hb _ _ Ha) as Hc.
  pose proof (ba_rep _ _ _ _ _ _ _ _ Hb) as HR.
  destruct (isMemAddr_ok _ _ HR (addr p)) as (pm' & Hm & Hpm); [by eapply pkt_addr_u64, (as_pkt _ _ _ Ha)|].
  rewrite (owner_entry _ _ _ _ _ (pr_tree _ _ HR) (ba_mapped _ _ _ _ _ _ _ _ Hb) Hc) in Hm.
  exists true, pm'. split; [done|]. split; [done|]. rewrite <- (ba_spec _ _ _ _ _ _ _ _ Hb).
  destruct (ba_route _ _ _ _ _ _ _ _ Hb). eapply bus_moves; try done; destruct Hpm as [->|[c ->]]; try done. by apply cache_rep.
Qed.

(** A processor may be connected to the bus. *)
#[export, refine] Instance Bus_port_laws : MemPortLaws Bus := {
  mp_spec := bus_ok;
  mp_asks b p d := asks (main_memory b) p d;
  mp_extent b := whole_extent (am_range (main_memory b));
  mp_fast := True;
}.
Proof.
  - intros b s (ann & ps & k & j & sm & m & Hb). rewrite (main_here _ _ _ _ _ _ _ _ Hb).
    destruct (main_range _ _ _ _ _ _ _ _ Hb) as [Hw _ _ _ _]. destruct Hw. unfold in_range, getAddrRange in *. cbn. lia.
  - intros b r c d H1 H2 H3 H4 H5 H6 (H7 & H8 & _) Hc. cbn in H7, H8.
    apply cpu_packet_asks; try (done || lia); by destruct Hc as [-> | ->].
  - intros b s p d Hb Ha. destruct (bus_send_ok _ _ _ _ Hb Ha) as (lat & b' & p' & He & Hb' & Hm & Hd & Hans & Hx).
    pose proof (as_kind _ _ _ Ha) as [_ Hq]%andb_true_iff. exists lat, b', p'. cbn. rewrite Hm. split_and!; try done. by apply answered_served.
  - intros b s p d _ Hb Ha. destruct (bus_query_ok _ _ _ _ Hb Ha) as (r & pm' & He & _ & Hb' & Hm).
    exists r, (with_phys b pm'). cbn [isMemAddr Bus_port]. rewrite He. cbn [rbind]. rewrite Hm. by split_and!.
  - intros b s p d _ Hb Ha. destruct (bus_phys_ok _ _ _ _ Hb Ha) as (pm' & p' & He & Hb' & Hm & Hd & Hans & Hx).
    pose proof (as_kind _ _ _ Ha) as [_ Hq]%andb_true_iff. exists (with_phys b pm'), p'. cbn [phys_access Bus_port].
    rewrite He. cbn [rbind]. rewrite Hm. split_and!; try done. by apply answered_served.
Defined.

(** ** Properties *)

(** A packet of the processor, by the fast path if it is asked for and the
    address is one of the physical memory, else through the crossbar. *)
Definition bus_access_by (fast : bool) (b : Bus) (p : Packet) : result (Bus * Packet) :=
  let* '(direct, b) := if fast then isMemAddr b (addr p) else Ok (false, b) in
  if direct : bool then phys_access b p else let* '(_, b, p) := sendAtomic b p in Ok (b, p).

Fixpoint bus_run (b : Bus) (ops : list (bool * Packet)) : result (Bus * list phys_out) :=
  match ops with
  | [] => Ok (b, [])
  | (fast, p) :: ops =>
      let* '(b, p') := bus_access_by fast b p in
      let* '(b, out) := bus_run b ops in
      Ok (b, answer p p' :: out)
  end.

(** One flat memory. *)
Fixpoint flat_run (s : MemSpec) (ps : list Packet) : list phys_out :=
  match ps with
  | [] => []
  | p :: ps =>
      let x := sp_access s p (default [] (data p)) in
      Answer x.1.2 x.2 :: flat_run x.1.1 ps
  end.

Lemma bus_access_ok fast b s p d :
  bus_ok b s -> asks (main_memory b) p d ->
  exists b' p', bus_access_by fast b p = Ok (b', p') /\ bus_ok b' (sp_access s p d).1.1 /\ same_main b b' /\
    answer p p' = Answer (sp_access s p d).1.2 (sp_access s p d).2.
Proof.
  intros Hb Ha. unfold bus_access_by. pose proof (as_kind _ _ _ Ha) as Hk.
  assert (forall b, bus_ok b s -> asks (main_memory b) p d ->
    exists b' p', (let* '(_, b, p) := sendAtomic b p in Ok (b, p)) = Ok (b', p') /\ bus_ok b' (sp_access s p d).1.1 /\ same_main b b' /\
      answer p p' = Answer (sp_access s p d).1.2 (sp_access s p d).2) as Hsend.
  { intros b0 Hb0 Ha0. destruct (bus_send_ok _ _ _ _ Hb0 Ha0) as (lat & b' & p' & He & ? & ? & ? & _ & ?). exists b', p'.
    cbn [sendAtomic Bus_port]. rewrite He. split_and!; try done. by apply answer_ok. }
  destruct fast; cbn [rbind]; [|by apply Hsend].
  destruct (bus_query_ok _ _ _ _ Hb Ha) as (r & pm' & Hq & -> & Hb1 & Hm1). cbn [isMemAddr Bus_port]. rewrite Hq. cbn [rbind].
  assert (asks (main_memory (with_phys b pm')) p d) as Ha1 by (by eapply asks_range).
  destruct (bus_phys_ok _ _ _ _ Hb1 Ha1) as (pm2 & p' & He & Hb2 & Hm2 & Hd & _ & Hx). cbn [phys_access Bus_port]. rewrite He. cbn [rbind].
  eexists _, p'. split; [reflexivity|]. split; [done|]. split; [unfold same_main in *; congruence|]. by apply answer_ok.
Qed.

Lemma bus_run_ok ops : forall b s,
  bus_ok b s -> Forall (fun o => exists d, asks (main_memory b) o.2 d) ops ->
  exists b', bus_run b ops = Ok (b', flat_run s ops.*2) /\ bus_ok b' (foldl (fun s p => (sp_access s p (default [] (data p))).1.1) s ops.*2).
Proof.
  induction ops as [|[fast p] ops IH]; intros b s Hb Hf; [by exists b|]. apply Forall_cons in Hf as [[d Ha] Hf]. cbn [snd] in Ha.
  destruct (bus_access_ok fast _ _ _ _ Hb Ha) as (b1 & p' & He & Hb1 & Hm & Hans). pose proof (po_data _ _ (as_pkt _ _ _ Ha)) as Hd.
  destruct (IH b1 _ Hb1) as (b2 & Hr & Hb2).
  { eapply Forall_impl; [exact Hf|]. intros o [d' Ho]. exists d'. by eapply asks_range. }
  exists b2. cbn. rewrite He. cbn [rbind]. rewrite Hr. cbn [rbind]. rewrite Hans, Hd. split; [done|]. done.
Qed.

(** A bus whose physical memory has been constructed and whose slaves have
    announced their ranges, in the state the constructor leaves. *)
Lemma bus_built granted ms n default_id use x ann slaves main rnd k sm m pm :
  system_ok granted ms -> built ms pm ->
  rtc route_step (new_route n default_id use, fun _ => []) (nx_route x, ann) -> gotAllAddrRanges (nx_route x) = true ->
  mapped ms k m -> isNull m = false -> interleaved (getAddrRange m) = false ->
  getAddrRange m ∈ ann (Z.of_nat main) -> (main < length (reqLayers x))%nat -> slaves !! main = Some (k, sm) ->
  bus_ok (mkBus x pm slaves main rnd) (mem_spec zero_spec k) /\
  am_range (main_memory (mkBus x pm slaves main rnd)) = getAddrRange m.
Proof.
  intros Hok Hbt Hr Hall Hm Hn Hp Han Hlt Hsl. destruct (reached_inv _ _ _ _ Hr) as [Hro _].
  assert ((getAddrRange m, k) ∈ addrMap pm) as [j Hj]%list_elem_of_lookup_1 by (apply (bt_entries _ _ Hbt); by exists m).
  destruct (same_objs_at _ _ _ _ (bt_objs _ _ Hbt) (proj1 Hm)) as (m' & Hm' & E). apply config_same in E as (E1 & E2 & _ & _ & E3).
  split.
  - exists ann, zero_spec, k, j, sm, m'. split; cbn; rewrite ?E2, ?E3; try done. apply Hbt.
  - unfold main_memory. cbn. rewrite Hsl, Hm'. cbn. exact E3.
Qed.

(** C32: The way of a packet cannot be observed: in a system whose physical memory
    the constructor has built and whose memories have announced their ranges to
    the crossbar, every sequence of packets of the processor for a memory, each
    through the crossbar or by the fast path to the physical memory, is answered
    as by one flat memory that starts with zeros, whichever ways are taken. *)
Theorem ways_agree granted ms n default_id use x ann slaves main rnd k sm m ops :
  system_ok granted ms ->
  rtc route_step (new_route n default_id use, fun _ => []) (nx_route x, ann) -> gotAllAddrRanges (nx_route x) = true ->
  mapped ms k m -> isNull m = false -> interleaved (getAddrRange m) = false ->
  getAddrRange m ∈ ann (Z.of_nat main) -> (main < length (reqLayers x))%nat -> slaves !! main = Some (k, sm) ->
  Forall (fun o => exists d, asks (me_mem m) o.2 d) ops ->
  exists pm b', PhysicalMemory_new granted ms = Ok pm /\
    bus_run (mkBus x pm slaves main rnd) ops = Ok (b', flat_run (mkMemSpec (fun _ => 0) ∅) ops.*2).
Proof.
  intros Hok Hr Hall Hm Hn Hp Han Hlt Hsl Hops. destruct (new_ok granted ms Hok) as (pm & Hnew & Hbt). exists pm.
  destruct (bus_built granted ms n default_id use x ann slaves main rnd k sm m pm) as [Hb Hrange]; try done.
  destruct (bus_run_ok ops _ _ Hb) as (b' & Hrun & _); [|by exists b'].
  eapply Forall_impl; [exact Hops|]. intros o [d Ha]. exists d. by eapply asks_range; [|exact Ha].
Qed.

(** A memory at 0x1000 and one at 0x3000; a store through the crossbar, a load by
    the fast path, a store by the fast path, a load through the crossbar. *)
Definition bus_memories : list Memory := [demo_mem (AddrRange_plain 0x3000 0x30ff); demo_mem (AddrRange_plain 0x1000 0x1fff)].
Definition bus_demo_xbar : NcXbar :=
  with_route (new_NcXbar false false 1 1 1 8 1000 [1%positive; 2%positive] [3%positive]) route2.
Definition bus_demo_ops : list (bool * Packet) :=
  [(false, demo_packet WriteReq 0x1004 0 [1; 2; 3; 4]); (true, demo_packet ReadReq 0x1004 0 [0; 0; 0; 0]);
   (true, demo_packet WriteReq 0x1006 0 [7; 8]); (false, demo_packet ReadReq 0x1004 0 [0; 0; 0; 0])].
Definition bus_demo_memory : SimpleMemory := mkSimpleMemory no_memory 30 0 dzero [] false false false 1 2 false 0.

Lemma bus_memories_ok : system_ok (fun _ => true) bus_memories.
Proof.
  assert (forall i m, mapped bus_memories i m ->
    (i = 0%nat /\ m = demo_mem (AddrRange_plain 0x3000 0x30ff)) \/ (i = 1%nat /\ m = demo_mem (AddrRange_plain 0x1000 0x1fff))) as H.
  { intros [|[|i]] m [Hi _]; [injection Hi as <-; auto..|done]. }
  split.
  - intros i m [(_ & ->)|(_ & ->)]%H; (split; [|by split_and!]); (split; [split|..]); unfold in_range;
      cbn [AddrRange_plain ar_start ar_end intlvBits intlvMatch demo_mem getAddrRange me_mem am_range]; lia || done.
  - intros i m j m' [(-> & ->)|(-> & ->)]%H [(-> & ->)|(-> & ->)]%H Hne; try done; right; unfold apart, in_bounds; cbn; lia.
  - by intros i m [(_ & ->)|(_ & ->)]%H.
  - intros [|[|i]] m Hi Hin; [by injection Hi as <-..|done].
  - by intros i m [(_ & ->)|(_ & ->)]%H.
Qed.

Lemma ways_agree_witness :
  exists pm b', PhysicalMemory_new (fun _ => true) bus_memories = Ok pm /\
    bus_run (mkBus bus_demo_xbar pm [(1%nat, bus_demo_memory); (0%nat, bus_demo_memory)] 0 []) bus_demo_ops =
      Ok (b', [Answer [1; 2; 3; 4] None; Answer [1; 2; 3; 4] None; Answer [7; 8] None; Answer [1; 2; 7; 8] None]).
Proof.
  destruct (ways_agree (fun _ => true) bus_memories 2 InvalidPortID false bus_demo_xbar ann2
    [(1%nat, bus_demo_memory); (0%nat, bus_demo_memory)] 0 [] 1 bus_demo_memory (demo_mem (AddrRange_plain 0x1000 0x1fff)) bus_demo_ops)
    as (pm & b' & H1 & H2); try done.
  - exact bus_memories_ok.
  - exact demo_reached.
  - apply (bool_decide_unpack _). vm_compute. exact I.
  - cbn. lia.
  - repeat constructor; eexists; apply cpu_packet_asks; try done; cbn; try lia; unfold region; lia.
  - exists pm, b'. split; [exact H1|exact H2].
Defined.
