(* ===== verification/CacheTags.v ===== *)
(** * Cache blocks and tag stores

    [mem/cache/blk.hh]: a cache block with its state bits and the load-locked
    accesses it remembers; and the set-associative tag stores
    [mem/cache/tags/base_set_assoc.hh], [base_set_assoc.cc], [cacheset.hh] with
    the replacement policies of [lru.cc] and [random_repl.cc].  A pointer to a
    block is its index in the array [blks]; the ways of a set are pointers, most
    recently used first.  The counters kept for statistics ([tagsInUse],
    [refCount], [occupancies], [isTouched], the task ids) are left out, with the
    assertions on their indices kept; the random numbers are those still to come. *)
From S2P Require Import Prelude Flags IntMath AddrRange Clock Packet AbstractMem.

(** ** Definitions: blk.hh *)

Definition BlkValid : Z := 0x01.
Definition BlkWritable : Z := 0x02.
Definition BlkReadable : Z := 0x04.
Definition BlkDirty : Z := 0x08.
Definition BlkSecure : Z := 0x40.

(** [CacheBlk::Lock]. *)
Record Lock := mkLock { lk_contextId : Z; lowAddr : Z; highAddr : Z }.

#[export] Instance Lock_eq_dec : EqDecision Lock.
Proof. solve_decision. Defined.

(** [low + req->getSize() - 1]. *)
Definition last_addr (r : Request) (low : Z) : result Z :=
  let* n := rq_getSize r in Ok (u64 (u64 (low + n) - 1)).

Definition new_Lock (r : Request) : result Lock :=
  let* c := contextId r in
  let* low := getPaddr r in
  let* high := last_addr r low in
  Ok (mkLock c low high).

Definition lk_matchesContext (l : Lock) (r : Request) : result bool :=
  let* req_low := getPaddr r in
  let* req_high := last_addr r req_low in
  let* c := contextId r in
  Ok ((lk_contextId l =? c) && (lowAddr l <=? req_low) && (req_high <=? highAddr l)).

Definition overlapping (l : Lock) (r : Request) : result bool :=
  let* req_low := getPaddr r in
  let* req_high := last_addr r req_low in
  Ok ((req_low <=? highAddr l) && (lowAddr l <=? req_high)).

Record CacheBlk := mkBlk {
  blk_tag : Z;
  blk_data : list Z;
  status : Z;
  whenReady : Z;
  blk_set : Z;
  srcMasterId : Z;
  lockList : list Lock;
}.

Definition with_status (b : CacheBlk) (s : Z) : CacheBlk :=
  mkBlk (blk_tag b) (blk_data b) s (whenReady b) (blk_set b) (srcMasterId b) (lockList b).
Definition with_blk_data (b : CacheBlk) (d : list Z) : CacheBlk :=
  mkBlk (blk_tag b) d (status b) (whenReady b) (blk_set b) (srcMasterId b) (lockList b).
Definition with_lockList (b : CacheBlk) (l : list Lock) : CacheBlk :=
  mkBlk (blk_tag b) (blk_data b) (status b) (whenReady b) (blk_set b) (srcMasterId b) l.
Definition with_whenReady (b : CacheBlk) (w : Z) : CacheBlk :=
  mkBlk (blk_tag b) (blk_data b) (status b) w (blk_set b) (srcMasterId b) (lockList b).
Definition with_owner (b : CacheBlk) (tag mid : Z) : CacheBlk :=
  mkBlk tag (blk_data b) (status b) (whenReady b) (blk_set b) mid (lockList b).

Definition isWritable (b : CacheBlk) : bool := flag_allSet (status b) (Z.lor BlkWritable BlkValid).
Definition isReadable (b : CacheBlk) : bool := flag_allSet (status b) (Z.lor BlkReadable BlkValid).
Definition isValid (b : CacheBlk) : bool := flag_isSet (status b) BlkValid.
Definition isDirty (b : CacheBlk) : bool := flag_isSet (status b) BlkDirty.
Definition blk_isSecure (b : CacheBlk) : bool := flag_isSet (status b) BlkSecure.

Definition set_status (b : CacheBlk) (f : Z) : CacheBlk := with_status b (flag_set (status b) f).
Definition clear_status (b : CacheBlk) (f : Z) : CacheBlk := with_status b (flag_clear_at 32 (status b) f).

(** [clearLoadLocks(req)]; without a request all locks go. *)
Fixpoint erase_overlapping (l : list Lock) (r : Request) : result (list Lock) :=
  match l with
  | [] => Ok []
  | x :: l =>
      let* o := overlapping x r in
      let* l := erase_overlapping l r in
      Ok (if o : bool then l else x :: l)
  end.

Definition clearLoadLocks (b : CacheBlk) (r : option Request) : result CacheBlk :=
  match r with
  | None => Ok (with_lockList b [])
  | Some r => let* l := erase_overlapping (lockList b) r in Ok (with_lockList b l)
  end.

(** [CacheBlk::invalidate()]. *)
Definition blk_invalidate (b : CacheBlk) : CacheBlk := with_lockList (with_status b 0) [].

Definition blk_trackLoadLocked (b : CacheBlk) (p : Packet) : result CacheBlk :=
  let* _ := assert_ (isLLSC (cmd p)) in
  let* l := new_Lock (req p) in
  Ok (with_lockList b (l :: lockList b)).

(** The loop of [checkWrite] for a matching lock. *)
Fixpoint any_match (l : list Lock) (r : Request) : result bool :=
  match l with
  | [] => Ok false
  | x :: l => let* m := lk_matchesContext x r in if m : bool then Ok true else any_match l r
  end.

(** [checkWrite(pkt)]: whether the write goes ahead. *)
Definition checkWrite (b : CacheBlk) (p : Packet) : result (bool * CacheBlk * Packet) :=
  if isLLSC (cmd p) then
    let* success := any_match (lockList b) (req p) in
    let p := set_extra p (if success then 1 else 0) in
    let* b := clearLoadLocks b (Some (req p)) in
    Ok (success, b, p)
  else
    let* b := clearLoadLocks b (Some (req p)) in
    Ok (true, b, p).

(** ** Definitions: cacheset.hh *)

(** [findBlk(tag, is_secure)]: the first way that matches. *)
Fixpoint findBlk (bs : list CacheBlk) (ways : list nat) (tag : Z) (is_secure : bool) : result (option nat) :=
  match ways with
  | [] => Ok None
  | i :: ways =>
      let* b := deref (bs !! i) in
      if (blk_tag b =? tag) && isValid b && eqb (blk_isSecure b) is_secure then Ok (Some i)
      else findBlk bs ways tag is_secure
  end.

(** The loop of [moveToHead]: [next] is written into each place and what was
    there is next, until that is the block moved; running out of ways is the
    failed assertion. *)
Fixpoint shift_in (next blk : nat) (ways : list nat) : result (list nat) :=
  match ways with
  | [] => Err Assert_failed
  | tmp :: ways =>
      if decide (tmp = blk) then Ok (next :: ways)
      else let* ways := shift_in tmp blk ways in Ok (next :: ways)
  end.

Definition moveToHead (ways : list nat) (blk : nat) : result (list nat) :=
  let* h := deref (head ways) in
  if decide (h = blk) then Ok ways else shift_in blk blk ways.

(** [moveToTail]: the same from the other end. *)
Definition moveToTail (ways : list nat) (blk : nat) : result (list nat) :=
  let* h := deref (last ways) in
  if decide (h = blk) then Ok ways
  else let* ways := shift_in blk blk (reverse ways) in Ok (reverse ways).

(** ** Definitions: base_set_assoc.hh, base_set_assoc.cc *)

Inductive Policy := LRU | RandomRepl.

Record Tags := mkTags {
  tg_policy : Policy;
  assoc : Z;
  numSets : Z;
  blkSize : Z;
  blkMask : Z;
  setShift : Z;
  setMask : Z;
  tagShift : Z;
  accessLatency : Z;
  maxMasters : Z;
  sets : list (list nat);
  blks : list CacheBlk;
  tg_random : list Z;
}.

Definition with_sets (t : Tags) (s : list (list nat)) : Tags :=
  mkTags (tg_policy t) (assoc t) (numSets t) (blkSize t) (blkMask t) (setShift t) (setMask t) (tagShift t)
    (accessLatency t) (maxMasters t) s (blks t) (tg_random t).
Definition with_blks (t : Tags) (b : list CacheBlk) : Tags :=
  mkTags (tg_policy t) (assoc t) (numSets t) (blkSize t) (blkMask t) (setShift t) (setMask t) (tagShift t)
    (accessLatency t) (maxMasters t) (sets t) b (tg_random t).
Definition with_random (t : Tags) (r : list Z) : Tags :=
  mkTags (tg_policy t) (assoc t) (numSets t) (blkSize t) (blkMask t) (setShift t) (setMask t) (tagShift t)
    (accessLatency t) (maxMasters t) (sets t) (blks t) r.

(** A block as the constructor leaves it: way [j] of set [i]. *)
Definition new_blk (block_size : Z) (i j : nat) : CacheBlk :=
  mkBlk (Z.of_nat j) (replicate (Z.to_nat block_size) 0) 0 0 (Z.of_nat i) invldMasterId [].

(** [BaseSetAssoc(p)]: block [i * assoc + j] becomes way [j] of set [i]; dividing
    by zero traps.  The numbers of blocks and of their bytes are computed with 32
    bits: where they wrap around, the arrays are too short for the blocks, whose
    pointers go astray. *)
Definition new_Tags (policy : Policy) (size block_size p_assoc hit_latency maxMasters : Z) (random : list Z) : result Tags :=
  if swrap 32 (block_size * p_assoc) =? 0 then Err Panic
  else
    let numSets := u32 (size / u64 (swrap 32 (block_size * p_assoc))) in
    let assoc := u32 p_assoc in
    let blkSize := u32 block_size in
    if (blkSize <? 4) || negb (isPowerOf2 blkSize) then Err Fatal
    else if (numSets <=? 0) || negb (isPowerOf2 numSets) then Err Fatal
    else if assoc <=? 0 then Err Fatal
    else
      let* setShift := floorLog2 blkSize in
      let* setBits := floorLog2 numSets in
      let numBlocks := u32 (numSets * assoc) in
      let* _ := (if (numBlocks =? numSets * assoc) && (u32 (numBlocks * blkSize) =? numBlocks * blkSize) then Ok tt
                 else Err Bad_pointer) in
      let a := Z.to_nat assoc in
      Ok (mkTags policy assoc numSets blkSize (blkSize - 1) setShift (numSets - 1) (setShift + setBits)
            hit_latency maxMasters
            ((fun i => seq (i * a) a) <$> seq 0 (Z.to_nat numSets))
            ((fun x => new_blk block_size (x / a) (x mod a)) <$> seq 0 (Z.to_nat numSets * a))
            random).

Definition extractTag (t : Tags) (addr : Z) : Z := Z.shiftr addr (tagShift t).
Definition extractSet (t : Tags) (addr : Z) : Z := swrap 32 (Z.land (Z.shiftr addr (setShift t)) (setMask t)).
Definition extractBlkOffset (t : Tags) (addr : Z) : Z := swrap 32 (Z.land addr (u64 (blkSize t - 1))).
Definition regenerateBlkAddr (t : Tags) (tag set : Z) : Z :=
  Z.lor (u64 (Z.shiftl tag (tagShift t))) (u64 (Z.shiftl (u32 set) (setShift t))).

(** The ways of a set, and their update. *)
Definition ways_of (t : Tags) (set : Z) : result (list nat) :=
  if 0 <=? set then deref (sets t !! Z.to_nat set) else Err Bad_pointer.
Definition set_ways (t : Tags) (set : Z) (ways : list nat) : result Tags :=
  let* s := upd (sets t) (Z.to_nat set) ways in Ok (with_sets t s).
Definition set_blk (t : Tags) (i : nat) (b : CacheBlk) : result Tags :=
  let* bs := upd (blks t) i b in Ok (with_blks t bs).

Definition findBlock (t : Tags) (addr : Z) (is_secure : bool) : result (option nat) :=
  let* ways := ways_of t (extractSet t addr) in
  findBlk (blks t) ways (extractTag t addr) is_secure.

Definition base_accessBlock (t : Tags) (now period addr : Z) (is_secure : bool) : result (option nat * Z) :=
  let* blk := findBlock t addr is_secure in
  match blk with
  | None => Ok (None, accessLatency t)
  | Some i =>
      let* b := deref (blks t !! i) in
      let wait := ticksToCycles period (u64 (whenReady b - now)) in
      Ok (blk, if (now <? whenReady b) && (accessLatency t <? wait) then wait else accessLatency t)
  end.

(** [BaseSetAssoc::findVictim(addr)]: the first invalid way, else the last. *)
Fixpoint invalid_way (bs : list CacheBlk) (blk : option nat) (ways : list nat) : result (option nat) :=
  match ways with
  | [] => Ok blk
  | i :: ways =>
      let* b := deref (bs !! i) in
      if negb (isValid b) then Ok (Some i) else invalid_way bs (Some i) ways
  end.

Definition base_insertBlock (t : Tags) (p : Packet) (i : nat) : result Tags :=
  let* addr := getAddr p in
  let master_id := _masterId (req p) in
  let* b := deref (blks t !! i) in
  let* b :=
    if isValid b then
      let* _ := assert_ (srcMasterId b <? maxMasters t) in Ok (blk_invalidate b)
    else Ok b in
  let* _ := assert_ (master_id <? maxMasters t) in
  set_blk t i (with_owner b (extractTag t addr) master_id).

Definition base_invalidate (t : Tags) (i : nat) : result Tags :=
  let* b := deref (blks t !! i) in
  let* _ := assert_ (isValid b) in
  let* _ := assert_ (srcMasterId b <? maxMasters t) in
  set_blk t i (with_owner b (blk_tag b) invldMasterId).

Definition clearLocks (t : Tags) : Tags := with_blks t ((fun b => with_lockList b []) <$> blks t).

(** ** Definitions: lru.cc, random_repl.cc *)

Definition accessBlock (t : Tags) (now period addr : Z) (is_secure : bool) : result (option nat * Z * Tags) :=
  let* '(blk, lat) := base_accessBlock t now period addr is_secure in
  match tg_policy t, blk with
  | LRU, Some i =>
      let* b := deref (blks t !! i) in
      let* ways := ways_of t (blk_set b) in
      let* ways := moveToHead ways i in
      let* t := set_ways t (blk_set b) ways in
      Ok (blk, lat, t)
  | _, _ => Ok (blk, lat, t)
  end.

Definition findVictim (t : Tags) (addr : Z) : result (nat * Tags) :=
  let* ways := ways_of t (extractSet t addr) in
  match tg_policy t with
  | LRU => let* i := deref (ways !! Z.to_nat (assoc t - 1)) in Ok (i, t)
  | RandomRepl =>
      let* blk := invalid_way (blks t) None ways in
      let* i := deref blk in
      let* b := deref (blks t !! i) in
      if isValid b then
        let idx := hd 0 (tg_random t) in
        let* _ := assert_ (idx <? assoc t) in
        let* _ := assert_ (0 <=? idx) in
        let* i := deref (ways !! Z.to_nat idx) in
        Ok (i, with_random t (tail (tg_random t)))
      else Ok (i, t)
  end.

Definition insertBlock (t : Tags) (p : Packet) (i : nat) : result Tags :=
  let* t := base_insertBlock t p i in
  match tg_policy t with
  | LRU =>
      let* addr := getAddr p in
      let* ways := ways_of t (extractSet t addr) in
      let* ways := moveToHead ways i in
      set_ways t (extractSet t addr) ways
  | RandomRepl => Ok t
  end.

Definition tg_invalidate (t : Tags) (i : nat) : result Tags :=
  let* t := base_invalidate t i in
  match tg_policy t with
  | LRU =>
      let* b := deref (blks t !! i) in
      let* ways := ways_of t (blk_set b) in
      let* ways := moveToTail ways i in
      set_ways t (blk_set b) ways
  | RandomRepl => Ok t
  end.

(** ** Moving blocks within a set *)

Lemma filter_ne_notin (b : nat) (l : list nat) : b ∉ l -> filter (fun x => x <> b) l = l.
Proof.
  induction l as [|x l IH]; [done|]. rewrite not_elem_of_cons. intros [Hx Hl]. rewrite filter_cons_True by done. by rewrite IH.
Qed.

Lemma shift_in_ok next b l : NoDup l -> b ∈ l -> shift_in next b l = Ok (next :: filter (fun x => x <> b) l).
Proof.
  revert next. induction l as [|x l IH]; intros next Hnd Hin; [by apply not_elem_of_nil in Hin|].
  apply NoDup_cons in Hnd as [Hx Hnd]. cbn [shift_in]. case_decide as E.
  - subst x. rewrite filter_cons_False, filter_ne_notin by naive_solver. done.
  - apply elem_of_cons in Hin as [->|Hin]; [done|]. rewrite IH by done. cbn [rbind]. by rewrite filter_cons_True.
Qed.

Lemma moveToHead_ok b l : NoDup l -> b ∈ l -> moveToHead l b = Ok (b :: filter (fun x => x <> b) l).
Proof.
  intros Hnd Hin. unfold moveToHead. destruct l as [|x l]; [by apply not_elem_of_nil in Hin|]. cbn [head deref rbind].
  case_decide as E; [|by apply shift_in_ok]. subst x. apply NoDup_cons in Hnd as [Hx _].
  rewrite filter_cons_False, filter_ne_notin by naive_solver. done.
Qed.

Lemma moveToTail_ok b (l : list nat) : NoDup l -> b ∈ l -> moveToTail l b = Ok (filter (fun x => x <> b) l ++ [b]).
Proof.
  intros Hnd Hin. unfold moveToTail. destruct l as [|x l] using rev_ind; [by apply not_elem_of_nil in Hin|clear IHl].
  rewrite last_snoc. cbn [deref rbind]. case_decide as E.
  - subst x. apply NoDup_app in Hnd as (_ & Hx & _). rewrite filter_app, filter_cons_False, filter_nil, app_nil_r by naive_solver.
    rewrite filter_ne_notin; [done|]. intros Hb. by apply (Hx b Hb), list_elem_of_singleton.
  - rewrite shift_in_ok by (by rewrite ?reverse_Permutation). cbn [rbind].
    by rewrite reverse_cons, filter_reverse, reverse_involutive.
Qed.

Lemma move_perm (b : nat) (l : list nat) : NoDup l -> b ∈ l -> b :: filter (fun x => x <> b) l ≡ₚ l.
Proof.
  intros Hnd Hin. apply list_elem_of_split in Hin as (l1 & l2 & ->).
  apply NoDup_app in Hnd as (_ & H1 & [H2 _]%NoDup_cons). rewrite filter_app, filter_cons_False by naive_solver.
  rewrite !filter_ne_notin; [by rewrite Permutation_middle|done|]. intros Hb. by apply (H1 b Hb), list_elem_of_here.
Qed.

(** ** Addresses *)

(** Blocks of [2 ^ k] bytes in [2 ^ s] sets. *)
Record geometry (t : Tags) (k s : Z) : Prop := {
  gm_k : 2 <= k <= 30;
  gm_s : 0 <= s <= 31;
  gm_blkSize : blkSize t = 2 ^ k;
  gm_setShift : setShift t = k;
  gm_setMask : setMask t = Z.ones s;
  gm_tagShift : tagShift t = k + s;
}.

(** The address of the block of [a]. *)
Definition base_of (k a : Z) : Z := a - a mod 2 ^ k.

Lemma base_of_div k a : 0 <= k -> base_of k a = 2 ^ k * (a / 2 ^ k).
Proof. intros Hk. unfold base_of. pose proof (Z.div_mod a (2 ^ k)). lia. Qed.

Section Geometry.
Context (t : Tags) (k s : Z) (G : geometry t k s).

Lemma extractTag_ok a : extractTag t a = a / 2 ^ (k + s).
Proof. unfold extractTag. rewrite (gm_tagShift _ _ _ G). pose proof (gm_k _ _ _ G). pose proof (gm_s _ _ _ G). by rewrite Z.shiftr_div_pow2 by lia. Qed.

Lemma extractSet_ok a : extractSet t a = (a / 2 ^ k) mod 2 ^ s.
Proof.
  pose proof (gm_k _ _ _ G). pose proof (gm_s _ _ _ G). unfold extractSet.
  rewrite (gm_setShift _ _ _ G), (gm_setMask _ _ _ G), Z.shiftr_div_pow2, Z.land_ones by lia.
  pose proof (Z.mod_pos_bound (a / 2 ^ k) (2 ^ s)). assert (2 ^ s <= 2 ^ 31) by (apply Z.pow_le_mono_r; lia). apply swrap_id; lia.
Qed.

Lemma set_bound a : 0 <= extractSet t a < 2 ^ s.
Proof. rewrite extractSet_ok. pose proof (gm_s _ _ _ G). apply Z.mod_pos_bound. lia. Qed.

Lemma tag_bound a : is_u64 a -> 0 <= extractTag t a < 2 ^ (64 - k - s).
Proof.
  intros Ha. rewrite extractTag_ok. pose proof (gm_k _ _ _ G). pose proof (gm_s _ _ _ G). unfold in_range in Ha.
  split; [apply Z.div_pos; lia|]. apply Z.div_lt_upper_bound; [lia|]. rewrite <- Z.pow_add_r by lia.
  replace (k + s + (64 - k - s)) with 64 by lia. lia.
Qed.

(** A tag and a set give the address of a block back. *)
Lemma regenerate_ok tag set :
  0 <= tag < 2 ^ (64 - k - s) -> 0 <= set < 2 ^ s -> regenerateBlkAddr t tag set = tag * 2 ^ (k + s) + set * 2 ^ k.
Proof.
  intros Ht Hs. pose proof (gm_k _ _ _ G). pose proof (gm_s _ _ _ G). unfold regenerateBlkAddr.
  assert (2 ^ (k + s) = 2 ^ k * 2 ^ s) as Eks by (rewrite Z.pow_add_r; lia).
  assert (2 ^ (64 - k - s) * 2 ^ (k + s) = 2 ^ 64) as E64 by (rewrite <- Z.pow_add_r by lia; f_equal; lia).
  assert (2 ^ s <= 2 ^ 31) by (apply Z.pow_le_mono_r; lia). assert (2 ^ k <= 2 ^ 30) by (apply Z.pow_le_mono_r; lia).
  rewrite (gm_tagShift _ _ _ G), (gm_setShift _ _ _ G), !Z.shiftl_mul_pow2 by lia.
  unfold u32. rewrite (wrap_small 32 set) by (unfold in_range; lia).
  rewrite !u64_small by (unfold in_range; nia). pose proof (Z.add_lor_land (tag * 2 ^ (k + s)) (set * 2 ^ k)).
  enough (Z.land (tag * 2 ^ (k + s)) (set * 2 ^ k) = 0) by lia.
  apply Z.bits_inj'. intros n Hn. rewrite Z.land_spec, Z.bits_0. destruct (decide (n < k + s)).
  - rewrite Z.mul_pow2_bits_low by lia. done.
  - rewrite andb_comm. rewrite (Z.bits_above_log2 (set * 2 ^ k)); [done|nia|].
    destruct (decide (set = 0)) as [->|]; [rewrite Z.mul_0_l; change (Z.log2 0) with 0; lia|]. apply Z.log2_lt_pow2; [nia|].
    apply Z.lt_le_trans with (2 ^ (k + s)); [nia|]. apply Z.pow_le_mono_r; lia.
Qed.

Lemma regenerate_extract a : is_u64 a -> regenerateBlkAddr t (extractTag t a) (extractSet t a) = base_of k a.
Proof.
  intros Ha. rewrite regenerate_ok by (by apply tag_bound || apply set_bound). pose proof (gm_k _ _ _ G). pose proof (gm_s _ _ _ G).
  rewrite extractTag_ok, extractSet_ok, base_of_div by lia.
  rewrite Z.pow_add_r, <- Z.div_div by lia. pose proof (Z.div_mod (a / 2 ^ k) (2 ^ s)). nia.
Qed.

Lemma extract_regenerate tag set :
  0 <= tag < 2 ^ (64 - k - s) -> 0 <= set < 2 ^ s ->
  extractTag t (regenerateBlkAddr t tag set) = tag /\ extractSet t (regenerateBlkAddr t tag set) = set.
Proof.
  intros Ht Hs. pose proof (gm_k _ _ _ G). pose proof (gm_s _ _ _ G). rewrite regenerate_ok, extractTag_ok, extractSet_ok by done.
  assert (2 ^ (k + s) = 2 ^ k * 2 ^ s) as Eks by (rewrite Z.pow_add_r; lia). split.
  - rewrite Z.add_comm, Z.div_add, Z.div_small by nia. lia.
  - rewrite Eks. replace (tag * (2 ^ k * 2 ^ s) + set * 2 ^ k) with ((set + tag * 2 ^ s) * 2 ^ k) by lia.
    rewrite Z.div_mul, Z.mod_add by lia. by apply Z.mod_small.
Qed.
End Geometry.

(** ** The invariant of a tag store *)

(** An invalid block has no state left; a valid one belongs to a master. *)
Record blk_wf (t : Tags) (k s : Z) (b : CacheBlk) : Prop := {
  bw_data : Z.of_nat (length (blk_data b)) = 2 ^ k;
  bw_idle : isValid b = false -> status b = 0 /\ lockList b = [];
  bw_owner : isValid b = true -> srcMasterId b < maxMasters t;
  bw_tag : isValid b = true -> 0 <= blk_tag b < 2 ^ (64 - k - s);
}.

(** The ways of a set are the blocks that belong to it, and no two valid blocks
    of a set are for the same address. *)
Record tags_wf (t : Tags) (k s : Z) : Prop := {
  tw_geo : geometry t k s;
  tw_assoc : 1 <= assoc t;
  tw_random : Forall (fun x => 0 <= x < assoc t) (tg_random t);
  tw_sets : Z.of_nat (length (sets t)) = 2 ^ s;
  tw_ways n ways : sets t !! n = Some ways -> Z.of_nat (length ways) = assoc t /\ NoDup ways;
  tw_in n ways i : sets t !! n = Some ways -> i ∈ ways <-> exists b, blks t !! i = Some b /\ blk_set b = Z.of_nat n;
  tw_set i b : blks t !! i = Some b -> 0 <= blk_set b < 2 ^ s;
  tw_blk i b : blks t !! i = Some b -> blk_wf t k s b;
  tw_unique i j b b' : blks t !! i = Some b -> blks t !! j = Some b' -> isValid b = true -> isValid b' = true ->
    blk_set b = blk_set b' -> blk_tag b = blk_tag b' -> blk_isSecure b = blk_isSecure b' -> i = j;
}.

(** Block [b] is for the address [a]. *)
Definition is_for (t : Tags) (a : Z) (sec : bool) (b : CacheBlk) : Prop :=
  isValid b = true /\ blk_tag b = extractTag t a /\ blk_set b = extractSet t a /\ blk_isSecure b = sec.

Section TagLemmas.
Context (t : Tags) (k s : Z) (W : tags_wf t k s).

Lemma ways_of_ok n : 0 <= n < 2 ^ s ->
  exists ways, ways_of t n = Ok ways /\ sets t !! Z.to_nat n = Some ways /\ NoDup ways /\ Z.of_nat (length ways) = assoc t /\
    forall i, i ∈ ways <-> exists b, blks t !! i = Some b /\ blk_set b = n.
Proof.
  intros Hn. destruct (lookup_lt_is_Some_2 (sets t) (Z.to_nat n)) as [ways Hw]; [pose proof (tw_sets _ _ _ W); lia|].
  exists ways. unfold ways_of. rewrite (proj2 (Z.leb_le 0 n)), Hw by lia. destruct (tw_ways _ _ _ W _ _ Hw).
  split_and!; try done. intros i. rewrite (tw_in _ _ _ W _ _ i Hw). by rewrite Z2Nat.id by lia.
Qed.

Lemma findBlk_ok bs ways tag sec :
  Forall (fun i => is_Some (bs !! i)) ways ->
  exists o, findBlk bs ways tag sec = Ok o /\
    match o with
    | Some i => i ∈ ways /\ exists b, bs !! i = Some b /\ blk_tag b = tag /\ isValid b = true /\ blk_isSecure b = sec
    | None => forall i b, i ∈ ways -> bs !! i = Some b -> ~ (blk_tag b = tag /\ isValid b = true /\ blk_isSecure b = sec)
    end.
Proof.
  induction 1 as [|i ways [b Hb] Hf (o & He & Ho)]; cbn [findBlk].
  { exists None. split; [done|]. intros i b Hi. by apply not_elem_of_nil in Hi. }
  rewrite Hb. cbn [deref rbind]. destruct ((blk_tag b =? tag) && isValid b && eqb (blk_isSecure b) sec) eqn:E.
  - exists (Some i). rewrite !andb_true_iff, Z.eqb_eq, eqb_true_iff in E. split; [done|]. split; [apply list_elem_of_here|].
    exists b. naive_solver.
  - exists o. split; [done|]. destruct o as [j|].
    + destruct Ho as [Hj ?]. split; [by apply list_elem_of_further|done].
    + intros j b' Hj Hb'. apply elem_of_cons in Hj as [->|Hj]; [|by eapply Ho]. rewrite Hb in Hb'. injection Hb' as <-.
      intros (E1 & E2 & E3). rewrite E1, E2, E3, Z.eqb_refl, eqb_reflx in E. done.
Qed.

(** The lookup is exact. *)
Lemma findBlock_ok a sec :
  exists o, findBlock t a sec = Ok o /\
    match o with
    | Some i => exists b, blks t !! i = Some b /\ is_for t a sec b
    | None => forall i b, blks t !! i = Some b -> ~ is_for t a sec b
    end.
Proof.
  destruct (ways_of_ok _ (set_bound _ _ _ (tw_geo _ _ _ W) a)) as (ways & Hw & _ & _ & _ & Hin).
  destruct (findBlk_ok (blks t) ways (extractTag t a) sec) as (o & Ho & Hs).
  { apply Forall_forall. intros i Hi. apply Hin in Hi as (b & -> & _). done. }
  exists o. unfold findBlock. rewrite Hw. cbn [rbind]. split; [done|]. destruct o as [i|].
  - destruct Hs as (Hi & b & Hb & ? & ? & ?). exists b. apply Hin in Hi as (b' & Hb' & ?). rewrite Hb in Hb'. injection Hb' as <-. done.
  - intros i b Hb (H1 & H2 & H3 & H4). apply (Hs i b); [|done..]. apply Hin. by exists b.
Qed.

Lemma is_for_unique a sec i j b b' :
  blks t !! i = Some b -> blks t !! j = Some b' -> is_for t a sec b -> is_for t a sec b' -> i = j.
Proof. intros Hb Hb' (? & ? & ? & ?) (? & ? & ? & ?). eapply (tw_unique _ _ _ W); eauto; congruence. Qed.

(** In terms of addresses. *)
Lemma is_for_base a sec i b : is_u64 a -> blks t !! i = Some b ->
  is_for t a sec b <-> isValid b = true /\ blk_isSecure b = sec /\ regenerateBlkAddr t (blk_tag b) (blk_set b) = base_of k a.
Proof.
  intros Ha Hb. pose proof (tw_geo _ _ _ W) as G. split.
  - intros (H1 & H2 & H3 & H4). split_and!; try done. rewrite H2, H3. by apply regenerate_extract with s.
  - intros (H1 & H4 & H2). destruct (extract_regenerate _ _ _ G (blk_tag b) (blk_set b)) as [E1 E2];
      [by apply (bw_tag _ _ _ _ (tw_blk _ _ _ W _ _ Hb))|by apply (tw_set _ _ _ W i)|].
    rewrite <- (regenerate_extract _ _ _ G a Ha) in H2. rewrite H2 in E1, E2.
    destruct (extract_regenerate _ _ _ G _ _ (tag_bound _ _ _ G a Ha) (set_bound _ _ _ G a)) as [E3 E4].
    split_and!; try done; congruence.
Qed.

(** ** Updates *)

(** A block may change as long as it stays the only one for its address. *)
Lemma wf_blk i b b' :
  blks t !! i = Some b -> blk_set b' = blk_set b -> blk_wf t k s b' ->
  (isValid b' = true -> forall j c, j <> i -> blks t !! j = Some c -> isValid c = true -> blk_set c = blk_set b ->
     ~ (blk_tag c = blk_tag b' /\ blk_isSecure c = blk_isSecure b')) ->
  tags_wf (with_blks t (<[i := b']> (blks t))) k s.
Proof.
  intros Hb Hs Hw Hu. pose proof (lookup_lt_Some _ _ _ Hb) as Hlt.
  assert (forall j c, <[i := b']> (blks t) !! j = Some c -> (j = i /\ c = b') \/ (j <> i /\ blks t !! j = Some c)) as Hl.
  { intros j c. destruct (decide (j = i)) as [->|]; [rewrite list_lookup_insert_eq by done; naive_solver|].
    rewrite list_lookup_insert_ne by done. auto. }
  destruct W as [G Ha Hr Hse Hwa Hin Hset Hblk Huq]. split; try done.
  - by destruct G.
  - intros n ways j Hn. rewrite (Hin _ _ j Hn). cbn. split.
    + intros (c & Hc & E). destruct (decide (j = i)) as [->|]; [|exists c; by rewrite list_lookup_insert_ne].
      exists b'. rewrite list_lookup_insert_eq by done. split; [done|]. congruence.
    + intros (c & [(-> & ->)|(? & Hc)]%Hl & E); [exists b; split; [done|congruence]|by exists c].
  - intros j c [(-> & ->)|(_ & Hc)]%Hl; [rewrite Hs|]; by eapply Hset.
  - intros j c [(-> & ->)|(_ & Hc)]%Hl; [destruct Hw; by split|]. destruct (Hblk _ _ Hc); by split.
  - intros j1 j2 c1 c2 [(-> & ->)|(Hn1 & Hc1)]%Hl [(-> & ->)|(Hn2 & Hc2)]%Hl V1 V2 E1 E2 E3; [done| | |by eapply Huq].
    + exfalso. apply (Hu V1 j2 c2 Hn2 Hc2 V2); [congruence|done].
    + exfalso. apply (Hu V2 j1 c1 Hn1 Hc1 V1); [congruence|done].
Qed.

Lemma wf_ways n ways ways' :
  sets t !! n = Some ways -> ways' ≡ₚ ways -> tags_wf (with_sets t (<[n := ways']> (sets t))) k s.
Proof.
  intros Hn Hp. pose proof (lookup_lt_Some _ _ _ Hn) as Hlt.
  assert (forall m w, <[n := ways']> (sets t) !! m = Some w -> exists w', sets t !! m = Some w' /\ w ≡ₚ w') as Hl.
  { intros m w. destruct (decide (m = n)) as [->|].
    - rewrite list_lookup_insert_eq by done. intros [= <-]. by exists ways.
    - rewrite list_lookup_insert_ne by done. by exists w. }
  destruct W as [G Ha Hr Hse Hwa Hin Hset Hblk Huq]. split; try done.
  - by destruct G.
  - cbn. by rewrite length_insert.
  - intros m w (w' & Hw' & E)%Hl. rewrite E. by eapply Hwa.
  - intros m w j (w' & Hw' & E)%Hl. rewrite E. by apply Hin.
  - intros j c Hc. destruct (Hblk _ _ Hc); by split.
Qed.
End TagLemmas.

(** ** What the operations do *)

(** The block moved to the front, and to the end, of its set. *)
Definition promote (t : Tags) (n : Z) (i : nat) : Tags :=
  match tg_policy t with
  | LRU => with_sets t (alter (fun ways => i :: filter (fun x => x <> i) ways) (Z.to_nat n) (sets t))
  | RandomRepl => t
  end.
Definition demote (t : Tags) (n : Z) (i : nat) : Tags :=
  match tg_policy t with
  | LRU => with_sets t (alter (fun ways => filter (fun x => x <> i) ways ++ [i]) (Z.to_nat n) (sets t))
  | RandomRepl => t
  end.

(** The block of a new address, still without a state. *)
Definition renewed (t : Tags) (b : CacheBlk) (a mid : Z) : CacheBlk := with_owner (blk_invalidate b) (extractTag t a) mid.
Definition dropped (b : CacheBlk) : CacheBlk := blk_invalidate (with_owner b (blk_tag b) invldMasterId).

(** [tags->invalidate(blk); blk->invalidate()]. *)
Definition drop_blk (t : Tags) (i : nat) : result Tags :=
  let* t := tg_invalidate t i in
  let* b := deref (blks t !! i) in
  set_blk t i (blk_invalidate b).

Lemma list_alter_at {A} (f : A -> A) (l : list A) n x : l !! n = Some x -> alter f n l = <[n := f x]> l.
Proof. revert n. induction l as [|y l IH]; intros [|n] Hx; try done; cbn in *; [by injection Hx as -> | f_equal; by apply IH]. Qed.

Lemma set_blk_ok t i b b' : blks t !! i = Some b -> set_blk t i b' = Ok (with_blks t (<[i := b']> (blks t))).
Proof. intros Hb. unfold set_blk. rewrite (proj2 (upd_ok _ _ _ (<[i := b']> (blks t)))); [done|]. split; [by eapply lookup_lt_Some|done]. Qed.

Section TagMoves.
Context (t : Tags) (k s : Z) (W : tags_wf t k s).

Lemma promote_wf n i b : blks t !! i = Some b -> blk_set b = n -> tags_wf (promote t n i) k s.
Proof.
  intros Hb <-. unfold promote. destruct (tg_policy t); [|done].
  destruct (ways_of_ok _ _ _ W _ (tw_set _ _ _ W _ _ Hb)) as (ways & _ & Hw & Hnd & _ & Hin).
  rewrite (list_alter_at _ _ _ _ Hw). eapply wf_ways; [done|exact Hw|]. apply move_perm; [done|]. apply Hin. eauto.
Qed.

Lemma demote_wf n i b : blks t !! i = Some b -> blk_set b = n -> tags_wf (demote t n i) k s.
Proof.
  intros Hb <-. unfold demote. destruct (tg_policy t); [|done].
  destruct (ways_of_ok _ _ _ W _ (tw_set _ _ _ W _ _ Hb)) as (ways & _ & Hw & Hnd & _ & Hin).
  rewrite (list_alter_at _ _ _ _ Hw). eapply wf_ways; [done|exact Hw|].
  rewrite (Permutation_app_comm _ [i]). apply move_perm; [done|]. apply Hin. eauto.
Qed.

(** The code of a move to the front. *)
Lemma to_head n i b :
  blks t !! i = Some b -> blk_set b = n -> tg_policy t = LRU ->
  (let* ways := ways_of t n in let* ways := moveToHead ways i in set_ways t n ways) = Ok (promote t n i).
Proof.
  intros Hb <- Hpol. destruct (ways_of_ok _ _ _ W _ (tw_set _ _ _ W _ _ Hb)) as (ways & -> & Hw & Hnd & _ & Hin). cbn [rbind].
  rewrite moveToHead_ok by (done || (apply Hin; eauto)). cbn [rbind]. unfold set_ways, promote. rewrite Hpol.
  rewrite (proj2 (upd_ok _ _ _ (<[_ := _]> (sets t)))) by (split; [by eapply lookup_lt_Some|done]). cbn [rbind]. by rewrite (list_alter_at _ _ _ _ Hw).
Qed.

Lemma to_tail n i b :
  blks t !! i = Some b -> blk_set b = n -> tg_policy t = LRU ->
  (let* ways := ways_of t n in let* ways := moveToTail ways i in set_ways t n ways) = Ok (demote t n i).
Proof.
  intros Hb <- Hpol. destruct (ways_of_ok _ _ _ W _ (tw_set _ _ _ W _ _ Hb)) as (ways & -> & Hw & Hnd & _ & Hin). cbn [rbind].
  rewrite moveToTail_ok by (done || (apply Hin; eauto)). cbn [rbind]. unfold set_ways, demote. rewrite Hpol.
  rewrite (proj2 (upd_ok _ _ _ (<[_ := _]> (sets t)))) by (split; [by eapply lookup_lt_Some|done]). cbn [rbind]. by rewrite (list_alter_at _ _ _ _ Hw).
Qed.

End TagMoves.

Section TagOps.
Context (t : Tags) (k s : Z) (W : tags_wf t k s).

Lemma accessBlock_ok now period a sec :
  exists o lat, accessBlock t now period a sec =
      Ok (o, lat, match o with Some i => promote t (extractSet t a) i | None => t end) /\
    match o with
    | Some i => exists b, blks t !! i = Some b /\ is_for t a sec b
    | None => forall i b, blks t !! i = Some b -> ~ is_for t a sec b
    end.
Proof.
  destruct (findBlock_ok _ _ _ W a sec) as (o & Ho & Hs). exists o. unfold accessBlock, base_accessBlock. rewrite Ho. cbn [rbind].
  destruct o as [i|].
  - destruct Hs as (b & Hb & Hf). rewrite Hb. cbn [deref rbind]. eexists. split; [|by exists b]. destruct (tg_policy t) eqn:Hpol.
    + cbn [deref rbind]. rewrite ?Hb. cbn [deref rbind]. pose proof Hf as (_ & _ & Es & _). pose proof (to_head _ _ _ W _ _ _ Hb Es Hpol) as Hh. rewrite Es. unfold promote in *. rewrite Hpol in *.
      destruct (ways_of t (extractSet t a)) as [ways|]; [|done]. cbn [rbind] in *. destruct (moveToHead ways i) as [ways'|]; [|done].
      cbn [rbind] in *. by rewrite Hh.
    + unfold promote. by rewrite Hpol.
  - eexists. split; [|done]. by destruct (tg_policy t).
Qed.

Lemma random_wf r : Forall (fun x => 0 <= x < assoc t) r -> tags_wf (with_random t r) k s.
Proof. destruct W as [G ? ? ? ? ? ? Hb ?]. split; try done; [by destruct G|]. intros i b Hi. destruct (Hb _ _ Hi). by split. Qed.

Lemma invalid_way_ok ways o :
  Forall (fun i => is_Some (blks t !! i)) ways ->
  exists o', invalid_way (blks t) o ways = Ok o' /\ (o' = o \/ exists i, o' = Some i /\ i ∈ ways) /\ (ways <> [] -> is_Some o').
Proof.
  intros Hf. revert o. induction Hf as [|i ways [b Hb] Hf IH]; intros o; cbn [invalid_way]; [exists o; naive_solver|].
  rewrite Hb. cbn [deref rbind]. destruct (isValid b); cbn [negb].
  - destruct (IH (Some i)) as (o' & -> & Ho & Hne). exists o'. split; [done|]. destruct Ho as [-> |(j & -> & Hj)].
    + split; [right; exists i; split; [done|apply list_elem_of_here]|done].
    + split; [right; exists j; split; [done|by apply list_elem_of_further]|done].
  - exists (Some i). split; [done|]. split; [right; exists i; split; [done|apply list_elem_of_here]|done].
Qed.

(** A victim belongs to the set of the address. *)
Lemma findVictim_ok a :
  exists i r b, findVictim t a = Ok (i, with_random t r) /\ tags_wf (with_random t r) k s /\
    blks t !! i = Some b /\ blk_set b = extractSet t a /\
    (tg_policy t = LRU -> r = tg_random t /\ exists ways, sets t !! Z.to_nat (extractSet t a) = Some ways /\ last ways = Some i).
Proof.
  destruct (ways_of_ok _ _ _ W _ (set_bound _ _ _ (tw_geo _ _ _ W) a)) as (ways & Hw & Hl & _ & Hlen & Hin).
  unfold findVictim. rewrite Hw. cbn [rbind]. pose proof (tw_assoc _ _ _ W) as Ha. pose proof (tw_random _ _ _ W) as Hr.
  assert (t = with_random t (tg_random t)) as Et by (by destruct t).
  destruct (tg_policy t) eqn:Hpol.
  - destruct (lookup_lt_is_Some_2 ways (Z.to_nat (assoc t - 1))) as [i Hi]; [lia|]. rewrite Hi. cbn [deref rbind].
    destruct (proj1 (Hin i)) as (b & Hb & Es); [by eapply list_elem_of_lookup_2|].
    exists i, (tg_random t), b. rewrite <- Et. split_and!; try done. intros _. split; [done|]. exists ways. split; [done|].
    rewrite last_lookup. by replace (Nat.pred (length ways)) with (Z.to_nat (assoc t - 1)) by lia.
  - destruct (invalid_way_ok ways None) as (o & -> & Ho & Hne).
    { apply Forall_forall. intros j (c & -> & _)%Hin. done. }
    destruct (Hne ltac:(intros ->; cbn in Hlen; lia)) as [i ->]. destruct Ho as [|(i' & [= <-] & Hi)]; [done|]. cbn [deref rbind].
    destruct (proj1 (Hin i) Hi) as (b & Hb & Es). rewrite Hb. cbn [deref rbind]. destruct (isValid b).
    + assert (0 <= hd 0 (tg_random t) < assoc t) as Hidx by (destruct Hr; cbn; [lia|done]).
      rewrite (proj2 (Z.ltb_lt _ _)), (proj2 (Z.leb_le _ _)) by lia. cbn [assert_ rbind].
      destruct (lookup_lt_is_Some_2 ways (Z.to_nat (hd 0 (tg_random t)))) as [j Hj]; [lia|]. rewrite Hj. cbn [deref rbind].
      destruct (proj1 (Hin j)) as (c & Hc & Ec); [by eapply list_elem_of_lookup_2|].
      exists j, (tail (tg_random t)), c. split; [done|]. split; [apply random_wf; by destruct Hr|done].
    + exists i, (tg_random t), b. rewrite <- Et. done.
Qed.

Lemma renewed_wf a mid i b :
  blks t !! i = Some b -> tags_wf (with_blks t (<[i := renewed t b a mid]> (blks t))) k s.
Proof.
  intros Hb. eapply wf_blk; [done|exact Hb|done| |done]. destruct (tw_blk _ _ _ W _ _ Hb). by split.
Qed.

Lemma insertBlock_ok p i a b :
  getAddr p = Ok a -> blks t !! i = Some b -> blk_set b = extractSet t a -> _masterId (req p) < maxMasters t ->
  let t' := promote (with_blks t (<[i := renewed t b a (_masterId (req p))]> (blks t))) (extractSet t a) i in
  insertBlock t p i = Ok t' /\ tags_wf t' k s.
Proof.
  intros Ha Hb Es Hm t'. unfold insertBlock, base_insertBlock. rewrite Ha, Hb. cbn [deref rbind].
  assert ((if isValid b then let* _ := assert_ (srcMasterId b <? maxMasters t) in Ok (blk_invalidate b) else Ok b) = Ok (blk_invalidate b)) as ->.
  { destruct (isValid b) eqn:V.
    - pose proof (bw_owner _ _ _ _ (tw_blk _ _ _ W _ _ Hb) V). by rewrite (proj2 (Z.ltb_lt _ _)) by lia.
    - destruct (bw_idle _ _ _ _ (tw_blk _ _ _ W _ _ Hb) V) as [E1 E2]. unfold blk_invalidate, with_lockList, with_status. destruct b. cbn in *. by subst. }
  cbn [rbind]. rewrite (proj2 (Z.ltb_lt _ _)) by lia. cbn [assert_ rbind]. rewrite (set_blk_ok _ _ _ _ Hb). cbn [rbind].
  fold (renewed t b a (_masterId (req p))). set (t1 := with_blks t _) in *.
  pose proof (renewed_wf a (_masterId (req p)) _ _ Hb) as W1. fold t1 in W1.
  assert (blks t1 !! i = Some (renewed t b a (_masterId (req p)))) as Hb1 by (apply list_lookup_insert_eq; by eapply lookup_lt_Some).
  change (tg_policy t1) with (tg_policy t). change (extractSet t1 a) with (extractSet t a).
  split; [|by eapply promote_wf]. destruct (tg_policy t) eqn:Hpol; [|unfold t', promote; change (tg_policy t1) with (tg_policy t); by rewrite Hpol].
  exact (to_head t1 _ _ W1 _ _ _ Hb1 Es Hpol).
Qed.

Lemma drop_blk_ok i b :
  blks t !! i = Some b -> isValid b = true ->
  let t' := demote (with_blks t (<[i := dropped b]> (blks t))) (blk_set b) i in
  drop_blk t i = Ok t' /\ tags_wf t' k s.
Proof.
  intros Hb V t'. pose proof (lookup_lt_Some _ _ _ Hb) as Hlt. unfold drop_blk, tg_invalidate, base_invalidate. rewrite Hb. cbn [deref rbind].
  pose proof (bw_owner _ _ _ _ (tw_blk _ _ _ W _ _ Hb) V). rewrite V, (proj2 (Z.ltb_lt _ _)) by lia. cbn [assert_ rbind].
  rewrite (set_blk_ok _ _ _ _ Hb). cbn [rbind]. set (b1 := with_owner b (blk_tag b) invldMasterId).
  assert (tags_wf (with_blks t (<[i := dropped b]> (blks t))) k s) as W2.
  { eapply wf_blk; [done|exact Hb|done| |done]. destruct (tw_blk _ _ _ W _ _ Hb). by split. }
  assert (forall b', <[i := b']> (blks t) !! i = Some b') as Hins by (intros; by apply list_lookup_insert_eq).
  split; [|by eapply demote_wf; [exact W2|apply Hins|]].
  change (tg_policy (with_blks t _)) with (tg_policy t). destruct (tg_policy t) eqn:Hpol.
  - cbn [blks with_blks]. rewrite Hins. cbn [deref rbind]. change (blk_set b1) with (blk_set b).
    pose proof (to_tail _ _ _ W2 (blk_set b) i _ (Hins _) eq_refl Hpol) as Ht.
    change (ways_of (with_blks t (<[i:=dropped b]> (blks t)))) with (ways_of t) in Ht.
    change (ways_of (with_blks t (<[i:=b1]> (blks t)))) with (ways_of t).
    destruct (ways_of t (blk_set b)) as [ways|]; [|done]. cbn [rbind] in *. destruct (moveToTail ways i) as [ways'|]; [|done].
    cbn [rbind] in *. unfold set_ways in *. cbn [sets with_blks] in *. destruct (upd (sets t) (Z.to_nat (blk_set b)) ways') as [S|]; [|done].
    cbn [rbind] in *. injection Ht as Ht. cbn [blks with_sets with_blks]. rewrite Hins. cbn [deref rbind]. unfold set_blk.
    cbn [blks with_sets with_blks]. rewrite (proj2 (upd_ok _ _ _ (<[i := dropped b]> (blks t)))); [|split; [by rewrite length_insert|by rewrite list_insert_insert_eq]].
    cbn [rbind]. f_equal. exact Ht.
  - cbn [rbind blks with_blks]. rewrite Hins. cbn [deref rbind]. unfold set_blk. cbn [blks with_blks].
    rewrite (proj2 (upd_ok _ _ _ (<[i := dropped b]> (blks t)))); [|split; [by rewrite length_insert|by rewrite list_insert_insert_eq]].
    cbn [rbind]. unfold t', demote. cbn [tg_policy with_blks]. by rewrite Hpol.
Qed.
End TagOps.

(** ** Construction *)

Lemma small_powers n : 0 <= n <= 31 -> isPowerOf2 (2 ^ n) = true.
Proof.
  intros Hn. assert (forallb (fun i => isPowerOf2 (2 ^ Z.of_nat i)) (seq 0 32) = true) as H by (vm_compute; reflexivity).
  rewrite forallb_forall in H. rewrite <- (Z2Nat.id n) by lia. apply H. apply in_seq. lia.
Qed.

Lemma div_range a i n : (0 < a)%nat -> (i / a = n <-> n * a <= i < n * a + a)%nat.
Proof.
  intros Ha. pose proof (Nat.div_mod_eq i a). pose proof (Nat.mod_upper_bound i a ltac:(lia)). split; [nia|]. intros Hi.
  symmetry. apply (Nat.div_unique i a n (i - n * a)); lia.
Qed.

(** The checks of the constructor for [2 ^ s] sets of [a] blocks of [2 ^ k] bytes:
    only a store of 4 GiB or more is refused. *)
Lemma new_Tags_checks policy k s a hit mm rnd :
  2 <= k <= 30 -> 0 <= s <= 31 -> 0 < a -> 2 ^ k * a < 2 ^ 31 ->
  new_Tags policy (2 ^ k * a * 2 ^ s) (2 ^ k) a hit mm rnd =
    if 2 ^ k * a * 2 ^ s <? 2 ^ 32 then
      Ok (mkTags policy a (2 ^ s) (2 ^ k) (2 ^ k - 1) k (2 ^ s - 1) (k + s) hit mm
            ((fun i => seq (i * Z.to_nat a) (Z.to_nat a)) <$> seq 0 (Z.to_nat (2 ^ s)))
            ((fun x => new_blk (2 ^ k) (x / Z.to_nat a) (x mod Z.to_nat a)) <$> seq 0 (Z.to_nat (2 ^ s) * Z.to_nat a))
            rnd)
    else Err Bad_pointer.
Proof.
  intros Hk Hs Ha Hka. assert (2 ^ k <= 2 ^ 30) by (apply Z.pow_le_mono_r; lia). assert (2 ^ s <= 2 ^ 31) by (apply Z.pow_le_mono_r; lia).
  assert (2 ^ 2 <= 2 ^ k) by (apply Z.pow_le_mono_r; lia). assert (0 < 2 ^ s) by lia. assert (a < 2 ^ 31) by nia.
  unfold new_Tags. rewrite swrap_id by nia. rewrite (proj2 (Z.eqb_neq (2 ^ k * a) 0)) by nia.
  rewrite (u64_small (2 ^ k * a)) by (unfold in_range; nia). replace (2 ^ k * a * 2 ^ s / (2 ^ k * a)) with (2 ^ s) by (rewrite (Z.mul_comm (2 ^ k * a)), Z.div_mul; nia).
  unfold u32. rewrite (wrap_small 32 (2 ^ s)), (wrap_small 32 a), (wrap_small 32 (2 ^ k)) by (unfold in_range; lia).
  rewrite (proj2 (Z.ltb_ge (2 ^ k) 4)), (proj2 (Z.leb_gt (2 ^ s) 0)), (proj2 (Z.leb_gt a 0)) by lia.
  rewrite !small_powers by lia. cbn [orb negb]. rewrite !floorLog2_ok, !Z.log2_pow2 by lia. cbn [rbind].
  assert (0 <= wrap 32 (2 ^ s * a) < 2 ^ 32) by (apply Z.mod_pos_bound; lia).
  destruct (Z.ltb_spec (2 ^ k * a * 2 ^ s) (2 ^ 32)) as [Hlt|Hge].
  - rewrite (wrap_small 32 (2 ^ s * a)), (wrap_small 32 (2 ^ s * a * 2 ^ k)) by (unfold in_range; nia). by rewrite !Z.eqb_refl.
  - destruct (Z.eqb_spec (wrap 32 (2 ^ s * a)) (2 ^ s * a)) as [->|]; [|done]. cbn [andb].
    destruct (Z.eqb_spec (wrap 32 (2 ^ s * a * 2 ^ k)) (2 ^ s * a * 2 ^ k)) as [E|]; [|done]. exfalso.
    pose proof (Z.mod_pos_bound (2 ^ s * a * 2 ^ k) (2 ^ 32) ltac:(lia)) as Hb. unfold wrap in E. rewrite E in Hb. nia.
Qed.

(** The tag store of [2 ^ s] sets of [a] blocks of [2 ^ k] bytes that the
    constructor builds is empty and in order. *)
Lemma new_Tags_ok policy k s a hit mm rnd :
  2 <= k <= 30 -> 0 <= s <= 31 -> 0 < a -> 2 ^ k * a < 2 ^ 31 -> 2 ^ k * a * 2 ^ s < 2 ^ 32 -> Forall (fun x => 0 <= x < a) rnd ->
  exists t, new_Tags policy (2 ^ k * a * 2 ^ s) (2 ^ k) a hit mm rnd = Ok t /\ tags_wf t k s /\
    (forall i b, blks t !! i = Some b -> isValid b = false) /\ maxMasters t = mm /\ tg_policy t = policy /\ assoc t = a.
Proof.
  intros Hk Hs Ha Hka Hsize Hr. rewrite new_Tags_checks by done. rewrite (proj2 (Z.ltb_lt _ _) Hsize). assert (2 ^ k <= 2 ^ 30) by (apply Z.pow_le_mono_r; lia). assert (2 ^ s <= 2 ^ 31) by (apply Z.pow_le_mono_r; lia).
  assert (2 ^ 2 <= 2 ^ k) by (apply Z.pow_le_mono_r; lia). assert (0 < 2 ^ s) by lia. assert (a < 2 ^ 31) by nia.
  eexists. split; [done|]. set (t := mkTags _ _ _ _ _ _ _ _ _ _ _ _ _). set (A := Z.to_nat a) in *. assert (0 < A)%nat as HA by lia.
  assert (forall i b, blks t !! i = Some b -> (i < Z.to_nat (2 ^ s) * A)%nat /\ b = new_blk (2 ^ k) (i / A) (i mod A)) as Hb.
  { intros i b Hi. cbn in Hi. rewrite list_lookup_fmap in Hi. apply fmap_Some in Hi as (x & Hx & ->). apply lookup_seq in Hx as [-> ?]. done. }
  assert (forall n ways, sets t !! n = Some ways -> (n < Z.to_nat (2 ^ s))%nat /\ ways = seq (n * A) A) as Hsets.
  { intros n ways Hn. cbn in Hn. rewrite list_lookup_fmap in Hn. apply fmap_Some in Hn as (x & Hx & ->). apply lookup_seq in Hx as [-> ?]. done. }
  split; [|split_and!; try done; by intros i b (_ & ->)%Hb].
  split; try done.
  - split; try done. cbn. rewrite Z.ones_equiv. lia.
  - cbn. lia.
  - cbn. rewrite length_fmap, length_seq. lia.
  - intros n ways (_ & ->)%Hsets. rewrite length_seq. split; [cbn; lia|apply NoDup_seq].
  - intros n ways i Hn. destruct (Hsets _ _ Hn) as [Hlt ->]. rewrite elem_of_seq, <- div_range by done. split.
    + intros E. exists (new_blk (2 ^ k) (i / A) (i mod A)). split; [|cbn; by rewrite E]. cbn. rewrite list_lookup_fmap, lookup_seq_lt; [done|].
      apply div_range in E; [|done]. nia.
    + intros (b & (_ & ->)%Hb & E). cbn in E. lia.
  - intros i b (Hi & ->)%Hb. cbn. assert (i / A < Z.to_nat (2 ^ s))%nat by (apply Nat.Div0.div_lt_upper_bound; lia). lia.
  - intros i b (Hi & ->)%Hb. split; try done. cbn. rewrite length_replicate. lia.
  - by intros i j b b' (_ & ->)%Hb.
Qed.
