(* ===== verification/CacheLru.v ===== *)
(** * Least recently used replacement

    The tag store with the policy of [mem/cache/tags/lru.cc], as a cache drives
    it: a look-up that moves the block it finds to the front of its set, on a
    miss a victim that is taken over for the new address, and invalidations.  A
    block stays in its set until as many others have been referenced after it, and
    not been invalidated, as the set has ways ([kept]). *)
From S2P Require Import Prelude Flags IntMath AddrRange Clock Packet AbstractMem CacheTags.

(** ** Definitions *)

(** A reference to an address, or the invalidation of its block. *)
Inductive tag_op :=
  | Touch (p : Packet)
  | Drop (a : Z) (sec : bool).

(** A look-up, and what [allocateBlock] and [handleFill] do to the tags on a miss;
    the result tells whether the block was there. *)
Definition tag_step (t : Tags) (now period : Z) (o : tag_op) : result (Tags * bool) :=
  match o with
  | Touch p =>
      let* a := getAddr p in
      let* sec := isSecure p in
      let* '(blk, _, t) := accessBlock t now period a sec in
      match blk with
      | Some _ => Ok (t, true)
      | None =>
          let* '(i, t) := findVictim t a in
          let* t := insertBlock t p i in
          let* b := deref (blks t !! i) in
          let b := if sec : bool then set_status b BlkSecure else b in
          let* t := set_blk t i (set_status b (Z.lor BlkValid BlkReadable)) in
          Ok (t, false)
      end
  | Drop a sec =>
      let* blk := findBlock t a sec in
      match blk with
      | Some i => let* t := drop_blk t i in Ok (t, true)
      | None => Ok (t, false)
      end
  end.

Fixpoint tag_run (t : Tags) (now period : Z) (os : list tag_op) : result (Tags * list bool) :=
  match os with
  | [] => Ok (t, [])
  | o :: os => let* '(t, h) := tag_step t now period o in let* '(t, hs) := tag_run t now period os in Ok (t, h :: hs)
  end.

(** The lists of the last references, for blocks of [2 ^ k] bytes in [2 ^ s] sets
    of [n] ways: a block is its number and whether it is secure. *)
Definition recency := Z -> list (Z * bool).

Definition forget (x : Z * bool) (l : list (Z * bool)) : list (Z * bool) := filter (fun y => y <> x) l.

Definition recency_set (R : recency) (i : Z) (l : list (Z * bool)) : recency := fun j => if decide (j = i) then l else R j.

Definition lru_step (k s : Z) (n : nat) (R : recency) (o : tag_op) : recency * bool :=
  let '(a, sec, keep) := match o with Touch p => (addr p, _isSecure p, true) | Drop a sec => (a, sec, false) end in
  let i := (a / 2 ^ k) mod 2 ^ s in
  let x := (a / 2 ^ k, sec) in
  (recency_set R i (if keep : bool then take n (x :: forget x (R i)) else forget x (R i)), bool_decide (x ∈ R i)).

Fixpoint lru_run (k s : Z) (n : nat) (R : recency) (os : list tag_op) : list bool :=
  match os with
  | [] => []
  | o :: os => let x := lru_step k s n R o in x.2 :: lru_run k s n x.1 os
  end.

(** ** Definitions: what should be found

    A history is a list of operations, the last one first. *)

(** The block an operation is about. *)
Definition op_block (k : Z) (o : tag_op) : Z * bool :=
  match o with Touch p => (addr p / 2 ^ k, _isSecure p) | Drop a sec => (a / 2 ^ k, sec) end.

(** The blocks referenced in a history and not invalidated since, each once. *)
Fixpoint live (k : Z) (h : list tag_op) : list (Z * bool) :=
  match h with
  | [] => []
  | Touch p :: h => op_block k (Touch p) :: forget (op_block k (Touch p)) (live k h)
  | Drop a sec :: h => forget (op_block k (Drop a sec)) (live k h)
  end.

(** Those that share the set of [x]. *)
Definition rivals (k s : Z) (h : list tag_op) (x : Z * bool) : list (Z * bool) :=
  filter (fun y => y.1 mod 2 ^ s = x.1 mod 2 ^ s) (live k h).

(** [x] has been referenced, not been invalidated since, and at no time since
    were there [n] other blocks of its set that had been referenced after it and
    not been invalidated: [h1] is what happened since, and [g'] what had
    happened at some time in between. *)
Definition kept (k s : Z) (n : nat) (h : list tag_op) (x : Z * bool) : Prop :=
  exists h1 p h2, h = h1 ++ Touch p :: h2 /\ op_block k (Touch p) = x /\
  Forall (fun o => op_block k o <> x) h1 /\
  forall g g', h1 = g ++ g' -> (length (rivals k s g' x) < n)%nat.

(** The lists after a history. *)
Fixpoint recency_of (k s : Z) (n : nat) (h : list tag_op) : recency :=
  match h with [] => fun _ => [] | o :: h => (lru_step k s n (recency_of k s n h) o).1 end.

(** ** Lists of blocks *)

(** What is in a block. *)
Definition blk_key (t : Tags) (s : Z) (i : nat) : option (Z * bool) :=
  match blks t !! i with
  | Some b => if isValid b then Some (blk_tag b * 2 ^ s + blk_set b, blk_isSecure b) else None
  | None => None
  end.

(** The valid blocks of a set are its first ones, in the order of the list. *)
Definition in_order (t : Tags) (s : Z) (ways : list nat) (l : list (Z * bool)) : Prop :=
  exists v w, ways = v ++ w /\ Forall2 (fun i x => blk_key t s i = Some x) v l /\ Forall (fun i => blk_key t s i = None) w.

Definition lru_state (t : Tags) (s : Z) (R : recency) : Prop :=
  forall n ways, sets t !! n = Some ways -> in_order t s ways (R (Z.of_nat n)).

Lemma forget_fresh x l : x ∉ l -> forget x l = l.
Proof.
  unfold forget. induction l as [|y l IH]; [done|]. rewrite not_elem_of_cons. intros [Hy Hl]. rewrite filter_cons_True by naive_solver. by rewrite IH.
Qed.

(** ** The lists hold what has been kept *)

Section Kept.
Context (k s : Z) (n : nat) (Hn : (0 < n)%nat).

Lemma live_ops h x : x ∈ live k h -> exists o, o ∈ h /\ op_block k o = x.
Proof.
  induction h as [|o h IH]; [by intros ?%not_elem_of_nil|]. intros Hx.
  assert (op_block k o = x \/ x ∈ live k h) as [E|Hl].
  { destruct o; cbn [live] in Hx; [apply elem_of_cons in Hx as [->|Hx]; [by left|]|];
      apply list_elem_of_filter in Hx; tauto. }
  - exists o. split; [apply list_elem_of_here|done].
  - destruct (IH Hl) as (o' & Ho & E). exists o'. split; [by apply list_elem_of_further|done].
Qed.

Lemma rivals_other h x : Forall (fun o => op_block k o <> x) h -> x ∉ rivals k s h x.
Proof.
  intros Hf [_ (o & Ho & E)%live_ops]%list_elem_of_filter. rewrite Forall_forall in Hf. by apply (Hf o).
Qed.

Lemma forget_app x y l r : x <> y -> forget x (l ++ y :: r) = forget x l ++ y :: forget x r.
Proof. intros Hne. unfold forget. rewrite filter_app, filter_cons_True by congruence. done. Qed.

(** How an operation changes the rivals of a block it is not about. *)
Lemma rivals_cons o h x :
  op_block k o <> x ->
  rivals k s (o :: h) x =
    if decide ((op_block k o).1 mod 2 ^ s = x.1 mod 2 ^ s) then
      (if o is Touch _ then [op_block k o] else []) ++ forget (op_block k o) (rivals k s h x)
    else rivals k s h x.
Proof.
  intros Hne. unfold rivals. set (y := op_block k o).
  assert (filter (fun z => z.1 mod 2 ^ s = x.1 mod 2 ^ s) (forget y (live k h)) =
    forget y (filter (fun z => z.1 mod 2 ^ s = x.1 mod 2 ^ s) (live k h))) as Hcomm.
  { unfold forget. rewrite !list_filter_filter. apply list_filter_iff. tauto. }
  destruct (decide _) as [E|E].
  - destruct o; cbn [live app]; fold y; [rewrite filter_cons_True by done|]; by rewrite Hcomm.
  - assert (y ∉ filter (fun z => z.1 mod 2 ^ s = x.1 mod 2 ^ s) (live k h)) as Hy by (intros [? _]%list_elem_of_filter; done).
    destruct o; cbn [live]; fold y; [rewrite filter_cons_False by done|]; rewrite Hcomm; by apply forget_fresh.
Qed.

Lemma recency_cons o h i :
  recency_of k s n (o :: h) i =
    if decide (i = (op_block k o).1 mod 2 ^ s) then
      if o is Touch _ then take n (op_block k o :: forget (op_block k o) (recency_of k s n h i))
      else forget (op_block k o) (recency_of k s n h i)
    else recency_of k s n h i.
Proof. destruct o; cbn; unfold recency_set; destruct (decide _) as [->|]; done. Qed.

(** As long as a block is kept, its rivals are in front of it. *)
Lemma kept_place h1 p h2 x :
  op_block k (Touch p) = x -> Forall (fun o => op_block k o <> x) h1 ->
  (forall g g', h1 = g ++ g' -> (length (rivals k s g' x) < n)%nat) ->
  exists r, recency_of k s n (h1 ++ Touch p :: h2) (x.1 mod 2 ^ s) = rivals k s h1 x ++ x :: r.
Proof.
  intros Hp. induction h1 as [|o h1 IH]; intros Hf Hlen; cbn [app].
  { rewrite recency_cons, Hp, decide_True by done. destruct n as [|n']; [lia|]. by eexists. }
  apply Forall_cons in Hf as [Ho Hf]. destruct IH as [r IH]; [done|intros g g' ->; exact (Hlen (o :: g) g' eq_refl)|].
  specialize (Hlen [] (o :: h1) eq_refl). rewrite rivals_cons in * by done. rewrite recency_cons, IH.
  destruct (decide (_ mod _ = x.1 mod _)) as [E|E]; [|rewrite decide_False by congruence; by exists r].
  rewrite decide_True by done. rewrite forget_app by done. destruct o as [q|]; [|by eexists].
  cbn [app] in *. rewrite app_comm_cons, take_app_ge by lia. cbn [length] in *.
  destruct (n - _)%nat as [|m] eqn:En; [lia|]. cbn [take]. by eexists.
Qed.

Lemma kept_iff h x : x ∈ recency_of k s n h (x.1 mod 2 ^ s) <-> kept k s n h x.
Proof.
  split.
  - induction h as [|o h IH]; [by intros ?%not_elem_of_nil|]. intros Hx. destruct (decide (op_block k o = x)) as [Ho|Ho].
    { rewrite recency_cons, Ho, decide_True in Hx by done. destruct o as [p|]; [|by apply list_elem_of_filter in Hx as [? _]].
      exists [], p, h. split_and!; [done|done|by constructor|]. intros [] [] E; try discriminate. cbn. lia. }
    assert (x ∈ recency_of k s n h (x.1 mod 2 ^ s)) as Hh.
    { rewrite recency_cons in Hx. destruct (decide _); [|done]. destruct o as [q|].
      - apply subseteq_take, elem_of_cons in Hx as [->|[_ Hx]%list_elem_of_filter]; done.
      - by apply list_elem_of_filter in Hx as [_ ?]. }
    destruct (IH Hh) as (h1 & p & h2 & -> & Hp & Hf & Hlen). exists (o :: h1), p, h2. split_and!; try done; [by constructor|].
    intros [|o' g] g' E; [|injection E as -> E; by eapply Hlen]. cbn in E. subst g'.
    destruct (kept_place h1 p h2 x Hp Hf Hlen) as [r Hr]. rewrite recency_cons, Hr in Hx. rewrite rivals_cons by done.
    pose proof (Hlen [] h1 eq_refl) as H1. destruct (decide (_ = _)) as [E|E], (decide (_ mod _ = _)) as [E'|E']; try congruence; try done.
    destruct o as [q|]; [|cbn [app]; eapply Nat.le_lt_trans; [apply length_filter|done]].
    rewrite forget_app in Hx by done. rewrite app_comm_cons in Hx. cbn [app].
    destruct (Nat.lt_ge_cases (length (op_block k (Touch q) :: forget (op_block k (Touch q)) (rivals k s h1 x))) n) as [|Hge]; [done|].
    rewrite take_app_le in Hx by done. apply subseteq_take in Hx.
    apply elem_of_cons in Hx as [->|[_ Hx]%list_elem_of_filter]; [done|]. by apply rivals_other in Hx.
  - intros (h1 & p & h2 & -> & Hp & Hf & Hlen). destruct (kept_place h1 p h2 x Hp Hf Hlen) as [r ->].
    apply elem_of_app. right. apply list_elem_of_here.
Qed.

Lemma lru_run_lookup os : forall h i o,
  os !! i = Some o -> lru_run k s n (recency_of k s n h) os !! i =
  Some (bool_decide (op_block k o ∈ recency_of k s n (reverse (take i os) ++ h) ((op_block k o).1 mod 2 ^ s))).
Proof.
  induction os as [|o' os IH]; intros h i o Hi; [done|]. destruct i as [|i].
  - injection Hi as ->. cbn. by destruct o.
  - cbn in Hi. cbn [lru_run take lookup list_lookup]. change ((lru_step k s n (recency_of k s n h) o').1) with (recency_of k s n (o' :: h)).
    etrans; [exact (IH (o' :: h) i o Hi)|]. rewrite reverse_cons, <- app_assoc. done.
Qed.

Lemma lru_run_length R os : length (lru_run k s n R os) = length os.
Proof. revert R. induction os as [|o os IH]; intros R; cbn; [done|]. by rewrite IH. Qed.
End Kept.

Lemma ordered_forget t s v l i x :
  Forall2 (fun i x => blk_key t s i = Some x) v l -> blk_key t s i = Some x ->
  (forall j, j ∈ v -> blk_key t s j = Some x -> j = i) ->
  Forall2 (fun i x => blk_key t s i = Some x) (filter (fun j => j <> i) v) (forget x l).
Proof.
  intros Hf Hi. induction Hf as [|j y v l Hj Hf IH]; intros Hu; [constructor|]. unfold forget in *.
  specialize (IH ltac:(intros j' Hj'; apply Hu; by apply list_elem_of_further)).
  destruct (decide (j = i)) as [->|Hne].
  - assert (y = x) as -> by congruence. rewrite !filter_cons_False by naive_solver. done.
  - rewrite !filter_cons_True; [by constructor| |done]. intros ->. apply Hne, Hu; [apply list_elem_of_here|done].
Qed.

Lemma ordered_in t s v w l i x :
  Forall2 (fun i x => blk_key t s i = Some x) v l -> Forall (fun i => blk_key t s i = None) w -> i ∈ v ++ w -> blk_key t s i = Some x -> i ∈ v /\ x ∈ l.
Proof.
  intros Hv Hw [Hi|Hi]%elem_of_app Hx; [|rewrite Forall_forall in Hw; specialize (Hw _ Hi); congruence].
  split; [done|]. apply list_elem_of_lookup_1 in Hi as [n Hn]. destruct (Forall2_lookup_l _ _ _ _ _ Hv Hn) as (y & Hy & E).
  assert (y = x) as -> by congruence. by eapply list_elem_of_lookup_2.
Qed.

Lemma in_order_keys t t' s ways l : (forall i, i ∈ ways -> blk_key t' s i = blk_key t s i) -> in_order t s ways l -> in_order t' s ways l.
Proof.
  intros Hk (v & w & -> & Hv & Hw). exists v, w. split; [done|]. split.
  - apply Forall2_same_length_lookup. pose proof (Forall2_length _ _ _ Hv) as Hl. split; [done|]. intros n i x Hi Hx.
    rewrite Hk by (apply elem_of_app; left; by eapply list_elem_of_lookup_2). eapply Forall2_lookup_lr in Hv; [|done..]. done.
  - apply Forall_forall. intros i Hi. rewrite Hk by (apply elem_of_app; auto). rewrite Forall_forall in Hw. by apply Hw.
Qed.

(** ** Operations *)

Lemma number_inj m t1 t2 s1 s2 : 0 <= s1 < m -> 0 <= s2 < m -> t1 * m + s1 = t2 * m + s2 -> t1 = t2 /\ s1 = s2.
Proof. intros H1 H2 E. assert (t1 = t2) as -> by nia. lia. Qed.

Section Replacement.
Context (t : Tags) (k s : Z) (W : tags_wf t k s) (R : recency) (L : lru_state t s R) (Hpol : tg_policy t = LRU).

Lemma block_number a : 0 <= extractSet t a < 2 ^ s /\ extractTag t a * 2 ^ s + extractSet t a = a / 2 ^ k.
Proof using W.
  pose proof (tw_geo _ _ _ W) as G. pose proof (gm_k _ _ _ G). pose proof (gm_s _ _ _ G). split; [by apply set_bound with k|].
  rewrite (extractTag_ok _ _ _ G), (extractSet_ok _ _ _ G), Z.pow_add_r, <- Z.div_div by lia. pose proof (Z.div_mod (a / 2 ^ k) (2 ^ s)). lia.
Qed.

Lemma key_for a sec i b : blks t !! i = Some b -> is_for t a sec b <-> blk_key t s i = Some (a / 2 ^ k, sec).
Proof using W.
  intros Hb. destruct (block_number a) as [Hn <-]. pose proof (tw_set _ _ _ W _ _ Hb) as Hs. unfold is_for, blk_key. rewrite Hb. split.
  - intros (-> & -> & -> & ->). done.
  - destruct (isValid b); [|done]. intros [= E <-]. by destruct (number_inj _ _ _ _ _ Hs Hn E) as [-> ->].
Qed.

Lemma key_inj i j x : blk_key t s i = Some x -> blk_key t s j = Some x -> i = j.
Proof using W.
  unfold blk_key. destruct (blks t !! i) as [b|] eqn:Hb, (blks t !! j) as [c|] eqn:Hc; try done.
  pose proof (tw_set _ _ _ W _ _ Hb). pose proof (tw_set _ _ _ W _ _ Hc).
  destruct (isValid b) eqn:V1, (isValid c) eqn:V2; try done. intros [= <-] [= E1 E2].
  apply number_inj in E1 as [E1 E3]; [|done..]. by eapply (tw_unique _ _ _ W).
Qed.

(** The set of an address. *)
Lemma set_of a : exists ways, sets t !! Z.to_nat (extractSet t a) = Some ways /\ Z.of_nat (length ways) = assoc t /\ NoDup ways /\
  in_order t s ways (R (extractSet t a)) /\ forall i b, blks t !! i = Some b -> blk_set b = extractSet t a -> i ∈ ways.
Proof using W L.
  destruct (block_number a) as [Hn _]. destruct (ways_of_ok _ _ _ W _ Hn) as (ways & _ & Hw & Hnd & Hl & Hin). exists ways. split_and!; try done.
  - pose proof (L _ _ Hw) as Ho. by rewrite Z2Nat.id in Ho by lia.
  - intros i b Hb E. apply Hin. by exists b.
Qed.

Lemma present a sec : (a / 2 ^ k, sec) ∈ R (extractSet t a) <-> exists i b, blks t !! i = Some b /\ is_for t a sec b.
Proof using W L.
  destruct (set_of a) as (ways & Hw & _ & _ & (v & w & -> & Hv & Hws) & Hin). split.
  - intros [n Hx]%list_elem_of_lookup_1. destruct (Forall2_lookup_r _ _ _ _ _ Hv Hx) as (i & Hi & E). pose proof E as E'. unfold blk_key in E'.
    destruct (blks t !! i) as [b|] eqn:Hb; [|done]. exists i, b. split; [done|]. by apply (key_for a sec i b Hb).
  - intros (i & b & Hb & Hf). pose proof Hf as (_ & _ & Es & _). by eapply ordered_in; [exact Hv|exact Hws|exact (Hin _ _ Hb Es)|apply (key_for a sec i b Hb)].
Qed.

(** A state in which one set has changed. *)
Lemma lru_state_set t' a ways' l :
  sets t' = <[Z.to_nat (extractSet t a) := ways']> (sets t) -> in_order t' s ways' l ->
  (forall j b, blks t !! j = Some b -> blk_set b <> extractSet t a -> blk_key t' s j = blk_key t s j) ->
  lru_state t' s (recency_set R (extractSet t a) l).
Proof using W L.
  intros Es Ho Hk n ways. destruct (block_number a) as [Hn _]. rewrite Es, list_lookup_insert_Some. unfold recency_set.
  intros [(<- & -> & _)|(Hne & Hw)]; [by rewrite decide_True by lia|]. rewrite decide_False by lia.
  apply (in_order_keys t); [|by apply L]. intros j (b & Hb & E)%(tw_in _ _ _ W _ _ j Hw). apply (Hk j b Hb). lia.
Qed.

Lemma in_order_length t' ways l : in_order t' s ways l -> (length l <= length ways)%nat.
Proof. intros (v & w & -> & Hv & _). rewrite length_app, (Forall2_length _ _ _ Hv). lia. Qed.

(** A hit moves the block to the front. *)
Lemma hit_order a sec i b :
  blks t !! i = Some b -> is_for t a sec b -> let x := (a / 2 ^ k, sec) in
  lru_state (promote t (extractSet t a) i) s (recency_set R (extractSet t a) (take (Z.to_nat (assoc t)) (x :: forget x (R (extractSet t a))))).
Proof using W L Hpol.
  intros Hb Hf x. destruct (set_of a) as (ways & Hw & Hlen & Hnd & (v & w & E & Hv & Hws) & Hin). pose proof Hf as (_ & _ & Es & _).
  specialize (Hin _ _ Hb Es). pose proof (proj1 (key_for a sec i b Hb) Hf) as Hk. fold x in Hk.
  assert (in_order t s (i :: filter (fun j => j <> i) ways) (x :: forget x (R (extractSet t a)))) as Ho.
  { exists (i :: filter (fun j => j <> i) v), w. subst ways. rewrite filter_app, (filter_ne_notin i w); [split; [done|]|].
    - split; [|done]. constructor; [done|]. apply ordered_forget; [done..|]. intros j _ Hj. by eapply key_inj.
    - intros Hi. rewrite Forall_forall in Hws. specialize (Hws _ Hi). congruence. }
  rewrite take_ge by (apply in_order_length in Ho; rewrite (Permutation_length (move_perm i ways Hnd Hin)) in Ho; lia).
  unfold promote. rewrite Hpol. eapply lru_state_set; [cbn; by rewrite (list_alter_at _ _ _ _ Hw)|exact Ho|done].
Qed.

(** An invalidated block goes to the end. *)
Lemma drop_order a sec i b :
  blks t !! i = Some b -> is_for t a sec b -> let x := (a / 2 ^ k, sec) in
  lru_state (demote (with_blks t (<[i := dropped b]> (blks t))) (blk_set b) i) s (recency_set R (extractSet t a) (forget x (R (extractSet t a)))).
Proof using W L Hpol.
  intros Hb Hf x. destruct (set_of a) as (ways & Hw & Hlen & Hnd & (v & w & E & Hv & Hws) & Hin). pose proof Hf as (_ & _ & Es & _).
  specialize (Hin _ _ Hb Es). pose proof (proj1 (key_for a sec i b Hb) Hf) as Hk. fold x in Hk. rewrite Es. unfold demote. cbn [tg_policy with_blks]. rewrite Hpol.
  set (t' := with_sets _ _). pose proof (lookup_lt_Some _ _ _ Hb) as Hlt.
  assert (blk_key t' s i = None) as Hi' by (unfold blk_key; cbn; by rewrite list_lookup_insert_eq).
  assert (forall j, j <> i -> blk_key t' s j = blk_key t s j) as Hj by (intros j Hj; unfold blk_key; cbn; by rewrite list_lookup_insert_ne).
  eapply (lru_state_set t' a (filter (fun j => j <> i) ways ++ [i])); [cbn; by rewrite (list_alter_at _ _ _ _ Hw)| |].
  - assert (i ∉ w) as Hiw by (intros Hi; rewrite Forall_forall in Hws; specialize (Hws _ Hi); congruence).
    assert (in_order t' s (filter (fun j => j <> i) v ++ w) (forget x (R (extractSet t a)))) as (v' & w' & Ev & Hv' & Hw').
    { apply (in_order_keys t).
      - intros j Hjj. apply Hj. intros ->. apply elem_of_app in Hjj as [[? _]%list_elem_of_filter|]; done.
      - exists (filter (fun j => j <> i) v), w. split_and!; try done. apply ordered_forget; [done..|]. intros j _ Hjx. by eapply key_inj. }
    subst ways. rewrite filter_app, (filter_ne_notin i w Hiw), Ev. exists v', (w' ++ [i]). rewrite <- app_assoc. split_and!; try done.
    apply Forall_app. split; [done|]. by repeat constructor.
  - intros j c Hc Hne. apply Hj. intros ->. congruence.
Qed.

(** A miss takes the last block over. *)
Lemma miss_order t' a sec i ways :
  sets t !! Z.to_nat (extractSet t a) = Some ways -> last ways = Some i ->
  (forall j b, blks t !! j = Some b -> ~ is_for t a sec b) ->
  sets t' = sets (promote t (extractSet t a) i) -> blk_key t' s i = Some (a / 2 ^ k, sec) ->
  (forall j, j <> i -> blk_key t' s j = blk_key t s j) -> let x := (a / 2 ^ k, sec) in
  lru_state t' s (recency_set R (extractSet t a) (take (Z.to_nat (assoc t)) (x :: forget x (R (extractSet t a))))).
Proof using W L Hpol.
  intros Hw Hlast Hno Es Hi Hj x. destruct (set_of a) as (ways' & Hw' & Hlen & Hnd & (v & w & E & Hv & Hws) & Hin).
  rewrite Hw in Hw'. injection Hw' as <-. apply last_Some in Hlast as [l0 El].
  rewrite forget_fresh by (intros (j & b & Hb & Hf)%(present a sec); by apply (Hno j b)).
  assert (i ∉ l0) as Hil by (rewrite El in Hnd; apply NoDup_app in Hnd as (_ & Hd & _); intros H; by apply (Hd i H), list_elem_of_singleton).
  eapply (lru_state_set t' a (i :: l0)).
  - rewrite Es. unfold promote. rewrite Hpol. cbn. rewrite (list_alter_at _ _ _ _ Hw), El, filter_app, filter_ne_notin by done.
    by rewrite filter_cons_False, filter_nil, app_nil_r by naive_solver.
  - assert (forall l, in_order t s l0 l -> in_order t' s (i :: l0) (x :: l)) as Hcons.
    { intros l Ho. apply (in_order_keys t t') in Ho as (v' & w' & -> & Hv' & Hw'); [|intros j Hjl; apply Hj; intros ->; done].
      exists (i :: v'), w'. split_and!; try done. by constructor. }
    assert (exists l, take (Z.to_nat (assoc t)) (x :: R (extractSet t a)) = x :: l /\ in_order t s l0 l) as (l & -> & Ho); [|by apply Hcons].
    assert (Z.to_nat (assoc t) = S (length l0)) as -> by (rewrite El, length_app in Hlen; cbn in Hlen; lia). cbn [take].
    eexists. split; [done|]. destruct w as [|y w _] using rev_ind.
    + rewrite app_nil_r in E. subst v. rewrite El in Hv. apply Forall2_app_inv_l in Hv as (l1 & l2 & H1 & H2 & ->).
      rewrite take_app_length' by (by apply (Forall2_length _ _ _ H1)). exists l0, []. by rewrite app_nil_r.
    + rewrite app_assoc, El in E. apply app_inj_tail in E as [-> ->]. apply Forall_app in Hws as [Hws _].
      rewrite take_ge by (rewrite length_app, (Forall2_length _ _ _ Hv); lia). by exists v, w.
  - intros j b Hb Hne. apply Hj. intros ->. apply Hne.
    assert (i ∈ ways) as Hii by (rewrite El; apply elem_of_app; right; by apply list_elem_of_singleton).
    destruct (block_number a) as [Hn _]. apply (tw_in _ _ _ W _ _ i Hw) in Hii as (b' & Hb' & E'). rewrite Hb in Hb'. injection Hb' as <-. lia.
Qed.

(** The new block. *)
Definition filled (b : CacheBlk) (sec : bool) : CacheBlk :=
  set_status (if sec then set_status b BlkSecure else b) (Z.lor BlkValid BlkReadable).

Lemma filled_ok b sec : status b = 0 -> isValid (filled b sec) = true /\ blk_isSecure (filled b sec) = sec.
Proof. intros E. unfold filled, isValid, blk_isSecure. destruct sec; cbn; rewrite E; done. Qed.

Lemma fill_wf p i b a sec :
  is_u64 a -> blks t !! i = Some b -> blk_set b = extractSet t a -> _masterId (req p) < maxMasters t ->
  (forall j b, blks t !! j = Some b -> ~ is_for t a sec b) ->
  let t2 := promote (with_blks t (<[i := renewed t b a (_masterId (req p))]> (blks t))) (extractSet t a) i in
  tags_wf t2 k s -> tags_wf (with_blks t2 (<[i := filled (renewed t b a (_masterId (req p))) sec]> (blks t2))) k s.
Proof using W.
  clear Hpol. intros Ha Hb Es Hm Hno t2 W2. set (r := renewed t b a (_masterId (req p))) in *. destruct (filled_ok r sec eq_refl) as [V S].
  assert (blks t2 = <[i := r]> (blks t)) as Eb by (unfold t2, promote; cbn; by destruct (tg_policy t)).
  assert (maxMasters t2 = maxMasters t) as Em by (unfold t2, promote; cbn; by destruct (tg_policy t)).
  assert (blks t2 !! i = Some r) as Hr by (rewrite Eb; apply list_lookup_insert_eq; by eapply lookup_lt_Some).
  eapply wf_blk; [exact W2|exact Hr|by destruct sec| |].
  - destruct (tw_blk _ _ _ W _ _ Hb) as [B1 _ _ _]. pose proof (tag_bound _ _ _ (tw_geo _ _ _ W) a Ha).
    split; rewrite ?V, ?Em; try done; by destruct sec.
  - intros _ j c Hj Hc Vc E [E1 E2]. rewrite Eb, list_lookup_insert_ne in Hc by done. rewrite S in E2. apply (Hno j c Hc).
    split; [done|]. split; [rewrite E1; by destruct sec|]. split; [|done]. rewrite E. exact Es.
Qed.
End Replacement.

(** A reference has an address and a known master. *)
Definition tag_op_ok (mm : Z) (o : tag_op) : Prop :=
  match o with
  | Touch p => flag_isSet (flags p) VALID_ADDR = true /\ is_u64 (addr p) /\ _masterId (req p) < mm
  | Drop _ _ => True
  end.

(** What no operation changes. *)
Definition same_shape (t t' : Tags) : Prop := tg_policy t' = tg_policy t /\ assoc t' = assoc t /\ maxMasters t' = maxMasters t.

Lemma promote_shape t n i : same_shape t (promote t n i).
Proof. unfold promote. by destruct (tg_policy t) eqn:E. Qed.
Lemma demote_shape t n i : same_shape t (demote t n i).
Proof. unfold demote. by destruct (tg_policy t) eqn:E. Qed.

Section Steps.
Context (t : Tags) (k s : Z) (W : tags_wf t k s) (R : recency) (L : lru_state t s R) (Hpol : tg_policy t = LRU).

Lemma recency_same i : lru_state t s (recency_set R i (R i)).
Proof using L. intros n ways Hw. unfold recency_set. case_decide as E; [rewrite <- E|]; by apply L. Qed.

Lemma touch_ok now period p :
  tag_op_ok (maxMasters t) (Touch p) ->
  exists t', tag_step t now period (Touch p) = Ok (t', (lru_step k s (Z.to_nat (assoc t)) R (Touch p)).2) /\ tags_wf t' k s /\
    lru_state t' s (lru_step k s (Z.to_nat (assoc t)) R (Touch p)).1 /\ same_shape t t'.
Proof using W L Hpol.
  intros (Hva & Ha & Hm). unfold lru_step. rewrite <- (extractSet_ok _ _ _ (tw_geo _ _ _ W) (addr p)). cbn [tag_step fst snd].
  unfold getAddr, isSecure. rewrite Hva. cbn [assert_ rbind]. set (a := addr p) in *. set (sec := _isSecure p).
  destruct (accessBlock_ok _ _ _ W now period a sec) as (o & lat & -> & Ho). cbn [rbind]. destruct o as [i|].
  - destruct Ho as (b & Hb & Hf). rewrite bool_decide_eq_true_2 by (apply (present _ _ _ W _ L); eauto). exists (promote t (extractSet t a) i).
    split; [done|]. split; [apply (promote_wf _ _ _ W _ _ b Hb), Hf|]. split; [by apply (hit_order _ _ _ W _ L Hpol _ _ _ b)|apply promote_shape].
  - rewrite bool_decide_eq_false_2 by (intros (i & b & Hb & Hf)%(present _ _ _ W _ L); by apply (Ho i b)).
    destruct (findVictim_ok _ _ _ W a) as (i & r & b & -> & _ & Hb & Es & Hl). destruct (Hl Hpol) as (-> & ways & Hw & Hlast). cbn [rbind].
    assert (with_random t (tg_random t) = t) as -> by (by destruct t).
    destruct (insertBlock_ok _ _ _ W p i a b) as [-> W2]; [unfold getAddr; by rewrite Hva|done..|]. cbn [rbind].
    pose proof (fill_wf _ _ _ W p i b a sec Ha Hb Es Hm Ho W2) as W3. set (r := renewed t b a (_masterId (req p))) in *. set (t2 := promote _ _ _) in *.
    assert (blks t2 = <[i := r]> (blks t)) as Eb by (unfold t2, promote; cbn; by rewrite Hpol).
    assert (blks t2 !! i = Some r) as Hr by (rewrite Eb; apply list_lookup_insert_eq; by eapply lookup_lt_Some).
    rewrite Hr. cbn [deref rbind]. fold (filled r sec). rewrite (set_blk_ok _ _ _ _ Hr). cbn [rbind]. eexists. split; [done|]. split; [exact W3|].
    set (t3 := with_blks t2 _) in *. destruct (filled_ok r sec eq_refl) as [V S].
    assert (blks t3 !! i = Some (filled r sec)) as H3 by (apply list_lookup_insert_eq; by eapply lookup_lt_Some).
    split; [|exact (promote_shape (with_blks t _) _ _)]. apply (miss_order _ _ _ W _ L Hpol t3 a sec i ways Hw Hlast Ho).
    + unfold t3, t2, promote. cbn. by rewrite Hpol.
    + apply (key_for _ _ _ W3 a sec i _ H3). split; [done|]. destruct (block_number _ _ _ W a) as [_ _]. unfold t3, t2, promote. cbn [tg_policy with_blks]. rewrite Hpol.
      split_and!; [by destruct sec| |done]. destruct sec; exact Es.
    + intros j Hj. unfold blk_key. cbn [blks t3 with_blks]. by rewrite Eb, !list_lookup_insert_ne.
Qed.

Lemma drop_ok now period a sec :
  exists t', tag_step t now period (Drop a sec) = Ok (t', (lru_step k s (Z.to_nat (assoc t)) R (Drop a sec)).2) /\ tags_wf t' k s /\
    lru_state t' s (lru_step k s (Z.to_nat (assoc t)) R (Drop a sec)).1 /\ same_shape t t'.
Proof using W L Hpol.
  unfold lru_step. rewrite <- (extractSet_ok _ _ _ (tw_geo _ _ _ W) a). cbn [tag_step fst snd].
  destruct (findBlock_ok _ _ _ W a sec) as (o & -> & Ho). cbn [rbind]. destruct o as [i|].
  - destruct Ho as (b & Hb & Hf). rewrite bool_decide_eq_true_2 by (apply (present _ _ _ W _ L); eauto).
    destruct (drop_blk_ok _ _ _ W i b Hb (proj1 Hf)) as [-> W']. cbn [rbind]. eexists. split; [done|]. split; [done|].
    split; [by apply (drop_order _ _ _ W _ L Hpol)|exact (demote_shape (with_blks t _) _ _)].
  - assert ((a / 2 ^ k, sec) ∉ R (extractSet t a)) as Hno by (intros (i & b & Hb & Hf)%(present _ _ _ W _ L); by apply (Ho i b)).
    rewrite bool_decide_eq_false_2, forget_fresh by done. exists t. split_and!; try done. apply recency_same.
Qed.
End Steps.

Lemma tag_run_ok now period k s os : forall t R,
  tags_wf t k s -> lru_state t s R -> tg_policy t = LRU -> Forall (tag_op_ok (maxMasters t)) os ->
  exists t', tag_run t now period os = Ok (t', lru_run k s (Z.to_nat (assoc t)) R os) /\ tags_wf t' k s.
Proof.
  induction os as [|o os IH]; intros t R W L Hpol Hf; [by exists t|]. apply Forall_cons in Hf as [Ho Hf]. cbn [tag_run lru_run].
  assert (exists t', tag_step t now period o = Ok (t', (lru_step k s (Z.to_nat (assoc t)) R o).2) /\ tags_wf t' k s /\
    lru_state t' s (lru_step k s (Z.to_nat (assoc t)) R o).1 /\ same_shape t t') as (t1 & -> & W1 & L1 & E1 & E2 & E3).
  { destruct o; [by apply touch_ok|by apply drop_ok]. }
  cbn [rbind]. destruct (IH t1 _ W1 L1 ltac:(congruence) ltac:(by rewrite E3)) as (t' & -> & W'). rewrite E2. by exists t'.
Qed.

(** ** Any policy *)

Lemma tag_step_wf t k s now period o :
  tags_wf t k s -> tag_op_ok (maxMasters t) o -> exists t' h, tag_step t now period o = Ok (t', h) /\ tags_wf t' k s /\ maxMasters t' = maxMasters t.
Proof.
  intros W Ho. destruct o as [p|a sec]; cbn [tag_step tag_op_ok] in *.
  - destruct Ho as (Hva & Ha & Hm). unfold getAddr, isSecure. rewrite Hva. cbn [assert_ rbind]. set (a := addr p) in *. set (sec := _isSecure p).
    destruct (accessBlock_ok _ _ _ W now period a sec) as (o & lat & -> & Ho). cbn [rbind]. destruct o as [i|].
    + destruct Ho as (b & Hb & Hf). eexists _, _. split; [done|]. split; [apply (promote_wf _ _ _ W _ _ b Hb), Hf|apply promote_shape].
    + destruct (findVictim_ok _ _ _ W a) as (i & r & b & -> & W1 & Hb & Es & _). cbn [rbind]. set (t1 := with_random t r) in *.
      destruct (insertBlock_ok _ _ _ W1 p i a b) as [-> W2]; [unfold getAddr; by rewrite Hva|done..|]. cbn [rbind].
      pose proof (fill_wf _ _ _ W1 p i b a sec Ha Hb Es Hm Ho W2) as W3. set (r1 := renewed t1 b a (_masterId (req p))) in *. set (t2 := promote _ _ _) in *.
      assert (blks t2 !! i = Some r1) as Hr.
      { unfold t2, promote. destruct (tg_policy _); apply list_lookup_insert_eq; by eapply lookup_lt_Some. }
      rewrite Hr. cbn [deref rbind]. fold (filled r1 sec). rewrite (set_blk_ok _ _ _ _ Hr). cbn [rbind]. eexists _, _. split; [done|]. split; [exact W3|].
      exact (proj2 (proj2 (promote_shape (with_blks t1 _) _ _))).
  - destruct (findBlock_ok _ _ _ W a sec) as (o & -> & Hf). cbn [rbind]. destruct o as [i|]; [|by eexists t, _].
    destruct Hf as (b & Hb & Hf). destruct (drop_blk_ok _ _ _ W i b Hb (proj1 Hf)) as [-> W']. cbn [rbind]. eexists _, _. split; [done|]. split; [done|].
    exact (proj2 (proj2 (demote_shape (with_blks t _) _ _))).
Qed.

Lemma tag_run_wf now period k s os : forall t,
  tags_wf t k s -> Forall (tag_op_ok (maxMasters t)) os -> exists t' hs, tag_run t now period os = Ok (t', hs) /\ tags_wf t' k s.
Proof.
  induction os as [|o os IH]; intros t W Hf; [by eexists t, _|]. apply Forall_cons in Hf as [Ho Hf]. cbn [tag_run].
  destruct (tag_step_wf t k s now period o W Ho) as (t1 & h & -> & W1 & E). cbn [rbind].
  destruct (IH t1 W1 ltac:(by rewrite E)) as (t' & hs & -> & W'). by eexists t', _.
Qed.

(** ** Properties *)

(** C33: The tag stores stay well-formed: with either policy, for [2 ^ s] sets of
    [a] blocks of [2 ^ k] bytes (4 bytes to 1 GiB, a set taking less than 2 GiB)
    that take less than 4 GiB in all, the constructor builds a tag store on which every sequence of references and invalidations runs
    without a failed assertion, and afterwards each set is a list of its own
    blocks without repetition, every block has its bytes, the owner and the tag
    of a valid block are within their bounds, and no two valid blocks are for the
    same address.  The requests carry an address and come from a known master.
    From 4 GiB on the numbers of blocks and bytes wrap around, and the constructor
    goes past the arrays it has allocated. *)
Theorem tags_well_formed policy k s a hit mm rnd now period os :
  2 <= k <= 30 -> 0 <= s <= 31 -> 0 < a -> 2 ^ k * a < 2 ^ 31 -> Forall (fun x => 0 <= x < a) rnd -> Forall (tag_op_ok mm) os ->
  if 2 ^ k * a * 2 ^ s <? 2 ^ 32 then
    exists t t' hs, new_Tags policy (2 ^ k * a * 2 ^ s) (2 ^ k) a hit mm rnd = Ok t /\
      tag_run t now period os = Ok (t', hs) /\ tags_wf t' k s
  else new_Tags policy (2 ^ k * a * 2 ^ s) (2 ^ k) a hit mm rnd = Err Bad_pointer.
Proof.
  intros Hk Hs Ha Hka Hr Hos. destruct (Z.ltb_spec (2 ^ k * a * 2 ^ s) (2 ^ 32)) as [Hlt|Hge].
  - destruct (new_Tags_ok policy k s a hit mm rnd Hk Hs Ha Hka Hlt Hr) as (t & He & W & _ & Hm & _).
    destruct (tag_run_wf now period k s os t W) as (t' & hs & Ht & W'); [by rewrite Hm|]. by exists t, t', hs.
  - rewrite new_Tags_checks by done. by rewrite (proj2 (Z.ltb_ge _ _)).
Qed.

(** C25: Replacement is exact: a tag store the constructor has built for the policy of
    the least recently used block, of less than 4 GiB, with blocks of 4 bytes or
    more and sets of less than 2 GiB, takes every sequence of references and
    invalidations, by masters it knows; and an operation finds its block exactly if
    the block has been referenced before, has not been invalidated since, and at
    no time since then were there as many other blocks of its set as the set has
    ways that had been referenced after it and not been invalidated ([kept]). *)
Theorem lru_exact k s a hit mm rnd now period os :
  2 <= k <= 30 -> 0 <= s <= 31 -> 0 < a -> 2 ^ k * a < 2 ^ 31 -> 2 ^ k * a * 2 ^ s < 2 ^ 32 ->
  Forall (fun x => 0 <= x < a) rnd -> Forall (tag_op_ok mm) os ->
  exists t t' hs, new_Tags LRU (2 ^ k * a * 2 ^ s) (2 ^ k) a hit mm rnd = Ok t /\
    tag_run t now period os = Ok (t', hs) /\ length hs = length os /\
    forall i o, os !! i = Some o ->
      hs !! i = Some true <-> kept k s (Z.to_nat a) (reverse (take i os)) (op_block k o).
Proof.
  intros Hk Hs Ha Hka Hlt Hr Hos. destruct (new_Tags_ok LRU k s a hit mm rnd Hk Hs Ha Hka Hlt Hr) as (t & He & W & Hv & Hm & Hpol & Has).
  destruct (tag_run_ok now period k s os t (fun _ => []) W) as (t' & Ht & _); [|done|by rewrite Hm|].
  - intros n ways _. exists [], ways. split_and!; [done|constructor|]. apply Forall_forall. intros i _. unfold blk_key.
    destruct (blks t !! i) as [b|] eqn:Hb; [by rewrite (Hv _ _ Hb)|done].
  - rewrite Has in Ht. eexists t, t', _. split; [done|]. split; [exact Ht|]. split; [apply lru_run_length|]. intros i o Ho.
    change (fun _ : Z => []) with (recency_of k s (Z.to_nat a) []). rewrite (lru_run_lookup _ _ _ os [] i o Ho), app_nil_r.
    rewrite <- kept_iff by lia. split; [intros [= E]; by apply bool_decide_eq_true in E|intros H; by rewrite bool_decide_eq_true_2].
Qed.

(** Two sets of two ways of 16 bytes: the third block of a set replaces the one
    that was not used again. *)
Definition lru_ops : list tag_op :=
  (fun a => Touch (demo_packet ReadReq a 0 [0])) <$> [0x100; 0x120; 0x104; 0x140; 0x120; 0x110; 0x140].

Lemma lru_ops_ok : Forall (tag_op_ok 4) (lru_ops ++ [Drop 0x140 false; Touch (demo_packet ReadReq 0x140 0 [0])]).
Proof.
  cbn [lru_ops fmap list_fmap app]. repeat (apply Forall_cons_2; [first [exact I | vm_compute; intuition discriminate]|]). apply Forall_nil_2.
Qed.

(** Two ways, blocks [A], [B] and [C] of one set: once [C] has replaced [A], the
    invalidation of [C] does not bring [A] back. *)
Definition lru_drop : list tag_op :=
  ((fun a => Touch (demo_packet ReadReq a 0 [0])) <$> [0x100; 0x120; 0x140]) ++
  [Drop 0x140 false; Touch (demo_packet ReadReq 0x100 0 [0]); Touch (demo_packet ReadReq 0x120 0 [0])].

Lemma lru_drop_ok : Forall (tag_op_ok 4) lru_drop.
Proof.
  cbn [lru_drop fmap list_fmap app]. repeat (apply Forall_cons_2; [first [exact I | vm_compute; intuition discriminate]|]). apply Forall_nil_2.
Qed.

Lemma lru_exact_witness :
  exists t t' hs, new_Tags LRU 64 16 2 2 4 [] = Ok t /\ tag_run t 0 1 lru_drop = Ok (t', hs) /\
    hs = [false; false; false; true; false; true] /\
    kept 4 1 2 (reverse (take 5 lru_drop)) (18, false) /\ ~ kept 4 1 2 (reverse (take 4 lru_drop)) (16, false).
Proof.
  destruct (lru_exact 4 1 2 2 4 [] 0 1 lru_drop ltac:(lia) ltac:(lia) ltac:(lia) ltac:(lia) ltac:(lia) ltac:(constructor) lru_drop_ok)
    as (t & t' & hs & H1 & H2 & _ & H).
  exists t, t', hs. split; [exact H1|]. split; [exact H2|].
  assert (hs = [false; false; false; true; false; true]) as E.
  { revert H2. vm_compute in H1. injection H1 as <-. vm_compute. intros E. by injection E as _ <-. }
  rewrite E in H. split; [exact E|]. split.
  - apply (H 5%nat (Touch (demo_packet ReadReq 0x120 0 [0])) eq_refl). reflexivity.
  - intros Hk. apply (H 4%nat (Touch (demo_packet ReadReq 0x100 0 [0])) eq_refl) in Hk. discriminate Hk.
Defined.

Lemma tags_well_formed_witness :
  (exists t t' hs, new_Tags RandomRepl 64 16 2 2 4 [1; 0] = Ok t /\
    tag_run t 0 1 (lru_ops ++ [Drop 0x140 false; Touch (demo_packet ReadReq 0x140 0 [0])]) = Ok (t', hs) /\ tags_wf t' 4 1) /\
  new_Tags LRU (2 ^ 32) 64 16 2 4 [] = Err Bad_pointer.
Proof.
  split; [|exact (tags_well_formed LRU 6 22 16 2 4 [] 0 1 [] ltac:(lia) ltac:(lia) ltac:(lia) ltac:(lia) ltac:(constructor) ltac:(constructor))].
  apply (tags_well_formed RandomRepl 4 1 2 2 4 [1; 0] 0 1 (lru_ops ++ [Drop 0x140 false; Touch (demo_packet ReadReq 0x140 0 [0])])); try lia;
    [repeat constructor; lia|exact lru_ops_ok].
Defined.
