(* ===== verification/Cache.v ===== *)
(** * The cache in atomic mode

    [mem/cache/cache_impl.hh]: atomic and functional requests of the processor's
    side, with the allocation of blocks, their fills and writebacks, and the
    operations that write back and invalidate all blocks.  What is below the cache
    is a [MemPort]; functional accesses go to it through [FuncPort].  In atomic
    mode no response is deferred and the queues of misses and writes are empty;
    [mshrs] are the addresses the miss queue would be asked for.  Statistics,
    prefetchers and the timing mode are left out. *)
From S2P Require Import Prelude Flags IntMath AddrRange Clock Packet AbstractMem AtomicMem CacheTags.

(** ** Definitions: data *)

(** A [CacheBlk *]: a block of the tag store or [tempBlock]. *)
Inductive BlkPtr := Way (i : nat) | Temp.

#[export] Instance BlkPtr_eq_dec : EqDecision BlkPtr.
Proof. solve_decision. Defined.

Record Cache := mkCache {
  ca_tags : Tags;
  tempBlock : CacheBlk;
  ca_blkSize : Z;
  isTopLevel : bool;
  doFastWrites : bool;
  bypassCaches : bool;               (** of the system *)
  lookupLatency : Z;
  fillLatency : Z;
  mshrs : list (Z * bool * bool);    (** address, secure, needs an exclusive copy *)
  ca_clock : Clocked;
  ca_now : Z;
  ca_period : Z;
}.

Definition with_tags (c : Cache) (t : Tags) : Cache :=
  mkCache t (tempBlock c) (ca_blkSize c) (isTopLevel c) (doFastWrites c) (bypassCaches c) (lookupLatency c) (fillLatency c)
    (mshrs c) (ca_clock c) (ca_now c) (ca_period c).
Definition with_temp (c : Cache) (b : CacheBlk) : Cache :=
  mkCache (ca_tags c) b (ca_blkSize c) (isTopLevel c) (doFastWrites c) (bypassCaches c) (lookupLatency c) (fillLatency c)
    (mshrs c) (ca_clock c) (ca_now c) (ca_period c).
Definition with_clock (c : Cache) (k : Clocked) : Cache :=
  mkCache (ca_tags c) (tempBlock c) (ca_blkSize c) (isTopLevel c) (doFastWrites c) (bypassCaches c) (lookupLatency c) (fillLatency c)
    (mshrs c) k (ca_now c) (ca_period c).

(** [Cache(p)] and [BaseCache(p)], with its tag store. *)
Definition new_Cache (tags : Tags) (cacheLineSize hit_latency response_latency period : Z) (is_top_level bypass : bool) : Cache :=
  mkCache tags (mkBlk 0 (replicate (Z.to_nat cacheLineSize) 0) 0 0 (-1) invldMasterId []) cacheLineSize is_top_level true bypass
    hit_latency response_latency [] (mkClocked 0 0) 0 period.

Definition get_blk (c : Cache) (ptr : BlkPtr) : result CacheBlk :=
  match ptr with Way i => deref (blks (ca_tags c) !! i) | Temp => Ok (tempBlock c) end.
Definition put_blk (c : Cache) (ptr : BlkPtr) (b : CacheBlk) : result Cache :=
  match ptr with
  | Way i => let* t := set_blk (ca_tags c) i b in Ok (with_tags c t)
  | Temp => Ok (with_temp c b)
  end.

(** [blockAlign(addr)], [wbMasterId] and [funcMasterId]. *)
Definition blockAlign (c : Cache) (addr : Z) : Z := Z.land addr (u64 (Z.lnot (ca_blkSize c - 1))).
Definition wbMasterId : Z := 0.
Definition funcMasterId : Z := 1.

(** [sharedAsserted], [assertShared], [setSupplyExclusive], [isSupplyExclusive],
    [copyError] and [allocate] of packets; the bytes of a new buffer are never
    read before they are written. *)
Definition sharedAsserted (p : Packet) : bool := flag_isSet (flags p) SHARED.
Definition assertShared (p : Packet) : Packet := with_flags p (flag_set (flags p) SHARED).
Definition setSupplyExclusive (p : Packet) : Packet := with_flags p (flag_set (flags p) SUPPLY_EXCLUSIVE).
Definition isSupplyExclusive (p : Packet) : bool := flag_isSet (flags p) SUPPLY_EXCLUSIVE.
Definition copyError (p src : Packet) : result Packet :=
  let* _ := assert_ (isError (cmd src)) in Ok (with_cmd p (cmd src)).
Definition allocate (p : Packet) : result Packet :=
  let* n := getSize p in dataDynamic p (replicate (Z.to_nat n) 0).
Definition isClearLL (r : Request) : bool := flag_isSet (_flags r) CLEAR_LL.

(** ** Definitions: requests on a block *)

(** [cmpAndSwap(blk, pkt)]. *)
Definition cmpAndSwap (c : Cache) (ptr : BlkPtr) (p : Packet) : result (Cache * Packet) :=
  let* _ := assert_ (isRequest (cmd p)) in
  let* a := getAddr p in
  let* n := getSize p in
  let offset := extractBlkOffset (ca_tags c) a in
  let* b := get_blk c ptr in
  let* _ := assert_ (n <=? 8) in
  let* overwrite_val := writeData p (replicate 8 0) 0 in
  let* p := setData p (blk_data b) offset in
  let* overwrite_mem :=
    if isCondSwap (req p) then
      if n =? 8 then let* v := getExtraData (req p) in Ok (memcmp_eq (blk_data b) offset 8 v)
      else if n =? 4 then let* v := getExtraData (req p) in Ok (memcmp_eq (blk_data b) offset 4 (u32 v))
      else Err Panic
    else Ok true in
  if overwrite_mem : bool then
    let* d := memcpy (blk_data b) offset overwrite_val 0 n in
    let* c := put_blk c ptr (set_status (with_blk_data b d) BlkDirty) in
    Ok (c, p)
  else Ok (c, p).

(** [tags->invalidate(blk); blk->invalidate()]; the tag store does not know the
    temporary block. *)
Definition surrender (c : Cache) (ptr : BlkPtr) : result Cache :=
  match ptr with
  | Way i => let* t := drop_blk (ca_tags c) i in Ok (with_tags c t)
  | Temp => Ok (with_temp c (blk_invalidate (tempBlock c)))
  end.

(** [satisfyCpuSideRequest(pkt, blk, deferred_response, pending_downgrade)]. *)
Definition satisfyCpuSideRequest (c : Cache) (p : Packet) (ptr : BlkPtr) (deferred_response pending_downgrade : bool)
    : result (Cache * Packet) :=
  let* _ := assert_ (isRequest (cmd p)) in
  let* b := get_blk c ptr in
  let* _ := assert_ (isValid b) in
  let* off := getOffset p (ca_blkSize c) in
  let* n := getSize p in
  let* _ := assert_ (u64 (off + n) <=? ca_blkSize c) in
  if decide (cmd p = SwapReq) then cmpAndSwap c ptr p
  else if isWrite (cmd p) && (negb (isWriteInvalidate (cmd p)) || isTopLevel c) then
    let* _ := assert_ (isWritable b) in
    let* '(ok, b, p) := checkWrite b p in
    let* b := if ok : bool then let* d := writeDataToBlock p (blk_data b) (ca_blkSize c) in Ok (with_blk_data b d) else Ok b in
    let* c := put_blk c ptr (set_status b BlkDirty) in
    Ok (c, p)
  else if isRead (cmd p) then
    let* b := if isLLSC (cmd p) then blk_trackLoadLocked b p else Ok b in
    let* p := setDataFromBlock p (blk_data b) (ca_blkSize c) in
    let* c := put_blk c ptr b in
    if n =? ca_blkSize c then
      if needsExclusive (cmd p) then
        let* p := if isDirty b then assertMemInhibit p else Ok p in
        let* c := surrender c ptr in
        Ok (c, p)
      else if isWritable b && negb pending_downgrade && negb (sharedAsserted p) && negb (isInstFetch (req p)) then
        if isDirty b then
          if negb deferred_response && negb (isTopLevel c) then
            let* p := assertMemInhibit p in
            let* c := put_blk c ptr (clear_status b BlkDirty) in
            Ok (c, p)
          else Ok (c, assertShared p)
        else Ok (c, p)
      else Ok (c, assertShared p)
    else Ok (c, p)
  else
    let* _ := assert_ (isUpgrade (cmd p) || (isWriteInvalidate (cmd p) && negb (isTopLevel c))) in
    let* _ := assert_ (negb (bool_decide (ptr = Temp))) in
    let* c := surrender c ptr in
    Ok (c, p).

(** ** Definitions: writebacks, allocation and fills *)

(** [writebackBlk(blk)]. *)
Definition writebackBlk (c : Cache) (ptr : BlkPtr) : result (Packet * Cache) :=
  let* b := get_blk c ptr in
  let* _ := assert_ (isValid b && isDirty b) in
  let r := Request_phys (regenerateBlkAddr (ca_tags c) (blk_tag b) (blk_set b)) (ca_blkSize c) 0 wbMasterId (ca_now c) in
  let* r := if blk_isSecure b then rq_setFlags r SECURE else Ok r in
  let p := new_Packet r Writeback in
  let p := if isWritable b then setSupplyExclusive p else p in
  let* p := allocate p in
  let* d := getPtr p in
  let* d := memcpy d 0 (blk_data b) 0 (ca_blkSize c) in
  let* c := put_blk c ptr (clear_status b BlkDirty) in
  Ok (with_data p (Some d), c).

(** [mshrQueue.findMatch(addr, is_secure)], and whether the miss needs an
    exclusive copy. *)
Definition findMatch (c : Cache) (addr : Z) (is_secure : bool) : option bool :=
  snd <$> List.find (fun m => (m.1.1 =? addr) && eqb m.1.2 is_secure) (mshrs c).

(** [allocateBlock(addr, is_secure, writebacks)]. *)
Definition allocateBlock (c : Cache) (addr : Z) (writebacks : list Packet) : result (option nat * Cache * list Packet) :=
  let* '(i, t) := findVictim (ca_tags c) addr in
  let c := with_tags c t in
  let* b := deref (blks t !! i) in
  if isValid b then
    match findMatch c (regenerateBlkAddr t (blk_tag b) (blk_set b)) (blk_isSecure b) with
    | Some excl =>
        let* _ := assert_ (negb (isWritable b) || isDirty b) in
        let* _ := assert_ excl in
        Ok (None, c, writebacks)
    | None =>
        if isDirty b then
          let* '(wb, c) := writebackBlk c (Way i) in
          Ok (Some i, c, writebacks ++ [wb])
        else Ok (Some i, c, writebacks)
    end
  else Ok (Some i, c, writebacks).

(** [handleFill(pkt, blk, writebacks)]; [payload] is [pkt->payloadDelay]. *)
Definition handleFill (c : Cache) (p : Packet) (payload : Z) (blk : option BlkPtr) (writebacks : list Packet)
    : result (BlkPtr * Cache * list Packet) :=
  let* _ := assert_ (isResponse (cmd p) || isWriteInvalidate (cmd p)) in
  let* addr := getAddr p in
  let* is_secure := isSecure p in
  let* '(ptr, c, writebacks) :=
    match blk with
    | None =>
        let* _ := assert_ (hasData (cmd p)) in
        let* _ := assert_ (isRead (cmd p) || isWriteInvalidate (cmd p)) in
        let* '(o, c, writebacks) := allocateBlock c addr writebacks in
        let* '(ptr, c) :=
          match o with
          | None =>
              let* _ := assert_ (negb (isValid (tempBlock c))) in
              let b := tempBlock c in
              Ok (Temp, with_temp c (mkBlk (extractTag (ca_tags c) addr) (blk_data b) (status b) (whenReady b)
                                       (extractSet (ca_tags c) addr) (srcMasterId b) (lockList b)))
          | Some i => let* t := insertBlock (ca_tags c) p i in Ok (Way i, with_tags c t)
          end in
        let* b := get_blk c ptr in
        let* _ := assert_ (negb (isValid b)) in
        Ok (ptr, c, writebacks)
    | Some ptr =>
        let* b := get_blk c ptr in
        let* _ := assert_ (blk_tag b =? extractTag (ca_tags c) addr) in
        let* _ := assert_ (hasData (cmd p) || isValid b) in
        Ok (ptr, c, writebacks)
    end in
  let* b := get_blk c ptr in
  let b := if is_secure : bool then set_status b BlkSecure else b in
  let b := set_status b (Z.lor BlkValid BlkReadable) in
  let b :=
    if negb (sharedAsserted p) then
      let b := set_status b BlkWritable in
      if memInhibitAsserted p then set_status b BlkDirty else b
    else b in
  let* b :=
    if isRead (cmd p) then
      let* _ := assert_ (hasData (cmd p)) in
      let* n := getSize p in
      let* _ := assert_ (n =? ca_blkSize c) in
      let* src := getPtr p in
      let* d := memcpy (blk_data b) 0 src 0 (ca_blkSize c) in
      Ok (with_blk_data b d)
    else Ok b in
  let '(edge, clk) := clockEdge (ca_now c) (ca_period c) (ca_clock c) 0 in
  let c := with_clock c clk in
  let* c := put_blk c ptr (with_whenReady b (u64 (edge + u64 (fillLatency c * ca_period c) + payload))) in
  Ok (ptr, c, writebacks).

(** ** Definitions: lookups *)

(** [access(pkt, blk, lat, writebacks)]: whether the request is satisfied. *)
Definition ca_access (c : Cache) (p : Packet) : result (bool * option BlkPtr * Z * list Packet * Cache * Packet) :=
  let* _ := assert_ (isRequest (cmd p)) in
  let* a := getAddr p in
  let* sec := isSecure p in
  if isUncacheable (req p) then
    let c := if isClearLL (req p) then with_tags c (clearLocks (ca_tags c)) else c in
    let* o := findBlock (ca_tags c) a sec in
    let* '(c, writebacks) :=
      match o with
      | Some i =>
          let* b := get_blk c (Way i) in
          if isValid b then
            let* '(c, wbs) :=
              if isDirty b then let* '(wb, c) := writebackBlk c (Way i) in Ok (c, [wb]) else Ok (c, []) in
            let* c := surrender c (Way i) in
            Ok (c, wbs)
          else Ok (c, [])
      | None => Ok (c, [])
      end in
    Ok (false, None, lookupLatency c, writebacks, c, p)
  else
    let* '(o, lat, t) := accessBlock (ca_tags c) (ca_now c) (ca_period c) a sec in
    let c := with_tags c t in
    if decide (cmd p = Writeback) then
      let* n := getSize p in
      let* _ := assert_ (ca_blkSize c =? n) in
      let* '(o, c, writebacks) :=
        match o with
        | Some i => Ok (Some i, c, [])
        | None =>
            let* '(o, c, writebacks) := allocateBlock c a [] in
            match o with
            | None => Ok (None, c, writebacks)
            | Some i =>
                let* t := insertBlock (ca_tags c) p i in
                let c := with_tags c t in
                let* b := get_blk c (Way i) in
                let b := with_status b (Z.lor BlkValid BlkReadable) in
                let* c := put_blk c (Way i) (if sec : bool then set_status b BlkSecure else b) in
                Ok (Some i, c, writebacks)
            end
        end in
      match o with
      | None => Ok (false, None, lat, writebacks, c, p)
      | Some i =>
          let* b := get_blk c (Way i) in
          let b := set_status b BlkDirty in
          let b := if isSupplyExclusive p then set_status b BlkWritable else b in
          let* _ := assert_ (negb (needsResponse (cmd p))) in
          let* src := getPtr p in
          let* d := memcpy (blk_data b) 0 src 0 (ca_blkSize c) in
          let* c := put_blk c (Way i) (with_blk_data b d) in
          Ok (true, Some (Way i), lat, writebacks, c, p)
      end
    else
      let* hit :=
        match o with
        | Some i =>
            let* b := get_blk c (Way i) in
            Ok (if needsExclusive (cmd p) then isWritable b else isReadable b)
        | None => Ok false
        end in
      match o, hit with
      | Some i, true =>
          let* '(c, p) := satisfyCpuSideRequest c p (Way i) false false in
          Ok (true, Some (Way i), lat, [], c, p)
      | None, _ =>
          if isLLSC (cmd p) && isWrite (cmd p) then Ok (true, None, lat, [], c, set_extra p 0)
          else Ok (false, None, lat, [], c, p)
      | Some i, false => Ok (false, Some (Way i), lat, [], c, p)
      end.

(** [promoteWholeLineWrites(pkt)]. *)
Definition promoteWholeLineWrites (c : Cache) (p : Packet) : result Packet :=
  if doFastWrites c && bool_decide (cmd p = WriteReq) then
    let* n := getSize p in
    let* o := getOffset p (ca_blkSize c) in
    if (n =? ca_blkSize c) && (o =? 0) then
      let* _ := assert_ (isTopLevel c) in Ok (with_cmd p WriteInvalidateReq)
    else Ok p
  else Ok p.

(** [getBusPacket(cpu_pkt, blk, needsExclusive)]; upgrades are used. *)
Definition getBusPacket (c : Cache) (cpu_pkt : Packet) (blk : option BlkPtr) (needsExcl : bool) : result (option Packet) :=
  let* b := match blk with Some ptr => let* b := get_blk c ptr in Ok (Some b) | None => Ok None end in
  let blkValid := match b with Some b => isValid b | None => false end in
  if isUncacheable (req cpu_pkt) then Ok None
  else if negb blkValid && (bool_decide (cmd cpu_pkt = Writeback) || isUpgrade (cmd cpu_pkt)) then Ok None
  else
    let* _ := assert_ (needsResponse (cmd cpu_pkt)) in
    let* k :=
      if blkValid then
        let* _ := assert_ needsExcl in
        let* _ := assert_ (negb (from_option isWritable false b)) in
        Ok (if isLLSC (cmd cpu_pkt) then SCUpgradeReq else UpgradeReq)
      else if bool_decide (cmd cpu_pkt = SCUpgradeFailReq) || bool_decide (cmd cpu_pkt = StoreCondFailReq) then Ok SCUpgradeFailReq
      else if isWriteInvalidate (cmd cpu_pkt) then Ok (cmd cpu_pkt)
      else Ok (if needsExcl then ReadExReq else ReadReq) in
    let p := new_Packet_blk (req cpu_pkt) k (ca_blkSize c) in
    let p := if sharedAsserted cpu_pkt then assertShared p else p in
    let* a := getAddr p in
    let* _ := assert_ (a =? blockAlign c a) in
    let* p := allocate p in
    Ok (Some p).

(** ** Definitions: requests *)

(** The functional accesses of what is below. *)
Class FuncPort (M : Type) := sendFunctional : M -> Packet -> result (M * Packet).

Section Requests.
Context {M : Type} `{MemPort M}.

(** The loops that send the writebacks. *)
Fixpoint send_writebacks (m : M) (writebacks : list Packet) : result M :=
  match writebacks with
  | [] => Ok m
  | wb :: writebacks => let* '(_, m, _) := sendAtomic m wb in send_writebacks m writebacks
  end.

(** The handling of a miss: from [getBusPacket] to the fill. *)
Definition handle_miss (c : Cache) (m : M) (p : Packet) (blk : option BlkPtr) (lat : Z)
    : result (Cache * M * Packet * Z * list Packet) :=
  let* bus := getBusPacket c p blk (needsExclusive (cmd p)) in
  match bus with
  | None =>
      let* '(l, m, p) := sendAtomic m p in
      Ok (c, m, p, u64 (lat + ticksToCycles (ca_period c) l), [])
  | Some bus_pkt =>
      let* '(l, m, bus_pkt) := sendAtomic m bus_pkt in
      let lat := u64 (lat + ticksToCycles (ca_period c) l) in
      if needsResponse (cmd p) then
        let* _ := assert_ (isResponse (cmd bus_pkt)) in
        if isError (cmd bus_pkt) then
          let* p := makeResponse p in
          let* p := copyError p bus_pkt in
          Ok (c, m, p, lat, [])
        else if isWriteInvalidate (cmd p) then
          if isTopLevel c then
            let* '(ptr, c, wbs) := handleFill c p 0 blk [] in
            let* '(c, p) := satisfyCpuSideRequest c p ptr false false in
            Ok (c, m, p, lat, wbs)
          else
            match blk with
            | Some ptr =>
                let* '(c, p) := satisfyCpuSideRequest c p ptr false false in
                Ok (c, m, p, lat, [])
            | None => Ok (c, m, p, lat, [])
            end
        else if isRead (cmd bus_pkt) || bool_decide (cmd bus_pkt = UpgradeResp) then
          let* '(ptr, c, wbs) := handleFill c bus_pkt (payload_of m l) blk [] in
          let* '(c, p) := satisfyCpuSideRequest c p ptr false false in
          Ok (c, m, p, lat, wbs)
        else
          let* p := makeResponse p in
          Ok (c, m, p, lat, [])
      else Ok (c, m, p, lat, [])
  end.

(** [recvAtomic(pkt)]. *)
Definition ca_recvAtomic (c : Cache) (m : M) (p : Packet) : result (Z * Cache * M * Packet) :=
  if bypassCaches c then
    let* '(l, m, p) := sendAtomic m p in Ok (ticksToCycles (ca_period c) l, c, m, p)
  else
    let* p := promoteWholeLineWrites c p in
    if memInhibitAsserted p then
      if isInvalidate (cmd p) then
        let* a := getAddr p in
        let* sec := isSecure p in
        let* o := findBlock (ca_tags c) a sec in
        let* c :=
          match o with
          | Some i => let* b := get_blk c (Way i) in if isValid b then surrender c (Way i) else Ok c
          | None => Ok c
          end in
        let* '(l, m, p) := sendAtomic m p in
        Ok (u64 (u64 (lookupLatency c + ticksToCycles (ca_period c) l) * ca_period c), c, m, p)
      else Ok (u64 (lookupLatency c * ca_period c), c, m, p)
    else
      let* '(satisfied, blk, lat, wbs, c, p) := ca_access c p in
      let* m := send_writebacks m wbs in
      let* '(c, m, p, lat, wbs) :=
        if satisfied : bool then Ok (c, m, p, lat, []) else handle_miss c m p blk lat in
      let* m := send_writebacks m wbs in
      let* p := if needsResponse (cmd p) then makeResponse p else Ok p in
      Ok (u64 (lat * ca_period c), c, m, p).

Context `{FuncPort M}.

(** [functionalAccess(pkt, true)]: a request of the processor's side, in atomic
    mode: the miss queue, the write buffer and the queues of the ports hold
    nothing, so that none of them has the data. *)
Definition ca_functionalAccess (c : Cache) (m : M) (p : Packet) : result (Cache * M * Packet) :=
  if bypassCaches c then let* '(m, p) := sendFunctional m p in Ok (c, m, p)
  else
    let* a := getAddr p in
    let* sec := isSecure p in
    let* o := findBlock (ca_tags c) a sec in
    let* '(have_dirty, c, p) :=
      match o with
      | Some i =>
          let* b := get_blk c (Way i) in
          if isValid b then
            let* '(have, p, buf) := checkFunctional p (blockAlign c a) sec (ca_blkSize c) (Some (blk_data b)) in
            let* d := deref buf in
            let* c := put_blk c (Way i) (with_blk_data b d) in
            Ok (have && isDirty b, c, p)
          else Ok (false, c, p)
      | None => Ok (false, c, p)
      end in
    if have_dirty : bool then let* p := makeResponse p in Ok (c, m, p)
    else let* '(m, p) := sendFunctional m p in Ok (c, m, p).

(** [writebackVisitor(blk)] and [invalidateVisitor(blk)]. *)
Definition writebackVisitor (c : Cache) (m : M) (i : nat) : result (Cache * M) :=
  let* b := get_blk c (Way i) in
  if isDirty b then
    let* _ := assert_ (isValid b) in
    let r := Request_phys (regenerateBlkAddr (ca_tags c) (blk_tag b) (blk_set b)) (ca_blkSize c) 0 funcMasterId (ca_now c) in
    let* p := dataStatic (new_Packet r WriteReq) (blk_data b) in
    let* '(m, _) := sendFunctional m p in
    let* c := put_blk c (Way i) (clear_status b BlkDirty) in
    Ok (c, m)
  else Ok (c, m).

Definition invalidateVisitor (c : Cache) (i : nat) : result Cache :=
  let* b := get_blk c (Way i) in
  if isValid b then
    let* _ := assert_ (negb (isDirty b)) in
    surrender c (Way i)
  else Ok c.

(** [memWriteback()] and [memInvalidate()]: all blocks in turn. *)
Fixpoint writeback_from (c : Cache) (m : M) (ids : list nat) : result (Cache * M) :=
  match ids with
  | [] => Ok (c, m)
  | i :: ids => let* '(c, m) := writebackVisitor c m i in writeback_from c m ids
  end.

Fixpoint invalidate_from (c : Cache) (ids : list nat) : result Cache :=
  match ids with
  | [] => Ok c
  | i :: ids => let* c := invalidateVisitor c i in invalidate_from c ids
  end.

Definition all_blocks (c : Cache) : list nat := seq 0 (length (blks (ca_tags c))).
Definition memWriteback (c : Cache) (m : M) : result (Cache * M) := writeback_from c m (all_blocks c).
Definition memInvalidate (c : Cache) : result Cache := invalidate_from c (all_blocks c).
Definition ca_isDirty (c : Cache) : bool := existsb isDirty (blks (ca_tags c)).
End Requests.
