(* ===== verification/CacheContent.v ===== *)
(** * What a cache holds

    The relation between the bytes a processor is to see, the blocks of a tag
    store and the bytes of the memory below: every valid block holds the bytes
    the processor sees, and the memory holds them where no block is dirty and no
    writeback is under way; with the effect of each change of a block on it. *)
From S2P Require Import Prelude Flags IntMath AddrRange Packet AbstractMem CacheTags.

Definition resident (t : Tags) (i : nat) (b : CacheBlk) : Prop := blks t !! i = Some b /\ isValid b = true.

(** The address of a block. *)
Definition blk_base (t : Tags) (b : CacheBlk) : Z := regenerateBlkAddr t (blk_tag b) (blk_set b).

(** [f]: the bytes the processor sees; [fm]: those of the memory, which is at
    [lo, hi); [pend]: the writebacks under way. *)
Record content (t : Tags) (k s lo hi : Z) (f fm : Z -> Z) (pend : list (Z * list Z)) : Prop := {
  ct_wf : tags_wf t k s;
  ct_blk i b : resident t i b ->
    blk_isSecure b = false /\ isWritable b = true /\ isReadable b = true /\ lo <= blk_base t b /\ blk_base t b + 2 ^ k <= hi;
  ct_holds i b : resident t i b -> holds f (blk_base t b) (blk_data b);
  ct_mem a : lo <= a < hi ->
    (forall i b, resident t i b -> isDirty b = true -> blk_base t b <> base_of k a) ->
    (forall wa d, (wa, d) ∈ pend -> wa <> base_of k a) -> fm a = f a;
  ct_pend wa d : (wa, d) ∈ pend ->
    lo <= wa /\ wa + 2 ^ k <= hi /\ wa mod 2 ^ k = 0 /\ Z.of_nat (length d) = 2 ^ k /\ holds f wa d /\
    forall i b, resident t i b -> blk_base t b <> wa;
}.

(** What the operations of a tag store leave. *)
Definition params_of (t : Tags) := (assoc t, blkSize t, setShift t, setMask t, tagShift t, maxMasters t).

Lemma params_same t t' : params_of t' = params_of t ->
  (forall a, extractTag t' a = extractTag t a) /\ (forall a, extractSet t' a = extractSet t a) /\
  (forall b, blk_base t' b = blk_base t b) /\ maxMasters t' = maxMasters t.
Proof. intros [= E1 E2 E3 E4 E5 E6]. unfold extractTag, extractSet, blk_base, regenerateBlkAddr. rewrite E3, E4, E5. done. Qed.

(** ** Addresses of blocks *)

Lemma base_of_aligned k b a : 0 <= k -> b mod 2 ^ k = 0 -> base_of k a = b <-> b <= a < b + 2 ^ k.
Proof.
  intros Hk Hb. rewrite base_of_div by done. pose proof (Z.div_mod b (2 ^ k)). pose proof (Z.div_mod a (2 ^ k)).
  pose proof (Z.mod_pos_bound a (2 ^ k)). assert (0 < 2 ^ k) by lia. split; [lia|]. intros Hr.
  assert (a / 2 ^ k = b / 2 ^ k) by nia. lia.
Qed.

Lemma base_of_mod k a : 0 <= k -> base_of k a mod 2 ^ k = 0.
Proof. intros Hk. rewrite base_of_div, Z.mul_comm by done. apply Z.mod_mul. lia. Qed.

Lemma base_of_in k a : 0 <= k -> base_of k a <= a < base_of k a + 2 ^ k.
Proof. intros Hk. apply base_of_aligned; [done|by apply base_of_mod|done]. Qed.

Lemma aligned_fits k lo hi a :
  0 <= k -> lo mod 2 ^ k = 0 -> hi mod 2 ^ k = 0 -> lo <= a < hi -> lo <= base_of k a /\ base_of k a + 2 ^ k <= hi.
Proof.
  intros Hk Hlo Hhi Ha. rewrite base_of_div by done. assert (0 < 2 ^ k) by lia.
  pose proof (Z.div_mod lo (2 ^ k) ltac:(lia)). pose proof (Z.div_mod hi (2 ^ k) ltac:(lia)).
  pose proof (Z.div_le_mono lo a (2 ^ k) ltac:(lia) ltac:(lia)).
  pose proof (Z.div_lt_upper_bound a (2 ^ k) (hi / 2 ^ k) ltac:(lia) ltac:(lia)). nia.
Qed.

Section Content.
Context (t : Tags) (k s lo hi : Z) (W : tags_wf t k s).

Lemma wf_k : 2 <= k <= 30.
Proof. apply (tw_geo _ _ _ W). Qed.

Lemma blk_base_mod i b : resident t i b -> blk_base t b mod 2 ^ k = 0 /\ 0 <= blk_base t b.
Proof.
  intros [Hb V]. pose proof (gm_k _ _ _ (tw_geo _ _ _ W)). pose proof (gm_s _ _ _ (tw_geo _ _ _ W)).
  pose proof (tw_set _ _ _ W _ _ Hb). pose proof (bw_tag _ _ _ _ (tw_blk _ _ _ W _ _ Hb) V). unfold blk_base.
  rewrite (regenerate_ok _ _ _ (tw_geo _ _ _ W)) by done. rewrite Z.pow_add_r by lia.
  replace (blk_tag b * (2 ^ k * 2 ^ s) + blk_set b * 2 ^ k) with ((blk_tag b * 2 ^ s + blk_set b) * 2 ^ k) by lia.
  split; [apply Z.mod_mul; lia|nia].
Qed.

Lemma blk_base_inj i j b c : resident t i b -> resident t j c -> blk_isSecure b = blk_isSecure c -> blk_base t b = blk_base t c -> i = j.
Proof.
  intros [Hb Vb] [Hc Vc] Hs E. unfold blk_base in E. pose proof (tw_geo _ _ _ W) as G.
  destruct (extract_regenerate _ _ _ G _ _ (bw_tag _ _ _ _ (tw_blk _ _ _ W _ _ Hb) Vb) (tw_set _ _ _ W _ _ Hb)) as [E1 E2].
  destruct (extract_regenerate _ _ _ G _ _ (bw_tag _ _ _ _ (tw_blk _ _ _ W _ _ Hc) Vc) (tw_set _ _ _ W _ _ Hc)) as [E3 E4].
  rewrite E in E1, E2. eapply (tw_unique _ _ _ W); eauto; congruence.
Qed.

Lemma is_for_resident a i b :
  is_u64 a -> blks t !! i = Some b -> is_for t a false b <-> resident t i b /\ blk_isSecure b = false /\ blk_base t b = base_of k a.
Proof. intros Ha Hb. rewrite (is_for_base _ _ _ W _ _ _ _ Ha Hb). unfold resident, blk_base. naive_solver. Qed.
End Content.

(** ** Changes *)

Section Changes.
Context (t : Tags) (k s lo hi : Z) (f fm : Z -> Z) (pend : list (Z * list Z)).
Context (C : content t k s lo hi f fm pend).

(** Only the blocks count. *)
Lemma content_same t' :
  tags_wf t' k s -> blks t' = blks t -> (forall b, blk_base t' b = blk_base t b) -> content t' k s lo hi f fm pend.
Proof.
  intros W' Hb Hr. destruct C as [W C1 C2 C3 C4]. split; try done; unfold resident in *; rewrite Hb.
  - intros i b. rewrite Hr. apply C1.
  - intros i b. rewrite Hr. apply C2.
  - intros a Ha Hd. apply C3; [done|]. intros i b Hi. rewrite <- Hr. by eapply Hd.
  - intros wa d Hp. destruct (C4 wa d Hp) as (?&?&?&?&?&?). split_and!; try done. intros i b Hi. rewrite Hr. eauto.
Qed.

(** A block stops being valid; if it was dirty its bytes are under way. *)
Lemma content_remove t' i b b0 :
  tags_wf t' k s -> blks t !! i = Some b -> blks t' = <[i := b0]> (blks t) -> isValid b0 = false ->
  (forall c, blk_base t' c = blk_base t c) ->
  content t' k s lo hi f fm (if isValid b && isDirty b then (blk_base t b, blk_data b) :: pend else pend).
Proof.
  intros W' Hb Hbs V0 Hr. destruct C as [W C1 C2 C3 C4]. pose proof (lookup_lt_Some _ _ _ Hb) as Hlt.
  assert (forall j c, resident t' j c <-> j <> i /\ resident t j c) as Hres.
  { intros j c. unfold resident. rewrite Hbs. destruct (decide (j = i)) as [->|].
    - rewrite list_lookup_insert_eq by done. split; [intros [[= <-] ?]; congruence|naive_solver].
    - rewrite list_lookup_insert_ne by done. naive_solver. }
  assert (forall wa d, (wa, d) ∈ (if isValid b && isDirty b then (blk_base t b, blk_data b) :: pend else pend) <->
    (isValid b = true /\ isDirty b = true /\ wa = blk_base t b /\ d = blk_data b) \/ (wa, d) ∈ pend) as Hp.
  { intros wa d. destruct (isValid b), (isDirty b); cbn; rewrite ?elem_of_cons, ?pair_eq; intuition congruence. }
  split; try done.
  - intros j c [_ Hj]%Hres. rewrite Hr. eauto.
  - intros j c [_ Hj]%Hres. rewrite Hr. eauto.
  - intros a Ha Hd Hpe. apply C3; [done| |].
    + intros j c Hj Hdc. destruct (decide (j = i)) as [->|].
      * destruct Hj as [Hc V]. rewrite Hb in Hc. injection Hc as <-. apply (Hpe _ (blk_data b)), Hp. by left.
      * rewrite <- Hr. by eapply Hd; [apply Hres|].
    + intros wa d Hin. eapply Hpe, Hp. by right.
  - intros wa d [(V & D & -> & ->)|Hin]%Hp.
    + assert (resident t i b) as Hi by done. destruct (C1 _ _ Hi) as (Hs & _ & _ & H1 & H2).
      split_and!; try done; [by eapply blk_base_mod|apply (tw_blk _ _ _ W _ _ Hb)|by eapply C2|].
      intros j c [Hne Hj]%Hres. rewrite Hr. intros E. apply Hne. destruct (C1 _ _ Hj) as (Hs' & _). eapply (blk_base_inj t k s W); eauto; congruence.
    + destruct (C4 wa d Hin) as (?&?&?&?&?&Hn). split_and!; try done. intros j c [_ Hj]%Hres. rewrite Hr. eauto.
Qed.

(** A writeback reaches the memory. *)
Lemma content_send wa d pend' : pend = (wa, d) :: pend' -> content t k s lo hi f (mem_store fm wa d) pend'.
Proof.
  intros ->. destruct C as [W C1 C2 C3 C4]. destruct (C4 wa d) as (H1 & H2 & H3 & H4 & H5 & H6); [apply list_elem_of_here|].
  pose proof (wf_k _ _ _ W) as Hk. split; try done.
  - intros a Ha Hd Hp. destruct (decide (wa <= a < wa + 2 ^ k)) as [Hin|Hout].
    + pose proof (mem_store_in fm wa d a ltac:(lia)) as Hl. rewrite (H5 _ _ Hl). f_equal. lia.
    + rewrite mem_store_out by lia. apply C3; [done..|]. intros wa' d' [[= -> ->]|Hin]%elem_of_cons; [|by eapply Hp].
      intros E. apply Hout. symmetry in E. by apply base_of_aligned in E; [|lia|].
  - intros wa' d' Hin. apply C4. by apply list_elem_of_further.
Qed.

(** A block becomes or stays the block of its address; the memory may change
    with it, and agrees with it if it is clean. *)
Lemma content_sync i b b' f' fm' :
  blks t !! i = Some b -> blk_set b' = blk_set b -> (isValid b = true -> blk_tag b' = blk_tag b) ->
  isValid b' = true -> blk_isSecure b' = false -> isWritable b' = true -> isReadable b' = true ->
  0 <= blk_tag b' < 2 ^ (64 - k - s) -> srcMasterId b' < maxMasters t -> Z.of_nat (length (blk_data b')) = 2 ^ k ->
  lo <= blk_base t b' -> blk_base t b' + 2 ^ k <= hi ->
  (forall j c, j <> i -> resident t j c -> blk_base t c <> blk_base t b') ->
  (forall wa d, (wa, d) ∈ pend -> wa <> blk_base t b') ->
  holds f' (blk_base t b') (blk_data b') ->
  (forall x, base_of k x <> blk_base t b' -> f' x = f x /\ fm' x = fm x) ->
  (isDirty b' = true \/ forall x, lo <= x < hi -> base_of k x = blk_base t b' -> fm' x = f' x) ->
  content (with_blks t (<[i := b']> (blks t))) k s lo hi f' fm' pend.
Proof.
  intros Hb Hset Htag V Sec Wr Rd Tg Own Len Lo Hi Huq Hpu Hh Hf Hd. destruct C as [W C1 C2 C3 C4]. pose proof (wf_k _ _ _ W) as Hk.
  pose proof (lookup_lt_Some _ _ _ Hb) as Hlt. set (t' := with_blks t _).
  assert (forall j c, resident t' j c <-> (j = i /\ c = b') \/ (j <> i /\ resident t j c)) as Hres.
  { intros j c. unfold resident, t'. cbn. destruct (decide (j = i)) as [->|].
    - rewrite list_lookup_insert_eq by done. split; [intros [[= <-] _]; by left|intros [[_ ->]|[? _]]; done].
    - rewrite list_lookup_insert_ne by done. split; [intros ?; by right|intros [[? _]|[_ ?]]; done]. }
  assert (forall c j, resident t j c -> blk_base t c <> blk_base t b' -> holds f' (blk_base t c) (blk_data c)) as Hho.
  { intros c j Hj Hne n x Hx. rewrite (C2 _ _ Hj _ _ Hx). symmetry. apply Hf. intros E. apply Hne.
    destruct (blk_base_mod _ _ _ W _ _ Hj) as [Hm _]. rewrite <- E. symmetry. apply base_of_aligned; [lia|done|].
    apply lookup_lt_Some in Hx. pose proof (bw_data _ _ _ _ (tw_blk _ _ _ W _ _ (proj1 Hj))). lia. }
  split.
  - eapply wf_blk; [done|exact Hb|done| |].
    + split; try done. congruence.
    + intros _ j c Hne Hc Vc Es [Et Ese]. apply (Huq j c Hne); [done|]. unfold blk_base. by rewrite Et, Es, Hset.
  - intros j c [(-> & ->)|(_ & Hj)]%Hres; [done|]. by eapply C1.
  - intros j c [(-> & ->)|(Hne & Hj)]%Hres; [done|]. eapply Hho; eauto.
  - intros a Ha Hdi Hpe. change (blk_base t') with (blk_base t) in Hdi. destruct (decide (base_of k a = blk_base t b')) as [E|Hne].
    + destruct Hd as [D|Hd]; [|by apply Hd]. exfalso. by apply (Hdi i b'); [apply Hres; left|..].
    + destruct (Hf a Hne) as [-> ->]. apply C3; [done| |done]. intros j c Hj Dj. destruct (decide (j = i)) as [->|]; [|by apply (Hdi j c); [apply Hres; right|]].
      destruct Hj as [Hc Vc]. rewrite Hb in Hc. injection Hc as <-. intros E. apply Hne. rewrite <- E. unfold blk_base. by rewrite Hset, Htag.
  - intros wa d Hin. destruct (C4 wa d Hin) as (H1 & H2 & H3 & H4 & H5 & H6). split_and!; try done.
    + intros n x Hx. rewrite (H5 _ _ Hx). symmetry. apply Hf. intros E. apply (Hpu wa d Hin). rewrite <- E. symmetry. apply base_of_aligned; [lia|done|].
      apply lookup_lt_Some in Hx. lia.
    + intros j c [(-> & ->)|(_ & Hj)]%Hres; [intros E; by apply (Hpu wa d Hin)|by eapply H6].
Qed.

(** The same while the memory stays: the block is dirty, or holds what is there. *)
Lemma content_put i b b' f' :
  blks t !! i = Some b -> blk_set b' = blk_set b -> (isValid b = true -> blk_tag b' = blk_tag b) ->
  isValid b' = true -> blk_isSecure b' = false -> isWritable b' = true -> isReadable b' = true ->
  0 <= blk_tag b' < 2 ^ (64 - k - s) -> srcMasterId b' < maxMasters t -> Z.of_nat (length (blk_data b')) = 2 ^ k ->
  lo <= blk_base t b' -> blk_base t b' + 2 ^ k <= hi ->
  (forall j c, j <> i -> resident t j c -> blk_base t c <> blk_base t b') ->
  (forall wa d, (wa, d) ∈ pend -> wa <> blk_base t b') ->
  holds f' (blk_base t b') (blk_data b') ->
  (forall x, base_of k x <> blk_base t b' -> f' x = f x) ->
  (isDirty b' = true \/ (isValid b = false /\ forall x, f' x = f x)) ->
  content (with_blks t (<[i := b']> (blks t))) k s lo hi f' fm pend.
Proof.
  intros Hb Hset Htag V Sec Wr Rd Tg Own Len Lo Hi Huq Hpu Hh Hf Hd. apply (content_sync i b b' f' fm); try done; [auto|].
  destruct Hd as [D|[V0 E]]; [by left|right]. intros x Hx Hb'. rewrite E. apply (ct_mem _ _ _ _ _ _ _ _ C x Hx); rewrite Hb'; [|done].
  intros j c Hj _. apply (Huq j c); [|done]. intros ->. destruct Hj as [Hc Vc]. congruence.
Qed.

(** A store past the cache, to a block that is not in it. *)
Lemma content_through a d :
  pend = [] -> a mod 2 ^ k + Z.of_nat (length d) <= 2 ^ k -> (forall i b, resident t i b -> blk_base t b <> base_of k a) ->
  content t k s lo hi (mem_store f a d) (mem_store fm a d) [].
Proof.
  intros -> Hl Hno. destruct C as [W C1 C2 C3 C4]. pose proof (wf_k _ _ _ W) as Hk. split; try done.
  - intros i b Hi j x Hx. rewrite (C2 _ _ Hi _ _ Hx). symmetry. apply mem_store_out. intros Hin. apply (Hno i b Hi).
    destruct (blk_base_mod _ _ _ W _ _ Hi) as [Hm _]. apply lookup_lt_Some in Hx. pose proof (bw_data _ _ _ _ (tw_blk _ _ _ W _ _ (proj1 Hi))).
    transitivity (base_of k (blk_base t b + Z.of_nat j)); [symmetry; apply base_of_aligned; [lia|done|lia]|].
    apply base_of_aligned; [lia|apply base_of_mod; lia|]. pose proof (base_of_in k a ltac:(lia)). unfold base_of in *. lia.
  - intros x Hx Hd Hp. unfold mem_store. case_decide; [|by apply C3]. by rewrite (C3 x Hx Hd Hp).
  - intros wa dd Hin. by apply not_elem_of_nil in Hin.
Qed.

(** Locks do not count. *)
Lemma content_locks : content (clearLocks t) k s lo hi f fm pend /\ params_of (clearLocks t) = params_of t.
Proof.
  split; [|done]. assert (forall i b, blks (clearLocks t) !! i = Some b -> exists b0, blks t !! i = Some b0 /\ b = with_lockList b0 []) as Hl.
  { intros i b Hi. cbn in Hi. rewrite list_lookup_fmap in Hi. apply fmap_Some in Hi as (b0 & ? & ->). by exists b0. }
  assert (forall i b, resident (clearLocks t) i b -> exists b0, resident t i b0 /\ b = with_lockList b0 []) as Hr.
  { intros i b [(b0 & H1 & ->)%Hl V]. by exists b0. }
  destruct C as [[G Ha Hra Hse Hwa Hin Hset Hblk Huq] C1 C2 C3 C4]. split.
  - split; try done.
    + by destruct G.
    + intros n ways i Hn. rewrite (Hin n ways i Hn). cbn. rewrite list_lookup_fmap. split.
      * intros (b & -> & E). by eexists.
      * intros (b & (b0 & Hb0 & ->)%fmap_Some & E). by exists b0.
    + intros i b (b0 & Hb0 & ->)%Hl. exact (Hset i b0 Hb0).
    + intros i b (b0 & Hb0 & ->)%Hl. destruct (Hblk _ _ Hb0) as [B1 B2 B3 B4]. split; try done. intros V. destruct (B2 V) as [E _]. by split.
    + intros i j b b' (b0 & Hb0 & ->)%Hl (b1 & Hb1 & ->)%Hl. exact (Huq i j b0 b1 Hb0 Hb1).
  - intros i b (b0 & Hb0 & ->)%Hr. exact (C1 i b0 Hb0).
  - intros i b (b0 & Hb0 & ->)%Hr. exact (C2 i b0 Hb0).
  - intros a Haa Hd. apply C3; [done|]. intros i b [Hb V] D. apply (Hd i (with_lockList b [])); [|done].
    split; [|done]. cbn. by rewrite list_lookup_fmap, Hb.
  - intros wa d Hp. destruct (C4 wa d Hp) as (?&?&?&?&?&Hn). split_and!; try done. intros i b (b0 & Hb0 & ->)%Hr. exact (Hn i b0 Hb0).
Qed.
End Changes.
