(* ===== verification/CacheCorrect.v ===== *)
(** * The cache is transparent

    A top-level cache in atomic mode, with any number of sets and ways and either
    replacement policy, over a memory that keeps its promises: every access of the
    processor's side succeeds and is answered as by the memory alone, although
    blocks are fetched, held dirty, replaced and written back on the way. *)
From S2P Require Import Prelude Flags IntMath AddrRange Clock Packet AbstractMem SimpleMem AtomicMem CacheTags Cache CacheContent.

(** ** The memory below *)

Definition mem_range (e : Extent) : AddrRange := AddrRange_plain (ex_lo e) (ex_hi e - 1).

(** What a cache relies on: packets for the memory, whole blocks among them, are
    answered as the abstract memory describes. *)
Class MemSideLaws (M : Type) `{MemPortLaws M} := {
  ms_send m s p d : mp_spec m s -> asks (mem_range (mp_extent m)) p d ->
    exists lat m' p', sendAtomic m p = Ok (lat, m', p') /\ mp_spec m' (sp_access s p d).1.1 /\
      mp_extent m' = mp_extent m /\ data p' = Some (sp_access s p d).1.2 /\ answered p p' /\
      match (sp_access s p d).2 with
      | Some b => getExtraData (req p') = Ok (if b then 1 else 0)
      | None => req p' = req p
      end;
}.

Lemma asks_bounds r r' p d : ar_start r' = ar_start r -> ar_end r' = ar_end r -> asks r p d -> asks r' p d.
Proof. intros E1 E2 [H1 H2 H3 H4 H5 H6 H7 H8]. split; try done. by rewrite E1, E2. Qed.

#[export, refine] Instance SimpleMemory_side : MemSideLaws (SimpleMemory * list Z) := {}.
Proof.
  intros m s p d [Hpq [bs Hr]] Ha. apply (asks_bounds _ (am_range (sm_abstract m.1))) in Ha; [|done|cbn; lia].
  destruct (access_spec _ _ _ _ _ Hr Ha) as (m' & bs' & p' & He & Hr' & Hrng & Hd & Hans & Hx).
  cbn [sendAtomic SimpleMemory_port]. unfold sm_recvAtomic. rewrite He. cbn [rbind]. eexists _, _, p'. split; [done|].
  cbn. rewrite Hrng. split_and!; try done. by exists bs'.
Defined.

(** ** State bits *)

Lemma allSet_set fl f g : flag_allSet fl g = true -> flag_allSet (flag_set fl f) g = true.
Proof.
  unfold flag_allSet, flag_set. rewrite !Z.eqb_eq. intros E. rewrite Z.land_lor_distr_l, E. apply Z.bits_inj'. intros n Hn.
  rewrite Z.lor_spec, Z.land_spec. destruct (Z.testbit g n), (Z.testbit f n); done.
Qed.

Lemma allSet_clear w fl f g : Z.land (wrap w (Z.lnot f)) g = g -> flag_allSet (flag_clear_at w fl f) g = flag_allSet fl g.
Proof. intros Hg. unfold flag_allSet, flag_clear_at. by rewrite <- Z.land_assoc, Hg. Qed.

(** A dirty block keeps its other bits. *)
Lemma dirty_bits b :
  isDirty (set_status b BlkDirty) = true /\ isValid (set_status b BlkDirty) = isValid b /\
  blk_isSecure (set_status b BlkDirty) = blk_isSecure b /\
  (isWritable b = true -> isWritable (set_status b BlkDirty) = true) /\ (isReadable b = true -> isReadable (set_status b BlkDirty) = true).
Proof.
  unfold isDirty, isValid, blk_isSecure, isWritable, isReadable. cbn. rewrite !isSet_set, !orb_false_r, orb_true_r.
  split_and!; try done; apply allSet_set.
Qed.

(** ** Blocks and packets *)

Lemma land_align k a : 0 <= k <= 30 -> is_u64 a -> Z.land a (u64 (Z.lnot (2 ^ k - 1))) = base_of k a.
Proof.
  intros Hk Ha. assert (2 ^ k <= 2 ^ 30) by (apply Z.pow_le_mono_r; lia). unfold base_of. rewrite <- (roundDown_pow2 a k) by (lia || done).
  unfold roundDown. by rewrite (u64_small (2 ^ k - 1)) by (unfold in_range; lia).
Qed.

Lemma getOffset_ok p d k : pkt_ok p d -> 0 <= k <= 30 -> getOffset p (2 ^ k) = Ok (addr p mod 2 ^ k).
Proof.
  intros Hp Hk. assert (2 ^ k <= 2 ^ 30) by (apply Z.pow_le_mono_r; lia). unfold getOffset, getAddr. rewrite (po_addr _ _ Hp). cbn [assert_ rbind].
  rewrite u64_small by (unfold in_range; lia). replace (2 ^ k - 1) with (Z.ones k) by (rewrite Z.ones_equiv; lia). by rewrite Z.land_ones by lia.
Qed.

(** A new buffer. *)
Definition allocated (p : Packet) : Packet :=
  with_flags (with_data p (Some (replicate (Z.to_nat (pk_size p)) 0))) (flag_set (flags p) DYNAMIC_DATA).

Lemma allocate_ok p :
  flag_isSet (flags p) VALID_SIZE = true -> flag_noneSet (flags p) (Z.lor STATIC_DATA DYNAMIC_DATA) = true ->
  allocate p = Ok (allocated p) /\ getPtr (allocated p) = Ok (replicate (Z.to_nat (pk_size p)) 0).
Proof.
  intros Hs Hn. unfold allocate, getSize, dataDynamic, getPtr, allocated. rewrite Hs, Hn. cbn. rewrite isSet_set.
  by rewrite orb_true_r.
Qed.

(** The locks a store clears. *)
Lemma clearLoadLocks_ok b r a : getPaddr r = Ok a -> hasSize r = true -> exists l, clearLoadLocks b (Some r) = Ok (with_lockList b l).
Proof.
  intros Ha Hs. unfold clearLoadLocks. assert (exists l, erase_overlapping (lockList b) r = Ok l) as [l ->]; [|by exists l].
  induction (lockList b) as [|x l [l' IH]]; cbn [erase_overlapping]; [by eexists|]. unfold overlapping, last_addr, rq_getSize.
  unfold hasSize in Hs. rewrite Ha, Hs. cbn [assert_ rbind]. rewrite IH. cbn [rbind]. by eexists.
Qed.

(** A request the cache takes. *)
Record ca_asks (rng : AddrRange) (masters k : Z) (p : Packet) (d : list Z) : Prop := {
  ck_asks : asks rng p d;
  ck_cmd : cmd p = ReadReq \/ cmd p = WriteReq;
  ck_line : addr p mod 2 ^ k + pk_size p <= 2 ^ k;
  ck_plain : _isSecure p = false /\ rq_isSecure (req p) = false /\ sharedAsserted p = false;
  ck_paddr : getPaddr (req p) = Ok (addr p) /\ hasSize (req p) = true;
  ck_master : _masterId (req p) < masters;
}.

(** An uncacheable write of a whole block, of which [recvAtomic] loses the bytes. *)
Definition ca_lost (k : Z) (p : Packet) : bool :=
  isUncacheable (req p) && bool_decide (cmd p = WriteReq) && (pk_size p =? 2 ^ k).

(** ** Requests on a block *)

Section Satisfy.
Context (k : Z) (c : Cache) (p : Packet) (d : list Z) (i : nat) (b : CacheBlk).
Context (Hk : 2 <= k <= 30) (Hsize : ca_blkSize c = 2 ^ k) (Hp : pkt_ok p d) (Hline : addr p mod 2 ^ k + pk_size p <= 2 ^ k).
Context (Hb : blks (ca_tags c) !! i = Some b) (Hv : isValid b = true) (Hlen : Z.of_nat (length (blk_data b)) = 2 ^ k).

Lemma satisfy_start :
  getOffset p (ca_blkSize c) = Ok (addr p mod 2 ^ k) /\ getSize p = Ok (pk_size p) /\ getPtr p = Ok d /\
  (u64 (addr p mod 2 ^ k + pk_size p) <=? ca_blkSize c) = true /\ 0 <= addr p mod 2 ^ k /\ 0 < pk_size p.
Proof.
  rewrite Hsize. assert (2 ^ k <= 2 ^ 30) by (apply Z.pow_le_mono_r; lia). pose proof (Z.mod_pos_bound (addr p) (2 ^ k) ltac:(lia)).
  pose proof (po_region _ _ Hp) as (Hn & _). split; [by apply (getOffset_ok p d); [|lia]|]. unfold getSize, getPtr.
  rewrite (po_size _ _ Hp), (po_ptr _ _ Hp), (po_data _ _ Hp). split_and!; try done; try lia.
  rewrite u64_small by (unfold in_range; lia). apply Z.leb_le. lia.
Qed.

(** A read takes its bytes from the block. *)
Lemma satisfy_read S :
  cmd p = ReadReq -> holds (sp_byte S) (base_of k (addr p)) (blk_data b) -> isTopLevel c = true ->
  exists fl, satisfyCpuSideRequest c p (Way i) false false = Ok (c, with_flags (with_data p (Some (sp_read S (addr p) (length d)))) fl) /\
    (fl = flags p \/ fl = flag_set (flags p) SHARED).
Proof using Hk Hsize Hp Hline Hb Hv Hlen.
  intros Hc Hh Htop. destruct satisfy_start as (Ho & Hn & Hptr & Hle & H0 & Hpos). unfold satisfyCpuSideRequest. rewrite Hc. cbn [get_blk]. rewrite Hb. change (isRequest ReadReq) with true. cbn [assert_ deref rbind]. rewrite Hv, Ho, Hn. cbn [assert_ rbind]. rewrite Hle. cbn [assert_ rbind].
  rewrite decide_False by done. change (isWrite ReadReq) with false. change (isRead ReadReq) with true. change (isLLSC ReadReq) with false. cbn [andb rbind].
  unfold setDataFromBlock. rewrite Ho. cbn [rbind]. unfold setData. rewrite Hptr, Hn. cbn [rbind].
  destruct (memcpy_total d 0 (blk_data b) (addr p mod 2 ^ k) (pk_size p)) as [d' Hd']; [rewrite ?(po_length _ _ Hp); lia..|].
  rewrite Hd'. cbn [rbind]. rewrite <- (po_length _ _ Hp) in Hd'. rewrite (read_bytes _ _ _ _ _ _ Hh Hd').
  replace (base_of k (addr p) + addr p mod 2 ^ k) with (addr p) by (unfold base_of; lia).
  unfold put_blk. rewrite (set_blk_ok _ _ _ _ Hb), list_insert_id by done. cbn [rbind].
  replace (with_tags c (with_blks (ca_tags c) (blks (ca_tags c)))) with c by (destruct c as [[] ? ? ? ? ? ? ? ? ? ? ?]; reflexivity).
  set (q := with_data p _). cbn [cmd with_data] in *. replace (needsExclusive (cmd q)) with false by (unfold q; cbn; by rewrite Hc).
  assert (q = with_flags q (flags p)) as Eq by done.
  assert (assertShared q = with_flags q (flag_set (flags p) SHARED)) as Es by done.
  rewrite Htop. destruct (pk_size p =? ca_blkSize c); [|exists (flags p); rewrite <- Eq; auto].
  destruct (isWritable b && _ && _ && _); [|rewrite Es; eexists; eauto].
  destruct (isDirty b); cbn [negb andb]; [rewrite Es; eexists; eauto|exists (flags p); rewrite <- Eq; auto].
Qed.

(** A write puts its bytes into the block and makes it dirty. *)
Lemma satisfy_write a :
  cmd p = WriteReq \/ cmd p = WriteInvalidateReq -> isTopLevel c = true -> isWritable b = true ->
  getPaddr (req p) = Ok a -> hasSize (req p) = true ->
  exists l d', satisfyCpuSideRequest c p (Way i) false false =
      Ok (with_tags c (with_blks (ca_tags c) (<[i := set_status (with_blk_data (with_lockList b l) d') BlkDirty]> (blks (ca_tags c)))), p) /\
    memcpy (blk_data b) (addr p mod 2 ^ k) d 0 (pk_size p) = Ok d'.
Proof using Hk Hsize Hp Hline Hb Hv Hlen.
  intros Hc Htop Hw Ha Hs. destruct satisfy_start as (Ho & Hn & Hptr & Hle & H0 & Hpos).
  destruct (clearLoadLocks_ok b _ _ Ha Hs) as [l Hl].
  destruct (memcpy_total (blk_data b) (addr p mod 2 ^ k) d 0 (pk_size p)) as [d' Hd']; [rewrite ?(po_length _ _ Hp); lia..|].
  exists l, d'. split; [|done]. unfold satisfyCpuSideRequest.
  assert (isRequest (cmd p) = true /\ cmd p <> SwapReq /\ isWrite (cmd p) && (negb (isWriteInvalidate (cmd p)) || isTopLevel c) = true /\
    isLLSC (cmd p) = false) as (-> & Hns & Hwr & Hll) by (rewrite Htop; by destruct Hc as [-> | ->]).
  cbn [get_blk]. rewrite Hb. cbn [assert_ deref rbind]. rewrite Hv, Ho, Hn. cbn [assert_ rbind]. rewrite Hle. cbn [assert_ rbind].
  rewrite decide_False, Hwr, Hw by done. cbn [assert_ rbind]. unfold checkWrite. rewrite Hll, Hl. cbn [rbind].
  unfold writeDataToBlock. rewrite Ho. cbn [rbind]. unfold writeData. rewrite Hptr, Hn. cbn [rbind blk_data with_lockList]. rewrite Hd'.
  cbn [rbind]. unfold put_blk. rewrite (set_blk_ok _ _ _ _ Hb). done.
Qed.
End Satisfy.

(** ** Writebacks and room for a block *)

Lemma promote_params t n i : params_of (promote t n i) = params_of t /\ blks (promote t n i) = blks t.
Proof. unfold promote. by destruct (tg_policy t). Qed.

Lemma demote_params t n i : params_of (demote t n i) = params_of t /\ blks (demote t n i) = blks t.
Proof. unfold demote. by destruct (tg_policy t). Qed.

(** The packet of a writeback. *)
Definition wb_for (rng : AddrRange) (p : Packet) (w : Z * list Z) : Prop :=
  asks rng p w.2 /\ cmd p = Writeback /\ addr p = w.1.

Lemma clean_wf t k s i b : tags_wf t k s -> blks t !! i = Some b ->
  tags_wf (with_blks t (<[i := clear_status b BlkDirty]> (blks t))) k s /\ isValid (clear_status b BlkDirty) = isValid b.
Proof.
  intros W Hb. assert (isValid (clear_status b BlkDirty) = isValid b) as V by (unfold isValid; cbn; by rewrite isSet_clear_at).
  split; [|done]. destruct (tw_blk _ _ _ W _ _ Hb) as [B1 B2 B3 B4]. eapply wf_blk; [done|exact Hb|done| |].
  - split; rewrite ?V; try done. intros Vf. destruct (B2 Vf) as [E1 E2]. cbn. by rewrite E1.
  - intros Vt j c Hne Hc Vc Es [Et Ese]. apply Hne. rewrite V in Vt. apply (tw_unique _ _ _ W j i c b Hc Hb Vc Vt Es Et).
    rewrite Ese. unfold blk_isSecure. cbn. by rewrite isSet_clear_at.
Qed.

Lemma writebackBlk_ok c k lo hi i b :
  2 <= k <= 30 -> ca_blkSize c = 2 ^ k -> resident (ca_tags c) i b -> isDirty b = true -> isWritable b = true -> blk_isSecure b = false ->
  Z.of_nat (length (blk_data b)) = 2 ^ k -> 0 <= lo <= blk_base (ca_tags c) b -> blk_base (ca_tags c) b + 2 ^ k <= hi -> hi <= 2 ^ 64 ->
  exists wb, writebackBlk c (Way i) =
      Ok (wb, with_tags c (with_blks (ca_tags c) (<[i := clear_status b BlkDirty]> (blks (ca_tags c))))) /\
    wb_for (AddrRange_plain lo (hi - 1)) wb (blk_base (ca_tags c) b, blk_data b).
Proof.
  intros Hk Hs [Hb V] D W Sec Len Hlo Hhi H64. assert (2 ^ k <= 2 ^ 30) by (apply Z.pow_le_mono_r; lia).
  unfold writebackBlk. cbn [get_blk]. rewrite Hb. cbn [deref rbind]. rewrite V, D, Sec, W. cbn [andb assert_ rbind].
  set (a := regenerateBlkAddr (ca_tags c) (blk_tag b) (blk_set b)). rewrite Hs. unfold blk_base in *. fold a in Hlo, Hhi |- *.
  destruct (memcpy_total (replicate (Z.to_nat (2 ^ k)) 0) 0 (blk_data b) 0 (2 ^ k)) as [d Hd]; [rewrite ?length_replicate; lia..|].
  assert (d = blk_data b) as ->.
  { apply memcpy_all in Hd; [|rewrite length_replicate; lia]. rewrite Hd, drop_0, take_ge by lia. done. }
  set (q := setSupplyExclusive _). destruct (allocate_ok q eq_refl eq_refl) as [-> Hq]. cbn [rbind]. rewrite Hq. cbn [rbind].
  change (pk_size q) with (2 ^ k). rewrite Hd. unfold put_blk. cbn [rbind]. rewrite (set_blk_ok _ _ _ _ Hb). cbn [rbind].
  eexists. split; [done|]. split; [|done]. cbn [fst snd]. set (wb := with_data _ _).
  assert (addr wb = a) as Ea by done. assert (pk_size wb = 2 ^ k) as En by done.
  split; try done; rewrite ?Ea, ?En; [|cbn; lia]. split; rewrite ?Ea, ?En; try done; [unfold region; lia|by left].
Qed.

(** Room for the block of [a], which is not in the cache: a victim is written
    back if it is dirty, and its block is the block of [a] now, not yet valid. *)
Lemma make_room c k s lo hi f fm p a :
  content (ca_tags c) k s lo hi f fm [] -> 0 <= lo -> hi <= 2 ^ 64 ->
  ca_blkSize c = 2 ^ k -> mshrs c = [] -> is_u64 a -> getAddr p = Ok a -> _masterId (req p) < maxMasters (ca_tags c) ->
  (forall i b, blks (ca_tags c) !! i = Some b -> ~ is_for (ca_tags c) a false b) ->
  exists i c1 wbs t1 b0 pend, allocateBlock c a [] = Ok (Some i, c1, wbs) /\ c1 = with_tags c (ca_tags c1) /\
    insertBlock (ca_tags c1) p i = Ok t1 /\ params_of t1 = params_of (ca_tags c) /\
    content t1 k s lo hi f fm pend /\ Forall2 (wb_for (AddrRange_plain lo (hi - 1))) wbs pend /\
    (forall wa d, (wa, d) ∈ pend -> wa <> base_of k a) /\
    (forall j b, resident t1 j b -> blk_base t1 b <> base_of k a) /\
    blks t1 !! i = Some b0 /\ isValid b0 = false /\ status b0 = 0 /\ blk_tag b0 = extractTag (ca_tags c) a /\
    blk_set b0 = extractSet (ca_tags c) a /\ srcMasterId b0 = _masterId (req p) /\ Z.of_nat (length (blk_data b0)) = 2 ^ k.
Proof.
  intros C Hlo Hhi Hs Hm Ha Hga Hmid Hmiss. set (t := ca_tags c) in *. pose proof (ct_wf _ _ _ _ _ _ _ _ C) as W. pose proof (wf_k _ _ _ W) as Hk.
  destruct (findVictim_ok t k s W a) as (i & r & b & Hf & Wr & Hb & Es & _). set (tr := with_random t r) in *.
  assert (exists bb wbs, allocateBlock c a [] = Ok (Some i, with_tags c (with_blks tr (<[i := bb]> (blks t))), wbs) /\
    tags_wf (with_blks tr (<[i := bb]> (blks t))) k s /\ renewed tr bb a (_masterId (req p)) = renewed tr b a (_masterId (req p)) /\
    blk_set bb = blk_set b /\
    Forall2 (wb_for (AddrRange_plain lo (hi - 1))) wbs (if isValid b && isDirty b then [(blk_base t b, blk_data b)] else [])) as (bb & wbs & Hal & Wb & Hren & Esb & Hwb).
  { unfold allocateBlock. fold t. rewrite Hf. cbn [rbind]. change (blks tr) with (blks t). rewrite Hb. cbn [deref rbind].
    assert (tr = with_blks tr (<[i := b]> (blks t))) as Etr by (rewrite list_insert_id by done; by destruct t).
    destruct (isValid b) eqn:V; cbn [andb]; [|exists b, []; rewrite <- Etr; split_and!; done].
    unfold findMatch. cbn [mshrs with_tags]. rewrite Hm. cbn [List.find fmap option_fmap option_map].
    destruct (isDirty b) eqn:D; [|exists b, []; rewrite <- Etr; split_and!; done].
    assert (resident t i b) as Hres by done. destruct (ct_blk _ _ _ _ _ _ _ _ C _ _ Hres) as (B1 & B2 & B3 & B4 & B5).
    destruct (writebackBlk_ok (with_tags c tr) k lo hi i b) as (wb & He & Hwb); try done; [apply (tw_blk _ _ _ W _ _ Hb)|].
    rewrite He. cbn [rbind]. exists (clear_status b BlkDirty), [wb]. split; [done|]. split_and!; try done; [|by constructor].
    by apply (clean_wf tr k s i b Wr Hb). }
  assert (blks (with_blks tr (<[i := bb]> (blks t))) !! i = Some bb) as Hbb by (apply list_lookup_insert_eq; by eapply lookup_lt_Some).
  destruct (insertBlock_ok _ _ _ Wb p i a bb Hga Hbb) as [Hins W1]; [rewrite Esb; exact Es|exact Hmid|].
  assert (renewed (with_blks tr (<[i := bb]> (blks t))) bb a (_masterId (req p)) = renewed tr b a (_masterId (req p))) as Hren' by exact Hren.
  rewrite Hren' in Hins, W1. set (t1 := promote _ _ _) in Hins, W1.
  destruct (promote_params (with_blks (with_blks tr (<[i:=bb]> (blks t))) (<[i:=renewed tr b a (_masterId (req p))]> (<[i:=bb]> (blks t)))) (extractSet t a) i) as [Ep Eb].
  assert (params_of t1 = params_of t) as Et1 by exact Ep.
  assert (blks t1 = <[i := renewed tr b a (_masterId (req p))]> (blks t)) as Ebl by (etransitivity; [exact Eb|]; cbn; by rewrite list_insert_insert_eq).
  pose proof (params_same _ _ Et1) as (_ & _ & Hbase & _).
  pose proof (content_remove _ _ _ _ _ _ _ _ C t1 i b _ W1 Hb Ebl eq_refl Hbase) as C1.
  assert (forall j c0, resident t j c0 -> blk_base t c0 <> base_of k a) as Hnb.
  { intros j c0 Hj E. apply (Hmiss j c0 (proj1 Hj)). apply (is_for_resident t k s W a j c0 Ha (proj1 Hj)). split_and!; try done. by eapply (ct_blk _ _ _ _ _ _ _ _ C). }
  eexists i, _, wbs, t1, _, _. split; [exact Hal|]. split; [done|]. split; [exact Hins|]. split; [done|]. split; [exact C1|].
  split; [exact Hwb|]. split.
  { intros wa d Hin. destruct (isValid b) eqn:V; cbn [andb] in Hin; [|by apply not_elem_of_nil in Hin].
    destruct (isDirty b); [|by apply not_elem_of_nil in Hin]. apply list_elem_of_singleton in Hin as [= -> ->]. by apply (Hnb i b). }
  split.
  { intros j c0 [Hj Vj]. rewrite Hbase. rewrite Ebl in Hj. destruct (decide (j = i)) as [->|Hne].
    - rewrite list_lookup_insert_eq in Hj by (by eapply lookup_lt_Some). by injection Hj as <-.
    - rewrite list_lookup_insert_ne in Hj by done. by apply (Hnb j c0). }
  split; [rewrite Ebl; apply list_lookup_insert_eq; by eapply lookup_lt_Some|]. split_and!; try done. apply (tw_blk _ _ _ W _ _ Hb).
Qed.

(** ** Fills *)

Definition config (c : Cache) := (ca_blkSize c, isTopLevel c, doFastWrites c, bypassCaches c, mshrs c, ca_period c).

(** The bytes a fill leaves in a block that had [old]. *)
Definition filled (p : Packet) (old : list Z) : list Z := if isRead (cmd p) then default [] (data p) else old.

Lemma fill_ok c k s lo hi f fm p pay a :
  content (ca_tags c) k s lo hi f fm [] -> 0 <= lo -> hi <= 2 ^ 64 ->
  ca_blkSize c = 2 ^ k -> mshrs c = [] -> is_u64 a -> getAddr p = Ok a -> _masterId (req p) < maxMasters (ca_tags c) ->
  (forall i b, blks (ca_tags c) !! i = Some b -> ~ is_for (ca_tags c) a false b) ->
  isResponse (cmd p) || isWriteInvalidate (cmd p) = true -> hasData (cmd p) = true -> isRead (cmd p) || isWriteInvalidate (cmd p) = true ->
  _isSecure p = false -> sharedAsserted p = false -> memInhibitAsserted p = false ->
  (isRead (cmd p) = true -> exists d, getPtr p = Ok d /\ data p = Some d /\ Z.of_nat (length d) = 2 ^ k /\ getSize p = Ok (2 ^ k)) ->
  exists i c' wbs t1 b0 b' pend, handleFill c p pay None [] = Ok (Way i, c', wbs) /\ config c' = config c /\
    ca_tags c' = with_blks t1 (<[i := b']> (blks t1)) /\ params_of t1 = params_of (ca_tags c) /\
    content t1 k s lo hi f fm pend /\ Forall2 (wb_for (AddrRange_plain lo (hi - 1))) wbs pend /\
    (forall wa d, (wa, d) ∈ pend -> wa <> base_of k a) /\
    (forall j b, resident t1 j b -> blk_base t1 b <> base_of k a) /\
    blks t1 !! i = Some b0 /\ isValid b0 = false /\ blk_set b0 = blk_set b' /\
    blk_tag b' = extractTag (ca_tags c) a /\ blk_set b' = extractSet (ca_tags c) a /\ srcMasterId b' = _masterId (req p) /\
    status b' = Z.lor (Z.lor BlkValid BlkReadable) BlkWritable /\ blk_data b' = filled p (blk_data b0) /\
    Z.of_nat (length (blk_data b')) = 2 ^ k.
Proof.
  intros C Hlo Hhi Hs Hm Ha Hga Hmid Hmiss Hq Hhd Hrw Hsec Hsh Hin Hrd.
  destruct (make_room c k s lo hi f fm p a C Hlo Hhi Hs Hm Ha Hga Hmid Hmiss) as
    (i & c1 & wbs & t1 & b0 & pend & Hal & Ec1 & Hins & Hpar & C1 & Hwb & Hpe & Hno & Hb0 & V0 & S0 & T0 & Set0 & M0 & L0).
  unfold handleFill. rewrite Hq. cbn [assert_ rbind]. rewrite Hga. cbn [rbind].
  assert (isSecure p = Ok false) as ->.
  { unfold isSecure. unfold getAddr in Hga. destruct (flag_isSet (flags p) VALID_ADDR); [|done]. cbn. by rewrite Hsec. }
  cbn [rbind]. rewrite Hhd, Hrw. cbn [assert_ rbind]. rewrite Hal. cbn [rbind]. rewrite Hins. cbn [rbind get_blk ca_tags with_tags].
  rewrite Hb0. cbn [deref rbind]. rewrite V0. cbn [negb assert_ rbind get_blk ca_tags with_tags]. rewrite Hb0. cbn [deref rbind].
  rewrite Hsh, Hin. cbn [negb]. set (b1 := set_status (set_status b0 _) _).
  assert ((if isRead (cmd p) then
      let* n := getSize p in
      let* _ := assert_ (n =? ca_blkSize (with_tags c1 t1)) in let* src := getPtr p in
      let* d := memcpy (blk_data b1) 0 src 0 (ca_blkSize (with_tags c1 t1)) in Ok (with_blk_data b1 d)
    else Ok b1) = Ok (with_blk_data b1 (filled p (blk_data b0))) /\ Z.of_nat (length (filled p (blk_data b0))) = 2 ^ k) as [-> Hlf].
  { unfold filled. destruct (isRead (cmd p)); [|split; [by destruct b0|done]].
    destruct (Hrd eq_refl) as (d & -> & -> & Hld & ->). cbn [assert_ rbind default]. rewrite Ec1. cbn [ca_blkSize with_tags]. rewrite Hs, Z.eqb_refl.
    cbn [assert_ rbind]. change (blk_data b1) with (blk_data b0).
    destruct (memcpy_total (blk_data b0) 0 d 0 (2 ^ k)) as [d' Hd']; [lia..|]. rewrite Hd'. cbn [rbind]. split; [|done].
    apply memcpy_all in Hd'; [|lia]. rewrite Hd', drop_0, take_ge by lia. done. }
  cbn [rbind]. destruct (clockEdge _ _ _ _) as [edge clk]. unfold put_blk. cbn [ca_tags with_clock with_tags]. rewrite (set_blk_ok _ _ _ _ Hb0). cbn [rbind].
  eexists i, _, wbs, t1, b0, _, pend. split; [done|]. split; [by rewrite Ec1|]. split; [done|]. split_and!; try done.
  cbn. by rewrite S0.
Qed.

(** ** Stores *)

Lemma holds_stored f a d : holds (mem_store f a d) a d.
Proof.
  intros i b Hi. pose proof (lookup_lt_Some _ _ _ Hi). pose proof (mem_store_in f a d (a + Z.of_nat i) ltac:(lia)) as E.
  replace (Z.to_nat (a + Z.of_nat i - a)) with i in E by lia. rewrite Hi in E. by injection E.
Qed.

Lemma store_outside f a d k x :
  0 <= k -> a mod 2 ^ k + Z.of_nat (length d) <= 2 ^ k -> base_of k x <> base_of k a -> mem_store f a d x = f x.
Proof.
  intros Hk Hl Hne. apply mem_store_out. intros Hx. apply Hne. apply base_of_aligned; [done|by apply base_of_mod|].
  pose proof (base_of_in k a Hk). unfold base_of in *. lia.
Qed.

(** The bytes of a store in a block. *)
Lemma store_in_block f k a d old d' :
  holds f (base_of k a) old \/ (a mod 2 ^ k = 0 /\ length d = length old) ->
  memcpy old (a mod 2 ^ k) d 0 (Z.of_nat (length d)) = Ok d' -> holds (mem_store f a d) (base_of k a) d' /\ length d' = length old.
Proof.
  intros Hh Hm. pose proof (memcpy_inv _ _ _ _ _ _ Hm) as (_ & Hl & _). split; [|done]. destruct Hh as [Hh|[Ha Hlen]].
  - pose proof (write_bytes _ _ _ _ _ _ Hh Hm) as Hw. by replace (base_of k a + a mod 2 ^ k) with a in Hw by (unfold base_of; lia).
  - rewrite Ha in Hm. apply memcpy_all in Hm; [|lia]. rewrite drop_0, take_ge in Hm by lia. subst d'.
    replace (base_of k a) with a by (unfold base_of; lia). apply holds_stored.
Qed.

Lemma stored_block_bits b l d :
  let b' := set_status (with_blk_data (with_lockList b l) d) BlkDirty in
  isDirty b' = true /\ isValid b' = isValid b /\ blk_isSecure b' = blk_isSecure b /\
  (isWritable b = true -> isWritable b' = true) /\ (isReadable b = true -> isReadable b' = true).
Proof. apply (dirty_bits (with_blk_data (with_lockList b l) d)). Qed.

(** ** The cache over its memory *)

Section Cached.
Context {M : Type} {MP : MemPort M} {ML : MemPortLaws M} {MS : MemSideLaws M}.
Implicit Types (c : Cache) (m : M) (S : MemSpec).

(** The cache, the memory and the writebacks on their way together hold the
    bytes of [S]; [Sm] is what the memory holds. *)
Record holding c m S Sm (k s : Z) (pend : list (Z * list Z)) : Prop := {
  hd_size : ca_blkSize c = 2 ^ k;
  hd_top : isTopLevel c = true;
  hd_fast : doFastWrites c = true;
  hd_mode : bypassCaches c = false;
  hd_mshrs : mshrs c = [];
  hd_lo : ex_lo (mp_extent m) mod 2 ^ k = 0;
  hd_hi : ex_hi (mp_extent m) mod 2 ^ k = 0;
  hd_mem : mp_spec m Sm;
  hd_content : content (ca_tags c) k s (ex_lo (mp_extent m)) (ex_hi (mp_extent m)) (sp_byte S) (sp_byte Sm) pend;
}.

Definition cache_ok c m S (k s : Z) : Prop := exists Sm, holding c m S Sm k s [].

(** The writebacks are sent. *)
Lemma send_writebacks_ok wbs : forall pend c m S Sm k s,
  holding c m S Sm k s pend -> Forall2 (wb_for (mem_range (mp_extent m))) wbs pend ->
  exists m' Sm', send_writebacks m wbs = Ok m' /\ mp_extent m' = mp_extent m /\ holding c m' S Sm' k s [].
Proof.
  induction wbs as [|wb wbs IH]; intros pend c m S Sm k s Hh Hf.
  { apply Forall2_nil_inv_l in Hf as ->. by exists m, Sm. }
  apply Forall2_cons_inv_l in Hf as ([wa d] & pend' & (Ha & Hc & Hw) & Hf & ->). cbn [fst snd] in *. cbn [send_writebacks].
  destruct (ms_send m Sm wb d (hd_mem _ _ _ _ _ _ _ Hh) Ha) as (lat & m1 & p' & -> & Hs & He & _). cbn [rbind].
  destruct (IH pend' c m1 S (sp_access Sm wb d).1.1 k s) as (m' & Sm' & -> & He' & Hh').
  - destruct Hh as [H1 H2 Hfw H3 H4 H5 H6 _ C]. split; rewrite ?He; try done.
    assert (forall y, sp_byte (sp_access Sm wb d).1.1 y = mem_store (sp_byte Sm) wa d y) as E by (intros y; unfold sp_access; by rewrite Hc, Hw).
    unfold sp_access. rewrite Hc, Hw. cbn. by eapply content_send.
  - by rewrite He.
  - exists m', Sm'. split; [done|]. split; [congruence|done].
Qed.

(** A block that is not in the cache is in the memory. *)
Lemma block_in_memory c m S Sm k s a n :
  holding c m S Sm k s [] -> ex_lo (mp_extent m) <= a < ex_hi (mp_extent m) -> (forall i b, resident (ca_tags c) i b -> blk_base (ca_tags c) b <> base_of k a) ->
  forall x, base_of k a <= x -> x + Z.of_nat n <= base_of k a + 2 ^ k -> sp_read Sm x n = sp_read S x n.
Proof.
  intros Hh Ha Hno x Hx Hn. pose proof (hd_content _ _ _ _ _ _ _ Hh) as C. pose proof (wf_k _ _ _ (ct_wf _ _ _ _ _ _ _ _ C)) as Hk.
  apply list_eq. intros i. rewrite !sp_read_lookup. case_decide; [|done]. f_equal.
  assert (base_of k (x + Z.of_nat i) = base_of k a) as E by (apply base_of_aligned; [lia|apply base_of_mod; lia|lia]).
  apply (ct_mem _ _ _ _ _ _ _ _ C).
  - pose proof (aligned_fits k _ _ a ltac:(lia) (hd_lo _ _ _ _ _ _ _ Hh) (hd_hi _ _ _ _ _ _ _ Hh) Ha). lia.
  - intros j b Hj _. rewrite E. by eapply Hno.
  - intros wa d Hin. by apply not_elem_of_nil in Hin.
Qed.

(** ** Requests of the processor *)

(** A request under way: a read or a write within a block, or a write of a whole
    block that has become an invalidating one. *)
Record job (rng : AddrRange) (masters k : Z) (p : Packet) (d : list Z) : Prop := {
  jb_pkt : pkt_ok p d;
  jb_inside : ar_start rng <= addr p /\ addr p + pk_size p - 1 <= ar_end rng;
  jb_free : memInhibitAsserted p = false;
  jb_cmd : cmd p = ReadReq \/ cmd p = WriteReq \/ (cmd p = WriteInvalidateReq /\ pk_size p = 2 ^ k /\ addr p mod 2 ^ k = 0);
  jb_line : addr p mod 2 ^ k + pk_size p <= 2 ^ k;
  jb_plain : _isSecure p = false /\ rq_isSecure (req p) = false /\ sharedAsserted p = false;
  jb_paddr : getPaddr (req p) = Ok (addr p) /\ hasSize (req p) = true;
  jb_master : _masterId (req p) < masters;
  jb_fetch : isWrite (cmd p) = true -> isInstFetch (req p) = false;
}.

(** What it is to do: the bytes of memory and of the packet afterwards. *)
Definition job_spec S (p : Packet) (d : list Z) : MemSpec :=
  if isWrite (cmd p) then sp_write (sp_clear S (la_mask (addr p))) (addr p) d else S.
Definition job_data S (p : Packet) (d : list Z) : list Z :=
  if isWrite (cmd p) then d else sp_read S (addr p) (length d).

(** A request that has been satisfied but not turned into a response. *)
Definition satisfied S (p : Packet) (d : list Z) (p' : Packet) : Prop :=
  cmd p' = cmd p /\ data p' = Some (job_data S p d) /\ req p' = req p /\
  (flags p' = flags p \/ flags p' = flag_set (flags p) SHARED).

Lemma job_u64 rng masters k p d : job rng masters k p d -> is_u64 (addr p) /\ getAddr p = Ok (addr p) /\ isSecure p = Ok false /\ 0 < pk_size p.
Proof.
  intros J. destruct (po_region _ _ (jb_pkt _ _ _ _ _ J)) as (H1 & H2 & H3). unfold getAddr, isSecure.
  rewrite (po_addr _ _ (jb_pkt _ _ _ _ _ J)). destruct (jb_plain _ _ _ _ _ J) as (-> & _). unfold in_range. split_and!; try done; lia.
Qed.

Lemma holding_tags c m S Sm k s pend t' :
  holding c m S Sm k s pend -> tags_wf t' k s -> params_of t' = params_of (ca_tags c) -> blks t' = blks (ca_tags c) ->
  holding (with_tags c t') m S Sm k s pend.
Proof.
  intros [H1 H2 H3 H4 H5 H6 H7 C] W Hp Hb. split; try done. cbn. eapply content_same; try done. apply (params_same _ _ Hp).
Qed.

(** A request for a block that is in the cache. *)
Lemma hit_ok c m S Sm k s pend p d i b :
  holding c m S Sm k s pend -> job (mem_range (mp_extent m)) (maxMasters (ca_tags c)) k p d ->
  blks (ca_tags c) !! i = Some b -> is_for (ca_tags c) (addr p) false b ->
  exists c' p', satisfyCpuSideRequest c p (Way i) false false = Ok (c', p') /\ satisfied S p d p' /\
    params_of (ca_tags c') = params_of (ca_tags c) /\ holding c' m (job_spec S p d) Sm k s pend.
Proof.
  intros Hh J Hb Hf. pose proof (hd_content _ _ _ _ _ _ _ Hh) as C. pose proof (ct_wf _ _ _ _ _ _ _ _ C) as W. pose proof (wf_k _ _ _ W) as Hk.
  destruct (job_u64 _ _ _ _ _ J) as (Ha & _ & _ & _). pose proof (proj1 (is_for_resident _ _ _ W _ _ _ Ha Hb) Hf) as (Hr & Hsec & Hbase).
  pose proof (ct_holds _ _ _ _ _ _ _ _ C _ _ Hr) as Hho. pose proof (ct_blk _ _ _ _ _ _ _ _ C _ _ Hr) as (_ & Hw & Hrd & Hlo & Hhi).
  pose proof (tw_blk _ _ _ W _ _ Hb) as [B1 B2 B3 B4]. pose proof (proj2 Hr) as V.
  assert (cmd p = ReadReq \/ (cmd p = WriteReq \/ cmd p = WriteInvalidateReq)) as [Hc|Hc] by (destruct (jb_cmd _ _ _ _ _ J) as [?|[?|[? _]]]; auto).
  - destruct (satisfy_read k c p d i b Hk (hd_size _ _ _ _ _ _ _ Hh) (jb_pkt _ _ _ _ _ J) (jb_line _ _ _ _ _ J) Hb V B1 S) as (fl & He & Hfl);
      [done|by rewrite <- Hbase|apply Hh|].
    exists c, (with_flags (with_data p (Some (sp_read S (addr p) (length d)))) fl). split; [done|]. unfold satisfied, job_data, job_spec. rewrite Hc. done.
  - destruct (jb_paddr _ _ _ _ _ J) as [Hpa Hsz].
    destruct (satisfy_write k c p d i b Hk (hd_size _ _ _ _ _ _ _ Hh) (jb_pkt _ _ _ _ _ J) (jb_line _ _ _ _ _ J) Hb V B1 _ Hc (hd_top _ _ _ _ _ _ _ Hh) Hw Hpa Hsz)
      as (l & d' & He & Hd').
    rewrite <- (po_length _ _ (jb_pkt _ _ _ _ _ J)) in Hd'. rewrite Hbase in Hho.
    destruct (store_in_block _ _ _ _ _ _ (or_introl Hho) Hd') as [Hho' Hl'].
    set (b' := set_status _ BlkDirty) in He. destruct (stored_block_bits b l d') as (D' & V' & S' & W' & R'). fold b' in D', V', S', W', R'.
    assert (isWrite (cmd p) = true) as Hiw by (by destruct Hc as [-> | ->]).
    eexists _, p. split; [exact He|]. unfold satisfied, job_data, job_spec. rewrite Hiw. split; [split_and!; try done; [apply J|auto]|].
    split; [done|]. destruct Hh as [H1 H2 Hfw H3 H4 H5 H6 H7 _]. split; try done. cbn [ca_tags with_tags sp_byte sp_write sp_clear].
    pose proof (jb_line _ _ _ _ _ J) as Hline. rewrite <- (po_length _ _ (jb_pkt _ _ _ _ _ J)) in Hline.
    assert (blk_base (ca_tags c) b' = base_of k (addr p)) as Hb' by exact Hbase.
    eapply content_put; rewrite ?Hb'; try done; try (by rewrite ?V', ?S'); auto.
    + cbn. rewrite Hl'. done.
    + by rewrite <- Hbase.
    + by rewrite <- Hbase.
    + intros j c0 Hne Hj E. apply Hne. pose proof (ct_blk _ _ _ _ _ _ _ _ C _ _ Hj) as (Hs2 & _).
      eapply (blk_base_inj _ _ _ W); [exact Hj|exact Hr|congruence|congruence].
    + intros wa dd Hin E. destruct (ct_pend _ _ _ _ _ _ _ _ C _ _ Hin) as (_ & _ & _ & _ & _ & Hno). apply (Hno i b Hr). congruence.
    + intros x Hx. by apply (store_outside _ _ _ k); [lia|..].
Qed.

(** The packet that fetches the block of a request. *)
Lemma bus_packet_ok c lo hi masters k p d :
  2 <= k <= 30 -> ca_blkSize c = 2 ^ k -> 0 <= lo -> hi <= 2 ^ 64 -> lo mod 2 ^ k = 0 -> hi mod 2 ^ k = 0 ->
  job (AddrRange_plain lo (hi - 1)) masters k p d -> isUncacheable (req p) = false ->
  exists q, getBusPacket c p None (needsExclusive (cmd p)) = Ok (Some q) /\
    asks (AddrRange_plain lo (hi - 1)) q (replicate (Z.to_nat (2 ^ k)) 0) /\
    cmd q = (if isWriteInvalidate (cmd p) then WriteInvalidateReq else if needsExclusive (cmd p) then ReadExReq else ReadReq) /\
    addr q = base_of k (addr p) /\ pk_size q = 2 ^ k /\ req q = req p /\ _isSecure q = false /\ sharedAsserted q = false.
Proof.
  intros Hk Hs Hlo Hhi Hlo' Hhi' J Hu. destruct (job_u64 _ _ _ _ _ J) as (Ha & _ & _ & Hpos). assert (2 ^ k <= 2 ^ 30) by (apply Z.pow_le_mono_r; lia).
  pose proof (jb_inside _ _ _ _ _ J) as Hin. cbn in Hin. destruct (jb_paddr _ _ _ _ _ J) as [Hpa _]. destruct (jb_plain _ _ _ _ _ J) as (_ & Hse & Hsh).
  destruct (aligned_fits k lo hi (addr p) ltac:(lia) Hlo' Hhi' ltac:(lia)) as [Hb1 Hb2].
  assert (hasPaddr (req p) = true /\ _paddr (req p) = addr p) as [Hhp Epa].
  { unfold getPaddr, hasPaddr in *. destruct (flag_isSet (privateFlags (req p)) RQ_VALID_PADDR); [|done]. by injection Hpa. }
  set (cm := if isWriteInvalidate (cmd p) then _ else _). set (q0 := new_Packet_blk (req p) cm (2 ^ k)).
  assert (flags q0 = Z.lor VALID_ADDR VALID_SIZE) as Ef by (unfold q0, new_Packet_blk; cbn; by rewrite Hhp).
  assert (addr q0 = base_of k (addr p)) as Ea by (unfold q0, new_Packet_blk; cbn -[Z.pow]; rewrite Hhp, Epa; apply land_align; [lia|done]).
  assert (pk_size q0 = 2 ^ k) as En by (unfold q0, new_Packet_blk, u32; cbn -[Z.pow]; apply wrap_small; unfold in_range; lia).
  assert (_isSecure q0 = false) as Es by (unfold q0, new_Packet_blk; cbn; by rewrite Hse, andb_false_r).
  destruct (allocate_ok q0) as [Hal _]; [by rewrite Ef..|]. exists (allocated q0). split_and!; try done.
  - unfold getBusPacket. cbn [rbind]. rewrite Hu, Hs. cbn [negb andb].
    assert (bool_decide (cmd p = Writeback) || isUpgrade (cmd p) = false /\ needsResponse (cmd p) = true /\
      bool_decide (cmd p = SCUpgradeFailReq) || bool_decide (cmd p = StoreCondFailReq) = false /\
      (isWriteInvalidate (cmd p) = true -> cmd p = WriteInvalidateReq)) as (-> & -> & -> & Hwi)
      by (destruct (jb_cmd _ _ _ _ _ J) as [-> |[-> |[-> _]]]; done).
    cbn [assert_ rbind].
    assert ((if isWriteInvalidate (cmd p) then Ok (cmd p) else Ok (if needsExclusive (cmd p) then ReadExReq else ReadReq)) = Ok cm) as ->.
    { unfold cm. destruct (isWriteInvalidate (cmd p)); [by rewrite Hwi|done]. }
    cbn [rbind]. rewrite Hsh. fold q0. unfold getAddr at 1. rewrite Ef. cbn [assert_ rbind]. unfold blockAlign. rewrite Hs, Ea.
    change (flag_isSet (Z.lor VALID_ADDR VALID_SIZE) VALID_ADDR) with true. cbn [assert_ rbind].
    rewrite land_align by (lia || (unfold in_range; lia)). replace (base_of k (base_of k (addr p))) with (base_of k (addr p)).
    2: { symmetry. apply base_of_aligned; [lia|apply base_of_mod; lia|lia]. }
    rewrite Z.eqb_refl. cbn [assert_ rbind]. by rewrite Hal.
  - split; cbn [data flags addr pk_size allocated with_flags with_data cmd req]; rewrite ?Ea, ?En; try done.
    + split; cbn [data flags addr pk_size allocated with_flags with_data bytesValid]; rewrite ?Ef, ?Ea, ?En; try done; [|unfold region; lia|by left].
      rewrite length_replicate. lia.
    + cbn. lia.
    + unfold memInhibitAsserted, allocated. cbn [flags with_flags with_data]. by rewrite Ef.
    + unfold q0, new_Packet_blk, cm. cbn. destruct (jb_cmd _ _ _ _ _ J) as [-> |[-> |[-> _]]]; done.
    + unfold q0, new_Packet_blk, cm. cbn. destruct (jb_cmd _ _ _ _ _ J) as [-> |[-> |(-> & E1 & E2)]]; try done.
      intros _. rewrite Hpa. f_equal. unfold base_of. lia.
    + unfold q0, new_Packet_blk, cm. cbn. destruct (jb_cmd _ _ _ _ _ J) as [-> |[-> |(-> & E1 & E2)]]; done.
    + unfold q0, new_Packet_blk, cm. cbn. pose proof (jb_fetch _ _ _ _ _ J) as Hf. destruct (jb_cmd _ _ _ _ _ J) as [E|[E|(E & _ & _)]]; rewrite E in *; done.
    + unfold q0, new_Packet_blk, cm. cbn. destruct (jb_cmd _ _ _ _ _ J) as [-> |[-> |(-> & E1 & E2)]]; done.
  - unfold sharedAsserted, allocated. cbn [flags with_flags with_data]. by rewrite Ef.
Qed.

Lemma holds_read S a n : holds (sp_byte S) a (sp_read S a n).
Proof. intros i b. rewrite sp_read_lookup. case_decide; [|done]. by intros [= <-]. Qed.

(** The state bits of a filled block. *)
Lemma filled_bits b :
  status b = Z.lor (Z.lor BlkValid BlkReadable) BlkWritable ->
  isValid b = true /\ blk_isSecure b = false /\ isWritable b = true /\ isReadable b = true /\ isDirty b = false.
Proof. intros E. unfold isValid, blk_isSecure, isWritable, isReadable, isDirty. by rewrite E. Qed.

(** Where a block filled for address [a] is. *)
Lemma filled_base t k s a b :
  tags_wf t k s -> is_u64 a -> blk_tag b = extractTag t a -> blk_set b = extractSet t a -> blk_base t b = base_of k a.
Proof. intros W Ha Et Es. unfold blk_base. rewrite Et, Es. by eapply regenerate_extract; [apply (tw_geo _ _ _ W)|]. Qed.

(** The block of a request is fetched. *)
Lemma fetch_ok c m S Sm k s p d q pay :
  holding c m S Sm k s [] -> job (mem_range (mp_extent m)) (maxMasters (ca_tags c)) k p d ->
  (forall i b, blks (ca_tags c) !! i = Some b -> ~ is_for (ca_tags c) (addr p) false b) ->
  pkt_ok q (sp_read S (base_of k (addr p)) (Z.to_nat (2 ^ k))) -> addr q = base_of k (addr p) -> pk_size q = 2 ^ k -> req q = req p ->
  _isSecure q = false -> sharedAsserted q = false -> memInhibitAsserted q = false -> isResponse (cmd q) = true -> isRead (cmd q) = true -> hasData (cmd q) = true ->
  exists i c' wbs pend b, handleFill c q pay None [] = Ok (Way i, c', wbs) /\ config c' = config c /\ params_of (ca_tags c') = params_of (ca_tags c) /\
    holding c' m S Sm k s pend /\ Forall2 (wb_for (mem_range (mp_extent m))) wbs pend /\
    blks (ca_tags c') !! i = Some b /\ is_for (ca_tags c') (addr p) false b.
Proof.
  intros Hh J Hmiss Hq Ea En Er Esec Esh Ein Hresp Hrd Hhd. pose proof (hd_content _ _ _ _ _ _ _ Hh) as C. pose proof (ct_wf _ _ _ _ _ _ _ _ C) as W.
  pose proof (wf_k _ _ _ W) as Hk. destruct (job_u64 _ _ _ _ _ J) as (Ha & _ & _ & _). destruct (mp_bounds _ _ (hd_mem _ _ _ _ _ _ _ Hh)) as [Hlo Hhi].
  pose proof (jb_inside _ _ _ _ _ J) as Hin. cbn in Hin. destruct (job_u64 _ _ _ _ _ J) as (_ & _ & _ & Hpos).
  destruct (aligned_fits k _ _ (addr p) ltac:(lia) (hd_lo _ _ _ _ _ _ _ Hh) (hd_hi _ _ _ _ _ _ _ Hh) ltac:(lia)) as [Hb1 Hb2].
  assert (forall x, base_of k x = base_of k (addr p) -> extractTag (ca_tags c) x = extractTag (ca_tags c) (addr p) /\ extractSet (ca_tags c) x = extractSet (ca_tags c) (addr p)) as Hsame.
  { intros x E. pose proof (tw_geo _ _ _ W) as G. rewrite !(extractTag_ok _ _ _ G), !(extractSet_ok _ _ _ G). pose proof (gm_s _ _ _ G).
    rewrite !base_of_div in E by lia. rewrite !Z.pow_add_r, <- !Z.div_div by lia. assert (x / 2 ^ k = addr p / 2 ^ k) as -> by nia. done. }
  assert (base_of k (base_of k (addr p)) = base_of k (addr p)) as Ebb by (apply base_of_aligned; [lia|apply base_of_mod; lia|lia]).
  destruct (Hsame _ Ebb) as [Htag Hset].
  destruct (fill_ok c k s _ _ _ _ q pay (base_of k (addr p)) C Hlo Hhi (hd_size _ _ _ _ _ _ _ Hh) (hd_mshrs _ _ _ _ _ _ _ Hh)) as
    (i & c' & wbs & t1 & b0 & b' & pend & He & Hcfg & Etags & Hpar & C1 & Hwb & Hpe & Hno & Hb0 & V0 & Eset & Et & Es & Em & Est & Ed & El); try done.
  { unfold in_range. lia. }
  { unfold getAddr. by rewrite (po_addr _ _ Hq), Ea. }
  { rewrite Er. apply J. }
  { intros j b Hb. unfold is_for. rewrite Htag, Hset. exact (Hmiss j b Hb). }
  { by rewrite Hresp. }
  { by rewrite Hrd. }
  { intros _. eexists. unfold getPtr, getSize. rewrite (po_ptr _ _ Hq), (po_data _ _ Hq), (po_size _ _ Hq), En. split_and!; try done.
    by rewrite (po_length _ _ Hq). }
  rewrite Ebb in *. rewrite Htag in Et. rewrite Hset in Es. destruct (filled_bits _ Est) as (V & Se & Wr & Rd & Di).
  destruct (params_same _ _ Hpar) as (Ptag & Pset & Pbase & Pmax).
  pose proof (filled_base t1 k s (addr p) b' (ct_wf _ _ _ _ _ _ _ _ C1) Ha ltac:(by rewrite Ptag) ltac:(by rewrite Pset)) as Hbase.
  exists i, c', wbs, pend, b'. split; [done|]. split; [done|]. split; [by rewrite Etags|].
  pose proof (lookup_lt_Some _ _ _ Hb0) as Hlt. split; [|split; [done|]].
  - destruct Hh as [H1 H2 Hfw H3 H4 H5 H6 H7 _]. injection Hcfg as G1 G2 G3 G4 G5 G6. split; try congruence. rewrite Etags.
    eapply content_put; rewrite ?Hbase; try done; try (intros; congruence).
    + rewrite Et, <- Ptag. eapply tag_bound; [apply (ct_wf _ _ _ _ _ _ _ _ C1)|done].
    + rewrite Em, Er, Pmax. apply J.
    + intros j c0 _ Hj. by apply (Hno j).
    + rewrite Ed. unfold filled. rewrite Hrd, (po_data _ _ Hq). apply holds_read.
    + by right.
  - rewrite Etags. cbn. split; [by apply list_lookup_insert_eq|]. split_and!; try done.
    + rewrite Et. symmetry. apply Ptag.
    + rewrite Es. symmetry. apply Pset.
Qed.

(** A whole block is written without having been fetched. *)
Lemma claim_ok c m S Sm k s p d :
  holding c m S Sm k s [] -> job (mem_range (mp_extent m)) (maxMasters (ca_tags c)) k p d ->
  (forall i b, blks (ca_tags c) !! i = Some b -> ~ is_for (ca_tags c) (addr p) false b) -> cmd p = WriteInvalidateReq ->
  exists i c1 c' wbs pend, handleFill c p 0 None [] = Ok (Way i, c1, wbs) /\ satisfyCpuSideRequest c1 p (Way i) false false = Ok (c', p) /\
    params_of (ca_tags c') = params_of (ca_tags c) /\ config c' = config c /\
    holding c' m (job_spec S p d) Sm k s pend /\ Forall2 (wb_for (mem_range (mp_extent m))) wbs pend.
Proof.
  intros Hh J Hmiss Hc. pose proof (hd_content _ _ _ _ _ _ _ Hh) as C. pose proof (ct_wf _ _ _ _ _ _ _ _ C) as W.
  pose proof (wf_k _ _ _ W) as Hk. destruct (job_u64 _ _ _ _ _ J) as (Ha & Hga & _ & Hpos). destruct (mp_bounds _ _ (hd_mem _ _ _ _ _ _ _ Hh)) as [Hlo Hhi].
  pose proof (jb_inside _ _ _ _ _ J) as Hin. cbn in Hin.
  destruct (aligned_fits k _ _ (addr p) ltac:(lia) (hd_lo _ _ _ _ _ _ _ Hh) (hd_hi _ _ _ _ _ _ _ Hh) ltac:(lia)) as [Hb1 Hb2].
  assert (pk_size p = 2 ^ k /\ addr p mod 2 ^ k = 0) as [Hsz Hal] by (pose proof (jb_cmd _ _ _ _ _ J) as Hj; rewrite Hc in Hj; by destruct Hj as [?|[?|(_ & ? & ?)]]).
  destruct (jb_plain _ _ _ _ _ J) as (Hse & _ & Hsh). destruct (jb_paddr _ _ _ _ _ J) as [Hpa Hsi].
  destruct (fill_ok c k s _ _ _ _ p 0 (addr p) C Hlo Hhi (hd_size _ _ _ _ _ _ _ Hh) (hd_mshrs _ _ _ _ _ _ _ Hh)) as
    (i & c1 & wbs & t1 & b0 & b1 & pend & He & Hcfg & Etags & Hpar & C1 & Hwb & Hpe & Hno & Hb0 & V0 & Eset & Et & Es & Em & Est & Ed & El); try done;
    try (apply J); try (by rewrite Hc).
  destruct (filled_bits _ Est) as (V & Se & Wr & Rd & Di). destruct (params_same _ _ Hpar) as (Ptag & Pset & Pbase & Pmax).
  pose proof (filled_base t1 k s (addr p) b1 (ct_wf _ _ _ _ _ _ _ _ C1) Ha ltac:(by rewrite Ptag) ltac:(by rewrite Pset)) as Hbase.
  pose proof (lookup_lt_Some _ _ _ Hb0) as Hlt. assert (blks (ca_tags c1) !! i = Some b1) as Hb1' by (rewrite Etags; by apply list_lookup_insert_eq).
  injection Hcfg as G1 G2 G3 G4 G5 G6. pose proof Hh as [H1 H2 Hfw H3 H4 H5 H6 H7 _].
  destruct (satisfy_write k c1 p d i b1 Hk ltac:(congruence) (jb_pkt _ _ _ _ _ J) (jb_line _ _ _ _ _ J) Hb1' V El _ (or_intror Hc) ltac:(congruence) Wr Hpa Hsi) as (l & d' & Hsat & Hd').
  exists i, c1, (with_tags c1 (with_blks (ca_tags c1) (<[i := set_status (with_blk_data (with_lockList b1 l) d') BlkDirty]> (blks (ca_tags c1))))), wbs, pend.
  split; [done|]. split; [exact Hsat|]. split; [by rewrite Etags|]. split; [unfold config; cbn; congruence|]. split; [|done].
  rewrite <- (po_length _ _ (jb_pkt _ _ _ _ _ J)) in Hd', Hsz.
  assert (length d = length (blk_data b1)) as Hld by lia.
  destruct (store_in_block (sp_byte S) k _ d _ d' (or_intror (conj Hal Hld)) Hd') as [Hho' Hl'].
  destruct (stored_block_bits b1 l d') as (D' & V' & S' & W' & R'). set (b' := set_status _ BlkDirty) in *.
  split; cbn [ca_blkSize isTopLevel doFastWrites bypassCaches mshrs with_tags ca_tags]; try congruence. rewrite Etags. cbn [blks with_blks]. unfold job_spec. rewrite Hc. change (isWrite WriteInvalidateReq) with true.
  change (with_blks (with_blks t1 (<[i:=b1]> (blks t1)))) with (with_blks t1). rewrite list_insert_insert_eq. cbn [sp_byte sp_write sp_clear].
  assert (blk_base t1 b' = base_of k (addr p)) as Hbase' by exact Hbase.
  eapply content_put; rewrite ?Hbase'; try done; try (by rewrite ?V', ?S'); auto.
  - intros Vb. congruence.
  - cbn. rewrite Et, <- Ptag. eapply tag_bound; [apply (ct_wf _ _ _ _ _ _ _ _ C1)|done].
  - cbn. rewrite Em, Pmax. apply J.
  - cbn. rewrite Hl'. done.
  - intros j c0 _ Hj. by apply (Hno j).
  - intros x Hx. apply (store_outside _ _ _ k); [lia|lia|done].
Qed.

Lemma holding_mem c m m' S Sm k s pend : holding c m S Sm k s pend -> mp_spec m' Sm -> mp_extent m' = mp_extent m -> holding c m' S Sm k s pend.
Proof. intros [H1 H2 H3 H4 H5 H6 H7 C] Hs He. split; rewrite ?He; done. Qed.

(** What comes back from the memory for a block. *)
Lemma answered_flags p p' :
  answered p p' -> sharedAsserted p' = sharedAsserted p /\ memInhibitAsserted p' = memInhibitAsserted p /\
  forall d d', pkt_ok p d -> data p' = Some d' -> length d' = length d -> pkt_ok p' d'.
Proof.
  intros (_ & Ha & Hn & _ & Hb & Hf). split; [by apply Hf|]. split; [by apply Hf|]. intros d d' [P1 P2 P3 P4 P5 P6 P7] Hd Hl.
  split; rewrite ?Hf by done; rewrite ?Ha, ?Hn, ?Hb; try done. by rewrite Hl.
Qed.

(** The outcome of a request before the writebacks are sent. *)
Definition reached c m S k s (p : Packet) (d : list Z) (c' : Cache) (m' : M) (p' : Packet) (wbs : list Packet) : Prop :=
  satisfied S p d p' /\ params_of (ca_tags c') = params_of (ca_tags c) /\ mp_extent m' = mp_extent m /\
  exists Sm pend, holding c' m' (job_spec S p d) Sm k s pend /\ Forall2 (wb_for (mem_range (mp_extent m'))) wbs pend.

Lemma no_base c k s a :
  tags_wf (ca_tags c) k s -> is_u64 a -> (forall i b, resident (ca_tags c) i b -> blk_isSecure b = false) ->
  (forall i b, blks (ca_tags c) !! i = Some b -> ~ is_for (ca_tags c) a false b) ->
  forall i b, resident (ca_tags c) i b -> blk_base (ca_tags c) b <> base_of k a.
Proof. intros W Ha Hs Hm i b Hi E. apply (Hm i b (proj1 Hi)), (is_for_resident _ _ _ W _ _ _ Ha (proj1 Hi)). eauto. Qed.

Lemma miss_ok c m S Sm k s p d lat :
  holding c m S Sm k s [] -> job (mem_range (mp_extent m)) (maxMasters (ca_tags c)) k p d -> isUncacheable (req p) = false ->
  (forall i b, blks (ca_tags c) !! i = Some b -> ~ is_for (ca_tags c) (addr p) false b) ->
  exists c' m' p' lat' wbs, handle_miss c m p None lat = Ok (c', m', p', lat', wbs) /\ reached c m S k s p d c' m' p' wbs.
Proof.
  intros Hh J Hu Hmiss. pose proof (hd_content _ _ _ _ _ _ _ Hh) as C. pose proof (ct_wf _ _ _ _ _ _ _ _ C) as W. pose proof (wf_k _ _ _ W) as Hk.
  destruct (mp_bounds _ _ (hd_mem _ _ _ _ _ _ _ Hh)) as [Hlo Hhi]. destruct (job_u64 _ _ _ _ _ J) as (Ha & _ & _ & Hpos).
  pose proof (jb_inside _ _ _ _ _ J) as Hin. cbn in Hin.
  destruct (bus_packet_ok c _ _ _ k p d Hk (hd_size _ _ _ _ _ _ _ Hh) Hlo Hhi (hd_lo _ _ _ _ _ _ _ Hh) (hd_hi _ _ _ _ _ _ _ Hh) J Hu)
    as (q & Hbus & Haq & Eq & Ea & En & Er & Esec & Esh).
  destruct (ms_send m Sm q _ (hd_mem _ _ _ _ _ _ _ Hh) Haq) as (l & m' & q' & Hsend & Hsp & Hext & Hdata & Hans & Hx).
  destruct (answered_flags _ _ Hans) as (Fsh & Fin & Fok). pose proof Hans as (Ecmd & Ea' & En' & Es' & _ & _).
  unfold handle_miss. rewrite Hbus. cbn [rbind]. rewrite Hsend. cbn [rbind].
  assert (needsResponse (cmd p) = true) as -> by (destruct (jb_cmd _ _ _ _ _ J) as [-> |[-> |(-> & _)]]; done).
  assert (isWriteInvalidate (cmd p) = true -> cmd p = WriteInvalidateReq) as Hwi by (destruct (jb_cmd _ _ _ _ _ J) as [-> |[-> |(-> & _)]]; done).
  destruct (isWriteInvalidate (cmd p)) eqn:Ewi.
  - specialize (Hwi eq_refl). rewrite Eq in Ecmd. cbn in Ecmd. rewrite Ecmd. cbn [assert_ rbind isResponse isError].
    change (isResponse WriteInvalidateResp) with true. change (isError WriteInvalidateResp) with false. cbn [assert_ rbind].
    rewrite (hd_top _ _ _ _ _ _ _ Hh). unfold sp_access in Hsp. rewrite Eq in Hsp. cbn in Hsp.
    destruct (claim_ok c m S Sm k s p d Hh J Hmiss Hwi) as (i & c1 & c' & wbs & pend & -> & Hsat & Hpar & Hcfg & Hh' & Hwb). cbn [rbind]. rewrite Hsat. cbn [rbind].
    eexists c', m', p, _, wbs. split; [done|]. split; [|split; [done|split; [done|]]].
    + unfold satisfied, job_data. rewrite Hwi. split_and!; try done; [apply J|auto].
    + exists Sm, pend. split; [by eapply holding_mem|by rewrite Hext].
  - assert (cmd q = ReadReq \/ cmd q = ReadExReq) as Hq by (rewrite Eq; destruct (needsExclusive (cmd p)); auto).
    assert (sp_access Sm q (replicate (Z.to_nat (2 ^ k)) 0) = (Sm, sp_read Sm (base_of k (addr p)) (Z.to_nat (2 ^ k)), None)) as Eacc.
    { unfold sp_access. rewrite Ea, length_replicate. destruct Hq as [-> | ->]; done. }
    rewrite Eacc in Hsp, Hdata, Hx. cbn [fst snd] in Hsp, Hdata, Hx.
    destruct (aligned_fits k _ _ (addr p) ltac:(lia) (hd_lo _ _ _ _ _ _ _ Hh) (hd_hi _ _ _ _ _ _ _ Hh) ltac:(lia)) as [Hb1 Hb2].
    rewrite (block_in_memory c m S Sm k s (addr p) _ Hh ltac:(lia)) in Hdata;
      [|apply (no_base c k s (addr p) W Ha); [intros; by eapply (ct_blk _ _ _ _ _ _ _ _ C)|done]|lia|lia].
    assert (isResponse (cmd q') = true /\ isError (cmd q') = false /\ isRead (cmd q') = true /\ hasData (cmd q') = true) as (R1 & R2 & R3 & R4)
      by (rewrite Ecmd; destruct Hq as [-> | ->]; done).
    rewrite R1, R2, R3. cbn [assert_ rbind orb].
    destruct (fetch_ok c m S Sm k s p d q' (payload_of m' l) Hh J Hmiss) as (i & c1 & wbs & pend & b & -> & Hcfg & Hpar & Hh1 & Hwb & Hb & Hf); try congruence.
    { eapply Fok; [apply Haq|done|]. unfold sp_read. by rewrite length_fmap, length_seq, length_replicate. }
    { rewrite Fin. apply Haq. }
    cbn [rbind]. destruct (params_same _ _ Hpar) as (_ & _ & _ & Pmax).
    destruct (hit_ok c1 m S Sm k s pend p d i b Hh1 ltac:(by rewrite Pmax) Hb Hf) as (c' & p' & -> & Hsat & Hpar' & Hh'). cbn [rbind].
    eexists c', m', p', _, wbs. split; [done|]. split; [done|]. split; [congruence|]. split; [done|].
    exists Sm, pend. split; [by eapply holding_mem|by rewrite Hext].
Qed.

(** ** Lookups *)

(** A cacheable request is satisfied by a block of the cache, or is a miss and
    has changed nothing. *)
Lemma lookup_ok c m S Sm k s p d :
  holding c m S Sm k s [] -> job (mem_range (mp_extent m)) (maxMasters (ca_tags c)) k p d -> isUncacheable (req p) = false ->
  (exists ptr lat c' p', ca_access c p = Ok (true, ptr, lat, [], c', p') /\ reached c m S k s p d c' m p' []) \/
  (exists lat, ca_access c p = Ok (false, None, lat, [], c, p) /\
    forall i b, blks (ca_tags c) !! i = Some b -> ~ is_for (ca_tags c) (addr p) false b).
Proof.
  intros Hh J Hu. pose proof (hd_content _ _ _ _ _ _ _ Hh) as C. pose proof (ct_wf _ _ _ _ _ _ _ _ C) as W.
  destruct (job_u64 _ _ _ _ _ J) as (Ha & Hga & Hgs & _).
  destruct (accessBlock_ok _ _ _ W (ca_now c) (ca_period c) (addr p) false) as (o & lat & Hacc & Ho).
  assert (isRequest (cmd p) = true /\ cmd p <> Writeback /\ isLLSC (cmd p) = false) as (Hq & Hnw & Hll)
    by (destruct (jb_cmd _ _ _ _ _ J) as [-> |[-> |(-> & _)]]; done).
  unfold ca_access. rewrite Hq, Hga. cbn [assert_ rbind]. rewrite Hgs. cbn [rbind]. rewrite Hu, Hacc. cbn [rbind]. rewrite decide_False by done.
  destruct o as [i|].
  - left. destruct Ho as (b & Hb & Hf). destruct (promote_params (ca_tags c) (extractSet (ca_tags c) (addr p)) i) as [Hpar Hbl].
    set (t' := promote _ _ _) in *. set (c1 := with_tags c t').
    assert (holding c1 m S Sm k s []) as Hh1 by (apply holding_tags; try done; by eapply promote_wf; [..|apply Hf]).
    assert (blks (ca_tags c1) !! i = Some b) as Hb1 by (cbn; by rewrite Hbl).
    destruct (params_same _ _ Hpar) as (Ptag & Pset & Pbase & Pmax).
    assert (is_for (ca_tags c1) (addr p) false b) as Hf1 by (unfold is_for; cbn; rewrite Ptag, Pset; exact Hf).
    cbn [get_blk]. rewrite Hb1. cbn [deref rbind].
    assert ((if needsExclusive (cmd p) then isWritable b else isReadable b) = true) as ->.
    { destruct (ct_blk _ _ _ _ _ _ _ _ C i b) as (_ & ? & ? & _); [split; [done|apply Hf]|]. by destruct (needsExclusive (cmd p)). }
    destruct (hit_ok c1 m S Sm k s [] p d i b Hh1 ltac:(by cbn; rewrite Pmax) Hb1 Hf1) as (c' & p' & -> & Hsat & Hpar' & Hh'). cbn [rbind].
    eexists _, lat, c', p'. split; [done|]. split; [done|]. split; [etransitivity; [exact Hpar'|exact Hpar]|]. split; [done|].
    exists Sm, []. split; [done|constructor].
  - right. exists lat. cbn [rbind]. rewrite Hll. cbn [andb]. split; [|done].
    by replace (with_tags c (ca_tags c)) with c by (by destruct c).
Qed.

(** The block of an uncacheable request is written back and dropped. *)
Lemma flush_block_ok c m S Sm k s i b :
  holding c m S Sm k s [] -> resident (ca_tags c) i b ->
  exists wbs c' pend,
    (let* '(c, wbs) := if isDirty b then let* '(wb, c) := writebackBlk c (Way i) in Ok (c, [wb]) else Ok (c, []) in
     let* c := surrender c (Way i) in Ok (c, wbs)) = Ok (c', wbs) /\
    params_of (ca_tags c') = params_of (ca_tags c) /\ holding c' m S Sm k s pend /\ Forall2 (wb_for (mem_range (mp_extent m))) wbs pend /\
    forall j b', resident (ca_tags c') j b' -> blk_base (ca_tags c') b' <> blk_base (ca_tags c) b.
Proof.
  intros Hh Hr. pose proof (hd_content _ _ _ _ _ _ _ Hh) as C. pose proof (ct_wf _ _ _ _ _ _ _ _ C) as W. pose proof (wf_k _ _ _ W) as Hk.
  destruct (mp_bounds _ _ (hd_mem _ _ _ _ _ _ _ Hh)) as [Hlo Hhi]. pose proof Hr as [Hb V]. destruct (ct_blk _ _ _ _ _ _ _ _ C _ _ Hr) as (B1 & B2 & B3 & B4 & B5).
  pose proof (lookup_lt_Some _ _ _ Hb) as Hlt. set (t := ca_tags c) in *.
  assert (exists bb wbs, (if isDirty b then let* '(wb, c) := writebackBlk c (Way i) in Ok (c, [wb]) else Ok (c, [])) =
      Ok (with_tags c (with_blks t (<[i := bb]> (blks t))), wbs) /\ tags_wf (with_blks t (<[i := bb]> (blks t))) k s /\ isValid bb = true /\ blk_set bb = blk_set b /\
      Forall2 (wb_for (mem_range (mp_extent m))) wbs (if isValid b && isDirty b then [(blk_base t b, blk_data b)] else [])) as (bb & wbs & -> & W1 & Vb & Sb & Hwb).
  { rewrite V. cbn [andb]. destruct (isDirty b) eqn:D.
    - destruct (writebackBlk_ok c k (ex_lo (mp_extent m)) (ex_hi (mp_extent m)) i b Hk (hd_size _ _ _ _ _ _ _ Hh) Hr D B2 B1) as (wb & -> & Hwb); try done; [apply (tw_blk _ _ _ W _ _ Hb)|].
      cbn [rbind]. destruct (clean_wf _ _ _ _ _ W Hb) as [W1 V1]. eexists (clear_status b BlkDirty), [wb]. split_and!; try done; [congruence|by constructor].
    - exists b, []. rewrite list_insert_id by done. replace (with_blks t (blks t)) with t by (by destruct t). split_and!; try done. by destruct c. }
  cbn [rbind]. assert (blks (with_blks t (<[i := bb]> (blks t))) !! i = Some bb) as Hbb by (by apply list_lookup_insert_eq).
  unfold surrender. cbn [ca_tags with_tags]. destruct (drop_blk_ok _ _ _ W1 i bb Hbb Vb) as [-> W2]. cbn [rbind]. set (t2 := demote _ _ _) in *.
  destruct (demote_params (with_blks (with_blks t (<[i:=bb]> (blks t))) (<[i:=dropped bb]> (<[i:=bb]> (blks t)))) (blk_set bb) i) as [Hpar Hbl].
  assert (blks t2 = <[i := dropped bb]> (blks t)) as Hbl2 by (etransitivity; [exact Hbl|]; cbn; by rewrite list_insert_insert_eq).
  pose proof (params_same t t2 Hpar) as (_ & _ & Pbase & _).
  pose proof (content_remove _ _ _ _ _ _ _ _ C t2 i b _ W2 Hb Hbl2 eq_refl Pbase) as C2.
  eexists wbs, _, _. split; [done|]. split; [exact Hpar|]. split; [|split; [exact Hwb|]].
  - destruct Hh as [H1 H2 Hfw H3 H4 H5 H6 H7 _]. split; try done.
  - intros j b' [Hj Vj]. cbn [ca_tags with_tags] in *. rewrite Pbase, Hbl2 in *. destruct (decide (j = i)) as [->|Hne].
    + rewrite list_lookup_insert_eq in Hj by done. by injection Hj as <-.
    + rewrite list_lookup_insert_ne in Hj by done. intros E. apply Hne. assert (resident t j b') as Hj' by done.
      destruct (ct_blk _ _ _ _ _ _ _ _ C _ _ Hj') as (B1' & _). eapply (blk_base_inj _ _ _ W); [exact Hj'|exact Hr|congruence|done].
Qed.

Lemma uncached_lookup_ok c m S Sm k s p d :
  holding c m S Sm k s [] -> job (mem_range (mp_extent m)) (maxMasters (ca_tags c)) k p d -> isUncacheable (req p) = true ->
  exists lat wbs c' pend, ca_access c p = Ok (false, None, lat, wbs, c', p) /\ params_of (ca_tags c') = params_of (ca_tags c) /\
    holding c' m S Sm k s pend /\ Forall2 (wb_for (mem_range (mp_extent m))) wbs pend /\
    forall j b, resident (ca_tags c') j b -> blk_base (ca_tags c') b <> base_of k (addr p).
Proof.
  intros Hh J Hu. destruct (job_u64 _ _ _ _ _ J) as (Ha & Hga & Hgs & _).
  assert (isRequest (cmd p) = true) as Hq by (destruct (jb_cmd _ _ _ _ _ J) as [-> |[-> |(-> & _)]]; done).
  unfold ca_access. rewrite Hq, Hga. cbn [assert_ rbind]. rewrite Hgs. cbn [rbind]. rewrite Hu. set (c0 := if isClearLL (req p) then _ else c).
  assert (holding c0 m S Sm k s [] /\ params_of (ca_tags c0) = params_of (ca_tags c)) as [Hh0 Hpar0].
  { unfold c0. destruct (isClearLL (req p)); [|done]. destruct Hh as [H1 H2 Hfw H3 H4 H5 H6 H7 C].
    destruct (content_locks _ _ _ _ _ _ _ _ C) as [C' E]. split; [|exact E]. split; try done. }
  pose proof (hd_content _ _ _ _ _ _ _ Hh0) as C. pose proof (ct_wf _ _ _ _ _ _ _ _ C) as W.
  destruct (findBlock_ok _ _ _ W (addr p) false) as (o & -> & Ho). cbn [rbind]. destruct o as [i|].
  - destruct Ho as (b & Hb & Hf). destruct (proj1 (is_for_resident _ _ _ W _ _ _ Ha Hb) Hf) as (Hr & _ & Hbase).
    cbn [get_blk]. rewrite Hb. cbn [deref rbind]. rewrite (proj2 Hr).
    destruct (flush_block_ok c0 m S Sm k s i b Hh0 Hr) as (wbs & c' & pend & -> & Hpar & Hh' & Hwb & Hno). cbn [rbind].
    eexists _, wbs, c', pend. split; [done|]. split; [congruence|]. rewrite Hbase in Hno. done.
  - cbn [rbind]. eexists _, [], c0, []. split; [done|]. split; [done|]. split; [done|]. split; [constructor|].
    apply (no_base c0 k s (addr p) W Ha); [intros; by eapply (ct_blk _ _ _ _ _ _ _ _ C)|done].
Qed.

(** A request past the cache. *)
Lemma forward_ok c m S Sm k s p d lat :
  holding c m S Sm k s [] -> asks (mem_range (mp_extent m)) p d -> cmd p = ReadReq \/ cmd p = WriteReq ->
  addr p mod 2 ^ k + pk_size p <= 2 ^ k -> isUncacheable (req p) = true ->
  (forall j b, resident (ca_tags c) j b -> blk_base (ca_tags c) b <> base_of k (addr p)) ->
  exists m' p' lat' Sm', handle_miss c m p None lat = Ok (c, m', p', lat', []) /\ mp_extent m' = mp_extent m /\
    holding c m' (sp_access S p d).1.1 Sm' k s [] /\ served S p d p' /\ needsResponse (cmd p') = false.
Proof.
  intros Hh Hask Hc Hline Hu Hno. pose proof (hd_content _ _ _ _ _ _ _ Hh) as C. pose proof (wf_k _ _ _ (ct_wf _ _ _ _ _ _ _ _ C)) as Hk.
  destruct (ms_send m Sm p d (hd_mem _ _ _ _ _ _ _ Hh) Hask) as (l & m' & p' & Hsend & Hsp & Hext & Hdata & Hans & Hx).
  unfold handle_miss, getBusPacket. cbn [rbind]. rewrite Hu. cbn [rbind]. rewrite Hsend. cbn [rbind].
  pose proof (po_length _ _ (as_pkt _ _ _ Hask)) as Hlen. pose proof (as_inside _ _ _ Hask) as Hin. cbn in Hin.
  pose proof (po_region _ _ (as_pkt _ _ _ Hask)) as (Hpos & _). pose proof (base_of_in k (addr p) ltac:(lia)) as Hbi.
  assert ((sp_access S p d).1.2 = (sp_access Sm p d).1.2 /\ (sp_access S p d).2 = (sp_access Sm p d).2) as [E1 E2].
  { unfold sp_access. destruct Hc as [-> | ->]; [|done]. cbn. split; [|done]. symmetry.
    eapply (block_in_memory c m S Sm k s (addr p)); try done; [lia|lia|]. unfold base_of in *. lia. }
  eexists m', p', _, _. split; [done|]. split; [done|]. split; [|split].
  - destruct Hh as [H1 H2 Hfw H3 H4 H5 H6 _ _]. split; rewrite ?Hext; try done.
    unfold sp_access. destruct Hc as [-> | ->]; cbn; [done|]. apply (content_through _ _ _ _ _ _ _ _ C); [done|lia|done].
  - apply answered_served; try done; [by destruct Hc as [-> | ->]|by rewrite E1|by rewrite E2].
  - destruct Hans as (-> & _). by destruct Hc as [-> | ->].
Qed.

(** ** Atomic requests *)

Lemma ca_asks_job rng masters k p d : ca_asks rng masters k p d -> job rng masters k p d.
Proof. intros [[H1 H2 H3 H4 H5 H6 H7 H8] ? ? ? ? ?]. split; try done. naive_solver. Qed.

(** Writes of whole blocks are promoted. *)
Lemma promote_write_ok c k p d masters rng :
  2 <= k <= 30 -> ca_blkSize c = 2 ^ k -> isTopLevel c = true -> ca_asks rng masters k p d -> ca_lost k p = false ->
  exists p1, promoteWholeLineWrites c p = Ok p1 /\ job rng masters k p1 d /\ isWrite (cmd p1) = isWrite (cmd p) /\
    addr p1 = addr p /\ req p1 = req p /\ flags p1 = flags p /\ (isUncacheable (req p) = true -> p1 = p).
Proof.
  intros Hk Hs Ht A Hl. pose proof (ca_asks_job _ _ _ _ _ A) as J. unfold promoteWholeLineWrites. rewrite Hs, Ht.
  destruct (doFastWrites c && bool_decide (cmd p = WriteReq)) eqn:E; [|by exists p].
  apply andb_true_iff in E as [_ Hc%bool_decide_eq_true_1]. unfold getSize. rewrite (po_size _ _ (jb_pkt _ _ _ _ _ J)). cbn [assert_ rbind].
  rewrite (getOffset_ok p d k (jb_pkt _ _ _ _ _ J)) by lia. cbn [rbind].
  destruct ((pk_size p =? 2 ^ k) && (addr p mod 2 ^ k =? 0)) eqn:E; [|by exists p].
  apply andb_true_iff in E as [E1%Z.eqb_eq E2%Z.eqb_eq]. exists (with_cmd p WriteInvalidateReq). split; [done|]. split_and!; try done.
  - destruct J as [J1 J2 J3 J4 J5 J6 J7 J8 J9]. split; try done; [by destruct J1; split|auto|]. intros _. apply J9. by rewrite Hc.
  - cbn. by rewrite Hc.
  - intros Hu. unfold ca_lost in Hl. rewrite Hu, bool_decide_eq_true_2, E1, Z.eqb_refl in Hl by done. done.
Qed.

(** A satisfied request becomes a response. *)
Lemma respond_ok S rng masters k p p1 d p2 :
  ca_asks rng masters k p d -> job rng masters k p1 d -> isWrite (cmd p1) = isWrite (cmd p) -> addr p1 = addr p -> req p1 = req p ->
  flags p1 = flags p -> satisfied S p1 d p2 ->
  exists p', (if needsResponse (cmd p2) then makeResponse p2 else Ok p2) = Ok p' /\ served S p d p' /\ job_spec S p1 d = (sp_access S p d).1.1.
Proof.
  intros A J Hw Ha Hr Hf (Hc & Hd & Hr2 & Hf2).
  assert (needsResponse (cmd p1) = true /\ isRequest (cmd p1) = true /\ isError (responseCommand (cmd p1)) = false) as (H1 & H2 & H3)
    by (destruct (jb_cmd _ _ _ _ _ J) as [-> |[-> |(-> & _)]]; done).
  unfold makeResponse. rewrite Hc, H1, H2. cbn [assert_ rbind]. eexists. split; [done|]. unfold served, job_spec, sp_access. rewrite Hw, Ha.
  unfold job_data in Hd. rewrite Hw, Ha in Hd.
  assert (flag_isSet (flag_clear_at 32 (flags p2) EXPRESS_SNOOP) (Z.lor STATIC_DATA DYNAMIC_DATA) = flag_isSet (flags p) (Z.lor STATIC_DATA DYNAMIC_DATA)) as Hfl.
  { rewrite isSet_clear_at, <- Hf by done. destruct Hf2 as [-> | ->]; [done|]. by rewrite isSet_set, orb_false_r. }
  destruct (ck_cmd _ _ _ _ _ A) as [E|E]; rewrite E in *; cbn in *; split_and!; try done; congruence.
Qed.

Lemma ca_recvAtomic_ok c m S k s p d :
  cache_ok c m S k s -> ca_asks (mem_range (mp_extent m)) (maxMasters (ca_tags c)) k p d -> ca_lost k p = false ->
  exists lat c' m' p', ca_recvAtomic c m p = Ok (lat, c', m', p') /\ cache_ok c' m' (sp_access S p d).1.1 k s /\ served S p d p' /\
    mp_extent m' = mp_extent m /\ params_of (ca_tags c') = params_of (ca_tags c).
Proof.
  intros [Sm Hh] A Hl. pose proof (hd_content _ _ _ _ _ _ _ Hh) as C. pose proof (wf_k _ _ _ (ct_wf _ _ _ _ _ _ _ _ C)) as Hk.
  destruct (promote_write_ok c k p d _ _ Hk (hd_size _ _ _ _ _ _ _ Hh) (hd_top _ _ _ _ _ _ _ Hh) A Hl) as (p1 & Hpr & J & Hw & Ea & Er & Ef & Hun).
  unfold ca_recvAtomic. rewrite (hd_mode _ _ _ _ _ _ _ Hh), Hpr. cbn [rbind]. rewrite (jb_free _ _ _ _ _ J).
  destruct (isUncacheable (req p)) eqn:Hu.
  - rewrite (Hun eq_refl) in *. clear Hun Hpr Hw Ea Er Ef.
    destruct (uncached_lookup_ok c m S Sm k s p d Hh J Hu) as (lat & wbs & c' & pend & -> & Hpar & Hh1 & Hwb & Hno). cbn [rbind].
    destruct (send_writebacks_ok _ _ _ _ _ _ _ _ Hh1 Hwb) as (m1 & Sm1 & -> & Hext & Hh2). cbn [rbind].
    destruct (forward_ok c' m1 S Sm1 k s p d lat Hh2) as (m' & p' & lat' & Sm' & -> & Hext' & Hh' & Hsv & Hnr); try done; try apply A; [rewrite Hext; apply A|].
    cbn [rbind send_writebacks]. rewrite Hnr. cbn [rbind]. eexists _, c', m', p'. split; [done|]. split; [by exists Sm'|]. split; [done|]. split; [congruence|done].
  - rewrite <- Er in Hu. destruct (lookup_ok c m S Sm k s p1 d Hh J Hu) as [(ptr & lat & c' & p2 & -> & Hre)|(lat & -> & Hmiss)]; cbn [rbind send_writebacks].
    + destruct Hre as (Hsat & Hpar & _ & Sm' & pend & Hh' & Hwb). apply Forall2_nil_inv_l in Hwb as ->.
      destruct (respond_ok S _ _ k p p1 d p2 A J Hw Ea Er Ef Hsat) as (p' & -> & Hsv & E). cbn [rbind]. rewrite E in Hh'.
      eexists _, c', m, p'. split; [done|]. split; [by exists Sm'|]. done.
    + destruct (miss_ok c m S Sm k s p1 d lat Hh J Hu Hmiss) as (c' & m1 & p2 & lat' & wbs & -> & (Hsat & Hpar & Hext & Sm1 & pend & Hh1 & Hwb)). cbn [rbind].
      destruct (send_writebacks_ok _ _ _ _ _ _ _ _ Hh1 Hwb) as (m' & Sm' & -> & Hext' & Hh'). cbn [rbind].
      destruct (respond_ok S _ _ k p p1 d p2 A J Hw Ea Er Ef Hsat) as (p' & -> & Hsv & E). cbn [rbind]. rewrite E in Hh'.
      eexists _, c', m', p'. split; [done|]. split; [by exists Sm'|]. split; [done|]. split; [congruence|done].
Qed.

(** ** A write of a whole block that is lost

    A write of a whole block becomes an invalidating write before the cache looks
    whether the request is cacheable.  If it is not, the packet goes on to the
    memory, which takes it for an invalidation and leaves its bytes alone. *)
Lemma lost_write c m S k s p d :
  cache_ok c m S k s -> ca_asks (mem_range (mp_extent m)) (maxMasters (ca_tags c)) k p d -> ca_lost k p = true ->
  exists lat c' m' p', ca_recvAtomic c m p = Ok (lat, c', m', p') /\ cmd p' = WriteInvalidateResp /\ data p' = Some d /\ cache_ok c' m' S k s /\
    mp_extent m' = mp_extent m /\ params_of (ca_tags c') = params_of (ca_tags c).
Proof.
  intros [Sm Hh] A [[Hu Hc%bool_decide_eq_true_1]%andb_true_iff Hn%Z.eqb_eq]%andb_true_iff. pose proof (hd_content _ _ _ _ _ _ _ Hh) as C.
  pose proof (wf_k _ _ _ (ct_wf _ _ _ _ _ _ _ _ C)) as Hk. pose proof (ck_asks _ _ _ _ _ A) as Hask. pose proof (ck_line _ _ _ _ _ A) as Hline.
  pose proof (Z.mod_pos_bound (addr p) (2 ^ k) ltac:(lia)) as Hmod. assert (addr p mod 2 ^ k = 0) as Ha by lia.
  unfold ca_recvAtomic, promoteWholeLineWrites. rewrite (hd_mode _ _ _ _ _ _ _ Hh), (hd_fast _ _ _ _ _ _ _ Hh), Hc, (hd_size _ _ _ _ _ _ _ Hh). cbn [andb].
  rewrite bool_decide_eq_true_2 by done. unfold getSize. rewrite (po_size _ _ (as_pkt _ _ _ Hask)). cbn [assert_ rbind].
  rewrite (getOffset_ok p d k (as_pkt _ _ _ Hask)) by lia. cbn [rbind]. rewrite Hn, Ha, !Z.eqb_refl, (hd_top _ _ _ _ _ _ _ Hh). cbn [andb assert_ rbind].
  set (q := with_cmd p WriteInvalidateReq).
  assert (asks (mem_range (mp_extent m)) q d) as Hq.
  { destruct Hask as [[P1 P2 P3 P4 P5 P6 P7] H2 H3 H4 H5 H6 H7 H8]. rewrite Hc in *. split; try done. }
  assert (job (mem_range (mp_extent m)) (maxMasters (ca_tags c)) k q d) as J.
  { split; try apply Hq; try apply A; try done. right; right; done. }
  change (memInhibitAsserted q) with (memInhibitAsserted p). rewrite (as_free _ _ _ Hask).
  destruct (uncached_lookup_ok c m S Sm k s q d Hh J Hu) as (lat & wbs & c' & pend & -> & Hpar & Hh1 & Hwb & _). cbn [rbind].
  destruct (send_writebacks_ok _ _ _ _ _ _ _ _ Hh1 Hwb) as (m1 & Sm1 & -> & Hext & Hh2). cbn [rbind]. rewrite <- Hext in Hq.
  destruct (ms_send m1 Sm1 q d (hd_mem _ _ _ _ _ _ _ Hh2) Hq) as (l & m' & p' & Hsend & Hsp & Hext' & Hd & (Ecmd & _) & _).
  unfold handle_miss, getBusPacket. cbn [rbind]. change (isUncacheable (req q)) with (isUncacheable (req p)). rewrite Hu. cbn [rbind]. rewrite Hsend. cbn [rbind send_writebacks].
  cbn in Ecmd. rewrite Ecmd. change (needsResponse WriteInvalidateResp) with false. cbn [rbind].
  eexists _, c', m', p'. split_and!; try done; [exists Sm1; by eapply holding_mem|congruence].
Qed.
End Cached.
