(* ===== verification/CacheFlush.v ===== *)
(** * Functional accesses and flushes of the cache

    Functional accesses see and change the same bytes as atomic ones, wherever
    they are, and writing back and invalidating all blocks leaves the bytes in the
    memory and the cache empty. *)
From S2P Require Import Prelude Flags IntMath AddrRange Packet AbstractMem SimpleMem AtomicMem PhysMem CacheTags Cache CacheContent CacheCorrect.

(** ** The memory below *)

Class FuncLaws (M : Type) `{MemPortLaws M} `{FuncPort M} := {
  mf_send m s p d : mp_spec m s -> asks (mem_range (mp_extent m)) p d -> cmd p = ReadReq \/ cmd p = WriteReq ->
    exists m' p', sendFunctional m p = Ok (m', p') /\ mp_spec m' (sp_functional s p d).1 /\
      data p' = Some (sp_functional s p d).2 /\ mp_extent m' = mp_extent m;
}.

#[export] Instance SimpleMemory_func : FuncPort (SimpleMemory * list Z) :=
  fun m p => let* '(m', p) := sm_recvFunctional m.1 p in Ok ((m', m.2), p).

#[export, refine] Instance SimpleMemory_func_laws : FuncLaws (SimpleMemory * list Z) := {}.
Proof.
  intros m s p d [Hpq [bs Hr]] Ha Hc. apply (asks_bounds _ (am_range (sm_abstract m.1))) in Ha; [|done|cbn; lia].
  destruct (functional_spec _ _ _ _ _ Hr Ha) as (m' & bs' & p' & He & Hr' & Hrng & Hd); [by destruct Hc as [-> | ->]|].
  unfold sendFunctional, SimpleMemory_func, sm_recvFunctional. rewrite He. cbn [rbind]. rewrite Hpq. cbn [sm_functional_loop rbind].
  eexists _, p'. split; [done|]. cbn. rewrite Hrng. split_and!; try done. by exists bs'.
Defined.

Section Flushed.
Context {M : Type} {MP : MemPort M} {ML : MemPortLaws M} {MS : MemSideLaws M} {MF : FuncPort M} {FL : FuncLaws M}.
Implicit Types (c : Cache) (m : M) (S : MemSpec).

(** ** Functional accesses *)

Lemma sp_functional_read S p d : cmd p = ReadReq -> sp_functional S p d = (S, sp_read S (addr p) (length d)).
Proof. intros Hc. unfold sp_functional. by rewrite Hc. Qed.

Lemma sp_functional_write S p d : cmd p = WriteReq -> sp_functional S p d = (sp_write S (addr p) d, d).
Proof. intros Hc. unfold sp_functional. by rewrite Hc. Qed.

(** No block for the address: the access goes past the cache. *)
Lemma functional_through c m S Sm k s p d :
  holding c m S Sm k s [] -> asks (mem_range (mp_extent m)) p d -> cmd p = ReadReq \/ cmd p = WriteReq -> addr p mod 2 ^ k + pk_size p <= 2 ^ k ->
  (forall j b, resident (ca_tags c) j b -> blk_base (ca_tags c) b <> base_of k (addr p)) ->
  exists m' p' Sm', sendFunctional m p = Ok (m', p') /\ mp_extent m' = mp_extent m /\
    holding c m' (sp_functional S p d).1 Sm' k s [] /\ data p' = Some (sp_functional S p d).2.
Proof.
  intros Hh Hask Hc Hline Hno. pose proof (hd_content _ _ _ _ _ _ _ Hh) as C. pose proof (wf_k _ _ _ (ct_wf _ _ _ _ _ _ _ _ C)) as Hk.
  destruct (mf_send m Sm p d (hd_mem _ _ _ _ _ _ _ Hh) Hask Hc) as (m' & p' & -> & Hsp & Hd & Hext).
  pose proof (po_length _ _ (as_pkt _ _ _ Hask)) as Hlen. pose proof (as_inside _ _ _ Hask) as Hin. cbn in Hin.
  pose proof (po_region _ _ (as_pkt _ _ _ Hask)) as (Hpos & _). pose proof (base_of_in k (addr p) ltac:(lia)) as Hbi.
  exists m', p', (sp_functional Sm p d).1. split; [done|]. split; [done|]. destruct Hc as [Hc|Hc].
  - rewrite !sp_functional_read in * by done. cbn [fst snd] in *. split; [by eapply holding_mem|]. rewrite Hd. f_equal.
    apply (block_in_memory c m S Sm k s (addr p) _ Hh); [lia|done|lia|]. unfold base_of in *. lia.
  - rewrite !sp_functional_write in * by done. cbn [fst snd] in *. split; [|done].
    destruct Hh as [H1 H2 Hfw H3 H4 H5 H6 H7 _]. split; rewrite ?Hext; try done. cbn. apply (content_through _ _ _ _ _ _ _ _ C); [done|lia|done].
Qed.

(** A functional read of bytes of a block. *)
Lemma check_read S k p d buf :
  2 <= k <= 30 -> pkt_ok p d -> cmd p = ReadReq -> _isSecure p = false -> addr p mod 2 ^ k + pk_size p <= 2 ^ k ->
  base_of k (addr p) + 2 ^ k <= 2 ^ 64 -> Z.of_nat (length buf) = 2 ^ k -> holds (sp_byte S) (base_of k (addr p)) buf ->
  exists bv, checkFunctional p (base_of k (addr p)) false (2 ^ k) (Some buf) =
      Ok (true, with_bytesValid (with_data p (Some (sp_read S (addr p) (length d)))) bv, Some buf) /\
    (bv = [] \/ Z.of_nat (length bv) = pk_size p).
Proof.
  intros Hk Hp Hc Hs Hline Hhi Hlen Hh. assert (2 ^ k <= 2 ^ 30) by (apply Z.pow_le_mono_r; lia).
  pose proof (base_of_in k (addr p) ltac:(lia)) as Hbi. pose proof (po_region _ _ Hp) as (Hpos & Ha0 & _). pose proof (po_length _ _ Hp) as Hl.
  assert (0 <= base_of k (addr p)) as Hb0 by (rewrite base_of_div by lia; pose proof (Z.div_pos (addr p) (2 ^ k)); nia).
  rewrite (checkFunctional_start p d) by (done || (unfold region; lia) || by rewrite Hc). rewrite Hs, Hc. cbn [eqb negb orb].
  change (isRead ReadReq) with true. cbv iota zeta. assert (addr p - base_of k (addr p) = addr p mod 2 ^ k) as Eo by (unfold base_of; lia).
  rewrite (proj2 (Z.ltb_ge (base_of k (addr p) + 2 ^ k - 1) (addr p))), (proj2 (Z.ltb_ge (addr p + pk_size p - 1) (base_of k (addr p)))) by lia. cbn [orb].
  rewrite (proj2 (Z.leb_le (base_of k (addr p)) (addr p))), (proj2 (Z.leb_le (addr p + pk_size p - 1) (base_of k (addr p) + 2 ^ k - 1))) by lia. cbn [andb].
  rewrite Eo, swrap_id by lia. destruct (memcpy_total d 0 buf (addr p mod 2 ^ k) (pk_size p)) as [d' Hd']; [lia..|]. rewrite Hd'. cbn [rbind].
  rewrite <- Hl in Hd'. rewrite (read_bytes _ _ _ _ _ _ Hh Hd'), <- Eo. replace (base_of k (addr p) + (addr p - base_of k (addr p))) with (addr p) by lia.
  eexists. split; [done|]. right. destruct (bytesValid p) eqn:E; [rewrite length_replicate; lia|].
  destruct (po_valid _ _ Hp) as [Hv|Hv]; [congruence|by rewrite E in Hv].
Qed.

(** The memory agrees with a clean block. *)
Lemma clean_agrees c m S Sm k s i b x :
  holding c m S Sm k s [] -> resident (ca_tags c) i b -> isDirty b = false -> ex_lo (mp_extent m) <= x < ex_hi (mp_extent m) ->
  base_of k x = blk_base (ca_tags c) b -> sp_byte Sm x = sp_byte S x.
Proof.
  intros Hh Hr D Hx E. pose proof (hd_content _ _ _ _ _ _ _ Hh) as C. pose proof (ct_wf _ _ _ _ _ _ _ _ C) as W.
  apply (ct_mem _ _ _ _ _ _ _ _ C x Hx); rewrite ?E; [|intros wa dd Hin; by apply not_elem_of_nil in Hin].
  intros j b' Hj D' Eb. assert (j = i) as ->.
  { destruct (ct_blk _ _ _ _ _ _ _ _ C _ _ Hj) as (B1 & _). destruct (ct_blk _ _ _ _ _ _ _ _ C _ _ Hr) as (B2 & _).
    eapply (blk_base_inj _ _ _ W); [exact Hj|exact Hr|congruence|done]. }
  destruct Hj as [Hb' _], Hr as [Hb _]. rewrite Hb in Hb'. injection Hb' as <-. congruence.
Qed.

(** Reads that find the block, and writes to it and the memory. *)
Lemma functional_hit_read c m S Sm k s p d i b :
  holding c m S Sm k s [] -> ca_asks (mem_range (mp_extent m)) (maxMasters (ca_tags c)) k p d -> cmd p = ReadReq ->
  blks (ca_tags c) !! i = Some b -> resident (ca_tags c) i b -> blk_base (ca_tags c) b = base_of k (addr p) ->
  exists p1, checkFunctional p (base_of k (addr p)) false (2 ^ k) (Some (blk_data b)) = Ok (true, p1, Some (blk_data b)) /\
    data p1 = Some (sp_read S (addr p) (length d)) /\ cmd p1 = ReadReq /\
    (isDirty b = false -> asks (mem_range (mp_extent m)) p1 (sp_read S (addr p) (length d)) /\ addr p1 = addr p /\
       sp_read Sm (addr p) (length d) = sp_read S (addr p) (length d)).
Proof.
  intros Hh A Hc Hb Hr Hbase. pose proof (hd_content _ _ _ _ _ _ _ Hh) as C. pose proof (ct_wf _ _ _ _ _ _ _ _ C) as W. pose proof (wf_k _ _ _ W) as Hk.
  destruct (mp_bounds _ _ (hd_mem _ _ _ _ _ _ _ Hh)) as [Hlo Hhi]. destruct (ct_blk _ _ _ _ _ _ _ _ C _ _ Hr) as (B1 & _ & _ & B4 & B5). rewrite Hbase in *.
  pose proof (ck_asks _ _ _ _ _ A) as Hask. pose proof (as_pkt _ _ _ Hask) as Hp. pose proof (po_length _ _ Hp) as Hl.
  pose proof (ct_holds _ _ _ _ _ _ _ _ C _ _ Hr) as Hho. rewrite Hbase in Hho. pose proof (ck_line _ _ _ _ _ A) as Hline.
  destruct (check_read S k p d (blk_data b)) as (bv & -> & Hbv); try done; [by apply A|lia|apply (tw_blk _ _ _ W _ _ Hb)|].
  eexists. split; [done|]. split; [done|]. split; [done|]. intros D.
  assert (length (sp_read S (addr p) (length d)) = length d) as Hrl by (unfold sp_read; by rewrite length_fmap, length_seq).
  split; [|split; [done|]].
  - destruct Hask as [[P1 P2 P3 P4 P5 P6 P7] H2 H3 H4 H5 H6 H7 H8]. split; try done. split; try done. by rewrite Hrl.
  - pose proof (base_of_in k (addr p) ltac:(lia)). pose proof (po_region _ _ Hp) as (Hpos & _). apply list_eq. intros j. rewrite !sp_read_lookup. case_decide; [|done]. f_equal.
    assert (base_of k (addr p + Z.of_nat j) = base_of k (addr p)) as E by (apply base_of_aligned; [lia|apply base_of_mod; lia|unfold base_of in *; lia]).
    apply (clean_agrees c m S Sm k s i b _ Hh Hr D); [|congruence]. pose proof (base_of_in k (addr p + Z.of_nat j) ltac:(lia)). rewrite E in *. lia.
Qed.

Lemma functional_hit_write c m S Sm k s p d i b :
  holding c m S Sm k s [] -> ca_asks (mem_range (mp_extent m)) (maxMasters (ca_tags c)) k p d -> cmd p = WriteReq ->
  resident (ca_tags c) i b -> blk_base (ca_tags c) b = base_of k (addr p) ->
  exists d', checkFunctional p (base_of k (addr p)) false (2 ^ k) (Some (blk_data b)) = Ok (false, p, Some d') /\
    forall m', mp_spec m' (sp_functional Sm p d).1 -> mp_extent m' = mp_extent m ->
      holding (with_tags c (with_blks (ca_tags c) (<[i := with_blk_data b d']> (blks (ca_tags c))))) m'
        (sp_functional S p d).1 (sp_functional Sm p d).1 k s [].
Proof.
  intros Hh A Hc Hr Hbase. pose proof (hd_content _ _ _ _ _ _ _ Hh) as C. pose proof (ct_wf _ _ _ _ _ _ _ _ C) as W. pose proof (wf_k _ _ _ W) as Hk.
  destruct (mp_bounds _ _ (hd_mem _ _ _ _ _ _ _ Hh)) as [Hlo Hhi]. pose proof Hr as [Hb V]. destruct (ct_blk _ _ _ _ _ _ _ _ C _ _ Hr) as (B1 & B2 & B3 & B4 & B5).
  pose proof (ck_asks _ _ _ _ _ A) as Hask. pose proof (as_pkt _ _ _ Hask) as Hp. pose proof (po_length _ _ Hp) as Hl. pose proof (tw_blk _ _ _ W _ _ Hb) as [D1 _ D3 D4].
  pose proof (ct_holds _ _ _ _ _ _ _ _ C _ _ Hr) as Hho. assert (2 ^ k <= 2 ^ 30) by (apply Z.pow_le_mono_r; lia).
  destruct (ck_plain _ _ _ _ _ A) as (Hsec & _). rewrite Hbase in Hho, B4, B5.
  destruct (checkFunctional_write p d (base_of k (addr p)) (2 ^ k) (blk_data b)) as (d' & He & Hl' & Hd'); try (done || by rewrite Hc); [unfold region; lia|].
  rewrite Hsec in He. exists d'. split; [done|]. intros m' Hsp Hext. rewrite !sp_functional_write in * by done. cbn [fst] in *.
  pose proof (holds_store _ p d _ _ _ _ Hp D1 Hl' Hd' Hho) as Hho'.
  pose proof (ck_line _ _ _ _ _ A) as Hline. rewrite <- Hl in Hline.
  pose proof Hh as [H1 H2 Hfw H3 H4 H5 H6 _ _]. split; rewrite ?Hext; try done. cbn [ca_tags with_tags sp_byte sp_write].
  assert (blk_base (ca_tags c) (with_blk_data b d') = base_of k (addr p)) as Eb by exact Hbase.
  eapply content_sync; rewrite ?Eb; try done; try (by auto).
  - cbn. by rewrite Hl'.
  - intros j c0 Hne Hj E. apply Hne. destruct (ct_blk _ _ _ _ _ _ _ _ C _ _ Hj) as (B1' & _). eapply (blk_base_inj _ _ _ W); [exact Hj|exact Hr|congruence|congruence].
  - intros wa dd Hin. by apply not_elem_of_nil in Hin.
  - intros x Hx. split; apply (store_outside _ _ _ k); (lia || done).
  - destruct (isDirty b) eqn:D; [by left|right]. intros x Hx E. unfold mem_store.
    rewrite (clean_agrees c m S Sm k s i b x); try done. congruence.
Qed.

Lemma ca_functional_ok c m S k s p d :
  cache_ok c m S k s -> ca_asks (mem_range (mp_extent m)) (maxMasters (ca_tags c)) k p d ->
  exists c' m' p', ca_functionalAccess c m p = Ok (c', m', p') /\ cache_ok c' m' (sp_functional S p d).1 k s /\
    data p' = Some (sp_functional S p d).2 /\ mp_extent m' = mp_extent m /\ params_of (ca_tags c') = params_of (ca_tags c).
Proof.
  intros [Sm Hh] A. pose proof (hd_content _ _ _ _ _ _ _ Hh) as C. pose proof (ct_wf _ _ _ _ _ _ _ _ C) as W. pose proof (wf_k _ _ _ W) as Hk.
  pose proof (ca_asks_job _ _ _ _ _ A) as J. destruct (job_u64 _ _ _ _ _ J) as (Ha & Hga & Hgs & _). pose proof (ck_asks _ _ _ _ _ A) as Hask.
  unfold ca_functionalAccess. rewrite (hd_mode _ _ _ _ _ _ _ Hh), Hga. cbn [rbind]. rewrite Hgs. cbn [rbind].
  destruct (findBlock_ok _ _ _ W (addr p) false) as (o & -> & Ho). cbn [rbind]. destruct o as [i|].
  - destruct Ho as (b & Hb & Hf). destruct (proj1 (is_for_resident _ _ _ W _ _ _ Ha Hb) Hf) as (Hr & _ & Hbase).
    cbn [get_blk]. rewrite Hb. cbn [deref rbind]. rewrite (proj2 Hr). unfold blockAlign. rewrite (hd_size _ _ _ _ _ _ _ Hh), land_align by (lia || done).
    destruct (ck_cmd _ _ _ _ _ A) as [Hc|Hc].
    + destruct (functional_hit_read c m S Sm k s p d i b Hh A Hc Hb Hr Hbase) as (p1 & -> & Hd1 & Hc1 & Hcl). cbn [rbind deref].
      unfold put_blk. rewrite (set_blk_ok _ _ _ _ Hb). cbn [rbind andb].
      assert (with_tags c (with_blks (ca_tags c) (<[i := with_blk_data b (blk_data b)]> (blks (ca_tags c)))) = c) as ->.
      { rewrite list_insert_id by (rewrite Hb; by destruct b). destruct c as [[] ? ? ? ? ? ? ? ? ? ? ?]; reflexivity. }
      rewrite sp_functional_read by done. cbn [fst snd]. destruct (isDirty b) eqn:D.
      * unfold makeResponse. rewrite Hc1. cbn. eexists c, m, _. split; [done|]. split; [by exists Sm|]. done.
      * destruct (Hcl eq_refl) as (Hask1 & Ea1 & Erd). destruct (mf_send m Sm p1 _ (hd_mem _ _ _ _ _ _ _ Hh) Hask1 (or_introl Hc1)) as (m' & p' & -> & Hsp & Hd' & Hext).
        rewrite sp_functional_read in Hsp, Hd' by done. cbn [rbind fst snd] in *. exists c, m', p'. split; [done|]. split; [exists Sm; by eapply holding_mem|].
        split; [|done]. rewrite Hd', Ea1, <- Erd. unfold sp_read. by rewrite !length_fmap, !length_seq.
    + destruct (functional_hit_write c m S Sm k s p d i b Hh A Hc Hr Hbase) as (d' & -> & Hw). cbn [rbind deref].
      unfold put_blk. rewrite (set_blk_ok _ _ _ _ Hb). cbn [rbind andb].
      destruct (mf_send m Sm p d (hd_mem _ _ _ _ _ _ _ Hh) Hask (or_intror Hc)) as (m' & p' & -> & Hsp & Hd' & Hext). cbn [rbind].
      eexists _, m', p'. split; [done|]. split; [exists (sp_functional Sm p d).1; by apply Hw|]. rewrite sp_functional_write in * by done. done.
  - cbn [rbind]. destruct (functional_through c m S Sm k s p d Hh Hask (ck_cmd _ _ _ _ _ A) (ck_line _ _ _ _ _ A)) as (m' & p' & Sm' & -> & Hext & Hh' & Hd').
    { apply (no_base c k s (addr p) W Ha); [intros; by eapply (ct_blk _ _ _ _ _ _ _ _ C)|done]. }
    cbn [rbind]. exists c, m', p'. split; [done|]. split; [by exists Sm'|]. done.
Qed.

(** ** Writing back and invalidating all blocks *)

Lemma dirty_valid c m S Sm k s pend i b : holding c m S Sm k s pend -> blks (ca_tags c) !! i = Some b -> isDirty b = true -> isValid b = true.
Proof.
  intros Hh Hb D. pose proof (ct_wf _ _ _ _ _ _ _ _ (hd_content _ _ _ _ _ _ _ Hh)) as W. destruct (isValid b) eqn:V; [done|].
  destruct (bw_idle _ _ _ _ (tw_blk _ _ _ W _ _ Hb) V) as [E _]. unfold isDirty in D. by rewrite E in D.
Qed.

(** A dirty block is written to the memory and is clean afterwards. *)
Lemma writebackVisitor_ok c m S k s i b :
  cache_ok c m S k s -> blks (ca_tags c) !! i = Some b ->
  exists c' m', writebackVisitor c m i = Ok (c', m') /\ cache_ok c' m' S k s /\ mp_extent m' = mp_extent m /\
    maxMasters (ca_tags c') = maxMasters (ca_tags c) /\
    exists b', blks (ca_tags c') = <[i := b']> (blks (ca_tags c)) /\ isDirty b' = false.
Proof.
  intros [Sm Hh] Hb. unfold writebackVisitor. cbn [get_blk]. rewrite Hb. cbn [deref rbind]. destruct (isDirty b) eqn:D.
  2: { exists c, m. split; [done|]. split; [by exists Sm|]. split; [done|]. split; [done|]. exists b. by rewrite list_insert_id. }
  pose proof (dirty_valid _ _ _ _ _ _ _ _ _ Hh Hb D) as V. pose proof (hd_content _ _ _ _ _ _ _ Hh) as C. pose proof (ct_wf _ _ _ _ _ _ _ _ C) as W.
  pose proof (wf_k _ _ _ W) as Hk. assert (resident (ca_tags c) i b) as Hr by done. destruct (ct_blk _ _ _ _ _ _ _ _ C _ _ Hr) as (B1 & B2 & B3 & B4 & B5).
  destruct (mp_bounds _ _ (hd_mem _ _ _ _ _ _ _ Hh)) as [Hlo Hhi]. pose proof (tw_blk _ _ _ W _ _ Hb) as [D1 _ D3 D4]. pose proof (blk_base_mod _ _ _ W _ _ Hr) as [Hm H0].
  assert (2 ^ k <= 2 ^ 30) by (apply Z.pow_le_mono_r; lia). rewrite V. cbn [assert_ rbind]. fold (blk_base (ca_tags c) b). rewrite (hd_size _ _ _ _ _ _ _ Hh).
  set (r := Request_phys _ _ _ _ _). rewrite dataStatic_new. cbn [rbind]. set (q := cpu_packet r WriteReq (blk_data b)).
  assert (addr q = blk_base (ca_tags c) b) as Ea by done. assert (pk_size q = 2 ^ k) as En by done.
  assert (asks (mem_range (mp_extent m)) q (blk_data b)) as Hask.
  { split; try done; rewrite ?Ea, ?En; [|cbn; lia]. split; rewrite ?Ea, ?En; try done; [unfold region; lia|by left]. }
  destruct (mf_send m Sm q _ (hd_mem _ _ _ _ _ _ _ Hh) Hask (or_intror eq_refl)) as (m' & q' & -> & Hsp & _ & Hext). cbn [rbind].
  rewrite sp_functional_write in Hsp by done. cbn [fst] in Hsp. rewrite Ea in Hsp.
  unfold put_blk. rewrite (set_blk_ok _ _ _ _ Hb). cbn [rbind]. eexists _, m'. split; [done|].
  assert (forall g, Z.land (wrap 32 (Z.lnot BlkDirty)) g = g -> flag_isSet (flag_clear_at 32 (status b) BlkDirty) g = flag_isSet (status b) g) as Hfl by (intros; by apply isSet_clear_at).
  assert (isDirty (clear_status b BlkDirty) = false) as Dc.
  { unfold isDirty, flag_isSet. cbn. unfold flag_clear_at. rewrite <- Z.land_assoc. change (Z.land (wrap 32 (Z.lnot BlkDirty)) BlkDirty) with 0. by rewrite Z.land_0_r. }
  split; [|split; [done|split; [done|by eexists]]]. eexists. pose proof Hh as [H1 H2 Hfw H3 H4 H5 H6 _ _]. split; rewrite ?Hext; try done. cbn [ca_tags with_tags sp_byte sp_write].
  assert (blk_base (ca_tags c) (clear_status b BlkDirty) = blk_base (ca_tags c) b) as Eb by done.
  eapply content_sync; rewrite ?Eb; try done.
  - unfold isValid in *. cbn. by rewrite Hfl.
  - unfold blk_isSecure in *. cbn. by rewrite Hfl.
  - unfold isWritable in *. cbn. by rewrite allSet_clear.
  - unfold isReadable in *. cbn. by rewrite allSet_clear.
  - by apply D4.
  - by apply D3.
  - intros j c0 Hne Hj E. apply Hne. destruct (ct_blk _ _ _ _ _ _ _ _ C _ _ Hj) as (B1' & _). eapply (blk_base_inj _ _ _ W); [exact Hj|exact Hr|congruence|done].
  - intros wa dd Hin. by apply not_elem_of_nil in Hin.
  - apply (ct_holds _ _ _ _ _ _ _ _ C _ _ Hr).
  - intros x Hx. split; [done|]. apply mem_store_out. intros Hin. apply Hx. apply base_of_aligned; [lia|done|lia].
  - right. intros x Hx E. apply base_of_aligned in E; [|lia|done]. pose proof (mem_store_in (sp_byte Sm) (blk_base (ca_tags c) b) (blk_data b) x ltac:(lia)) as Hl.
    rewrite (ct_holds _ _ _ _ _ _ _ _ C _ _ Hr _ _ Hl). f_equal. lia.
Qed.

Lemma writeback_from_ok n : forall j c m S k s,
  cache_ok c m S k s -> length (blks (ca_tags c)) = (j + n)%nat ->
  (forall i b, (i < j)%nat -> blks (ca_tags c) !! i = Some b -> isDirty b = false) ->
  exists c' m', writeback_from c m (seq j n) = Ok (c', m') /\ cache_ok c' m' S k s /\ mp_extent m' = mp_extent m /\
    length (blks (ca_tags c')) = (j + n)%nat /\ maxMasters (ca_tags c') = maxMasters (ca_tags c) /\
    forall i b, blks (ca_tags c') !! i = Some b -> isDirty b = false.
Proof.
  induction n as [|n IH]; intros j c m S k s Hc Hl Hd; cbn [seq writeback_from].
  - exists c, m. split_and!; try done. intros i b Hb. apply (Hd i b); [|done]. apply lookup_lt_Some in Hb. lia.
  - destruct (lookup_lt_is_Some_2 (blks (ca_tags c)) j) as [b Hb]; [lia|].
    destruct (writebackVisitor_ok c m S k s j b Hc Hb) as (c1 & m1 & -> & Hc1 & He1 & Hm1 & b' & Hb' & Db'). cbn [rbind].
    destruct (IH (Datatypes.S j) c1 m1 S k s Hc1) as (c' & m' & -> & Hc' & He' & Hl' & Hm' & Hd').
    + rewrite Hb', length_insert. lia.
    + intros i b0 Hi Hb0. rewrite Hb' in Hb0. destruct (decide (i = j)) as [->|Hne].
      * rewrite list_lookup_insert_eq in Hb0 by (by eapply lookup_lt_Some). by injection Hb0 as <-.
      * rewrite list_lookup_insert_ne in Hb0 by done. apply (Hd i b0); [lia|done].
    + exists c', m'. split_and!; try done; [congruence|lia|congruence].
Qed.

(** A clean block is dropped. *)
Lemma invalidateVisitor_ok c m S k s i b :
  cache_ok c m S k s -> blks (ca_tags c) !! i = Some b -> isDirty b = false ->
  exists c', invalidateVisitor c i = Ok c' /\ cache_ok c' m S k s /\ maxMasters (ca_tags c') = maxMasters (ca_tags c) /\
    exists b', blks (ca_tags c') = <[i := b']> (blks (ca_tags c)) /\ isValid b' = false /\ isDirty b' = false.
Proof.
  intros [Sm Hh] Hb D. unfold invalidateVisitor. cbn [get_blk]. rewrite Hb. cbn [deref rbind]. destruct (isValid b) eqn:V.
  2: { exists c. split; [done|]. split; [by exists Sm|]. split; [done|]. exists b. by rewrite list_insert_id. }
  rewrite D. cbn [negb assert_ rbind surrender]. pose proof (hd_content _ _ _ _ _ _ _ Hh) as C. pose proof (ct_wf _ _ _ _ _ _ _ _ C) as W.
  destruct (drop_blk_ok _ _ _ W i b Hb V) as [-> W']. cbn [rbind].
  destruct (demote_params (with_blks (ca_tags c) (<[i := dropped b]> (blks (ca_tags c)))) (blk_set b) i) as [Hpar Hbl]. set (t' := demote _ _ _) in *.
  eexists. split; [done|]. pose proof (params_same _ t' Hpar) as (_ & _ & Pb & Pm).
  split; [|split; [exact Pm|exists (dropped b); split; [exact Hbl|done]]]. pose proof (content_remove _ _ _ _ _ _ _ _ C t' i b _ W' Hb Hbl eq_refl Pb) as C'.
  rewrite V, D in C'. exists Sm. destruct Hh as [H1 H2 Hfw H3 H4 H5 H6 H7 _]. by split.
Qed.

Lemma invalidate_from_ok n : forall j c m S k s,
  cache_ok c m S k s -> length (blks (ca_tags c)) = (j + n)%nat -> (forall i b, blks (ca_tags c) !! i = Some b -> isDirty b = false) ->
  (forall i b, (i < j)%nat -> blks (ca_tags c) !! i = Some b -> isValid b = false) ->
  exists c', invalidate_from c (seq j n) = Ok c' /\ cache_ok c' m S k s /\ maxMasters (ca_tags c') = maxMasters (ca_tags c) /\
    forall i b, blks (ca_tags c') !! i = Some b -> isValid b = false.
Proof.
  induction n as [|n IH]; intros j c m S k s Hc Hl Hd Hv; cbn [seq invalidate_from].
  - exists c. split_and!; try done. intros i b Hb. apply (Hv i b); [|done]. apply lookup_lt_Some in Hb. lia.
  - destruct (lookup_lt_is_Some_2 (blks (ca_tags c)) j) as [b Hb]; [lia|].
    destruct (invalidateVisitor_ok c m S k s j b Hc Hb (Hd _ _ Hb)) as (c1 & -> & Hc1 & Hm1 & b' & Hb' & Vb' & Db'). cbn [rbind]. rewrite <- Hm1.
    assert (forall i b0, blks (ca_tags c1) !! i = Some b0 -> (i = j /\ b0 = b') \/ (i <> j /\ blks (ca_tags c) !! i = Some b0)) as Hl1.
    { intros i b0 Hb0. rewrite Hb' in Hb0. destruct (decide (i = j)) as [->|Hne].
      - rewrite list_lookup_insert_eq in Hb0 by (by eapply lookup_lt_Some). injection Hb0 as <-. by left.
      - rewrite list_lookup_insert_ne in Hb0 by done. by right. }
    apply (IH (Datatypes.S j) c1 m S k s Hc1).
    + rewrite Hb', length_insert. lia.
    + intros i b0 [(_ & ->)|(_ & Hb0)]%Hl1; [done|by eapply Hd].
    + intros i b0 Hi [(_ & ->)|(Hne & Hb0)]%Hl1; [done|]. apply (Hv i b0); [lia|done].
Qed.

Lemma flush_all_ok c m S k s :
  cache_ok c m S k s ->
  exists c1 m' c', memWriteback c m = Ok (c1, m') /\ memInvalidate c1 = Ok c' /\ ca_isDirty c1 = false /\ cache_ok c' m' S k s /\ mp_extent m' = mp_extent m /\
    maxMasters (ca_tags c') = maxMasters (ca_tags c) /\ (forall i b, blks (ca_tags c') !! i = Some b -> isValid b = false).
Proof.
  intros Hc. unfold memWriteback, all_blocks.
  destruct (writeback_from_ok (length (blks (ca_tags c))) 0 c m S k s Hc eq_refl) as (c1 & m' & Hw & Hc1 & He & Hl & Hm1 & Hd); [intros; lia|].
  destruct (invalidate_from_ok (length (blks (ca_tags c1))) 0 c1 m' S k s Hc1 eq_refl Hd) as (c' & Hi & Hc' & Hm2 & Hv); [intros; lia|].
  exists c1, m', c'. split_and!; try done; [|congruence]. unfold ca_isDirty. destruct (existsb isDirty (blks (ca_tags c1))) eqn:E; [|done].
  apply existsb_exists in E as (b & Hin & D). apply list_elem_of_In, list_elem_of_lookup in Hin as [i Hi']. by rewrite (Hd _ _ Hi') in D.
Qed.
End Flushed.
