(* ===== verification/CacheSystem.v ===== *)
(** * Systems with a cache

    A cache as the constructor leaves it, over a memory: sequences of atomic
    requests, functional accesses and flushes are answered as by the memory alone.
    A cache over a memory is itself a memory for a processor, so a processor
    cannot tell whether there is one. *)
From S2P Require Import Prelude Flags IntMath AddrRange Double PageTable ProcessMem Packet AbstractMem SimpleMem AtomicMem AddrMap PhysMem PhysMemInit XbarRoute XbarLayer NoncoherentXbar SystemBus CacheTags Cache CacheContent CacheCorrect CacheFlush.

(** ** Definitions *)

(** What is asked of a cache. *)
Inductive cache_op :=
  | Atomic (p : Packet)       (** [recvAtomic(pkt)] *)
  | Func (p : Packet)         (** [functionalAccess(pkt, true)] *)
  | Flush.                    (** [memWriteback()], then [memInvalidate()] *)

Section CacheRuns.
Context {M : Type} `{MemPort M} `{FuncPort M}.

Definition cache_step (c : Cache) (m : M) (o : cache_op) : result (Cache * M * list Z) :=
  match o with
  | Atomic p => let* '(_, c, m, p') := ca_recvAtomic c m p in Ok (c, m, default [] (data p'))
  | Func p => let* '(c, m, p') := ca_functionalAccess c m p in Ok (c, m, default [] (data p'))
  | Flush => let* '(c, m) := memWriteback c m in let* c := memInvalidate c in Ok (c, m, [])
  end.

Fixpoint cache_run (c : Cache) (m : M) (os : list cache_op) : result (Cache * M * list (list Z)) :=
  match os with
  | [] => Ok (c, m, [])
  | o :: os =>
      let* '(c, m, out) := cache_step c m o in
      let* '(c, m, outs) := cache_run c m os in
      Ok (c, m, out :: outs)
  end.
End CacheRuns.

(** One flat memory: a read takes its bytes, a write leaves its own. *)
Definition flat_step (f : Z -> Z) (p : Packet) : (Z -> Z) * list Z :=
  let d := default [] (data p) in
  if isWrite (cmd p) then (mem_store f (addr p) d, d)
  else (f, (fun i => f (addr p + Z.of_nat i)) <$> seq 0 (length d)).

(** What an operation does to it; the cache loses an atomic, uncacheable write of
    a whole block of [2 ^ k] bytes. *)
Definition flat_op (k : Z) (f : Z -> Z) (o : cache_op) : (Z -> Z) * list Z :=
  match o with
  | Atomic p => if ca_lost k p then (f, default [] (data p)) else flat_step f p
  | Func p => flat_step f p
  | Flush => (f, [])
  end.

Fixpoint flat_outs (k : Z) (f : Z -> Z) (os : list cache_op) : (Z -> Z) * list (list Z) :=
  match os with
  | [] => (f, [])
  | o :: os => let x := flat_op k f o in let y := flat_outs k x.1 os in (y.1, x.2 :: y.2)
  end.

(** The packets the operations are for. *)
Definition op_packet (o : cache_op) : option Packet :=
  match o with Atomic p | Func p => Some p | Flush => None end.

#[export] Instance Cache_port {M} `{MemPort M} : MemPort (Cache * M) := {
  sendAtomic x p := let* '(lat, c, m, p) := ca_recvAtomic x.1 x.2 p in Ok (lat, (c, m), p);
  payload_of _ _ := 0;
  isMemAddr x a := let* '(b, m) := isMemAddr x.2 a in Ok (b, (x.1, m));
  phys_access x p := let* '(m, p) := phys_access x.2 p in Ok ((x.1, m), p);
}.

(** ** Runs *)

Section CacheRunsCorrect.
Context {M : Type} {MP : MemPort M} {ML : MemPortLaws M} {MS : MemSideLaws M} {MF : FuncPort M} {FL : FuncLaws M}.
Implicit Types (c : Cache) (m : M).

(** A cache just built, over a memory. *)
Lemma new_cache_ok t m S k s hit resp period :
  tags_wf t k s -> (forall i b, blks t !! i = Some b -> isValid b = false) -> mp_spec m S ->
  ex_lo (mp_extent m) mod 2 ^ k = 0 -> ex_hi (mp_extent m) mod 2 ^ k = 0 ->
  cache_ok (new_Cache t (2 ^ k) hit resp period true false) m S k s.
Proof.
  intros W Hv Hs H1 H2. exists S. split; try done. assert (forall i b, ~ resident t i b) as Hno by (intros i b [Hb V]; rewrite (Hv _ _ Hb) in V; done).
  split; try done; [intros i b Hr; by apply Hno in Hr..|]. intros wa d Hin. by apply not_elem_of_nil in Hin.
Qed.

Lemma flat_access S p d : cmd p = ReadReq \/ cmd p = WriteReq -> data p = Some d ->
  flat_step (sp_byte S) p = (sp_byte (sp_access S p d).1.1, (sp_access S p d).1.2) /\
  flat_step (sp_byte S) p = (sp_byte (sp_functional S p d).1, (sp_functional S p d).2).
Proof. intros Hc Hd. unfold flat_step, sp_access, sp_functional. rewrite Hd. destruct Hc as [-> | ->]; done. Qed.

Lemma cache_step_ok c m S k s o :
  cache_ok c m S k s ->
  (forall p, op_packet o = Some p -> exists d, ca_asks (mem_range (mp_extent m)) (maxMasters (ca_tags c)) k p d) ->
  exists c' m' S', cache_step c m o = Ok (c', m', (flat_op k (sp_byte S) o).2) /\ sp_byte S' = (flat_op k (sp_byte S) o).1 /\
    cache_ok c' m' S' k s /\ mp_extent m' = mp_extent m /\ maxMasters (ca_tags c') = maxMasters (ca_tags c).
Proof.
  intros Hc Ha. destruct o as [p|p|]; cbn [op_packet cache_step flat_op] in *.
  - destruct (Ha p eq_refl) as [d A]. destruct (ca_lost k p) eqn:Hl.
    { destruct (lost_write c m S k s p d Hc A Hl) as (lat & c' & m' & p' & -> & _ & Hd & Hc' & He & Hp). cbn [rbind fst snd].
      exists c', m', S. rewrite Hd, (po_data _ _ (as_pkt _ _ _ (ck_asks _ _ _ _ _ A))). split_and!; try done. apply (params_same _ _ Hp). }
    destruct (ca_recvAtomic_ok c m S k s p d Hc A Hl) as (lat & c' & m' & p' & -> & Hc' & (Hd & _) & He & Hp). cbn [rbind].
    destruct (flat_access S p d (ck_cmd _ _ _ _ _ A) (po_data _ _ (as_pkt _ _ _ (ck_asks _ _ _ _ _ A)))) as [-> _].
    rewrite Hd. eexists c', m', _. split; [done|]. split; [done|]. split; [done|]. split; [done|]. apply (params_same _ _ Hp).
  - destruct (Ha p eq_refl) as [d A]. destruct (ca_functional_ok c m S k s p d Hc A) as (c' & m' & p' & -> & Hc' & Hd & He & Hp). cbn [rbind].
    destruct (flat_access S p d (ck_cmd _ _ _ _ _ A) (po_data _ _ (as_pkt _ _ _ (ck_asks _ _ _ _ _ A)))) as [_ ->].
    rewrite Hd. eexists c', m', _. split; [done|]. split; [done|]. split; [done|]. split; [done|]. apply (params_same _ _ Hp).
  - destruct (flush_all_ok c m S k s Hc) as (c1 & m' & c' & -> & Hi & _ & Hc' & He & Hm & _). cbn [rbind]. rewrite Hi. cbn [rbind].
    exists c', m', S. done.
Qed.

Lemma cache_run_ok os : forall c m S k s,
  cache_ok c m S k s ->
  Forall (fun o => forall p, op_packet o = Some p -> exists d, ca_asks (mem_range (mp_extent m)) (maxMasters (ca_tags c)) k p d) os ->
  exists c' m' S', cache_run c m os = Ok (c', m', (flat_outs k (sp_byte S) os).2) /\ sp_byte S' = (flat_outs k (sp_byte S) os).1 /\
    cache_ok c' m' S' k s /\ mp_extent m' = mp_extent m.
Proof.
  induction os as [|o os IH]; intros c m S k s Hc Hf; [by exists c, m, S|]. apply Forall_cons in Hf as [Ho Hf]. cbn [cache_run].
  destruct (cache_step_ok c m S k s o Hc Ho) as (c1 & m1 & S1 & -> & E1 & Hc1 & He1 & Hm1). cbn [rbind].
  destruct (IH c1 m1 S1 k s Hc1) as (c' & m' & S' & -> & E' & Hc' & He'). { by rewrite He1, Hm1. }
  cbn [rbind]. exists c', m', S'. rewrite E1 in E' |- *. split_and!; try done; congruence.
Qed.
End CacheRunsCorrect.

(** ** A cache as a memory for a processor *)

Lemma cache_shift c (M : Type) {MP : MemPort M} {ML : MemPortLaws M} (m : M) S k s : cache_ok c m S k s -> setShift (ca_tags c) = k.
Proof. intros [Sm Hh]. apply (tw_geo _ _ _ (ct_wf _ _ _ _ _ _ _ _ (hd_content _ _ _ _ _ _ _ Hh))). Qed.

(** The flags of requests that are not taken for ordinary accesses. *)
Definition cache_forbidden : Z := Z.lor SECURE UNCACHEABLE.

Lemma not_forbidden f g : Z.land f cache_forbidden = 0 -> Z.land cache_forbidden g = g -> flag_isSet f g = false.
Proof. intros Hf Hg. unfold flag_isSet. by rewrite <- Hg, Z.land_assoc, Hf, Z.land_0_l. Qed.

(** The fast path would go past the cache, so it is not one to rely on. *)
#[export, refine] Instance Cache_port_laws {M} {MP : MemPort M} {ML : MemPortLaws M} {MS : MemSideLaws M} : MemPortLaws (Cache * M) := {
  mp_spec x S := exists k s, cache_ok x.1 x.2 S k s;
  mp_asks x p d := ca_asks (mem_range (mp_extent x.2)) (maxMasters (ca_tags x.1)) (setShift (ca_tags x.1)) p d /\ ca_lost (setShift (ca_tags x.1)) p = false;
  mp_extent x := mkExtent (ex_lo (mp_extent x.2)) (ex_hi (mp_extent x.2)) (setShift (ca_tags x.1)) (maxMasters (ca_tags x.1)) cache_forbidden;
  mp_fast := False;
}.
Proof.
  - intros [c m] S (k & s & Sm & Hh). apply (mp_bounds m Sm), Hh.
  - intros [c m] r cm d H1 H2 H3 H4 H5 H6 (A1 & A2 & A3 & A4 & A5) Hc. cbn in *.
    assert (isUncacheable r = false /\ rq_isSecure r = false) as [Hu Hs] by (split; by apply (not_forbidden (_flags r))).
    assert (addr (cpu_packet r cm d) = _paddr r /\ pk_size (cpu_packet r cm d) = _size r) as [Ea En] by (unfold cpu_packet, new_Packet; cbn; by rewrite H1, H2).
    split; [|unfold ca_lost; cbn; by rewrite Hu]. split; rewrite ?Ea, ?En; try done.
    + apply cpu_packet_asks; try done; cbn; try lia; by destruct Hc as [-> | ->].
    + cbn. rewrite H1, Hs. split_and!; try done. unfold sharedAsserted, cpu_packet, new_Packet. cbn. by rewrite H1, H2.
    + cbn. unfold getPaddr. unfold hasPaddr in H1. by rewrite H1.
    + cbn. apply A4.
  - intros [c m] S p d (k & s & Hc) [A Hl]. cbn [fst snd] in *. rewrite (cache_shift c M m S k s Hc) in A, Hl.
    destruct (ca_recvAtomic_ok c m S k s p d Hc A Hl) as (lat & c' & m' & p' & He & Hc' & Hsv & Hext & Hpar).
    cbn [sendAtomic Cache_port fst snd]. rewrite He. cbn [rbind]. exists lat, (c', m'), p'. split; [done|]. cbn [fst snd]. split; [by exists k, s|]. split; [done|].
    injection Hpar as _ _ Es _ _ Em. by rewrite Hext, Es, Em.
  - done.
  - done.
Defined.

(** ** A crossbar below a cache *)

#[export, refine] Instance Bus_side : MemSideLaws Bus := {}.
Proof.
  intros b s p d Hb Ha. apply (asks_bounds _ (am_range (main_memory b))) in Ha; [|done|cbn; lia].
  destruct (bus_send_ok _ _ _ _ Hb Ha) as (lat & b' & p' & He & Hb' & Hm & Hd & Hans & Hx). exists lat, b', p'. cbn. by rewrite Hm.
Defined.

(** ** Properties *)

(** A cache of [2 ^ s] sets of [a] blocks of [2 ^ k] bytes that fits a memory. *)
Record fits {M} `{MemPortLaws M} (m : M) (S : MemSpec) (k s a : Z) (rnd : list Z) : Prop := {
  ft_block : 2 <= k <= 30;
  ft_sets : 0 <= s <= 31;
  ft_ways : 0 < a /\ 2 ^ k * a < 2 ^ 31;
  ft_size : 2 ^ k * a * 2 ^ s < 2 ^ 32;
  ft_random : Forall (fun x => 0 <= x < a) rnd;
  ft_memory : mp_spec m S;
  ft_lo : ex_lo (mp_extent m) mod 2 ^ k = 0;
  ft_hi : ex_hi (mp_extent m) mod 2 ^ k = 0;
}.

(** The operations of a run are requests the cache takes. *)
Definition takes {M} `{MemPortLaws M} (m : M) (mm k : Z) (os : list cache_op) : Prop :=
  Forall (fun o => forall p, op_packet o = Some p -> exists d, ca_asks (mem_range (mp_extent m)) mm k p d) os.

Lemma built_run {M} {MP : MemPort M} {ML : MemPortLaws M} {MS : MemSideLaws M} {MF : FuncPort M} {FL : FuncLaws M}
    (m : M) S policy k s a rnd hit mm resp period os :
  fits m S k s a rnd -> takes m mm k os ->
  exists t c' m' S', new_Tags policy (2 ^ k * a * 2 ^ s) (2 ^ k) a hit mm rnd = Ok t /\
    cache_run (new_Cache t (2 ^ k) hit resp period true false) m os = Ok (c', m', (flat_outs k (sp_byte S) os).2) /\
    sp_byte S' = (flat_outs k (sp_byte S) os).1 /\ cache_ok c' m' S' k s /\ mp_extent m' = mp_extent m.
Proof.
  intros [F1 F2 [F3 F4] F9 F5 F6 F7 F8] Ht. destruct (new_Tags_ok policy k s a hit mm rnd F1 F2 F3 F4 F9 F5) as (t & He & W & Hv & Hm & _).
  destruct (cache_run_ok os _ m S k s (new_cache_ok t m S k s hit resp period W Hv F6 F7 F8)) as (c' & m' & S' & Hr & E & Hc & Hx).
  { cbn. by rewrite Hm. }
  exists t, c', m', S'. done.
Qed.

(** C22: A cache is transparent.  A cache of less than 4 GiB that the constructor has
    built over a memory, whatever the number of its sets and ways, the size of its
    blocks (4 bytes or more, a set being less than 2 GiB; the size divides the
    bounds of the memory) and its replacement policy,
    takes every sequence of reads and writes, atomic or functional, cacheable or
    not, and of flushes, without a failure, and every read returns the bytes last
    written to its addresses, as if there were only one flat memory.  The requests
    are not secure, neither asserted shared nor inhibited, lie within the memory
    and within a block, and come from a master the cache knows.  There is one exception,
    [ca_lost]: the cache loses the bytes of an atomic, uncacheable write of a whole
    block, which leaves the flat memory as it was. *)
Theorem cache_transparent {M} {MP : MemPort M} {ML : MemPortLaws M} {MS : MemSideLaws M} {MF : FuncPort M} {FL : FuncLaws M}
    (m : M) S policy k s a rnd hit mm resp period os :
  fits m S k s a rnd -> takes m mm k os ->
  exists t c' m', new_Tags policy (2 ^ k * a * 2 ^ s) (2 ^ k) a hit mm rnd = Ok t /\
    cache_run (new_Cache t (2 ^ k) hit resp period true false) m os = Ok (c', m', (flat_outs k (sp_byte S) os).2).
Proof.
  intros F T. destruct (built_run m S policy k s a rnd hit mm resp period os F T) as (t & c' & m' & S' & H1 & H2 & _).
  by exists t, c', m'.
Qed.

(** C31: A flush is complete: after any run of requests that are not secure, neither
    asserted shared nor inhibited, lie within the memory and within a block, and
    come from known masters, over a cache just built of less than 4 GiB (blocks of
    4 bytes or more, sets of less than 2 GiB), writing back and invalidating
    succeed, no block is dirty in between and none is valid
    afterwards, and the memory alone holds every byte as the flat memory does;
    the flat memory does not have the bytes of the atomic, uncacheable writes of
    whole blocks in the run, which the cache has lost ([ca_lost]). *)
Theorem flush_complete {M} {MP : MemPort M} {ML : MemPortLaws M} {MS : MemSideLaws M} {MF : FuncPort M} {FL : FuncLaws M}
    (m : M) S policy k s a rnd hit mm resp period os :
  fits m S k s a rnd -> takes m mm k os ->
  exists t c1 m1 c2 m2 c3 Sm, new_Tags policy (2 ^ k * a * 2 ^ s) (2 ^ k) a hit mm rnd = Ok t /\
    cache_run (new_Cache t (2 ^ k) hit resp period true false) m os = Ok (c1, m1, (flat_outs k (sp_byte S) os).2) /\
    memWriteback c1 m1 = Ok (c2, m2) /\ ca_isDirty c2 = false /\ memInvalidate c2 = Ok c3 /\
    (forall i b, blks (ca_tags c3) !! i = Some b -> isValid b = false) /\ mp_spec m2 Sm /\
    forall x, ex_lo (mp_extent m) <= x < ex_hi (mp_extent m) -> sp_byte Sm x = (flat_outs k (sp_byte S) os).1 x.
Proof.
  intros F T. destruct (built_run m S policy k s a rnd hit mm resp period os F T) as (t & c1 & m1 & S1 & H1 & H2 & E & Hc & Hx).
  destruct (flush_all_ok c1 m1 S1 k s Hc) as (c2 & m2 & c3 & Hw & Hi & Hd & [Sm Hh] & Hx2 & _ & Hv).
  exists t, c1, m1, c2, m2, c3, Sm. split_and!; try done; [apply Hh|]. intros x Hxx. rewrite <- E.
  apply (ct_mem _ _ _ _ _ _ _ _ (hd_content _ _ _ _ _ _ _ Hh)); [by rewrite Hx2, Hx| |intros wa d Hin; by apply not_elem_of_nil in Hin].
  intros i b [Hb V]. by rewrite (Hv _ _ Hb) in V.
Qed.

(** A memory of 64 bytes and a cache of one set of two blocks of 16: the third
    block replaces a dirty one, which is read back, flushed and looked at; an
    uncacheable write of part of a block goes through, one of a whole block is lost. *)
Definition small_memory : SimpleMemory * list Z := (mkSimpleMemory demo_memory 30 0 dzero [] false false false 1 2 false 0, []).
Definition past_packet (d : list Z) : Packet :=
  cpu_packet (setThreadContext (Request_phys 0x1030 (Z.of_nat (length d)) UNCACHEABLE 0 0) 0 0) WriteReq d.
Definition small_ops : list cache_op :=
  [Atomic (demo_packet WriteReq 0x1004 0 [1; 2; 3; 4]); Atomic (demo_packet WriteReq 0x1010 0 [5; 6]);
   Atomic (demo_packet ReadReq 0x1020 0 [0]); Atomic (demo_packet ReadReq 0x1004 0 [0; 0; 0; 0]); Flush;
   Func (demo_packet ReadReq 0x1010 0 [0; 0; 0]); Atomic (past_packet (replicate 15 8)); Atomic (past_packet (replicate 16 7));
   Atomic (demo_packet ReadReq 0x103e 0 [0; 0])].

Lemma small_fits : fits small_memory demo_spec 4 0 2 [].
Proof. split; cbn; try lia; try done; try (by constructor). split; [done|]. exists (replicate 64 0). exact demo_represents. Qed.

Lemma small_asks c a d :
  c = ReadReq \/ c = WriteReq -> d <> [] -> 0x1000 <= a -> a + Z.of_nat (length d) <= 0x1040 -> a mod 16 + Z.of_nat (length d) <= 16 ->
  ca_asks (mem_range (mp_extent small_memory)) 4 4 (demo_packet c a 0 d) d.
Proof.
  intros Hc Hd H1 H2 H3. assert (length d <> 0)%nat by (by destruct d). pose proof (Z.mod_pos_bound a 16 ltac:(lia)).
  split; try done; cbn; try lia. eapply (asks_bounds demo_memory); [done|done|]. apply demo_asks; try done; [lia|by destruct Hc as [-> | ->]].
Qed.

Lemma past_asks d : (0 < length d <= 16)%nat -> ca_asks (mem_range (mp_extent small_memory)) 4 4 (past_packet d) d.
Proof.
  intros Hd. split; try done; cbn; try lia; [|by right|change (0 + Z.of_nat (length d) <= 16); lia].
  eapply (asks_bounds demo_memory); [done|done|]. apply (cpu_packet_asks demo_memory); try done; cbn; unfold region; cbn; lia.
Qed.

Lemma small_takes : takes small_memory 4 4 small_ops.
Proof.
  repeat apply Forall_cons_2; try apply Forall_nil_2; intros p [= <-]; eexists; try (apply past_asks; cbn; lia);
    apply small_asks; cbn; auto; try lia; discriminate.
Qed.

Lemma cache_transparent_witness :
  exists t c' m', new_Tags LRU 32 16 2 2 4 [] = Ok t /\
    cache_run (new_Cache t 16 2 3 1000 true false) small_memory small_ops =
      Ok (c', m', [[1; 2; 3; 4]; [5; 6]; [0]; [1; 2; 3; 4]; []; [5; 6; 0]; replicate 15 8; replicate 16 7; [8; 0]]).
Proof. exact (cache_transparent small_memory demo_spec LRU 4 0 2 [] 2 4 3 1000 small_ops small_fits small_takes). Defined.

Lemma flush_complete_witness :
  exists t c1 m1 c2 m2 c3 Sm, new_Tags LRU 32 16 2 2 4 [] = Ok t /\
    cache_run (new_Cache t 16 2 3 1000 true false) small_memory small_ops =
      Ok (c1, m1, [[1; 2; 3; 4]; [5; 6]; [0]; [1; 2; 3; 4]; []; [5; 6; 0]; replicate 15 8; replicate 16 7; [8; 0]]) /\
    memWriteback c1 m1 = Ok (c2, m2) /\ memInvalidate c2 = Ok c3 /\ mp_spec m2 Sm /\ sp_byte Sm 0x1005 = 2 /\ sp_byte Sm 0x1030 = 8.
Proof.
  destruct (flush_complete small_memory demo_spec LRU 4 0 2 [] 2 4 3 1000 small_ops small_fits small_takes)
    as (t & c1 & m1 & c2 & m2 & c3 & Sm & H1 & H2 & H3 & _ & H4 & _ & H5 & H6).
  exists t, c1, m1, c2, m2, c3, Sm. split; [exact H1|]. split; [exact H2|]. split; [exact H3|]. split; [exact H4|]. split; [exact H5|].
  split; (rewrite H6; [reflexivity|]; cbn; lia).
Defined.
