(* ===== verification/MemSystems.v ===== *)
(** * A processor over a memory system

    Programs of loads and stores of the atomic processor ([readMem] and
    [writeMem]), over any memory that keeps the promises of [MemPortLaws]: a
    simple memory, the memories behind a crossbar, a cache over either.  Every
    load returns what a flat array of the process's bytes holds, so a processor
    cannot tell which of them it has. *)
From S2P Require Import Prelude Flags IntMath AddrRange Double PageTable ProcessMem Packet AbstractMem SimpleMem AtomicMem AddrMap PhysMem PhysMemInit XbarRoute XbarLayer NoncoherentXbar SystemBus CacheTags Cache CacheContent CacheCorrect CacheFlush CacheSystem.

(** ** Definitions *)

(** A load into a buffer, or a store, of [n] bytes at [a]. *)
Inductive data_op :=
  | Load (a n f : Z) (buf : list Z)     (** [readMem(a, buf, n, f)] *)
  | Store (a n f : Z) (bytes : list Z). (** [writeMem(bytes, n, a, f, NULL)] *)

Section Programs.
Context {M : Type} `{MemPort M}.
Context (handleIpr : M -> Packet -> result (Z * M * Packet)).

(** The fault of an operation and the buffer after it. *)
Definition data_step (P : DataParams) (c : DataCpu M) (o : data_op) : result (DataCpu M * (Fault * list Z)) :=
  match o with
  | Load a n f buf => let* '(flt, c, buf) := readMem handleIpr P c a buf n f in Ok (c, (flt, buf))
  | Store a n f bytes => let* '(flt, c, _) := writeMem handleIpr P c (Some bytes) n a f None in Ok (c, (flt, []))
  end.

Fixpoint data_run (P : DataParams) (c : DataCpu M) (os : list data_op) : result (DataCpu M * list (Fault * list Z)) :=
  match os with
  | [] => Ok (c, [])
  | o :: os => let* '(c, x) := data_step P c o in let* '(c, xs) := data_run P c os in Ok (c, x :: xs)
  end.
End Programs.

(** The same operations on an array of bytes. *)
Definition array_step (g : Z -> Z) (o : data_op) : (Z -> Z) * (Fault * list Z) :=
  match o with
  | Load a n _ buf => (g, (NoFault, ((fun i => g (a + Z.of_nat i)) <$> seq 0 (Z.to_nat n)) ++ drop (Z.to_nat n) buf))
  | Store a n _ bytes => (mem_store g a (take (Z.to_nat n) bytes), (NoFault, []))
  end.

Fixpoint array_run (g : Z -> Z) (os : list data_op) : list (Fault * list Z) :=
  match os with
  | [] => []
  | o :: os => let x := array_step g o in x.2 :: array_run x.1 os
  end.

(** Ordinary accesses to mapped memory. *)
Definition op_ok {M} `{MemPortLaws M} (P : DataParams) (c : DataCpu M) (p : Process) (k : Z) (o : data_op) : Prop :=
  match o with
  | Load a n f d | Store a n f d => access_ok P c p k a n f (Z.of_nat (length d))
  end.

(** The bytes of a process. *)
Definition process_bytes (p : Process) (s : MemSpec) (v : Z) : Z := default 0 (vbyte p s v).

(** The processor with another memory. *)
Definition on_memory {M M'} (c : DataCpu M) (m : M') : DataCpu M' :=
  mkDataCpu (dc_read_req c) (dc_write_req c) (dc_locked c) (dcache_latency c) (dcache_access c) (lockAddr c) (lockFlag c) (stCondFailures c)
    (dc_tlb c) (dc_pTable c) m.

Definition op_flags (o : data_op) : Z := match o with Load _ _ f _ | Store _ _ f _ => f end.

(** ** Programs on an array *)

Section Refinement.
Context {M : Type} {MP : MemPort M} {ML : MemPortLaws M}.
Context (handleIpr : M -> Packet -> result (Z * M * Packet)).
Implicit Types c : DataCpu M.

(** The array holds the bytes of the mapped pages. *)
Definition mirrors (p : Process) (s : MemSpec) (g : Z -> Z) : Prop :=
  forall v y, is_u64 v -> pt_image (pr_pTable p) v = Some y -> y < physmem_totalSize (pr_system p) -> vbyte p s v = Some (g v).

Lemma process_bytes_mirror p s : mirrors p s (process_bytes p s).
Proof. intros v y _ Hy _. unfold process_bytes, vbyte. by rewrite Hy. Qed.

Lemma mirrors_same p p' s g :
  (forall a, pt_image (pr_pTable p') a = pt_image (pr_pTable p) a) -> pr_system p' = pr_system p -> mirrors p s g -> mirrors p' s g.
Proof. intros Hi Hs Hm v y Hv Hy Hlt. rewrite (vbyte_same p) by done. apply (Hm v y); [done|by rewrite <- Hi|by rewrite <- Hs]. Qed.

Lemma mirrors_stored p s s' g a n bytes :
  0 <= n <= Z.of_nat (length bytes) -> AtomicMem.stored p s s' a n bytes 0 -> mirrors p s g -> mirrors p s' (mem_store g a (take (Z.to_nat n) bytes)).
Proof.
  intros Hn Hst Hm v y Hv Hy Hlt. rewrite (Hst v y Hv Hy Hlt). case_decide as Hin.
  - rewrite <- mem_store_in by (rewrite length_take; lia). by rewrite lookup_take_lt by lia.
  - rewrite mem_store_out by (rewrite length_take; lia). by apply (Hm v y).
Qed.

Lemma op_same P c p c' p' k o : dc_same c p c' p' -> op_ok P c p k o -> op_ok P c' p' k o.
Proof. destruct o; apply access_same. Qed.

Lemma data_step_ok P c p s k o g :
  dc_inv c p s -> ex_hi (mp_extent (dc_mem c)) <= physmem_totalSize (pr_system p) -> op_ok P c p k o -> mirrors p s g ->
  exists c' p' s', data_step handleIpr P c o = Ok (c', (array_step g o).2) /\ dc_inv c' p' s' /\ dc_same c p c' p' /\
    mirrors p' s' (array_step g o).1.
Proof.
  intros Hi Hhi Ho Hm. destruct o as [a n f buf|a n f bytes]; cbn [op_ok data_step array_step fst snd] in *.
  - destruct (readMem_ok handleIpr P c p s k a n f buf Hi Ho) as (c' & p' & buf' & -> & Hi' & Hs & Hd). cbn [rbind].
    exists c', p', s. split; [|split; [done|]; split; [done|]; by eapply mirrors_same; [apply Hs..|]]. do 3 f_equal.
    destruct Ho as [_ _ Hn Ha _ _ Hr Hlen]. apply list_eq. intros i. rewrite Hd. case_decide as Hin.
    + rewrite lookup_app_l by (rewrite length_fmap, length_seq; lia). rewrite list_lookup_fmap, lookup_seq_lt by lia. cbn.
      destruct (Hr (Z.of_nat i) ltac:(lia)) as (y & Hy & Hyr). apply (Hm _ y); [unfold in_range; lia|done|lia].
    + rewrite lookup_app_r by (rewrite length_fmap, length_seq; lia). rewrite length_fmap, length_seq, lookup_drop. f_equal. lia.
  - destruct (writeMem_ok handleIpr P c p s k a n f bytes Hi Ho) as (c' & p' & s' & -> & Hi' & Hs & Hst). cbn [rbind].
    exists c', p', s'. split; [done|]. split; [done|]. split; [done|]. eapply mirrors_same; [apply Hs..|].
    destruct Ho as [_ _ Hn Ha _ _ Hr Hlen]. by apply (mirrors_stored p s s'); [lia|..].
Qed.

Lemma data_run_ok P k os : forall c p s g,
  dc_inv c p s -> ex_hi (mp_extent (dc_mem c)) <= physmem_totalSize (pr_system p) -> Forall (op_ok P c p k) os -> mirrors p s g ->
  exists c', data_run handleIpr P c os = Ok (c', array_run g os).
Proof.
  induction os as [|o os IH]; intros c p s g Hi Hhi Hos Hm; [by exists c|]. apply Forall_cons in Hos as [Ho Hos].
  destruct (data_step_ok P c p s k o g Hi Hhi Ho Hm) as (c1 & p1 & s1 & He & Hi1 & Hs & Hm1). cbn [data_run]. rewrite He. cbn [rbind].
  pose proof Hs as (_ & Esys & Eext & _).
  destruct (IH c1 p1 s1 _ Hi1 ltac:(by rewrite Esys, Eext) ltac:(by eapply Forall_impl; [exact Hos|intros x; by apply op_same]) Hm1) as (c' & ->).
  by exists c'.
Qed.
End Refinement.

(** ** Properties *)

(** C23: The processor's loads and stores act on one array of bytes, whatever memory
    is behind its port: every program of ordinary accesses to mapped memory, each
    of at most a cache line but perhaps split at a line or page boundary, runs
    without a fault, and every load returns the bytes last stored at its
    addresses, although they go through the page table, its cache and the packets
    of the memory system. *)
Theorem programs_see_array {M} {MP : MemPort M} {ML : MemPortLaws M} handleIpr P (c : DataCpu M) p s k os :
  dc_inv c p s -> ex_hi (mp_extent (dc_mem c)) <= physmem_totalSize (pr_system p) -> Forall (op_ok P c p k) os ->
  exists c', data_run handleIpr P c os = Ok (c', array_run (process_bytes p s) os).
Proof. intros Hi Hhi Hos. by eapply data_run_ok; [..|apply process_bytes_mirror]. Qed.

(** C24: A processor cannot tell that it has a cache: any program of ordinary
    accesses, cacheable and not secure, gives the same faults and the same loaded
    bytes over a memory system and over a cache built in front of it, for every
    replacement policy and every geometry of less than 4 GiB (sets of less than
    2 GiB) with lines of the processor's size or more, which divide the bounds of
    the memory.  The fast
    path, which would go past the cache, is off. *)
Theorem cache_invisible {M} {MP : MemPort M} {ML : MemPortLaws M} {MS : MemSideLaws M} ipr ipr' P (c : DataCpu M) p S k os
    policy kc s a rnd hit mm resp period :
  dc_inv c p S -> ex_hi (mp_extent (dc_mem c)) <= physmem_totalSize (pr_system p) -> Forall (op_ok P c p k) os ->
  fits (dc_mem c) S kc s a rnd -> k <= kc -> dataMasterId P < mm -> fastmem P = false ->
  Forall (fun o => Z.land (op_flags o) cache_forbidden = 0) os ->
  exists t c1 c2 outs, new_Tags policy (2 ^ kc * a * 2 ^ s) (2 ^ kc) a hit mm rnd = Ok t /\
    data_run ipr P c os = Ok (c1, outs) /\
    data_run ipr' P (on_memory c (new_Cache t (2 ^ kc) hit resp period true false, dc_mem c)) os = Ok (c2, outs).
Proof.
  intros Hi Hhi Hos [F1 F2 [F3 F4] F9 F5 F6 F7 F8] Hk Hmm Hfast Hfl.
  destruct (new_Tags_ok policy kc s a hit mm rnd F1 F2 F3 F4 F9 F5) as (t & He & W & Hv & Hm & _).
  pose proof (new_cache_ok t (dc_mem c) S kc s hit resp period W Hv F6 F7 F8) as Hc. set (x := (new_Cache t (2 ^ kc) hit resp period true false, dc_mem c)).
  destruct (data_run_ok ipr P k os c p S _ Hi Hhi Hos (process_bytes_mirror p S)) as (c1 & H1).
  destruct (data_run_ok ipr' P k os (on_memory c x) p S (process_bytes p S)) as (c2 & H2).
  - destruct Hi as [D1 D2 D3 D4 D5 D6]. split; try done. by exists kc, s.
  - exact Hhi.
  - apply Forall_forall. intros o Ho. rewrite Forall_forall in Hos, Hfl. specialize (Hos o Ho). specialize (Hfl o Ho).
    destruct o; (destruct Hos as [[[B1 B2] B3 B4 B5] C1 C2 C3 C4 C5 C6 C7]; split; try done; split; [|cbn; lia|done|by rewrite Hfast]);
      (split; [done|]; by rewrite <- (cache_shift _ M (dc_mem c) S kc s Hc) in Hk).
  - apply process_bytes_mirror.
  - by exists t, c1, c2, (array_run (process_bytes p S) os).
Qed.

(** Stores across the page boundary at 0x9000 and to a third line; loads over both. *)
Definition sys_ops : list data_op :=
  [Store 0x8ffe 4 dm_flags [1; 2; 3; 4]; Store 0x8100 2 dm_flags [5; 6]; Load 0x8fff 4 dm_flags [0; 0; 0; 0]; Load 0x8101 1 dm_flags [9; 9]].

Lemma sys_hi : ex_hi (mp_extent (dc_mem dm_cpu)) <= physmem_totalSize (pr_system dm_process).
Proof. destruct dm_process_ok as (_ & -> & _). vm_compute. discriminate. Qed.

Lemma sys_access a n (d : list Z) :
  0x8000 <= a -> 0 < n <= 64 -> a + n <= 0xa000 -> n <= Z.of_nat (length d) -> access_ok dm_params dm_cpu dm_process 6 a n dm_flags (Z.of_nat (length d)).
Proof.
  intros Ha Hn Han Hl. pose proof (dm_access a (Z.to_nat n) ltac:(lia) ltac:(lia) ltac:(lia)) as H. rewrite Z2Nat.id in H by lia.
  destruct H as [B0 B1 B2 B3 B4 B5 B6 B7]. by split.
Qed.

Lemma sys_ops_ok : Forall (op_ok dm_params dm_cpu dm_process 6) sys_ops.
Proof. unfold sys_ops. repeat (apply Forall_cons_2; [apply sys_access; cbn; lia|]). apply Forall_nil_2. Qed.

Lemma programs_see_array_witness :
  exists c', data_run (fun _ _ => Err Panic) dm_params dm_cpu sys_ops =
    Ok (c', [(NoFault, []); (NoFault, []); (NoFault, [2; 3; 4; 0]); (NoFault, [6; 9])]).
Proof.
  destruct (programs_see_array (fun _ _ => Err Panic) dm_params dm_cpu dm_process (mkMemSpec (fun _ => 0) ∅) 6 sys_ops dm_inv sys_hi sys_ops_ok) as (c' & H).
  exists c'. rewrite H. reflexivity.
Defined.

Lemma sys_fits : fits (dc_mem dm_cpu) (mkMemSpec (fun _ => 0) ∅) 6 0 1 [].
Proof.
  split; [lia|lia|lia|lia|constructor|exact (di_mem _ _ _ dm_inv)|vm_compute; reflexivity|vm_compute; reflexivity].
Qed.

(** One set of one line: every operation of the program evicts the line of the
    one before it. *)
Lemma cache_invisible_witness :
  exists t c1 c2 outs, new_Tags LRU 64 64 1 2 4 [] = Ok t /\
    data_run (fun _ _ => Err Panic) dm_params dm_cpu sys_ops = Ok (c1, outs) /\
    data_run (fun _ _ => Err Panic) dm_params (on_memory dm_cpu (new_Cache t 64 2 3 1000 true false, dm_memory)) sys_ops = Ok (c2, outs).
Proof.
  apply (cache_invisible (fun _ _ => Err Panic) (fun _ _ => Err Panic) dm_params dm_cpu dm_process (mkMemSpec (fun _ => 0) ∅) 6 sys_ops
    LRU 6 0 1 [] 2 4 3 1000 dm_inv sys_hi sys_ops_ok sys_fits); try reflexivity; try lia.
  repeat constructor.
Defined.
