(* ===== verification/FplibCore.v ===== *)
(** * The floating-point library: numbers

    The first part of [arch/arm/insts/fplib.cc], the library that computes the
    floating-point instructions of ARM with integers: shifts, arithmetic on 128
    bits, normalisation, packing and unpacking, NaNs and rounding, for numbers of
    16, 32 and 64 bits.  A [uintN_t] is a [Z] that is wrapped where the code can
    leave its range; an [int] (signs, exponents, modes, flags) is a [Z], since
    none comes near the bounds of its type.  The exception flags that the code
    accumulates through a pointer are an argument and a result. *)
From S2P Require Import Prelude.

Declare Scope fp_scope.
Delimit Scope fp_scope with fp.
Infix ".&" := Z.land (at level 40, left associativity) : fp_scope.
Infix ".|" := Z.lor (at level 50, left associativity) : fp_scope.
Infix ".^" := Z.lxor (at level 50, left associativity) : fp_scope.
#[global] Open Scope fp_scope.

(** [!!x] and the value of a condition. *)
Definition nz (x : Z) : Z := Z.b2z (negb (x =? 0)).
Definition truth (x : Z) : bool := negb (x =? 0).

Definition FPLIB_RN : Z := 0.
Definition FPLIB_RP : Z := 1.
Definition FPLIB_RM : Z := 2.
Definition FPLIB_RZ : Z := 3.
Definition FPLIB_FZ : Z := 4.
Definition FPLIB_DN : Z := 8.
Definition FPLIB_AHP : Z := 16.

Definition FPLIB_IDC : Z := 128.
Definition FPLIB_IXC : Z := 16.
Definition FPLIB_UFC : Z := 8.
Definition FPLIB_OFC : Z := 4.
Definition FPLIB_DZC : Z := 2.
Definition FPLIB_IOC : Z := 1.

(** [FPRounding] of [fplib.hh]. *)
Definition FPRounding_TIEEVEN : Z := 0.
Definition FPRounding_POSINF : Z := 1.
Definition FPRounding_NEGINF : Z := 2.
Definition FPRounding_ZERO : Z := 3.
Definition FPRounding_TIEAWAY : Z := 4.
Definition FPRounding_ODD : Z := 5.

(** ** Definitions: shifts *)

Definition lsl16 (x shift : Z) : Z := if u32 shift <? 16 then u16 (x ≪ u32 shift) else 0.
Definition lsr16 (x shift : Z) : Z := if u32 shift <? 16 then x ≫ u32 shift else 0.
Definition lsl32 (x shift : Z) : Z := if u32 shift <? 32 then u32 (x ≪ u32 shift) else 0.
Definition lsr32 (x shift : Z) : Z := if u32 shift <? 32 then x ≫ u32 shift else 0.
Definition lsl64 (x shift : Z) : Z := if u32 shift <? 64 then u64 (x ≪ u32 shift) else 0.
Definition lsr64 (x shift : Z) : Z := if u32 shift <? 64 then x ≫ u32 shift else 0.

(** A shift of 64 bits by 64, which C++ leaves undefined. *)
Definition shl (x n : Z) : result Z := if n <? 64 then Ok (u64 (x ≪ n)) else Err Undefined.
Definition shr (x n : Z) : result Z := if n <? 64 then Ok (x ≫ n) else Err Undefined.

(** The two words of 128 bits, the lower one first. *)
Definition lsl128 (x0 x1 shift : Z) : result (Z * Z) :=
  let shift := u32 shift in
  if shift <? 64 then
    let* h := shl x1 shift in
    let* l := shr x0 (64 - shift) in
    let* r0 := shl x0 shift in
    Ok (r0, h .| l)
  else if shift <? 128 then let* r1 := shl x0 (shift - 64) in Ok (0, r1)
  else Ok (0, 0).

Definition lsr128 (x0 x1 shift : Z) : result (Z * Z) :=
  let shift := u32 shift in
  if shift <? 64 then
    let* l := shr x0 shift in
    let* h := shl x1 (64 - shift) in
    let* r1 := shr x1 shift in
    Ok (l .| h, r1)
  else if shift <? 128 then let* r0 := shr x1 (shift - 64) in Ok (r0, 0)
  else Ok (0, 0).

(** ** Definitions: arithmetic on 128 bits *)

Definition mul62x62 (a b : Z) : Z * Z :=
  let mask := u32 ((1 ≪ 31) - 1) in
  let a0 := a .& mask in
  let a1 := (a ≫ 31) .& mask in
  let b0 := b .& mask in
  let b1 := (b ≫ 31) .& mask in
  let p0 := u64 (a0 * b0) in
  let p2 := u64 (a1 * b1) in
  let p1 := u64 (u64 ((a0 + a1) * (b0 + b1)) - p0 - p2) in
  let s0 := p0 in
  let s1 := u64 ((s0 ≫ 31) + p1) in
  let s2 := u64 ((s1 ≫ 31) + p2) in
  ((s0 .& mask) .| u64 ((s1 .& mask) ≪ 31) .| u64 (s2 ≪ 62), s2 ≫ 2).

Definition mul64x32 (a b : Z) : Z * Z :=
  let b := u32 b in
  let t0 := u64 (u32 a * b) in
  let t1 := u64 ((t0 ≫ 32) + u64 ((a ≫ 32) * b)) in
  (u64 (t1 ≪ 32) .| u32 t0, t1 ≫ 32).

Definition add128 (a0 a1 b0 b1 : Z) : Z * Z :=
  let x0 := u64 (a0 + b0) in
  (x0, u64 (a1 + b1 + Z.b2z (x0 <? a0))).

Definition sub128 (a0 a1 b0 b1 : Z) : Z * Z :=
  let x0 := u64 (a0 - b0) in
  (x0, u64 (a1 - b1 - Z.b2z (a0 <? x0))).

Definition cmp128 (a0 a1 b0 b1 : Z) : Z :=
  if a1 <? b1 then -1 else if b1 <? a1 then 1 else if a0 <? b0 then -1 else if b0 <? a0 then 1 else 0.

(** ** Definitions: normalisation

    The loops run over the powers of two that [shift] takes. *)

Definition fp16_normalise (mnt exp : Z) : Z * Z :=
  if mnt =? 0 then (0, exp)
  else fold_left (fun s shift => if s.1 ≫ (16 - shift) =? 0 then (u16 (s.1 ≪ shift), s.2 - shift) else s) [8; 4; 2; 1] (mnt, exp).

Definition fp32_normalise (mnt exp : Z) : Z * Z :=
  if mnt =? 0 then (0, exp)
  else fold_left (fun s shift => if s.1 ≫ (32 - shift) =? 0 then (u32 (s.1 ≪ shift), s.2 - shift) else s) [16; 8; 4; 2; 1] (mnt, exp).

Definition fp64_normalise (mnt exp : Z) : Z * Z :=
  if mnt =? 0 then (0, exp)
  else fold_left (fun s shift => if s.1 ≫ (64 - shift) =? 0 then (u64 (s.1 ≪ shift), s.2 - shift) else s) [32; 16; 8; 4; 2; 1] (mnt, exp).

Definition fp128_normalise (mnt0 mnt1 exp : Z) : Z * Z * Z :=
  if (mnt0 =? 0) && (mnt1 =? 0) then (mnt0, mnt1, exp)
  else
    let s := if mnt1 =? 0 then (0, mnt0, exp - 64) else (mnt0, mnt1, exp) in
    fold_left (fun s shift =>
      let '(x0, x1, exp) := s in
      if x1 ≫ (64 - shift) =? 0 then (u64 (x0 ≪ shift), u64 (x1 ≪ shift) .| (x0 ≫ (64 - shift)), exp - shift) else s)
      [32; 16; 8; 4; 2; 1] s.

(** ** Definitions: packing *)

Definition fp16_pack (sgn exp mnt : Z) : Z := u16 ((sgn ≪ 15) .| (exp ≪ 10) .| (mnt .& ((1 ≪ 10) - 1))).
Definition fp32_pack (sgn exp mnt : Z) : Z := u32 ((sgn ≪ 31) .| (exp ≪ 23) .| (mnt .& ((1 ≪ 23) - 1))).
Definition fp64_pack (sgn exp mnt : Z) : Z := u64 ((sgn ≪ 63) .| (exp ≪ 52) .| (mnt .& ((1 ≪ 52) - 1))).

Definition fp16_zero (sgn : Z) : Z := fp16_pack sgn 0 0.
Definition fp32_zero (sgn : Z) : Z := fp32_pack sgn 0 0.
Definition fp64_zero (sgn : Z) : Z := fp64_pack sgn 0 0.
Definition fp16_max_normal (sgn : Z) : Z := fp16_pack sgn 30 (-1).
Definition fp32_max_normal (sgn : Z) : Z := fp32_pack sgn 254 (-1).
Definition fp64_max_normal (sgn : Z) : Z := fp64_pack sgn 2046 (-1).
Definition fp16_infinity (sgn : Z) : Z := fp16_pack sgn 31 0.
Definition fp32_infinity (sgn : Z) : Z := fp32_pack sgn 255 0.
Definition fp64_infinity (sgn : Z) : Z := fp64_pack sgn 2047 0.
Definition fp16_defaultNaN : Z := fp16_pack 0 31 (1 ≪ 9).
Definition fp32_defaultNaN : Z := fp32_pack 0 255 (1 ≪ 22).
Definition fp64_defaultNaN : Z := fp64_pack 0 2047 (1 ≪ 51).

(** ** Definitions: unpacking

    Sign, exponent, mantissa and flags; a subnormal number has the exponent of the
    least normal one. *)

Definition fp16_unpack (x mode flags : Z) : Z * Z * Z * Z :=
  let sgn := x ≫ 15 in
  let exp := (x ≫ 10) .& 31 in
  let mnt := x .& ((1 ≪ 10) - 1) in
  if truth exp then (sgn, exp, mnt .| (1 ≪ 10), flags) else (sgn, exp + 1, mnt, flags).

Definition fp32_unpack (x mode flags : Z) : Z * Z * Z * Z :=
  let sgn := x ≫ 31 in
  let exp := (x ≫ 23) .& 255 in
  let mnt := x .& ((1 ≪ 23) - 1) in
  if truth exp then (sgn, exp, mnt .| (1 ≪ 23), flags)
  else if truth (mode .& FPLIB_FZ) && truth mnt then (sgn, exp + 1, 0, flags .| FPLIB_IDC)
  else (sgn, exp + 1, mnt, flags).

Definition fp64_unpack (x mode flags : Z) : Z * Z * Z * Z :=
  let sgn := x ≫ 63 in
  let exp := (x ≫ 52) .& 2047 in
  let mnt := x .& ((1 ≪ 52) - 1) in
  if truth exp then (sgn, exp, mnt .| (1 ≪ 52), flags)
  else if truth (mode .& FPLIB_FZ) && truth mnt then (sgn, exp + 1, 0, flags .| FPLIB_IDC)
  else (sgn, exp + 1, mnt, flags).

(** ** Definitions: NaNs *)

Definition fp32_process_NaN (a mode flags : Z) : Z * Z :=
  let '(a, flags) := if (a ≫ 22) .& 1 =? 0 then (a .| (1 ≪ 22), flags .| FPLIB_IOC) else (a, flags) in
  (if truth (mode .& FPLIB_DN) then fp32_defaultNaN else a, flags).

Definition fp64_process_NaN (a mode flags : Z) : Z * Z :=
  let '(a, flags) := if (a ≫ 51) .& 1 =? 0 then (a .| (1 ≪ 51), flags .| FPLIB_IOC) else (a, flags) in
  (if truth (mode .& FPLIB_DN) then fp64_defaultNaN else a, flags).

Definition fp32_process_NaNs (a b mode flags : Z) : Z * Z :=
  let a_exp := (a ≫ 23) .& 255 in
  let a_mnt := a .& ((1 ≪ 23) - 1) in
  let b_exp := (b ≫ 23) .& 255 in
  let b_mnt := b .& ((1 ≪ 23) - 1) in
  if (a_exp =? 255) && truth a_mnt && ((a_mnt ≫ 22) .& 1 =? 0) then fp32_process_NaN a mode flags
  else if (b_exp =? 255) && truth b_mnt && ((b_mnt ≫ 22) .& 1 =? 0) then fp32_process_NaN b mode flags
  else if (a_exp =? 255) && truth a_mnt then fp32_process_NaN a mode flags
  else if (b_exp =? 255) && truth b_mnt then fp32_process_NaN b mode flags
  else (0, flags).

Definition fp64_process_NaNs (a b mode flags : Z) : Z * Z :=
  let a_exp := (a ≫ 52) .& 2047 in
  let a_mnt := a .& ((1 ≪ 52) - 1) in
  let b_exp := (b ≫ 52) .& 2047 in
  let b_mnt := b .& ((1 ≪ 52) - 1) in
  if (a_exp =? 2047) && truth a_mnt && ((a_mnt ≫ 51) .& 1 =? 0) then fp64_process_NaN a mode flags
  else if (b_exp =? 2047) && truth b_mnt && ((b_mnt ≫ 51) .& 1 =? 0) then fp64_process_NaN b mode flags
  else if (a_exp =? 2047) && truth a_mnt then fp64_process_NaN a mode flags
  else if (b_exp =? 2047) && truth b_mnt then fp64_process_NaN b mode flags
  else (0, flags).

Definition fp32_process_NaNs3 (a b c mode flags : Z) : Z * Z :=
  let a_exp := (a ≫ 23) .& 255 in
  let a_mnt := a .& ((1 ≪ 23) - 1) in
  let b_exp := (b ≫ 23) .& 255 in
  let b_mnt := b .& ((1 ≪ 23) - 1) in
  let c_exp := (c ≫ 23) .& 255 in
  let c_mnt := c .& ((1 ≪ 23) - 1) in
  if (a_exp =? 255) && truth a_mnt && ((a_mnt ≫ 22) .& 1 =? 0) then fp32_process_NaN a mode flags
  else if (b_exp =? 255) && truth b_mnt && ((b_mnt ≫ 22) .& 1 =? 0) then fp32_process_NaN b mode flags
  else if (c_exp =? 255) && truth c_mnt && ((c_mnt ≫ 22) .& 1 =? 0) then fp32_process_NaN c mode flags
  else if (a_exp =? 255) && truth a_mnt then fp32_process_NaN a mode flags
  else if (b_exp =? 255) && truth b_mnt then fp32_process_NaN b mode flags
  else if (c_exp =? 255) && truth c_mnt then fp32_process_NaN c mode flags
  else (0, flags).

Definition fp64_process_NaNs3 (a b c mode flags : Z) : Z * Z :=
  let a_exp := (a ≫ 52) .& 2047 in
  let a_mnt := a .& ((1 ≪ 52) - 1) in
  let b_exp := (b ≫ 52) .& 2047 in
  let b_mnt := b .& ((1 ≪ 52) - 1) in
  let c_exp := (c ≫ 52) .& 2047 in
  let c_mnt := c .& ((1 ≪ 52) - 1) in
  if (a_exp =? 2047) && truth a_mnt && ((a_mnt ≫ 51) .& 1 =? 0) then fp64_process_NaN a mode flags
  else if (b_exp =? 2047) && truth b_mnt && ((b_mnt ≫ 51) .& 1 =? 0) then fp64_process_NaN b mode flags
  else if (c_exp =? 2047) && truth c_mnt && ((c_mnt ≫ 51) .& 1 =? 0) then fp64_process_NaN c mode flags
  else if (a_exp =? 2047) && truth a_mnt then fp64_process_NaN a mode flags
  else if (b_exp =? 2047) && truth b_mnt then fp64_process_NaN b mode flags
  else if (c_exp =? 2047) && truth c_mnt then fp64_process_NaN c mode flags
  else (0, flags).

(** ** Definitions: rounding

    The number is [(1 + mnt / 2 ^ N) * 2 ^ (exp - bias)] for a mantissa of [N] bits,
    with what lies below collected in its last bit; [error] says how far
    [int_mant] is off, 2 meaning exactly a half. *)

Definition fp16_round_ (sgn exp mnt rm mode flags : Z) : result (Z * Z) :=
  let* _ := assert_ (negb (rm =? FPRounding_TIEAWAY)) in
  let mnt := (1 ≪ 12) .| (mnt ≫ 4) .| Z.b2z (negb (mnt .& 31 =? 0)) in
  let '(biased_exp, int_mant, error) :=
    if 0 <? exp then (exp, mnt ≫ 2, mnt .& 3)
    else (0, lsr16 mnt (3 - exp), (lsr16 mnt (1 - exp) .& 3) .| nz (mnt .& u16 (lsl16 1 (1 - exp) - 1))) in
  let flags := if (biased_exp =? 0) && truth error then flags .| FPLIB_UFC else flags in
  let '(biased_exp, int_mant) :=
    if ((rm =? FPLIB_RN) && ((error =? 3) || ((error =? 2) && truth (int_mant .& 1)))) ||
       ((((rm =? FPLIB_RP) && (sgn =? 0)) || ((rm =? FPLIB_RM) && truth sgn)) && truth error)
    then
      let int_mant := u16 (int_mant + 1) in
      let biased_exp := if int_mant =? 1 ≪ 10 then 1 else biased_exp in
      if int_mant =? 1 ≪ 11 then (biased_exp + 1, int_mant ≫ 1) else (biased_exp, int_mant)
    else (biased_exp, int_mant) in
  let int_mant := if truth error && (rm =? FPRounding_ODD) then int_mant .| 1 else int_mant in
  if mode .& FPLIB_AHP =? 0 then
    if 31 <=? biased_exp then
      Ok (if (rm =? FPLIB_RN) || ((rm =? FPLIB_RP) && (sgn =? 0)) || ((rm =? FPLIB_RM) && truth sgn) then fp16_infinity sgn else fp16_max_normal sgn,
          flags .| (FPLIB_OFC .| FPLIB_IXC))
    else Ok (fp16_pack sgn biased_exp int_mant, if truth error then flags .| FPLIB_IXC else flags)
  else if 32 <=? biased_exp then Ok (fp16_pack sgn 31 (-1), flags .| FPLIB_IOC)
  else Ok (fp16_pack sgn biased_exp int_mant, if truth error then flags .| FPLIB_IXC else flags).

Definition fp32_round_ (sgn exp mnt rm mode flags : Z) : result (Z * Z) :=
  let* _ := assert_ (negb (rm =? FPRounding_TIEAWAY)) in
  if truth (mode .& FPLIB_FZ) && (exp <? 1) then Ok (fp32_zero sgn, flags .| FPLIB_UFC)
  else
    let mnt := (1 ≪ 25) .| (mnt ≫ 7) .| Z.b2z (negb (mnt .& 255 =? 0)) in
    let '(biased_exp, int_mant, error) :=
      if 0 <? exp then (exp, mnt ≫ 2, mnt .& 3)
      else (0, lsr32 mnt (3 - exp), (lsr32 mnt (1 - exp) .& 3) .| nz (mnt .& u32 (lsl32 1 (1 - exp) - 1))) in
    let flags := if (biased_exp =? 0) && truth error then flags .| FPLIB_UFC else flags in
    let '(biased_exp, int_mant) :=
      if ((rm =? FPLIB_RN) && ((error =? 3) || ((error =? 2) && truth (int_mant .& 1)))) ||
         ((((rm =? FPLIB_RP) && (sgn =? 0)) || ((rm =? FPLIB_RM) && truth sgn)) && truth error)
      then
        let int_mant := u32 (int_mant + 1) in
        let biased_exp := if int_mant =? 1 ≪ 23 then 1 else biased_exp in
        if int_mant =? 1 ≪ 24 then (biased_exp + 1, int_mant ≫ 1) else (biased_exp, int_mant)
      else (biased_exp, int_mant) in
    let int_mant := if truth error && (rm =? FPRounding_ODD) then int_mant .| 1 else int_mant in
    if 255 <=? biased_exp then
      Ok (if (rm =? FPLIB_RN) || ((rm =? FPLIB_RP) && (sgn =? 0)) || ((rm =? FPLIB_RM) && truth sgn) then fp32_infinity sgn else fp32_max_normal sgn,
          flags .| (FPLIB_OFC .| FPLIB_IXC))
    else Ok (fp32_pack sgn biased_exp int_mant, if truth error then flags .| FPLIB_IXC else flags).

Definition fp32_round (sgn exp mnt mode flags : Z) : result (Z * Z) := fp32_round_ sgn exp mnt (mode .& 3) mode flags.

Definition fp64_round_ (sgn exp mnt rm mode flags : Z) : result (Z * Z) :=
  let* _ := assert_ (negb (rm =? FPRounding_TIEAWAY)) in
  if truth (mode .& FPLIB_FZ) && (exp <? 1) then Ok (fp64_zero sgn, flags .| FPLIB_UFC)
  else
    let mnt := (1 ≪ 54) .| (mnt ≫ 10) .| Z.b2z (negb (mnt .& 0x3ff =? 0)) in
    let '(biased_exp, int_mant, error) :=
      if 0 <? exp then (exp, mnt ≫ 2, mnt .& 3)
      else (0, lsr64 mnt (3 - exp), (lsr64 mnt (1 - exp) .& 3) .| nz (mnt .& u64 (lsl64 1 (1 - exp) - 1))) in
    let flags := if (biased_exp =? 0) && truth error then flags .| FPLIB_UFC else flags in
    let '(biased_exp, int_mant) :=
      if ((rm =? FPLIB_RN) && ((error =? 3) || ((error =? 2) && truth (int_mant .& 1)))) ||
         ((((rm =? FPLIB_RP) && (sgn =? 0)) || ((rm =? FPLIB_RM) && truth sgn)) && truth error)
      then
        let int_mant := u64 (int_mant + 1) in
        let biased_exp := if int_mant =? 1 ≪ 52 then 1 else biased_exp in
        if int_mant =? 1 ≪ 53 then (biased_exp + 1, int_mant ≫ 1) else (biased_exp, int_mant)
      else (biased_exp, int_mant) in
    let int_mant := if truth error && (rm =? FPRounding_ODD) then int_mant .| 1 else int_mant in
    if 2047 <=? biased_exp then
      Ok (if (rm =? FPLIB_RN) || ((rm =? FPLIB_RP) && (sgn =? 0)) || ((rm =? FPLIB_RM) && truth sgn) then fp64_infinity sgn else fp64_max_normal sgn,
          flags .| (FPLIB_OFC .| FPLIB_IXC))
    else Ok (fp64_pack sgn biased_exp int_mant, if truth error then flags .| FPLIB_IXC else flags).

Definition fp64_round (sgn exp mnt mode flags : Z) : result (Z * Z) := fp64_round_ sgn exp mnt (mode .& 3) mode flags.
