(* ===== verification/Fplib.v ===== *)
(** * The floating-point library: operations

    The arithmetic of [arch/arm/insts/fplib.cc]: comparisons, addition,
    multiplication, fused multiply-add, division and square root of 32 and 64
    bits, and the functions of [fplib.hh] on top of them.  A template of
    [fplib.hh] is a function of the type [T] it is specialised to. *)
From S2P Require Import Prelude FplibCore.

(** The types the templates are specialised to: [uint32_t] and [uint64_t]. *)
Inductive fpT := T32 | T64.

(** ** Definitions: comparisons *)

Definition fp32_compare_eq (a b mode flags : Z) : Z * Z :=
  let '(a_sgn, a_exp, a_mnt, flags) := fp32_unpack a mode flags in
  let '(b_sgn, b_exp, b_mnt, flags) := fp32_unpack b mode flags in
  if ((a_exp =? 255) && truth (u32 (a_mnt ≪ 9))) || ((b_exp =? 255) && truth (u32 (b_mnt ≪ 9))) then
    (0, if ((a_exp =? 255) && truth (u32 (a_mnt ≪ 9)) && ((a ≫ 22) .& 1 =? 0)) ||
           ((b_exp =? 255) && truth (u32 (b_mnt ≪ 9)) && ((b ≫ 22) .& 1 =? 0)) then flags .| FPLIB_IOC else flags)
  else (Z.b2z ((a =? b) || ((a_mnt =? 0) && (b_mnt =? 0))), flags).

Definition fp32_compare_ge (a b mode flags : Z) : Z * Z :=
  let '(a_sgn, a_exp, a_mnt, flags) := fp32_unpack a mode flags in
  let '(b_sgn, b_exp, b_mnt, flags) := fp32_unpack b mode flags in
  if ((a_exp =? 255) && truth (u32 (a_mnt ≪ 9))) || ((b_exp =? 255) && truth (u32 (b_mnt ≪ 9))) then
    (0, flags .| FPLIB_IOC)
  else if (a_mnt =? 0) && (b_mnt =? 0) then (1, flags)
  else if negb (a_sgn =? b_sgn) then (b_sgn, flags)
  else if negb (a_exp =? b_exp) then (a_sgn .^ Z.b2z (b_exp <? a_exp), flags)
  else if negb (a_mnt =? b_mnt) then (a_sgn .^ Z.b2z (b_mnt <? a_mnt), flags)
  else (1, flags).

Definition fp32_compare_gt (a b mode flags : Z) : Z * Z :=
  let '(a_sgn, a_exp, a_mnt, flags) := fp32_unpack a mode flags in
  let '(b_sgn, b_exp, b_mnt, flags) := fp32_unpack b mode flags in
  if ((a_exp =? 255) && truth (u32 (a_mnt ≪ 9))) || ((b_exp =? 255) && truth (u32 (b_mnt ≪ 9))) then
    (0, flags .| FPLIB_IOC)
  else if (a_mnt =? 0) && (b_mnt =? 0) then (0, flags)
  else if negb (a_sgn =? b_sgn) then (b_sgn, flags)
  else if negb (a_exp =? b_exp) then (a_sgn .^ Z.b2z (b_exp <? a_exp), flags)
  else if negb (a_mnt =? b_mnt) then (a_sgn .^ Z.b2z (b_mnt <? a_mnt), flags)
  else (0, flags).

Definition fp64_compare_eq (a b mode flags : Z) : Z * Z :=
  let '(a_sgn, a_exp, a_mnt, flags) := fp64_unpack a mode flags in
  let '(b_sgn, b_exp, b_mnt, flags) := fp64_unpack b mode flags in
  if ((a_exp =? 2047) && truth (u64 (a_mnt ≪ 12))) || ((b_exp =? 2047) && truth (u64 (b_mnt ≪ 12))) then
    (0, if ((a_exp =? 2047) && truth (u64 (a_mnt ≪ 12)) && ((a ≫ 51) .& 1 =? 0)) ||
           ((b_exp =? 2047) && truth (u64 (b_mnt ≪ 12)) && ((b ≫ 51) .& 1 =? 0)) then flags .| FPLIB_IOC else flags)
  else (Z.b2z ((a =? b) || ((a_mnt =? 0) && (b_mnt =? 0))), flags).

Definition fp64_compare_ge (a b mode flags : Z) : Z * Z :=
  let '(a_sgn, a_exp, a_mnt, flags) := fp64_unpack a mode flags in
  let '(b_sgn, b_exp, b_mnt, flags) := fp64_unpack b mode flags in
  if ((a_exp =? 2047) && truth (u64 (a_mnt ≪ 12))) || ((b_exp =? 2047) && truth (u64 (b_mnt ≪ 12))) then
    (0, flags .| FPLIB_IOC)
  else if (a_mnt =? 0) && (b_mnt =? 0) then (1, flags)
  else if negb (a_sgn =? b_sgn) then (b_sgn, flags)
  else if negb (a_exp =? b_exp) then (a_sgn .^ Z.b2z (b_exp <? a_exp), flags)
  else if negb (a_mnt =? b_mnt) then (a_sgn .^ Z.b2z (b_mnt <? a_mnt), flags)
  else (1, flags).

Definition fp64_compare_gt (a b mode flags : Z) : Z * Z :=
  let '(a_sgn, a_exp, a_mnt, flags) := fp64_unpack a mode flags in
  let '(b_sgn, b_exp, b_mnt, flags) := fp64_unpack b mode flags in
  if ((a_exp =? 2047) && truth (u64 (a_mnt ≪ 12))) || ((b_exp =? 2047) && truth (u64 (b_mnt ≪ 12))) then
    (0, flags .| FPLIB_IOC)
  else if (a_mnt =? 0) && (b_mnt =? 0) then (0, flags)
  else if negb (a_sgn =? b_sgn) then (b_sgn, flags)
  else if negb (a_exp =? b_exp) then (a_sgn .^ Z.b2z (b_exp <? a_exp), flags)
  else if negb (a_mnt =? b_mnt) then (a_sgn .^ Z.b2z (b_mnt <? a_mnt), flags)
  else (0, flags).

(** ** Definitions: arithmetic *)

Definition fp32_add (a b neg mode flags : Z) : result (Z * Z) :=
  let '(a_sgn, a_exp, a_mnt, flags) := fp32_unpack a mode flags in
  let '(b_sgn, b_exp, b_mnt, flags) := fp32_unpack b mode flags in
  let '(x, flags) := fp32_process_NaNs a b mode flags in
  if truth x then Ok (x, flags)
  else
    let b_sgn := b_sgn .^ neg in
    if (a_exp =? 255) && (b_exp =? 255) && negb (a_sgn =? b_sgn) then Ok (fp32_defaultNaN, flags .| FPLIB_IOC)
    else if a_exp =? 255 then Ok (fp32_infinity a_sgn, flags)
    else if b_exp =? 255 then Ok (fp32_infinity b_sgn, flags)
    else if (a_mnt =? 0) && (b_mnt =? 0) && (a_sgn =? b_sgn) then Ok (fp32_zero a_sgn, flags)
    else
      let a_mnt := u32 (a_mnt ≪ 3) in
      let b_mnt := u32 (b_mnt ≪ 3) in
      let '(a_mnt, b_mnt, x_exp) :=
        if b_exp <=? a_exp then
          (a_mnt, lsr32 b_mnt (a_exp - b_exp) .| nz (b_mnt .& u32 (lsl32 1 (a_exp - b_exp) - 1)), a_exp)
        else
          (lsr32 a_mnt (b_exp - a_exp) .| nz (a_mnt .& u32 (lsl32 1 (b_exp - a_exp) - 1)), b_mnt, b_exp) in
      let '(x_sgn, x_mnt) :=
        if a_sgn =? b_sgn then (a_sgn, u32 (a_mnt + b_mnt))
        else if b_mnt <=? a_mnt then (a_sgn, u32 (a_mnt - b_mnt))
        else (a_sgn .^ 1, u32 (b_mnt - a_mnt)) in
      if x_mnt =? 0 then Ok (fp32_zero (Z.b2z (mode .& 3 =? 2)), flags)
      else
        let '(x_mnt, x_exp) := fp32_normalise x_mnt x_exp in
        fp32_round x_sgn (x_exp + 5) (u32 (x_mnt ≪ 1)) mode flags.

Definition fp64_add (a b neg mode flags : Z) : result (Z * Z) :=
  let '(a_sgn, a_exp, a_mnt, flags) := fp64_unpack a mode flags in
  let '(b_sgn, b_exp, b_mnt, flags) := fp64_unpack b mode flags in
  let '(x, flags) := fp64_process_NaNs a b mode flags in
  if truth x then Ok (x, flags)
  else
    let b_sgn := b_sgn .^ neg in
    if (a_exp =? 2047) && (b_exp =? 2047) && negb (a_sgn =? b_sgn) then Ok (fp64_defaultNaN, flags .| FPLIB_IOC)
    else if a_exp =? 2047 then Ok (fp64_infinity a_sgn, flags)
    else if b_exp =? 2047 then Ok (fp64_infinity b_sgn, flags)
    else if (a_mnt =? 0) && (b_mnt =? 0) && (a_sgn =? b_sgn) then Ok (fp64_zero a_sgn, flags)
    else
      let a_mnt := u64 (a_mnt ≪ 3) in
      let b_mnt := u64 (b_mnt ≪ 3) in
      let '(a_mnt, b_mnt, x_exp) :=
        if b_exp <=? a_exp then
          (a_mnt, lsr64 b_mnt (a_exp - b_exp) .| nz (b_mnt .& u64 (lsl64 1 (a_exp - b_exp) - 1)), a_exp)
        else
          (lsr64 a_mnt (b_exp - a_exp) .| nz (a_mnt .& u64 (lsl64 1 (b_exp - a_exp) - 1)), b_mnt, b_exp) in
      let '(x_sgn, x_mnt) :=
        if a_sgn =? b_sgn then (a_sgn, u64 (a_mnt + b_mnt))
        else if b_mnt <=? a_mnt then (a_sgn, u64 (a_mnt - b_mnt))
        else (a_sgn .^ 1, u64 (b_mnt - a_mnt)) in
      if x_mnt =? 0 then Ok (fp64_zero (Z.b2z (mode .& 3 =? 2)), flags)
      else
        let '(x_mnt, x_exp) := fp64_normalise x_mnt x_exp in
        fp64_round x_sgn (x_exp + 8) (u64 (x_mnt ≪ 1)) mode flags.

Definition fp32_mul (a b mode flags : Z) : result (Z * Z) :=
  let '(a_sgn, a_exp, a_mnt, flags) := fp32_unpack a mode flags in
  let '(b_sgn, b_exp, b_mnt, flags) := fp32_unpack b mode flags in
  let '(x, flags) := fp32_process_NaNs a b mode flags in
  if truth x then Ok (x, flags)
  else if ((a_exp =? 255) && (b_mnt =? 0)) || ((b_exp =? 255) && (a_mnt =? 0)) then Ok (fp32_defaultNaN, flags .| FPLIB_IOC)
  else if (a_exp =? 255) || (b_exp =? 255) then Ok (fp32_infinity (a_sgn .^ b_sgn), flags)
  else if (a_mnt =? 0) || (b_mnt =? 0) then Ok (fp32_zero (a_sgn .^ b_sgn), flags)
  else
    let x_sgn := a_sgn .^ b_sgn in
    let '(x_mnt, x_exp) := fp64_normalise (u64 (a_mnt * b_mnt)) (a_exp + b_exp - 110) in
    let x_mnt := lsr64 x_mnt 31 .| nz (lsl64 x_mnt 33) in
    fp32_round x_sgn x_exp (u32 x_mnt) mode flags.

Definition fp64_mul (a b mode flags : Z) : result (Z * Z) :=
  let '(a_sgn, a_exp, a_mnt, flags) := fp64_unpack a mode flags in
  let '(b_sgn, b_exp, b_mnt, flags) := fp64_unpack b mode flags in
  let '(x, flags) := fp64_process_NaNs a b mode flags in
  if truth x then Ok (x, flags)
  else if ((a_exp =? 2047) && (b_mnt =? 0)) || ((b_exp =? 2047) && (a_mnt =? 0)) then Ok (fp64_defaultNaN, flags .| FPLIB_IOC)
  else if (a_exp =? 2047) || (b_exp =? 2047) then Ok (fp64_infinity (a_sgn .^ b_sgn), flags)
  else if (a_mnt =? 0) || (b_mnt =? 0) then Ok (fp64_zero (a_sgn .^ b_sgn), flags)
  else
    let x_sgn := a_sgn .^ b_sgn in
    let '(x0_mnt, x1_mnt) := mul62x62 a_mnt b_mnt in
    let '(x0_mnt, x1_mnt, x_exp) := fp128_normalise x0_mnt x1_mnt (a_exp + b_exp - 1000) in
    fp64_round x_sgn x_exp (u64 (x1_mnt ≪ 1) .| nz x0_mnt) mode flags.

Definition fp32_muladd (a b c scale mode flags : Z) : result (Z * Z) :=
  let '(a_sgn, a_exp, a_mnt, flags) := fp32_unpack a mode flags in
  let '(b_sgn, b_exp, b_mnt, flags) := fp32_unpack b mode flags in
  let '(c_sgn, c_exp, c_mnt, flags) := fp32_unpack c mode flags in
  let '(x, flags) := fp32_process_NaNs3 a b c mode flags in
  let '(x, flags) :=
    if (a_exp =? 255) && truth ((a_mnt ≫ 22) .& 1) &&
       (((b_mnt =? 0) && (c_exp =? 255) && (u32 (c_mnt ≪ 9) =? 0)) ||
        ((c_mnt =? 0) && (b_exp =? 255) && (u32 (b_mnt ≪ 9) =? 0)))
    then (fp32_defaultNaN, flags .| FPLIB_IOC) else (x, flags) in
  if truth x then Ok (x, flags)
  else if ((b_exp =? 255) && (c_mnt =? 0)) || ((c_exp =? 255) && (b_mnt =? 0)) ||
          ((a_exp =? 255) && ((b_exp =? 255) || (c_exp =? 255)) && negb (a_sgn =? b_sgn .^ c_sgn))
  then Ok (fp32_defaultNaN, flags .| FPLIB_IOC)
  else if a_exp =? 255 then Ok (fp32_infinity a_sgn, flags)
  else if (b_exp =? 255) || (c_exp =? 255) then Ok (fp32_infinity (b_sgn .^ c_sgn), flags)
  else if (a_mnt =? 0) && ((b_mnt =? 0) || (c_mnt =? 0)) && (a_sgn =? b_sgn .^ c_sgn) then Ok (fp32_zero a_sgn, flags)
  else
    let x_exp := a_exp + 13 in
    let x_mnt := u64 (a_mnt ≪ 27) in
    let y_sgn := b_sgn .^ c_sgn in
    let y_mnt := u64 (u64 (b_mnt * c_mnt) ≪ 3) in
    let y_exp := if y_mnt =? 0 then x_exp else b_exp + c_exp - 113 in
    let '(x_mnt, y_mnt, x_exp) :=
      if y_exp <=? x_exp then
        (x_mnt, lsr64 y_mnt (x_exp - y_exp) .| nz (y_mnt .& u64 (lsl64 1 (x_exp - y_exp) - 1)), x_exp)
      else
        (lsr64 x_mnt (y_exp - x_exp) .| nz (x_mnt .& u64 (lsl64 1 (y_exp - x_exp) - 1)), y_mnt, y_exp) in
    let '(x_sgn, x_mnt) :=
      if a_sgn =? y_sgn then (a_sgn, u64 (x_mnt + y_mnt))
      else if y_mnt <=? x_mnt then (a_sgn, u64 (x_mnt - y_mnt))
      else (a_sgn .^ 1, u64 (y_mnt - x_mnt)) in
    if x_mnt =? 0 then Ok (fp32_zero (Z.b2z (mode .& 3 =? 2)), flags)
    else
      let '(x_mnt, x_exp) := fp64_normalise x_mnt x_exp in
      let x_mnt := (x_mnt ≫ 31) .| nz (u32 (x_mnt ≪ 1)) in
      fp32_round x_sgn (x_exp + scale) (u32 x_mnt) mode flags.

Definition fp64_muladd (a b c scale mode flags : Z) : result (Z * Z) :=
  let '(a_sgn, a_exp, a_mnt, flags) := fp64_unpack a mode flags in
  let '(b_sgn, b_exp, b_mnt, flags) := fp64_unpack b mode flags in
  let '(c_sgn, c_exp, c_mnt, flags) := fp64_unpack c mode flags in
  let '(x, flags) := fp64_process_NaNs3 a b c mode flags in
  let '(x, flags) :=
    if (a_exp =? 2047) && truth ((a_mnt ≫ 51) .& 1) &&
       (((b_mnt =? 0) && (c_exp =? 2047) && (u64 (c_mnt ≪ 12) =? 0)) ||
        ((c_mnt =? 0) && (b_exp =? 2047) && (u64 (b_mnt ≪ 12) =? 0)))
    then (fp64_defaultNaN, flags .| FPLIB_IOC) else (x, flags) in
  if truth x then Ok (x, flags)
  else if ((b_exp =? 2047) && (c_mnt =? 0)) || ((c_exp =? 2047) && (b_mnt =? 0)) ||
          ((a_exp =? 2047) && ((b_exp =? 2047) || (c_exp =? 2047)) && negb (a_sgn =? b_sgn .^ c_sgn))
  then Ok (fp64_defaultNaN, flags .| FPLIB_IOC)
  else if a_exp =? 2047 then Ok (fp64_infinity a_sgn, flags)
  else if (b_exp =? 2047) || (c_exp =? 2047) then Ok (fp64_infinity (b_sgn .^ c_sgn), flags)
  else if (a_mnt =? 0) && ((b_mnt =? 0) || (c_mnt =? 0)) && (a_sgn =? b_sgn .^ c_sgn) then Ok (fp64_zero a_sgn, flags)
  else
    let x_exp := a_exp + 11 in
    let x0_mnt := 0 in
    let x1_mnt := a_mnt in
    let y_sgn := b_sgn .^ c_sgn in
    let '(y0_mnt, y1_mnt) := mul62x62 b_mnt (u64 (c_mnt ≪ 3)) in
    let y_exp := if (y0_mnt =? 0) && (y1_mnt =? 0) then x_exp else b_exp + c_exp - 1003 in
    let* '(x0_mnt, x1_mnt, y0_mnt, y1_mnt, x_exp) :=
      if y_exp <=? x_exp then
        let* '(t0, t1) := lsl128 y0_mnt y1_mnt (if x_exp - y_exp <? 128 then 128 - (x_exp - y_exp) else 0) in
        let* '(y0_mnt, y1_mnt) := lsr128 y0_mnt y1_mnt (x_exp - y_exp) in
        Ok (x0_mnt, x1_mnt, y0_mnt .| nz (t0 .| t1), y1_mnt, x_exp)
      else
        let* '(t0, t1) := lsl128 x0_mnt x1_mnt (if y_exp - x_exp <? 128 then 128 - (y_exp - x_exp) else 0) in
        let* '(x0_mnt, x1_mnt) := lsr128 x0_mnt x1_mnt (y_exp - x_exp) in
        Ok (x0_mnt .| nz (t0 .| t1), x1_mnt, y0_mnt, y1_mnt, y_exp) in
    let '(x_sgn, (x0_mnt, x1_mnt)) :=
      if a_sgn =? y_sgn then (a_sgn, add128 x0_mnt x1_mnt y0_mnt y1_mnt)
      else if 0 <=? cmp128 x0_mnt x1_mnt y0_mnt y1_mnt then (a_sgn, sub128 x0_mnt x1_mnt y0_mnt y1_mnt)
      else (a_sgn .^ 1, sub128 y0_mnt y1_mnt x0_mnt x1_mnt) in
    if (x0_mnt =? 0) && (x1_mnt =? 0) then Ok (fp64_zero (Z.b2z (mode .& 3 =? 2)), flags)
    else
      let '(x0_mnt, x1_mnt, x_exp) := fp128_normalise x0_mnt x1_mnt x_exp in
      fp64_round x_sgn (x_exp + scale) (u64 (x1_mnt ≪ 1) .| nz x0_mnt) mode flags.

Definition fp32_div (a b mode flags : Z) : result (Z * Z) :=
  let '(a_sgn, a_exp, a_mnt, flags) := fp32_unpack a mode flags in
  let '(b_sgn, b_exp, b_mnt, flags) := fp32_unpack b mode flags in
  let '(x, flags) := fp32_process_NaNs a b mode flags in
  if truth x then Ok (x, flags)
  else if ((a_exp =? 255) && (b_exp =? 255)) || ((a_mnt =? 0) && (b_mnt =? 0)) then Ok (fp32_defaultNaN, flags .| FPLIB_IOC)
  else if (a_exp =? 255) || (b_mnt =? 0) then
    Ok (fp32_infinity (a_sgn .^ b_sgn), if negb (a_exp =? 255) then flags .| FPLIB_DZC else flags)
  else if (a_mnt =? 0) || (b_exp =? 255) then Ok (fp32_zero (a_sgn .^ b_sgn), flags)
  else
    let '(a_mnt, a_exp) := fp32_normalise a_mnt a_exp in
    let x_sgn := a_sgn .^ b_sgn in
    let x_exp := a_exp - b_exp + 172 in
    let x_mnt := u64 (a_mnt ≪ 18) / b_mnt in
    let x_mnt := x_mnt .| Z.b2z (negb (u64 (x_mnt * b_mnt) =? u64 (a_mnt ≪ 18))) in
    let '(x_mnt, x_exp) := fp64_normalise x_mnt x_exp in
    let x_mnt := (x_mnt ≫ 31) .| nz (u32 (x_mnt ≪ 1)) in
    fp32_round x_sgn x_exp (u32 x_mnt) mode flags.

Definition fp64_div (a b mode flags : Z) : result (Z * Z) :=
  let '(a_sgn, a_exp, a_mnt, flags) := fp64_unpack a mode flags in
  let '(b_sgn, b_exp, b_mnt, flags) := fp64_unpack b mode flags in
  let '(x, flags) := fp64_process_NaNs a b mode flags in
  if truth x then Ok (x, flags)
  else if ((a_exp =? 2047) && (b_exp =? 2047)) || ((a_mnt =? 0) && (b_mnt =? 0)) then Ok (fp64_defaultNaN, flags .| FPLIB_IOC)
  else if (a_exp =? 2047) || (b_mnt =? 0) then
    Ok (fp64_infinity (a_sgn .^ b_sgn), if negb (a_exp =? 2047) then flags .| FPLIB_DZC else flags)
  else if (a_mnt =? 0) || (b_exp =? 2047) then Ok (fp64_zero (a_sgn .^ b_sgn), flags)
  else
    let '(a_mnt, a_exp) := fp64_normalise a_mnt a_exp in
    let '(b_mnt, b_exp) := fp64_normalise b_mnt b_exp in
    let x_mnt := u64 (Z.lnot 0) / (b_mnt ≫ 31) in
    let '(x0_mnt, x1_mnt) := mul64x32 b_mnt x_mnt in
    let '(x0_mnt, x1_mnt) := sub128 0 (1 ≪ 32) x0_mnt x1_mnt in
    let* '(x0_mnt, x1_mnt) := lsr128 x0_mnt x1_mnt 32 in
    let '(x0_mnt, x1_mnt) := mul64x32 x0_mnt x_mnt in
    let* '(x0_mnt, x1_mnt) := lsr128 x0_mnt x1_mnt 33 in
    let x_sgn := a_sgn .^ b_sgn in
    let x_exp := a_exp - b_exp + 1031 in
    let '(x0_mnt, x1_mnt) := mul62x62 x0_mnt (a_mnt ≫ 2) in
    let* '(x0_mnt, x1_mnt) := lsr128 x0_mnt x1_mnt 4 in
    let x_mnt := x1_mnt in
    let '(x0_mnt, x1_mnt) := mul62x62 (b_mnt ≫ 2) (u64 (x_mnt + 1)) in
    let c := cmp128 x0_mnt x1_mnt 0 (a_mnt ≫ 11) in
    let x_mnt := if c <=? 0 then u64 (x_mnt + 1) else x_mnt in
    let '(x_mnt, x_exp) := fp64_normalise x_mnt x_exp in
    fp64_round x_sgn x_exp (u64 (x_mnt ≪ 1) .| nz c) mode flags.

Definition fp32_sqrt (a mode flags : Z) : result (Z * Z) :=
  let '(a_sgn, a_exp, a_mnt, flags) := fp32_unpack a mode flags in
  if (a_exp =? 255) && truth (u32 (a_mnt ≪ 9)) then Ok (fp32_process_NaN a mode flags)
  else if a_mnt =? 0 then Ok (fp32_zero a_sgn, flags)
  else if (a_exp =? 255) && (a_sgn =? 0) then Ok (fp32_infinity a_sgn, flags)
  else if truth a_sgn then Ok (fp32_defaultNaN, flags .| FPLIB_IOC)
  else
    let '(a_mnt, a_exp) := fp32_normalise a_mnt a_exp in
    let '(a_mnt, a_exp) := if a_exp .& 1 =? 0 then (a_mnt ≫ 1, a_exp + 1) else (a_mnt, a_exp) in
    let x := u32 ((a_mnt ≫ 2) + (a_mnt ≫ 3) + (5 ≪ 28)) in
    let x := u32 (u32 (a_mnt / (x ≫ 15) + (x ≫ 16)) ≪ 15) in
    let x := u32 (u32 (a_mnt / (x ≫ 15) + (x ≫ 16)) ≪ 15) in
    let x := u32 (((u64 (a_mnt ≪ 32) / x) ≫ 2) + (x ≫ 1)) in
    let x_exp := (a_exp + 147) ≫ 1 in
    let x_mnt := u32 ((u32 (x - (1 ≪ 5)) ≫ 6) + 1) in
    let t1 := u64 (x_mnt * x_mnt) in
    let t0 := u64 (a_mnt ≪ 19) in
    let x_mnt := if t0 <? t1 then u32 (x_mnt - 1) else x_mnt in
    let '(x_mnt, x_exp) := fp32_normalise x_mnt x_exp in
    fp32_round 0 x_exp (u32 (x_mnt ≪ 1) .| Z.b2z (negb (t1 =? t0))) mode flags.

Definition fp64_sqrt (a mode flags : Z) : result (Z * Z) :=
  let '(a_sgn, a_exp, a_mnt, flags) := fp64_unpack a mode flags in
  if (a_exp =? 2047) && truth (u64 (a_mnt ≪ 12)) then Ok (fp64_process_NaN a mode flags)
  else if a_mnt =? 0 then Ok (fp64_zero a_sgn, flags)
  else if (a_exp =? 2047) && (a_sgn =? 0) then Ok (fp64_infinity a_sgn, flags)
  else if truth a_sgn then Ok (fp64_defaultNaN, flags .| FPLIB_IOC)
  else
    let '(a_mnt, a_exp) := fp64_normalise a_mnt a_exp in
    let '(a_mnt, a_exp) := if truth (a_exp .& 1) then (a_mnt ≫ 1, a_exp + 1) else (a_mnt, a_exp) in
    let x := u32 ((a_mnt ≫ 34) + (a_mnt ≫ 35) + (5 ≪ 28)) in
    let x := u32 (((a_mnt ≫ 32) / (x ≫ 15) + (x ≫ 16)) ≪ 15) in
    let x := u32 (((a_mnt ≫ 32) / (x ≫ 15) + (x ≫ 16)) ≪ 15) in
    let x := u32 (((a_mnt / x) ≫ 2) + (x ≫ 1)) in
    let r := (1 ≪ 62) / x in
    let '(x0, x1) := mul64x32 (u64 (u64 (u64 (- x) * r) ≪ 1)) r in
    let* '(x0, x1) := lsr128 x0 x1 31 in
    let '(x0, x1) := mul62x62 (a_mnt ≫ 10) (x0 ≫ 2) in
    let* '(x0, x1) := lsl128 x0 x1 5 in
    let* '(x0, x1) := lsr128 x0 x1 56 in
    let x0 := u64 (u64 (x ≪ 31) + (x0 ≫ 1)) in
    let x_exp := (a_exp + 1053) ≫ 1 in
    let x_mnt := u64 ((u64 (x0 - (1 ≪ 8)) ≫ 9) + 1) in
    let '(x0, x1) := mul62x62 x_mnt x_mnt in
    let* '(x0, x1) := lsl128 x0 x1 19 in
    let c := cmp128 x0 x1 0 a_mnt in
    let x_mnt := if 0 <? c then u64 (x_mnt - 1) else x_mnt in
    let '(x_mnt, x_exp) := fp64_normalise x_mnt x_exp in
    fp64_round 0 x_exp (u64 (x_mnt ≪ 1) .| nz c) mode flags.

(** ** Definitions: the status register

    An [FPSCR] is its 32 bits; [fpscr.idc = 1] sets bit 7, and so on. *)

Definition set_fpscr0 (fpscr flags : Z) : Z :=
  let fpscr := if truth (flags .& FPLIB_IDC) then fpscr .| (1 ≪ 7) else fpscr in
  let fpscr := if truth (flags .& FPLIB_IOC) then fpscr .| (1 ≪ 0) else fpscr in
  let fpscr := if truth (flags .& FPLIB_DZC) then fpscr .| (1 ≪ 1) else fpscr in
  let fpscr := if truth (flags .& FPLIB_OFC) then fpscr .| (1 ≪ 2) else fpscr in
  let fpscr := if truth (flags .& FPLIB_UFC) then fpscr .| (1 ≪ 3) else fpscr in
  if truth (flags .& FPLIB_IXC) then fpscr .| (1 ≪ 4) else fpscr.

Definition modeConv (fpscr : Z) : Z := (swrap 32 fpscr ≫ 22) .& 0xF.

Definition fpscr_fz (fpscr : Z) : bool := Z.testbit fpscr 24.
Definition fpscr_dn (fpscr : Z) : bool := Z.testbit fpscr 25.
Definition fpscr_ahp (fpscr : Z) : bool := Z.testbit fpscr 26.

Definition set_fpscr (fpscr flags : Z) : Z :=
  let fpscr := if truth (flags .& FPLIB_IDC) then fpscr .| (1 ≪ 7) else fpscr in
  let fpscr := if truth (flags .& FPLIB_IOC) then fpscr .| (1 ≪ 0) else fpscr in
  let fpscr := if truth (flags .& FPLIB_DZC) then fpscr .| (1 ≪ 1) else fpscr in
  let fpscr := if truth (flags .& FPLIB_OFC) then fpscr .| (1 ≪ 2) else fpscr in
  let underflow := truth (flags .& FPLIB_UFC) in
  let fpscr := if underflow then fpscr .| (1 ≪ 3) else fpscr in
  if truth (flags .& FPLIB_IXC) && negb (underflow && fpscr_fz fpscr) then fpscr .| (1 ≪ 4) else fpscr.

Definition FPCRRounding (fpscr : Z) : Z := (fpscr ≫ 22) .& 3.

(** ** Definitions: fplib.hh *)

(** The common shape: the flags start at zero and end up in the register. *)
Definition with_flags0 (fpscr : Z) (f : Z -> Z -> result (Z * Z)) : result (Z * Z) :=
  let* '(x, flags) := f (modeConv fpscr) 0 in
  Ok (x, set_fpscr0 fpscr flags).

Definition fplibCompareEQ (T : fpT) (a b fpscr : Z) : bool * Z :=
  let '(x, flags) := match T with T32 => fp32_compare_eq | T64 => fp64_compare_eq end a b (modeConv fpscr) 0 in
  (truth x, set_fpscr fpscr flags).
Definition fplibCompareGE (T : fpT) (a b fpscr : Z) : bool * Z :=
  let '(x, flags) := match T with T32 => fp32_compare_ge | T64 => fp64_compare_ge end a b (modeConv fpscr) 0 in
  (truth x, set_fpscr fpscr flags).
Definition fplibCompareGT (T : fpT) (a b fpscr : Z) : bool * Z :=
  let '(x, flags) := match T with T32 => fp32_compare_gt | T64 => fp64_compare_gt end a b (modeConv fpscr) 0 in
  (truth x, set_fpscr fpscr flags).

Definition fplibAbs (T : fpT) (op : Z) : Z :=
  match T with T32 => op .& u32 (Z.lnot (1 ≪ 31)) | T64 => op .& u64 (Z.lnot (1 ≪ 63)) end.
Definition fplibNeg (T : fpT) (op : Z) : Z :=
  match T with T32 => op .^ (1 ≪ 31) | T64 => op .^ (1 ≪ 63) end.

Definition fplibAdd (T : fpT) (op1 op2 fpscr : Z) : result (Z * Z) :=
  with_flags0 fpscr (match T with T32 => fp32_add | T64 => fp64_add end op1 op2 0).
Definition fplibSub (T : fpT) (op1 op2 fpscr : Z) : result (Z * Z) :=
  with_flags0 fpscr (match T with T32 => fp32_add | T64 => fp64_add end op1 op2 1).
Definition fplibMul (T : fpT) (op1 op2 fpscr : Z) : result (Z * Z) :=
  with_flags0 fpscr (match T with T32 => fp32_mul | T64 => fp64_mul end op1 op2).
Definition fplibMulAdd (T : fpT) (addend op1 op2 fpscr : Z) : result (Z * Z) :=
  with_flags0 fpscr (match T with T32 => fp32_muladd | T64 => fp64_muladd end addend op1 op2 0).
Definition fplibDiv (T : fpT) (op1 op2 fpscr : Z) : result (Z * Z) :=
  with_flags0 fpscr (match T with T32 => fp32_div | T64 => fp64_div end op1 op2).
Definition fplibSqrt (T : fpT) (op fpscr : Z) : result (Z * Z) :=
  with_flags0 fpscr (match T with T32 => fp32_sqrt | T64 => fp64_sqrt end op).

Definition fplibCompare32 (op1 op2 : Z) (signal_nans : bool) (fpscr : Z) : Z * Z :=
  let mode := modeConv fpscr in
  let '(sgn1, exp1, mnt1, flags) := fp32_unpack op1 mode 0 in
  let '(sgn2, exp2, mnt2, flags) := fp32_unpack op2 mode flags in
  let '(result, flags) :=
    if ((exp1 =? 255) && truth (u32 (mnt1 ≪ 9))) || ((exp2 =? 255) && truth (u32 (mnt2 ≪ 9))) then
      (3, if ((exp1 =? 255) && truth (u32 (mnt1 ≪ 9)) && ((mnt1 ≫ 22) .& 1 =? 0)) || ((exp2 =? 255) && truth (u32 (mnt2 ≪ 9)) && ((mnt2 ≫ 22) .& 1 =? 0)) || signal_nans
          then flags .| FPLIB_IOC else flags)
    else if (op1 =? op2) || ((mnt1 =? 0) && (mnt2 =? 0)) then (6, flags)
    else if negb (sgn1 =? sgn2) then (if truth sgn1 then 8 else 2, flags)
    else if negb (exp1 =? exp2) then (if truth (sgn1 .^ Z.b2z (exp1 <? exp2)) then 8 else 2, flags)
    else (if truth (sgn1 .^ Z.b2z (mnt1 <? mnt2)) then 8 else 2, flags) in
  (result, set_fpscr0 fpscr flags).

Definition fplibCompare64 (op1 op2 : Z) (signal_nans : bool) (fpscr : Z) : Z * Z :=
  let mode := modeConv fpscr in
  let '(sgn1, exp1, mnt1, flags) := fp64_unpack op1 mode 0 in
  let '(sgn2, exp2, mnt2, flags) := fp64_unpack op2 mode flags in
  let '(result, flags) :=
    if ((exp1 =? 2047) && truth (u64 (mnt1 ≪ 12))) || ((exp2 =? 2047) && truth (u64 (mnt2 ≪ 12))) then
      (3, if ((exp1 =? 2047) && truth (u64 (mnt1 ≪ 12)) && ((mnt1 ≫ 51) .& 1 =? 0)) || ((exp2 =? 2047) && truth (u64 (mnt2 ≪ 12)) && ((mnt2 ≫ 51) .& 1 =? 0)) || signal_nans
          then flags .| FPLIB_IOC else flags)
    else if (op1 =? op2) || ((mnt1 =? 0) && (mnt2 =? 0)) then (6, flags)
    else if negb (sgn1 =? sgn2) then (if truth sgn1 then 8 else 2, flags)
    else if negb (exp1 =? exp2) then (if truth (sgn1 .^ Z.b2z (exp1 <? exp2)) then 8 else 2, flags)
    else (if truth (sgn1 .^ Z.b2z (mnt1 <? mnt2)) then 8 else 2, flags) in
  (result, set_fpscr0 fpscr flags).

Definition fplibCompare (T : fpT) : Z -> Z -> bool -> Z -> Z * Z := match T with T32 => fplibCompare32 | T64 => fplibCompare64 end.

(** ** Definitions: maximum and minimum *)

Definition fp32_repack (sgn exp mnt : Z) : Z := fp32_pack sgn (if truth (mnt ≫ 23) then exp else 0) mnt.
Definition fp64_repack (sgn exp mnt : Z) : Z := fp64_pack sgn (if truth (mnt ≫ 52) then exp else 0) mnt.

(** A single quiet NaN becomes an infinity. *)
Definition fp32_minmaxnum (op1 op2 sgn : Z) : Z * Z :=
  let op1 := if (u32 (Z.lnot (op1 ≪ 1)) ≫ 23 =? 0) && truth (u32 (Z.lnot (op2 ≪ 1)) ≫ 23) then fp32_infinity sgn else op1 in
  let op2 := if (u32 (Z.lnot (op2 ≪ 1)) ≫ 23 =? 0) && truth (u32 (Z.lnot (op1 ≪ 1)) ≫ 23) then fp32_infinity sgn else op2 in
  (op1, op2).
Definition fp64_minmaxnum (op1 op2 sgn : Z) : Z * Z :=
  let op1 := if (u64 (Z.lnot (op1 ≪ 1)) ≫ 52 =? 0) && truth (u64 (Z.lnot (op2 ≪ 1)) ≫ 52) then fp64_infinity sgn else op1 in
  let op2 := if (u64 (Z.lnot (op2 ≪ 1)) ≫ 52 =? 0) && truth (u64 (Z.lnot (op1 ≪ 1)) ≫ 52) then fp64_infinity sgn else op2 in
  (op1, op2).

Definition fplibMax32 (op1 op2 fpscr : Z) : Z * Z :=
  let mode := modeConv fpscr in
  let '(sgn1, exp1, mnt1, flags) := fp32_unpack op1 mode 0 in
  let '(sgn2, exp2, mnt2, flags) := fp32_unpack op2 mode flags in
  let '(x, flags) := fp32_process_NaNs op1 op2 mode flags in
  let result :=
    if truth x then x
    else if truth (if negb (sgn1 =? sgn2) then sgn2 else sgn1 .^ Z.b2z (op2 <? op1))
    then fp32_repack sgn1 exp1 mnt1 else fp32_repack sgn2 exp2 mnt2 in
  (result, set_fpscr0 fpscr flags).

Definition fplibMax64 (op1 op2 fpscr : Z) : Z * Z :=
  let mode := modeConv fpscr in
  let '(sgn1, exp1, mnt1, flags) := fp64_unpack op1 mode 0 in
  let '(sgn2, exp2, mnt2, flags) := fp64_unpack op2 mode flags in
  let '(x, flags) := fp64_process_NaNs op1 op2 mode flags in
  let result :=
    if truth x then x
    else if truth (if negb (sgn1 =? sgn2) then sgn2 else sgn1 .^ Z.b2z (op2 <? op1))
    then fp64_repack sgn1 exp1 mnt1 else fp64_repack sgn2 exp2 mnt2 in
  (result, set_fpscr0 fpscr flags).

Definition fplibMin32 (op1 op2 fpscr : Z) : Z * Z :=
  let mode := modeConv fpscr in
  let '(sgn1, exp1, mnt1, flags) := fp32_unpack op1 mode 0 in
  let '(sgn2, exp2, mnt2, flags) := fp32_unpack op2 mode flags in
  let '(x, flags) := fp32_process_NaNs op1 op2 mode flags in
  let result :=
    if truth x then x
    else if truth (if negb (sgn1 =? sgn2) then sgn1 else sgn1 .^ Z.b2z (op1 <? op2))
    then fp32_repack sgn1 exp1 mnt1 else fp32_repack sgn2 exp2 mnt2 in
  (result, set_fpscr0 fpscr flags).

Definition fplibMin64 (op1 op2 fpscr : Z) : Z * Z :=
  let mode := modeConv fpscr in
  let '(sgn1, exp1, mnt1, flags) := fp64_unpack op1 mode 0 in
  let '(sgn2, exp2, mnt2, flags) := fp64_unpack op2 mode flags in
  let '(x, flags) := fp64_process_NaNs op1 op2 mode flags in
  let result :=
    if truth x then x
    else if truth (if negb (sgn1 =? sgn2) then sgn1 else sgn1 .^ Z.b2z (op1 <? op2))
    then fp64_repack sgn1 exp1 mnt1 else fp64_repack sgn2 exp2 mnt2 in
  (result, set_fpscr0 fpscr flags).

Definition fplibMax (T : fpT) : Z -> Z -> Z -> Z * Z := match T with T32 => fplibMax32 | T64 => fplibMax64 end.
Definition fplibMin (T : fpT) : Z -> Z -> Z -> Z * Z := match T with T32 => fplibMin32 | T64 => fplibMin64 end.
Definition fplibMaxNum (T : fpT) (op1 op2 fpscr : Z) : Z * Z :=
  let '(op1, op2) := match T with T32 => fp32_minmaxnum | T64 => fp64_minmaxnum end op1 op2 1 in
  fplibMax T op1 op2 fpscr.
Definition fplibMinNum (T : fpT) (op1 op2 fpscr : Z) : Z * Z :=
  let '(op1, op2) := match T with T32 => fp32_minmaxnum | T64 => fp64_minmaxnum end op1 op2 0 in
  fplibMin T op1 op2 fpscr.
