(* ===== verification/FplibConv.v ===== *)
(** * The floating-point library: conversions and estimates

    The rest of [arch/arm/insts/fplib.cc]: conversions between the formats, to
    and from fixed point and to integral values, and the estimates and steps for
    reciprocals. *)
From S2P Require Import Prelude FplibCore Fplib.

(** ** Definitions: conversions between formats *)

Definition fp16_FPConvertNaN_32 (op : Z) : Z := fp16_pack (op ≫ 31) 31 ((1 ≪ 9) .| (op ≫ 13)).
Definition fp16_FPConvertNaN_64 (op : Z) : Z := fp16_pack (op ≫ 63) 31 ((1 ≪ 9) .| (op ≫ 42)).
Definition fp32_FPConvertNaN_16 (op : Z) : Z := fp32_pack (op ≫ 15) 255 ((1 ≪ 22) .| (op ≪ 13)).
Definition fp32_FPConvertNaN_64 (op : Z) : Z := fp32_pack (op ≫ 63) 255 ((1 ≪ 22) .| (op ≫ 29)).
Definition fp64_FPConvertNaN_16 (op : Z) : Z := fp64_pack (op ≫ 15) 2047 ((1 ≪ 51) .| (op ≪ 42)).
Definition fp64_FPConvertNaN_32 (op : Z) : Z := fp64_pack (op ≫ 31) 2047 ((1 ≪ 51) .| (op ≪ 29)).

Definition fp32_FPOnePointFive (sgn : Z) : Z := fp32_pack sgn 127 (1 ≪ 22).
Definition fp64_FPOnePointFive (sgn : Z) : Z := fp64_pack sgn 1023 (1 ≪ 51).
Definition fp32_FPThree (sgn : Z) : Z := fp32_pack sgn 128 (1 ≪ 22).
Definition fp64_FPThree (sgn : Z) : Z := fp64_pack sgn 1024 (1 ≪ 51).
Definition fp32_FPTwo (sgn : Z) : Z := fp32_pack sgn 128 0.
Definition fp64_FPTwo (sgn : Z) : Z := fp64_pack sgn 1024 0.

(** [fplibConvert] to [uint16_t]. *)
Definition fplibConvert_32_16 (op rounding fpscr : Z) : result (Z * Z) :=
  let mode := modeConv fpscr in
  let '(sgn, exp, mnt, flags) := fp32_unpack op mode 0 in
  let alt_hp := fpscr_ahp fpscr in
  let* '(result, flags) :=
    if (exp =? 255) && truth (u32 (mnt ≪ 9)) then
      Ok (if alt_hp then fp16_zero sgn else if fpscr_dn fpscr then fp16_defaultNaN else fp16_FPConvertNaN_32 op,
          if ((mnt ≫ 22) .& 1 =? 0) || alt_hp then flags .| FPLIB_IOC else flags)
    else if exp =? 255 then
      Ok (if alt_hp then (u16 ((sgn ≪ 15) .| 0x7fff), flags .| FPLIB_IOC) else (fp16_infinity sgn, flags))
    else if mnt =? 0 then Ok (fp16_zero sgn, flags)
    else fp16_round_ sgn (exp - 127 + 15) (u16 ((mnt ≫ 7) .| nz (u32 (mnt ≪ 25)))) rounding (mode .| (Z.b2z alt_hp ≪ 4)) flags in
  Ok (result, set_fpscr0 fpscr flags).

(** [fplibConvert] to [uint16_t]. *)
Definition fplibConvert_64_16 (op rounding fpscr : Z) : result (Z * Z) :=
  let mode := modeConv fpscr in
  let '(sgn, exp, mnt, flags) := fp64_unpack op mode 0 in
  let alt_hp := fpscr_ahp fpscr in
  let* '(result, flags) :=
    if (exp =? 2047) && truth (u64 (mnt ≪ 12)) then
      Ok (if alt_hp then fp16_zero sgn else if fpscr_dn fpscr then fp16_defaultNaN else fp16_FPConvertNaN_64 op,
          if ((mnt ≫ 51) .& 1 =? 0) || alt_hp then flags .| FPLIB_IOC else flags)
    else if exp =? 2047 then
      Ok (if alt_hp then (u16 ((sgn ≪ 15) .| 0x7fff), flags .| FPLIB_IOC) else (fp16_infinity sgn, flags))
    else if mnt =? 0 then Ok (fp16_zero sgn, flags)
    else fp16_round_ sgn (exp - 1023 + 15) (u16 ((mnt ≫ 36) .| nz (u64 (mnt ≪ 28)))) rounding (mode .| (Z.b2z alt_hp ≪ 4)) flags in
  Ok (result, set_fpscr0 fpscr flags).

(** [fplibConvert] from [uint16_t]. *)
Definition fplibConvert_16_32 (op rounding fpscr : Z) : Z * Z :=
  let mode := modeConv fpscr in
  let '(sgn, exp, mnt, flags) := fp16_unpack op mode 0 in
  let '(result, flags) :=
    if (exp =? 31) && negb (fpscr_ahp fpscr) && truth (u16 (mnt ≪ 6)) then
      (if fpscr_dn fpscr then fp32_defaultNaN else fp32_FPConvertNaN_16 op,
       if (mnt ≫ 9) .& 1 =? 0 then flags .| FPLIB_IOC else flags)
    else if (exp =? 31) && negb (fpscr_ahp fpscr) then (fp32_infinity sgn, flags)
    else if mnt =? 0 then (fp32_zero sgn, flags)
    else
      let '(mnt, exp) := fp16_normalise mnt exp in
      (fp32_pack sgn (exp - 15 + 127 + 5) (mnt ≪ 8), flags) in
  (result, set_fpscr0 fpscr flags).

(** [fplibConvert] from [uint64_t] to [uint32_t]. *)
Definition fplibConvert_64_32 (op rounding fpscr : Z) : result (Z * Z) :=
  let mode := modeConv fpscr in
  let '(sgn, exp, mnt, flags) := fp64_unpack op mode 0 in
  let* '(result, flags) :=
    if (exp =? 2047) && truth (u64 (mnt ≪ 12)) then
      Ok (if fpscr_dn fpscr then fp32_defaultNaN else fp32_FPConvertNaN_64 op,
          if (mnt ≫ 51) .& 1 =? 0 then flags .| FPLIB_IOC else flags)
    else if exp =? 2047 then Ok (fp32_infinity sgn, flags)
    else if mnt =? 0 then Ok (fp32_zero sgn, flags)
    else fp32_round_ sgn (exp - 1023 + 127) (u32 ((mnt ≫ 20) .| nz (u64 (mnt ≪ 44)))) rounding mode flags in
  Ok (result, set_fpscr0 fpscr flags).

(** [fplibConvert] from [uint16_t]. *)
Definition fplibConvert_16_64 (op rounding fpscr : Z) : Z * Z :=
  let mode := modeConv fpscr in
  let '(sgn, exp, mnt, flags) := fp16_unpack op mode 0 in
  let '(result, flags) :=
    if (exp =? 31) && negb (fpscr_ahp fpscr) && truth (u16 (mnt ≪ 6)) then
      (if fpscr_dn fpscr then fp64_defaultNaN else fp64_FPConvertNaN_16 op,
       if (mnt ≫ 9) .& 1 =? 0 then flags .| FPLIB_IOC else flags)
    else if (exp =? 31) && negb (fpscr_ahp fpscr) then (fp64_infinity sgn, flags)
    else if mnt =? 0 then (fp64_zero sgn, flags)
    else
      let '(mnt, exp) := fp16_normalise mnt exp in
      (fp64_pack sgn (exp - 15 + 1023 + 5) (mnt ≪ 37), flags) in
  (result, set_fpscr0 fpscr flags).

(** [fplibConvert] from [uint32_t] to [uint64_t]. *)
Definition fplibConvert_32_64 (op rounding fpscr : Z) : Z * Z :=
  let mode := modeConv fpscr in
  let '(sgn, exp, mnt, flags) := fp32_unpack op mode 0 in
  let '(result, flags) :=
    if (exp =? 255) && truth (u32 (mnt ≪ 9)) then
      (if fpscr_dn fpscr then fp64_defaultNaN else fp64_FPConvertNaN_32 op,
       if (mnt ≫ 22) .& 1 =? 0 then flags .| FPLIB_IOC else flags)
    else if exp =? 255 then (fp64_infinity sgn, flags)
    else if mnt =? 0 then (fp64_zero sgn, flags)
    else
      let '(mnt, exp) := fp32_normalise mnt exp in
      (fp64_pack sgn (exp - 127 + 1023 + 8) (mnt ≪ 21), flags) in
  (result, set_fpscr0 fpscr flags).

(** ** Definitions: fixed point and integers *)

(** The switch over the rounding mode: what is added to a truncated magnitude. *)
Definition round_up (rounding sgn err x : Z) : result Z :=
  if rounding =? FPRounding_TIEEVEN then Ok (Z.b2z ((err =? 3) || ((err =? 2) && truth (x .& 1))))
  else if rounding =? FPRounding_POSINF then Ok (Z.b2z (truth err && (sgn =? 0)))
  else if rounding =? FPRounding_NEGINF then Ok (Z.b2z (truth err && truth sgn))
  else if rounding =? FPRounding_ZERO then Ok 0
  else if rounding =? FPRounding_TIEAWAY then Ok (err ≫ 1)
  else Err Assert_failed.

Definition fplibRoundInt32 (op rounding : Z) (exact : bool) (fpscr : Z) : result (Z * Z) :=
  let mode := modeConv fpscr in
  let '(sgn, exp, mnt, flags) := fp32_unpack op mode 0 in
  let* '(result, flags) :=
    if (exp =? 255) && truth (u32 (mnt ≪ 9)) then Ok (fp32_process_NaN op mode flags)
    else if exp =? 255 then Ok (fp32_infinity sgn, flags)
    else if mnt =? 0 then Ok (fp32_zero sgn, flags)
    else if 150 <=? exp then Ok (op, flags)
    else
      let x := if 32 <=? 150 - exp then 0 else mnt ≫ (150 - exp) in
      let err :=
        if exp <? 118 then 1
        else ((u32 (mnt ≪ 1) ≫ (149 - exp)) .& 3) .| Z.b2z (negb (u32 (u32 (mnt ≪ 2) ≪ (exp - 118)) =? 0)) in
      let* up := round_up rounding sgn err x in
      let x := u32 (x + up) in
      let result :=
        if x =? 0 then fp32_zero sgn
        else let '(mnt, exp) := fp32_normalise x 150 in fp32_pack sgn (exp + 8) (mnt ≫ 8) in
      Ok (result, if truth err && exact then flags .| FPLIB_IXC else flags) in
  Ok (result, set_fpscr0 fpscr flags).

Definition fplibRoundInt64 (op rounding : Z) (exact : bool) (fpscr : Z) : result (Z * Z) :=
  let mode := modeConv fpscr in
  let '(sgn, exp, mnt, flags) := fp64_unpack op mode 0 in
  let* '(result, flags) :=
    if (exp =? 2047) && truth (u64 (mnt ≪ 12)) then Ok (fp64_process_NaN op mode flags)
    else if exp =? 2047 then Ok (fp64_infinity sgn, flags)
    else if mnt =? 0 then Ok (fp64_zero sgn, flags)
    else if 1075 <=? exp then Ok (op, flags)
    else
      let x := if 64 <=? 1075 - exp then 0 else mnt ≫ (1075 - exp) in
      let err :=
        if exp <? 1011 then 1
        else ((u64 (mnt ≪ 1) ≫ (1074 - exp)) .& 3) .| Z.b2z (negb (u64 (u64 (mnt ≪ 2) ≪ (exp - 1011)) =? 0)) in
      let* up := round_up rounding sgn err x in
      let x := u64 (x + up) in
      let result :=
        if x =? 0 then fp64_zero sgn
        else let '(mnt, exp) := fp64_normalise x 1075 in fp64_pack sgn (exp + 11) (mnt ≫ 11) in
      Ok (result, if truth err && exact then flags .| FPLIB_IXC else flags) in
  Ok (result, set_fpscr0 fpscr flags).

Definition fplibRoundInt (T : fpT) : Z -> Z -> bool -> Z -> result (Z * Z) :=
  match T with T32 => fplibRoundInt32 | T64 => fplibRoundInt64 end.

Definition FPToFixed_64 (sgn exp mnt : Z) (u : bool) (rounding flags : Z) : result (Z * Z) :=
  let limit := u64 (u64 (Z.b2z (negb u) ≪ 63) - Z.b2z (sgn =? 0)) in
  if 1023 + 63 <? exp then Ok (limit, FPLIB_IOC)
  else
    let x := lsr64 (u64 (mnt ≪ 11)) (1023 + 63 - exp) in
    let err :=
      if 1023 + 63 - 2 <? exp then 0
      else (lsr64 (u64 (mnt ≪ 11)) (1023 + 63 - 2 - exp) .& 3) .|
           nz (u64 (mnt ≪ 11) .& u64 (lsl64 1 (1023 + 63 - 2 - exp) - 1)) in
    let* up := round_up rounding sgn err x in
    let x := u64 (x + up) in
    if (if u then truth sgn && truth x else u64 ((1 ≪ 63) - Z.b2z (sgn =? 0)) <? x) then Ok (limit, FPLIB_IOC)
    else Ok (if truth sgn then u64 (- x) else x, if truth err then FPLIB_IXC else flags).

Definition FPToFixed_32 (sgn exp mnt : Z) (u : bool) (rounding flags : Z) : result (Z * Z) :=
  let* '(x, flags) := FPToFixed_64 sgn exp mnt u rounding flags in
  if (if u then 1 ≪ 32 <=? x else negb ((x <? 1 ≪ 31) || (u64 (- x) <=? 1 ≪ 31)))
  then Ok (u32 (u32 (Z.b2z (negb u) ≪ 31) - Z.b2z (sgn =? 0)), FPLIB_IOC)
  else Ok (u32 x, flags).

(** [fplibFPToFixed] from [uint32_t] to [uint32_t]. *)
Definition fplibFPToFixed_32_32 (op fbits : Z) (u : bool) (rounding fpscr : Z) : result (Z * Z) :=
  let '(sgn, exp, mnt, flags) := fp32_unpack op (modeConv fpscr) 0 in
  let* '(result, flags) :=
    if (exp =? 255) && truth (u32 (mnt ≪ 9)) then Ok (0, FPLIB_IOC)
    else FPToFixed_32 sgn (exp + 1023 - 127 + fbits) (u64 (mnt ≪ (52 - 23))) u rounding flags in
  Ok (result, set_fpscr0 fpscr flags).

(** [fplibFPToFixed] from [uint64_t] to [uint32_t]. *)
Definition fplibFPToFixed_64_32 (op fbits : Z) (u : bool) (rounding fpscr : Z) : result (Z * Z) :=
  let '(sgn, exp, mnt, flags) := fp64_unpack op (modeConv fpscr) 0 in
  let* '(result, flags) :=
    if (exp =? 2047) && truth (u64 (mnt ≪ 12)) then Ok (0, FPLIB_IOC)
    else FPToFixed_32 sgn (exp + fbits) mnt u rounding flags in
  Ok (result, set_fpscr0 fpscr flags).

(** [fplibFPToFixed] from [uint32_t] to [uint64_t]. *)
Definition fplibFPToFixed_32_64 (op fbits : Z) (u : bool) (rounding fpscr : Z) : result (Z * Z) :=
  let '(sgn, exp, mnt, flags) := fp32_unpack op (modeConv fpscr) 0 in
  let* '(result, flags) :=
    if (exp =? 255) && truth (u32 (mnt ≪ 9)) then Ok (0, FPLIB_IOC)
    else FPToFixed_64 sgn (exp + 1023 - 127 + fbits) (u64 (mnt ≪ (52 - 23))) u rounding flags in
  Ok (result, set_fpscr0 fpscr flags).

(** [fplibFPToFixed] from [uint64_t] to [uint64_t]. *)
Definition fplibFPToFixed_64_64 (op fbits : Z) (u : bool) (rounding fpscr : Z) : result (Z * Z) :=
  let '(sgn, exp, mnt, flags) := fp64_unpack op (modeConv fpscr) 0 in
  let* '(result, flags) :=
    if (exp =? 2047) && truth (u64 (mnt ≪ 12)) then Ok (0, FPLIB_IOC)
    else FPToFixed_64 sgn (exp + fbits) mnt u rounding flags in
  Ok (result, set_fpscr0 fpscr flags).

Definition fp32_cvtf (a fbits : Z) (u : bool) (mode flags : Z) : result (Z * Z) :=
  let x_sgn := Z.b2z (negb u && truth (a ≫ 63)) in
  let x_exp := 190 - fbits in
  let x_mnt := if truth x_sgn then u64 (- a) else a in
  if x_mnt =? 0 then Ok (fp32_zero 0, flags)
  else
    let '(x_mnt, x_exp) := fp64_normalise x_mnt x_exp in
    let x_mnt := (x_mnt ≫ 31) .| nz (u32 (x_mnt ≪ 1)) in
    fp32_round x_sgn x_exp (u32 x_mnt) mode flags.

Definition fp64_cvtf (a fbits : Z) (u : bool) (mode flags : Z) : result (Z * Z) :=
  let x_sgn := Z.b2z (negb u && truth (a ≫ 63)) in
  let x_exp := 1024 + 62 - fbits in
  let x_mnt := if truth x_sgn then u64 (- a) else a in
  if x_mnt =? 0 then Ok (fp64_zero 0, flags)
  else
    let '(x_mnt, x_exp) := fp64_normalise x_mnt x_exp in
    fp64_round x_sgn x_exp (u64 (x_mnt ≪ 1)) mode flags.

Definition fplibFixedToFP (T : fpT) (op fbits : Z) (u : bool) (rounding fpscr : Z) : result (Z * Z) :=
  let* '(res, flags) := match T with T32 => fp32_cvtf | T64 => fp64_cvtf end op fbits u (rounding .| ((fpscr ≫ 22) .& 12)) 0 in
  Ok (res, set_fpscr0 fpscr flags).

(** ** Definitions: reciprocals *)

Definition fplibMulX32 (op1 op2 fpscr : Z) : result (Z * Z) :=
  let mode := modeConv fpscr in
  let '(sgn1, exp1, mnt1, flags) := fp32_unpack op1 mode 0 in
  let '(sgn2, exp2, mnt2, flags) := fp32_unpack op2 mode flags in
  let '(result, flags) := fp32_process_NaNs op1 op2 mode flags in
  let* '(result, flags) :=
    if truth result then Ok (result, flags)
    else if ((exp1 =? 255) && (mnt2 =? 0)) || ((exp2 =? 255) && (mnt1 =? 0)) then Ok (fp32_FPTwo (sgn1 .^ sgn2), flags)
    else if (exp1 =? 255) || (exp2 =? 255) then Ok (fp32_infinity (sgn1 .^ sgn2), flags)
    else if (mnt1 =? 0) || (mnt2 =? 0) then Ok (fp32_zero (sgn1 .^ sgn2), flags)
    else fp32_mul op1 op2 mode flags in
  Ok (result, set_fpscr0 fpscr flags).

Definition fplibMulX64 (op1 op2 fpscr : Z) : result (Z * Z) :=
  let mode := modeConv fpscr in
  let '(sgn1, exp1, mnt1, flags) := fp64_unpack op1 mode 0 in
  let '(sgn2, exp2, mnt2, flags) := fp64_unpack op2 mode flags in
  let '(result, flags) := fp64_process_NaNs op1 op2 mode flags in
  let* '(result, flags) :=
    if truth result then Ok (result, flags)
    else if ((exp1 =? 2047) && (mnt2 =? 0)) || ((exp2 =? 2047) && (mnt1 =? 0)) then Ok (fp64_FPTwo (sgn1 .^ sgn2), flags)
    else if (exp1 =? 2047) || (exp2 =? 2047) then Ok (fp64_infinity (sgn1 .^ sgn2), flags)
    else if (mnt1 =? 0) || (mnt2 =? 0) then Ok (fp64_zero (sgn1 .^ sgn2), flags)
    else fp64_mul op1 op2 mode flags in
  Ok (result, set_fpscr0 fpscr flags).

Definition fplibMulX (T : fpT) : Z -> Z -> Z -> result (Z * Z) := match T with T32 => fplibMulX32 | T64 => fplibMulX64 end.

Definition fplibRSqrtStepFused32 (op1 op2 fpscr : Z) : result (Z * Z) :=
  let mode := modeConv fpscr in
  let op1 := fplibNeg T32 op1 in
  let '(sgn1, exp1, mnt1, flags) := fp32_unpack op1 mode 0 in
  let '(sgn2, exp2, mnt2, flags) := fp32_unpack op2 mode flags in
  let '(result, flags) := fp32_process_NaNs op1 op2 mode flags in
  let* '(result, flags) :=
    if truth result then Ok (result, flags)
    else if ((exp1 =? 255) && (mnt2 =? 0)) || ((exp2 =? 255) && (mnt1 =? 0)) then Ok (fp32_FPOnePointFive 0, flags)
    else if (exp1 =? 255) || (exp2 =? 255) then Ok (fp32_infinity (sgn1 .^ sgn2), flags)
    else fp32_muladd (fp32_FPThree 0) op1 op2 (-1) mode flags in
  Ok (result, set_fpscr0 fpscr flags).

Definition fplibRSqrtStepFused64 (op1 op2 fpscr : Z) : result (Z * Z) :=
  let mode := modeConv fpscr in
  let op1 := fplibNeg T64 op1 in
  let '(sgn1, exp1, mnt1, flags) := fp64_unpack op1 mode 0 in
  let '(sgn2, exp2, mnt2, flags) := fp64_unpack op2 mode flags in
  let '(result, flags) := fp64_process_NaNs op1 op2 mode flags in
  let* '(result, flags) :=
    if truth result then Ok (result, flags)
    else if ((exp1 =? 2047) && (mnt2 =? 0)) || ((exp2 =? 2047) && (mnt1 =? 0)) then Ok (fp64_FPOnePointFive 0, flags)
    else if (exp1 =? 2047) || (exp2 =? 2047) then Ok (fp64_infinity (sgn1 .^ sgn2), flags)
    else fp64_muladd (fp64_FPThree 0) op1 op2 (-1) mode flags in
  Ok (result, set_fpscr0 fpscr flags).

Definition fplibRecipStepFused32 (op1 op2 fpscr : Z) : result (Z * Z) :=
  let mode := modeConv fpscr in
  let op1 := fplibNeg T32 op1 in
  let '(sgn1, exp1, mnt1, flags) := fp32_unpack op1 mode 0 in
  let '(sgn2, exp2, mnt2, flags) := fp32_unpack op2 mode flags in
  let '(result, flags) := fp32_process_NaNs op1 op2 mode flags in
  let* '(result, flags) :=
    if truth result then Ok (result, flags)
    else if ((exp1 =? 255) && (mnt2 =? 0)) || ((exp2 =? 255) && (mnt1 =? 0)) then Ok (fp32_FPTwo 0, flags)
    else if (exp1 =? 255) || (exp2 =? 255) then Ok (fp32_infinity (sgn1 .^ sgn2), flags)
    else fp32_muladd (fp32_FPTwo 0) op1 op2 0 mode flags in
  Ok (result, set_fpscr0 fpscr flags).

Definition fplibRecipStepFused64 (op1 op2 fpscr : Z) : result (Z * Z) :=
  let mode := modeConv fpscr in
  let op1 := fplibNeg T64 op1 in
  let '(sgn1, exp1, mnt1, flags) := fp64_unpack op1 mode 0 in
  let '(sgn2, exp2, mnt2, flags) := fp64_unpack op2 mode flags in
  let '(result, flags) := fp64_process_NaNs op1 op2 mode flags in
  let* '(result, flags) :=
    if truth result then Ok (result, flags)
    else if ((exp1 =? 2047) && (mnt2 =? 0)) || ((exp2 =? 2047) && (mnt1 =? 0)) then Ok (fp64_FPTwo 0, flags)
    else if (exp1 =? 2047) || (exp2 =? 2047) then Ok (fp64_infinity (sgn1 .^ sgn2), flags)
    else fp64_muladd (fp64_FPTwo 0) op1 op2 0 mode flags in
  Ok (result, set_fpscr0 fpscr flags).

Definition fplibRecpX32 (op fpscr : Z) : Z * Z :=
  let mode := modeConv fpscr in
  let '(sgn, exp, mnt, flags) := fp32_unpack op mode 0 in
  let '(result, flags) :=
    if (exp =? 255) && truth (u32 (mnt ≪ 9)) then fp32_process_NaN op mode flags
    else if mnt =? 0 then (fp32_pack sgn 254 0, flags)
    else (fp32_pack sgn (exp .^ 255) 0, flags) in
  (result, set_fpscr0 fpscr flags).

Definition fplibRecpX64 (op fpscr : Z) : Z * Z :=
  let mode := modeConv fpscr in
  let '(sgn, exp, mnt, flags) := fp64_unpack op mode 0 in
  let '(result, flags) :=
    if (exp =? 2047) && truth (u64 (mnt ≪ 12)) then fp64_process_NaN op mode flags
    else if mnt =? 0 then (fp64_pack sgn 2046 0, flags)
    else (fp64_pack sgn (exp .^ 2047) 0, flags) in
  (result, set_fpscr0 fpscr flags).

Definition recip_sqrt_estimate : list Z :=
  [
    255; 253; 251; 249; 247; 245; 243; 242; 240; 238; 236; 234; 233; 231; 229; 228;
    226; 224; 223; 221; 219; 218; 216; 215; 213; 212; 210; 209; 207; 206; 204; 203;
    201; 200; 198; 197; 196; 194; 193; 192; 190; 189; 188; 186; 185; 184; 183; 181;
    180; 179; 178; 176; 175; 174; 173; 172; 170; 169; 168; 167; 166; 165; 164; 163;
    162; 160; 159; 158; 157; 156; 155; 154; 153; 152; 151; 150; 149; 148; 147; 146;
    145; 144; 143; 142; 141; 140; 140; 139; 138; 137; 136; 135; 134; 133; 132; 131;
    131; 130; 129; 128; 127; 126; 126; 125; 124; 123; 122; 121; 121; 120; 119; 118;
    118; 117; 116; 115; 114; 114; 113; 112; 111; 111; 110; 109; 109; 108; 107; 106;
    105; 104; 103; 101; 100; 99; 97; 96; 95; 93; 92; 91; 90; 88; 87; 86;
    85; 84; 82; 81; 80; 79; 78; 77; 76; 75; 74; 72; 71; 70; 69; 68;
    67; 66; 65; 64; 63; 62; 61; 60; 60; 59; 58; 57; 56; 55; 54; 53;
    52; 51; 51; 50; 49; 48; 47; 46; 46; 45; 44; 43; 42; 42; 41; 40;
    39; 38; 38; 37; 36; 35; 35; 34; 33; 33; 32; 31; 30; 30; 29; 28;
    28; 27; 26; 26; 25; 24; 24; 23; 22; 22; 21; 20; 20; 19; 19; 18;
    17; 17; 16; 16; 15; 14; 14; 13; 13; 12; 11; 11; 10; 10; 9; 9;
    8; 8; 7; 6; 6; 5; 5; 4; 4; 3; 3; 2; 2; 1; 1; 0].

Definition fplibRSqrtEstimate32 (op fpscr : Z) : result (Z * Z) :=
  let mode := modeConv fpscr in
  let '(sgn, exp, mnt, flags) := fp32_unpack op mode 0 in
  let* '(result, flags) :=
    if (exp =? 255) && truth (u32 (mnt ≪ 9)) then Ok (fp32_process_NaN op mode flags)
    else if mnt =? 0 then Ok (fp32_infinity sgn, flags .| FPLIB_DZC)
    else if truth sgn then Ok (fp32_defaultNaN, flags .| FPLIB_IOC)
    else if exp =? 255 then Ok (fp32_zero 0, flags)
    else
      let '(mnt, exp) := fp32_normalise mnt (exp + 8) in
      let* mnt := deref (recip_sqrt_estimate !! Z.to_nat (((Z.lnot exp .& 1) ≪ 7) .| ((mnt ≫ 24) .& 127))) in
      Ok (fp32_pack 0 ((380 - exp) ≫ 1) (mnt ≪ 15), flags) in
  Ok (result, set_fpscr0 fpscr flags).

Definition fplibRSqrtEstimate64 (op fpscr : Z) : result (Z * Z) :=
  let mode := modeConv fpscr in
  let '(sgn, exp, mnt, flags) := fp64_unpack op mode 0 in
  let* '(result, flags) :=
    if (exp =? 2047) && truth (u64 (mnt ≪ 12)) then Ok (fp64_process_NaN op mode flags)
    else if mnt =? 0 then Ok (fp64_infinity sgn, flags .| FPLIB_DZC)
    else if truth sgn then Ok (fp64_defaultNaN, flags .| FPLIB_IOC)
    else if exp =? 2047 then Ok (fp32_zero 0, flags)
    else
      let '(mnt, exp) := fp64_normalise mnt (exp + 11) in
      let* mnt := deref (recip_sqrt_estimate !! Z.to_nat (((Z.lnot exp .& 1) ≪ 7) .| ((mnt ≫ 56) .& 127))) in
      Ok (fp64_pack 0 ((3068 - exp) ≫ 1) (mnt ≪ 44), flags) in
  Ok (result, set_fpscr0 fpscr flags).

(** Whether the estimate of a tiny number's reciprocal becomes an infinity;
    [FPCRRounding] has two bits. *)
Definition recip_overflows (rounding sgn : Z) : bool :=
  if rounding =? FPRounding_TIEEVEN then true
  else if rounding =? FPRounding_POSINF then sgn =? 0
  else if rounding =? FPRounding_NEGINF then truth sgn
  else false.

Definition fplibRecipEstimate32 (op fpscr : Z) : result (Z * Z) :=
  let mode := modeConv fpscr in
  let '(sgn, exp, mnt, flags) := fp32_unpack op mode 0 in
  let '(result, flags) :=
    if (exp =? 255) && truth (u32 (mnt ≪ 9)) then fp32_process_NaN op mode flags
    else if exp =? 255 then (fp32_zero sgn, flags)
    else if mnt =? 0 then (fp32_infinity sgn, flags .| FPLIB_DZC)
    else if u32 (op ≪ 1) ≫ 22 =? 0 then
      (if recip_overflows (FPCRRounding fpscr) sgn then fp32_infinity sgn else fp32_max_normal sgn, flags .| (FPLIB_OFC .| FPLIB_IXC))
    else if fpscr_fz fpscr && (253 <=? exp) then (fp32_zero sgn, flags .| FPLIB_UFC)
    else
      let '(mnt, exp) := fp32_normalise mnt (exp + 8) in
      let result_exp := 253 - exp in
      let fraction := u32 ((((1 ≪ 19) / ((mnt ≫ 22) .| 1) + 1) ≫ 1) ≪ 15) in
      let '(fraction, result_exp) :=
        if result_exp =? 0 then (fraction ≫ 1, result_exp)
        else if result_exp =? -1 then (fraction ≫ 2, 0)
        else (fraction, result_exp) in
      (fp32_pack sgn result_exp fraction, flags) in
  Ok (result, set_fpscr0 fpscr flags).

Definition fplibRecipEstimate64 (op fpscr : Z) : result (Z * Z) :=
  let mode := modeConv fpscr in
  let '(sgn, exp, mnt, flags) := fp64_unpack op mode 0 in
  let '(result, flags) :=
    if (exp =? 2047) && truth (u64 (mnt ≪ 12)) then fp64_process_NaN op mode flags
    else if exp =? 2047 then (fp64_zero sgn, flags)
    else if mnt =? 0 then (fp64_infinity sgn, flags .| FPLIB_DZC)
    else if u64 (op ≪ 1) ≫ 51 =? 0 then
      (if recip_overflows (FPCRRounding fpscr) sgn then fp64_infinity sgn else fp64_max_normal sgn, flags .| (FPLIB_OFC .| FPLIB_IXC))
    else if fpscr_fz fpscr && (2045 <=? exp) then (fp64_zero sgn, flags .| FPLIB_UFC)
    else
      let '(mnt, exp) := fp64_normalise mnt (exp + 11) in
      let result_exp := 2045 - exp in
      let fraction := u64 ((((1 ≪ 19) / ((mnt ≫ 54) .| 1) + 1) ≫ 1) ≪ 44) in
      let '(fraction, result_exp) :=
        if result_exp =? 0 then (fraction ≫ 1, result_exp)
        else if result_exp =? -1 then (fraction ≫ 2, 0)
        else (fraction, result_exp) in
      (fp64_pack sgn result_exp fraction, flags) in
  Ok (result, set_fpscr0 fpscr flags).
