(* ===== verification/FpSpec.v ===== *)
(** * Floating-point arithmetic: the specification

    What IEEE 754 and the ARM architecture promise of an operation, in terms of
    the real numbers: the number a bit pattern stands for, the rounding of a real
    number to a format, the exact result of an operation, the NaN that an
    operation hands on, and the exceptions each of them raises.  Nothing here
    follows the code; the flags of [fplib.cc] are named for their positions only. *)
From Stdlib Require Import Reals Lra.
From S2P Require Import Prelude FplibCore.

(** ** Definitions: formats and numbers *)

(** Bits of the fraction, bits of the exponent, and whether the greatest exponent is
    reserved for infinities and NaNs (it is not in ARM's alternative half precision). *)
Record format := Format { fM : Z; fE : Z; ieee : bool }.

Definition F16 : format := Format 10 5 true.
Definition F16alt : format := Format 10 5 false.
Definition F32 : format := Format 23 8 true.
Definition F64 : format := Format 52 11 true.

Definition fW (F : format) : Z := 1 + fE F + fM F.
Definition bias (F : format) : Z := 2 ^ (fE F - 1) - 1.

(** The least biased exponent that no number has. *)
Definition emax (F : format) : Z := if ieee F then 2 ^ fE F - 1 else 2 ^ fE F.

Definition is_bits (F : format) (x : Z) : Prop := 0 <= x < 2 ^ fW F.

Definition sign_of (F : format) (x : Z) : bool := 2 ^ (fE F + fM F) <=? x.
Definition exp_of (F : format) (x : Z) : Z := (x / 2 ^ fM F) mod 2 ^ fE F.
Definition frac_of (F : format) (x : Z) : Z := x mod 2 ^ fM F.

Definition bpow (e : Z) : R := powerRZ 2 e.

(** A NaN (quiet or signalling), an infinity, or a sign and a magnitude. *)
Inductive num :=
  | NaN (quiet : bool)
  | Inf (s : bool)
  | Num (s : bool) (v : R).

Definition decode (F : format) (x : Z) : num :=
  if exp_of F x =? emax F then
    if frac_of F x =? 0 then Inf (sign_of F x) else NaN (2 ^ (fM F - 1) <=? frac_of F x)
  else if exp_of F x =? 0 then Num (sign_of F x) (IZR (frac_of F x) * bpow (1 - bias F - fM F))
  else Num (sign_of F x) (IZR (2 ^ fM F + frac_of F x) * bpow (exp_of F x - bias F - fM F)).

(** The least normal number. *)
Definition min_normal (F : format) : R := bpow (1 - bias F).

(** ** Definitions: rounding *)

(** To nearest (ties to even), up, down, towards zero, to nearest (ties away), to odd. *)
Inductive rmode := RNE | RUP | RDN | RTZ | RNA | ROD.

(** The integer [n] is the magnitude [t] of a number of sign [s], rounded. *)
Definition rounds_int (rm : rmode) (s : bool) (t : R) (n : Z) : Prop :=
  match rm with
  | RNE => (Rabs (t - IZR n) <= / 2)%R /\ (Rabs (t - IZR n) = / 2 -> Z.even n = true)%R
  | RUP => if s then (IZR n <= t < IZR n + 1)%R else (IZR n - 1 < t <= IZR n)%R
  | RDN => if s then (IZR n - 1 < t <= IZR n)%R else (IZR n <= t < IZR n + 1)%R
  | RTZ => (IZR n <= t < IZR n + 1)%R
  | RNA => (IZR n - / 2 <= t < IZR n + / 2)%R
  | ROD => t = IZR n \/ (Rabs (t - IZR n) < 1)%R /\ Z.odd n = true
  end.

(** The unit in the last place of the numbers of a format around [v] is [2 ^ q]. *)
Definition quantum (F : format) (v : R) (q : Z) : Prop :=
  exists e, (bpow e <= v < bpow (e + 1))%R /\ q = Z.max (1 - bias F) e - fM F.

(** [r] is the positive [v] rounded to the precision of the format, with no bound
    on the exponent from above. *)
Definition round_to (F : format) (rm : rmode) (s : bool) (v r : R) : Prop :=
  exists q n, quantum F v q /\ rounds_int rm s (v / bpow q) n /\ r = (IZR n * bpow q)%R.

Definition to_infinity (rm : rmode) (s : bool) : bool :=
  match rm with RNE | RNA => true | RUP => negb s | RDN => s | RTZ | ROD => false end.

Definition greatest (F : format) : R := (bpow (emax F - bias F) - bpow (emax F - bias F - 1 - fM F))%R.

(** [x] and the exceptions [fl] are what rounding the positive [v] with sign [s]
    yields; tininess is detected before rounding, and with [fz] a tiny result is
    flushed to zero. *)
Definition rounded (F : format) (fz : bool) (rm : rmode) (s : bool) (v : R) (x fl : Z) : Prop :=
  if fz && (if Rlt_dec v (min_normal F) then true else false) then decode F x = Num s 0 /\ fl = FPLIB_UFC
  else exists r, round_to F rm s v r /\
    if Rlt_dec r (bpow (emax F - bias F)) then
      decode F x = Num s r /\
      fl = if Req_EM_T r v then 0 else if Rlt_dec v (min_normal F) then FPLIB_UFC .| FPLIB_IXC else FPLIB_IXC
    else if ieee F then
      decode F x = (if to_infinity rm s then Inf s else Num s (greatest F)) /\ fl = FPLIB_OFC .| FPLIB_IXC
    else decode F x = Num s (greatest F) /\ fl = FPLIB_IOC.

(** ** Definitions: operations *)

(** The exact result: none, an infinity (of a division by zero or not), a zero, or a
    positive magnitude to be rounded. *)
Inductive exact :=
  | Invalid
  | Infinite (s : bool) (dz : bool)
  | Zero (s : bool)
  | Finite (s : bool) (v : R).

Definition signed (s : bool) (v : R) : R := if s then (- v)%R else v.

(** The exact result [r], which has the sign [z] should it be zero. *)
Definition exactly (z : bool) (r : R) : exact :=
  if Req_EM_T r 0 then Zero z else Finite (if Rlt_dec r 0 then true else false) (Rabs r).

Definition is_down (rm : rmode) : bool := match rm with RDN => true | _ => false end.

Definition sum (rm : rmode) (x y : num) : exact :=
  match x, y with
  | Num s u, Num t v => exactly (if eqb s t then s else is_down rm) (signed s u + signed t v)
  | Inf s, Inf t => if eqb s t then Infinite s false else Invalid
  | Inf s, _ | _, Inf s => Infinite s false
  | _, _ => Invalid
  end.

Definition neg (x : num) : num :=
  match x with NaN q => NaN q | Inf s => Inf (negb s) | Num s v => Num (negb s) v end.

Definition product (x y : num) : exact :=
  match x, y with
  | Num s u, Num t v => if Req_EM_T (u * v) 0 then Zero (xorb s t) else Finite (xorb s t) (u * v)
  | Inf s, Inf t => Infinite (xorb s t) false
  | Inf s, Num t v | Num t v, Inf s => if Req_EM_T v 0 then Invalid else Infinite (xorb s t) false
  | _, _ => Invalid
  end.

Definition quotient (x y : num) : exact :=
  match x, y with
  | Num s u, Num t v =>
      if Req_EM_T v 0 then if Req_EM_T u 0 then Invalid else Infinite (xorb s t) true
      else if Req_EM_T u 0 then Zero (xorb s t) else Finite (xorb s t) (u / v)
  | Inf s, Num t _ => Infinite (xorb s t) false
  | Num s _, Inf t => Zero (xorb s t)
  | _, _ => Invalid
  end.

Definition root (x : num) : exact :=
  match x with
  | Num s v => if Req_EM_T v 0 then Zero s else if s then Invalid else Finite false (sqrt v)
  | Inf false => Infinite false false
  | _ => Invalid
  end.

(** [z + x * y], times a power of two. *)
Definition fused (rm : rmode) (scale : Z) (z x y : num) : exact :=
  match x, y with
  | Num s u, Num t v =>
      match z with
      | Num r w => exactly (if eqb r (xorb s t) then r else is_down rm) ((signed r w + signed (xorb s t) (u * v)) * bpow scale)
      | Inf r => Infinite r false
      | NaN _ => Invalid
      end
  | _, _ =>
      match product x y, z with
      | Infinite s _, Inf r => if eqb s r then Infinite s false else Invalid
      | Infinite s _, Num _ _ => Infinite s false
      | _, _ => Invalid
      end
  end.

(** ** Definitions: operands, NaNs and results *)

(** The control bits of the status register. *)
Definition ctl_rm (fpscr : Z) : rmode :=
  match (fpscr / 2 ^ 22) mod 4 with 0 => RNE | 1 => RUP | 2 => RDN | _ => RTZ end.
Definition ctl_fz (fpscr : Z) : bool := Z.odd (fpscr / 2 ^ 24).
Definition ctl_dn (fpscr : Z) : bool := Z.odd (fpscr / 2 ^ 25).
Definition ctl_ahp (fpscr : Z) : bool := Z.odd (fpscr / 2 ^ 26).

Definition is_subnormal (F : format) (x : Z) : bool := (exp_of F x =? 0) && negb (frac_of F x =? 0).

(** An operand as the operation sees it, subnormal numbers flushed when [fz] says so. *)
Definition operand (F : format) (fz : bool) (x : Z) : num :=
  if fz && is_subnormal F x then Num (sign_of F x) 0 else decode F x.

(** The exception flushing the operands raises. *)
Definition flushed (F : format) (fz : bool) (ops : list Z) : Z :=
  if fz && existsb (is_subnormal F) ops then FPLIB_IDC else 0.

Definition is_nan (F : format) (x : Z) : bool := match decode F x with NaN _ => true | _ => false end.
Definition is_snan (F : format) (x : Z) : bool := match decode F x with NaN q => negb q | _ => false end.

Definition default_nan (F : format) : Z := 2 ^ (fE F + fM F) - 2 ^ (fM F - 1).
Definition quieted (F : format) (x : Z) : Z := if is_snan F x then x + 2 ^ (fM F - 1) else x.

(** The NaN among the operands that decides the result: the first signalling one, or the first. *)
Definition chosen_nan (F : format) (ops : list Z) : option Z :=
  match find (is_snan F) ops with Some x => Some x | None => find (is_nan F) ops end.

Definition delivers (F : format) (fz : bool) (rm : rmode) (o : exact) (x fl : Z) : Prop :=
  match o with
  | Invalid => x = default_nan F /\ fl = FPLIB_IOC
  | Infinite s dz => decode F x = Inf s /\ fl = if dz then FPLIB_DZC else 0
  | Zero s => decode F x = Num s 0 /\ fl = 0
  | Finite s v => rounded F fz rm s v x fl
  end.

(** [x] and [fl] are the result of an operation on [ops] whose exact result is [o]. *)
Definition computes (F : format) (fz dn : bool) (rm : rmode) (ops : list Z) (o : exact) (x fl : Z) : Prop :=
  is_bits F x /\ exists fl', fl = flushed F fz ops .| fl' /\
  match chosen_nan F ops with
  | Some a => x = (if dn then default_nan F else quieted F a) /\ fl' = (if is_snan F a then FPLIB_IOC else 0)
  | None => delivers F fz rm o x fl'
  end.

(** The product of an infinity and a zero. *)
Definition inf_times_zero (x y : num) : bool :=
  match x, y with
  | Inf _, Num _ v | Num _ v, Inf _ => if Req_EM_T v 0 then true else false
  | _, _ => false
  end.

(** [x] and [fl] are the result of [a + b * c], times a power of two.  When the product is that of
    an infinity and a zero, it is invalid even if [a] is a quiet NaN. *)
Definition computes_fused (F : format) (fz dn : bool) (rm : rmode) (scale : Z) (a b c x fl : Z) : Prop :=
  if is_nan F a && negb (is_snan F a) && inf_times_zero (operand F fz b) (operand F fz c)
  then x = default_nan F /\ fl = flushed F fz [a; b; c] .| FPLIB_IOC
  else computes F fz dn rm [a; b; c] (fused rm scale (operand F fz a) (operand F fz b) (operand F fz c)) x fl.
