(* ===== verification/FpBits.v ===== *)
(** * Floating-point numbers: the integers behind them

    The shifts, masks and loops of [fplib.cc] as arithmetic on integers: a shift to
    the right that collects what it drops in the last bit, normalisation, products
    and shifts of 128 bits in two words, packing and unpacking. *)
From S2P Require Import Prelude FplibCore.

(** ** Definitions *)

(** A shift to the right that keeps, in the last bit, whether anything was lost. *)
Definition sr (x n : Z) : Z := x / 2 ^ n .| nz (x mod 2 ^ n).

(** The shifts of the code at a width. *)
Definition lsrW (W x s : Z) : Z := if u32 s <? W then x ≫ u32 s else 0.
Definition lslW (W x s : Z) : Z := if u32 s <? W then wrap W (x ≪ u32 s) else 0.

(** One round of the normalisation at a width. *)
Definition norm_step (W : Z) (s : Z * Z) (shift : Z) : Z * Z :=
  if s.1 ≫ (W - shift) =? 0 then (wrap W (s.1 ≪ shift), s.2 - shift) else s.

(** Two words as one number. *)
Definition v128 (x0 x1 : Z) : Z := x1 * 2 ^ 64 + x0.

(** Normalisation multiplies by a power of two, until the top bit is set. *)
Definition normalised (W m e m' e' : Z) : Prop :=
  exists z, 0 <= z /\ m' = m * 2 ^ z /\ e' = e - z /\ 2 ^ (W - 1) <= m' < 2 ^ W.

(** The shifts of the loop, from [2 ^ (k - 1)] down to 1. *)
Fixpoint norm_shifts (k : nat) : list Z :=
  match k with O => [] | S k => 2 ^ Z.of_nat k :: norm_shifts k end.

(** The two words of a number. *)
Definition words (v : Z) : Z * Z := (v mod 2 ^ 64, v / 2 ^ 64).

(** One round of the normalisation of two words. *)
Definition norm_step128 (s : Z * Z * Z) (shift : Z) : Z * Z * Z :=
  let '(x0, x1, exp) := s in
  if x1 ≫ (64 - shift) =? 0 then (u64 (x0 ≪ shift), u64 (x1 ≪ shift) .| (x0 ≫ (64 - shift)), exp - shift) else s.

(** ** Powers of two, sticky shifts *)

Lemma pow2_pos n : 0 <= n -> 0 < 2 ^ n.
Proof. intros. apply Z.pow_pos_nonneg; lia. Qed.

Lemma pow2_split a b : 0 <= a -> 0 <= b -> 2 ^ (a + b) = 2 ^ a * 2 ^ b.
Proof. intros. now rewrite Z.pow_add_r. Qed.

Lemma pow2_le a b : a <= b -> 2 ^ a <= 2 ^ b.
Proof. intros. apply Z.pow_le_mono_r; lia. Qed.

Lemma pow2_lt a b : 0 <= b -> a < b -> 2 ^ a < 2 ^ b.
Proof. intros. apply Z.pow_lt_mono_r; lia. Qed.

Lemma nz_01 x : nz x = 0 /\ x = 0 \/ nz x = 1 /\ x <> 0.
Proof. unfold nz. destruct (Z.eqb_spec x 0); cbn; auto. Qed.

Lemma truth_true x : truth x = true <-> x <> 0.
Proof. unfold truth. destruct (Z.eqb_spec x 0); cbn; naive_solver. Qed.

Lemma truth_false x : truth x = false <-> x = 0.
Proof. unfold truth. destruct (Z.eqb_spec x 0); cbn; naive_solver. Qed.

Lemma lor_1 x : x .| 1 = 2 * (x / 2) + 1.
Proof.
  apply Z.bits_inj'. intros i Hi. rewrite Z.lor_spec.
  destruct (Z.eq_dec i 0) as [->|].
  - rewrite Z.testbit_odd_0. now rewrite orb_true_r.
  - replace i with (Z.succ (i - 1)) by lia. rewrite Z.testbit_odd_succ by lia.
    rewrite <- Z.div2_div, Z.div2_spec, Z.shiftr_spec by lia.
    change 1 with (2 ^ 0) at 2. rewrite pow2_testbit by lia.
    rewrite (proj2 (Z.eqb_neq _ _)), orb_false_r by lia. done.
Qed.

Lemma odd_half k : (2 * k + 1) / 2 = k.
Proof. Z.div_mod_to_equations. lia. Qed.

(** What a sticky shift yields: the quotient, made odd when it is not exact. *)
Lemma sr_cases x n :
  x mod 2 ^ n = 0 /\ sr x n = x / 2 ^ n \/ x mod 2 ^ n <> 0 /\ sr x n = 2 * (x / 2 ^ n / 2) + 1.
Proof.
  unfold sr. destruct (nz_01 (x mod 2 ^ n)) as [[-> ->]|[-> ?]].
  - left. now rewrite Z.lor_0_r.
  - right. now rewrite lor_1.
Qed.

Lemma sr_0 x : sr x 0 = x.
Proof. unfold sr. now rewrite Z.mod_1_r, Z.div_1_r, Z.lor_0_r. Qed.

Lemma sr_sr x a b : 0 <= a -> 0 <= b -> sr (sr x a) b = sr x (a + b).
Proof.
  intros Ha Hb. unfold sr at 1 3. rewrite pow2_split by lia.
  pose proof (pow2_pos a Ha) as Pa. pose proof (pow2_pos b Hb) as Pb.
  destruct (Z.eq_dec b 0) as [->|Hb0].
  { change (2 ^ 0) with 1. now rewrite Z.mod_1_r, Z.div_1_r, Z.mul_1_r, Z.lor_0_r. }
  assert (2 ^ b = 2 * 2 ^ (b - 1)) as Hb2 by (rewrite <- Z.pow_succ_r by lia; f_equal; lia).
  pose proof (pow2_pos (b - 1) ltac:(lia)) as Pb1.
  assert (sr x a / 2 ^ b = x / (2 ^ a * 2 ^ b)) as ->.
  { rewrite <- Z.div_div by lia. destruct (sr_cases x a) as [[_ ->]|[_ ->]]; [done|].
    rewrite Hb2, <- !(Z.div_div _ 2) by lia.
    now rewrite odd_half. }
  f_equal. unfold nz. f_equal. f_equal. rewrite (Z.rem_mul_r x) by lia.
  pose proof (Z.mod_pos_bound x (2 ^ a) Pa). pose proof (Z.mod_pos_bound (x / 2 ^ a) (2 ^ b) Pb).
  destruct (sr_cases x a) as [[E ->]|[E ->]].
  - rewrite E, Z.add_0_l. destruct (Z.eqb_spec (x / 2 ^ a mod 2 ^ b) 0), (Z.eqb_spec (2 ^ a * (x / 2 ^ a mod 2 ^ b)) 0); nia.
  - rewrite (proj2 (Z.eqb_neq _ 0)), (proj2 (Z.eqb_neq _ 0)); [done|nia|].
    intros Hd%Z.mod_divide; [|lia]. destruct Hd as [k Hk]. rewrite Hb2 in Hk. lia.
Qed.

(** Arithmetic with quotients by literals. *)
Ltac divlia := Z.div_mod_to_equations; lia.

Lemma sr_range x n k : 0 <= n <= k -> 0 <= x < 2 ^ (k + 1) -> 0 <= sr x n < 2 ^ (k + 1 - n).
Proof.
  intros Hn Hx. assert (2 ^ (k + 1) = 2 * 2 ^ (k - n) * 2 ^ n) as Hk.
  { rewrite <- Z.pow_succ_r, <- pow2_split by lia. f_equal. lia. }
  assert (2 ^ (k + 1 - n) = 2 * 2 ^ (k - n)) as ->.
  { rewrite <- Z.pow_succ_r by lia. f_equal. lia. }
  pose proof (pow2_pos n ltac:(lia)).
  assert (0 <= x / 2 ^ n < 2 * 2 ^ (k - n)).
  { split; [apply Z.div_pos; lia|]. apply Z.div_lt_upper_bound; lia. }
  destruct (sr_cases x n) as [[_ ->]|[_ ->]]; [done|].
  generalize dependent (x / 2 ^ n). intros. divlia.
Qed.

Lemma sr_nonneg x n : 0 <= n -> 0 <= x -> 0 <= sr x n.
Proof.
  intros Hn Hx. pose proof (pow2_pos n Hn). assert (0 <= x / 2 ^ n) by (apply Z.div_pos; lia).
  destruct (sr_cases x n) as [[_ ->]|[_ ->]]; [done|]. generalize dependent (x / 2 ^ n). intros. divlia.
Qed.

Lemma sr_le x n : 0 <= n -> 0 <= x -> sr x n <= x.
Proof.
  intros Hn Hx. destruct (Z.eq_dec n 0) as [->|]; [now rewrite sr_0|].
  assert (2 ^ n = 2 * 2 ^ (n - 1)) as E by (rewrite <- Z.pow_succ_r by lia; f_equal; lia).
  pose proof (pow2_pos (n - 1) ltac:(lia)). pose proof (Z.div_mod x (2 ^ n) ltac:(lia)) as D.
  pose proof (Z.mod_pos_bound x (2 ^ n) ltac:(lia)) as B. assert (0 <= x / 2 ^ n) by (apply Z.div_pos; lia).
  destruct (sr_cases x n) as [[E' ->]|[E' ->]]; [nia|].
  set (q := x / 2 ^ n) in *. set (r := x mod 2 ^ n) in *. clearbody q r. assert (2 * (q / 2) <= q) by divlia. nia.
Qed.

(** A shift that drops nothing. *)
Lemma sr_mul x n k : 0 <= n <= k -> sr (x * 2 ^ k) n = x * 2 ^ (k - n).
Proof.
  intros. pose proof (pow2_pos n ltac:(lia)).
  assert (x * 2 ^ k = x * 2 ^ (k - n) * 2 ^ n) as -> by (rewrite <- Z.mul_assoc, <- pow2_split by lia; do 2 f_equal; lia).
  unfold sr. now rewrite Z.div_mul, Z.mod_mul, Z.lor_0_r by lia.
Qed.

(** ** The shifts of the code *)

Lemma u32_id s : 0 <= s < 2 ^ 32 -> u32 s = s.
Proof. apply wrap_small. Qed.

Lemma lsrW_div W x s : 0 <= s < 2 ^ 32 -> 0 <= x < 2 ^ W -> lsrW W x s = x / 2 ^ s.
Proof.
  intros Hs Hx. unfold lsrW. rewrite u32_id by done. destruct (Z.ltb_spec s W).
  - now rewrite Z.shiftr_div_pow2 by lia.
  - rewrite Z.div_small; [done|]. pose proof (pow2_le W s). lia.
Qed.

Lemma land_mask x n : 0 <= n -> x .& (2 ^ n - 1) = x mod 2 ^ n.
Proof. intros. rewrite <- Z.land_ones, Z.ones_equiv by done. f_equal. Qed.

Lemma lslW_mask W x s : 0 < W -> 0 <= s < 2 ^ 32 -> 0 <= x < 2 ^ W -> x .& wrap W (lslW W 1 s - 1) = x mod 2 ^ s.
Proof.
  intros HW Hs Hx. unfold lslW. rewrite u32_id, Z.shiftl_1_l by done.
  destruct (Z.ltb_spec s W).
  - pose proof (pow2_lt s W ltac:(lia) ltac:(lia)). pose proof (pow2_pos s ltac:(lia)).
    rewrite !wrap_small by (unfold in_range; rewrite ?wrap_small by (unfold in_range; lia); lia).
    apply land_mask. lia.
  - assert (wrap W (0 - 1) = 2 ^ W - 1) as ->.
    { unfold wrap. rewrite <- (Z.mod_add (0 - 1) 1) by lia. rewrite Z.mod_small; lia. }
    rewrite land_mask, !Z.mod_small by (pose proof (pow2_le W s); lia). done.
Qed.

(** The alignment of an operand. *)
Lemma sticky W x s : 0 < W -> 0 <= s < 2 ^ 32 -> 0 <= x < 2 ^ W ->
  lsrW W x s .| nz (x .& wrap W (lslW W 1 s - 1)) = sr x s.
Proof. intros. unfold sr. now rewrite lsrW_div, lslW_mask. Qed.

Lemma wrap_shl W x s : 0 <= s <= W -> wrap W (x ≪ s) = x mod 2 ^ (W - s) * 2 ^ s.
Proof.
  intros Hs. unfold wrap. rewrite Z.shiftl_mul_pow2 by lia.
  replace (2 ^ W) with (2 ^ (W - s) * 2 ^ s) by (rewrite <- pow2_split by lia; f_equal; lia).
  pose proof (pow2_pos (W - s)). pose proof (pow2_pos s). apply Z.mul_mod_distr_r; lia.
Qed.

Lemma nz_mul x p : 0 < p -> nz (x * p) = nz x.
Proof. intros. unfold nz. destruct (Z.eqb_spec x 0), (Z.eqb_spec (x * p) 0); nia. Qed.

(** Dropping the low half of a doubled word. *)
Lemma sticky_drop W x n : 0 <= n <= W -> (x ≫ n) .| nz (wrap W (x ≪ (W - n))) = sr x n.
Proof.
  intros. rewrite Z.shiftr_div_pow2, wrap_shl, nz_mul by (try apply pow2_pos; lia).
  unfold sr. now replace (W - (W - n)) with n by lia.
Qed.

(** ** Normalisation *)

Lemma norm_step_ok W m e s : 0 < s -> 2 * s <= W -> 2 ^ (W - 2 * s) <= m < 2 ^ W ->
  exists z, 0 <= z /\ norm_step W (m, e) s = (m * 2 ^ z, e - z) /\ 2 ^ (W - s) <= m * 2 ^ z < 2 ^ W.
Proof.
  intros Hs HW Hm. unfold norm_step. cbn [fst snd]. rewrite Z.shiftr_div_pow2 by lia.
  pose proof (pow2_pos (W - s) ltac:(lia)) as P.
  assert (2 ^ W = 2 ^ (W - s) * 2 ^ s) as HWs by (rewrite <- pow2_split by lia; f_equal; lia).
  assert (2 ^ (W - s) = 2 ^ (W - 2 * s) * 2 ^ s) as HWs2 by (rewrite <- pow2_split by lia; f_equal; lia).
  pose proof (pow2_pos s ltac:(lia)). pose proof (pow2_pos (W - 2 * s) ltac:(lia)).
  destruct (Z.eqb_spec (m / 2 ^ (W - s)) 0) as [E|E].
  - exists s. apply Z.div_small_iff in E; [|lia]. rewrite Z.shiftl_mul_pow2, wrap_small by (unfold in_range; nia).
    repeat split; [lia|nia|nia].
  - exists 0. rewrite Z.mul_1_r, Z.sub_0_r. repeat split; [lia| |lia].
    destruct (Z_lt_le_dec m (2 ^ (W - s))) as [Hl|]; [|done]. rewrite Z.div_small in E by lia. done.
Qed.

Lemma norm_fold_ok W k : forall m e, 2 ^ Z.of_nat k <= W -> 2 ^ (W - 2 ^ Z.of_nat k) <= m < 2 ^ W ->
  exists z, 0 <= z /\ fold_left (norm_step W) (norm_shifts k) (m, e) = (m * 2 ^ z, e - z) /\ 2 ^ (W - 1) <= m * 2 ^ z < 2 ^ W.
Proof.
  induction k as [|k IH]; intros m e HW Hm.
  - exists 0. rewrite Z.mul_1_r, Z.sub_0_r. done.
  - rewrite Nat2Z.inj_succ, Z.pow_succ_r in HW, Hm by lia. pose proof (pow2_pos (Z.of_nat k) ltac:(lia)).
    cbn [norm_shifts fold_left]. destruct (norm_step_ok W m e (2 ^ Z.of_nat k)) as (z & Hz & -> & Hm'); [lia..|].
    destruct (IH (m * 2 ^ z) (e - z)) as (z' & Hz' & -> & Hm''); [lia..|].
    exists (z + z'). rewrite pow2_split, Z.mul_assoc by lia.
    repeat split; [lia|f_equal; lia|lia|lia].
Qed.

Lemma fp16_normalise_ok m e m' e' : fp16_normalise m e = (m', e') -> 1 <= m < 2 ^ 16 -> normalised 16 m e m' e'.
Proof.
  intros H Hm. destruct (norm_fold_ok 16 4 m e) as (z & Hz & E & Hm'); [lia..|].
  unfold fp16_normalise in H. rewrite (proj2 (Z.eqb_neq m 0)) in H by lia.
  change (fold_left (norm_step 16) (norm_shifts 4) (m, e) = (m', e')) in H. rewrite E in H. injection H as <- <-. now exists z.
Qed.

Lemma fp32_normalise_ok m e m' e' : fp32_normalise m e = (m', e') -> 1 <= m < 2 ^ 32 -> normalised 32 m e m' e'.
Proof.
  intros H Hm. destruct (norm_fold_ok 32 5 m e) as (z & Hz & E & Hm'); [lia..|].
  unfold fp32_normalise in H. rewrite (proj2 (Z.eqb_neq m 0)) in H by lia.
  change (fold_left (norm_step 32) (norm_shifts 5) (m, e) = (m', e')) in H. rewrite E in H. injection H as <- <-. now exists z.
Qed.

Lemma fp64_normalise_ok m e m' e' : fp64_normalise m e = (m', e') -> 1 <= m < 2 ^ 64 -> normalised 64 m e m' e'.
Proof.
  intros H Hm. destruct (norm_fold_ok 64 6 m e) as (z & Hz & E & Hm'); [lia..|].
  unfold fp64_normalise in H. rewrite (proj2 (Z.eqb_neq m 0)) in H by lia.
  change (fold_left (norm_step 64) (norm_shifts 6) (m, e) = (m', e')) in H. rewrite E in H. injection H as <- <-. now exists z.
Qed.

(** ** Two words *)

Lemma lor_add a b s : 0 <= s -> 0 <= b < 2 ^ s -> a * 2 ^ s .| b = a * 2 ^ s + b.
Proof.
  intros Hs Hb. rewrite <- Z.shiftl_mul_pow2 by lia. symmetry. rewrite <- Z.lxor_lor.
  - apply Z.add_nocarry_lxor. bits_ext i. rewrite Z.land_spec, Z.bits_0.
    destruct (Z_lt_le_dec i s); [now rewrite Z.shiftl_spec_low|].
    now rewrite (in_range_testbit s b i), andb_false_r by done.
  - bits_ext i. rewrite Z.land_spec, Z.bits_0.
    destruct (Z_lt_le_dec i s); [now rewrite Z.shiftl_spec_low|].
    now rewrite (in_range_testbit s b i), andb_false_r by done.
Qed.

Lemma words_v128 x0 x1 : is_u64 x0 -> words (v128 x0 x1) = (x0, x1).
Proof.
  unfold in_range, words, v128. intros. rewrite Z.add_comm, Z.mod_add, Z.mod_small, Z.div_add, Z.div_small; [done|lia..].
Qed.

Lemma v128_range x0 x1 : is_u64 x0 -> is_u64 x1 -> 0 <= v128 x0 x1 < 2 ^ 128.
Proof. unfold in_range, v128. lia. Qed.

Lemma v128_0 x0 x1 : is_u64 x0 -> is_u64 x1 -> (x0 =? 0) && (x1 =? 0) = (v128 x0 x1 =? 0).
Proof. unfold in_range, v128. intros. destruct (Z.eqb_spec x0 0), (Z.eqb_spec x1 0), (Z.eqb_spec (x1 * 2 ^ 64 + x0) 0); cbn; lia. Qed.

(** Shifting two words. *)
Lemma shl_words x0 x1 s : is_u64 x0 -> 0 <= s <= 64 ->
  let r0 := u64 (x0 ≪ s) in let r1 := u64 (x1 ≪ s) .| (x0 ≫ (64 - s)) in
  is_u64 r0 /\ is_u64 r1 /\ v128 r0 r1 = v128 x0 x1 * 2 ^ s mod 2 ^ 128.
Proof.
  intros H0 Hs. cbv zeta. unfold u64, in_range, v128 in *. rewrite !wrap_shl, Z.shiftr_div_pow2 by lia.
  assert (2 ^ 64 = 2 ^ (64 - s) * 2 ^ s) as E by (rewrite <- pow2_split by lia; f_equal; lia).
  pose proof (pow2_pos s ltac:(lia)) as P. pose proof (pow2_pos (64 - s) ltac:(lia)) as Q.
  assert (0 <= x0 / 2 ^ (64 - s) < 2 ^ s) as Hh.
  { split; [apply Z.div_pos; lia|]. apply Z.div_lt_upper_bound; lia. }
  rewrite lor_add by lia.
  pose proof (Z.div_mod x0 (2 ^ (64 - s)) ltac:(lia)) as D0. pose proof (Z.mod_pos_bound x0 _ Q).
  pose proof (Z.div_mod x1 (2 ^ (64 - s)) ltac:(lia)) as D1. pose proof (Z.mod_pos_bound x1 _ Q).
  change (2 ^ 128) with (2 ^ 64 * 2 ^ 64). set (p := 2 ^ s) in *. set (q := 2 ^ (64 - s)) in *. rewrite E in *. clear E.
  set (h := x0 / q) in *. set (l := x0 mod q) in *. set (k := x1 / q) in *. set (m := x1 mod q) in *.
  clearbody p q h l k m. subst x0 x1. repeat split; [nia..|].
  replace (((q * k + m) * (q * p) + (q * h + l)) * p) with (((m * p + h) * (q * p) + l * p) + k * (q * p * (q * p))) by ring.
  rewrite Z.mod_add, Z.mod_small by nia. done.
Qed.

Lemma shr_words x0 x1 s : is_u64 x0 -> is_u64 x1 -> 0 <= s <= 64 ->
  let r0 := (x0 ≫ s) .| u64 (x1 ≪ (64 - s)) in let r1 := x1 ≫ s in
  is_u64 r0 /\ is_u64 r1 /\ v128 r0 r1 = v128 x0 x1 / 2 ^ s.
Proof.
  intros H0 H1 Hs. cbv zeta. unfold u64, in_range, v128 in *. rewrite Z.lor_comm, !wrap_shl, !Z.shiftr_div_pow2 by lia.
  replace (64 - (64 - s)) with s by lia.
  assert (2 ^ 64 = 2 ^ (64 - s) * 2 ^ s) as E by (rewrite <- pow2_split by lia; f_equal; lia).
  pose proof (pow2_pos s ltac:(lia)) as P. pose proof (pow2_pos (64 - s) ltac:(lia)) as Q.
  assert (0 <= x0 / 2 ^ s < 2 ^ (64 - s)) as Hh.
  { split; [apply Z.div_pos; lia|]. apply Z.div_lt_upper_bound; lia. }
  rewrite lor_add by lia.
  pose proof (Z.div_mod x0 (2 ^ s) ltac:(lia)) as D0. pose proof (Z.mod_pos_bound x0 _ P).
  pose proof (Z.div_mod x1 (2 ^ s) ltac:(lia)) as D1. pose proof (Z.mod_pos_bound x1 _ P).
  set (p := 2 ^ s) in *. set (q := 2 ^ (64 - s)) in *. rewrite E in *. clear E.
  set (h := x0 / p) in *. set (l := x0 mod p) in *. set (k := x1 / p) in *. set (m := x1 mod p) in *.
  clearbody p q h l k m. subst x0 x1. repeat split; [nia..|].
  replace ((p * k + m) * (q * p) + (p * h + l)) with ((k * (q * p) + (m * q + h)) * p + l) by ring.
  rewrite Z.div_add_l, Z.div_small by lia. lia.
Qed.

Lemma lsl128_ok x0 x1 s : is_u64 x0 -> is_u64 x1 -> 0 < s < 128 ->
  exists r0 r1, lsl128 x0 x1 s = Ok (r0, r1) /\ is_u64 r0 /\ is_u64 r1 /\ v128 r0 r1 = v128 x0 x1 * 2 ^ s mod 2 ^ 128.
Proof.
  intros H0 H1 Hs. unfold lsl128, shl, shr. rewrite u32_id by lia.
  destruct (Z.ltb_spec s 64); [|destruct (Z.ltb_spec s 128); [|lia]].
  - rewrite (proj2 (Z.ltb_lt (64 - s) 64)) by lia. destruct (shl_words x0 x1 s) as (? & ? & ?); [done|lia|].
    cbn [rbind]. eauto 6.
  - destruct (Z.ltb_spec (s - 64) 64); [|lia]. cbn [rbind].
    destruct (shl_words 0 x0 (s - 64)) as (_ & ? & E); [done|lia|]. rewrite Z.shiftr_0_l, Z.lor_0_r in *.
    exists 0, (u64 (x0 ≪ (s - 64))). split_and!; [done|done|apply u64_range|].
    rewrite Z.shiftl_0_l in E. change (u64 0) with 0 in E. rewrite E. unfold v128.
    replace (2 ^ s) with (2 ^ 64 * 2 ^ (s - 64)) by (rewrite <- pow2_split by lia; f_equal; lia).
    replace ((x1 * 2 ^ 64 + x0) * (2 ^ 64 * 2 ^ (s - 64))) with ((x0 * 2 ^ 64 + 0) * 2 ^ (s - 64) + x1 * 2 ^ (s - 64) * 2 ^ 128)
      by (change (2 ^ 128) with (2 ^ 64 * 2 ^ 64); ring).
    now rewrite Z.mod_add by lia.
Qed.

Lemma lsr128_ok x0 x1 s : is_u64 x0 -> is_u64 x1 -> 0 < s < 2 ^ 32 ->
  exists r0 r1, lsr128 x0 x1 s = Ok (r0, r1) /\ is_u64 r0 /\ is_u64 r1 /\ v128 r0 r1 = v128 x0 x1 / 2 ^ s.
Proof.
  intros H0 H1 Hs. unfold lsr128, shl, shr. rewrite u32_id by lia.
  destruct (Z.ltb_spec s 64); [|destruct (Z.ltb_spec s 128)].
  - rewrite (proj2 (Z.ltb_lt (64 - s) 64)) by lia. destruct (shr_words x0 x1 s) as (? & ? & ?); [done..|lia|].
    cbn [rbind]. eauto 6.
  - destruct (Z.ltb_spec (s - 64) 64); [|lia]. cbn [rbind].
    destruct (shr_words x1 0 (s - 64)) as (? & _ & E); [done..|lia|].
    rewrite Z.shiftl_0_l, Z.shiftr_0_l in *. change (u64 0) with 0 in *. rewrite Z.lor_0_r in *.
    exists (x1 ≫ (s - 64)), 0. split_and!; [done..|]. rewrite E.
    replace (2 ^ s) with (2 ^ 64 * 2 ^ (s - 64)) by (rewrite <- pow2_split by lia; f_equal; lia).
    unfold in_range, v128 in *. pose proof (pow2_pos (s - 64) ltac:(lia)). rewrite <- Z.div_div by lia.
    now rewrite Z.div_add_l, (Z.div_small x0), Z.add_0_r by lia.
  - exists 0, 0. pose proof (v128_range x0 x1 H0 H1). pose proof (pow2_le 128 s). rewrite Z.div_small by lia. done.
Qed.

Lemma mul62x62_ok a b : 0 <= a < 2 ^ 62 -> 0 <= b < 2 ^ 62 ->
  exists r0 r1, mul62x62 a b = (r0, r1) /\ is_u64 r0 /\ is_u64 r1 /\ v128 r0 r1 = a * b.
Proof.
  intros Ha Hb. unfold mul62x62. change (u32 ((1 ≪ 31) - 1)) with (2 ^ 31 - 1).
  rewrite !land_mask, !Z.shiftr_div_pow2 by lia.
  rewrite !(Z.mod_small (_ / 2 ^ 31)) by (split; [apply Z.div_pos; lia|apply Z.div_lt_upper_bound; lia]).
  pose proof (Z.div_mod a (2 ^ 31) ltac:(lia)) as Da. pose proof (Z.mod_pos_bound a (2 ^ 31) ltac:(lia)).
  pose proof (Z.div_mod b (2 ^ 31) ltac:(lia)) as Db. pose proof (Z.mod_pos_bound b (2 ^ 31) ltac:(lia)).
  set (a0 := a mod 2 ^ 31) in *. set (a1 := a / 2 ^ 31) in *. set (b0 := b mod 2 ^ 31) in *. set (b1 := b / 2 ^ 31) in *.
  assert (0 <= a1 < 2 ^ 31) by lia. assert (0 <= b1 < 2 ^ 31) by lia. clearbody a0 a1 b0 b1.
  rewrite (u64_small (a0 * b0)), (u64_small (a1 * b1)), (u64_small ((a0 + a1) * (b0 + b1))) by (unfold in_range; nia).
  replace ((a0 + a1) * (b0 + b1) - a0 * b0 - a1 * b1) with (a0 * b1 + a1 * b0) by ring.
  rewrite (u64_small (a0 * b1 + a1 * b0)) by (unfold in_range; nia).
  assert (0 <= a0 * b0 < 2 ^ 62) by nia. assert (0 <= a0 * b1 + a1 * b0 < 2 ^ 63) by nia. assert (0 <= a1 * b1 < 2 ^ 62) by nia.
  assert (a * b = a0 * b0 + (a0 * b1 + a1 * b0) * 2 ^ 31 + a1 * b1 * 2 ^ 62) as -> by (rewrite Da, Db; ring).
  generalize dependent (a0 * b0). generalize dependent (a0 * b1 + a1 * b0). generalize dependent (a1 * b1).
  clear. intros p2 H2 p1 H1 p0 H0.
  rewrite (u64_small (p0 / 2 ^ 31 + p1)) by (unfold in_range; divlia). set (s1 := p0 / 2 ^ 31 + p1).
  rewrite (u64_small (s1 / 2 ^ 31 + p2)) by (unfold in_range; subst s1; divlia). set (s2 := s1 / 2 ^ 31 + p2).
  eexists _, _. split; [done|]. unfold u64. rewrite !wrap_shl, (Z.mod_small (s1 mod 2 ^ 31)) by divlia.
  change (64 - 62) with 2. rewrite (Z.lor_comm (p0 mod 2 ^ 31)), lor_add, (Z.lor_comm _ (s2 mod 2 ^ 2 * 2 ^ 62)), lor_add by divlia.
  unfold in_range, v128. subst s2 s1. divlia.
Qed.

Lemma mul64x32_ok a b : is_u64 a -> 0 <= b < 2 ^ 32 ->
  exists r0 r1, mul64x32 a b = (r0, r1) /\ is_u64 r0 /\ is_u64 r1 /\ v128 r0 r1 = a * b.
Proof.
  unfold in_range. intros Ha Hb. unfold mul64x32. rewrite (u32_id b Hb), !Z.shiftr_div_pow2 by lia.
  change (u32 a) with (a mod 2 ^ 32). pose proof (Z.div_mod a (2 ^ 32) ltac:(lia)) as Da. pose proof (Z.mod_pos_bound a (2 ^ 32) ltac:(lia)).
  set (a0 := a mod 2 ^ 32) in *. set (a1 := a / 2 ^ 32) in *. assert (0 <= a1 < 2 ^ 32) by lia. clearbody a0 a1.
  assert (0 <= a0 * b <= (2 ^ 32 - 1) * (2 ^ 32 - 1)) by nia. assert (0 <= a1 * b <= (2 ^ 32 - 1) * (2 ^ 32 - 1)) by nia.
  assert (a * b = a0 * b + a1 * b * 2 ^ 32) as -> by (rewrite Da; ring).
  generalize dependent (a0 * b). generalize dependent (a1 * b). clear. intros p1 H1 p0 H0.
  rewrite (u64_small p0), (u64_small p1) by (unfold in_range; lia).
  rewrite (u64_small (p0 / 2 ^ 32 + p1)) by (unfold in_range; divlia).
  eexists _, _. split; [done|]. unfold u64, u32. rewrite wrap_shl, lor_add by (try apply wrap_range; lia).
  unfold in_range, v128, wrap. change (64 - 32) with 32. divlia.
Qed.

Lemma add128_ok a0 a1 b0 b1 : is_u64 a0 -> is_u64 a1 -> is_u64 b0 -> is_u64 b1 -> v128 a0 a1 + v128 b0 b1 < 2 ^ 128 ->
  exists r0 r1, add128 a0 a1 b0 b1 = (r0, r1) /\ is_u64 r0 /\ is_u64 r1 /\ v128 r0 r1 = v128 a0 a1 + v128 b0 b1.
Proof.
  unfold in_range, v128, add128. intros. eexists _, _. split; [done|]. unfold u64, wrap.
  destruct (Z.ltb_spec ((a0 + b0) mod 2 ^ 64) a0); cbn [Z.b2z]; divlia.
Qed.

Lemma sub128_ok a0 a1 b0 b1 : is_u64 a0 -> is_u64 a1 -> is_u64 b0 -> is_u64 b1 -> v128 b0 b1 <= v128 a0 a1 ->
  exists r0 r1, sub128 a0 a1 b0 b1 = (r0, r1) /\ is_u64 r0 /\ is_u64 r1 /\ v128 r0 r1 = v128 a0 a1 - v128 b0 b1.
Proof.
  unfold in_range, v128, sub128. intros. eexists _, _. split; [done|]. unfold u64, wrap.
  destruct (Z.ltb_spec a0 ((a0 - b0) mod 2 ^ 64)); cbn [Z.b2z]; divlia.
Qed.

Lemma cmp128_ok a0 a1 b0 b1 : is_u64 a0 -> is_u64 a1 -> is_u64 b0 -> is_u64 b1 ->
  cmp128 a0 a1 b0 b1 = match v128 a0 a1 ?= v128 b0 b1 with Lt => -1 | Eq => 0 | Gt => 1 end.
Proof.
  unfold in_range, v128, cmp128. intros. split_cmp; destruct (Z.compare_spec (a1 * 2 ^ 64 + a0) (b1 * 2 ^ 64 + b0)); lia.
Qed.

Lemma norm_step128_words v e s : 0 < s <= 64 -> 0 <= v < 2 ^ 128 ->
  let w := norm_step 128 (v, e) s in norm_step128 (words v, e) s = (words w.1, w.2) /\ 0 <= w.1 < 2 ^ 128.
Proof.
  intros Hs Hv. cbv zeta. unfold norm_step128, norm_step, words at 1. cbn [fst snd].
  rewrite (Z.shiftr_div_pow2 (v / 2 ^ 64)), (Z.shiftr_div_pow2 v), Z.div_div by (try apply pow2_pos; lia).
  rewrite <- pow2_split by lia. replace (64 + (64 - s)) with (128 - s) by lia.
  destruct (Z.eqb_spec (v / 2 ^ (128 - s)) 0); [|done]. cbn [fst snd].
  destruct (shl_words (v mod 2 ^ 64) (v / 2 ^ 64) s) as (R0 & R1 & E); [apply (wrap_range 64); lia|lia|].
  replace (v128 (v mod 2 ^ 64) (v / 2 ^ 64)) with v in E by (unfold v128; divlia).
  rewrite (Z.shiftl_mul_pow2 v) by lia. split; [|apply wrap_range; lia].
  unfold wrap. rewrite <- E, words_v128 by done. done.
Qed.

Lemma norm_fold128_words l : forall v e, Forall (fun s => 0 < s <= 64) l -> 0 <= v < 2 ^ 128 ->
  let w := fold_left (norm_step 128) l (v, e) in fold_left norm_step128 l (words v, e) = (words w.1, w.2).
Proof.
  induction l as [|s l IH]; intros v e Hl Hv; [done|]. inversion Hl; subst. cbn [fold_left].
  destruct (norm_step128_words v e s) as [-> Hw]; [done..|]. destruct (norm_step 128 (v, e) s). now apply IH.
Qed.

Lemma fp128_normalise_ok x0 x1 e : is_u64 x0 -> is_u64 x1 -> v128 x0 x1 <> 0 ->
  exists y0 y1 e', fp128_normalise x0 x1 e = (y0, y1, e') /\ is_u64 y0 /\ is_u64 y1 /\ normalised 128 (v128 x0 x1) e (v128 y0 y1) e'.
Proof.
  intros H0 H1 Hv. pose proof (v128_range x0 x1 H0 H1).
  destruct (norm_fold_ok 128 7 (v128 x0 x1) e) as (z & Hz & E & Hm); [lia..|].
  pose proof (norm_fold128_words (norm_shifts 7) (v128 x0 x1) e) as Hsim. cbv zeta in Hsim. rewrite E in Hsim.
  cbn [fst snd] in Hsim. rewrite words_v128 in Hsim by done.
  set (w := v128 x0 x1 * 2 ^ z) in *. exists (w mod 2 ^ 64), (w / 2 ^ 64), (e - z). split_and!.
  - unfold fp128_normalise. rewrite v128_0, (proj2 (Z.eqb_neq (v128 x0 x1) 0)) by done.
    change (w mod 2 ^ 64, w / 2 ^ 64) with (words w). rewrite <- Hsim; [|repeat constructor; lia|lia]. change (norm_shifts 7) with (64 :: [32; 16; 8; 4; 2; 1]). cbn [fold_left].
    assert (norm_step128 (x0, x1, e) 64 = if x1 =? 0 then (0, x0, e - 64) else (x0, x1, e)) as ->; [|done].
    unfold norm_step128. change (64 - 64) with 0. rewrite !Z.shiftr_0_r. destruct (Z.eqb_spec x1 0) as [->|]; [|done].
    unfold u64. rewrite !wrap_shl by lia. change (64 - 64) with 0. change (2 ^ 0) with 1. now rewrite !Z.mod_1_r.
  - apply (wrap_range 64). lia.
  - split; [apply Z.div_pos; lia|]. apply Z.div_lt_upper_bound; lia.
  - exists z. replace (v128 (w mod 2 ^ 64) (w / 2 ^ 64)) with w by (unfold v128; divlia). done.
Qed.
