(* ===== verification/FpFields.v ===== *)
(** * Floating-point numbers: their fields

    Packing, unpacking and NaNs of [fplib.cc], for every format at once: each
    function of the code is an instance of one here, and each of these does what
    the specification says. *)
From Stdlib Require Import Reals Lra.
From S2P Require Import Prelude FplibCore FpSpec FpBits.

(** ** Definitions: the code at a format *)

Definition gpack (F : format) (sgn exp mnt : Z) : Z :=
  wrap (fW F) ((sgn ≪ (fW F - 1)) .| (exp ≪ fM F) .| (mnt .& ((1 ≪ fM F) - 1))).

Definition gunpack (F : format) (x : Z) (fz : bool) (flags : Z) : Z * Z * Z * Z :=
  let sgn := x ≫ (fW F - 1) in
  let exp := (x ≫ fM F) .& (2 ^ fE F - 1) in
  let mnt := x .& ((1 ≪ fM F) - 1) in
  if truth exp then (sgn, exp, mnt .| (1 ≪ fM F), flags)
  else if fz && truth mnt then (sgn, exp + 1, 0, flags .| FPLIB_IDC)
  else (sgn, exp + 1, mnt, flags).

Definition gprocess_NaN (F : format) (a : Z) (dn : bool) (flags : Z) : Z * Z :=
  let '(a, flags) := if (a ≫ (fM F - 1)) .& 1 =? 0 then (a .| (1 ≪ (fM F - 1)), flags .| FPLIB_IOC) else (a, flags) in
  (if dn then gpack F 0 (2 ^ fE F - 1) (1 ≪ (fM F - 1)) else a, flags).

(** The tests of the code for a NaN and for a signalling NaN. *)
Definition gnan (F : format) (a : Z) : bool :=
  ((a ≫ fM F) .& (2 ^ fE F - 1) =? 2 ^ fE F - 1) && truth (a .& ((1 ≪ fM F) - 1)).
Definition gsnan (F : format) (a : Z) : bool :=
  gnan F a && (((a .& ((1 ≪ fM F) - 1)) ≫ (fM F - 1)) .& 1 =? 0).

Definition gprocess_NaNs (F : format) (ops : list Z) (dn : bool) (flags : Z) : Z * Z :=
  match find (gsnan F) ops with
  | Some a => gprocess_NaN F a dn flags
  | None => match find (gnan F) ops with Some a => gprocess_NaN F a dn flags | None => (0, flags) end
  end.

(** ** Definitions: fields *)

(** The mode argument of the code. *)
Definition mode_fz (mode : Z) : bool := truth (mode .& FPLIB_FZ).
Definition mode_dn (mode : Z) : bool := truth (mode .& FPLIB_DN).

Definition fields (F : format) (s : bool) (e f : Z) : Z := Z.b2z s * 2 ^ (fE F + fM F) + e * 2 ^ fM F + f.

(** The exponent and the mantissa a number is computed with. *)
Definition expo (F : format) (x : Z) : Z := if exp_of F x =? 0 then 1 else exp_of F x.
Definition mant (F : format) (fz : bool) (x : Z) : Z :=
  if exp_of F x =? 0 then if fz then 0 else frac_of F x else 2 ^ fM F + frac_of F x.

(** The facts about a format the proofs need. *)
Class Valid (F : format) : Prop := { valid_M : 2 <= fM F; valid_E : 2 <= fE F }.
#[export] Instance valid_F16 : Valid F16. Proof. split; cbn; lia. Qed.
#[export] Instance valid_F16alt : Valid F16alt. Proof. split; cbn; lia. Qed.
#[export] Instance valid_F32 : Valid F32. Proof. split; cbn; lia. Qed.
#[export] Instance valid_F64 : Valid F64. Proof. split; cbn; lia. Qed.

(** ** The code is an instance *)

Lemma pack16 s e m : fp16_pack s e m = gpack F16 s e m.
Proof. reflexivity. Qed.
Lemma pack32 s e m : fp32_pack s e m = gpack F32 s e m.
Proof. reflexivity. Qed.
Lemma pack64 s e m : fp64_pack s e m = gpack F64 s e m.
Proof. reflexivity. Qed.
Lemma unpack16 x mode flags : fp16_unpack x mode flags = gunpack F16 x false flags.
Proof. reflexivity. Qed.
Lemma unpack32 x mode flags : fp32_unpack x mode flags = gunpack F32 x (mode_fz mode) flags.
Proof. reflexivity. Qed.
Lemma unpack64 x mode flags : fp64_unpack x mode flags = gunpack F64 x (mode_fz mode) flags.
Proof. reflexivity. Qed.
Lemma process_NaN32 a mode flags : fp32_process_NaN a mode flags = gprocess_NaN F32 a (mode_dn mode) flags.
Proof. reflexivity. Qed.
Lemma process_NaN64 a mode flags : fp64_process_NaN a mode flags = gprocess_NaN F64 a (mode_dn mode) flags.
Proof. reflexivity. Qed.

Lemma process_NaNs_32 a b mode flags :
  fp32_process_NaNs a b mode flags = gprocess_NaNs F32 [a; b] (mode_dn mode) flags.
Proof.
  set (dn := mode_dn mode). transitivity (
    if gsnan F32 a then gprocess_NaN F32 a dn flags else
    if gsnan F32 b then gprocess_NaN F32 b dn flags else
    if gnan F32 a then gprocess_NaN F32 a dn flags else
    if gnan F32 b then gprocess_NaN F32 b dn flags else (0, flags)); [reflexivity|].
  unfold gprocess_NaNs. cbn [find]. repeat (case_match; try done).
Qed.

Lemma process_NaNs_64 a b mode flags :
  fp64_process_NaNs a b mode flags = gprocess_NaNs F64 [a; b] (mode_dn mode) flags.
Proof.
  set (dn := mode_dn mode). transitivity (
    if gsnan F64 a then gprocess_NaN F64 a dn flags else
    if gsnan F64 b then gprocess_NaN F64 b dn flags else
    if gnan F64 a then gprocess_NaN F64 a dn flags else
    if gnan F64 b then gprocess_NaN F64 b dn flags else (0, flags)); [reflexivity|].
  unfold gprocess_NaNs. cbn [find]. repeat (case_match; try done).
Qed.

Lemma process_NaNs3_32 a b c mode flags :
  fp32_process_NaNs3 a b c mode flags = gprocess_NaNs F32 [a; b; c] (mode_dn mode) flags.
Proof.
  set (dn := mode_dn mode). transitivity (
    if gsnan F32 a then gprocess_NaN F32 a dn flags else
    if gsnan F32 b then gprocess_NaN F32 b dn flags else
    if gsnan F32 c then gprocess_NaN F32 c dn flags else
    if gnan F32 a then gprocess_NaN F32 a dn flags else
    if gnan F32 b then gprocess_NaN F32 b dn flags else
    if gnan F32 c then gprocess_NaN F32 c dn flags else (0, flags)); [reflexivity|].
  unfold gprocess_NaNs. cbn [find]. repeat (case_match; try done).
Qed.

Lemma process_NaNs3_64 a b c mode flags :
  fp64_process_NaNs3 a b c mode flags = gprocess_NaNs F64 [a; b; c] (mode_dn mode) flags.
Proof.
  set (dn := mode_dn mode). transitivity (
    if gsnan F64 a then gprocess_NaN F64 a dn flags else
    if gsnan F64 b then gprocess_NaN F64 b dn flags else
    if gsnan F64 c then gprocess_NaN F64 c dn flags else
    if gnan F64 a then gprocess_NaN F64 a dn flags else
    if gnan F64 b then gprocess_NaN F64 b dn flags else
    if gnan F64 c then gprocess_NaN F64 c dn flags else (0, flags)); [reflexivity|].
  unfold gprocess_NaNs. cbn [find]. repeat (case_match; try done).
Qed.

(** ** Fields *)

Section fields.
Context (F : format) {VF : Valid F}.

Let HM : 2 <= fM F := valid_M.
Let HE : 2 <= fE F := valid_E.

Lemma fields_range s e f : 0 <= e < 2 ^ fE F -> 0 <= f < 2 ^ fM F -> is_bits F (fields F s e f).
Proof.
  intros He Hf. unfold is_bits, fields, fW. rewrite <- Z.add_assoc, !pow2_split by lia. change (2 ^ 1) with 2.
  pose proof (pow2_pos (fE F)). pose proof (pow2_pos (fM F)). destruct s; cbn [Z.b2z]; nia.
Qed.

Lemma fields_of s e f : 0 <= e < 2 ^ fE F -> 0 <= f < 2 ^ fM F ->
  sign_of F (fields F s e f) = s /\ exp_of F (fields F s e f) = e /\ frac_of F (fields F s e f) = f.
Proof.
  intros He Hf. unfold sign_of, exp_of, frac_of, fields. rewrite !pow2_split by lia.
  pose proof (pow2_pos (fE F) ltac:(lia)). pose proof (pow2_pos (fM F) ltac:(lia)).
  rewrite Z.mul_assoc, <- Z.mul_add_distr_r. split_and!.
  - destruct s; cbn [Z.b2z]; [apply Z.leb_le|apply Z.leb_gt]; nia.
  - rewrite Z.div_add_l, (Z.div_small f), Z.add_0_r, Z.add_comm, Z.mod_add, Z.mod_small by lia. done.
  - rewrite Z.add_comm, Z.mod_add, Z.mod_small by lia. done.
Qed.

Lemma is_fields x : is_bits F x ->
  x = fields F (sign_of F x) (exp_of F x) (frac_of F x) /\ 0 <= exp_of F x < 2 ^ fE F /\ 0 <= frac_of F x < 2 ^ fM F.
Proof.
  unfold is_bits, sign_of, exp_of, frac_of, fields, fW. rewrite <- Z.add_assoc, !pow2_split by lia. change (2 ^ 1) with 2. intros Hx.
  pose proof (pow2_pos (fE F) ltac:(lia)) as PE. pose proof (pow2_pos (fM F) ltac:(lia)) as PM.
  split; [|split; apply Z.mod_pos_bound; lia].
  pose proof (Z.div_mod x (2 ^ fM F) ltac:(lia)) as D. pose proof (Z.mod_pos_bound x (2 ^ fM F) PM).
  destruct (Z.leb_spec (2 ^ fE F * 2 ^ fM F) x); cbn [Z.b2z].
  - assert ((x / 2 ^ fM F) mod 2 ^ fE F = x / 2 ^ fM F - 2 ^ fE F) as ->; [|lia].
    symmetry. apply (Z.mod_unique_pos _ _ 1); nia.
  - rewrite (Z.mod_small (x / 2 ^ fM F)); nia.
Qed.

Lemma gpack_fields s e m : 0 <= e < 2 ^ fE F -> gpack F (Z.b2z s) e m = fields F s e (m mod 2 ^ fM F).
Proof.
  intros He. unfold gpack. rewrite Z.shiftl_1_l, land_mask, !Z.shiftl_mul_pow2 by (unfold fW; lia).
  replace (fW F - 1) with (fE F + fM F) by (unfold fW; lia).
  pose proof (Z.mod_pos_bound m (2 ^ fM F) (pow2_pos (fM F) ltac:(lia))) as Hm.
  rewrite pow2_split at 1 by lia. rewrite Z.mul_assoc, <- !Z.shiftl_mul_pow2, <- Z.shiftl_lor, !Z.shiftl_mul_pow2 by lia.
  rewrite !lor_add by lia. rewrite Z.mul_add_distr_r, <- Z.mul_assoc, <- pow2_split by lia.
  apply wrap_small. now apply fields_range.
Qed.

Lemma gunpack_ok x fz flags : is_bits F x ->
  gunpack F x fz flags = (Z.b2z (sign_of F x), expo F x, mant F fz x, flags .| flushed F fz [x]).
Proof.
  intros Hx. destruct (is_fields x Hx) as (E & He & Hf).
  unfold gunpack. rewrite Z.shiftl_1_l, !land_mask, !Z.shiftr_div_pow2 by (unfold fW; lia).
  replace (x / 2 ^ (fW F - 1)) with (Z.b2z (sign_of F x)).
  2: { replace (fW F - 1) with (fM F + fE F) by (unfold fW; lia). rewrite pow2_split, <- Z.div_div by (try apply pow2_pos; lia).
       rewrite E at 2. unfold fields. rewrite pow2_split, Z.mul_assoc, <- Z.mul_add_distr_r by lia.
       pose proof (pow2_pos (fE F)). pose proof (pow2_pos (fM F)).
       rewrite Z.div_add_l, (Z.div_small (frac_of F x)), Z.add_0_r, Z.div_add_l, Z.div_small by lia. lia. }
  fold (exp_of F x) (frac_of F x). unfold expo, mant, flushed, is_subnormal, truth. cbn [existsb]. rewrite orb_false_r.
  destruct (Z.eqb_spec (exp_of F x) 0) as [->|]; cbn [negb andb].
  - destruct fz, (Z.eqb_spec (frac_of F x) 0) as [->|]; cbn [negb andb]; rewrite ?Z.lor_0_r; done.
  - rewrite andb_false_r, Z.lor_0_r, Z.lor_comm. replace (2 ^ fM F) with (1 * 2 ^ fM F) at 1 by lia.
    rewrite lor_add by lia. do 3 f_equal. lia.
Qed.

Lemma emax_range : 2 <= emax F <= 2 ^ fE F.
Proof. unfold emax. pose proof (pow2_le 2 (fE F) HE). destruct (ieee F); lia. Qed.

(** ** Numbers from fields *)

Lemma decode_pack s e n : 0 <= e < emax F -> (if e =? 0 then 0 <= n < 2 ^ fM F else 2 ^ fM F <= n < 2 ^ (fM F + 1)) ->
  is_bits F (gpack F (Z.b2z s) e n) /\ decode F (gpack F (Z.b2z s) e n) = Num s (IZR n * bpow (Z.max 1 e - bias F - fM F)).
Proof.
  intros He Hn. pose proof emax_range. rewrite gpack_fields by lia.
  pose proof (Z.mod_pos_bound n (2 ^ fM F) (pow2_pos (fM F) ltac:(lia))) as Hf. split; [apply fields_range; lia|].
  unfold decode. destruct (fields_of s e (n mod 2 ^ fM F)) as (-> & -> & ->); [lia..|].
  rewrite (proj2 (Z.eqb_neq e (emax F))) by lia. destruct (Z.eqb_spec e 0) as [->|].
  - now rewrite Z.mod_small.
  - rewrite Z.add_1_r, Z.pow_succ_r in Hn by lia.
    rewrite <- (Z.mod_add n (-1)), Z.mod_small by lia.
    replace (2 ^ fM F + (n + -1 * 2 ^ fM F)) with n by lia. now rewrite Z.max_r by lia.
Qed.

Lemma decode_zero s : is_bits F (gpack F (Z.b2z s) 0 0) /\ decode F (gpack F (Z.b2z s) 0 0) = Num s 0.
Proof.
  pose proof emax_range. pose proof (pow2_pos (fM F) ltac:(lia)).
  destruct (decode_pack s 0 0) as [? ->]; [lia|cbn; lia|]. now rewrite Rmult_0_l.
Qed.

Lemma decode_infinity s : ieee F = true ->
  is_bits F (gpack F (Z.b2z s) (2 ^ fE F - 1) 0) /\ decode F (gpack F (Z.b2z s) (2 ^ fE F - 1) 0) = Inf s.
Proof.
  intros Hi. pose proof (pow2_pos (fM F) ltac:(lia)). pose proof (pow2_le 2 (fE F) HE). rewrite gpack_fields, Z.mod_0_l by lia.
  split; [apply fields_range; lia|]. unfold decode. destruct (fields_of s (2 ^ fE F - 1) 0) as (-> & -> & ->); [lia..|].
  unfold emax. now rewrite Hi, Z.eqb_refl.
Qed.

Lemma default_nan_pack : gpack F 0 (2 ^ fE F - 1) (1 ≪ (fM F - 1)) = default_nan F.
Proof.
  pose proof (pow2_le 2 (fE F) HE). change 0 with (Z.b2z false). rewrite gpack_fields, Z.shiftl_1_l by lia.
  pose proof (pow2_pos (fM F - 1) ltac:(lia)).
  assert (2 ^ fM F = 2 * 2 ^ (fM F - 1)) as E by (rewrite <- Z.pow_succ_r by lia; f_equal; lia).
  rewrite Z.mod_small by lia. unfold fields, default_nan. cbn [Z.b2z]. rewrite pow2_split by lia. lia.
Qed.

Lemma default_nan_ok : is_bits F (default_nan F) /\ default_nan F <> 0.
Proof.
  unfold is_bits, default_nan, fW. replace (1 + fE F + fM F) with (Z.succ (fE F + fM F)) by lia. rewrite Z.pow_succ_r by lia.
  pose proof (pow2_lt (fM F - 1) (fE F + fM F) ltac:(lia) ltac:(lia)). pose proof (pow2_pos (fM F - 1) ltac:(lia)). lia.
Qed.

(** ** Operands *)

Lemma operand_num x fz : is_bits F x -> exp_of F x <> emax F ->
  operand F fz x = Num (sign_of F x) (IZR (mant F fz x) * bpow (expo F x - bias F - fM F)).
Proof.
  intros Hx He. unfold operand, is_subnormal, decode, mant, expo. rewrite (proj2 (Z.eqb_neq _ (emax F)) He).
  destruct (Z.eqb_spec (exp_of F x) 0); cbn [andb]; [|now rewrite andb_false_r].
  destruct fz; cbn [andb]; [|done].
  destruct (Z.eqb_spec (frac_of F x) 0) as [->|]; cbn [negb]; now rewrite Rmult_0_l.
Qed.

Lemma mant_range x fz : is_bits F x -> 0 <= mant F fz x < 2 ^ (fM F + 1) /\ (2 ^ fM F <= mant F fz x \/ expo F x = 1).
Proof.
  intros Hx. destruct (is_fields x Hx) as (_ & He & Hf). unfold mant, expo. rewrite Z.add_1_r, Z.pow_succ_r by lia.
  destruct (Z.eqb_spec (exp_of F x) 0), fz; lia.
Qed.

Lemma expo_range x : is_bits F x -> exp_of F x <> emax F -> 1 <= expo F x < emax F.
Proof.
  intros Hx He. destruct (is_fields x Hx) as (_ & He' & _). pose proof emax_range. unfold expo, emax in *.
  destruct (Z.eqb_spec (exp_of F x) 0), (ieee F); lia.
Qed.

Lemma expo_emax x : is_bits F x -> ieee F = true -> (expo F x =? 2 ^ fE F - 1) = (exp_of F x =? emax F).
Proof.
  intros Hx Hi. unfold expo, emax. rewrite Hi. pose proof (pow2_le 2 (fE F) HE).
  destruct (Z.eqb_spec (exp_of F x) 0) as [->|]; [|done]. rewrite !(proj2 (Z.eqb_neq _ _)); lia.
Qed.

(** ** NaNs *)

Context (HI : ieee F = true).

Lemma is_nan_fields x : is_nan F x = (exp_of F x =? 2 ^ fE F - 1) && negb (frac_of F x =? 0).
Proof.
  unfold is_nan, decode, emax. rewrite HI. destruct (exp_of F x =? 2 ^ fE F - 1); [now destruct (frac_of F x =? 0)|].
  now destruct (exp_of F x =? 0).
Qed.

Lemma is_snan_fields x : is_snan F x = is_nan F x && (frac_of F x <? 2 ^ (fM F - 1)).
Proof.
  unfold is_snan, is_nan, decode. destruct (exp_of F x =? emax F); [destruct (frac_of F x =? 0)|]; [done| |now destruct (exp_of F x =? 0)].
  cbn [andb]. now rewrite Z.leb_antisym, negb_involutive.
Qed.

Lemma gnan_ok x : is_bits F x -> gnan F x = is_nan F x.
Proof.
  intros Hx. unfold gnan. rewrite is_nan_fields, Z.shiftl_1_l, !land_mask, Z.shiftr_div_pow2 by lia. done.
Qed.

Lemma half_bit f : 0 <= f < 2 ^ fM F -> ((f ≫ (fM F - 1)) .& 1 =? 0) = (f <? 2 ^ (fM F - 1)).
Proof.
  intros Hf. assert (2 ^ fM F = 2 * 2 ^ (fM F - 1)) as E by (rewrite <- Z.pow_succ_r by lia; f_equal; lia).
  pose proof (pow2_pos (fM F - 1) ltac:(lia)) as P. rewrite Z.shiftr_div_pow2 by lia. change 1 with (2 ^ 1 - 1) at 2. rewrite land_mask by lia.
  change (2 ^ 1) with 2. destruct (Z.ltb_spec f (2 ^ (fM F - 1))).
  - rewrite Z.div_small by lia. done.
  - replace (f / 2 ^ (fM F - 1)) with 1; [done|]. apply (Z.div_unique_pos _ _ _ (f - 2 ^ (fM F - 1))); lia.
Qed.

(** The bit of the pattern that tells a quiet NaN. *)
Lemma quiet_bit x : is_bits F x -> ((x ≫ (fM F - 1)) .& 1 =? 0) = (frac_of F x <? 2 ^ (fM F - 1)).
Proof.
  intros Hx. destruct (is_fields x Hx) as (E & He & Hf). rewrite <- half_bit by done.
  assert ((x ≫ (fM F - 1)) .& 1 = (frac_of F x ≫ (fM F - 1)) .& 1) as ->; [|done].
  unfold frac_of. change (x mod 2 ^ fM F) with (wrap (fM F) x). bits_ext i. simpl_bits. change 1 with (2 ^ 0).
  rewrite pow2_testbit by lia. destruct (Z.eqb_spec i 0) as [->|]; [|now rewrite !andb_false_r].
  now rewrite (proj2 (Z.ltb_lt _ _)) by lia.
Qed.

Lemma gsnan_ok x : is_bits F x -> gsnan F x = is_snan F x.
Proof.
  intros Hx. destruct (is_fields x Hx) as (_ & _ & Hf). unfold gsnan. rewrite gnan_ok, is_snan_fields by done.
  rewrite Z.shiftl_1_l, land_mask by lia. fold (frac_of F x). now rewrite half_bit.
Qed.

(** Quieting sets a bit that is clear. *)
Lemma quieted_lor x : is_bits F x -> is_snan F x = true -> x .| (1 ≪ (fM F - 1)) = quieted F x.
Proof.
  intros Hx Hs. unfold quieted. rewrite Hs, Z.shiftl_1_l.
  rewrite is_snan_fields in Hs. apply andb_true_iff in Hs as [_ Hs]. rewrite <- quiet_bit in Hs by done. apply Z.eqb_eq in Hs.
  rewrite <- Z.lxor_lor.
  - symmetry. apply Z.add_nocarry_lxor. bits_ext i. simpl_bits. rewrite Z.bits_0.
    destruct (Z.eqb_spec i (fM F - 1)) as [->|]; [|apply andb_false_r]. rewrite andb_true_r.
    apply (f_equal (fun v => Z.testbit v 0)) in Hs. rewrite Z.land_spec, Z.shiftr_spec, andb_true_r in Hs by lia. exact Hs.
  - bits_ext i. simpl_bits. rewrite Z.bits_0.
    destruct (Z.eqb_spec i (fM F - 1)) as [->|]; [|apply andb_false_r]. rewrite andb_true_r.
    apply (f_equal (fun v => Z.testbit v 0)) in Hs. rewrite Z.land_spec, Z.shiftr_spec, andb_true_r in Hs by lia. exact Hs.
Qed.

Lemma gprocess_NaN_ok x dn flags : is_bits F x -> is_nan F x = true ->
  gprocess_NaN F x dn flags = (if dn then default_nan F else quieted F x, flags .| if is_snan F x then FPLIB_IOC else 0).
Proof.
  intros Hx Hn. unfold gprocess_NaN. rewrite quiet_bit, default_nan_pack by done.
  assert (is_snan F x = (frac_of F x <? 2 ^ (fM F - 1))) as Hs by now rewrite is_snan_fields, Hn. rewrite <- Hs.
  destruct (is_snan F x) eqn:Es; [now rewrite quieted_lor|]. unfold quieted. now rewrite Es, Z.lor_0_r.
Qed.

Lemma snan_is_nan x : is_snan F x = true -> is_nan F x = true.
Proof. rewrite is_snan_fields. intros [? _]%andb_true_iff. done. Qed.

Lemma chosen_nan_Some ops a : chosen_nan F ops = Some a -> a ∈ ops /\ is_nan F a = true.
Proof.
  unfold chosen_nan. destruct (find (is_snan F) ops) eqn:E.
  - intros [= ->]. apply find_some in E as [? ?]. rewrite list_elem_of_In. auto using snan_is_nan.
  - intros E'. apply find_some in E' as [? ?]. now rewrite list_elem_of_In.
Qed.

Lemma chosen_nan_None ops : chosen_nan F ops = None <-> forall a, a ∈ ops -> is_nan F a = false.
Proof.
  unfold chosen_nan. split.
  - intros H a Ha%list_elem_of_In. destruct (find (is_snan F) ops) eqn:E; [done|].
    apply (find_none _ _ H _ Ha).
  - intros H. destruct (find (is_snan F) ops) eqn:E.
    + apply find_some in E as [Hi Hs%snan_is_nan]. rewrite H in Hs by now apply list_elem_of_In. done.
    + destruct (find (is_nan F) ops) eqn:E'; [|done]. apply find_some in E' as [Hi Hs].
      rewrite H in Hs by now apply list_elem_of_In. done.
Qed.

Lemma find_gsnan ops : Forall (is_bits F) ops -> find (gsnan F) ops = find (is_snan F) ops /\ find (gnan F) ops = find (is_nan F) ops.
Proof.
  induction 1 as [|x l Hx Hl [IH1 IH2]]; [done|]. cbn [find]. now rewrite gsnan_ok, gnan_ok, IH1, IH2.
Qed.

Lemma quieted_ok x : is_bits F x -> is_nan F x = true -> is_bits F (quieted F x) /\ quieted F x <> 0.
Proof.
  intros Hx Hn. destruct (is_fields x Hx) as (E & He & Hf). unfold quieted. destruct (is_snan F x) eqn:Hs.
  - rewrite is_snan_fields, Hn in Hs. apply Z.ltb_lt in Hs. rewrite E at 1 2.
    replace (fields F (sign_of F x) (exp_of F x) (frac_of F x) + 2 ^ (fM F - 1)) with (fields F (sign_of F x) (exp_of F x) (frac_of F x + 2 ^ (fM F - 1))) by (unfold fields; lia).
    assert (2 ^ fM F = 2 * 2 ^ (fM F - 1)) by (rewrite <- Z.pow_succ_r by lia; f_equal; lia).
    split; [apply fields_range; lia|]. unfold fields. pose proof (pow2_pos (fE F + fM F) ltac:(lia)). pose proof (pow2_pos (fM F) ltac:(lia)).
    destruct (sign_of F x); cbn [Z.b2z]; nia.
  - split; [done|]. rewrite is_nan_fields in Hn. apply andb_true_iff in Hn as [_ Hn]. intros ->.
    unfold frac_of in Hn. rewrite Z.mod_0_l in Hn; [done|]. pose proof (pow2_pos (fM F)). lia.
Qed.

(** What the code does about NaNs: the result of the chosen one, or zero. *)
Lemma gprocess_NaNs_ok ops dn flags : Forall (is_bits F) ops ->
  match chosen_nan F ops with
  | Some a => exists x, gprocess_NaNs F ops dn flags = (x, flags .| if is_snan F a then FPLIB_IOC else 0) /\
      x = (if dn then default_nan F else quieted F a) /\ truth x = true /\ is_bits F x
  | None => gprocess_NaNs F ops dn flags = (0, flags)
  end.
Proof.
  intros Ho. destruct (chosen_nan F ops) as [a|] eqn:E.
  - destruct (chosen_nan_Some ops a E) as [Ha Hn]. rewrite Forall_forall in Ho. pose proof (Ho a Ha) as Hb.
    exists (if dn then default_nan F else quieted F a). rewrite truth_true. destruct (quieted_ok a Hb Hn). destruct default_nan_ok.
    split; [|destruct dn; done]. rewrite <- gprocess_NaN_ok by done. rewrite <- Forall_forall in Ho. destruct (find_gsnan ops Ho) as [E1 E2].
    unfold gprocess_NaNs. rewrite E1, E2. unfold chosen_nan in E. destruct (find (is_snan F) ops); [now simplify_eq|now rewrite E].
  - destruct (find_gsnan ops Ho) as [E1 E2]. unfold gprocess_NaNs. rewrite E1, E2. unfold chosen_nan in E.
    destruct (find (is_snan F) ops); [done|now rewrite E].
Qed.

End fields.
