(* ===== verification/FpRound.v ===== *)
(** * Floating-point numbers: rounding

    The functions [fp16_round_], [fp32_round_] and [fp64_round_] round correctly.  An
    integer may stand for a real number that it is not equal to, as long as both lie
    between the same two multiples of a power of two: this is what the sticky bits
    of the code maintain. *)
From Stdlib Require Import Reals Lra.
From S2P Require Import Prelude FplibCore FpSpec FpBits FpFields.

(** ** Definitions *)

(** [X] stands for [v]: they are equal, or strictly between the same multiples of [2 ^ d]. *)
Definition same (d X : Z) (v : R) : Prop :=
  v = IZR X \/ exists q, q * 2 ^ d < X < (q + 1) * 2 ^ d /\ (IZR (q * 2 ^ d) < v < IZR ((q + 1) * 2 ^ d))%R.

(** The rounding of the code at a format; [K] bits are tested for the sticky bit. *)
Definition ground (F : format) (K : Z) (sgn exp mnt rm : Z) (fz : bool) (flags : Z) : result (Z * Z) :=
  let* _ := assert_ (negb (rm =? FPRounding_TIEAWAY)) in
  if fz && (exp <? 1) then Ok (gpack F sgn 0 0, flags .| FPLIB_UFC)
  else
    let mnt := (1 ≪ (fM F + 2)) .| (mnt ≫ (fW F - fM F - 2)) .| Z.b2z (negb (mnt .& (2 ^ K - 1) =? 0)) in
    let '(biased_exp, int_mant, error) :=
      if 0 <? exp then (exp, mnt ≫ 2, mnt .& 3)
      else (0, lsrW (fW F) mnt (3 - exp), (lsrW (fW F) mnt (1 - exp) .& 3) .| nz (mnt .& wrap (fW F) (lslW (fW F) 1 (1 - exp) - 1))) in
    let flags := if (biased_exp =? 0) && truth error then flags .| FPLIB_UFC else flags in
    let '(biased_exp, int_mant) :=
      if ((rm =? FPLIB_RN) && ((error =? 3) || ((error =? 2) && truth (int_mant .& 1)))) ||
         ((((rm =? FPLIB_RP) && (sgn =? 0)) || ((rm =? FPLIB_RM) && truth sgn)) && truth error)
      then
        let int_mant := wrap (fW F) (int_mant + 1) in
        let biased_exp := if int_mant =? 1 ≪ fM F then 1 else biased_exp in
        if int_mant =? 1 ≪ (fM F + 1) then (biased_exp + 1, int_mant ≫ 1) else (biased_exp, int_mant)
      else (biased_exp, int_mant) in
    let int_mant := if truth error && (rm =? FPRounding_ODD) then int_mant .| 1 else int_mant in
    if emax F <=? biased_exp then
      if ieee F then
        Ok (if (rm =? FPLIB_RN) || ((rm =? FPLIB_RP) && (sgn =? 0)) || ((rm =? FPLIB_RM) && truth sgn)
            then gpack F sgn (2 ^ fE F - 1) 0 else gpack F sgn (emax F - 1) (-1),
            flags .| (FPLIB_OFC .| FPLIB_IXC))
      else Ok (gpack F sgn (emax F - 1) (-1), flags .| FPLIB_IOC)
    else Ok (gpack F sgn biased_exp int_mant, if truth error then flags .| FPLIB_IXC else flags).

Definition rmode_of (rm : Z) : rmode :=
  if rm =? FPRounding_TIEEVEN then RNE else if rm =? FPRounding_POSINF then RUP
  else if rm =? FPRounding_NEGINF then RDN else if rm =? FPRounding_ZERO then RTZ
  else if rm =? FPRounding_TIEAWAY then RNA else ROD.

(** The magnitude the code rounds [Y / 4] to. *)
Definition next_mant (rm : Z) (s : bool) (Y : Z) : Z :=
  if ((rm =? FPLIB_RN) && ((Y mod 4 =? 3) || ((Y mod 4 =? 2) && Z.odd (Y / 4)))) ||
     ((((rm =? FPLIB_RP) && negb s) || ((rm =? FPLIB_RM) && s)) && truth (Y mod 4))
  then Y / 4 + 1
  else if truth (Y mod 4) && (rm =? FPRounding_ODD) then Y / 4 .| 1 else Y / 4.

(** ** The code is an instance *)

Lemma round16 sgn exp mnt rm mode flags :
  fp16_round_ sgn exp mnt rm mode flags = ground (if mode .& FPLIB_AHP =? 0 then F16 else F16alt) 5 sgn exp mnt rm false flags.
Proof. unfold fp16_round_. destruct (mode .& FPLIB_AHP =? 0); reflexivity. Qed.

Lemma round32 sgn exp mnt rm mode flags :
  fp32_round_ sgn exp mnt rm mode flags = ground F32 8 sgn exp mnt rm (mode_fz mode) flags.
Proof. reflexivity. Qed.

Lemma round64 sgn exp mnt rm mode flags :
  fp64_round_ sgn exp mnt rm mode flags = ground F64 10 sgn exp mnt rm (mode_fz mode) flags.
Proof. reflexivity. Qed.

(** ** Powers of two *)

Lemma bpow_pos e : (0 < bpow e)%R.
Proof. apply powerRZ_lt. lra. Qed.

Lemma bpow_add a b : bpow (a + b) = (bpow a * bpow b)%R.
Proof. apply powerRZ_add. lra. Qed.

Lemma bpow_IZR n : 0 <= n -> bpow n = IZR (2 ^ n).
Proof. intros Hn. unfold bpow. rewrite <- (Z2Nat.id n) by done. now rewrite <- pow_powerRZ, pow_IZR. Qed.

Lemma bpow_0 : bpow 0 = 1%R.
Proof. done. Qed.

Lemma bpow_opp e : (bpow e * bpow (- e) = 1)%R.
Proof. rewrite <- bpow_add. now replace (e + - e) with 0 by lia. Qed.

Lemma bpow_le a b : a <= b -> (bpow a <= bpow b)%R.
Proof.
  intros. replace b with (a + (b - a)) by lia. rewrite bpow_add, (bpow_IZR (b - a)) by lia.
  pose proof (bpow_pos a). pose proof (IZR_le 1 (2 ^ (b - a)) ltac:(pose proof (pow2_pos (b - a)); lia)). nra.
Qed.

Lemma bpow_lt a b : a < b -> (bpow a < bpow b)%R.
Proof.
  intros. apply (Rlt_le_trans _ (bpow (a + 1))); [|apply bpow_le; lia].
  rewrite bpow_add, (bpow_IZR 1) by lia. pose proof (bpow_pos a). cbn. lra.
Qed.

Lemma bpow_div v e : (v / bpow e)%R = (v * bpow (- e))%R.
Proof.
  pose proof (bpow_pos e). unfold Rdiv. f_equal. apply (Rmult_eq_reg_l (bpow e)); [|lra].
  rewrite bpow_opp. apply Rinv_r. lra.
Qed.

(** Scaling an inequality. *)
Lemma bpow_scale_lt e x y : (x < y)%R <-> (x * bpow e < y * bpow e)%R.
Proof. pose proof (bpow_pos e). split; intros; nra. Qed.

Lemma IZR_scale x n : 0 <= n -> IZR (x * 2 ^ n) = (IZR x * bpow n)%R.
Proof. intros. now rewrite mult_IZR, bpow_IZR. Qed.

(** ** Standing for a real number *)

Lemma same_exact d X : same d X (IZR X).
Proof. now left. Qed.

Lemma same_shl d z X v : 0 <= d -> 0 <= z -> same d X v -> same (d + z) (X * 2 ^ z) (v * bpow z).
Proof.
  intros Hd Hz [->|(q & HX & Hv)]; [left; now rewrite IZR_scale|right].
  exists q. pose proof (pow2_pos z Hz). rewrite pow2_split, !Z.mul_assoc by lia. split; [nia|].
  rewrite !(IZR_scale (_ * 2 ^ d)) by done. now rewrite <- !bpow_scale_lt.
Qed.

Lemma same_mono d d' X v : 0 <= d <= d' -> same d X v -> same d' X v.
Proof.
  intros Hd [->|(q & HX & Hv)]; [now left|right]. exists (q / 2 ^ (d' - d)).
  assert (2 ^ d' = 2 ^ (d' - d) * 2 ^ d) as -> by (rewrite <- pow2_split by lia; f_equal; lia).
  set (p := 2 ^ (d' - d)). pose proof (pow2_pos (d' - d) ltac:(lia)) as P. fold p in P.
  pose proof (Z.div_mod q p ltac:(lia)). pose proof (Z.mod_pos_bound q p P). pose proof (pow2_pos d ltac:(lia)).
  assert (q / p * (p * 2 ^ d) <= q * 2 ^ d) by nia. assert ((q + 1) * 2 ^ d <= (q / p + 1) * (p * 2 ^ d)) by nia.
  split; [lia|]. split; [eapply Rle_lt_trans; [|apply Hv]|eapply Rlt_le_trans; [apply Hv|]]; now apply IZR_le.
Qed.

(** Two numbers on the same side of a multiple of [2 ^ d]. *)
Lemma same_lt d X v k : 0 <= d -> same d X v -> X < k * 2 ^ d <-> (v < IZR (k * 2 ^ d))%R.
Proof.
  intros Hd [->|(q & HX & Hv)]; [split; [apply IZR_lt|apply lt_IZR]|]. pose proof (pow2_pos d Hd).
  destruct (Z_lt_le_dec q k).
  - assert ((q + 1) * 2 ^ d <= k * 2 ^ d) as Hk by nia. split; [|nia]. intros _. apply IZR_le in Hk. lra.
  - assert (k * 2 ^ d <= q * 2 ^ d) as Hk by nia. split; [nia|]. apply IZR_le in Hk. lra.
Qed.

Lemma same_le d X v k : 0 <= d -> same d X v -> k * 2 ^ d <= X <-> (IZR (k * 2 ^ d) <= v)%R.
Proof.
  intros Hd Hs. pose proof (same_lt d X v k Hd Hs) as H. split.
  - intros ?. apply Rnot_lt_le. rewrite <- H. lia.
  - intros ?%Rle_not_lt. rewrite <- H in *. lia.
Qed.

Lemma same_add d A B v : 0 <= d -> (2 ^ d | A) -> same d B v -> same d (A + B) (IZR A + v).
Proof.
  intros Hd [k ->] [->|(q & HB & Hv)]; [left; now rewrite plus_IZR|right].
  exists (k + q). rewrite !Z.mul_add_distr_r in *. rewrite !plus_IZR in *. split; [lia|lra].
Qed.

Lemma same_opp d B v : same d B v -> same d (- B) (- v).
Proof.
  intros [->|(q & HB & Hv)]; [left; now rewrite opp_IZR|right]. exists (- q - 1).
  replace ((- q - 1) * 2 ^ d) with (- ((q + 1) * 2 ^ d)) by ring. replace ((- q - 1 + 1) * 2 ^ d) with (- (q * 2 ^ d)) by ring.
  rewrite !opp_IZR. split; [lia|lra].
Qed.

Lemma same_0 d v : 0 <= d -> same d 0 v -> v = 0%R.
Proof. intros Hd [->|(q & HB & _)]; [done|]. pose proof (pow2_pos d Hd). destruct (Z_lt_le_dec q 0); nia. Qed.

(** A sticky shift keeps what an integer stands for. *)
Lemma same_sr d n X v : 1 <= d -> 0 <= n -> same d X v -> same (Z.max 1 (d - n)) (sr X n) (v * bpow (- n)).
Proof.
  intros Hd Hn Hs. pose proof (pow2_pos n Hn) as Pn. pose proof (Z.div_mod X (2 ^ n) ltac:(lia)) as D.
  pose proof (Z.mod_pos_bound X (2 ^ n) Pn) as Dm.
  assert (forall k, IZR (k * 2 ^ n) * bpow (- n) = IZR k)%R as Hk.
  { intros k. rewrite IZR_scale, Rmult_assoc, bpow_opp by lia. lra. }
  destruct Hs as [->|(q & HX & Hv)].
  - destruct (sr_cases X n) as [[E ->]|[E ->]].
    + left. rewrite D at 1. now rewrite E, Z.add_0_r, Z.mul_comm, Hk.
    + apply (same_mono 1); [lia|]. right. exists (X / 2 ^ n / 2). change (2 ^ 1) with 2.
      set (h := X / 2 ^ n) in *. split; [lia|].
      rewrite <- (Hk (h / 2 * 2)), <- (Hk ((h / 2 + 1) * 2)). split; apply (proj1 (bpow_scale_lt _ _ _)), IZR_lt; clearbody h; Z.div_mod_to_equations; nia.
  - right. set (m := Z.max 1 (d - n)).
    assert (exists r, r * 2 ^ m * 2 ^ n <= q * 2 ^ d /\ (q + 1) * 2 ^ d <= (r + 1) * 2 ^ m * 2 ^ n) as (r & H1 & H2).
    { assert (2 ^ (m + n - d) * 2 ^ d = 2 ^ m * 2 ^ n) as E by (rewrite <- !pow2_split by lia; f_equal; lia).
      pose proof (pow2_pos (m + n - d) ltac:(lia)) as P. pose proof (pow2_pos d ltac:(lia)). set (p := 2 ^ (m + n - d)) in *.
      exists (q / p). rewrite <- !Z.mul_assoc, <- E.
      pose proof (Z.div_mod q p ltac:(lia)). pose proof (Z.mod_pos_bound q p P). clearbody p. nia. }
    exists r. split.
    + assert (2 ^ m = 2 * 2 ^ (m - 1)) as Em by (rewrite <- Z.pow_succ_r by lia; f_equal; lia).
      assert (r * 2 ^ m <= X / 2 ^ n < (r + 1) * 2 ^ m).
      { split; [apply Z.div_le_lower_bound; nia|apply Z.div_lt_upper_bound; nia]. }
      destruct (sr_cases X n) as [[E ->]|[E ->]]; [nia|]. rewrite Em in *. Z.div_mod_to_equations; nia.
    + rewrite <- (Hk (r * 2 ^ m)), <- (Hk ((r + 1) * 2 ^ m)). split; apply (proj1 (bpow_scale_lt _ _ _)); [eapply Rle_lt_trans; [|apply Hv]|eapply Rlt_le_trans; [apply Hv|]]; now apply IZR_le.
Qed.

Lemma sr_exact n X : 0 <= n -> same 1 (sr X n) (IZR X * bpow (- n)).
Proof.
  intros. replace 1 with (Z.max 1 (1 - n)) at 1 by lia. apply same_sr; [lia|done|apply same_exact].
Qed.

(** ** Rounding to an integer *)

Lemma locate Y t : same 1 Y (4 * t) ->
  Y mod 4 = 0 /\ t = IZR (Y / 4) \/
  Y mod 4 = 1 /\ (IZR (Y / 4) < t < IZR (Y / 4) + / 2)%R \/
  Y mod 4 = 2 /\ (t = IZR (Y / 4) + / 2)%R \/
  Y mod 4 = 3 /\ (IZR (Y / 4) + / 2 < t < IZR (Y / 4) + 1)%R.
Proof.
  intros Hs. pose proof (Z.div_mod Y 4 ltac:(lia)) as D. pose proof (Z.mod_pos_bound Y 4 ltac:(lia)) as Hm.
  set (m := Y / 4) in *. set (e := Y mod 4) in *. clearbody m e. subst Y.
  destruct Hs as [Ht|(q & Hq & Ht)].
  - rewrite plus_IZR, mult_IZR in Ht.
    assert (e = 0 \/ e = 1 \/ e = 2 \/ e = 3) as [->|[->|[->| ->]]] by lia;
      [left|right; left|right; right; left|right; right; right]; (split; [done|lra]).
  - change (2 ^ 1) with 2 in *. assert (e = 1 \/ e = 3) as [->| ->] by lia.
    + replace q with (2 * m) in Ht by lia. rewrite !mult_IZR, plus_IZR, mult_IZR in Ht. right; left. split; [done|lra].
    + replace q with (2 * m + 1) in Ht by lia. rewrite !mult_IZR, !plus_IZR, mult_IZR in Ht. right; right; right. split; [done|lra].
Qed.

Lemma next_mant_ok rm s Y t : 0 <= rm <= 5 -> rm <> FPRounding_TIEAWAY -> same 1 Y (4 * t) ->
  rounds_int (rmode_of rm) s t (next_mant rm s Y) /\ (IZR (next_mant rm s Y) = t <-> Y mod 4 = 0) /\
  (next_mant rm s Y = Y / 4 \/ next_mant rm s Y = Y / 4 + 1 \/ next_mant rm s Y = 2 * (Y / 4 / 2) + 1).
Proof.
  unfold FPRounding_TIEAWAY. intros Hr Hr4 Hs%locate. unfold next_mant. rewrite lor_1. set (m := Y / 4) in *. clearbody m.
  assert (IZR (2 * (m / 2) + 1) = if Z.odd m then IZR m else IZR m + 1)%R as Ho.
  { pose proof (f_equal IZR (Z.div2_odd m)) as D. rewrite Z.div2_div, plus_IZR, mult_IZR in D. rewrite plus_IZR, mult_IZR.
    destruct (Z.odd m); cbn [Z.b2z] in D; lra. }
  assert (Z.odd (2 * (m / 2) + 1) = true) as Hodd.
  { rewrite Z.add_comm, Z.odd_add_mul_2. done. }
  assert (Z.odd (m + 1) = negb (Z.odd m)) as Hm1 by now rewrite Z.add_1_r, Z.odd_succ, <- Z.negb_odd.
  assert (Z.even m = negb (Z.odd m)) as Hme by now rewrite Z.negb_odd.
  assert (Z.even (m + 1) = Z.odd m) as Hme1 by now rewrite <- Z.negb_odd, Hm1, negb_involutive.
  assert (rm = 0 \/ rm = 1 \/ rm = 2 \/ rm = 3 \/ rm = 5) as Hrm by lia.
  destruct Hs as [[-> Ht]|[[-> Ht]|[[-> Ht]|[-> Ht]]]]; destruct Hrm as [->|[->|[->|[->| ->]]]]; destruct s;
    cbn -[Z.mul Z.div Z.add IZR]; rewrite ?andb_false_r, ?andb_true_r, ?orb_false_r; cbn -[Z.mul Z.div Z.add IZR Z.odd Z.even];
    try (destruct (Z.odd m) eqn:Em); rewrite ?Hodd, ?Ho, ?plus_IZR;
    (split; [|split; [|auto]]); unfold Rabs; repeat destruct Rcase_abs;
    try (split; [intros; try done; exfalso; lra|intros; try done; lra]);
    try (split; [lra|intros; rewrite ?Hme, ?Hme1, ?Em; try done; exfalso; lra]);
    try lra; try (left; lra); try (right; split; [lra|done]).
Qed.

(** ** Rounding to a format *)

Lemma sr_div4 x n : sr x n / 4 = x / 2 ^ n / 4 /\ sr x n mod 4 = ((x / 2 ^ n) .& 3) .| nz (x mod 2 ^ n).
Proof.
  unfold sr. change 4 with (2 ^ 2) at 1 2 3. rewrite <- (land_mask _ 2), <- !(Z.shiftr_div_pow2 _ 2), Z.shiftr_lor, Z.land_lor_distr_l by lia.
  change (2 ^ 2 - 1) with 3. destruct (nz_01 (x mod 2 ^ n)) as [[-> _]|[-> _]]; change (0 ≫ 2) with 0; change (1 ≫ 2) with 0; now rewrite Z.lor_0_r.
Qed.

Section ground.
Context (F : format) {VF : Valid F}.

Let HM : 2 <= fM F := valid_M.
Let HE : 2 <= fE F := valid_E.

(** How many bits rounding drops. *)
Definition drop (exp : Z) : Z := fE F - 1 + Z.max 0 (1 - exp).

Lemma round_sticky K mnt : K = fE F - 1 \/ K = fE F -> 0 <= mnt < 2 ^ fW F ->
  (1 ≪ (fM F + 2)) .| (mnt ≫ (fW F - fM F - 2)) .| Z.b2z (negb (mnt .& (2 ^ K - 1) =? 0)) = sr (2 ^ fW F + mnt) (fE F - 1).
Proof.
  intros HK Hm. replace (fW F - fM F - 2) with (fE F - 1) by (unfold fW; lia). set (n := fE F - 1) in *.
  assert (2 ^ fW F = 2 ^ (fM F + 2) * 2 ^ n) as E by (rewrite <- pow2_split by lia; f_equal; unfold fW; lia).
  pose proof (pow2_pos n ltac:(lia)) as P. pose proof (pow2_pos (fM F + 2) ltac:(lia)).
  unfold sr. rewrite Z.shiftr_div_pow2, Z.shiftl_1_l, land_mask, E by lia.
  rewrite Z.div_add_l, (Z.add_comm (_ * _)), Z.mod_add by lia.
  replace (2 ^ (fM F + 2) .| mnt / 2 ^ n) with (2 ^ (fM F + 2) + mnt / 2 ^ n).
  2: { symmetry. rewrite <- (Z.mul_1_l (2 ^ (fM F + 2))), lor_add; [done|lia|].
       split; [apply Z.div_pos; lia|apply Z.div_lt_upper_bound; lia]. }
  destruct HK as [->| ->]; [done|].
  assert (2 ^ fE F = 2 ^ n * 2) as -> by (change 2 with (2 ^ 1) at 3; rewrite <- pow2_split by lia; f_equal; lia). rewrite Z.rem_mul_r by lia.
  set (a := 2 ^ (fM F + 2) + mnt / 2 ^ n). assert (Z.odd a = Z.odd (mnt / 2 ^ n)) as Ha.
  { unfold a. replace (fM F + 2) with (Z.succ (fM F + 1)) by lia. rewrite Z.pow_succ_r, Z.add_comm, Z.odd_add_mul_2 by lia. done. }
  rewrite Zmod_odd, <- Ha. pose proof (Z.mod_pos_bound mnt (2 ^ n) P).
  unfold nz. destruct (Z.odd a) eqn:Eo; [|now rewrite Z.mul_0_r, Z.add_0_r].
  rewrite (proj2 (Z.eqb_neq _ 0)) by lia. cbn [negb Z.b2z].
  assert (a .| 1 = a) as Ea. { rewrite lor_1. pose proof (Z.div2_odd a) as D. rewrite Eo, Z.div2_div in D. cbn [Z.b2z] in D. lia. }
  destruct (mnt mod 2 ^ n =? 0); cbn [negb Z.b2z]; [now rewrite Z.lor_0_r|done].
Qed.

(** The integral mantissa and the error. *)
Lemma round_parts exp Y1 : - 2 ^ 31 < exp -> 0 <= Y1 < 2 ^ fW F ->
  (if 0 <? exp then (exp, Y1 ≫ 2, Y1 .& 3)
   else (0, lsrW (fW F) Y1 (3 - exp), (lsrW (fW F) Y1 (1 - exp) .& 3) .| nz (Y1 .& wrap (fW F) (lslW (fW F) 1 (1 - exp) - 1)))) =
  (Z.max 0 exp, sr Y1 (Z.max 0 (1 - exp)) / 4, sr Y1 (Z.max 0 (1 - exp)) mod 4).
Proof.
  intros He HY. destruct (Z.ltb_spec 0 exp).
  - rewrite (Z.max_r 0 exp), (Z.max_l 0 (1 - exp)), sr_0 by lia. rewrite Z.shiftr_div_pow2 by lia. change 3 with (2 ^ 2 - 1). now rewrite land_mask.
  - rewrite (Z.max_l 0 exp), (Z.max_r 0) by lia. destruct (sr_div4 Y1 (1 - exp)) as [-> ->].
    rewrite !lsrW_div, lslW_mask by first [done|unfold fW; lia]. rewrite Z.div_div by (try apply pow2_pos; lia).
    change 4 with (2 ^ 2). rewrite <- pow2_split by lia. now replace (1 - exp + 2) with (3 - exp) by lia.
Qed.

(** The number packed after rounding, with a carry into the exponent. *)
Definition packed (e n be im : Z) : Prop :=
  0 <= be /\ (if be =? 0 then 0 <= im < 2 ^ fM F else 2 ^ fM F <= im < 2 ^ (fM F + 1)) /\
  (IZR im * bpow (Z.max 1 be) = IZR n * bpow (Z.max 1 e))%R /\ (e <= 0 -> be <= 1).

Lemma packed_keep e n : 0 <= e -> (if e =? 0 then 0 <= n < 2 ^ fM F else 2 ^ fM F <= n < 2 ^ (fM F + 1)) -> packed e n e n.
Proof. intros He Hn. repeat split; [done|done|lia]. Qed.

Lemma packed_carry e m : 0 <= e -> (if e =? 0 then 0 <= m < 2 ^ fM F else 2 ^ fM F <= m < 2 ^ (fM F + 1)) ->
  exists be im, packed e (m + 1) be im /\
  (let int_mant := wrap (fW F) (m + 1) in
   let biased_exp := if int_mant =? 1 ≪ fM F then 1 else e in
   if int_mant =? 1 ≪ (fM F + 1) then (biased_exp + 1, int_mant ≫ 1) else (biased_exp, int_mant)) = (be, im).
Proof.
  intros He Hm. cbv zeta. pose proof (pow2_pos (fM F) ltac:(lia)). assert (2 ^ (fM F + 1) = 2 * 2 ^ fM F) as E by (now rewrite Z.add_1_r, Z.pow_succ_r by lia).
  assert (2 * 2 ^ (fM F + 1) <= 2 ^ fW F).
  { rewrite <- Z.pow_succ_r by lia. apply pow2_le. unfold fW. lia. }
  rewrite wrap_small, !Z.shiftl_1_l by (unfold in_range; destruct (Z.eqb_spec e 0); lia).
  destruct (Z.eqb_spec (m + 1) (2 ^ (fM F + 1))) as [E1|E1]; [|destruct (Z.eqb_spec (m + 1) (2 ^ fM F)) as [E2|E2]].
  - destruct (Z.eqb_spec e 0); [lia|]. rewrite (proj2 (Z.eqb_neq (m + 1) (2 ^ fM F))) by lia. exists (e + 1), (2 ^ fM F).
    rewrite Z.shiftr_div_pow2 by lia. change (2 ^ 1) with 2. replace (m + 1) with (2 ^ fM F * 2) by lia. rewrite Z.div_mul by lia. split; [|done].
    split_and!; [lia| | |lia].
    + rewrite (proj2 (Z.eqb_neq (e + 1) 0)) by lia. lia.
    + rewrite !Z.max_r, bpow_add, mult_IZR by lia. rewrite (bpow_IZR 1) by lia. cbn. lra.
  - destruct (Z.eqb_spec e 0); [subst e|lia]. exists 1, (m + 1). split; [|done]. split_and!; [lia|cbn; lia|done|lia].
  - exists e, (m + 1). split; [|done]. apply packed_keep; [done|]. destruct (Z.eqb_spec e 0); lia.
Qed.

Lemma decode_greatest s :
  is_bits F (gpack F (Z.b2z s) (emax F - 1) (-1)) /\ decode F (gpack F (Z.b2z s) (emax F - 1) (-1)) = Num s (greatest F).
Proof.
  pose proof (emax_range F). assert (2 ^ (fM F + 1) = 2 * 2 ^ fM F) as E by (now rewrite Z.add_1_r, Z.pow_succ_r by lia).
  pose proof (pow2_pos (fM F) ltac:(lia)).
  assert (gpack F (Z.b2z s) (emax F - 1) (-1) = gpack F (Z.b2z s) (emax F - 1) (2 ^ (fM F + 1) - 1)) as ->.
  { rewrite !(gpack_fields F) by lia. f_equal. rewrite E, <- (Z.mod_add (-1) 2) by lia. f_equal. lia. }
  destruct (decode_pack F s (emax F - 1) (2 ^ (fM F + 1) - 1)) as [? ->]; [lia|rewrite (proj2 (Z.eqb_neq _ 0)); lia|].
  split; [done|]. f_equal. rewrite Z.max_r, minus_IZR, <- bpow_IZR by lia. unfold greatest.
  rewrite Rmult_minus_distr_r, <- bpow_add, Rmult_1_l. f_equal; f_equal; lia.
Qed.

Lemma to_infinity_code rm s : 0 <= rm <= 5 -> rm <> FPRounding_TIEAWAY ->
  (rm =? FPLIB_RN) || ((rm =? FPLIB_RP) && negb s) || ((rm =? FPLIB_RM) && s) = to_infinity (rmode_of rm) s.
Proof.
  unfold FPRounding_TIEAWAY. intros. assert (rm = 0 \/ rm = 1 \/ rm = 2 \/ rm = 3 \/ rm = 5) as [->|[->|[->|[->| ->]]]] by lia; now destruct s.
Qed.

(** The end of the function: overflow, or a number. *)
Lemma round_end rm s fz v n e be im err flags :
  0 <= rm <= 5 -> rm <> FPRounding_TIEAWAY -> 0 <= e ->
  quantum F v (Z.max 1 e - bias F - fM F) -> rounds_int (rmode_of rm) s (v / bpow (Z.max 1 e - bias F - fM F)) n ->
  (IZR n = v / bpow (Z.max 1 e - bias F - fM F) <-> err = 0%Z)%R -> (v < min_normal F <-> e = 0%Z)%R -> (fz = true -> e <> 0) ->
  packed e n be im ->
  exists x fl, (if emax F <=? be then
      if ieee F then
        Ok (if (rm =? FPLIB_RN) || ((rm =? FPLIB_RP) && negb s) || ((rm =? FPLIB_RM) && s)
            then gpack F (Z.b2z s) (2 ^ fE F - 1) 0 else gpack F (Z.b2z s) (emax F - 1) (-1),
            (if (e =? 0) && truth err then flags .| FPLIB_UFC else flags) .| (FPLIB_OFC .| FPLIB_IXC))
      else Ok (gpack F (Z.b2z s) (emax F - 1) (-1), (if (e =? 0) && truth err then flags .| FPLIB_UFC else flags) .| FPLIB_IOC)
    else Ok (gpack F (Z.b2z s) be im, if truth err then (if (e =? 0) && truth err then flags .| FPLIB_UFC else flags) .| FPLIB_IXC
                                      else if (e =? 0) && truth err then flags .| FPLIB_UFC else flags)) = Ok (x, flags .| fl) /\
    is_bits F x /\ rounded F fz (rmode_of rm) s v x fl.
Proof.
  intros Hrm Hrm4 He Hq Hr Hex Hmin Hfz (Hbe & Him & Heq & Hbe1). set (q := Z.max 1 e - bias F - fM F) in *.
  pose proof (emax_range F). rewrite to_infinity_code by done.
  assert (IZR im * bpow (Z.max 1 be - bias F - fM F) = IZR n * bpow q)%R as Hv.
  { unfold q, Z.sub. rewrite !bpow_add, <- !Rmult_assoc, Heq. done. }
  assert (fz && (if Rlt_dec v (min_normal F) then true else false) = false) as Hflush.
  { destruct fz; [|done]. destruct (Rlt_dec v (min_normal F)) as [Hl%Hmin|]; [now destruct (Hfz eq_refl)|done]. }
  unfold rounded. rewrite Hflush. destruct (Z.leb_spec (emax F) be).
  - assert ((e =? 0) = false) as -> by (apply Z.eqb_neq; lia). cbn [andb].
    assert (~ IZR n * bpow q < bpow (emax F - bias F))%R as Hov.
    { rewrite <- Hv. apply Rle_not_lt. destruct (Z.eqb_spec be 0); [lia|]. rewrite Z.max_r by lia.
      apply (Rle_trans _ (bpow (fM F) * bpow (be - bias F - fM F))).
      - rewrite <- bpow_add. apply bpow_le. lia.
      - apply Rmult_le_compat_r; [left; apply bpow_pos|]. rewrite bpow_IZR by lia. apply IZR_le. lia. }
    destruct (ieee F) eqn:Hi.
    + eexists _, _. split; [done|].
      destruct (to_infinity (rmode_of rm) s) eqn:Hto.
      * destruct (decode_infinity F s Hi). split; [done|]. exists (IZR n * bpow q)%R. split; [now exists q, n|].
        now destruct (Rlt_dec (IZR n * bpow q) _).
      * destruct (decode_greatest s). split; [done|]. exists (IZR n * bpow q)%R. split; [now exists q, n|].
        now destruct (Rlt_dec (IZR n * bpow q) _).
    + eexists _, _. split; [done|]. destruct (decode_greatest s). split; [done|].
      exists (IZR n * bpow q)%R. split; [now exists q, n|]. now destruct (Rlt_dec (IZR n * bpow q) _).
  - destruct (decode_pack F s be im) as [Hb Hd]; [lia|done|].
    assert (IZR n * bpow q < bpow (emax F - bias F))%R as Hov.
    { rewrite <- Hv. apply (Rlt_le_trans _ (bpow (fM F + 1) * bpow (Z.max 1 be - bias F - fM F))).
      - apply Rmult_lt_compat_r; [apply bpow_pos|]. rewrite bpow_IZR by lia. apply IZR_lt.
        pose proof (pow2_lt (fM F) (fM F + 1)). destruct (be =? 0); lia.
      - rewrite <- bpow_add. apply bpow_le. lia. }
    assert (IZR n * bpow q = v <-> err = 0%Z)%R as Hinexact.
    { rewrite <- Hex, bpow_div. pose proof (bpow_opp q) as Ho. split; [intros <-|intros ->].
      - rewrite Rmult_assoc, Ho. lra.
      - rewrite Rmult_assoc, (Rmult_comm (bpow (- q))), Ho. lra. }
    exists (gpack F (Z.b2z s) be im), (if truth err then if e =? 0 then FPLIB_UFC .| FPLIB_IXC else FPLIB_IXC else 0). split_and!.
    + destruct (truth err), (e =? 0); cbn [andb]; rewrite ?Z.lor_0_r, ?Z.lor_assoc; done.
    + done.
    + exists (IZR n * bpow q)%R. split; [now exists q, n|]. destruct (Rlt_dec (IZR n * bpow q) _) as [_|]; [|done].
      rewrite Hd, Hv. split; [done|]. destruct (Req_EM_T _ _) as [E%Hinexact|E]; [now rewrite E|].
      rewrite Hinexact, <- truth_true in E. rewrite E.
      destruct (Z.eqb_spec e 0), (Rlt_dec v (min_normal F)); naive_solver.
Qed.

(** What is rounded, as a multiple of the unit in the last place. *)
Lemma round_scale V exp :
  (4 * (V * bpow (exp - bias F - fW F) / bpow (Z.max 1 exp - bias F - fM F)) = V * bpow (- drop exp))%R.
Proof.
  rewrite bpow_div. replace 4%R with (bpow 2) by (rewrite bpow_IZR by lia; done).
  rewrite (Rmult_comm (bpow 2)), !Rmult_assoc, <- !bpow_add. do 2 f_equal. unfold drop, fW. lia.
Qed.

Lemma round_magnitude d V exp mnt : 0 <= d <= fW F -> same d (2 ^ fW F + mnt) V -> 0 <= mnt < 2 ^ fW F ->
  (bpow (exp - bias F) <= V * bpow (exp - bias F - fW F) < bpow (exp - bias F + 1))%R.
Proof.
  intros Hd Hs%(same_mono d (fW F)) Hm; [|lia]. pose proof (same_le (fW F) _ _ 1 ltac:(unfold fW; lia) Hs) as [H1 _].
  pose proof (same_lt (fW F) _ _ 2 ltac:(unfold fW; lia) Hs) as [H2 _]. specialize (H1 ltac:(lia)). specialize (H2 ltac:(lia)).
  assert (0 <= fW F) by (unfold fW; lia). rewrite IZR_scale in H1, H2 by done.
  pose proof (bpow_pos (exp - bias F - fW F)) as P.
  replace (exp - bias F + 1) with (1 + fW F + (exp - bias F - fW F)) by lia.
  replace (exp - bias F) with (fW F + (exp - bias F - fW F)) at 1 by lia. rewrite !bpow_add, (bpow_IZR 1) by lia.
  change (IZR (2 ^ 1)) with 2%R. split; nra.
Qed.

(** Every positive number has a binary exponent. *)
Lemma magnitude v h : (0 < v < bpow h)%R -> exists e, (bpow e <= v < bpow (e + 1))%R /\ e < h.
Proof.
  intros [Hv Hh]. assert (exists n : nat, (bpow (h - Z.of_nat n) <= v)%R) as [n Hn].
  { destruct (archimed (bpow h / v)) as [Hu _]. assert (0 < bpow h / v)%R as Hq by (apply Rdiv_lt_0_compat; [apply bpow_pos|done]).
    assert (0 < up (bpow h / v)) as Hup by (apply lt_IZR; lra). exists (Z.to_nat (up (bpow h / v))). rewrite Z2Nat.id by lia.
    set (N := up (bpow h / v)) in *. clearbody N. assert (bpow h / v < bpow N)%R as H.
    { rewrite (bpow_IZR N) by lia. apply (Rlt_trans _ (IZR N)); [done|]. apply IZR_lt, Z.pow_gt_lin_r; lia. }
    apply (Rmult_lt_compat_r v) in H; [|done]. unfold Rdiv in H. rewrite Rmult_assoc, Rinv_l, Rmult_1_r in H by lra.
    replace h with (N + (h - N)) in H by lia. rewrite bpow_add in H. pose proof (bpow_pos N). apply Rlt_le, (Rmult_lt_reg_l (bpow N)); lra. }
  revert h Hh Hn. induction n as [|n IH]; intros h Hh Hn; [rewrite Z.sub_0_r in Hn; lra|].
  destruct (Rle_lt_dec (bpow (h - 1)) v) as [Hl|Hl].
  - exists (h - 1). replace (h - 1 + 1) with h by lia. split; [done|lia].
  - destruct (IH (h - 1) Hl) as (e & He & ?); [|exists e; split; [done|lia]]. replace (h - 1 - Z.of_nat n) with (h - Z.of_nat (S n)) by lia. done.
Qed.

(** The unit in the last place of what is rounded, and whether it is below the normal numbers; when the
    exponent is below those of the normal numbers, the leading bit need not be known. *)
Lemma round_quantum d V exp mnt : 0 <= d -> d <= fW F \/ d = fW F + 1 /\ exp <= 0 -> same d (2 ^ fW F + mnt) V -> 0 <= mnt < 2 ^ fW F ->
  let v := (V * bpow (exp - bias F - fW F))%R in
  quantum F v (Z.max 1 (Z.max 0 exp) - bias F - fM F) /\ ((v < min_normal F)%R <-> Z.max 0 exp = 0).
Proof.
  intros Hd HdW Hs Hm v. destruct HdW as [HdW|[-> Hexp]].
  - destruct (round_magnitude d V exp mnt) as [Hlo Hhi]; [lia|done|done|]. fold v in Hlo, Hhi.
    split; [exists (exp - bias F); split; [done|lia]|]. unfold min_normal. split; intros Hv.
    + destruct (Z_lt_le_dec 0 exp); [|lia]. pose proof (bpow_le (1 - bias F) (exp - bias F) ltac:(lia)). lra.
    + pose proof (bpow_le (exp - bias F + 1) (1 - bias F) ltac:(lia)). lra.
  - pose proof (same_lt (fW F + 1) _ _ 1 ltac:(unfold fW; lia) Hs) as [H1 _]. pose proof (same_opp _ _ _ Hs) as Ho.
    pose proof (same_lt (fW F + 1) _ _ 0 ltac:(unfold fW; lia) Ho) as [H2 _]. rewrite Z.mul_1_l in H1. rewrite Z.mul_0_l in H2.
    pose proof (pow2_pos (fW F) ltac:(unfold fW; lia)). rewrite Z.add_1_r, Z.pow_succ_r in H1 by (unfold fW; lia).
    specialize (H1 ltac:(lia)). specialize (H2 ltac:(lia)). rewrite mult_IZR, <- bpow_IZR in H1 by (unfold fW; lia).
    pose proof (bpow_pos (exp - bias F - fW F)) as P.
    assert (0 < v < bpow (1 - bias F))%R as Hv.
    { unfold v. split; [nra|]. apply (Rlt_le_trans _ (bpow (exp - bias F + 1))); [|apply bpow_le; lia].
      replace (exp - bias F + 1) with (1 + fW F + (exp - bias F - fW F)) by lia. rewrite !bpow_add, (bpow_IZR 1) by lia.
      change (IZR (2 ^ 1)) with 2%R. nra. }
    split; [|unfold min_normal; split; [lia|tauto]]. destruct (magnitude _ _ Hv) as (e & He & Hlt). exists e. split; [done|lia].
Qed.

Lemma round_range Y mnt exp : 0 <= mnt < 2 ^ fW F -> Y = sr (2 ^ fW F + mnt) (drop exp) ->
  if Z.max 0 exp =? 0 then 0 <= Y / 4 < 2 ^ fM F else 2 ^ fM F <= Y / 4 < 2 ^ (fM F + 1).
Proof.
  intros Hm ->. pose proof (pow2_pos (fW F) ltac:(unfold fW; lia)).
  destruct (sr_div4 (2 ^ fW F + mnt) (drop exp)) as [-> _]. assert (0 <= drop exp) by (unfold drop; lia).
  rewrite Z.div_div by (try apply pow2_pos; lia). change 4 with (2 ^ 2). rewrite <- pow2_split by lia.
  pose proof (pow2_pos (drop exp + 2) ltac:(lia)). destruct (Z.eqb_spec (Z.max 0 exp) 0).
  - split; [apply Z.div_pos; lia|]. apply Z.div_lt_upper_bound; [lia|]. rewrite <- pow2_split by lia.
    apply (Z.lt_le_trans _ (2 ^ Z.succ (fW F))); [rewrite Z.pow_succ_r by (unfold fW; lia); lia|]. apply pow2_le. unfold drop, fW. lia.
  - assert (2 ^ fW F = 2 ^ (drop exp + 2) * 2 ^ fM F) as E by (rewrite <- pow2_split by lia; f_equal; unfold fW, drop; lia).
    rewrite Z.add_1_r, Z.pow_succ_r by lia. split; [apply Z.div_le_lower_bound|apply Z.div_lt_upper_bound]; lia.
Qed.

(** The rounding of the code is correct. *)
Lemma ground_ok K s exp mnt rm fz flags d V : K = fE F - 1 \/ K = fE F -> 0 <= rm <= 5 -> rm <> FPRounding_TIEAWAY ->
  - 2 ^ 31 < exp -> 0 <= mnt < 2 ^ fW F -> 1 <= d <= drop exp + 1 -> d <= fW F \/ d = fW F + 1 /\ exp <= 0 -> same d (2 ^ fW F + mnt) V ->
  exists x fl, ground F K (Z.b2z s) exp mnt rm fz flags = Ok (x, flags .| fl) /\ is_bits F x /\
    rounded F fz (rmode_of rm) s (V * bpow (exp - bias F - fW F)) x fl.
Proof.
  intros HK Hrm Hrm4 Hexp Hm Hd HdW Hs. set (v := (V * bpow (exp - bias F - fW F))%R).
  destruct (round_quantum d V exp mnt) as [Hq Hmin]; [lia|done..|]. fold v in Hq, Hmin.
  unfold ground. rewrite (proj2 (Z.eqb_neq rm _) Hrm4). cbn [negb assert_ rbind].
  destruct (fz && (exp <? 1)) eqn:Hfz.
  { apply andb_true_iff in Hfz as [-> He%Z.ltb_lt]. destruct (decode_zero F s) as [Hb Hz].
    exists (gpack F (Z.b2z s) 0 0), FPLIB_UFC. split; [done|]. split; [done|]. unfold rounded.
    destruct (Rlt_dec v (min_normal F)) as [|Hn]; [done|]. destruct Hn. apply Hmin. lia. }
  rewrite (round_sticky K mnt HK Hm), (round_parts exp).
  2: done.
  2: { pose proof (sr_range (2 ^ fW F + mnt) (fE F - 1) (fW F) ltac:(unfold fW; lia)) as Hr.
       rewrite Z.add_1_r, Z.pow_succ_r in Hr by (unfold fW; lia). specialize (Hr ltac:(lia)).
       pose proof (pow2_le (Z.succ (fW F) - (fE F - 1)) (fW F) ltac:(lia)). lia. }
  rewrite sr_sr by lia. fold (drop exp). set (Y := sr (2 ^ fW F + mnt) (drop exp)).
  pose proof (round_range Y mnt exp Hm eq_refl) as HY.
  assert (same 1 Y (4 * (v / bpow (Z.max 1 (Z.max 0 exp) - bias F - fM F)))) as HsY.
  { replace (Z.max 1 (Z.max 0 exp)) with (Z.max 1 exp) by lia. unfold v. rewrite round_scale.
    replace 1 with (Z.max 1 (d - drop exp)) by lia. apply same_sr; [lia|unfold drop; lia|done]. }
  destruct (next_mant_ok rm s Y _ Hrm Hrm4 HsY) as (Hround & Hexact & _).
  assert (truth (Y / 4 .& 1) = Z.odd (Y / 4)) as Hodd.
  { unfold truth. change 1 with (2 ^ 1 - 1) at 1. rewrite land_mask, Zmod_odd by lia. now destruct (Z.odd (Y / 4)). }
  assert ((Z.b2z s =? 0) = negb s) as Hs0 by now destruct s.
  assert (truth (Z.b2z s) = s) as Hs1 by now destruct s.
  pose proof (fun n be im => round_end rm s fz v n (Z.max 0 exp) be im (Y mod 4) flags Hrm Hrm4 ltac:(lia) Hq) as Hend.
  assert (fz = true -> Z.max 0 exp <> 0) as Hfz' by (intros ->; apply Z.ltb_ge in Hfz; lia).
  rewrite Hodd, !Hs0, !Hs1. unfold next_mant in Hround, Hexact.
  destruct (((rm =? FPLIB_RN) && _) || _) eqn:Hinc.
  - destruct (packed_carry (Z.max 0 exp) (Y / 4) ltac:(lia) HY) as (be & im & Hp & Hc).
    cbv zeta in Hc |- *. rewrite Hc.
    assert (truth (Y mod 4) && (rm =? FPRounding_ODD) = false) as ->.
    { destruct (Z.eqb_spec rm FPRounding_ODD) as [->|]; [|apply andb_false_r]. destruct s; discriminate Hinc. }
    apply (Hend (Y / 4 + 1)); done.
  - apply (Hend (if truth (Y mod 4) && (rm =? FPRounding_ODD) then Y / 4 .| 1 else Y / 4)); try done. clear Hround Hexact Hend Hinc Hodd. destruct (truth (Y mod 4) && (rm =? FPRounding_ODD)); apply packed_keep; try done; try lia.
    rewrite lor_1. generalize dependent (Y / 4). intros m HY.
    assert (2 ^ fM F = 2 * 2 ^ (fM F - 1)) as E by (rewrite <- Z.pow_succ_r by lia; f_equal; lia).
    assert (2 ^ (fM F + 1) = 2 * (2 * 2 ^ (fM F - 1))) as E' by (rewrite <- E, <- Z.pow_succ_r by lia; f_equal; lia).
    rewrite E, E' in *. clear -HY. generalize dependent (2 ^ (fM F - 1)). intros p. destruct (Z.max 0 exp =? 0); intros; divlia.
Qed.

End ground.
