(* ===== verification/FpOps.v ===== *)
(** * Floating-point operations: what they share

    Every operation unpacks its operands, looks for NaNs, treats infinities and
    zeroes, computes an integer that stands for the exact result, and rounds. *)
From Stdlib Require Import Reals Lra.
From S2P Require Import Prelude FplibCore Fplib FpSpec FpBits FpFields FpRound.

(** ** Definitions *)

(** The format a template is specialised to. *)
Definition fmt (T : fpT) : format := match T with T32 => F32 | T64 => F64 end.

(** The rounding mode of the mode argument. *)
Definition mode_rm (mode : Z) : rmode := rmode_of (mode .& 3).

(** [r] is the result of an operation on [ops] whose exact result is [o], the
    exceptions added to [flags]. *)
Definition op_ok (F : format) (mode : Z) (ops : list Z) (o : exact) (flags : Z) (r : result (Z * Z)) : Prop :=
  exists x fl, r = Ok (x, flags .| fl) /\ computes F (mode_fz mode) (mode_dn mode) (mode_rm mode) ops o x fl.

Definition delivered (F : format) (mode : Z) (o : exact) (flags : Z) (r : result (Z * Z)) : Prop :=
  exists x fl, r = Ok (x, flags .| fl) /\ is_bits F x /\ delivers F (mode_fz mode) (mode_rm mode) o x fl.

(** The code at a format of 32 or 64 bits, and the bits its rounding tests. *)
Definition grnd (F : format) (K : Z) (sgn exp mnt mode flags : Z) : result (Z * Z) :=
  ground F K sgn exp mnt (mode .& 3) (mode_fz mode) flags.

(** The exceptions of the library are bits of the register. *)
Definition flag_bits (fl : Z) : Prop := fl .& 0x9F = fl.

Ltac all_bits := repeat (apply Forall_cons_2; [done|]); apply Forall_nil_2.

(** ** The status register *)

Section register.
Context (fpscr : Z) (Hf : in_range 32 fpscr).

Lemma modeConv_val : modeConv fpscr = (fpscr / 2 ^ 22) mod 16.
Proof.
  unfold modeConv. change 0xF with (2 ^ 4 - 1). rewrite land_mask, Z.shiftr_div_pow2 by lia.
  unfold swrap, in_range in *. change (32 - 1) with 31. change (2 ^ 4) with 16. divlia.
Qed.

Lemma modeConv_range : 0 <= modeConv fpscr < 16.
Proof. rewrite modeConv_val. apply Z.mod_pos_bound. lia. Qed.

Lemma mode_rm_conv : mode_rm (modeConv fpscr) = ctl_rm fpscr.
Proof.
  unfold mode_rm, ctl_rm. change 3 with (2 ^ 2 - 1). rewrite modeConv_val, land_mask by lia. change (2 ^ 2) with 4.
  replace (((fpscr / 2 ^ 22) mod 16) mod 4) with ((fpscr / 2 ^ 22) mod 4) by divlia.
  pose proof (Z.mod_pos_bound (fpscr / 2 ^ 22) 4 ltac:(lia)). set (r := (fpscr / 2 ^ 22) mod 4) in *. clearbody r.
  assert (r = 0 \/ r = 1 \/ r = 2 \/ r = 3) as [->|[->|[->| ->]]] by lia; done.
Qed.

Lemma truth_land x n : 0 <= n -> truth (x .& 2 ^ n) = Z.testbit x n.
Proof.
  intros. unfold truth. destruct (Z.testbit x n) eqn:E.
  - rewrite (proj2 (Z.eqb_neq _ 0)); [done|]. intros H0. apply (f_equal (fun v => Z.testbit v n)) in H0.
    rewrite Z.land_spec, pow2_testbit, Z.eqb_refl, E, Z.bits_0 in H0 by lia. discriminate H0.
  - replace (x .& 2 ^ n) with 0; [done|]. bits_ext i. simpl_bits. rewrite Z.bits_0.
    destruct (Z.eqb_spec i n) as [->|]; [now rewrite E|now rewrite andb_false_r].
Qed.

Lemma mode_fz_conv : mode_fz (modeConv fpscr) = ctl_fz fpscr.
Proof.
  unfold mode_fz, ctl_fz. change FPLIB_FZ with (2 ^ 2). rewrite truth_land, modeConv_val by lia.
  change 16 with (2 ^ 4). rewrite Z.mod_pow2_bits_low, <- Z.shiftr_div_pow2, Z.shiftr_spec by lia.
  rewrite <- Z.shiftr_div_pow2, <- Z.bit0_odd, Z.shiftr_spec by lia. done.
Qed.

Lemma mode_dn_conv : mode_dn (modeConv fpscr) = ctl_dn fpscr.
Proof.
  unfold mode_dn, ctl_dn. change FPLIB_DN with (2 ^ 3). rewrite truth_land, modeConv_val by lia.
  change 16 with (2 ^ 4). rewrite Z.mod_pow2_bits_low, <- Z.shiftr_div_pow2, Z.shiftr_spec by lia.
  rewrite <- Z.shiftr_div_pow2, <- Z.bit0_odd, Z.shiftr_spec by lia. done.
Qed.

End register.

(** The exceptions end up in the register. *)
Lemma set_fpscr0_ok fpscr fl : flag_bits fl -> set_fpscr0 fpscr fl = fpscr .| fl.
Proof.
  intros H. unfold set_fpscr0. assert (forall c k, 0 <= k -> (if truth (fl .& 2 ^ k) then c .| (1 ≪ k) else c) = c .| (fl .& 2 ^ k)) as Hk.
  { intros c k Hk.
    rewrite truth_land, Z.shiftl_1_l by lia. destruct (Z.testbit fl k) eqn:E; [f_equal|rewrite <- (Z.lor_0_r c) at 1; f_equal];
    bits_ext i; simpl_bits; rewrite ?Z.bits_0; destruct (Z.eqb_spec i k) as [->|]; rewrite ?E, ?andb_false_r; done. }
  change FPLIB_IDC with (2 ^ 7). change FPLIB_IOC with (2 ^ 0). change FPLIB_DZC with (2 ^ 1).
  change FPLIB_OFC with (2 ^ 2). change FPLIB_UFC with (2 ^ 3). change FPLIB_IXC with (2 ^ 4).
  do 6 rewrite Hk by lia. rewrite <- !Z.lor_assoc, <- !Z.land_lor_distr_r. f_equal. exact H.
Qed.

Lemma flag_bits_lor a b : flag_bits a -> flag_bits b -> flag_bits (a .| b).
Proof. unfold flag_bits. intros Ha Hb. now rewrite Z.land_lor_distr_l, Ha, Hb. Qed.

Lemma rounded_flags F fz rm s v x fl : rounded F fz rm s v x fl -> flag_bits fl.
Proof.
  unfold rounded. destruct (fz && _); [now intros [_ ->]|]. intros (r & _ & H).
  repeat case_match; destruct H as [_ ->]; done.
Qed.

Lemma computes_flags F fz dn rm ops o x fl : computes F fz dn rm ops o x fl -> flag_bits fl.
Proof.
  intros (_ & fl' & -> & H). apply flag_bits_lor; [unfold flushed; now destruct (fz && _)|].
  destruct (chosen_nan F ops); [destruct H as [_ ->]; now destruct (is_snan F _)|].
  destruct o; cbn in H; [destruct H as [_ ->]; try done; now destruct dz..|].
  eapply rounded_flags, H.
Qed.

(** An operation as [fplib.hh] has it. *)
Lemma with_flags0_at F fpscr ops o f : in_range 32 fpscr ->
  op_ok F (modeConv fpscr) ops (o (mode_fz (modeConv fpscr)) (mode_rm (modeConv fpscr))) 0 (f (modeConv fpscr) 0) ->
  exists x fl, with_flags0 fpscr f = Ok (x, fpscr .| fl) /\
    computes F (ctl_fz fpscr) (ctl_dn fpscr) (ctl_rm fpscr) ops (o (ctl_fz fpscr) (ctl_rm fpscr)) x fl.
Proof.
  intros Hf (x & fl & E & Hc). rewrite mode_rm_conv, mode_fz_conv, mode_dn_conv in Hc by done. exists x, fl. split; [|done].
  unfold with_flags0. rewrite E. cbn [rbind]. rewrite Z.lor_0_l. now rewrite set_fpscr0_ok by eauto using computes_flags.
Qed.

Lemma with_flags0_ok F fpscr ops o f : in_range 32 fpscr ->
  (forall mode flags, 0 <= mode < 16 -> op_ok F mode ops (o (mode_fz mode) (mode_rm mode)) flags (f mode flags)) ->
  exists x fl, with_flags0 fpscr f = Ok (x, fpscr .| fl) /\
    computes F (ctl_fz fpscr) (ctl_dn fpscr) (ctl_rm fpscr) ops (o (ctl_fz fpscr) (ctl_rm fpscr)) x fl.
Proof. intros Hf Hop. apply with_flags0_at; [done|]. apply Hop, modeConv_range, Hf. Qed.

(** ** Operands and NaNs *)

Lemma flushed_cons F fz a ops : flushed F fz (a :: ops) = flushed F fz [a] .| flushed F fz ops.
Proof.
  unfold flushed. cbn [existsb]. rewrite orb_false_r. destruct fz; [|done]. cbn [andb].
  destruct (is_subnormal F a), (existsb (is_subnormal F) ops); done.
Qed.

(** The beginning of an operation: a NaN among the operands decides it. *)
Lemma nans_first F {VF : Valid F} mode ops o flags k : ieee F = true -> Forall (is_bits F) ops ->
  (chosen_nan F ops = None -> delivered F mode o (flags .| flushed F (mode_fz mode) ops) (k (flags .| flushed F (mode_fz mode) ops))) ->
  op_ok F mode ops o flags
    (let '(x, flags) := gprocess_NaNs F ops (mode_dn mode) (flags .| flushed F (mode_fz mode) ops) in
     if truth x then Ok (x, flags) else k flags).
Proof.
  intros Hi Ho Hk. pose proof (gprocess_NaNs_ok F Hi ops (mode_dn mode) (flags .| flushed F (mode_fz mode) ops) Ho) as Hn.
  unfold op_ok, computes. destruct (chosen_nan F ops) as [a|].
  - destruct Hn as (x & -> & Hx & Ht & Hb). rewrite Ht. eexists x, _. rewrite <- Z.lor_assoc. split; [done|]. split; [done|]. eauto.
  - rewrite Hn. change (truth 0) with false. cbv iota. destruct (Hk eq_refl) as (x & fl & -> & Hb & Hd).
    eexists x, _. rewrite <- Z.lor_assoc. split; [done|]. split; [done|]. eauto.
Qed.

(** The other test of the code for a NaN, on an unpacked operand. *)
Lemma nan_test F {VF : Valid F} fz x : ieee F = true -> is_bits F x ->
  (expo F x =? 2 ^ fE F - 1) && truth (wrap (fW F) (mant F fz x ≪ (fW F - fM F))) = is_nan F x.
Proof.
  intros Hi Hx. pose proof (@valid_M F VF). pose proof (@valid_E F VF). destruct (is_fields F x Hx) as (_ & He & Hf).
  rewrite is_nan_fields by done. unfold expo, mant. pose proof (pow2_le 2 (fE F) ltac:(lia)). change (2 ^ 2) with 4 in *.
  destruct (Z.eqb_spec (exp_of F x) 0) as [->|]; [rewrite !(proj2 (Z.eqb_neq _ _)) by lia; done|]. f_equal.
  rewrite wrap_shl by (unfold fW; lia). replace (fW F - (fW F - fM F)) with (fM F) by lia.
  pose proof (pow2_pos (fM F) ltac:(lia)). rewrite <- (Z.mul_1_l (2 ^ fM F)) at 1. rewrite Z.add_comm, Z.mod_add, Z.mod_small by lia.
  pose proof (pow2_pos (fW F - fM F) ltac:(unfold fW; lia)).
  unfold truth. f_equal. destruct (Z.eqb_spec (frac_of F x) 0), (Z.eqb_spec (frac_of F x * 2 ^ (fW F - fM F)) 0); nia.
Qed.

(** An operation on one operand. *)
Lemma nan_first F {VF : Valid F} mode a o flags k : ieee F = true -> is_bits F a ->
  (is_nan F a = false -> delivered F mode o (flags .| flushed F (mode_fz mode) [a]) k) ->
  op_ok F mode [a] o flags
    (if is_nan F a then Ok (gprocess_NaN F a (mode_dn mode) (flags .| flushed F (mode_fz mode) [a])) else k).
Proof.
  intros Hi Ha Hk. unfold op_ok, computes, chosen_nan. cbn [find]. destruct (is_nan F a) eqn:Hn.
  - rewrite gprocess_NaN_ok by done. destruct (quieted_ok F Hi a Ha Hn). destruct (default_nan_ok F).
    eexists _, _. rewrite <- Z.lor_assoc. split; [done|]. split; [now destruct (mode_dn mode)|]. eexists. split; [done|].
    destruct (is_snan F a) eqn:Hs; now rewrite ?Hs.
  - assert (is_snan F a = false) as -> by (destruct (is_snan F a) eqn:E; [apply snan_is_nan in E; congruence|done]).
    destruct (Hk eq_refl) as (x & fl & -> & Hb & Hd). eexists x, _. rewrite <- Z.lor_assoc. split; [done|]. split; [done|]. eauto.
Qed.

(** ** Results *)

Lemma b2z_xor s t : Z.b2z s .^ Z.b2z t = Z.b2z (xorb s t).
Proof. now destruct s, t. Qed.

Lemma b2z_eq s t : (Z.b2z s =? Z.b2z t) = eqb s t.
Proof. now destruct s, t. Qed.

Lemma b2z_0 s : (Z.b2z s =? 0) = negb s.
Proof. now destruct s. Qed.

Lemma truth_b2z s : truth (Z.b2z s) = s.
Proof. now destruct s. Qed.

Section results.
Context (F : format) {VF : Valid F} (HI : ieee F = true).

Lemma delivered_invalid mode flags :
  delivered F mode Invalid flags (Ok (gpack F 0 (2 ^ fE F - 1) (1 ≪ (fM F - 1)), flags .| FPLIB_IOC)).
Proof. rewrite default_nan_pack by done. eexists _, _. split; [done|]. split; [apply default_nan_ok; done|done]. Qed.

Lemma delivered_infinite mode flags s dz :
  delivered F mode (Infinite s dz) flags (Ok (gpack F (Z.b2z s) (2 ^ fE F - 1) 0, if dz then flags .| FPLIB_DZC else flags)).
Proof.
  destruct (decode_infinity F s HI). exists (gpack F (Z.b2z s) (2 ^ fE F - 1) 0), (if dz then FPLIB_DZC else 0).
  split; [destruct dz; now rewrite ?Z.lor_0_r|done].
Qed.

Lemma delivered_zero mode flags s : delivered F mode (Zero s) flags (Ok (gpack F (Z.b2z s) 0 0, flags)).
Proof. destruct (decode_zero F s). exists (gpack F (Z.b2z s) 0 0), 0. now rewrite Z.lor_0_r. Qed.

Lemma land3_range mode : 0 <= mode .& 3 <= 5 /\ mode .& 3 <> FPRounding_TIEAWAY.
Proof. unfold FPRounding_TIEAWAY. change 3 with (2 ^ 2 - 1). rewrite land_mask by lia. change (2 ^ 2) with 4. divlia. Qed.

(** Rounding an integer that stands for a multiple of the exact result. *)
Lemma delivered_round K s exp X mode flags d V v : K = fE F - 1 \/ K = fE F ->
  - 2 ^ 31 < exp -> 2 ^ fW F <= X < 2 * 2 ^ fW F -> 1 <= d <= drop F exp + 1 -> d <= fW F \/ d = fW F + 1 /\ exp <= 0 -> same d X V ->
  (v = V * bpow (exp - bias F - fW F))%R ->
  delivered F mode (Finite s v) flags (grnd F K (Z.b2z s) exp (X - 2 ^ fW F) mode flags).
Proof.
  intros HK He HX Hd HdW Hs ->. destruct (land3_range mode).
  destruct (ground_ok F K s exp (X - 2 ^ fW F) (mode .& 3) (mode_fz mode) flags d V) as (x & fl & E & Hb & Hr); [done..|lia|done|done| |].
  - now replace (2 ^ fW F + (X - 2 ^ fW F)) with X by lia.
  - now exists x, fl.
Qed.

Lemma operand_inf x fz : is_bits F x -> is_nan F x = false -> exp_of F x = emax F -> operand F fz x = Inf (sign_of F x).
Proof.
  intros Hx Hn He. unfold is_nan, decode in Hn. unfold operand, is_subnormal, decode. rewrite He, Z.eqb_refl in *.
  pose proof (emax_range F). rewrite (proj2 (Z.eqb_neq (emax F) 0)), andb_false_r by lia.
  destruct (frac_of F x =? 0); done.
Qed.

(** An operand that is no NaN: an infinity, or a number with the fields of the code. *)
Lemma operand_cases x fz : is_bits F x -> is_nan F x = false ->
  (expo F x =? 2 ^ fE F - 1) = true /\ operand F fz x = Inf (sign_of F x) /\ mant F fz x <> 0 \/
  (expo F x =? 2 ^ fE F - 1) = false /\ 1 <= expo F x < emax F /\
    operand F fz x = Num (sign_of F x) (IZR (mant F fz x) * bpow (expo F x - bias F - fM F)).
Proof.
  intros Hx Hn. rewrite expo_emax by done. destruct (Z.eqb_spec (exp_of F x) (emax F)) as [E|E].
  - left. split_and!; [done|now apply operand_inf|]. unfold mant. pose proof (emax_range F).
    rewrite (proj2 (Z.eqb_neq (exp_of F x) 0)) by lia. destruct (is_fields F x Hx) as (_ & _ & Hf).
    pose proof (pow2_pos (fM F)). pose proof (@valid_M F VF). lia.
  - right. split_and!; [done|now apply expo_range..|now apply operand_num].
Qed.

End results.

(** A number is zero when its mantissa is. *)
Lemma mant_0 m e : (IZR m * bpow e = 0)%R <-> m = 0.
Proof.
  pose proof (bpow_pos e). split; [|intros ->; lra]. intros [?|?]%Rmult_integral; [now apply eq_IZR|lra].
Qed.


(** Rounding at the widths of the code. *)
Lemma delivered_round32 s exp X mode flags d V v : - 2 ^ 31 < exp -> 2 ^ 32 <= X < 2 ^ 33 ->
  1 <= d <= 8 + Z.max 0 (1 - exp) -> d <= 32 \/ d = 33 /\ exp <= 0 -> same d X V -> (v = V * bpow (exp - 159))%R ->
  delivered F32 mode (Finite s v) flags (fp32_round (Z.b2z s) exp (X - 2 ^ 32) mode flags).
Proof.
  intros He HX Hd HdW Hs ->. apply (delivered_round F32 8 s exp X mode flags d V); [now right|done|done|unfold drop; change (fE F32) with 8; change (fE F64) with 11; lia|done|done|].
  change (bias F32) with 127. change (fW F32) with 32. do 2 f_equal. lia.
Qed.

Lemma delivered_round64 s exp X mode flags d V v : - 2 ^ 31 < exp -> 2 ^ 64 <= X < 2 ^ 65 ->
  1 <= d <= 11 + Z.max 0 (1 - exp) -> d <= 64 \/ d = 65 /\ exp <= 0 -> same d X V -> (v = V * bpow (exp - 1087))%R ->
  delivered F64 mode (Finite s v) flags (fp64_round (Z.b2z s) exp (X - 2 ^ 64) mode flags).
Proof.
  intros He HX Hd HdW Hs ->. apply (delivered_round F64 10 s exp X mode flags d V); [now left|done|done|unfold drop; change (fE F32) with 8; change (fE F64) with 11; lia|done|done|].
  change (bias F64) with 1023. change (fW F64) with 64. do 2 f_equal. lia.
Qed.
