(* ===== verification/FpAdd.v ===== *)
(** * Floating-point addition

    [fplibAdd] and [fplibSub] return the sum and the difference, correctly rounded,
    with the exceptions of IEEE 754. *)
From Stdlib Require Import Reals Lra.
From S2P Require Import Prelude FplibCore Fplib FpSpec FpBits FpFields FpRound FpOps.

(** ** Definitions *)

(** The sum of two signed magnitudes: sign and magnitude. *)
Definition add_signed (a_sgn a b_sgn b : Z) : Z * Z :=
  if a_sgn =? b_sgn then (a_sgn, a + b) else if b <=? a then (a_sgn, a - b) else (a_sgn .^ 1, b - a).

(** Two magnitudes with exponents brought to the greater one. *)
Definition align (a ea b eb : Z) : Z * Z * Z :=
  if eb <=? ea then (a, sr b (ea - eb), ea) else (sr a (eb - ea), b, eb).

(** The code at a format. *)
Definition gadd (F : format) (normalise : Z -> Z -> Z * Z) (K : Z) (a b neg mode flags : Z) : result (Z * Z) :=
  let '(a_sgn, a_exp, a_mnt, flags) := gunpack F a (mode_fz mode) flags in
  let '(b_sgn, b_exp, b_mnt, flags) := gunpack F b (mode_fz mode) flags in
  let '(x, flags) := gprocess_NaNs F [a; b] (mode_dn mode) flags in
  if truth x then Ok (x, flags)
  else
    let b_sgn := b_sgn .^ neg in
    if (a_exp =? 2 ^ fE F - 1) && (b_exp =? 2 ^ fE F - 1) && negb (a_sgn =? b_sgn)
    then Ok (gpack F 0 (2 ^ fE F - 1) (1 ≪ (fM F - 1)), flags .| FPLIB_IOC)
    else if a_exp =? 2 ^ fE F - 1 then Ok (gpack F a_sgn (2 ^ fE F - 1) 0, flags)
    else if b_exp =? 2 ^ fE F - 1 then Ok (gpack F b_sgn (2 ^ fE F - 1) 0, flags)
    else if (a_mnt =? 0) && (b_mnt =? 0) && (a_sgn =? b_sgn) then Ok (gpack F a_sgn 0 0, flags)
    else
      let a_mnt := wrap (fW F) (a_mnt ≪ 3) in
      let b_mnt := wrap (fW F) (b_mnt ≪ 3) in
      let '(a_mnt, b_mnt, x_exp) :=
        if b_exp <=? a_exp then
          (a_mnt, lsrW (fW F) b_mnt (a_exp - b_exp) .| nz (b_mnt .& wrap (fW F) (lslW (fW F) 1 (a_exp - b_exp) - 1)), a_exp)
        else
          (lsrW (fW F) a_mnt (b_exp - a_exp) .| nz (a_mnt .& wrap (fW F) (lslW (fW F) 1 (b_exp - a_exp) - 1)), b_mnt, b_exp) in
      let '(x_sgn, x_mnt) :=
        if a_sgn =? b_sgn then (a_sgn, wrap (fW F) (a_mnt + b_mnt))
        else if b_mnt <=? a_mnt then (a_sgn, wrap (fW F) (a_mnt - b_mnt))
        else (a_sgn .^ 1, wrap (fW F) (b_mnt - a_mnt)) in
      if x_mnt =? 0 then Ok (gpack F (Z.b2z (mode .& 3 =? 2)) 0 0, flags)
      else
        let '(x_mnt, x_exp) := normalise x_mnt x_exp in
        grnd F K x_sgn (x_exp + (fE F - 3)) (wrap (fW F) (x_mnt ≪ 1)) mode flags.

(** ** The code is an instance *)

Lemma add32 a b neg mode flags : fp32_add a b neg mode flags = gadd F32 fp32_normalise 8 a b neg mode flags.
Proof.
  unfold fp32_add, gadd. do 2 (rewrite unpack32; destruct (gunpack _ _ _ _) as [[[? ?] ?] ?]).
  rewrite process_NaNs_32. reflexivity.
Qed.

Lemma add64 a b neg mode flags : fp64_add a b neg mode flags = gadd F64 fp64_normalise 10 a b neg mode flags.
Proof.
  unfold fp64_add, gadd. do 2 (rewrite unpack64; destruct (gunpack _ _ _ _) as [[[? ?] ?] ?]).
  rewrite process_NaNs_64. reflexivity.
Qed.

(** ** Aligning and adding *)

Lemma align_ok a ea b eb a' b' e : align a ea b eb = (a', b', e) -> 0 <= a -> 0 <= b ->
  e = Z.max ea eb /\ 0 <= a' /\ 0 <= b' /\ same 1 a' (IZR a * bpow (ea - e)) /\ same 1 b' (IZR b * bpow (eb - e)) /\
  (a' = a /\ ea = e /\ b' = sr b (e - eb) \/ b' = b /\ eb = e /\ a' = sr a (e - ea)).
Proof.
  intros H Ha Hb. unfold align in H.
  assert (forall m, IZR m * bpow 0 = IZR m)%R as H0 by (intros; rewrite bpow_0; lra).
  destruct (Z.leb_spec eb ea); injection H as <- <- <-.
  - rewrite Z.sub_diag, H0. split_and!; [lia|done|apply sr_nonneg; lia|apply same_exact| |auto].
    replace (eb - ea) with (- (ea - eb)) by lia. apply sr_exact. lia.
  - rewrite Z.sub_diag, H0. split_and!; [lia|apply sr_nonneg; lia|done| |apply same_exact|auto].
    replace (ea - eb) with (- (eb - ea)) by lia. apply sr_exact. lia.
Qed.

Lemma same_sum d a b u v : 0 <= d -> same d a u -> same d b v -> (2 ^ d | a) /\ u = IZR a \/ (2 ^ d | b) /\ v = IZR b -> same d (a + b) (u + v).
Proof.
  intros Hd Ha Hb [[Hdv ->]|[Hdv ->]]; [now apply same_add|]. rewrite Z.add_comm, Rplus_comm. now apply same_add.
Qed.

(** A signed integer that stands for a signed real: same sign, and the magnitudes stand for each other. *)
Lemma same_abs d I T : 0 <= d -> same d I T -> same d (Z.abs I) (Rabs T) /\ (I = 0 <-> T = 0%R) /\ (I < 0 <-> (T < 0)%R).
Proof.
  intros Hd Hs. pose proof (same_lt d I T 0 Hd Hs) as Hlt. rewrite Z.mul_0_l in Hlt.
  pose proof (same_opp d I T Hs) as Ho. pose proof (same_lt d (- I) (- T) 0 Hd Ho) as Hgt. rewrite Z.mul_0_l in Hgt.
  split; [|split; [|done]].
  - destruct (Z.abs_spec I) as [[HI ->]|[HI ->]].
    + rewrite Rabs_right; [done|]. apply Rle_ge, Rnot_lt_le. rewrite <- Hlt. lia.
    + rewrite Rabs_left; [done|]. now apply Hlt.
  - split; [intros ->; now apply (same_0 d)|]. intros ->. destruct (Z.lt_trichotomy I 0) as [HI|[HI|HI]]; [|done|].
    + apply Hlt in HI. lra.
    + assert (- 0 < 0)%R by (apply Hgt; lia). lra.
Qed.

Definition signed_Z (s : bool) (x : Z) : Z := if s then - x else x.

Lemma same_signed d s x v : same d x v -> same d (signed_Z s x) (signed s v).
Proof. destruct s; [apply same_opp|done]. Qed.

Lemma add_signed_ok sa sb a b : 0 <= a -> 0 <= b ->
  let I := signed_Z sa a + signed_Z sb b in
  exists s, add_signed (Z.b2z sa) a (Z.b2z sb) b = (Z.b2z s, Z.abs I) /\ (I <> 0 -> s = (I <? 0)).
Proof.
  intros Ha Hb I. unfold add_signed. rewrite b2z_eq. unfold I, signed_Z. clear I.
  destruct (eqb sa sb) eqn:E.
  - apply eqb_prop in E as <-. exists sa. destruct sa; (split; [f_equal; lia|]); intros; split_cmp; done.
  - destruct (Z.leb_spec b a).
    + exists sa. destruct sa, sb; try discriminate E; (split; [f_equal; lia|]); intros; split_cmp; done.
    + exists (negb sa). destruct sa, sb; try discriminate E; (split; [cbn [Z.b2z negb]; f_equal; lia|]); intros; cbn [negb]; split_cmp; done.
Qed.

Lemma signed_IZR s x : signed s (IZR x) = IZR (signed_Z s x).
Proof. destruct s; [symmetry; apply opp_IZR|done]. Qed.

Lemma signed_mult s x y : signed s (x * y) = (signed s x * y)%R.
Proof. destruct s; cbn; lra. Qed.

Lemma signed_Z_bounds sa sb a b : 0 <= a -> 0 <= b -> let I := signed_Z sa a + signed_Z sb b in
  Z.abs I <= a + b /\ Z.abs (a - b) <= Z.abs I /\ (sa = sb -> I = 0 -> a = 0 /\ b = 0).
Proof. intros. unfold I, signed_Z. destruct sa, sb; (split; [lia|split; [lia|]]); intros; try discriminate; lia. Qed.

(** ** Normalising and rounding *)

Lemma exactly_0 z r : r = 0%R -> exactly z r = Zero z.
Proof. intros ->. unfold exactly. now destruct (Req_EM_T 0 0). Qed.

Lemma exactly_pos z r s : r <> 0%R -> s = (if Rlt_dec r 0 then true else false) -> exactly z r = Finite s (Rabs r).
Proof. intros Hr ->. unfold exactly. now destruct (Req_EM_T r 0). Qed.

Lemma is_down_mode mode : is_down (mode_rm mode) = (mode .& 3 =? 2).
Proof.
  unfold mode_rm. destruct (land3_range mode) as [Hr H4]. unfold FPRounding_TIEAWAY in H4. set (r := mode .& 3) in *. clearbody r.
  assert (r = 0 \/ r = 1 \/ r = 2 \/ r = 3 \/ r = 5) as [->|[->|[->|[->| ->]]]] by lia; done.
Qed.

(** The end of a sum of two signed magnitudes, brought to one exponent and added: a zero, or
    a magnitude [m] that stands for the exact one, [T]. *)
Lemma sum_code F {VF : Valid F} sa sb a b ea eb q mode flags k :
  0 <= a -> 0 <= b -> (2 | a) -> (2 | b) -> ~ (a = 0 /\ b = 0 /\ sa = sb) ->
  (forall s a' b' e m T, align a ea b eb = (a', b', e) -> 0 < m -> Z.abs (a' - b') <= m <= a' + b' -> same 1 m T ->
     (IZR a * bpow (ea - e) = IZR a' -> IZR b * bpow (eb - e) = IZR b' -> T = IZR m)%R ->
     delivered F mode (Finite s (T * bpow (e + q))) flags (k (Z.b2z s) m e)) ->
  delivered F mode
    (exactly (if eqb sa sb then sa else is_down (mode_rm mode)) (signed sa (IZR a * bpow (ea + q)) + signed sb (IZR b * bpow (eb + q)))) flags
    (let '(a', b', e) := align a ea b eb in
     let '(x_sgn, x_mnt) := add_signed (Z.b2z sa) a' (Z.b2z sb) b' in
     if x_mnt =? 0 then Ok (gpack F (Z.b2z (mode .& 3 =? 2)) 0 0, flags) else k x_sgn x_mnt e).
Proof.
  intros Ha Hb Hda Hdb Hnz Hk. destruct (align a ea b eb) as [[a' b'] e] eqn:Hal.
  specialize (fun s => Hk s a' b' e). pose proof Hal as Hal'. apply align_ok in Hal as (He & Ha' & Hb' & Hsa & Hsb & Hcase); [|lia..].
  destruct (add_signed_ok sa sb a' b' Ha' Hb') as (s & -> & Hsgn). destruct (signed_Z_bounds sa sb a' b' Ha' Hb') as (Hb1 & Hb2 & Hb0).
  set (I := signed_Z sa a' + signed_Z sb b') in *. set (u := (IZR a * bpow (ea - e))%R) in *. set (v := (IZR b * bpow (eb - e))%R) in *.
  set (T := (signed sa u + signed sb v)%R).
  assert (same 1 I T) as HIT.
  { assert (forall t x, (2 | x) -> (2 | signed_Z t x)) as Hd by (intros t x [y ->]; destruct t; [exists (- y)|exists y]; cbn; lia).
    apply same_sum; [lia|now apply same_signed..|]. destruct Hcase as [(-> & E & _)|(-> & E & _)]; [left|right]; unfold u, v;
      rewrite E, Z.sub_diag, bpow_0, Rmult_1_r, signed_IZR; auto. }
  assert (signed sa (IZR a * bpow (ea + q)) + signed sb (IZR b * bpow (eb + q)) = T * bpow (e + q))%R as ->.
  { unfold T, u, v. rewrite Rmult_plus_distr_r, <- !signed_mult, !Rmult_assoc, <- !bpow_add. do 2 f_equal; do 2 f_equal; lia. }
  destruct (same_abs 1 I T ltac:(lia) HIT) as (Habs & H0 & Hneg). destruct (Z.eqb_spec (Z.abs I) 0) as [E0|E0].
  - assert (I = 0) as EI by lia. rewrite exactly_0 by (rewrite (proj1 H0 EI); lra).
    assert (eqb sa sb = false) as ->; [|rewrite is_down_mode; apply (delivered_zero F)].
    apply eqb_false_iff. intros <-. destruct (Hb0 eq_refl EI) as [-> ->].
    apply same_0, mant_0 in Hsa; [|lia]. apply same_0, mant_0 in Hsb; [|lia]. now destruct Hnz.
  - pose proof (bpow_pos (e + q)) as Hp. assert (T <> 0%R) as HT0 by (rewrite <- H0; lia). rewrite (exactly_pos _ _ s).
    + replace (Rabs (T * bpow (e + q))) with (Rabs T * bpow (e + q))%R by (rewrite Rabs_mult, (Rabs_right (bpow _)); lra).
      apply Hk; [done|lia|lia|done|]. intros Eu Ev. unfold T. now rewrite Eu, Ev, !signed_IZR, <- plus_IZR, <- abs_IZR.
    + intros [?|?]%Rmult_integral; lra.
    + rewrite Hsgn by lia. destruct (Z.ltb_spec I 0) as [Hl%Hneg|Hl], (Rlt_dec (T * bpow (e + q)) 0) as [Hr|Hr]; try done; exfalso; [nra|].
      assert (~ T < 0)%R by (rewrite <- Hneg; lia). nra.
Qed.

Lemma aligned_le a ea b eb a' b' e : align a ea b eb = (a', b', e) -> 0 <= a -> 0 <= b -> 0 <= a' <= a /\ 0 <= b' <= b.
Proof.
  unfold align. intros H Ha Hb. destruct (Z.leb_spec eb ea); injection H as <- <- <-.
  - pose proof (sr_le b (ea - eb)). pose proof (sr_nonneg b (ea - eb)). lia.
  - pose proof (sr_le a (eb - ea)). pose proof (sr_nonneg a (eb - ea)). lia.
Qed.

(** The code that aligns and adds, at a width no sum overflows. *)
Lemma add_code W sa sb a b ea eb (k : Z -> Z -> Z -> result (Z * Z)) :
  0 < W -> 0 <= a -> 0 <= b -> a + b < 2 ^ W -> - 2 ^ 31 < ea < 2 ^ 31 -> - 2 ^ 31 < eb < 2 ^ 31 ->
  (let '(a_mnt, b_mnt, x_exp) :=
     if eb <=? ea then (a, lsrW W b (ea - eb) .| nz (b .& wrap W (lslW W 1 (ea - eb) - 1)), ea)
     else (lsrW W a (eb - ea) .| nz (a .& wrap W (lslW W 1 (eb - ea) - 1)), b, eb) in
   let '(x_sgn, x_mnt) :=
     if sa =? sb then (sa, wrap W (a_mnt + b_mnt))
     else if b_mnt <=? a_mnt then (sa, wrap W (a_mnt - b_mnt))
     else (sa .^ 1, wrap W (b_mnt - a_mnt)) in k x_sgn x_mnt x_exp) =
  let '(a_mnt, b_mnt, x_exp) := align a ea b eb in
  let '(x_sgn, x_mnt) := add_signed sa a_mnt sb b_mnt in k x_sgn x_mnt x_exp.
Proof.
  intros HW Ha Hb Hab Hea Heb.
  match goal with |- (match ?t with _ => _ end) = _ => assert (t = align a ea b eb) as -> end.
  { unfold align. destruct (Z.leb_spec eb ea); now rewrite sticky by lia. }
  destruct (align a ea b eb) as [[a' b'] e] eqn:Hal. apply aligned_le in Hal; [|done..]. unfold add_signed.
  destruct (sa =? sb); [now rewrite wrap_small by (unfold in_range; lia)|].
  destruct (Z.leb_spec b' a'); now rewrite wrap_small by (unfold in_range; lia).
Qed.

Section add.
Context (F : format) {VF : Valid F} (HI : ieee F = true) (HE : 4 <= fE F <= 16) (HW64 : fW F <= 64).
Context (normalise : Z -> Z -> Z * Z) (K : Z) (HK : K = fE F - 1 \/ K = fE F).
Context (Hnorm : forall m e m' e', normalise m e = (m', e') -> 1 <= m < 2 ^ fW F -> normalised (fW F) m e m' e').

Let HM : 2 <= fM F := valid_M.

(** Normalising and rounding a sum [X] that stands for [T]. *)
Lemma norm_round s X T e mode flags v : 1 <= X < 2 ^ fW F -> same 1 X T -> (T = IZR X \/ 2 ^ (fM F + 2) <= X) ->
  0 <= e < 2 ^ 17 -> (v = T * bpow (e - bias F - fM F - 3))%R ->
  delivered F mode (Finite s v) flags
    (let '(m, e') := normalise X e in grnd F K (Z.b2z s) (e' + (fE F - 3)) (wrap (fW F) (m ≪ 1)) mode flags).
Proof.
  intros HX Hs Hex He ->. destruct (normalise X e) as [m e'] eqn:En. apply Hnorm in En as (z & Hz & -> & -> & Hm); [|done].
  assert (HW : fW F = 1 + fE F + fM F) by done.
  assert (2 ^ fW F = 2 * 2 ^ (fW F - 1)) as EW by (rewrite <- Z.pow_succ_r by lia; f_equal; lia).
  assert (wrap (fW F) ((X * 2 ^ z) ≪ 1) = X * 2 ^ z * 2 - 2 ^ fW F) as ->.
  { rewrite Z.shiftl_mul_pow2 by lia. change (2 ^ 1) with 2. unfold wrap. symmetry. apply (Z.mod_unique_pos _ _ 1); lia. }
  assert (z < fW F).
  { destruct (Z_lt_le_dec z (fW F)) as [|Hl]; [done|]. apply pow2_le in Hl. pose proof (pow2_pos z Hz). nia. }
  assert (same (1 + z + 1) (X * 2 ^ z * 2) (T * bpow z * bpow 1)) as Hs'.
  { change 2 with (2 ^ 1) at 2. do 2 (apply same_shl; [lia..|]). done. }
  assert (2 ^ (fM F + 2) <= X -> z <= fE F - 2) as Hz'.
  { intros HX2. destruct (Z_lt_le_dec (fE F - 2) z) as [Hl|]; [|lia]. exfalso.
    assert (2 ^ (fM F + 2) * 2 ^ z < 2 ^ fW F) as Hlt by nia.
    rewrite <- pow2_split in Hlt by lia. pose proof (pow2_le (fW F) (fM F + 2 + z)). lia. }
  set (d := if Req_EM_T T (IZR X) then 1 else 1 + z + 1).
  apply (delivered_round F) with (d := d) (V := (T * bpow z * bpow 1)%R); [done|lia|lia| | | |].
  - unfold d, drop. destruct (Req_EM_T T (IZR X)); [lia|]. destruct Hex as [|?%Hz']; [done|lia].
  - unfold d. destruct (Req_EM_T T (IZR X)); [lia|]. destruct Hex as [|?%Hz']; [done|lia].
  - unfold d. destruct (Req_EM_T T (IZR X)) as [->|]; [|done]. left. rewrite !mult_IZR, <- bpow_IZR by lia.
    rewrite (bpow_IZR 1) by lia. done.
  - rewrite !Rmult_assoc, <- !bpow_add. do 2 f_equal. lia.
Qed.

(** When bits were lost the sum is large. *)
Lemma sr_lost m n : 0 <= m < 2 ^ (fM F + 1) -> 0 <= n ->
  ((IZR (sr (m * 8) n) = IZR (m * 8) * bpow (- n))%R \/ 4 <= n /\ sr (m * 8) n < 2 ^ fM F).
Proof.
  intros Hm Hn. destruct (Z_lt_le_dec 3 n) as [H3|H3].
  - right. split; [lia|]. replace n with (4 + (n - 4)) by lia. rewrite <- sr_sr by lia.
    pose proof (sr_range (m * 8) 4 (fM F + 3)) as Hr. replace (fM F + 3 + 1) with (fM F + 1 + 3) in Hr by lia.
    rewrite pow2_split in Hr by lia. change (2 ^ 3) with 8 in Hr. replace (fM F + 1 + 3 - 4) with (fM F) in Hr by lia.
    specialize (Hr ltac:(lia) ltac:(lia)). pose proof (sr_le (sr (m * 8) 4) (n - 4)). lia.
  - left. change 8 with (2 ^ 3). rewrite sr_mul by lia. rewrite !mult_IZR, <- !bpow_IZR, Rmult_assoc, <- bpow_add by lia. do 2 f_equal.
Qed.

Lemma aligned_exact ma mb ea eb a' b' e : align (ma * 8) ea (mb * 8) eb = (a', b', e) ->
  0 <= ma < 2 ^ (fM F + 1) -> 0 <= mb < 2 ^ (fM F + 1) -> 2 ^ fM F <= ma \/ ea = 1 -> 2 ^ fM F <= mb \/ eb = 1 -> 1 <= ea -> 1 <= eb ->
  (IZR (ma * 8) * bpow (ea - e) = IZR a' /\ IZR (mb * 8) * bpow (eb - e) = IZR b')%R \/ 2 ^ (fM F + 2) <= Z.abs (a' - b').
Proof.
  intros H Ha Hb Hna Hnb Hea Heb. rewrite pow2_split by lia. change (2 ^ 2) with 4. unfold align in H.
  destruct (Z.leb_spec eb ea); injection H as <- <- <-; rewrite Z.sub_diag, bpow_0, Rmult_1_r.
  - replace (eb - ea) with (- (ea - eb)) by lia.
    destruct (sr_lost mb (ea - eb) Hb ltac:(lia)) as [->|[H4 Hs]]; [now left|right]. pose proof (sr_nonneg (mb * 8) (ea - eb)). lia.
  - replace (ea - eb) with (- (eb - ea)) by lia.
    destruct (sr_lost ma (eb - ea) Ha ltac:(lia)) as [->|[H4 Hs]]; [now left|right]. pose proof (sr_nonneg (ma * 8) (eb - ea)). lia.
Qed.

(** Adding two numbers that are not both zeroes of one sign. *)
Lemma add_finite sa sb ma mb ea eb mode flags :
  0 <= ma < 2 ^ (fM F + 1) -> 0 <= mb < 2 ^ (fM F + 1) -> 2 ^ fM F <= ma \/ ea = 1 -> 2 ^ fM F <= mb \/ eb = 1 ->
  1 <= ea < 2 ^ 16 -> 1 <= eb < 2 ^ 16 -> ~ (ma = 0 /\ mb = 0 /\ sa = sb) ->
  delivered F mode
    (exactly (if eqb sa sb then sa else is_down (mode_rm mode))
       (signed sa (IZR ma * bpow (ea - bias F - fM F)) + signed sb (IZR mb * bpow (eb - bias F - fM F)))) flags
    (let '(a_mnt, b_mnt, x_exp) := align (ma * 8) ea (mb * 8) eb in
     let '(x_sgn, x_mnt) := add_signed (Z.b2z sa) a_mnt (Z.b2z sb) b_mnt in
     if x_mnt =? 0 then Ok (gpack F (Z.b2z (mode .& 3 =? 2)) 0 0, flags)
     else
       let '(x_mnt, x_exp) := normalise x_mnt x_exp in
       grnd F K x_sgn (x_exp + (fE F - 3)) (wrap (fW F) (x_mnt ≪ 1)) mode flags).
Proof.
  intros Hma Hmb Hna Hnb Hea Heb Hnz.
  assert (2 ^ (fM F + 1 + 4) <= 2 ^ fW F) as HW by (apply pow2_le; unfold fW; lia). rewrite pow2_split in HW by lia. change (2 ^ 4) with 16 in HW.
  assert (forall m e, IZR m * bpow (e - bias F - fM F) = IZR (m * 8) * bpow (e + (- bias F - fM F - 3)))%R as Escale.
  { intros. rewrite mult_IZR. replace 8%R with (bpow 3) by (rewrite bpow_IZR by lia; done). rewrite Rmult_assoc, <- bpow_add. do 2 f_equal. lia. }
  rewrite !Escale. apply (sum_code F); [lia|lia|exists (ma * 4); lia|exists (mb * 4); lia|intros (? & ? & ?); apply Hnz; split_and!; [lia|lia|done]|].
  intros s a' b' e m T Hal Hm Hbnd Hs Hexact. pose proof (aligned_exact _ _ _ _ _ _ _ Hal Hma Hmb Hna Hnb ltac:(lia) ltac:(lia)) as Hlost.
  pose proof (aligned_le _ _ _ _ _ _ _ Hal ltac:(lia) ltac:(lia)). apply align_ok in Hal as (He & _); [|lia..].
  apply (norm_round _ _ T); [lia|done| |lia|].
  - destruct Hlost as [[Eu Ev]|Hlost]; [left; now apply Hexact|right; lia].
  - do 2 f_equal. lia.
Qed.

Lemma gadd_ok a b (ng : bool) mode flags : is_bits F a -> is_bits F b ->
  op_ok F mode [a; b]
    (sum (mode_rm mode) (operand F (mode_fz mode) a) (if ng then neg (operand F (mode_fz mode) b) else operand F (mode_fz mode) b))
    flags (gadd F normalise K a b (Z.b2z ng) mode flags).
Proof.
  intros Ha Hb. unfold gadd. rewrite !gunpack_ok by done. cbv iota beta. rewrite <- Z.lor_assoc, <- flushed_cons.
  apply (nans_first F mode [a; b] _ flags (fun flags => _)); [done|all_bits|]. cbv beta.
  intros Hnan. rewrite chosen_nan_None in Hnan by done. set (fl := flags .| _). clearbody fl.
  pose proof (Hnan a ltac:(set_solver)) as Hna. pose proof (Hnan b ltac:(set_solver)) as Hnb.
  rewrite b2z_xor, b2z_eq. set (sa := sign_of F a). set (sb := xorb (sign_of F b) ng).
  destruct (operand_cases F HI a (mode_fz mode) Ha Hna) as [(-> & -> & _)|(-> & Hea & ->)];
    destruct (operand_cases F HI b (mode_fz mode) Hb Hnb) as [(-> & -> & _)|(-> & Heb & ->)]; cbn [andb].
  - replace (if ng then neg (Inf (sign_of F b)) else Inf (sign_of F b)) with (Inf sb) by (unfold sb; destruct ng, (sign_of F b); done).
    cbn [sum]. fold sa. destruct (eqb sa sb); cbn [negb]; [apply (delivered_infinite F HI _ _ sa false)|now apply delivered_invalid].
  - destruct ng; cbn [sum neg]; apply (delivered_infinite F HI _ _ sa false).
  - replace (if ng then neg (Inf (sign_of F b)) else Inf (sign_of F b)) with (Inf sb) by (unfold sb; destruct ng, (sign_of F b); done).
    apply (delivered_infinite F HI _ _ sb false).
  - set (v := (IZR (mant F (mode_fz mode) b) * _)%R).
    replace (if ng then neg (Num (sign_of F b) v) else Num (sign_of F b) v) with (Num sb v) by (unfold sb; destruct ng, (sign_of F b); done).
    cbn [sum]. fold sa. destruct (mant_range F a (mode_fz mode) Ha) as [Hma Hma']. destruct (mant_range F b (mode_fz mode) Hb) as [Hmb Hmb'].
    pose proof (emax_range F). pose proof (pow2_le (fE F) 16 ltac:(lia)).
    assert (2 ^ (fM F + 1 + 4) <= 2 ^ fW F) as HW by (apply pow2_le; unfold fW; lia). rewrite pow2_split in HW by lia. change (2 ^ 4) with 16 in HW.
    destruct (_ && _ && _) eqn:Hz.
    + apply andb_true_iff in Hz as [[Hz1%Z.eqb_eq Hz2%Z.eqb_eq]%andb_true_iff Hz3]. unfold v. rewrite Hz1, Hz2, Hz3, !Rmult_0_l.
      apply eqb_prop in Hz3 as <-. rewrite exactly_0 by (unfold signed; destruct sa; lra). apply (delivered_zero F).
    + rewrite <- (b2z_eq sa sb), !Z.shiftl_mul_pow2, !wrap_small by (unfold in_range; lia). change (2 ^ 3) with 8.
      assert (0 < fW F) by (unfold fW; lia). rewrite add_code by lia. rewrite b2z_eq. apply add_finite; try done; try lia.
      intros (E1 & E2 & E3). rewrite E1, E2, E3 in Hz. now rewrite eqb_reflx in Hz.
Qed.

End add.

(** ** The functions of fplib.hh *)

(** Addition and subtraction of the code. *)
Lemma fp_add_ok T a b (ng : bool) mode flags : is_bits (fmt T) a -> is_bits (fmt T) b ->
  op_ok (fmt T) mode [a; b]
    (sum (mode_rm mode) (operand (fmt T) (mode_fz mode) a)
       (if ng then neg (operand (fmt T) (mode_fz mode) b) else operand (fmt T) (mode_fz mode) b)) flags
    (match T with T32 => fp32_add | T64 => fp64_add end a b (Z.b2z ng) mode flags).
Proof.
  intros Ha Hb. destruct T; [rewrite add32|rewrite add64]; apply gadd_ok; try done; cbn; try lia.
  - apply fp32_normalise_ok.
  - apply fp64_normalise_ok.
Qed.

(** C10: addition and subtraction are correctly rounded: for operands of 32 or 64 bits
    and in every mode, [fplibAdd] returns the sum of what the operands stand for
    and [fplibSub] the difference, rounded as the register asks, with exactly the
    exceptions of IEEE 754 added to the register; infinities, zeroes, NaNs and
    flushed subnormal numbers included. *)
Theorem fplibAdd_correct T (sub : bool) a b fpscr : is_bits (fmt T) a -> is_bits (fmt T) b -> in_range 32 fpscr ->
  exists x fl, (if sub then fplibSub else fplibAdd) T a b fpscr = Ok (x, fpscr .| fl) /\
    computes (fmt T) (ctl_fz fpscr) (ctl_dn fpscr) (ctl_rm fpscr) [a; b]
      (sum (ctl_rm fpscr) (operand (fmt T) (ctl_fz fpscr) a)
         (if sub then neg (operand (fmt T) (ctl_fz fpscr) b) else operand (fmt T) (ctl_fz fpscr) b)) x fl.
Proof.
  intros Ha Hb Hf.
  pose proof (with_flags0_ok (fmt T) fpscr [a; b] (fun fz rm => sum rm (operand (fmt T) fz a) (if sub then neg (operand (fmt T) fz b) else operand (fmt T) fz b))) as H.
  destruct sub; apply H; try done; intros mode flags _; [now apply (fp_add_ok T a b true)|now apply (fp_add_ok T a b false)].
Qed.

(** [1 + 2 = 3], exactly. *)
Lemma fplibAdd_correct_witness : fplibAdd T32 0x3f800000 0x40000000 0 = Ok (0x40400000, 0) /\
  exists x fl, fplibAdd T32 0x3f800000 0x40000000 0 = Ok (x, 0 .| fl) /\
    computes F32 (ctl_fz 0) (ctl_dn 0) (ctl_rm 0) [0x3f800000; 0x40000000] (sum (ctl_rm 0) (operand F32 (ctl_fz 0) 0x3f800000) (operand F32 (ctl_fz 0) 0x40000000)) x fl.
Proof. split; [vm_compute; reflexivity|]. apply (fplibAdd_correct T32 false 0x3f800000 0x40000000 0); (split; [discriminate|reflexivity]). Defined.
