(* ===== verification/FpMul.v ===== *)
(** * Floating-point multiplication

    [fplibMul] and [fplibMulX] return the product, correctly rounded, with the
    exceptions of IEEE 754. *)
From Stdlib Require Import Reals Lra.
From S2P Require Import Prelude FplibCore Fplib FplibConv FpSpec FpBits FpFields FpRound FpOps.

(** ** Sticky words *)

(** The code's way to shift 64 bits by 31. *)
Lemma sticky31 x : lsr64 x 31 .| nz (lsl64 x 33) = sr x 31.
Proof. rewrite <- (sticky_drop 64 x 31) by lia. reflexivity. Qed.

Lemma sticky31w x : (x ≫ 31) .| nz (u32 (x ≪ 1)) = sr x 31.
Proof. rewrite <- (sticky_drop 32 x 31) by lia. reflexivity. Qed.

(** Two words, the lower one reduced to a sticky bit. *)
Lemma sticky_words x0 x1 : is_u64 x0 -> 2 ^ 63 <= x1 < 2 ^ 64 ->
  exists X, u64 (x1 ≪ 1) .| nz x0 = X - 2 ^ 64 /\ 2 ^ 64 <= X < 2 * 2 ^ 64 /\ same 1 X (IZR (v128 x0 x1) * bpow (- 63)).
Proof.
  intros H0 H1. exists (2 * x1 + nz x0). unfold u64. rewrite wrap_shl by lia. change (2 ^ 1) with 2. change (64 - 1) with 63.
  replace (x1 mod 2 ^ 63) with (x1 - 2 ^ 63) by (apply (Z.mod_unique_pos _ _ 1); lia).
  assert (0 <= nz x0 < 2) as Hn by (destruct (nz_01 x0) as [[-> _]|[-> _]]; lia).
  change 2 with (2 ^ 1) at 2. rewrite lor_add by lia. split_and!; [lia|lia|lia|].
  unfold v128. rewrite plus_IZR, mult_IZR, <- bpow_IZR, Rmult_plus_distr_r, Rmult_assoc, <- bpow_add by lia.
  change (64 + - 63) with 1. rewrite (bpow_IZR 1) by lia. change (IZR (2 ^ 1)) with 2%R.
  destruct (nz_01 x0) as [[-> ->]|[-> Hx]].
  - left. rewrite Z.add_0_r, mult_IZR. lra.
  - right. exists x1. change (2 ^ 1) with 2. split; [lia|]. unfold in_range in H0.
    assert (0 < IZR x0 * bpow (- 63) < 2)%R.
    { pose proof (bpow_pos (- 63)). split.
      - apply Rmult_lt_0_compat; [apply IZR_lt; lia|done].
      - apply (Rlt_le_trans _ (bpow 64 * bpow (- 63))).
        + apply Rmult_lt_compat_r; [done|]. rewrite bpow_IZR by lia. apply IZR_lt. lia.
        + rewrite <- bpow_add. change (64 + -63) with 1. rewrite bpow_IZR by lia. cbn. lra. }
    rewrite !mult_IZR, plus_IZR. lra.
Qed.

(** ** Infinities and zeroes *)

Section special.
Context (F : format) {VF : Valid F} (HI : ieee F = true).

Lemma mul_special a b mode flags k : is_bits F a -> is_bits F b -> is_nan F a = false -> is_nan F b = false ->
  let fz := mode_fz mode in
  let s := xorb (sign_of F a) (sign_of F b) in
  (1 <= expo F a < emax F -> 1 <= expo F b < emax F -> 0 < mant F fz a -> 0 < mant F fz b ->
   delivered F mode (Finite s (IZR (mant F fz a * mant F fz b) * bpow (expo F a + expo F b - 2 * bias F - 2 * fM F))) flags k) ->
  delivered F mode (product (operand F fz a) (operand F fz b)) flags
    (if ((expo F a =? 2 ^ fE F - 1) && (mant F fz b =? 0)) || ((expo F b =? 2 ^ fE F - 1) && (mant F fz a =? 0))
     then Ok (gpack F 0 (2 ^ fE F - 1) (1 ≪ (fM F - 1)), flags .| FPLIB_IOC)
     else if (expo F a =? 2 ^ fE F - 1) || (expo F b =? 2 ^ fE F - 1)
     then Ok (gpack F (Z.b2z (sign_of F a) .^ Z.b2z (sign_of F b)) (2 ^ fE F - 1) 0, flags)
     else if (mant F fz a =? 0) || (mant F fz b =? 0)
     then Ok (gpack F (Z.b2z (sign_of F a) .^ Z.b2z (sign_of F b)) 0 0, flags)
     else k).
Proof.
  intros Ha Hb Hna Hnb fz s Hk. rewrite b2z_xor. fold s.
  destruct (mant_range F a fz Ha) as [[Hma _] _]. destruct (mant_range F b fz Hb) as [[Hmb _] _].
  destruct (operand_cases F HI a fz Ha Hna) as [(-> & -> & Hma0)|(-> & Hea & ->)];
    destruct (operand_cases F HI b fz Hb Hnb) as [(-> & -> & Hmb0)|(-> & Heb & ->)]; cbn [andb orb product].
  - rewrite (proj2 (Z.eqb_neq _ 0) Hma0), (proj2 (Z.eqb_neq _ 0) Hmb0). cbn [orb].
    apply (delivered_infinite F HI _ _ s false).
  - destruct (Z.eqb_spec (mant F fz b) 0) as [E|E]; cbn [orb]; destruct (Req_EM_T _ 0) as [E'|E']; rewrite ?mant_0 in E'; try done.
    + now apply delivered_invalid.
    + apply (delivered_infinite F HI _ _ s false).
  - destruct (Z.eqb_spec (mant F fz a) 0) as [E|E]; cbn [orb]; destruct (Req_EM_T _ 0) as [E'|E']; rewrite ?mant_0 in E'; try done.
    + now apply delivered_invalid.
    + rewrite xorb_comm. apply (delivered_infinite F HI _ _ s false).
  - assert (IZR (mant F fz a) * bpow (expo F a - bias F - fM F) * (IZR (mant F fz b) * bpow (expo F b - bias F - fM F)) =
      IZR (mant F fz a * mant F fz b) * bpow (expo F a + expo F b - 2 * bias F - 2 * fM F))%R as ->.
    { rewrite mult_IZR. replace (expo F a + expo F b - 2 * bias F - 2 * fM F) with ((expo F a - bias F - fM F) + (expo F b - bias F - fM F)) by lia.
      rewrite bpow_add. ring. }
    fold s. destruct (Z.eqb_spec (mant F fz a) 0) as [E|E]; [|destruct (Z.eqb_spec (mant F fz b) 0) as [E'|E']]; cbn [orb].
    + rewrite E, Z.mul_0_l, Rmult_0_l. destruct (Req_EM_T 0 0); [|done]. apply (delivered_zero F).
    + rewrite E', Z.mul_0_r, Rmult_0_l. destruct (Req_EM_T 0 0); [|done]. apply (delivered_zero F).
    + destruct (Req_EM_T _ 0) as [E0|E0]; [apply mant_0 in E0; nia|]. apply Hk; lia.
Qed.

End special.

(** ** Products *)

Lemma mul32_finite s p e mode flags : 0 < p < 2 ^ 64 -> - 2 ^ 20 < e < 2 ^ 20 ->
  delivered F32 mode (Finite s (IZR p * bpow (e - 190))) flags
    (let '(x_mnt, x_exp) := fp64_normalise p e in
     fp32_round (Z.b2z s) x_exp (u32 (lsr64 x_mnt 31 .| nz (lsl64 x_mnt 33))) mode flags).
Proof.
  intros Hp He. destruct (fp64_normalise p e) as [m e'] eqn:En. apply fp64_normalise_ok in En as (z & Hz & -> & -> & Hm); [|lia].
  change (64 - 1) with 63 in Hm. rewrite sticky31. set (X := sr (p * 2 ^ z) 31).
  assert (2 ^ 32 <= X < 2 ^ 33) as HX.
  { unfold X. pose proof (sr_range (p * 2 ^ z) 31 63 ltac:(lia) ltac:(change (63 + 1) with 64; lia)) as [_ Hu]. split; [|done].
    assert (2 ^ 32 <= p * 2 ^ z / 2 ^ 31) by (apply Z.div_le_lower_bound; lia).
    destruct (sr_cases (p * 2 ^ z) 31) as [[_ ->]|[_ ->]]; [done|]. generalize dependent (p * 2 ^ z / 2 ^ 31). intros. divlia. }
  assert (z < 64).
  { destruct (Z_lt_le_dec z 64) as [|Hl]; [done|]. apply pow2_le in Hl. nia. }
  replace (u32 X) with (X - 2 ^ 32) by (apply (Z.mod_unique_pos _ _ 1); lia).
  apply delivered_round32 with (d := 1) (V := (IZR (p * 2 ^ z) * bpow (- 31))%R); [lia..|now apply sr_exact|].
  rewrite IZR_scale, !Rmult_assoc, <- !bpow_add by lia. do 2 f_equal. lia.
Qed.

Lemma words_top x0 x1 : is_u64 x0 -> is_u64 x1 -> 2 ^ 127 <= v128 x0 x1 < 2 ^ 128 -> 2 ^ 63 <= x1 < 2 ^ 64.
Proof. unfold in_range, v128. lia. Qed.

Lemma round_words s x0 x1 e mode flags v : is_u64 x0 -> is_u64 x1 -> 2 ^ 127 <= v128 x0 x1 < 2 ^ 128 -> - 2 ^ 30 < e ->
  (v = IZR (v128 x0 x1) * bpow (e - 1150))%R ->
  delivered F64 mode (Finite s v) flags (fp64_round (Z.b2z s) e (u64 (x1 ≪ 1) .| nz x0) mode flags).
Proof.
  intros H0 H1 Hv He ->. destruct (sticky_words x0 x1 H0 (words_top x0 x1 H0 H1 Hv)) as (X & -> & HX & Hs).
  apply delivered_round64 with (d := 1) (V := (IZR (v128 x0 x1) * bpow (- 63))%R); [lia..|done|].
  rewrite !Rmult_assoc, <- !bpow_add. do 2 f_equal. lia.
Qed.

Lemma mul64_finite s ma mb e mode flags : 0 < ma < 2 ^ 62 -> 0 < mb < 2 ^ 62 -> - 2 ^ 20 < e < 2 ^ 20 ->
  delivered F64 mode (Finite s (IZR (ma * mb) * bpow (e - 1150))) flags
    (let '(x0_mnt, x1_mnt) := mul62x62 ma mb in
     let '(x0_mnt, x1_mnt, x_exp) := fp128_normalise x0_mnt x1_mnt e in
     fp64_round (Z.b2z s) x_exp (u64 (x1_mnt ≪ 1) .| nz x0_mnt) mode flags).
Proof.
  intros Ha Hb He. destruct (mul62x62_ok ma mb ltac:(lia) ltac:(lia)) as (x0 & x1 & -> & H0 & H1 & Hv).
  destruct (fp128_normalise_ok x0 x1 e H0 H1 ltac:(nia)) as (y0 & y1 & e' & -> & G0 & G1 & (z & Hz & Hm & -> & Hr)).
  change (128 - 1) with 127 in Hr. rewrite Hv in Hm. assert (z < 128).
  { destruct (Z_lt_le_dec z 128) as [|Hl]; [done|]. apply pow2_le in Hl. nia. }
  apply round_words; [done..|lia|]. rewrite Hm, IZR_scale, Rmult_assoc, <- bpow_add by lia. do 2 f_equal. lia.
Qed.

Lemma fp_mul_ok T a b mode flags : is_bits (fmt T) a -> is_bits (fmt T) b ->
  op_ok (fmt T) mode [a; b] (product (operand (fmt T) (mode_fz mode) a) (operand (fmt T) (mode_fz mode) b)) flags
    (match T with T32 => fp32_mul | T64 => fp64_mul end a b mode flags).
Proof.
  intros Ha Hb. destruct T; cbn [fmt] in *.
  - unfold fp32_mul. rewrite !unpack32, !gunpack_ok by done. cbv iota beta. rewrite unpack32, gunpack_ok by done. cbv iota beta.
    rewrite process_NaNs_32, <- Z.lor_assoc, <- flushed_cons.
    apply (nans_first F32 mode [a; b] _ flags (fun flags => _)); [done|all_bits|]. cbv beta.
    intros Hnan. rewrite chosen_nan_None in Hnan by done. set (fl := flags .| _). clearbody fl.
    apply (mul_special F32 eq_refl); [done..|apply Hnan; set_solver|apply Hnan; set_solver|]. cbv zeta. intros Hea Heb Hma Hmb.
    destruct (mant_range F32 a (mode_fz mode) Ha) as [Ra _]. destruct (mant_range F32 b (mode_fz mode) Hb) as [Rb _].
    change (fM F32 + 1) with 24 in Ra, Rb. change (emax F32) with 255 in Hea, Heb. change (bias F32) with 127. change (fM F32) with 23.
    set (ma := mant F32 (mode_fz mode) a) in *. set (mb := mant F32 (mode_fz mode) b) in *. clearbody ma mb.
    assert (0 < ma * mb < 2 ^ 24 * 2 ^ 24) by nia. rewrite b2z_xor, (u64_small (ma * mb)) by (unfold in_range; lia).
    replace (expo F32 a + expo F32 b - 2 * 127 - 2 * 23) with (expo F32 a + expo F32 b - 110 - 190) by lia.
    apply mul32_finite; lia.
  - unfold fp64_mul. rewrite !unpack64, !gunpack_ok by done. cbv iota beta. rewrite unpack64, gunpack_ok by done. cbv iota beta.
    rewrite process_NaNs_64, <- Z.lor_assoc, <- flushed_cons.
    apply (nans_first F64 mode [a; b] _ flags (fun flags => _)); [done|all_bits|]. cbv beta.
    intros Hnan. rewrite chosen_nan_None in Hnan by done. set (fl := flags .| _). clearbody fl.
    apply (mul_special F64 eq_refl); [done..|apply Hnan; set_solver|apply Hnan; set_solver|]. cbv zeta. intros Hea Heb Hma Hmb.
    destruct (mant_range F64 a (mode_fz mode) Ha) as [Ra _]. destruct (mant_range F64 b (mode_fz mode) Hb) as [Rb _].
    change (fM F64 + 1) with 53 in Ra, Rb. change (emax F64) with 2047 in Hea, Heb. change (bias F64) with 1023. change (fM F64) with 52.
    rewrite b2z_xor. replace (expo F64 a + expo F64 b - 2 * 1023 - 2 * 52) with (expo F64 a + expo F64 b - 1000 - 1150) by lia.
    apply mul64_finite; lia.
Qed.

(** C14: multiplication is correctly rounded: [fplibMul] returns the product of what the
    operands stand for, rounded as the register asks, with exactly the exceptions of
    IEEE 754; the product of an infinity and a zero is invalid. *)
Theorem fplibMul_correct T a b fpscr : is_bits (fmt T) a -> is_bits (fmt T) b -> in_range 32 fpscr ->
  exists x fl, fplibMul T a b fpscr = Ok (x, fpscr .| fl) /\
    computes (fmt T) (ctl_fz fpscr) (ctl_dn fpscr) (ctl_rm fpscr) [a; b]
      (product (operand (fmt T) (ctl_fz fpscr) a) (operand (fmt T) (ctl_fz fpscr) b)) x fl.
Proof.
  intros Ha Hb Hf.
  apply (with_flags0_ok (fmt T) fpscr [a; b] (fun fz rm => product (operand (fmt T) fz a) (operand (fmt T) fz b))); [done|].
  intros mode flags _. now apply fp_mul_ok.
Qed.

(** [2 * 3 = 6], exactly. *)
Lemma fplibMul_correct_witness : fplibMul T64 0x4000000000000000 0x4008000000000000 0 = Ok (0x4018000000000000, 0) /\
  exists x fl, fplibMul T64 0x4000000000000000 0x4008000000000000 0 = Ok (x, 0 .| fl) /\
    computes F64 (ctl_fz 0) (ctl_dn 0) (ctl_rm 0) [0x4000000000000000; 0x4008000000000000]
      (product (operand F64 (ctl_fz 0) 0x4000000000000000) (operand F64 (ctl_fz 0) 0x4008000000000000)) x fl.
Proof. split; [vm_compute; reflexivity|]. apply (fplibMul_correct T64 0x4000000000000000 0x4008000000000000 0); (split; [discriminate|reflexivity]). Defined.
