(* ===== verification/FpDiv.v ===== *)
(** * Floating-point division

    [fplibDiv] returns the quotient, correctly rounded, with the exceptions of IEEE
    754.  For 64 bits the code multiplies by a reciprocal that it refines by
    Newton's method; the estimate is never above the reciprocal and close enough to
    it for one comparison to find the integral part of the quotient. *)
From Stdlib Require Import Reals Lra.
From S2P Require Import Prelude FplibCore Fplib FpSpec FpBits FpFields FpRound FpOps FpMul.

(** ** Infinities and zeroes *)

Section special.
Context (F : format) {VF : Valid F} (HI : ieee F = true).

Lemma div_special a b mode flags k : is_bits F a -> is_bits F b -> is_nan F a = false -> is_nan F b = false ->
  let fz := mode_fz mode in
  let s := xorb (sign_of F a) (sign_of F b) in
  (1 <= expo F a < emax F -> 1 <= expo F b < emax F -> 0 < mant F fz a -> 0 < mant F fz b ->
   delivered F mode (Finite s (IZR (mant F fz a) / IZR (mant F fz b) * bpow (expo F a - expo F b))) flags k) ->
  delivered F mode (quotient (operand F fz a) (operand F fz b)) flags
    (if ((expo F a =? 2 ^ fE F - 1) && (expo F b =? 2 ^ fE F - 1)) || ((mant F fz a =? 0) && (mant F fz b =? 0))
     then Ok (gpack F 0 (2 ^ fE F - 1) (1 ≪ (fM F - 1)), flags .| FPLIB_IOC)
     else if (expo F a =? 2 ^ fE F - 1) || (mant F fz b =? 0)
     then Ok (gpack F (Z.b2z (sign_of F a) .^ Z.b2z (sign_of F b)) (2 ^ fE F - 1) 0,
              if negb (expo F a =? 2 ^ fE F - 1) then flags .| FPLIB_DZC else flags)
     else if (mant F fz a =? 0) || (expo F b =? 2 ^ fE F - 1)
     then Ok (gpack F (Z.b2z (sign_of F a) .^ Z.b2z (sign_of F b)) 0 0, flags)
     else k).
Proof.
  intros Ha Hb Hna Hnb fz s Hk. rewrite b2z_xor. fold s.
  destruct (mant_range F a fz Ha) as [[Hma _] _]. destruct (mant_range F b fz Hb) as [[Hmb _] _].
  destruct (operand_cases F HI a fz Ha Hna) as [(-> & -> & Hma0)|(-> & Hea & ->)];
    destruct (operand_cases F HI b fz Hb Hnb) as [(-> & -> & Hmb0)|(-> & Heb & ->)]; cbn [andb orb quotient negb].
  - now apply delivered_invalid.
  - rewrite (proj2 (Z.eqb_neq _ 0) Hma0). cbn [andb]. apply (delivered_infinite F HI _ _ s false).
  - rewrite (proj2 (Z.eqb_neq _ 0) Hmb0), andb_false_r, orb_true_r. apply (delivered_zero F).
  - rewrite orb_false_r. destruct (Req_EM_T (IZR (mant F fz b) * _) 0) as [E|E]; rewrite mant_0 in E.
    + rewrite E, Z.eqb_refl, andb_true_r. destruct (Req_EM_T (IZR (mant F fz a) * _) 0) as [E'|E']; rewrite mant_0 in E'.
      * rewrite E', Z.eqb_refl. now apply delivered_invalid.
      * rewrite (proj2 (Z.eqb_neq _ 0) E'). apply (delivered_infinite F HI _ _ s true).
    + rewrite (proj2 (Z.eqb_neq _ 0) E), andb_false_r. destruct (Req_EM_T (IZR (mant F fz a) * _) 0) as [E'|E']; rewrite mant_0 in E'.
      * rewrite E', Z.eqb_refl. apply (delivered_zero F).
      * rewrite (proj2 (Z.eqb_neq _ 0) E'). fold s. assert (IZR (mant F fz b) <> 0%R) as Hb0 by (intros ?%eq_IZR; done).
        pose proof (bpow_pos (expo F b - bias F - fM F)).
        replace (IZR (mant F fz a) * bpow (expo F a - bias F - fM F) / (IZR (mant F fz b) * bpow (expo F b - bias F - fM F)))%R
          with (IZR (mant F fz a) / IZR (mant F fz b) * bpow (expo F a - expo F b))%R; [apply Hk; lia|].
        replace (expo F a - bias F - fM F) with ((expo F a - expo F b) + (expo F b - bias F - fM F)) by lia.
        rewrite bpow_add. field. split; lra.
Qed.

End special.

(** ** Division of 32 bits *)

(** A quotient and whether it is exact. *)
Lemma same_quotient n d : 0 <= n -> 0 < d ->
  same 1 (n / d .| Z.b2z (negb (n / d * d =? n))) (IZR n / IZR d).
Proof.
  intros Hn Hd. pose proof (Z.div_mod n d ltac:(lia)) as D. pose proof (Z.mod_pos_bound n d Hd) as B.
  assert (0 < IZR d)%R as Hd' by now apply IZR_lt.
  destruct (Z.eqb_spec (n / d * d) n) as [E|E]; cbn [negb Z.b2z].
  - left. rewrite Z.lor_0_r. rewrite <- E at 1. rewrite mult_IZR. field. lra.
  - rewrite lor_1. set (q := n / d) in *. clearbody q. right. exists (q / 2). change (2 ^ 1) with 2. split; [lia|].
    assert (q / 2 * 2 <= q <= q / 2 * 2 + 1) as [Q1 Q2] by divlia.
    split; apply (Rmult_lt_reg_r (IZR d)); try done; unfold Rdiv; rewrite Rmult_assoc, Rinv_l, Rmult_1_r, <- mult_IZR by lra; apply IZR_lt; nia.
Qed.

(** Normalising 64 bits and rounding to 32. *)
Lemma norm64_round32 s x e m e' scale V mode flags : fp64_normalise x e = (m, e') ->
  1 <= x < 2 ^ 64 -> - 2 ^ 20 < e < 2 ^ 20 -> - 4 <= scale <= 0 -> same 1 x V -> (V = IZR x \/ 2 ^ 25 <= x \/ e <= 20) ->
  delivered F32 mode (Finite s (V * bpow (e - 190 + scale))) flags
    (fp32_round (Z.b2z s) (e' + scale) (u32 ((m ≫ 31) .| nz (u32 (m ≪ 1)))) mode flags).
Proof.
  intros En Hx He Hscale Hs Hex. apply fp64_normalise_ok in En as (z & Hz & -> & -> & Hm); [|lia].
  change (64 - 1) with 63 in Hm. rewrite sticky31w.
  set (X := sr (x * 2 ^ z) 31).
  assert (2 ^ 32 <= X < 2 ^ 33) as HX.
  { unfold X. pose proof (sr_range (x * 2 ^ z) 31 63 ltac:(lia) ltac:(change (63 + 1) with 64; lia)) as [_ Hu]. split; [|done].
    assert (2 ^ 32 <= x * 2 ^ z / 2 ^ 31) by (apply Z.div_le_lower_bound; lia).
    destruct (sr_cases (x * 2 ^ z) 31) as [[_ ->]|[_ ->]]; [done|]. generalize dependent (x * 2 ^ z / 2 ^ 31). intros. divlia. }
  assert (z < 64). { destruct (Z_lt_le_dec z 64) as [|Hl]; [done|]. apply pow2_le in Hl. nia. }
  assert (2 ^ 25 <= x -> z <= 38). { intros. destruct (Z_lt_le_dec z 39) as [|Hl]; [lia|]. apply pow2_le in Hl. nia. }
  replace (u32 X) with (X - 2 ^ 32) by (apply (Z.mod_unique_pos _ _ 1); lia).
  assert (same (Z.max 1 (1 + z - 31)) X (V * bpow z * bpow (- 31))) as HsX by (apply same_sr; [lia..|apply same_shl; [lia..|done]]).
  assert (V * bpow (e - 190 + scale) = V * bpow z * bpow (- 31) * bpow (e - z + scale - 159))%R as Ev.
  { rewrite !Rmult_assoc, <- !bpow_add. do 2 f_equal. lia. }
  destruct Hex as [->|Hx25].
  - apply delivered_round32 with (d := 1) (V := (IZR (x * 2 ^ z) * bpow (- 31))%R); [lia..|now apply sr_exact|].
    rewrite IZR_scale by lia. done.
  - apply delivered_round32 with (d := Z.max 1 (1 + z - 31)) (V := (V * bpow z * bpow (- 31))%R); [lia..|done|done].
Qed.

Lemma div32_finite s ma mb ea eb mode flags : 0 < ma < 2 ^ 24 -> 0 < mb < 2 ^ 24 -> 1 <= ea < 2 ^ 16 -> 1 <= eb < 2 ^ 16 ->
  delivered F32 mode (Finite s (IZR ma / IZR mb * bpow (ea - eb))) flags
    (let '(a_mnt, a_exp) := fp32_normalise ma ea in
     let x_exp := a_exp - eb + 172 in
     let x_mnt := u64 (a_mnt ≪ 18) / mb in
     let x_mnt := x_mnt .| Z.b2z (negb (u64 (x_mnt * mb) =? u64 (a_mnt ≪ 18))) in
     let '(x_mnt, x_exp) := fp64_normalise x_mnt x_exp in
     let x_mnt := (x_mnt ≫ 31) .| nz (u32 (x_mnt ≪ 1)) in
     fp32_round (Z.b2z s) x_exp (u32 x_mnt) mode flags).
Proof.
  intros Ha Hb Hea Heb. destruct (fp32_normalise ma ea) as [A e'] eqn:En. apply fp32_normalise_ok in En as (z & Hz & -> & -> & Hm); [|lia].
  change (32 - 1) with 31 in Hm. cbv zeta. assert (z < 32). { destruct (Z_lt_le_dec z 32) as [|Hl]; [done|]. apply pow2_le in Hl. nia. }
  rewrite Z.shiftl_mul_pow2, (u64_small (ma * 2 ^ z * 2 ^ 18)) by (unfold in_range; lia). set (N := ma * 2 ^ z * 2 ^ 18) in *.
  assert (2 ^ 49 <= N < 2 ^ 50) as HN by lia.
  assert (0 <= N / mb * mb <= N) as Hq.
  { pose proof (Z.mul_div_le N mb ltac:(lia)). pose proof (Z.div_pos N mb ltac:(lia) ltac:(lia)). nia. }
  rewrite (u64_small (N / mb * mb)) by (unfold in_range; lia).
  pose proof (same_quotient N mb ltac:(lia) ltac:(lia)) as Hs. set (x := N / mb .| _) in *.
  assert (2 ^ 25 <= x < 2 ^ 64) as Hx.
  { assert (2 ^ 25 <= N / mb) by (apply Z.div_le_lower_bound; lia). assert (N / mb <= 2 ^ 50) by nia. unfold x.
    destruct (negb _); cbn [Z.b2z]; [rewrite lor_1|rewrite Z.lor_0_r]; generalize dependent (N / mb); intros; divlia. }
  replace (IZR ma / IZR mb * bpow (ea - eb))%R with (IZR N / IZR mb * bpow (ea - z - eb + 172 - 190))%R.
  - destruct (fp64_normalise x _) as [m e'] eqn:En'. rewrite <- (Z.add_0_r e'), <- (Z.add_0_r (_ - 190)).
    apply (norm64_round32 _ x _ _ _ _ _ _ _ En'); [lia..|done|lia].
  - unfold N. rewrite !IZR_scale by lia. assert (0 < IZR mb)%R by (apply IZR_lt; lia). unfold Rdiv.
    rewrite !Rmult_assoc, (Rmult_comm (/ _)), <- !Rmult_assoc, (Rmult_assoc (IZR ma)), <- bpow_add, (Rmult_assoc (IZR ma)), <- bpow_add.
    replace (z + 18 + (ea - z - eb + 172 - 190)) with (ea - eb) by lia. ring.
Qed.

(** ** Division of 64 bits *)

(** The factors of a power of two. *)
Lemma pow2_factor n : forall x y, 0 < x -> x * y = 2 ^ Z.of_nat n -> exists k, 0 <= k /\ x = 2 ^ k.
Proof.
  induction n as [|n IH]; intros x y Hx E.
  - exists 0. split; [lia|]. change (2 ^ Z.of_nat 0) with 1 in E. apply Z.eq_mul_1_nonneg in E as [-> _]; [done|lia].
  - rewrite Nat2Z.inj_succ, Z.pow_succ_r in E by lia. destruct (Zeven_odd_dec x) as [He|Ho].
    + apply Zeven_ex in He as [m ->]. destruct (IH m y) as (k & Hk & ->); [lia|nia|].
      exists (Z.succ k). split; [lia|]. now rewrite Z.pow_succ_r.
    + destruct (Zeven_odd_dec y) as [He|Ho'].
      * apply Zeven_ex in He as [m ->]. apply (IH x m); [lia|nia].
      * apply Zodd_ex in Ho as [m ->]. apply Zodd_ex in Ho' as [m' ->]. nia.
Qed.

(** The first estimate of the reciprocal is within one unit. *)
Lemma estimate_bounds B h r : 2 ^ 63 <= B < 2 ^ 64 -> h = B / 2 ^ 31 -> r = (2 ^ 64 - 1) / h ->
  0 < r < 2 ^ 32 /\ 2 ^ 95 - 2 ^ 64 <= B * r <= 2 ^ 95 + 2 ^ 63 /\ B * r <> 2 ^ 95.
Proof.
  intros HB Hh Hr. assert (h * 2 ^ 31 <= B < (h + 1) * 2 ^ 31) as Bh by (subst h; divlia).
  assert (2 ^ 32 <= h < 2 ^ 33) as Rh by lia.
  assert (r * h <= 2 ^ 64 - 1 < (r + 1) * h) as Brh.
  { subst r. pose proof (Z.div_mod (2 ^ 64 - 1) h ltac:(lia)). pose proof (Z.mod_pos_bound (2 ^ 64 - 1) h ltac:(lia)). nia. }
  assert (0 < r < 2 ^ 32) as Rr by (split; nia). split; [done|]. split; [split; nia|].
  intros E. destruct (pow2_factor 95 r B) as (k & Hk & ->); [lia|change (Z.of_nat 95) with 95; lia|].
  destruct (Z_lt_le_dec k 32) as [Hl|Hl]; [|apply pow2_le in Hl; lia].
  pose proof (pow2_le k 31 ltac:(lia)). nia.
Qed.

(** One step of Newton's method: never above the reciprocal, and less than three units below it. *)
Lemma newton_bounds B r q R : 2 ^ 63 <= B < 2 ^ 64 -> 0 < r < 2 ^ 32 ->
  2 ^ 95 - 2 ^ 64 <= B * r <= 2 ^ 95 + 2 ^ 63 -> B * r <> 2 ^ 95 ->
  q * 2 ^ 32 <= 2 ^ 96 - B * r < (q + 1) * 2 ^ 32 -> R * 2 ^ 33 <= q * r < (R + 1) * 2 ^ 33 ->
  R * B < 2 ^ 125 < (R + 3) * B.
Proof.
  intros HB Hr HP HPne Hq HR. set (P := B * r) in *.
  assert (0 < (2 ^ 95 - P) * (2 ^ 95 - P) <= 2 ^ 64 * 2 ^ 64) as Hsq by nia.
  assert (2 ^ 96 * P - P * P = 2 ^ 95 * 2 ^ 95 - (2 ^ 95 - P) * (2 ^ 95 - P)) as Esq by (change (2 ^ 96) with (2 * 2 ^ 95); ring).
  assert (q * 2 ^ 32 * P <= (2 ^ 96 - P) * P) as H1 by (apply Z.mul_le_mono_nonneg_r; lia).
  assert ((2 ^ 96 - P) * P <= (q + 1) * 2 ^ 32 * P) as H2 by (apply Z.mul_le_mono_nonneg_r; lia).
  assert (q * P = q * r * B) as EP by (unfold P; ring).
  assert (R * 2 ^ 33 * B <= q * P) as H3 by (rewrite EP; apply Z.mul_le_mono_nonneg_r; lia).
  assert (q * P < (R + 1) * 2 ^ 33 * B) as H4 by (rewrite EP; apply Z.mul_lt_mono_pos_r; lia).
  clear EP. clearbody P. split; nia.
Qed.

(** The quotient from the reciprocal: the estimate [x] is below the quotient, and less than two below it. *)
Lemma quotient_bounds A B R x : 0 < A < 2 ^ 64 -> 2 ^ 63 <= B -> R * B < 2 ^ 125 < (R + 3) * B ->
  x * 2 ^ 68 <= R * (A / 4) < (x + 1) * 2 ^ 68 -> (4 | A) -> x * B < A * 2 ^ 55 < (x + 2) * B.
Proof.
  intros HA HB HR Hx [a ->]. rewrite Z.div_mul in Hx by lia.
  assert (R * B * a < 2 ^ 125 * a) as H1 by (apply Z.mul_lt_mono_pos_r; lia).
  assert (2 ^ 125 * a < (R + 3) * B * a) as H2 by (apply Z.mul_lt_mono_pos_r; lia).
  assert (x * 2 ^ 68 * B <= R * a * B) as H3 by (apply Z.mul_le_mono_nonneg_r; lia).
  assert (R * a * B <= (x + 1) * 2 ^ 68 * B) as H4 by (apply Z.mul_le_mono_nonneg_r; lia).
  assert (B * a * 3 <= B * 2 ^ 64) as H5 by nia.
  split; [clear H2 H4 H5; nia|nia].
Qed.

(** The reciprocal of the code. *)
Lemma recip64_ok B (k : Z -> result (Z * Z)) : 2 ^ 63 <= B < 2 ^ 64 ->
  exists R, R * B < 2 ^ 125 < (R + 3) * B /\ 0 <= R < 2 ^ 62 /\
  (let x_mnt := u64 (Z.lnot 0) / (B ≫ 31) in
   let '(x0_mnt, x1_mnt) := mul64x32 B x_mnt in
   let '(x0_mnt, x1_mnt) := sub128 0 (1 ≪ 32) x0_mnt x1_mnt in
   let* '(x0_mnt, x1_mnt) := lsr128 x0_mnt x1_mnt 32 in
   let '(x0_mnt, x1_mnt) := mul64x32 x0_mnt x_mnt in
   let* '(x0_mnt, x1_mnt) := lsr128 x0_mnt x1_mnt 33 in k x0_mnt) = k R.
Proof.
  intros HB. cbv zeta. rewrite Z.shiftr_div_pow2 by lia. change (u64 (Z.lnot 0)) with (2 ^ 64 - 1). change (1 ≪ 32) with (2 ^ 32).
  destruct (estimate_bounds B (B / 2 ^ 31) _ HB eq_refl eq_refl) as (Hr & HP & HPne). set (r := (2 ^ 64 - 1) / (B / 2 ^ 31)) in *. clearbody r.
  destruct (mul64x32_ok B r) as (x0 & x1 & -> & H0 & H1 & Hv); [unfold in_range; lia|lia|].
  destruct (sub128_ok 0 (2 ^ 32) x0 x1) as (y0 & y1 & -> & G0 & G1 & Gv); [done..|rewrite Hv; unfold v128; lia|].
  replace (v128 0 (2 ^ 32)) with (2 ^ 96) in Gv by reflexivity. rewrite Hv in Gv.
  destruct (lsr128_ok y0 y1 32) as (q0 & q1 & -> & I0 & I1 & Iv); [done..|lia|]. cbn [rbind]. rewrite Gv in Iv.
  assert (q1 = 0 /\ q0 = (2 ^ 96 - B * r) / 2 ^ 32) as [-> ->].
  { unfold in_range, v128 in *. assert ((2 ^ 96 - B * r) / 2 ^ 32 < 2 ^ 64) by (apply Z.div_lt_upper_bound; nia). lia. }
  set (q := (2 ^ 96 - B * r) / 2 ^ 32) in *. assert (q * 2 ^ 32 <= 2 ^ 96 - B * r < (q + 1) * 2 ^ 32) as Hq by (unfold q; divlia). clearbody q.
  destruct (mul64x32_ok q r) as (w0 & w1 & -> & J0 & J1 & Jv); [done|lia|].
  destruct (lsr128_ok w0 w1 33) as (R & R1 & -> & K0 & K1 & Kv); [done..|lia|]. cbn [rbind]. rewrite Jv in Kv.
  unfold in_range in *. assert (q * r < 2 ^ 96) by nia.
  assert (R1 = 0 /\ R = q * r / 2 ^ 33) as [-> ->].
  { unfold v128 in *. assert (q * r / 2 ^ 33 < 2 ^ 64) by (apply Z.div_lt_upper_bound; lia). lia. }
  set (R := q * r / 2 ^ 33) in *. assert (R * 2 ^ 33 <= q * r < (R + 1) * 2 ^ 33) as HR by (unfold R; divlia). clearbody R.
  pose proof (newton_bounds B r q R HB Hr HP HPne Hq HR). exists R. split_and!; [lia|lia|lia|nia|done].
Qed.

(** The quotient of the code: its integral part, and whether it is exact. *)
Lemma quot64_ok A B R (k : Z -> Z -> result (Z * Z)) : 2 ^ 63 <= A < 2 ^ 64 -> 2 ^ 63 <= B < 2 ^ 64 -> (2 ^ 11 | A) -> (2 ^ 11 | B) ->
  R * B < 2 ^ 125 < (R + 3) * B -> 0 <= R < 2 ^ 62 ->
  exists x c, 2 ^ 54 <= x < 2 ^ 57 /\ (c = 0 /\ A * 2 ^ 55 = x * B \/ c <> 0 /\ x * B < A * 2 ^ 55 < (x + 1) * B) /\
  (let '(x0_mnt, x1_mnt) := mul62x62 R (A ≫ 2) in
   let* '(x0_mnt, x1_mnt) := lsr128 x0_mnt x1_mnt 4 in
   let x_mnt := x1_mnt in
   let '(x0_mnt, x1_mnt) := mul62x62 (B ≫ 2) (u64 (x_mnt + 1)) in
   let c := cmp128 x0_mnt x1_mnt 0 (A ≫ 11) in
   let x_mnt := if c <=? 0 then u64 (x_mnt + 1) else x_mnt in k x_mnt c) = k x c.
Proof.
  intros HA HB DA DB HR HR62. rewrite !Z.shiftr_div_pow2 by lia. change (2 ^ 2) with 4.
  destruct (mul62x62_ok R (A / 4)) as (x0 & x1 & -> & H0 & H1 & Hv); [lia|divlia|].
  destruct (lsr128_ok x0 x1 4) as (y0 & x & -> & G0 & G1 & Gv); [done..|lia|]. cbn [rbind]. cbv zeta. rewrite Hv in Gv.
  assert (x * 2 ^ 68 <= R * (A / 4) < (x + 1) * 2 ^ 68) as Hx by (unfold in_range, v128 in *; divlia).
  assert (4 | A) as DA4 by (apply (Z.divide_trans _ (2 ^ 11)); [now exists 512|done]).
  pose proof (quotient_bounds A B R x ltac:(lia) ltac:(lia) HR Hx DA4) as Hxb. unfold in_range in *.
  assert (x < 2 ^ 56) by nia. rewrite (u64_small (x + 1)) by (unfold in_range; lia).
  destruct (mul62x62_ok (B / 4) (x + 1)) as (w0 & w1 & -> & J0 & J1 & Jv); [divlia|lia|].
  destruct DA as [a ->]. destruct DB as [b ->]. assert (0 <= a < 2 ^ 53) by lia.
  rewrite cmp128_ok, Jv; [|done|done|done|unfold in_range; rewrite Z.div_mul; lia].
  rewrite Z.div_mul by lia. replace (b * 2 ^ 11 / 4) with (b * 2 ^ 9) by (change (2 ^ 11) with (2 ^ 9 * 4); now rewrite Z.mul_assoc, Z.div_mul).
  unfold v128. rewrite Z.add_0_r.
  assert (2 ^ 54 <= x) by nia.
  destruct (Z.compare_spec (b * 2 ^ 9 * (x + 1)) (a * 2 ^ 64)) as [E|E|E].
  - exists (x + 1), 0. split_and!; [lia|lia| |done]. left. split; [done|lia].
  - exists (x + 1), (-1). split_and!; [lia|lia| |done]. right. split; [done|lia].
  - exists x, 1. split_and!; [lia|lia| |done]. right. split; [done|lia].
Qed.

(** Normalising an integral part with a sticky bit of its own, and rounding it. *)
Lemma norm64_round64 s x c t e mode flags v : 2 ^ 53 <= x < 2 ^ 64 -> - 2 ^ 20 < e < 2 ^ 20 ->
  (c = 0 /\ t = IZR x \/ c <> 0 /\ (IZR x < t < IZR (x + 1))%R) -> (v = t * bpow (e - 1086))%R ->
  delivered F64 mode (Finite s v) flags
    (let '(x_mnt, x_exp) := fp64_normalise x e in fp64_round (Z.b2z s) x_exp (u64 (x_mnt ≪ 1) .| nz c) mode flags).
Proof.
  intros Hx He Ht ->. destruct (fp64_normalise x e) as [m e'] eqn:En. apply fp64_normalise_ok in En as (z & Hz & -> & -> & Hm); [|lia].
  change (64 - 1) with 63 in Hm. assert (z < 11). { destruct (Z_lt_le_dec z 11) as [|Hl]; [done|]. apply pow2_le in Hl. nia. }
  unfold u64. rewrite wrap_shl by lia. change (64 - 1) with 63. replace ((x * 2 ^ z) mod 2 ^ 63) with (x * 2 ^ z - 2 ^ 63) by (apply (Z.mod_unique_pos _ _ 1); lia).
  assert (0 <= nz c < 2) as Hn by (destruct (nz_01 c) as [[-> _]|[-> _]]; lia). rewrite lor_add by (change (2 ^ 1) with 2; lia).
  replace ((x * 2 ^ z - 2 ^ 63) * 2 ^ 1 + nz c) with ((x * 2 ^ (z + 1) + nz c) - 2 ^ 64) by (rewrite pow2_split by lia; change (2 ^ 1) with 2; lia).
  apply delivered_round64 with (d := z + 1) (V := (t * bpow (z + 1))%R); [lia|rewrite pow2_split by lia; change (2 ^ 1) with 2; lia|lia|lia| |].
  - destruct Ht as [[-> ->]|[Hc Ht]].
    + left. change (nz 0) with 0. now rewrite Z.add_0_r, IZR_scale by lia.
    + right. exists x. destruct (nz_01 c) as [[_ ?]|[-> _]]; [done|]. pose proof (pow2_lt 0 (z + 1) ltac:(lia) ltac:(lia)).
      split; [lia|]. rewrite !IZR_scale, <- !bpow_scale_lt by lia. done.
  - rewrite !Rmult_assoc, <- !bpow_add. do 2 f_equal. lia.
Qed.

Lemma div64_finite s ma mb ea eb mode flags : 0 < ma < 2 ^ 53 -> 0 < mb < 2 ^ 53 -> 1 <= ea < 2 ^ 16 -> 1 <= eb < 2 ^ 16 ->
  delivered F64 mode (Finite s (IZR ma / IZR mb * bpow (ea - eb))) flags
    (let '(a_mnt, a_exp) := fp64_normalise ma ea in
     let '(b_mnt, b_exp) := fp64_normalise mb eb in
     let x_mnt := u64 (Z.lnot 0) / (b_mnt ≫ 31) in
     let '(x0_mnt, x1_mnt) := mul64x32 b_mnt x_mnt in
     let '(x0_mnt, x1_mnt) := sub128 0 (1 ≪ 32) x0_mnt x1_mnt in
     let* '(x0_mnt, x1_mnt) := lsr128 x0_mnt x1_mnt 32 in
     let '(x0_mnt, x1_mnt) := mul64x32 x0_mnt x_mnt in
     let* '(x0_mnt, x1_mnt) := lsr128 x0_mnt x1_mnt 33 in
     let x_exp := a_exp - b_exp + 1031 in
     let '(x0_mnt, x1_mnt) := mul62x62 x0_mnt (a_mnt ≫ 2) in
     let* '(x0_mnt, x1_mnt) := lsr128 x0_mnt x1_mnt 4 in
     let x_mnt := x1_mnt in
     let '(x0_mnt, x1_mnt) := mul62x62 (b_mnt ≫ 2) (u64 (x_mnt + 1)) in
     let c := cmp128 x0_mnt x1_mnt 0 (a_mnt ≫ 11) in
     let x_mnt := if c <=? 0 then u64 (x_mnt + 1) else x_mnt in
     let '(x_mnt, x_exp) := fp64_normalise x_mnt x_exp in
     fp64_round (Z.b2z s) x_exp (u64 (x_mnt ≪ 1) .| nz c) mode flags).
Proof.
  intros Ha Hb Hea Heb.
  destruct (fp64_normalise ma ea) as [A a_exp] eqn:En. apply fp64_normalise_ok in En as (z1 & Hz1 & -> & -> & HA); [|lia].
  destruct (fp64_normalise mb eb) as [B b_exp] eqn:En. apply fp64_normalise_ok in En as (z2 & Hz2 & -> & -> & HB); [|lia].
  change (64 - 1) with 63 in *.
  assert (forall m z, 0 < m < 2 ^ 53 -> 0 <= z -> 2 ^ 63 <= m * 2 ^ z < 2 ^ 64 -> 11 <= z < 64 /\ (2 ^ 11 | m * 2 ^ z)) as Hdiv.
  { intros m z Hm Hz Hr. assert (11 <= z). { destruct (Z_lt_le_dec z 11) as [Hl|]; [|done]. pose proof (pow2_le z 10 ltac:(lia)). nia. }
    split; [split; [done|]|].
    - destruct (Z_lt_le_dec z 64) as [|Hl]; [done|]. apply pow2_le in Hl. nia.
    - exists (m * 2 ^ (z - 11)). rewrite <- Z.mul_assoc, <- pow2_split by lia. do 2 f_equal. lia. }
  destruct (Hdiv ma z1 Ha Hz1 HA) as [Z1 DA]. destruct (Hdiv mb z2 Hb Hz2 HB) as [Z2 DB].
  set (A := ma * 2 ^ z1) in *. set (B := mb * 2 ^ z2) in *.
  destruct (recip64_ok B (fun x0_mnt =>
     let x_exp := ea - z1 - (eb - z2) + 1031 in
     let '(x0_mnt, x1_mnt) := mul62x62 x0_mnt (A ≫ 2) in
     let* '(x0_mnt, x1_mnt) := lsr128 x0_mnt x1_mnt 4 in
     let x_mnt := x1_mnt in
     let '(x0_mnt, x1_mnt) := mul62x62 (B ≫ 2) (u64 (x_mnt + 1)) in
     let c := cmp128 x0_mnt x1_mnt 0 (A ≫ 11) in
     let x_mnt := if c <=? 0 then u64 (x_mnt + 1) else x_mnt in
     let '(x_mnt, x_exp) := fp64_normalise x_mnt x_exp in
     fp64_round (Z.b2z s) x_exp (u64 (x_mnt ≪ 1) .| nz c) mode flags) HB) as (R & HR & HR62 & ->).
  destruct (quot64_ok A B R (fun x_mnt c =>
     let '(x_mnt, x_exp) := fp64_normalise x_mnt (ea - z1 - (eb - z2) + 1031) in
     fp64_round (Z.b2z s) x_exp (u64 (x_mnt ≪ 1) .| nz c) mode flags) HA HB DA DB HR HR62) as (x & c & Hx & Hc & E).
  cbv beta zeta in E |- *. rewrite E. clear E.
  assert (0 < IZR B)%R as HBpos by (apply IZR_lt; lia).
  apply norm64_round64 with (t := (IZR (A * 2 ^ 55) / IZR B)%R); [lia|lia| |].
  - destruct Hc as [[-> E]|[Hc0 [L1%IZR_lt L2%IZR_lt]]]; [left|right]; (split; [done|]).
    + rewrite E, mult_IZR. field. lra.
    + rewrite !mult_IZR in *. split; apply (Rmult_lt_reg_r (IZR B)); try done; unfold Rdiv; rewrite (Rmult_assoc _ (/ _)), Rinv_l by lra; lra.
  - unfold A, B. rewrite !IZR_scale by lia. assert (0 < IZR mb)%R by (apply IZR_lt; lia). pose proof (bpow_pos z2).
    replace (ea - eb) with (z1 + 55 - z2 + (ea - z1 - (eb - z2) + 1031 - 1086)) by lia. unfold Z.sub at 1. rewrite !bpow_add.
    pose proof (bpow_opp z2) as Hinv. replace (bpow (- z2)) with (/ bpow z2)%R; [field; lra|].
    apply (Rmult_eq_reg_l (bpow z2)); [|lra]. rewrite Hinv. apply Rinv_r. lra.
Qed.

Lemma fp_div_ok T a b mode flags : is_bits (fmt T) a -> is_bits (fmt T) b ->
  op_ok (fmt T) mode [a; b] (quotient (operand (fmt T) (mode_fz mode) a) (operand (fmt T) (mode_fz mode) b)) flags
    (match T with T32 => fp32_div | T64 => fp64_div end a b mode flags).
Proof.
  intros Ha Hb. destruct T; cbn [fmt] in *.
  - unfold fp32_div. rewrite unpack32, gunpack_ok by done. cbv iota beta. rewrite unpack32, gunpack_ok by done. cbv iota beta.
    rewrite process_NaNs_32, <- Z.lor_assoc, <- flushed_cons.
    apply (nans_first F32 mode [a; b] _ flags (fun flags => _)); [done|all_bits|]. cbv beta.
    intros Hnan. rewrite chosen_nan_None in Hnan by done. set (fl := flags .| _). clearbody fl.
    apply (div_special F32 eq_refl); [done..|apply Hnan; set_solver|apply Hnan; set_solver|]. cbv zeta. intros Hea Heb Hma Hmb.
    destruct (mant_range F32 a (mode_fz mode) Ha) as [Ra _]. destruct (mant_range F32 b (mode_fz mode) Hb) as [Rb _].
    change (fM F32 + 1) with 24 in Ra, Rb. change (emax F32) with 255 in Hea, Heb.
    rewrite b2z_xor. apply div32_finite; lia.
  - unfold fp64_div. rewrite unpack64, gunpack_ok by done. cbv iota beta. rewrite unpack64, gunpack_ok by done. cbv iota beta.
    rewrite process_NaNs_64, <- Z.lor_assoc, <- flushed_cons.
    apply (nans_first F64 mode [a; b] _ flags (fun flags => _)); [done|all_bits|]. cbv beta.
    intros Hnan. rewrite chosen_nan_None in Hnan by done. set (fl := flags .| _). clearbody fl.
    apply (div_special F64 eq_refl); [done..|apply Hnan; set_solver|apply Hnan; set_solver|]. cbv zeta. intros Hea Heb Hma Hmb.
    destruct (mant_range F64 a (mode_fz mode) Ha) as [Ra _]. destruct (mant_range F64 b (mode_fz mode) Hb) as [Rb _].
    change (fM F64 + 1) with 53 in Ra, Rb. change (emax F64) with 2047 in Hea, Heb.
    rewrite b2z_xor. apply div64_finite; lia.
Qed.

(** C12: division is correctly rounded: [fplibDiv] returns the quotient of what the
    operands stand for, rounded as the register asks, with exactly the exceptions of
    IEEE 754; a number divided by zero is an infinity and raises the exception for
    it, and [0 / 0] and the quotient of two infinities are invalid.  The 64-bit
    division meets this by a single Newton step and one comparison. *)
Theorem fplibDiv_correct T a b fpscr : is_bits (fmt T) a -> is_bits (fmt T) b -> in_range 32 fpscr ->
  exists x fl, fplibDiv T a b fpscr = Ok (x, fpscr .| fl) /\
    computes (fmt T) (ctl_fz fpscr) (ctl_dn fpscr) (ctl_rm fpscr) [a; b]
      (quotient (operand (fmt T) (ctl_fz fpscr) a) (operand (fmt T) (ctl_fz fpscr) b)) x fl.
Proof.
  intros Ha Hb Hf.
  apply (with_flags0_ok (fmt T) fpscr [a; b] (fun fz rm => quotient (operand (fmt T) fz a) (operand (fmt T) fz b))); [done|].
  intros mode flags _. now apply fp_div_ok.
Qed.

(** [1 / 3] is inexact. *)
Lemma fplibDiv_correct_witness : fplibDiv T64 0x3ff0000000000000 0x4008000000000000 0 = Ok (0x3fd5555555555555, 16) /\
  exists x fl, fplibDiv T64 0x3ff0000000000000 0x4008000000000000 0 = Ok (x, 0 .| fl) /\
    computes F64 (ctl_fz 0) (ctl_dn 0) (ctl_rm 0) [0x3ff0000000000000; 0x4008000000000000]
      (quotient (operand F64 (ctl_fz 0) 0x3ff0000000000000) (operand F64 (ctl_fz 0) 0x4008000000000000)) x fl.
Proof. split; [vm_compute; reflexivity|]. apply (fplibDiv_correct T64 0x3ff0000000000000 0x4008000000000000 0); (split; [discriminate|reflexivity]). Defined.
