(* ===== verification/FpSqrt.v ===== *)
(** * Floating-point square root

    [fplibSqrt] returns the square root, correctly rounded, with the exceptions of
    IEEE 754.  The code approximates the root by a line and improves it by Newton's
    method, with fewer bits at first; the last approximation is close enough for
    one comparison to find the integral part of the root. *)
From Stdlib Require Import Reals Lra.
From S2P Require Import Prelude FplibCore Fplib FpSpec FpBits FpFields FpRound FpOps FpMul FpDiv.

(** ** Definitions *)

(** The approximations of the code: by a line, and by steps with 16 bits of the quotient. *)
Definition line (A : Z) : Z := A / 4 + A / 8 + 5 * 2 ^ 28.
Definition coarse (A x : Z) : Z := (A / (x / 2 ^ 15) + x / 2 ^ 16) * 2 ^ 15.

(** ** Newton's method *)

Lemma sq_le x y : (0 <= y -> x * x <= y * y -> x <= y)%R.
Proof. intros. nra. Qed.

Lemma sq_lt x y : (0 <= y -> x * x < y * y -> x < y)%R.
Proof. intros. nra. Qed.

(** A step of the code from [x] to [x'], up to the bits it drops. *)
Lemma newton_step s x x' lo hi c d :
  (0 < s)%R -> (0 < c)%R -> (c * s <= x)%R -> (Rabs (x - s) <= d * s)%R ->
  (s * s + x * x - 2 * x * lo <= 2 * x * x' <= s * s + x * x + 2 * x * hi)%R ->
  (s - lo <= x' <= s + d * d / (2 * c) * s + hi)%R.
Proof.
  intros Hs Hc Hx Hd [H1 H2]. assert (0 < x)%R by nra. split.
  - pose proof (Rle_0_sqr (x - s)) as Hq. unfold Rsqr in Hq. apply (Rmult_le_reg_l (2 * x)); lra.
  - assert ((x - s) * (x - s) <= d * d * (s * s))%R as Hsq.
    { assert (- (d * s) <= x - s <= d * s)%R as Hd' by (revert Hd; unfold Rabs; destruct Rcase_abs; lra). replace (d * d * (s * s))%R with ((d * s) * (d * s))%R by ring. clear -Hd'. nra. }
    assert (d * d * (s * s) <= 2 * x * (d * d / (2 * c) * s))%R as Hk.
    { replace (2 * x * (d * d / (2 * c) * s))%R with (d * d * s * (x / c))%R by (field; lra).
      assert (s <= x / c)%R by (apply (Rmult_le_reg_r c); [lra|]; unfold Rdiv; rewrite Rmult_assoc, Rinv_l by lra; lra).
      assert (0 <= d * d * s)%R by nra. nra. }
    apply (Rmult_le_reg_l (2 * x)); lra.
Qed.

(** The first steps, with 16 bits of the quotient. *)
Lemma coarse_step A x : 2 ^ 30 <= A < 2 ^ 32 -> 2 ^ 30 <= x < 2 ^ 32 -> A * 2 ^ 31 * 9 <= 10 * (x * x) ->
  A * 2 ^ 31 + x * x - 2 * x * 2 ^ 16 <= 2 * x * coarse A x <= A * 2 ^ 31 + x * x + 2 * x * 2 ^ 15.
Proof.
  intros HA Hx Hs. unfold coarse. set (d := x / 2 ^ 15). set (h := x / 2 ^ 16).
  assert (d * 2 ^ 15 <= x < (d + 1) * 2 ^ 15) as Hd by (unfold d; divlia).
  assert (h * 2 ^ 16 <= x < (h + 1) * 2 ^ 16) as Hh by (unfold h; divlia). clearbody d h.
  assert (2 ^ 15 <= d) by lia. set (q := A / d).
  assert (q * d <= A < (q + 1) * d) as Hq.
  { unfold q. pose proof (Z.div_mod A d ltac:(lia)). pose proof (Z.mod_pos_bound A d ltac:(lia)). nia. }
  assert (0 <= q) by (unfold q; apply Z.div_pos; lia). clearbody q.
  split; nia.
Qed.

Lemma line_bounds A : 2 ^ 30 <= A < 2 ^ 32 ->
  2 ^ 30 <= line A < 2 ^ 32 /\ A * 2 ^ 31 * 9 <= 10 * (line A * line A) /\ 400 * (line A * line A) <= 529 * (A * 2 ^ 31).
Proof.
  intros HA. assert (3 * A + 40 * 2 ^ 28 - 14 <= 8 * line A <= 3 * A + 40 * 2 ^ 28) as Hl by (unfold line; divlia).
  generalize dependent (line A). intros x Hl. split; [lia|].
  assert (0 <= 3 * A + 40 * 2 ^ 28 - 14) by lia. split.
  - assert ((3 * A + 40 * 2 ^ 28 - 14) * (3 * A + 40 * 2 ^ 28 - 14) <= 8 * x * (8 * x)) by (apply Z.mul_le_mono_nonneg; lia).
    pose proof (Z.square_nonneg (A - 3293000000)). lia.
  - assert (8 * x * (8 * x) <= (3 * A + 40 * 2 ^ 28) * (3 * A + 40 * 2 ^ 28)) by (apply Z.mul_le_mono_nonneg; lia).
    assert (0 <= (A - 2 ^ 30) * (2 ^ 32 - A)) by (apply Z.mul_nonneg_nonneg; lia). lia.
Qed.

Section root.
Context (A : Z) (HA : 2 ^ 30 <= A < 2 ^ 32) (s : R) (Hs : (0 <= s)%R) (HsA : (s * s = IZR (A * 2 ^ 31))%R).

Lemma root_range : (1518500249 <= s <= 3037000500)%R.
Proof.
  assert (IZR (2 ^ 30 * 2 ^ 31) <= s * s <= IZR (2 ^ 32 * 2 ^ 31))%R as [H1 H2] by (rewrite HsA; split; apply IZR_le; lia).
  change (2 ^ 30 * 2 ^ 31) with 2305843009213693952 in H1. change (2 ^ 32 * 2 ^ 31) with 9223372036854775808 in H2.
  split; apply sq_le; lra.
Qed.

Lemma coarse_ok x c d : 2 ^ 30 <= x < 2 ^ 32 -> A * 2 ^ 31 * 9 <= 10 * (x * x) -> (0 < c)%R -> (c * s <= IZR x)%R ->
  (Rabs (IZR x - s) <= d * s)%R -> (s - 65536 <= IZR (coarse A x) <= s + d * d / (2 * c) * s + 32768)%R.
Proof.
  intros Hx H9 Hc Hcx Hd. destruct (coarse_step A x HA Hx H9) as [H1%IZR_le H2%IZR_le].
  pose proof root_range. apply (newton_step s (IZR x)); [lra|done..|].
  rewrite HsA. rewrite minus_IZR, !plus_IZR, !mult_IZR in *. cbn -[IZR] in H1, H2 |- *. lra.
Qed.

(** The third approximation. *)
Lemma seed_ok : let x := coarse A (coarse A (line A)) in
  2 ^ 30 <= coarse A (line A) < 2 ^ 32 /\ 2 ^ 30 <= x < 2 ^ 32 /\ (Rabs (IZR x - s) <= 0.000096 * s)%R.
Proof.
  cbv zeta. destruct (line_bounds A HA) as (R0 & L0 & U0). pose proof root_range as Rs.
  apply IZR_le in U0. pose proof (IZR_le _ _ L0) as L0'. pose proof HsA as Es. rewrite !mult_IZR in L0'. rewrite !mult_IZR in U0. rewrite !mult_IZR in Es.
  pose proof (Rle_0_sqr s) as Sq. unfold Rsqr in Sq.
  assert (0.94 * s <= IZR (line A) <= 1.15 * s)%R as B0. { split; apply sq_le; try lra. apply (IZR_le 0). lia. }
  pose proof (coarse_ok (line A) 0.94 0.15 R0 L0 ltac:(lra) ltac:(lra) ltac:(unfold Rabs; destruct Rcase_abs; lra)) as B1.
  set (x1 := coarse A (line A)) in *. assert (2 ^ 30 <= x1 < 2 ^ 32) as R1.
  { split; [apply le_IZR|apply lt_IZR]; cbn -[IZR]; lra. }
  assert (A * 2 ^ 31 * 9 <= 10 * (x1 * x1)) as L1.
  { apply le_IZR. rewrite !mult_IZR. assert (0.999 * s * (0.999 * s) <= IZR x1 * IZR x1)%R by (apply Rmult_le_compat; lra). lra. }
  pose proof (coarse_ok x1 0.999 0.0121 R1 L1 ltac:(lra) ltac:(lra) ltac:(unfold Rabs; destruct Rcase_abs; lra)) as B2.
  set (x2 := coarse A x1) in *. split; [done|]. split.
  - split; [apply le_IZR|apply lt_IZR]; cbn -[IZR]; lra.
  - unfold Rabs; destruct Rcase_abs; lra.
Qed.

End root.

(** The step with the whole quotient. *)
Lemma fine_step N x : 0 < x -> N + 2 * (x * x) - 6 * x <= 4 * x * (N / x / 4 + x / 2) <= N + 2 * (x * x).
Proof.
  intros Hx. rewrite Z.div_div by lia. pose proof (Z.div_mod N (x * 4) ltac:(lia)) as D. pose proof (Z.mod_pos_bound N (x * 4) ltac:(lia)) as B.
  set (q := N / (x * 4)) in *. clearbody q. assert (x - 1 <= 2 * (x / 2) <= x) by divlia. nia.
Qed.

Lemma fine_ok N x s : (1518500249 <= s <= 3037000600)%R -> (2 * (s * s) = IZR N)%R -> (Rabs (IZR x - s) <= 0.0001 * s)%R ->
  (s - 1.5 <= IZR (N / x / 4 + x / 2) <= s + 0.00000000501 * s)%R.
Proof.
  intros Hs HN Hx. assert (0.999 * s <= IZR x)%R as Hx9 by (revert Hx; unfold Rabs; destruct Rcase_abs; lra).
  assert (0 < x) as Hx0 by (apply lt_IZR; lra). destruct (fine_step N x Hx0) as [H1%IZR_le H2%IZR_le].
  set (y := N / x / 4 + x / 2) in *. rewrite minus_IZR, !plus_IZR, !mult_IZR in H1. rewrite !plus_IZR, !mult_IZR in H2.
  pose proof (newton_step s (IZR x) (IZR y) 1.5 0 0.999 0.0001 ltac:(lra) ltac:(lra) Hx9 Hx ltac:(lra)). lra.
Qed.

(** The integral part of a root from an integer less than one away. *)
Lemma root_pick M S x : (0 <= S)%R -> (S * S = IZR M)%R -> (S - 1 < IZR x < S + 1)%R -> 0 <= x ->
  let y := if M <? x * x then x - 1 else x in
  x * x = M /\ S = IZR y \/ x * x <> M /\ (IZR y < S < IZR (y + 1))%R.
Proof.
  intros HS HM Hx Hx0. cbv zeta. assert (0 <= IZR x)%R as Hx0' by now apply (IZR_le 0). destruct (Z.lt_trichotomy M (x * x)) as [H|[H|H]].
  - rewrite (proj2 (Z.ltb_lt _ _) H). right. split; [lia|]. replace (x - 1 + 1) with x by lia. rewrite minus_IZR.
    apply IZR_lt in H. rewrite mult_IZR, <- HM in H. split; [lra|nra].
  - rewrite H, Z.ltb_irrefl. left. split; [done|]. rewrite H, mult_IZR in HM. nra.
  - rewrite (proj2 (Z.ltb_ge _ _)) by lia. right. split; [lia|]. rewrite plus_IZR.
    apply IZR_lt in H. rewrite mult_IZR, <- HM in H. split; [nra|lra].
Qed.

(** The integer the code tries: the estimate, moved down by a half and rounded up. *)
Lemma root_round x n s : 0 < n -> (IZR (x - n) < s < IZR (x + n))%R ->
  (s / IZR (2 * n) - 1 < IZR ((x - n) / (2 * n) + 1) < s / IZR (2 * n) + 1)%R.
Proof.
  intros Hn [H1 H2]. pose proof (Z.div_mod (x - n) (2 * n) ltac:(lia)) as D. pose proof (Z.mod_pos_bound (x - n) (2 * n) ltac:(lia)) as B.
  set (q := (x - n) / (2 * n)) in *. clearbody q.
  assert (2 * n * q <= x - n < 2 * n * (q + 1)) as [L U] by lia. apply IZR_le in L. apply IZR_lt in U.
  assert (0 < IZR (2 * n))%R as Hp by (apply IZR_lt; lia). replace (x + n) with (x - n + 2 * n) in H2 by lia.
  rewrite plus_IZR in H2. rewrite !mult_IZR in L, U. rewrite <- mult_IZR in L, U. rewrite !plus_IZR in *.
  set (p := IZR (2 * n)) in *. set (w := IZR (x - n)) in *. set (k := IZR q) in *. clearbody p w k.
  split; apply (Rmult_lt_reg_r p); try done.
  - replace ((s / p - 1) * p)%R with (s - p)%R by (field; lra). lra.
  - replace ((s / p + 1) * p)%R with (s + p)%R by (field; lra). lra.
Qed.

(** ** Square root of 32 bits *)

Lemma line_code A : 2 ^ 30 <= A < 2 ^ 32 -> u32 ((A ≫ 2) + (A ≫ 3) + (5 ≪ 28)) = line A.
Proof.
  intros HA. rewrite !Z.shiftr_div_pow2 by lia. change (5 ≪ 28) with (5 * 2 ^ 28).
  apply wrap_small. destruct (line_bounds A HA) as [H _]. change (2 ^ 2) with 4. change (2 ^ 3) with 8.
  fold (line A). unfold in_range. lia.
Qed.

Lemma coarse_code A x : 0 <= A -> 2 ^ 30 <= x < 2 ^ 32 -> 0 <= coarse A x < 2 ^ 32 ->
  u32 (u32 (A / (x ≫ 15) + (x ≫ 16)) ≪ 15) = coarse A x /\ u32 ((A / (x ≫ 15) + (x ≫ 16)) ≪ 15) = coarse A x.
Proof.
  intros HA Hx Hc. unfold coarse in *. rewrite !Z.shiftr_div_pow2 by lia. set (v := A / (x / 2 ^ 15) + x / 2 ^ 16) in *.
  rewrite (u32_id v), Z.shiftl_mul_pow2, u32_id by lia. done.
Qed.

Lemma root32_ok A (k : Z -> Z -> result (Z * Z)) : 2 ^ 30 <= A < 2 ^ 32 ->
  exists y c, 2 ^ 24 <= y < 2 ^ 26 /\ (c = 0 /\ sqrt (IZR (A * 2 ^ 19)) = IZR y \/ c = 1 /\ (IZR y < sqrt (IZR (A * 2 ^ 19)) < IZR (y + 1))%R) /\
  (let x := u32 ((A ≫ 2) + (A ≫ 3) + (5 ≪ 28)) in
   let x := u32 (u32 (A / (x ≫ 15) + (x ≫ 16)) ≪ 15) in
   let x := u32 (u32 (A / (x ≫ 15) + (x ≫ 16)) ≪ 15) in
   let x := u32 (((u64 (A ≪ 32) / x) ≫ 2) + (x ≫ 1)) in
   let x_mnt := u32 ((u32 (x - (1 ≪ 5)) ≫ 6) + 1) in
   let t1 := u64 (x_mnt * x_mnt) in
   let t0 := u64 (A ≪ 19) in
   let x_mnt := if t0 <? t1 then u32 (x_mnt - 1) else x_mnt in
   k x_mnt (Z.b2z (negb (t1 =? t0)))) = k y c.
Proof.
  intros HA. cbv zeta. set (s := sqrt (IZR (A * 2 ^ 31))).
  assert (0 <= IZR (A * 2 ^ 31))%R as HN by (apply (IZR_le 0); lia).
  assert (0 <= s)%R as Hs0 by apply sqrt_pos. assert (s * s = IZR (A * 2 ^ 31))%R as Hs by now apply sqrt_sqrt.
  pose proof (root_range A HA s Hs0 Hs) as Rs. destruct (seed_ok A HA s Hs0 Hs) as (R1 & R2 & B2).
  destruct (line_bounds A HA) as [R0 _]. rewrite line_code by done.
  rewrite (proj1 (coarse_code A (line A) ltac:(lia) R0 ltac:(lia))), (proj1 (coarse_code A _ ltac:(lia) R1 ltac:(lia))).
  set (x2 := coarse A (coarse A (line A))) in *. clearbody x2.
  rewrite !Z.shiftr_div_pow2, !Z.shiftl_mul_pow2 by lia. change (2 ^ 2) with 4. change (2 ^ 1) with 2. change (1 * 2 ^ 5) with 32. change (2 ^ 6) with (2 * 32).
  rewrite (u64_small (A * 2 ^ 32)), (u64_small (A * 2 ^ 19)) by (unfold in_range; lia).
  assert (s - 1.5 <= IZR (A * 2 ^ 32 / x2 / 4 + x2 / 2) <= s + 0.00000000501 * s)%R as B3.
  { apply fine_ok; [lra| |lra]. rewrite Hs, <- mult_IZR. f_equal. lia. }
  set (x3 := A * 2 ^ 32 / x2 / 4 + x2 / 2) in *. clearbody x3.
  assert (1518500000 <= x3 <= 3037000600) as R3 by (split; apply le_IZR; lra).
  rewrite (u32_id x3), (u32_id (x3 - 32)) by lia.
  pose proof (root_round x3 32 s ltac:(lia) ltac:(rewrite minus_IZR, plus_IZR; lra)) as Hr.
  set (xm := (x3 - 32) / (2 * 32) + 1) in *. assert (23726000 <= xm <= 47453200) as Rm by (unfold xm; divlia). clearbody xm.
  rewrite (u32_id xm), (u32_id (xm - 1)), (u64_small (xm * xm)) by (unfold in_range; nia).
  set (S := sqrt (IZR (A * 2 ^ 19))). assert (0 <= S)%R as HS0 by apply sqrt_pos.
  assert (S * S = IZR (A * 2 ^ 19))%R as HS by (apply sqrt_sqrt, (IZR_le 0); lia).
  assert (S = s / IZR (2 * 32))%R as ES.
  { apply Rsqr_inj; [done|change (IZR (2 * 32)) with 64%R; lra|]. unfold Rsqr. rewrite HS. change (IZR (2 * 32)) with 64%R.
    replace (s / 64 * (s / 64))%R with (s * s / 4096)%R by field. rewrite Hs. replace (A * 2 ^ 31) with (A * 2 ^ 19 * 4096) by lia. rewrite (mult_IZR _ 4096). field. }
  rewrite <- ES in Hr. pose proof (root_pick (A * 2 ^ 19) S xm HS0 HS Hr ltac:(lia)) as Hp. cbv zeta in Hp.
  exists (if A * 2 ^ 19 <? xm * xm then xm - 1 else xm), (Z.b2z (negb (xm * xm =? A * 2 ^ 19))). split_and!; [destruct (_ <? _); lia..| |done].
  destruct Hp as [[E Hp]|[E Hp]]; [left|right]; (split; [|done]).
  - now rewrite E, Z.eqb_refl.
  - now rewrite (proj2 (Z.eqb_neq _ _) E).
Qed.

(** ** Square root of 64 bits *)

(** A reciprocal of 62 bits, refined to 94. *)
Lemma refine_recip x r Q : 0 < x < 2 ^ 32 -> x * x <= 2 ^ 30 * 3 * x -> r * x <= 2 ^ 62 < (r + 1) * x ->
  Q * 2 ^ 31 <= (2 ^ 64 - 2 * (x * r)) * r < (Q + 1) * 2 ^ 31 -> Q * x <= 2 ^ 94 < (Q + 4) * x.
Proof.
  intros Hx Hx3 Hr HQ. set (w := x * r) in *. assert (0 <= 2 ^ 62 - w < x) as Hw by (unfold w; lia).
  assert ((2 ^ 64 - 2 * w) * r * x = 2 * (2 ^ 124 - (2 ^ 62 - w) * (2 ^ 62 - w))) as E by (unfold w; ring).
  assert (0 <= (2 ^ 62 - w) * (2 ^ 62 - w) <= x * x) as Hsq by (split; [apply Z.square_nonneg|apply Z.mul_le_mono_nonneg; lia]).
  assert (Q * 2 ^ 31 * x <= (2 ^ 64 - 2 * w) * r * x) as H1 by (apply Z.mul_le_mono_nonneg_r; lia).
  assert ((2 ^ 64 - 2 * w) * r * x < (Q + 1) * 2 ^ 31 * x) as H2 by (apply Z.mul_lt_mono_pos_r; lia).
  lia.
Qed.

(** The last step of Newton's method, from its bits. *)
Lemma last_step A x Q Y : 0 < x -> 0 < A < 2 ^ 64 -> Q * x <= 2 ^ 94 < (Q + 4) * x -> 0 <= Q ->
  Y * 2 ^ 61 <= A * (Q / 4) < (Y + 1) * 2 ^ 61 -> 0 <= Y ->
  let X := x * 2 ^ 32 in let z := x * 2 ^ 31 + Y / 2 in
  A * 2 ^ 63 + X * X - 2 * X * 9 <= 2 * X * z <= A * 2 ^ 63 + X * X.
Proof.
  intros Hx HA HQ HQ0 HY HY0. cbv zeta. assert (4 * (Q / 4) <= Q <= 4 * (Q / 4) + 3) as HG by divlia. set (G := Q / 4) in *. clearbody G.
  assert (G * x <= 2 ^ 92 < (G + 2) * x) as HGx by nia.
  assert (Y * 2 ^ 61 * x <= A * G * x) as H1 by (apply Z.mul_le_mono_nonneg_r; lia).
  assert (A * G * x <= (Y + 1) * 2 ^ 61 * x) as H2 by (apply Z.mul_le_mono_nonneg_r; lia).
  assert (A * (G * x) <= A * 2 ^ 92) as H3 by (apply Z.mul_le_mono_nonneg_l; lia).
  assert (A * 2 ^ 92 <= A * ((G + 2) * x)) as H4 by (apply Z.mul_le_mono_nonneg_l; lia).
  assert (A * x <= 2 ^ 64 * x) as H5 by (apply Z.mul_le_mono_nonneg_r; lia).
  assert (Y - 1 <= 2 * (Y / 2) <= Y) as Hh by divlia. set (h := Y / 2) in *. clearbody h.
  assert (x * (2 * h) <= x * Y) as H6 by (apply Z.mul_le_mono_nonneg_l; lia).
  assert (x * (Y - 1) <= x * (2 * h)) as H7 by (apply Z.mul_le_mono_nonneg_l; lia).
  split; lia.
Qed.

(** The approximation of 32 bits. *)
Lemma seed64_ok A : 2 ^ 62 <= A < 2 ^ 64 -> let s := sqrt (IZR A / 2) in
  exists x, (1518500249 <= s <= 3037000600)%R /\ (s - 1.5 <= IZR x <= s + 0.00000000501 * s)%R /\
  (let x := u32 ((A ≫ 34) + (A ≫ 35) + (5 ≪ 28)) in
   let x := u32 (((A ≫ 32) / (x ≫ 15) + (x ≫ 16)) ≪ 15) in
   let x := u32 (((A ≫ 32) / (x ≫ 15) + (x ≫ 16)) ≪ 15) in
   u32 (((A / x) ≫ 2) + (x ≫ 1))) = x.
Proof.
  intros HA s. set (H := A / 2 ^ 32). assert (2 ^ 30 <= H < 2 ^ 32 /\ H * 2 ^ 32 <= A < (H + 1) * 2 ^ 32) as [HH HAH] by (unfold H; divlia).
  cbv zeta. assert (u32 ((A ≫ 34) + (A ≫ 35) + (5 ≪ 28)) = line H) as ->.
  { rewrite <- line_code by done. change 34 with (32 + 2). change 35 with (32 + 3). rewrite <- !Z.shiftr_shiftr by lia. unfold H. now rewrite !(Z.shiftr_div_pow2 A) by lia. }
  rewrite (Z.shiftr_div_pow2 A) by lia. fold H.
  set (sh := sqrt (IZR (H * 2 ^ 31))). assert (0 <= sh)%R as Hsh0 by apply sqrt_pos.
  assert (sh * sh = IZR (H * 2 ^ 31))%R as Hsh by (apply sqrt_sqrt, (IZR_le 0); lia).
  assert (0 <= s)%R as Hs0 by apply sqrt_pos.
  assert (s * s = IZR A / 2)%R as Hs by (apply sqrt_sqrt; assert (0 <= IZR A)%R by (apply (IZR_le 0); lia); lra).
  pose proof (root_range H HH sh Hsh0 Hsh) as Rs. destruct (seed_ok H HH sh Hsh0 Hsh) as (R1 & R2 & B2).
  destruct (line_bounds H HH) as [R0 _].
  rewrite (proj2 (coarse_code H (line H) ltac:(lia) R0 ltac:(lia))), (proj2 (coarse_code H _ ltac:(lia) R1 ltac:(lia))).
  set (x2 := coarse H (coarse H (line H))) in *. clearbody x2.
  assert (sh <= s <= sh + 1)%R as Hss.
  { destruct HAH as [L%IZR_le U%IZR_lt]. rewrite mult_IZR in L, U. rewrite plus_IZR in U. rewrite mult_IZR in Hsh.
    change (IZR (2 ^ 32)) with 4294967296%R in *. change (IZR (2 ^ 31)) with 2147483648%R in *.
    split; apply sq_le; nra. }
  assert (1518500249 <= s <= 3037000600)%R as Rs' by lra.
  pose proof (fine_ok A x2 s Rs' ltac:(lra) ltac:(revert B2; unfold Rabs; do 2 destruct Rcase_abs; lra)) as B3.
  exists (A / x2 / 4 + x2 / 2). split; [done|]. split; [done|]. rewrite !Z.shiftr_div_pow2 by lia. change (2 ^ 2) with 4. change (2 ^ 1) with 2.
  apply u32_id. split; [apply le_IZR|apply lt_IZR; change (IZR (2 ^ 32)) with 4294967296%R]; lra.
Qed.

(** The approximation of 64 bits. *)
Lemma last64_ok A x (k : Z -> result (Z * Z)) : 2 ^ 62 <= A < 2 ^ 64 -> (2 ^ 10 | A) -> 1518500247 <= x <= 3037000616 -> A <= 2 * (x + 2) * (x + 2) ->
  exists Q Y, Q * x <= 2 ^ 94 < (Q + 4) * x /\ 0 <= Q /\ Y * 2 ^ 61 <= A * (Q / 4) < (Y + 1) * 2 ^ 61 /\ 0 <= Y /\
  (let r := (1 ≪ 62) / x in
   let '(x0, x1) := mul64x32 (u64 (u64 (u64 (- x) * r) ≪ 1)) r in
   let* '(x0, x1) := lsr128 x0 x1 31 in
   let '(x0, x1) := mul62x62 (A ≫ 10) (x0 ≫ 2) in
   let* '(x0, x1) := lsl128 x0 x1 5 in
   let* '(x0, x1) := lsr128 x0 x1 56 in
   k (u64 (u64 (x ≪ 31) + (x0 ≫ 1)))) = k (x * 2 ^ 31 + Y / 2).
Proof.
  intros HA [a Ea] Hx HAx. cbv zeta. change (1 ≪ 62) with (2 ^ 62). set (r := 2 ^ 62 / x).
  assert (r * x <= 2 ^ 62 < (r + 1) * x) as Hr.
  { unfold r. pose proof (Z.div_mod (2 ^ 62) x ltac:(lia)). pose proof (Z.mod_pos_bound (2 ^ 62) x ltac:(lia)). lia. }
  assert (0 < r < 3100000000) as Rr by (split; nia). clearbody r.
  assert (u64 (u64 (u64 (- x) * r) ≪ 1) = 2 ^ 64 - 2 * (x * r)) as ->.
  { assert (0 < x * r <= 2 ^ 62) by nia. assert (u64 (- x) = 2 ^ 64 - x) as -> by (symmetry; apply (Z.mod_unique_pos _ _ (- 1)); lia).
    assert (u64 ((2 ^ 64 - x) * r) = 2 ^ 64 - x * r) as -> by (symmetry; apply (Z.mod_unique_pos _ _ (r - 1)); lia).
    unfold u64. rewrite wrap_shl by lia. change (64 - 1) with 63. change (2 ^ 1) with 2.
    replace ((2 ^ 64 - x * r) mod 2 ^ 63) with (2 ^ 63 - x * r) by (apply (Z.mod_unique_pos _ _ 1); lia). lia. }
  destruct (mul64x32_ok (2 ^ 64 - 2 * (x * r)) r) as (x0 & x1 & -> & H0 & H1 & Hv); [unfold in_range; nia|lia|].
  destruct (lsr128_ok x0 x1 31) as (q0 & q1 & -> & G0 & G1 & Gv); [done..|lia|]. cbn [rbind]. rewrite Hv in Gv.
  set (Q := (2 ^ 64 - 2 * (x * r)) * r / 2 ^ 31) in *.
  assert (Q * 2 ^ 31 <= (2 ^ 64 - 2 * (x * r)) * r < (Q + 1) * 2 ^ 31) as HQ by (unfold Q; divlia).
  pose proof (refine_recip x r Q ltac:(lia) ltac:(nia) Hr HQ) as HQx.
  assert (0 <= Q) as RQ0 by (apply Z.div_pos; [apply Z.mul_nonneg_nonneg; nia|lia]). assert (Q < 2 ^ 64) as RQ by (clearbody Q; nia).
  assert (q0 = Q /\ q1 = 0) as [-> ->] by (unfold in_range, v128 in *; lia). clearbody Q.
  rewrite !Z.shiftr_div_pow2 by lia. change (2 ^ 2) with 4. rewrite Ea, Z.div_mul by lia.
  assert (0 <= Q / 4 < 2 ^ 62 /\ 4 * (Q / 4) <= Q) as [RG QG] by divlia. remember (Q / 4) as G eqn:EG.
  destruct (mul62x62_ok a G) as (p0 & p1 & -> & I0 & I1 & Iv); [lia..|].
  destruct (lsl128_ok p0 p1 5) as (w0 & w1 & -> & J0 & J1 & Jv); [done..|lia|]. cbn [rbind]. rewrite Iv in Jv.
  assert (0 <= a * G < 2 ^ 54 * 2 ^ 62) as RaG by nia. rewrite Z.mod_small in Jv by lia.
  destruct (lsr128_ok w0 w1 56) as (Y & Y1 & -> & K0 & K1 & Kv); [done..|lia|]. cbn [rbind]. rewrite Jv in Kv.
  set (y := a * G * 2 ^ 5 / 2 ^ 56) in *. assert (y * 2 ^ 56 <= a * G * 2 ^ 5 < (y + 1) * 2 ^ 56) as Hy by (unfold y; divlia).
  assert (0 <= y) by (apply Z.div_pos; lia). clearbody y.
  assert (y < 2 ^ 64 - 2 ^ 62) as Ry.
  { assert (4 * G * x <= Q * x) by (apply Z.mul_le_mono_nonneg_r; lia). assert (a * (G * x) <= a * 2 ^ 92) by (apply Z.mul_le_mono_nonneg_l; lia).
    assert (y * 2 ^ 56 * x <= a * G * 2 ^ 5 * x) by (apply Z.mul_le_mono_nonneg_r; lia).
    assert (y * x <= 2 ^ 32 * (x + 5) * x) as Hyx by lia. apply Z.mul_le_mono_pos_r in Hyx; lia. }
  assert (Y = y /\ Y1 = 0) as [-> ->] by (unfold in_range, v128 in *; lia).
  exists Q, y. rewrite <- EG. split_and!; [lia|lia|lia|lia|lia|lia|]. f_equal. rewrite Z.shiftl_mul_pow2, Z.shiftr_div_pow2 by lia. change (2 ^ 1) with 2.
  assert (0 <= 2 * (y / 2) <= y) by divlia. rewrite (u64_small (x * 2 ^ 31)), u64_small by (unfold in_range; lia). done.
Qed.

(** The integral part from the approximation of 64 bits. *)
Lemma pick64_ok A z (k : Z -> Z -> result (Z * Z)) : 2 ^ 62 <= A <= 2 ^ 64 - 2 ^ 11 ->
  (IZR (z - 256) < sqrt (IZR (A * 2 ^ 63)) < IZR (z + 256))%R ->
  exists y c, 2 ^ 53 <= y < 2 ^ 55 /\ (c = 0 /\ sqrt (IZR (A * 2 ^ 45)) = IZR y \/ c <> 0 /\ (IZR y < sqrt (IZR (A * 2 ^ 45)) < IZR (y + 1))%R) /\
  (let x_mnt := u64 ((u64 (z - (1 ≪ 8)) ≫ 9) + 1) in
   let '(x0, x1) := mul62x62 x_mnt x_mnt in
   let* '(x0, x1) := lsl128 x0 x1 19 in
   let c := cmp128 x0 x1 0 A in
   let x_mnt := if 0 <? c then u64 (x_mnt - 1) else x_mnt in k x_mnt c) = k y c.
Proof.
  intros HA Hz. cbv zeta. change (1 ≪ 8) with 256. rewrite Z.shiftr_div_pow2 by lia. change (2 ^ 9) with (2 * 256).
  set (S := sqrt (IZR (A * 2 ^ 63))) in *. assert (0 <= S)%R as HS0 by apply sqrt_pos.
  assert (S * S = IZR (A * 2 ^ 63))%R as HS by (apply sqrt_sqrt, (IZR_le 0); lia).
  pose proof (root_round z 256 S ltac:(lia) Hz) as Hr.
  set (T := sqrt (IZR (A * 2 ^ 45))). assert (0 <= T)%R as HT0 by apply sqrt_pos.
  assert (T * T = IZR (A * 2 ^ 45))%R as HT by (apply sqrt_sqrt, (IZR_le 0); lia).
  assert (T = S / IZR (2 * 256))%R as ET.
  { change (IZR (2 * 256)) with 512%R. apply Rsqr_inj; [done|lra|]. unfold Rsqr. rewrite HT.
    replace (S / 512 * (S / 512))%R with (S * S / 262144)%R by field. rewrite HS. replace (A * 2 ^ 63) with (A * 2 ^ 45 * 262144) by lia. rewrite (mult_IZR _ 262144). field. }
  rewrite <- ET in Hr.
  assert (12738103345051545 <= T <= 25476206690103091)%R as RT.
  { assert (IZR (2 ^ 62 * 2 ^ 45) <= T * T <= IZR ((2 ^ 64) * 2 ^ 45))%R as [L U] by (rewrite HT; split; apply IZR_le; lia).
    change (2 ^ 62 * 2 ^ 45) with 162259276829213363391578010288128 in L. change (2 ^ 64 * 2 ^ 45) with 649037107316853453566312041152512 in U.
    split; apply sq_le; lra. }
  set (xm := (z - 256) / (2 * 256) + 1) in *.
  assert (12738103345051545 <= xm <= 25476206690103091) as Rm.
  { assert (12738103345051544 < xm < 25476206690103092) by (split; apply lt_IZR; lra). lia. }
  assert (0 <= z - 256 < 2 ^ 64) as Rz by (clear -Rm; unfold xm in Rm; divlia).
  rewrite (u64_small (z - 256)) by done. fold xm. rewrite (u64_small xm), (u64_small (xm - 1)) by (unfold in_range; lia).
  destruct (mul62x62_ok xm xm) as (x0 & x1 & -> & H0 & H1 & Hv); [lia..|].
  destruct (lsl128_ok x0 x1 19) as (y0 & y1 & -> & G0 & G1 & Gv); [done..|lia|]. cbn [rbind]. rewrite Hv in Gv.
  assert (xm * xm < A * 2 ^ 45 + 2 * 25476206690103092) as Hup.
  { apply lt_IZR. rewrite plus_IZR, mult_IZR, <- HT. change (IZR (2 * 25476206690103092)) with 50952413380206184%R.
    assert (0 <= IZR xm)%R by (apply (IZR_le 0); lia). nra. }
  rewrite Z.mod_small in Gv by nia. rewrite cmp128_ok, Gv by (try done; unfold in_range; lia). unfold v128. rewrite Z.add_0_r.
  pose proof (root_pick (A * 2 ^ 45) T xm HT0 HT Hr ltac:(lia)) as Hp. cbv zeta in Hp.
  destruct (Z.compare_spec (xm * xm * 2 ^ 19) (A * 2 ^ 64)) as [E|E|E].
  - rewrite (proj2 (Z.ltb_ge _ _)) in Hp by lia. exists xm, 0. split_and!; [lia|lia| |done].
    destruct Hp as [[_ Hp]|[? _]]; [now left|lia].
  - rewrite (proj2 (Z.ltb_ge _ _)) in Hp by lia. exists xm, (-1). split_and!; [lia|lia| |done].
    destruct Hp as [[? _]|[_ Hp]]; [lia|now right].
  - rewrite (proj2 (Z.ltb_lt _ _)) in Hp by lia. exists (xm - 1), 1. split_and!; [lia|lia| |done].
    destruct Hp as [[? _]|[_ Hp]]; [lia|now right].
Qed.

Lemma root64_ok A (k : Z -> Z -> result (Z * Z)) : 2 ^ 62 <= A <= 2 ^ 64 - 2 ^ 11 -> (2 ^ 10 | A) ->
  exists y c, 2 ^ 53 <= y < 2 ^ 55 /\ (c = 0 /\ sqrt (IZR (A * 2 ^ 45)) = IZR y \/ c <> 0 /\ (IZR y < sqrt (IZR (A * 2 ^ 45)) < IZR (y + 1))%R) /\
  (let x := u32 ((A ≫ 34) + (A ≫ 35) + (5 ≪ 28)) in
   let x := u32 (((A ≫ 32) / (x ≫ 15) + (x ≫ 16)) ≪ 15) in
   let x := u32 (((A ≫ 32) / (x ≫ 15) + (x ≫ 16)) ≪ 15) in
   let x := u32 (((A / x) ≫ 2) + (x ≫ 1)) in
   let r := (1 ≪ 62) / x in
   let '(x0, x1) := mul64x32 (u64 (u64 (u64 (- x) * r) ≪ 1)) r in
   let* '(x0, x1) := lsr128 x0 x1 31 in
   let '(x0, x1) := mul62x62 (A ≫ 10) (x0 ≫ 2) in
   let* '(x0, x1) := lsl128 x0 x1 5 in
   let* '(x0, x1) := lsr128 x0 x1 56 in
   let x0 := u64 (u64 (x ≪ 31) + (x0 ≫ 1)) in
   let x_mnt := u64 ((u64 (x0 - (1 ≪ 8)) ≫ 9) + 1) in
   let '(x0, x1) := mul62x62 x_mnt x_mnt in
   let* '(x0, x1) := lsl128 x0 x1 19 in
   let c := cmp128 x0 x1 0 A in
   let x_mnt := if 0 <? c then u64 (x_mnt - 1) else x_mnt in k x_mnt c) = k y c.
Proof.
  intros HA HdA. destruct (seed64_ok A) as (x & Rs & Bx & Ex); [lia|]. cbv zeta in Ex |- *. rewrite Ex. clear Ex.
  set (s := sqrt (IZR A / 2)) in *.
  assert (s * s = IZR A / 2)%R as Hs by (apply sqrt_sqrt; assert (0 <= IZR A)%R by (apply (IZR_le 0); lia); lra).
  assert (1518500247 <= x <= 3037000616) as Rx by (split; apply le_IZR; lra).
  assert (A <= 2 * (x + 2) * (x + 2)) as HAx.
  { apply le_IZR. rewrite !mult_IZR, plus_IZR. assert (s * s <= (IZR x + 2) * (IZR x + 2))%R by (apply Rmult_le_compat; lra). lra. }
  destruct (last64_ok A x (fun x0 =>
    let x_mnt := u64 ((u64 (x0 - (1 ≪ 8)) ≫ 9) + 1) in
    let '(x0, x1) := mul62x62 x_mnt x_mnt in
    let* '(x0, x1) := lsl128 x0 x1 19 in
    let c := cmp128 x0 x1 0 A in
    let x_mnt := if 0 <? c then u64 (x_mnt - 1) else x_mnt in k x_mnt c) ltac:(lia) HdA Rx HAx) as (Q & Y & HQ & HQ0 & HY & HY0 & E).
  cbv beta zeta in E |- *. rewrite E. clear E. set (z := x * 2 ^ 31 + Y / 2).
  destruct (last_step A x Q Y ltac:(lia) ltac:(lia) HQ HQ0 HY HY0) as [L%IZR_le U%IZR_le]. fold z in L, U.
  set (S := sqrt (IZR (A * 2 ^ 63))). assert (0 <= S)%R as HS0 by apply sqrt_pos.
  assert (S * S = IZR (A * 2 ^ 63))%R as HS by (apply sqrt_sqrt, (IZR_le 0); lia).
  assert (S = s * 4294967296)%R as ES.
  { apply Rsqr_inj; [done|lra|]. unfold Rsqr. rewrite HS, mult_IZR. change (IZR (2 ^ 63)) with 9223372036854775808%R. nra. }
  pose proof (newton_step S (IZR (x * 2 ^ 32)) (IZR z) 9 0 0.999 0.00000000501) as Hn.
  assert (IZR (x * 2 ^ 32) = IZR x * 4294967296)%R as EX by (rewrite mult_IZR; reflexivity).
  assert (S - 9 <= IZR z <= S + 0.00000000501 * 0.00000000501 / (2 * 0.999) * S + 0)%R as Hz.
  { apply Hn; [lra|lra|rewrite EX, ES; lra|rewrite EX, ES; unfold Rabs; destruct Rcase_abs; lra|].
    rewrite HS. rewrite minus_IZR, plus_IZR in L. rewrite plus_IZR in U. rewrite !(mult_IZR (2 * _)), !(mult_IZR 2) in L. rewrite !(mult_IZR (2 * _)), !(mult_IZR 2) in U.
    rewrite !(mult_IZR (x * 2 ^ 32) (x * 2 ^ 32)) in L, U. lra. }
  apply (pick64_ok A z k HA). fold S. rewrite minus_IZR, plus_IZR. rewrite ES in *. lra.
Qed.

(** ** Rounding the root *)

Lemma sqrt_scale x k : (0 <= x)%R -> sqrt (x * bpow (2 * k)) = (sqrt x * bpow k)%R.
Proof.
  intros Hx. pose proof (bpow_pos k). replace (2 * k) with (k + k) by lia. rewrite bpow_add.
  rewrite sqrt_mult by nra. f_equal. apply sqrt_square. lra.
Qed.

Lemma even_land e : (e .& 1 =? 0) = Z.even e.
Proof. change 1 with (2 ^ 1 - 1). rewrite land_mask, Zmod_even by lia. now destruct (Z.even e). Qed.

Lemma norm32_round32 s x c t e mode flags v : 2 ^ 24 <= x < 2 ^ 32 -> - 2 ^ 20 < e < 2 ^ 20 ->
  (c = 0 /\ t = IZR x \/ c = 1 /\ (IZR x < t < IZR (x + 1))%R) -> (v = t * bpow (e - 158))%R ->
  delivered F32 mode (Finite s v) flags
    (let '(x_mnt, x_exp) := fp32_normalise x e in fp32_round (Z.b2z s) x_exp (u32 (x_mnt ≪ 1) .| c) mode flags).
Proof.
  intros Hx He Ht ->. destruct (fp32_normalise x e) as [m e'] eqn:En. apply fp32_normalise_ok in En as (z & Hz & -> & -> & Hm); [|lia].
  change (32 - 1) with 31 in Hm. assert (z < 8). { destruct (Z_lt_le_dec z 8) as [|Hl]; [done|]. apply pow2_le in Hl. nia. }
  unfold u32. rewrite wrap_shl by lia. change (32 - 1) with 31. replace ((x * 2 ^ z) mod 2 ^ 31) with (x * 2 ^ z - 2 ^ 31) by (apply (Z.mod_unique_pos _ _ 1); lia).
  assert (0 <= c < 2 ^ 1) as Hc by lia. rewrite lor_add by lia.
  replace ((x * 2 ^ z - 2 ^ 31) * 2 ^ 1 + c) with ((x * 2 ^ (z + 1) + c) - 2 ^ 32) by (rewrite pow2_split by lia; change (2 ^ 1) with 2; lia).
  apply delivered_round32 with (d := z + 1) (V := (t * bpow (z + 1))%R); [lia|rewrite pow2_split by lia; change (2 ^ 1) with 2 in *; lia|lia|lia| |].
  - destruct Ht as [[-> ->]|[-> Ht]].
    + left. now rewrite Z.add_0_r, IZR_scale by lia.
    + right. exists x. pose proof (pow2_lt 0 (z + 1) ltac:(lia) ltac:(lia)).
      split; [lia|]. rewrite !IZR_scale, <- !bpow_scale_lt by lia. done.
  - rewrite !Rmult_assoc, <- !bpow_add. do 2 f_equal. lia.
Qed.

Lemma sqrt32_finite ma ea mode flags : 0 < ma < 2 ^ 24 -> 1 <= ea < 2 ^ 16 ->
  delivered F32 mode (Finite false (sqrt (IZR ma * bpow (ea - 150)))) flags
    (let '(a_mnt, a_exp) := fp32_normalise ma ea in
     let '(a_mnt, a_exp) := if a_exp .& 1 =? 0 then (a_mnt ≫ 1, a_exp + 1) else (a_mnt, a_exp) in
     let x := u32 ((a_mnt ≫ 2) + (a_mnt ≫ 3) + (5 ≪ 28)) in
     let x := u32 (u32 (a_mnt / (x ≫ 15) + (x ≫ 16)) ≪ 15) in
     let x := u32 (u32 (a_mnt / (x ≫ 15) + (x ≫ 16)) ≪ 15) in
     let x := u32 (((u64 (a_mnt ≪ 32) / x) ≫ 2) + (x ≫ 1)) in
     let x_exp := (a_exp + 147) ≫ 1 in
     let x_mnt := u32 ((u32 (x - (1 ≪ 5)) ≫ 6) + 1) in
     let t1 := u64 (x_mnt * x_mnt) in
     let t0 := u64 (a_mnt ≪ 19) in
     let x_mnt := if t0 <? t1 then u32 (x_mnt - 1) else x_mnt in
     let '(x_mnt, x_exp) := fp32_normalise x_mnt x_exp in
     fp32_round 0 x_exp (u32 (x_mnt ≪ 1) .| Z.b2z (negb (t1 =? t0))) mode flags).
Proof.
  intros Ha Hea. destruct (fp32_normalise ma ea) as [A ae] eqn:En. apply fp32_normalise_ok in En as (z & Hz & -> & -> & Hm); [|lia].
  change (32 - 1) with 31 in Hm. assert (z < 32). { destruct (Z_lt_le_dec z 32) as [|Hl]; [done|]. apply pow2_le in Hl. nia. }
  assert (8 <= z). { destruct (Z_lt_le_dec z 8) as [Hl|]; [|done]. pose proof (pow2_le z 7 ltac:(lia)). nia. }
  rewrite even_land.
  assert (exists A h, (if Z.even (ea - z) then ((ma * 2 ^ z) ≫ 1, ea - z + 1) else (ma * 2 ^ z, ea - z)) = (A, 2 * h + 1) /\
    2 ^ 30 <= A < 2 ^ 32 /\ (IZR A * bpow (2 * h + 1) = IZR ma * bpow ea)%R /\ - 100 < h < 2 ^ 16) as (A & h & -> & HA & Ev & Hh).
  { destruct (Z.even (ea - z)) eqn:Ee.
    - apply Z.even_spec in Ee as [h Eh]. exists (ma * 2 ^ (z - 1)), h. assert (ma * 2 ^ z = ma * 2 ^ (z - 1) * 2) as E2.
      { rewrite <- Z.mul_assoc, (Z.mul_comm _ 2), <- Z.pow_succ_r by lia. do 2 f_equal. lia. }
      rewrite Z.shiftr_div_pow2 by lia. change (2 ^ 1) with 2. rewrite E2, Z.div_mul by lia. split_and!; [f_equal; lia|lia|lia| |lia|lia].
      rewrite IZR_scale, Rmult_assoc, <- bpow_add by lia. do 2 f_equal. lia.
    - assert (Z.odd (ea - z) = true) as [h Eh]%Z.odd_spec by now rewrite <- Z.negb_even, Ee. exists (ma * 2 ^ z), h.
      split_and!; [f_equal; lia|lia|lia| |lia|lia]. rewrite IZR_scale, Rmult_assoc, <- bpow_add by lia. do 2 f_equal. lia. }
  destruct (root32_ok A (fun x_mnt c =>
     let '(x_mnt, x_exp) := fp32_normalise x_mnt ((2 * h + 1 + 147) ≫ 1) in
     fp32_round 0 x_exp (u32 (x_mnt ≪ 1) .| c) mode flags) HA) as (y & c & Hy & Hc & E).
  cbv beta zeta in E |- *. rewrite E. clear E.
  assert ((2 * h + 1 + 147) ≫ 1 = h + 74) as -> by (rewrite Z.shiftr_div_pow2 by lia; change (2 ^ 1) with 2; divlia).
  apply (norm32_round32 false) with (t := sqrt (IZR (A * 2 ^ 19))); [lia|lia|exact Hc|].
  replace (IZR ma * bpow (ea - 150))%R with (IZR (A * 2 ^ 19) * bpow (2 * (h + 74 - 158)))%R; [apply sqrt_scale, (IZR_le 0); lia|].
  replace (ea - 150) with (ea + - 150) by lia. rewrite bpow_add, <- Rmult_assoc, <- Ev, IZR_scale, !Rmult_assoc, <- !bpow_add by lia.
  do 2 f_equal. lia.
Qed.

Lemma sqrt64_finite ma ea mode flags : 0 < ma < 2 ^ 53 -> 1 <= ea < 2 ^ 16 ->
  delivered F64 mode (Finite false (sqrt (IZR ma * bpow (ea - 1075)))) flags
    (let '(a_mnt, a_exp) := fp64_normalise ma ea in
     let '(a_mnt, a_exp) := if truth (a_exp .& 1) then (a_mnt ≫ 1, a_exp + 1) else (a_mnt, a_exp) in
     let x := u32 ((a_mnt ≫ 34) + (a_mnt ≫ 35) + (5 ≪ 28)) in
     let x := u32 (((a_mnt ≫ 32) / (x ≫ 15) + (x ≫ 16)) ≪ 15) in
     let x := u32 (((a_mnt ≫ 32) / (x ≫ 15) + (x ≫ 16)) ≪ 15) in
     let x := u32 (((a_mnt / x) ≫ 2) + (x ≫ 1)) in
     let r := (1 ≪ 62) / x in
     let '(x0, x1) := mul64x32 (u64 (u64 (u64 (- x) * r) ≪ 1)) r in
     let* '(x0, x1) := lsr128 x0 x1 31 in
     let '(x0, x1) := mul62x62 (a_mnt ≫ 10) (x0 ≫ 2) in
     let* '(x0, x1) := lsl128 x0 x1 5 in
     let* '(x0, x1) := lsr128 x0 x1 56 in
     let x0 := u64 (u64 (x ≪ 31) + (x0 ≫ 1)) in
     let x_exp := (a_exp + 1053) ≫ 1 in
     let x_mnt := u64 ((u64 (x0 - (1 ≪ 8)) ≫ 9) + 1) in
     let '(x0, x1) := mul62x62 x_mnt x_mnt in
     let* '(x0, x1) := lsl128 x0 x1 19 in
     let c := cmp128 x0 x1 0 a_mnt in
     let x_mnt := if 0 <? c then u64 (x_mnt - 1) else x_mnt in
     let '(x_mnt, x_exp) := fp64_normalise x_mnt x_exp in
     fp64_round 0 x_exp (u64 (x_mnt ≪ 1) .| nz c) mode flags).
Proof.
  intros Ha Hea. destruct (fp64_normalise ma ea) as [A ae] eqn:En. apply fp64_normalise_ok in En as (z & Hz & -> & -> & Hm); [|lia].
  change (64 - 1) with 63 in Hm. assert (z < 64). { destruct (Z_lt_le_dec z 64) as [|Hl]; [done|]. apply pow2_le in Hl. nia. }
  assert (11 <= z). { destruct (Z_lt_le_dec z 11) as [Hl|]; [|done]. pose proof (pow2_le z 10 ltac:(lia)). nia. }
  assert (ma * 2 ^ z = ma * 2 ^ (z - 11) * 2 ^ 11) as Em by (rewrite <- Z.mul_assoc, <- pow2_split by lia; do 2 f_equal; lia).
  unfold truth. rewrite even_land.
  assert (exists A h, (if negb (Z.even (ea - z)) then ((ma * 2 ^ z) ≫ 1, ea - z + 1) else (ma * 2 ^ z, ea - z)) = (A, 2 * h) /\
    2 ^ 62 <= A <= 2 ^ 64 - 2 ^ 11 /\ (2 ^ 10 | A) /\ (IZR A * bpow (2 * h) = IZR ma * bpow ea)%R /\ - 100 < h < 2 ^ 16) as (A & h & -> & HA & HdA & Ev & Hh).
  { destruct (Z.even (ea - z)) eqn:Ee; cbn [negb].
    - apply Z.even_spec in Ee as [h Eh]. exists (ma * 2 ^ z), h.
      split_and!; [f_equal; lia|lia|lia|exists (ma * 2 ^ (z - 11) * 2); lia| |lia|lia].
      rewrite IZR_scale, Rmult_assoc, <- bpow_add by lia. do 2 f_equal. lia.
    - assert (Z.odd (ea - z) = true) as [h Eh]%Z.odd_spec by now rewrite <- Z.negb_even, Ee. exists (ma * 2 ^ (z - 1)), (h + 1).
      assert (ma * 2 ^ z = ma * 2 ^ (z - 1) * 2) as E2.
      { rewrite <- Z.mul_assoc, (Z.mul_comm _ 2), <- Z.pow_succ_r by lia. do 2 f_equal. lia. }
      rewrite Z.shiftr_div_pow2 by lia. change (2 ^ 1) with 2. rewrite E2 at 1. rewrite Z.div_mul by lia.
      split_and!; [f_equal; lia|lia|lia|exists (ma * 2 ^ (z - 11)); lia| |lia|lia].
      rewrite IZR_scale, Rmult_assoc, <- bpow_add by lia. do 2 f_equal. lia. }
  destruct (root64_ok A (fun x_mnt c =>
     let '(x_mnt, x_exp) := fp64_normalise x_mnt ((2 * h + 1053) ≫ 1) in
     fp64_round 0 x_exp (u64 (x_mnt ≪ 1) .| nz c) mode flags) HA HdA) as (y & c & Hy & Hc & E).
  cbv beta zeta in E |- *. rewrite E. clear E.
  assert ((2 * h + 1053) ≫ 1 = h + 526) as -> by (rewrite Z.shiftr_div_pow2 by lia; change (2 ^ 1) with 2; divlia).
  apply (norm64_round64 false) with (t := sqrt (IZR (A * 2 ^ 45))); [lia|lia|exact Hc|].
  replace (IZR ma * bpow (ea - 1075))%R with (IZR (A * 2 ^ 45) * bpow (2 * (h + 526 - 1086)))%R; [apply sqrt_scale, (IZR_le 0); lia|].
  replace (ea - 1075) with (ea + - 1075) by lia. rewrite bpow_add, <- Rmult_assoc, <- Ev, IZR_scale, !Rmult_assoc, <- !bpow_add by lia.
  do 2 f_equal. lia.
Qed.

(** ** The function of fplib.hh *)

Section special.
Context (F : format) {VF : Valid F} (HI : ieee F = true).

Lemma sqrt_special a mode flags k : is_bits F a -> is_nan F a = false ->
  let fz := mode_fz mode in
  (1 <= expo F a < emax F -> 0 < mant F fz a -> sign_of F a = false ->
   delivered F mode (Finite false (sqrt (IZR (mant F fz a) * bpow (expo F a - bias F - fM F)))) flags k) ->
  delivered F mode (root (operand F fz a)) flags
    (if mant F fz a =? 0 then Ok (gpack F (Z.b2z (sign_of F a)) 0 0, flags)
     else if (expo F a =? 2 ^ fE F - 1) && (Z.b2z (sign_of F a) =? 0) then Ok (gpack F (Z.b2z (sign_of F a)) (2 ^ fE F - 1) 0, flags)
     else if truth (Z.b2z (sign_of F a)) then Ok (gpack F 0 (2 ^ fE F - 1) (1 ≪ (fM F - 1)), flags .| FPLIB_IOC)
     else k).
Proof.
  intros Ha Hna fz Hk. rewrite truth_b2z, b2z_0. destruct (mant_range F a fz Ha) as [[Hma _] _].
  destruct (operand_cases F HI a fz Ha Hna) as [(-> & -> & Hma0)|(-> & Hea & ->)]; cbn [andb root].
  - rewrite (proj2 (Z.eqb_neq _ 0) Hma0). destruct (sign_of F a) eqn:Hs; cbn [negb].
    + now apply delivered_invalid.
    + apply (delivered_infinite F HI _ _ false false).
  - destruct (Req_EM_T _ 0) as [E|E]; rewrite mant_0 in E.
    + rewrite E, Z.eqb_refl. apply (delivered_zero F).
    + rewrite (proj2 (Z.eqb_neq _ 0) E). destruct (sign_of F a) eqn:Hs; [now apply delivered_invalid|]. apply Hk; [done|lia|done].
Qed.

End special.

Lemma fp_sqrt_ok T a mode flags : is_bits (fmt T) a ->
  op_ok (fmt T) mode [a] (root (operand (fmt T) (mode_fz mode) a)) flags
    (match T with T32 => fp32_sqrt | T64 => fp64_sqrt end a mode flags).
Proof.
  intros Ha. destruct T; cbn [fmt] in *.
  - unfold fp32_sqrt. rewrite unpack32, gunpack_ok by done. cbv iota beta. rewrite process_NaN32.
    change (u32 (mant F32 (mode_fz mode) a ≪ 9)) with (wrap (fW F32) (mant F32 (mode_fz mode) a ≪ (fW F32 - fM F32))).
    change (expo F32 a =? 255) with (expo F32 a =? 2 ^ fE F32 - 1). rewrite nan_test by done.
    apply nan_first; [done..|]. intros Hn. set (fl := flags .| _). clearbody fl.
    apply (sqrt_special F32 eq_refl); [done..|]. cbv zeta. intros Hea Hma Hs.
    destruct (mant_range F32 a (mode_fz mode) Ha) as [Ra _]. change (fM F32 + 1) with 24 in Ra. change (emax F32) with 255 in Hea.
    replace (expo F32 a - bias F32 - fM F32) with (expo F32 a - 150) by (change (bias F32) with 127; change (fM F32) with 23; lia).
    apply sqrt32_finite; lia.
  - unfold fp64_sqrt. rewrite unpack64, gunpack_ok by done. cbv iota beta. rewrite process_NaN64.
    change (u64 (mant F64 (mode_fz mode) a ≪ 12)) with (wrap (fW F64) (mant F64 (mode_fz mode) a ≪ (fW F64 - fM F64))).
    change (expo F64 a =? 2047) with (expo F64 a =? 2 ^ fE F64 - 1). rewrite nan_test by done.
    apply nan_first; [done..|]. intros Hn. set (fl := flags .| _). clearbody fl.
    apply (sqrt_special F64 eq_refl); [done..|]. cbv zeta. intros Hea Hma Hs.
    destruct (mant_range F64 a (mode_fz mode) Ha) as [Ra _]. change (fM F64 + 1) with 53 in Ra. change (emax F64) with 2047 in Hea.
    replace (expo F64 a - bias F64 - fM F64) with (expo F64 a - 1075) by (change (bias F64) with 1023; change (fM F64) with 52; lia).
    apply sqrt64_finite; lia.
Qed.

(** C13: the square root is correctly rounded: [fplibSqrt] returns the square root of what
    the operand stands for, rounded as the register asks, with exactly the
    exceptions of IEEE 754; a negative number other than zero is invalid.  The code
    meets this by Newton's method from a linear approximation, with a single
    comparison at the end. *)
Theorem fplibSqrt_correct T a fpscr : is_bits (fmt T) a -> in_range 32 fpscr ->
  exists x fl, fplibSqrt T a fpscr = Ok (x, fpscr .| fl) /\
    computes (fmt T) (ctl_fz fpscr) (ctl_dn fpscr) (ctl_rm fpscr) [a] (root (operand (fmt T) (ctl_fz fpscr) a)) x fl.
Proof.
  intros Ha Hf. apply (with_flags0_ok (fmt T) fpscr [a] (fun fz rm => root (operand (fmt T) fz a))); [done|].
  intros mode flags _. now apply fp_sqrt_ok.
Qed.

(** The square root of [2] is inexact. *)
Lemma fplibSqrt_correct_witness : fplibSqrt T64 0x4000000000000000 0 = Ok (0x3ff6a09e667f3bcd, 16) /\
  exists x fl, fplibSqrt T64 0x4000000000000000 0 = Ok (x, 0 .| fl) /\
    computes F64 (ctl_fz 0) (ctl_dn 0) (ctl_rm 0) [0x4000000000000000] (root (operand F64 (ctl_fz 0) 0x4000000000000000)) x fl.
Proof. split; [vm_compute; reflexivity|]. apply (fplibSqrt_correct T64 0x4000000000000000 0); (split; [discriminate|reflexivity]). Defined.
