(* ===== verification/FpFma.v ===== *)
(** * Floating-point fused multiply-add

    [fplibMulAdd] rounds [a + b * c] once.  At 32 bits it always does; at 64 bits
    the code shifts words by their width when it aligns terms of equal exponents or of
    exponents 128 or more apart, which C++ leaves undefined, and the theorem says
    exactly when. *)
From Stdlib Require Import Reals Lra.
From S2P Require Import Prelude FplibCore Fplib FplibConv FpSpec FpBits FpFields FpRound FpOps FpAdd FpMul FpDiv.

(** ** Definitions *)

Definition fma_ok (F : format) (mode scale a b c flags : Z) (r : result (Z * Z)) : Prop :=
  exists x fl, r = Ok (x, flags .| fl) /\ computes_fused F (mode_fz mode) (mode_dn mode) (mode_rm mode) scale a b c x fl.

(** The code aligns and adds: three numbers, and not zeroes of one sign. *)
Definition fma_aligns (F : format) (fz : bool) (a b c : Z) : bool :=
  negb (expo F a =? 2 ^ fE F - 1) && negb (expo F b =? 2 ^ fE F - 1) && negb (expo F c =? 2 ^ fE F - 1) &&
  negb ((mant F fz a =? 0) && ((mant F fz b =? 0) || (mant F fz c =? 0)) && eqb (sign_of F a) (xorb (sign_of F b) (sign_of F c))).

(** By how much the code shifts the lesser term at 64 bits; a product of zero is given the exponent of the addend. *)
Definition fma64_shift (fz : bool) (a b c : Z) : Z :=
  if mant F64 fz b * mant F64 fz c =? 0 then 0 else Z.abs (expo F64 a + 11 - (expo F64 b + expo F64 c - 1003)).

Definition fma_undefined (T : fpT) (fz : bool) (a b c : Z) : bool :=
  match T with
  | T32 => false
  | T64 => fma_aligns F64 fz a b c && ((fma64_shift fz a b c =? 0) || (128 <=? fma64_shift fz a b c))
  end.

(** The code up to the alignment, at a format. *)
Definition gfma (F : format) (a b c mode flags : Z) (k : Z -> Z -> Z -> Z -> Z -> Z -> Z -> Z -> result (Z * Z)) : result (Z * Z) :=
  let '(a_sgn, a_exp, a_mnt, flags) := gunpack F a (mode_fz mode) flags in
  let '(b_sgn, b_exp, b_mnt, flags) := gunpack F b (mode_fz mode) flags in
  let '(c_sgn, c_exp, c_mnt, flags) := gunpack F c (mode_fz mode) flags in
  let '(x, flags) := gprocess_NaNs F [a; b; c] (mode_dn mode) flags in
  let '(x, flags) :=
    if (a_exp =? 2 ^ fE F - 1) && truth ((a_mnt ≫ (fM F - 1)) .& 1) &&
       (((b_mnt =? 0) && (c_exp =? 2 ^ fE F - 1) && (wrap (fW F) (c_mnt ≪ (fW F - fM F)) =? 0)) ||
        ((c_mnt =? 0) && (b_exp =? 2 ^ fE F - 1) && (wrap (fW F) (b_mnt ≪ (fW F - fM F)) =? 0)))
    then (gpack F 0 (2 ^ fE F - 1) (1 ≪ (fM F - 1)), flags .| FPLIB_IOC) else (x, flags) in
  if truth x then Ok (x, flags)
  else if ((b_exp =? 2 ^ fE F - 1) && (c_mnt =? 0)) || ((c_exp =? 2 ^ fE F - 1) && (b_mnt =? 0)) ||
          ((a_exp =? 2 ^ fE F - 1) && ((b_exp =? 2 ^ fE F - 1) || (c_exp =? 2 ^ fE F - 1)) && negb (a_sgn =? b_sgn .^ c_sgn))
  then Ok (gpack F 0 (2 ^ fE F - 1) (1 ≪ (fM F - 1)), flags .| FPLIB_IOC)
  else if a_exp =? 2 ^ fE F - 1 then Ok (gpack F a_sgn (2 ^ fE F - 1) 0, flags)
  else if (b_exp =? 2 ^ fE F - 1) || (c_exp =? 2 ^ fE F - 1) then Ok (gpack F (b_sgn .^ c_sgn) (2 ^ fE F - 1) 0, flags)
  else if (a_mnt =? 0) && ((b_mnt =? 0) || (c_mnt =? 0)) && (a_sgn =? b_sgn .^ c_sgn) then Ok (gpack F a_sgn 0 0, flags)
  else k a_sgn a_exp a_mnt (b_sgn .^ c_sgn) (b_exp + c_exp) b_mnt c_mnt flags.

(** The rest at 32 bits. *)
Definition fma32_sum (mode scale a_sgn a_exp a_mnt y_sgn bc_exp b_mnt c_mnt flags : Z) : result (Z * Z) :=
  let x_exp := a_exp + 13 in
  let x_mnt := u64 (a_mnt ≪ 27) in
  let y_mnt := u64 (u64 (b_mnt * c_mnt) ≪ 3) in
  let y_exp := if y_mnt =? 0 then x_exp else bc_exp - 113 in
  let '(x_mnt, y_mnt, x_exp) :=
    if y_exp <=? x_exp then
      (x_mnt, lsr64 y_mnt (x_exp - y_exp) .| nz (y_mnt .& u64 (lsl64 1 (x_exp - y_exp) - 1)), x_exp)
    else
      (lsr64 x_mnt (y_exp - x_exp) .| nz (x_mnt .& u64 (lsl64 1 (y_exp - x_exp) - 1)), y_mnt, y_exp) in
  let '(x_sgn, x_mnt) :=
    if a_sgn =? y_sgn then (a_sgn, u64 (x_mnt + y_mnt))
    else if y_mnt <=? x_mnt then (a_sgn, u64 (x_mnt - y_mnt))
    else (a_sgn .^ 1, u64 (y_mnt - x_mnt)) in
  if x_mnt =? 0 then Ok (fp32_zero (Z.b2z (mode .& 3 =? 2)), flags)
  else
    let '(x_mnt, x_exp) := fp64_normalise x_mnt x_exp in
    let x_mnt := (x_mnt ≫ 31) .| nz (u32 (x_mnt ≪ 1)) in
    fp32_round x_sgn (x_exp + scale) (u32 x_mnt) mode flags.

(** The rest at 64 bits: the alignment, and the sum. *)
Definition fma64_align (x0_mnt x1_mnt x_exp y0_mnt y1_mnt y_exp : Z) : result (Z * Z * Z * Z * Z) :=
  if y_exp <=? x_exp then
    let* '(t0, t1) := lsl128 y0_mnt y1_mnt (if x_exp - y_exp <? 128 then 128 - (x_exp - y_exp) else 0) in
    let* '(y0_mnt, y1_mnt) := lsr128 y0_mnt y1_mnt (x_exp - y_exp) in
    Ok (x0_mnt, x1_mnt, y0_mnt .| nz (t0 .| t1), y1_mnt, x_exp)
  else
    let* '(t0, t1) := lsl128 x0_mnt x1_mnt (if y_exp - x_exp <? 128 then 128 - (y_exp - x_exp) else 0) in
    let* '(x0_mnt, x1_mnt) := lsr128 x0_mnt x1_mnt (y_exp - x_exp) in
    Ok (x0_mnt .| nz (t0 .| t1), x1_mnt, y0_mnt, y1_mnt, y_exp).

Definition fma64_sum (mode scale a_sgn a_exp a_mnt y_sgn bc_exp b_mnt c_mnt flags : Z) : result (Z * Z) :=
  let x_exp := a_exp + 11 in
  let '(y0_mnt, y1_mnt) := mul62x62 b_mnt (u64 (c_mnt ≪ 3)) in
  let y_exp := if (y0_mnt =? 0) && (y1_mnt =? 0) then x_exp else bc_exp - 1003 in
  let* '(x0_mnt, x1_mnt, y0_mnt, y1_mnt, x_exp) := fma64_align 0 a_mnt x_exp y0_mnt y1_mnt y_exp in
  let '(x_sgn, (x0_mnt, x1_mnt)) :=
    if a_sgn =? y_sgn then (a_sgn, add128 x0_mnt x1_mnt y0_mnt y1_mnt)
    else if 0 <=? cmp128 x0_mnt x1_mnt y0_mnt y1_mnt then (a_sgn, sub128 x0_mnt x1_mnt y0_mnt y1_mnt)
    else (a_sgn .^ 1, sub128 y0_mnt y1_mnt x0_mnt x1_mnt) in
  if (x0_mnt =? 0) && (x1_mnt =? 0) then Ok (fp64_zero (Z.b2z (mode .& 3 =? 2)), flags)
  else
    let '(x0_mnt, x1_mnt, x_exp) := fp128_normalise x0_mnt x1_mnt x_exp in
    fp64_round x_sgn (x_exp + scale) (u64 (x1_mnt ≪ 1) .| nz x0_mnt) mode flags.

(** ** The code is an instance *)

Lemma muladd32 a b c scale mode flags : fp32_muladd a b c scale mode flags = gfma F32 a b c mode flags (fma32_sum mode scale).
Proof.
  unfold fp32_muladd, gfma. do 3 (rewrite unpack32; destruct (gunpack _ _ _ _) as [[[? ?] ?] ?]).
  rewrite process_NaNs3_32. reflexivity.
Qed.

Lemma muladd64 a b c scale mode flags : fp64_muladd a b c scale mode flags = gfma F64 a b c mode flags (fma64_sum mode scale).
Proof.
  unfold fp64_muladd, gfma. do 3 (rewrite unpack64; destruct (gunpack _ _ _ _) as [[[? ?] ?] ?]).
  rewrite process_NaNs3_64. reflexivity.
Qed.

(** ** NaNs, infinities and zeroes *)

Section special.
Context (F : format) {VF : Valid F} (HI : ieee F = true).

(** Any operand: a NaN, an infinity or a number. *)
Lemma operand_view x fz : is_bits F x ->
  is_nan F x = true /\ (exists q, operand F fz x = NaN q) /\ (expo F x =? 2 ^ fE F - 1) = true /\ mant F fz x <> 0 \/
  is_nan F x = false /\ operand F fz x = Inf (sign_of F x) /\ (expo F x =? 2 ^ fE F - 1) = true /\ mant F fz x <> 0 \/
  is_nan F x = false /\ (expo F x =? 2 ^ fE F - 1) = false /\
    operand F fz x = Num (sign_of F x) (IZR (mant F fz x) * bpow (expo F x - bias F - fM F)).
Proof.
  intros Hx. destruct (is_nan F x) eqn:Hn; [left|right].
  - pose proof Hn as Hn'. rewrite is_nan_fields in Hn' by done. apply andb_true_iff in Hn' as [He%Z.eqb_eq _].
    pose proof (emax_range F). destruct (is_fields F x Hx) as (_ & _ & Hf). pose proof (pow2_pos (fM F)). pose proof (@valid_M F VF).
    assert (emax F = 2 ^ fE F - 1) as Em by (unfold emax; now rewrite HI).
    split; [done|]. unfold operand, is_subnormal, expo, mant. rewrite !(proj2 (Z.eqb_neq (exp_of F x) 0)), andb_false_r by lia.
    split; [|split; [now apply Z.eqb_eq|lia]]. unfold is_nan in Hn. destruct (decode F x); try done. eauto.
  - destruct (operand_cases F HI x fz Hx Hn) as [(? & ? & ?)|(? & ? & ?)]; auto.
Qed.

(** The test for an infinity times a zero. *)
Lemma inf_zero_test b c fz : is_bits F b -> is_bits F c ->
  ((mant F fz b =? 0) && (expo F c =? 2 ^ fE F - 1) && (wrap (fW F) (mant F fz c ≪ (fW F - fM F)) =? 0)) ||
  ((mant F fz c =? 0) && (expo F b =? 2 ^ fE F - 1) && (wrap (fW F) (mant F fz b ≪ (fW F - fM F)) =? 0)) =
  inf_times_zero (operand F fz b) (operand F fz c).
Proof.
  intros Hb Hc. pose proof (nan_test F fz b HI Hb) as Tb. pose proof (nan_test F fz c HI Hc) as Tc. unfold truth in Tb, Tc.
  set (wb := wrap _ _) in *. set (wc := wrap _ (mant F fz c ≪ _)) in *. clearbody wb wc.
  destruct (operand_view b fz Hb) as [(Nb & [qb ->] & Eb & Mb)|[(Nb & -> & Eb & Mb)|(Nb & Eb & ->)]]; rewrite Nb, Eb in *;
    destruct (operand_view c fz Hc) as [(Nc & [qc ->] & Ec & Mc)|[(Nc & -> & Ec & Mc)|(Nc & Ec & ->)]]; rewrite Nc, Ec in *; cbn [inf_times_zero andb] in *;
    rewrite ?(proj2 (Z.eqb_neq (mant F fz b) 0)), ?(proj2 (Z.eqb_neq (mant F fz c) 0)), ?andb_false_r by done;
    apply (f_equal negb) in Tb, Tc; rewrite ?negb_involutive in *; cbn [negb] in *; rewrite ?Tb, ?Tc, ?andb_false_r, ?andb_true_r, ?orb_false_r; cbn [andb orb]; try done.
  - destruct (Req_EM_T _ _) as [E|E]; rewrite mant_0 in E; split_cmp; done.
  - destruct (Req_EM_T _ _) as [E|E]; rewrite mant_0 in E; split_cmp; done.
Qed.

(** The test for a quiet NaN. *)
Lemma quiet_nan_test a fz : is_bits F a ->
  (expo F a =? 2 ^ fE F - 1) && truth ((mant F fz a ≫ (fM F - 1)) .& 1) = is_nan F a && negb (is_snan F a).
Proof.
  intros Ha. pose proof (@valid_M F VF). pose proof (@valid_E F VF). destruct (is_fields F a Ha) as (_ & He & Hf).
  rewrite is_snan_fields, is_nan_fields by done. pose proof (pow2_le 2 (fE F) ltac:(lia)). change (2 ^ 2) with 4 in *.
  unfold expo. destruct (Z.eqb_spec (exp_of F a) 0) as [E0|E0]; [now rewrite E0, !(proj2 (Z.eqb_neq _ (2 ^ fE F - 1))) by lia|].
  destruct (exp_of F a =? 2 ^ fE F - 1); [|done]. cbn [andb]. unfold truth. rewrite quiet_bit by
    (try done; unfold is_bits; pose proof (mant_range F a fz Ha); pose proof (pow2_le (fM F + 1) (fW F)); unfold fW in *; lia).
  assert (frac_of F (mant F fz a) = frac_of F a) as ->.
  { unfold mant. rewrite (proj2 (Z.eqb_neq _ 0)) by done. unfold frac_of at 1. rewrite <- (Z.mul_1_l (2 ^ fM F)) at 1.
    rewrite Z.add_comm, Z.mod_add by lia. now apply Z.mod_small. }
  pose proof (pow2_pos (fM F - 1) ltac:(lia)). destruct (Z.eqb_spec (frac_of F a) 0) as [->|]; cbn [negb andb]; [|done].
  now rewrite (proj2 (Z.ltb_lt 0 _)) by lia.
Qed.

Context (a b c mode flags : Z) (k : Z -> Z -> Z -> Z -> Z -> Z -> Z -> Z -> result (Z * Z)).
Context (Ha : is_bits F a) (Hb : is_bits F b) (Hc : is_bits F c).

Let fz := mode_fz mode.
Let fl := flags .| flushed F fz [a; b; c].
Let rest (fl : Z) := k (Z.b2z (sign_of F a)) (expo F a) (mant F fz a) (Z.b2z (xorb (sign_of F b) (sign_of F c))) (expo F b + expo F c) (mant F fz b) (mant F fz c) fl.

(** Once NaNs are out of the way. *)
Lemma fma_special scale fl' : is_nan F a = false -> is_nan F b = false -> is_nan F c = false ->
  (fma_aligns F fz a b c = true ->
   delivered F mode (fused (mode_rm mode) scale (operand F fz a) (operand F fz b) (operand F fz c)) fl' (rest fl')) ->
  delivered F mode (fused (mode_rm mode) scale (operand F fz a) (operand F fz b) (operand F fz c)) fl'
    (if ((expo F b =? 2 ^ fE F - 1) && (mant F fz c =? 0)) || ((expo F c =? 2 ^ fE F - 1) && (mant F fz b =? 0)) ||
        ((expo F a =? 2 ^ fE F - 1) && ((expo F b =? 2 ^ fE F - 1) || (expo F c =? 2 ^ fE F - 1)) &&
         negb (eqb (sign_of F a) (xorb (sign_of F b) (sign_of F c))))
     then Ok (gpack F 0 (2 ^ fE F - 1) (1 ≪ (fM F - 1)), fl' .| FPLIB_IOC)
     else if expo F a =? 2 ^ fE F - 1 then Ok (gpack F (Z.b2z (sign_of F a)) (2 ^ fE F - 1) 0, fl')
     else if (expo F b =? 2 ^ fE F - 1) || (expo F c =? 2 ^ fE F - 1)
     then Ok (gpack F (Z.b2z (xorb (sign_of F b) (sign_of F c))) (2 ^ fE F - 1) 0, fl')
     else if (mant F fz a =? 0) && ((mant F fz b =? 0) || (mant F fz c =? 0)) && eqb (sign_of F a) (xorb (sign_of F b) (sign_of F c))
     then Ok (gpack F (Z.b2z (sign_of F a)) 0 0, fl')
     else rest fl').
Proof.
  intros Na Nb Nc Hk. pose proof (fun s => delivered_infinite F HI mode fl' s false) as Hinf. cbv iota in Hinf.
  pose proof (delivered_invalid F mode fl') as Hinv. pose proof (eqb_prop (sign_of F a) (xorb (sign_of F b) (sign_of F c))) as Heq.
  assert (forall s t, eqb s t = eqb t s) as Hcomm by (now intros [] []).
  unfold fma_aligns in Hk.
  destruct (operand_cases F HI a fz Ha Na) as [(Ea & Oa & Ma)|(Ea & _ & Oa)], (operand_cases F HI b fz Hb Nb) as [(Eb & Ob & Mb)|(Eb & _ & Ob)],
    (operand_cases F HI c fz Hc Nc) as [(Ec & Oc & Mc)|(Ec & _ & Oc)]; rewrite Ea, Eb, Ec, Oa, Ob, Oc in *; cbn [andb orb negb fused product] in *;
    rewrite ?(proj2 (Z.eqb_neq (mant F fz b) 0)), ?(proj2 (Z.eqb_neq (mant F fz c) 0)) by done; cbn [andb orb negb]; rewrite ?andb_false_r; cbn [andb orb].
  all: try (destruct (Req_EM_T _ _) as [E|E]; rewrite mant_0 in E; [rewrite E; done|rewrite (proj2 (Z.eqb_neq _ 0) E); cbn [andb orb]]).
  all: rewrite ?(xorb_comm (sign_of F c)).
  all: rewrite ?(Hcomm (xorb _ _) _).
  all: try (destruct (eqb (sign_of F a) _); cbn [negb]; [rewrite <- ?Heq by done; apply Hinf|done]).
  all: try apply Hinf.
  destruct (_ && _ && _) eqn:Hz; [|now apply Hk].
  apply andb_true_iff in Hz as [[Hz1%Z.eqb_eq Hz2]%andb_true_iff Hz3]. rewrite Hz3, exactly_0; [apply (delivered_zero F)|].
  rewrite Hz1, Rmult_0_l. assert (IZR (mant F fz b) * IZR (mant F fz c) = 0)%R as E0.
  { apply orb_true_iff in Hz2 as [->%Z.eqb_eq| ->%Z.eqb_eq]; lra. }
  generalize (bpow (expo F b - bias F - fM F)) (bpow (expo F c - bias F - fM F)). intros p q.
  replace (IZR (mant F fz b) * p * (IZR (mant F fz c) * q))%R with (IZR (mant F fz b) * IZR (mant F fz c) * p * q)%R by ring.
  rewrite E0. unfold signed. repeat case_match; lra.
Qed.

Lemma gfma_ok scale :
  (fma_aligns F fz a b c = true ->
   delivered F mode (fused (mode_rm mode) scale (operand F fz a) (operand F fz b) (operand F fz c)) fl (rest fl)) ->
  fma_ok F mode scale a b c flags (gfma F a b c mode flags k).
Proof.
  intros Hk. unfold gfma. rewrite !gunpack_ok by done. cbv iota beta. fold fz. rewrite <- !Z.lor_assoc, <- !flushed_cons. fold fl.
  assert (Forall (is_bits F) [a; b; c]) as Hall by all_bits.
  pose proof (gprocess_NaNs_ok F HI [a; b; c] (mode_dn mode) fl Hall) as Hn.
  rewrite quiet_nan_test, inf_zero_test by done. unfold fma_ok, computes_fused. fold fz. rewrite default_nan_pack by done.
  destruct (is_nan F a && negb (is_snan F a) && inf_times_zero (operand F fz b) (operand F fz c)) eqn:Hov.
  - exists (default_nan F), (flushed F fz [a; b; c] .| FPLIB_IOC). split; [|done]. destruct (default_nan_ok F) as [_ Ht].
    destruct (chosen_nan F [a; b; c]) as [y|]; [destruct Hn as (x & -> & _)|rewrite Hn]; rewrite (proj2 (truth_true _)) by done.
    + do 2 f_equal. rewrite <- !Z.lor_assoc. unfold fl. rewrite <- Z.lor_assoc. do 2 f_equal. now destruct (is_snan F y).
    + do 2 f_equal. unfold fl. now rewrite <- Z.lor_assoc.
  - pose proof (chosen_nan_None F [a; b; c]) as Hnone. unfold computes. destruct (chosen_nan F [a; b; c]) as [y|].
    + destruct Hn as (x & -> & Hx & Ht & Hbits). rewrite Ht. eexists x, _. unfold fl. rewrite <- Z.lor_assoc. split; [done|]. split; [done|]. eauto.
    + rewrite Hn. change (truth 0) with false. cbv iota. rewrite b2z_xor, b2z_eq. rewrite <- default_nan_pack by done.
      specialize (proj1 Hnone eq_refl) as Hno.
      destruct (fma_special scale fl (Hno a ltac:(set_solver)) (Hno b ltac:(set_solver)) (Hno c ltac:(set_solver)) Hk) as (x & f & E & Hbits & Hd).
      exists x, (flushed F fz [a; b; c] .| f). rewrite Z.lor_assoc. split; [exact E|]. split; [done|]. eauto.
Qed.

Lemma gfma_aligned : fma_aligns F fz a b c = true -> gfma F a b c mode flags k = rest fl.
Proof.
  intros Hal. pose proof Hal as Hal'. unfold fma_aligns in Hal.
  apply andb_true_iff in Hal as [[[Ea Eb]%andb_true_iff Ec]%andb_true_iff Hz]. apply negb_true_iff in Ea, Eb, Ec, Hz.
  assert (forall x, is_bits F x -> (expo F x =? 2 ^ fE F - 1) = false -> is_nan F x = false) as Hno.
  { intros x Hx E. destruct (operand_view x fz Hx) as [(_ & _ & ? & _)|[(? & _)|(? & _)]]; congruence. }
  unfold gfma. rewrite !gunpack_ok by done. cbv iota beta. fold fz. rewrite <- !Z.lor_assoc, <- !flushed_cons. fold fl.
  assert (Forall (is_bits F) [a; b; c]) as Hall by all_bits.
  pose proof (gprocess_NaNs_ok F HI [a; b; c] (mode_dn mode) fl Hall) as Hn.
  assert (chosen_nan F [a; b; c] = None) as E.
  { apply chosen_nan_None. intros x Hx. apply Hno; rewrite !elem_of_cons, elem_of_nil in Hx; destruct Hx as [->|[->|[->|[]]]]; done. }
  rewrite E in Hn. rewrite Hn, Ea, Eb, Ec. cbn [andb orb]. change (truth 0) with false. cbv iota. rewrite b2z_xor, b2z_eq, Hz. done.
Qed.

End special.

(** ** Aligning *)

Lemma sr_bound x n j k : 0 <= j <= n -> j <= k -> 0 <= x < 2 ^ (k + 1) -> 0 <= sr x n < 2 ^ (k + 1 - j).
Proof.
  intros Hj Hk Hx. replace n with (j + (n - j)) by lia. rewrite <- sr_sr by lia.
  pose proof (sr_range x j k ltac:(lia) Hx). pose proof (sr_le (sr x j) (n - j) ltac:(lia) ltac:(lia)).
  pose proof (sr_nonneg (sr x j) (n - j)). lia.
Qed.

Lemma sr_exactly m n k : 0 <= n <= k -> (IZR (m * 2 ^ k) * bpow (- n) = IZR (sr (m * 2 ^ k) n))%R.
Proof. intros. rewrite sr_mul, !IZR_scale, Rmult_assoc, <- bpow_add by lia. do 2 f_equal. Qed.

(** When an aligned term lost bits, the sum is large, or small enough to be subnormal. *)
Lemma fma_lost M S ma p ex ey a' b' e : 2 <= M -> M + 4 <= S -> align (ma * 2 ^ S) ex (p * 2 ^ 3) ey = (a', b', e) ->
  0 <= ma < 2 ^ (M + 1) -> 0 <= p < 2 ^ (2 * M + 2) -> 2 ^ M <= ma \/ ex <= 20 -> 2 ^ M <= p \/ ey <= ex + S ->
  (IZR (ma * 2 ^ S) * bpow (ex - e) = IZR a' /\ IZR (p * 2 ^ 3) * bpow (ey - e) = IZR b')%R \/ 2 ^ (M + 2) <= Z.abs (a' - b') \/ e <= 20.
Proof.
  intros HM HS Hal Hma Hp Hna Hnp. unfold align in Hal. destruct (Z.leb_spec ey ex); injection Hal as <- <- <-; rewrite Z.sub_diag, bpow_0, Rmult_1_r.
  - destruct (Z_le_gt_dec (ex - ey) 3) as [H3|H3].
    + left. split; [done|]. replace (ey - ex) with (- (ex - ey)) by lia. apply sr_exactly. lia.
    + right. destruct Hna as [Hna|]; [left|lia].
      pose proof (sr_bound (p * 2 ^ 3) (ex - ey) 4 (2 * M + 4) ltac:(lia) ltac:(lia)) as Hb.
      replace (2 * M + 4 + 1) with (2 * M + 2 + 3) in Hb by lia. rewrite (pow2_split (2 * M + 2) 3) in Hb by lia. specialize (Hb ltac:(lia)).
      replace (2 * M + 2 + 3 - 4) with (2 * M + 1) in Hb by lia. pose proof (pow2_le (M + 4) S HS).
      assert (2 ^ (2 * M + 1) = 2 ^ M * 2 ^ M * 2) as E1 by (replace (2 * M + 1) with (M + M + 1) by lia; now rewrite !pow2_split by lia).
      rewrite (pow2_split M 4) in * by lia. rewrite (pow2_split M 2) by lia. pose proof (pow2_le 2 M ltac:(lia)).
      change (2 ^ 2) with 4 in *. change (2 ^ 4) with 16 in *. assert (16 * (2 ^ M * 2 ^ M) <= ma * 2 ^ S) by nia. nia.
  - destruct (Z_le_gt_dec (ey - ex) S) as [H3|H3].
    + left. split; [|done]. replace (ex - ey) with (- (ey - ex)) by lia. apply sr_exactly. lia.
    + right. left. destruct Hnp as [Hnp|]; [|lia].
      pose proof (sr_bound (ma * 2 ^ S) (ey - ex) (S + 1) (M + S) ltac:(lia) ltac:(lia)) as Hb. pose proof (pow2_pos S ltac:(lia)).
      replace (M + S + 1) with (M + 1 + S) in Hb by lia. rewrite (pow2_split (M + 1) S) in Hb by lia. specialize (Hb ltac:(nia)).
      replace (M + 1 + S - (S + 1)) with M in Hb by lia.
      rewrite !(pow2_split M) in * by lia. change (2 ^ 1) with 2 in *. change (2 ^ 2) with 4 in *. change (2 ^ 3) with 8 in *. lia.
Qed.

(** ** 32 bits *)

Lemma product_normal M mb mc eb ec : 0 <= M -> 0 < mb -> 0 < mc -> 2 ^ M <= mb \/ eb = 1 -> 2 ^ M <= mc \/ ec = 1 -> 2 < eb + ec -> 2 ^ M <= mb * mc.
Proof. intros HM Hb Hc. pose proof (pow2_pos M HM). intros [?|?] [?|?] ?; nia. Qed.

(** The terms in units of the code. *)
Lemma fma_scale (sa sy : bool) ma mb mc ea ex ey eb ec scale K S q : 0 <= S -> mb * mc <> 0 -> ea - K = S + ex + q -> eb + ec - 2 * K = 3 + ey + q ->
  ((signed sa (IZR ma * bpow (ea - K)) + signed sy (IZR mb * bpow (eb - K) * (IZR mc * bpow (ec - K)))) * bpow scale =
   signed sa (IZR (ma * 2 ^ S) * bpow (ex + (q + scale))) + signed sy (IZR (mb * mc * 2 ^ 3) * bpow (ey + (q + scale))))%R.
Proof.
  intros HS Hp Ea Ep. rewrite Rmult_plus_distr_r, <- !signed_mult, !IZR_scale, mult_IZR by lia. f_equal; f_equal.
  - rewrite !Rmult_assoc, <- !bpow_add. do 2 f_equal. lia.
  - rewrite (Rmult_assoc (IZR mb * IZR mc) (bpow 3)), <- bpow_add. replace (3 + (ey + (q + scale))) with (eb - K + (ec - K) + scale) by lia.
    rewrite !bpow_add. ring.
Qed.

Definition fma32_end (mode scale flags x_sgn x_mnt x_exp : Z) : result (Z * Z) :=
  let '(x_mnt, x_exp) := fp64_normalise x_mnt x_exp in
  fp32_round x_sgn (x_exp + scale) (u32 ((x_mnt ≫ 31) .| nz (u32 (x_mnt ≪ 1)))) mode flags.

Lemma delivered_eq F mode o flags r r' : r = r' -> delivered F mode o flags r' -> delivered F mode o flags r.
Proof. now intros ->. Qed.

Lemma fma32_finite (sa sy : bool) ma mb mc ea eb ec mode scale flags :
  0 <= ma < 2 ^ 24 -> 0 <= mb < 2 ^ 24 -> 0 <= mc < 2 ^ 24 -> 2 ^ 23 <= ma \/ ea = 1 -> 2 ^ 23 <= mb \/ eb = 1 -> 2 ^ 23 <= mc \/ ec = 1 ->
  1 <= ea < 2 ^ 10 -> 1 <= eb < 2 ^ 10 -> 1 <= ec < 2 ^ 10 -> - 4 <= scale <= 0 -> ~ (ma = 0 /\ mb * mc = 0 /\ sa = sy) ->
  delivered F32 mode
    (exactly (if eqb sa sy then sa else is_down (mode_rm mode))
       ((signed sa (IZR ma * bpow (ea - 150)) + signed sy (IZR mb * bpow (eb - 150) * (IZR mc * bpow (ec - 150)))) * bpow scale)) flags
    (fma32_sum mode scale (Z.b2z sa) ea ma (Z.b2z sy) (eb + ec) mb mc flags).
Proof.
  intros Hma Hmb Hmc Hna Hnb Hnc Hea Heb Hec Hsc Hnz. set (p := mb * mc) in *. assert (0 <= p < 2 ^ 48) as Hp by (unfold p; nia).
  unfold fma32_sum. fold p. rewrite (u64_small p), !Z.shiftl_mul_pow2, (u64_small (ma * _)), (u64_small (p * _)) by (unfold in_range; lia). cbv zeta.
  set (ey := if p * 2 ^ 3 =? 0 then ea + 13 else eb + ec - 113).
  replace (_ * bpow scale)%R with (signed sa (IZR (ma * 2 ^ 27) * bpow (ea + 13 + (- 190 + scale))) + signed sy (IZR (p * 2 ^ 3) * bpow (ey + (- 190 + scale))))%R.
  2: { destruct (Z.eqb_spec p 0) as [E0|E0].
       - rewrite E0, Rmult_0_l. unfold p in E0. apply Z.mul_eq_0 in E0. rewrite Rmult_plus_distr_r, <- !signed_mult, IZR_scale by lia. f_equal; f_equal.
         + rewrite !Rmult_assoc, <- !bpow_add. do 2 f_equal. lia.
         + destruct E0 as [->| ->]; lra.
       - symmetry. apply fma_scale; unfold ey; rewrite ?(proj2 (Z.eqb_neq (p * 2 ^ 3) 0)) by lia; lia. }
  assert (- 2 ^ 20 < ey < 2 ^ 20) as Hey by (unfold ey; split_cmp; lia).
  assert (2 ^ 23 <= p \/ ey <= ea + 13 + 27) as Hnp.
  { unfold ey. destruct (Z.eqb_spec (p * 2 ^ 3) 0); [lia|]. destruct (Z_le_gt_dec (eb + ec - 113) (ea + 13 + 27)); [lia|left].
    assert (0 < mb /\ 0 < mc) as [] by (unfold p in *; nia). apply (product_normal 23 mb mc eb ec); [lia..|done|done|lia]. }
  clearbody ey p.
  eapply delivered_eq; [refine (add_code 64 (Z.b2z sa) (Z.b2z sy) (ma * 2 ^ 27) (p * 2 ^ 3) (ea + 13) ey
    (fun s m e => if m =? 0 then Ok (gpack F32 (Z.b2z (mode .& 3 =? 2)) 0 0, flags) else fma32_end mode scale flags s m e)
    _ _ _ _ _ _); lia|].
  apply (sum_code F32 _ _ _ _ _ _ _ _ _ (fma32_end mode scale flags));
    [lia|lia|exists (ma * 2 ^ 26); lia|exists (p * 4); lia|intros (? & ? & ?); apply Hnz; split_and!; [lia|lia|done]|].
  intros s a' b' e m T Hal Hm Hbnd Hs Hexact.
  pose proof (fma_lost 23 27 ma p (ea + 13) ey a' b' e ltac:(lia) ltac:(lia) Hal ltac:(lia) ltac:(lia) ltac:(lia) Hnp) as Hlost.
  pose proof (aligned_le _ _ _ _ _ _ _ Hal ltac:(lia) ltac:(lia)). apply align_ok in Hal as (He & _); [|lia..].
  unfold fma32_end. destruct (fp64_normalise m e) as [m' e'] eqn:En. replace (e + (- 190 + scale)) with (e - 190 + scale) by lia.
  apply (norm64_round32 _ m _ _ _ _ _ _ _ En); [lia..|done|]. destruct Hlost as [[Eu Ev]|Hlost]; [left; now apply Hexact|right; lia].
Qed.

(** ** 64 bits *)

Lemma v128_sticky r0 r1 b : is_u64 r0 -> is_u64 r1 -> b = 0 \/ b = 1 ->
  is_u64 (r0 .| b) /\ v128 (r0 .| b) r1 = v128 r0 r1 .| b.
Proof.
  unfold in_range, v128. intros H0 H1 [->| ->]; [now rewrite !Z.lor_0_r|]. rewrite !lor_1.
  replace (r1 * 2 ^ 64 + r0) with (r0 + r1 * 2 ^ 63 * 2) by lia. rewrite Z.div_add by lia. divlia.
Qed.

Lemma sticky128 x0 x1 n : is_u64 x0 -> is_u64 x1 -> 0 < n < 128 -> exists t0 t1 r0 r1,
  lsl128 x0 x1 (128 - n) = Ok (t0, t1) /\ lsr128 x0 x1 n = Ok (r0, r1) /\
  is_u64 (r0 .| nz (t0 .| t1)) /\ is_u64 r1 /\ v128 (r0 .| nz (t0 .| t1)) r1 = sr (v128 x0 x1) n.
Proof.
  intros H0 H1 Hn. destruct (lsl128_ok x0 x1 (128 - n) H0 H1 ltac:(lia)) as (t0 & t1 & El & T0 & T1 & Vt).
  destruct (lsr128_ok x0 x1 n H0 H1 ltac:(lia)) as (r0 & r1 & Er & R0 & R1 & Vr). exists t0, t1, r0, r1. split; [done|]. split; [done|].
  assert (nz (t0 .| t1) = nz (v128 x0 x1 mod 2 ^ n)) as ->.
  { pose proof (pow2_pos (128 - n) ltac:(lia)) as P. assert (v128 t0 t1 = v128 x0 x1 mod 2 ^ n * 2 ^ (128 - n)) as E.
    { rewrite Vt. replace (2 ^ 128) with (2 ^ n * 2 ^ (128 - n)) by (rewrite <- pow2_split by lia; f_equal; lia).
      apply Z.mul_mod_distr_r; [pose proof (pow2_pos n)|]; lia. }
    unfold v128, in_range in *. destruct (nz_01 (t0 .| t1)) as [[-> Z1]|[-> N1]], (nz_01 ((x1 * 2 ^ 64 + x0) mod 2 ^ n)) as [[-> Z2]|[-> N2]]; try done; exfalso.
    - apply Z.lor_eq_0_iff in Z1 as [-> ->]. nia.
    - apply N1, Z.lor_eq_0_iff. nia. }
  destruct (v128_sticky r0 r1 (nz (v128 x0 x1 mod 2 ^ n)) R0 R1) as [Hu ->]; [destruct (nz_01 (v128 x0 x1 mod 2 ^ n)) as [[-> _]|[-> _]]; auto|].
  rewrite Vr. done.
Qed.

Lemma fma64_align_ok x0 x1 ex y0 y1 ey : is_u64 x0 -> is_u64 x1 -> is_u64 y0 -> is_u64 y1 -> Z.abs (ex - ey) < 2 ^ 20 ->
  if (Z.abs (ex - ey) =? 0) || (128 <=? Z.abs (ex - ey)) then fma64_align x0 x1 ex y0 y1 ey = Err Undefined
  else exists x0' x1' y0' y1' e, fma64_align x0 x1 ex y0 y1 ey = Ok (x0', x1', y0', y1', e) /\
    is_u64 x0' /\ is_u64 x1' /\ is_u64 y0' /\ is_u64 y1' /\ align (v128 x0 x1) ex (v128 y0 y1) ey = (v128 x0' x1', v128 y0' y1', e).
Proof.
  intros X0 X1 Y0 Y1 Hd. unfold fma64_align, align. destruct ((Z.abs (ex - ey) =? 0) || _) eqn:E.
  - apply orb_true_iff in E as [E%Z.eqb_eq|E%Z.leb_le].
    + rewrite (proj2 (Z.leb_le ey ex)), (proj2 (Z.ltb_lt (ex - ey) 128)) by lia. replace (ex - ey) with 0 by lia. reflexivity.
    + destruct (Z.leb_spec ey ex).
      * rewrite (proj2 (Z.ltb_ge (ex - ey) 128)) by lia. reflexivity.
      * rewrite (proj2 (Z.ltb_ge (ey - ex) 128)) by lia. reflexivity.
  - apply orb_false_iff in E as [E%Z.eqb_neq E'%Z.leb_gt]. destruct (Z.leb_spec ey ex).
    + rewrite (proj2 (Z.ltb_lt (ex - ey) 128)) by lia. destruct (sticky128 y0 y1 (ex - ey) Y0 Y1 ltac:(lia)) as (t0 & t1 & r0 & r1 & -> & E2 & ? & ? & Ev).
      cbn [rbind]. rewrite E2. cbn [rbind]. rewrite <- Ev. eauto 12.
    + rewrite (proj2 (Z.ltb_lt (ey - ex) 128)) by lia. destruct (sticky128 x0 x1 (ey - ex) X0 X1 ltac:(lia)) as (t0 & t1 & r0 & r1 & -> & E2 & ? & ? & Ev).
      cbn [rbind]. rewrite E2. cbn [rbind]. rewrite <- Ev. eauto 12.
Qed.

Lemma add_words sa sy x0 x1 y0 y1 : is_u64 x0 -> is_u64 x1 -> is_u64 y0 -> is_u64 y1 -> v128 x0 x1 + v128 y0 y1 < 2 ^ 128 ->
  exists s r0 r1, is_u64 r0 /\ is_u64 r1 /\ add_signed sa (v128 x0 x1) sy (v128 y0 y1) = (s, v128 r0 r1) /\
    (if sa =? sy then (sa, add128 x0 x1 y0 y1)
     else if 0 <=? cmp128 x0 x1 y0 y1 then (sa, sub128 x0 x1 y0 y1) else (sa .^ 1, sub128 y0 y1 x0 x1)) = (s, (r0, r1)).
Proof.
  intros X0 X1 Y0 Y1 Hf. unfold add_signed. rewrite cmp128_ok by done. destruct (sa =? sy).
  - destruct (add128_ok x0 x1 y0 y1) as (r0 & r1 & -> & ? & ? & <-); [done..|]. eauto 9.
  - destruct (Z.compare_spec (v128 x0 x1) (v128 y0 y1)) as [E|E|E]; cbn [Z.leb Z.compare].
    + rewrite (proj2 (Z.leb_le _ _)) by lia. destruct (sub128_ok x0 x1 y0 y1) as (r0 & r1 & -> & ? & ? & <-); [done..|lia|]. eauto 9.
    + rewrite (proj2 (Z.leb_gt _ _)) by lia. destruct (sub128_ok y0 y1 x0 x1) as (r0 & r1 & -> & ? & ? & <-); [done..|lia|]. eauto 9.
    + rewrite (proj2 (Z.leb_le _ _)) by lia. destruct (sub128_ok x0 x1 y0 y1) as (r0 & r1 & -> & ? & ? & <-); [done..|lia|]. eauto 9.
Qed.

(** Two words that stand for [V], the lower one reduced to a sticky bit. *)
Lemma same_words d x0 x1 V : is_u64 x0 -> is_u64 x1 -> 1 <= d -> same d (v128 x0 x1) V -> V <> IZR (v128 x0 x1) ->
  same (Z.max 1 (d - 63)) (2 * x1 + nz x0) (V * bpow (- 63)).
Proof.
  intros H0 H1 Hd [?|(q & Hq & Hv)] Hne; [done|]. right.
  assert (forall n, (IZR (n * 2 ^ 64) * bpow (- 63) = IZR (n * 2))%R) as Hs.
  { intros n. rewrite IZR_scale, Rmult_assoc, <- bpow_add, mult_IZR by lia. f_equal. rewrite bpow_IZR by lia. done. }
  assert (nz x0 = 0 /\ x0 = 0 \/ nz x0 = 1 /\ 1 <= x0) as Hn by (unfold in_range in *; destruct (nz_01 x0); lia).
  pose proof (bpow_pos (- 63)) as P. unfold in_range, v128 in *. destruct (Z_le_gt_dec d 64) as [Hd64|Hd64].
  - exists x1. replace (Z.max 1 (d - 63)) with 1 by lia. change (2 ^ 1) with 2. pose proof (pow2_pos d ltac:(lia)) as Pd.
    assert (2 ^ 64 = 2 ^ (64 - d) * 2 ^ d) as E by (rewrite <- pow2_split by lia; f_equal; lia). pose proof (pow2_pos (64 - d) ltac:(lia)).
    assert (x1 * 2 ^ 64 <= q * 2 ^ d /\ (q + 1) * 2 ^ d <= (x1 + 1) * 2 ^ 64) as [L U].
    { rewrite E in *. set (w := 2 ^ (64 - d)) in *. set (D := 2 ^ d) in *. clearbody w D.
      assert (x1 * w < q + 1) by nia. assert (q < (x1 + 1) * w) by nia. nia. }
    split; [lia|]. apply IZR_le in L, U. rewrite <- !Hs. nra.
  - exists q. replace (Z.max 1 (d - 63)) with (d - 63) by lia.
    assert (2 ^ d = 2 ^ (d - 64) * 2 ^ 64) as E by (rewrite <- pow2_split by lia; f_equal; lia).
    assert (2 ^ (d - 63) = 2 ^ (d - 64) * 2) as E' by (rewrite Z.mul_comm, <- Z.pow_succ_r by lia; f_equal; lia).
    rewrite E, E' in *. rewrite !Z.mul_assoc in *. rewrite <- !Hs. split; [lia|]. nra.
Qed.

Definition fma64_end (mode scale flags x_sgn x0_mnt x1_mnt x_exp : Z) : result (Z * Z) :=
  let '(x0_mnt, x1_mnt, x_exp) := fp128_normalise x0_mnt x1_mnt x_exp in
  fp64_round x_sgn (x_exp + scale) (u64 (x1_mnt ≪ 1) .| nz x0_mnt) mode flags.

Lemma norm128_round64 s x0 x1 e scale V mode flags : is_u64 x0 -> is_u64 x1 -> 0 < v128 x0 x1 ->
  - 2 ^ 20 < e < 2 ^ 20 -> - 4 <= scale <= 0 -> same 1 (v128 x0 x1) V -> (V = IZR (v128 x0 x1) \/ 2 ^ 54 <= v128 x0 x1 \/ e <= 20) ->
  delivered F64 mode (Finite s (V * bpow (e - 1150 + scale))) flags (fma64_end mode scale flags (Z.b2z s) x0 x1 e).
Proof.
  intros H0 H1 Hv He Hsc Hs Hex. unfold fma64_end.
  destruct (fp128_normalise_ok x0 x1 e H0 H1 ltac:(lia)) as (y0 & y1 & e' & -> & G0 & G1 & (z & Hz & Hm & -> & Hr)).
  change (128 - 1) with 127 in Hr. assert (z < 128). { destruct (Z_lt_le_dec z 128) as [|Hl]; [done|]. apply pow2_le in Hl. nia. }
  pose proof (words_top y0 y1 G0 G1 Hr) as Ht.
  destruct (Req_EM_T V (IZR (v128 x0 x1))) as [->|Hne].
  { apply round_words; [done..|lia|]. rewrite Hm, IZR_scale, Rmult_assoc, <- bpow_add by lia. do 2 f_equal. lia. }
  destruct Hex as [|Hex]; [done|]. assert (2 ^ 54 <= v128 x0 x1 -> z <= 73).
  { intros. destruct (Z_lt_le_dec z 74) as [|Hl]; [lia|]. apply pow2_le in Hl. nia. }
  destruct (sticky_words y0 y1 G0 Ht) as (X & HX & HXr & _).
  assert (X = 2 * y1 + nz y0) as ->.
  { revert HX. unfold u64. rewrite wrap_shl by lia. change (64 - 1) with 63. replace (y1 mod 2 ^ 63) with (y1 - 2 ^ 63) by (apply (Z.mod_unique_pos _ _ 1); lia).
    assert (0 <= nz y0 < 2 ^ 1) by (destruct (nz_01 y0) as [[-> _]|[-> _]]; lia). rewrite lor_add by lia. lia. }
  rewrite HX. apply delivered_round64 with (d := Z.max 1 (1 + z - 63)) (V := (V * bpow z * bpow (- 63))%R); [lia..| |].
  - apply same_words; [done..|lia|rewrite Hm; apply same_shl; [lia..|done]|]. rewrite Hm, IZR_scale by lia. intros E.
    apply Hne, (Rmult_eq_reg_r (bpow z)); [done|]. pose proof (bpow_pos z). lra.
  - rewrite !Rmult_assoc, <- !bpow_add. do 2 f_equal. lia.
Qed.

(** The code on words as a sum of integers. *)
Lemma fma64_code sa sy ea ebc ma mb mc mode scale flags : 0 <= ma < 2 ^ 53 -> 0 <= mb < 2 ^ 53 -> 0 <= mc < 2 ^ 53 ->
  1 <= ea < 2 ^ 12 -> 2 <= ebc < 2 ^ 12 ->
  let ey := if mb * mc =? 0 then ea + 11 else ebc - 1003 in
  fma64_sum mode scale sa ea ma sy ebc mb mc flags =
  if (Z.abs (ea + 11 - ey) =? 0) || (128 <=? Z.abs (ea + 11 - ey)) then Err Undefined
  else
    let '(a', b', e) := align (ma * 2 ^ 64) (ea + 11) (mb * mc * 2 ^ 3) ey in
    let '(x_sgn, x_mnt) := add_signed sa a' sy b' in
    if x_mnt =? 0 then Ok (gpack F64 (Z.b2z (mode .& 3 =? 2)) 0 0, flags)
    else fma64_end mode scale flags x_sgn (words x_mnt).1 (words x_mnt).2 e.
Proof.
  intros Hma Hmb Hmc Hea Hebc ey. unfold fma64_sum. rewrite Z.shiftl_mul_pow2, (u64_small (mc * 2 ^ 3)) by (unfold in_range; lia).
  destruct (mul62x62_ok mb (mc * 2 ^ 3) ltac:(lia) ltac:(lia)) as (y0 & y1 & -> & Y0 & Y1 & Vy). rewrite Z.mul_assoc in Vy.
  rewrite v128_0, Vy by done. set (p := mb * mc) in *. assert (0 <= p < 2 ^ 106) as Hp by (unfold p; nia).
  replace (p * 2 ^ 3 =? 0) with (p =? 0) by (split_cmp; done || lia). fold ey. cbv zeta. assert (- 2 ^ 12 < ey < 2 ^ 13) by (unfold ey; split_cmp; lia). clearbody ey p.
  assert (is_u64 0 /\ is_u64 ma) as [X0 X1] by (unfold in_range; lia).
  pose proof (fma64_align_ok 0 ma (ea + 11) y0 y1 ey X0 X1 Y0 Y1 ltac:(lia)) as Hal. rewrite Vy in Hal.
  replace (v128 0 ma) with (ma * 2 ^ 64) in Hal by (unfold v128; lia).
  destruct ((Z.abs (ea + 11 - ey) =? 0) || _); [now rewrite Hal|]. destruct Hal as (x0' & x1' & y0' & y1' & e & -> & U0 & U1 & U2 & U3 & Hal).
  cbn [rbind]. rewrite Hal. pose proof (aligned_le _ _ _ _ _ _ _ Hal ltac:(lia) ltac:(lia)).
  destruct (add_words sa sy x0' x1' y0' y1' U0 U1 U2 U3 ltac:(lia)) as (s & r0 & r1 & R0 & R1 & -> & ->).
  rewrite v128_0, words_v128 by done. reflexivity.
Qed.

Lemma fma64_finite (sa sy : bool) ma mb mc ea eb ec mode scale flags :
  0 <= ma < 2 ^ 53 -> 0 <= mb < 2 ^ 53 -> 0 <= mc < 2 ^ 53 -> 2 ^ 52 <= ma \/ ea = 1 -> 2 ^ 52 <= mb \/ eb = 1 -> 2 ^ 52 <= mc \/ ec = 1 ->
  1 <= ea < 2 ^ 11 -> 1 <= eb < 2 ^ 11 -> 1 <= ec < 2 ^ 11 -> - 4 <= scale <= 0 ->
  let n := if mb * mc =? 0 then 0 else Z.abs (ea + 11 - (eb + ec - 1003)) in
  if (n =? 0) || (128 <=? n) then fma64_sum mode scale (Z.b2z sa) ea ma (Z.b2z sy) (eb + ec) mb mc flags = Err Undefined
  else delivered F64 mode
    (exactly (if eqb sa sy then sa else is_down (mode_rm mode))
       ((signed sa (IZR ma * bpow (ea - 1075)) + signed sy (IZR mb * bpow (eb - 1075) * (IZR mc * bpow (ec - 1075)))) * bpow scale)) flags
    (fma64_sum mode scale (Z.b2z sa) ea ma (Z.b2z sy) (eb + ec) mb mc flags).
Proof.
  intros Hma Hmb Hmc Hna Hnb Hnc Hea Heb Hec Hsc n. rewrite fma64_code by lia. cbv zeta.
  set (ey := if mb * mc =? 0 then ea + 11 else eb + ec - 1003).
  assert (Z.abs (ea + 11 - ey) = n) as -> by (unfold n, ey; destruct (mb * mc =? 0); lia).
  destruct ((n =? 0) || _) eqn:En; [done|]. apply orb_false_iff in En as [En _]. unfold n, ey in *. clear n ey.
  destruct (Z.eqb_spec (mb * mc) 0) as [|Hp0]; [done|]. clear En.
  rewrite (fma_scale sa sy ma mb mc ea (ea + 11) (eb + ec - 1003) eb ec scale 1075 64 (- 1150)) by lia.
  assert (0 < mb /\ 0 < mc) as [Hb0 Hc0] by nia.
  pose proof (product_normal 52 mb mc eb ec ltac:(lia) Hb0 Hc0 Hnb Hnc) as Hnp.
  set (p := mb * mc) in *. assert (0 <= p < 2 ^ 106) as Hp by (unfold p; nia). clearbody p.
  apply (sum_code F64 _ _ _ _ _ _ _ _ _ (fun s m e => fma64_end mode scale flags s (words m).1 (words m).2 e));
    [lia|lia|exists (ma * 2 ^ 63); lia|exists (p * 4); lia|lia|].
  intros s a' b' e m T Hal Hm Hbnd Hs Hexact.
  pose proof (fma_lost 52 64 ma p (ea + 11) (eb + ec - 1003) a' b' e ltac:(lia) ltac:(lia) Hal ltac:(lia) ltac:(lia) ltac:(lia) ltac:(lia)) as Hlost.
  pose proof (aligned_le _ _ _ _ _ _ _ Hal ltac:(lia) ltac:(lia)). apply align_ok in Hal as (He & _); [|lia..].
  assert (v128 (words m).1 (words m).2 = m) as Ev by (cbn; unfold v128; divlia).
  replace (e + (- 1150 + scale)) with (e - 1150 + scale) by lia. apply norm128_round64; rewrite ?Ev; try done; try lia.
  - cbn. apply Z.mod_pos_bound. lia.
  - cbn. unfold in_range. divlia.
  - destruct Hlost as [[Eu Evv]|Hlost]; [left; now apply Hexact|right; lia].
Qed.

(** ** The functions of the code *)

Lemma fused_num rm scale r w s u t v :
  fused rm scale (Num r w) (Num s u) (Num t v) =
  exactly (if eqb r (xorb s t) then r else is_down rm) ((signed r w + signed (xorb s t) (u * v)) * bpow scale).
Proof. done. Qed.

Lemma fma_aligns_true F fz a b c : fma_aligns F fz a b c = true ->
  (expo F a =? 2 ^ fE F - 1) = false /\ (expo F b =? 2 ^ fE F - 1) = false /\ (expo F c =? 2 ^ fE F - 1) = false /\
  ~ (mant F fz a = 0 /\ mant F fz b * mant F fz c = 0 /\ sign_of F a = xorb (sign_of F b) (sign_of F c)).
Proof.
  unfold fma_aligns. intros [[[Ea Eb]%andb_true_iff Ec]%andb_true_iff Hz]%andb_true_iff. apply negb_true_iff in Ea, Eb, Ec, Hz.
  split_and!; [done..|]. intros (E1 & E2%Z.mul_eq_0 & E3). rewrite E1, E3, eqb_reflx, andb_true_r in Hz. cbn [Z.eqb andb] in Hz.
  apply orb_false_iff in Hz as [?%Z.eqb_neq ?%Z.eqb_neq]. lia.
Qed.

Lemma operand_finite F {VF : Valid F} x fz : ieee F = true -> is_bits F x -> (expo F x =? 2 ^ fE F - 1) = false ->
  1 <= expo F x < emax F /\ operand F fz x = Num (sign_of F x) (IZR (mant F fz x) * bpow (expo F x - bias F - fM F)).
Proof.
  intros HI Hx E. destruct (operand_view F HI x fz Hx) as [(_ & _ & ? & _)|[(_ & _ & ? & _)|(Hn & _ & Ho)]]; [congruence..|].
  destruct (operand_cases F HI x fz Hx Hn) as [(? & _)|(_ & ? & _)]; [congruence|done].
Qed.

Lemma fp_muladd_ok T a b c scale mode flags : is_bits (fmt T) a -> is_bits (fmt T) b -> is_bits (fmt T) c -> - 4 <= scale <= 0 ->
  let r := match T with T32 => fp32_muladd | T64 => fp64_muladd end a b c scale mode flags in
  if fma_undefined T (mode_fz mode) a b c then r = Err Undefined else fma_ok (fmt T) mode scale a b c flags r.
Proof.
  intros Ha Hb Hc Hsc. destruct T; cbn [fmt] in *; cbv zeta.
  - rewrite muladd32. change (fma_undefined _ _ _ _ _) with false. cbv iota. apply gfma_ok; [done..|]. intros (Ea & Eb & Ec & Hz)%fma_aligns_true.
    destruct (operand_finite F32 a (mode_fz mode) eq_refl Ha Ea) as [Ra ->]. destruct (operand_finite F32 b (mode_fz mode) eq_refl Hb Eb) as [Rb ->].
    destruct (operand_finite F32 c (mode_fz mode) eq_refl Hc Ec) as [Rc ->]. destruct (mant_range F32 a (mode_fz mode) Ha) as [Ma Na].
    destruct (mant_range F32 b (mode_fz mode) Hb) as [Mb Nb]. destruct (mant_range F32 c (mode_fz mode) Hc) as [Mc Nc].
    rewrite fused_num. change (emax F32) with 255 in *. change (fM F32 + 1) with 24 in *. change (bias F32) with 127. change (fM F32) with 23 in *.
    replace (expo F32 a - 127 - 23) with (expo F32 a - 150) by lia. replace (expo F32 b - 127 - 23) with (expo F32 b - 150) by lia.
    replace (expo F32 c - 127 - 23) with (expo F32 c - 150) by lia. apply fma32_finite; done || lia.
  - rewrite muladd64. unfold fma_undefined.
    destruct (fma_aligns F64 (mode_fz mode) a b c) eqn:Hal; [|apply gfma_ok; [done..|congruence]]. cbn [andb].
    rewrite gfma_aligned by done. pose proof Hal as (Ea & Eb & Ec & Hz)%fma_aligns_true.
    destruct (operand_finite F64 a (mode_fz mode) eq_refl Ha Ea) as [Ra Oa]. destruct (operand_finite F64 b (mode_fz mode) eq_refl Hb Eb) as [Rb Ob].
    destruct (operand_finite F64 c (mode_fz mode) eq_refl Hc Ec) as [Rc Oc]. destruct (mant_range F64 a (mode_fz mode) Ha) as [Ma Na].
    destruct (mant_range F64 b (mode_fz mode) Hb) as [Mb Nb]. destruct (mant_range F64 c (mode_fz mode) Hc) as [Mc Nc].
    change (emax F64) with 2047 in *. change (fM F64 + 1) with 53 in *. change (bias F64) with 1023 in *. change (fM F64) with 52 in *.
    pose proof (fun fl => fma64_finite (sign_of F64 a) (xorb (sign_of F64 b) (sign_of F64 c)) _ _ _ _ _ _ mode scale fl Ma Mb Mc Na Nb Nc
      ltac:(lia) ltac:(lia) ltac:(lia) Hsc) as Hfin. cbv zeta in Hfin. unfold fma64_shift. destruct ((_ =? 0) || _) eqn:Hn in |- *; rewrite Hn in Hfin; [apply Hfin|].
    rewrite <- (gfma_aligned F64 eq_refl a b c mode flags (fma64_sum mode scale)) by done. apply gfma_ok; [done..|]. intros _. rewrite Oa, Ob, Oc, fused_num.
    replace (expo F64 a - 1023 - 52) with (expo F64 a - 1075) by lia. replace (expo F64 b - 1023 - 52) with (expo F64 b - 1075) by lia.
    replace (expo F64 c - 1023 - 52) with (expo F64 c - 1075) by lia. apply Hfin.
Qed.

Lemma computes_fused_flags F fz dn rm scale a b c x fl : computes_fused F fz dn rm scale a b c x fl -> flag_bits fl.
Proof.
  unfold computes_fused. destruct (_ && _ && _); [|apply computes_flags]. intros [_ ->]. apply flag_bits_lor; [|done].
  unfold flushed. now destruct (fz && _).
Qed.

(** C11: the fused multiply-add rounds once: [fplibMulAdd] returns [a + b * c] for what the
    operands stand for, rounded once as the register asks, with exactly the
    exceptions of IEEE 754.  At 32 bits it always does.  At 64 bits the code shifts a
    64-bit word by 64 when it aligns two terms of equal exponents (a product of zero
    among them) or of exponents at least 128 apart, which is undefined; the theorem
    says for which operands, and that the result is right for all the others. *)
Theorem fplibMulAdd_correct T a b c fpscr : is_bits (fmt T) a -> is_bits (fmt T) b -> is_bits (fmt T) c -> in_range 32 fpscr ->
  if fma_undefined T (ctl_fz fpscr) a b c then fplibMulAdd T a b c fpscr = Err Undefined
  else exists x fl, fplibMulAdd T a b c fpscr = Ok (x, fpscr .| fl) /\
    computes_fused (fmt T) (ctl_fz fpscr) (ctl_dn fpscr) (ctl_rm fpscr) 0 a b c x fl.
Proof.
  intros Ha Hb Hc Hf. pose proof (fp_muladd_ok T a b c 0 (modeConv fpscr) 0 Ha Hb Hc ltac:(lia)) as H. cbv zeta in H.
  unfold fplibMulAdd, with_flags0. rewrite mode_fz_conv in H by done.
  destruct (fma_undefined T (ctl_fz fpscr) a b c); [now rewrite H|]. destruct H as (x & fl & -> & H). cbn [rbind].
  rewrite mode_rm_conv, mode_fz_conv, mode_dn_conv in H by done. exists x, fl. split; [|done].
  now rewrite Z.lor_0_l, set_fpscr0_ok by eauto using computes_fused_flags.
Qed.

(** [1 + 1 * 0] is undefined at 64 bits and [1] at 32; [1 + 3 * 4 = 13]. *)
Lemma fplibMulAdd_correct_witness :
  (fplibMulAdd T64 0x3ff0000000000000 0x3ff0000000000000 0 0 = Err Undefined /\ fplibMulAdd T32 0x3f800000 0x3f800000 0 0 = Ok (0x3f800000, 0)) /\
  exists x fl, fplibMulAdd T64 0x3ff0000000000000 0x4008000000000000 0x4010000000000000 0 = Ok (x, 0 .| fl) /\
    computes_fused F64 (ctl_fz 0) (ctl_dn 0) (ctl_rm 0) 0 0x3ff0000000000000 0x4008000000000000 0x4010000000000000 x fl.
Proof.
  split; [split; vm_compute; reflexivity|].
  apply (fplibMulAdd_correct T64 0x3ff0000000000000 0x4008000000000000 0x4010000000000000 0); (split; [discriminate|reflexivity]).
Defined.
