(* ===== verification/FpSteps.v ===== *)
(** * Newton-Raphson steps

    [fplibRecipStepFused] and [fplibRSqrtStepFused] round [2 - a * b] and
    [(3 - a * b) / 2] once; numbers of a format round to themselves. *)
From Stdlib Require Import Reals Lra.
From S2P Require Import Prelude FplibCore Fplib FplibConv FpSpec FpBits FpFields FpRound FpOps FpAdd FpMul FpDiv FpFma.

(** ** Definitions *)

(** The exact result of a step: [k - a * b], times a power of two, for [x] the negated [a]; [k] when the
    product is that of an infinity and a zero. *)
Definition step (rm : rmode) (k : R) (scale : Z) (x y : num) : exact :=
  if inf_times_zero x y then Finite false (k * bpow scale) else fused rm scale (Num false k) x y.

(** The code at a format. *)
Definition gstep (F : format) (C : Z) (muladd : Z -> Z -> result (Z * Z)) (a b mode flags : Z) : result (Z * Z) :=
  let '(sgn1, exp1, mnt1, flags) := gunpack F a (mode_fz mode) flags in
  let '(sgn2, exp2, mnt2, flags) := gunpack F b (mode_fz mode) flags in
  let '(result, flags) := gprocess_NaNs F [a; b] (mode_dn mode) flags in
  if truth result then Ok (result, flags)
  else if ((exp1 =? 2 ^ fE F - 1) && (mnt2 =? 0)) || ((exp2 =? 2 ^ fE F - 1) && (mnt1 =? 0)) then Ok (C, flags)
  else if (exp1 =? 2 ^ fE F - 1) || (exp2 =? 2 ^ fE F - 1) then Ok (gpack F (sgn1 .^ sgn2) (2 ^ fE F - 1) 0, flags)
  else muladd mode flags.

(** The step functions of the code. *)
Definition step_fused (T : fpT) (root : bool) : Z -> Z -> Z -> result (Z * Z) :=
  match T, root with
  | T32, false => fplibRecipStepFused32 | T64, false => fplibRecipStepFused64
  | T32, true => fplibRSqrtStepFused32 | T64, true => fplibRSqrtStepFused64
  end.

(** The constant [k], as a number and as a pattern, and the power of two. *)
Definition step_k (root : bool) : R := if root then 3%R else 2%R.
Definition step_scale (root : bool) : Z := if root then -1 else 0.
Definition step_bits (T : fpT) (root : bool) : Z :=
  match T, root with
  | T32, false => fp32_FPTwo 0 | T64, false => fp64_FPTwo 0
  | T32, true => fp32_FPThree 0 | T64, true => fp64_FPThree 0
  end.

(** The result when the product is that of an infinity and a zero. *)
Definition step_limit (T : fpT) (root : bool) : Z :=
  match T, root with
  | T32, false => fp32_FPTwo 0 | T64, false => fp64_FPTwo 0
  | T32, true => fp32_FPOnePointFive 0 | T64, true => fp64_FPOnePointFive 0
  end.

(** The exact result of an extended multiplication: [2] for an infinity and a zero. *)
Definition product_extended (x y : num) : exact :=
  if inf_times_zero x y then Finite (xorb (match x with Inf s | Num s _ => s | NaN _ => false end) (match y with Inf s | Num s _ => s | NaN _ => false end)) 2 else product x y.

Definition gmulx (F : format) (two : Z -> Z) (mul : Z -> Z -> result (Z * Z)) (a b mode flags : Z) : result (Z * Z) :=
  let '(sgn1, exp1, mnt1, flags) := gunpack F a (mode_fz mode) flags in
  let '(sgn2, exp2, mnt2, flags) := gunpack F b (mode_fz mode) flags in
  let '(result, flags) := gprocess_NaNs F [a; b] (mode_dn mode) flags in
  if truth result then Ok (result, flags)
  else if ((exp1 =? 2 ^ fE F - 1) && (mnt2 =? 0)) || ((exp2 =? 2 ^ fE F - 1) && (mnt1 =? 0)) then Ok (two (sgn1 .^ sgn2), flags)
  else if (exp1 =? 2 ^ fE F - 1) || (exp2 =? 2 ^ fE F - 1) then Ok (gpack F (sgn1 .^ sgn2) (2 ^ fE F - 1) 0, flags)
  else if (mnt1 =? 0) || (mnt2 =? 0) then Ok (gpack F (sgn1 .^ sgn2) 0 0, flags)
  else mul mode flags.

(** ** Numbers of a format *)

Lemma rounds_int_self rm s n : rounds_int rm s (IZR n) n.
Proof.
  destruct rm; cbn; rewrite ?Rminus_diag, ?Rabs_R0; try (destruct s; lra); lra.
Qed.

Section self.
Context (F : format) {VF : Valid F}.

Let HM : 2 <= fM F := valid_M.

(** A number of the format is a multiple of its unit in the last place. *)
Lemma number_quantum s v x : is_bits F x -> decode F x = Num s v -> (0 < v)%R ->
  exists q n, quantum F v q /\ v = (IZR n * bpow q)%R /\ (v < bpow (emax F - bias F))%R /\ (exp_of F x <> 0 -> (min_normal F <= v)%R).
Proof.
  intros Hx Hd Hv. destruct (is_fields F x Hx) as (_ & He & Hf). pose proof Hd as Hd'. unfold decode in Hd.
  destruct (Z.eqb_spec (exp_of F x) (emax F)) as [|Hne]; [now destruct (frac_of F x =? 0)|]. pose proof (emax_range F) as Hem.
  assert (exp_of F x < emax F) as Hlt by (unfold emax in *; destruct (ieee F); lia).
  assert (exists n e, v = (IZR n * bpow (e - bias F - fM F))%R /\ 0 < n < 2 ^ (fM F + 1) /\ e = Z.max 1 (exp_of F x) /\ (2 ^ fM F <= n <-> exp_of F x <> 0)) as (n & e & Ev & Hn & He' & Hn').
  { destruct (Z.eqb_spec (exp_of F x) 0) as [E0|E0]; simplify_eq.
    - exists (frac_of F x), 1. split; [done|]. split; [|split; [lia|lia]]. split; [|rewrite Z.add_1_r, Z.pow_succ_r by lia; lia].
      destruct (Z.eq_dec (frac_of F x) 0) as [Ef|]; [rewrite Ef in Hv; lra|lia].
    - exists (2 ^ fM F + frac_of F x), (exp_of F x). split; [done|]. rewrite Z.add_1_r, Z.pow_succ_r by lia. lia. }
  pose proof (bpow_pos (e - bias F - fM F)) as P.
  assert (v < bpow (e - bias F + 1))%R as Hhi.
  { rewrite Ev. replace (e - bias F + 1) with (fM F + 1 + (e - bias F - fM F)) by lia. rewrite bpow_add. apply Rmult_lt_compat_r; [done|].
    rewrite bpow_IZR by lia. apply IZR_lt. lia. }
  assert (exp_of F x <> 0 -> (bpow (e - bias F) <= v)%R) as Hlo.
  { intros H0%Hn'. rewrite Ev. replace (e - bias F) with (fM F + (e - bias F - fM F)) at 1 by lia. rewrite bpow_add. apply Rmult_le_compat_r; [lra|].
    rewrite bpow_IZR by lia. apply IZR_le. lia. }
  exists (e - bias F - fM F), n. split_and!; [|done| |].
  - destruct (Z.eq_dec (exp_of F x) 0) as [E0|E0].
    + destruct (magnitude v (e - bias F + 1)) as (e' & Hm & Hl); [done|]. exists e'. split; [done|lia].
    + exists (e - bias F). split; [split; [now apply Hlo|done]|lia].
  - apply (Rlt_le_trans _ _ _ Hhi), bpow_le. lia.
  - intros H0. unfold min_normal. apply (Rle_trans _ (bpow (e - bias F))); [apply bpow_le; lia|now apply Hlo].
Qed.

(** It rounds to itself, and to nothing else. *)
Lemma rounded_self fz rm s v x : is_bits F x -> decode F x = Num s v -> (0 < v)%R -> fz = false \/ exp_of F x <> 0 -> rounded F fz rm s v x 0.
Proof.
  intros Hx Hd Hv Hfz. destruct (number_quantum s v x Hx Hd Hv) as (q & n & Hq & Ev & Hhi & Hlo). unfold rounded.
  assert (fz && (if Rlt_dec v (min_normal F) then true else false) = false) as ->.
  { destruct Hfz as [->|H0]; [done|]. destruct (Rlt_dec v (min_normal F)) as [Hm|]; [|apply andb_false_r]. specialize (Hlo H0). lra. }
  exists v. split.
  - exists q, n. split; [done|]. split; [|done]. pose proof (bpow_pos q). replace (v / bpow q)%R with (IZR n); [apply rounds_int_self|]. rewrite Ev. field. lra.
  - destruct (Rlt_dec v (bpow (emax F - bias F))); [|done]. split; [done|]. now destruct (Req_EM_T v v).
Qed.

Lemma rounds_int_only rm s n m : rounds_int rm s (IZR n) m -> m = n.
Proof.
  assert (forall u, - 1 < u < 1 -> u = IZR (m - n) -> m = n)%R as H.
  { intros u Hu ->. destruct Hu as [H1%lt_IZR H2%lt_IZR]. lia. }
  intros Hr. apply (H (IZR m - IZR n)%R); [|symmetry; apply minus_IZR]. destruct rm; cbn in Hr.
  - destruct Hr as [Hr _]. unfold Rabs in Hr. destruct (Rcase_abs _); lra.
  - destruct s; lra.
  - destruct s; lra.
  - lra.
  - lra.
  - destruct Hr as [->|[Hr _]]; [lra|]. unfold Rabs in Hr. destruct (Rcase_abs _); lra.
Qed.

Lemma quantum_only v q q' : quantum F v q -> quantum F v q' -> q = q'.
Proof.
  intros (e & He & ->) (e' & He' & ->). destruct (Z.lt_trichotomy e e') as [H|[->|H]]; [|done|].
  - pose proof (bpow_le (e + 1) e' ltac:(lia)). lra.
  - pose proof (bpow_le (e' + 1) e ltac:(lia)). lra.
Qed.

Lemma rounded_only fz rm s v x y fl : is_bits F x -> decode F x = Num s v -> (0 < v)%R -> fz = false \/ exp_of F x <> 0 ->
  rounded F fz rm s v y fl -> decode F y = Num s v /\ fl = 0.
Proof.
  intros Hx Hd Hv Hfz. destruct (number_quantum s v x Hx Hd Hv) as (q & n & Hq & Ev & Hhi & Hlo). unfold rounded.
  assert (fz && (if Rlt_dec v (min_normal F) then true else false) = false) as ->.
  { destruct Hfz as [->|H0]; [done|]. destruct (Rlt_dec v (min_normal F)) as [Hm|]; [|apply andb_false_r]. specialize (Hlo H0). lra. }
  intros (r & (q' & n' & Hq' & Hn & Er) & H). rewrite (quantum_only v q' q) in * by done. pose proof (bpow_pos q).
  replace (v / bpow q)%R with (IZR n) in Hn by (rewrite Ev; field; lra). apply rounds_int_only in Hn as ->. rewrite <- Ev in Er. subst r.
  destruct (Rlt_dec v (bpow (emax F - bias F))); [|done]. now destruct (Req_EM_T v v).
Qed.

End self.

(** ** Negation *)

Lemma xor_top x k : 0 <= k -> 0 <= x < 2 ^ (k + 1) -> x .^ (1 ≪ k) = if x <? 2 ^ k then x + 2 ^ k else x - 2 ^ k.
Proof.
  intros Hk Hx. rewrite Z.add_1_r, Z.pow_succ_r in Hx by lia. rewrite Z.shiftl_1_l.
  assert (forall y, 0 <= y < 2 ^ k -> y .^ 2 ^ k = y + 2 ^ k) as H.
  { intros y Hy. symmetry. apply Z.add_nocarry_lxor. bits_ext i. simpl_bits. rewrite Z.bits_0.
    destruct (Z.eqb_spec i k) as [->|]; [|apply andb_false_r]. rewrite andb_true_r. now apply (in_range_testbit k). }
  destruct (Z.ltb_spec x (2 ^ k)) as [Hl|Hl]; [apply H; lia|].
  replace x with ((x - 2 ^ k) + 2 ^ k) at 1 by lia. rewrite <- H by lia. now rewrite Z.lxor_assoc, Z.lxor_nilpotent, Z.lxor_0_r.
Qed.

Lemma neg_fields T x : is_bits (fmt T) x -> let y := fplibNeg T x in
  is_bits (fmt T) y /\ sign_of (fmt T) y = negb (sign_of (fmt T) x) /\ exp_of (fmt T) y = exp_of (fmt T) x /\ frac_of (fmt T) y = frac_of (fmt T) x.
Proof.
  intros Hx y. assert (y = if x <? 2 ^ (fW (fmt T) - 1) then x + 2 ^ (fW (fmt T) - 1) else x - 2 ^ (fW (fmt T) - 1)) as Ey.
  { unfold y. destruct T; cbn [fplibNeg fmt] in *; (apply xor_top; [done|exact Hx]). }
  assert (exists z, (z = 1 \/ z = -1) /\ y = x + z * 2 ^ fE (fmt T) * 2 ^ fM (fmt T)) as (z & Hz & Ez).
  { assert (2 ^ (fW (fmt T) - 1) = 2 ^ fE (fmt T) * 2 ^ fM (fmt T)) as E by now destruct T. rewrite E in Ey.
    destruct (x <? _); [exists 1|exists (-1)]; lia. }
  unfold is_bits, sign_of, exp_of, frac_of in *. replace (2 ^ (fE (fmt T) + fM (fmt T))) with (2 ^ (fW (fmt T) - 1)) by now destruct T.
  assert (2 ^ fW (fmt T) = 2 * 2 ^ (fW (fmt T) - 1)) as EW by now destruct T. split_and!.
  - rewrite Ey. destruct (Z.ltb_spec x (2 ^ (fW (fmt T) - 1))); lia.
  - rewrite Ey. destruct (Z.ltb_spec x (2 ^ (fW (fmt T) - 1))); lia.
  - rewrite Ey. destruct (Z.ltb_spec x (2 ^ (fW (fmt T) - 1))); rewrite Z.leb_antisym; split_cmp; done || lia.
  - rewrite Ez, Z.div_add, Z.mod_add by (destruct T; cbn; lia). done.
  - rewrite Ez, Z.mod_add by (destruct T; cbn; lia). done.
Qed.

Lemma operand_neg T fz x : is_bits (fmt T) x -> operand (fmt T) fz (fplibNeg T x) = neg (operand (fmt T) fz x).
Proof.
  intros Hx. destruct (neg_fields T x Hx) as (_ & Hs & He & Hf). unfold operand, is_subnormal, decode. rewrite Hs, He, Hf.
  destruct (fz && _); [done|]. repeat case_match; done.
Qed.

(** ** Steps *)

Section step.
Context (F : format) {VF : Valid F} (HI : ieee F = true).

(** A fused multiply-add with a constant, on operands that are no NaNs. *)
Lemma fma_const C k scale a b mode flags r : is_bits F a -> is_bits F b -> is_nan F a = false -> is_nan F b = false ->
  decode F C = Num false k -> exp_of F C <> 0 -> let fl := flags .| flushed F (mode_fz mode) [a; b] in
  fma_ok F mode scale C a b fl r ->
  delivered F mode (fused (mode_rm mode) scale (Num false k) (operand F (mode_fz mode) a) (operand F (mode_fz mode) b)) fl r.
Proof.
  intros Ha Hb Na Nb HC HE fl (x & f & -> & H). unfold computes_fused in H.
  assert (is_nan F C = false) as NC by (unfold is_nan; now rewrite HC). rewrite NC in H. cbn [andb] in H.
  destruct H as (Hbits & f' & -> & H).
  assert (chosen_nan F [C; a; b] = None) as E.
  { apply chosen_nan_None. intros x' Hx'. rewrite !elem_of_cons, elem_of_nil in Hx'. destruct Hx' as [->|[->|[->|[]]]]; done. }
  rewrite E in H. assert (operand F (mode_fz mode) C = Num false k) as EC.
  { unfold operand, is_subnormal. rewrite (proj2 (Z.eqb_neq (exp_of F C) 0)) by done. now rewrite andb_false_r. }
  rewrite EC in H. exists x, f'. split; [|done]. do 2 f_equal. unfold fl. rewrite <- !Z.lor_assoc. f_equal. rewrite Z.lor_assoc. f_equal.
  rewrite (flushed_cons F _ C). assert (flushed F (mode_fz mode) [C] = 0) as ->.
  { unfold flushed, is_subnormal. cbn [existsb]. rewrite (proj2 (Z.eqb_neq (exp_of F C) 0)) by done. now rewrite andb_false_r. }
  rewrite Z.lor_0_l. apply Z.lor_diag.
Qed.

Lemma gstep_ok C C' k scale muladd a b mode flags : is_bits F a -> is_bits F b -> is_bits F C ->
  decode F C = Num false (k * bpow scale) -> (0 < k)%R -> exp_of F C <> 0 -> decode F C' = Num false k -> exp_of F C' <> 0 ->
  ((expo F a =? 2 ^ fE F - 1) = false -> (expo F b =? 2 ^ fE F - 1) = false -> forall fl, fma_ok F mode scale C' a b fl (muladd mode fl)) ->
  op_ok F mode [a; b] (step (mode_rm mode) k scale (operand F (mode_fz mode) a) (operand F (mode_fz mode) b)) flags
    (gstep F C muladd a b mode flags).
Proof.
  intros Ha Hb HCb HC Hk HCe HC' HCe' Hmul. unfold gstep. rewrite !gunpack_ok by done. cbv iota beta. rewrite <- !Z.lor_assoc, <- !flushed_cons.
  apply (nans_first F mode [a; b] _ flags (fun flags => _)); [done|all_bits|]. cbv beta.
  intros Hnan. rewrite chosen_nan_None in Hnan by done. pose proof (Hnan a ltac:(set_solver)) as Na. pose proof (Hnan b ltac:(set_solver)) as Nb.
  pose proof (fun E E' => fma_const C' k scale a b mode flags _ Ha Hb Na Nb HC' HCe' (Hmul E E' _)) as Hfma.
  set (fl := flags .| _) in *. set (fz := mode_fz mode) in *. unfold step. rewrite b2z_xor.
  assert (delivered F mode (Finite false (k * bpow scale)) fl (Ok (C, fl))) as Hconst.
  { exists C, 0. rewrite Z.lor_0_r. split; [done|]. split; [done|]. apply rounded_self; [done..| |now right]. pose proof (bpow_pos scale). nra. }
  pose proof (delivered_infinite F HI mode fl (xorb (sign_of F a) (sign_of F b)) false) as Hinf. cbv iota in Hinf.
  destruct (operand_cases F HI a fz Ha Na) as [(Ea & Oa & Ma)|(Ea & _ & Oa)], (operand_cases F HI b fz Hb Nb) as [(Eb & Ob & Mb)|(Eb & _ & Ob)];
    rewrite Ea, Eb; fold fz in Hfma; rewrite Oa, Ob in *; cbn [andb orb inf_times_zero fused product];
    rewrite ?(proj2 (Z.eqb_neq (mant F fz a) 0)), ?(proj2 (Z.eqb_neq (mant F fz b) 0)) by done; cbn [andb orb]; [done| | |now apply Hfma].
  - destruct (Req_EM_T _ _) as [E|E]; rewrite mant_0 in E; [now rewrite E|]. now rewrite (proj2 (Z.eqb_neq _ 0) E).
  - destruct (Req_EM_T _ _) as [E|E]; rewrite mant_0 in E; [now rewrite E|]. rewrite (proj2 (Z.eqb_neq _ 0) E). now rewrite xorb_comm.
Qed.

End step.

(** The step functions are instances. *)
Lemma step_code T root a b fpscr : step_fused T root a b fpscr =
  with_flags0 fpscr (gstep (fmt T) (step_limit T root)
    (match T with T32 => fp32_muladd | T64 => fp64_muladd end (step_bits T root) (fplibNeg T a) b (step_scale root)) (fplibNeg T a) b).
Proof.
  destruct T, root; cbn [step_fused fmt step_bits step_limit step_scale]; unfold with_flags0, gstep.
  - unfold fplibRSqrtStepFused32. do 2 (rewrite unpack32; destruct (gunpack _ _ _ _) as [[[? ?] ?] ?]). rewrite process_NaNs_32.
    destruct (gprocess_NaNs _ _ _ _). reflexivity.
  - unfold fplibRecipStepFused32. do 2 (rewrite unpack32; destruct (gunpack _ _ _ _) as [[[? ?] ?] ?]). rewrite process_NaNs_32.
    destruct (gprocess_NaNs _ _ _ _). reflexivity.
  - unfold fplibRSqrtStepFused64. do 2 (rewrite unpack64; destruct (gunpack _ _ _ _) as [[[? ?] ?] ?]). rewrite process_NaNs_64.
    destruct (gprocess_NaNs _ _ _ _). reflexivity.
  - unfold fplibRecipStepFused64. do 2 (rewrite unpack64; destruct (gunpack _ _ _ _) as [[[? ?] ?] ?]). rewrite process_NaNs_64.
    destruct (gprocess_NaNs _ _ _ _). reflexivity.
Qed.

(** A normal number from its fields. *)
Lemma decode_const F s x e f m n j v : exp_of F x = e -> frac_of F x = f -> sign_of F x = s -> e <> emax F -> e <> 0 ->
  2 ^ fM F + f = m * 2 ^ n -> 0 <= n -> n + (e - bias F - fM F) = j -> (v = IZR m * bpow j)%R -> decode F x = Num s v.
Proof.
  intros <- <- <- Hm H0 E Hn <- ->. unfold decode. rewrite (proj2 (Z.eqb_neq _ _) Hm), (proj2 (Z.eqb_neq _ _) H0), E, IZR_scale by done.
  now rewrite Rmult_assoc, <- bpow_add.
Qed.

Lemma step_consts T root : is_bits (fmt T) (step_limit T root) /\ exp_of (fmt T) (step_limit T root) <> 0 /\
  decode (fmt T) (step_limit T root) = Num false (step_k root * bpow (step_scale root)) /\
  is_bits (fmt T) (step_bits T root) /\ exp_of (fmt T) (step_bits T root) <> 0 /\ decode (fmt T) (step_bits T root) = Num false (step_k root).
Proof.
  assert (bpow 1 = 2%R) as E1 by (rewrite bpow_IZR by lia; done). pose proof bpow_0 as E0.
  destruct T, root; cbn [fmt step_limit step_bits step_k step_scale]; split_and!. all: try (vm_compute; done).
  - apply (decode_const F32 false _ 127 0x400000 3 22 (-1)); try (vm_compute; done || lia); done.
  - apply (decode_const F32 false _ 128 0x400000 3 22 0); try (vm_compute; done || lia); rewrite E0; lra.
  - apply (decode_const F32 false _ 128 0 1 23 1); try (vm_compute; done || lia); rewrite E1, E0; lra.
  - apply (decode_const F32 false _ 128 0 1 23 1); try (vm_compute; done || lia); rewrite E1; lra.
  - apply (decode_const F64 false _ 1023 0x8000000000000 3 51 (-1)); try (vm_compute; done || lia); done.
  - apply (decode_const F64 false _ 1024 0x8000000000000 3 51 0); try (vm_compute; done || lia); rewrite E0; lra.
  - apply (decode_const F64 false _ 1024 0 1 52 1); try (vm_compute; done || lia); rewrite E1, E0; lra.
  - apply (decode_const F64 false _ 1024 0 1 52 1); try (vm_compute; done || lia); rewrite E1; lra.
Qed.

Lemma gstep_finite F {VF : Valid F} C muladd a b mode flags : ieee F = true -> is_bits F a -> is_bits F b ->
  (expo F a =? 2 ^ fE F - 1) = false -> (expo F b =? 2 ^ fE F - 1) = false ->
  exists fl, gstep F C muladd a b mode flags = muladd mode fl.
Proof.
  intros HI Ha Hb Ea Eb. unfold gstep. rewrite !gunpack_ok by done. cbv iota beta.
  pose proof (gprocess_NaNs_ok F HI [a; b] (mode_dn mode) (flags .| flushed F (mode_fz mode) [a] .| flushed F (mode_fz mode) [b]) ltac:(all_bits)) as Hn.
  assert (forall x, is_bits F x -> (expo F x =? 2 ^ fE F - 1) = false -> is_nan F x = false) as Hno.
  { intros x Hx E. destruct (operand_view F HI x false Hx) as [(_ & _ & ? & _)|[(? & _)|(? & _)]]; congruence. }
  assert (chosen_nan F [a; b] = None) as E.
  { apply chosen_nan_None. intros x Hx. rewrite !elem_of_cons, elem_of_nil in Hx. destruct Hx as [->|[->|[]]]; auto. }
  rewrite E in Hn. rewrite Hn, Ea, Eb. eauto.
Qed.

(** The Newton-Raphson steps round once: [fplibRecipStepFused] and
    [fplibRSqrtStepFused] return [2 - a * b] and [(3 - a * b) / 2], rounded once with exactly
    the exceptions of IEEE 754, and [2] and [3 / 2] for an infinity times a zero; at 64 bits,
    except where the fused multiply-add underneath is undefined. *)
Theorem step_fused_correct T root a b fpscr : is_bits (fmt T) a -> is_bits (fmt T) b -> in_range 32 fpscr ->
  if fma_undefined T (ctl_fz fpscr) (step_bits T root) (fplibNeg T a) b then step_fused T root a b fpscr = Err Undefined
  else exists x fl, step_fused T root a b fpscr = Ok (x, fpscr .| fl) /\
    computes (fmt T) (ctl_fz fpscr) (ctl_dn fpscr) (ctl_rm fpscr) [fplibNeg T a; b]
      (step (ctl_rm fpscr) (step_k root) (step_scale root) (neg (operand (fmt T) (ctl_fz fpscr) a)) (operand (fmt T) (ctl_fz fpscr) b)) x fl.
Proof.
  intros Ha Hb Hf. rewrite step_code. destruct (neg_fields T a Ha) as (Hna & _). rewrite <- operand_neg by done.
  destruct (step_consts T root) as (L1 & L2 & L3 & B1 & B2 & B3). set (na := fplibNeg T a) in *. clearbody na.
  assert (- 4 <= step_scale root <= 0) as Hsc by (destruct root; cbn; lia).
  assert (ieee (fmt T) = true) as HI by now destruct T. assert (Valid (fmt T)) as VT by (destruct T; apply _).
  pose proof (fun mode flags => fp_muladd_ok T _ na b _ mode flags B1 Hna Hb Hsc) as Hm. cbv zeta in Hm.
  destruct (fma_undefined T (ctl_fz fpscr) (step_bits T root) na b) eqn:Hu.
  - unfold with_flags0. assert (fma_aligns (fmt T) (ctl_fz fpscr) (step_bits T root) na b = true) as (_ & Ea & Eb & _)%fma_aligns_true.
    { destruct T; [discriminate Hu|]. now apply andb_true_iff in Hu as [? _]. }
    destruct (gstep_finite (fmt T) (step_limit T root) (match T with T32 => fp32_muladd | T64 => fp64_muladd end (step_bits T root) na b (step_scale root))
      na b (modeConv fpscr) 0 HI Hna Hb Ea Eb) as [fl ->]. specialize (Hm (modeConv fpscr) fl). rewrite mode_fz_conv, Hu in Hm by done. now rewrite Hm.
  - apply (with_flags0_at (fmt T) fpscr [na; b] (fun fz rm => step rm (step_k root) (step_scale root) (operand (fmt T) fz na) (operand (fmt T) fz b))); [done|].
    apply (gstep_ok (fmt T) HI _ (step_bits T root)); try done; [destruct root; cbn; lra|].
    intros Ea Eb fl. specialize (Hm (modeConv fpscr) fl). rewrite mode_fz_conv, Hu in Hm by done. exact Hm.
Qed.

(** ** Extended multiplication *)

(** An operation repeated once its flushed operands are flagged. *)
Lemma op_delivered F {VF : Valid F} mode ops o flags r : chosen_nan F ops = None ->
  op_ok F mode ops o (flags .| flushed F (mode_fz mode) ops) r -> delivered F mode o (flags .| flushed F (mode_fz mode) ops) r.
Proof.
  intros E (x & fl & -> & Hb & fl' & -> & H). rewrite E in H. exists x, fl'. split; [|done].
  rewrite !Z.lor_assoc, <- (Z.lor_assoc flags), Z.lor_diag. done.
Qed.

Lemma gmulx_ok F {VF : Valid F} two mul a b mode flags : ieee F = true -> is_bits F a -> is_bits F b ->
  (forall s, is_bits F (two (Z.b2z s)) /\ exp_of F (two (Z.b2z s)) <> 0 /\ decode F (two (Z.b2z s)) = Num s 2) ->
  (forall fl, op_ok F mode [a; b] (product (operand F (mode_fz mode) a) (operand F (mode_fz mode) b)) fl (mul mode fl)) ->
  op_ok F mode [a; b] (product_extended (operand F (mode_fz mode) a) (operand F (mode_fz mode) b)) flags (gmulx F two mul a b mode flags).
Proof.
  intros HI Ha Hb H2 Hmul. unfold gmulx. rewrite !gunpack_ok by done. cbv iota beta. rewrite <- !Z.lor_assoc, <- !flushed_cons.
  apply (nans_first F mode [a; b] _ flags (fun flags => _)); [done|all_bits|]. cbv beta. intros Hnone.
  pose proof (op_delivered F mode [a; b] _ flags _ Hnone (Hmul _)) as Hprod. rewrite chosen_nan_None in Hnone by done.
  pose proof (Hnone a ltac:(set_solver)) as Na. pose proof (Hnone b ltac:(set_solver)) as Nb. set (fl := flags .| _) in *. set (fz := mode_fz mode) in *.
  unfold product_extended. rewrite b2z_xor. pose proof (fun s => delivered_infinite F HI mode fl s false) as Hinf. cbv iota in Hinf.
  assert (forall s, delivered F mode (Finite s 2) fl (Ok (two (Z.b2z s), fl))) as Htwo.
  { intros s. destruct (H2 s) as (B & E & D). exists (two (Z.b2z s)), 0. rewrite Z.lor_0_r. split; [done|]. split; [done|]. apply rounded_self; [done..|lra|now right]. }
  destruct (operand_cases F HI a fz Ha Na) as [(Ea & Oa & Ma)|(Ea & _ & Oa)], (operand_cases F HI b fz Hb Nb) as [(Eb & Ob & Mb)|(Eb & _ & Ob)];
    rewrite Ea, Eb; rewrite Oa, Ob in *; cbn [andb orb inf_times_zero product] in *;
    rewrite ?(proj2 (Z.eqb_neq (mant F fz a) 0)), ?(proj2 (Z.eqb_neq (mant F fz b) 0)) by done; cbn [andb orb]; [done|..].
  - destruct (Req_EM_T _ _) as [E|E]; rewrite mant_0 in E; [rewrite E; apply Htwo|]. rewrite (proj2 (Z.eqb_neq _ 0) E). apply Hinf.
  - destruct (Req_EM_T _ _) as [E|E]; rewrite mant_0 in E; [rewrite E; apply Htwo|]. rewrite (proj2 (Z.eqb_neq _ 0) E), xorb_comm. apply Hinf.
  - destruct (Z.eqb_spec (mant F fz a) 0) as [E|E]; [|destruct (Z.eqb_spec (mant F fz b) 0) as [E'|E']]; cbn [orb]; [| |done].
    + rewrite E, !Rmult_0_l. destruct (Req_EM_T 0 0); [apply (delivered_zero F)|done].
    + rewrite E', Rmult_0_l, Rmult_0_r. destruct (Req_EM_T 0 0); [apply (delivered_zero F)|done].
Qed.

(** The extended multiplication, for the steps of a division: [fplibMulX] is
    [fplibMul] but for an infinity times a zero, which is [2] with the sign of the product. *)
Theorem fplibMulX_correct T a b fpscr : is_bits (fmt T) a -> is_bits (fmt T) b -> in_range 32 fpscr ->
  exists x fl, fplibMulX T a b fpscr = Ok (x, fpscr .| fl) /\
    computes (fmt T) (ctl_fz fpscr) (ctl_dn fpscr) (ctl_rm fpscr) [a; b]
      (product_extended (operand (fmt T) (ctl_fz fpscr) a) (operand (fmt T) (ctl_fz fpscr) b)) x fl.
Proof.
  intros Ha Hb Hf. assert (fplibMulX T a b fpscr = with_flags0 fpscr (gmulx (fmt T) (match T with T32 => fp32_FPTwo | T64 => fp64_FPTwo end)
    (match T with T32 => fp32_mul | T64 => fp64_mul end a b) a b)) as ->.
  { destruct T; unfold fplibMulX, fplibMulX32, fplibMulX64, with_flags0, gmulx; cbn [fmt].
    - do 2 (rewrite unpack32; destruct (gunpack _ _ _ _) as [[[? ?] ?] ?]). rewrite process_NaNs_32. destruct (gprocess_NaNs _ _ _ _). reflexivity.
    - do 2 (rewrite unpack64; destruct (gunpack _ _ _ _) as [[[? ?] ?] ?]). rewrite process_NaNs_64. destruct (gprocess_NaNs _ _ _ _). reflexivity. }
  apply (with_flags0_ok (fmt T) fpscr [a; b] (fun fz rm => product_extended (operand (fmt T) fz a) (operand (fmt T) fz b))); [done|].
  intros mode flags _. assert (Valid (fmt T)) as VT by (destruct T; apply _). apply (gmulx_ok (fmt T)); [now destruct T|done|done| |intros fl; now apply fp_mul_ok].
  assert (bpow 1 = 2%R) as E1 by (rewrite bpow_IZR by lia; done).
  intros s. destruct T, s; (split; [vm_compute; done|]); (split; [vm_compute; done|]).
  - apply (decode_const F32 true _ 128 0 1 23 1); try (vm_compute; done || lia); rewrite E1; lra.
  - apply (decode_const F32 false _ 128 0 1 23 1); try (vm_compute; done || lia); rewrite E1; lra.
  - apply (decode_const F64 true _ 1024 0 1 52 1); try (vm_compute; done || lia); rewrite E1; lra.
  - apply (decode_const F64 false _ 1024 0 1 52 1); try (vm_compute; done || lia); rewrite E1; lra.
Qed.

(** [2 - 3 * 4 = -10], and [2] for an infinity times a zero. *)
Lemma step_fused_correct_witness : fplibRecipStepFused32 0x40400000 0x40800000 0 = Ok (0xc1200000, 0) /\
  fplibRecipStepFused32 0x7f800000 0 0 = Ok (0x40000000, 0) /\
  exists x fl, step_fused T32 false 0x40400000 0x40800000 0 = Ok (x, 0 .| fl) /\
    computes F32 (ctl_fz 0) (ctl_dn 0) (ctl_rm 0) [fplibNeg T32 0x40400000; 0x40800000]
      (step (ctl_rm 0) (step_k false) (step_scale false) (neg (operand F32 (ctl_fz 0) 0x40400000)) (operand F32 (ctl_fz 0) 0x40800000)) x fl.
Proof.
  split; [vm_compute; reflexivity|]. split; [vm_compute; reflexivity|].
  apply (step_fused_correct T32 false 0x40400000 0x40800000 0); (split; [discriminate|reflexivity]).
Defined.

Lemma fplibMulX_correct_witness : fplibMulX T32 0xff800000 0 0 = Ok (0xc0000000, 0) /\
  exists x fl, fplibMulX T32 0xff800000 0 0 = Ok (x, 0 .| fl) /\
    computes F32 (ctl_fz 0) (ctl_dn 0) (ctl_rm 0) [0xff800000; 0] (product_extended (operand F32 (ctl_fz 0) 0xff800000) (operand F32 (ctl_fz 0) 0)) x fl.
Proof. split; [vm_compute; reflexivity|]. apply (fplibMulX_correct T32 0xff800000 0 0); (split; [discriminate|reflexivity]). Defined.
