(* ===== verification/FpCompare.v ===== *)
(** * Floating-point comparisons, maximum and minimum

    The comparisons of [fplib.hh] order operands as the numbers they stand for,
    and [fplibMax], [fplibMin], [fplibMaxNum] and [fplibMinNum] choose by that order. *)
From Stdlib Require Import Reals Lra.
From S2P Require Import Prelude FplibCore Fplib FpSpec FpBits FpFields FpRound FpOps FpAdd FpFma.

(** ** Definitions: the order of numbers *)

Definition below (x y : num) : bool :=
  match x, y with
  | Inf s, Inf t => s && negb t
  | Inf s, Num _ _ => s
  | Num _ _, Inf t => negb t
  | Num s u, Num t v => if Rlt_dec (signed s u) (signed t v) then true else false
  | _, _ => false
  end.

Definition equal (x y : num) : bool :=
  match x, y with
  | Inf s, Inf t => eqb s t
  | Num s u, Num t v => if Req_EM_T (signed s u) (signed t v) then true else false
  | _, _ => false
  end.

(** The condition flags of a comparison: less, equal, greater, unordered. *)
Definition nzcv (x y : num) : Z := if below x y then 8 else if equal x y then 6 else if below y x then 2 else 3.

Definition negative (x : num) : bool := match x with Num s _ | Inf s => s | NaN _ => false end.

(** The greater and the lesser number; of two zeroes, the positive and the negative one. *)
Definition maximum (x y : num) : num := if below x y then y else if below y x then x else if negative x then y else x.
Definition minimum (x y : num) : num := if below x y then x else if below y x then y else if negative x then x else y.

(** [x] and [fl] are one of two operands, or the NaN among them that decides. *)
Definition chooses (F : format) (fz dn : bool) (pick : num -> num -> num) (a b x fl : Z) : Prop :=
  is_bits F x /\ exists fl', fl = flushed F fz [a; b] .| fl' /\
  match chosen_nan F [a; b] with
  | Some n => x = (if dn then default_nan F else quieted F n) /\ fl' = (if is_snan F n then FPLIB_IOC else 0)
  | None => decode F x = pick (operand F fz a) (operand F fz b) /\ fl' = 0
  end.

Definition is_qnan (F : format) (x : Z) : bool := is_nan F x && negb (is_snan F x).

(** A single quiet NaN stands for the infinity [c]. *)
Definition numeric (F : format) (c a b : Z) : Z := if is_qnan F a && negb (is_qnan F b) then c else a.

(** ** Definitions: the code at a format *)

(** An operand that is no NaN as a number, infinities as the next power of two. *)
Definition V (F : format) (fz : bool) (x : Z) : R := signed (sign_of F x) (IZR (mant F fz x) * bpow (expo F x - bias F - fM F)).

Definition code_lt (s : bool) (e m : Z) (t : bool) (f n : Z) : bool :=
  if (m =? 0) && (n =? 0) then false else if negb (eqb s t) then s
  else if negb (e =? f) then xorb s (e <? f) else if negb (m =? n) then xorb s (m <? n) else false.

(** The test for a NaN on an unpacked operand, and the comparisons. *)
Definition gnan_fields (F : format) (e m : Z) : bool := (e =? 2 ^ fE F - 1) && truth (wrap (fW F) (m ≪ (fW F - fM F))).

Definition gcompare_eq (F : format) (a b mode flags : Z) : Z * Z :=
  let '(a_sgn, a_exp, a_mnt, flags) := gunpack F a (mode_fz mode) flags in
  let '(b_sgn, b_exp, b_mnt, flags) := gunpack F b (mode_fz mode) flags in
  if gnan_fields F a_exp a_mnt || gnan_fields F b_exp b_mnt then
    (0, if (gnan_fields F a_exp a_mnt && ((a ≫ (fM F - 1)) .& 1 =? 0)) || (gnan_fields F b_exp b_mnt && ((b ≫ (fM F - 1)) .& 1 =? 0))
        then flags .| FPLIB_IOC else flags)
  else (Z.b2z ((a =? b) || ((a_mnt =? 0) && (b_mnt =? 0))), flags).

(** [r] is the answer on equal operands: [fp32_compare_ge] and [fp32_compare_gt] differ in nothing else. *)
Definition gcompare_lt (F : format) (r a b mode flags : Z) : Z * Z :=
  let '(a_sgn, a_exp, a_mnt, flags) := gunpack F a (mode_fz mode) flags in
  let '(b_sgn, b_exp, b_mnt, flags) := gunpack F b (mode_fz mode) flags in
  if gnan_fields F a_exp a_mnt || gnan_fields F b_exp b_mnt then (0, flags .| FPLIB_IOC)
  else if (a_mnt =? 0) && (b_mnt =? 0) then (r, flags)
  else if negb (a_sgn =? b_sgn) then (b_sgn, flags)
  else if negb (a_exp =? b_exp) then (a_sgn .^ Z.b2z (b_exp <? a_exp), flags)
  else if negb (a_mnt =? b_mnt) then (a_sgn .^ Z.b2z (b_mnt <? a_mnt), flags)
  else (r, flags).

Definition gcompare (F : format) (op1 op2 : Z) (signal_nans : bool) (mode flags : Z) : Z * Z :=
  let '(sgn1, exp1, mnt1, flags) := gunpack F op1 (mode_fz mode) flags in
  let '(sgn2, exp2, mnt2, flags) := gunpack F op2 (mode_fz mode) flags in
  if gnan_fields F exp1 mnt1 || gnan_fields F exp2 mnt2 then
    (3, if (gnan_fields F exp1 mnt1 && ((mnt1 ≫ (fM F - 1)) .& 1 =? 0)) || (gnan_fields F exp2 mnt2 && ((mnt2 ≫ (fM F - 1)) .& 1 =? 0)) || signal_nans
        then flags .| FPLIB_IOC else flags)
  else if (op1 =? op2) || ((mnt1 =? 0) && (mnt2 =? 0)) then (6, flags)
  else if negb (sgn1 =? sgn2) then (if truth sgn1 then 8 else 2, flags)
  else if negb (exp1 =? exp2) then (if truth (sgn1 .^ Z.b2z (exp1 <? exp2)) then 8 else 2, flags)
  else (if truth (sgn1 .^ Z.b2z (mnt1 <? mnt2)) then 8 else 2, flags).

(** The maximum ([mx]) or the minimum. *)
Definition grepack (F : format) (sgn exp mnt : Z) : Z := gpack F sgn (if truth (mnt ≫ fM F) then exp else 0) mnt.

Definition gextremum (F : format) (mx : bool) (op1 op2 mode flags : Z) : Z * Z :=
  let '(sgn1, exp1, mnt1, flags) := gunpack F op1 (mode_fz mode) flags in
  let '(sgn2, exp2, mnt2, flags) := gunpack F op2 (mode_fz mode) flags in
  let '(x, flags) := gprocess_NaNs F [op1; op2] (mode_dn mode) flags in
  (if truth x then x
   else if truth (if negb (sgn1 =? sgn2) then if mx then sgn2 else sgn1 else sgn1 .^ Z.b2z (if mx then op2 <? op1 else op1 <? op2))
   then grepack F sgn1 exp1 mnt1 else grepack F sgn2 exp2 mnt2, flags).

Definition extremum (mx : bool) : num -> num -> num := if mx then maximum else minimum.

(** ** The order *)

(** Normal mantissas are ordered by their exponents. *)
Lemma lex_lt M m e n f q : 0 <= M -> 0 <= m < 2 ^ (M + 1) -> 2 ^ M <= n \/ f = 1 -> 1 <= e -> e < f -> (IZR m * bpow (e + q) < IZR n * bpow (f + q))%R.
Proof.
  intros HM Hm Hn He Hef. destruct Hn as [Hn|]; [|lia]. replace (f + q) with (f - e + (e + q)) by lia. rewrite (bpow_add (f - e)), <- Rmult_assoc.
  apply bpow_scale_lt. rewrite <- IZR_scale by lia. apply IZR_lt. rewrite Z.add_1_r, Z.pow_succ_r in Hm by lia.
  pose proof (pow2_le 1 (f - e) ltac:(lia)). change (2 ^ 1) with 2 in *. pose proof (pow2_pos M HM). nia.
Qed.

Lemma mant_lt m n e : m < n -> (IZR m * bpow e < IZR n * bpow e)%R.
Proof. intros H%IZR_lt. now apply bpow_scale_lt. Qed.

(** The code compares signs, exponents and mantissas. *)
Lemma code_lt_signed s e m t f n A B : (0 <= A)%R -> (0 <= B)%R -> (A = 0%R <-> m = 0) -> (B = 0%R <-> n = 0) ->
  (e < f \/ e = f /\ m < n -> (A < B)%R) -> (f < e \/ f = e /\ n < m -> (B < A)%R) -> (e = f -> m = n -> A = B) ->
  code_lt s e m t f n = true <-> (signed s A < signed t B)%R.
Proof.
  intros PA PB ZA ZB L G E. unfold code_lt.
  assert ((e < f \/ e = f /\ m < n) \/ (f < e \/ f = e /\ n < m) \/ e = f /\ m = n) as [H|[H|[<- <-]]] by lia.
  - specialize (L H). assert (n <> 0) as Hn by (rewrite <- ZB; lra). rewrite (proj2 (Z.eqb_neq n 0) Hn), andb_false_r.
    destruct s, t, (Z.eqb_spec e f), (Z.ltb_spec e f), (Z.eqb_spec m n), (Z.ltb_spec m n); cbn; split; intros; done || lia || lra.
  - specialize (G H). assert (m <> 0) as Hm by (rewrite <- ZA; lra). rewrite (proj2 (Z.eqb_neq m 0) Hm). cbn [andb].
    destruct s, t, (Z.eqb_spec e f), (Z.ltb_spec e f), (Z.eqb_spec m n), (Z.ltb_spec m n); cbn; split; intros; done || lia || lra.
  - specialize (E eq_refl eq_refl). subst B. rewrite !Z.eqb_refl, andb_diag. destruct (Z.eqb_spec m 0) as [->|Hm].
    + assert (A = 0)%R as -> by tauto. destruct s, t; cbn; split; intros; done || lra.
    + assert (A <> 0)%R by tauto. destruct s, t; cbn; split; intros; done || lra.
Qed.

Section order.
Context (F : format) {VF : Valid F} (HI : ieee F = true) (fz : bool).

Let HM : 2 <= fM F := valid_M.

Lemma magnitude_lt x y : is_bits F x -> is_bits F y -> expo F x < expo F y \/ expo F x = expo F y /\ mant F fz x < mant F fz y ->
  (IZR (mant F fz x) * bpow (expo F x - bias F - fM F) < IZR (mant F fz y) * bpow (expo F y - bias F - fM F))%R.
Proof.
  intros Hx Hy H. destruct (mant_range F x fz Hx) as [Mx Nx]. destruct (mant_range F y fz Hy) as [My Ny].
  assert (1 <= expo F x) by (destruct (is_fields F x Hx) as (_ & ? & _); unfold expo; destruct (Z.eqb_spec (exp_of F x) 0); lia).
  destruct H as [H|[-> H]]; [|now apply mant_lt].
  rewrite <- !Z.sub_add_distr, <- !Z.add_opp_r. apply (lex_lt (fM F)); done || lia.
Qed.

Lemma code_lt_ok x y : is_bits F x -> is_bits F y ->
  code_lt (sign_of F x) (expo F x) (mant F fz x) (sign_of F y) (expo F y) (mant F fz y) = true <-> (V F fz x < V F fz y)%R.
Proof.
  intros Hx Hy. destruct (mant_range F x fz Hx) as [Mx _]. destruct (mant_range F y fz Hy) as [My _].
  pose proof (bpow_pos (expo F x - bias F - fM F)). pose proof (bpow_pos (expo F y - bias F - fM F)).
  pose proof (IZR_le 0 (mant F fz x) ltac:(lia)). pose proof (IZR_le 0 (mant F fz y) ltac:(lia)).
  apply code_lt_signed; [nra|nra|apply mant_0|apply mant_0|now apply magnitude_lt..|]. now intros -> ->.
Qed.

(** An operand that is no NaN, as a real number. *)
Lemma operand_V x : is_bits F x -> is_nan F x = false ->
  operand F fz x = Inf (sign_of F x) /\ V F fz x = signed (sign_of F x) (bpow (emax F - bias F)) \/
  exists s v, operand F fz x = Num s v /\ V F fz x = signed s v /\ (0 <= v < bpow (emax F - bias F))%R.
Proof.
  intros Hx Hn. destruct (operand_cases F HI x fz Hx Hn) as [(E & Ho & Hm)|(E & He & Ho)].
  - left. split; [done|]. unfold V. do 2 f_equal. apply Z.eqb_eq in E. rewrite is_nan_fields in Hn by done.
    assert (emax F = 2 ^ fE F - 1) as Em by (unfold emax; now rewrite HI). pose proof (emax_range F).
    unfold expo, mant in *. destruct (Z.eqb_spec (exp_of F x) 0) as [E0|E0]; [lia|]. rewrite E, Z.eqb_refl in Hn. cbn [andb] in Hn.
    apply negb_false_iff, Z.eqb_eq in Hn. rewrite Hn, Z.add_0_r, E, <- Em, <- bpow_IZR, <- bpow_add by lia. f_equal. lia.
  - right. eexists _, _. split; [done|]. split; [done|]. destruct (mant_range F x fz Hx) as [Mx _]. split.
    + pose proof (bpow_pos (expo F x - bias F - fM F)). pose proof (IZR_le 0 (mant F fz x) ltac:(lia)). nra.
    + apply (Rlt_le_trans _ (bpow (fM F + 1 + (expo F x - bias F - fM F)))); [|apply bpow_le; lia]. rewrite bpow_add.
      apply Rmult_lt_compat_r; [apply bpow_pos|]. rewrite bpow_IZR by lia. apply IZR_lt. lia.
Qed.

Lemma below_V x y : is_bits F x -> is_bits F y -> is_nan F x = false -> is_nan F y = false ->
  below (operand F fz x) (operand F fz y) = true <-> (V F fz x < V F fz y)%R.
Proof.
  intros Hx Hy Nx Ny. destruct (operand_V x Hx Nx) as [[-> ->]|(s & u & -> & -> & Hu)], (operand_V y Hy Ny) as [[-> ->]|(t & v & -> & -> & Hv)]; cbn [below].
  - pose proof (bpow_pos (emax F - bias F)). destruct (sign_of F x), (sign_of F y); cbn; split; intros; done || lra.
  - destruct (sign_of F x), t; cbn; split; intros; done || lra.
  - destruct (sign_of F y), s; cbn; split; intros; done || lra.
  - destruct (Rlt_dec _ _); split; intros; done || lra.
Qed.

Lemma equal_V x y : is_bits F x -> is_bits F y -> is_nan F x = false -> is_nan F y = false ->
  equal (operand F fz x) (operand F fz y) = true <-> V F fz x = V F fz y.
Proof.
  intros Hx Hy Nx Ny. destruct (operand_V x Hx Nx) as [[-> ->]|(s & u & -> & -> & Hu)], (operand_V y Hy Ny) as [[-> ->]|(t & v & -> & -> & Hv)]; cbn [equal].
  - pose proof (bpow_pos (emax F - bias F)). destruct (sign_of F x), (sign_of F y); cbn; split; intros; done || lra.
  - destruct (sign_of F x), t; cbn; split; intros; done || lra.
  - destruct (sign_of F y), s; cbn; split; intros; done || lra.
  - destruct (Req_EM_T _ _); split; intros; done || lra.
Qed.

Lemma nan_fields_ok x : is_bits F x -> gnan_fields F (expo F x) (mant F fz x) = is_nan F x.
Proof. intros. now apply nan_test. Qed.

Lemma pattern_inj x y : is_bits F x -> is_bits F y -> expo F x = expo F y -> mant F fz x = mant F fz y -> mant F fz x <> 0 ->
  sign_of F x = sign_of F y -> x = y.
Proof.
  intros Hx Hy He Hm H0 Hs. destruct (is_fields F x Hx) as (Px & Ex & Fx). destruct (is_fields F y Hy) as (Py & Ey & Fy).
  assert (exp_of F x = exp_of F y /\ frac_of F x = frac_of F y) as [E1 E2].
  { unfold expo, mant in *. destruct (Z.eqb_spec (exp_of F x) 0), (Z.eqb_spec (exp_of F y) 0), fz; lia. }
  now rewrite Px, Py, Hs, E1, E2.
Qed.

(** Equal patterns or two zeroes are equal numbers. *)
Lemma equal_code x y : is_bits F x -> is_bits F y -> is_nan F x = false -> is_nan F y = false ->
  (x =? y) || ((mant F fz x =? 0) && (mant F fz y =? 0)) = equal (operand F fz x) (operand F fz y).
Proof.
  intros Hx Hy Nx Ny. apply eq_true_iff_eq. rewrite equal_V by done. rewrite orb_true_iff, andb_true_iff, !Z.eqb_eq.
  split; [intros [->|[Ex Ey]]; [done|]; unfold V; rewrite Ex, Ey, !Rmult_0_l; unfold signed; repeat case_match; lra|].
  pose proof (magnitude_lt x y Hx Hy) as L. pose proof (magnitude_lt y x Hy Hx) as G.
  destruct (mant_range F x fz Hx) as [Mx _]. destruct (mant_range F y fz Hy) as [My _].
  assert (forall m e, 0 <= m -> (0 <= IZR m * bpow e)%R) as Hpos by (intros m e Hm%IZR_le; pose proof (bpow_pos e); nra).
  pose proof (Hpos _ (expo F x - bias F - fM F) (proj1 Mx)) as PA. pose proof (Hpos _ (expo F y - bias F - fM F) (proj1 My)) as PB.
  pose proof (mant_0 (mant F fz x) (expo F x - bias F - fM F)) as ZA. unfold V.
  set (A := (IZR (mant F fz x) * _)%R) in *. set (B := (IZR (mant F fz y) * _)%R) in *. intros E.
  assert (A = B) as EAB by (destruct (sign_of F x), (sign_of F y); cbn in E; lra).
  assert (expo F x = expo F y /\ mant F fz x = mant F fz y) as [Ee Em].
  { destruct (Z.lt_trichotomy (expo F x) (expo F y)) as [H|[H|H]]; [specialize (L (or_introl H)); lra| |specialize (G (or_introl H)); lra].
    split; [done|]. destruct (Z.lt_trichotomy (mant F fz x) (mant F fz y)) as [H'|[H'|H']]; [|done|].
    - specialize (L (or_intror (conj H H'))). lra.
    - specialize (G (or_intror (conj (eq_sym H) H'))). lra. }
  destruct (Z.eq_dec (mant F fz x) 0) as [E0|E0]; [right; lia|left]. apply pattern_inj; [done..|].
  assert (A <> 0%R) by tauto. destruct (sign_of F x), (sign_of F y); cbn in E; try done; lra.
Qed.

(** Comparing with a NaN. *)
Lemma unordered x y : is_bits F x -> is_bits F y -> is_nan F x || is_nan F y = true ->
  equal (operand F fz x) (operand F fz y) = false /\ below (operand F fz x) (operand F fz y) = false /\ below (operand F fz y) (operand F fz x) = false.
Proof.
  intros Hx Hy [Hn|Hn]%orb_true_iff.
  - destruct (operand_view F HI x fz Hx) as [(_ & [q ->] & _)|[(? & _)|(? & _)]]; [|congruence..]. now destruct (operand F fz y).
  - destruct (operand_view F HI y fz Hy) as [(_ & [q ->] & _)|[(? & _)|(? & _)]]; [|congruence..]. now destruct (operand F fz x).
Qed.

Lemma code_lt_below x y : is_bits F x -> is_bits F y -> is_nan F x = false -> is_nan F y = false ->
  code_lt (sign_of F x) (expo F x) (mant F fz x) (sign_of F y) (expo F y) (mant F fz y) = below (operand F fz x) (operand F fz y).
Proof. intros. apply eq_true_iff_eq. now rewrite code_lt_ok, below_V. Qed.

(** The order is total on numbers. *)
Lemma not_below x y : is_bits F x -> is_bits F y -> is_nan F x = false -> is_nan F y = false ->
  negb (below (operand F fz x) (operand F fz y)) = below (operand F fz y) (operand F fz x) || equal (operand F fz x) (operand F fz y).
Proof.
  intros Hx Hy Nx Ny. pose proof (below_V x y Hx Hy Nx Ny) as A. pose proof (below_V y x Hy Hx Ny Nx) as B. pose proof (equal_V x y Hx Hy Nx Ny) as C.
  apply eq_true_iff_eq. rewrite negb_true_iff, orb_true_iff, <- not_true_iff_false, A, B, C. split; intros; [|lra].
  destruct (Rlt_le_dec (V F fz y) (V F fz x)); [now left|right]. lra.
Qed.

End order.

(** ** Comparisons *)

Section compare.
Context (F : format) {VF : Valid F} (HI : ieee F = true) (a b mode flags : Z) (Ha : is_bits F a) (Hb : is_bits F b).

Let fz := mode_fz mode.
Let oa := operand F fz a.
Let ob := operand F fz b.

Lemma snan_code x : is_bits F x -> is_nan F x && ((x ≫ (fM F - 1)) .& 1 =? 0) = is_snan F x.
Proof. intros Hx. rewrite quiet_bit by done. now rewrite is_snan_fields. Qed.

Lemma snan_code' x : is_bits F x -> is_nan F x && ((mant F fz x ≫ (fM F - 1)) .& 1 =? 0) = is_snan F x.
Proof.
  intros Hx. pose proof (quiet_nan_test F HI x fz Hx) as Hq. destruct (is_nan F x) eqn:Hn.
  - cbn [andb] in Hq |- *. destruct (operand_view F HI x fz Hx) as [(_ & _ & E & _)|[(? & _)|(? & _)]]; [|congruence..].
    rewrite E in Hq. cbn [andb] in Hq. unfold truth in Hq. now apply (f_equal negb) in Hq; rewrite !negb_involutive in Hq.
  - symmetry. destruct (is_snan F x) eqn:E; [apply snan_is_nan in E; congruence|done].
Qed.

Lemma gcompare_eq_ok : gcompare_eq F a b mode flags =
  (Z.b2z (equal oa ob), flags .| (flushed F fz [a; b] .| if is_snan F a || is_snan F b then FPLIB_IOC else 0)).
Proof.
  unfold gcompare_eq. rewrite !gunpack_ok by done. cbv iota beta. fold fz. rewrite !nan_fields_ok, !snan_code by done.
  rewrite <- !(Z.lor_assoc flags), <- !flushed_cons. destruct (is_nan F a || is_nan F b) eqn:Hn.
  - destruct (unordered F HI fz a b Ha Hb Hn) as (E1 & _). fold oa ob in E1. rewrite E1. destruct (is_snan F a || is_snan F b); now rewrite ?Z.lor_0_r.
  - apply orb_false_iff in Hn as [Na Nb]. rewrite equal_code by done. fold oa ob. rewrite !is_snan_fields, Na, Nb. cbn [andb orb]. now rewrite Z.lor_0_r.
Qed.

Lemma gcompare_lt_ok (eq : bool) : gcompare_lt F (Z.b2z eq) a b mode flags =
  (Z.b2z (below ob oa || (eq && equal oa ob)), flags .| (flushed F fz [a; b] .| if is_nan F a || is_nan F b then FPLIB_IOC else 0)).
Proof.
  unfold gcompare_lt. rewrite !gunpack_ok by done. cbv iota beta. fold fz. rewrite !nan_fields_ok by done.
  rewrite <- !(Z.lor_assoc flags), <- !flushed_cons. destruct (is_nan F a || is_nan F b) eqn:Hn.
  - destruct (unordered F HI fz a b Ha Hb Hn) as (E1 & _ & E2). fold oa ob in E1, E2. now rewrite E1, E2, andb_false_r.
  - apply orb_false_iff in Hn as [Na Nb]. rewrite Z.lor_0_r. rewrite b2z_eq, !b2z_xor.
    transitivity (Z.b2z (if eq then negb (below oa ob) else below ob oa), flags .| flushed F fz [a; b]).
    + unfold oa, ob. rewrite <- !code_lt_below by done. unfold code_lt. rewrite (andb_comm (mant F fz b =? 0)).
      destruct ((mant F fz a =? 0) && _); [now destruct eq|].
      destruct (sign_of F a), (sign_of F b), (Z.eqb_spec (expo F a) (expo F b)), (Z.eqb_spec (expo F b) (expo F a)), (Z.eqb_spec (mant F fz a) (mant F fz b)),
        (Z.eqb_spec (mant F fz b) (mant F fz a)), eq; cbn; try congruence; split_cmp; done || lia.
    + destruct eq; cbn [andb]; [unfold oa, ob; now rewrite not_below|now rewrite orb_false_r].
Qed.

Lemma gcompare_ok sig : gcompare F a b sig mode flags =
  (nzcv oa ob, flags .| (flushed F fz [a; b] .| if is_snan F a || is_snan F b || (sig && (is_nan F a || is_nan F b)) then FPLIB_IOC else 0)).
Proof.
  unfold gcompare. rewrite !gunpack_ok by done. cbv iota beta. fold fz. rewrite !nan_fields_ok, !snan_code' by done.
  rewrite <- !(Z.lor_assoc flags), <- !flushed_cons. unfold nzcv. destruct (is_nan F a || is_nan F b) eqn:Hn.
  - destruct (unordered F HI fz a b Ha Hb Hn) as (E1 & E2 & E3). fold oa ob in E1, E2, E3. rewrite E1, E2, E3, andb_true_r.
    destruct (is_snan F a || is_snan F b || sig); now rewrite ?Z.lor_0_r.
  - apply orb_false_iff in Hn as [Na Nb]. rewrite equal_code by done. fold oa ob. rewrite !is_snan_fields, Na, Nb, andb_false_r. cbn [andb orb]. rewrite Z.lor_0_r.
    pose proof (not_below F HI fz a b Ha Hb Na Nb) as Ht. fold oa ob in Ht. rewrite b2z_eq, !b2z_xor, !truth_b2z.
    pose proof (code_lt_below F HI fz a b Ha Hb Na Nb) as Hlt. fold oa ob in Hlt. unfold code_lt in Hlt. pose proof (equal_code F HI fz a b Ha Hb Na Nb) as He. fold oa ob in He.
    destruct (equal oa ob) eqn:Eq.
    + destruct (below oa ob) eqn:El; [|done]. rewrite orb_true_r in Ht. discriminate Ht.
    + apply orb_false_iff in He as [_ He]. rewrite He in Hlt. rewrite orb_false_r in Ht. rewrite <- Ht, <- Hlt.
      assert (sign_of F a = sign_of F b -> expo F a = expo F b -> mant F fz a <> mant F fz b) as Hne.
      { intros H1 H2 H3. assert (equal oa ob = true); [|congruence]. apply equal_V; [done..|]. unfold V. now rewrite H1, H2, H3. }
      destruct (eqb (sign_of F a) (sign_of F b)) eqn:Es; cbn [negb]; [apply eqb_prop in Es|now destruct (sign_of F a)].
      destruct (Z.eqb_spec (expo F a) (expo F b)) as [Ee|Ee]; cbn [negb]; [|now destruct (xorb _ _)].
      rewrite (proj2 (Z.eqb_neq _ _) (Hne Es Ee)). cbn [negb]. now destruct (xorb (sign_of F a) (mant F fz a <? mant F fz b)).
Qed.

End compare.

(** The code is an instance. *)

Lemma compare_eq_code T a b mode flags :
  match T with T32 => fp32_compare_eq | T64 => fp64_compare_eq end a b mode flags = gcompare_eq (fmt T) a b mode flags.
Proof.
  destruct T; unfold fp32_compare_eq, fp64_compare_eq, gcompare_eq; cbn [fmt].
  - do 2 (rewrite unpack32; destruct (gunpack _ _ _ _) as [[[? ?] ?] ?]). reflexivity.
  - do 2 (rewrite unpack64; destruct (gunpack _ _ _ _) as [[[? ?] ?] ?]). reflexivity.
Qed.

Lemma compare_ge_code T a b mode flags :
  match T with T32 => fp32_compare_ge | T64 => fp64_compare_ge end a b mode flags = gcompare_lt (fmt T) (Z.b2z true) a b mode flags.
Proof.
  destruct T; unfold fp32_compare_ge, fp64_compare_ge, gcompare_lt; cbn [fmt].
  - do 2 (rewrite unpack32; destruct (gunpack _ _ _ _) as [[[? ?] ?] ?]). reflexivity.
  - do 2 (rewrite unpack64; destruct (gunpack _ _ _ _) as [[[? ?] ?] ?]). reflexivity.
Qed.

Lemma compare_gt_code T a b mode flags :
  match T with T32 => fp32_compare_gt | T64 => fp64_compare_gt end a b mode flags = gcompare_lt (fmt T) (Z.b2z false) a b mode flags.
Proof.
  destruct T; unfold fp32_compare_gt, fp64_compare_gt, gcompare_lt; cbn [fmt].
  - do 2 (rewrite unpack32; destruct (gunpack _ _ _ _) as [[[? ?] ?] ?]). reflexivity.
  - do 2 (rewrite unpack64; destruct (gunpack _ _ _ _) as [[[? ?] ?] ?]). reflexivity.
Qed.

Lemma compare_code T a b sig fpscr :
  fplibCompare T a b sig fpscr = let '(x, flags) := gcompare (fmt T) a b sig (modeConv fpscr) 0 in (x, set_fpscr0 fpscr flags).
Proof.
  destruct T; unfold fplibCompare, fplibCompare32, fplibCompare64, gcompare; cbn [fmt].
  - do 2 (rewrite unpack32; destruct (gunpack _ _ _ _) as [[[? ?] ?] ?]). reflexivity.
  - do 2 (rewrite unpack64; destruct (gunpack _ _ _ _) as [[[? ?] ?] ?]). reflexivity.
Qed.

(** A comparison raises no underflow, for which [set_fpscr] is special. *)
Lemma set_fpscr_ok fpscr fl : flag_bits fl -> fl .& FPLIB_UFC = 0 -> set_fpscr fpscr fl = fpscr .| fl.
Proof.
  intros Hf Hu. rewrite <- set_fpscr0_ok by done. unfold set_fpscr, set_fpscr0. rewrite Hu. change (truth 0) with false. cbn [andb negb]. now rewrite andb_true_r.
Qed.

(** C20: comparisons order what the operands stand for: [fplibCompareEQ], [GE] and [GT]
    and the condition flags of [fplibCompare] (N for less, Z and C for equal, C for greater,
    C and V for unordered) are those of the real numbers and infinities, both zeroes
    are equal, a NaN is unordered, and only NaNs are invalid: a signalling one always, a
    quiet one for the ordering comparisons and when the caller asks. *)
Theorem fplibCompare_correct T a b sig fpscr : is_bits (fmt T) a -> is_bits (fmt T) b -> in_range 32 fpscr ->
  let oa := operand (fmt T) (ctl_fz fpscr) a in
  let ob := operand (fmt T) (ctl_fz fpscr) b in
  let raise (c : bool) := fpscr .| (flushed (fmt T) (ctl_fz fpscr) [a; b] .| if c then FPLIB_IOC else 0) in
  let snans := is_snan (fmt T) a || is_snan (fmt T) b in
  let nans := is_nan (fmt T) a || is_nan (fmt T) b in
  fplibCompareEQ T a b fpscr = (equal oa ob, raise snans) /\
  fplibCompareGE T a b fpscr = (below ob oa || equal oa ob, raise nans) /\
  fplibCompareGT T a b fpscr = (below ob oa, raise nans) /\
  fplibCompare T a b sig fpscr = (nzcv oa ob, raise (snans || (sig && nans))).
Proof.
  intros Ha Hb Hf oa ob raise snans nans. assert (ieee (fmt T) = true) as HI by now destruct T.
  assert (Valid (fmt T)) as VT by (destruct T; apply _).
  assert (forall c : bool, flag_bits (flushed (fmt T) (ctl_fz fpscr) [a; b] .| if c then FPLIB_IOC else 0) /\
    (flushed (fmt T) (ctl_fz fpscr) [a; b] .| if c then FPLIB_IOC else 0) .& FPLIB_UFC = 0) as Hfl.
  { intros c. unfold flushed. destruct (ctl_fz fpscr && _), c; done. }
  unfold fplibCompareEQ, fplibCompareGE, fplibCompareGT. rewrite compare_eq_code, compare_ge_code, compare_gt_code, compare_code.
  rewrite gcompare_eq_ok, !gcompare_lt_ok, gcompare_ok by done. rewrite mode_fz_conv, !Z.lor_0_l by done. rewrite !truth_b2z, orb_false_r.
  rewrite !set_fpscr_ok, set_fpscr0_ok by apply Hfl. done.
Qed.

(** ** Maximum and minimum *)

Section extremum.
Context (F : format) {VF : Valid F} (HI : ieee F = true) (fz : bool).

Let HM : 2 <= fM F := valid_M.

(** Packing an operand that is no NaN again. *)
Lemma repack_ok x : is_bits F x -> is_nan F x = false ->
  let y := grepack F (Z.b2z (sign_of F x)) (expo F x) (mant F fz x) in is_bits F y /\ decode F y = operand F fz x.
Proof.
  intros Hx Hn. unfold grepack. destruct (mant_range F x fz Hx) as [Mx Nx]. pose proof (pow2_pos (fM F) ltac:(lia)) as P.
  assert (truth (mant F fz x ≫ fM F) = (2 ^ fM F <=? mant F fz x)) as ->.
  { rewrite Z.shiftr_div_pow2 by lia. destruct (Z.leb_spec (2 ^ fM F) (mant F fz x)).
    - apply truth_true. apply Z.neq_sym, Z.lt_neq, Z.div_str_pos. lia.
    - apply truth_false, Z.div_small. lia. }
  destruct (operand_cases F HI x fz Hx Hn) as [(E & -> & Hm)|(E & He & ->)]; destruct (Z.leb_spec (2 ^ fM F) (mant F fz x)) as [Hl|Hl].
  - apply Z.eqb_eq in E. rewrite is_nan_fields in Hn by done. assert (emax F = 2 ^ fE F - 1) as Em by (unfold emax; now rewrite HI). pose proof (emax_range F).
    assert (mant F fz x = 2 ^ fM F) as ->.
    { unfold expo, mant in *. destruct (Z.eqb_spec (exp_of F x) 0); [lia|]. rewrite E, Z.eqb_refl in Hn. apply negb_false_iff, Z.eqb_eq in Hn. lia. }
    rewrite E. destruct (decode_infinity F (sign_of F x) HI) as [B D]. rewrite (gpack_fields F), Z.mod_same by lia.
    rewrite (gpack_fields F), Z.mod_0_l in B, D by lia. done.
  - apply Z.eqb_eq in E. pose proof (pow2_le 2 (fE F) (@valid_E F VF)). change (2 ^ 2) with 4 in *. lia.
  - destruct (decode_pack F (sign_of F x) (expo F x) (mant F fz x)) as [B D]; [lia|rewrite (proj2 (Z.eqb_neq _ 0)); lia|]. rewrite D. split; [done|]. do 3 f_equal. lia.
  - destruct (decode_pack F (sign_of F x) 0 (mant F fz x)) as [B D]; [pose proof (emax_range F); lia|cbn [Z.eqb]; lia|]. rewrite D. split; [done|]. do 3 f_equal. lia.
Qed.

(** Patterns of one sign are ordered as their magnitudes. *)
Lemma pattern_mono x y : is_bits F x -> is_bits F y -> sign_of F x = sign_of F y -> x <= y ->
  (IZR (mant F fz x) * bpow (expo F x - bias F - fM F) <= IZR (mant F fz y) * bpow (expo F y - bias F - fM F))%R.
Proof.
  intros Hx Hy Hs Hle. pose proof (magnitude_lt F fz x y Hx Hy) as L.
  destruct (is_fields F x Hx) as (Px & Ex & Fx). destruct (is_fields F y Hy) as (Py & Ey & Fy).
  assert (exp_of F x < exp_of F y \/ exp_of F x = exp_of F y /\ frac_of F x <= frac_of F y) as Hlex.
  { rewrite Px, Py, Hs in Hle. unfold fields in Hle. pose proof (pow2_pos (fM F) ltac:(lia)). nia. }
  assert (expo F x < expo F y \/ expo F x = expo F y /\ mant F fz x < mant F fz y \/ expo F x = expo F y /\ mant F fz x = mant F fz y) as [H|[H|[-> ->]]].
  { unfold expo, mant. destruct (Z.eqb_spec (exp_of F x) 0), (Z.eqb_spec (exp_of F y) 0), fz; lia. }
  - apply Rlt_le, L. auto.
  - apply Rlt_le, L. auto.
  - lra.
Qed.

Lemma V_sign x : is_bits F x -> if sign_of F x then (V F fz x <= 0)%R else (0 <= V F fz x)%R.
Proof.
  intros Hx. destruct (mant_range F x fz Hx) as [[Mx%IZR_le _] _]. pose proof (bpow_pos (expo F x - bias F - fM F)). unfold V. destruct (sign_of F x); cbn; nra.
Qed.

Lemma operand_negative x : is_bits F x -> is_nan F x = false -> negative (operand F fz x) = sign_of F x.
Proof. intros Hx Hn. destruct (operand_cases F HI x fz Hx Hn) as [(_ & -> & _)|(_ & _ & ->)]; done. Qed.

(** Numbers of one sign and one value are the same. *)
Lemma operand_inj x y : is_bits F x -> is_bits F y -> is_nan F x = false -> is_nan F y = false ->
  sign_of F x = sign_of F y -> V F fz x = V F fz y -> operand F fz x = operand F fz y.
Proof.
  intros Hx Hy Nx Ny Hs. pose proof (operand_negative x Hx Nx) as Sx. pose proof (operand_negative y Hy Ny) as Sy.
  destruct (operand_V F HI fz x Hx Nx) as [[-> ->]|(s & u & Ex & -> & Hu)], (operand_V F HI fz y Hy Ny) as [[-> ->]|(t & v & Ey & -> & Hv)]; rewrite ?Ex, ?Ey in *; cbn [negative] in *; subst.
  - now rewrite Hs.
  - rewrite Hs. destruct (sign_of F y); cbn; lra.
  - rewrite Hs. destruct (sign_of F y); cbn; lra.
  - rewrite Hs. intros E. f_equal. destruct (sign_of F y); cbn in E; lra.
Qed.

(** The code chooses the greater or the lesser operand. *)
Lemma extremum_ok (mx : bool) x y : is_bits F x -> is_bits F y -> is_nan F x = false -> is_nan F y = false ->
  (if (if negb (eqb (sign_of F x) (sign_of F y)) then if mx then sign_of F y else sign_of F x else xorb (sign_of F x) (if mx then y <? x else x <? y))
   then operand F fz x else operand F fz y) = extremum mx (operand F fz x) (operand F fz y).
Proof.
  intros Hx Hy Nx Ny. pose proof (below_V F HI fz x y Hx Hy Nx Ny) as Bx. pose proof (below_V F HI fz y x Hy Hx Ny Nx) as By.
  pose proof (operand_inj x y Hx Hy Nx Ny) as Inj. pose proof (V_sign x Hx) as Sx. pose proof (V_sign y Hy) as Sy.
  pose proof (pattern_mono x y Hx Hy) as Mx. pose proof (pattern_mono y x Hy Hx) as My.
  assert ((IZR (mant F fz x) * bpow (expo F x - bias F - fM F))%R = signed (sign_of F x) (V F fz x)) as Ax by (unfold V; destruct (sign_of F x); cbn; lra).
  assert ((IZR (mant F fz y) * bpow (expo F y - bias F - fM F))%R = signed (sign_of F y) (V F fz y)) as Ay by (unfold V; destruct (sign_of F y); cbn; lra).
  rewrite Ax, Ay in Mx, My. clear Ax Ay.
  assert (extremum mx (operand F fz x) (operand F fz y) =
    if below (operand F fz x) (operand F fz y) then if mx then operand F fz y else operand F fz x
    else if below (operand F fz y) (operand F fz x) then if mx then operand F fz x else operand F fz y
    else if sign_of F x then if mx then operand F fz y else operand F fz x else if mx then operand F fz x else operand F fz y) as ->.
  { rewrite <- (operand_negative x) by done. now destruct mx. }
  set (ox := operand F fz x) in *. set (oy := operand F fz y) in *. set (u := V F fz x) in *. set (v := V F fz y) in *. clearbody ox oy u v.
  assert (forall c d : bool, (c = true <-> d = true) -> c = d) as Hb by (intros [] [] [? ?]; intuition congruence).
  assert (below ox oy = if Rlt_dec u v then true else false) as -> by (apply Hb; rewrite Bx; destruct (Rlt_dec u v); done).
  assert (below oy ox = if Rlt_dec v u then true else false) as -> by (apply Hb; rewrite By; destruct (Rlt_dec v u); done).
  destruct (Rlt_dec u v), (Rlt_dec v u); [lra|..];
    destruct (sign_of F x), (sign_of F y); cbn [eqb negb signed xorb] in *; try specialize (Mx eq_refl); try specialize (My eq_refl);
    destruct mx, (Z.ltb_spec x y), (Z.ltb_spec y x); cbn [negb]; try done; try (exfalso; lra); try (rewrite Inj by (done || lra); done).
  all: try (exfalso; specialize (Mx ltac:(lia)); lra).
  all: try (exfalso; specialize (My ltac:(lia)); lra).
Qed.

Lemma gextremum_ok mx a b mode flags : fz = mode_fz mode -> is_bits F a -> is_bits F b ->
  exists x fl, gextremum F mx a b mode flags = (x, flags .| fl) /\ chooses F fz (mode_dn mode) (extremum mx) a b x fl.
Proof.
  intros Ez Ha Hb. unfold gextremum. rewrite <- Ez, !gunpack_ok by done. cbv iota beta. rewrite <- !Z.lor_assoc, <- !flushed_cons.
  pose proof (gprocess_NaNs_ok F HI [a; b] (mode_dn mode) (flags .| flushed F fz [a; b]) ltac:(all_bits)) as Hn.
  pose proof (chosen_nan_None F [a; b]) as Hno. unfold chooses. destruct (chosen_nan F [a; b]) as [n|].
  - destruct Hn as (x & -> & Hx & Ht & Hbits). rewrite Ht, <- Z.lor_assoc. eexists x, _. split; [done|]. split; [done|]. eauto.
  - rewrite Hn. change (truth 0) with false. cbv iota. destruct Hno as [Hno _]. specialize (Hno eq_refl).
    pose proof (Hno a ltac:(set_solver)) as Na. pose proof (Hno b ltac:(set_solver)) as Nb.
    destruct (repack_ok a Ha Na) as [Ba Da]. destruct (repack_ok b Hb Nb) as [Bb Db].
    eexists _, (flushed F fz [a; b] .| 0). rewrite Z.lor_0_r. split; [done|]. rewrite <- (extremum_ok mx a b) by done.
    assert ((if mx then Z.b2z (sign_of F b) else Z.b2z (sign_of F a)) = Z.b2z (if mx then sign_of F b else sign_of F a)) as -> by now destruct mx.
    rewrite b2z_eq, b2z_xor. assert (forall c x y, truth (if c : bool then Z.b2z x else Z.b2z y) = if c then x else y) as -> by (intros [] [] []; done).
    destruct (if negb _ then _ else _); (split; [done|]); exists 0; rewrite ?Z.lor_0_r; done.
Qed.

(** The test for a quiet NaN on a pattern. *)
Lemma qnan_code x : is_bits F x -> (wrap (fW F) (Z.lnot (x ≪ 1)) ≫ fM F =? 0) = is_qnan F x.
Proof.
  intros Hx. unfold is_qnan. destruct (is_fields F x Hx) as (Px & Ex & Fx). rewrite is_snan_fields, is_nan_fields by done.
  pose proof (@valid_E F VF). rewrite Z.shiftr_div_pow2, Z.shiftl_mul_pow2 by lia. change (2 ^ 1) with 2. unfold Z.lnot, wrap.
  set (e := exp_of F x) in *. set (f := frac_of F x) in *. set (s := sign_of F x) in *. clearbody e f s. subst x. clear Hx. unfold fields, fW.
  assert (2 ^ fM F = 2 * 2 ^ (fM F - 1)) as E1 by (rewrite <- Z.pow_succ_r by lia; f_equal; lia).
  replace (1 + fE F + fM F) with (1 + (fE F + fM F)) by lia. rewrite !pow2_split by lia. change (2 ^ 1) with 2. pose proof (pow2_pos (fM F - 1) ltac:(lia)).
  set (E := 2 ^ fE F) in *. rewrite E1 in *. set (h := 2 ^ (fM F - 1)) in *. clearbody E h.
  replace (Z.pred (- ((Z.b2z s * (E * (2 * h)) + e * (2 * h) + f) * 2)) mod (2 * (E * (2 * h)))) with (2 * (E * (2 * h)) - 1 - (e * (2 * h) + f) * 2).
  2: { apply (Z.mod_unique_pos _ _ (- Z.b2z s - 1)); [nia|]. destruct s; cbn [Z.b2z]; lia. }
  transitivity (2 * (E * (2 * h)) - 1 - (e * (2 * h) + f) * 2 <? 2 * h).
  { destruct (Z.ltb_spec (2 * (E * (2 * h)) - 1 - (e * (2 * h) + f) * 2) (2 * h)) as [Hl|Hl].
    - rewrite Z.div_small by nia. done.
    - apply Z.eqb_neq, Z.neq_sym, Z.lt_neq, Z.div_str_pos. lia. }
  destruct (Z.eqb_spec e (E - 1)) as [->|]; [|cbn [andb]; apply Z.ltb_ge; nia].
  destruct (Z.eqb_spec f 0), (Z.ltb_spec f h); cbn [andb negb]; split_cmp; done || nia.
Qed.

Lemma numeric_code c a b : is_bits F a -> is_bits F b ->
  (let op1 := if (wrap (fW F) (Z.lnot (a ≪ 1)) ≫ fM F =? 0) && truth (wrap (fW F) (Z.lnot (b ≪ 1)) ≫ fM F) then c else a in
   let op2 := if (wrap (fW F) (Z.lnot (b ≪ 1)) ≫ fM F =? 0) && truth (wrap (fW F) (Z.lnot (op1 ≪ 1)) ≫ fM F) then c else b in (op1, op2)) =
  (numeric F c a b, numeric F c b a).
Proof.
  intros Ha Hb. cbv zeta. unfold numeric, truth. rewrite !qnan_code by done. destruct (is_qnan F b) eqn:Eb; cbn [andb negb].
  - rewrite andb_false_r, qnan_code by done. done.
  - done.
Qed.

End extremum.

Lemma extremum_code T (mx : bool) a b fpscr : (if mx then fplibMax T else fplibMin T) a b fpscr =
  let '(x, flags) := gextremum (fmt T) mx a b (modeConv fpscr) 0 in (x, set_fpscr0 fpscr flags).
Proof.
  destruct T, mx; unfold fplibMax, fplibMin, fplibMax32, fplibMax64, fplibMin32, fplibMin64, gextremum; cbn [fmt].
  all: do 2 (first [rewrite unpack32|rewrite unpack64]; destruct (gunpack _ _ _ _) as [[[? ?] ?] ?]).
  all: first [rewrite process_NaNs_32|rewrite process_NaNs_64]; destruct (gprocess_NaNs _ _ _ _); reflexivity.
Qed.

Lemma chooses_flags F fz dn pick a b x fl : chooses F fz dn pick a b x fl -> flag_bits fl.
Proof.
  intros (_ & fl' & -> & H). apply flag_bits_lor; [unfold flushed; now destruct (fz && _)|].
  destruct (chosen_nan F [a; b]); destruct H as [_ ->]; [now destruct (is_snan F _)|done].
Qed.

Lemma fplib_extremum_ok T (mx : bool) a b fpscr : is_bits (fmt T) a -> is_bits (fmt T) b -> in_range 32 fpscr ->
  exists x fl, (if mx then fplibMax T else fplibMin T) a b fpscr = (x, fpscr .| fl) /\
    chooses (fmt T) (ctl_fz fpscr) (ctl_dn fpscr) (extremum mx) a b x fl.
Proof.
  intros Ha Hb Hf. assert (ieee (fmt T) = true) as HI by now destruct T. assert (Valid (fmt T)) as VT by (destruct T; apply _).
  destruct (gextremum_ok (fmt T) HI (ctl_fz fpscr) mx a b (modeConv fpscr) 0) as (x & fl & E & H); [now rewrite mode_fz_conv|done..|].
  rewrite mode_dn_conv in H by done. exists x, fl. split; [|done]. rewrite extremum_code, E, Z.lor_0_l.
  now rewrite set_fpscr0_ok by eauto using chooses_flags.
Qed.

(** C21: the maximum and the minimum: [fplibMax] and [fplibMin] return the greater and the
    lesser of what the operands stand for, with [+0] above [-0], the NaN of the operands
    that decides if there is one, and no exception but for signalling NaNs and flushed
    operands; [fplibMaxNum] and [fplibMinNum] do so with a single quiet NaN replaced by
    the infinity that loses every comparison. *)
Theorem fplibMaxMin_correct T (mx : bool) a b fpscr : is_bits (fmt T) a -> is_bits (fmt T) b -> in_range 32 fpscr ->
  let c := fields (fmt T) mx (2 ^ fE (fmt T) - 1) 0 in
  (exists x fl, (if mx then fplibMax T else fplibMin T) a b fpscr = (x, fpscr .| fl) /\
    chooses (fmt T) (ctl_fz fpscr) (ctl_dn fpscr) (extremum mx) a b x fl) /\
  exists x fl, (if mx then fplibMaxNum T else fplibMinNum T) a b fpscr = (x, fpscr .| fl) /\
    chooses (fmt T) (ctl_fz fpscr) (ctl_dn fpscr) (extremum mx) (numeric (fmt T) c a b) (numeric (fmt T) c b a) x fl.
Proof.
  intros Ha Hb Hf c. split; [now apply fplib_extremum_ok|].
  assert (ieee (fmt T) = true) as HI by now destruct T. assert (Valid (fmt T)) as VT by (destruct T; apply _).
  assert (is_bits (fmt T) c) as Hc by (unfold c; destruct T, mx; vm_compute; done).
  assert (forall a b, is_bits (fmt T) a -> is_bits (fmt T) b -> is_bits (fmt T) (numeric (fmt T) c a b)) as Hn by (intros; unfold numeric; now destruct (_ && _)).
  destruct (fplib_extremum_ok T mx (numeric (fmt T) c a b) (numeric (fmt T) c b a) fpscr) as (x & fl & E & H); [auto..|done|]. exists x, fl. split; [|done].
  rewrite <- E. change ((if mx then fplibMax T else fplibMin T) (numeric (fmt T) c a b) (numeric (fmt T) c b a) fpscr) with
    (let '(a, b) := (numeric (fmt T) c a b, numeric (fmt T) c b a) in (if mx then fplibMax T else fplibMin T) a b fpscr).
  rewrite <- (numeric_code (fmt T) HI c a b Ha Hb). destruct T, mx; reflexivity.
Qed.

(** [-0 = +0], and [1 < 2]. *)
Lemma fplibCompare_correct_witness : fplibCompare T32 0x80000000 0 false 0 = (6, 0) /\
  fplibCompareGT T32 0x40000000 0x3f800000 0 = (below (operand F32 (ctl_fz 0) 0x3f800000) (operand F32 (ctl_fz 0) 0x40000000), 0 .| (flushed F32 (ctl_fz 0) [0x40000000; 0x3f800000] .| 0)).
Proof.
  split; [vm_compute; reflexivity|]. apply (fplibCompare_correct T32 0x40000000 0x3f800000 false 0); (split; [discriminate|reflexivity]).
Defined.

(** The maximum of [-0] and [+0] is [+0]; the maximum of a quiet NaN and [1] is the NaN, but [1] for [fplibMaxNum]. *)
Lemma fplibMaxMin_correct_witness :
  fplibMax T32 0x80000000 0 0 = (0, 0) /\ fplibMax T32 0x7fc00000 0x3f800000 0 = (0x7fc00000, 0) /\ fplibMaxNum T32 0x7fc00000 0x3f800000 0 = (0x3f800000, 0) /\
  exists x fl, fplibMaxNum T32 0x7fc00000 0x3f800000 0 = (x, 0 .| fl) /\
    chooses F32 (ctl_fz 0) (ctl_dn 0) (extremum true) (numeric F32 (fields F32 true 255 0) 0x7fc00000 0x3f800000) (numeric F32 (fields F32 true 255 0) 0x3f800000 0x7fc00000) x fl.
Proof.
  split; [vm_compute; reflexivity|]. split; [vm_compute; reflexivity|]. split; [vm_compute; reflexivity|].
  apply (fplibMaxMin_correct T32 true 0x7fc00000 0x3f800000 0); (split; [discriminate|reflexivity]).
Defined.
