(* ===== verification/FpConvert.v ===== *)
(** * Conversions between floating-point formats

    [fplibConvert] between half, single and double precision: widening is exact, narrowing
    is correctly rounded, and ARM's alternative half precision saturates. *)
From Stdlib Require Import Reals Lra.
From S2P Require Import Prelude FplibCore Fplib FplibConv FpSpec FpBits FpFields FpRound FpOps FpAdd FpFma FpSteps FpCompare.

(** ** Definitions: the specification *)

(** A NaN in another format: quiet, with the sign and the leading bits of the fraction. *)
Definition converted_nan (S D : format) (x : Z) : Z :=
  let f := if fM D <? fM S then frac_of S x / 2 ^ (fM S - fM D) else frac_of S x * 2 ^ (fM D - fM S) in
  fields D (sign_of S x) (2 ^ fE D - 1) (if f <? 2 ^ (fM D - 1) then f + 2 ^ (fM D - 1) else f).

(** [y] and [fl] are [x] of the format [S] in the format [D].  A format without infinities and NaNs takes
    its greatest number for an infinity and zero for a NaN, both of them invalid. *)
Definition converts (S D : format) (fzs fzd dn : bool) (rm : rmode) (x y fl : Z) : Prop :=
  is_bits D y /\ exists fl', fl = flushed S fzs [x] .| fl' /\
  match operand S fzs x with
  | NaN q =>
      if ieee D then y = (if dn then default_nan D else converted_nan S D x) /\ fl' = (if q then 0 else FPLIB_IOC)
      else decode D y = Num (sign_of S x) 0 /\ fl' = FPLIB_IOC
  | Inf s => if ieee D then decode D y = Inf s /\ fl' = 0 else decode D y = Num s (greatest D) /\ fl' = FPLIB_IOC
  | Num s v => if Req_EM_T v 0 then decode D y = Num s 0 /\ fl' = 0 else rounded D fzd rm s v y fl'
  end.

(** A number other than zero. *)
Definition nonzero (v : num) : Prop := match v with Num _ x => x <> 0%R | _ => False end.

(** ** Definitions: the code at two formats *)

Definition gconv_nan (S D : format) (op : Z) : Z :=
  gpack D (op ≫ (fW S - 1)) (2 ^ fE D - 1) ((1 ≪ (fM D - 1)) .| (if fM D <? fM S then op ≫ (fM S - fM D) else op ≪ (fM D - fM S))).

Definition gnarrow (S D : format) (K : Z) (fzs fzd dn : bool) (op rounding flags : Z) : result (Z * Z) :=
  let '(sgn, exp, mnt, flags) := gunpack S op fzs flags in
  if gnan_fields S exp mnt then
    Ok (if negb (ieee D) then gpack D sgn 0 0 else if dn then gpack D 0 (2 ^ fE D - 1) (1 ≪ (fM D - 1)) else gconv_nan S D op,
        if ((mnt ≫ (fM S - 1)) .& 1 =? 0) || negb (ieee D) then flags .| FPLIB_IOC else flags)
  else if exp =? 2 ^ fE S - 1 then
    Ok (if negb (ieee D) then (wrap (fW D) ((sgn ≪ (fW D - 1)) .| (2 ^ (fW D - 1) - 1)), flags .| FPLIB_IOC) else (gpack D sgn (2 ^ fE D - 1) 0, flags))
  else if mnt =? 0 then Ok (gpack D sgn 0 0, flags)
  else ground D K sgn (exp - bias S + bias D) (wrap (fW D) ((mnt ≫ (fM S - fW D)) .| nz (wrap (fW S) (mnt ≪ (fW S - (fM S - fW D)))))) rounding fzd flags.

Definition gwiden (S D : format) (normalise : Z -> Z -> Z * Z) (fzs dn : bool) (op flags : Z) : Z * Z :=
  let '(sgn, exp, mnt, flags) := gunpack S op fzs flags in
  if ieee S && gnan_fields S exp mnt then
    (if dn then gpack D 0 (2 ^ fE D - 1) (1 ≪ (fM D - 1)) else gconv_nan S D op,
     if (mnt ≫ (fM S - 1)) .& 1 =? 0 then flags .| FPLIB_IOC else flags)
  else if ieee S && (exp =? 2 ^ fE S - 1) then (gpack D sgn (2 ^ fE D - 1) 0, flags)
  else if mnt =? 0 then (gpack D sgn 0 0, flags)
  else
    let '(mnt, exp) := normalise mnt exp in
    (gpack D sgn (exp - bias S + bias D + fE S) (mnt ≪ (fM D - fW S + 1)), flags).

(** The six conversions of [fplib.hh]. *)
Inductive conversion := C64_32 | C32_16 | C64_16 | C32_64 | C16_32 | C16_64.

Definition half (ahp : bool) : format := if ahp then F16alt else F16.

Definition conv_src (c : conversion) (ahp : bool) : format :=
  match c with C64_32 | C64_16 => F64 | C32_16 | C32_64 => F32 | C16_32 | C16_64 => half ahp end.
Definition conv_dst (c : conversion) (ahp : bool) : format :=
  match c with C32_64 | C16_64 => F64 | C64_32 | C16_32 => F32 | C32_16 | C64_16 => half ahp end.

(** Half precision numbers are never flushed to zero. *)
Definition conv_fz (fz : bool) (F : format) : bool := fz && (16 <? fW F).

(** The conversion back. *)
Definition conv_back (c : conversion) : conversion :=
  match c with C32_64 => C64_32 | C16_32 => C32_16 | C16_64 => C64_16 | _ => c end.

Definition convert (c : conversion) (op rounding fpscr : Z) : result (Z * Z) :=
  match c with
  | C64_32 => fplibConvert_64_32 op rounding fpscr
  | C32_16 => fplibConvert_32_16 op rounding fpscr
  | C64_16 => fplibConvert_64_16 op rounding fpscr
  | C32_64 => Ok (fplibConvert_32_64 op rounding fpscr)
  | C16_32 => Ok (fplibConvert_16_32 op rounding fpscr)
  | C16_64 => Ok (fplibConvert_16_64 op rounding fpscr)
  end.

(** ** The code is an instance *)

Lemma fpscr_bit fpscr n : 0 <= n -> Z.testbit fpscr n = Z.odd (fpscr / 2 ^ n).
Proof. intros. now rewrite <- Z.shiftr_div_pow2, <- Z.bit0_odd, Z.shiftr_spec by lia. Qed.

Lemma ahp_mode fpscr b : in_range 32 fpscr -> ((modeConv fpscr .| (Z.b2z b ≪ 4)) .& FPLIB_AHP =? 0) = negb b.
Proof.
  intros Hf. rewrite Z.land_lor_distr_l. replace (modeConv fpscr .& FPLIB_AHP) with 0; [now destruct b|].
  unfold modeConv. rewrite <- Z.land_assoc. change (0xF .& FPLIB_AHP) with 0. now rewrite Z.land_0_r.
Qed.

Lemma conv_fz_half fz F : fW F = 16 -> conv_fz fz F = false.
Proof. intros E. unfold conv_fz. now rewrite E, andb_false_r. Qed.

Lemma convert_narrow c op rounding fpscr : in_range 32 fpscr ->
  match c with C64_32 | C32_16 | C64_16 => True | _ => False end ->
  convert c op rounding fpscr =
  (let* '(x, flags) := gnarrow (conv_src c (ctl_ahp fpscr)) (conv_dst c (ctl_ahp fpscr)) (match c with C64_32 => 8 | _ => 5 end) (ctl_fz fpscr)
     (conv_fz (ctl_fz fpscr) (conv_dst c (ctl_ahp fpscr))) (ctl_dn fpscr) op rounding 0 in Ok (x, set_fpscr0 fpscr flags)).
Proof.
  intros Hf Hc. rewrite <- mode_fz_conv by done. unfold ctl_ahp, ctl_dn. rewrite <- !fpscr_bit by lia. unfold gnarrow. destruct c; try done; cbn [convert conv_src conv_dst].
  - unfold fplibConvert_64_32. rewrite unpack64. destruct (gunpack _ _ _ _) as [[[? ?] ?] ?]. rewrite round32. unfold fpscr_dn.
    replace (conv_fz (mode_fz (modeConv fpscr)) F32) with (mode_fz (modeConv fpscr)) by (unfold conv_fz; now rewrite andb_true_r).
    cbn [ieee F32 negb]. rewrite orb_false_r. reflexivity.
  - unfold fplibConvert_32_16. rewrite unpack32. destruct (gunpack _ _ _ _) as [[[? ?] ?] ?]. rewrite round16, ahp_mode by done. unfold fpscr_ahp, fpscr_dn.
    destruct (Z.testbit fpscr 26); cbn [half negb]; rewrite conv_fz_half by done; reflexivity.
  - unfold fplibConvert_64_16. rewrite unpack64. destruct (gunpack _ _ _ _) as [[[? ?] ?] ?]. rewrite round16, ahp_mode by done. unfold fpscr_ahp, fpscr_dn.
    destruct (Z.testbit fpscr 26); cbn [half negb]; rewrite conv_fz_half by done; reflexivity.
Qed.

Lemma convert_widen c op rounding fpscr : in_range 32 fpscr ->
  match c with C64_32 | C32_16 | C64_16 => False | _ => True end ->
  convert c op rounding fpscr =
  Ok (let '(x, flags) := gwiden (conv_src c (ctl_ahp fpscr)) (conv_dst c (ctl_ahp fpscr)) (match c with C32_64 => fp32_normalise | _ => fp16_normalise end)
     (conv_fz (ctl_fz fpscr) (conv_src c (ctl_ahp fpscr))) (ctl_dn fpscr) op 0 in (x, set_fpscr0 fpscr flags)).
Proof.
  intros Hf Hc. rewrite <- mode_fz_conv by done. unfold ctl_ahp, ctl_dn. rewrite <- !fpscr_bit by lia. unfold gwiden. destruct c; try done; cbn [convert conv_src conv_dst].
  - unfold fplibConvert_32_64. rewrite unpack32. replace (conv_fz (mode_fz (modeConv fpscr)) F32) with (mode_fz (modeConv fpscr)) by (unfold conv_fz; now rewrite andb_true_r).
    destruct (gunpack _ _ _ _) as [[[? ?] ?] ?]. reflexivity.
  - unfold fplibConvert_16_32. rewrite unpack16. unfold fpscr_ahp. destruct (Z.testbit fpscr 26); cbn [half negb]; rewrite conv_fz_half by done.
    + change (gunpack F16alt op false 0) with (gunpack F16 op false 0). destruct (gunpack _ _ _ _) as [[[? ?] ?] ?]. rewrite andb_false_r. reflexivity.
    + destruct (gunpack _ _ _ _) as [[[? ?] ?] ?]. rewrite andb_true_r. reflexivity.
  - unfold fplibConvert_16_64. rewrite unpack16. unfold fpscr_ahp. destruct (Z.testbit fpscr 26); cbn [half negb]; rewrite conv_fz_half by done.
    + change (gunpack F16alt op false 0) with (gunpack F16 op false 0). destruct (gunpack _ _ _ _) as [[[? ?] ?] ?]. rewrite andb_false_r. reflexivity.
    + destruct (gunpack _ _ _ _) as [[[? ?] ?] ?]. rewrite andb_true_r. reflexivity.
Qed.

(** ** NaNs *)

Lemma sign_shift F {VF : Valid F} x : is_bits F x -> x ≫ (fW F - 1) = Z.b2z (sign_of F x).
Proof. intros Hx. pose proof (gunpack_ok F x false 0 Hx) as E. unfold gunpack in E. repeat case_match; congruence. Qed.

Section convert.
Context (S D : format) {VS : Valid S} {VD : Valid D}.

Let HMS : 2 <= fM S := valid_M.
Let HMD : 2 <= fM D := valid_M.
Let HED : 2 <= fE D := valid_E.

Lemma conv_nan_ok x : is_bits S x -> gconv_nan S D x = converted_nan S D x /\ is_bits D (converted_nan S D x).
Proof.
  intros Hx. unfold gconv_nan, converted_nan. destruct (is_fields S x Hx) as (_ & _ & Hf).
  set (y := if fM D <? fM S then x ≫ (fM S - fM D) else x ≪ (fM D - fM S)).
  set (f := if fM D <? fM S then frac_of S x / 2 ^ (fM S - fM D) else frac_of S x * 2 ^ (fM D - fM S)).
  assert (y mod 2 ^ fM D = f /\ 0 <= f < 2 ^ fM D) as [Ey Hf'].
  { unfold y, f, frac_of in *. destruct (Z.ltb_spec (fM D) (fM S)).
    - rewrite Z.shiftr_div_pow2 by lia. set (k := fM S - fM D) in *. pose proof (pow2_pos k ltac:(lia)). pose proof (pow2_pos (fM D) ltac:(lia)).
      assert (2 ^ fM S = 2 ^ k * 2 ^ fM D) as E by (rewrite <- pow2_split by lia; f_equal; lia). rewrite E.
      rewrite Z.rem_mul_r, (Z.mul_comm (2 ^ k) (_ mod _)), Z.div_add, (Z.div_small (x mod 2 ^ k)), Z.add_0_l by (try apply Z.mod_pos_bound; lia).
      split; [done|]. apply Z.mod_pos_bound. lia.
    - rewrite Z.shiftl_mul_pow2 by lia. set (k := fM D - fM S) in *. pose proof (pow2_pos k ltac:(lia)). pose proof (pow2_pos (fM S) ltac:(lia)).
      assert (2 ^ fM D = 2 ^ fM S * 2 ^ k) as E by (rewrite <- pow2_split by lia; f_equal; lia). rewrite E, Z.mul_mod_distr_r by lia. split; [done|]. nia. }
  assert (2 ^ fM D = 2 * 2 ^ (fM D - 1)) as E2 by (rewrite <- Z.pow_succ_r by lia; f_equal; lia). pose proof (pow2_pos (fM D - 1) ltac:(lia)).
  pose proof (pow2_le 2 (fE D) HED) as HE2. change (2 ^ 2) with 4 in HE2.
  assert (((1 ≪ (fM D - 1)) .| y) mod 2 ^ fM D = if f <? 2 ^ (fM D - 1) then f + 2 ^ (fM D - 1) else f) as Em.
  { change (wrap (fM D) ((1 ≪ (fM D - 1)) .| y) = if f <? 2 ^ (fM D - 1) then f + 2 ^ (fM D - 1) else f).
    assert (wrap (fM D) ((1 ≪ (fM D - 1)) .| y) = (1 ≪ (fM D - 1)) .| f) as ->.
    { rewrite <- Ey. change (y mod 2 ^ fM D) with (wrap (fM D) y). rewrite Z.shiftl_1_l. bits_ext i. simpl_bits.
      destruct (Z.ltb_spec i (fM D)), (Z.eqb_spec i (fM D - 1)); cbn [andb orb]; done || lia. }
    rewrite Z.shiftl_1_l. destruct (Z.ltb_spec f (2 ^ (fM D - 1))).
    - rewrite <- (Z.mul_1_l (2 ^ (fM D - 1))) at 1. rewrite lor_add by lia. lia.
    - replace f with (1 * 2 ^ (fM D - 1) + (f - 2 ^ (fM D - 1))) at 1 by lia. rewrite <- lor_add, Z.lor_assoc, Z.mul_1_l, Z.lor_diag by lia.
      rewrite <- (Z.mul_1_l (2 ^ (fM D - 1))) at 1. rewrite lor_add by lia. lia. }
  rewrite sign_shift, gpack_fields, Em by (done || lia). split; [done|].
  apply (fields_range D); [lia|]. destruct (Z.ltb_spec f (2 ^ (fM D - 1))); lia.
Qed.

(** What the code does with a NaN. *)
Lemma operand_nan x fz : ieee S = true -> is_bits S x -> is_nan S x = true ->
  operand S fz x = NaN (negb (is_snan S x)) /\ flushed S fz [x] = 0.
Proof.
  intros HI Hx Hn. unfold operand, flushed, is_snan, is_subnormal, is_nan in *. cbn [existsb].
  assert (exp_of S x <> 0).
  { intros E. unfold decode in Hn. rewrite E in Hn. pose proof (emax_range S). rewrite (proj2 (Z.eqb_neq 0 (emax S))) in Hn by lia. discriminate Hn. }
  rewrite (proj2 (Z.eqb_neq _ 0)), !andb_false_r by done. destruct (decode S x); try done. now rewrite negb_involutive.
Qed.

(** The greatest number, as the code writes it. *)
Lemma greatest_code s : ieee D = false ->
  let y := wrap (fW D) ((Z.b2z s ≪ (fW D - 1)) .| (2 ^ (fW D - 1) - 1)) in is_bits D y /\ decode D y = Num s (greatest D).
Proof.
  intros HD. cbv zeta. assert (wrap (fW D) ((Z.b2z s ≪ (fW D - 1)) .| (2 ^ (fW D - 1) - 1)) = gpack D (Z.b2z s) (emax D - 1) (-1)) as ->.
  { rewrite (gpack_fields D) by (unfold emax; rewrite HD; pose proof (pow2_pos (fE D)); lia). unfold emax, fields. rewrite HD.
    assert (fW D - 1 = fE D + fM D) as -> by (unfold fW; lia). pose proof (pow2_pos (fE D) ltac:(lia)). pose proof (pow2_pos (fM D) ltac:(lia)).
    rewrite Z.shiftl_mul_pow2, lor_add by (rewrite ?pow2_split; nia). replace (-1 mod 2 ^ fM D) with (2 ^ fM D - 1) by (apply (Z.mod_unique_pos _ _ (-1)); lia).
    rewrite wrap_small; [rewrite pow2_split by lia; lia|]. unfold in_range, fW. replace (1 + fE D + fM D) with (Z.succ (fE D + fM D)) by lia.
    rewrite Z.pow_succ_r, pow2_split by lia. destruct s; cbn [Z.b2z]; nia. }
  apply (decode_greatest D).
Qed.

Context (HI : ieee S = true) (K : Z) (HK : K = fE D - 1 \/ K = fE D) (HW : fW D <= fM S) (HB : fW D + 1 <= fE D + bias S - bias D).
Context (HS31 : fE S <= 16) (HE31 : 0 <= bias D).

(** Rounding a number of the wider format. *)
Lemma narrow_round fzd s e m rounding flags : 0 < m < 2 ^ (fM S + 1) -> 2 ^ fM S <= m \/ e = 1 -> 1 <= e < 2 ^ 16 ->
  0 <= rounding <= 5 -> rounding <> FPRounding_TIEAWAY ->
  exists y fl, ground D K (Z.b2z s) (e - bias S + bias D) (wrap (fW D) ((m ≫ (fM S - fW D)) .| nz (wrap (fW S) (m ≪ (fW S - (fM S - fW D)))))) rounding fzd flags
    = Ok (y, flags .| fl) /\ is_bits D y /\ rounded D fzd (rmode_of rounding) s (IZR m * bpow (e - bias S - fM S)) y fl.
Proof.
  intros Hm Hn He Hr Hr4. set (sh := fM S - fW D) in *. assert (0 <= sh) by lia. assert (0 < fE S) by (pose proof (@valid_E S VS); lia).
  rewrite sticky_drop by (unfold fW in *; lia). set (X := sr m sh).
  assert (bias S < 2 ^ 16) as HbS by (unfold bias; pose proof (pow2_le (fE S - 1) 16 ltac:(lia)); lia).
  assert (0 < fW D) by (unfold fW; lia).
  assert (IZR m * bpow (e - bias S - fM S) = IZR m * bpow (- sh) * bpow (e - bias S + bias D - bias D - fW D))%R as ->.
  { rewrite Rmult_assoc, <- bpow_add. do 2 f_equal. unfold sh. lia. }
  assert (0 <= X < 2 * 2 ^ fW D) as HX.
  { unfold X. pose proof (sr_range m sh (fM S) ltac:(lia) ltac:(lia)) as HX. replace (fM S + 1 - sh) with (Z.succ (fW D)) in HX by (unfold sh; lia).
    now rewrite Z.pow_succ_r in HX by lia. }
  destruct Hn as [Hn| ->].
  - assert (2 ^ fW D <= X).
    { unfold X. replace (2 ^ fM S) with (2 ^ fW D * 2 ^ sh) in Hn by (rewrite <- pow2_split by lia; f_equal; unfold sh; lia).
      pose proof (pow2_pos sh ltac:(lia)). assert (2 ^ fW D <= m / 2 ^ sh) as Hd by (apply Z.div_le_lower_bound; lia).
      destruct (sr_cases m sh) as [[_ ->]|[_ ->]]; [done|]. replace (fW D) with (Z.succ (fW D - 1)) in * by lia. rewrite Z.pow_succ_r in * by lia.
      generalize dependent (m / 2 ^ sh). generalize (2 ^ (fW D - 1)). intros. divlia. }
    replace (wrap (fW D) X) with (X - 2 ^ fW D) by (apply (Z.mod_unique_pos _ _ 1); lia).
    apply (ground_ok D K s _ _ _ _ _ 1 (IZR m * bpow (- sh))); try done; try lia; [unfold drop; lia|].
    replace (2 ^ fW D + (X - 2 ^ fW D)) with X by lia. now apply sr_exact.
  - apply (ground_ok D K s _ _ _ _ _ (fW D + 1) (IZR m * bpow (- sh))); try done; try lia.
    + apply Z.mod_pos_bound, pow2_pos. lia.
    + unfold drop. lia.
    + right. split; [done|]. unfold fW in HB. lia.
    + right. exists 0. rewrite Z.mul_0_l, Z.add_0_l, Z.mul_1_l. rewrite Z.add_1_r, Z.pow_succ_r by lia.
      pose proof (Z.mod_pos_bound X (2 ^ fW D) (pow2_pos (fW D) ltac:(lia))). split; [unfold wrap; lia|].
      pose proof (bpow_pos (- sh)). assert (0 < IZR m)%R by (apply IZR_lt; lia). split; [nra|].
      apply (Rlt_le_trans _ (bpow (fM S + 1) * bpow (- sh))).
      * apply Rmult_lt_compat_r; [done|]. rewrite bpow_IZR by lia. apply IZR_lt. lia.
      * rewrite <- bpow_add, <- Z.pow_succ_r, <- bpow_IZR by lia. apply bpow_le. unfold sh. lia.
Qed.

Lemma gnarrow_ok fzs fzd dn op rounding flags : is_bits S op -> 0 <= rounding <= 5 -> rounding <> FPRounding_TIEAWAY ->
  exists y fl, gnarrow S D K fzs fzd dn op rounding flags = Ok (y, flags .| fl) /\ converts S D fzs fzd dn (rmode_of rounding) op y fl.
Proof.
  intros Hx Hr Hr4. unfold gnarrow. rewrite gunpack_ok by done. cbv iota beta. rewrite nan_fields_ok by done. unfold converts.
  destruct (is_nan S op) eqn:Hn.
  - destruct (operand_nan op fzs HI Hx Hn) as [-> ->]. rewrite Z.lor_0_r. pose proof (snan_code' S HI (if fzs then FPLIB_FZ else 0) op Hx) as Hq.
    rewrite Hn in Hq. cbn [andb] in Hq. replace (mode_fz (if fzs then FPLIB_FZ else 0)) with fzs in Hq by now destruct fzs. rewrite Hq.
    destruct (conv_nan_ok op Hx) as [-> Hc]. destruct (default_nan_ok D) as [Hd _]. destruct (decode_zero D (sign_of S op)) as [Hz Hz'].
    destruct (ieee D) eqn:HD; cbn [negb orb].
    + rewrite orb_false_r, (default_nan_pack D). eexists (if dn then default_nan D else converted_nan S D op), (if is_snan S op then FPLIB_IOC else 0).
      split; [destruct (is_snan S op); now rewrite ?Z.lor_0_r|]. split; [now destruct dn|]. eexists. split; [symmetry; apply Z.lor_0_l|]. split; [done|]. now destruct (is_snan S op).
    + rewrite orb_true_r. eexists _, FPLIB_IOC. split; [done|]. split; [done|]. eexists. split; [symmetry; apply Z.lor_0_l|]. done.
  - destruct (operand_cases S HI op fzs Hx Hn) as [(-> & -> & _)|(-> & He & ->)].
    + destruct (ieee D) eqn:HD; cbn [negb].
      * destruct (decode_infinity D (sign_of S op) HD). eexists _, (flushed S fzs [op] .| 0). rewrite Z.lor_0_r. split; [done|]. split; [done|]. exists 0. now rewrite Z.lor_0_r.
      * destruct (greatest_code (sign_of S op) HD) as [Hb Hg]. eexists _, (flushed S fzs [op] .| FPLIB_IOC). rewrite Z.lor_assoc. split; [done|]. split; [done|]. now exists FPLIB_IOC.
    + destruct (mant_range S op fzs Hx) as [Hm Hm']. destruct (Z.eqb_spec (mant S fzs op) 0) as [E|E].
      * destruct (decode_zero D (sign_of S op)). eexists _, (flushed S fzs [op] .| 0). rewrite Z.lor_0_r. split; [done|]. split; [done|]. exists 0. rewrite Z.lor_0_r. split; [done|].
        destruct (Req_EM_T _ 0) as [|Hne]; [done|]. destruct Hne. now apply mant_0.
      * pose proof (pow2_le (fE S) 16 HS31). pose proof (emax_range S).
        destruct (narrow_round fzd (sign_of S op) (expo S op) (mant S fzs op) rounding (flags .| flushed S fzs [op])) as (y & fl & -> & Hb & Hro); [lia|done|lia|done|done|].
        exists y, (flushed S fzs [op] .| fl). rewrite Z.lor_assoc. split; [done|]. split; [done|]. exists fl. split; [done|].
        destruct (Req_EM_T _ 0) as [E0|_]; [now apply mant_0 in E0|done].
Qed.

(** Rounding ties away from zero: the assertion of the rounding fails for every number
    other than zero; the mode makes no difference to the rest. *)
Lemma gnarrow_away fzs fzd dn op flags rounding : is_bits S op ->
  (nonzero (operand S fzs op) -> gnarrow S D K fzs fzd dn op FPRounding_TIEAWAY flags = Err Assert_failed) /\
  (~ nonzero (operand S fzs op) -> gnarrow S D K fzs fzd dn op FPRounding_TIEAWAY flags = gnarrow S D K fzs fzd dn op rounding flags).
Proof.
  intros Hx. unfold gnarrow. rewrite gunpack_ok by done. cbv iota beta. rewrite nan_fields_ok by done. destruct (is_nan S op) eqn:Hn.
  { destruct (operand_nan op fzs HI Hx Hn) as [-> _]. split; [intros []|done]. }
  destruct (operand_cases S HI op fzs Hx Hn) as [(-> & -> & _)|(-> & _ & ->)]; [split; [intros []|done]|]. cbn [nonzero].
  destruct (Z.eqb_spec (mant S fzs op) 0) as [E|E].
  - split; [|done]. intros H. destruct H. now apply mant_0.
  - split; [done|]. intros H. destruct H. intros E0. now apply mant_0 in E0.
Qed.

End convert.

Section widen.
Context (S D : format) {VS : Valid S} {VD : Valid D} (HI : ieee D = true).
Context (normalise : Z -> Z -> Z * Z) (Hnorm : forall m e m' e', normalise m e = (m', e') -> 1 <= m < 2 ^ fW S -> normalised (fW S) m e m' e').
Context (HB : bias S + fW S <= bias D) (HT : 2 ^ fE S - bias S + bias D <= emax D) (HW : fW S <= fM D).

Let HMS : 2 <= fM S := valid_M.
Let HMD : 2 <= fM D := valid_M.
Let HES : 2 <= fE S := valid_E.

(** A number of the narrower format is one of the wider, and normal. *)
Lemma widen_pack s e m m' e' : normalise m e = (m', e') -> 0 < m < 2 ^ (fM S + 1) -> 1 <= e < 2 ^ fE S ->
  let y := gpack D (Z.b2z s) (e' - bias S + bias D + fE S) (m' ≪ (fM D - fW S + 1)) in
  is_bits D y /\ decode D y = Num s (IZR m * bpow (e - bias S - fM S)) /\ exp_of D y <> 0.
Proof.
  intros En Hm He. assert (fW S = 1 + fE S + fM S) as EW by done. pose proof (pow2_le (fM S + 1) (fW S) ltac:(lia)).
  apply Hnorm in En as (z & Hz & -> & -> & Hr); [|lia]. cbv zeta. rewrite Z.shiftl_mul_pow2, <- Z.mul_assoc, <- pow2_split by lia.
  assert (fE S <= z).
  { destruct (Z_le_gt_dec (fE S) z) as [|Hlt]; [done|]. assert (m * 2 ^ z < 2 ^ (fW S - 1)); [|lia].
    apply (Z.lt_le_trans _ (2 ^ (fM S + 1) * 2 ^ z)); [pose proof (pow2_pos z Hz); nia|]. rewrite <- pow2_split by lia. apply pow2_le. lia. }
  assert (z < fW S).
  { destruct (Z_lt_le_dec z (fW S)) as [|Hl]; [done|]. apply pow2_le in Hl. pose proof (pow2_pos z Hz). nia. }
  set (n := m * 2 ^ (z + (fM D - fW S + 1))). assert (2 ^ fM D <= n < 2 ^ (fM D + 1)) as Hn.
  { unfold n. set (q := fM D - fW S + 1) in *. assert (2 ^ fM D = 2 ^ (fW S - 1) * 2 ^ q) as -> by (rewrite <- pow2_split by lia; f_equal; lia).
    assert (2 ^ (fM D + 1) = 2 ^ fW S * 2 ^ q) as -> by (rewrite <- pow2_split by lia; f_equal; lia). rewrite pow2_split, Z.mul_assoc by lia.
    pose proof (pow2_pos q ltac:(lia)). split; [apply Z.mul_le_mono_nonneg_r|apply Z.mul_lt_mono_pos_r]; lia. }
  set (f := e - z - bias S + bias D + fE S). assert (1 <= f < emax D) as Hf by (unfold f; lia).
  destruct (decode_pack D s f n) as [B De]; [lia|rewrite (proj2 (Z.eqb_neq f 0)); lia|]. split; [done|]. split.
  - rewrite De. f_equal. unfold n. rewrite IZR_scale, Rmult_assoc, <- bpow_add by lia. do 2 f_equal. unfold f. lia.
  - pose proof (emax_range D). rewrite (gpack_fields D) by lia. destruct (fields_of D s f (n mod 2 ^ fM D)) as (_ & -> & _); [lia| |lia].
    apply Z.mod_pos_bound, pow2_pos. lia.
Qed.

Lemma gwiden_ok fzs fzd dn rm op flags : is_bits S op ->
  exists y fl, gwiden S D normalise fzs dn op flags = (y, flags .| fl) /\ converts S D fzs fzd dn rm op y fl.
Proof.
  intros Hx. unfold gwiden. rewrite gunpack_ok by done. cbv iota beta. unfold converts. rewrite HI.
  assert (operand S fzs op = Num (sign_of S op) (IZR (mant S fzs op) * bpow (expo S op - bias S - fM S)) -> expo S op < 2 ^ fE S ->
    exists y fl, (if mant S fzs op =? 0 then (gpack D (Z.b2z (sign_of S op)) 0 0, flags .| flushed S fzs [op])
      else let '(mnt, exp) := normalise (mant S fzs op) (expo S op) in
        (gpack D (Z.b2z (sign_of S op)) (exp - bias S + bias D + fE S) (mnt ≪ (fM D - fW S + 1)), flags .| flushed S fzs [op])) = (y, flags .| fl) /\ is_bits D y /\
      exists fl', fl = flushed S fzs [op] .| fl' /\
      match operand S fzs op with Num s v => if Req_EM_T v 0 then decode D y = Num s 0 /\ fl' = 0 else rounded D fzd rm s v y fl' | _ => False end) as Hnum.
  { intros -> He. destruct (mant_range S op fzs Hx) as [Hm _]. destruct (Z.eqb_spec (mant S fzs op) 0) as [E|E].
    - destruct (decode_zero D (sign_of S op)). eexists _, (flushed S fzs [op] .| 0). rewrite Z.lor_0_r. split; [done|]. split; [done|]. exists 0. rewrite Z.lor_0_r. split; [done|].
      destruct (Req_EM_T _ 0) as [|Hne]; [done|]. destruct Hne. now apply mant_0.
    - destruct (normalise (mant S fzs op) (expo S op)) as [m e] eqn:En. assert (1 <= expo S op) by (destruct (is_fields S op Hx) as (_ & ? & _); unfold expo; destruct (Z.eqb_spec (exp_of S op) 0); lia).
      destruct (widen_pack (sign_of S op) _ _ _ _ En ltac:(lia) ltac:(lia)) as (B & De & He0). eexists _, (flushed S fzs [op] .| 0). rewrite Z.lor_0_r. split; [done|]. split; [done|].
      exists 0. rewrite Z.lor_0_r. split; [done|]. destruct (Req_EM_T _ 0) as [E0|_]; [now apply mant_0 in E0|].
      apply rounded_self; [done..| |now right]. apply Rmult_lt_0_compat; [apply IZR_lt; lia|apply bpow_pos]. }
  destruct (is_fields S op Hx) as (_ & Hexp & _).
  destruct (ieee S) eqn:HS; cbn [andb].
  - rewrite nan_fields_ok by done. destruct (is_nan S op) eqn:Hn.
    + destruct (operand_nan S op fzs HS Hx Hn) as [-> ->]. rewrite Z.lor_0_r. pose proof (snan_code' S HS (if fzs then FPLIB_FZ else 0) op Hx) as Hq.
      rewrite Hn in Hq. cbn [andb] in Hq. replace (mode_fz (if fzs then FPLIB_FZ else 0)) with fzs in Hq by now destruct fzs. rewrite Hq, (default_nan_pack D).
      destruct (conv_nan_ok S D op Hx) as [-> Hc]. destruct (default_nan_ok D) as [Hd _].
      eexists (if dn then default_nan D else converted_nan S D op), (if is_snan S op then FPLIB_IOC else 0).
      split; [destruct (is_snan S op); now rewrite ?Z.lor_0_r|]. split; [now destruct dn|]. eexists. split; [symmetry; apply Z.lor_0_l|]. split; [done|]. now destruct (is_snan S op).
    + destruct (operand_cases S HS op fzs Hx Hn) as [(-> & -> & _)|(-> & He & Ho)].
      * destruct (decode_infinity D (sign_of S op) HI). eexists _, (flushed S fzs [op] .| 0). rewrite Z.lor_0_r. split; [done|]. split; [done|]. exists 0. now rewrite Z.lor_0_r.
      * pose proof (emax_range S). destruct (Hnum Ho ltac:(lia)) as (y & fl & E & B & fl' & -> & H'). exists y, (flushed S fzs [op] .| fl'). rewrite Ho in *. eauto 6.
  - assert (exp_of S op <> emax S) as Hne by (unfold emax; rewrite HS; lia). pose proof (operand_num S op fzs Hx Hne) as Ho.
    assert (expo S op < 2 ^ fE S) as He by (pose proof (pow2_le 2 (fE S) HES); unfold expo; destruct (Z.eqb_spec (exp_of S op) 0); lia).
    destruct (Hnum Ho He) as (y & fl & E & B & fl' & -> & H'). exists y, (flushed S fzs [op] .| fl'). rewrite Ho in *. eauto 6.
Qed.

(** Every number of the narrower format is a normal number of the wider. *)
Lemma widen_repr x s v : is_bits S x -> decode S x = Num s v -> (0 < v)%R ->
  exists y, is_bits D y /\ decode D y = Num s v /\ exp_of D y <> 0.
Proof.
  intros Hx Hd Hv.
  assert (exp_of S x <> emax S) as Hne by (intros E; unfold decode in Hd; rewrite E, Z.eqb_refl in Hd; now destruct (frac_of S x =? 0)).
  pose proof (operand_num S x false Hx Hne) as Ho. unfold operand in Ho. cbn [andb] in Ho. rewrite Hd in Ho. injection Ho as -> ->.
  destruct (mant_range S x false Hx) as [Hm _]. destruct (is_fields S x Hx) as (_ & He & _). pose proof (pow2_le 2 (fE S) HES). change (2 ^ 2) with 4 in *.
  assert (1 <= expo S x < 2 ^ fE S) as He' by (unfold expo; destruct (Z.eqb_spec (exp_of S x) 0); lia).
  assert (0 < mant S false x) as Hm'.
  { destruct (Z.eq_dec (mant S false x) 0) as [E|]; [|lia]. rewrite E, Rmult_0_l in Hv. lra. }
  destruct (normalise (mant S false x) (expo S x)) as [m e] eqn:En. eexists. apply (widen_pack _ _ _ _ _ En); lia.
Qed.

End widen.

(** ** The functions of the code *)

Lemma converts_flags S D fzs fzd dn rm x y fl : converts S D fzs fzd dn rm x y fl -> flag_bits fl.
Proof.
  intros (_ & fl' & -> & H). apply flag_bits_lor; [unfold flushed; now destruct (fzs && _)|].
  destruct (operand S fzs x) as [q|s|s v].
  - destruct (ieee D); destruct H as [_ ->]; [now destruct q|done].
  - destruct (ieee D); destruct H as [_ ->]; done.
  - destruct (Req_EM_T v 0); [now destruct H as [_ ->]|]. eapply rounded_flags, H.
Qed.

Lemma half_W ahp : fW (half ahp) = 16.
Proof. now destruct ahp. Qed.

Lemma conv_fz_full fz F : 16 < fW F -> conv_fz fz F = fz.
Proof. intros H. unfold conv_fz. rewrite (proj2 (Z.ltb_lt 16 (fW F)) H). apply andb_true_r. Qed.

Lemma narrow_ok c op rounding fpscr : match c with C64_32 | C32_16 | C64_16 => True | _ => False end -> is_bits (conv_src c (ctl_ahp fpscr)) op ->
  0 <= rounding <= 5 -> rounding <> FPRounding_TIEAWAY ->
  let S := conv_src c (ctl_ahp fpscr) in let D := conv_dst c (ctl_ahp fpscr) in
  exists y fl, gnarrow S D (match c with C64_32 => 8 | _ => 5 end) (ctl_fz fpscr) (conv_fz (ctl_fz fpscr) D) (ctl_dn fpscr) op rounding 0 = Ok (y, 0 .| fl) /\
    converts S D (ctl_fz fpscr) (conv_fz (ctl_fz fpscr) D) (ctl_dn fpscr) (rmode_of rounding) op y fl.
Proof.
  intros Hc Hx Hr Hr4. destruct c; try done; cbn [conv_src conv_dst] in *.
  - apply (gnarrow_ok F64 F32 eq_refl 8); try done. now right.
  - destruct (ctl_ahp fpscr); [apply (gnarrow_ok F32 F16alt eq_refl 5)|apply (gnarrow_ok F32 F16 eq_refl 5)]; try done; now right.
  - destruct (ctl_ahp fpscr); [apply (gnarrow_ok F64 F16alt eq_refl 5)|apply (gnarrow_ok F64 F16 eq_refl 5)]; try done; now right.
Qed.

Lemma widen_ok c fzd rm op fpscr : match c with C64_32 | C32_16 | C64_16 => False | _ => True end -> is_bits (conv_src c (ctl_ahp fpscr)) op ->
  let S := conv_src c (ctl_ahp fpscr) in let D := conv_dst c (ctl_ahp fpscr) in
  exists y fl, gwiden S D (match c with C32_64 => fp32_normalise | _ => fp16_normalise end) (conv_fz (ctl_fz fpscr) S) (ctl_dn fpscr) op 0 = (y, 0 .| fl) /\
    converts S D (conv_fz (ctl_fz fpscr) S) fzd (ctl_dn fpscr) rm op y fl.
Proof.
  intros Hc Hx. destruct c; try done; cbn [conv_src conv_dst] in *.
  - apply (gwiden_ok F32 F64 eq_refl); try done. apply fp32_normalise_ok.
  - destruct (ctl_ahp fpscr); [apply (gwiden_ok F16alt F32 eq_refl)|apply (gwiden_ok F16 F32 eq_refl)]; try done; apply fp16_normalise_ok.
  - destruct (ctl_ahp fpscr); [apply (gwiden_ok F16alt F64 eq_refl)|apply (gwiden_ok F16 F64 eq_refl)]; try done; apply fp16_normalise_ok.
Qed.

Lemma convert_ok c op rounding fpscr : let S := conv_src c (ctl_ahp fpscr) in let D := conv_dst c (ctl_ahp fpscr) in
  is_bits S op -> in_range 32 fpscr -> 0 <= rounding <= 5 -> rounding <> FPRounding_TIEAWAY ->
  exists y fl, convert c op rounding fpscr = Ok (y, fpscr .| fl) /\
    converts S D (conv_fz (ctl_fz fpscr) S) (conv_fz (ctl_fz fpscr) D) (ctl_dn fpscr) (rmode_of rounding) op y fl.
Proof.
  intros S D Hx Hf Hr Hr4. destruct (match c with C64_32 | C32_16 | C64_16 => true | _ => false end) eqn:Hc.
  - assert (match c with C64_32 | C32_16 | C64_16 => True | _ => False end) as Hc' by now destruct c.
    destruct (narrow_ok c op rounding fpscr Hc' Hx Hr Hr4) as (y & fl & E & H). exists y, fl. rewrite convert_narrow, E by done. cbn [rbind].
    rewrite Z.lor_0_l, set_fpscr0_ok by eauto using converts_flags. split; [done|]. unfold S at 2. rewrite conv_fz_full by (destruct c; done). exact H.
  - assert (match c with C64_32 | C32_16 | C64_16 => False | _ => True end) as Hc' by now destruct c.
    destruct (widen_ok c (conv_fz (ctl_fz fpscr) D) (rmode_of rounding) op fpscr Hc' Hx) as (y & fl & E & H). exists y, fl. rewrite convert_widen, E by done.
    rewrite Z.lor_0_l, set_fpscr0_ok by eauto using converts_flags. done.
Qed.

Lemma convert_away c op rounding fpscr : match c with C64_32 | C32_16 | C64_16 => True | _ => False end ->
  is_bits (conv_src c (ctl_ahp fpscr)) op -> in_range 32 fpscr ->
  (nonzero (operand (conv_src c (ctl_ahp fpscr)) (ctl_fz fpscr) op) -> convert c op FPRounding_TIEAWAY fpscr = Err Assert_failed) /\
  (~ nonzero (operand (conv_src c (ctl_ahp fpscr)) (ctl_fz fpscr) op) -> convert c op FPRounding_TIEAWAY fpscr = convert c op rounding fpscr).
Proof.
  intros Hc Hx Hf. rewrite !convert_narrow by done. set (D := conv_dst c (ctl_ahp fpscr)).
  assert (Valid (conv_src c (ctl_ahp fpscr)) /\ ieee (conv_src c (ctl_ahp fpscr)) = true) as [VS HI] by (destruct c; try done; split; apply _ || done).
  pose proof (gnarrow_away (conv_src c (ctl_ahp fpscr)) D HI (match c with C64_32 => 8 | _ => 5 end) (ctl_fz fpscr) (conv_fz (ctl_fz fpscr) D)
    (ctl_dn fpscr) op 0 rounding Hx) as [A B].
  split; intros H; [now rewrite (A H)|now rewrite (B H)].
Qed.

(** C15: conversions between the formats: the six [fplibConvert]s return the number an operand
    stands for in the other format, rounded as the argument [rounding] asks (in every mode but
    ties away from zero, against which the code asserts), with exactly the exceptions of IEEE 754; half precision is never flushed to zero, NaNs keep their sign and
    leading bits, and ARM's alternative half precision, which has neither infinities
    nor NaNs, saturates. *)
Theorem fplibConvert_correct c op rounding fpscr : let S := conv_src c (ctl_ahp fpscr) in let D := conv_dst c (ctl_ahp fpscr) in
  is_bits S op -> in_range 32 fpscr -> 0 <= rounding <= 5 -> rounding <> FPRounding_TIEAWAY ->
  exists y fl, convert c op rounding fpscr = Ok (y, fpscr .| fl) /\
    converts S D (conv_fz (ctl_fz fpscr) S) (conv_fz (ctl_fz fpscr) D) (ctl_dn fpscr) (rmode_of rounding) op y fl.
Proof. apply convert_ok. Qed.

(** ** Round trips *)

Section round_trip.
Context (F : format) {VF : Valid F}.

(** Patterns that are no NaNs stand for different numbers. *)
Lemma decode_inj x y : is_bits F x -> is_bits F y -> is_nan F x = false -> decode F x = decode F y -> x = y.
Proof.
  intros Hx Hy Hn E. destruct (is_fields F x Hx) as (Px & Ex & Fx). destruct (is_fields F y Hy) as (Py & Ey & Fy).
  pose proof (@valid_M F VF). pose proof (emax_range F).
  assert (forall z, is_bits F z -> exp_of F z <> emax F -> exists v, decode F z = Num (sign_of F z) v /\
    v = (IZR (mant F false z) * bpow (expo F z - bias F - fM F))%R) as Hnum.
  { intros z Hz Hze. pose proof (operand_num F z false Hz Hze) as Ho. unfold operand in Ho. cbn [andb] in Ho. eauto. }
  unfold is_nan in Hn. destruct (Z.eq_dec (exp_of F x) (emax F)) as [Mx|Mx], (Z.eq_dec (exp_of F y) (emax F)) as [My|My].
  - unfold decode in E, Hn. rewrite Mx, My, Z.eqb_refl in *. destruct (Z.eqb_spec (frac_of F x) 0) as [Zx|]; [|done].
    destruct (Z.eqb_spec (frac_of F y) 0) as [Zy|]; [|done]. simplify_eq. congruence.
  - destruct (Hnum y Hy My) as (v & Ev & _). rewrite Ev in E. unfold decode in E. rewrite Mx, Z.eqb_refl in E. now destruct (frac_of F x =? 0).
  - destruct (Hnum x Hx Mx) as (v & Ev & _). rewrite Ev in E. unfold decode in E. rewrite My, Z.eqb_refl in E. now destruct (frac_of F y =? 0).
  - destruct (Hnum x Hx Mx) as (u & Eu & Vu). destruct (Hnum y Hy My) as (v & Ev & Vv). rewrite Eu, Ev in E. injection E as Es Euv. rewrite Vu, Vv in Euv.
    pose proof (magnitude_lt F false x y Hx Hy) as L. pose proof (magnitude_lt F false y x Hy Hx) as G. rewrite Euv in L, G.
    assert (expo F x = expo F y /\ mant F false x = mant F false y) as [Ee Em].
    { destruct (Z.lt_trichotomy (expo F x) (expo F y)) as [Hl|[He|Hl]]; [specialize (L (or_introl Hl)); lra| |specialize (G (or_introl Hl)); lra].
      split; [done|]. destruct (Z.lt_trichotomy (mant F false x) (mant F false y)) as [Hl|[Hm|Hl]]; [|done|].
      - specialize (L (or_intror (conj He Hl))). lra.
      - specialize (G (or_intror (conj (eq_sym He) Hl))). lra. }
    assert (exp_of F x = exp_of F y /\ frac_of F x = frac_of F y) as [E1 E2].
    { unfold expo, mant in *. destruct (Z.eqb_spec (exp_of F x) 0), (Z.eqb_spec (exp_of F y) 0); lia. }
    now rewrite Px, Py, Es, E1, E2.
Qed.

Lemma decode_nonneg x s v : is_bits F x -> decode F x = Num s v -> (0 <= v)%R /\ s = sign_of F x.
Proof.
  intros Hx E. destruct (is_fields F x Hx) as (_ & _ & Hf). pose proof (pow2_pos (fM F) ltac:(pose proof (@valid_M F VF); lia)). unfold decode in E. repeat case_match; simplify_eq; (split; [|done]);
    (apply Rmult_le_pos; [apply IZR_le; lia|apply Rlt_le, bpow_pos]).
Qed.

End round_trip.

(** The narrower and the wider format of a pair of conversions. *)
Lemma conv_repr c ahp x s v : match c with C64_32 | C32_16 | C64_16 => False | _ => True end -> is_bits (conv_src c ahp) x ->
  decode (conv_src c ahp) x = Num s v -> (0 < v)%R ->
  exists y, is_bits (conv_dst c ahp) y /\ decode (conv_dst c ahp) y = Num s v /\ exp_of (conv_dst c ahp) y <> 0.
Proof.
  intros Hc. destruct c; try done; cbn [conv_src conv_dst].
  - apply (widen_repr F32 F64 fp32_normalise); try done. apply fp32_normalise_ok.
  - destruct ahp; [apply (widen_repr F16alt F32 fp16_normalise)|apply (widen_repr F16 F32 fp16_normalise)]; try done; apply fp16_normalise_ok.
  - destruct ahp; [apply (widen_repr F16alt F64 fp16_normalise)|apply (widen_repr F16 F64 fp16_normalise)]; try done; apply fp16_normalise_ok.
Qed.

(** What widening returns stands for the operand, and is not subnormal. *)
Lemma widened_same c ahp fzd dn rm x y fl : let S := conv_src c ahp in let D := conv_dst c ahp in
  match c with C64_32 | C32_16 | C64_16 => False | _ => True end -> is_bits S x -> is_bits D y -> is_nan S x = false ->
  match decode S x with
  | NaN q => if ieee D then y = (if dn : bool then default_nan D else converted_nan S D x) /\ fl = (if q then 0 else FPLIB_IOC) else decode D y = Num (sign_of S x) 0 /\ fl = FPLIB_IOC
  | Inf s => if ieee D then decode D y = Inf s /\ fl = 0 else decode D y = Num s (greatest D) /\ fl = FPLIB_IOC
  | Num s v => if Req_EM_T v 0 then decode D y = Num s 0 /\ fl = 0 else rounded D fzd rm s v y fl
  end -> decode D y = decode S x /\ fl = 0 /\ is_subnormal D y = false.
Proof.
  intros S D Hc Hx Hy Hn H. assert (Valid S /\ Valid D /\ ieee D = true) as (VS & VD & HD) by (unfold S, D; destruct c, ahp; done || split_and!; try apply _; done).
  rewrite HD in H. unfold is_nan in Hn. pose proof (emax_range D) as Hem. destruct (is_fields D y Hy) as (_ & _ & Hfy).
  assert (is_subnormal D y = true -> exists s v, decode D y = Num s v /\ (0 < v)%R) as Hsub.
  { unfold is_subnormal. intros [E0%Z.eqb_eq Ef]%andb_true_iff. unfold decode. rewrite E0, (proj2 (Z.eqb_neq 0 (emax D))) by lia. cbn [Z.eqb]. eexists _, _. split; [done|].
    apply negb_true_iff, Z.eqb_neq in Ef. apply Rmult_lt_0_compat; [apply IZR_lt; lia|apply bpow_pos]. }
  destruct (decode S x) as [q|s|s v] eqn:Ex; [done| |].
  - destruct H as [Ey ->]. split_and!; [done..|]. destruct (is_subnormal D y); [|done]. destruct (Hsub eq_refl) as (? & ? & ? & _). congruence.
  - destruct (Req_EM_T v 0) as [->|Hv].
    + destruct H as [Ey ->]. split_and!; [done..|]. destruct (is_subnormal D y); [|done]. destruct (Hsub eq_refl) as (? & ? & E & ?). rewrite Ey in E. injection E as <- <-. lra.
    + destruct (decode_nonneg S x s v Hx Ex) as [Hv' _]. destruct (conv_repr c ahp x s v Hc Hx Ex ltac:(lra)) as (y0 & B0 & D0 & E0). fold D in B0, D0, E0.
      apply (rounded_only D _ _ _ _ y0) in H as [Ey ->]; [|done|done|lra|now right]. split_and!; [done..|].
      assert (y0 = y) as <- by (apply (decode_inj D); [done..|unfold is_nan; now rewrite D0|congruence]). unfold is_subnormal. now rewrite (proj2 (Z.eqb_neq _ 0)).
Qed.

(** The way there, in any rounding mode: exact, and not subnormal. *)
Lemma widened c op r1 fpscr : let S := conv_src c (ctl_ahp fpscr) in let D := conv_dst c (ctl_ahp fpscr) in
  match c with C64_32 | C32_16 | C64_16 => False | _ => True end ->
  is_bits S op -> is_nan S op = false -> conv_fz (ctl_fz fpscr) S && is_subnormal S op = false -> in_range 32 fpscr ->
  exists y, convert c op r1 fpscr = Ok (y, fpscr) /\ is_bits D y /\ decode D y = decode S op /\ is_subnormal D y = false.
Proof.
  intros S D Hc Hx Hn Hsub Hf.
  destruct (widen_ok c (conv_fz (ctl_fz fpscr) D) RNE op fpscr Hc Hx) as (y & fl & E & Hy & fl' & -> & H1). fold S D in E, Hy, H1.
  assert (operand S (conv_fz (ctl_fz fpscr) S) op = decode S op) as Eo by (unfold operand; now rewrite Hsub). rewrite Eo in H1.
  assert (flushed S (conv_fz (ctl_fz fpscr) S) [op] = 0) as Ef by (unfold flushed; cbn [existsb]; now rewrite orb_false_r, Hsub).
  assert (decode D y = decode S op /\ fl' = 0 /\ is_subnormal D y = false) as (Ey & -> & Sy)
    by now apply (widened_same c (ctl_ahp fpscr) (conv_fz (ctl_fz fpscr) D) (ctl_dn fpscr) RNE).
  exists y. rewrite convert_widen by done. fold S D. rewrite E, Ef. split_and!; done.
Qed.

(** The way back, in a mode the rounding accepts. *)
Lemma narrowed_back c op y r2 fpscr : let S := conv_src c (ctl_ahp fpscr) in let D := conv_dst c (ctl_ahp fpscr) in
  match c with C64_32 | C32_16 | C64_16 => False | _ => True end ->
  is_bits S op -> is_nan S op = false -> conv_fz (ctl_fz fpscr) S && is_subnormal S op = false -> in_range 32 fpscr ->
  is_bits D y -> decode D y = decode S op -> is_subnormal D y = false ->
  0 <= r2 <= 5 -> r2 <> FPRounding_TIEAWAY -> convert (conv_back c) y r2 fpscr = Ok (op, fpscr).
Proof.
  intros S D Hc Hx Hn Hsub Hf Hy Ey Sy R2 R2'.
  assert (conv_src (conv_back c) (ctl_ahp fpscr) = D /\ conv_dst (conv_back c) (ctl_ahp fpscr) = S) as [ES ED] by (destruct c; done).
  assert (Valid S) as VS by (unfold S; destruct c, (ctl_ahp fpscr); apply _).
  destruct (convert_ok (conv_back c) y r2 fpscr ltac:(now rewrite ES) Hf R2 R2') as (z & fl2 & E2 & Hz & fl2' & -> & H2). rewrite ES, ED in *.
  assert (operand D (conv_fz (ctl_fz fpscr) D) y = decode S op) as Eo' by (unfold operand; now rewrite Sy, andb_false_r).
  assert (flushed D (conv_fz (ctl_fz fpscr) D) [y] = 0) as Ef' by (unfold flushed; cbn [existsb]; now rewrite Sy, andb_false_r).
  rewrite Eo' in H2. rewrite Ef', Z.lor_0_l in E2. rewrite E2.
  assert (decode S op = decode S z /\ fl2' = 0) as [Ez ->]; [|rewrite (decode_inj S op z Hx Hz Hn Ez), Z.lor_0_r; done].
  unfold is_nan in Hn. destruct (decode S op) as [q|s|s v] eqn:Eop; [done| |].
  - destruct (ieee S) eqn:HS; [destruct H2; split; congruence|]. exfalso. unfold decode, emax in Eop. rewrite HS in Eop. destruct (is_fields S op Hx) as (_ & He & _).
    rewrite (proj2 (Z.eqb_neq (exp_of S op) (2 ^ fE S))) in Eop by lia. now destruct (exp_of S op =? 0).
  - destruct (Req_EM_T v 0) as [->|Hv]; [destruct H2; split; congruence|]. destruct (decode_nonneg S op s v Hx Eop) as [Hv' _].
    apply (rounded_only S _ _ _ _ op) in H2; [destruct H2; split; congruence|done|done|lra|].
    unfold is_subnormal in Hsub. destruct (conv_fz (ctl_fz fpscr) S); [right|now left]. cbn [andb] in Hsub. intros E0. rewrite E0 in Hsub. cbn [Z.eqb andb] in Hsub.
    apply negb_false_iff, Z.eqb_eq in Hsub. unfold decode in Eop. rewrite E0, Hsub in Eop. pose proof (emax_range S). rewrite (proj2 (Z.eqb_neq 0 (emax S))) in Eop by lia. injection Eop as _ E. lra.
Qed.

(** C16: a number survives a round trip: converting a number or an infinity to a wider format, in
    any rounding mode, and back, in any mode but ties away from zero, returns the very pattern
    and raises nothing; subnormal single precision numbers do unless the register flushes
    them to zero.  In the mode ties away from zero the way back returns zeros and infinities,
    and fails an assertion of the code for every other number. *)
Theorem fplibConvert_round_trip c op r1 r2 fpscr : let S := conv_src c (ctl_ahp fpscr) in
  match c with C64_32 | C32_16 | C64_16 => False | _ => True end ->
  is_bits S op -> is_nan S op = false -> conv_fz (ctl_fz fpscr) S && is_subnormal S op = false -> in_range 32 fpscr ->
  0 <= r2 <= 5 ->
  exists y, convert c op r1 fpscr = Ok (y, fpscr) /\
    (r2 <> FPRounding_TIEAWAY \/ ~ nonzero (decode S op) -> convert (conv_back c) y r2 fpscr = Ok (op, fpscr)) /\
    (r2 = FPRounding_TIEAWAY -> nonzero (decode S op) -> convert (conv_back c) y r2 fpscr = Err Assert_failed).
Proof.
  intros S Hc Hx Hn Hsub Hf R2. set (D := conv_dst c (ctl_ahp fpscr)).
  destruct (widened c op r1 fpscr Hc Hx Hn Hsub Hf) as (y & E1 & Hy & Ey & Sy). fold S D in E1, Hy, Ey, Sy.
  exists y. split; [done|].
  assert (conv_src (conv_back c) (ctl_ahp fpscr) = D) as ES by (destruct c; done).
  assert (operand D (ctl_fz fpscr) y = decode S op) as Eo by (unfold operand; now rewrite Sy, andb_false_r).
  destruct (Z.eq_dec r2 FPRounding_TIEAWAY) as [->|Hr]; [|split; [intros _|done]; now apply narrowed_back].
  destruct (convert_away (conv_back c) y 0 fpscr) as [A B]; [now destruct c|now rewrite ES|done|]. rewrite ES, Eo in A, B.
  split; [|intros _; exact A]. intros [|H]; [done|]. rewrite (B H). now apply narrowed_back.
Qed.

(** A double that is too great for single precision, and for the alternative half precision. *)
Lemma fplibConvert_correct_witness : convert C64_32 0x47f0000000000000 0 0 = Ok (0x7f800000, 20) /\ convert C64_16 0x47f0000000000000 0 0x4000000 = Ok (0x7fff, 0x4000001) /\
  exists y fl, convert C64_32 0x47f0000000000000 0 0 = Ok (y, 0 .| fl) /\
    converts F64 F32 (conv_fz (ctl_fz 0) F64) (conv_fz (ctl_fz 0) F32) (ctl_dn 0) (rmode_of 0) 0x47f0000000000000 y fl.
Proof.
  split; [vm_compute; reflexivity|]. split; [vm_compute; reflexivity|].
  apply (fplibConvert_correct C64_32 0x47f0000000000000 0 0); [split; first [discriminate|reflexivity]..|discriminate].
Defined.

(** The least subnormal single precision number, back towards plus infinity and with ties away. *)
Lemma fplibConvert_round_trip_witness : convert C32_64 1 0 0 = Ok (0x36a0000000000000, 0) /\
  convert C64_32 0x36a0000000000000 4 0 = Err Assert_failed /\
  exists y, convert C32_64 1 0 0 = Ok (y, 0) /\ convert C64_32 y 1 0 = Ok (1, 0).
Proof.
  split; [vm_compute; reflexivity|]. split; [vm_compute; reflexivity|].
  destruct (fplibConvert_round_trip C32_64 1 0 1 0) as (y & A & B & _);
    [exact I|split; [discriminate|reflexivity]|reflexivity|reflexivity|split; [discriminate|reflexivity]|split; discriminate|].
  exists y. split; [exact A|]. apply B. left. discriminate.
Defined.
