(* ===== verification/FpFixed.v ===== *)
(** * Floating point, fixed point and integers

    [fplibFPToFixed] rounds and saturates, [fplibRoundInt] rounds to an integral value, and
    [fplibFixedToFP] is correctly rounded. *)
From Stdlib Require Import Reals Lra.
From S2P Require Import Prelude FplibCore Fplib FplibConv FpSpec FpBits FpFields FpRound FpOps FpAdd FpMul FpDiv FpFma FpSteps FpCompare FpConvert.

(** ** Definitions: the specification *)

(** The range of the fixed-point numbers of [w] bits. *)
Definition fixed_lo (w : Z) (u : bool) : Z := if u then 0 else - 2 ^ (w - 1).
Definition fixed_hi (w : Z) (u : bool) : Z := if u then 2 ^ w - 1 else 2 ^ (w - 1) - 1.

(** [y] is the magnitude [t] of a number of sign [s] rounded to an integer, and saturated. *)
Definition saturates (w : Z) (u : bool) (rm : rmode) (s : bool) (t : R) (y fl : Z) : Prop :=
  exists n, rounds_int rm s t n /\
  let N := signed_Z s n in
  if (fixed_lo w u <=? N) && (N <=? fixed_hi w u) then y = wrap w N /\ fl = if Req_EM_T t (IZR n) then 0 else FPLIB_IXC
  else y = wrap w (if s then fixed_lo w u else fixed_hi w u) /\ fl = FPLIB_IOC.

(** [y] is [x] in fixed point with [fbits] fractional bits. *)
Definition to_fixed (w : Z) (u : bool) (rm : rmode) (fbits : Z) (x : num) (y fl : Z) : Prop :=
  match x with
  | NaN _ => y = 0 /\ fl = FPLIB_IOC
  | Inf s => y = wrap w (if s then fixed_lo w u else fixed_hi w u) /\ fl = FPLIB_IOC
  | Num s v => saturates w u rm s (v * bpow fbits) y fl
  end.

(** [y] is [x] rounded to an integral value, which is inexact only if the caller asks. *)
Definition rounds_integral (F : format) (fz dn : bool) (rm : rmode) (inexact : bool) (x y fl : Z) : Prop :=
  is_bits F y /\ exists fl', fl = flushed F fz [x] .| fl' /\
  match operand F fz x with
  | NaN q => y = (if dn then default_nan F else quieted F x) /\ fl' = (if q then 0 else FPLIB_IOC)
  | Inf s => decode F y = Inf s /\ fl' = 0
  | Num s v => exists n, rounds_int rm s v n /\ decode F y = Num s (IZR n) /\
      fl' = (if inexact then if Req_EM_T v (IZR n) then 0 else FPLIB_IXC else 0)
  end.

(** ** Rounding to an integer *)

(** The code adds [up] to the truncated magnitude [x], given two more bits and a sticky one. *)
Lemma round_up_ok rm s err x t : 0 <= rm <= 4 -> 0 <= err < 4 -> same 1 (4 * x + err) (4 * t) ->
  exists up, round_up rm (Z.b2z s) err x = Ok up /\ (up = 0 \/ up = 1 /\ err <> 0) /\ rounds_int (rmode_of rm) s t (x + up) /\ (err = 0 <-> t = IZR (x + up)).
Proof.
  intros Hrm Herr Hs.
  assert (err = 0 /\ t = IZR x \/ err = 1 /\ (IZR x < t < IZR x + / 2)%R \/ err = 2 /\ (t = IZR x + / 2)%R \/ err = 3 /\ (IZR x + / 2 < t < IZR x + 1)%R) as Ht.
  { destruct Hs as [Hs|(q & Hq & Hv)].
    - rewrite plus_IZR, mult_IZR in Hs. assert (err = 0 \/ err = 1 \/ err = 2 \/ err = 3) as [->|[->|[->| ->]]] by lia; [left|right; left|right; right; left|do 3 right]; split; try done; lra.
    - change (2 ^ 1) with 2 in *. rewrite !mult_IZR, plus_IZR in Hv. assert (err = 1 /\ q = 2 * x \/ err = 3 /\ q = 2 * x + 1) as [[-> ->]|[-> ->]] by lia.
      + right; left. split; [done|]. rewrite mult_IZR in Hv. lra.
      + do 3 right. split; [done|]. rewrite plus_IZR, mult_IZR in Hv. lra. }
  assert (truth (x .& 1) = Z.odd x) as Hodd.
  { unfold truth. change 1 with (2 ^ 1 - 1) at 1. rewrite land_mask, Zmod_odd by lia. now destruct (Z.odd x). }
  assert (Z.even (x + 1) = Z.odd x) as Heven by (now rewrite Z.add_1_r, Z.even_succ). assert (Z.even x = negb (Z.odd x)) as Heven' by now rewrite Z.negb_odd.
  assert (Z.even (x + 0) = negb (Z.odd x)) as Heven0 by now rewrite Z.add_0_r.
  unfold round_up. rewrite Hodd. pose proof (plus_IZR x 1) as P1. pose proof (plus_IZR x 0) as P0.
  assert (rm = 0 /\ rmode_of rm = RNE \/ rm = 1 /\ rmode_of rm = RUP \/ rm = 2 /\ rmode_of rm = RDN \/ rm = 3 /\ rmode_of rm = RTZ \/ rm = 4 /\ rmode_of rm = RNA) as Hm.
  { assert (rm = 0 \/ rm = 1 \/ rm = 2 \/ rm = 3 \/ rm = 4) as [->|[->|[->|[->| ->]]]] by lia; auto 9. }
  destruct Hm as [[-> ->]|[[-> ->]|[[-> ->]|[[-> ->]|[-> ->]]]]], Ht as [[-> Ht]|[[-> Ht]|[[-> Ht]|[-> Ht]]]]; destruct s, (Z.odd x); cbn in Heven, Heven', Heven0;
    eexists; (split; [reflexivity|]); (split; [auto|]); cbn [rounds_int];
    (match goal with |- context [x + ?b] => let b' := eval vm_compute in b in change b with b' end); rewrite ?P0, ?P1;
    (split; [|split; intros; first [done|lia|lra]]); try lra.
  all: unfold Rabs; destruct (Rcase_abs _); (split; [lra|intros; done || lra]).
Qed.

(** ** Fixed point *)

Definition trunc_err (A n : Z) : Z :=
  if n <? 2 then 0 else (lsr64 A (n - 2) .& 3) .| nz (A .& u64 (lsl64 1 (n - 2) - 1)).

Lemma trunc_ok A n : 0 <= A < 2 ^ 64 -> (2 | A) -> 0 <= n < 2 ^ 32 ->
  lsr64 A n = A / 2 ^ n /\ 0 <= trunc_err A n < 4 /\ same 1 (4 * (A / 2 ^ n) + trunc_err A n) (4 * (IZR A * bpow (- n))) /\ (trunc_err A n <> 0 -> 2 <= n).
Proof.
  intros HA Hd Hn. unfold trunc_err. split; [now apply (lsrW_div 64)|]. destruct (Z.ltb_spec n 2).
  - split; [lia|]. split; [|lia]. left. rewrite Z.add_0_r, mult_IZR. f_equal. assert (n = 0 \/ n = 1) as [->| ->] by lia.
    + change (- 0) with 0. now rewrite Z.div_1_r, bpow_0, Rmult_1_r.
    + destruct Hd as [k ->]. change (2 ^ 1) with 2. rewrite Z.div_mul, mult_IZR by lia. pose proof (bpow_opp 1) as E. rewrite (bpow_IZR 1) in E by lia. change (IZR (2 ^ 1)) with 2%R in E. nra.
  - destruct (sr_div4 A (n - 2)) as [E4 Em]. change (lsr64 A (n - 2)) with (lsrW 64 A (n - 2)). change (u64 (lsl64 1 (n - 2) - 1)) with (wrap 64 (lslW 64 1 (n - 2) - 1)).
    rewrite lsrW_div, lslW_mask by lia. rewrite <- Em. pose proof (Z.mod_pos_bound (sr A (n - 2)) 4 ltac:(lia)). split; [lia|]. split; [|lia].
    replace (A / 2 ^ n) with (A / 2 ^ (n - 2) / 4). 2: { pose proof (pow2_pos (n - 2) ltac:(lia)). rewrite Z.div_div by lia. change 4 with (2 ^ 2). rewrite <- pow2_split by lia. do 2 f_equal. lia. }
    rewrite <- E4, <- Z.div_mod by lia. replace (4 * (IZR A * bpow (- n)))%R with (IZR A * bpow (- (n - 2)))%R; [apply sr_exact; lia|].
    replace (- (n - 2)) with (2 + - n) by lia. rewrite bpow_add, (bpow_IZR 2) by lia. change (IZR (2 ^ 2)) with 4%R. ring.
Qed.

Lemma FPToFixed_64_ok s exp mnt u rounding flags : 0 <= mnt < 2 ^ 53 -> 2 ^ 52 <= mnt \/ exp <= 1086 -> - 2 ^ 20 < exp < 2 ^ 20 -> 0 <= rounding <= 4 ->
  exists y fl, FPToFixed_64 (Z.b2z s) exp mnt u rounding flags = Ok (y, if fl =? 0 then flags else fl) /\
    saturates 64 u (rmode_of rounding) s (IZR mnt * bpow (exp - 1075)) y fl /\ 0 <= y < 2 ^ 64.
Proof.
  intros Hm Hn He Hr. unfold FPToFixed_64. rewrite b2z_0. set (t := (IZR mnt * bpow (exp - 1075))%R).
  assert (u64 (u64 (Z.b2z (negb u) ≪ 63) - Z.b2z (negb s)) = wrap 64 (if s then fixed_lo 64 u else fixed_hi 64 u)) as -> by (destruct u, s; reflexivity).
  set (limit := wrap 64 _). assert (0 <= limit < 2 ^ 64) as Hlim by (apply Z.mod_pos_bound; lia).
  destruct (Z.ltb_spec (1023 + 63) exp) as [Hbig|Hsmall].
  - exists limit, FPLIB_IOC. split; [done|]. split; [|done]. exists (mnt * 2 ^ (exp - 1075)). unfold t. rewrite <- IZR_scale by lia. split; [apply rounds_int_self|].
    assert (2 ^ 64 <= mnt * 2 ^ (exp - 1075)) as Hl by (pose proof (pow2_le 12 (exp - 1075) ltac:(lia)); nia).
    cbv zeta. rewrite (proj2 (andb_false_iff _ _)); [done|]. rewrite !Z.leb_gt. unfold fixed_lo, fixed_hi, signed_Z. destruct s, u; lia.
  - set (A := u64 (mnt ≪ 11)). assert (A = mnt * 2 ^ 11) as EA by (unfold A; rewrite Z.shiftl_mul_pow2 by lia; apply u64_small; unfold in_range; lia).
    assert (t = IZR A * bpow (- (1086 - exp)))%R as Et by (unfold t; rewrite EA, IZR_scale, Rmult_assoc, <- bpow_add by lia; do 2 f_equal; lia).
    assert (0 <= A < 2 ^ 64) as HA by lia. assert (2 | A) as Hd by (exists (mnt * 2 ^ 10); lia). clearbody A t.
    destruct (trunc_ok A (1086 - exp) HA Hd ltac:(lia)) as (Ex & Herr & Hs & Hbits). rewrite <- Et in Hs.
    change (1023 + 63) with 1086. rewrite Ex. set (x := A / 2 ^ (1086 - exp)) in *.
    assert (0 <= x < 2 ^ 64 /\ (2 <= 1086 - exp -> x < 2 ^ 62)) as [Hx Hx62].
    { pose proof (pow2_pos (1086 - exp) ltac:(lia)). unfold x. split; [split; [apply Z.div_pos; lia|apply Z.div_lt_upper_bound; nia]|].
      intros H2%pow2_le. apply Z.div_lt_upper_bound; lia. }
    match goal with |- context [round_up rounding _ ?e x] => assert (e = trunc_err A (1086 - exp)) as -> end.
    { unfold trunc_err. change (1086 - 2) with 1084. replace (1086 - exp - 2) with (1084 - exp) by lia.
      destruct (Z.ltb_spec 1084 exp), (Z.ltb_spec (1086 - exp) 2); done || lia. }
    destruct (round_up_ok rounding s (trunc_err A (1086 - exp)) x t Hr Herr Hs) as (up & -> & Hup & Hrnd & Hexact). cbn [rbind].
    assert (0 <= x + up < 2 ^ 64) as Hx' by lia. rewrite (u64_small (x + up)) by done.
    set (err := trunc_err A (1086 - exp)) in *. set (x' := x + up) in *. clearbody x' err. clear Hup Hx62 Ex Hs.
    match goal with |- context [if ?c then Ok (limit, _) else _] => assert (c = negb ((fixed_lo 64 u <=? signed_Z s x') && (signed_Z s x' <=? fixed_hi 64 u))) as -> end.
    { unfold fixed_lo, fixed_hi, signed_Z. destruct u, s; cbn [Z.b2z negb truth andb]; change (u64 ((1 ≪ 63) - 0)) with (2 ^ 63); change (u64 ((1 ≪ 63) - 1)) with (2 ^ 63 - 1);
        unfold truth; cbn [Z.eqb negb andb]; change (64 - 1) with 63; split_cmp; done || lia. }
    destruct ((_ <=? _) && _) eqn:Hin; cbn [negb].
    + exists (wrap 64 (signed_Z s x')), (if Req_EM_T t (IZR x') then 0 else FPLIB_IXC). split; [|split].
      * f_equal. f_equal; [rewrite truth_b2z; destruct s; cbn [signed_Z]; [done|]; symmetry; apply wrap_small; done|].
        unfold truth. destruct (Req_EM_T t (IZR x')) as [E|E], (Z.eqb_spec err 0) as [E'|E']; try done; tauto.
      * exists x'. split; [done|]. cbv zeta. now rewrite Hin.
      * apply Z.mod_pos_bound. lia.
    + exists limit, FPLIB_IOC. split; [done|]. split; [|done]. exists x'. split; [done|]. cbv zeta. now rewrite Hin.
Qed.

Lemma rounds_int_nonneg rm s t n : (0 <= t)%R -> rounds_int rm s t n -> 0 <= n.
Proof.
  intros Ht Hr. assert (-1 < IZR n)%R as H%lt_IZR; [|lia]. destruct rm; cbn in Hr.
  - destruct Hr as [Hr _]. unfold Rabs in Hr. destruct (Rcase_abs _); lra.
  - destruct s; lra.
  - destruct s; lra.
  - lra.
  - lra.
  - destruct Hr as [->|[Hr _]]; [lra|]. unfold Rabs in Hr. destruct (Rcase_abs _); lra.
Qed.

(** Saturating at 64 bits first does not matter. *)
Lemma saturates_32 u rm s t y fl flags : (0 <= t)%R -> saturates 64 u rm s t y fl -> 0 <= y < 2 ^ 64 ->
  exists y' fl', (if (if u then 1 ≪ 32 <=? y else negb ((y <? 1 ≪ 31) || (u64 (- y) <=? 1 ≪ 31)))
      then Ok (u32 (u32 (Z.b2z (negb u) ≪ 31) - Z.b2z (Z.b2z s =? 0)), FPLIB_IOC) else Ok (u32 y, if fl =? 0 then flags else fl)) =
    @Ok (Z * Z) (y', if fl' =? 0 then flags else fl') /\ saturates 32 u rm s t y' fl' /\ 0 <= y' < 2 ^ 32.
Proof.
  intros Ht (n & Hn & H) Hy. pose proof (rounds_int_nonneg rm s t n Ht Hn) as Hn0. rewrite b2z_0. set (N := signed_Z s n) in *. cbv zeta in H.
  assert (u32 (u32 (Z.b2z (negb u) ≪ 31) - Z.b2z (negb s)) = wrap 32 (if s then fixed_lo 32 u else fixed_hi 32 u)) as -> by (destruct u, s; reflexivity).
  set (limit := wrap 32 _). assert (0 <= limit < 2 ^ 32) as Hlim by (apply Z.mod_pos_bound; lia). change (1 ≪ 32) with (2 ^ 32). change (1 ≪ 31) with (2 ^ 31).
  assert (exists c, (if u then 2 ^ 32 <=? y else negb ((y <? 2 ^ 31) || (u64 (- y) <=? 2 ^ 31))) = c /\
    if c then (fixed_lo 32 u <=? N) && (N <=? fixed_hi 32 u) = false
    else if (fixed_lo 32 u <=? N) && (N <=? fixed_hi 32 u) then u32 y = wrap 32 N /\ fl = (if Req_EM_T t (IZR n) then 0 else FPLIB_IXC)
         else u32 y = limit /\ fl = FPLIB_IOC) as (c & -> & Hc).
  { eexists. split; [reflexivity|]. destruct ((fixed_lo 64 u <=? N) && _) eqn:Hin in H; destruct H as [-> ->].
    - apply andb_true_iff in Hin as [H1%Z.leb_le H2%Z.leb_le]. unfold fixed_lo, fixed_hi in *. destruct u.
      + rewrite (wrap_small 64 N) by (unfold in_range; lia). destruct (Z.leb_spec (2 ^ 32) N), (Z.leb_spec 0 N), (Z.leb_spec N (2 ^ 32 - 1)); cbn [andb]; done || lia.
      + change (64 - 1) with 63 in *. change (32 - 1) with 31. unfold u64, u32, wrap in *.
        destruct (Z.ltb_spec (N mod 2 ^ 64) (2 ^ 31)), (Z.leb_spec ((- (N mod 2 ^ 64)) mod 2 ^ 64) (2 ^ 31)), (Z.leb_spec (- 2 ^ 31) N), (Z.leb_spec N (2 ^ 31 - 1)); cbn [orb negb andb]; try done; try (exfalso; divlia); split; try done; divlia.
    - apply andb_false_iff in Hin. rewrite !Z.leb_gt in Hin. unfold fixed_lo, fixed_hi in *. change (64 - 1) with 63 in *. change (32 - 1) with 31.
      unfold N, signed_Z in *. destruct u, s.
      + change (wrap 64 0) with 0. change (2 ^ 32 <=? 0) with false. cbv iota. rewrite (proj2 (Z.leb_gt 0 (- n))) by lia. done.
      + change (wrap 64 (2 ^ 64 - 1)) with (2 ^ 64 - 1). change (2 ^ 32 <=? 2 ^ 64 - 1) with true. cbv iota. rewrite (proj2 (Z.leb_gt n (2 ^ 32 - 1))) by lia. apply andb_false_r.
      + change (wrap 64 (- 2 ^ 63)) with (2 ^ 63). change (negb _) with true. cbv iota. rewrite (proj2 (Z.leb_gt (- 2 ^ 31) (- n))) by lia. done.
      + change (wrap 64 (2 ^ 63 - 1)) with (2 ^ 63 - 1). change (negb _) with true. cbv iota. rewrite (proj2 (Z.leb_gt n (2 ^ 31 - 1))) by lia. apply andb_false_r. }
  destruct c.
  - exists limit, FPLIB_IOC. split; [done|]. split; [|done]. exists n. split; [done|]. cbv zeta. fold N. now rewrite Hc.
  - exists (u32 y), fl. split; [done|]. split; [|apply Z.mod_pos_bound; lia]. exists n. split; [done|]. cbv zeta. fold N. destruct ((fixed_lo 32 u <=? N) && _); exact Hc.
Qed.

Lemma FPToFixed_32_ok s exp mnt u rounding flags : 0 <= mnt < 2 ^ 53 -> 2 ^ 52 <= mnt \/ exp <= 1086 -> - 2 ^ 20 < exp < 2 ^ 20 -> 0 <= rounding <= 4 ->
  exists y fl, FPToFixed_32 (Z.b2z s) exp mnt u rounding flags = Ok (y, if fl =? 0 then flags else fl) /\
    saturates 32 u (rmode_of rounding) s (IZR mnt * bpow (exp - 1075)) y fl /\ 0 <= y < 2 ^ 32.
Proof.
  intros Hm Hn He Hr. unfold FPToFixed_32. destruct (FPToFixed_64_ok s exp mnt u rounding flags Hm Hn He Hr) as (y & fl & -> & Hs & Hy). cbn [rbind].
  apply saturates_32; [|done..]. apply Rmult_le_pos; [apply IZR_le; lia|apply Rlt_le, bpow_pos].
Qed.

(** The four [fplibFPToFixed]s: from the format [T] to words of the width of [W]. *)
Definition fp_to_fixed (T W : fpT) : Z -> Z -> bool -> Z -> Z -> result (Z * Z) :=
  match T, W with
  | T32, T32 => fplibFPToFixed_32_32 | T64, T32 => fplibFPToFixed_64_32
  | T32, T64 => fplibFPToFixed_32_64 | T64, T64 => fplibFPToFixed_64_64
  end.

(** An operand in the units of the code. *)
Definition fixed_exp (T : fpT) (e fbits : Z) : Z := match T with T32 => e + 1023 - 127 + fbits | T64 => e + fbits end.
Definition fixed_mnt (T : fpT) (m : Z) : Z := match T with T32 => u64 (m ≪ (52 - 23)) | T64 => m end.

Lemma fp_to_fixed_code T W op fbits u rounding fpscr : fp_to_fixed T W op fbits u rounding fpscr =
  let '(sgn, exp, mnt, flags) := gunpack (fmt T) op (mode_fz (modeConv fpscr)) 0 in
  let* '(result, flags) :=
    if gnan_fields (fmt T) exp mnt then Ok (0, FPLIB_IOC)
    else match W with T32 => FPToFixed_32 | T64 => FPToFixed_64 end sgn (fixed_exp T exp fbits) (fixed_mnt T mnt) u rounding flags in
  Ok (result, set_fpscr0 fpscr flags).
Proof. destruct T, W; reflexivity. Qed.

Lemma rounds_int_close rm s t n : rounds_int rm s t n -> (Rabs (t - IZR n) <= 1)%R.
Proof.
  intros Hr. unfold Rabs. destruct rm; cbn in Hr; try (destruct s); try (destruct (Rcase_abs _); lra).
  all: unfold Rabs in Hr; repeat destruct (Rcase_abs _); lra.
Qed.

(** Numbers beyond all words saturate, and zero is exact. *)
Lemma saturates_big w u rm s t y fl : 0 < w <= 64 -> (bpow 65 <= t)%R -> saturates w u rm s t y fl ->
  y = wrap w (if s then fixed_lo w u else fixed_hi w u) /\ fl = FPLIB_IOC.
Proof.
  intros Hw Ht (n & Hn & H). apply rounds_int_close in Hn. rewrite bpow_IZR in Ht by lia.
  assert (IZR (2 ^ 64) < IZR n)%R as Hb%lt_IZR.
  { unfold Rabs in Hn. assert (IZR (2 ^ 64) + 1 < IZR (2 ^ 65))%R by (rewrite <- plus_IZR; apply IZR_lt; lia). destruct (Rcase_abs _); lra. }
  pose proof (pow2_le w 64 ltac:(lia)). pose proof (pow2_le (w - 1) 64 ltac:(lia)). cbv zeta in H. rewrite (proj2 (andb_false_iff _ _)) in H; [done|].
  rewrite !Z.leb_gt. unfold fixed_lo, fixed_hi, signed_Z. destruct s, u; lia.
Qed.

Lemma saturates_zero w u rm s y fl : 0 < w -> saturates w u rm s 0 y fl -> fl = 0.
Proof.
  intros Hw (n & Hn & H). apply rounds_int_only in Hn as ->. cbv zeta in H. pose proof (pow2_pos (w - 1) ltac:(lia)). pose proof (pow2_pos w ltac:(lia)).
  rewrite (proj2 (andb_true_iff _ _)) in H.
  - destruct H as [_ ->]. now destruct (Req_EM_T 0 0).
  - rewrite !Z.leb_le. unfold fixed_lo, fixed_hi, signed_Z. destruct s, u; lia.
Qed.

(** C17: conversion to fixed point: every [fplibFPToFixed] returns the number, scaled by
    [2 ^ fbits] and rounded in the mode given, as a word of 32 or 64 bits, signed or not;
    what does not fit saturates and is invalid, a NaN gives zero, and any other change of the value
    is inexact. *)
Theorem fplibFPToFixed_correct T W op fbits u rounding fpscr : is_bits (fmt T) op -> 0 <= fbits <= 64 -> 0 <= rounding <= 4 -> in_range 32 fpscr ->
  exists y fl, fp_to_fixed T W op fbits u rounding fpscr = Ok (y, fpscr .| (flushed (fmt T) (ctl_fz fpscr) [op] .| fl)) /\
    0 <= y < 2 ^ fW (fmt W) /\ to_fixed (fW (fmt W)) u (rmode_of rounding) fbits (operand (fmt T) (ctl_fz fpscr) op) y fl.
Proof.
  intros Hx Hfb Hr Hf. assert (ieee (fmt T) = true) as HI by now destruct T. assert (Valid (fmt T)) as VT by (destruct T; apply _).
  rewrite fp_to_fixed_code, mode_fz_conv, gunpack_ok by done. cbv iota beta. rewrite nan_fields_ok, Z.lor_0_l by done. set (fz := ctl_fz fpscr).
  destruct (is_nan (fmt T) op) eqn:Hn.
  { destruct (operand_view (fmt T) HI op fz Hx) as [(_ & [q ->] & _)|[(? & _)|(? & _)]]; [|congruence..]. exists 0, FPLIB_IOC. cbn [rbind]. split; [|split; [split; [done|now destruct W]|done]].
    rewrite set_fpscr0_ok by done. do 3 f_equal. unfold flushed, is_subnormal. cbn [existsb]. rewrite is_nan_fields in Hn by done. apply andb_true_iff in Hn as [E%Z.eqb_eq _].
    pose proof (pow2_le 2 (fE (fmt T)) (@valid_E _ VT)). change (2 ^ 2) with 4 in *. rewrite (proj2 (Z.eqb_neq _ 0)) by lia. now rewrite andb_false_r. }
  destruct (mant_range (fmt T) op fz Hx) as [Hm Hm']. destruct (is_fields (fmt T) op Hx) as (_ & He & _).
  set (m := mant (fmt T) fz op) in *. set (e := expo (fmt T) op) in *.
  assert (1 <= e < 2 ^ fE (fmt T)) as He' by (unfold e, expo; pose proof (pow2_le 2 (fE (fmt T)) (@valid_E _ VT)); change (2 ^ 2) with 4 in *; destruct (Z.eqb_spec (exp_of (fmt T) op) 0); lia).
  assert (fixed_mnt T m = m * 2 ^ (52 - fM (fmt T)) /\ 0 <= fixed_mnt T m < 2 ^ 53 /\ (2 ^ 52 <= fixed_mnt T m \/ fixed_exp T e fbits <= 1086) /\ - 2 ^ 20 < fixed_exp T e fbits < 2 ^ 20) as (Em & Hmm & Hmn & Hee).
  { destruct T; cbn [fixed_mnt fixed_exp fmt] in *; change (fM F32) with 23 in *; change (fM F64) with 52 in *; change (fE F32) with 8 in *; change (fE F64) with 11 in *.
    - rewrite Z.shiftl_mul_pow2, u64_small by (unfold in_range; lia). lia.
    - lia. }
  assert (IZR (fixed_mnt T m) * bpow (fixed_exp T e fbits - 1075) = IZR m * bpow (e - bias (fmt T) - fM (fmt T)) * bpow fbits)%R as Et.
  { rewrite Em, IZR_scale, !Rmult_assoc, <- !bpow_add by (destruct T; cbn; lia). do 2 f_equal. destruct T; cbn [fmt fixed_exp fM F32 F64];
      [change (bias F32) with 127|change (bias F64) with 1023]; lia. }
  assert (exists y fl, match W with T32 => FPToFixed_32 | T64 => FPToFixed_64 end (Z.b2z (sign_of (fmt T) op)) (fixed_exp T e fbits) (fixed_mnt T m) u rounding (flushed (fmt T) fz [op]) =
      Ok (y, if fl =? 0 then flushed (fmt T) fz [op] else fl) /\
    saturates (fW (fmt W)) u (rmode_of rounding) (sign_of (fmt T) op) (IZR m * bpow (e - bias (fmt T) - fM (fmt T)) * bpow fbits) y fl /\ 0 <= y < 2 ^ fW (fmt W)) as (y & fl & -> & Hs & Hy).
  { rewrite <- Et. destruct W; [now apply FPToFixed_32_ok|now apply FPToFixed_64_ok]. }
  assert (0 < fW (fmt W) <= 64) as HW by (now destruct W).
  assert (fl = 0 \/ flushed (fmt T) fz [op] = 0) as Hfl.
  { unfold flushed, is_subnormal. cbn [existsb]. rewrite orb_false_r. destruct (fz && _) eqn:E; [left|now right].
    apply andb_true_iff in E as [Efz [E0 _]%andb_true_iff]. assert (m = 0) as Em0 by (unfold m, mant; now rewrite E0, Efz). rewrite Em0, !Rmult_0_l in Hs. apply saturates_zero in Hs; [done|lia]. }
  exists y, fl. cbn [rbind]. split; [|split; [done|]].
  - assert (flag_bits (flushed (fmt T) fz [op] .| fl)) as Hfb'.
    { apply flag_bits_lor; [unfold flushed; now destruct (fz && _)|]. destruct Hs as (n & _ & H). cbv zeta in H. destruct ((fixed_lo _ _ <=? _) && _); destruct H as [_ ->]; [now destruct (Req_EM_T _ _)|done]. }
    assert ((if fl =? 0 then flushed (fmt T) fz [op] else fl) = flushed (fmt T) fz [op] .| fl) as ->; [|now rewrite set_fpscr0_ok].
    destruct (Z.eqb_spec fl 0) as [->|]; [now rewrite Z.lor_0_r|]. destruct Hfl as [|Ef]; [done|]. now rewrite Ef.
  - destruct (operand_cases (fmt T) HI op fz Hx Hn) as [(E & -> & _)|(_ & _ & ->)]; [|done].
    apply (saturates_big _ _ _ _ _ _ _ HW) in Hs; [done|]. rewrite <- Et. apply Z.eqb_eq in E. fold e in E.
    assert (2 ^ 52 <= fixed_mnt T m) by (destruct Hm' as [Hm'|E1]; [rewrite Em; destruct T; cbn [fmt fM F32 F64] in *; lia|rewrite E1 in E; destruct T; discriminate E]).
    assert (13 + 1075 <= fixed_exp T e fbits) by (rewrite E; destruct T; cbn; lia).
    apply (Rle_trans _ (IZR (2 ^ 52) * bpow 13)); [rewrite <- bpow_IZR, <- bpow_add by lia; apply bpow_le; lia|].
    apply Rmult_le_compat; [apply IZR_le; lia|apply Rlt_le, bpow_pos|apply IZR_le; lia|apply bpow_le; lia].
Qed.

(** ** Integral values *)

(** The code at a format. *)
Definition gintegral (F : format) (normalise : Z -> Z -> Z * Z) (op rounding : Z) (inexact : bool) (mode flags : Z) : result (Z * Z) :=
  let C := bias F + fM F in
  let '(sgn, exp, mnt, flags) := gunpack F op (mode_fz mode) flags in
  if gnan_fields F exp mnt then Ok (gprocess_NaN F op (mode_dn mode) flags)
  else if exp =? 2 ^ fE F - 1 then Ok (gpack F sgn (2 ^ fE F - 1) 0, flags)
  else if mnt =? 0 then Ok (gpack F sgn 0 0, flags)
  else if C <=? exp then Ok (op, flags)
  else
    let x := if fW F <=? C - exp then 0 else mnt ≫ (C - exp) in
    let err :=
      if exp <? C - fW F then 1
      else ((wrap (fW F) (mnt ≪ 1) ≫ (C - 1 - exp)) .& 3) .| Z.b2z (negb (wrap (fW F) (wrap (fW F) (mnt ≪ 2) ≪ (exp - (C - fW F))) =? 0)) in
    let* up := round_up rounding sgn err x in
    let x := wrap (fW F) (x + up) in
    let result :=
      if x =? 0 then gpack F sgn 0 0 else let '(mnt, exp) := normalise x C in gpack F sgn (exp + fE F) (mnt ≫ fE F) in
    Ok (result, if truth err && inexact then flags .| FPLIB_IXC else flags).

Lemma integral_code T op rounding inexact fpscr : fplibRoundInt T op rounding inexact fpscr =
  (let* '(x, flags) := gintegral (fmt T) (match T with T32 => fp32_normalise | T64 => fp64_normalise end) op rounding inexact (modeConv fpscr) 0 in Ok (x, set_fpscr0 fpscr flags)).
Proof.
  destruct T; unfold fplibRoundInt, fplibRoundInt32, fplibRoundInt64, gintegral; cbn [fmt].
  - rewrite unpack32. destruct (gunpack _ _ _ _) as [[[? ?] ?] ?]. rewrite process_NaN32. reflexivity.
  - rewrite unpack64. destruct (gunpack _ _ _ _) as [[[? ?] ?] ?]. rewrite process_NaN64. reflexivity.
Qed.

Section integral.
Context (F : format) {VF : Valid F} (HI : ieee F = true) (normalise : Z -> Z -> Z * Z) (HMb : fM F <= bias F).
Context (Hnorm : forall m e m' e', normalise m e = (m', e') -> 1 <= m < 2 ^ fW F -> normalised (fW F) m e m' e').

Let HM : 2 <= fM F := valid_M.
Let HE : 2 <= fE F := valid_E.

(** Two fractional bits and a sticky one. *)
Lemma integral_err m n : 0 < m < 2 ^ (fM F + 1) -> 1 <= n ->
  let x := if fW F <=? n then 0 else m ≫ n in
  let err := if fW F <? n then 1 else ((wrap (fW F) (m ≪ 1) ≫ (n - 1)) .& 3) .| Z.b2z (negb (wrap (fW F) (wrap (fW F) (m ≪ 2) ≪ (fW F - n)) =? 0)) in
  0 <= err < 4 /\ 0 <= x < 2 ^ fM F /\ same 1 (4 * x + err) (4 * (IZR m * bpow (- n))).
Proof.
  intros Hm Hn. cbv zeta. assert (fW F = 1 + fE F + fM F) as EW by done. pose proof (pow2_pos (fM F) ltac:(lia)).
  pose proof (pow2_le (fM F + 1 + 2) (fW F) ltac:(lia)) as HW. rewrite (pow2_split (fM F + 1) 2) in HW by lia. change (2 ^ 2) with 4 in HW.
  assert (2 ^ (fM F + 1) = 2 * 2 ^ fM F) as E1 by (now rewrite Z.add_1_r, Z.pow_succ_r by lia).
  assert ((if fW F <=? n then 0 else m ≫ n) = m / 2 ^ n) as ->.
  { destruct (Z.leb_spec (fW F) n) as [Hl|]; [|now rewrite Z.shiftr_div_pow2 by lia]. apply pow2_le in Hl. symmetry. apply Z.div_small. lia. }
  assert (0 <= m / 2 ^ n < 2 ^ fM F) as Hx.
  { pose proof (pow2_le 1 n ltac:(lia)). change (2 ^ 1) with 2 in *. split; [apply Z.div_pos; lia|]. apply Z.div_lt_upper_bound; nia. }
  destruct (Z.ltb_spec (fW F) n) as [Hl|Hl].
  - split; [lia|]. split; [done|]. rewrite Z.div_small by (pose proof (pow2_le (fW F) n ltac:(lia)); lia). right. exists 0. change (2 ^ 1) with 2. split; [lia|].
    assert (0 < IZR m)%R as Pm by (apply IZR_lt; lia). pose proof (bpow_pos (- n)) as Pn.
    assert (IZR m * bpow (- n) < / 2)%R; [|pose proof (Rmult_lt_0_compat _ _ Pm Pn); change (0 * 2) with 0; change ((0 + 1) * 2) with 2; lra]. apply (Rlt_le_trans _ (bpow (fM F + 1) * bpow (- n))).
    + apply Rmult_lt_compat_r; [done|]. rewrite bpow_IZR by lia. apply IZR_lt. lia.
    + rewrite <- bpow_add. apply (Rle_trans _ (bpow (- 1))); [apply bpow_le; lia|]. pose proof (bpow_opp 1) as E. change (Z.opp 1) with (-1) in E. rewrite (bpow_IZR 1) in E by lia. change (IZR (2 ^ 1)) with 2%R in E. lra.
  - rewrite !Z.shiftl_mul_pow2, !(wrap_small (fW F) (m * _)) by (unfold in_range; change (2 ^ 1) with 2; change (2 ^ 2) with 4; lia).
    change (2 ^ 1) with 2. change (2 ^ 2) with 4. fold (nz (wrap (fW F) (m * 4 * 2 ^ (fW F - n)))). pose proof (pow2_pos (fW F - n) ltac:(lia)). pose proof (pow2_pos n ltac:(lia)).
    assert (wrap (fW F) (m * 4 * 2 ^ (fW F - n)) = (m * 4) mod 2 ^ n * 2 ^ (fW F - n)) as ->.
    { unfold wrap. replace (2 ^ fW F) with (2 ^ n * 2 ^ (fW F - n)) by (rewrite <- pow2_split by lia; f_equal; lia). apply Z.mul_mod_distr_r; lia. }
    rewrite nz_mul by done. assert ((m * 2) ≫ (n - 1) = (m * 4) / 2 ^ n) as ->.
    { rewrite Z.shiftr_div_pow2 by lia. replace (2 ^ n) with (2 ^ (n - 1) * 2) by (rewrite Z.mul_comm, <- Z.pow_succ_r by lia; f_equal; lia).
      replace (m * 4) with (m * 2 * 2) by lia. rewrite Z.div_mul_cancel_r; [done|pose proof (pow2_pos (n - 1)); lia|lia]. }
    destruct (sr_div4 (m * 4) n) as [E4 Em]. rewrite <- Em. pose proof (Z.mod_pos_bound (sr (m * 4) n) 4 ltac:(lia)). split; [lia|]. split; [done|].
    replace (m / 2 ^ n) with (m * 4 / 2 ^ n / 4). 2: { rewrite Z.div_div, (Z.mul_comm (2 ^ n)), <- Z.div_div by lia. now rewrite Z.div_mul by lia. }
    rewrite <- E4, <- Z.div_mod by lia. replace (4 * (IZR m * bpow (- n)))%R with (IZR (m * 4) * bpow (- n))%R by (rewrite mult_IZR; ring). apply sr_exact. lia.
Qed.

(** Packing the integer. *)
Lemma integral_pack s x : 0 < x <= 2 ^ fM F -> let '(m, e) := normalise x (bias F + fM F) in
  let y := gpack F (Z.b2z s) (e + fE F) (m ≫ fE F) in is_bits F y /\ decode F y = Num s (IZR x).
Proof.
  intros Hx. assert (fW F = 1 + fE F + fM F) as EW by done. pose proof (pow2_lt (fM F) (fW F) ltac:(lia) ltac:(lia)).
  destruct (normalise x (bias F + fM F)) as [m e] eqn:En. apply Hnorm in En as (z & Hz & -> & -> & Hr); [|lia]. cbv zeta.
  assert (fE F <= z).
  { destruct (Z_le_gt_dec (fE F) z) as [|Hlt]; [done|]. assert (x * 2 ^ z < 2 ^ (fW F - 1)); [|lia].
    apply (Z.le_lt_trans _ (2 ^ fM F * 2 ^ z)); [pose proof (pow2_pos z Hz); nia|]. rewrite <- pow2_split by lia. apply pow2_lt; lia. }
  assert (z < fW F) by (destruct (Z_lt_le_dec z (fW F)) as [|Hl]; [done|]; apply pow2_le in Hl; nia).
  set (k := z - fE F) in *. replace z with (k + fE F) in * by (unfold k; lia). rewrite pow2_split, Z.mul_assoc in * by lia. pose proof (pow2_pos (fE F) ltac:(lia)).
  rewrite Z.shiftr_div_pow2, Z.div_mul by lia.
  assert (2 ^ fM F <= x * 2 ^ k < 2 ^ (fM F + 1)) as Hn.
  { replace (fW F - 1) with (fM F + fE F) in Hr by lia. replace (fW F) with (fM F + 1 + fE F) in Hr by lia. rewrite !(pow2_split _ (fE F)) in Hr by lia. nia. }
  assert (emax F = 2 * bias F + 1) as Em by (unfold emax, bias; rewrite HI; replace (fE F) with (Z.succ (fE F - 1)) at 1 by lia; rewrite Z.pow_succ_r by lia; lia).
  destruct (decode_pack F s (bias F + fM F - k) (x * 2 ^ k)) as [B D]; [lia|rewrite (proj2 (Z.eqb_neq _ 0)); lia|].
  replace (bias F + fM F - (k + fE F) + fE F) with (bias F + fM F - k) by lia. split; [done|]. rewrite D, IZR_scale, Rmult_assoc, <- bpow_add by lia. f_equal.
  replace (k + _) with 0 by lia. rewrite bpow_0. lra.
Qed.

Lemma gintegral_ok op rounding inexact mode flags : is_bits F op -> 0 <= rounding <= 4 ->
  exists y fl, gintegral F normalise op rounding inexact mode flags = Ok (y, flags .| fl) /\
    rounds_integral F (mode_fz mode) (mode_dn mode) (rmode_of rounding) inexact op y fl.
Proof.
  intros Hx Hr. unfold gintegral. rewrite gunpack_ok by done. cbv iota beta. rewrite nan_fields_ok by done. unfold rounds_integral. set (fz := mode_fz mode).
  set (fl0 := flushed F fz [op]). destruct (is_nan F op) eqn:Hn.
  { destruct (operand_nan F op fz HI Hx Hn) as [-> E0]. fold fl0 in E0. rewrite gprocess_NaN_ok, E0, Z.lor_0_r by done. destruct (quieted_ok F HI op Hx Hn). destruct (default_nan_ok F).
    eexists _, (if is_snan F op then FPLIB_IOC else 0). split; [destruct (is_snan F op); now rewrite ?Z.lor_0_r|].
    split; [now destruct (mode_dn mode)|]. eexists. split; [symmetry; apply Z.lor_0_l|]. split; [done|]. now destruct (is_snan F op). }
  assert (forall y s v, operand F fz op = Num s v -> is_bits F y -> (exists n, rounds_int (rmode_of rounding) s v n /\ decode F y = Num s (IZR n) /\ v = IZR n) ->
    exists y' fl, Ok (y, flags .| fl0) = Ok (y', flags .| fl) /\ is_bits F y' /\ exists fl', fl = fl0 .| fl' /\
      match operand F fz op with
      | NaN q => y' = (if mode_dn mode then default_nan F else quieted F op) /\ fl' = (if q then 0 else FPLIB_IOC)
      | Inf s => decode F y' = Inf s /\ fl' = 0
      | Num s v => exists n, rounds_int (rmode_of rounding) s v n /\ decode F y' = Num s (IZR n) /\ fl' = (if inexact then if Req_EM_T v (IZR n) then 0 else FPLIB_IXC else 0)
      end) as Hexact.
  { intros y s v -> Hy (n & H1 & H2 & H3). exists y, (fl0 .| 0). rewrite Z.lor_0_r. split; [done|]. split; [done|]. exists 0. rewrite Z.lor_0_r. split; [done|].
    exists n. split; [done|]. split; [done|]. destruct (Req_EM_T v (IZR n)); [now destruct inexact|done]. }
  destruct (operand_cases F HI op fz Hx Hn) as [(-> & Ho & _)|(-> & He & Ho)].
  { rewrite Ho. destruct (decode_infinity F (sign_of F op) HI). eexists _, (fl0 .| 0). rewrite Z.lor_0_r. split; [done|]. split; [done|]. exists 0. now rewrite Z.lor_0_r. }
  destruct (mant_range F op fz Hx) as [Hm Hm']. set (m := mant F fz op) in *. set (e := expo F op) in *. set (C := bias F + fM F) in *.
  assert (0 < bias F) as Hbias by lia.
  destruct (Z.eqb_spec m 0) as [E0|E0].
  { destruct (decode_zero F (sign_of F op)). eapply Hexact; [exact Ho|done|]. exists 0. rewrite E0, Rmult_0_l. split; [apply rounds_int_self|done]. }
  destruct (Z.leb_spec C e) as [HC|HC].
  { eapply Hexact; [exact Ho|done|]. exists (m * 2 ^ (e - C)). rewrite IZR_scale by lia. replace (e - C) with (e - bias F - fM F) by lia. split; [rewrite <- IZR_scale by lia; apply rounds_int_self|].
    split; [|done]. rewrite <- Ho. unfold operand, is_subnormal. assert (exp_of F op <> 0) as H0 by (intros H0; unfold e, expo in HC; rewrite H0 in HC; cbn in HC; lia).
    rewrite (proj2 (Z.eqb_neq _ 0) H0). now rewrite andb_false_r. }
  destruct (integral_err m (C - e) ltac:(lia) ltac:(lia)) as (Herr & Hx0 & Hs). cbv zeta in Herr, Hx0, Hs.
  replace (e <? C - fW F) with (fW F <? C - e) by (split_cmp; done || lia). replace (C - 1 - e) with (C - e - 1) by lia. replace (e - (C - fW F)) with (fW F - (C - e)) by lia.
  set (x := if fW F <=? C - e then 0 else m ≫ (C - e)) in *. set (err := if fW F <? C - e then 1 else _) in *.
  replace (- (C - e)) with (e - bias F - fM F) in Hs by (unfold C; lia).
  destruct (round_up_ok rounding (sign_of F op) err x _ Hr Herr Hs) as (up & -> & Hup & Hrnd & Hex). cbn [rbind].
  assert (0 <= x + up <= 2 ^ fM F) as Hx' by lia. assert (2 ^ fM F < 2 ^ fW F) by (apply pow2_lt; unfold fW; lia). rewrite wrap_small by (unfold in_range; lia).
  set (x' := x + up) in *. clearbody x x' err. rewrite Ho.
  assert (exists y, (if x' =? 0 then gpack F (Z.b2z (sign_of F op)) 0 0 else let '(mnt, exp) := normalise x' C in gpack F (Z.b2z (sign_of F op)) (exp + fE F) (mnt ≫ fE F)) = y /\
    is_bits F y /\ decode F y = Num (sign_of F op) (IZR x')) as (y & -> & Hy & Hd).
  { eexists. split; [done|]. destruct (Z.eqb_spec x' 0) as [->|]; [apply (decode_zero F)|]. pose proof (integral_pack (sign_of F op) x' ltac:(lia)) as Hp. fold C in Hp.
    destruct (normalise x' C). exact Hp. }
  set (v := (IZR m * _)%R) in *. exists y, (fl0 .| (if inexact then if Req_EM_T v (IZR x') then 0 else FPLIB_IXC else 0)). rewrite Z.lor_assoc. split; [|split; [done|]; eexists; split; [done|]; exists x'; done].
  do 2 f_equal. unfold truth. destruct (Z.eqb_spec err 0) as [E|E], (Req_EM_T v (IZR x')) as [E'|E'], inexact; cbn [negb andb]; rewrite ?Z.lor_0_r; try done; tauto.
Qed.

End integral.

(** C18: rounding to an integral value: [fplibRoundInt] returns the integer nearest in the mode
    given, ties away from zero included, with the sign of the operand even when it is zero, and is
    inexact only if the caller asks and the value changed. *)
Theorem fplibRoundInt_correct T op rounding inexact fpscr : is_bits (fmt T) op -> 0 <= rounding <= 4 -> in_range 32 fpscr ->
  exists y fl, fplibRoundInt T op rounding inexact fpscr = Ok (y, fpscr .| fl) /\
    rounds_integral (fmt T) (ctl_fz fpscr) (ctl_dn fpscr) (rmode_of rounding) inexact op y fl.
Proof.
  intros Hx Hr Hf. rewrite integral_code.
  assert (exists y fl, gintegral (fmt T) (match T with T32 => fp32_normalise | T64 => fp64_normalise end) op rounding inexact (modeConv fpscr) 0 = Ok (y, 0 .| fl) /\
    rounds_integral (fmt T) (mode_fz (modeConv fpscr)) (mode_dn (modeConv fpscr)) (rmode_of rounding) inexact op y fl) as (y & fl & -> & H).
  { destruct T; apply gintegral_ok; try done; [apply fp32_normalise_ok|apply fp64_normalise_ok]. }
  rewrite mode_fz_conv, mode_dn_conv in H by done. exists y, fl. split; [|done]. cbn [rbind]. rewrite Z.lor_0_l, set_fpscr0_ok; [done|].
  destruct H as (_ & fl' & -> & H). apply flag_bits_lor; [unfold flushed; now destruct (ctl_fz fpscr && _)|].
  destruct (operand (fmt T) (ctl_fz fpscr) op) as [q|s|s v]; [destruct H as [_ ->]; now destruct q|now destruct H as [_ ->]|].
  destruct H as (n & _ & _ & ->). destruct inexact; [|done]. now destruct (Req_EM_T _ _).
Qed.

(** ** From fixed point *)

(** The code joins [rounding] to the mode bits, of which two hold the rounding and the next
    the flushing to zero; so the modes from 4 on lose their third bit to the flushing. *)
Definition cvtf_rm (rounding : Z) : rmode := rmode_of (if rounding <? 4 then rounding else rounding - 4).
Definition cvtf_fz (rounding fpscr : Z) : bool := ctl_fz fpscr || (4 <=? rounding).

Lemma cvtf_mode rounding fpscr : 0 <= rounding <= 5 -> in_range 32 fpscr ->
  let mode := rounding .| ((fpscr ≫ 22) .& 12) in mode_rm mode = cvtf_rm rounding /\ mode_fz mode = cvtf_fz rounding fpscr.
Proof.
  intros Hr Hf. cbv zeta. unfold cvtf_rm, cvtf_fz.
  assert (rounding = 0 \/ rounding = 1 \/ rounding = 2 \/ rounding = 3 \/ rounding = 4 \/ rounding = 5) as Hcases by lia. split.
  - unfold mode_rm. f_equal. rewrite Z.land_lor_distr_l, <- Z.land_assoc. change (12 .& 3) with 0. rewrite Z.land_0_r, Z.lor_0_r.
    now destruct Hcases as [->|[->|[->|[->|[->| ->]]]]].
  - unfold mode_fz, ctl_fz. rewrite Z.land_lor_distr_l, <- Z.land_assoc. change (12 .& FPLIB_FZ) with (2 ^ 2).
    assert (rounding .& FPLIB_FZ = if 4 <=? rounding then 4 else 0) as -> by now destruct Hcases as [->|[->|[->|[->|[->| ->]]]]].
    assert (truth ((fpscr ≫ 22) .& 2 ^ 2) = Z.odd (fpscr / 2 ^ 24)) as E by (rewrite truth_land, Z.shiftr_spec by lia; now apply fpscr_bit).
    rewrite <- E. destruct (4 <=? rounding).
    + rewrite orb_true_r. unfold truth. apply negb_true_iff, Z.eqb_neq. intros E0%Z.lor_eq_0_iff. lia.
    + now rewrite Z.lor_0_l, orb_false_r.
Qed.

Lemma norm64_exact64 s x e mode flags : 1 <= x < 2 ^ 64 -> - 2 ^ 20 < e < 2 ^ 20 ->
  delivered F64 mode (Finite s (IZR x * bpow (e - 1086))) flags
    (let '(m, e') := fp64_normalise x e in fp64_round (Z.b2z s) e' (u64 (m ≪ 1)) mode flags).
Proof.
  intros Hx He. destruct (fp64_normalise x e) as [m e'] eqn:En. apply fp64_normalise_ok in En as (z & Hz & -> & -> & Hm); [|lia]. change (64 - 1) with 63 in Hm.
  assert (z < 64) by (destruct (Z_lt_le_dec z 64) as [|Hl]; [done|]; apply pow2_le in Hl; nia).
  rewrite Z.shiftl_mul_pow2 by lia. change (2 ^ 1) with 2. replace (u64 (x * 2 ^ z * 2)) with (x * 2 ^ z * 2 - 2 ^ 64) by (apply (Z.mod_unique_pos _ _ 1); lia).
  apply delivered_round64 with (d := 1) (V := IZR (x * 2 ^ z * 2)); [lia..|apply same_exact|].
  change (x * 2 ^ z * 2) with (x * 2 ^ z * 2 ^ 1). rewrite <- Z.mul_assoc, <- pow2_split, IZR_scale, Rmult_assoc, <- bpow_add by lia. do 2 f_equal. lia.
Qed.

(** C19: conversion from fixed point: [fplibFixedToFP] returns a 64-bit integer, signed or not,
    divided by [2 ^ fbits] (for up to 64 bits) and rounded once, with exactly the exceptions of
    IEEE 754.  It is rounded in the mode given if that is one of the four modes of the register;
    the other two values of [rounding] do not get their meaning: ties away from zero rounds to
    nearest even and round to odd rounds towards plus infinity, since their third bit lands in
    the bit of the mode that flushes to zero ([cvtf_rm], [cvtf_fz]). *)
Theorem fplibFixedToFP_correct T op fbits (u : bool) rounding fpscr : in_range 64 op -> 0 <= fbits <= 64 -> 0 <= rounding <= 5 -> in_range 32 fpscr ->
  let N := if u then op else swrap 64 op in
  exists x fl, fplibFixedToFP T op fbits u rounding fpscr = Ok (x, fpscr .| fl) /\ is_bits (fmt T) x /\
    delivers (fmt T) (cvtf_fz rounding fpscr) (cvtf_rm rounding) (exactly false (IZR N * bpow (- fbits))) x fl.
Proof.
  intros Ho Hfb Hr Hf N. destruct (cvtf_mode rounding fpscr Hr Hf) as [Erm Efz]. unfold fplibFixedToFP. set (mode := rounding .| _) in *. clearbody mode.
  set (s := negb u && truth (op ≫ 63)). unfold in_range in Ho.
  assert (truth (op ≫ 63) = (2 ^ 63 <=? op)) as E63.
  { unfold truth. rewrite Z.shiftr_div_pow2 by lia. destruct (Z.leb_spec (2 ^ 63) op); destruct (Z.eqb_spec (op / 2 ^ 63) 0); try done; divlia. }
  assert (N = signed_Z s (if s then u64 (- op) else op) /\ 0 <= (if s then u64 (- op) else op) < 2 ^ 64) as [EN Hx].
  { unfold N, s, swrap, u64, wrap. rewrite E63. change (64 - 1) with 63. destruct u; cbn [negb andb signed_Z]; [lia|]. destruct (Z.leb_spec (2 ^ 63) op); cbn [signed_Z]; divlia. }
  set (x := if s then u64 (- op) else op) in *.
  assert (delivered (fmt T) mode (exactly false (IZR N * bpow (- fbits))) 0 (match T with T32 => fp32_cvtf | T64 => fp64_cvtf end op fbits u mode 0)) as (y & fl & E & Hb & Hd).
  { rewrite EN, <- signed_IZR. assert (fp32_cvtf op fbits u mode 0 = (if x =? 0 then Ok (gpack F32 (Z.b2z false) 0 0, 0) else let '(m, e) := fp64_normalise x (190 - fbits) in
        fp32_round (Z.b2z s) e (u32 ((m ≫ 31) .| nz (u32 (m ≪ 1)))) mode 0) /\
      fp64_cvtf op fbits u mode 0 = (if x =? 0 then Ok (gpack F64 (Z.b2z false) 0 0, 0) else let '(m, e) := fp64_normalise x (1086 - fbits) in fp64_round (Z.b2z s) e (u64 (m ≪ 1)) mode 0)) as [E32 E64].
    { unfold fp32_cvtf, fp64_cvtf. rewrite !truth_b2z. fold s. fold x. done. }
    assert (x = 0 -> exactly false (signed s (IZR x) * bpow (- fbits)) = Zero false) as Hzero by (intros ->; apply exactly_0; unfold signed; destruct s; lra).
    assert (x <> 0 -> exactly false (signed s (IZR x) * bpow (- fbits)) = Finite s (IZR x * bpow (- fbits))) as Hfin.
    { intros Hx0. assert (0 < IZR x)%R by (apply IZR_lt; lia). pose proof (bpow_pos (- fbits)). assert (0 < IZR x * bpow (- fbits))%R by nra.
      rewrite (exactly_pos _ _ s); [f_equal| |]; unfold signed; destruct s.
      - rewrite Rabs_left; lra.
      - rewrite Rabs_right; lra.
      - lra.
      - lra.
      - destruct (Rlt_dec _ _); [done|lra].
      - destruct (Rlt_dec _ _); [lra|done]. }
    destruct T; [rewrite E32|rewrite E64]; (destruct (Z.eqb_spec x 0) as [E0|E0]; [rewrite Hzero by done|rewrite Hfin by done]).
    - apply (delivered_zero F32).
    - destruct (fp64_normalise x (190 - fbits)) as [m e] eqn:En. replace (- fbits) with (190 - fbits - 190 + 0) by lia. rewrite <- (Z.add_0_r e).
      apply (norm64_round32 _ x _ _ _ _ _ _ _ En); [lia..|apply same_exact|now left].
    - apply (delivered_zero F64).
    - replace (- fbits) with (1086 - fbits - 1086) by lia. apply norm64_exact64; lia. }
  rewrite E. cbn [rbind]. rewrite Erm, Efz in Hd. exists y, fl. split; [|done]. rewrite Z.lor_0_l, set_fpscr0_ok; [done|].
  unfold delivers, exactly in Hd. destruct (Req_EM_T _ 0); [now destruct Hd as [_ ->]|]. eapply rounded_flags, Hd.
Qed.

(** [2.5] to an integer, ties to even; [-1] to an unsigned integer; a NaN. *)
Lemma fplibFPToFixed_correct_witness : fp_to_fixed T32 T32 0x40200000 0 false 0 0 = Ok (2, 16) /\ fp_to_fixed T32 T64 0xbf800000 0 true 0 0 = Ok (0, 1) /\
  exists y fl, fp_to_fixed T32 T32 0x40200000 0 false 0 0 = Ok (y, 0 .| (flushed F32 (ctl_fz 0) [0x40200000] .| fl)) /\ 0 <= y < 2 ^ 32 /\
    to_fixed 32 false (rmode_of 0) 0 (operand F32 (ctl_fz 0) 0x40200000) y fl.
Proof.
  split; [vm_compute; reflexivity|]. split; [vm_compute; reflexivity|].
  apply (fplibFPToFixed_correct T32 T32 0x40200000 0 false 0 0); split; first [discriminate|reflexivity].
Defined.

(** [2.5] rounded to even and away from zero. *)
Lemma fplibRoundInt_correct_witness : fplibRoundInt T64 0x4004000000000000 0 true 0 = Ok (0x4000000000000000, 16) /\ fplibRoundInt T64 0x4004000000000000 4 false 0 = Ok (0x4008000000000000, 0) /\
  exists y fl, fplibRoundInt T64 0x4004000000000000 4 false 0 = Ok (y, 0 .| fl) /\
    rounds_integral F64 (ctl_fz 0) (ctl_dn 0) (rmode_of 4) false 0x4004000000000000 y fl.
Proof.
  split; [vm_compute; reflexivity|]. split; [vm_compute; reflexivity|].
  apply (fplibRoundInt_correct T64 0x4004000000000000 4 false 0); split; first [discriminate|reflexivity].
Defined.

(** [-3 / 2]; and [2 ^ 24 + 1], which is a tie, asked to go away from zero and rounded to even. *)
Lemma fplibFixedToFP_correct_witness : fplibFixedToFP T32 0xfffffffffffffffd 1 false 0 0 = Ok (0xbfc00000, 0) /\
  fplibFixedToFP T32 0x1000001 0 false FPRounding_TIEAWAY 0 = Ok (0x4b800000, 16) /\
  exists x fl, fplibFixedToFP T32 0x1000001 0 false FPRounding_TIEAWAY 0 = Ok (x, 0 .| fl) /\ is_bits F32 x /\
    delivers F32 true RNE (exactly false (IZR (swrap 64 0x1000001) * bpow (- 0))) x fl.
Proof.
  split; [vm_compute; reflexivity|]. split; [vm_compute; reflexivity|].
  apply (fplibFixedToFP_correct T32 0x1000001 0 false FPRounding_TIEAWAY 0); split; first [discriminate|reflexivity].
Defined.
